(* ===== verification/_CoqProject ===== *)
-Q . S2P
Prelude.v
Dll.v
FrameList.v
Clock.v
Victim.v
FrameTable.v
FrameAlloc.v
FrameSafety.v
FrameEnv.v
Pqueue.v
Arith.v
Bitfield.v
Kernel.v
Cspace.v
CspaceSafety.v
CspaceDemo.v
TimerDevice.v
Timer.v
Irq.v
Untyped.v
Mapping.v
MappingSafety.v
MappingDemo.v
Dma.v
Bootstrap.v
Cpio.v
Elf.v
Pagefile.v
RbTree.v
RbShape.v
RbSearch.v
RbInsert.v
RbAdd.v
RbErase.v
VmRegion.v
RegionMap.v
VmMmap.v
WaitQueue.v
AddrSpace.v
Pages.v
Errno.v
WorkQueue.v
Syscall.v
Clients.v
UserCopy.v
FileTable.v
Console.v
FileWork.v
FileDemo.v
Nfs.v
NfsThreads.v
Continuation.v
ContDemo.v
Server.v
ServerCalls.v
ServerHandlers.v
ServerReplies.v
ServerDemo.v
PageJobs.v
