(* ===== verification/Prelude.v ===== *)
(** * A verification of SOS, a simple operating system on seL4

    SOS is the root task of an seL4 system: it owns the memory, the capabilities
    and the devices, and runs user programs.  This library models the parts of it
    whose behaviour is decided by data structures and protocols, as executable
    definitions over explicit states, and proves what they promise.

    ** How code becomes definitions

    A C or Zig function is a definition of the same name in the monad [M S A] of
    this file: the state [S] is passed explicitly, and a run either returns a
    value and a state or stops with a [fault] (a failed assertion, a NULL
    dereference, an access out of bounds, undefined behaviour, a fatal log, an
    exhausted iteration budget, and in Zig code what the language calls illegal
    behaviour, which stops a checked build and is undefined in the one that
    [build.zig] configures).  Machine integers are [Z] with [w8] .. [w64]
    written where the code wraps; pointers are addresses or offsets; memory that
    is shared between structures is one map.  [wpf F m Q s] says that [m] from [s]
    returns with [Q] or stops with a fault that [F] allows; [wp] allows none, so a
    theorem stated with [wp] includes that the code runs to its end without a
    failed assertion, a bad access or an exhausted budget.  Code outside of the
    modelled files is a class with the operations that are called and, where a
    theorem needs them, a second class with their laws; every such class has an
    instance that the witnesses run.

    ** The parts and the files

    - [Dll], [FrameList], [Clock], [Victim], [FrameTable], [FrameAlloc],
      [FrameSafety], [FrameEnv]: [sos/src/frame_table.c].  [Dll] has doubly linked
      segments and rings; [FrameList] the entries and the free and allocated lists;
      [Clock] the ring of evictable frames; [Victim] relates [clock_select_victim]
      to a definition without links; [FrameTable] has the invariant of the whole
      table and the public calls; [FrameAlloc] minting, page-out and [alloc_frame],
      over the classes [FrameMem] and [Pager]; [FrameSafety] the theorems;
      [FrameEnv] two environments.
    - [Pqueue]: [libpqueue/src/pqueue.c], the heap of timeouts.
    - [Arith], [Bitfield]: [libutils] [arith.h] and [page.h], and the bit fields of
      [libsel4cspace].
    - [Kernel], [Cspace], [CspaceSafety], [CspaceDemo]: the kernel calls as a class,
      and [libsel4cspace/src/cspace.c]: one- and two-level spaces, growth through
      the callbacks of the class [CspaceEnv], and slot allocation.
    - [TimerDevice], [Timer]: [libclock], the device registers and the C driver,
      over [Pqueue].
    - [Irq]: [sos/src/irq.c], over [Cspace].
    - [Untyped], [Mapping], [MappingSafety], [MappingDemo]: [ut.c], [mapping.c] and
      the callbacks of [bootstrap.c], where the untyped allocator, the mapping code
      and the capability space call each other; [sos_laws] discharges the laws that
      [CspaceSafety] asks of the callbacks.
    - [Dma], [Bootstrap]: [dma.c], and [bootstrap.c] from the boot information to
      the initial tables.
    - [Cpio], [Elf]: [libcpio] and [libelf], over bytes.
    - [Pagefile]: [sos/src/pagefile.zig], the slots of the pagefile and their pages.
    - [RbTree], [RbShape], [RbSearch], [RbInsert], [RbAdd], [RbErase]:
      [librbtree/src/rbtree.zig].  [RbTree] has the functions over a memory of nodes
      with parent pointers; [RbShape] the trees that lie in it, with contexts for
      the path above a node; [RbSearch] searching and iterating; [RbInsert] and
      [RbErase] the repairs after insertion and removal; [RbAdd] the theorems on
      insertion and two runs of the defect in [eraseFixup].
    - [VmRegion], [RegionMap], [VmMmap]: [sos/src/vm] [address.zig] and [region.zig];
      the map of regions of [addr_space.zig], over [RbTree]; and the break, [mmap]
      and segments of [client.zig] and [handle.zig], over [RegionMap].
    - [WaitQueue]: the wait queues of [page.zig] and the request table of [pager.zig].
    - [AddrSpace]: [page_table.zig], [mapping.zig] and the paging half of
      [addr_space.zig]: the records of a process's page tables.
    - [Pages]: the page records of [page.zig] and [client.zig] and the eviction
      calls of [mod.zig], for all processes, over [AddrSpace], [VmMmap] and
      [VmRegion].

    - [Errno], [Syscall]: the error numbers, and the messages of system calls in
      [libipc/src] [syscall.zig], [syscall_response.zig] and [lib.zig], both ways.
    - [Clients]: [libipc/src/ipc.c] and [ipc.h], the table of clients and their
      badges, with the handles of their memory in [vm/mod.zig].
    - [UserCopy]: the copies of [vm/handle.zig] between the server and a process,
      over a class for the pages of a process with the states of their records.
    - [FileTable], [Console], [FileWork], [FileDemo]: [file.zig] (handles counted by
      reference, descriptors, the console with its ring of input), [console.zig], and
      the operations of [worker.zig] on files, over a class for the file system.
    - [Nfs], [NfsThreads]: the pool of requests of [nfs_handler.zig] with the callback
      and the watchdog, and the worker threads that share the pool, as a step relation
      over single accesses; [libnfs] is a step that answers requests in any order.
    - [WorkQueue]: the queue between the server and a worker in [worker.zig], with
      both threads as a step relation over single accesses of the shared memory.
    - [Continuation], [ContDemo]: [continuation.zig], suspended calls, their queues,
      resumption and cancellation; what reaches the kernel is a trace of events.
    - [Server], [ServerCalls], [ServerHandlers], [ServerReplies], [ServerDemo]: the
      handlers of [main.zig], the system call turn of the loop in [main.c] and
      [sys/time.c].  [Server] has the definitions, over all of the components above;
      [ServerCalls] the suspension of a call; [ServerHandlers] the outcome of every
      handler; [ServerReplies] the ownership of reply objects; [ServerDemo] runs.
    - [PageJobs]: the page-outs and page transfers of [worker.zig], over [Pagefile].

    ** What the theorems show

    The frame table keeps its invariant in every reachable state, allocation fails
    no assertion and respects the reserve of the kernel, and eviction chooses the
    victim of a reference definition.  The priority queue is a heap that loses and
    invents nothing.  Slots, untypeds, device memory and pagefile slots are handed
    out to one holder at a time, and what is freed comes back; the three allocators
    that call each other end and keep each other's invariants.  The timer driver
    runs each due callback once and in order.  Archives and ELF files are read
    inside of their bytes.  Red-black trees stay sorted and balanced under insertion,
    and one removal takes out one node; the regions of a process stay apart, and
    [mmap] returns memory that overlaps nothing.  The page tables of a process
    count the pages below them while pages are mapped that were not mapped and
    unmapped that were, and resident pages keep their tables when another page is
    mapped without an eviction, or is prepared for one; the end of an eviction, and a
    request for a page that evicts others, do not keep them ([pageout_loses_tables],
    [demand_evicts] in [Pages]).

    A system call is decoded to what was sent, and every handler, for arguments that
    fit the types they are cast to, ends, on every branch, without undefined behaviour,
    and answers the call, suspends it in one queue, hands it to the timer or rejects it.  Through any sequence of calls, input,
    timers and completions that rejects no suspended call, no reply object is used
    after it was deleted.  Suspended calls are resumed and answered once; cancelling
    a client takes out its calls and no others.  Badges of destroyed clients are
    refused until their generation comes around.  A worker takes operations in the
    order they were enqueued under every interleaving; descriptors and references to
    files agree, and what a read reports is in the memory of the process.  Copies reach
    the memory of a process whose pages are not on their way out.  The synchronous
    network calls get their own answers as long as no request outlives the reuse of
    its slot and no two threads move the hand of the pool at once.  Page-outs are
    reported once, and a page comes back from the pagefile as it went out.

    Where the code does not do what it means to, a lemma evaluates the model on an
    input that shows it.

    ** Bounds and fuel

    A loop without a static bound takes a number of rounds computed from the state
    (the length of a list, the number of nodes in memory, the bytes of an archive),
    and its theorem shows that the number is enough.  Only the waits for the pager
    take their budget as an argument: other threads end them, and
    [pageout_wait_blocking_returns] says which budget is enough while the workers
    make progress.  Recursion between [ut_alloc] and the capability space is bounded by
    the sizes of untypeds, of which there are at most 64.  The evictions behind one
    request for a page are at most [max_calls] calls, which covers the batch and the
    retries of [alloc_frame].

    ** Not modelled

    The kernel, the C library, the network stacks ([picotcp], [libnfs]), the boot
    loader and the Ethernet driver are other projects, which SOS only calls.  Of the
    Zig code, the deferral of page faults in [vm_fault.zig], the allocator of
    metadata, the directory operations of the workers, the asynchronous opening of
    the pagefile and the requests of workers to the server in [delegation.zig] are not
    modelled; nor are, of the C code, the start of the first process, threads, the
    debugger, the network console and the network glue, which are sequences of calls
    to the kernel or to those libraries.  The atomics of [worker.zig] are
    sequentially consistent in the model.  The applications are tests of the system.
*)

From Stdlib Require Export ZArith Lia.
From stdpp Require Export prelude gmap.
#[export] Set Default Goal Selector "!".
Open Scope Z_scope.

(** ** Faults, outcomes and the state monad *)

(** What can stop a C function other than returning: a failed [assert], a
    dereference of NULL ([NullUntyped] is the one that the code of the initial capability
    space does when it is out of untypeds, and is kept apart so that theorems can
    allow it alone), an array index outside its array, a shift or builtin
    whose result the language leaves undefined, a fatal log ([ZF_LOGF], which
    aborts), and, for the model of a loop without a static bound, an exhausted
    iteration budget. *)
Inductive fault :=
| AssertFail
| NullDeref
| NullUntyped
| OutOfBounds
| Undefined
| Fatal
| OutOfFuel.

#[export] Instance fault_eq_dec : EqDecision fault.
Proof. solve_decision. Defined.

Inductive outcome (A : Type) :=
| Ok (a : A)
| Fault (f : fault).
Arguments Ok {A} a.
Arguments Fault {A} f.

(** A computation over the state [S]: the state is threaded explicitly, a
    fault discards it. *)
Definition M (S A : Type) : Type := S -> outcome (A * S).

#[export] Instance M_ret {S} : MRet (M S) := fun A a s => Ok (a, s).
#[export] Instance M_bind {S} : MBind (M S) := fun A B k m s =>
  match m s with
  | Ok (a, s') => k a s'
  | Fault f => Fault f
  end.

Section ops.
Context {S : Type}.
Definition get : M S S := fun s => Ok (s, s).
Definition gets {A} (f : S -> A) : M S A := fun s => Ok (f s, s).
Definition put (s : S) : M S unit := fun _ => Ok (tt, s).
Definition modify (f : S -> S) : M S unit := fun s => Ok (tt, f s).
Definition throw {A} (f : fault) : M S A := fun _ => Fault f.
(** C's [assert]. *)
Definition cassert (b : bool) : M S unit := if b then mret tt else throw AssertFail.
Definition when (b : bool) (m : M S unit) : M S unit := if b then m else mret tt.
(** An array access; outside the array it faults. *)
Definition access {A} (o : option A) : M S A :=
  match o with Some a => mret a | None => throw OutOfBounds end.
(** A C [for] loop over the values that its variable takes. *)
Fixpoint iterM {A} (f : A -> M S unit) (l : list A) : M S unit :=
  match l with
  | [] => mret tt
  | x :: r => _ ← f x; iterM f r
  end.
(** Read through a pointer or an optional value; NULL faults. *)
Definition deref {A} (o : option A) : M S A :=
  match o with Some a => mret a | None => throw NullDeref end.
End ops.

Definition run {S A} (m : M S A) (s : S) : outcome (A * S) := m s.

(** Run a computation of a component inside a larger state. *)
Definition zoom {W S A} (g : W -> S) (p : S -> W -> W) (m : M S A) : M W A := fun w =>
  match m (g w) with
  | Ok (a, s') => Ok (a, p s' w)
  | Fault f => Fault f
  end.

(** ** Weakest preconditions

    [wpf F m Q s] holds when [m] started in [s] returns a value and a state
    that satisfy [Q], or stops with a fault that [F] allows.  [wp] allows no
    fault; [wpd] allows the exhausted iteration budget only, and is used for
    the loops that wait for another thread. *)
Definition wpf (F : fault -> Prop) {S A} (m : M S A) (Q : A -> S -> Prop) (s : S) : Prop :=
  match m s with
  | Ok (a, s') => Q a s'
  | Fault f => F f
  end.

Abbreviation wp := (wpf (fun _ => False)).
Abbreviation wpd := (wpf (fun f => f = OutOfFuel)).

Section wp.
Context {S : Type} (F : fault -> Prop).

Lemma wpf_ret {A} (a : A) (Q : A -> S -> Prop) s : Q a s -> wpf F (mret a) Q s.
Proof. done. Qed.
Lemma wpf_bind {A B} (m : M S A) (k : A -> M S B) Q s :
  wpf F m (fun a s' => wpf F (k a) Q s') s -> wpf F (m ≫= k) Q s.
Proof. unfold wpf, mbind, M_bind. by destruct (m s) as [[a s']|f]. Qed.
Lemma wpf_get (Q : S -> S -> Prop) s : Q s s -> wpf F get Q s.
Proof. done. Qed.
Lemma wpf_gets {A} (f : S -> A) (Q : A -> S -> Prop) s : Q (f s) s -> wpf F (gets f) Q s.
Proof. done. Qed.
Lemma wpf_put s' (Q : unit -> S -> Prop) s : Q tt s' -> wpf F (put s') Q s.
Proof. done. Qed.
Lemma wpf_modify f (Q : unit -> S -> Prop) s : Q tt (f s) -> wpf F (modify f) Q s.
Proof. done. Qed.
Lemma wpf_assert b (Q : unit -> S -> Prop) s : b = true -> Q tt s -> wpf F (cassert b) Q s.
Proof. by intros ->. Qed.
Lemma wpf_when b (m : M S unit) (Q : unit -> S -> Prop) s :
  (b = true -> wpf F m Q s) -> (b = false -> Q tt s) -> wpf F (when b m) Q s.
Proof. destruct b; simpl; intros H1 H2; [by apply H1|by apply H2]. Qed.
Lemma wpf_if {A} (b : bool) (m1 m2 : M S A) Q s :
  (b = true -> wpf F m1 Q s) -> (b = false -> wpf F m2 Q s) ->
  wpf F (if b then m1 else m2) Q s.
Proof. destruct b; intros H1 H2; [by apply H1|by apply H2]. Qed.
Lemma wpf_throw {A} f (Q : A -> S -> Prop) s : F f -> wpf F (throw f) Q s.
Proof. done. Qed.
Lemma wpf_deref {A} (o : option A) a (Q : A -> S -> Prop) s :
  o = Some a -> Q a s -> wpf F (deref o) Q s.
Proof. by intros ->. Qed.
Lemma wpf_access {A} (o : option A) a (Q : A -> S -> Prop) s :
  o = Some a -> Q a s -> wpf F (access o) Q s.
Proof. by intros ->. Qed.
Lemma wpf_mono {A} (m : M S A) (P Q : A -> S -> Prop) s :
  wpf F m P s -> (forall a s', P a s' -> Q a s') -> wpf F m Q s.
Proof. unfold wpf. destruct (m s) as [[a s']|f]; auto. Qed.
Lemma wpf_conj {A} (m : M S A) (P Q : A -> S -> Prop) s :
  wpf F m P s -> wpf F m Q s -> wpf F m (fun a s' => P a s' /\ Q a s') s.
Proof. unfold wpf. destruct (m s) as [[a s']|f]; auto. Qed.
Lemma wpf_zoom {T A} (g : S -> T) (p : T -> S -> S) (m : M T A) Q s :
  wpf F m (fun a t => Q a (p t s)) (g s) -> wpf F (zoom g p m) Q s.
Proof. unfold wpf, zoom. by destruct (m (g s)) as [[a t]|f]. Qed.
(** A loop with an invariant over what is left to do. *)
Lemma wpf_iter {A} (f : A -> M S unit) (I : list A -> S -> Prop) l s :
  I l s -> (forall x r s', I (x :: r) s' -> wpf F (f x) (fun _ => I r) s') -> wpf F (iterM f l) (fun _ => I []) s.
Proof.
  intros HI Hf. revert s HI. induction l as [|x r IH]; intros s HI; [done|].
  cbn [iterM]. apply wpf_bind. eapply wpf_mono; [by apply Hf|]. intros [] s'. apply IH.
Qed.
(** A result that was computed is a weakest precondition. *)
Lemma wpf_ok {A} (m : M S A) (Q : A -> S -> Prop) s a s' :
  m s = Ok (a, s') -> Q a s' -> wpf F m Q s.
Proof. unfold wpf. by intros ->. Qed.
End wp.

Lemma wpf_weaken {S A} (F G : fault -> Prop) (m : M S A) Q s :
  (forall f, F f -> G f) -> wpf F m Q s -> wpf G m Q s.
Proof. unfold wpf. destruct (m s) as [[a s']|f]; auto. Qed.

(** A fact about the runs that do not fault can be added to any other. *)
Lemma wpf_and {S A} F (m : M S A) P Q s :
  wpf F m P s -> wpf (fun _ => True) m Q s -> wpf F m (fun a s' => P a s' /\ Q a s') s.
Proof. unfold wpf. destruct (m s) as [[a s']|f]; auto. Qed.

Lemma wp_wpd {S A} (m : M S A) Q s : wp m Q s -> wpd m Q s.
Proof. by apply wpf_weaken. Qed.

Lemma wp_inv {S A} (m : M S A) Q s :
  wp m Q s -> exists a s', m s = Ok (a, s') /\ Q a s'.
Proof. unfold wpf. destruct (m s) as [[a s']|f]; naive_solver. Qed.

(** The value a run returns; used to evaluate the model on an input. *)
Definition value_of {S A} (o : outcome (A * S)) : option A :=
  match o with Ok (a, _) => Some a | Fault _ => None end.

Lemma wpf_value {S A} F (m : M S A) Q s a :
  wpf F m Q s -> value_of (m s) = Some a -> exists s', m s = Ok (a, s') /\ Q a s'.
Proof. unfold wpf. destruct (m s) as [[b s']|f]; simpl; [|done]. intros HQ [= ->]. eauto. Qed.

(** One step of symbolic execution: peel the outermost construct. *)
Ltac wp_step :=
  lazymatch goal with
  | |- wpf _ (mbind _ _) _ _ => apply wpf_bind
  | |- wpf _ (mret _) _ _ => apply wpf_ret
  | |- wpf _ get _ _ => apply wpf_get
  | |- wpf _ (gets _) _ _ => apply wpf_gets
  | |- wpf _ (put _) _ _ => apply wpf_put
  | |- wpf _ (modify _) _ _ => apply wpf_modify
  | |- wpf _ (cassert _) _ _ => apply wpf_assert
  | |- wpf _ (when _ _) _ _ => apply wpf_when; intros ?
  | |- wpf _ (throw _) _ _ => apply wpf_throw
  | |- wpf _ (deref _) _ _ => eapply wpf_deref
  | |- wpf _ (access _) _ _ => eapply wpf_access
  | |- wpf _ (zoom _ _ _) _ _ => apply wpf_zoom
  end.
(** Peel the straight-line constructs only. *)
Ltac wp_line :=
  repeat (lazymatch goal with
  | |- wpf _ (mbind _ _) _ _ => apply wpf_bind
  | |- wpf _ (mret _) _ _ => apply wpf_ret
  | |- wpf _ get _ _ => apply wpf_get
  | |- wpf _ (gets _) _ _ => apply wpf_gets
  | |- wpf _ (put _) _ _ => apply wpf_put
  | |- wpf _ (modify _) _ _ => apply wpf_modify
  | |- wpf _ (zoom _ _ _) _ _ => apply wpf_zoom
  end; cbv beta).

(** ** Machine words *)

(** Values of the unsigned types of the given width; arithmetic on them is
    reduced back into range. *)
Definition w8 (z : Z) : Z := z mod 2 ^ 8.
Definition w16 (z : Z) : Z := z mod 2 ^ 16.
Definition w32 (z : Z) : Z := z mod 2 ^ 32.
Definition w64 (z : Z) : Z := z mod 2 ^ 64.

(** [z] is a value of a 64-bit unsigned type. *)
Definition is_w64 (z : Z) : Prop := 0 ≤ z < 2 ^ 64.

Lemma w64_small z : 0 ≤ z < 2 ^ 64 -> w64 z = z.
Proof. apply Z.mod_small. Qed.
Lemma w32_small z : 0 ≤ z < 2 ^ 32 -> w32 z = z.
Proof. apply Z.mod_small. Qed.
Lemma w16_small z : 0 ≤ z < 2 ^ 16 -> w16 z = z.
Proof. apply Z.mod_small. Qed.
Lemma w8_small z : 0 ≤ z < 2 ^ 8 -> w8 z = z.
Proof. apply Z.mod_small. Qed.
Lemma w64_range z : 0 ≤ w64 z < 2 ^ 64.
Proof. by apply Z.mod_pos_bound. Qed.
(** The bits of two values of a width are the bits of one. *)
Lemma lor_below n a b : 0 ≤ n -> 0 ≤ a < 2 ^ n -> 0 ≤ b < 2 ^ n -> 0 ≤ Z.lor a b < 2 ^ n.
Proof.
  intros Hn Ha Hb. assert (0 ≤ Z.lor a b) by (apply Z.lor_nonneg; lia). split; [done|].
  rewrite <- (Z.mod_small a (2 ^ n)), <- (Z.mod_small b (2 ^ n)), <- !Z.land_ones, <- Z.land_lor_distr_l, Z.land_ones by lia.
  apply Z.mod_pos_bound. lia.
Qed.

(** ** Lists *)

(** A duplicate-free list of numbers in an interval is no longer than it. *)
Lemma NoDup_bounded_length (l : list Z) (a b : Z) :
  NoDup l -> (forall x, x ∈ l -> a ≤ x < b) -> Z.of_nat (length l) ≤ Z.max 0 (b - a).
Proof.
  intros Hnd Hb.
  assert (Hs : l ⊆+ seqZ a (Z.max 0 (b - a))).
  { apply NoDup_submseteq; [done|]. intros x Hx. apply elem_of_seqZ.
    specialize (Hb x Hx). lia. }
  apply submseteq_length in Hs. rewrite length_seqZ in Hs. lia.
Qed.

(** A list is empty or has a last element. *)
Lemma list_snoc_cases {A} (l : list A) : l = [] \/ exists l' x, l = l' ++ [x].
Proof. destruct l as [|x l _] using rev_ind; eauto. Qed.

(** Turn boolean decisions in hypotheses into propositions. *)
Ltac bd :=
  repeat match goal with
  | H : bool_decide _ = true |- _ => apply bool_decide_eq_true in H
  | H : bool_decide _ = false |- _ => apply bool_decide_eq_false in H
  | H : negb _ = true |- _ => apply negb_true_iff in H
  | H : negb _ = false |- _ => apply negb_false_iff in H
  | H : (_ && _)%bool = true |- _ => apply andb_true_iff in H as [? ?]
  | H : (_ || _)%bool = false |- _ => apply orb_false_iff in H as [? ?]
  end.

(** Bytes stored one after the other in a map of addresses. *)
Fixpoint store_bytes (m : gmap Z Z) (va : Z) (l : list Z) : gmap Z Z :=
  match l with [] => m | b :: l => store_bytes (<[va := b]> m) (va + 1) l end.
Lemma store_bytes_lookup l m va a :
  store_bytes m va l !! a = if decide (va ≤ a < va + Z.of_nat (length l)) then l !! Z.to_nat (a - va) else m !! a.
Proof.
  revert m va. induction l as [|b l IH]; intros m va; simpl; [by rewrite decide_False by lia|]. rewrite IH.
  destruct (decide (va = a)) as [->|].
  - rewrite decide_False, decide_True by lia. rewrite lookup_insert_eq. by rewrite Z.sub_diag.
  - rewrite lookup_insert_ne by done. destruct (decide (va + 1 ≤ a < va + 1 + Z.of_nat (length l))).
    + rewrite decide_True by lia. by replace (Z.to_nat (a - va)) with (S (Z.to_nat (a - (va + 1)))) by lia.
    + by rewrite decide_False by lia.
Qed.
