(* ===== verification/Dll.v ===== *)
(** * Doubly linked segments and rings

    The frame table threads two doubly linked lists and one ring through the
    same array of entries, each with its own pair of link fields.  This file
    holds the shared theory: [seg pf nf p l q] says that following the forward
    links [nf] from the head of [l] visits exactly the indices of [l] and then
    [q], and that the backward links [pf] retrace it and then reach [p]. *)

From S2P Require Import Prelude.

(** The head of [l], or [q] when [l] is empty; and its last element, or [p]. *)
Definition hd_or (q : Z) (l : list Z) : Z := default q (head l).
Definition last_or (p : Z) (l : list Z) : Z := default p (last l).

Fixpoint seg (pf nf : Z -> Z) (p : Z) (l : list Z) (q : Z) : Prop :=
  match l with
  | [] => True
  | x :: l' => pf x = p /\ nf x = hd_or q l' /\ seg pf nf x l' q
  end.

(** A ring is a segment whose two ends meet. *)
Definition ring (pf nf : Z -> Z) (l : list Z) : Prop :=
  seg pf nf (last_or 0 l) l (hd_or 0 l).

Lemma last_or_cons p x l : last_or p (x :: l) = last_or x l.
Proof. unfold last_or. rewrite last_cons. by destruct (last l). Qed.
Lemma last_or_snoc p l x : last_or p (l ++ [x]) = x.
Proof. unfold last_or. by rewrite last_snoc. Qed.
Lemma last_or_app p l1 l2 : last_or p (l1 ++ l2) = last_or (last_or p l1) l2.
Proof. unfold last_or. rewrite last_app. by destruct (last l2). Qed.
Lemma hd_or_app q l1 l2 : hd_or q (l1 ++ l2) = hd_or (hd_or q l2) l1.
Proof. by destruct l1. Qed.
Lemma hd_or_elem q l : l ≠ [] -> hd_or q l ∈ l.
Proof. destruct l as [|x l]; [done|]. intros _. left. Qed.
Lemma last_or_elem p l : l ≠ [] -> last_or p l ∈ l.
Proof.
  destruct l as [|x l _] using rev_ind; [done|].
  intros _. rewrite last_or_snoc. set_solver.
Qed.

Lemma last_or_Some p l : l ≠ [] -> last l = Some (last_or p l).
Proof. unfold last_or. destruct (last l) eqn:E; [done|]. by apply last_None in E. Qed.

Section seg.
Implicit Types (pf nf : Z -> Z) (l : list Z).

Lemma seg_app pf nf p l1 l2 q :
  seg pf nf p (l1 ++ l2) q <->
  seg pf nf p l1 (hd_or q l2) /\ seg pf nf (last_or p l1) l2 q.
Proof.
  revert p. induction l1 as [|x l1 IH]; intros p; simpl; [naive_solver|].
  rewrite IH, last_or_cons, hd_or_app. naive_solver.
Qed.

(** Changing the links of a segment only at its two ends redirects the ends. *)
Lemma seg_relink pf nf pf' nf' p p' l q q' :
  NoDup l ->
  (forall x, x ∈ l -> pf' x = if decide (head l = Some x) then p' else pf x) ->
  (forall x, x ∈ l -> nf' x = if decide (last l = Some x) then q' else nf x) ->
  seg pf nf p l q -> seg pf' nf' p' l q'.
Proof.
  revert p p'. induction l as [|x l IH]; intros p p' Hnd Hp Hn; simpl; [done|].
  intros (Hpx & Hnx & Hs). apply NoDup_cons in Hnd as [Hx Hnd].
  split; [|split].
  - rewrite (Hp x) by left. by rewrite decide_True.
  - rewrite (Hn x) by left. destruct l as [|y l]; simpl; [by rewrite decide_True|].
    rewrite decide_False; [done|].
    intros Hl%last_Some_elem_of. set_solver.
  - apply (IH x x); [done| | |done].
    + intros y Hy. rewrite (Hp y) by by right. rewrite decide_False; [|set_solver].
      case_decide as Hh; [|done]. destruct l as [|z l]; [done|]. simpl in *. naive_solver.
    + intros y Hy. rewrite (Hn y) by by right.
      destruct l as [|z l]; [set_solver|]. by rewrite last_cons_cons.
Qed.

Lemma seg_set_head pf nf pf' nf' p p' l q :
  NoDup l ->
  (forall x, x ∈ l -> head l ≠ Some x -> pf' x = pf x) ->
  (forall x, head l = Some x -> pf' x = p') ->
  (forall x, x ∈ l -> nf' x = nf x) ->
  seg pf nf p l q -> seg pf' nf' p' l q.
Proof.
  intros Hnd Hp Hh Hn Hs. apply (seg_relink pf nf _ _ p _ _ q); [done|..|done].
  - intros x Hx. case_decide; auto.
  - intros x Hx. rewrite Hn by done. case_decide as Hl; [|done].
    apply last_Some in Hl as [l' ->]. rewrite seg_app in Hs. simpl in Hs. naive_solver.
Qed.

Lemma seg_set_last pf nf pf' nf' p l q q' :
  NoDup l ->
  (forall x, x ∈ l -> last l ≠ Some x -> nf' x = nf x) ->
  (forall x, last l = Some x -> nf' x = q') ->
  (forall x, x ∈ l -> pf' x = pf x) ->
  seg pf nf p l q -> seg pf' nf' p l q'.
Proof.
  intros Hnd Hn Hl Hp Hs. apply (seg_relink pf nf _ _ p _ _ q); [done|..|done].
  - intros x Hx. rewrite Hp by done. case_decide as Hh; [|done].
    destruct l as [|y l]; [done|]. simpl in *. naive_solver.
  - intros x Hx. case_decide; auto.
Qed.

Lemma seg_ext pf nf pf' nf' p l q :
  (forall x, x ∈ l -> pf' x = pf x /\ nf' x = nf x) ->
  seg pf nf p l q -> seg pf' nf' p l q.
Proof.
  revert p. induction l as [|x l IH]; intros p H; simpl; [done|].
  intros (? & ? & ?). destruct (H x) as [-> ->]; [left|].
  split_and!; [done..|]. apply IH; [|done]. intros y Hy. apply H. by right.
Qed.

(** The forward link of a member is its successor, and dually. *)
Lemma seg_lookup pf nf p l1 x l2 q :
  seg pf nf p (l1 ++ x :: l2) q -> pf x = last_or p l1 /\ nf x = hd_or q l2.
Proof. rewrite seg_app. simpl. naive_solver. Qed.

Lemma ring_rotate pf nf x l : ring pf nf (x :: l) <-> ring pf nf (l ++ [x]).
Proof.
  unfold ring. rewrite seg_app, last_or_snoc, last_or_cons. simpl.
  rewrite hd_or_app. unfold hd_or at 3; simpl.
  destruct l as [|y l]; [simpl; unfold hd_or; simpl; naive_solver|].
  rewrite last_or_cons. unfold hd_or; simpl. naive_solver.
Qed.

Lemma ring_ext pf nf pf' nf' l :
  (forall x, x ∈ l -> pf' x = pf x /\ nf' x = nf x) -> ring pf nf l -> ring pf' nf' l.
Proof. apply seg_ext. Qed.

Lemma ring_lookup pf nf l1 x l2 :
  ring pf nf (l1 ++ x :: l2) ->
  pf x = last_or (last_or x l2) l1 /\ nf x = hd_or (hd_or x l1) l2.
Proof.
  intros [Hp Hn]%seg_lookup. rewrite Hp, Hn.
  rewrite last_or_app, last_or_cons, hd_or_app. done.
Qed.

(** The ring can be read from any of its members. *)
Lemma ring_rotate_app pf nf l1 l2 : ring pf nf (l1 ++ l2) -> ring pf nf (l2 ++ l1).
Proof.
  revert l2. induction l1 as [|x l1 IH]; intros l2; [by rewrite app_nil_r|].
  rewrite <- app_comm_cons, ring_rotate, <- app_assoc. intros H%IH. by rewrite <- app_assoc in H.
Qed.

(** Inserting [r] between the last and the first member. *)
Lemma ring_snoc pf nf pf' nf' l r :
  l ≠ [] -> NoDup l ->
  (forall x, x ∈ l -> pf' x = if decide (x = hd_or 0 l) then r else pf x) ->
  (forall x, x ∈ l -> nf' x = if decide (x = last_or 0 l) then r else nf x) ->
  pf' r = last_or 0 l -> nf' r = hd_or 0 l ->
  ring pf nf l -> ring pf' nf' (l ++ [r]).
Proof.
  intros Hne Hnd Hp Hn Hpr Hnr Hr. unfold ring. rewrite last_or_snoc, seg_app, hd_or_app.
  destruct l as [|y l]; [done|]. split.
  - apply (seg_relink pf nf _ _ (last_or 0 (y :: l)) _ _ y); [done| | |done].
    + intros x Hx. rewrite Hp by done. unfold hd_or; simpl. repeat case_decide; naive_solver.
    + intros x Hx. rewrite Hn by done. rewrite (last_or_Some 0 (y :: l)) by done.
      repeat case_decide; naive_solver.
  - split; [|split]; [|done|exact I]. rewrite Hpr. unfold last_or. by rewrite (last_or_Some 0).
Qed.

(** Cutting the first member out and joining its neighbours. *)
Lemma ring_cut pf nf pf' nf' r l :
  NoDup l ->
  (forall x, x ∈ l -> pf' x = if decide (x = hd_or 0 l) then last_or 0 l else pf x) ->
  (forall x, x ∈ l -> nf' x = if decide (x = last_or 0 l) then hd_or 0 l else nf x) ->
  ring pf nf (r :: l) -> ring pf' nf' l.
Proof.
  intros Hnd Hp Hn (_ & _ & Hs). unfold ring.
  apply (seg_relink pf nf _ _ r _ _ r); [done| | |done].
  - intros x Hx. rewrite Hp by done. unfold hd_or. destruct l as [|y l]; [set_solver|]. simpl.
    repeat case_decide; naive_solver.
  - intros x Hx. rewrite Hn by done. rewrite (last_or_Some 0 l) by (intros ->; set_solver).
    repeat case_decide; naive_solver.
Qed.
End seg.
