(* ===== verification/FrameList.v ===== *)
(** * The frame table: entries and the free and allocated lists

    Models the data of [sos/src/frame_table.c] and [frame_table.h] and the
    doubly linked lists of frames ([push_front], [push_back], [pop_front],
    [remove_frame]).  A frame pointer is the index of the entry in the table;
    an index the table never wrote reads as a zeroed entry, since the pages
    behind the table come zeroed from the kernel. *)

From S2P Require Import Prelude Dll.

(** [NULL_FRAME]. *)
Definition NULL_FRAME : Z := 0.

(** [list_id_t]; [LIST_ZERO] is the value 0 of a zeroed entry, which is not an
    enumerator. *)
Inductive list_id_t := LIST_ZERO | NO_LIST | FREE_LIST | ALLOCATED_LIST.
#[export] Instance list_id_eq_dec : EqDecision list_id_t.
Proof. solve_decision. Defined.

Inductive frame_owner_t :=
| FRAME_OWNER_KERNEL
| FRAME_OWNER_USER
| FRAME_OWNER_PAGER
| FRAME_OWNER_NETWORK.
#[export] Instance frame_owner_eq_dec : EqDecision frame_owner_t.
Proof. solve_decision. Defined.

Definition FRAME_FLAG_EVICTABLE : Z := Z.shiftl 1 0.
Definition FRAME_FLAG_PINNED : Z := Z.shiftl 1 1.
Definition FRAME_FLAG_DIRTY : Z := Z.shiftl 1 2.
Definition FRAME_FLAG_REFERENCED : Z := Z.shiftl 1 3.

(** [struct frame]. *)
Record frame_t := Frame {
  sos_page : Z;
  prev : Z;
  next : Z;
  list_id : list_id_t;
  owner : frame_owner_t;
  flags : Z;
  pin_count : Z;
  reserved16 : Z;
  swap_slot : Z;
  clock_prev : Z;
  clock_next : Z;
}.

Definition zero_frame : frame_t :=
  Frame 0 0 0 LIST_ZERO FRAME_OWNER_KERNEL 0 0 0 0 0 0.

Definition set_prev (v : Z) (f : frame_t) : frame_t :=
  Frame (sos_page f) v (next f) (list_id f) (owner f) (flags f) (pin_count f)
    (reserved16 f) (swap_slot f) (clock_prev f) (clock_next f).
Definition set_next (v : Z) (f : frame_t) : frame_t :=
  Frame (sos_page f) (prev f) v (list_id f) (owner f) (flags f) (pin_count f)
    (reserved16 f) (swap_slot f) (clock_prev f) (clock_next f).
Definition set_list_id (v : list_id_t) (f : frame_t) : frame_t :=
  Frame (sos_page f) (prev f) (next f) v (owner f) (flags f) (pin_count f)
    (reserved16 f) (swap_slot f) (clock_prev f) (clock_next f).
Definition set_owner (v : frame_owner_t) (f : frame_t) : frame_t :=
  Frame (sos_page f) (prev f) (next f) (list_id f) v (flags f) (pin_count f)
    (reserved16 f) (swap_slot f) (clock_prev f) (clock_next f).
Definition set_flags (v : Z) (f : frame_t) : frame_t :=
  Frame (sos_page f) (prev f) (next f) (list_id f) (owner f) v (pin_count f)
    (reserved16 f) (swap_slot f) (clock_prev f) (clock_next f).
Definition set_pin_count (v : Z) (f : frame_t) : frame_t :=
  Frame (sos_page f) (prev f) (next f) (list_id f) (owner f) (flags f) v
    (reserved16 f) (swap_slot f) (clock_prev f) (clock_next f).
Definition set_swap_slot (v : Z) (f : frame_t) : frame_t :=
  Frame (sos_page f) (prev f) (next f) (list_id f) (owner f) (flags f) (pin_count f)
    (reserved16 f) v (clock_prev f) (clock_next f).
Definition set_clock_prev (v : Z) (f : frame_t) : frame_t :=
  Frame (sos_page f) (prev f) (next f) (list_id f) (owner f) (flags f) (pin_count f)
    (reserved16 f) (swap_slot f) v (clock_next f).
Definition set_clock_next (v : Z) (f : frame_t) : frame_t :=
  Frame (sos_page f) (prev f) (next f) (list_id f) (owner f) (flags f) (pin_count f)
    (reserved16 f) (swap_slot f) (clock_prev f) v.

(** [frame_list_t]. *)
Record frame_list_t := FrameList {
  lid : list_id_t;
  first : Z;
  lst : Z;
  len : Z;
}.

(** The static [frame_table] object.  The two list headers are fields, so a
    [frame_list_t *] is the selector [which]. *)
Record table := Table {
  frames : gmap Z frame_t;
  capacity : Z;
  used : Z;
  byte_length : Z;
  free_l : frame_list_t;
  allocated_l : frame_list_t;
  hand : Z;
  clock_len : Z;
  ft_cspace : Z;
  ft_vspace : Z;
}.

Inductive which := Free | Allocated.
#[export] Instance which_eq_dec : EqDecision which.
Proof. solve_decision. Defined.

(** The initialiser of the static object. *)
Definition frame_table0 : table :=
  Table ∅ 0 0 0 (FrameList FREE_LIST 0 0 0) (FrameList ALLOCATED_LIST 0 0 0) NULL_FRAME 0 0 0.

Definition set_frames (v : gmap Z frame_t) (t : table) : table :=
  Table v (capacity t) (used t) (byte_length t) (free_l t) (allocated_l t) (hand t)
    (clock_len t) (ft_cspace t) (ft_vspace t).
Definition set_used (v : Z) (t : table) : table :=
  Table (frames t) (capacity t) v (byte_length t) (free_l t) (allocated_l t) (hand t)
    (clock_len t) (ft_cspace t) (ft_vspace t).
Definition set_capacity (c b : Z) (t : table) : table :=
  Table (frames t) c (used t) b (free_l t) (allocated_l t) (hand t)
    (clock_len t) (ft_cspace t) (ft_vspace t).
Definition set_clock (h n : Z) (t : table) : table :=
  Table (frames t) (capacity t) (used t) (byte_length t) (free_l t) (allocated_l t) h n
    (ft_cspace t) (ft_vspace t).
Definition set_spaces (c v : Z) (t : table) : table :=
  Table (frames t) (capacity t) (used t) (byte_length t) (free_l t) (allocated_l t) (hand t)
    (clock_len t) c v.
Definition get_list (w : which) (t : table) : frame_list_t :=
  match w with Free => free_l t | Allocated => allocated_l t end.
Definition set_list (w : which) (v : frame_list_t) (t : table) : table :=
  match w with
  | Free => Table (frames t) (capacity t) (used t) (byte_length t) v (allocated_l t) (hand t)
      (clock_len t) (ft_cspace t) (ft_vspace t)
  | Allocated => Table (frames t) (capacity t) (used t) (byte_length t) (free_l t) v (hand t)
      (clock_len t) (ft_cspace t) (ft_vspace t)
  end.

(** The entry at index [r] of [frame_table.frames]. *)
Definition entry (t : table) (r : Z) : frame_t := default zero_frame (frames t !! r).

(** Update the entry at index [r] in place. *)
Definition upd (r : Z) (g : frame_t -> frame_t) (t : table) : table :=
  set_frames (<[r := g (entry t r)]> (frames t)) t.

Definition at_frame {A} (r : Z) (g : frame_t -> A) : M table A := gets (fun t => g (entry t r)).
Definition on_frame (r : Z) (g : frame_t -> frame_t) : M table unit := modify (upd r g).
Definition on_list (w : which) (g : frame_list_t -> frame_list_t) : M table unit :=
  modify (fun t => set_list w (g (get_list w t)) t).

Definition set_first (v : Z) (l : frame_list_t) := FrameList (lid l) v (lst l) (len l).
Definition set_lst (v : Z) (l : frame_list_t) := FrameList (lid l) (first l) v (len l).
Definition set_len (v : Z) (l : frame_list_t) := FrameList (lid l) (first l) (lst l) v.

(** [frame_from_ref]: the pointer of a reference; asserts that it is in range. *)
Definition frame_from_ref (r : Z) : M table Z :=
  cassert (bool_decide (r ≠ NULL_FRAME));;
  c ← gets capacity;
  cassert (bool_decide (r < c));;
  mret r.

(** [ref_from_frame]: the reference of a pointer; asserts that it points into
    the used part of the table. *)
Definition ref_from_frame (f : Z) : M table Z :=
  cassert (bool_decide (0 ≤ f));;
  u ← gets used;
  cassert (bool_decide (f < u));;
  mret f.

(** The assertions [push_front] and [push_back] open with. *)
Definition assert_detached (frame : Z) : M table unit :=
  f ← at_frame frame (fun f => f);
  cassert (bool_decide (list_id f = NO_LIST));;
  cassert (bool_decide (next f = NULL_FRAME));;
  cassert (bool_decide (prev f = NULL_FRAME)).

Definition push_front (list : which) (frame : Z) : M table unit :=
  assert_detached frame;;
  frame_ref ← ref_from_frame frame;
  l ← gets (get_list list);
  when (bool_decide (lst l = NULL_FRAME)) (on_list list (set_lst frame_ref));;
  on_frame frame (set_next (first l));;
  nxt ← at_frame frame next;
  when (bool_decide (nxt ≠ NULL_FRAME))
    (n ← frame_from_ref nxt; on_frame n (set_prev frame_ref));;
  on_list list (set_first frame_ref);;
  on_list list (fun l => set_len (w64 (len l + 1)) l);;
  on_frame frame (set_list_id (lid l)).

Definition push_back (list : which) (frame : Z) : M table unit :=
  assert_detached frame;;
  frame_ref ← ref_from_frame frame;
  l ← gets (get_list list);
  if bool_decide (lst l ≠ NULL_FRAME) then
    last ← frame_from_ref (lst l);
    on_frame last (set_next frame_ref);;
    on_frame frame (set_prev (lst l));;
    on_list list (set_lst frame_ref);;
    on_frame frame (set_list_id (lid l));;
    on_list list (fun l => set_len (w64 (len l + 1)) l)
  else push_front list frame.

(** [pop_front]; [None] is the NULL it returns for an empty list. *)
Definition pop_front (list : which) : M table (option Z) :=
  l ← gets (get_list list);
  if bool_decide (first l ≠ NULL_FRAME) then
    head ← frame_from_ref (first l);
    hn ← at_frame head next;
    (if bool_decide (lst l = first l) then
       on_list list (set_lst NULL_FRAME);;
       cassert (bool_decide (hn = NULL_FRAME))
     else
       nxt ← frame_from_ref hn;
       on_frame nxt (set_prev NULL_FRAME));;
    on_list list (set_first hn);;
    hp ← at_frame head prev;
    cassert (bool_decide (hp = NULL_FRAME));;
    on_frame head (set_next NULL_FRAME);;
    on_frame head (set_list_id NO_LIST);;
    on_frame head (set_prev NULL_FRAME);;
    on_frame head (set_next NULL_FRAME);;
    on_list list (fun l => set_len (w64 (len l - 1)) l);;
    mret (Some head)
  else mret None.

Definition remove_frame (list : which) (frame : Z) : M table unit :=
  id ← gets (fun t => lid (get_list list t));
  f ← at_frame frame (fun f => f);
  cassert (bool_decide (list_id f = id));;
  (if bool_decide (prev f ≠ NULL_FRAME) then
     p ← frame_from_ref (prev f);
     n ← at_frame frame next;
     on_frame p (set_next n)
   else
     on_list list (set_first (next f)));;
  n ← at_frame frame next;
  (if bool_decide (n ≠ NULL_FRAME) then
     nx ← frame_from_ref n;
     p ← at_frame frame prev;
     on_frame nx (set_prev p)
   else
     p ← at_frame frame prev;
     on_list list (set_lst p));;
  on_list list (fun l => set_len (w64 (len l - 1)) l);;
  on_frame frame (set_list_id NO_LIST);;
  on_frame frame (set_prev NULL_FRAME);;
  on_frame frame (set_next NULL_FRAME).

(** ** Algebra of the accessors *)

Lemma entry_upd r g t x :
  entry (upd r g t) x = if decide (x = r) then g (entry t r) else entry t x.
Proof.
  unfold upd, entry, set_frames; simpl. case_decide as H.
  - subst. by rewrite lookup_insert_eq.
  - by rewrite lookup_insert_ne.
Qed.
Lemma entry_set_list w v t x : entry (set_list w v t) x = entry t x.
Proof. by destruct w. Qed.
Lemma get_list_upd w r g t : get_list w (upd r g t) = get_list w t.
Proof. by destruct w. Qed.
Lemma get_set_list w v t : get_list w (set_list w v t) = v.
Proof. by destruct w. Qed.
Lemma get_set_list_ne w w' v t : w ≠ w' -> get_list w (set_list w' v t) = get_list w t.
Proof. by destruct w, w'. Qed.
Lemma set_set_list w v v' t : set_list w v (set_list w v' t) = set_list w v t.
Proof. by destruct w. Qed.
Lemma capacity_set_list w v t : capacity (set_list w v t) = capacity t.
Proof. by destruct w. Qed.
Lemma used_set_list w v t : used (set_list w v t) = used t.
Proof. by destruct w. Qed.
Lemma byte_length_set_list w v t : byte_length (set_list w v t) = byte_length t.
Proof. by destruct w. Qed.
Lemma hand_set_list w v t : hand (set_list w v t) = hand t.
Proof. by destruct w. Qed.
Lemma clock_len_set_list w v t : clock_len (set_list w v t) = clock_len t.
Proof. by destruct w. Qed.
Lemma capacity_upd r g t : capacity (upd r g t) = capacity t.
Proof. done. Qed.
Lemma used_upd r g t : used (upd r g t) = used t.
Proof. done. Qed.
Lemma byte_length_upd r g t : byte_length (upd r g t) = byte_length t.
Proof. done. Qed.
Lemma hand_upd r g t : hand (upd r g t) = hand t.
Proof. done. Qed.
Lemma clock_len_upd r g t : clock_len (upd r g t) = clock_len t.
Proof. done. Qed.
Lemma entry_set_clock h n t x : entry (set_clock h n t) x = entry t x.
Proof. done. Qed.
Lemma get_list_set_clock w h n t : get_list w (set_clock h n t) = get_list w t.
Proof. by destruct w. Qed.
Lemma entry_set_used u t x : entry (set_used u t) x = entry t x.
Proof. done. Qed.
Lemma get_list_set_used w u t : get_list w (set_used u t) = get_list w t.
Proof. by destruct w. Qed.
Lemma entry_set_capacity c b t x : entry (set_capacity c b t) x = entry t x.
Proof. done. Qed.
Lemma get_list_set_capacity w c b t : get_list w (set_capacity c b t) = get_list w t.
Proof. by destruct w. Qed.

Create Rewrite HintDb ft.
#[export] Hint Rewrite entry_upd entry_set_list get_list_upd get_set_list
  capacity_set_list used_set_list byte_length_set_list hand_set_list clock_len_set_list
  capacity_upd used_upd byte_length_upd hand_upd clock_len_upd
  entry_set_clock get_list_set_clock entry_set_used get_list_set_used
  entry_set_capacity get_list_set_capacity : ft.

(** Normalise reads of an updated table. *)
Ltac ft_simpl := autorewrite with ft in *; cbn [lid first lst len set_first set_lst set_len
  sos_page prev next list_id owner flags pin_count reserved16 swap_slot clock_prev clock_next
  set_prev set_next set_list_id set_owner set_flags set_pin_count set_swap_slot
  set_clock_prev set_clock_next] in *.

(** ** What the lists represent *)

Definition id_of (w : which) : list_id_t :=
  match w with Free => FREE_LIST | Allocated => ALLOCATED_LIST end.

Definition prevs (t : table) (x : Z) : Z := prev (entry t x).
Definition nexts (t : table) (x : Z) : Z := next (entry t x).

(** The header [w] and the links of the entries represent the list [l]: the
    [list_id] of an entry says exactly whether it is on the list. *)
Record list_rep (w : which) (l : list Z) (t : table) : Prop := ListRep {
  lr_lid : lid (get_list w t) = id_of w;
  lr_first : first (get_list w t) = hd_or 0 l;
  lr_last : lst (get_list w t) = last_or 0 l;
  lr_len : len (get_list w t) = Z.of_nat (length l);
  lr_seg : seg (prevs t) (nexts t) 0 l 0;
  lr_nodup : NoDup l;
  lr_member : forall x, x ∈ l <-> list_id (entry t x) = id_of w;
  lr_range : forall x, x ∈ l -> 0 < x < used t;
}.

(** An entry on no list, as the list operations expect it. *)
Definition detached (r : Z) (t : table) : Prop :=
  list_id (entry t r) = NO_LIST /\ prev (entry t r) = 0 /\ next (entry t r) = 0.

(** The part of an entry that the list operations never write. *)
Definition payload (f : frame_t) : frame_t := set_prev 0 (set_next 0 (set_list_id LIST_ZERO f)).
Definition scalars (t : table) : Z * Z * Z * Z * Z * Z * Z :=
  (capacity t, used t, byte_length t, hand t, clock_len t, ft_cspace t, ft_vspace t).

(** What an operation on the list [w] leaves alone: all entries outside [l],
    the payload of every entry, the other list and the scalar fields. *)
Record untouched (w : which) (l : list Z) (t t' : table) : Prop := Untouched {
  un_entry : forall x, x ∉ l -> entry t' x = entry t x;
  un_payload : forall x, payload (entry t' x) = payload (entry t x);
  un_list : forall w', w' ≠ w -> get_list w' t' = get_list w' t;
  un_scalars : scalars t' = scalars t;
}.

(** Sizes stay in the range where no counter of the table wraps. *)
Definition bounded (t : table) : Prop := 0 ≤ used t ≤ capacity t /\ capacity t < 2 ^ 63.

Lemma scalars_set_list w v t : scalars (set_list w v t) = scalars t.
Proof. by destruct w. Qed.
Lemma scalars_upd r g t : scalars (upd r g t) = scalars t.
Proof. done. Qed.
#[export] Hint Rewrite scalars_set_list scalars_upd : ft.

Lemma list_rep_len_bound w l t :
  list_rep w l t -> bounded t -> Z.of_nat (length l) ≤ Z.max 0 (used t - 1) < 2 ^ 63.
Proof.
  intros [] [? ?]. split; [|lia].
  etrans; [apply (NoDup_bounded_length l 1 (used t))|lia]; [done|].
  intros x Hx. specialize (lr_range0 x Hx). lia.
Qed.

Lemma list_rep_detached w l t r : list_rep w l t -> detached r t -> r ∉ l.
Proof. intros [] [Hd _] Hin%lr_member0. destruct w; simpl in *; congruence. Qed.

Lemma list_rep_disjoint l l' t x :
  list_rep Free l t -> list_rep Allocated l' t -> x ∈ l -> x ∈ l' -> False.
Proof. intros [] [] H1%lr_member0 H2%lr_member1. simpl in *. congruence. Qed.

(** The membership of a list only depends on what [untouched] preserves. *)
Lemma list_rep_untouched w w' l l' t t' :
  w' ≠ w -> untouched w l t t' -> (forall x, x ∈ l -> x ∉ l') ->
  (forall x, x ∈ l -> list_id (entry t' x) ≠ id_of w') ->
  list_rep w' l' t -> list_rep w' l' t'.
Proof.
  intros Hne [He Hp Hl Hs] Hdis Hid [].
  injection Hs as Hcap Hused _ _ _ _ _.
  assert (Hx : forall x, x ∈ l' -> entry t' x = entry t x).
  { intros x Hx. apply He. intros Hxl. by apply (Hdis x). }
  split; rewrite ?Hl, ?Hused by done; try done.
  - eapply seg_ext; [|done]. intros x Hin. unfold prevs, nexts. by rewrite Hx.
  - intros x. destruct (decide (x ∈ l)) as [Hin|Hin].
    + split; [intros ?; by destruct (Hdis x)|intros ?; by destruct (Hid x)].
    + by rewrite He.
Qed.

(** ** The operations implement the list operations *)

Lemma wpf_frame_from_ref F r t (Q : Z -> table -> Prop) :
  0 < r < capacity t -> Q r t -> wpf F (frame_from_ref r) Q t.
Proof.
  intros Hr HQ. unfold frame_from_ref, NULL_FRAME. wp_line.
  apply wpf_assert; [apply bool_decide_eq_true; lia|].
  wp_line. apply wpf_assert; [apply bool_decide_eq_true; lia|]. by wp_line.
Qed.

Lemma wpf_ref_from_frame F r t (Q : Z -> table -> Prop) :
  0 ≤ r < used t -> Q r t -> wpf F (ref_from_frame r) Q t.
Proof.
  intros Hr HQ. unfold ref_from_frame. wp_line.
  apply wpf_assert; [apply bool_decide_eq_true; lia|].
  wp_line. apply wpf_assert; [apply bool_decide_eq_true; lia|]. by wp_line.
Qed.

Lemma wpf_assert_detached F r t (Q : unit -> table -> Prop) :
  detached r t -> Q tt t -> wpf F (assert_detached r) Q t.
Proof.
  intros (H1 & H2 & H3) HQ. unfold assert_detached, at_frame, NULL_FRAME. wp_line.
  rewrite H1, H2, H3. by repeat (wp_step; try done).
Qed.

(** Case analysis on the entries that an update of the table touched. *)
Ltac ft_cases := intros; unfold prevs, nexts, payload in *; ft_simpl;
   repeat case_decide; ft_simpl; simplify_eq; try done.

(** Discharge [untouched] for an explicit chain of updates. *)
Ltac solve_untouched :=
  split; [ft_cases; set_solver|ft_cases|
    intros ? ?; repeat (ft_simpl; rewrite ?get_set_list_ne by done); by ft_simpl|by ft_simpl].

(** Membership after an update, from the membership [Hm] before it. *)
Ltac ft_member Hm :=
  intros ?; ft_cases; rewrite <- ?Hm;
  first [set_solver | split; [set_solver | match goal with w : which |- _ => by destruct w end]].

Section specs.
Context (F : fault -> Prop) (w : which).

Lemma push_front_spec l r t :
  list_rep w l t -> bounded t -> 0 < r < used t -> detached r t ->
  wpf F (push_front w r)
    (fun _ t' => list_rep w (r :: l) t' /\ untouched w (r :: l) t t') t.
Proof.
  intros Hrep Hb Hr Hdet. pose proof (list_rep_len_bound _ _ _ Hrep Hb) as Hlen.
  pose proof (list_rep_detached _ _ _ _ Hrep Hdet) as Hrl.
  destruct Hb as [Hb1 Hb2]. pose proof Hrep as [Hid Hf Hla Hln Hseg Hnd Hmem Hrg].
  pose proof Hdet as (Hdi & Hdp & Hdn).
  unfold push_front. wp_line. apply wpf_assert_detached; [done|].
  wp_line. apply wpf_ref_from_frame; [lia|]. wp_line.
  unfold on_frame, on_list, at_frame in *.
  rewrite Hf, Hla.
  destruct l as [|y l].
  - unfold last_or, hd_or, NULL_FRAME; cbn [last head default]. rewrite bool_decide_eq_true_2 by done.
    cbn [when]. wp_line.
    ft_simpl. rewrite decide_True by done. cbn.  wp_line.
    ft_simpl. 
    split.
    + split; ft_simpl; try done.
      * rewrite Hln. done.
      * split; [|split]; [ft_cases|ft_cases|exact I]. 
      * apply NoDup_singleton.
      * intros x. rewrite list_elem_of_singleton. ft_cases. rewrite <- Hmem. set_solver.
      * intros x ->%list_elem_of_singleton. by ft_simpl.
    + solve_untouched.
  - assert (0 < y < used t) by (apply Hrg; left).
    assert (r ≠ y) by set_solver.
    assert (Hll : last_or 0 (y :: l) ≠ 0).
    { assert (last_or 0 (y :: l) ∈ y :: l) as Hin by (by apply last_or_elem). apply Hrg in Hin. lia. }
    rewrite bool_decide_eq_false_2 by done. cbn [when]. wp_line.
    ft_simpl. rewrite decide_True by done. ft_simpl.
    rewrite bool_decide_eq_true_2 by (unfold NULL_FRAME, hd_or; simpl; lia). cbn [when]. wp_line.
    apply wpf_frame_from_ref; [unfold hd_or; simpl; lia|]. wp_line. 
    change (hd_or 0 (y :: l)) with y.
    split.
    + split; ft_simpl; try done.
      * rewrite Hln. rewrite w64_small; simpl length in *; lia.
      * split; [|split]; [ft_cases|ft_cases|].
        apply (seg_set_head (prevs t) (nexts t) _ _ 0); [done|..|done];
          intros x Hx; ft_cases; set_solver.
      * by apply NoDup_cons.
      * intros x. rewrite elem_of_cons, Hmem. ft_cases; naive_solver.
      * intros x [->|Hx]%elem_of_cons; ft_simpl; [done|by apply Hrg].
    + solve_untouched.
Qed.

Lemma push_back_spec l r t :
  list_rep w l t -> bounded t -> 0 < r < used t -> detached r t ->
  wpf F (push_back w r)
    (fun _ t' => list_rep w (l ++ [r]) t' /\ untouched w (r :: l) t t') t.
Proof.
  intros Hrep Hb Hr Hdet. pose proof (list_rep_len_bound _ _ _ Hrep Hb) as Hlen.
  pose proof (list_rep_detached _ _ _ _ Hrep Hdet) as Hrl.
  pose proof Hrep as [Hid Hf Hla Hln Hseg Hnd Hmem Hrg]. pose proof Hdet as (Hdi & Hdp & Hdn).
  unfold push_back. wp_line. apply wpf_assert_detached; [done|].
  wp_line. apply wpf_ref_from_frame; [lia|]. wp_line.
  apply wpf_if; intros Hc; bd; last first.
  { unfold NULL_FRAME in Hc. rewrite Hla in Hc.
    destruct l as [|y l]; [by apply push_front_spec|].
    assert (last_or 0 (y :: l) ∈ y :: l) as Hin by by apply last_or_elem.
    apply Hrg in Hin. lia. }
  rewrite Hla in *. destruct Hb as [? ?].
  destruct l as [|y l _] using rev_ind; [done|]. rewrite last_or_snoc in *.
  assert (0 < y < used t) by (apply Hrg; set_solver). assert (r ≠ y) by set_solver.
  wp_line. apply wpf_frame_from_ref; [lia|]. unfold on_frame, on_list. wp_line. split.
  - split; ft_simpl; try done.
    + by rewrite Hf, !hd_or_app.
    + by rewrite last_or_snoc.
    + rewrite Hln. rewrite !length_app in *. cbn [length] in *. rewrite w64_small; lia.
    + rewrite seg_app. split.
      * apply (seg_set_last (prevs t) (nexts t) _ _ 0 _ 0); [done|..|done];
          intros x Hx; rewrite ?last_snoc in *; ft_cases; set_solver.
      * rewrite last_or_snoc. split; [|split]; [ft_cases..|exact I].
    + apply NoDup_app. split_and!; [done|set_solver|apply NoDup_singleton].
    + intros x. rewrite elem_of_app, Hmem, list_elem_of_singleton. ft_cases; naive_solver.
    + intros x [?| ->%list_elem_of_singleton]%elem_of_app; ft_simpl; [by apply Hrg|done].
  - solve_untouched.
Qed.

(** Taking [r] out of [l1 ++ r :: l2]: the neighbours are linked to each
    other, [r] is detached and the header follows. *)
Record unlinked (l1 : list Z) (r : Z) (l2 : list Z) (t t' : table) : Prop := Unlinked {
  ul_list : get_list w t' = FrameList (lid (get_list w t)) (hd_or 0 (l1 ++ l2))
              (last_or 0 (l1 ++ l2)) (w64 (len (get_list w t) - 1));
  ul_other : forall w', w' ≠ w -> get_list w' t' = get_list w' t;
  ul_scalars : scalars t' = scalars t;
  ul_self : entry t' r = set_next 0 (set_prev 0 (set_list_id NO_LIST (entry t r)));
  ul_entry : forall x, x ≠ r ->
    entry t' x = (if decide (head l2 = Some x) then set_prev (last_or 0 l1) else id)
                   ((if decide (last l1 = Some x) then set_next (hd_or 0 l2) else id) (entry t x));
}.

Lemma unlinked_rep l1 r l2 t t' :
  list_rep w (l1 ++ r :: l2) t -> bounded t -> unlinked l1 r l2 t t' ->
  list_rep w (l1 ++ l2) t' /\ untouched w (l1 ++ r :: l2) t t' /\ detached r t'.
Proof.
  intros Hrep Hb [Hl Ho Hs Hr He]. pose proof (list_rep_len_bound _ _ _ Hrep Hb) as Hlen.
  destruct Hrep as [Hid Hf Hla Hln Hseg Hnd Hmem Hrg]. pose proof Hs as [= _ Hu _ _ _ _ _].
  pose proof Hnd as (Hnd1 & Hd & [Hr2 Hnd2]%NoDup_cons)%NoDup_app.
  assert (Hr1 : r ∉ l1) by set_solver. apply seg_app in Hseg as [Hs1 (_ & _ & Hs2)].
  assert (Hh : forall x, head l2 = Some x -> x ∈ l2) by apply head_Some_elem_of.
  assert (Ht : forall x, last l1 = Some x -> x ∈ l1) by (intros ?; apply last_Some_elem_of).
  split_and!.
  - split; rewrite ?Hl, ?Hu; simpl; try done.
    + rewrite Hln. rewrite !length_app in *. cbn [length] in *. rewrite w64_small; lia.
    + apply seg_app. split.
      * apply (seg_set_last (prevs t) (nexts t) _ _ 0 _ r); [done|..|done];
          unfold prevs, nexts; intros x Hx; rewrite He by set_solver; repeat case_decide; try done;
          set_solver.
      * apply (seg_set_head (prevs t) (nexts t) _ _ r); [done|..|done];
          unfold prevs, nexts; intros x Hx; rewrite He by set_solver; repeat case_decide; try done;
          set_solver.
    + apply NoDup_app. set_solver.
    + intros x. destruct (decide (x = r)) as [->|Hne].
      * rewrite Hr. simpl. split; [set_solver|by destruct w].
      * rewrite He by done. trans (list_id (entry t x) = id_of w);
          [rewrite <- Hmem; set_solver|by repeat case_decide].
    + intros x Hx. apply Hrg. set_solver.
  - split; [intros x Hx|intros x|done|done].
    + rewrite He by set_solver. repeat case_decide; try done; set_solver.
    + destruct (decide (x = r)) as [->|Hne]; [by rewrite Hr|].
      rewrite He by done. by repeat case_decide.
  - unfold detached. by rewrite Hr.
Qed.

(** Establish [unlinked] for an explicit chain of updates. *)
Ltac solve_unlinked Hf Hla :=
  split; [unfold set_len, set_first, set_lst; ft_simpl; rewrite ?Hf, ?Hla, ?app_nil_r, ?hd_or_app, ?last_or_app, ?last_or_cons; done|
    intros ? ?; repeat (ft_simpl; rewrite ?get_set_list_ne by done); by ft_simpl|
    by ft_simpl|ft_cases|ft_cases; rewrite ?last_snoc, ?last_or_snoc in *; simpl in *; congruence].

Lemma remove_frame_spec l1 r l2 t :
  list_rep w (l1 ++ r :: l2) t -> bounded t ->
  wpf F (remove_frame w r)
    (fun _ t' => list_rep w (l1 ++ l2) t' /\ untouched w (l1 ++ r :: l2) t t' /\ detached r t') t.
Proof.
  intros Hrep Hb. apply (wpf_mono _ _ (fun _ t' => unlinked l1 r l2 t t'));
    [|intros ? t'; by apply unlinked_rep].
  destruct Hrep as [Hid Hf Hla _ Hseg Hnd Hmem Hrg], Hb as [? ?].
  assert (Hidr : list_id (entry t r) = id_of w) by (apply Hmem; set_solver).
  assert (Hd : forall x, x ∈ l1 ++ l2 -> 0 < x < used t /\ x ≠ r).
  { apply NoDup_app in Hnd as (? & ? & [? ?]%NoDup_cons). intros x Hx. split; [apply Hrg|]; set_solver. }
  pose proof Hseg as [Hp Hn]%seg_lookup. unfold prevs, nexts in Hp, Hn.
  unfold remove_frame, at_frame, on_frame, on_list. wp_line.
  apply wpf_assert; [apply bool_decide_eq_true; congruence|]. wp_line. rewrite Hp, Hn.
  destruct (list_snoc_cases l1) as [->|(l1' & a & ->)]; destruct l2 as [|b l2].
  - rewrite bool_decide_eq_false_2 by (intros Hne; by apply Hne). wp_line. ft_simpl. rewrite Hn.
    rewrite bool_decide_eq_false_2 by (intros Hne; by apply Hne). wp_line. ft_simpl. rewrite Hp.
    solve_unlinked Hf Hla.
  - assert (0 < b < used t /\ b ≠ r) as [? ?] by (apply Hd; set_solver).
    rewrite bool_decide_eq_false_2 by (intros Hne; by apply Hne). wp_line. ft_simpl. rewrite Hn.
    rewrite bool_decide_eq_true_2 by (unfold hd_or, NULL_FRAME; simpl; lia). wp_line.
    apply wpf_frame_from_ref; [unfold hd_or; simpl; ft_simpl; lia|]. wp_line. ft_simpl. rewrite Hp.
    change (hd_or 0 (b :: l2)) with b. solve_unlinked Hf Hla.
  - assert (0 < a < used t /\ a ≠ r) as [? ?] by (apply Hd; set_solver).
    rewrite last_or_snoc in *. rewrite bool_decide_eq_true_2 by (unfold NULL_FRAME; lia). wp_line.
    apply wpf_frame_from_ref; [lia|]. wp_line. ft_simpl. rewrite decide_False by done. rewrite Hn.
    rewrite bool_decide_eq_false_2 by (intros Hne; by apply Hne). wp_line. ft_simpl.
    rewrite decide_False by done. rewrite Hp. solve_unlinked Hf Hla.
  - assert (0 < a < used t /\ a ≠ r) as [? ?] by (apply Hd; set_solver).
    assert (0 < b < used t /\ b ≠ r) as [? ?] by (apply Hd; set_solver).
    assert (a ≠ b) by (apply NoDup_app in Hnd; set_solver).
    rewrite last_or_snoc in *. rewrite bool_decide_eq_true_2 by (unfold NULL_FRAME; lia). wp_line.
    apply wpf_frame_from_ref; [lia|]. wp_line. ft_simpl. rewrite decide_False by done. rewrite Hn.
    change (hd_or 0 (b :: l2)) with b in *.
    rewrite bool_decide_eq_true_2 by (unfold NULL_FRAME; lia). wp_line.
    apply wpf_frame_from_ref; [ft_simpl; lia|]. wp_line. ft_simpl.
    rewrite decide_False by done. rewrite Hp. solve_unlinked Hf Hla.
Qed.

Lemma pop_front_spec l t :
  list_rep w l t -> bounded t ->
  wpf F (pop_front w)
    (fun o t' => o = head l /\ match l with
       | [] => t' = t
       | r :: l' => list_rep w l' t' /\ untouched w l t t' /\ detached r t'
       end) t.
Proof.
  intros Hrep Hb. destruct l as [|r l].
  { unfold pop_front. wp_line. rewrite (lr_first _ _ _ Hrep).
    rewrite bool_decide_eq_false_2 by (intros Hne; by apply Hne). by wp_line. }
  apply (wpf_mono _ _ (fun o t' => o = Some r /\ unlinked [] r l t t'));
    [|intros ? t' [-> ?]; split; [done|by apply (unlinked_rep [])]].
  destruct Hrep as [Hid Hf Hla _ Hseg Hnd Hmem Hrg], Hb as [? ?].
  apply NoDup_cons in Hnd as [Hrl Hnd]. destruct Hseg as (Hp & Hn & _). unfold prevs, nexts in Hp, Hn.
  unfold pop_front, at_frame, on_frame, on_list. wp_line. rewrite Hf, Hla.
  change (hd_or 0 (r :: l)) with r. assert (0 < r < used t) by (apply Hrg; left).
  rewrite bool_decide_eq_true_2 by (unfold NULL_FRAME; lia).
  wp_line. apply wpf_frame_from_ref; [lia|]. wp_line. rewrite Hn.
  destruct l as [|y l].
  - rewrite bool_decide_eq_true_2 by done. wp_line. apply wpf_assert; [done|]. wp_line.
    ft_simpl. apply wpf_assert; [by rewrite Hp|]. wp_line. split; [done|]. solve_unlinked Hf Hla.
  - assert (0 < y < used t) by (apply Hrg; set_solver). assert (r ≠ y) by set_solver.
    rewrite bool_decide_eq_false_2
      by (rewrite last_or_cons; intros Heq; apply Hrl; rewrite <- Heq; by apply last_or_elem).
    wp_line. apply wpf_frame_from_ref; [unfold hd_or; simpl; lia|]. wp_line.
    change (hd_or 0 (y :: l)) with y in *. ft_simpl.
    rewrite decide_False by done. apply wpf_assert; [by rewrite Hp|]. wp_line.
    split; [done|]. solve_unlinked Hf Hla.
Qed.
End specs.
