(* ===== verification/Clock.v ===== *)
(** * The frame table: the clock ring of evictable frames

    Models the clock list of [sos/src/frame_table.c]: membership and
    eligibility, insertion before the hand, removal, the debug validation
    (compiled in, as the build does not define NDEBUG), reconsideration and
    [clock_select_victim]. *)

From S2P Require Import Prelude Dll FrameList.

Definition clock_is_member (f : frame_t) : bool := bool_decide (clock_next f ≠ NULL_FRAME).

Definition clock_is_eligible (f : frame_t) : bool :=
  if bool_decide (owner f ≠ FRAME_OWNER_USER) then false
  else if bool_decide (Z.land (flags f) FRAME_FLAG_EVICTABLE = 0) then false
  else if bool_decide (Z.land (flags f) FRAME_FLAG_PINNED ≠ 0) then false
  else true.

(** The do-while loop of [clock_validate].  Its own last assertion bounds the
    count by the length plus one, so [len + 2] rounds always decide it. *)
Fixpoint validate_loop (fuel : nat) (cursor count : Z) : M table Z :=
  match fuel with
  | O => throw OutOfFuel
  | S fuel =>
    f ← frame_from_ref cursor;
    m ← at_frame f clock_is_member;
    cassert m;;
    nxt ← at_frame f clock_next;
    n ← gets clock_len;
    cassert (bool_decide (count + 1 ≤ n + 1));;
    h ← gets hand;
    if bool_decide (nxt ≠ h) then validate_loop fuel nxt (count + 1) else mret (count + 1)
  end.

Definition clock_validate : M table unit :=
  cursor ← gets hand;
  n ← gets clock_len;
  if bool_decide (n = 0) then cassert (bool_decide (cursor = NULL_FRAME))
  else
    cassert (bool_decide (cursor ≠ NULL_FRAME));;
    count ← validate_loop (Z.to_nat (n + 2)) cursor 0;
    cassert (bool_decide (count = n)).

Definition clock_advance_hand (nxt : Z) : M table unit :=
  modify (fun t => set_clock nxt (clock_len t) t).

Definition set_clock_len (n : Z) : M table unit :=
  modify (fun t => set_clock (hand t) n t).

Definition clock_add (frame : Z) : M table unit :=
  m ← at_frame frame clock_is_member;
  cassert (negb m);;
  e ← at_frame frame clock_is_eligible;
  cassert e;;
  ref ← ref_from_frame frame;
  n ← gets clock_len;
  (if bool_decide (n = 0) then
     on_frame frame (set_clock_prev ref);;
     on_frame frame (set_clock_next ref);;
     clock_advance_hand ref
   else
     h ← gets hand;
     hd ← frame_from_ref h;
     tp ← at_frame hd clock_prev;
     tail ← frame_from_ref tp;
     tail_ref ← ref_from_frame tail;
     on_frame frame (set_clock_prev tail_ref);;
     on_frame frame (set_clock_next h);;
     on_frame tail (set_clock_next ref);;
     on_frame hd (set_clock_prev ref));;
  set_clock_len (w64 (n + 1));;
  clock_validate.

Definition clock_remove (frame : Z) : M table unit :=
  m ← at_frame frame clock_is_member;
  if negb m then mret tt
  else
    ref ← ref_from_frame frame;
    n ← gets clock_len;
    (if bool_decide (n = 1) then
       cn ← at_frame frame clock_next;
       cassert (bool_decide (cn = ref));;
       cp ← at_frame frame clock_prev;
       cassert (bool_decide (cp = ref));;
       clock_advance_hand NULL_FRAME
     else
       cp ← at_frame frame clock_prev;
       p ← frame_from_ref cp;
       cn ← at_frame frame clock_next;
       nx ← frame_from_ref cn;
       on_frame p (set_clock_next cn);;
       cp' ← at_frame frame clock_prev;
       on_frame nx (set_clock_prev cp');;
       h ← gets hand;
       when (bool_decide (h = ref)) (nr ← ref_from_frame nx; clock_advance_hand nr));;
    set_clock_len (w64 (n - 1));;
    on_frame frame (set_clock_prev NULL_FRAME);;
    on_frame frame (set_clock_next NULL_FRAME);;
    clock_validate.

Definition clock_reconsider (frame : Z) : M table unit :=
  m ← at_frame frame clock_is_member;
  if (m : bool) then
    e ← at_frame frame clock_is_eligible;
    when (negb e) (clock_remove frame)
  else
    e ← at_frame frame clock_is_eligible;
    when e (clock_add frame).

(** The rotation of [clock_select_victim]: [inl v] is a [return v] from inside
    the loop, [inr c] leaves it with the dirty candidate [c]. *)
Fixpoint victim_loop (budget : nat) (dirty_candidate : Z) : M table (Z + Z) :=
  n ← gets clock_len;
  if bool_decide (0 < n) then
    match budget with
    | O => mret (inr dirty_candidate)
    | S budget =>
      h ← gets hand;
      cur ← frame_from_ref h;
      f ← at_frame cur (fun f => f);
      if negb (clock_is_eligible f) then
        clock_remove cur;;
        n ← gets clock_len;
        if bool_decide (n = 0) then mret (inl NULL_FRAME)
        else victim_loop budget dirty_candidate
      else
        let referenced := bool_decide (Z.land (flags f) FRAME_FLAG_REFERENCED ≠ 0) in
        let dirty := bool_decide (Z.land (flags f) FRAME_FLAG_DIRTY ≠ 0) in
        if referenced then
          on_frame cur (fun f => set_flags (Z.land (flags f) (Z.lnot FRAME_FLAG_REFERENCED)) f);;
          clock_advance_hand (clock_next f);;
          victim_loop budget dirty_candidate
        else if negb dirty then
          victim ← ref_from_frame cur;
          clock_advance_hand (clock_next f);;
          mret (inl victim)
        else
          dc ← (if bool_decide (dirty_candidate = NULL_FRAME) then ref_from_frame cur
                else mret dirty_candidate);
          clock_advance_hand (clock_next f);;
          victim_loop budget dc
    end
  else mret (inr dirty_candidate).

Definition clock_select_victim : M table Z :=
  n ← gets clock_len;
  if bool_decide (n = 0) then mret NULL_FRAME
  else
    h ← gets hand;
    cassert (bool_decide (h ≠ NULL_FRAME));;
    r ← victim_loop (Z.to_nat (w64 (n * 2))) NULL_FRAME;
    match r with
    | inl v => mret v
    | inr dc =>
      if bool_decide (dc ≠ NULL_FRAME) then
        chosen ← frame_from_ref dc;
        cn ← at_frame chosen clock_next;
        clock_advance_hand cn;;
        mret dc
      else mret NULL_FRAME
    end.

(** The entry points that only touch one entry. *)
Definition frame_mark_dirty (r : Z) : M table unit :=
  if bool_decide (r = NULL_FRAME) then mret tt
  else
    f ← frame_from_ref r;
    on_frame f (fun f => set_flags (Z.lor (flags f) FRAME_FLAG_DIRTY) f).

Definition frame_mark_referenced (r : Z) : M table unit :=
  if bool_decide (r = NULL_FRAME) then mret tt
  else
    f ← frame_from_ref r;
    on_frame f (fun f => set_flags (Z.lor (flags f) FRAME_FLAG_REFERENCED) f).

Definition frame_clock_consider (r : Z) : M table unit :=
  if bool_decide (r = NULL_FRAME) then mret tt
  else
    f ← frame_from_ref r;
    clock_reconsider f.
(** ** What the ring represents *)

Definition cprevs (t : table) (x : Z) : Z := clock_prev (entry t x).
Definition cnexts (t : table) (x : Z) : Z := clock_next (entry t x).

(** The hand and the clock links represent the ring [C], listed from the hand;
    a non-null [clock_next] says exactly whether an entry is on the ring. *)
Record clock_rep (C : list Z) (t : table) : Prop := ClockRep {
  ck_hand : hand t = hd_or 0 C;
  ck_len : clock_len t = Z.of_nat (length C);
  ck_ring : ring (cprevs t) (cnexts t) C;
  ck_nodup : NoDup C;
  ck_member : forall x, x ∈ C <-> clock_next (entry t x) ≠ 0;
  ck_range : forall x, x ∈ C -> 0 < x < used t;
}.

(** The part of an entry that the ring operations never write. *)
Definition cpayload (f : frame_t) : frame_t := set_clock_prev 0 (set_clock_next 0 f).
Definition cscalars (t : table) : Z * Z * Z * Z * Z :=
  (capacity t, used t, byte_length t, ft_cspace t, ft_vspace t).

Record ck_untouched (l : list Z) (t t' : table) : Prop := CkUntouched {
  cu_entry : forall x, x ∉ l -> entry t' x = entry t x;
  cu_payload : forall x, cpayload (entry t' x) = cpayload (entry t x);
  cu_lists : forall w, get_list w t' = get_list w t;
  cu_scalars : cscalars t' = cscalars t;
}.

Lemma cscalars_upd r g t : cscalars (upd r g t) = cscalars t.
Proof. done. Qed.
Lemma cscalars_set_clock h n t : cscalars (set_clock h n t) = cscalars t.
Proof. done. Qed.
Lemma used_set_clock h n t : used (set_clock h n t) = used t.
Proof. done. Qed.
Lemma capacity_set_clock h n t : capacity (set_clock h n t) = capacity t.
Proof. done. Qed.
Lemma hand_set_clock h n t : hand (set_clock h n t) = h.
Proof. done. Qed.
Lemma clock_len_set_clock h n t : clock_len (set_clock h n t) = n.
Proof. done. Qed.
#[export] Hint Rewrite cscalars_upd cscalars_set_clock used_set_clock capacity_set_clock
  hand_set_clock clock_len_set_clock : ft.

Ltac ck_cases := intros; unfold cprevs, cnexts, cpayload in *; ft_simpl;
   repeat case_decide; ft_simpl; simplify_eq; try done.

Lemma ck_untouched_refl l t : ck_untouched l t t.
Proof. done. Qed.
Lemma ck_untouched_upd l r g t t' :
  r ∈ l -> (forall f, cpayload (g f) = cpayload f) -> ck_untouched l t t' ->
  ck_untouched l t (upd r g t').
Proof.
  intros Hr Hg [He Hp Hl Hs]. split; intros; ft_simpl; [| |done..].
  - rewrite decide_False by set_solver. by apply He.
  - case_decide as Hx; [subst x; by rewrite Hg|done].
Qed.
Lemma ck_untouched_set_clock l h n t t' :
  ck_untouched l t t' -> ck_untouched l t (set_clock h n t').
Proof. intros []. split; intros; ft_simpl; auto. Qed.

Ltac solve_ck_untouched :=
  repeat first [apply ck_untouched_set_clock | apply ck_untouched_refl
    | apply ck_untouched_upd; [set_solver|done|]].

Lemma clock_rep_len_bound C t :
  clock_rep C t -> bounded t -> Z.of_nat (length C) ≤ Z.max 0 (used t - 1) < 2 ^ 63.
Proof.
  intros [] [? ?]. split; [|lia].
  etrans; [apply (NoDup_bounded_length C 1 (used t))|lia]; [done|].
  intros x Hx. specialize (ck_range0 x Hx). lia.
Qed.

Lemma clock_is_member_spec C t x :
  clock_rep C t -> clock_is_member (entry t x) = bool_decide (x ∈ C).
Proof. intros []. unfold clock_is_member. apply bool_decide_ext. by rewrite ck_member0. Qed.

Lemma validate_loop_spec F C1 x C2 t fuel :
  clock_rep (C1 ++ x :: C2) t -> bounded t -> (length C2 < fuel)%nat ->
  wpf F (validate_loop fuel x (Z.of_nat (length C1)))
    (fun c t' => c = Z.of_nat (length (C1 ++ x :: C2)) /\ t' = t) t.
Proof.
  intros Hrep [? ?]. revert C1 x fuel Hrep.
  induction C2 as [|y C2 IH]; intros C1 x fuel Hrep Hf; (destruct fuel as [|fuel]; [lia|]);
    pose proof Hrep as [Hh Hl Hr Hnd Hmem Hrg];
    assert (0 < x < used t) by (apply Hrg; set_solver);
    assert (Hx : clock_is_member (entry t x) = true)
      by (rewrite (clock_is_member_spec _ _ _ Hrep); apply bool_decide_eq_true; set_solver);
    pose proof Hr as [_ Hn]%ring_lookup; unfold cnexts in Hn;
    rewrite length_app in Hl; cbn [length] in Hl;
    simpl; unfold at_frame; wp_line; (apply wpf_frame_from_ref; [lia|]); wp_line;
    (apply wpf_assert; [done|]); wp_line; rewrite Hn, Hl;
    (apply wpf_assert; [apply bool_decide_eq_true; lia|]); wp_line; rewrite Hh, hd_or_app.
  - rewrite bool_decide_eq_false_2 by (intros Hne; by destruct C1).
    wp_line. rewrite length_app. simpl. split; [lia|done].
  - rewrite bool_decide_eq_true_2.
    + change (hd_or _ (y :: C2)) with y.
      specialize (IH (C1 ++ [x]) y fuel). rewrite !length_app in IH. simpl in IH.
      rewrite <- app_assoc in IH. replace (Z.of_nat (length C1) + 1) with (Z.of_nat (length C1 + 1)) by lia.
      eapply wpf_mono; [apply IH; [done|simpl in Hf; lia]|]. intros c t' [-> ->]. split; [|done].
      rewrite length_app. simpl. lia.
    + unfold hd_or; simpl. intros Heq. apply NoDup_app in Hnd as (? & Hd & Hnd).
      apply NoDup_cons in Hnd as [? ?].
      destruct C1 as [|z C1]; simpl in Heq; set_solver.
Qed.

Lemma clock_validate_spec F C t (Q : unit -> table -> Prop) :
  clock_rep C t -> bounded t -> Q tt t -> wpf F clock_validate Q t.
Proof.
  intros Hrep Hb HQ. pose proof Hrep as [Hh Hl Hr Hnd Hmem Hrg].
  unfold clock_validate. wp_line. rewrite Hh, Hl. destruct C as [|x C].
  - rewrite bool_decide_eq_true_2 by done. by apply wpf_assert.
  - rewrite bool_decide_eq_false_2 by done.
    assert (0 < x < used t) by (apply Hrg; left).
    wp_line. apply wpf_assert; [apply bool_decide_eq_true; unfold NULL_FRAME, hd_or; simpl; lia|].
    wp_line. eapply wpf_mono; [apply (validate_loop_spec F [] x C); [done|done|simpl; lia]|].
    intros c t' [-> ->]. by apply wpf_assert; [apply bool_decide_eq_true|].
Qed.

(** ** The ring operations *)

Lemma clock_add_spec F C r t :
  clock_rep C t -> bounded t -> 0 < r < used t -> r ∉ C ->
  clock_is_eligible (entry t r) = true ->
  wpf F (clock_add r) (fun _ t' => clock_rep (C ++ [r]) t' /\ ck_untouched (r :: C) t t') t.
Proof.
  intros Hrep Hb Hr HrC Hel. pose proof (clock_rep_len_bound _ _ Hrep Hb) as Hlen.
  pose proof Hrep as [Hh Hl Hring Hnd Hmem Hrg]. pose proof Hb as [? ?].
  unfold clock_add, at_frame, on_frame, clock_advance_hand, set_clock_len. wp_line.
  apply wpf_assert; [rewrite (clock_is_member_spec _ _ _ Hrep), bool_decide_eq_false_2; done|].
  wp_line. apply wpf_assert; [done|]. wp_line. apply wpf_ref_from_frame; [lia|]. wp_line. rewrite Hl.
  destruct C as [|y C].
  - rewrite bool_decide_eq_true_2 by done. wp_line.
    match goal with |- wpf _ _ _ ?t' => assert (Hrep' : clock_rep [r] t') end.
    { split; ft_simpl; try done.
      - split; [|split]; [ck_cases..|exact I].
      - apply NoDup_singleton.
      - intros x. rewrite list_elem_of_singleton. ck_cases; [naive_solver lia|].
        rewrite <- Hmem. set_solver.
      - intros x ->%list_elem_of_singleton. by ft_simpl. }
    eapply clock_validate_spec; [done|done|]. split; [done|solve_ck_untouched].
  - set (z := last_or 0 (y :: C)).
    assert (Hz : z ∈ y :: C) by by apply last_or_elem.
    assert (Hzp : cprevs t y = z) by by destruct Hring.
    assert (0 < y < used t /\ 0 < z < used t) as [? ?] by (split; apply Hrg; set_solver).
    assert (r ≠ y /\ r ≠ z) as [? ?] by set_solver.
    rewrite bool_decide_eq_false_2 by done. wp_line. rewrite Hh. change (hd_or 0 (y :: C)) with y.
    apply wpf_frame_from_ref; [lia|]. wp_line. fold (cprevs t y). rewrite Hzp.
    apply wpf_frame_from_ref; [lia|]. wp_line. apply wpf_ref_from_frame; [lia|]. wp_line.
    match goal with |- wpf _ _ _ ?t' => assert (Hrep' : clock_rep ((y :: C) ++ [r]) t') end.
    { split; ft_simpl; try done.
      - rewrite length_app. cbn [length] in *. rewrite w64_small; lia.
      - apply (ring_snoc (cprevs t) (cnexts t)); try done; change (hd_or 0 (y :: C)) with y; fold z;
          [intros x Hx..| |]; ck_cases; set_solver.
      - apply NoDup_app. split_and!; [done|set_solver|apply NoDup_singleton].
      - intros x. pose proof (proj1 (Hmem y) ltac:(left)). pose proof (proj1 (Hmem z) Hz).
        rewrite elem_of_app, Hmem, list_elem_of_singleton. clear -Hr H1 H2 H3 H4 H5 H6.
        ck_cases; intuition lia.
      - intros x [Hx| ->%list_elem_of_singleton]%elem_of_app; ft_simpl; [by apply Hrg|done]. }
    eapply clock_validate_spec; [done|done|]. split; [done|solve_ck_untouched].
Qed.

Lemma clock_remove_spec F C1 r C2 t :
  clock_rep (C1 ++ r :: C2) t -> bounded t ->
  wpf F (clock_remove r)
    (fun _ t' => clock_rep (C1 ++ C2) t' /\ ck_untouched (C1 ++ r :: C2) t t') t.
Proof.
  intros Hrep Hb. pose proof (clock_rep_len_bound _ _ Hrep Hb) as Hlen.
  pose proof Hrep as [Hh Hl Hring Hnd Hmem Hrg]. pose proof Hb as [? ?].
  assert (0 < r < used t) by (apply Hrg; set_solver).
  assert (HD : ring (cprevs t) (cnexts t) (r :: (C2 ++ C1))) by (apply (ring_rotate_app _ _ C1 (r :: C2)); done).
  assert (HndD : NoDup (r :: (C2 ++ C1))) by (apply (NoDup_Permutation_proper _ _ (Permutation_app_comm C1 (r :: C2))) in Hnd; done).
  apply NoDup_cons in HndD as [HrD HndD].
  unfold clock_remove, at_frame, on_frame, clock_advance_hand, set_clock_len. wp_line.
  rewrite (clock_is_member_spec _ _ _ Hrep), bool_decide_eq_true_2 by set_solver.
  cbn [negb]. wp_line. apply wpf_ref_from_frame; [lia|]. wp_line. rewrite Hl.
  rewrite !length_app in *. cbn [length] in *.
  pose proof HD as (Hp & Hn & _). unfold cprevs, cnexts in Hp, Hn. rewrite last_or_cons in Hp.
  change (hd_or 0 (r :: C2 ++ C1)) with r in *.
  destruct (decide (C2 ++ C1 = [])) as [Hnil|Hne].
  - apply app_eq_nil in Hnil as [-> ->]. rewrite bool_decide_eq_true_2 by done. wp_line.
    rewrite Hn. apply wpf_assert; [by apply bool_decide_eq_true|]. wp_line.
    rewrite Hp. apply wpf_assert; [by apply bool_decide_eq_true|]. wp_line.
    match goal with |- wpf _ _ _ ?t' => assert (Hrep' : clock_rep [] t') end.
    { split; ft_simpl; try done.
      - intros x. split; [by intros ?%elem_of_nil|]. ck_cases.
        assert (x ∈ [] ++ [r]) by by apply Hmem. set_solver.
      - set_solver. }
    eapply clock_validate_spec; [done|done|]. split; [done|solve_ck_untouched].
  - set (D := C2 ++ C1) in *.
    assert (HpD : last_or r D = last_or 0 D)
      by (unfold last_or; by rewrite (last_or_Some 0 D)).
    assert (HnD : hd_or r D = hd_or 0 D) by by destruct D.
    rewrite HpD in Hp. rewrite HnD in Hn. set (p := last_or 0 D) in *. set (n := hd_or 0 D) in *.
    assert (HpI : p ∈ D) by by apply last_or_elem. assert (HnI : n ∈ D) by by apply hd_or_elem.
    assert (HDr : forall x, x ∈ D -> 0 < x < used t /\ x ≠ r).
    { intros x Hx. split; [apply Hrg|]; set_solver. }
    destruct (HDr p HpI), (HDr n HnI).
    rewrite bool_decide_eq_false_2.
    2: { intros HD1. apply Hne, length_zero_iff_nil. unfold D. rewrite length_app. lia. }
    wp_line. rewrite Hp. apply wpf_frame_from_ref; [lia|]. wp_line. rewrite Hn.
    apply wpf_frame_from_ref; [lia|]. wp_line. ft_simpl. rewrite decide_False by done. rewrite Hp, Hh.
    (* the hand moves to the successor when it pointed at [r] *)
    apply (wpf_mono _ _ (fun _ t' => t' = set_clock (hd_or 0 (C1 ++ C2)) (clock_len t)
             (upd n (set_clock_prev p) (upd p (set_clock_next n) t)))).
    { apply wpf_when; intros Hc; bd.
      - wp_line. apply wpf_ref_from_frame; [ft_simpl; lia|]. wp_line.
        destruct C1 as [|c C1]; [unfold n, D; by rewrite app_nil_r|].
        change (hd_or _ _) with c in Hc. subst c. set_solver.
      - destruct C1 as [|c C1]; [by destruct Hc|].
        assert (hd_or 0 ((c :: C1) ++ C2) = hand t) as -> by by rewrite Hh. by destruct t. }
    intros ? t' ->. wp_line.
    match goal with |- wpf _ _ _ ?t' => assert (Hrep' : clock_rep (C1 ++ C2) t') end.
    { split; ft_simpl; try done.
      - rewrite length_app, w64_small; lia.
      - apply (ring_rotate_app _ _ C2). apply (ring_cut (cprevs t) (cnexts t) _ _ r); [done| | |done];
          fold D p n; intros x Hx; destruct (HDr x Hx); ck_cases.
      - by rewrite (Permutation_app_comm C1 C2).
      - intros x. specialize (Hmem x). rewrite elem_of_app, elem_of_cons in Hmem. rewrite elem_of_app.
        assert (H6 : x = r -> (x ∉ C1) /\ (x ∉ C2)) by (clear -HrD; set_solver).
        assert (H7 : x = p \/ x = n -> x ∈ C1 \/ x ∈ C2) by (clear -HpI HnI; set_solver).
        clear -Hmem H6 H7 H1 H2 H3 H4 H5. clearbody p n. ft_simpl.
        repeat case_decide; ft_simpl; unfold NULL_FRAME; subst; intuition lia.
      - intros x Hx. ft_simpl. apply Hrg. set_solver. }
    eapply clock_validate_spec; [done|done|]. split; [done|solve_ck_untouched].
Qed.
