(* ===== verification/Victim.v ===== *)
(** * The frame table: choosing a victim

    [clock_select_victim] of [sos/src/frame_table.c] against a reference that
    does not mention links, flags or the hand: which member of the ring it
    chooses, and what it leaves of the ring. *)

From S2P Require Import Prelude Dll FrameList Clock.

(** ** A reference for the victim selection

    The two rotations of the hand as a function on the ring alone.  [el], [ref]
    and [dirty] are the attributes of the members when the search starts;
    [cleared] collects the members whose referenced bit the hand has cleared. *)
Section sim.
Context (el ref dirty : Z -> bool).

Fixpoint vsim (budget : nat) (ring cleared : list Z) (dc : Z) : (Z + Z) * list Z * list Z :=
  match ring, budget with
  | [], _ => (inr dc, [], cleared)
  | _, O => (inr dc, ring, cleared)
  | x :: l, S budget =>
    if negb (el x) then
      match l with [] => (inl 0, [], cleared) | _ => vsim budget l cleared dc end
    else if ref x && negb (bool_decide (x ∈ cleared)) then
      vsim budget (l ++ [x]) (x :: cleared) dc
    else if negb (dirty x) then (inl x, l ++ [x], cleared)
    else vsim budget (l ++ [x]) cleared (if bool_decide (dc = 0) then x else dc)
  end.

Definition fresh_clean x := el x && negb (ref x) && negb (dirty x).
Definition clean x := el x && negb (dirty x).
Definition unreferenced x := el x && negb (ref x).
Definition needs_clear x := el x && ref x.

(** What the search should choose: the first eligible member that is neither
    referenced nor dirty; failing that the first clean one; failing that the
    first unreferenced one; failing that the first eligible one. *)
Definition victim_of (C : list Z) : Z :=
  match List.find fresh_clean C with
  | Some v => v
  | None =>
    match List.find clean C with
    | Some v => v
    | None =>
      match List.find unreferenced C with
      | Some v => v
      | None => default 0 (List.find el C)
      end
    end
  end.

Lemma find_app {A} (f : A -> bool) l1 l2 :
  List.find f (l1 ++ l2) = match List.find f l1 with Some x => Some x | None => List.find f l2 end.
Proof. induction l1 as [|x l1 IH]; simpl; [done|]. by destruct (f x). Qed.

Lemma find_split {A} (f : A -> bool) l v :
  List.find f l = Some v ->
  exists l1 l2, l = l1 ++ v :: l2 /\ f v = true /\ List.find f l1 = None.
Proof.
  induction l as [|x l IH]; simpl; [done|]. destruct (f x) eqn:E; intros H.
  - simplify_eq. by exists [], l.
  - destruct (IH H) as (l1 & l2 & -> & ? & ?). exists (x :: l1), l2. simpl. by rewrite E.
Qed.

Definition result (r : (Z + Z) * list Z * list Z) : Z + Z := r.1.1.

Lemma find_filter (p : Z -> bool) l :
  (forall x, p x = true -> el x = true) -> List.find p (List.filter el l) = List.find p l.
Proof.
  intros Hp. induction l as [|x l IH]; simpl; [done|]. destruct (el x) eqn:E; simpl.
  - by destruct (p x).
  - destruct (p x) eqn:E'; [|done]. apply Hp in E'. congruence.
Qed.

Local Ltac solve_el := intros x; unfold clean, unreferenced, fresh_clean; destruct (el x); done.

(** One step of the first rotation over a member that is not chosen. *)
Lemma vsim_first_step n pre x l :
  x ∉ pre -> 0 ∉ pre -> x ≠ 0 -> fresh_clean x = false -> l ++ List.filter el (pre ++ [x]) ≠ [] ->
  vsim (S n) ((x :: l) ++ List.filter el pre) (rev (List.filter needs_clear pre))
    (default 0 (List.find unreferenced pre)) =
  vsim n (l ++ List.filter el (pre ++ [x])) (rev (List.filter needs_clear (pre ++ [x])))
    (default 0 (List.find unreferenced (pre ++ [x]))).
Proof.
  intros Hx H0 Hx0 Hf Hne. rewrite !List.filter_app, find_app, rev_app_distr in *.
  unfold fresh_clean, needs_clear, unreferenced in *. simpl in *.
  assert (Hc : bool_decide (x ∈ rev (List.filter (fun x => el x && ref x) pre)) = false).
  { apply bool_decide_eq_false. rewrite list_elem_of_In, <- in_rev, filter_In, <- list_elem_of_In.
    naive_solver. }
  destruct (el x); simpl in *.
  - rewrite Hc. destruct (ref x); simpl in *.
    + rewrite <- app_assoc. by destruct (List.find _ pre).
    + destruct (dirty x); [|done]. rewrite <- app_assoc. simpl.
      destruct (List.find _ pre) as [y|] eqn:E; simpl; [|done].
      rewrite bool_decide_eq_false_2; [done|]. apply find_some in E as [E%list_elem_of_In _].
      set_solver.
  - rewrite app_nil_r in *. destruct (l ++ List.filter el pre) eqn:E; [done|].
    by destruct (List.find _ pre).
Qed.

Lemma vsim_first rest pre l :
  NoDup (pre ++ l) -> 0 ∉ pre ++ l -> List.find fresh_clean l = None ->
  List.filter el (pre ++ l) ≠ [] ->
  vsim (length l + rest) (l ++ List.filter el pre) (rev (List.filter needs_clear pre))
    (default 0 (List.find unreferenced pre)) =
  vsim rest (List.filter el (pre ++ l)) (rev (List.filter needs_clear (pre ++ l)))
    (default 0 (List.find unreferenced (pre ++ l))).
Proof.
  revert pre. induction l as [|x l IH]; intros pre Hnd H0 Hf Hne; simpl length.
  { by rewrite app_nil_r. }
  simpl in Hf. destruct (fresh_clean x) eqn:Hx; [done|].
  apply NoDup_app in Hnd as Hnd'. rewrite Nat.add_succ_l, vsim_first_step; [..|done|].
  - rewrite IH; rewrite <- ?app_assoc; done.
  - set_solver.
  - set_solver.
  - set_solver.
  - intros [-> Hnil]%app_eq_nil. done.
Qed.

Lemma vsim_first_found rest pre l1 v l2 :
  NoDup (pre ++ l1 ++ v :: l2) -> 0 ∉ pre ++ l1 ++ v :: l2 ->
  List.find fresh_clean l1 = None -> fresh_clean v = true ->
  result (vsim (length l1 + S rest) ((l1 ++ v :: l2) ++ List.filter el pre)
    (rev (List.filter needs_clear pre)) (default 0 (List.find unreferenced pre))) = inl v.
Proof.
  revert pre. induction l1 as [|x l1 IH]; intros pre Hnd H0 Hf Hv; simpl length.
  { unfold fresh_clean in Hv. simpl.
    destruct (el v), (ref v), (dirty v); done. }
  simpl in Hf. destruct (fresh_clean x) eqn:Hx; [done|].
  apply NoDup_app in Hnd as Hnd'. simpl app. rewrite Nat.add_succ_l, app_comm_cons, vsim_first_step; [..|done|].
  - apply IH; rewrite <- ?app_assoc; done.
  - set_solver.
  - set_solver.
  - set_solver.
  - by destruct l1.
Qed.

(** Nothing eligible: the ring is emptied. *)
Lemma vsim_none rest l cl dc :
  l ≠ [] -> List.filter el l = [] -> result (vsim (length l + rest) l cl dc) = inl 0.
Proof.
  induction l as [|x l IH]; [done|]. intros _ Hf. simpl in *. destruct (el x); [done|]. simpl.
  destruct l; [done|]. by apply IH.
Qed.

(** Second rotation: every referenced bit has been cleared. *)
Lemma vsim_second_found rest l1 v l2 cl dc :
  (forall x, x ∈ l1 ++ v :: l2 -> el x = true /\ (ref x = true -> x ∈ cl)) ->
  List.find clean l1 = None -> dirty v = false ->
  result (vsim (length l1 + S rest) (l1 ++ v :: l2) cl dc) = inl v.
Proof.
  revert l2 dc. induction l1 as [|x l1 IH]; intros l2 dc Hel Hf Hv; simpl.
  - destruct (Hel v) as [-> Hr]; [left|]. simpl.
    destruct (ref v); [rewrite bool_decide_eq_true_2 by auto|]; simpl; by rewrite Hv.
  - destruct (Hel x) as [Hx Hr]; [left|]. simpl in Hf. unfold clean at 1 in Hf.
    rewrite Hx in *. simpl in *. destruct (dirty x); [|done]. simpl in Hf.
    assert (Hc : ref x && negb (bool_decide (x ∈ cl)) = false).
    { destruct (ref x); [rewrite bool_decide_eq_true_2 by auto|]; done. }
    rewrite Hc, <- app_assoc. simpl. apply IH; [|done..].
    intros y Hy. apply Hel. set_solver.
Qed.

(** Only dirty members are left: the candidate is kept, or becomes the first. *)
Lemma vsim_dirty n x l cl dc :
  (forall y, y ∈ x :: l -> el y = true /\ dirty y = true /\ (ref y = true -> y ∈ cl)) ->
  0 ∉ x :: l ->
  result (vsim (S n) (x :: l) cl dc) = inr (if bool_decide (dc = 0) then x else dc).
Proof.
  revert x l dc. induction n as [|n IH]; intros x l dc Hel H0;
    (destruct (Hel x) as (Hx & Hd & Hr); [left|]);
    (assert (Hc : ref x && negb (bool_decide (x ∈ cl)) = false)
      by (destruct (ref x); [rewrite bool_decide_eq_true_2 by auto|]; done)).
  - simpl. rewrite Hx, Hc, Hd. simpl. by destruct l.
  - assert (Hx0 : x ≠ 0) by (intros ->; apply H0; left).
    assert (Hne : (if bool_decide (dc = 0) then x else dc) ≠ 0) by (destruct (bool_decide_reflect (dc = 0)); done).
    remember (S n) as m. simpl. rewrite Hx, Hc, Hd. simpl. subst m.
    destruct l as [|y l]; simpl app; rewrite IH; clear IH.
    + by rewrite (bool_decide_eq_false_2 _ Hne).
    + done.
    + done.
    + by rewrite (bool_decide_eq_false_2 _ Hne).
    + intros z Hz. apply Hel. set_solver.
    + set_solver.
Qed.

(** The search chooses [victim_of]. *)
Lemma vsim_victim C :
  NoDup C -> 0 ∉ C -> C ≠ [] ->
  result (vsim (length C * 2) C [] 0) = inl (victim_of C) \/
  result (vsim (length C * 2) C [] 0) = inr (victim_of C) /\ victim_of C ≠ 0.
Proof.
  intros Hnd H0 Hne. unfold victim_of. replace (length C * 2)%nat with (length C + length C)%nat by lia.
  destruct (List.find fresh_clean C) as [v|] eqn:Hf.
  { left. apply find_split in Hf as (l1 & l2 & -> & Hv & Hl1).
    rewrite !length_app. simpl length.
    replace (length l1 + S (length l2) + (length l1 + S (length l2)))%nat
      with (length l1 + S (length l2 + (length l1 + S (length l2))))%nat by lia.
    rewrite <- (app_nil_r (l1 ++ v :: l2)). by apply (vsim_first_found _ []). }
  destruct (decide (List.filter el C = [])) as [Hnil|Hel].
  { left. rewrite vsim_none by done.
    rewrite <- (find_filter clean), <- (find_filter unreferenced), <- (find_filter el) by solve_el.
    by rewrite Hnil. }
  pose proof (vsim_first (length C) [] C) as Hstep. simpl in Hstep. rewrite app_nil_r in Hstep.
  rewrite Hstep by done. clear Hstep.
  assert (HC0 : forall x, x ∈ List.filter el C -> el x = true /\ x ∈ C /\
    (ref x = true -> x ∈ rev (List.filter needs_clear C))).
  { intros x [Hx Hex]%list_elem_of_In%filter_In. rewrite list_elem_of_In. split_and!; [done..|].
    intros Hr. rewrite list_elem_of_In, <- in_rev, filter_In. unfold needs_clear.
    by rewrite Hr, Hex. }
  assert (Hlen : (length (List.filter el C) ≤ length C)%nat) by apply filter_length_le.
  rewrite <- (find_filter clean) by solve_el.
  destruct (List.find clean (List.filter el C)) as [v|] eqn:Hc.
  - left. apply find_split in Hc as (l1 & l2 & Heq & Hv & Hl1). rewrite Heq in *.
    rewrite length_app in Hlen. simpl in Hlen.
    replace (length C) with (length l1 + S (length C - S (length l1)))%nat by lia.
    apply vsim_second_found; [naive_solver|done|].
    unfold clean in Hv. by destruct (el v), (dirty v).
  - right. rewrite <- (find_filter el C) by done.
    destruct (List.filter el C) as [|x l] eqn:HC; [done|].
    assert (Hx0 : x ≠ 0) by (intros ->; destruct (HC0 0) as (? & ? & ?); [left|done]).
    simpl in Hlen. destruct (length C) as [|n] eqn:Hn; [lia|].
    destruct (HC0 x) as (Hx & _ & _); [left|].
    rewrite vsim_dirty.
    + destruct (List.find unreferenced C) as [y|] eqn:Hu; simpl; [|by rewrite Hx].
      assert (y ≠ 0); [|by rewrite bool_decide_eq_false_2].
      apply find_some in Hu as [Hu%list_elem_of_In _]. naive_solver.
    + intros y Hy. destruct (HC0 y Hy) as (Hy1 & _ & Hy2). split_and!; [done| |done].
      apply list_elem_of_In in Hy. apply (find_none _ _ Hc) in Hy.
      unfold clean in Hy. rewrite Hy1 in Hy. by destruct (dirty y).
    + intros H. by destruct (HC0 0 H) as (_ & ? & _).
Qed.

(** What the search does to the ring. *)
Lemma vsim_ring n l cl dc :
  let '(res, l', cl') := vsim n l cl dc in
  (forall x, x ∈ l' -> x ∈ l) /\ (forall x, x ∈ l -> el x = true -> x ∈ l') /\
  (forall x, x ∈ cl' -> x ∈ cl \/ x ∈ l) /\
  match res with inl v => v = 0 \/ last l' = Some v | inr _ => True end.
Proof.
  revert l cl dc. induction n as [|n IH]; intros [|x l] cl dc; simpl; [by auto..|].
  destruct (el x) eqn:Hx; simpl.
  - destruct (ref x && negb (bool_decide (x ∈ cl))).
    { specialize (IH (l ++ [x]) (x :: cl) dc). destruct (vsim n _ _ _) as [[res l'] cl'].
      set_solver. }
    destruct (dirty x); simpl.
    + specialize (IH (l ++ [x]) cl (if bool_decide (dc = 0) then x else dc)).
      destruct (vsim n _ _ _) as [[res l'] cl']. set_solver.
    + split_and!; [set_solver..|]. right. apply last_snoc.
  - assert (Hne : forall z, z ∈ x :: l -> el z = true -> z ∈ l)
      by (intros z [->|?]%elem_of_cons ?; [congruence|done]).
    destruct l as [|y l]; [split_and!; auto; set_solver|].
    specialize (IH (y :: l) cl dc). destruct (vsim n (y :: l) _ _) as [[res l'] cl'].
    destruct IH as (IH1 & IH2 & IH3 & IH4). split_and!; [..|done].
    + intros z Hz. right. auto.
    + auto.
    + intros z Hz. destruct (IH3 z Hz); [auto|]. right. by right.
Qed.

Lemma victim_of_none C : 0 ∉ C -> victim_of C = 0 -> forall x, x ∈ C -> el x = false.
Proof.
  intros H0 Hv x Hx. unfold victim_of in Hv.
  assert (Hn : forall f v, List.find f C = Some v -> v ≠ 0)
    by (intros f v [Hf%list_elem_of_In _]%find_some; naive_solver).
  repeat case_match; [naive_solver..|].
  destruct (List.find el C) eqn:He; [naive_solver|].
  apply list_elem_of_In in Hx. by apply (find_none _ _ He).
Qed.

Lemma victim_of_some C : victim_of C ≠ 0 -> victim_of C ∈ C /\ el (victim_of C) = true.
Proof.
  unfold victim_of. intros Hv. repeat case_match;
    repeat match goal with H : List.find _ _ = Some _ |- _ => apply find_some in H as [?%list_elem_of_In H] end;
    unfold fresh_clean, clean, unreferenced in *; bd; [by split..|].
  destruct (List.find el C) eqn:He; [|done].
  apply find_some in He as [?%list_elem_of_In ?]. by split.
Qed.
End sim.

(** ** The loop refines the reference *)

Definition clear_ref (f : frame_t) : frame_t :=
  set_flags (Z.land (flags f) (Z.lnot FRAME_FLAG_REFERENCED)) f.

(** [t'] is [t] up to the ring links and the referenced bits of [cl]. *)
Record aged (cl : list Z) (t t' : table) : Prop := Aged {
  ag_entry : forall x, cpayload (entry t' x) =
    cpayload (if decide (x ∈ cl) then clear_ref (entry t x) else entry t x);
  ag_lists : forall w, get_list w t' = get_list w t;
  ag_scalars : cscalars t' = cscalars t;
}.

Definition referenced (f : frame_t) : bool := bool_decide (Z.land (flags f) FRAME_FLAG_REFERENCED ≠ 0).
Definition dirty (f : frame_t) : bool := bool_decide (Z.land (flags f) FRAME_FLAG_DIRTY ≠ 0).

Lemma clear_ref_bits f b :
  Z.land (flags (clear_ref f)) b = Z.land (flags f) (Z.land (Z.lnot FRAME_FLAG_REFERENCED) b).
Proof. unfold clear_ref; simpl. by rewrite Z.land_assoc. Qed.

Lemma clear_ref_attributes f :
  clock_is_eligible (clear_ref f) = clock_is_eligible f /\
  dirty (clear_ref f) = dirty f /\ referenced (clear_ref f) = false.
Proof.
  unfold clock_is_eligible, dirty, referenced. rewrite !clear_ref_bits.
  split_and!; [done..|]. apply bool_decide_eq_false. rewrite Z.land_0_r. lia.
Qed.

Lemma cpayload_attributes f g :
  cpayload f = cpayload g ->
  clock_is_eligible f = clock_is_eligible g /\ dirty f = dirty g /\ referenced f = referenced g.
Proof. destruct f, g. intros [=]. by simplify_eq. Qed.

Lemma aged_attributes cl t t' x :
  aged cl t t' ->
  clock_is_eligible (entry t' x) = clock_is_eligible (entry t x) /\
  dirty (entry t' x) = dirty (entry t x) /\
  referenced (entry t' x) = referenced (entry t x) && negb (bool_decide (x ∈ cl)).
Proof.
  intros [He _ _]. specialize (He x). apply cpayload_attributes in He as (-> & -> & ->).
  destruct (clear_ref_attributes (entry t x)) as (? & ? & ?). case_decide.
  - rewrite bool_decide_eq_true_2, andb_false_r by done. done.
  - by rewrite bool_decide_eq_false_2, andb_true_r by done.
Qed.

Lemma aged_scalars cl t t' : aged cl t t' -> used t' = used t /\ capacity t' = capacity t.
Proof. intros [_ _ Hs]. unfold cscalars in Hs. by simplify_eq. Qed.

Lemma aged_bounded cl t t' : aged cl t t' -> bounded t -> bounded t'.
Proof. intros [Hu Hc]%aged_scalars []. split; lia. Qed.

Lemma aged_set_clock cl h n t t' : aged cl t t' -> aged cl t (set_clock h n t').
Proof. intros []. split; intros; ft_simpl; auto. Qed.

Lemma aged_untouched cl l t t' t'' : aged cl t t' -> ck_untouched l t' t'' -> aged cl t t''.
Proof.
  intros [He Hl Hs] [_ Hp Hl' Hs']. split; intros; [by rewrite Hp|by rewrite Hl'|by rewrite Hs'].
Qed.

Lemma aged_clear cl x t t' : x ∉ cl -> aged cl t t' -> aged (x :: cl) t (upd x clear_ref t').
Proof.
  intros Hx [He Hl Hs]. split; intros; ft_simpl; [|by auto..].
  rename x0 into y. destruct (decide (y = x)) as [->|Hy]; [specialize (He x)|specialize (He y)].
  - rewrite decide_False in He by done. rewrite decide_True by set_solver.
    destruct (entry t x), (entry t' x). unfold cpayload, clear_ref in *. simpl in *.
    by injection He as <- <- <- <- <- <- <- <- <-.
  - rewrite He. by repeat case_decide; set_solver.
Qed.

(** The hand moves past [x]. *)
Lemma clock_rep_advance l1 x l2 t :
  clock_rep (l1 ++ x :: l2) t ->
  clock_rep (l2 ++ l1 ++ [x]) (set_clock (clock_next (entry t x)) (clock_len t) t).
Proof.
  intros [Hh Hl Hr Hnd Hm Hrg].
  assert (HP : l1 ++ x :: l2 ≡ₚ l2 ++ l1 ++ [x])
    by (rewrite (Permutation_app_comm l2), <- app_assoc; done).
  split; ft_simpl.
  - apply ring_lookup in Hr as [_ Hn]. unfold cnexts in Hn. rewrite Hn.
    rewrite hd_or_app. by destruct l1, l2.
  - by rewrite Hl, HP.
  - apply ring_rotate_app. rewrite <- app_assoc. done.
  - by rewrite <- HP.
  - intros y. rewrite <- HP. apply Hm.
  - intros y Hy. apply Hrg. by rewrite HP.
Qed.

Lemma clock_rep_upd C r g t :
  (forall f, clock_prev (g f) = clock_prev f /\ clock_next (g f) = clock_next f) ->
  clock_rep C t -> clock_rep C (upd r g t).
Proof.
  intros Hg [Hh Hl Hr Hnd Hm Hrg].
  assert (Hn : forall x, clock_next (entry (upd r g t) x) = clock_next (entry t x))
    by (intros x; ft_simpl; case_decide; [subst; apply Hg|done]).
  split; ft_simpl; try done.
  - eapply ring_ext; [|done]. intros x _. unfold cprevs, cnexts. split; [|apply Hn].
    ft_simpl. case_decide; [subst; apply Hg|done].
  - intros x. rewrite Hn. apply Hm.
Qed.

Section refine.
Context (F : fault -> Prop) (t0 : table).
Let el x := clock_is_eligible (entry t0 x).
Let rf x := referenced (entry t0 x).
Let dt x := dirty (entry t0 x).

Lemma victim_loop_refines budget l cl dc t :
  clock_rep l t -> bounded t -> aged cl t0 t ->
  wpf F (victim_loop budget dc)
    (fun r t' => let '(res, l', cl') := vsim el rf dt budget l cl dc in
       r = res /\ clock_rep l' t' /\ aged cl' t0 t') t.
Proof.
  revert l cl dc t. induction budget as [|budget IH]; intros [|x l] cl dc t Hrep Hb Ha;
    pose proof Hrep as [Hh Hl _ _ _ Hrg]; simpl; wp_line; rewrite Hl;
    rewrite ?(bool_decide_eq_false_2 (0 < Z.of_nat (length []))) by (simpl; lia);
    rewrite ?(bool_decide_eq_true_2 (0 < Z.of_nat (length (x :: l)))) by (simpl; lia); try done.
  assert (0 < x < used t) by (apply Hrg; left). pose proof Hb as [? ?].
  wp_line. rewrite Hh. change (hd_or 0 (x :: l)) with x. apply wpf_frame_from_ref; [lia|].
  unfold at_frame, on_frame, clock_advance_hand. wp_line. cbn zeta.
  destruct (aged_attributes _ _ _ x Ha) as (He & Hd & Hrf).
  fold (referenced (entry t x)) (dirty (entry t x)). rewrite He, Hd, Hrf. fold (el x) (dt x) (rf x).
  pose proof (clock_rep_advance [] x l t Hrep) as Hadv. simpl app in Hadv.
  destruct (el x) eqn:Hel; cbn [negb].
  - destruct (rf x && negb (bool_decide (x ∈ cl))) eqn:Hr.
    { wp_line. apply IH.
      - apply (clock_rep_upd _ x clear_ref) in Hadv; [|done].
        revert Hadv. by destruct t.
      - done.
      - apply aged_set_clock, aged_clear; [|done]. by bd. }
    destruct (dt x); cbn [negb].
    + apply wpf_bind.
      apply (wpf_mono _ _ (fun d t' => d = (if bool_decide (dc = 0) then x else dc) /\ t' = t)).
      { unfold NULL_FRAME. destruct (bool_decide (dc = 0)); [apply wpf_ref_from_frame; [lia|done]|done]. }
      intros d t' [-> ->]. wp_line. apply IH; [done|done|by apply aged_set_clock].
    + wp_line. apply wpf_ref_from_frame; [lia|]. wp_line.
      split_and!; [done|done|by apply aged_set_clock].
  - wp_line. eapply wpf_mono; [by apply (clock_remove_spec F [] x l)|].
    intros _ t' [Hrep' Hu]. simpl app in *. wp_line. pose proof Hrep' as [_ -> _ _ _ _].
    apply (aged_untouched _ _ _ _ _ Ha) in Hu.
    destruct l as [|y l]; [by rewrite bool_decide_eq_true_2|].
    rewrite bool_decide_eq_false_2 by done. apply IH; [done| |done].
    destruct (aged_scalars _ _ _ Ha), (aged_scalars _ _ _ Hu). split; lia.
Qed.
End refine.

(** The victim for the ring [C] in the table [t], from the attributes of its
    members alone. *)
Definition victim (t : table) (C : list Z) : Z :=
  victim_of (fun x => clock_is_eligible (entry t x)) (fun x => referenced (entry t x))
    (fun x => dirty (entry t x)) C.

(** What [clock_select_victim] leaves behind. *)
Record selected (t : table) (C : list Z) (v : Z) (t' : table) (C' cl : list Z) : Prop := Selected {
  se_rep : clock_rep C' t';
  se_aged : aged cl t t';
  se_cleared : forall x, x ∈ cl -> x ∈ C;
  se_sub : forall x, x ∈ C' -> x ∈ C;
  se_keep : forall x, x ∈ C -> clock_is_eligible (entry t x) = true -> x ∈ C';
  se_hand : v ≠ NULL_FRAME -> last C' = Some v;
}.

Lemma clock_rep_no_null C t : clock_rep C t -> 0 ∉ C.
Proof. intros [_ _ _ _ _ Hrg] H0%Hrg. lia. Qed.

Lemma clock_select_victim_refines F C t :
  clock_rep C t -> bounded t ->
  wpf F clock_select_victim
    (fun v t' => v = victim t C /\ exists C' cl, selected t C v t' C' cl) t.
Proof.
  intros Hrep Hb. pose proof Hrep as [Hh Hl _ Hnd _ Hrg].
  pose proof (clock_rep_len_bound _ _ Hrep Hb). pose proof (clock_rep_no_null _ _ Hrep) as H0.
  assert (Ha : aged [] t t) by (split; intros; by rewrite ?decide_False by set_solver).
  unfold clock_select_victim, clock_advance_hand, at_frame. wp_line. rewrite Hl.
  destruct (decide (C = [])) as [->|Hne].
  { rewrite bool_decide_eq_true_2 by done. wp_line. split; [done|]. exists [], []. by split; auto. }
  rewrite bool_decide_eq_false_2 by (destruct C; simpl; [done|lia]). wp_line. rewrite Hh.
  apply wpf_assert; [apply bool_decide_eq_true; intros Heq; apply H0; change 0 with NULL_FRAME; rewrite <- Heq; by apply hd_or_elem|].
  rewrite w64_small by lia. replace (Z.to_nat _) with (length C * 2)%nat by lia.
  wp_line. eapply wpf_mono; [by apply (victim_loop_refines F t _ C [])|].
  intros r t' Hr. pose proof (vsim_ring (fun x => clock_is_eligible (entry t x)) (fun x => referenced (entry t x))
    (fun x => dirty (entry t x)) (length C * 2) C [] 0) as Hring.
  pose proof (vsim_victim (fun x => clock_is_eligible (entry t x)) (fun x => referenced (entry t x))
    (fun x => dirty (entry t x)) C Hnd H0 Hne) as Hv. fold (victim t C) in Hv.
  destruct (vsim _ _ _ _ _ _ _) as [[res C'] cl]. unfold result in Hv. simpl in Hv.
  destruct Hr as (-> & Hrep' & Ha'), Hring as (Hsub & Hkeep & Hcl & Hlast).
  assert (forall x, x ∈ cl -> x ∈ C) by (intros x Hx; destruct (Hcl x Hx) as [?%elem_of_nil|]; done).
  destruct Hv as [->|[-> Hv0]].
  - wp_line. split; [done|]. exists C', cl. split; try done. intros ?. naive_solver.
  - rewrite bool_decide_eq_true_2 by done.
    destruct (victim_of_some _ _ _ C Hv0) as [Hin Hel]. fold (victim t C) in Hin, Hel.
    pose proof (Hrg _ Hin). destruct (aged_scalars _ _ _ Ha') as [Hu Hc], Hb as [? ?].
    wp_line. apply wpf_frame_from_ref; [lia|]. wp_line. split; [done|].
    apply Hkeep in Hin; [|done]. apply list_elem_of_split in Hin as (l1 & l2 & ->).
    exists (l2 ++ l1 ++ [victim t C]), cl.
    split; [by apply clock_rep_advance|by apply aged_set_clock|done|set_solver|set_solver|].
    intros _. by rewrite app_assoc, last_snoc.
Qed.

(** C3: on a well-formed ring, [clock_select_victim] returns without failing an
    assertion and chooses the first eligible member that is neither referenced
    nor dirty; failing that the first clean one, failing that the first
    unreferenced one, failing that the first eligible one, and NULL_FRAME
    exactly when no member is eligible.  The ring it leaves is well formed, has
    lost ineligible members only and ends at the victim (the hand stands on its
    successor), and apart from ring links only referenced bits of members have
    been cleared. *)
Theorem clock_select_victim_correct (C : list Z) (t : table) :
  clock_rep C t -> bounded t ->
  wp clock_select_victim (fun v t' =>
    v = victim t C /\
    (v = NULL_FRAME <-> forall x, x ∈ C -> clock_is_eligible (entry t x) = false) /\
    (v ≠ NULL_FRAME -> v ∈ C /\ clock_is_eligible (entry t v) = true) /\
    exists C' cl, selected t C v t' C' cl) t.
Proof.
  intros Hrep Hb. pose proof (clock_rep_no_null _ _ Hrep) as H0.
  eapply wpf_mono; [by apply clock_select_victim_refines|]. intros v t' [-> Hsel].
  split_and!; [done| | |done].
  - split; [by apply victim_of_none|]. intros Hn.
    destruct (decide (victim t C = 0)) as [|Hv]; [done|].
    destruct (victim_of_some _ _ _ _ Hv) as [Hin Hel]. fold (victim t C) in *.
    by rewrite Hn in Hel.
  - apply victim_of_some.
Qed.

(** A ring of two user frames: 1 is referenced, 2 is dirty. *)
Definition ring_demo : table :=
  Table
    (<[1 := Frame 0 0 0 ALLOCATED_LIST FRAME_OWNER_USER 9 0 0 0 2 2]>
      (<[2 := Frame 0 0 0 ALLOCATED_LIST FRAME_OWNER_USER 5 0 0 0 1 1]> ∅))
    64 3 4096 (FrameList FREE_LIST 0 0 0) (FrameList ALLOCATED_LIST 0 0 0) 1 2 0 0.

Lemma ring_demo_rep : clock_rep [1; 2] ring_demo.
Proof.
  split; [done|done|by repeat split|by apply (bool_decide_unpack _)| |].
  - intros x. unfold entry, ring_demo; simpl.
    destruct (decide (x = 1)) as [->|]; [rewrite lookup_insert_eq; set_solver|].
    destruct (decide (x = 2)) as [->|]; [rewrite lookup_insert_ne, lookup_insert_eq by done; set_solver|].
    rewrite !lookup_insert_ne by done. rewrite lookup_empty. simpl. set_solver.
  - intros x Hx. simpl. assert (x = 1 \/ x = 2) by set_solver. lia.
Qed.

Lemma ring_demo_bounded : bounded ring_demo.
Proof. split; simpl; lia. Qed.

Lemma clock_select_victim_correct_witness :
  victim ring_demo [1; 2] = 1 /\
  exists v t', clock_select_victim ring_demo = Ok (v, t') /\ v = 1.
Proof.
  split; [by vm_compute|].
  destruct (wp_inv _ _ _ (clock_select_victim_correct [1; 2] ring_demo ring_demo_rep
    ring_demo_bounded)) as (v & t' & Heq & Hv & _).
  exists v, t'. split; [done|]. by rewrite Hv; vm_compute.
Defined.
