(* ===== verification/FrameTable.v ===== *)
(** * The frame table: the table as a whole

    The free list, the allocated list and the ring of one table together: the
    invariant that relates them, the operations of [sos/src/frame_table.c]
    that need no memory and no pager ([free_frame], [frame_page],
    [frame_data], slot binding, marking), and the relation of the steps that
    other parts of the system can make through these entry points. *)

From S2P Require Import Prelude Dll FrameList Clock Victim.

(** ** Operations *)

Definition PAGEFILE_INVALID_SLOT : Z := 0.
Definition seL4_PageBits : Z := 12.

(** Virtual addresses of the two regions, from [vmem_layout.h]. *)
Definition SOS_FRAME_TABLE : Z := 0x8100000000.
Definition SOS_FRAME_DATA : Z := 0x8200000000.

Definition free_frame (frame_ref : Z) : M table unit :=
  if bool_decide (frame_ref ≠ NULL_FRAME) then
    frame ← frame_from_ref frame_ref;
    clock_remove frame;;
    id ← at_frame frame list_id;
    if bool_decide (id = ALLOCATED_LIST) then
      remove_frame Allocated frame;;
      on_frame frame (set_owner FRAME_OWNER_KERNEL);;
      on_frame frame (set_flags 0);;
      on_frame frame (set_pin_count 0);;
      on_frame frame (set_swap_slot 0);;
      on_frame frame (set_clock_prev NULL_FRAME);;
      on_frame frame (set_clock_next NULL_FRAME);;
      push_front Free frame
    else mret tt
  else mret tt.

Definition frame_page (frame_ref : Z) : M table Z :=
  frame ← frame_from_ref frame_ref;
  at_frame frame sos_page.

(** The address of the page of data of a frame. *)
Definition frame_data (frame_ref : Z) : M table Z :=
  cassert (bool_decide (frame_ref ≠ NULL_FRAME));;
  c ← gets capacity;
  cassert (bool_decide (frame_ref < c));;
  mret (w64 (SOS_FRAME_DATA + frame_ref * 2 ^ seL4_PageBits)).

Definition frame_bind_slot (frame_ref slot : Z) : M table bool :=
  if bool_decide (frame_ref = NULL_FRAME) || bool_decide (slot = PAGEFILE_INVALID_SLOT) then mret false
  else
    frame ← frame_from_ref frame_ref;
    s ← at_frame frame swap_slot;
    if bool_decide (s ≠ 0) && bool_decide (s ≠ slot) then mret false
    else
      on_frame frame (set_swap_slot slot);;
      mret true.

Definition frame_unbind_slot (frame_ref : Z) : M table unit :=
  if bool_decide (frame_ref = NULL_FRAME) then mret tt
  else
    frame ← frame_from_ref frame_ref;
    on_frame frame (set_swap_slot 0).

Definition frame_table_cspace : M table Z := gets ft_cspace.

(** ** The invariant *)

(** Entries [H] are in the hands of a running operation: on neither list. *)
Record tbl_rep (F A C H : list Z) (t : table) : Prop := TblRep {
  tr_free : list_rep Free F t;
  tr_alloc : list_rep Allocated A t;
  tr_clock : clock_rep C t;
  tr_sub : forall x, x ∈ C -> x ∈ A;
  tr_cover : forall x, 0 < x < used t <-> x ∈ F \/ x ∈ A \/ x ∈ H;
  tr_hole : forall x, x ∈ H -> detached x t;
  tr_owner : forall x, x ∉ A -> x ∉ H -> owner (entry t x) = FRAME_OWNER_KERNEL;
  tr_bounded : bounded t;
}.

(** Between operations: every frame is on exactly one of the two lists (their
    disjointness follows from the list identifiers), the ring holds allocated
    frames only, and frames that are not allocated belong to the kernel. *)
Definition table_inv (t : table) : Prop := exists F A C, tbl_rep F A C [] t.

(** ** Tables that agree on some links *)

Definition list_links (f : frame_t) : Z * Z * list_id_t := (prev f, next f, list_id f).
Definition clock_links (f : frame_t) : Z * Z := (clock_prev f, clock_next f).

Record same_lists (t t' : table) : Prop := SameLists {
  sl_list : forall w, get_list w t' = get_list w t;
  sl_links : forall x, list_links (entry t' x) = list_links (entry t x);
  sl_used : used t' = used t;
}.

Record same_clock (t t' : table) : Prop := SameClock {
  sc_hand : hand t' = hand t;
  sc_len : clock_len t' = clock_len t;
  sc_links : forall x, clock_links (entry t' x) = clock_links (entry t x);
  sc_used : used t' = used t;
}.

Lemma list_rep_same w l t t' : same_lists t t' -> list_rep w l t -> list_rep w l t'.
Proof.
  intros [Hl Hk Hu] []. split; rewrite ?Hl, ?Hu; try done.
  - eapply seg_ext; [|done]. intros x _. specialize (Hk x). injection Hk as H1 H2 H3. done.
  - intros x. specialize (Hk x). injection Hk as H1 H2 H3. by rewrite H3.
Qed.

Lemma detached_same r t t' : same_lists t t' -> detached r t -> detached r t'.
Proof.
  intros [_ Hk _] (H1 & H2 & H3). specialize (Hk r). injection Hk as E1 E2 E3.
  unfold detached. by rewrite E1, E2, E3.
Qed.

Lemma clock_rep_same C t t' : same_clock t t' -> clock_rep C t -> clock_rep C t'.
Proof.
  intros [Hh Hl Hk Hu] []. split; rewrite ?Hh, ?Hl, ?Hu; try done.
  - eapply ring_ext; [|done]. intros x _. specialize (Hk x). injection Hk as H1 H2. done.
  - intros x. specialize (Hk x). injection Hk as H1 H2. by rewrite H2.
Qed.

Lemma untouched_same_clock w l t t' : untouched w l t t' -> same_clock t t'.
Proof.
  intros [_ Hp _ Hs]. injection Hs as ? ? ? ? ? ? ?. split; try done.
  intros x. specialize (Hp x). unfold payload, clock_links in *.
  destruct (entry t x), (entry t' x). simpl in *. by simplify_eq.
Qed.

Lemma ck_untouched_same_lists l t t' : ck_untouched l t t' -> same_lists t t'.
Proof.
  intros [_ Hp Hl Hs]. injection Hs as ? ? ? ? ?. split; try done.
  intros x. specialize (Hp x). unfold cpayload, list_links in *.
  destruct (entry t x), (entry t' x). simpl in *. by simplify_eq.
Qed.

Lemma aged_same_lists cl t t' : aged cl t t' -> same_lists t t'.
Proof.
  intros [Hp Hl Hs]. injection Hs as ? ? ? ? ?. split; try done.
  intros x. specialize (Hp x). unfold cpayload, clear_ref, list_links in *. case_decide;
    destruct (entry t x), (entry t' x); simpl in *; by simplify_eq.
Qed.

(** ** The data of the entries

    What neither the list operations nor the ring operations change. *)
Definition attrs (f : frame_t) : Z * frame_owner_t * Z * Z * Z * Z :=
  (sos_page f, owner f, flags f, pin_count f, reserved16 f, swap_slot f).

Record keeps (t t' : table) : Prop := Keeps {
  kp_attrs : forall x, attrs (entry t' x) = attrs (entry t x);
  kp_scalars : cscalars t' = cscalars t;
}.

#[export] Instance keeps_preorder : PreOrder keeps.
Proof. split; [by intros t|]. intros t1 t2 t3 [] []. split; intros; etrans; eauto. Qed.

Lemma untouched_keeps w l t t' : untouched w l t t' -> keeps t t'.
Proof.
  intros [_ Hp _ Hs]. injection Hs as ? ? ? ? ? ? ?.
  split; [|unfold cscalars; congruence].
  intros x. specialize (Hp x). unfold payload, attrs in *.
  destruct (entry t x), (entry t' x). simpl in *. by simplify_eq.
Qed.

Lemma ck_untouched_keeps l t t' : ck_untouched l t t' -> keeps t t'.
Proof.
  intros [_ Hp _ Hs]. split; [|done]. intros x. specialize (Hp x). unfold cpayload, attrs in *.
  destruct (entry t x), (entry t' x). simpl in *. by simplify_eq.
Qed.

Lemma keeps_owner t t' x : keeps t t' -> owner (entry t' x) = owner (entry t x).
Proof. intros [Ha _]. specialize (Ha x). by injection Ha. Qed.

Lemma keeps_scalars t t' :
  keeps t t' -> used t' = used t /\ capacity t' = capacity t /\ byte_length t' = byte_length t.
Proof. intros [_ Hs]. by injection Hs. Qed.

Lemma keeps_bounded t t' : keeps t t' -> bounded t -> bounded t'.
Proof. intros (Hu & Hc & _)%keeps_scalars. unfold bounded. by rewrite Hu, Hc. Qed.

(** Eligibility only depends on the data. *)
Lemma attrs_eligible f g : attrs f = attrs g -> clock_is_eligible f = clock_is_eligible g.
Proof. intros [= ? Ho Hf ? ? ?]. unfold clock_is_eligible. by rewrite Ho, Hf. Qed.

(** Dropping an absent element, and the only occurrence of a present one. *)
Lemma filter_absent (r : Z) (l : list Z) : r ∉ l -> filter (.≠ r) l = l.
Proof.
  induction l as [|x l IH]; [done|]. intros Hr.
  rewrite filter_cons_True by set_solver. by rewrite IH by set_solver.
Qed.
Lemma filter_present (r : Z) l1 l2 :
  NoDup (l1 ++ r :: l2) -> filter (.≠ r) (l1 ++ r :: l2) = l1 ++ l2.
Proof.
  intros (? & ? & [? ?]%NoDup_cons)%NoDup_app.
  rewrite filter_app, filter_cons_False by (intros Hne; by apply Hne).
  by rewrite !filter_absent by set_solver.
Qed.

(** ** The list and ring operations on the whole table *)

Section table_ops.
Context (G : fault -> Prop).

Lemma tbl_pop F A C r t :
  tbl_rep (r :: F) A C [] t ->
  wpf G (pop_front Free)
    (fun o t' => o = Some r /\ tbl_rep F A C [r] t' /\ keeps t t') t.
Proof.
  intros [Hf Ha Hc Hs Hcov _ Ho Hb]. eapply wpf_mono; [by apply pop_front_spec|].
  intros o t' (-> & Hf' & Hu & Hd). pose proof (untouched_keeps _ _ _ _ Hu) as Hk.
  pose proof (keeps_scalars _ _ Hk) as (Huu & _ & _).
  assert (Hdis : forall x, x ∈ r :: F -> x ∉ A)
    by (intros x H1 H2; exact (list_rep_disjoint _ _ _ x Hf Ha H1 H2)).
  split_and!; [done| |done]. split; try done.
  - apply (list_rep_untouched Free Allocated (r :: F) A t t'); [done|done|done| |done].
    intros x [->|Hx]%elem_of_cons; [by destruct Hd as [-> _]|].
    apply (lr_member _ _ _ Hf') in Hx. by rewrite Hx.
  - eapply clock_rep_same; [by eapply untouched_same_clock|done].
  - intros x. rewrite Huu, Hcov. set_solver.
  - by intros x ->%list_elem_of_singleton.
  - intros x Hx _. rewrite (keeps_owner _ _ _ Hk). apply Ho; set_solver.
  - by eapply keeps_bounded.
Qed.

Lemma tbl_pop_nil A C t :
  tbl_rep [] A C [] t -> wpf G (pop_front Free) (fun o t' => o = None /\ t' = t) t.
Proof. intros []. by apply (pop_front_spec G Free []). Qed.

Lemma tbl_push_free F A C r t :
  tbl_rep F A C [r] t -> owner (entry t r) = FRAME_OWNER_KERNEL ->
  wpf G (push_front Free r)
    (fun _ t' => tbl_rep (r :: F) A C [] t' /\ keeps t t') t.
Proof.
  intros [Hf Ha Hc Hs Hcov Hd Ho Hb] Hor.
  assert (Hr : detached r t) by (apply Hd; set_solver).
  assert (0 < r < used t) by (apply Hcov; set_solver).
  pose proof (list_rep_detached _ _ _ _ Ha Hr) as HrA.
  eapply wpf_mono; [by apply push_front_spec|].
  intros _ t' (Hf' & Hu). pose proof (untouched_keeps _ _ _ _ Hu) as Hk.
  pose proof (keeps_scalars _ _ Hk) as (Huu & _ & _).
  assert (Hdis : forall x, x ∈ r :: F -> x ∉ A).
  { intros x [->|Hx]%elem_of_cons; [done|]. intros Hx'. exact (list_rep_disjoint _ _ _ x Hf Ha Hx Hx'). }
  split; [|done]. split; try done.
  - apply (list_rep_untouched Free Allocated (r :: F) A t t'); [done|done|done| |done].
    intros x Hx%(lr_member _ _ _ Hf'). by rewrite Hx.
  - eapply clock_rep_same; [by eapply untouched_same_clock|done].
  - intros x. rewrite Huu, Hcov. set_solver.
  - by intros x ?%elem_of_nil.
  - intros x Hx _. rewrite (keeps_owner _ _ _ Hk). destruct (decide (x = r)) as [->|]; [done|].
    apply Ho; set_solver.
  - by eapply keeps_bounded.
Qed.

Lemma tbl_push_alloc F A C r t :
  tbl_rep F A C [r] t ->
  wpf G (push_back Allocated r)
    (fun _ t' => tbl_rep F (A ++ [r]) C [] t' /\ keeps t t') t.
Proof.
  intros [Hf Ha Hc Hs Hcov Hd Ho Hb].
  assert (Hr : detached r t) by (apply Hd; set_solver).
  assert (0 < r < used t) by (apply Hcov; set_solver).
  pose proof (list_rep_detached _ _ _ _ Hf Hr) as HrF.
  eapply wpf_mono; [by apply push_back_spec|].
  intros _ t' (Ha' & Hu). pose proof (untouched_keeps _ _ _ _ Hu) as Hk.
  pose proof (keeps_scalars _ _ Hk) as (Huu & _ & _).
  assert (Hdis : forall x, x ∈ r :: A -> x ∉ F).
  { intros x [->|Hx]%elem_of_cons; [done|]. intros Hx'. exact (list_rep_disjoint _ _ _ x Hf Ha Hx' Hx). }
  split; [|done]. split; try done.
  - apply (list_rep_untouched Allocated Free (r :: A) F t t'); [done|done|done| |done].
    intros x Hx. assert (x ∈ A ++ [r]) as Hx'%(lr_member _ _ _ Ha') by set_solver. by rewrite Hx'.
  - eapply clock_rep_same; [by eapply untouched_same_clock|done].
  - set_solver.
  - intros x. rewrite Huu, Hcov. set_solver.
  - by intros x ?%elem_of_nil.
  - intros x Hx _. rewrite (keeps_owner _ _ _ Hk). apply Ho; set_solver.
  - by eapply keeps_bounded.
Qed.

Lemma tbl_remove_alloc F A1 r A2 C t :
  tbl_rep F (A1 ++ r :: A2) C [] t -> r ∉ C ->
  wpf G (remove_frame Allocated r)
    (fun _ t' => tbl_rep F (A1 ++ A2) C [r] t' /\ keeps t t') t.
Proof.
  intros [Hf Ha Hc Hs Hcov Hd Ho Hb] HrC.
  eapply wpf_mono; [by apply remove_frame_spec|].
  intros _ t' (Ha' & Hu & Hdr). pose proof (untouched_keeps _ _ _ _ Hu) as Hk.
  pose proof (keeps_scalars _ _ Hk) as (Huu & _ & _).
  assert (Hdis : forall x, x ∈ A1 ++ r :: A2 -> x ∉ F) 
    by (intros x H1 H2; exact (list_rep_disjoint _ _ _ x Hf Ha H2 H1)).
  split; [|done]. split; try done.
  - apply (list_rep_untouched Allocated Free (A1 ++ r :: A2) F t t'); [done|done|done| |done].
    intros x Hx. destruct (decide (x = r)) as [->|Hne]; [by destruct Hdr as [-> _]|].
    assert (x ∈ A1 ++ A2) as Hx'%(lr_member _ _ _ Ha') by set_solver. by rewrite Hx'.
  - eapply clock_rep_same; [by eapply untouched_same_clock|done].
  - intros x Hx. specialize (Hs x Hx). set_solver.
  - intros x. rewrite Huu, Hcov. set_solver.
  - by intros x ->%list_elem_of_singleton.
  - intros x Hx Hx'. rewrite (keeps_owner _ _ _ Hk). apply Ho; set_solver.
  - by eapply keeps_bounded.
Qed.

(** The ring changes, nothing else does. *)
Lemma tbl_ring F A C C' H l t t' :
  tbl_rep F A C H t -> clock_rep C' t' -> ck_untouched l t t' -> (forall x, x ∈ C' -> x ∈ A) ->
  tbl_rep F A C' H t' /\ keeps t t'.
Proof.
  intros [Hf Ha Hc Hs Hcov Hd Ho Hb] Hc' Hu Hsub. pose proof (ck_untouched_keeps _ _ _ Hu) as Hk.
  pose proof (keeps_scalars _ _ Hk) as (Huu & _ & _).
  pose proof (ck_untouched_same_lists _ _ _ Hu) as Hsl.
  split; [|done]. split; try done; try by eapply list_rep_same.
  - by rewrite Huu.
  - intros x Hx. eapply detached_same; [done|by apply Hd].
  - intros x. rewrite (keeps_owner _ _ _ Hk). apply Ho.
  - by eapply keeps_bounded.
Qed.

Lemma clock_remove_absent C r t (Q : unit -> table -> Prop) :
  clock_rep C t -> r ∉ C -> Q tt t -> wpf G (clock_remove r) Q t.
Proof.
  intros Hc Hr HQ. unfold clock_remove, at_frame. wp_line.
  rewrite (clock_is_member_spec _ _ _ Hc), bool_decide_eq_false_2 by done. cbn [negb]. by wp_line.
Qed.

Lemma tbl_clock_remove F A C H r t :
  tbl_rep F A C H t ->
  wpf G (clock_remove r)
    (fun _ t' => tbl_rep F A (filter (.≠ r) C) H t' /\ keeps t t') t.
Proof.
  intros Ht. pose proof (tr_clock _ _ _ _ _ Ht) as Hc.
  destruct (decide (r ∈ C)) as [Hin|Hin]; last first.
  { eapply clock_remove_absent; [done|done|]. by rewrite filter_absent. }
  pose proof (ck_nodup _ _ Hc) as Hnd. apply list_elem_of_split in Hin as (C1 & C2 & ->).
  rewrite filter_present by done.
  eapply wpf_mono; [apply (clock_remove_spec G C1 r C2)|].
  - done.
  - by destruct Ht.
  - intros _ t' [Hc' Hu]. eapply tbl_ring; [done..|].
    intros x Hx. apply (tr_sub _ _ _ _ _ Ht). set_solver.
Qed.

Lemma tbl_clock_reconsider F A C r t :
  tbl_rep F A C [] t ->
  wpf G (clock_reconsider r) (fun _ t' =>
    tbl_rep F A (if clock_is_eligible (entry t r)
                 then (if decide (r ∈ C) then C else C ++ [r])
                 else filter (.≠ r) C) [] t' /\ keeps t t') t.
Proof.
  intros Ht. pose proof Ht as [Hf Ha Hc Hs Hcov Hd Ho Hb].
  unfold clock_reconsider, at_frame. wp_line. rewrite (clock_is_member_spec _ _ _ Hc).
  destruct (decide (r ∈ C)) as [Hin|Hin].
  - rewrite bool_decide_eq_true_2 by done. wp_line.
    apply wpf_when; intros He; bd; rewrite He; [by apply tbl_clock_remove|done].
  - rewrite bool_decide_eq_false_2 by done. wp_line.
    apply wpf_when; intros He; rewrite He.
    + assert (HrA : r ∈ A).
      { destruct (decide (r ∈ A)) as [|Hn]; [done|]. unfold clock_is_eligible in He.
        rewrite (Ho r Hn) in He by set_solver. by rewrite bool_decide_eq_true_2 in He. }
      eapply wpf_mono; [apply (clock_add_spec G C r); try done; apply Hcov; auto|].
      intros _ t' [Hc' Hu]. eapply tbl_ring; [done..|]. set_solver.
    + split; [|done]. by rewrite filter_absent.
Qed.

(** Writing data fields: neither the links nor the owner of a frame that is
    not allocated may change. *)
Lemma tbl_upd F A C H r g t :
  (forall f, list_links (g f) = list_links f) -> (forall f, clock_links (g f) = clock_links f) ->
  (forall f, owner (g f) = owner f) \/ r ∈ A \/ r ∈ H ->
  tbl_rep F A C H t -> tbl_rep F A C H (upd r g t).
Proof.
  intros Hg Hg' Hr [Hf Ha Hc Hs Hcov Hd Ho Hb].
  assert (Hsl : same_lists t (upd r g t)).
  { split; intros; ft_simpl; try done. by case_decide; subst. }
  split; try done; try by eapply list_rep_same.
  - eapply clock_rep_same; [|done]. split; intros; ft_simpl; try done. by case_decide; subst.
  - intros x Hx. eapply detached_same; [done|by apply Hd].
  - intros x Hx Hx'. ft_simpl. case_decide; [subst x|by apply Ho].
    destruct Hr as [Hr|[?|?]]; [rewrite Hr; by apply Ho|done|done].
Qed.
End table_ops.

(** ** The entry points *)

(** What [free_frame] resets of an entry. *)
Definition reset (f : frame_t) : frame_t :=
  set_clock_next NULL_FRAME (set_clock_prev NULL_FRAME (set_swap_slot 0 (set_pin_count 0
    (set_flags 0 (set_owner FRAME_OWNER_KERNEL f))))).

Lemma upd_upd r g h t : upd r g (upd r h t) = upd r (g ∘ h) t.
Proof.
  unfold upd, set_frames; simpl. f_equal. rewrite insert_insert_eq. f_equal.
  unfold entry at 1; simpl. by rewrite lookup_insert_eq.
Qed.

(** Resetting an entry that is off the lists and off the ring. *)
Lemma tbl_reset F A C r t :
  tbl_rep F A C [r] t -> tbl_rep F A C [r] (upd r reset t) /\ owner (entry (upd r reset t) r) = FRAME_OWNER_KERNEL.
Proof.
  intros Ht. pose proof Ht as [Hf Ha Hc Hs Hcov Hd Ho Hb].
  assert (HrC : r ∉ C).
  { intros Hin%Hs. eapply list_rep_detached in Ha; [done|]. apply Hd. set_solver. }
  split; [|ft_simpl; by rewrite decide_True].
  assert (Hsl : same_lists t (upd r reset t)).
  { split; intros; ft_simpl; try done. by case_decide; subst. }
  split; try done; try by eapply list_rep_same.
  - destruct Hc as [Hh Hl Hr Hnd Hm Hrg]. split; try done.
    + eapply ring_ext; [|done]. intros x Hx. unfold cprevs, cnexts. ft_simpl.
      rewrite !decide_False; [done|set_solver..].
    + intros x. ft_simpl. case_decide; [subst; by split|apply Hm].
  - intros x Hx. eapply detached_same; [done|by apply Hd].
  - intros x Hx Hx'. ft_simpl. rewrite decide_False by set_solver. by apply Ho.
Qed.

Section entry_points.
Context (G : fault -> Prop).

Lemma free_frame_spec F A C r t :
  tbl_rep F A C [] t -> 0 ≤ r < capacity t \/ r = 0 ->
  wpf G (free_frame r) (fun _ t' =>
    if decide (r ∈ A) then
      tbl_rep (r :: F) (filter (.≠ r) A) (filter (.≠ r) C) [] t' /\
      keeps (upd r reset t) t'
    else t' = t) t.
Proof.
  intros Ht Hr. pose proof Ht as [Hf Ha Hc Hs Hcov Hd Ho Hb]. unfold free_frame, NULL_FRAME.
  destruct (decide (r = 0)) as [->|Hr0].
  { rewrite bool_decide_eq_false_2 by (intros H; by apply H). wp_line. rewrite decide_False; [done|].
    intros HA%(lr_range _ _ _ Ha). lia. }
  rewrite bool_decide_eq_true_2 by done. wp_line. apply wpf_frame_from_ref; [lia|]. wp_line.
  destruct (decide (r ∈ A)) as [HrA|HrA]; last first.
  { eapply clock_remove_absent; [done|by intros ?%Hs|].
    unfold at_frame. wp_line. rewrite bool_decide_eq_false_2; [by wp_line|].
    by intros ?%(lr_member _ _ _ Ha). }
  eapply wpf_mono; [by apply tbl_clock_remove|]. intros _ t1 [Ht1 Hk1]. unfold at_frame. wp_line.
  rewrite bool_decide_eq_true_2 by (by apply (lr_member _ _ _ (tr_alloc _ _ _ _ _ Ht1))).
  wp_line. pose proof (lr_nodup _ _ _ Ha) as Hnd.
  apply list_elem_of_split in HrA as (A1 & A2 & ->). rewrite (filter_present r A1) by done.
  eapply wpf_mono; [apply tbl_remove_alloc; [done|]|].
  { rewrite list_elem_of_filter. naive_solver. }
  intros _ t2 [Ht2 Hk2]. unfold on_frame. wp_line. rewrite !upd_upd.
  destruct (tbl_reset _ _ _ _ _ Ht2) as [Ht3 Hown].
  eapply wpf_mono; [by apply tbl_push_free|]. intros _ t4 [Ht4 Hk4]. split; [done|].
  assert (Hk : keeps t t2) by by etrans. destruct Hk as [Ha2 Hs2]. etrans; [|exact Hk4].
  split; [|done]. intros x. specialize (Ha2 x). rewrite !entry_upd. destruct (decide (x = r)) as [->|]; [|done].
  unfold attrs, reset in *. simpl. by injection Ha2 as -> _ _ _ -> _.
Qed.

(** Entry points that write one data field of one entry. *)
Lemma frame_bind_slot_spec r s t :
  0 < r < capacity t ->
  wpf G (frame_bind_slot r s) (fun b t' =>
    b = bool_decide (s ≠ 0 /\ (swap_slot (entry t r) = 0 \/ swap_slot (entry t r) = s)) /\
    t' = if b then upd r (set_swap_slot s) t else t) t.
Proof.
  intros Hr. unfold frame_bind_slot, NULL_FRAME, PAGEFILE_INVALID_SLOT.
  rewrite bool_decide_eq_false_2 by lia. simpl. apply wpf_if; intros Hs; bd.
  { wp_line. rewrite bool_decide_eq_false_2 by naive_solver. done. }
  wp_line. apply wpf_frame_from_ref; [lia|]. unfold at_frame, on_frame. wp_line.
  apply wpf_if; intros Hc.
  - bd. wp_line. rewrite bool_decide_eq_false_2 by naive_solver. done.
  - wp_line. apply andb_false_iff in Hc. rewrite !bool_decide_eq_false in Hc.
    rewrite bool_decide_eq_true_2; [done|]. split; [done|].
    destruct Hc as [Hc|Hc]; apply dec_stable in Hc; auto.
Qed.

Lemma on_entry_spec (r : Z) g t (Q : unit -> table -> Prop) :
  0 < r < capacity t \/ r = 0 -> (r = 0 -> Q tt t) -> (0 < r -> Q tt (upd r g t)) ->
  wpf G (if bool_decide (r = NULL_FRAME) then mret tt else f ← frame_from_ref r; on_frame f g) Q t.
Proof.
  intros Hr H0 H1. apply wpf_if; intros Hc; bd; unfold NULL_FRAME in *; [by apply H0|].
  wp_line. apply wpf_frame_from_ref; [lia|]. apply H1. lia.
Qed.
End entry_points.

(** ** Steps of the rest of the system

    The pager, the virtual memory code and the interrupt handlers change the
    frame table through its public functions only.  A step is one such call
    that returns. *)
Inductive api_step (t t' : table) : Prop :=
| step_free r : 0 ≤ r -> free_frame r t = Ok (tt, t') -> api_step t t'
| step_bind r s b : 0 ≤ r -> frame_bind_slot r s t = Ok (b, t') -> api_step t t'
| step_unbind r : 0 ≤ r -> frame_unbind_slot r t = Ok (tt, t') -> api_step t t'
| step_dirty r : 0 ≤ r -> frame_mark_dirty r t = Ok (tt, t') -> api_step t t'
| step_referenced r : 0 ≤ r -> frame_mark_referenced r t = Ok (tt, t') -> api_step t t'
| step_consider r : 0 ≤ r -> frame_clock_consider r t = Ok (tt, t') -> api_step t t'
| step_select v : clock_select_victim t = Ok (v, t') -> api_step t t'.

Definition api_steps : table -> table -> Prop := rtc api_step.

(** A reference that [frame_from_ref] accepts is in range. *)
Lemma frame_from_ref_ok r t A (k : Z -> M table A) a t' :
  0 ≤ r -> (f ← frame_from_ref r; k f) t = Ok (a, t') -> 0 < r < capacity t.
Proof.
  unfold frame_from_ref, mbind, M_bind, cassert, mret, M_ret, gets, throw. intros Hr.
  unfold NULL_FRAME. repeat (case_bool_decide; simpl; try done). intros _. lia.
Qed.

(** Reduce a call that returned to its weakest precondition. *)
Lemma wp_ok {S A} (m : M S A) Q s a s' : wp m Q s -> m s = Ok (a, s') -> Q a s'.
Proof. unfold wpf. intros H Heq. by rewrite Heq in H. Qed.

(** The links determine the lists. *)
Lemma seg_unique pf nf l : forall p p' l', seg pf nf p l 0 -> seg pf nf p' l' 0 -> hd_or 0 l = hd_or 0 l' ->
  (forall x, x ∈ l -> 0 < x) -> (forall x, x ∈ l' -> 0 < x) -> l = l'.
Proof.
  induction l as [|x l IH]; intros p p' [|y l'] Hl Hl' Hh Hp Hp'; [done|..]; cbn in Hh, Hl, Hl'.
  - specialize (Hp' y ltac:(by left)). lia.
  - specialize (Hp x ltac:(by left)). lia.
  - destruct Hl as (_ & Hx & Hl), Hl' as (_ & Hy & Hl'). subst y. f_equal.
    eapply IH; [done|done|by rewrite <- Hx, <- Hy|..]; intros z Hz; [apply Hp|apply Hp']; by right.
Qed.
Lemma list_rep_unique w l l' t : list_rep w l t -> list_rep w l' t -> l = l'.
Proof.
  intros Hl Hl'. eapply seg_unique; [apply Hl|apply Hl'| | |].
  - by rewrite <- (lr_first _ _ _ Hl), <- (lr_first _ _ _ Hl').
  - intros x Hx. apply (lr_range _ _ _ Hl) in Hx. lia.
  - intros x Hx. apply (lr_range _ _ _ Hl') in Hx. lia.
Qed.

(** From [t0] to [t] frames were freed and nothing else was moved between the lists: the
    frames [G] went from the allocated list to the front of the free list. *)
Definition shed (G : list Z) (t0 t : table) : Prop :=
  exists F A C A' C', tbl_rep F A C [] t0 /\ tbl_rep (G ++ F) A' C' [] t /\ A ≡ₚ G ++ A'.
Lemma shed_same F A C C' t0 t : tbl_rep F A C [] t0 -> tbl_rep F A C' [] t -> shed [] t0 t.
Proof. intros H1 H2. by exists F, A, C, A, C'. Qed.
Lemma shed_trans G1 G2 t1 t2 t3 : shed G1 t1 t2 -> shed G2 t2 t3 -> shed (G2 ++ G1) t1 t3.
Proof.
  intros (F & A & C & A1 & C1 & H1 & H2 & P1) (F2 & A2 & C2 & A3 & C3 & H3 & H4 & P2).
  pose proof (list_rep_unique _ _ _ _ (tr_free _ _ _ _ _ H2) (tr_free _ _ _ _ _ H3)) as <-.
  pose proof (list_rep_unique _ _ _ _ (tr_alloc _ _ _ _ _ H2) (tr_alloc _ _ _ _ _ H3)) as <-.
  exists F, A, C, A3, C3. split; [done|]. split; [by rewrite <- app_assoc|]. by rewrite P1, P2, app_assoc, (Permutation_app_comm G1).
Qed.

Definition inv_at (t0 t : table) : Prop := table_inv t /\ cscalars t = cscalars t0 /\ exists G, shed G t0 t.

Lemma tbl_upd_inv t r g :
  (forall f, list_links (g f) = list_links f) -> (forall f, clock_links (g f) = clock_links f) ->
  (forall f, owner (g f) = owner f) -> table_inv t -> inv_at t (upd r g t).
Proof.
  intros H1 H2 H3 (F & A & C & Ht). assert (Ht' : tbl_rep F A C [] (upd r g t)) by (apply tbl_upd; auto).
  split; [by exists F, A, C|]. split; [done|]. exists []. by eapply shed_same.
Qed.
Lemma inv_at_refl t : table_inv t -> inv_at t t.
Proof. intros (F & A & C & Ht). split; [by exists F, A, C|]. split; [done|]. exists []. by eapply shed_same. Qed.

Lemma on_entry_inv t t' r g :
  (forall f, list_links (g f) = list_links f) -> (forall f, clock_links (g f) = clock_links f) ->
  (forall f, owner (g f) = owner f) -> table_inv t -> 0 ≤ r ->
  (if bool_decide (r = NULL_FRAME) then mret tt else f ← frame_from_ref r; on_frame f g) t = Ok (tt, t') ->
  inv_at t t'.
Proof.
  intros H1 H2 H3 Hi Hr Hok.
  assert (0 < r < capacity t \/ r = 0) as Hr'.
  { case_bool_decide as Hc; [by right|]. left. exact (frame_from_ref_ok _ _ _ _ _ _ Hr Hok). }
  eapply (wp_ok _ (fun _ t' => inv_at t t')); [|done]. apply on_entry_spec; [done|intros _; by apply inv_at_refl|].
  intros _. by apply tbl_upd_inv.
Qed.

Lemma keeps_inv_at t t' F A C C' : tbl_rep F A C [] t -> tbl_rep F A C' [] t' -> keeps t t' -> inv_at t t'.
Proof. intros Ht0 Ht [_ Hs]. split; [by exists F, A, C'|]. split; [done|]. exists []. by eapply shed_same. Qed.

Lemma filter_ne_perm (l : list Z) r : NoDup l -> r ∈ l -> l ≡ₚ r :: filter (.≠ r) l.
Proof.
  intros Hnd Hin. apply NoDup_Permutation; [done| |].
  - constructor; [|by apply NoDup_filter]. by intros [? _]%list_elem_of_filter.
  - intros x. rewrite elem_of_cons, list_elem_of_filter. destruct (decide (x = r)) as [->|]; tauto.
Qed.
Lemma free_frame_inv t r t' : table_inv t -> 0 ≤ r -> free_frame r t = Ok (tt, t') -> inv_at t t'.
Proof.
  intros (F & A & C & Ht) Hr Hok.
  assert (0 ≤ r < capacity t \/ r = 0) as Hr'.
  { destruct (decide (r = 0)) as [->|Hc]; [by right|]. left.
    unfold free_frame in Hok. rewrite bool_decide_eq_true_2 in Hok by done.
    pose proof (frame_from_ref_ok _ _ _ _ _ _ Hr Hok). lia. }
  pose proof (wp_ok _ _ _ _ _ (free_frame_spec _ F A C r t Ht Hr') Hok) as Hp. simpl in Hp.
  case_decide as Hin; [|subst; apply inv_at_refl; by exists F, A, C].
  destruct Hp as [Ht' [_ Hs]]. split; [by eexists _, _, _|]. split; [done|]. exists [r], F, A, C. eexists _, _. split; [done|]. split; [exact Ht'|].
  simpl. by apply filter_ne_perm; [apply (tr_alloc _ _ _ _ _ Ht)|].
Qed.

Lemma aged_owner cl t t' x : aged cl t t' -> owner (entry t' x) = owner (entry t x).
Proof. intros [Hp _ _]. specialize (Hp x). apply (f_equal owner) in Hp. revert Hp. by case_decide. Qed.

Lemma api_step_inv t t' : table_inv t -> api_step t t' -> inv_at t t'.
Proof.
  intros Hi [r Hr Hok|r s b Hr Hok|r Hr Hok|r Hr Hok|r Hr Hok|r Hr Hok|v Hok].
  - by eapply free_frame_inv.
  - assert (0 < r < capacity t \/ (b, t') = (false, t)) as [Hr'|[= -> ->]].
    { unfold frame_bind_slot in Hok. destruct (_ || _); [right; by injection Hok as <- <-|].
      left. exact (frame_from_ref_ok _ _ _ _ _ _ Hr Hok). }
    + destruct (wp_ok _ _ _ _ _ (frame_bind_slot_spec _ r s t Hr') Hok) as [_ ->].
      destruct b; [by apply tbl_upd_inv|by apply inv_at_refl].
    + by apply inv_at_refl.
  - by eapply on_entry_inv; [..|exact Hok].
  - by eapply on_entry_inv; [..|exact Hok].
  - by eapply on_entry_inv; [..|exact Hok].
  - unfold frame_clock_consider in Hok. case_bool_decide; [injection Hok as <-; by apply inv_at_refl|].
    pose proof (frame_from_ref_ok _ _ _ _ _ _ Hr Hok). destruct Hi as (F & A & C & Ht).
    eapply (wp_ok _ (fun _ t' => inv_at t t')); [|exact Hok].
    wp_line. apply wpf_frame_from_ref; [lia|].
    eapply wpf_mono; [by apply tbl_clock_reconsider|]. intros _ t1 [Ht1 Hk]. by eapply keeps_inv_at.
  - destruct Hi as (F & A & C & Ht). pose proof Ht as [Hf Ha Hc Hs Hcov Hd Ho Hb].
    destruct (wp_ok _ _ _ _ _ (clock_select_victim_refines _ C t Hc Hb) Hok) as (_ & C' & cl & [Hc' Hag Hcl Hsub _ _]).
    pose proof (aged_same_lists _ _ _ Hag) as Hsl.
    enough (Ht' : tbl_rep F A C' [] t').
    { split; [by exists F, A, C'|]. split; [by apply ag_scalars in Hag|]. exists []. by eapply shed_same. }
    split; try done; try by eapply list_rep_same.
    + auto.
    + by rewrite (sl_used _ _ Hsl).
    + intros x Hx. eapply detached_same; [done|by apply Hd].
    + intros x Hx Hx'. rewrite (aged_owner _ _ _ _ Hag). by apply Ho.
    + by eapply aged_bounded.
Qed.

Lemma api_steps_inv t t' : table_inv t -> api_steps t t' -> inv_at t t'.
Proof.
  intros Hi. induction 1 as [t|t1 t2 t3 H1 H2 IH]; [by apply inv_at_refl|].
  destruct (api_step_inv _ _ Hi H1) as (Hi2 & Hs2 & G1 & Hg1). destruct (IH Hi2) as (Hi3 & Hs3 & G2 & Hg2).
  split; [done|]. split; [by etrans|]. eexists. by eapply shed_trans.
Qed.

(** [free_frame] of an allocated frame moves it from the allocated list to
    the front of the free list, takes it off the ring, resets its owner, flags,
    pins and slot, and changes no other entry; of any other reference it
    accepts (NULL_FRAME, a frame that is already free) it changes nothing, so
    freeing twice is harmless. *)
Theorem free_frame_correct F A C r t :
  tbl_rep F A C [] t -> 0 ≤ r < capacity t \/ r = 0 ->
  wp (free_frame r) (fun _ t' =>
    if decide (r ∈ A) then
      tbl_rep (r :: F) (filter (.≠ r) A) (filter (.≠ r) C) [] t' /\
      keeps (upd r reset t) t'
    else t' = t) t.
Proof. apply free_frame_spec. Qed.
