(* ===== verification/FrameAlloc.v ===== *)
(** * The frame table: minting, eviction and allocation

    The rest of [sos/src/frame_table.c]: backing the table with memory
    ([alloc_frame_at], [bump_capacity], [alloc_fresh_frame],
    [frame_table_init]), page-out ([pageout_frame], [evict_one_frame] and the
    waits for completions) and [alloc_frame].  The untyped allocator, the
    capability space and the mapping code are the class [FrameMem]; the pager
    bridge, which is written in another language, is the class [Pager]. *)

From S2P Require Import Prelude Dll FrameList Clock Victim FrameTable.

(** ** What the frame table calls *)

(** Memory and capabilities.  [ut_t *] and [cspace_t *] are handles; NULL is
    [None] for an untyped and the null capability is 0. *)
Class FrameMem (E : Type) := {
  ut_alloc_4k_untyped : M E (option Z);
  ut_cap : Z -> M E Z;
  ut_free : Z -> M E unit;
  cspace_alloc_slot : Z -> M E Z;
  cspace_free_slot : Z -> Z -> M E unit;
  cspace_untyped_retype : Z -> Z -> Z -> Z -> Z -> M E Z;
  cspace_delete : Z -> Z -> M E Z;
  map_frame : Z -> Z -> Z -> Z -> Z -> Z -> M E Z;
}.

(** The pager bridge.  The [vm_] functions and the interrupt poll run code
    that calls back into the frame table. *)
Class Pager (E : Type) := {
  pagefile_is_ready : E -> bool;
  pagefile_alloc_slot : Z -> Z -> Z -> M E Z;
  pagefile_free_slot : Z -> M E unit;
  pageout_submit : Z -> Z -> M E Z;
  pageout_poll_complete : M E (Z * Z * Z);
  vm_pageout_prepare : Z -> Z -> M (table * E) Z;
  vm_pageout_finalise : Z -> Z -> M (table * E) Z;
  vm_pageout_abort : Z -> Z -> M (table * E) Z;
  morecore_free_bytes : E -> Z;
  heap_reserve_release : M E Z;
  bootstrap_poll_irqs : M (table * E) bool;
}.

Definition in_table {E A} (m : M table A) : M (table * E) A := zoom fst (fun t w => (t, w.2)) m.
Definition in_env {E A} (m : M E A) : M (table * E) A := zoom snd (fun e w => (w.1, e)) m.

Definition seL4_CapNull : Z := 0.
Definition seL4_ARM_SmallPageObject : Z := 7.
Definition seL4_ReadWrite : Z := 3.
(** [seL4_ARM_Default_VMAttributes | seL4_ARM_ExecuteNever] *)
Definition data_attributes : Z := Z.lor 3 4.
Definition SIZEOF_FRAME : Z := 64.
Definition SOS_EAGAIN : Z := 11.
Definition ENOMEM : Z := 12.
Definition EIO : Z := 5.
Definition ENOSPC : Z := 28.

Section alloc.
Context {E : Type} `{!FrameMem E} `{!Pager E}.
(** [CONFIG_SOS_FRAME_LIMIT] (0 is no limit), and the iteration budget of the
    loops that wait for the workers. *)
Context (limit : Z) (fuel : nat).

(** ** Minting *)

Definition alloc_frame_at (vaddr : Z) : M (table * E) Z :=
  o ← in_env ut_alloc_4k_untyped;
  match o with
  | None => mret seL4_CapNull
  | Some ut =>
    cs ← in_table (gets ft_cspace);
    cptr ← in_env (cspace_alloc_slot cs);
    if bool_decide (cptr = seL4_CapNull) then
      in_env (ut_free ut);;
      mret seL4_CapNull
    else
      cap ← in_env (ut_cap ut);
      err ← in_env (cspace_untyped_retype cs cap cptr seL4_ARM_SmallPageObject seL4_PageBits);
      if bool_decide (err ≠ 0) then
        in_env (cspace_free_slot cs cptr);;
        in_env (ut_free ut);;
        mret seL4_CapNull
      else
        vs ← in_table (gets ft_vspace);
        err ← in_env (map_frame cs cptr vs vaddr seL4_ReadWrite data_attributes);
        if bool_decide (err ≠ 0) then
          in_env (cspace_delete cs cptr);;
          in_env (cspace_free_slot cs cptr);;
          in_env (ut_free ut);;
          mret seL4_CapNull
        else mret cptr
  end.

Definition bump_capacity : M (table * E) Z :=
  c ← in_table (gets capacity);
  if bool_decide (limit ≠ 0) && bool_decide (c = limit) then mret (-1)
  else
    bl ← in_table (gets byte_length);
    cptr ← alloc_frame_at (w64 (SOS_FRAME_TABLE + bl));
    if bool_decide (cptr = seL4_CapNull) then mret (-1)
    else
      in_table (modify (fun t =>
        let b := w64 (byte_length t + 2 ^ seL4_PageBits) in
        set_capacity (b / SIZEOF_FRAME) b t));;
      when (bool_decide (limit ≠ 0)) (in_table (modify (fun t =>
        set_capacity (Z.min limit (capacity t)) (byte_length t) t)));;
      mret 0.

(** The entry that [alloc_fresh_frame] writes. *)
Definition fresh_entry (sos_page : Z) : frame_t :=
  Frame sos_page NULL_FRAME NULL_FRAME NO_LIST FRAME_OWNER_KERNEL 0 0 0 0 NULL_FRAME NULL_FRAME.

Definition take_entry (frame : Z) : M (table * E) (option Z) :=
  in_table (modify (fun t => set_used (w64 (used t + 1)) t));;
  ref ← in_table (ref_from_frame frame);
  vaddr ← in_table (frame_data ref);
  sos_page ← alloc_frame_at vaddr;
  if bool_decide (sos_page = seL4_CapNull) then
    in_table (modify (fun t => set_used (w64 (used t - 1)) t));;
    mret None
  else
    in_table (on_frame frame (fun _ => fresh_entry sos_page));;
    mret (Some frame).

Definition alloc_fresh_frame : M (table * E) (option Z) :=
  t ← in_table get;
  cassert (bool_decide (used t ≤ capacity t));;
  when (bool_decide (limit ≠ 0)) (cassert (bool_decide (capacity t ≤ limit)));;
  rc ← (if bool_decide (used t = capacity t) then bump_capacity else mret 0);
  if bool_decide (rc ≠ 0) then mret None
  else
    t ← in_table get;
    cassert (bool_decide (used t < capacity t));;
    when (bool_decide (used t = 0)) (in_table (modify (fun t => set_used (w64 (used t + 1)) t)));;
    frame ← in_table (gets used);
    take_entry frame.

Fixpoint seed_loop (n : nat) : M (table * E) unit :=
  match n with
  | O => mret tt
  | S n =>
    f ← alloc_fresh_frame;
    match f with
    | None => mret tt
    | Some f => in_table (push_front Free f);; seed_loop n
    end
  end.

Definition seed_limit : Z :=
  if bool_decide (limit ≠ 0)
  then let half := limit / 2 in Z.min 4096 (if bool_decide (half = 0) then 1 else half)
  else 4096.

Definition frame_table_init (cspace vspace : Z) : M (table * E) unit :=
  in_table (modify (set_spaces cspace vspace));;
  in_table (modify (set_clock NULL_FRAME 0));;
  seed_loop (Z.to_nat seed_limit).

(** ** Page-out *)

Definition pageout_process_one_completion : M (table * E) Z :=
  '(rc, frame_ref, slot) ← in_env pageout_poll_complete;
  if bool_decide (rc = - SOS_EAGAIN) then mret rc
  else if bool_decide (rc ≠ 0) then
    in_env (pagefile_free_slot slot);;
    when (bool_decide (rc > 0)) (vm_pageout_abort frame_ref slot;; mret tt);;
    mret rc
  else
    rc ← vm_pageout_finalise frame_ref slot;
    if bool_decide (rc ≠ 0) then in_env (pagefile_free_slot slot);; mret rc
    else mret 0.

Fixpoint pageout_wait_for_completion (max_iters : nat) : M (table * E) Z :=
  match max_iters with
  | O => mret (- SOS_EAGAIN)
  | S n =>
    rc ← pageout_process_one_completion;
    if bool_decide (rc = 0) then mret 0
    else if bool_decide (rc ≠ - SOS_EAGAIN) then mret rc
    else pageout_wait_for_completion n
  end.

Definition max_enomem_retries : Z := 128.

(** The body of [pageout_wait_blocking]: [inl] returns, [inr] carries the count
    of ENOMEM polls to the next round. *)
Definition wait_round (enomem_count : Z) : M (table * E) (Z + Z)%type :=
  rc ← pageout_process_one_completion;
  if bool_decide (rc = 0) then mret (inl 0)
  else if bool_decide (rc ≠ - SOS_EAGAIN) && negb (bool_decide (rc = - ENOMEM)) then mret (inl rc)
  else
    let n := if bool_decide (rc = - ENOMEM) then enomem_count + 1 else enomem_count in
    if bool_decide (rc = - ENOMEM) && bool_decide (max_enomem_retries ≤ n) then mret (inl rc)
    else bootstrap_poll_irqs;; mret (inr n).

Fixpoint wait_loop (fuel : nat) (enomem_count : Z) : M (table * E) Z :=
  match fuel with
  | O => throw OutOfFuel
  | S fuel =>
    r ← wait_round enomem_count;
    match r with inl rc => mret rc | inr n => wait_loop fuel n end
  end.

Definition pageout_wait_blocking : M (table * E) Z := wait_loop fuel 0.

Fixpoint submit_loop (fuel : nat) (frame slot victim : Z) : M (table * E) Z :=
  match fuel with
  | O => throw OutOfFuel
  | S fuel =>
    rc ← in_env (pageout_submit slot victim);
    if bool_decide (rc = 0) then mret 0
    else if bool_decide (rc = - SOS_EAGAIN) then
      pageout_wait_for_completion 16;;
      submit_loop fuel frame slot victim
    else
      in_table (on_frame frame (set_swap_slot 0));;
      in_env (pagefile_free_slot slot);;
      in_table (clock_reconsider frame);;
      mret rc
  end.

Definition pageout_frame (victim : Z) : M (table * E) Z :=
  if bool_decide (victim = NULL_FRAME) then mret (-1)
  else
    frame ← in_table (frame_from_ref victim);
    in_table (clock_remove frame);;
    slot ← in_env (pagefile_alloc_slot victim 0 0);
    if bool_decide (slot = PAGEFILE_INVALID_SLOT) then
      in_table (clock_reconsider frame);;
      mret (-1)
    else
      prep_rc ← vm_pageout_prepare victim slot;
      if bool_decide (prep_rc ≠ 0) then
        in_env (pagefile_free_slot slot);;
        in_table (clock_reconsider frame);;
        mret prep_rc
      else
        in_table (on_frame frame (set_swap_slot slot));;
        submit_loop fuel frame slot victim.

Definition evict_one_frame : M (table * E) Z :=
  victim ← in_table clock_select_victim;
  if bool_decide (victim = NULL_FRAME) then mret (-1) else pageout_frame victim.

(** ** Allocation *)

Definition reserve_of (c : Z) : Z := Z.max 32 (Z.min 256 (c / 10)).

Definition free_len : M (table * E) Z := in_table (gets (fun t => len (free_l t))).

(** The proactive batch below the low watermark. *)
Fixpoint evict_batch (budget : nat) (low_watermark : Z) : M (table * E) unit :=
  match budget with
  | O => mret tt
  | S budget =>
    n ← free_len;
    if bool_decide (n ≤ low_watermark) then
      rc ← evict_one_frame;
      if bool_decide (rc ≠ 0) then mret tt
      else
        rc ← pageout_wait_blocking;
        if bool_decide (rc ≠ 0) then mret tt else evict_batch budget low_watermark
    else mret tt
  end.

(** Pop a free frame unless that would eat into the reserve of the kernel. *)
Definition take_free (owner : frame_owner_t) (reserve : Z) : M (table * E) (option Z) :=
  n ← free_len;
  if bool_decide (owner = FRAME_OWNER_KERNEL) || bool_decide (n > reserve)
  then in_table (pop_front Free)
  else mret None.

Definition max_evict_retries : Z := 8.

(** The two eviction-backed loops of [alloc_frame], entered with [frame] NULL. *)
Fixpoint evict_retry (fuel : nat) (owner : frame_owner_t) (reserve evict_attempts : Z)
    : M (table * E) (option Z) :=
  match fuel with
  | O => throw OutOfFuel
  | S fuel =>
    ready ← in_env (gets pagefile_is_ready);
    if (ready : bool) && bool_decide (evict_attempts < max_evict_retries) then
      rc ← evict_one_frame;
      if bool_decide (rc = 0) then
        rc ← pageout_wait_blocking;
        if bool_decide (rc ≠ 0) then evict_retry fuel owner reserve (evict_attempts + 1)
        else
          n ← free_len;
          if bool_decide (n > reserve) || bool_decide (owner = FRAME_OWNER_KERNEL) then
            frame ← in_table (pop_front Free);
            match frame with
            | Some f => mret (Some f)
            | None => evict_retry fuel owner reserve evict_attempts
            end
          else mret None
      else mret None
    else mret None
  end.

Definition proactive (owner : frame_owner_t) (reserve : Z) : M (table * E) (option Z) :=
  let low_watermark := reserve + 96 in
  ready ← in_env (gets pagefile_is_ready);
  n ← free_len;
  c ← in_table (gets clock_len);
  if (ready : bool) && bool_decide (n ≤ low_watermark) && bool_decide (c > 0) then
    evict_batch (Z.to_nat (low_watermark - n + 1)) low_watermark;;
    take_free owner reserve
  else mret None.

Definition heap_critical_threshold : Z := 96 * 1024.

Definition heap_preflight : M (table * E) unit :=
  ready ← in_env (gets pagefile_is_ready);
  when ready (
    heap_free ← in_env (gets morecore_free_bytes);
    when (bool_decide (heap_free < heap_critical_threshold))
      (in_env heap_reserve_release;; mret tt)).

(** Run the next attempt only when the previous one found no frame. *)
Definition or_else (frame : option Z) (m : M (table * E) (option Z)) : M (table * E) (option Z) :=
  match frame with Some f => mret (Some f) | None => m end.

Definition find_frame (owner : frame_owner_t) (reserve : Z) : M (table * E) (option Z) :=
  frame ← take_free owner reserve;
  frame ← or_else frame (proactive owner reserve);
  frame ← or_else frame (heap_preflight;; evict_retry fuel owner reserve 0);
  frame ← or_else frame alloc_fresh_frame;
  or_else frame (evict_retry fuel owner reserve 0).

(** The fields [alloc_frame] sets before it publishes the frame. *)
Definition claim (ow : frame_owner_t) (fl : Z) (f : frame_t) : frame_t :=
  set_clock_next NULL_FRAME (set_clock_prev NULL_FRAME (set_swap_slot 0
    (set_pin_count (if bool_decide (Z.land fl FRAME_FLAG_PINNED ≠ 0) then 1 else 0)
      (set_flags fl (set_owner ow f))))).

Definition alloc_frame (ow : frame_owner_t) (fl : Z) : M (table * E) Z :=
  c ← in_table (gets capacity);
  frame ← find_frame ow (reserve_of c);
  match frame with
  | Some frame =>
    in_table (on_frame frame (claim ow fl));;
    in_table (push_back Allocated frame);;
    in_table (ref_from_frame frame)
  | None => mret NULL_FRAME
  end.
End alloc.
