(* ===== verification/FrameSafety.v ===== *)
(** * The frame table: correctness of minting, eviction and allocation

    States what the frame table relies on of the memory services and of the
    pager, and proves against it that every operation of [FrameAlloc] keeps
    the table well formed and does what it promises. *)

From S2P Require Import Prelude Dll FrameList Clock Victim FrameTable FrameAlloc.

(** ** What the frame table relies on

    [env_ok u e]: the state of the environment is consistent with a table of
    [u] entries, so that every frame a worker still holds is one of them.
    [holds_ut] and [holds_slot] say which untypeds and capability slots are
    handed out.  Calls return; calls that run pager code change the table
    through its public functions only. *)
Class EnvLaws (E : Type) `{!FrameMem E} `{!Pager E} := {
  env_ok : Z -> E -> Prop;
  holds_ut : Z -> E -> Prop;
  holds_slot : Z -> E -> Prop;
  is_cspace : Z -> Prop;
  env_ok_mono u u' e : u ≤ u' -> env_ok u e -> env_ok u' e;
  law_ut_alloc u e : env_ok u e ->
    wp ut_alloc_4k_untyped (fun o e' => env_ok u e' /\ forall ut, o = Some ut -> holds_ut ut e') e;
  law_ut_cap ut e : holds_ut ut e -> wp (ut_cap ut) (fun _ e' => e' = e) e;
  law_ut_free u ut e : env_ok u e -> holds_ut ut e -> wp (ut_free ut) (fun _ e' => env_ok u e') e;
  law_alloc_slot u cs e : is_cspace cs -> env_ok u e ->
    wp (cspace_alloc_slot cs) (fun c e' => env_ok u e' /\ (c ≠ 0 -> holds_slot c e') /\
      forall ut, holds_ut ut e -> holds_ut ut e') e;
  law_free_slot u cs c e : is_cspace cs -> env_ok u e -> holds_slot c e ->
    wp (cspace_free_slot cs c) (fun _ e' => env_ok u e' /\ forall ut, holds_ut ut e -> holds_ut ut e') e;
  law_retype u cs cap c ty b e : is_cspace cs -> env_ok u e -> holds_slot c e ->
    wp (cspace_untyped_retype cs cap c ty b) (fun _ e' => env_ok u e' /\ holds_slot c e' /\
      forall ut, holds_ut ut e -> holds_ut ut e') e;
  law_delete u cs c e : is_cspace cs -> env_ok u e -> holds_slot c e ->
    wp (cspace_delete cs c) (fun _ e' => env_ok u e' /\ holds_slot c e' /\
      forall ut, holds_ut ut e -> holds_ut ut e') e;
  law_map u cs c vs va r at' e : is_cspace cs -> env_ok u e -> holds_slot c e ->
    wp (map_frame cs c vs va r at') (fun _ e' => env_ok u e' /\ holds_slot c e' /\
      forall ut, holds_ut ut e -> holds_ut ut e') e;
  law_slot_alloc u v e : env_ok u e -> 0 < v < u ->
    wp (pagefile_alloc_slot v 0 0) (fun _ e' => env_ok u e') e;
  law_slot_free u s e : env_ok u e -> wp (pagefile_free_slot s) (fun _ e' => env_ok u e') e;
  law_submit u s v e : env_ok u e -> 0 < v < u ->
    wp (pageout_submit s v) (fun _ e' => env_ok u e') e;
  law_poll u e : env_ok u e ->
    wp pageout_poll_complete (fun '(rc, f, _) e' => env_ok u e' /\ (0 ≤ rc -> 0 < f < u)) e;
  law_release u e : env_ok u e -> wp heap_reserve_release (fun _ e' => env_ok u e') e;
  law_prepare f s t e : table_inv t -> env_ok (used t) e -> 0 < f < used t ->
    wp (vm_pageout_prepare f s) (fun _ w' => api_steps t w'.1 /\ env_ok (used t) w'.2) (t, e);
  law_finalise f s t e : table_inv t -> env_ok (used t) e -> 0 < f < used t ->
    wp (vm_pageout_finalise f s) (fun _ w' => api_steps t w'.1 /\ env_ok (used t) w'.2) (t, e);
  law_abort f s t e : table_inv t -> env_ok (used t) e -> 0 < f < used t ->
    wp (vm_pageout_abort f s) (fun _ w' => api_steps t w'.1 /\ env_ok (used t) w'.2) (t, e);
  law_irqs t e : table_inv t -> env_ok (used t) e ->
    wp bootstrap_poll_irqs (fun _ w' => api_steps t w'.1 /\ env_ok (used t) w'.2) (t, e);
}.

(** Symbolic execution of reads and writes of the table inside the world. *)
Lemma wpf_table_gets G {E A} (f : table -> A) (Q : A -> table * E -> Prop) t e :
  Q (f t) (t, e) -> wpf G (in_table (gets f)) Q (t, e).
Proof. done. Qed.
Lemma wpf_table_get G {E} (Q : table -> table * E -> Prop) t e :
  Q t (t, e) -> wpf G (in_table get) Q (t, e).
Proof. done. Qed.
Lemma wpf_table_modify G {E} f (Q : unit -> table * E -> Prop) t e :
  Q tt (f t, e) -> wpf G (in_table (modify f)) Q (t, e).
Proof. done. Qed.
Lemma wpf_env_gets G {E A} (f : E -> A) (Q : A -> table * E -> Prop) t e :
  Q (f e) (t, e) -> wpf G (in_env (gets f)) Q (t, e).
Proof. done. Qed.

Ltac wt_line :=
  repeat (lazymatch goal with
  | |- wpf _ (mbind _ _) _ _ => apply wpf_bind
  | |- wpf _ (mret _) _ _ => apply wpf_ret
  | |- wpf _ (in_table (gets _)) _ _ => apply wpf_table_gets
  | |- wpf _ (in_table get) _ _ => apply wpf_table_get
  | |- wpf _ (in_table (modify _)) _ _ => apply wpf_table_modify
  | |- wpf _ (in_env (gets _)) _ _ => apply wpf_env_gets
  end; cbv beta).

(** ** Growing the table *)

(** The capacity is what the pages mapped for the table can hold, cut at the
    configured limit; the limit leaves room for one frame at least. *)
Record cap_ok (limit : Z) (t : table) : Prop := CapOk {
  co_limit : 2 ≤ limit < 2 ^ 57;
  co_pages : exists k, 0 ≤ k /\ byte_length t = 4096 * k;
  co_capacity : capacity t = Z.min limit (byte_length t / 64);
}.

Lemma cap_ok_scalars limit t t' :
  capacity t' = capacity t -> byte_length t' = byte_length t -> cap_ok limit t -> cap_ok limit t'.
Proof. intros Hc Hb [? ? ?]. split; by rewrite ?Hc, ?Hb. Qed.

Lemma tbl_set_capacity F A C H c b t :
  used t ≤ c < 2 ^ 63 -> tbl_rep F A C H t -> tbl_rep F A C H (set_capacity c b t).
Proof.
  intros Hc [Hf Ha Hck Hs Hcov Hd Ho Hb]. split; try done.
  - eapply list_rep_same; [|done]. by split; intros; ft_simpl.
  - eapply list_rep_same; [|done]. by split; intros; ft_simpl.
  - eapply clock_rep_same; [|done]. by split; intros; ft_simpl.
  - destruct Hb. split; simpl; lia.
Qed.

(** Enlarging [used] keeps the lists and the ring. *)
Lemma list_rep_set_used w l u t : used t ≤ u -> list_rep w l t -> list_rep w l (set_used u t).
Proof.
  intros Hu [H1 H2 H3 H4 H5 H6 H7 H8].
  split; ft_simpl; try done. intros x Hx. specialize (H8 x Hx). simpl. lia.
Qed.
Lemma clock_rep_set_used C u t : used t ≤ u -> clock_rep C t -> clock_rep C (set_used u t).
Proof.
  intros Hu [H1 H2 H3 H4 H5 H6].
  split; try done. intros x Hx. specialize (H6 x Hx). simpl. lia.
Qed.

Lemma tbl_sentinel F A C t :
  used t = 0 -> used t < capacity t -> tbl_rep F A C [] t -> tbl_rep F A C [] (set_used 1 t).
Proof.
  intros Hu Hcap [Hf Ha Hc Hs Hcov Hd Ho Hb].
  split; try done; try (apply list_rep_set_used; [lia|done]).
  - apply clock_rep_set_used; [lia|done].
  - intros x. simpl. rewrite <- Hcov, Hu. lia.
  - destruct Hb. split; simpl; lia.
Qed.

Lemma tbl_fresh F A C p t :
  0 < used t < capacity t -> tbl_rep F A C [] t ->
  tbl_rep F A C [used t] (upd (used t) (fun _ => fresh_entry p) (set_used (used t + 1) t)).
Proof.
  intros Hu [Hf Ha Hc Hs Hcov Hd Ho Hb]. set (r := used t) in *.
  assert (Hne : forall w l x, list_rep w l t -> x ∈ l -> x ≠ r).
  { intros w l x Hl Hx%(lr_range _ _ _ Hl). lia. }
  assert (Hl : forall w l, list_rep w l t ->
    list_rep w l (upd r (fun _ => fresh_entry p) (set_used (r + 1) t))).
  { intros w l Hl. pose proof Hl as [H1 H2 H3 H4 H5 H6 H7 H8]. split; ft_simpl; try done.
    - eapply seg_ext; [|done]. intros x Hx. unfold prevs, nexts. ft_simpl.
      by rewrite decide_False by by apply (Hne w l).
    - intros x. ft_simpl. case_decide as Hx; [|apply H7]. subst x. simpl.
      split; [intros Hx; by apply (Hne w l) in Hx|by destruct w].
    - intros x Hx. specialize (H8 x Hx). simpl. lia. }
  split; [by apply Hl|by apply Hl| |done|..].
  - assert (HrC : forall x, x ∈ C -> x ≠ r) by (intros x Hx%Hs; by apply (Hne Allocated A)).
    destruct Hc as [Hh Hlen Hr Hnd Hm Hrg]. split; ft_simpl; try done.
    + eapply ring_ext; [|done]. intros x Hx. unfold cprevs, cnexts. ft_simpl.
      by rewrite decide_False by by apply HrC.
    + intros x. ft_simpl. case_decide as Hx; [|apply Hm]. subst x. simpl.
      split; [intros Hx; by apply HrC in Hx|done].
    + intros x Hx. specialize (Hrg x Hx). simpl. lia.
  - intros x. ft_simpl. simpl. specialize (Hcov x). rewrite list_elem_of_singleton.
    assert (0 < x < r + 1 <-> (0 < x < r \/ x = r)) as -> by lia. rewrite Hcov. set_solver.
  - intros x ->%list_elem_of_singleton. unfold detached. ft_simpl. by rewrite decide_True.
  - intros x Hx Hx'. ft_simpl. case_decide; [done|]. apply Ho; [done|]. by intros ?%elem_of_nil.
  - destruct Hb. split; ft_simpl; simpl; lia.
Qed.

Section safety.
Context {E : Type} `{EL : EnvLaws E}.
Context (G : fault -> Prop) (HG : G OutOfFuel).

(** The state between operations. *)
Definition good (w : table * E) : Prop :=
  table_inv w.1 /\ env_ok (used w.1) w.2 /\ is_cspace (ft_cspace w.1).

(** An operation that keeps the sizes and the invariant, and moves frames between the
    lists by freeing them only. *)
Definition stable (w w' : table * E) : Prop := good w' /\ cscalars w'.1 = cscalars w.1 /\ exists G, shed G w.1 w'.1.

Lemma shed_refl w : good w -> shed [] w.1 w.1.
Proof. intros ((F & A & C & Ht) & _). by eapply shed_same. Qed.
Lemma stable_refl w : good w -> stable w w.
Proof. intros Hw. split; [done|]. split; [done|]. exists []. by apply shed_refl. Qed.
Lemma stable_trans w1 w2 w3 : stable w1 w2 -> stable w2 w3 -> stable w1 w3.
Proof. intros (_ & H1 & G1 & S1) (H2 & H3 & G2 & S2). split; [done|]. split; [by etrans|]. eexists. by eapply shed_trans. Qed.
Lemma stable_good w w' : stable w w' -> good w'.
Proof. by intros []. Qed.
Lemma stable_used w w' : stable w w' -> used w'.1 = used w.1.
Proof. intros (_ & Hs & _). by injection Hs. Qed.

Lemma wpf_weaken_wp {S A} (m : M S A) Q s : wp m Q s -> wpf G m Q s.
Proof. apply wpf_weaken. done. Qed.

(** Sequencing of operations that are stable. *)
Lemma wpf_then_stable {A B} (m : M (table * E) A) (k : A -> M (table * E) B) Q w :
  wpf G m (fun _ w' => stable w w') w -> (forall a w', stable w w' -> wpf G (k a) Q w') ->
  wpf G (m ≫= k) Q w.
Proof. intros Hm Hk. wp_step. eapply wpf_mono; [exact Hm|]. auto. Qed.

Lemma wpf_last_stable {A} (m : M (table * E) A) w w1 :
  stable w w1 -> wpf G m (fun _ w' => stable w1 w') w1 -> wpf G m (fun _ w' => stable w w') w1.
Proof. intros H1 Hm. eapply wpf_mono; [exact Hm|]. intros ? w' ?. by apply (stable_trans _ w1). Qed.

Lemma stable_env w e' : good w -> env_ok (used w.1) e' -> stable w (w.1, e').
Proof. intros Hw H2. destruct (stable_refl _ Hw) as (_ & ? & ?), Hw as (H1 & _ & H3). by split_and!. Qed.

Lemma stable_table w t' : good w -> inv_at w.1 t' -> stable w (t', w.2).
Proof.
  intros (H1 & H2 & H3) (Hi & Hs & Hsh). pose proof Hs as [= _ Hu _ Hc _].
  split; [|done]. unfold good; simpl. by rewrite Hu, Hc.
Qed.

(** A call into the environment alone. *)
Lemma wpf_in_env {A} (m : M E A) (Q : A -> table * E -> Prop) w (P : A -> E -> Prop) :
  wp m P w.2 -> (forall a e', P a e' -> Q a (w.1, e')) -> wpf G (in_env m) Q w.
Proof.
  intros Hm HQ. unfold in_env. wp_step. eapply wpf_mono; [by apply wpf_weaken_wp|]. auto.
Qed.

Lemma env_stable {A} (m : M E A) w :
  good w -> wp m (fun _ e' => env_ok (used w.1) e') w.2 ->
  wpf G (in_env m) (fun _ w' => stable w w') w.
Proof. intros Hw Hm. eapply wpf_in_env; [done|]. intros ? e' Hok. by apply stable_env. Qed.

(** A call into pager code. *)
Lemma pager_stable {A} (m : M (table * E) A) w :
  good w -> wp m (fun _ w' => api_steps w.1 w'.1 /\ env_ok (used w.1) w'.2) w ->
  wpf G m (fun _ w' => stable w w') w.
Proof.
  intros (H1 & H2 & H3) Hm. eapply wpf_mono; [by apply wpf_weaken_wp|].
  intros a w' [Hst Hok]. destruct (api_steps_inv _ _ H1 Hst) as (Hi & Hs & Hsh).
  pose proof Hs as [= _ Hu _ Hc _]. split; [|done]. unfold good. by rewrite Hu, Hc.
Qed.

(** A call that rearranges the table. *)
Lemma wpf_in_table {A} (m : M table A) (Q : A -> table * E -> Prop) w (P : A -> table -> Prop) :
  wpf G m P w.1 -> (forall a t', P a t' -> Q a (t', w.2)) -> wpf G (in_table m) Q w.
Proof. intros Hm HQ. unfold in_table. wp_step. eapply wpf_mono; [done|]. auto. Qed.

Lemma slot_free_stable s w : good w -> wpf G (in_env (pagefile_free_slot s)) (fun _ w' => stable w w') w.
Proof. intros Hw. apply env_stable; [done|]. apply law_slot_free. by destruct Hw as (_ & ? & _). Qed.

Lemma irqs_stable w : good w -> wpf G bootstrap_poll_irqs (fun _ w' => stable w w') w.
Proof.
  intros Hw. apply pager_stable; [done|]. destruct w as [t e]. destruct Hw as (? & ? & _). by apply law_irqs.
Qed.

Lemma abort_stable f s w :
  good w -> 0 < f < used w.1 -> wpf G (vm_pageout_abort f s) (fun _ w' => stable w w') w.
Proof.
  intros Hw Hf. apply pager_stable; [done|]. destruct w as [t e]. destruct Hw as (? & ? & _). by apply law_abort.
Qed.

Lemma finalise_stable f s w :
  good w -> 0 < f < used w.1 -> wpf G (vm_pageout_finalise f s) (fun _ w' => stable w w') w.
Proof.
  intros Hw Hf. apply pager_stable; [done|]. destruct w as [t e]. destruct Hw as (? & ? & _). by apply law_finalise.
Qed.

Lemma prepare_stable f s w :
  good w -> 0 < f < used w.1 -> wpf G (vm_pageout_prepare f s) (fun _ w' => stable w w') w.
Proof.
  intros Hw Hf. apply pager_stable; [done|]. destruct w as [t e]. destruct Hw as (? & ? & _). by apply law_prepare.
Qed.

Lemma reconsider_stable r w :
  good w -> wpf G (in_table (clock_reconsider r)) (fun _ w' => stable w w') w.
Proof.
  intros Hw. pose proof Hw as ((F & A & C & Ht) & _). eapply wpf_in_table; [by apply tbl_clock_reconsider|].
  intros ? t' [Ht' Hk]. apply stable_table; [done|]. exact (keeps_inv_at _ _ _ _ _ _ Ht Ht' Hk).
Qed.

Lemma clock_remove_stable r w :
  good w -> wpf G (in_table (clock_remove r)) (fun _ w' => stable w w') w.
Proof.
  intros Hw. pose proof Hw as ((F & A & C & Ht) & _). eapply wpf_in_table; [by apply tbl_clock_remove|].
  intros ? t' [Ht' Hk]. apply stable_table; [done|]. exact (keeps_inv_at _ _ _ _ _ _ Ht Ht' Hk).
Qed.

Lemma swap_slot_stable r s w :
  good w -> wpf G (in_table (on_frame r (set_swap_slot s))) (fun _ w' => stable w w') w.
Proof.
  intros Hw. eapply wpf_in_table; [by apply (wpf_modify _ _ (fun _ t' => t' = upd r (set_swap_slot s) w.1))|].
  intros _ t' ->. apply stable_table; [done|]. apply tbl_upd_inv; by destruct Hw.
Qed.

(** ** Page-out keeps the table well formed *)

Lemma process_one_stable w :
  good w -> wpf G pageout_process_one_completion (fun _ w' => stable w w') w.
Proof.
  intros Hw. pose proof Hw as (Hi & Hok & Hcs). unfold pageout_process_one_completion. wp_line.
  eapply wpf_in_env; [by apply law_poll|]. intros [[rc f] s] e' [Hok' Hf].
  pose proof (stable_env _ _ Hw Hok') as H1. pose proof (stable_good _ _ H1) as Hw1.
  apply wpf_if; intros Hc; [done|]. apply wpf_if; intros Hc'; bd.
  - apply (wpf_last_stable _ _ _ H1). apply wpf_then_stable; [by apply slot_free_stable|].
    intros _ w2 H2. wp_line. apply wpf_when; intros Hc2; bd; [|by wp_line].
    apply wpf_then_stable; [apply abort_stable; [by destruct H2|]|].
    + rewrite (stable_used _ _ H2). apply Hf. lia.
    + intros _ w3 H3. wp_line. by apply (stable_trans _ w2).
  - apply dec_stable in Hc'. subst rc.
    apply (wpf_last_stable _ _ _ H1). apply wpf_then_stable; [by apply finalise_stable; [|apply Hf]|].
    intros rc w2 H2. apply wpf_if; intros Hc3; [|done].
    apply (wpf_last_stable _ _ _ H2). apply wpf_then_stable; [apply slot_free_stable; by destruct H2|].
    intros _ w3 H3. by wp_line.
Qed.

Lemma wait_for_stable n w :
  good w -> wpf G (pageout_wait_for_completion n) (fun _ w' => stable w w') w.
Proof.
  revert w. induction n as [|n IH]; intros w Hw; simpl; [by apply stable_refl|].
  apply wpf_then_stable; [by apply process_one_stable|]. intros rc w' Hs.
  apply wpf_if; intros Hc; [done|]. apply wpf_if; intros Hc'; [done|].
  apply (wpf_last_stable _ _ _ Hs), IH. by destruct Hs.
Qed.

Lemma wait_round_stable n w : good w -> wpf G (wait_round n) (fun _ w' => stable w w') w.
Proof.
  intros Hw. unfold wait_round. apply wpf_then_stable; [by apply process_one_stable|].
  intros rc w' Hs. repeat (apply wpf_if; intros ?; [done|]).
  apply (wpf_last_stable _ _ _ Hs). apply wpf_then_stable; [apply irqs_stable; by destruct Hs|].
  intros _ w2 H2. by wp_line.
Qed.

Lemma wait_loop_stable fuel n w : good w -> wpf G (wait_loop fuel n) (fun _ w' => stable w w') w.
Proof.
  revert n w. induction fuel as [|fuel IH]; intros n w Hw; simpl; [done|].
  apply wpf_then_stable; [by apply wait_round_stable|]. intros [rc|n'] w' Hs; [done|].
  apply (wpf_last_stable _ _ _ Hs), IH. by destruct Hs.
Qed.

Lemma submit_loop_stable fuel slot victim w :
  good w -> 0 < victim < used w.1 ->
  wpf G (submit_loop fuel victim slot victim) (fun _ w' => stable w w') w.
Proof.
  revert w. induction fuel as [|fuel IH]; intros w Hw Hv; cbn [submit_loop]; [done|].
  apply wpf_then_stable.
  { apply env_stable; [done|]. apply law_submit; [by destruct Hw as (_ & ? & _)|done]. }
  intros rc w1 H1. pose proof (stable_good _ _ H1) as Hw1. apply wpf_if; intros Hc; [done|].
  apply (wpf_last_stable _ _ _ H1). rewrite <- (stable_used _ _ H1) in Hv. apply wpf_if; intros Hc'.
  - apply wpf_then_stable; [by apply wait_for_stable|]. intros _ w2 H2.
    apply (wpf_last_stable _ _ _ H2), IH; [by destruct H2|by rewrite (stable_used _ _ H2)].
  - apply wpf_then_stable; [by apply swap_slot_stable|]. intros _ w2 H2.
    apply (wpf_last_stable _ _ _ H2).
    apply wpf_then_stable; [apply slot_free_stable; by destruct H2|]. intros _ w3 H3.
    apply (wpf_last_stable _ _ _ H3).
    apply wpf_then_stable; [apply reconsider_stable; by destruct H3|]. intros _ w4 H4. by wp_line.
Qed.

Lemma pageout_frame_stable fuel victim w :
  good w -> victim = 0 \/ 0 < victim < used w.1 ->
  wpf G (pageout_frame fuel victim) (fun _ w' => stable w w') w.
Proof.
  intros Hw Hv. unfold pageout_frame. apply wpf_if; intros Hc; [by apply stable_refl|].
  bd. unfold NULL_FRAME in Hc. destruct Hv as [|Hv]; [done|].
  assert (Hb : bounded w.1) by (destruct Hw as ((F & A & C & []) & _); done). destruct Hb as [Hb _].
  wp_step. eapply wpf_in_table;
    [by apply (wpf_frame_from_ref _ _ _ (fun r t => r = victim /\ t = w.1)); [lia|]|].
  intros ? t [-> ->]. replace (w.1, w.2) with w by by destruct w.
  apply wpf_then_stable; [by apply clock_remove_stable|]. intros _ w1 H1.
  rewrite <- (stable_used _ _ H1) in Hv. apply (wpf_last_stable _ _ _ H1).
  apply wpf_then_stable.
  { destruct H1 as [Hw1 _]. apply env_stable; [done|]. apply law_slot_alloc; [by destruct Hw1 as (_ & ? & _)|done]. }
  intros slot w2 H2. apply (wpf_last_stable _ _ _ H2). rewrite <- (stable_used _ _ H2) in Hv.
  apply wpf_if; intros Hc2.
  { apply wpf_then_stable; [apply reconsider_stable; by destruct H2|]. intros _ w3 H3. by wp_line. }
  apply wpf_then_stable; [apply prepare_stable; [by destruct H2|done]|]. intros prc w3 H3.
  apply (wpf_last_stable _ _ _ H3). rewrite <- (stable_used _ _ H3) in Hv.
  apply wpf_if; intros Hc3.
  - apply wpf_then_stable; [apply slot_free_stable; by destruct H3|]. intros _ w4 H4.
    apply (wpf_last_stable _ _ _ H4).
    apply wpf_then_stable; [apply reconsider_stable; by destruct H4|]. intros _ w5 H5. by wp_line.
  - apply wpf_then_stable; [apply swap_slot_stable; by destruct H3|]. intros _ w4 H4.
    apply (wpf_last_stable _ _ _ H4), submit_loop_stable; [by destruct H4|by rewrite (stable_used _ _ H4)].
Qed.

Lemma select_stable w :
  good w -> wpf G (in_table clock_select_victim)
    (fun v w' => stable w w' /\ (v = 0 \/ 0 < v < used w'.1)) w.
Proof.
  intros Hw. pose proof Hw as ((F & A & C & Ht) & _).
  destruct (wp_inv _ _ _ (clock_select_victim_refines _ C w.1
    (tr_clock _ _ _ _ _ Ht) (tr_bounded _ _ _ _ _ Ht))) as (v & t' & Hok & Hv & C' & cl & Hsel).
  unfold in_table. wp_step. eapply wpf_ok; [exact Hok|].
  assert (Hst : stable w (t', w.2)).
  { apply stable_table; [done|]. apply api_step_inv; [by destruct Hw|]. by apply (step_select _ _ v). }
  split; [done|]. rewrite (stable_used _ _ Hst).
  destruct (decide (v = 0)) as [|Hne]; [by left|]. right.
  rewrite Hv in Hne. apply victim_of_some in Hne as [Hin _]. fold (victim w.1 C) in Hin. rewrite <- Hv in Hin.
  by apply (ck_range _ _ (tr_clock _ _ _ _ _ Ht)).
Qed.

Lemma evict_one_stable fuel w : good w -> wpf G (evict_one_frame fuel) (fun _ w' => stable w w') w.
Proof.
  intros Hw. unfold evict_one_frame. wp_step. eapply wpf_mono; [by apply select_stable|].
  intros v w1 [H1 Hv]. apply wpf_if; intros Hc; [done|].
  apply (wpf_last_stable _ _ _ H1), pageout_frame_stable; [by destruct H1|done].
Qed.
End safety.

Section allocation.
Context {E : Type} `{EL : EnvLaws E}.
Context (G : fault -> Prop) (HG : G OutOfFuel).
Context (limit : Z) (fuel : nat).

(** ** Minting *)

Lemma alloc_frame_at_spec va u t (e : E) :
  is_cspace (ft_cspace t) -> env_ok u e ->
  wpf G (alloc_frame_at va) (fun _ w' => w'.1 = t /\ env_ok u w'.2) (t, e).
Proof.
  clear HG.
  intros Hcs Hok. unfold alloc_frame_at. wt_line.
  eapply wpf_in_env; [by apply law_ut_alloc|]. intros [ut|] e1 [Hok1 Hut]; [|done].
  specialize (Hut ut eq_refl). wt_line. simpl fst.
  eapply wpf_in_env; [by apply law_alloc_slot|]. intros c e2 (Hok2 & Hc & Hut2). simpl in *.
  apply wpf_if; intros H0; bd.
  { wt_line. eapply wpf_in_env; [apply law_ut_free; [exact Hok2|by apply Hut2]|]. by intros. }
  unfold seL4_CapNull in H0. specialize (Hc H0). specialize (Hut2 ut Hut).
  wt_line. eapply wpf_in_env; [by apply law_ut_cap|]. intros cap ? ->. simpl.
  wt_line. eapply wpf_in_env; [by apply (law_retype u)|]. intros err e3 (Hok3 & Hc3 & Hut3). simpl in *.
  apply wpf_if; intros H1.
  { wt_line. eapply wpf_in_env; [by apply (law_free_slot u)|]. intros ? e4 (Hok4 & Hut4). simpl in *.
    wt_line. eapply wpf_in_env; [apply law_ut_free; [exact Hok4|by apply Hut4, Hut3]|]. by intros. }
  wt_line. eapply wpf_in_env; [by apply (law_map u)|]. intros err2 e4 (Hok4 & Hc4 & Hut4). simpl in *.
  apply wpf_if; intros H2; [|done].
  wt_line. eapply wpf_in_env; [by apply (law_delete u)|]. intros ? e5 (Hok5 & Hc5 & Hut5). simpl in *.
  wt_line. eapply wpf_in_env; [by apply (law_free_slot u)|]. intros ? e6 (Hok6 & Hut6). simpl in *.
  wt_line. eapply wpf_in_env; [apply law_ut_free; [exact Hok6|by apply Hut6, Hut5, Hut4, Hut3]|].
  by intros.
Qed.

(** Multiples of the page size over the size of an entry. *)
Lemma page_entries j : 4096 * j / 64 = 64 * j.
Proof. replace (4096 * j) with (64 * j * 64) by lia. by rewrite Z.div_mul. Qed.

Lemma bump_capacity_spec u t (e : E) :
  is_cspace (ft_cspace t) -> env_ok u e -> cap_ok limit t ->
  wpf G (bump_capacity limit) (fun rc w' => env_ok u w'.2 /\
    (rc ≠ 0 /\ w'.1 = t \/
     rc = 0 /\ exists c b, w'.1 = set_capacity c b t /\ capacity t < c /\
       cap_ok limit (set_capacity c b t))) (t, e).
Proof.
  clear HG.
  intros Hcs Hok [Hlim (k & Hk & Hbl) Hcap]. unfold bump_capacity. wt_line.
  rewrite (bool_decide_eq_true_2 (limit ≠ 0)) by lia. apply wpf_if; intros Hne; simpl in Hne; bd.
  { wt_line. simpl. auto. }
  wt_line. eapply wpf_mono; [by apply (alloc_frame_at_spec _ u)|]. intros c [t1 e1] [Ht1 Hok1].
  simpl in *. subst t1. apply wpf_if; intros H0; [wt_line; auto|].
  wt_line. cbn [when]. wt_line. simpl.
  split; [done|]. right. split; [done|].
  rewrite Hbl in *. unfold seL4_PageBits, SIZEOF_FRAME.
  rewrite page_entries in Hcap. replace (4096 * k + 2 ^ 12) with (4096 * (k + 1)) by lia.
  rewrite w64_small, page_entries by lia.
  eexists _, _. split; [reflexivity|]. split; [lia|]. split; simpl; [done| |].
  - exists (k + 1). lia.
  - by rewrite page_entries.
Qed.

(** The state of the services once the table may have grown. *)
Definition grown (t : table) (w' : table * E) : Prop :=
  env_ok (used w'.1) w'.2 /\ is_cspace (ft_cspace w'.1) /\ cap_ok limit w'.1 /\
  used t ≤ used w'.1 /\ capacity t ≤ capacity w'.1.

Lemma take_entry_spec F A C t (e : E) :
  tbl_rep F A C [] t -> 0 < used t < capacity t -> env_ok (used t) e ->
  is_cspace (ft_cspace t) -> cap_ok limit t ->
  wpf G (take_entry (used t)) (fun o w' => grown t w' /\
    match o with
    | None => tbl_rep F A C [] w'.1
    | Some r => r = used t /\ used w'.1 = r + 1 /\ tbl_rep F A C [r] w'.1 /\
        exists p, p ≠ seL4_CapNull /\ entry w'.1 r = fresh_entry p
    end) (t, e).
Proof.
  clear HG.
  intros Ht Hu Hok Hcs Hcap. pose proof (tr_bounded _ _ _ _ _ Ht) as [Hb1 Hb2].
  unfold take_entry. wt_line. rewrite w64_small by lia.
  eapply wpf_in_table; [apply (wpf_ref_from_frame _ _ _ (fun r t' => r = used t /\ t' = set_used (used t + 1) t)); [simpl; lia|done]|].
  intros ? ? [-> ->]. wt_line.
  eapply wpf_in_table.
  { apply (wpf_mono _ _ (fun _ t' => t' = set_used (used t + 1) t)); [|intros ? ? H; exact H].
    unfold frame_data. wp_line. apply wpf_assert; [apply bool_decide_eq_true; unfold NULL_FRAME; lia|].
    wp_line. by apply wpf_assert; [apply bool_decide_eq_true; simpl; lia|]. }
  intros va ? ->. wt_line. simpl.
  eapply wpf_mono; [by apply (alloc_frame_at_spec _ (used t))|]. intros p [t1 e1] [Ht1 Hok1].
  simpl in *. subst t1. apply wpf_if; intros H0.
  - wt_line. simpl. rewrite w64_small by lia. rewrite Z.add_simpl_r.
    replace (set_used (used t) (set_used (used t + 1) t)) with t by by destruct t.
    split; [|done]. split_and!; simpl; try done; lia.
  - unfold on_frame. wt_line. split.
    + split_and!; simpl; [|done|by eapply cap_ok_scalars; [..|exact Hcap]|lia|lia].
      eapply env_ok_mono; [|exact Hok1]. lia.
    + split_and!; [done|done|by apply tbl_fresh|]. exists p. bd. split; [done|].
      cbn [fst]. by rewrite entry_upd, decide_True.
Qed.

Lemma alloc_fresh_spec F A C t (e : E) :
  tbl_rep F A C [] t -> env_ok (used t) e -> is_cspace (ft_cspace t) -> cap_ok limit t ->
  wpf G (alloc_fresh_frame limit) (fun o w' => grown t w' /\
    match o with
    | None => tbl_rep F A C [] w'.1
    | Some r => r = Z.max 1 (used t) /\ used w'.1 = r + 1 /\ tbl_rep F A C [r] w'.1 /\
        exists p, p ≠ seL4_CapNull /\ entry w'.1 r = fresh_entry p
    end) (t, e).
Proof.
  clear HG.
  intros Ht Hok Hcs Hcap. pose proof (tr_bounded _ _ _ _ _ Ht) as [Hb1 Hb2].
  pose proof Hcap as [Hlim _ Hc]. unfold alloc_fresh_frame. wt_line.
  apply wpf_assert; [apply bool_decide_eq_true; lia|]. wt_line.
  rewrite bool_decide_eq_true_2 by lia. cbn [when]. apply wpf_assert; [apply bool_decide_eq_true; lia|].
  (* make room *)
  wt_line. apply (wpf_mono _ _ (fun rc w1 => grown t w1 /\ tbl_rep F A C [] w1.1 /\ used w1.1 = used t /\
    (rc = 0 -> used t < capacity w1.1))).
  { apply wpf_if; intros Heq; bd.
    - eapply wpf_mono; [by apply (bump_capacity_spec (used t))|]. intros rc [t1 e1] [Hok1 [[Hrc H1]|(-> & c & b & H1 & Hlt & Hcap1)]];
        simpl in *; subst t1; (split; [|split_and!]); try done; try (split_and!; simpl; done || lia).
      + apply tbl_set_capacity; [destruct Hcap1 as [_ _ Hc1]; simpl in Hc1; lia|done].
      + simpl. intros _. lia.
    - wt_line. split; [split_and!; done|]. split_and!; [done|done|]. simpl. intros _. lia. }
  intros rc [t1 e1] ((Hok1 & Hcs1 & Hcap1 & Hu1 & Hc1) & Ht1 & Hused & Hroom). simpl in *.
  apply wpf_if; intros Hrc; bd; [wt_line; done|]. apply dec_stable in Hrc. specialize (Hroom Hrc).
  wt_line. apply wpf_assert; [apply bool_decide_eq_true; lia|]. wt_line.
  (* skip the sentinel *)
  apply (wpf_mono _ _ (fun _ w2 => grown t w2 /\ tbl_rep F A C [] w2.1 /\ used w2.1 = Z.max 1 (used t) /\
    used w2.1 < capacity w2.1)).
  { apply wpf_when; intros H0; bd.
    - wt_line. rewrite H0. change (w64 (0 + 1)) with 1.
      assert (1 < capacity t1).
      { destruct Hcap1 as [_ (k & ? & Hbl) Hc2]. rewrite Hbl, page_entries in Hc2. lia. }
      unfold grown. split_and!; simpl; try done; try lia.
      + eapply env_ok_mono; [|exact Hok1]. lia.
      + by eapply cap_ok_scalars; [..|exact Hcap1].
      + apply tbl_sentinel; [done|lia|done].
    - unfold grown. split_and!; simpl; try done; lia. }
  intros _ [t2 e2] ((Hok2 & Hcs2 & Hcap2 & Hu2 & Hc2) & Ht2 & Hused2 & Hroom2). simpl in *. wt_line.
  eapply wpf_mono; [apply (take_entry_spec F A C); try done; lia|].
  intros o w3 [(Hok3 & Hcs3 & Hcap3 & Hu3 & Hc3) Ho]. split.
  - split_and!; try done; lia.
  - destruct o; [|done]. by rewrite <- Hused2.
Qed.

(** ** Allocation *)

(** Where a frame in the hands of the allocator comes from: the pager freed the frames [G]
    since [t], in front of the free list; then the first of the free list was taken, with the
    reserve left to the kernel if the request is a user's, or an entry that had never been
    in use. *)
Definition origin (ow : frame_owner_t) (reserve : Z) (t : table) (r : Z) (F A : list Z) : Prop :=
  exists F0 A0 C0 G, tbl_rep F0 A0 C0 [] t /\ A0 ≡ₚ G ++ A /\
    (G ++ F0 = r :: F /\ (ow ≠ FRAME_OWNER_KERNEL -> reserve ≤ Z.of_nat (length F)) \/ F = G ++ F0 /\ used t ≤ r).
Definition handed (ow : frame_owner_t) (reserve : Z) (t : table) (r : Z) (w' : table * E) : Prop :=
  exists F A C, tbl_rep F A C [r] w'.1 /\ env_ok (used w'.1) w'.2 /\ is_cspace (ft_cspace w'.1) /\
    cap_ok limit w'.1 /\ used t ≤ used w'.1 /\ capacity t ≤ capacity w'.1 /\ origin ow reserve t r F A.

Definition found (ow : frame_owner_t) (reserve : Z) (t : table) (o : option Z) (w' : table * E) : Prop :=
  match o with
  | None => table_inv w'.1 /\ grown t w' /\ exists G, shed G t w'.1
  | Some r => handed ow reserve t r w'
  end.

Definition good_cap (w : table * E) : Prop := good w /\ cap_ok limit w.1.

Lemma stable_cap (w w' : table * E) : cap_ok limit w.1 -> stable w w' -> good_cap w'.
Proof.
  intros Hc (Hw & Hs & _). split; [done|]. injection Hs as H1 H2 H3 H4 H5.
  by eapply cap_ok_scalars; [..|exact Hc].
Qed.

Lemma found_none (w w' : table * E) ow res : cap_ok limit w.1 -> stable w w' -> found ow res w.1 None w'.
Proof.
  intros Hc Hs. pose proof (stable_cap _ _ Hc Hs) as [(H1 & H2 & H3) H4].
  destruct Hs as (_ & Hs & Hsh). injection Hs as E1 E2 E3 E4 E5. split; [done|]. split; [|done]. split_and!; try done; lia.
Qed.

Lemma origin_shed G0 ow res t t1 r F A : shed G0 t t1 -> used t ≤ used t1 -> origin ow res t1 r F A -> origin ow res t r F A.
Proof.
  intros (F0 & A0 & C0 & A1 & C1 & H0 & H1 & P) Hu (F1 & A1' & C1' & G1 & H1' & P1 & Ho).
  pose proof (list_rep_unique _ _ _ _ (tr_free _ _ _ _ _ H1) (tr_free _ _ _ _ _ H1')) as <-.
  pose proof (list_rep_unique _ _ _ _ (tr_alloc _ _ _ _ _ H1) (tr_alloc _ _ _ _ _ H1')) as <-.
  exists F0, A0, C0, (G1 ++ G0). split; [done|]. split; [by rewrite P, P1, app_assoc, (Permutation_app_comm G0)|].
  rewrite <- app_assoc. destruct Ho as [Ho|[-> Ho]]; [by left|right; split; [done|lia]].
Qed.
(** A later attempt from a state in which none was found. *)
Lemma found_after (w1 : table * E) ow res t o w :
  (exists G, shed G t w1.1) -> used t ≤ used w1.1 -> capacity t ≤ capacity w1.1 -> found ow res w1.1 o w -> found ow res t o w.
Proof.
  intros [G0 Hsh] Hu Hc. destruct o as [r|]; simpl.
  - intros (F & A & C & ? & ? & ? & ? & ? & ? & Ho). exists F, A, C. split_and!; try done; try lia. by eapply origin_shed.
  - intros (? & (? & ? & ? & ? & ?) & G2 & Hs2). split; [done|]. split; [split_and!; try done; lia|]. eexists. by eapply shed_trans.
Qed.
Lemma found_trans (w1 w2 : table * E) ow res o w :
  stable w1 w2 -> found ow res w2.1 o w -> found ow res w1.1 o w.
Proof. intros (_ & Hs & Hsh). injection Hs as E1 E2 E3 E4 E5. apply found_after; [done|lia|lia]. Qed.

Lemma pop_spec ow res t (e : E) :
  good_cap (t, e) -> (ow ≠ FRAME_OWNER_KERNEL -> len (free_l t) > res) ->
  wpf G (in_table (pop_front Free)) (fun o w' => found ow res t o w') (t, e).
Proof.
  intros [Hw Hcap] Hc. pose proof Hw as ((F & A & C & Ht) & Hok & Hcs). simpl in *.
  pose proof (lr_len _ _ _ (tr_free _ _ _ _ _ Ht)) as Hlen. simpl in Hlen. rewrite Hlen in Hc.
  destruct F as [|r F].
  - eapply wpf_in_table; [by eapply tbl_pop_nil|]. intros o ? [-> ->]. apply (found_none (t, e)); [done|by apply stable_refl].
  - eapply wpf_in_table; [by eapply tbl_pop|]. intros o t' (-> & Ht' & Hk). simpl.
    pose proof (keeps_scalars _ _ Hk) as (Hu & Hc' & Hb). exists F, A, C.
    destruct Hk as [_ Hs]. injection Hs as E1 E2 E3 E4 E5.
    simpl. rewrite Hu, Hc', E4. split_and!; try done; try lia.
    + by eapply cap_ok_scalars; [..|exact Hcap].
    + exists (r :: F), A, C, []. split; [done|]. split; [done|]. left. split; [done|]. intros Hk. specialize (Hc Hk). simpl in Hc. lia.
Qed.

Lemma take_free_spec ow res (w : table * E) :
  good_cap w -> wpf G (take_free ow res) (fun o w' => found ow res w.1 o w') w.
Proof.
  intros Hw. pose proof Hw as [Hg Hcap]. destruct w as [t e]. unfold take_free, free_len. wt_line.
  apply wpf_if; intros Hc; [|apply (found_none (t, e)); [done|by apply stable_refl]].
  apply pop_spec; [done|]. intros Hk. rewrite bool_decide_eq_false_2 in Hc by done. simpl in Hc. by bd.
Qed.

Lemma wpf_then_found {A} (m : M (table * E) A) k ow res (w : table * E) :
  good_cap w -> wpf G m (fun _ w' => stable w w') w ->
  (forall a w', stable w w' -> good_cap w' -> wpf G (k a) (fun o w2 => found ow res w'.1 o w2) w') ->
  wpf G (m ≫= k) (fun o w2 => found ow res w.1 o w2) w.
Proof.
  intros [Hw Hcap] Hm Hk. apply wpf_then_stable; [done|]. intros a w' Hs.
  eapply wpf_mono; [apply Hk; [done|by eapply stable_cap]|]. intros o w2. by apply found_trans.
Qed.

Lemma evict_retry_spec n ow res att (w : table * E) :
  good_cap w -> wpf G (evict_retry fuel n ow res att) (fun o w' => found ow res w.1 o w') w.
Proof.
  revert att w. induction n as [|n IH]; intros att w Hw; cbn [evict_retry]; [done|].
  pose proof Hw as [Hg Hcap].
  assert (Hnone : found ow res w.1 None w) by (apply found_none; [done|by apply stable_refl]).
  destruct w as [t e]. wt_line. apply wpf_if; intros _; [|done].
  apply wpf_then_found; [done|by apply evict_one_stable|]. intros rc w1 H1 Hw1.
  assert (Hnone1 : found ow res w1.1 None w1) by (destruct Hw1; apply found_none; [done|by apply stable_refl]).
  apply wpf_if; intros _; [|done].
  apply wpf_then_found; [done|apply wait_loop_stable; by destruct Hw1|]. intros rc2 w2 H2 Hw2.
  assert (Hnone2 : found ow res w2.1 None w2) by (destruct Hw2; apply found_none; [done|by apply stable_refl]).
  apply wpf_if; intros _; [by apply IH|].
  destruct w2 as [t2 e2]. unfold free_len. wt_line. apply wpf_if; intros Hc; [|done]. wp_step.
  eapply wpf_mono; [apply (pop_spec ow res); [done|]|].
  { intros Hk. rewrite (bool_decide_eq_false_2 (ow = _)), orb_false_r in Hc by done. by bd. }
  intros [r|] w3 H3; [done|].
  destruct H3 as (Hi & (Hok & Hcs & Hc3 & Hu & Hcc) & Hsh).
  eapply wpf_mono; [apply IH; by split|]. intros o w4. by apply found_after.
Qed.

Lemma evict_batch_stable n low (w : table * E) :
  good w -> wpf G (evict_batch fuel n low) (fun _ w' => stable w w') w.
Proof.
  revert w. induction n as [|n IH]; intros w Hw; cbn [evict_batch]; [by apply stable_refl|].
  destruct w as [t e]. unfold free_len. wt_line. apply wpf_if; intros _; [|by apply stable_refl].
  apply wpf_then_stable; [by apply evict_one_stable|]. intros rc w1 H1.
  apply wpf_if; intros _; [done|]. apply (wpf_last_stable _ _ _ _ H1).
  apply wpf_then_stable; [apply wait_loop_stable; [done|by destruct H1]|]. intros rc2 w2 H2.
  apply wpf_if; intros _; [done|]. apply (wpf_last_stable _ _ _ _ H2), IH. by destruct H2.
Qed.

Lemma proactive_spec ow res (w : table * E) :
  good_cap w -> wpf G (proactive fuel ow res) (fun o w' => found ow res w.1 o w') w.
Proof.
  intros Hw. pose proof Hw as [Hg Hcap]. destruct w as [t e]. unfold proactive, free_len. wt_line.
  apply wpf_if; intros _; [|apply (found_none (t, e)); [done|by apply stable_refl]].
  apply wpf_then_found; [done|by apply evict_batch_stable|]. intros _ w1 H1 Hw1. by apply take_free_spec.
Qed.

Lemma heap_preflight_stable (w : table * E) :
  good w -> wpf G heap_preflight (fun _ w' => stable w w') w.
Proof.
  intros Hw. destruct w as [t e]. unfold heap_preflight. wt_line. apply wpf_when; intros _; [|by apply stable_refl].
  wt_line. apply wpf_when; intros _; [|by apply stable_refl].
  apply wpf_then_stable; [|by intros].
  apply env_stable; [done|]. apply law_release. by destruct Hw as (_ & ? & _).
Qed.

(** Chaining the attempts: a later one runs only from a state without frame. *)
Lemma or_else_spec ow res t o m (w : table * E) :
  found ow res t o w ->
  (good_cap w -> wpf G m (fun o' w' => found ow res w.1 o' w') w) ->
  wpf G (or_else o m) (fun o' w' => found ow res t o' w') w.
Proof.
  intros Ho Hm. destruct o as [r|]; simpl; [done|].
  destruct Ho as (Hi & (Hok & Hcs & Hc & Hu & Hcc) & Hsh).
  eapply wpf_mono; [apply Hm; by split|]. intros o' w'. by apply found_after.
Qed.

Lemma fresh_found ow res (w : table * E) :
  good_cap w -> wpf G (alloc_fresh_frame limit) (fun o w' => found ow res w.1 o w') w.
Proof.
  intros [((F & A & C & Ht) & Hok & Hcs) Hcap]. destruct w as [t e]. simpl in *.
  eapply wpf_mono; [by apply (alloc_fresh_spec F A C)|]. intros [r|] w' [Hg Hr]; simpl.
  - destruct Hr as (Hr & Hu & Ht' & _), Hg as (? & ? & ? & ? & ?). exists F, A, C. split_and!; try done.
    exists F, A, C, []. split; [done|]. split; [done|]. right. split; [done|lia].
  - split; [by exists F, A, C|]. split; [done|]. exists []. by eapply shed_same.
Qed.

Lemma find_frame_spec ow res (w : table * E) :
  good_cap w -> wpf G (find_frame limit fuel ow res) (fun o w' => found ow res w.1 o w') w.
Proof.
  intros Hw. unfold find_frame.
  wp_step. eapply wpf_mono; [by apply take_free_spec|]. intros o1 w1 H1.
  wp_step. eapply wpf_mono; [apply (or_else_spec _ _ _ _ _ _ H1), proactive_spec|]. intros o2 w2 H2.
  wp_step. eapply wpf_mono; [apply (or_else_spec _ _ _ _ _ _ H2)|].
  { intros Hw2. apply wpf_then_found; [done|apply heap_preflight_stable; by destruct Hw2|].
    intros _ w' _ Hw'. by apply evict_retry_spec. }
  intros o3 w3 H3. wp_step.
  eapply wpf_mono; [apply (or_else_spec _ _ _ _ _ _ H3), fresh_found|]. intros o4 w4 H4.
  apply (or_else_spec _ _ _ _ _ _ H4), evict_retry_spec.
Qed.

Lemma tbl_claim F A C r ow fl t :
  tbl_rep F A C [r] t -> tbl_rep F A C [r] (upd r (claim ow fl) t).
Proof.
  clear HG.
  intros Ht. pose proof Ht as [Hf Ha Hc Hs Hcov Hd Ho Hb].
  assert (HrC : r ∉ C).
  { intros Hin%Hs. eapply list_rep_detached in Ha; [done|]. apply Hd. set_solver. }
  assert (Hsl : same_lists t (upd r (claim ow fl) t)).
  { split; intros; ft_simpl; try done. by case_decide; subst. }
  split; try done; try by eapply list_rep_same.
  - destruct Hc as [Hh Hl Hr Hnd Hm Hrg]. split; try done.
    + eapply ring_ext; [|done]. intros x Hx. unfold cprevs, cnexts. ft_simpl.
      rewrite !decide_False; [done|set_solver..].
    + intros x. ft_simpl. case_decide; [subst; by split|apply Hm].
  - intros x Hx. eapply detached_same; [done|by apply Hd].
  - intros x Hx Hx'. ft_simpl. rewrite decide_False by set_solver. by apply Ho.
Qed.

(** What [alloc_frame] writes into the entry it hands out. *)
Record claimed (ow : frame_owner_t) (fl : Z) (r : Z) (t : table) : Prop := Claimed {
  cl_owner : owner (entry t r) = ow;
  cl_flags : flags (entry t r) = fl;
  cl_pins : pin_count (entry t r) = if bool_decide (Z.land fl FRAME_FLAG_PINNED ≠ 0) then 1 else 0;
  cl_slot : swap_slot (entry t r) = 0;
}.

Lemma publish_spec F A C r ow fl t (e : E) :
  tbl_rep F A C [r] t ->
  wpf G (in_table (on_frame r (claim ow fl));; in_table (push_back Allocated r);;
         in_table (ref_from_frame r))
    (fun x w' => x = r /\ w'.2 = e /\ cscalars w'.1 = cscalars t /\
      tbl_rep F (A ++ [r]) C [] w'.1 /\ claimed ow fl r w'.1) (t, e).
Proof.
  clear HG.
  intros Ht. unfold on_frame. wt_line. pose proof (tbl_claim F A C r ow fl t Ht) as Ht2.
  eapply wpf_in_table; [by eapply tbl_push_alloc|]. intros _ t3 [Ht3 Hk]. cbn [fst] in Hk. wp_line.
  assert (0 < r < used t3) by (apply (tr_cover _ _ _ _ _ Ht3); set_solver).
  eapply wpf_in_table; [apply (wpf_ref_from_frame _ _ _ (fun x t' => x = r /\ t' = t3)); [simpl; lia|done]|].
  intros ? ? [-> ->]. cbn [fst snd]. destruct Hk as [Ha Hs].
  split_and!; [done|done|done|done|].
  specialize (Ha r). rewrite entry_upd, decide_True in Ha by done.
  injection Ha as E1 E2 E3 E4 E5 E6. by split.
Qed.

(** What a successful [alloc_frame] leaves: [r] is the last of the allocated
    list, not on the ring, carries the requested owner and flags, and comes from
    where [origin] says; the frames allocated before are still allocated unless the
    pager freed them. *)
Definition allocated (ow : frame_owner_t) (fl reserve : Z) (t : table) (r : Z) (t' : table) : Prop :=
  claimed ow fl r t' /\
  exists F A C, tbl_rep F (A ++ [r]) C [] t' /\ (r ∉ C) /\ origin ow reserve t r F A.

Lemma tbl_hole_ring F A C r t : tbl_rep F A C [r] t -> r ∉ C.
Proof.
  clear HG.
  intros Ht Hin%(tr_sub _ _ _ _ _ Ht). eapply list_rep_detached; [exact (tr_alloc _ _ _ _ _ Ht)| |exact Hin].
  apply (tr_hole _ _ _ _ _ Ht). set_solver.
Qed.

Lemma alloc_frame_spec ow fl (w : table * E) :
  good_cap w ->
  wpf G (alloc_frame limit fuel ow fl) (fun r w' => good_cap w' /\
    (r ≠ NULL_FRAME -> allocated ow fl (reserve_of (capacity w.1)) w.1 r w'.1)) w.
Proof.
  intros Hw. destruct w as [t e]. unfold alloc_frame. wt_line.
  eapply wpf_mono; [by apply find_frame_spec|]. intros [r|] w1; simpl.
  2: { intros (Hi & (? & ? & ? & ? & ?) & _). wt_line. done. }
  intros (F & A & C & Ht & Hok & Hcs & Hcap & Hu & Hc & Hres). destruct w1 as [t1 e1]. simpl in *.
  eapply wpf_mono; [by apply publish_spec|]. intros ? [t2 e2] (-> & He2 & Hs & Ht2 & Hcl).
  cbn [fst snd] in *. subst e2. injection Hs as E1 E2 E3 E4 E5. split.
  - split; [|by eapply cap_ok_scalars; [..|exact Hcap]].
    split_and!; [by exists F, (A ++ [r]), C|cbn [fst snd]; by rewrite E2|cbn [fst snd]; by rewrite E4].
  - intros _. split; [done|]. exists F, A, C. split_and!; [done|by eapply tbl_hole_ring|done].
Qed.

(** ** Allocation without the pager *)

(** From the free list: nothing but the table is touched. *)
Lemma alloc_from_free F A C r ow fl t (e : E) :
  tbl_rep (r :: F) A C [] t ->
  ow = FRAME_OWNER_KERNEL \/ reserve_of (capacity t) < Z.of_nat (length (r :: F)) ->
  wpf G (alloc_frame limit fuel ow fl)
    (fun x w' => x = r /\ w'.2 = e /\ cscalars w'.1 = cscalars t /\
      tbl_rep F (A ++ [r]) C [] w'.1 /\ claimed ow fl r w'.1) (t, e).
Proof.
  clear HG.
  intros Ht Hc. unfold alloc_frame, find_frame, take_free, free_len. wt_line.
  pose proof (lr_len _ _ _ (tr_free _ _ _ _ _ Ht)) as Hlen. cbn [get_list] in Hlen. rewrite Hlen.
  assert (bool_decide (ow = FRAME_OWNER_KERNEL) ||
    bool_decide (Z.of_nat (length (r :: F)) > reserve_of (capacity t)) = true) as ->.
  { apply orb_true_iff. rewrite !bool_decide_eq_true. destruct Hc; [by left|right; lia]. }
  eapply wpf_in_table; [by eapply tbl_pop|]. intros o t1 (-> & Ht1 & Hk). cbn [or_else]. wt_line.
  cbn [or_else]. wt_line. cbn [or_else]. wt_line. cbn [or_else]. apply wpf_ret. cbv beta iota.
  eapply wpf_mono; [by apply publish_spec|]. intros ? w2 (-> & He & Hs & Ht2 & Hcl).
  split_and!; try done. rewrite Hs. by destruct Hk.
Qed.

(** The same against the specification of any allocation. *)
Lemma alloc_served ow fl t (e : E) : good_cap (t, e) ->
  bool_decide (0 < len (free_l t)) && (bool_decide (ow = FRAME_OWNER_KERNEL) || bool_decide (reserve_of (capacity t) < len (free_l t))) = true ->
  wpf G (alloc_frame limit fuel ow fl) (fun r w' => good_cap w' /\ (r ≠ NULL_FRAME -> allocated ow fl (reserve_of (capacity t)) t r w'.1)) (t, e).
Proof.
  clear HG. intros [((F & A & C & Ht) & Hok & Hcs) Hcap] [H0 H1]%andb_true_iff. cbn [fst snd] in *.
  pose proof (lr_len _ _ _ (tr_free _ _ _ _ _ Ht)) as Hlen. cbn [get_list] in Hlen. rewrite Hlen in H0, H1.
  destruct F as [|r F]; [by apply bool_decide_eq_true in H0|]. apply orb_true_iff in H1. rewrite !bool_decide_eq_true in H1.
  eapply wpf_mono; [by apply alloc_from_free|]. intros x [t' e'] (-> & He & Hs & Ht' & Hcl). cbn [fst snd] in *. subst e'.
  injection Hs as E1 E2 E3 E4 E5. split.
  - split; [|by eapply cap_ok_scalars; [..|exact Hcap]]. split; [by eexists _, _, _|]. cbn [fst snd]. by rewrite E2, E4.
  - intros _. split; [done|]. exists F, A, C. split; [done|]. split.
    + intros Hin%(tr_sub _ _ _ _ _ Ht). apply (lr_member _ _ _ (tr_alloc _ _ _ _ _ Ht)) in Hin.
      assert (Hf : r ∈ r :: F) by (by left). apply (lr_member _ _ _ (tr_free _ _ _ _ _ Ht)) in Hf. by rewrite Hin in Hf.
    + exists (r :: F), A, C, []. split; [done|]. split; [done|]. left. split; [done|]. intros Hk. simpl in H1. destruct H1; [done|]. lia.
Qed.

(** Before the pagefile is ready, a request that the free list cannot serve
    mints a frame or fails and changes no list. *)
Lemma alloc_not_ready F A C ow fl t (e : E) :
  (forall e : E, pagefile_is_ready e = false) -> (0 < fuel)%nat ->
  tbl_rep F A C [] t -> env_ok (used t) e -> is_cspace (ft_cspace t) -> cap_ok limit t ->
  (F = [] \/ ow ≠ FRAME_OWNER_KERNEL /\ Z.of_nat (length F) ≤ reserve_of (capacity t)) ->
  wpf G (alloc_frame limit fuel ow fl) (fun x w' => good_cap w' /\
    (x = NULL_FRAME /\ tbl_rep F A C [] w'.1 \/
     x = Z.max 1 (used t) /\ used w'.1 = x + 1 /\ tbl_rep F (A ++ [x]) C [] w'.1 /\ claimed ow fl x w'.1))
    (t, e).
Proof.
  clear HG.
  intros Hnr Hfuel Ht Hok Hcs Hcap Hc. unfold alloc_frame, find_frame. wt_line.
  (* the free list has nothing to give *)
  apply (wpf_mono _ _ (fun o w => o = None /\ w = (t, e))).
  { unfold take_free, free_len. wt_line. apply wpf_if; intros Hb; [|done].
    destruct F as [|r F]; [eapply wpf_in_table; [by eapply tbl_pop_nil|]; by intros ? ? [-> ->]|].
    exfalso. pose proof (lr_len _ _ _ (tr_free _ _ _ _ _ Ht)) as Hlen. cbn [get_list] in Hlen.
    rewrite Hlen in Hb. destruct Hc as [?|[Hk Hle]]; [done|].
    rewrite bool_decide_eq_false_2 in Hb by done. cbn [orb] in Hb. bd. lia. }
  intros ? ? [-> ->]. cbn [or_else].
  assert (Hev : forall t (e : E) res (Q : option Z -> table * E -> Prop), Q None (t, e) ->
    wpf G (evict_retry fuel fuel ow res 0) Q (t, e)).
  { intros t' e' res Q HQ. destruct fuel; [lia|]. cbn [evict_retry]. wt_line. rewrite Hnr. by wt_line. }
  wt_line. unfold proactive, free_len. wt_line. rewrite Hnr. cbn [andb]. wt_line. cbn [or_else].
  wt_line. unfold heap_preflight. wt_line. rewrite Hnr. cbn [when]. wt_line. apply Hev. cbn [or_else].
  wt_line. eapply wpf_mono; [by apply (alloc_fresh_spec F A C)|].
  intros o [t1 e1] [(Hok1 & Hcs1 & Hcap1 & _ & _) Ho]. cbn [fst snd] in *. destruct o as [r|].
  - cbn [or_else]. apply wpf_ret. cbv beta iota. destruct Ho as (Hr & Hu & Ht1 & _).
    eapply wpf_mono; [by apply publish_spec|]. intros ? [t2 e2] (-> & He & Hs & Ht2 & Hcl).
    cbn [fst snd] in *. subst e2. injection Hs as E1 E2 E3 E4 E5. split.
    + split; [|by eapply cap_ok_scalars; [..|exact Hcap1]].
      split_and!; [by exists F, (A ++ [r]), C|cbn [fst snd]; by rewrite E2|cbn [fst snd]; by rewrite E4].
    + right. by rewrite E2.
  - cbn [or_else]. apply Hev. wt_line. split; [|by left]. split; [|done]. split_and!; [by exists F, A, C|done|done].
Qed.

(** ** Initialisation *)

Lemma seqZ_snoc k : 0 ≤ k -> seqZ 1 (k + 1) = seqZ 1 k ++ [k + 1].
Proof.
  intros Hk. rewrite seqZ_app by lia. f_equal. rewrite Z.add_comm. done.
Qed.

Lemma seed_loop_spec n k t (e : E) :
  0 ≤ k -> Z.max 1 (used t) = k + 1 -> tbl_rep (rev (seqZ 1 k)) [] [] [] t ->
  env_ok (used t) e -> is_cspace (ft_cspace t) -> cap_ok limit t ->
  wpf G (seed_loop limit n) (fun _ w' => good_cap w' /\
    exists m, k ≤ m ≤ k + Z.of_nat n /\ tbl_rep (rev (seqZ 1 m)) [] [] [] w'.1) (t, e).
Proof.
  clear HG.
  revert k t e. induction n as [|n IH]; intros k t e Hk Hu Ht Hok Hcs Hcap; cbn [seed_loop].
  { wt_line. split; [|exists k; split; [lia|done]]. split; [|done]. split_and!; [by eexists _, _, _|done|done]. }
  wt_line. eapply wpf_mono; [by apply (alloc_fresh_spec (rev (seqZ 1 k)) [] [])|].
  intros o [t1 e1] [(Hok1 & Hcs1 & Hcap1 & _ & _) Ho]. cbn [fst snd] in *. destruct o as [r|]; last first.
  { wt_line. split; [|exists k; split; [lia|done]]. split; [|done]. split_and!; [by eexists _, _, _|done|done]. }
  destruct Ho as (Hr & Hu1 & Ht1 & p & Hp & He). wt_line.
  eapply wpf_in_table; [eapply tbl_push_free; [exact Ht1|by cbn [fst]; rewrite He]|].
  intros _ t2 [Ht2 [_ Hs]]. cbn [fst snd] in *. injection Hs as E1 E2 E3 E4 E5.
  eapply wpf_mono; [apply (IH (k + 1)); try lia|].
  - rewrite seqZ_snoc by done. rewrite rev_app_distr. cbn [rev app]. by replace (k + 1) with r by lia.
  - by rewrite E2.
  - by rewrite E4.
  - by eapply cap_ok_scalars; [..|exact Hcap1].
  - intros _ w' [Hg (m & Hm & Htm)]. split; [done|]. exists m. split; [lia|done].
Qed.

Lemma frame_table_init_spec cs vs (e : E) :
  is_cspace cs -> env_ok 0 e -> 2 ≤ limit < 2 ^ 57 ->
  wpf G (frame_table_init limit cs vs) (fun _ w' => good_cap w' /\
    exists m, 0 ≤ m ≤ seed_limit limit /\ tbl_rep (rev (seqZ 1 m)) [] [] [] w'.1) (frame_table0, e).
Proof.
  clear HG.
  intros Hcs Hok Hl. unfold frame_table_init. wt_line.
  assert (Hseed : 0 ≤ seed_limit limit).
  { unfold seed_limit. pose proof (Z.div_pos limit 2). repeat case_bool_decide; lia. }
  eapply wpf_mono; [apply (seed_loop_spec _ 0); try done; try lia|].
  - assert (Hl0 : forall w, list_rep w [] (set_clock NULL_FRAME 0 (set_spaces cs vs frame_table0))).
    { intros w. split; try by destruct w.
      - apply NoDup_nil_2.
      - intros x. split; [by intros ?%elem_of_nil|by destruct w].
      - by intros x ?%elem_of_nil. }
    split; try done.
    + split; try done; [apply NoDup_nil_2|intros x; split; [by intros ?%elem_of_nil|done]|by intros x ?%elem_of_nil].
    + intros x. simpl. split; [lia|]. intros [?%elem_of_nil|[?%elem_of_nil|?%elem_of_nil]]; done.
    + by intros x ?%elem_of_nil.
  - split; [done|by exists 0|]. change (0 = Z.min limit 0). lia.
  - intros _ w' [Hg (m & Hm & Htm)]. split; [done|]. exists m. split; [lia|done].
Qed.
End allocation.

(** ** Waiting terminates

    What the loop needs of the others: while a transfer is under way ([busy]), a poll
    either finds it finished and reports its status, which is not negative, or finds
    nothing and leaves less [work] to do; finalising a page-out answers neither EAGAIN
    nor ENOMEM; and handling interrupts creates no work. *)
Record progress {E} `{!FrameMem E} `{!Pager E} (busy : E -> Prop) (work : E -> nat) : Prop := Progress {
  pg_poll e : busy e -> wp pageout_poll_complete (fun '(rc, _, _) e' =>
    0 ≤ rc \/ rc = - SOS_EAGAIN /\ busy e' /\ (work e' < work e)%nat) e;
  pg_finalise f s t e : table_inv t -> 0 < f < used t ->
    wp (vm_pageout_finalise f s) (fun rc _ => rc ≠ - SOS_EAGAIN /\ rc ≠ - ENOMEM) (t, e);
  pg_irqs t e : busy e -> table_inv t ->
    wp bootstrap_poll_irqs (fun _ w' => busy w'.2 /\ (work w'.2 ≤ work e)%nat) (t, e);
}.

Section termination.
Context {E : Type} `{EL : EnvLaws E} (busy : E -> Prop) (work : E -> nat) (HP : progress busy work).

Lemma process_one_progress (w : table * E) :
  good w -> busy w.2 ->
  wp pageout_process_one_completion (fun rc w' =>
    rc ≠ - SOS_EAGAIN /\ rc ≠ - ENOMEM \/ rc = - SOS_EAGAIN /\ busy w'.2 /\ (work w'.2 < work w.2)%nat) w.
Proof.
  intros Hw Hb. pose proof Hw as (Hi & Hok & Hcs). unfold pageout_process_one_completion. wp_line.
  eapply wpf_in_env; [apply wpf_conj; [by apply law_poll|by apply (pg_poll _ _ HP)]|].
  intros [[rc f] s] e' [[Hok' Hf] Hp]. cbn [fst snd].
  apply wpf_if; intros Hc; bd; [wp_line; destruct Hp; [unfold SOS_EAGAIN in *; lia|auto]|].
  destruct Hp as [Hp|[? _]]; [|done]. apply wpf_if; intros Hc'; bd.
  - wp_line. eapply wpf_in_env; [by apply (law_slot_free (used w.1))|]. intros ? e2 Hok2. cbn [fst snd] in *.
    wp_line. apply wpf_when; intros Hc2; bd; [|lia]. apply wpf_bind. eapply wpf_mono; [apply law_abort; try done; apply Hf; lia|].
    intros ? ? _. wp_line. left. unfold SOS_EAGAIN, ENOMEM. lia.
  - apply dec_stable in Hc'. subst rc. wp_line.
    eapply wpf_mono; [apply wpf_conj; [apply law_finalise; try done; by apply Hf|
      apply (pg_finalise _ _ HP); try done; by apply Hf]|].
    intros rc [t2 e2] [[Hst Hok2] Hpg]. cbn [fst snd] in *. apply wpf_if; intros Hr; bd; [|wp_line; by left].
    wp_line. eapply wpf_in_env; [by apply (law_slot_free (used w.1))|]. intros ? e3 ?. wp_line. by left.
Qed.

(** One round returns, or goes on with less work. *)
Lemma wait_round_progress n (w : table * E) :
  good w -> busy w.2 ->
  wp (wait_round n) (fun r w' => good w' /\
    match r with
    | inl rc => rc ≠ - SOS_EAGAIN /\ rc ≠ - ENOMEM
    | inr n' => busy w'.2 /\ (work w'.2 < work w.2)%nat
    end) w.
Proof.
  intros Hw Hb. unfold wait_round. wp_step.
  eapply wpf_mono; [apply wpf_conj; [by apply process_one_stable|by apply process_one_progress]|].
  intros rc w1 [[Hw1 _] Hp]. apply wpf_if; intros H0; bd; [wp_line; subst rc; done|].
  destruct Hp as [[H1 H2]|(-> & Hb1 & Hlt)].
  { rewrite bool_decide_true, bool_decide_false by done. cbn [andb negb]. by wp_line. }
  rewrite bool_decide_false by (by intros []). cbn [andb]. rewrite (bool_decide_false (- SOS_EAGAIN = - ENOMEM)) by done. cbn [andb].
  destruct w1 as [t1 e1]. pose proof Hw1 as (Hi1 & Hok1 & Hcs1). cbn [fst snd] in *. wp_step.
  eapply wpf_mono; [apply wpf_conj; [by apply irqs_stable|by apply (pg_irqs _ _ HP)]|].
  intros _ w2 [[Hw2 _] [Hb2 Hle2]]. wp_line. split; [done|]. split; [done|]. lia.
Qed.

Lemma wait_loop_returns fuel n (w : table * E) :
  good w -> busy w.2 -> (work w.2 < fuel)%nat ->
  wp (wait_loop fuel n) (fun rc w' => good w' /\ rc ≠ - SOS_EAGAIN /\ rc ≠ - ENOMEM) w.
Proof.
  revert n w. induction fuel as [|fuel IH]; intros n w Hw Hb Hf; [lia|]. cbn [wait_loop].
  wp_step. eapply wpf_mono; [by apply wait_round_progress|].
  intros [rc|n'] w' [Hw' Hr]; [by wp_line|]. destruct Hr as (Hb' & Hlt). apply IH; [done|done|lia].
Qed.
End termination.

(** ** The properties of the frame table *)

Section claims.
Context {E : Type} `{EL : EnvLaws E} (limit : Z) (fuel : nat).

(** The free list serves the request: the kernel asks and it has a frame, or it has more
    frames than the reserve. *)
Definition served (ow : frame_owner_t) (t : table) : bool :=
  bool_decide (0 < len (free_l t)) && (bool_decide (ow = FRAME_OWNER_KERNEL) || bool_decide (reserve_of (capacity t) < len (free_l t))).


(** When the free list can serve the request, because the kernel asks or
    because more than the reserve is free, [alloc_frame] returns its first
    frame at once, moves it to the end of the allocated list and touches
    neither the memory services nor the pager. *)
Theorem alloc_frame_from_free_list F A C r (ow : frame_owner_t) (fl : Z) t (e : E) :
  tbl_rep (r :: F) A C [] t ->
  ow = FRAME_OWNER_KERNEL \/ reserve_of (capacity t) < Z.of_nat (length (r :: F)) ->
  wp (alloc_frame limit fuel ow fl)
    (fun x w' => x = r /\ w'.2 = e /\ cscalars w'.1 = cscalars t /\
      tbl_rep F (A ++ [r]) C [] w'.1 /\ claimed ow fl r w'.1) (t, e).
Proof. apply alloc_from_free. Qed.

(** Before the pagefile is ready, a request that the free list cannot serve
    always returns: it mints the next unused entry of the table and hands it
    out, or it returns NULL_FRAME with every list as it was. *)
Theorem alloc_frame_before_paging F A C (ow : frame_owner_t) (fl : Z) t (e : E) :
  (forall e : E, pagefile_is_ready e = false) -> (0 < fuel)%nat ->
  tbl_rep F A C [] t -> env_ok (used t) e -> is_cspace (ft_cspace t) -> cap_ok limit t ->
  F = [] \/ ow ≠ FRAME_OWNER_KERNEL /\ Z.of_nat (length F) ≤ reserve_of (capacity t) ->
  wp (alloc_frame limit fuel ow fl) (fun x w' => good_cap limit w' /\
    (x = NULL_FRAME /\ tbl_rep F A C [] w'.1 \/
     x = Z.max 1 (used t) /\ used w'.1 = x + 1 /\ tbl_rep F (A ++ [x]) C [] w'.1 /\ claimed ow fl x w'.1))
    (t, e).
Proof. apply alloc_not_ready. Qed.

(** C35: while a page-out is under way, and the workers finish it after some number of
    polls ([progress]), [pageout_wait_blocking] returns after at most that many rounds, with
    the page-out done or with the error of the worker or of the finalisation, never with
    EAGAIN, and not with the ENOMEM that it would retry on; the table stays well formed. *)
Theorem pageout_wait_blocking_returns busy work (w : table * E) :
  progress busy work -> good w -> busy w.2 -> (work w.2 < fuel)%nat ->
  wp (pageout_wait_blocking fuel) (fun rc w' => good w' /\ rc ≠ - SOS_EAGAIN /\ rc ≠ - ENOMEM) w.
Proof. intros HP Hw Hb Hf. by apply (wait_loop_returns busy work HP). Qed.

(** [frame_table_init] on the zeroed table returns with a well-formed table
    whose free list holds the frames 1 to m, latest first, with m at most the
    seed limit, and nothing allocated; capacity stays within the limit. *)
Theorem frame_table_init_correct (cs vs : Z) (e : E) :
  is_cspace cs -> env_ok 0 e -> 2 ≤ limit < 2 ^ 57 ->
  wp (frame_table_init limit cs vs) (fun _ w' => good_cap limit w' /\
    exists m, 0 ≤ m ≤ seed_limit limit /\ tbl_rep (rev (seqZ 1 m)) [] [] [] w'.1) (frame_table0, e).
Proof. apply frame_table_init_spec. Qed.

(** Steps of the running system: the calls into the frame table that return. *)
Inductive sys_step (w w' : table * E) : Prop :=
| sys_alloc ow fl r : alloc_frame limit fuel ow fl w = Ok (r, w') -> sys_step w w'
| sys_evict rc : evict_one_frame fuel w = Ok (rc, w') -> sys_step w w'
| sys_complete rc : pageout_process_one_completion w = Ok (rc, w') -> sys_step w w'
| sys_api : api_step w.1 w'.1 -> w'.2 = w.2 -> sys_step w w'.

Lemma wpd_ok {S A} (m : M S A) Q s a s' : wpd m Q s -> m s = Ok (a, s') -> Q a s'.
Proof. unfold wpf. intros H Heq. by rewrite Heq in H. Qed.

Lemma sys_step_good w w' : good_cap limit w -> sys_step w w' -> good_cap limit w'.
Proof.
  intros Hw [ow fl r Hok|rc Hok|rc Hok|Hst He].
  - by apply (wpd_ok _ _ _ _ _ (alloc_frame_spec _ eq_refl limit fuel ow fl w Hw)) in Hok as [? _].
  - destruct Hw as [Hg Hc]. apply (wpd_ok _ _ _ _ _ (evict_one_stable _ eq_refl fuel w Hg)) in Hok.
    by apply (stable_cap limit w).
  - destruct Hw as [Hg Hc]. apply (wpd_ok _ _ _ _ _ (process_one_stable _ w Hg)) in Hok.
    by apply (stable_cap limit w).
  - destruct Hw as [Hg Hc]. apply (stable_cap limit w); [done|]. destruct w' as [t' e']. cbn [fst snd] in *. subst e'.
    apply stable_table; [done|]. apply api_step_inv; [by destruct Hg|done].
Qed.

(** C2: every state that the system reaches from [frame_table_init] by any
    sequence of allocations, evictions, completions and public calls is well
    formed: each frame on exactly one list, the ring within the allocated
    list, frames outside it owned by the kernel, links consistent. *)
Theorem reachable_well_formed (cs vs : Z) (e : E) (w w' : table * E) :
  is_cspace cs -> env_ok 0 e -> 2 ≤ limit < 2 ^ 57 ->
  frame_table_init limit cs vs (frame_table0, e) = Ok (tt, w) -> rtc sys_step w w' ->
  table_inv w'.1 /\ cap_ok limit w'.1.
Proof.
  intros Hcs Hok Hl Hinit Hst.
  assert (Hw : good_cap limit w).
  { by apply (wp_ok _ _ _ _ _ (frame_table_init_spec _ limit cs vs e Hcs Hok Hl)) in Hinit as [? _]. }
  clear Hinit. induction Hst as [w|w1 w2 w3 H1 _ IH]; [by destruct Hw as [[? _] ?]|].
  apply IH. by eapply sys_step_good.
Qed.

(** when no pagefile slot is available, [pageout_frame] reports the failure
    and puts the victim back on the ring, as its last member: no frame is lost
    to eviction, and no entry changes. *)
Theorem pageout_frame_no_slot F A C v t (e e' : E) :
  tbl_rep F A C [] t -> v ∈ C -> clock_is_eligible (entry t v) = true ->
  pagefile_alloc_slot v 0 0 e = Ok (PAGEFILE_INVALID_SLOT, e') ->
  wp (pageout_frame fuel v) (fun rc w' => rc = -1 /\ w'.2 = e' /\
    tbl_rep F A (filter (.≠ v) C ++ [v]) [] w'.1 /\ keeps t w'.1) (t, e).
Proof.
  intros Ht Hv Hel Hslot. pose proof (ck_range _ _ (tr_clock _ _ _ _ _ Ht) _ Hv) as Hr.
  destruct (tr_bounded _ _ _ _ _ Ht) as [Hb _]. unfold pageout_frame.
  rewrite bool_decide_eq_false_2 by (unfold NULL_FRAME; lia). wt_line.
  eapply wpf_in_table; [apply (wpf_frame_from_ref _ _ _ (fun r t' => r = v /\ t' = t)); [cbn [fst]; lia|done]|].
  intros ? ? [-> ->]. wt_line.
  eapply wpf_in_table; [by apply tbl_clock_remove|]. intros _ t1 [Ht1 Hk1]. cbn [fst snd] in *. wt_line.
  apply wpf_zoom. eapply wpf_ok; [exact Hslot|]. cbn [fst snd].
  rewrite bool_decide_eq_true_2 by done. wt_line.
  eapply wpf_in_table; [by apply tbl_clock_reconsider|]. intros _ t2 [Ht2 Hk2]. cbn [fst snd] in *. wt_line.
  rewrite (attrs_eligible _ _ (kp_attrs _ _ Hk1 v)), Hel in Ht2.
  rewrite decide_False in Ht2 by (rewrite list_elem_of_filter; naive_solver).
  split_and!; [done|done|done|by etrans].
Qed.
End claims.
