(* ===== verification/FrameEnv.v ===== *)
(** * Two environments of the frame table

    [Script] answers the calls of [alloc_frame_at] from an arbitrary script and
    records them, to state which resources each path keeps and returns.
    [Demo] is a small pager and memory that satisfies [EnvLaws]; it shows that
    the assumptions of [FrameSafety] can be met and runs the model. *)

From S2P Require Import Prelude Dll FrameList Clock Victim FrameTable FrameAlloc FrameSafety.

Module Script.
Inductive event :=
| UtAlloc (ut : Z)
| UtFree (ut : Z)
| SlotAlloc (c : Z)
| SlotFree (c : Z)
| Retype (c err : Z)
| Delete (c : Z)
| MapFrame (c err : Z).

(** The answers still to give, and the calls so far, latest first. *)
Definition script : Type := list Z * list event.

Definition answer : M script Z := fun '(l, log) =>
  match l with
  | [] => Ok (0, ([], log))
  | a :: l => Ok (a, (l, log))
  end.
Definition record (ev : event) : M script unit := modify (fun '(l, log) => (l, ev :: log)).

#[export] Instance script_mem : FrameMem script := {|
  ut_alloc_4k_untyped :=
    a ← answer; if bool_decide (a = 0) then mret None else record (UtAlloc a);; mret (Some a);
  ut_cap := fun ut => mret ut;
  ut_free := fun ut => record (UtFree ut);
  cspace_alloc_slot := fun _ =>
    a ← answer; if bool_decide (a = 0) then mret 0 else record (SlotAlloc a);; mret a;
  cspace_free_slot := fun _ c => record (SlotFree c);
  cspace_untyped_retype := fun _ _ c _ _ => a ← answer; record (Retype c a);; mret a;
  cspace_delete := fun _ c => record (Delete c);; mret 0;
  map_frame := fun _ c _ _ _ _ => a ← answer; record (MapFrame c a);; mret a;
|}.

(** Untypeds, slots and capabilities in slots that are held after the calls. *)
Record holding := Holding { h_uts : list Z; h_slots : list Z; h_caps : list Z; h_mapped : list Z }.
Definition drop (x : Z) (l : list Z) : list Z := filter (.≠ x) l.
Definition after (ev : event) (h : holding) : holding :=
  match ev with
  | UtAlloc ut => Holding (ut :: h_uts h) (h_slots h) (h_caps h) (h_mapped h)
  | UtFree ut => Holding (drop ut (h_uts h)) (h_slots h) (h_caps h) (h_mapped h)
  | SlotAlloc c => Holding (h_uts h) (c :: h_slots h) (h_caps h) (h_mapped h)
  | SlotFree c => Holding (h_uts h) (drop c (h_slots h)) (h_caps h) (h_mapped h)
  | Retype c err =>
    Holding (h_uts h) (h_slots h) (if bool_decide (err = 0) then c :: h_caps h else h_caps h) (h_mapped h)
  | Delete c => Holding (h_uts h) (h_slots h) (drop c (h_caps h)) (drop c (h_mapped h))
  | MapFrame c err =>
    Holding (h_uts h) (h_slots h) (h_caps h) (if bool_decide (err = 0) then c :: h_mapped h else h_mapped h)
  end.
Definition held (log : list event) : holding := foldr after (Holding [] [] [] []) log.

Lemma drop_same x : drop x [x] = [].
Proof. unfold drop. rewrite filter_cons_False; [done|]. intros H. by apply H. Qed.

(** An answer can be anything. *)
Lemma wp_answer l log (Q : Z -> script -> Prop) :
  (forall a l', Q a (l', log)) -> wp answer Q (l, log).
Proof. intros HQ. destruct l; apply HQ. Qed.
Lemma wp_record ev l log (Q : unit -> script -> Prop) : Q tt (l, ev :: log) -> wp (record ev) Q (l, log).
Proof. done. Qed.

Ltac script_step :=
  repeat (lazymatch goal with
  | |- wpf _ (in_env _) _ (_, _) => apply wpf_zoom; cbn [fst snd]
  | |- wpf _ (in_table (gets _)) _ _ => apply wpf_table_gets
  | |- wpf _ (mbind _ _) _ _ => apply wpf_bind
  | |- wpf _ (mret _) _ _ => apply wpf_ret
  | |- wpf _ answer _ _ => apply wp_answer; intros ? ?
  | |- wpf _ (record _) _ _ => apply wp_record
  | |- wpf _ (if bool_decide _ then _ else _) _ _ => apply wpf_if; intros ?; bd
  end; cbv beta; cbn [ut_alloc_4k_untyped ut_cap ut_free cspace_alloc_slot cspace_free_slot
    cspace_untyped_retype cspace_delete map_frame script_mem fst snd]).

(** Whatever the memory services answer, [alloc_frame_at] returns a page that
    is mapped, with its untyped and its slot, or it returns the null capability
    and has given back everything it acquired: the untyped, the slot, the
    capability in the slot and the mapping. *)
Theorem alloc_frame_at_keeps_nothing (va : Z) (t : table) (answers : list Z) :
  wp (alloc_frame_at va) (fun c '(t', (_, log)) => t' = t /\
    (c = seL4_CapNull /\ held log = Holding [] [] [] [] \/
     c ≠ seL4_CapNull /\ exists ut, held log = Holding [ut] [c] [c] [c])) (t, (answers, [])).
Proof.
  unfold alloc_frame_at. script_step; split; try done; unfold held; cbn [foldr after h_uts h_slots h_caps h_mapped];
    repeat case_bool_decide; try done; rewrite ?drop_same; auto; right; eauto.
Qed.
End Script.

Module Demo.

(** Fresh handles, the transfers under way and the polls until the first of
    them is done; whether the pagefile is ready is fixed. *)
Record state (ready : bool) := State {
  d_next : Z;
  d_queue : list (Z * Z);
  d_delay : nat;
}.

Arguments State {ready} _ _ _.
Arguments d_next {ready} _.
Arguments d_queue {ready} _.
Arguments d_delay {ready} _.

Section demo.
Context {ready : bool}.

Definition fresh_handle : M (state ready) Z := fun s =>
  Ok (d_next s, State (d_next s + 1) (d_queue s) (d_delay s)).

(** A slot that cannot be written. *)
Definition bad_slot : Z := 99.
Definition poll : M (state ready) (Z * Z * Z) := fun s =>
  match d_queue s, d_delay s with
  | [], _ => Ok ((- SOS_EAGAIN, 0, 0), s)
  | q, S n => Ok ((- SOS_EAGAIN, 0, 0), State (d_next s) q n)
  | (f, sl) :: q, O => Ok ((if bool_decide (sl = bad_slot) then 5 else 0, f, sl), State (d_next s) q 0)
  end.

#[export] Instance demo_mem : FrameMem (state ready) := {|
  ut_alloc_4k_untyped := h ← fresh_handle; mret (Some h);
  ut_cap := fun ut => mret ut;
  ut_free := fun _ => mret tt;
  cspace_alloc_slot := fun _ => fresh_handle;
  cspace_free_slot := fun _ _ => mret tt;
  cspace_untyped_retype := fun _ _ _ _ _ => mret 0;
  cspace_delete := fun _ _ => mret 0;
  map_frame := fun _ _ _ _ _ _ => mret 0;
|}.

#[export] Instance demo_pager : Pager (state ready) := {|
  pagefile_is_ready := fun _ => ready;
  pagefile_alloc_slot := fun v _ _ => s ← get; mret (if bool_decide (d_next s < 1000) then v else 0);
  pagefile_free_slot := fun _ => mret tt;
  pageout_submit := fun sl f =>
    modify (fun s => State (d_next s) (d_queue s ++ [(f, sl)]) 2);; mret 0;
  pageout_poll_complete := poll;
  vm_pageout_prepare := fun f sl =>
    b ← in_table (frame_bind_slot f sl); mret (if (b : bool) then 0 else -16);
  vm_pageout_finalise := fun f _ =>
    in_table (free_frame f);; in_table (frame_unbind_slot f);; mret 0;
  vm_pageout_abort := fun f _ => in_table (frame_unbind_slot f);; mret 0;
  morecore_free_bytes := fun _ => 2 ^ 20;
  heap_reserve_release := mret 0;
  bootstrap_poll_irqs := mret false;
|}.

Definition queue_ok (u : Z) (s : state ready) : Prop := Forall (fun p => 0 < p.1 < u) (d_queue s).

Lemma unbind_step f t (e : state ready) :
  table_inv t -> 0 < f < used t ->
  wp (in_table (frame_unbind_slot f);; mret 0)
    (fun rc w' => rc = 0 /\ api_steps t w'.1 /\ w'.2 = e) (t, e).
Proof.
  intros (F & A & C & Ht) Hf. destruct (tr_bounded _ _ _ _ _ Ht) as [Hb _].
  destruct (wp_inv (frame_unbind_slot f) (fun _ _ => True) t) as ([] & t1 & H1 & _).
  { by apply on_entry_spec; [lia|..]. }
  wp_step. apply wpf_zoom. eapply wpf_ok; [exact H1|]. wp_line. split_and!; [done| |done].
  apply rtc_once. apply (step_unbind _ _ f); [lia|done].
Qed.

Lemma finalise_step f t (e : state ready) :
  table_inv t -> 0 < f < used t ->
  wp (in_table (free_frame f);; in_table (frame_unbind_slot f);; mret 0)
    (fun rc w' => rc = 0 /\ api_steps t w'.1 /\ w'.2 = e) (t, e).
Proof.
  intros Hi Hf. pose proof Hi as (F & A & C & Ht). destruct (tr_bounded _ _ _ _ _ Ht) as [Hb _].
  destruct (wp_inv _ _ _ (free_frame_spec _ F A C f t Ht ltac:(lia))) as ([] & t1 & H1 & _).
  assert (Hst : api_step t t1) by (apply (step_free _ _ f); [lia|done]).
  destruct (api_step_inv _ _ Hi Hst) as (Hi1 & Hs & _). injection Hs as E1 E2 E3 E4 E5.
  wp_step. apply wpf_zoom. eapply wpf_ok; [exact H1|].
  eapply wpf_mono; [apply (unbind_step f); [done|by rewrite E2]|].
  intros ? w' (-> & Hst' & He). split_and!; [done|by eapply rtc_l|done].
Qed.

Lemma prepare_step f sl t (e : state ready) :
  table_inv t -> 0 < f < used t ->
  wp (b ← in_table (frame_bind_slot f sl); mret (if (b : bool) then 0 else -16))
    (fun _ w' => api_steps t w'.1 /\ w'.2 = e) (t, e).
Proof.
  intros (F & A & C & Ht) Hf. destruct (tr_bounded _ _ _ _ _ Ht) as [Hb _].
  destruct (wp_inv _ _ _ (frame_bind_slot_spec _ f sl t ltac:(lia))) as (b & t1 & H1 & _).
  wp_step. apply wpf_zoom. eapply wpf_ok; [exact H1|]. wp_line. split; [|done].
  apply rtc_once. apply (step_bind _ _ f sl b); [lia|done].
Qed.

#[export] Instance demo_laws : EnvLaws (state ready).
Proof.
  refine {| env_ok := queue_ok; holds_ut := fun _ _ => True; holds_slot := fun _ _ => True;
            is_cspace := fun _ => True |}; try done.
  - intros u u' e Hu. intros Hok. eapply Forall_impl; [exact Hok|]. intros [f sl]; simpl. lia.
  - intros u sl v e Hok Hv. unfold wpf, queue_ok in *. simpl. apply Forall_app. split; [done|].
    by apply Forall_singleton.
  - intros u e Hok. unfold wpf, pageout_poll_complete; simpl. unfold poll, queue_ok in *.
    destruct (d_queue e) as [|[f sl] q] eqn:Hq; [rewrite Hq; split; [done|]; unfold SOS_EAGAIN; lia|].
    destruct (d_delay e); simpl.
    + apply Forall_cons in Hok as [? ?]. done.
    + split; [done|]. unfold SOS_EAGAIN; lia.
  - intros f sl t e Hi Hok Hf. eapply wpf_mono; [by apply (prepare_step f sl t e)|].
    intros ? w' [? ->]. done.
  - intros f sl t e Hi Hok Hf. eapply wpf_mono; [by apply (finalise_step f t e)|].
    intros ? w' (_ & ? & ->). done.
  - intros f sl t e Hi Hok Hf. eapply wpf_mono; [by apply (unbind_step f t e)|].
    intros ? w' (_ & ? & ->). done.
Defined.

Lemma demo_progress : progress (fun s : state ready => d_queue s ≠ []) d_delay.
Proof.
  split; try done.
  - intros e Hb. unfold wpf; simpl. unfold poll. destruct (d_queue e) as [|[f sl] q] eqn:Hq; [done|].
    destruct (d_delay e) eqn:Hd; simpl; [left; case_bool_decide; lia|]. right. split; [done|]. split; [done|lia].
  - intros f sl t e Hi Hf. eapply wpf_mono; [by apply (finalise_step f t e)|].
    by intros ? w' (-> & _ & _).
Qed.
End demo.

(** The table as [frame_table_init] leaves it, for a limit. *)
Definition boot (ready : bool) (limit : Z) : table * state ready :=
  match frame_table_init limit 1 2 (frame_table0, State 1 [] 0) with
  | Ok (_, w) => w
  | Fault _ => (frame_table0, State 1 [] 0)
  end.

Lemma boot_good ready limit : 2 ≤ limit < 2 ^ 57 -> good_cap limit (boot ready limit).
Proof.
  intros Hl. unfold boot.
  pose proof (frame_table_init_spec (fun _ => False) limit 1 2 (State (ready := ready) 1 [] 0) I
    (Forall_nil_2 _) Hl) as Hi.
  unfold wpf in Hi. destruct (frame_table_init _ _ _ _) as [[u w]|f]; [by destruct Hi|done].
Qed.


(** The free list after booting, from its length. *)
Lemma boot_rep ready limit m :
  2 ≤ limit < 2 ^ 57 -> len (free_l (boot ready limit).1) = m ->
  tbl_rep (rev (seqZ 1 m)) [] [] [] (boot ready limit).1.
Proof.
  intros Hl. unfold boot.
  pose proof (frame_table_init_spec (fun _ => False) limit 1 2 (State (ready := ready) 1 [] 0) I
    (Forall_nil_2 _) Hl) as Hi.
  unfold wpf in Hi. destruct (frame_table_init _ _ _ _) as [[u w]|f]; [|destruct Hi].
  destruct Hi as (_ & k & Hk & Ht). pose proof (lr_len _ _ _ (tr_free _ _ _ _ _ Ht)) as Hlen.
  cbn [get_list] in Hlen. rewrite length_rev, length_seqZ in Hlen. intros Hm.
  by replace m with k by lia.
Qed.

Lemma boot8_rep : tbl_rep [4; 3; 2; 1] [] [] [] (boot false 8).1.
Proof. apply (boot_rep false 8 4); [lia|by vm_compute]. Qed.

Lemma boot8_env : env_ok (used (boot false 8).1) (boot false 8).2.
Proof. apply (boot_good false 8 ltac:(lia)). Qed.

Lemma boot8_cap : cap_ok 8 (boot false 8).1.
Proof. apply (boot_good false 8 ltac:(lia)). Qed.

Lemma boot8_reserved :
  [4; 3; 2; 1] = [] \/ FRAME_OWNER_USER ≠ FRAME_OWNER_KERNEL /\
    Z.of_nat (length [4; 3; 2; 1]) ≤ reserve_of (capacity (boot false 8).1).
Proof. right. split; [discriminate|]. vm_compute. discriminate. Qed.

Lemma alloc_frame_from_free_list_witness :
  exists w', alloc_frame 8 1 FRAME_OWNER_KERNEL 0 (boot false 8) = Ok (4, w') /\
    tbl_rep [3; 2; 1] [4] [] [] w'.1.
Proof.
  rewrite (surjective_pairing (boot false 8)).
  destruct (wpf_value _ _ _ _ 4 (alloc_frame_from_free_list 8 1 [3; 2; 1] [] [] 4 FRAME_OWNER_KERNEL 0
    (boot false 8).1 (boot false 8).2 boot8_rep (or_introl eq_refl))) as (w' & Heq & _ & _ & _ & Ht & _).
  - by vm_compute.
  - exists w'. split; [exact Heq|exact Ht].
Defined.

Lemma alloc_frame_before_paging_witness :
  exists w', alloc_frame 8 1 FRAME_OWNER_USER 1 (boot false 8) = Ok (5, w') /\ used w'.1 = 6.
Proof.
  rewrite (surjective_pairing (boot false 8)).
  pose proof (alloc_frame_before_paging (EL := demo_laws) 8 1 [4; 3; 2; 1] [] [] FRAME_OWNER_USER 1
    (boot false 8).1 (boot false 8).2 (fun _ => eq_refl) Nat.lt_0_1 boot8_rep boot8_env I boot8_cap
    boot8_reserved) as Hw.
  destruct (wpf_value _ _ _ _ 5 Hw) as (w' & Heq & _ & [[? _]|(_ & Hu & _ & _)]).
  - by vm_compute.
  - discriminate.
  - exists w'. split; [exact Heq|]. rewrite Hu. reflexivity.
Defined.

(** One transfer under way that needs two more polls, to a slot that can be written or not. *)
Definition waiting (slot : Z) : table * state true := ((boot true 8).1, State 100 [(1, slot)] 2).

Lemma good_queue ready (w : table * state ready) (e : state ready) :
  good w -> queue_ok (used w.1) e -> good (w.1, e).
Proof. intros (Hi & _ & Hc) Hq. done. Qed.

Lemma waiting_queue slot : queue_ok (used (boot true 8).1) (State (ready := true) 100 [(1, slot)] 2).
Proof. apply Forall_singleton. cbn [fst]. split; [done|]. by vm_compute. Qed.

Lemma waiting_good slot : good (waiting slot).
Proof. exact (good_queue _ _ _ (proj1 (boot_good true 8 ltac:(lia))) (waiting_queue slot)). Qed.

(** Both ends: the page-out is done, and the worker reports an error (5 is EIO). *)
Lemma pageout_wait_blocking_returns_witness :
  (exists w', pageout_wait_blocking 3 (waiting 1) = Ok (0, w') /\ good w') /\
  (exists w', pageout_wait_blocking 3 (waiting bad_slot) = Ok (5, w') /\ good w' /\ 5 ≠ - SOS_EAGAIN).
Proof.
  split.
  - destruct (wpf_value _ _ _ _ 0 (pageout_wait_blocking_returns 3 _ _ (waiting 1) demo_progress (waiting_good 1)
      ltac:(discriminate) ltac:(simpl; lia))) as (w' & Heq & Hg & _); [by vm_compute|]. exists w'. split; [exact Heq|exact Hg].
  - destruct (wpf_value _ _ _ _ 5 (pageout_wait_blocking_returns 3 _ _ (waiting bad_slot) demo_progress (waiting_good bad_slot)
      ltac:(discriminate) ltac:(simpl; lia))) as (w' & Heq & Hg & Hrc & _); [by vm_compute|].
    exists w'. split; [exact Heq|]. split; [exact Hg|exact Hrc].
Defined.

Lemma frame_table_init_correct_witness :
  exists w', frame_table_init 8 1 2 (frame_table0, State (ready := true) 1 [] 0) = Ok (tt, w') /\
    good_cap 8 w'.
Proof.
  destruct (wpf_value _ _ _ _ tt (frame_table_init_correct (EL := demo_laws) 8 1 2 (State (ready := true) 1 [] 0) I
    (Forall_nil_2 _) ltac:(lia))) as (w' & Heq & Hg & _).
  - by vm_compute.
  - exists w'. split; [exact Heq|exact Hg].
Defined.

(** Boot, then three user frames enter the ring, then the kernel asks until the
    ring has been evicted. *)
Definition user_page : M (table * state true) Z :=
  r ← alloc_frame 8 200 FRAME_OWNER_USER FRAME_FLAG_EVICTABLE;
  in_table (frame_clock_consider r);;
  mret r.
Definition kernel_page : M (table * state true) Z := alloc_frame 8 200 FRAME_OWNER_KERNEL 0.

Example eviction_run :
  value_of ((a ← user_page; b ← user_page; c ← user_page; d ← kernel_page; e ← kernel_page;
    f ← kernel_page; g ← kernel_page; h ← kernel_page; i ← kernel_page; j ← kernel_page;
    mret [a; b; c; d; e; f; g; h; i; j]) (boot true 8)) = Some [5; 6; 7; 6; 5; 4; 3; 2; 1; 7].
Proof. by vm_compute. Qed.

Lemma reachable_well_formed_witness :
  exists w', rtc (sys_step 8 200) (boot true 8) w' /\ table_inv w'.1 /\ cap_ok 8 w'.1.
Proof.
  destruct (alloc_frame 8 200 FRAME_OWNER_USER 1 (boot true 8)) as [[r w']|f] eqn:Heq.
  2: { apply (f_equal value_of) in Heq. vm_compute in Heq. discriminate. }
  exists w'. assert (Hst : rtc (sys_step 8 200) (boot true 8) w').
  { apply rtc_once. exact (sys_alloc _ _ _ _ FRAME_OWNER_USER 1 r Heq). }
  split; [exact Hst|].
  apply (reachable_well_formed 8 200 1 2 (State 1 [] 0) (boot true 8)); [exact I|apply Forall_nil_2|lia| |exact Hst].
  by vm_compute.
Defined.

(** A user page of a larger table, on the ring. *)
Lemma ring_of_one : exists t, tbl_rep (rev (seqZ 1 63)) [64] [64] [] t /\
  clock_is_eligible (entry t 64) = true.
Proof.
  pose proof (boot_rep false 128 64 ltac:(lia) ltac:(by vm_compute)) as Hb.
  change (rev (seqZ 1 64)) with (64 :: rev (seqZ 1 63)) in Hb.
  assert (Hr : FRAME_OWNER_USER = FRAME_OWNER_KERNEL \/ reserve_of (capacity (boot false 128).1) <
    Z.of_nat (length (64 :: rev (seqZ 1 63)))) by (right; by vm_compute).
  destruct (wp_inv _ _ _ (alloc_from_free _ 128 1 _ _ _ _ FRAME_OWNER_USER 1 _ (boot false 128).2 Hb Hr))
    as (x & [t1 e1] & _ & -> & _ & _ & Ht1 & Hc1). cbn [fst snd] in *.
  assert (Hel : clock_is_eligible (entry t1 64) = true)
    by (unfold clock_is_eligible; by rewrite (cl_owner _ _ _ _ Hc1), (cl_flags _ _ _ _ Hc1)).
  destruct (wp_inv _ _ _ (tbl_clock_reconsider _ _ _ _ 64 t1 Ht1)) as ([] & t2 & _ & Ht2 & Hk).
  rewrite Hel, decide_False in Ht2 by (by intros ?%elem_of_nil).
  exists t2. split; [exact Ht2|]. by rewrite (attrs_eligible _ _ (kp_attrs _ _ Hk 64)).
Qed.

Lemma pageout_frame_no_slot_witness :
  exists t w', pageout_frame 1 64 (t, State (ready := true) 1000 [] 0) = Ok (-1, w') /\
    tbl_rep (rev (seqZ 1 63)) [64] [64] [] w'.1.
Proof.
  destruct ring_of_one as (t & Ht & Hel). exists t.
  destruct (wp_inv _ _ _ (pageout_frame_no_slot 1 _ _ _ 64 t (State (ready := true) 1000 [] 0)
    (State 1000 [] 0) Ht ltac:(set_solver) Hel eq_refl)) as (rc & w' & Heq & -> & _ & Ht' & _).
  exists w'. split; [exact Heq|exact Ht'].
Defined.

(** Freeing the page again, and freeing it twice. *)
Lemma free_frame_correct_witness :
  exists t t', free_frame 64 t = Ok (tt, t') /\ tbl_rep (64 :: rev (seqZ 1 63)) [] [] [] t'.
Proof.
  destruct ring_of_one as (t & Ht & _). exists t.
  assert (Hr : 0 ≤ 64 < capacity t \/ 64 = 0).
  { destruct (tr_bounded _ _ _ _ _ Ht) as [[_ Hu] _].
    assert (0 < 64 < used t) by (apply (tr_cover _ _ _ _ _ Ht); set_solver). lia. }
  destruct (wp_inv _ _ _ (free_frame_correct _ _ _ 64 t Ht Hr)) as ([] & t' & Heq & Ht').
  exists t'. split; [exact Heq|]. rewrite decide_True in Ht' by set_solver. exact (proj1 Ht').
Defined.
End Demo.
