(* ===== verification/Pqueue.v ===== *)
(** * The priority queue

    Models [libpqueue/src/pqueue.c]: a binary heap in an array whose element 0
    is not used, with the callbacks that read and write the priority and the
    position of an element.  The comparison [cmppri] is a parameter: it says
    that its first argument ranks strictly below its second.  Proves that
    every operation keeps the heap and implements a finite set of elements. *)

From Stdlib Require Import Sorted.
From S2P Require Import Prelude.

Module Pqueue.

(** The fields behind the callbacks. *)
Record node := Node { pri : Z; pos : Z }.

(** The [setpos] callback: [Store] writes the position into the element,
    [Ignore] is the [set_pos] of [pqueue_print], which does nothing. *)
Inductive setpos_f := Store | Ignore.

(** [pqueue_t] together with the elements.  Pointers are handles; NULL is 0. *)
Record pqueue_t := Q {
  qsize : Z;
  avail : Z;
  step : Z;
  d : gmap Z Z;
  setpos_cb : setpos_f;
  nodes : gmap Z node;
}.

Definition set_d (v : gmap Z Z) (q : pqueue_t) : pqueue_t :=
  Q (qsize q) (avail q) (step q) v (setpos_cb q) (nodes q).
Definition set_qsize (v : Z) (q : pqueue_t) : pqueue_t :=
  Q v (avail q) (step q) (d q) (setpos_cb q) (nodes q).
Definition set_avail (v : Z) (q : pqueue_t) : pqueue_t :=
  Q (qsize q) v (step q) (d q) (setpos_cb q) (nodes q).
Definition set_nodes (v : gmap Z node) (q : pqueue_t) : pqueue_t :=
  Q (qsize q) (avail q) (step q) (d q) (setpos_cb q) v.

Definition left (i : Z) : Z := Z.shiftl i 1.
Definition right (i : Z) : Z := Z.shiftl i 1 + 1.
Definition parent (i : Z) : Z := Z.shiftr i 1.

(** Array accesses are checked against the allocation; its bytes are whatever
    [malloc] left until written, here 0. *)
Definition arr (q : pqueue_t) (i : Z) : Z := default 0 (d q !! i).
Definition rd (i : Z) : M pqueue_t Z :=
  q ← get;
  if bool_decide (0 ≤ i < avail q) then mret (arr q i) else throw OutOfBounds.
Definition wr (i x : Z) : M pqueue_t unit :=
  q ← get;
  if bool_decide (0 ≤ i < avail q) then put (set_d (<[i := x]> (d q)) q) else throw OutOfBounds.

Definition getpri (x : Z) : M pqueue_t Z := q ← get; n ← deref (nodes q !! x); mret (pri n).
Definition getpos (x : Z) : M pqueue_t Z := q ← get; n ← deref (nodes q !! x); mret (pos n).
Definition setpri (x p : Z) : M pqueue_t unit :=
  q ← get; n ← deref (nodes q !! x); put (set_nodes (<[x := Node p (pos n)]> (nodes q)) q).
Definition setpos (x i : Z) : M pqueue_t unit :=
  q ← get;
  match setpos_cb q with
  | Store => n ← deref (nodes q !! x); put (set_nodes (<[x := Node (pri n) i]> (nodes q)) q)
  | Ignore => mret tt
  end.

Section ops.
Context (cmppri : Z -> Z -> bool).

(** [malloc1] and [malloc2] say whether the two allocations succeed. *)
Definition pqueue_init (n : Z) (cb : setpos_f) (elements : gmap Z node) (malloc1 malloc2 : bool)
    : option pqueue_t :=
  if negb malloc1 then None
  else if negb malloc2 then None
  else Some (Q 1 (n + 1) (n + 1) ∅ cb elements).

Definition pqueue_size : M pqueue_t Z := gets (fun q => qsize q - 1).

(** The loop of [bubble_up]; [i] at least halves, so [i] rounds are enough. *)
Fixpoint bubble_loop (fuel : nat) (i moving_pri : Z) : M pqueue_t Z :=
  match fuel with
  | O => throw OutOfFuel
  | S fuel =>
    c ← (if bool_decide (i > 1) then
           x ← rd (parent i);
           p ← getpri x;
           mret (cmppri p moving_pri)
         else mret false);
    if (c : bool) then
      x ← rd (parent i);
      wr i x;;
      y ← rd i;
      setpos y i;;
      bubble_loop fuel (parent i) moving_pri
    else mret i
  end.

Definition bubble_up (i : Z) : M pqueue_t unit :=
  moving_node ← rd i;
  moving_pri ← getpri moving_node;
  j ← bubble_loop (S (Z.to_nat i)) i moving_pri;
  wr j moving_node;;
  setpos moving_node j.

Definition maxchild (i : Z) : M pqueue_t Z :=
  n ← gets qsize;
  let child_node := left i in
  if bool_decide (n ≤ child_node) then mret 0
  else
    c ← (if bool_decide (child_node + 1 < n) then
           x ← rd child_node;
           p ← getpri x;
           y ← rd (child_node + 1);
           p' ← getpri y;
           mret (cmppri p p')
         else mret false);
    mret (if (c : bool) then child_node + 1 else child_node).

(** The loop of [percolate_down]; [i] grows up to the size. *)
Fixpoint percolate_loop (fuel : nat) (i moving_pri : Z) : M pqueue_t Z :=
  match fuel with
  | O => throw OutOfFuel
  | S fuel =>
    child_node ← maxchild i;
    c ← (if bool_decide (child_node ≠ 0) then
           x ← rd child_node;
           p ← getpri x;
           mret (cmppri moving_pri p)
         else mret false);
    if (c : bool) then
      x ← rd child_node;
      wr i x;;
      y ← rd i;
      setpos y i;;
      percolate_loop fuel child_node moving_pri
    else mret i
  end.

Definition percolate_down (i : Z) : M pqueue_t unit :=
  moving_node ← rd i;
  moving_pri ← getpri moving_node;
  n ← gets qsize;
  j ← percolate_loop (S (Z.to_nat n)) i moving_pri;
  wr j moving_node;;
  setpos moving_node j.

(** [realloc] says whether growing the array succeeds. *)
Definition pqueue_insert (x : Z) (realloc : bool) : M pqueue_t Z :=
  q ← get;
  if bool_decide (avail q ≤ qsize q) && negb realloc then mret 1
  else
    when (bool_decide (avail q ≤ qsize q)) (modify (set_avail (qsize q + step q)));;
    i ← gets qsize;
    modify (set_qsize (i + 1));;
    wr i x;;
    bubble_up i;;
    mret 0.

Definition pqueue_change_priority (new_pri x : Z) : M pqueue_t unit :=
  old_pri ← getpri x;
  setpri x new_pri;;
  posn ← getpos x;
  if cmppri old_pri new_pri then bubble_up posn else percolate_down posn.

Definition pqueue_remove (x : Z) : M pqueue_t Z :=
  posn ← getpos x;
  n ← gets qsize;
  modify (set_qsize (n - 1));;
  y ← rd (n - 1);
  wr posn y;;
  p ← getpri x;
  z ← rd posn;
  p' ← getpri z;
  (if cmppri p p' then bubble_up posn else percolate_down posn);;
  mret 0.

(** [None] is the NULL of an empty queue. *)
Definition pqueue_pop : M pqueue_t (option Z) :=
  n ← gets qsize;
  if bool_decide (n = 1) then mret None
  else
    head ← rd 1;
    modify (set_qsize (n - 1));;
    y ← rd (n - 1);
    wr 1 y;;
    percolate_down 1;;
    mret (Some head).

Definition pqueue_peek : M pqueue_t (option Z) :=
  n ← gets qsize;
  if bool_decide (n = 1) then mret None else x ← rd 1; mret (Some x).

(** [pqueue_print] pops a copy of the queue until it is empty; the result is
    what it prints, in order.  A NULL element would end the loop. *)
Fixpoint drain (fuel : nat) : M pqueue_t (list Z) :=
  match fuel with
  | O => throw OutOfFuel
  | S fuel =>
    e ← pqueue_pop;
    match e with
    | None => mret []
    | Some x => if bool_decide (x = 0) then mret [] else l ← drain fuel; mret (x :: l)
    end
  end.

Definition pqueue_print (malloc1 malloc2 : bool) (q : pqueue_t) : outcome (list Z) :=
  match pqueue_init (qsize q) Ignore (nodes q) malloc1 malloc2 with
  | None => Fault NullDeref
  | Some dup =>
    let dup := set_d (d q) (Q (qsize q) (avail q) (step q) (d dup) (setpos_cb dup) (nodes dup)) in
    match drain (Z.to_nat (qsize q)) dup with
    | Ok (l, _) => Ok l
    | Fault f => Fault f
    end
  end.

(** One of the two tests of [subtree_is_valid], for the child [c] of [p]. *)
Definition child_is_valid (valid : Z -> M pqueue_t bool) (p c : Z) : M pqueue_t bool :=
  n ← gets qsize;
  if bool_decide (c < n) then
    x ← rd p;
    px ← getpri x;
    y ← rd c;
    py ← getpri y;
    if cmppri px py then mret false else valid c
  else mret true.

(** The recursion descends; the size bounds its depth. *)
Fixpoint subtree_is_valid (fuel : nat) (p : Z) : M pqueue_t bool :=
  match fuel with
  | O => throw OutOfFuel
  | S fuel =>
    l ← child_is_valid (subtree_is_valid fuel) p (left p);
    if (l : bool) then child_is_valid (subtree_is_valid fuel) p (right p) else mret false
  end.

Definition pqueue_is_valid : M pqueue_t bool :=
  n ← gets qsize;
  subtree_is_valid (S (Z.to_nat n)) 1.
End ops.


(** ** Heap order on a function from indices to elements *)

Lemma parent_div i : parent i = i / 2.
Proof. unfold parent. by rewrite Z.shiftr_div_pow2. Qed.
Lemma left_mul i : left i = 2 * i.
Proof. unfold left. rewrite Z.shiftl_mul_pow2 by lia. lia. Qed.
Lemma right_mul i : right i = 2 * i + 1.
Proof. unfold right. rewrite Z.shiftl_mul_pow2 by lia. lia. Qed.

(** Exchange the values at two indices. *)
Definition swap (D : Z -> Z) (i j : Z) : Z -> Z := fun k =>
  if decide (k = i) then D j else if decide (k = j) then D i else D k.

(** [y] is at one of the indices in use. *)
Definition mem (n : Z) (D : Z -> Z) (y : Z) : Prop := exists k, 1 ≤ k < n /\ D k = y.
Definition inj_on (n : Z) (D : Z -> Z) : Prop :=
  forall k l, 1 ≤ k < n -> 1 ≤ l < n -> D k = D l -> k = l.

Lemma mem_swap n D i j y : 1 ≤ i < n -> 1 ≤ j < n -> mem n (swap D i j) y <-> mem n D y.
Proof.
  intros Hi Hj. unfold mem, swap. split; intros (k & Hk & Hy).
  - repeat case_decide; [exists j|exists i|exists k]; done.
  - destruct (decide (k = i)) as [->|]; [exists j|destruct (decide (k = j)) as [->|]; [exists i|exists k]];
      (split; [done|]); repeat case_decide; congruence.
Qed.

Lemma inj_swap n D i j : 1 ≤ i < n -> 1 ≤ j < n -> inj_on n D -> inj_on n (swap D i j).
Proof.
  intros Hi Hj H k l Hk Hl. unfold swap. repeat case_decide; subst; intros E; try done;
    apply H in E; lia.
Qed.

Section order.
Context (cmppri : Z -> Z -> bool).
(** The comparison is a strict weak order. *)
Context (asym : forall a b, cmppri a b = true -> cmppri b a = false).
Context (negtrans : forall a b c, cmppri a b = false -> cmppri b c = false -> cmppri a c = false).
Context (pr : Z -> Z) (n : Z).

(** [below D i j]: the element at [j] does not outrank the one at [i]. *)
Definition below (D : Z -> Z) (i j : Z) : Prop := cmppri (pr (D i)) (pr (D j)) = false.

Definition heap (D : Z -> Z) : Prop := forall k, 1 < k < n -> below D (k / 2) k.

(** Heap order but for the edge above [i], or the edges below it; the edges
    past [i] hold. *)
Definition past (D : Z -> Z) (i : Z) : Prop :=
  forall k, 1 < k < n -> k / 2 = i -> 1 < i -> below D (i / 2) k.
Definition up_ok (D : Z -> Z) (i : Z) : Prop :=
  (forall k, 1 < k < n -> k ≠ i -> below D (k / 2) k) /\ past D i.
Definition down_ok (D : Z -> Z) (i : Z) : Prop :=
  (forall k, 1 < k < n -> k / 2 ≠ i -> below D (k / 2) k) /\ past D i.

Lemma cmp_trans a b c : cmppri a b = true -> cmppri b c = true -> cmppri a c = true.
Proof.
  intros H1 H2. destruct (cmppri a c) eqn:H3; [done|].
  rewrite (negtrans b a c (asym _ _ H1) H3) in H2. done.
Qed.
Lemma cmp_lower a b c : cmppri a b = true -> cmppri a c = false -> cmppri b c = false.
Proof. intros H1 H2. by apply (negtrans _ a); [apply asym|]. Qed.

Lemma heap_root D : heap D -> forall k, 1 ≤ k < n -> below D 1 k.
Proof.
  intros H k Hk. assert (Hn : 0 ≤ k) by lia. revert Hk. pattern k. apply Z_lt_induction; [|done].
  clear k Hn. intros k IH Hk. destruct (decide (k = 1)) as [->|].
  - unfold below. destruct (cmppri _ _) eqn:E; [|done]. pose proof (asym _ _ E). congruence.
  - assert (1 ≤ k / 2 < k) by (split; [apply Z.div_le_lower_bound|apply Z.div_lt]; lia).
    unfold below. apply (negtrans _ (pr (D (k / 2)))); [apply IH; lia|apply H; lia].
Qed.

Lemma swap_l D i j : swap D i j i = D j.
Proof. unfold swap. by rewrite decide_True. Qed.
Lemma swap_r D i j : swap D i j j = D i.
Proof. unfold swap. repeat case_decide; by subst. Qed.
Lemma swap_ne D i j k : k ≠ i -> k ≠ j -> swap D i j k = D k.
Proof. intros. unfold swap. by rewrite !decide_False. Qed.

(** Case analysis on where an index lies relative to a swap. *)
Ltac at_swap k i j :=
  destruct (decide (k = i)) as [->|]; [|destruct (decide (k = j)) as [->|]];
  rewrite ?swap_l, ?swap_r, ?swap_ne by lia.

Lemma up_step D i :
  1 < i < n -> up_ok D i -> cmppri (pr (D (i / 2))) (pr (D i)) = true ->
  up_ok (swap D i (i / 2)) (i / 2).
Proof.
  intros Hi [H1 H2] Hc. set (p := i / 2) in *.
  assert (Hp : 1 ≤ p < i) by (unfold p; split; [apply Z.div_le_lower_bound|apply Z.div_lt]; lia).
  unfold up_ok, past, below in *. split.
  - intros k Hk Hkp. destruct (decide (k = i)) as [->|Hki].
    + fold p. rewrite swap_l, swap_r. by apply asym.
    + rewrite (swap_ne D i p k) by done. destruct (decide (k / 2 = i)) as [Hki2|Hki2].
      * rewrite Hki2, swap_l. apply H2; [done|done|lia].
      * destruct (decide (k / 2 = p)) as [Hkp2|Hkp2]; [|rewrite swap_ne by done; by apply H1].
        rewrite Hkp2, swap_r. apply (cmp_lower _ _ _ Hc). rewrite <- Hkp2. by apply H1.
  - intros k Hk Hkp Hp1. assert (1 ≤ p / 2 < p) by (split; [apply Z.div_le_lower_bound|apply Z.div_lt]; lia).
    rewrite (swap_ne _ _ _ (p / 2)) by lia.
    assert (Hpp : cmppri (pr (D (p / 2))) (pr (D p)) = false) by (apply H1; lia).
    destruct (decide (k = i)) as [->|Hki]; [by rewrite swap_l|].
    assert (k ≠ p) by (intros ->; lia). rewrite swap_ne by done.
    apply (negtrans _ (pr (D p))); [done|]. rewrite <- Hkp. by apply H1.
Qed.

Lemma up_done D i : 1 ≤ i -> up_ok D i -> i = 1 \/ below D (i / 2) i -> heap D.
Proof.
  intros Hi [H1 _] Hd k Hk. destruct (decide (k = i)) as [->|]; [|by apply H1].
  destruct Hd; [lia|done].
Qed.

(** The child that [maxchild] picks: no sibling outranks it. *)
Definition best_child (D : Z -> Z) (i c : Z) : Prop :=
  1 < c < n /\ c / 2 = i /\ forall s, 1 < s < n -> s / 2 = i -> below D c s.

Lemma down_step D i c :
  1 ≤ i -> down_ok D i -> best_child D i c -> cmppri (pr (D i)) (pr (D c)) = true ->
  down_ok (swap D i c) c.
Proof.
  intros Hi [H1 H2] (Hc & Hci & Hbest) Hlt. unfold down_ok, past, below in *.
  assert (Hic : i < c) by (rewrite <- Hci; apply Z.div_lt; lia). split.
  - intros k Hk Hkc. destruct (decide (k / 2 = i)) as [Hki|Hki].
    + rewrite Hki, swap_l. destruct (decide (k = c)) as [->|]; [rewrite swap_r; by apply asym|].
      assert (k ≠ i) by (intros ->; assert (i / 2 < i) by (apply Z.div_lt; lia); lia).
      rewrite swap_ne by done. by apply Hbest.
    + rewrite (swap_ne D i c (k / 2)) by done.
      destruct (decide (k = i)) as [->|]; [rewrite swap_l; apply H2; [done|done|lia]|].
      rewrite swap_ne; [by apply H1|done|]. intros ->. done.
  - intros k Hk Hkc Hc1. rewrite Hci, swap_l.
    assert (c < k) by (rewrite <- Hkc; apply Z.div_lt; lia). rewrite swap_ne by lia.
    rewrite <- Hkc. apply H1; lia.
Qed.

Lemma down_done D i : down_ok D i -> (forall s, 1 < s < n -> s / 2 = i -> below D i s) -> heap D.
Proof.
  intros [H1 _] Hd k Hk. destruct (decide (k / 2 = i)) as [E|]; [|by apply H1].
  rewrite E. by apply Hd.
Qed.
End order.

(** ** The operations on the array *)

Definition prio (q : pqueue_t) (x : Z) : Z := default 0 (pri <$> nodes q !! x).
Definition posn (q : pqueue_t) (x : Z) : Z := default 0 (pos <$> nodes q !! x).

(** Elements are known to the callbacks, distinct, and know their index. *)
Record wf_on (n : Z) (D : Z -> Z) (q : pqueue_t) : Prop := WfOn {
  wf_inj : inj_on n D;
  wf_known : forall k, 1 ≤ k < n -> is_Some (nodes q !! D k);
}.
Record wf (q : pqueue_t) : Prop := Wf {
  wf_size : 1 ≤ qsize q ≤ avail q;
  wf_step : 1 ≤ step q;
  wf_elems : wf_on (qsize q) (arr q) q;
  wf_pos : setpos_cb q = Store -> forall k, 1 ≤ k < qsize q -> posn q (arr q k) = k;
}.

(** [q'] differs from [q] in the array and in positions only. *)
Record frame (q q' : pqueue_t) : Prop := Frame {
  fr_size : qsize q' = qsize q;
  fr_avail : avail q' = avail q;
  fr_step : step q' = step q;
  fr_cb : setpos_cb q' = setpos_cb q;
  fr_prio : forall x, prio q' x = prio q x;
  fr_known : forall x, is_Some (nodes q' !! x) <-> is_Some (nodes q !! x);
}.

#[export] Instance frame_preorder : PreOrder frame.
Proof.
  split; [by intros q|]. intros q1 q2 q3 [A1 A2 A3 A4 A5 A6] [B1 B2 B3 B4 B5 B6].
  split; intros; [congruence..|by rewrite B5|by rewrite B6].
Qed.

(** The array of [q] is [D], except that index [i] is still to be written. *)
Record view (q0 q : pqueue_t) (D : Z -> Z) (i : Z) : Prop := View {
  vw_frame : frame q0 q;
  vw_arr : forall k, 1 ≤ k < qsize q0 -> k ≠ i -> arr q k = D k;
  vw_wf : wf_on (qsize q0) D q;
  vw_pos : setpos_cb q0 = Store -> forall k, 1 ≤ k < qsize q0 -> k ≠ i -> posn q (D k) = k;
}.

Lemma arr_set i x q k : arr (set_d (<[i := x]> (d q)) q) k = if decide (k = i) then x else arr q k.
Proof.
  unfold arr; simpl. case_decide as H; [subst; by rewrite lookup_insert_eq|by rewrite lookup_insert_ne].
Qed.

Section specs.
Context (F : fault -> Prop).

Lemma wpf_rd i q (Q : Z -> pqueue_t -> Prop) :
  0 ≤ i < avail q -> Q (arr q i) q -> wpf F (rd i) Q q.
Proof. intros Hi HQ. unfold rd. wp_line. by rewrite bool_decide_eq_true_2. Qed.
Lemma wpf_wr i x q (Q : unit -> pqueue_t -> Prop) :
  0 ≤ i < avail q -> Q tt (set_d (<[i := x]> (d q)) q) -> wpf F (wr i x) Q q.
Proof. intros Hi HQ. unfold wr. wp_line. by rewrite bool_decide_eq_true_2. Qed.
Lemma wpf_getpri x q (Q : Z -> pqueue_t -> Prop) :
  is_Some (nodes q !! x) -> Q (prio q x) q -> wpf F (getpri x) Q q.
Proof. intros [nd Hn]. unfold getpri, prio. rewrite Hn. intros HQ. wp_line. by eapply wpf_deref. Qed.
Lemma wpf_getpos x q (Q : Z -> pqueue_t -> Prop) :
  is_Some (nodes q !! x) -> Q (posn q x) q -> wpf F (getpos x) Q q.
Proof. intros [nd Hn]. unfold getpos, posn. rewrite Hn. intros HQ. wp_line. by eapply wpf_deref. Qed.

(** What [setpos] does to the elements. *)
Record moved (x i : Z) (q q' : pqueue_t) : Prop := Moved {
  mv_frame : frame q q';
  mv_d : d q' = d q;
  mv_pos : forall y, y ≠ x -> posn q' y = posn q y;
  mv_self : setpos_cb q = Store -> posn q' x = i;
}.

Lemma wpf_setpos x i q (Q : unit -> pqueue_t -> Prop) :
  is_Some (nodes q !! x) -> (forall q', moved x i q q' -> Q tt q') -> wpf F (setpos x i) Q q.
Proof.
  intros [nd Hn] HQ. unfold setpos. wp_line. destruct (setpos_cb q) eqn:Hcb; [|apply HQ; split; [done..|congruence]].
  wp_line. eapply wpf_deref; [exact Hn|]. wp_line. apply HQ.
  split; [split; try done| |..]; unfold prio, posn; simpl.
  - intros y. destruct (decide (y = x)) as [->|]; [by rewrite lookup_insert_eq, Hn|by rewrite lookup_insert_ne].
  - intros y. rewrite lookup_insert_is_Some. destruct (decide (x = y)) as [<-|]; [|naive_solver].
    rewrite Hn. naive_solver.
  - done.
  - intros y Hy. by rewrite lookup_insert_ne.
  - intros _. by rewrite lookup_insert_eq.
Qed.

Lemma frame_wf_on n D q q' : frame q q' -> wf_on n D q -> wf_on n D q'.
Proof. intros [] [Hi Hk]. split; [done|]. intros k Hk'. rewrite fr_known0. by apply Hk. Qed.

Lemma frame_set_d v q : frame q (set_d v q).
Proof. done. Qed.

(** After writing [x] into the index [i] and telling it, the array is [D] with
    [x] at [i]. *)
Record placed (q0 : pqueue_t) (D : Z -> Z) (i x : Z) (q' : pqueue_t) : Prop := Placed {
  pl_frame : frame q0 q';
  pl_arr : forall k, 1 ≤ k < qsize q0 -> arr q' k = if decide (k = i) then x else D k;
  pl_self : setpos_cb q0 = Store -> posn q' x = i;
  pl_pos : setpos_cb q0 = Store -> forall k, 1 ≤ k < qsize q0 -> k ≠ i -> D k ≠ x -> posn q' (D k) = k;
}.

Lemma place q0 q D i x q' :
  view q0 q D i -> moved x i (set_d (<[i := x]> (d q)) q) q' -> placed q0 D i x q'.
Proof.
  intros [Hf Ha Hw Hp] [Hf' Hd Hpo Hself]. split.
  - etrans; [exact Hf|]. by etrans; [apply frame_set_d|].
  - intros k Hk. unfold arr. rewrite Hd. fold (arr (set_d (<[i:=x]> (d q)) q) k). rewrite arr_set.
    case_decide; [done|by apply Ha].
  - intros Hcb. apply Hself. simpl. by rewrite (fr_cb _ _ Hf).
  - intros Hcb k Hk Hki Hne. rewrite Hpo by done. by apply Hp.
Qed.

(** One round of either loop: the element at [c] moves to the hole at [i]. *)
Lemma wpf_move {A} q0 q D i c (k : M pqueue_t A) (Q : A -> pqueue_t -> Prop) :
  view q0 q D i -> 1 ≤ i < qsize q0 -> 1 ≤ c < qsize q0 -> c ≠ i -> qsize q0 ≤ avail q0 ->
  (forall q', view q0 q' (swap D i c) c -> wpf F k Q q') ->
  wpf F (x ← rd c; wr i x;; y ← rd i; setpos y i;; k) Q q.
Proof.
  intros Hv Hi Hc Hci Hav HQ. pose proof Hv as [Hf Ha [Hinj Hkn] Hp].
  pose proof (fr_avail _ _ Hf) as Hav'.
  wp_line. apply wpf_rd; [lia|]. wp_line. apply wpf_wr; [lia|]. wp_line.
  apply wpf_rd; [simpl; lia|]. rewrite arr_set, decide_True, Ha by done.
  wp_line. apply wpf_setpos; [by apply Hkn|]. intros q' Hm.
  pose proof (place _ _ _ _ _ _ Hv Hm) as [Pf Pa Ps Pp]. apply HQ. split; [done| | |].
  - intros j Hj Hjc. rewrite Pa by done. unfold swap. repeat case_decide; done.
  - split; [by apply inj_swap|]. intros j Hj. rewrite (fr_known _ _ Pf), <- (fr_known _ _ Hf).
    unfold swap. repeat case_decide; by apply Hkn.
  - intros Hcb j Hj Hjc. unfold swap. rewrite (decide_False (P := j = c)) by done.
    case_decide; [subst j; by apply Ps|]. apply Pp; try done. intros E. by apply Hinj in E.
Qed.

(** The array is [D] and every element knows its index. *)
Record settled (q0 : pqueue_t) (D : Z -> Z) (q' : pqueue_t) : Prop := Settled {
  st_frame : frame q0 q';
  st_arr : forall k, 1 ≤ k < qsize q0 -> arr q' k = D k;
  st_pos : setpos_cb q0 = Store -> forall k, 1 ≤ k < qsize q0 -> posn q' (D k) = k;
}.

(** The end of both loops: the moving element fills the hole. *)
Lemma wpf_settle q0 q D i (Q : unit -> pqueue_t -> Prop) :
  view q0 q D i -> 1 ≤ i < qsize q0 -> qsize q0 ≤ avail q0 ->
  (forall q', settled q0 D q' -> Q tt q') -> wpf F (wr i (D i);; setpos (D i) i) Q q.
Proof.
  intros Hv Hi Hav HQ. pose proof Hv as [Hf Ha [Hinj Hkn] Hp].
  wp_line. apply wpf_wr; [rewrite (fr_avail _ _ Hf); lia|]. wp_line.
  apply wpf_setpos; [by apply Hkn|]. intros q' Hm.
  pose proof (place _ _ _ _ _ _ Hv Hm) as [Pf Pa Ps Pp]. apply HQ. split; [done| |].
  - intros k Hk. rewrite Pa by done. by case_decide; subst.
  - intros Hcb k Hk. destruct (decide (k = i)) as [->|Hki]; [by apply Ps|].
    apply Pp; try done. intros E. by apply Hinj in E.
Qed.
End specs.

Section heap_ops.
Context (F : fault -> Prop) (cmppri : Z -> Z -> bool).
Context (asym : forall a b, cmppri a b = true -> cmppri b a = false).
Context (negtrans : forall a b c, cmppri a b = false -> cmppri b c = false -> cmppri a c = false).

(** The rearrangements an operation may make: the same elements, in heap order. *)
Definition rearranged (q0 : pqueue_t) (D0 D : Z -> Z) : Prop :=
  wf_on (qsize q0) D q0 /\ (forall y, mem (qsize q0) D y <-> mem (qsize q0) D0 y) /\
  heap cmppri (prio q0) (qsize q0) D.

Lemma bubble_loop_spec q0 x D0 fuel q D i :
  view q0 q D i -> 1 ≤ i < qsize q0 -> qsize q0 ≤ avail q0 -> (Z.to_nat i < fuel)%nat ->
  D i = x -> (forall y, mem (qsize q0) D y <-> mem (qsize q0) D0 y) ->
  up_ok cmppri (prio q0) (qsize q0) D i ->
  wpf F (bubble_loop cmppri fuel i (prio q0 x)) (fun j q' => exists D',
    view q0 q' D' j /\ 1 ≤ j < qsize q0 /\ D' j = x /\
    (forall y, mem (qsize q0) D' y <-> mem (qsize q0) D0 y) /\
    heap cmppri (prio q0) (qsize q0) D') q.
Proof.
  revert q D i. induction fuel as [|fuel IH]; intros q D i Hv Hi Hav Hfuel Hx Hmem Hup; [lia|].
  cbn [bubble_loop]. wp_line. rewrite parent_div.
  assert (Hdone : i = 1 \/ below cmppri (prio q0) D (i / 2) i -> exists D',
    view q0 q D' i /\ 1 ≤ i < qsize q0 /\ D' i = x /\
    (forall y, mem (qsize q0) D' y <-> mem (qsize q0) D0 y) /\ heap cmppri (prio q0) (qsize q0) D').
  { intros Hd. exists D. split_and!; try done; try lia. apply (up_done cmppri (prio q0) (qsize q0) D i); [lia|done|done]. }
  destruct (decide (i = 1)) as [->|Hi1]; [rewrite bool_decide_eq_false_2 by lia; wp_line; auto|].
  rewrite bool_decide_eq_true_2 by lia.
  assert (Hp : 1 ≤ i / 2 < i) by (split; [apply Z.div_le_lower_bound|apply Z.div_lt]; lia).
  pose proof Hv as [Hf Ha [_ Hkn] _]. wp_line.
  apply wpf_rd; [rewrite (fr_avail _ _ Hf); lia|]. rewrite Ha by lia. wp_line.
  apply wpf_getpri; [apply Hkn; lia|]. rewrite (fr_prio _ _ Hf). wp_line.
  destruct (cmppri (prio q0 (D (i / 2))) (prio q0 x)) eqn:Hc; [|wp_line; apply Hdone; right; unfold below; by rewrite Hx].
  eapply wpf_move; [exact Hv|lia..|]. intros q' Hv'.
  apply (IH q' (swap D i (i / 2))); [done|lia|done|lia|by rewrite swap_r| |].
  - intros y. rewrite mem_swap by lia. apply Hmem.
  - apply up_step; [done..|lia|done|by rewrite Hx].
Qed.

Lemma bubble_up_spec q i :
  wf_on (qsize q) (arr q) q -> 1 ≤ i < qsize q -> qsize q ≤ avail q ->
  (setpos_cb q = Store -> forall k, 1 ≤ k < qsize q -> k ≠ i -> posn q (arr q k) = k) ->
  up_ok cmppri (prio q) (qsize q) (arr q) i ->
  wpf F (bubble_up cmppri i) (fun _ q' => exists D, settled q D q' /\ rearranged q (arr q) D) q.
Proof.
  intros Hw Hi Hav Hpos Hup. pose proof Hw as [_ Hkn]. unfold bubble_up. wp_line.
  apply wpf_rd; [lia|]. wp_line. apply wpf_getpri; [by apply Hkn|]. wp_line.
  eapply wpf_mono; [apply (bubble_loop_spec q (arr q i) (arr q) _ q (arr q) i); [by split|done|done|lia|done|done|done]|].
  intros j q1 (D & Hv & Hj & Hx & Hmem & Hheap). rewrite <- Hx.
  eapply wpf_settle; [exact Hv|done|done|]. intros q' Hs. exists D. split; [done|].
  split_and!; [|done|done]. pose proof Hv as [Hf _ [Hinj Hkn'] _]. split; [done|].
  intros k Hk. rewrite <- (fr_known _ _ Hf). by apply Hkn'.
Qed.

Lemma maxchild_spec q0 q D i :
  view q0 q D i -> 1 ≤ i -> qsize q0 ≤ avail q0 ->
  wpf F (maxchild cmppri i) (fun c q' => q' = q /\
    ((c = 0 /\ forall s, 1 < s < qsize q0 -> s / 2 ≠ i) \/
     best_child cmppri (prio q0) (qsize q0) D i c)) q.
Proof.
  intros Hv Hi Hav. pose proof Hv as [Hf Ha [_ Hkn] _]. pose proof (fr_avail _ _ Hf).
  unfold maxchild. wp_line. rewrite (fr_size _ _ Hf), left_mul.
  assert (Hch : forall s, s / 2 = i <-> s = 2 * i \/ s = 2 * i + 1).
  { intros s. pose proof (Z.div_mod s 2). pose proof (Z.mod_pos_bound s 2). split; [lia|].
    intros [->| ->]; [rewrite Z.mul_comm; by apply Z.div_mul|]. rewrite Z.mul_comm, Z.div_add_l by lia. change (1 / 2) with 0. lia. }
  assert (Hirr : forall y, below cmppri (prio q0) D y y).
  { intros y. unfold below. destruct (cmppri _ _) eqn:E; [|done]. pose proof (asym _ _ E). congruence. }
  apply wpf_if; intros Hl; bd.
  { wp_line. split; [done|]. left. split; [done|]. intros s Hs. rewrite Hch. lia. }
  case_bool_decide as Hr.
  - wp_line. apply wpf_rd; [lia|]. rewrite Ha by lia. wp_line. apply wpf_getpri; [apply Hkn; lia|]. wp_line.
    apply wpf_rd; [lia|]. rewrite Ha by lia. wp_line. apply wpf_getpri; [apply Hkn; lia|]. wp_line.
    rewrite !(fr_prio _ _ Hf). split; [done|]. right. unfold best_child.
    destruct (cmppri (prio q0 (D (2 * i))) (prio q0 (D (2 * i + 1)))) eqn:Hc; rewrite Hch;
      (split_and!; [lia..|auto|]); intros s Hs [->| ->]%Hch; try apply Hirr; [by apply asym|done].
  - wp_line. split; [done|]. right. unfold best_child. rewrite Hch. split_and!; [lia..|auto|].
    intros s Hs [->| ->]%Hch; [apply Hirr|lia].
Qed.

Lemma percolate_loop_spec q0 x D0 fuel q D i :
  view q0 q D i -> 1 ≤ i < qsize q0 -> qsize q0 ≤ avail q0 -> (Z.to_nat (qsize q0 - i) < fuel)%nat ->
  D i = x -> (forall y, mem (qsize q0) D y <-> mem (qsize q0) D0 y) ->
  down_ok cmppri (prio q0) (qsize q0) D i ->
  wpf F (percolate_loop cmppri fuel i (prio q0 x)) (fun j q' => exists D',
    view q0 q' D' j /\ 1 ≤ j < qsize q0 /\ D' j = x /\
    (forall y, mem (qsize q0) D' y <-> mem (qsize q0) D0 y) /\
    heap cmppri (prio q0) (qsize q0) D') q.
Proof.
  revert q D i. induction fuel as [|fuel IH]; intros q D i Hv Hi Hav Hfuel Hx Hmem Hdn; [lia|].
  cbn [percolate_loop]. wp_line.
  assert (Hdone : (forall s, 1 < s < qsize q0 -> s / 2 = i -> below cmppri (prio q0) D i s) -> exists D',
    view q0 q D' i /\ 1 ≤ i < qsize q0 /\ D' i = x /\
    (forall y, mem (qsize q0) D' y <-> mem (qsize q0) D0 y) /\ heap cmppri (prio q0) (qsize q0) D').
  { intros Hd. exists D. split_and!; try done; try lia. by apply (down_done cmppri (prio q0) (qsize q0) D i). }
  eapply wpf_mono; [by apply (maxchild_spec q0 q D); [|lia|]|].
  intros c ? [-> [[-> Hno]|Hbest]].
  { wp_line. rewrite bool_decide_eq_false_2 by (intros Hne; by apply Hne). wp_line. apply Hdone.
    intros s Hs E. by destruct (Hno s Hs). }
  pose proof Hbest as (Hc & Hci & Hsib). pose proof Hv as [Hf Ha [_ Hkn] _].
  assert (i < c) by (rewrite <- Hci; apply Z.div_lt; lia).
  wp_line. rewrite bool_decide_eq_true_2 by lia. wp_line.
  apply wpf_rd; [rewrite (fr_avail _ _ Hf); lia|]. rewrite Ha by lia. wp_line.
  apply wpf_getpri; [apply Hkn; lia|]. rewrite (fr_prio _ _ Hf). wp_line.
  destruct (cmppri (prio q0 x) (prio q0 (D c))) eqn:Hlt.
  - eapply wpf_move; [exact Hv|lia..|]. intros q' Hv'.
    apply (IH q' (swap D i c)); [done|lia|done|lia|by rewrite swap_r| |].
    + intros y. rewrite mem_swap by lia. apply Hmem.
    + apply down_step; [done..|lia|done|done|by rewrite Hx].
  - wp_line. apply Hdone. intros s Hs E. unfold below. rewrite Hx.
    apply (negtrans _ (prio q0 (D c))); [done|]. by apply Hsib.
Qed.

Lemma percolate_down_spec q i :
  wf_on (qsize q) (arr q) q -> 1 ≤ i < qsize q -> qsize q ≤ avail q ->
  (setpos_cb q = Store -> forall k, 1 ≤ k < qsize q -> k ≠ i -> posn q (arr q k) = k) ->
  down_ok cmppri (prio q) (qsize q) (arr q) i ->
  wpf F (percolate_down cmppri i) (fun _ q' => exists D, settled q D q' /\ rearranged q (arr q) D) q.
Proof.
  intros Hw Hi Hav Hpos Hdn. pose proof Hw as [_ Hkn]. unfold percolate_down. wp_line.
  apply wpf_rd; [lia|]. wp_line. apply wpf_getpri; [by apply Hkn|]. wp_line.
  eapply wpf_mono; [apply (percolate_loop_spec q (arr q i) (arr q) _ q (arr q) i); [by split|done|done|lia|done|done|done]|].
  intros j q1 (D & Hv & Hj & Hx & Hmem & Hheap). rewrite <- Hx.
  eapply wpf_settle; [exact Hv|done|done|]. intros q' Hs. exists D. split; [done|].
  split_and!; [|done|done]. pose proof Hv as [Hf _ [Hinj Hkn'] _]. split; [done|].
  intros k Hk. rewrite <- (fr_known _ _ Hf). by apply Hkn'.
Qed.
End heap_ops.

Section queue.
Context (F : fault -> Prop) (cmppri : Z -> Z -> bool).
Context (asym : forall a b, cmppri a b = true -> cmppri b a = false).
Context (negtrans : forall a b c, cmppri a b = false -> cmppri b c = false -> cmppri a c = false).

(** A well-formed queue in heap order, and the set of its elements. *)
Definition pq_ok (q : pqueue_t) : Prop := wf q /\ heap cmppri (prio q) (qsize q) (arr q).
Definition elem (q : pqueue_t) (y : Z) : Prop := mem (qsize q) (arr q) y.

Lemma settled_ok q D0 D q' :
  1 ≤ qsize q ≤ avail q -> 1 ≤ step q -> settled q D q' -> rearranged cmppri q D0 D ->
  pq_ok q' /\ (forall y, elem q' y <-> mem (qsize q) D0 y) /\ frame q q'.
Proof.
  intros Hs Hst [Hf Ha Hp] ([Hinj Hkn] & Hmem & Hheap). pose proof Hf as [F1 F2 F3 F4 F5 F6].
  split_and!; [split; [split|]| |done]; rewrite ?F1, ?F2, ?F3, ?F4; try done.
  - split.
    + intros k l Hk Hl. rewrite !Ha by done. by apply Hinj.
    + intros k Hk. rewrite Ha, F6 by done. by apply Hkn.
  - intros Hcb k Hk. rewrite Ha by done. by apply Hp.
  - intros k Hk. unfold below. rewrite !F5.
    assert (1 ≤ k / 2 < k) by (split; [apply Z.div_le_lower_bound|apply Z.div_lt]; lia).
    rewrite !Ha by lia. by apply Hheap.
  - intros y. rewrite <- Hmem. unfold elem, mem. rewrite F1.
    split; intros (k & Hk & E); exists k; (split; [done|]); [by rewrite <- Ha|by rewrite Ha].
Qed.

(** Give index [p] another key: where the heap order can break. *)
Lemma rekey pr pr' n n' D D' p :
  heap cmppri pr n D -> n' ≤ n -> 1 ≤ p ->
  (forall k, 1 ≤ k < n' -> k ≠ p -> pr' (D' k) = pr (D k)) -> p < n' ->
  if cmppri (pr (D p)) (pr' (D' p)) then up_ok cmppri pr' n' D' p else down_ok cmppri pr' n' D' p.
Proof.
  intros Hh Hn Hp He Hpn. unfold heap, below in Hh.
  assert (Hdiv : forall k, 1 < k -> 1 ≤ k / 2 < k)
    by (intros k Hk; split; [apply Z.div_le_lower_bound|apply Z.div_lt]; lia).
  assert (Hpast : past cmppri pr' n' D' p).
  { intros k Hk E Hp1. unfold below. pose proof (Hdiv k). pose proof (Hdiv p). rewrite !He by lia.
    apply (negtrans _ (pr (D p))); [apply Hh; lia|]. rewrite <- E. apply Hh. lia. }
  destruct (cmppri (pr (D p)) (pr' (D' p))) eqn:Hc; (split; [|done]); intros k Hk Hkp; unfold below.
  - pose proof (Hdiv k). rewrite (He k) by lia. destruct (decide (k / 2 = p)) as [E|].
    + rewrite E. apply (cmp_lower cmppri asym negtrans _ _ _ Hc). rewrite <- E. apply Hh. lia.
    + rewrite He by lia. apply Hh. lia.
  - pose proof (Hdiv k). rewrite (He (k / 2)) by lia. destruct (decide (k = p)) as [->|].
    + apply (negtrans _ (pr (D p))); [apply Hh; lia|done].
    + rewrite He by lia. apply Hh. lia.
Qed.

(** The callback and the known elements are the same. *)
Definition same_nodes (q q' : pqueue_t) : Prop :=
  setpos_cb q' = setpos_cb q /\ forall y, is_Some (nodes q' !! y) <-> is_Some (nodes q !! y).
Lemma frame_nodes q q' : frame q q' -> same_nodes q q'.
Proof. intros [_ _ _ F4 _ F6]. by split. Qed.

Lemma pqueue_insert_spec x realloc q :
  pq_ok q -> ~ elem q x -> is_Some (nodes q !! x) ->
  wpf F (pqueue_insert cmppri x realloc) (fun rc q' =>
    if bool_decide (avail q ≤ qsize q) && negb realloc then rc = 1 /\ q' = q
    else rc = 0 /\ pq_ok q' /\ (forall y, elem q' y <-> y = x \/ elem q y) /\
      (forall y, prio q' y = prio q y) /\ same_nodes q q') q.
Proof.
  intros [[Hsz Hst [Hinj Hkn] Hpos] Hheap] Hx Hnx. unfold pqueue_insert. wp_line.
  destruct (bool_decide (avail q ≤ qsize q) && negb realloc) eqn:Hfull; [by wp_line|].
  wp_line. set (n := qsize q) in *.
  apply (wpf_mono _ _ (fun _ q1 => exists a, n < a /\ q1 = set_avail a q)).
  { apply wpf_when; intros Hc; bd; [wp_line; exists (n + step q); split; [unfold n; lia|done]|].
    exists (avail q). split; [unfold n in *; lia|by destruct q]. }
  intros _ q1 (a & Ha & ->). wp_line.
  apply wpf_wr; [simpl; unfold n in *; lia|]. wp_line. fold n.
  match goal with |- wpf _ _ _ ?s => set (q2 := s) end.
  assert (Harr : forall k, arr q2 k = if decide (k = n) then x else arr q k) 
    by (intros k; exact (arr_set n x (set_qsize (n + 1) (set_avail a q)) k)).
  assert (Hw : wf_on (qsize q2) (arr q2) q2).
  { split.
    - intros k l Hk Hl. rewrite !Harr. simpl in Hk, Hl.
      destruct (decide (k = n)) as [E1|E1], (decide (l = n)) as [E2|E2]; intros E.
      + congruence.
      + exfalso. apply Hx. exists l. fold n. split; [lia|done].
      + exfalso. apply Hx. exists k. fold n. split; [lia|done].
      + apply Hinj in E; [done|fold n; lia..].
    - intros k Hk. rewrite Harr. simpl in Hk. destruct (decide (k = n)); [done|]. apply Hkn. fold n. lia. }
  eapply wpf_mono; [apply (bubble_up_spec F cmppri asym negtrans q2 n Hw); simpl|].
  - unfold n in *. lia.
  - lia.
  - intros Hcb k Hk Hkn'. rewrite Harr, decide_False by done. apply Hpos; [done|fold n; lia].
  - split.
    + intros k Hk Hkn'. unfold below. rewrite !Harr.
      assert (1 ≤ k / 2 < k) by (split; [apply Z.div_le_lower_bound|apply Z.div_lt]; lia).
      rewrite !decide_False by lia. apply Hheap. fold n. lia.
    + intros k Hk E Hn1. assert (k / 2 < k) by (apply Z.div_lt; lia). lia.
  - intros _ q' (D & Hs & Hr). wp_line.
    destruct (settled_ok q2 (arr q2) D q') as (Hok & Hel & Hf); simpl; [unfold n in *; lia|lia|done|done|].
    split; [done|]. split; [done|]. split; [|split; [exact (fr_prio _ _ Hf)|exact (frame_nodes _ _ Hf)]].
    intros y. rewrite Hel. unfold elem, mem. simpl. fold n. split.
    + intros (k & Hk & E). rewrite Harr in E. destruct (decide (k = n)); [left; congruence|]. right. exists k. split; [lia|done].
    + intros [->|(k & Hk & E)]; [exists n|exists k]; (split; [unfold n in *; lia|]); rewrite Harr;
        [by rewrite decide_True|by rewrite decide_False by lia].
Qed.

(** Take the last element out and put it at [p]. *)
Definition refill (p : Z) (q : pqueue_t) : pqueue_t :=
  let q1 := set_qsize (qsize q - 1) q in set_d (<[p := arr q (qsize q - 1)]> (d q1)) q1.

Lemma refill_arr p q k : arr (refill p q) k = if decide (k = p) then arr q (qsize q - 1) else arr q k.
Proof. exact (arr_set p _ (set_qsize (qsize q - 1) q) k). Qed.

Lemma refill_wf p q :
  wf q -> 1 ≤ p < qsize q - 1 ->
  wf_on (qsize q - 1) (arr (refill p q)) (refill p q) /\
  (setpos_cb q = Store -> forall k, 1 ≤ k < qsize q - 1 -> k ≠ p -> posn (refill p q) (arr (refill p q) k) = k) /\
  (forall y, mem (qsize q - 1) (arr (refill p q)) y <-> elem q y /\ y ≠ arr q p).
Proof.
  intros [Hsz Hst [Hinj Hkn] Hpos] Hp. split_and!.
  - split.
    + intros k l Hk Hl. rewrite !refill_arr. repeat case_decide; subst; try done; intros E;
        apply Hinj in E; lia.
    + intros k Hk. rewrite refill_arr. case_decide; apply Hkn; lia.
  - intros Hcb k Hk Hkp. rewrite refill_arr, decide_False by done. apply Hpos; [done|lia].
  - intros y. unfold elem, mem. split.
    + intros (k & Hk & E). rewrite refill_arr in E. case_decide; subst.
      * split; [exists (qsize q - 1); split; [lia|done]|]. intros E. apply Hinj in E; lia.
      * split; [exists k; split; [lia|done]|]. intros E. apply Hinj in E; lia.
    + intros [(k & Hk & E) Hne]. destruct (decide (k = qsize q - 1)) as [->|].
      * exists p. split; [done|]. by rewrite refill_arr, decide_True.
      * exists k. split; [lia|]. rewrite refill_arr, decide_False; [done|]. intros ->. done.
Qed.

(** [percolate_down] past the end only stores the element where it is. *)
Lemma percolate_idle q i :
  1 ≤ i < avail q -> qsize q ≤ i -> is_Some (nodes q !! arr q i) ->
  wpf F (percolate_down cmppri i) (fun _ q' => frame q q' /\ (forall k, arr q' k = arr q k) /\
    (forall y, y ≠ arr q i -> posn q' y = posn q y)) q.
Proof.
  intros Hi Hn Hk. unfold percolate_down. wp_line. apply wpf_rd; [lia|]. wp_line.
  apply wpf_getpri; [done|]. wp_line. cbn [percolate_loop]. unfold maxchild. wp_line.
  rewrite left_mul, bool_decide_eq_true_2 by lia. wp_line.
  rewrite bool_decide_eq_false_2 by (intros Hne; by apply Hne). wp_line. apply wpf_wr; [lia|].
  apply wpf_setpos; [done|]. intros q' [Hf Hd Hp _]. split_and!.
  - by etrans; [apply frame_set_d|].
  - intros k. unfold arr. rewrite Hd. fold (arr (set_d (<[i:=arr q i]> (d q)) q) k). rewrite arr_set.
    by case_decide; subst.
  - intros y Hy. by rewrite Hp.
Qed.

(** A queue that only lost its last element. *)
Lemma shrink_ok q q' :
  pq_ok q -> 1 < qsize q -> frame (set_qsize (qsize q - 1) q) q' -> (forall k, arr q' k = arr q k) ->
  (forall y, y ≠ arr q (qsize q - 1) -> posn q' y = posn q y) ->
  pq_ok q' /\ qsize q' = qsize q - 1 /\
  (forall y, elem q' y <-> elem q y /\ y ≠ arr q (qsize q - 1)) /\ (forall y, prio q' y = prio q y) /\
  same_nodes q q'.
Proof.
  intros [[Hsz Hst [Hinj Hkn] Hpos] Hheap] Hn Hf Ha Hp. pose proof Hf as [F1 F2 F3 F4 F5 F6].
  simpl in F1, F2, F3, F4.
  split; [split; [split|]|split; [done|split; [|split; [exact F5|exact (frame_nodes _ _ Hf)]]]].
  - lia.
  - lia.
  - rewrite F1. split.
    + intros k l Hk Hl. rewrite !Ha. apply Hinj; lia.
    + intros k Hk. rewrite Ha. apply F6, Hkn. lia.
  - rewrite F1, F4. intros Hcb k Hk. rewrite Ha, Hp; [apply Hpos; [done|lia]|].
    intros E. apply Hinj in E; lia.
  - intros k Hk. unfold below. rewrite !F5, !Ha. apply Hheap. lia.
  - intros y. unfold elem, mem. rewrite F1. split.
    + intros (k & Hk & E). rewrite Ha in E. split; [exists k; split; [lia|done]|].
      subst y. intros E. apply Hinj in E; lia.
    + intros [(k & Hk & E) Hne]. exists k. rewrite Ha. split; [|done].
      destruct (decide (k = qsize q - 1)) as [->|]; [done|lia].
Qed.

(** What removing the element [x] leaves. *)
Definition without (q : pqueue_t) (x : Z) (q' : pqueue_t) : Prop :=
  pq_ok q' /\ qsize q' = qsize q - 1 /\ (forall y, elem q' y <-> elem q y /\ y ≠ x) /\
  (forall y, prio q' y = prio q y) /\ same_nodes q q'.

Lemma refill_settled p q D q' :
  pq_ok q -> 1 ≤ p < qsize q - 1 -> settled (refill p q) D q' ->
  rearranged cmppri (refill p q) (arr (refill p q)) D -> without q (arr q p) q'.
Proof.
  intros [Hw Hheap] Hp Hs Hr. destruct (refill_wf p q Hw Hp) as (_ & _ & Hmem).
  pose proof Hw as [Hsz Hst _ _].
  destruct (settled_ok (refill p q) (arr (refill p q)) D q') as (Hok & Hel & Hf); [simpl; lia|done|done|done|].
  split; [done|]. split; [exact (fr_size _ _ Hf)|]. split; [|split; [exact (fr_prio _ _ Hf)|exact (frame_nodes _ _ Hf)]].
  intros y. rewrite Hel. apply Hmem.
Qed.

Lemma refill_rekey p q :
  pq_ok q -> 1 ≤ p < qsize q - 1 ->
  if cmppri (prio q (arr q p)) (prio q (arr q (qsize q - 1)))
  then up_ok cmppri (prio (refill p q)) (qsize (refill p q)) (arr (refill p q)) p
  else down_ok cmppri (prio (refill p q)) (qsize (refill p q)) (arr (refill p q)) p.
Proof.
  intros [Hw Hheap] Hp.
  pose proof (rekey (prio q) (prio q) (qsize q) (qsize q - 1) (arr q) (arr (refill p q)) p Hheap) as Hk.
  rewrite refill_arr, decide_True in Hk by done. apply Hk; [lia..| |lia].
  intros k Hk1 Hkp. by rewrite refill_arr, decide_False.
Qed.

Lemma pqueue_pop_spec q :
  pq_ok q ->
  wpf F (pqueue_pop cmppri) (fun o q' =>
    match o with
    | None => qsize q = 1 /\ q' = q
    | Some x => 1 < qsize q /\ x = arr q 1 /\ without q x q'
    end) q.
Proof.
  intros Hok. pose proof Hok as [Hw Hheap]. pose proof Hw as [Hsz Hst [Hinj Hkn] Hpos].
  unfold pqueue_pop. wp_line. apply wpf_if; intros Hn; bd; [by wp_line|].
  wp_line. apply wpf_rd; [lia|]. wp_line. apply wpf_rd; [simpl; lia|]. wp_line.
  apply wpf_wr; [simpl; lia|]. wp_line. change (wpf F (percolate_down cmppri 1)
    (fun _ s' => wpf F (mret (Some (arr q 1))) (fun o q' => match o with None => qsize q = 1 /\ q' = q
      | Some x => 1 < qsize q /\ x = arr q 1 /\ without q x q' end) s') (refill 1 q)).
  destruct (decide (qsize q = 2)) as [H2|H2].
  - assert (Ha : forall k, arr (refill 1 q) k = arr q k).
    { intros k. rewrite refill_arr. destruct (decide (k = 1)) as [->|]; [|done]. f_equal. lia. }
    eapply wpf_mono; [apply percolate_idle; [simpl; lia|simpl; lia|rewrite Ha; apply Hkn; lia]|].
    intros _ q' (Hf & Harr & Hp). wp_line. split_and!; [lia|done|].
    replace (arr q 1) with (arr q (qsize q - 1)) by (f_equal; lia). apply shrink_ok; [done|lia| | |].
    + by etrans; [|exact Hf].
    + intros k. by rewrite Harr, Ha.
    + intros y Hy. rewrite Hp; [done|]. rewrite Ha. by replace 1 with (qsize q - 1) by lia.
  - destruct (refill_wf 1 q Hw) as (Hw1 & Hp1 & _); [lia|].
    eapply wpf_mono; [apply (percolate_down_spec F cmppri asym negtrans (refill 1 q) 1); simpl; [done|lia|lia|done|]|].
    + split; [|intros k Hk E H; lia]. intros k Hk Hk2. unfold below.
      assert (1 ≤ k / 2 < k) by (split; [apply Z.div_le_lower_bound|apply Z.div_lt]; lia).
      rewrite !refill_arr, !decide_False by lia. apply Hheap. lia.
    + intros _ q' (D & Hs & Hr). wp_line. split_and!; [lia|done|].
      by apply (refill_settled 1 q D); [|lia|..].
Qed.

Lemma pqueue_remove_spec x q :
  pq_ok q -> setpos_cb q = Store -> elem q x ->
  wpf F (pqueue_remove cmppri x) (fun rc q' => rc = 0 /\ without q x q') q.
Proof.
  intros Hok Hcb (p & Hp & <-). pose proof Hok as [Hw Hheap]. pose proof Hw as [Hsz Hst [Hinj Hkn] Hpos].
  unfold pqueue_remove. wp_line. apply wpf_getpos; [by apply Hkn|]. rewrite Hpos by done. wp_line.
  apply wpf_rd; [simpl; lia|]. wp_line. apply wpf_wr; [simpl; lia|]. wp_line.
  match goal with |- wpf F ?m ?Q _ => change (wpf F m Q (refill p q)) end.
  apply wpf_getpri; [by apply Hkn|]. wp_line. apply wpf_rd; [simpl; lia|].
  rewrite refill_arr, decide_True by done. wp_line.
  apply wpf_getpri; [apply (Hkn (qsize q - 1)); lia|]. wp_line.
  change (prio (refill p q)) with (prio q).
  destruct (decide (p = qsize q - 1)) as [->|Hlast].
  - assert (Ha : forall k, arr (refill (qsize q - 1) q) k = arr q k).
    { intros k. rewrite refill_arr. by destruct (decide (k = qsize q - 1)) as [->|]. }
    destruct (cmppri (prio q (arr q (qsize q - 1))) _) eqn:Hc; [by rewrite (asym _ _ Hc) in Hc|].
    eapply wpf_mono; [apply percolate_idle; [simpl; lia|simpl; lia|rewrite Ha; apply Hkn; lia]|].
    intros _ q' (Hf & Hf2 & Hp2). wp_line. split; [done|]. apply shrink_ok; [done|lia| | |].
    + by etrans; [|exact Hf].
    + intros k. by rewrite Hf2, Ha.
    + intros y Hy. rewrite Hp2; [done|]. by rewrite Ha.
  - destruct (refill_wf p q Hw) as (Hw1 & Hp1 & _); [lia|].
    pose proof (refill_rekey p q Hok ltac:(lia)) as Hk.
    apply (wpf_mono _ _ (fun _ q' => exists D, settled (refill p q) D q' /\
      rearranged cmppri (refill p q) (arr (refill p q)) D)).
    + destruct (cmppri _ _); [apply bubble_up_spec|apply percolate_down_spec]; simpl; done || lia.
    + intros _ q' (D & Hs & Hr). wp_line. split; [done|]. by apply (refill_settled p q D); [|lia|..].
Qed.

Lemma pqueue_change_priority_spec np x q :
  pq_ok q -> setpos_cb q = Store -> elem q x ->
  wpf F (pqueue_change_priority cmppri np x) (fun _ q' => pq_ok q' /\ (forall y, elem q' y <-> elem q y) /\
    forall y, prio q' y = if decide (y = x) then np else prio q y) q.
Proof.
  intros Hok Hcb (p & Hp & <-). pose proof Hok as [Hw Hheap]. pose proof Hw as [Hsz Hst [Hinj Hkn] Hpos].
  unfold pqueue_change_priority. wp_line. apply wpf_getpri; [by apply Hkn|]. wp_line.
  destruct (Hkn p Hp) as [nd Hnd]. unfold setpri. wp_line. eapply wpf_deref; [exact Hnd|]. wp_line.
  set (q1 := set_nodes _ q).
  assert (Hpr : forall y, prio q1 y = if decide (y = arr q p) then np else prio q y).
  { intros y. unfold prio, q1; simpl. destruct (decide (y = arr q p)) as [->|];
      [by rewrite lookup_insert_eq|by rewrite lookup_insert_ne]. }
  assert (Hpo : forall y, posn q1 y = posn q y).
  { intros y. unfold posn, q1; simpl. destruct (decide (y = arr q p)) as [->|];
      [by rewrite lookup_insert_eq, Hnd|by rewrite lookup_insert_ne]. }
  assert (Hkn1 : forall y, is_Some (nodes q !! y) -> is_Some (nodes q1 !! y)).
  { intros y Hy. unfold q1; simpl. rewrite lookup_insert_is_Some. destruct (decide (arr q p = y)); auto. }
  apply wpf_getpos; [by apply Hkn1, Hkn|]. rewrite Hpo, Hpos by done.
  pose proof (rekey (prio q) (prio q1) (qsize q) (qsize q1) (arr q) (arr q1) p Hheap) as Hk.
  change (arr q1) with (arr q) in Hk. rewrite Hpr, decide_True in Hk by done.
  assert (Hk' := Hk ltac:(simpl; lia) ltac:(lia)
    ltac:(intros k Hk1 Hk2; rewrite Hpr, decide_False; [done|intros E; apply Hinj in E; simpl in *; lia]) ltac:(simpl; lia)).
  clear Hk. apply (wpf_mono _ _ (fun _ q' => exists D, settled q1 D q' /\ rearranged cmppri q1 (arr q1) D)).
  - assert (Hw1 : wf_on (qsize q1) (arr q1) q1) by (split; [done|intros k Hk; by apply Hkn1, Hkn]).
    destruct (cmppri _ _); [apply bubble_up_spec|apply percolate_down_spec]; try done; try (simpl; lia);
      intros _ k Hk Hkp; rewrite Hpo; by apply Hpos.
  - intros _ q' (D & Hs & Hr).
    destruct (settled_ok q1 (arr q1) D q') as (Hok' & Hel & Hf); [simpl; lia|done|done|done|].
    split_and!; [done|done|]. intros y. by rewrite (fr_prio _ _ Hf).
Qed.

Lemma elem_size q : pq_ok q -> (qsize q = 1 <-> forall y, ~ elem q y).
Proof.
  intros [[Hsz _ _ _] _]. split.
  - intros E y (k & Hk & _). lia.
  - intros Hn. destruct (decide (qsize q = 1)); [done|]. exfalso. apply (Hn (arr q 1)). exists 1. split; [lia|done].
Qed.

(** Popping until empty lists the elements by rank. *)
Lemma drain_spec pr fuel q :
  pq_ok q -> ~ elem q 0 -> (Z.to_nat (qsize q) ≤ fuel)%nat -> (forall y, prio q y = pr y) ->
  wpf F (drain cmppri fuel) (fun l _ => NoDup l /\ (forall y, y ∈ l <-> elem q y) /\
    StronglySorted (fun a b => cmppri (pr a) (pr b) = false) l) q.
Proof.
  revert q. induction fuel as [|fuel IH]; intros q Hok H0 Hf Hpr.
  { destruct Hok as [[? _ _ _] _]. lia. }
  cbn [drain]. wp_line. eapply wpf_mono; [by apply pqueue_pop_spec|]. intros [x|] q' Ho.
  - destruct Ho as (Hn & -> & Hok' & Hsz & Hel & Hpr' & _).
    assert (Hx : elem q (arr q 1)) by (exists 1; split; [lia|done]).
    rewrite bool_decide_eq_false_2 by (intros E; apply H0; by rewrite <- E).
    wp_line. eapply wpf_mono; [apply IH; [done| |lia|]|].
    + by intros [? _]%Hel.
    + intros y. by rewrite Hpr', Hpr.
    + intros l q'' (Hnd & Hl & Hso). wp_line. split_and!.
      * apply NoDup_cons. split; [|done]. rewrite Hl, Hel. by intros [_ ?].
      * intros y. rewrite elem_of_cons, Hl, Hel. clear -Hx.
        destruct (decide (y = arr q 1)) as [->|]; intuition.
      * constructor; [done|]. apply List.Forall_forall. intros y [(k & Hk & <-) _]%list_elem_of_In%Hl%Hel.
        rewrite <- !Hpr. destruct Hok as [_ Hheap].
        by apply (heap_root cmppri asym negtrans (prio q) (qsize q)).
  - destruct Ho as [Hn ->]. wp_line. split_and!; [apply NoDup_nil_2| |constructor].
    intros y. split; [by intros ?%elem_of_nil|]. intros Hy. by destruct (proj1 (elem_size q Hok) Hn y).
Qed.

(** The debug check walks the whole tree. *)
Lemma subtree_is_valid_spec fuel p q :
  wf q -> 1 ≤ p -> (Z.to_nat (qsize q - p) < fuel)%nat -> p < qsize q ->
  wpf F (subtree_is_valid cmppri fuel p) (fun b q' => q' = q /\
    (b = true -> forall k, 1 < k < qsize q -> (exists j, 0 < j /\ k / 2 ^ j = p) ->
       below cmppri (prio q) (arr q) (k / 2) k) /\
    (b = false -> ~ heap cmppri (prio q) (qsize q) (arr q))) q.
Proof.
  intros Hw. pose proof Hw as [Hsz Hst [Hinj Hkn] Hpos].
  revert p. induction fuel as [|fuel IH]; intros p Hp Hf Hpn; [lia|]. cbn [subtree_is_valid].
  rewrite left_mul, right_mul. set (child := child_is_valid cmppri (subtree_is_valid cmppri fuel) p).
  assert (Hchild : forall c, c / 2 = p -> p < c ->
    wpf F (child c) (fun b q' => q' = q /\
      (b = true -> forall k, 1 < k < qsize q -> (exists j, 0 ≤ j /\ k / 2 ^ j = c) ->
         below cmppri (prio q) (arr q) (k / 2) k) /\
      (b = false -> ~ heap cmppri (prio q) (qsize q) (arr q))) q).
  { intros c Hcp Hpc. unfold child, child_is_valid. wp_line. apply wpf_if; intros Hc; bd.
    - wp_line. apply wpf_rd; [lia|]. wp_line. apply wpf_getpri; [apply Hkn; lia|]. wp_line.
      apply wpf_rd; [lia|]. wp_line. apply wpf_getpri; [apply Hkn; lia|]. wp_line.
      apply wpf_if; intros Hcmp.
      + wp_line. split_and!; [done|done|]. intros _ Hh. specialize (Hh c ltac:(lia)). unfold below in Hh.
        rewrite Hcp in Hh. congruence.
      + eapply wpf_mono; [apply IH; lia|]. intros b q' (-> & Ht & Hfa). split_and!; [done| |done].
        intros Hb k Hk (j & Hj & Hkj). destruct (decide (j = 0)) as [->|].
        * rewrite Z.pow_0_r, Z.div_1_r in Hkj. subst k. unfold below. by rewrite Hcp.
        * apply Ht; [done|done|]. exists j. split; [lia|done].
    - wp_line. split_and!; [done| |done]. intros _ k Hk (j & Hj & Hkj).
      assert (k / 2 ^ j ≤ k) by (apply Z.div_le_upper_bound; nia). lia. }
  apply wpf_bind. eapply wpf_mono; [apply (Hchild (2 * p)); [|lia]|].
  { rewrite Z.mul_comm. by apply Z.div_mul. }
  intros bl q1 (-> & Htl & Hfl). destruct bl; [|by wp_line].
  eapply wpf_mono; [apply (Hchild (2 * p + 1)); [|lia]|].
  { rewrite Z.mul_comm, Z.div_add_l by lia. change (1 / 2) with 0. lia. }
  intros br q2 (-> & Htr & Hfr). split_and!; [done| |done].
  intros Hb k Hk (j & Hj & Hkj).
  assert (Hkk : k / 2 ^ (j - 1) / 2 = p).
  { rewrite Z.div_div, Z.mul_comm by lia. rewrite <- Z.pow_succ_r by lia. by replace (Z.succ (j - 1)) with j by lia. }
  set (c := k / 2 ^ (j - 1)) in *. pose proof (Z.div_mod c 2 ltac:(lia)). pose proof (Z.mod_pos_bound c 2 ltac:(lia)).
  assert (c = 2 * p \/ c = 2 * p + 1) as [E|E] by lia.
  - apply Htl; [done|done|]. exists (j - 1). split; [lia|done].
  - apply Htr; [done|done|]. exists (j - 1). split; [lia|done].
Qed.

Lemma pqueue_is_valid_spec q :
  wf q -> wpf F (pqueue_is_valid cmppri) (fun b q' => q' = q /\
    (b = true <-> heap cmppri (prio q) (qsize q) (arr q))) q.
Proof.
  intros Hw. pose proof Hw as [Hsz _ _ _]. unfold pqueue_is_valid. wp_line.
  destruct (decide (qsize q = 1)) as [H1|H1].
  { cbn [subtree_is_valid]. unfold child_is_valid. wp_line. rewrite left_mul, right_mul, H1. simpl. wp_line.
    rewrite H1. simpl. wp_line. split; [done|]. split; [|done]. intros _ k Hk. lia. }
  eapply wpf_mono; [apply subtree_is_valid_spec; [done|lia|lia|lia]|].
  intros b q' (-> & Ht & Hf). split; [done|]. destruct b; [|split; [done|intros; by destruct Hf]].
  split; [|done]. intros _ k Hk. apply Ht; [done|done|].
  exists (Z.log2 k). split; [apply Z.log2_pos; lia|].
  pose proof (Z.log2_spec k ltac:(lia)) as [Hl1 Hl2]. rewrite Z.pow_succ_r in Hl2 by apply Z.log2_nonneg.
  symmetry. apply Z.div_unique with (k - 2 ^ Z.log2 k); [left|]; lia.
Qed.
End queue.

(** ** The properties of the queue *)

(** The comparison callback is a strict weak order, as [<] or [>] are. *)
Class StrictWeak (cmppri : Z -> Z -> bool) : Prop := {
  sw_asym a b : cmppri a b = true -> cmppri b a = false;
  sw_negtrans a b c : cmppri a b = false -> cmppri b c = false -> cmppri a c = false;
}.

#[export] Instance ltb_strict_weak : StrictWeak Z.ltb.
Proof. split; intros; rewrite ?Z.ltb_lt, ?Z.ltb_ge in *; lia. Qed.

Section claims.
Context (cmppri : Z -> Z -> bool) `{!StrictWeak cmppri}.

(** [pqueue_insert] of a new element into a well-formed queue keeps the heap
    order, the positions and the priorities and adds exactly that element,
    growing the array when it is full; when the array cannot grow it returns 1
    and the queue is unchanged. *)
Theorem pqueue_insert_correct (x : Z) (realloc : bool) (q : pqueue_t) :
  pq_ok cmppri q -> ~ elem q x -> is_Some (nodes q !! x) ->
  wp (pqueue_insert cmppri x realloc) (fun rc q' =>
    if bool_decide (avail q ≤ qsize q) && negb realloc then rc = 1 /\ q' = q
    else rc = 0 /\ pq_ok cmppri q' /\ (forall y, elem q' y <-> y = x \/ elem q y) /\
      (forall y, prio q' y = prio q y) /\ same_nodes q q') q.
Proof. apply pqueue_insert_spec; [apply sw_asym|apply sw_negtrans]. Qed.

(** C34: [pqueue_pop] of a non-empty queue removes and returns an element that no
    other element outranks, and leaves a well-formed queue with all the
    others; of an empty one it returns NULL and changes nothing. *)
Theorem pqueue_pop_highest (q : pqueue_t) :
  pq_ok cmppri q ->
  wp (pqueue_pop cmppri) (fun o q' =>
    match o with
    | None => (forall y, ~ elem q y) /\ q' = q
    | Some x => elem q x /\ (forall y, elem q y -> cmppri (prio q x) (prio q y) = false) /\
        without cmppri q x q'
    end) q.
Proof.
  intros Hok. eapply wpf_mono; [apply pqueue_pop_spec; [apply sw_asym|apply sw_negtrans|done]|].
  intros [x|] q' Ho.
  - destruct Ho as (Hn & -> & Hw). split_and!; [exists 1; split; [lia|done]| |done].
    intros y (k & Hk & <-). destruct Hok as [_ Hh].
    by apply (heap_root cmppri sw_asym sw_negtrans (prio q) (qsize q)).
  - destruct Ho as [Hn ->]. split; [|done]. by apply (elem_size cmppri).
Qed.

(** [pqueue_remove] of an element takes out exactly that element, wherever it
    is in the array, also at its end, and keeps the heap order and positions. *)
Theorem pqueue_remove_correct (x : Z) (q : pqueue_t) :
  pq_ok cmppri q -> setpos_cb q = Store -> elem q x ->
  wp (pqueue_remove cmppri x) (fun rc q' => rc = 0 /\ without cmppri q x q') q.
Proof. apply pqueue_remove_spec; [apply sw_asym|apply sw_negtrans]. Qed.

(** [pqueue_change_priority] gives the element its new priority and keeps
    the heap order and the set of elements, for a raise as for a drop. *)
Theorem pqueue_change_priority_correct (np x : Z) (q : pqueue_t) :
  pq_ok cmppri q -> setpos_cb q = Store -> elem q x ->
  wp (pqueue_change_priority cmppri np x) (fun _ q' => pq_ok cmppri q' /\
    (forall y, elem q' y <-> elem q y) /\
    forall y, prio q' y = if decide (y = x) then np else prio q y) q.
Proof. apply pqueue_change_priority_spec; [apply sw_asym|apply sw_negtrans]. Qed.

(** [pqueue_print], when its copy can be allocated, terminates and prints every element of the queue exactly
    once, in the order of their rank. *)
Theorem pqueue_print_sorted (q : pqueue_t) :
  pq_ok cmppri q -> ~ elem q 0 ->
  exists l, pqueue_print cmppri true true q = Ok l /\ NoDup l /\ (forall y, y ∈ l <-> elem q y) /\
    StronglySorted (fun a b => cmppri (prio q a) (prio q b) = false) l.
Proof.
  intros [[Hsz Hst He Hpos] Hh] H0. unfold pqueue_print. cbn [pqueue_init negb].
  set (dup := set_d _ _).
  assert (Hok : pq_ok cmppri dup) by (split; [split; [done|done|by destruct He; split|done]|done]).
  destruct (wp_inv _ _ _ (drain_spec _ cmppri sw_asym sw_negtrans (prio q) (Z.to_nat (qsize q)) dup Hok H0
    (Nat.le_refl _) (fun _ => eq_refl))) as (l & q' & -> & Hl). by exists l.
Qed.

(** [pqueue_is_valid] changes nothing and answers whether the array is in heap
    order, for any array of known, distinct elements. *)
Theorem pqueue_is_valid_correct (q : pqueue_t) :
  wf q -> wp (pqueue_is_valid cmppri) (fun b q' => q' = q /\
    (b = true <-> heap cmppri (prio q) (qsize q) (arr q))) q.
Proof. apply pqueue_is_valid_spec. Qed.
End claims.

(** A queue of three elements, built by the operations. *)
Definition elements : gmap Z node := {[1 := Node 50 0; 2 := Node 90 0; 3 := Node 70 0; 4 := Node 60 0]}.
Definition q0 : pqueue_t := Q 1 8 8 ∅ Store elements.
Definition inserted (x : Z) (q : pqueue_t) : pqueue_t :=
  match pqueue_insert Z.ltb x true q with Ok (_, q') => q' | Fault _ => q end.
Definition q3 : pqueue_t := inserted 3 (inserted 2 (inserted 1 q0)).

Lemma q0_ok : pq_ok Z.ltb q0 /\ forall y, elem q0 y <-> False.
Proof.
  split; [|intros y; split; [|done]; intros (k & Hk & _); simpl in Hk; lia].
  split; [split; [by simpl|by simpl|split; [red|]|]|red]; intros; simpl in *; lia.
Qed.

Lemma inserted_ok x q (P : Z -> Prop) :
  pq_ok Z.ltb q /\ (forall y, elem q y <-> P y) ->
  qsize q < avail q -> ~ P x -> is_Some (nodes q !! x) ->
  pq_ok Z.ltb (inserted x q) /\ forall y, elem (inserted x q) y <-> y = x \/ P y.
Proof.
  intros [Hok HP] Hlt Hx Hn.
  destruct (wp_inv _ _ _ (pqueue_insert_spec (fun _ => False) Z.ltb sw_asym sw_negtrans x true q Hok
    (fun H => Hx (proj1 (HP x) H)) Hn)) as (rc & q' & E & Hq).
  unfold inserted. rewrite E. rewrite bool_decide_eq_false_2 in Hq by lia. simpl in Hq.
  destruct Hq as (_ & Hok' & Hel & _). split; [done|]. intros y. by rewrite Hel, HP.
Qed.

Lemma q3_ok : pq_ok Z.ltb q3 /\ forall y, elem q3 y <-> y = 3 \/ y = 2 \/ y = 1 \/ False.
Proof.
  unfold q3. repeat apply inserted_ok; try apply q0_ok; try (by vm_compute); try lia; vm_compute; eauto.
Qed.

Lemma pqueue_insert_correct_witness :
  wp (pqueue_insert Z.ltb 4 true) (fun rc q' => rc = 0 /\ pq_ok Z.ltb q') q3.
Proof.
  destruct q3_ok as [Hok Hel]. eapply wpf_mono;
    [apply (pqueue_insert_correct Z.ltb 4 true q3 Hok); [rewrite Hel; lia|vm_compute; eauto]|].
  intros rc q'. replace (bool_decide (avail q3 ≤ qsize q3)) with false by by vm_compute. naive_solver.
Defined.

Lemma pqueue_pop_highest_witness :
  exists q', pqueue_pop Z.ltb q3 = Ok (Some 2, q') /\ forall y, elem q' y <-> y = 3 \/ y = 1.
Proof.
  destruct q3_ok as [Hok Hel].
  destruct (wpf_value _ _ _ _ (Some 2) (pqueue_pop_highest Z.ltb q3 Hok)) as (q' & E & H); [by vm_compute|].
  exists q'. split; [done|]. intros y. destruct H as (_ & _ & _ & _ & H & _). rewrite H, Hel. lia.
Defined.

Lemma pqueue_remove_correct_witness :
  exists q', pqueue_remove Z.ltb 1 q3 = Ok (0, q') /\ forall y, elem q' y <-> y = 3 \/ y = 2.
Proof.
  destruct q3_ok as [Hok Hel].
  destruct (wpf_value _ _ _ _ 0 (pqueue_remove_correct Z.ltb 1 q3 Hok eq_refl ltac:(rewrite Hel; lia)))
    as (q' & E & H); [by vm_compute|].
  exists q'. split; [done|]. intros y. destruct H as (_ & _ & _ & H & _). rewrite H, Hel. lia.
Defined.

Lemma pqueue_change_priority_correct_witness :
  exists q', pqueue_change_priority Z.ltb 95 1 q3 = Ok (tt, q') /\ pq_ok Z.ltb q' /\ prio q' 1 = 95.
Proof.
  destruct q3_ok as [Hok Hel].
  destruct (wpf_value _ _ _ _ tt (pqueue_change_priority_correct Z.ltb 95 1 q3 Hok eq_refl ltac:(rewrite Hel; lia)))
    as (q' & E & H); [by vm_compute|].
  exists q'. destruct H as (H1 & _ & H2). split_and!; [done|done|]. by rewrite H2.
Defined.

Lemma pqueue_print_sorted_witness :
  pqueue_print Z.ltb true true q3 = Ok [2; 3; 1] /\ StronglySorted (fun a b => (prio q3 a <? prio q3 b) = false) [2; 3; 1].
Proof.
  destruct q3_ok as [Hok Hel].
  destruct (pqueue_print_sorted Z.ltb q3 Hok ltac:(rewrite Hel; lia)) as (l & E & _ & _ & Hs).
  assert (E' : pqueue_print Z.ltb true true q3 = Ok [2; 3; 1]) by by vm_compute.
  split; [done|]. rewrite E' in E. injection E as <-. done.
Defined.

Lemma pqueue_is_valid_correct_witness :
  exists q', pqueue_is_valid Z.ltb q3 = Ok (true, q') /\ heap Z.ltb (prio q3) (qsize q3) (arr q3).
Proof.
  destruct (wpf_value _ _ _ _ true (pqueue_is_valid_correct Z.ltb q3 (proj1 (proj1 q3_ok))))
    as (q' & E & _ & H); [by vm_compute|]. exists q'. split; [done|by apply H].
Defined.

End Pqueue.
