(* ===== verification/Arith.v ===== *)
(** * Arithmetic macros

    Models [libutils/include/utils/arith.h] and [page.h] at the width of
    [unsigned long] (64 bits), with the wrap-around written out; [MASK] fails
    its assertions with [None].  Division by zero is excluded by the callers
    of the macros.  Proves what the macros compute, with the bounds under which
    they do. *)

From S2P Require Import Prelude.

Definition BIT (n : Z) : Z := Z.shiftl 1 n.
Definition MASK_UNSAFE (x : Z) : Z := w64 (BIT x - 1).
Definition MASK (n : Z) : option Z :=
  if bool_decide (n ≤ 64) && bool_decide (0 < n)
  then Some (Z.lor (MASK_UNSAFE (n - 1)) (BIT (n - 1)))
  else None.
Definition IS_ALIGNED (n b : Z) : option bool := m ← MASK b; Some (bool_decide (Z.land n m = 0)).

(** [CLZL] is undefined on 0. *)
Definition CLZL (n : Z) : option Z := if bool_decide (0 < n) then Some (63 - Z.log2 n) else None.
Definition LOG_BASE_2 (n : Z) : option Z := c ← CLZL n; Some (w64 (64 - c - 1)).

Definition smear (k temp : Z) : Z := Z.lor temp (Z.shiftr temp k).
Definition NEXT_POWER_OF_2 (x : Z) : Z :=
  let temp := w32 x in
  let temp := smear 1 temp in
  let temp := smear 2 temp in
  let temp := smear 4 temp in
  let temp := smear 8 temp in
  let temp := smear 16 temp in
  w32 (temp + 1).

Definition IS_POWER_OF_2_OR_ZERO (x : Z) : bool := bool_decide (0 = Z.land x (w64 (x - 1))).
Definition IS_POWER_OF_2 (x : Z) : bool := bool_decide (x ≠ 0) && IS_POWER_OF_2_OR_ZERO x.

(** [~] at the width of a word. *)
Definition not64 (x : Z) : Z := 2 ^ 64 - 1 - x.
Definition ALIGN_UP (x n : Z) : Z := Z.land (w64 (w64 (x + n) - 1)) (not64 (w64 (n - 1))).
Definition ALIGN_DOWN (x n : Z) : Z := Z.land x (not64 (w64 (n - 1))).
Definition ROUND_DOWN (n b : Z) : Z := n - n mod b.
Definition ROUND_UP (n b : Z) : Z := w64 (n + (if bool_decide (n mod b = 0) then 0 else b - n mod b)).
Definition DIV_ROUND_UP (n d : Z) : Z := n / d + (if bool_decide (n mod d = 0) then 0 else 1).
Definition DIV_ROUND_UNSAFE (n d : Z) : Z := w64 (n + d / 2) / d.
Definition DIV_ROUND (n d : Z) : Z := n / d + (if bool_decide (d / 2 ≤ n mod d) then 1 else 0).
Definition MIN (a b : Z) : Z := if bool_decide (a < b) then a else b.
Definition MAX (a b : Z) : Z := if bool_decide (b < a) then a else b.
Definition INRANGE (a x b : Z) : Z := MIN (MAX x a) b.
Definition ISINRANGE (a x b : Z) : bool := bool_decide (x = INRANGE a x b).
Definition CLAMP (min value max : Z) : Z :=
  if bool_decide (max < value) then max else if bool_decide (value < min) then min else value.
(** At the width of a word, where the test subtracts without borrow. *)
Definition CLAMP_ADD (op1 op2 limit : Z) : Z :=
  if bool_decide (w64 (limit - op2) < op1) then limit else w64 (op1 + op2).
Definition CLAMP_SUB (op1 op2 limit : Z) : Z :=
  if bool_decide (op1 < w64 (limit + op2)) then limit else w64 (op1 - op2).

Definition PAGE_BITS_4K : Z := 12.
Definition PAGE_SIZE_4K : Z := BIT PAGE_BITS_4K.
Definition PAGE_MASK_4K : Z := PAGE_SIZE_4K - 1.
Definition PAGE_ALIGN_4K (addr : Z) : Z := Z.land addr (not64 PAGE_MASK_4K).
Definition IS_ALIGNED_4K (addr : Z) : option bool := IS_ALIGNED addr PAGE_BITS_4K.
Definition BYTES_TO_SIZE_BITS_PAGES (b size_bits : Z) : Z :=
  b / BIT size_bits + (if bool_decide (0 < b mod BIT size_bits) then 1 else 0).
Definition BYTES_TO_4K_PAGES (b : Z) : Z := BYTES_TO_SIZE_BITS_PAGES b PAGE_BITS_4K.
Definition BYTES_TO_SIZE_BITS (bytes : Z) : option Z := LOG_BASE_2 bytes.
Definition SAME_PAGE_4K (a b : Z) : bool := bool_decide (PAGE_ALIGN_4K a = PAGE_ALIGN_4K b).

(** ** Powers of two and bits *)

Lemma BIT_pow n : 0 ≤ n -> BIT n = 2 ^ n.
Proof. intros. unfold BIT. by rewrite Z.shiftl_1_l. Qed.
Lemma BIT_pos n : 0 ≤ n -> 0 < BIT n.
Proof. intros. rewrite BIT_pow by done. by apply Z.pow_pos_nonneg. Qed.

Lemma not64_mask k : 0 ≤ k ≤ 64 -> not64 (2 ^ k - 1) = Z.ldiff (Z.ones 64) (Z.ones k).
Proof.
  intros Hk. rewrite <- Z.sub_nocarry_ldiff; [unfold not64; rewrite !Z.ones_equiv; lia|].
  apply Z.bits_inj'. intros j Hj. rewrite Z.ldiff_spec, Z.bits_0.
  destruct (decide (j < k)); [rewrite (Z.ones_spec_low 64) by lia; apply andb_false_r|].
  by rewrite (Z.ones_spec_high k) by lia.
Qed.
Lemma testbit_w64 x i : 0 ≤ x < 2 ^ 64 -> Z.testbit x i = true -> i < 64.
Proof.
  intros Hx Ht. destruct (decide (i < 64)); [done|]. destruct (decide (x = 0)) as [->|]; [by rewrite Z.bits_0 in Ht|].
  rewrite Z.bits_above_log2 in Ht; [done|lia|]. enough (Z.log2 x < 64) by lia. apply Z.log2_lt_pow2; lia.
Qed.
(** Clearing the low bits of a word rounds it down. *)
Lemma lor_w64 a b : 0 ≤ a < 2 ^ 64 -> 0 ≤ b < 2 ^ 64 -> 0 ≤ Z.lor a b < 2 ^ 64.
Proof. by apply lor_below. Qed.
Lemma land_not_mask x k : 0 ≤ x < 2 ^ 64 -> 0 ≤ k ≤ 64 -> Z.land x (not64 (2 ^ k - 1)) = x - x mod 2 ^ k.
Proof.
  intros Hx Hk. transitivity (Z.ldiff x (Z.ones k)).
  - rewrite not64_mask by done. apply Z.bits_inj'. intros i Hi. rewrite Z.land_spec, !Z.ldiff_spec.
    destruct (Z.testbit x i) eqn:T; [|done]. apply testbit_w64 in T; [|done].
    by rewrite (Z.ones_spec_low 64) by lia.
  - rewrite Z.ldiff_ones_r, Z.shiftl_mul_pow2, Z.shiftr_div_pow2 by lia.
    pose proof (Z.div_mod x (2 ^ k)). pose proof (Z.pow_pos_nonneg 2 k). lia.
Qed.
Lemma pow2_le k : 0 ≤ k < 64 -> 1 ≤ 2 ^ k < 2 ^ 64.
Proof. intros Hk. split; [pose proof (Z.pow_pos_nonneg 2 k); lia|apply Z.pow_lt_mono_r; lia]. Qed.

(** ** The macros *)

Lemma ALIGN_DOWN_spec x k : 0 ≤ x < 2 ^ 64 -> 0 ≤ k < 64 -> ALIGN_DOWN x (2 ^ k) = x - x mod 2 ^ k.
Proof.
  intros Hx Hk. pose proof (pow2_le k Hk). unfold ALIGN_DOWN. rewrite w64_small by lia. apply land_not_mask; lia.
Qed.
Lemma ALIGN_UP_wrap x k :
  0 ≤ k < 64 -> ALIGN_UP x (2 ^ k) = w64 (x + 2 ^ k - 1) - w64 (x + 2 ^ k - 1) mod 2 ^ k.
Proof.
  intros Hk. pose proof (pow2_le k Hk). unfold ALIGN_UP. rewrite (w64_small (2 ^ k - 1)) by lia.
  unfold w64. rewrite Zminus_mod_idemp_l. apply land_not_mask; [apply Z.mod_pos_bound|]; lia.
Qed.
Lemma ALIGN_UP_spec x k :
  0 ≤ x -> 0 ≤ k < 64 -> x + 2 ^ k - 1 < 2 ^ 64 -> ALIGN_UP x (2 ^ k) = (x + 2 ^ k - 1) - (x + 2 ^ k - 1) mod 2 ^ k.
Proof. intros Hx Hk Hs. pose proof (pow2_le k Hk). rewrite ALIGN_UP_wrap by done. by rewrite w64_small by lia. Qed.
Lemma round_up_least x n : 0 < n ->
  let r := (x + n - 1) - (x + n - 1) mod n in x ≤ r < x + n /\ r mod n = 0.
Proof.
  intros Hn. pose proof (Z.mod_pos_bound (x + n - 1) n Hn). split; [lia|].
  rewrite Zminus_mod_idemp_r, Z.sub_diag. by apply Z.mod_0_l; lia.
Qed.

Lemma BYTES_TO_4K_PAGES_spec b : 0 ≤ b ->
  (BYTES_TO_4K_PAGES b - 1) * 4096 < b ≤ BYTES_TO_4K_PAGES b * 4096 \/ b = 0 /\ BYTES_TO_4K_PAGES b = 0.
Proof.
  intros Hb. unfold BYTES_TO_4K_PAGES, BYTES_TO_SIZE_BITS_PAGES, PAGE_BITS_4K. change (BIT 12) with 4096.
  pose proof (Z.div_mod b 4096). pose proof (Z.mod_pos_bound b 4096). case_bool_decide; lia.
Qed.

Lemma LOG_BASE_2_spec n : 0 < n < 2 ^ 64 -> LOG_BASE_2 n = Some (Z.log2 n).
Proof.
  intros Hn. unfold LOG_BASE_2, CLZL. rewrite bool_decide_eq_true_2 by lia. simpl.
  assert (0 ≤ Z.log2 n < 64) by (split; [apply Z.log2_nonneg|apply Z.log2_lt_pow2; lia]).
  rewrite w64_small by lia. f_equal. lia.
Qed.

(** A value whose bits are those of [x] smeared over the [k] places below. *)
Definition smeared (x k y : Z) : Prop :=
  forall i, 0 ≤ i -> Z.testbit y i = true <-> exists j, 0 ≤ j < k /\ Z.testbit x (i + j) = true.
Lemma smeared_double x k y : 0 < k -> smeared x k y -> smeared x (2 * k) (smear k y).
Proof.
  intros Hk H i Hi. unfold smear. rewrite Z.lor_spec, Z.shiftr_spec, orb_true_iff, (H i), (H (i + k)) by lia. split.
  - intros [(j & Hj & T)|(j & Hj & T)]; [exists j|exists (k + j)]; (split; [lia|]); [done|].
    by replace (i + (k + j)) with (i + k + j) by lia.
  - intros (j & Hj & T). destruct (decide (j < k)); [left; exists j|right; exists (j - k)]; (split; [lia|]); [done|].
    by replace (i + k + (j - k)) with (i + j) by lia.
Qed.
Lemma smeared_all x y : 0 < x < 2 ^ 32 -> smeared x 32 y -> y = Z.ones (Z.succ (Z.log2 x)).
Proof.
  intros Hx H. assert (Hl : 0 ≤ Z.log2 x < 32) by (split; [apply Z.log2_nonneg|apply Z.log2_lt_pow2; lia]).
  apply Z.bits_inj'. intros i Hi. apply eq_true_iff_eq. rewrite (H i) by done. split.
  - intros (j & Hj & T). destruct (decide (i < Z.succ (Z.log2 x))); [apply Z.ones_spec_low; lia|].
    rewrite Z.bits_above_log2 in T; [done|lia..].
  - intros T. destruct (decide (i < Z.succ (Z.log2 x))); [|rewrite Z.ones_spec_high in T; [done|lia]].
    exists (Z.log2 x - i). split; [lia|]. replace (i + (Z.log2 x - i)) with (Z.log2 x) by lia.
    apply Z.bit_log2. lia.
Qed.
Lemma NEXT_POWER_OF_2_spec x : 0 < x < 2 ^ 32 -> NEXT_POWER_OF_2 x = w32 (2 ^ Z.succ (Z.log2 x)).
Proof.
  intros Hx. unfold NEXT_POWER_OF_2. rewrite (w32_small x) by lia. f_equal.
  assert (Hs : smeared x 32 (smear 16 (smear 8 (smear 4 (smear 2 (smear 1 x)))))).
  { apply (smeared_double x 16), (smeared_double x 8), (smeared_double x 4), (smeared_double x 2),
      (smeared_double x 1); try done. intros i Hi. split.
    - intros T. exists 0. by rewrite Z.add_0_r.
    - intros (j & Hj & T). by replace (i + j) with i in T by lia. }
  rewrite (smeared_all x _ Hx Hs), Z.ones_equiv. lia.
Qed.

Lemma MASK_spec n : MASK n = if bool_decide (0 < n ≤ 64) then Some (2 ^ n - 1) else None.
Proof.
  unfold MASK. destruct (decide (0 < n ≤ 64)) as [Hn|Hn].
  - rewrite !bool_decide_eq_true_2 by lia. simpl. f_equal.
    pose proof (pow2_le (n - 1) ltac:(lia)). unfold MASK_UNSAFE. rewrite BIT_pow, w64_small by lia.
    replace (2 ^ (n - 1) - 1) with (Z.ones (n - 1)) by (rewrite Z.ones_equiv; lia).
    transitivity (Z.ones n); [|rewrite Z.ones_equiv; lia]. apply Z.bits_inj'. intros i Hi.
    rewrite Z.lor_spec, Z.pow2_bits_eqb by lia. destruct (decide (i < n - 1)); [|destruct (decide (i = n - 1))].
    + by rewrite !Z.ones_spec_low by lia.
    + subst i. rewrite Z.eqb_refl, (Z.ones_spec_low n) by lia. apply orb_true_r.
    + rewrite !Z.ones_spec_high by lia. apply Z.eqb_neq. lia.
  - rewrite (bool_decide_eq_false_2 (0 < n ≤ 64)) by done.
    case_bool_decide; [|done]. by rewrite bool_decide_eq_false_2 by lia.
Qed.

(** For a power of two [n], [ALIGN_UP] gives the least multiple of [n] that is not below
    [x] when it fits a word; past the last multiple of the word it wraps to 0. *)
Theorem ALIGN_UP_least x k :
  0 ≤ x < 2 ^ 64 -> 0 ≤ k < 64 ->
  let r := ALIGN_UP x (2 ^ k) in
  if bool_decide (x + 2 ^ k - 1 < 2 ^ 64) then x ≤ r < x + 2 ^ k /\ r mod 2 ^ k = 0 else r = 0.
Proof.
  intros Hx Hk. pose proof (pow2_le k Hk) as Hp. simpl. case_bool_decide.
  - rewrite ALIGN_UP_spec by lia. apply round_up_least. lia.
  - rewrite ALIGN_UP_wrap by done. replace (w64 (x + 2 ^ k - 1)) with (x + 2 ^ k - 1 - 2 ^ 64).
    + rewrite Z.mod_small; lia.
    + unfold w64. rewrite <- (Z.mod_add _ (-1)) by lia. symmetry. apply Z.mod_small. lia.
Qed.
Lemma ALIGN_UP_least_witness : 4097 ≤ ALIGN_UP 4097 (2 ^ 12) < 8193 /\ ALIGN_UP 4097 (2 ^ 12) mod 2 ^ 12 = 0.
Proof. apply (ALIGN_UP_least 4097 12); lia. Defined.

(** [NEXT_POWER_OF_2] gives the least power of two above a positive 31-bit argument, and 0
    for the larger 32-bit ones. *)
Theorem NEXT_POWER_OF_2_correct x :
  0 < x < 2 ^ 32 ->
  if bool_decide (x < 2 ^ 31) then exists k, 0 < k /\ NEXT_POWER_OF_2 x = 2 ^ k /\ 2 ^ (k - 1) ≤ x < 2 ^ k
  else NEXT_POWER_OF_2 x = 0.
Proof.
  intros Hx. rewrite NEXT_POWER_OF_2_spec by done. pose proof (Z.log2_spec x ltac:(lia)) as Hl.
  pose proof (Z.log2_nonneg x). case_bool_decide.
  - exists (Z.succ (Z.log2 x)). assert (Z.log2 x < 31) by (apply Z.log2_lt_pow2; lia). split; [lia|split].
    + apply w32_small. split; [lia|]. apply Z.pow_lt_mono_r; lia.
    + by replace (Z.succ (Z.log2 x) - 1) with (Z.log2 x) by lia.
  - assert (Z.log2 x < 32) by (apply Z.log2_lt_pow2; lia).
    assert (31 ≤ Z.log2 x) by (apply Z.log2_le_pow2; lia).
    replace (Z.log2 x) with 31 by lia. done.
Qed.
Lemma NEXT_POWER_OF_2_correct_witness : exists k, 0 < k /\ NEXT_POWER_OF_2 64 = 2 ^ k /\ 2 ^ (k - 1) ≤ 64 < 2 ^ k.
Proof. apply (NEXT_POWER_OF_2_correct 64). lia. Defined.

(** [DIV_ROUND] rounds to the nearest multiple for an even divisor. *)
Lemma DIV_ROUND_even n d : 0 ≤ n -> 0 < d -> d mod 2 = 0 -> n - d < 2 * (DIV_ROUND n d * d) - n ≤ n + d.
Proof.
  intros Hn Hd He. unfold DIV_ROUND. pose proof (Z.div_mod n d ltac:(lia)). pose proof (Z.mod_pos_bound n d Hd).
  pose proof (Z.div_mod d 2 ltac:(lia)). case_bool_decide; nia.
Qed.
(** For an odd one it does not, and the example of its comment, 2, is not what it gives. *)
Lemma DIV_ROUND_odd : DIV_ROUND 7 3 = 3 /\ DIV_ROUND_UNSAFE 7 3 = 2.
Proof. done. Qed.
