(* ===== verification/Bitfield.v ===== *)
(** * Bit fields

    Models [libsel4cspace/include/cspace/bitfield.h]: an array of 64-bit words
    indexed by bit.  An index outside the array is [None].  Proves that the
    operations implement a set of bit numbers and that [bf_first_free] finds
    its least non-member. *)

From S2P Require Import Prelude Arith.

Definition WORD_BITS : Z := 64.
Definition ULONG_MAX : Z := 2 ^ 64 - 1.
Definition WORD_INDEX (bit : Z) : Z := bit / WORD_BITS.
Definition BIT_INDEX (bit : Z) : Z := bit mod WORD_BITS.

Definition word_at (bits : list Z) (i : Z) : option Z :=
  if bool_decide (0 ≤ i) then bits !! Z.to_nat i else None.
Definition set_word (bits : list Z) (i w : Z) : list Z := <[Z.to_nat i := w]> bits.

Definition bf_set_bit (bits : list Z) (bit : Z) : option (list Z) :=
  w ← word_at bits (WORD_INDEX bit);
  Some (set_word bits (WORD_INDEX bit) (Z.lor w (BIT (BIT_INDEX bit)))).

(** The complement is taken at the width of a word. *)
Definition bf_clr_bit (bits : list Z) (bit : Z) : option (list Z) :=
  w ← word_at bits (WORD_INDEX bit);
  Some (set_word bits (WORD_INDEX bit) (Z.land w (Z.lxor (BIT (BIT_INDEX bit)) ULONG_MAX))).

Definition bf_get_bit (bits : list Z) (bit : Z) : option bool :=
  w ← word_at bits (WORD_INDEX bit);
  Some (bool_decide (Z.land w (BIT (BIT_INDEX bit)) ≠ 0)).

(** The compiler's count of trailing zeros; undefined on 0. *)
Fixpoint ctz_pos (p : positive) : Z :=
  match p with
  | xO p => 1 + ctz_pos p
  | _ => 0
  end.
Definition CTZL (v : Z) : option Z :=
  match v with
  | Zpos p => Some (ctz_pos p)
  | _ => None
  end.

(** The loop of [bf_first_free]: the number of leading words that are full. *)
Fixpoint full_words (bits : list Z) : nat :=
  match bits with
  | [] => 0
  | w :: r => if bool_decide (w = ULONG_MAX) then S (full_words r) else 0
  end.

(** The array has [words] words; [None] is the failed assertion on [val]. *)
Definition bf_first_free (bits : list Z) : option Z :=
  let i := full_words bits in
  let bit := Z.of_nat i * WORD_BITS in
  match bits !! i with
  | None => Some bit
  | Some w => n ← CTZL (Z.lxor w ULONG_MAX); Some (bit + n)
  end.

(** ** The set of bits *)

(** Words are in range. *)
Definition bf_ok (bits : list Z) : Prop := Forall is_w64 bits.
Definition bf_size (bits : list Z) : Z := Z.of_nat (length bits) * 64.
Definition has (bits : list Z) (k : Z) : Prop :=
  exists w, word_at bits (k / 64) = Some w /\ Z.testbit w (k mod 64) = true.

#[export] Instance has_dec bits k : Decision (has bits k).
Proof.
  destruct (word_at bits (k / 64)) as [w|] eqn:E.
  - destruct (Z.testbit w (k mod 64)) eqn:T; [left; by exists w|right].
    intros (w' & Hw & Ht). rewrite E in Hw. injection Hw as <-. congruence.
  - right. intros (w & Hw & _). congruence.
Defined.

Lemma word_at_Some bits k : 0 ≤ k < bf_size bits -> exists w, word_at bits (k / 64) = Some w.
Proof.
  unfold bf_size, word_at. intros Hk. assert (0 ≤ k / 64 < Z.of_nat (length bits)).
  { split; [apply Z.div_pos; lia|]. apply Z.div_lt_upper_bound; lia. }
  rewrite bool_decide_eq_true_2 by lia. apply lookup_lt_is_Some. lia.
Qed.
Lemma word_at_None bits k : bf_size bits ≤ k -> word_at bits (k / 64) = None.
Proof.
  unfold bf_size, word_at. intros Hk. case_bool_decide; [|done]. apply lookup_ge_None.
  assert (Z.of_nat (length bits) ≤ k / 64) by (apply Z.div_le_lower_bound; lia). lia.
Qed.
Lemma has_lt bits k : has bits k -> 0 ≤ k < bf_size bits.
Proof.
  intros (w & Hw & _). destruct (decide (bf_size bits ≤ k)); [by rewrite word_at_None in Hw|].
  split; [|lia]. unfold word_at in Hw. case_bool_decide; [|done].
  assert (k = 64 * (k / 64) + k mod 64) by (apply Z.div_mod; lia).
  pose proof (Z.mod_pos_bound k 64). lia.
Qed.

Lemma word_at_set bits i j w :
  is_Some (word_at bits i) -> word_at (set_word bits i w) j = if decide (j = i) then Some w else word_at bits j.
Proof.
  unfold word_at, set_word. intros [v Hv]. case_bool_decide; [|done].
  pose proof (lookup_lt_Some _ _ _ Hv) as Hl.
  case_decide as Hj; [subst j; rewrite bool_decide_eq_true_2 by done; by apply list_lookup_insert_eq|].
  case_bool_decide; [|done]. apply list_lookup_insert_ne. lia.
Qed.

Lemma bit_word k b : 0 ≤ k -> 0 ≤ b -> k / 64 = b / 64 -> k mod 64 = b mod 64 -> k = b.
Proof.
  intros ? ? Hd Hm. rewrite (Z.div_mod k 64), (Z.div_mod b 64) by lia. by rewrite Hd, Hm.
Qed.
Lemma BIT_testbit n i : 0 ≤ n -> 0 ≤ i -> Z.testbit (BIT n) i = bool_decide (i = n).
Proof.
  intros Hn Hi. unfold BIT. rewrite Z.shiftl_1_l, Z.pow2_bits_eqb by done.
  case_bool_decide; [apply Z.eqb_eq|apply Z.eqb_neq]; lia.
Qed.
Lemma ULONG_MAX_testbit i : 0 ≤ i -> Z.testbit ULONG_MAX i = bool_decide (i < 64).
Proof.
  intros Hi. unfold ULONG_MAX. replace (2 ^ 64 - 1) with (Z.ones 64) by done.
  case_bool_decide; [apply Z.ones_spec_low|apply Z.ones_spec_high]; lia.
Qed.
Lemma is_w64_testbit w : is_w64 w <-> 0 ≤ w /\ forall i, 64 ≤ i -> Z.testbit w i = false.
Proof.
  unfold is_w64. split; intros [H0 H]; split; try done.
  - intros i Hi. destruct (decide (w = 0)) as [->|]; [apply Z.bits_0|].
    apply Z.bits_above_log2; [done|]. enough (Z.log2 w < 64) by lia. apply Z.log2_lt_pow2; lia.
  - destruct (decide (w = 0)) as [->|]; [done|]. apply Z.log2_lt_pow2; [lia|].
    destruct (decide (Z.log2 w < 64)); [done|]. exfalso.
    assert (Z.testbit w (Z.log2 w) = true) by (apply Z.bit_log2; lia).
    rewrite H in H1 by lia. done.
Qed.

(** One changed word changes the bits of that word only. *)
Lemma has_set bits b w (P : Z -> Prop) :
  is_Some (word_at bits (b / 64)) -> 0 ≤ b ->
  (forall k, k / 64 = b / 64 -> 0 ≤ k -> Z.testbit w (k mod 64) = true <-> P k) ->
  (forall k, k / 64 <> b / 64 -> has bits k <-> P k) -> (forall k, P k -> 0 ≤ k) ->
  forall k, has (set_word bits (b / 64) w) k <-> P k.
Proof.
  intros Hs Hb Hin Hout HP k. unfold has. rewrite (word_at_set bits _ _ w) by done.
  case_decide as E; [|by apply Hout]. split.
  - intros (w' & [= <-] & Ht). apply Hin; [done| |done].
    assert (0 ≤ k / 64) by (rewrite E; apply Z.div_pos; lia).
    rewrite (Z.div_mod k 64) by lia. pose proof (Z.mod_pos_bound k 64). lia.
  - intros Hk. exists w. split; [done|]. apply Hin; [done|by apply HP|done].
Qed.

Lemma set_word_ok bits i w : bf_ok bits -> is_w64 w -> bf_ok (set_word bits i w).
Proof. intros H Hw. by apply Forall_insert. Qed.
Lemma set_word_length bits i w : length (set_word bits i w) = length bits.
Proof. apply length_insert. Qed.
Lemma word_at_ok bits i w : bf_ok bits -> word_at bits i = Some w -> is_w64 w.
Proof. intros H Hw. unfold word_at in Hw. case_bool_decide; [|done]. by eapply Forall_lookup_1 in Hw. Qed.

Lemma bf_set_bit_spec bits b :
  bf_ok bits -> 0 ≤ b < bf_size bits ->
  exists bits', bf_set_bit bits b = Some bits' /\ bf_ok bits' /\ length bits' = length bits /\
    forall k, has bits' k <-> k = b \/ has bits k.
Proof.
  intros Hok Hb. destruct (word_at_Some bits b Hb) as [w Hw]. pose proof (word_at_ok _ _ _ Hok Hw) as Hr.
  pose proof (Z.mod_pos_bound b 64 ltac:(lia)) as Hm.
  exists (set_word bits (b / 64) (Z.lor w (BIT (b mod 64)))). unfold bf_set_bit, WORD_INDEX, BIT_INDEX, WORD_BITS.
  rewrite Hw. apply is_w64_testbit in Hr as [Hr0 Hr]. split_and!; [done| |apply set_word_length|].
  - apply set_word_ok; [done|]. apply is_w64_testbit. split.
    { apply Z.lor_nonneg. split; [done|]. apply Z.shiftl_nonneg. lia. }
    intros i Hi. rewrite Z.lor_spec, Hr, BIT_testbit by lia. by rewrite bool_decide_eq_false_2 by lia.
  - apply has_set; [by eexists|lia| | |].
    + intros k Hk Hk0. rewrite Z.lor_spec, BIT_testbit, orb_true_iff, bool_decide_eq_true by (try apply Z.mod_pos_bound; lia).
      split.
      * intros [?|E]; [right; exists w; by rewrite Hk|left; by apply bit_word; [|lia|..]].
      * intros [->|(w' & Hw' & ?)]; [by right|left]. rewrite Hk, Hw in Hw'. by injection Hw' as ->.
    + intros k Hk. split; [by right|]. intros [->|?]; done.
    + intros k [->|?%has_lt]; lia.
Qed.

Lemma bf_clr_bit_spec bits b :
  bf_ok bits -> 0 ≤ b < bf_size bits ->
  exists bits', bf_clr_bit bits b = Some bits' /\ bf_ok bits' /\ length bits' = length bits /\
    forall k, has bits' k <-> k ≠ b /\ has bits k.
Proof.
  intros Hok Hb. destruct (word_at_Some bits b Hb) as [w Hw]. pose proof (word_at_ok _ _ _ Hok Hw) as Hr.
  pose proof (Z.mod_pos_bound b 64 ltac:(lia)) as Hm.
  exists (set_word bits (b / 64) (Z.land w (Z.lxor (BIT (b mod 64)) ULONG_MAX))).
  unfold bf_clr_bit, WORD_INDEX, BIT_INDEX, WORD_BITS.
  rewrite Hw. apply is_w64_testbit in Hr as [Hr0 Hr]. split_and!; [done| |apply set_word_length|].
  - apply set_word_ok; [done|]. apply is_w64_testbit. split; [apply Z.land_nonneg; by left|].
    intros i Hi. by rewrite Z.land_spec, Hr.
  - apply has_set; [by eexists|lia| | |].
    + intros k Hk Hk0. pose proof (Z.mod_pos_bound k 64 ltac:(lia)).
      rewrite Z.land_spec, Z.lxor_spec, BIT_testbit, ULONG_MAX_testbit by lia.
      rewrite (bool_decide_eq_true_2 (k mod 64 < 64)), xorb_true_r, andb_true_iff, negb_true_iff, bool_decide_eq_false by lia.
      split.
      * intros [? E]. split; [congruence|]. exists w. by rewrite Hk.
      * intros [Hne (w' & Hw' & ?)]. rewrite Hk, Hw in Hw'. injection Hw' as ->. split; [done|].
        intros E. apply Hne. by apply bit_word; [|lia|..].
    + intros k Hk. split; [|tauto]. intros ?. split; [congruence|done].
    + intros k [_ ?%has_lt]; lia.
Qed.

Lemma bf_get_bit_spec bits b :
  0 ≤ b < bf_size bits -> bf_get_bit bits b = Some (bool_decide (has bits b)).
Proof.
  intros Hb. destruct (word_at_Some bits b Hb) as [w Hw].
  pose proof (Z.mod_pos_bound b 64 ltac:(lia)) as Hm.
  unfold bf_get_bit, WORD_INDEX, BIT_INDEX, WORD_BITS. rewrite Hw. simpl. f_equal.
  apply bool_decide_ext. split.
  - intros Hne. exists w. split; [done|]. destruct (Z.testbit w (b mod 64)) eqn:T; [done|]. destruct Hne.
    apply Z.bits_inj'. intros i Hi. rewrite Z.land_spec, BIT_testbit, Z.bits_0 by lia.
    case_bool_decide; [subst; by rewrite T|apply andb_false_r].
  - intros (w' & Hw' & Ht) E. rewrite Hw in Hw'. injection Hw' as <-.
    assert (Z.testbit (Z.land w (BIT (b mod 64))) (b mod 64) = false) as F by (rewrite E; apply Z.bits_0).
    rewrite Z.land_spec, Ht, BIT_testbit, bool_decide_eq_true_2 in F by lia. done.
Qed.

Lemma ctz_pos_spec p : 0 ≤ ctz_pos p /\ Z.testbit (Zpos p) (ctz_pos p) = true /\
  forall i, 0 ≤ i < ctz_pos p -> Z.testbit (Zpos p) i = false.
Proof.
  induction p as [p _|p (H0 & H1 & H2)|]; cbn [ctz_pos]; [split_and!; try done; lia| |split_and!; try done; lia].
  split_and!; [lia| |].
  - replace (1 + ctz_pos p) with (Z.succ (ctz_pos p)) by lia. rewrite Pos2Z.inj_xO. by rewrite Z.testbit_even_succ.
  - intros i Hi. rewrite Pos2Z.inj_xO. destruct (decide (i = 0)) as [->|]; [apply Z.testbit_even_0|].
    replace i with (Z.succ (i - 1)) by lia. rewrite Z.testbit_even_succ by lia. apply H2. lia.
Qed.
Lemma CTZL_spec v : 0 < v -> exists n, CTZL v = Some n /\ 0 ≤ n /\ Z.testbit v n = true /\
  forall i, 0 ≤ i < n -> Z.testbit v i = false.
Proof. destruct v as [|p|p]; [lia| |lia]. intros _. exists (ctz_pos p). split; [done|]. apply ctz_pos_spec. Qed.

Lemma full_words_spec bits :
  (full_words bits ≤ length bits)%nat /\
  (forall j, (j < full_words bits)%nat -> bits !! j = Some ULONG_MAX) /\
  bits !! full_words bits ≠ Some ULONG_MAX.
Proof.
  induction bits as [|w r (H1 & H2 & H3)]; cbn [full_words]; [split_and!; [done|lia|done]|].
  case_bool_decide as E; [|split_and!; [simpl; lia|lia|by intros [= ?]]].
  subst w. split_and!; [simpl; lia| |done]. intros [|j] Hj; [done|]. apply H2. lia.
Qed.

(** The bits of the word [i]. *)
Lemma word_at_bit bits (i : nat) w j :
  bits !! i = Some w -> 0 ≤ j < 64 -> has bits (Z.of_nat i * 64 + j) <-> Z.testbit w j = true.
Proof.
  intros Hw Hj. unfold has. rewrite Z.div_add_l, Z.div_small, Z.add_0_r by lia.
  rewrite (Z.add_comm _ j), Z.mod_add, Z.mod_small by lia.
  unfold word_at. rewrite bool_decide_eq_true_2, Nat2Z.id, Hw by lia.
  split; [intros (w' & [= <-] & ?); done|intros ?; by exists w].
Qed.
Lemma full_words_has bits k : 0 ≤ k < Z.of_nat (full_words bits) * 64 -> has bits k.
Proof.
  intros Hk. destruct (full_words_spec bits) as (_ & H2 & _). exists ULONG_MAX.
  assert (0 ≤ k / 64 < Z.of_nat (full_words bits)).
  { split; [apply Z.div_pos; lia|apply Z.div_lt_upper_bound; lia]. }
  pose proof (Z.mod_pos_bound k 64 ltac:(lia)). split.
  - unfold word_at. rewrite bool_decide_eq_true_2 by lia. apply H2. lia.
  - rewrite ULONG_MAX_testbit by lia. apply bool_decide_eq_true_2. lia.
Qed.
(** The complement of a word that is not full. *)
Lemma complement_ctz w :
  is_w64 w -> w ≠ ULONG_MAX -> exists n, CTZL (Z.lxor w ULONG_MAX) = Some n /\ 0 ≤ n < 64 /\
    Z.testbit w n = false /\ forall j, 0 ≤ j < n -> Z.testbit w j = true.
Proof.
  intros Hr Hne. pose proof (proj1 (is_w64_testbit w) Hr) as [_ Hb].
  assert (Hv : forall j, 0 ≤ j < 64 -> Z.testbit (Z.lxor w ULONG_MAX) j = negb (Z.testbit w j)).
  { intros j Hj. rewrite Z.lxor_spec, ULONG_MAX_testbit, bool_decide_eq_true_2 by lia. apply xorb_true_r. }
  assert (0 ≤ Z.lxor w ULONG_MAX) by (apply Z.lxor_nonneg; unfold is_w64, ULONG_MAX in *; lia).
  destruct (CTZL_spec (Z.lxor w ULONG_MAX)) as (n & -> & Hn0 & Hn & Hlow).
  { enough (Z.lxor w ULONG_MAX ≠ 0) by lia. by intros E%Z.lxor_eq. }
  assert (n < 64).
  { destruct (decide (n < 64)); [done|].
    rewrite Z.lxor_spec, Hb, ULONG_MAX_testbit, bool_decide_eq_false_2 in Hn by lia. done. }
  exists n. rewrite Hv in Hn by lia. apply negb_true_iff in Hn. split_and!; [done..|].
  intros j Hj. specialize (Hlow j Hj). rewrite Hv in Hlow by lia. by apply negb_false_iff in Hlow.
Qed.

Lemma bf_first_free_spec bits :
  bf_ok bits -> exists n, bf_first_free bits = Some n /\ 0 ≤ n ≤ bf_size bits /\
    (forall k, 0 ≤ k < n -> has bits k) /\ ~ has bits n.
Proof.
  intros Hok. destruct (full_words_spec bits) as (H1 & _ & H3). pose proof (full_words_has bits) as Hfull.
  unfold bf_first_free, WORD_BITS, bf_size. set (i := full_words bits) in *.
  destruct (bits !! i) as [w|] eqn:Hw.
  - destruct (complement_ctz w) as (n & -> & Hn & Hclr & Hset);
      [exact (Forall_lookup_1 _ _ _ _ Hok Hw)|congruence|].
    pose proof (lookup_lt_Some _ _ _ Hw). exists (Z.of_nat i * 64 + n). split_and!; [done|lia|lia| |].
    + intros k Hk. destruct (decide (k < Z.of_nat i * 64)); [apply Hfull; lia|].
      replace k with (Z.of_nat i * 64 + (k - Z.of_nat i * 64)) by lia.
      apply (word_at_bit _ _ w); [done|lia|apply Hset; lia].
    + rewrite (word_at_bit _ _ w) by done. by rewrite Hclr.
  - apply lookup_ge_None in Hw. exists (Z.of_nat i * 64). split_and!; try done; try lia.
    intros Hh%has_lt. unfold bf_size in Hh. lia.
Qed.

(** [bf_first_free] does not fail its assertion and returns the least bit that is clear,
    or the number of bits when all are set. *)
Theorem bf_first_free_least bits :
  bf_ok bits -> exists n, bf_first_free bits = Some n /\ 0 ≤ n ≤ bf_size bits /\
    (forall k, 0 ≤ k < n -> has bits k) /\ ~ has bits n.
Proof. apply bf_first_free_spec. Qed.
Lemma bf_first_free_least_witness : exists n, bf_first_free [ULONG_MAX; 11] = Some n /\ ~ has [ULONG_MAX; 11] n.
Proof.
  destruct (bf_first_free_least [ULONG_MAX; 11]) as (n & Hn & _ & _ & H).
  { repeat constructor; vm_compute; done. }
  by exists n.
Defined.
