(* ===== verification/Kernel.v ===== *)
(** * The kernel interface

    The system calls the components make, as data, and the class of kernels
    that answer them.  The kernel itself is not part of the model: a call
    returns an error code and changes the kernel's state in a way the
    components do not rely on beyond what their theorems name. *)

From S2P Require Import Prelude.

(** The constants of the 64-bit ARM platform. *)
Definition seL4_CapNull : Z := 0.
Definition seL4_NoError : Z := 0.
Definition seL4_FailedLookup : Z := 6.
Definition seL4_PageBits : Z := 12.
Definition seL4_EndpointBits : Z := 4.
Definition seL4_SlotBits : Z := 5.
Definition seL4_LargePageBits : Z := 21.
Definition seL4_WordBits : Z := 64.
Definition seL4_PageTableBits : Z := 12.
Definition seL4_PageTableIndexBits : Z := 9.
Definition seL4_PUDBits : Z := 12.
Definition seL4_PageDirBits : Z := 12.
Definition seL4_MaxUntypedBits : Z := 47.
Definition seL4_BadgeBits : Z := 64.

(** The initial capabilities the code names. *)
Definition seL4_CapInitThreadTCB : Z := 1.
Definition seL4_CapInitThreadCNode : Z := 2.
Definition seL4_CapInitThreadVSpace : Z := 3.
Definition SEL4_MAPPING_LOOKUP_NO_PT : Z := 21.
Definition SEL4_MAPPING_LOOKUP_NO_PD : Z := 30.
Definition SEL4_MAPPING_LOOKUP_NO_PUD : Z := 39.

Inductive seL4_ObjectType :=
| seL4_UntypedObject
| seL4_CapTableObject
| seL4_ARM_SmallPageObject
| seL4_ARM_LargePageObject
| seL4_ARM_PageTableObject
| seL4_ARM_PageDirectoryObject
| seL4_ARM_PageUpperDirectoryObject.

#[export] Instance object_type_eq_dec : EqDecision seL4_ObjectType.
Proof. solve_decision. Defined.

Inductive seL4_CapRights := seL4_AllRights | seL4_CanWrite.
Inductive seL4_VMAttributes := seL4_ARM_Default_VMAttributes | seL4_ARM_Uncached.

Inductive kcall :=
| Untyped_Retype (ut : Z) (type : seL4_ObjectType) (size_bits root node_index node_depth node_offset n : Z)
| CNode_Copy (droot dindex ddepth sroot sindex sdepth : Z) (rights : seL4_CapRights)
| CNode_Mint (droot dindex ddepth sroot sindex sdepth : Z) (rights : seL4_CapRights) (badge : Z)
| CNode_Move (droot dindex ddepth sroot sindex sdepth : Z)
| CNode_Mutate (droot dindex ddepth sroot sindex sdepth badge : Z)
| CNode_Delete (root index depth : Z)
| CNode_Revoke (root index depth : Z)
| CNode_SaveCaller (root index depth : Z)
| IRQControl_GetTrigger (irq_cap irq trigger root index depth : Z)
| IRQHandler_SetNotification (handler notification : Z)
| IRQHandler_Ack (handler : Z)
| Page_Map (frame vspace vaddr : Z) (rights : seL4_CapRights) (attr : seL4_VMAttributes)
| PageTable_Map (pt vspace vaddr : Z) (attr : seL4_VMAttributes)
| PageDirectory_Map (pd vspace vaddr : Z) (attr : seL4_VMAttributes)
| PageUpperDirectory_Map (pud vspace vaddr : Z) (attr : seL4_VMAttributes)
| VSpace_CleanInvalidate_Data (vspace start stop : Z)
| VSpace_Clean_Data (vspace start stop : Z)
| VSpace_Invalidate_Data (vspace start stop : Z)
| TCB_SetSpace (tcb fault_ep cspace_root cspace_data vspace_root vspace_data : Z).

(** A kernel: every call returns, with an error code. *)
Class Kernel (K : Type) := {
  invoke : kcall -> K -> Z * K;
  (** [seL4_MappingFailedLookupLevel]: what the last failed mapping lacked. *)
  seL4_MappingFailedLookupLevel : K -> Z;
  (** [seL4_CNode_CapData_new], generated by the kernel's build. *)
  seL4_CNode_CapData_new : Z -> Z -> Z;
}.

Definition call {K} `{Kernel K} (c : kcall) : M K Z := fun k => let '(e, k') := invoke c k in Ok (e, k').

Lemma wpf_call {K} `{Kernel K} F c (Q : Z -> K -> Prop) k :
  Q (fst (invoke c k)) (snd (invoke c k)) -> wpf F (call c) Q k.
Proof. unfold wpf, call. by destruct (invoke c k). Qed.

(** A kernel for evaluation: it logs the calls, newest first, and takes the
    error codes from a script; an exhausted script means success. *)
Record script := Script { log : list kcall; codes : list Z; level : Z }.
#[export] Instance script_kernel : Kernel script := {
  invoke c k := match codes k with
    | [] => (0, Script (c :: log k) [] (level k))
    | e :: r => (e, Script (c :: log k) r (level k))
    end;
  seL4_MappingFailedLookupLevel := level;
  seL4_CNode_CapData_new guard bits := Z.lor (Z.shiftl guard 6) bits;
}.
