(* ===== verification/Cspace.v ===== *)
(** * Capability spaces

    Models [libsel4cspace/src/cspace.c] and [cspace.h]: slot allocation in one-
    and two-level capability spaces, their creation and destruction.  A space
    may allocate from itself while it grows: [cspace_alloc_slot] and
    [refill_watermark] call each other, which the model cuts at a nesting depth
    of two; the theorems of [CspaceSafety] show that deeper calls do not occur.
    The frames that hold the bookkeeping nodes are distinct, so a node is kept
    where the pointer to it is. *)

From S2P Require Import Prelude Arith Bitfield Kernel.

Definition MAPPING_SLOTS : Z := 3.
Definition WATERMARK_SLOTS : Z := MAPPING_SLOTS + 1.
Definition CNODE_SIZE_BITS : Z := 12.
Definition CNODE_SLOT_BITS (x : Z) : Z := x - seL4_SlotBits.
Definition CNODE_SLOTS (x : Z) : Z := BIT (CNODE_SLOT_BITS x).
Definition BITFIELD_SIZE (x : Z) : Z := CNODE_SLOTS x / seL4_WordBits.
(** Two words of bits and a pointer. *)
Definition sizeof_bot_lvl : Z := 8 * BITFIELD_SIZE CNODE_SIZE_BITS + 8.
Definition BOT_LVL_PER_NODE : Z := (PAGE_SIZE_4K - 8 * 3) / sizeof_bot_lvl.
Definition BOT_LVL_NODES (x : Z) : Z := BYTES_TO_4K_PAGES (sizeof_bot_lvl * CNODE_SLOTS x).
Definition NODE_INDEX (cptr : Z) : Z := cptr / CNODE_SLOTS CNODE_SIZE_BITS / BOT_LVL_PER_NODE.
Definition CNODE_INDEX (cptr : Z) : Z := cptr / CNODE_SLOTS CNODE_SIZE_BITS mod BOT_LVL_PER_NODE.
Definition TOP_LVL_INDEX (cptr : Z) : Z := Z.shiftr cptr (CNODE_SLOT_BITS CNODE_SIZE_BITS).
Definition BOT_LVL_INDEX (cptr : Z) : Z := Z.land cptr (BIT (CNODE_SLOT_BITS CNODE_SIZE_BITS) - 1).

Definition CSPACE_NOERROR : Z := 0.
Definition CSPACE_ERROR : Z := -1.

Record bot_lvl_t := BotLvl { bf : list Z; bl_untyped : Z }.
Record bot_lvl_node_t := BotNode {
  n_cnodes : Z;
  bn_untyped : Z;
  bn_frame : Z;
  cnodes : list bot_lvl_t;
}.
(** [alloc] is [None] for the empty callback structure of a one-level space
    and otherwise holds the cookie; [bootstrap] and the untypeds are handles
    with 0 for NULL. *)
Record cspace_t := Cspace {
  root_cnode : Z;
  two_level : bool;
  top_lvl_size_bits : Z;
  top_bf : list Z;
  bot_lvl_nodes : list (option bot_lvl_node_t);
  n_bot_lvl_nodes : Z;
  cs_untyped : Z;
  bootstrap : Z;
  alloc : option Z;
  watermark : list Z;
}.

(** The struct after [memset] with 0, and a node after [memset]. *)
Definition zero_cspace : cspace_t := Cspace 0 false 0 [] [] 0 0 0 None (replicate 4 0).
Definition zero_node : bot_lvl_node_t :=
  BotNode 0 0 0 (replicate (Z.to_nat BOT_LVL_PER_NODE) (BotLvl (replicate 2 0) 0)).

Definition set_root_cnode v c := Cspace v (two_level c) (top_lvl_size_bits c) (top_bf c) (bot_lvl_nodes c)
  (n_bot_lvl_nodes c) (cs_untyped c) (bootstrap c) (alloc c) (watermark c).
Definition set_top_bf v c := Cspace (root_cnode c) (two_level c) (top_lvl_size_bits c) v (bot_lvl_nodes c)
  (n_bot_lvl_nodes c) (cs_untyped c) (bootstrap c) (alloc c) (watermark c).
Definition set_nodes v c := Cspace (root_cnode c) (two_level c) (top_lvl_size_bits c) (top_bf c) v
  (n_bot_lvl_nodes c) (cs_untyped c) (bootstrap c) (alloc c) (watermark c).
Definition set_n_nodes v c := Cspace (root_cnode c) (two_level c) (top_lvl_size_bits c) (top_bf c) (bot_lvl_nodes c)
  v (cs_untyped c) (bootstrap c) (alloc c) (watermark c).
Definition set_untyped v c := Cspace (root_cnode c) (two_level c) (top_lvl_size_bits c) (top_bf c) (bot_lvl_nodes c)
  (n_bot_lvl_nodes c) v (bootstrap c) (alloc c) (watermark c).
Definition set_watermark v c := Cspace (root_cnode c) (two_level c) (top_lvl_size_bits c) (top_bf c) (bot_lvl_nodes c)
  (n_bot_lvl_nodes c) (cs_untyped c) (bootstrap c) (alloc c) v.

Definition set_cnodes v n := BotNode (n_cnodes n) (bn_untyped n) (bn_frame n) v.
Definition set_n_cnodes v n := BotNode v (bn_untyped n) (bn_frame n) (cnodes n).
Definition set_frame v n := BotNode (n_cnodes n) (bn_untyped n) v (cnodes n).

(** The services behind the callbacks of [cspace_alloc_t], the heap and the
    kernel, over their own state.  An untyped is its handle and its cptr;
    [map_frame] returns whether it mapped the frame and the slots used. *)
Class CspaceEnv (E : Type) := {
  env_kernel :: Kernel E;
  cb_alloc_4k_ut : Z -> M E (option (Z * Z));
  cb_free_4k_ut : Z -> Z -> M E unit;
  cb_map_frame : Z -> Z -> list Z -> Z -> M E (bool * Z);
  calloc : M E bool;
}.

Section ops.
Context {E : Type} `{!CspaceEnv E}.

(** All the spaces, by address, and the environment. *)
Record world := World { spaces : gmap Z cspace_t; env : E }.
Definition set_env (e : E) (w : world) : world := World (spaces w) e.
Definition in_env {A} (m : M E A) : M world A := zoom env set_env m.
Definition kernel (c : kcall) : M world Z := in_env (call c).

Definition cs (p : Z) : M world cspace_t := w ← get; deref (spaces w !! p).
Definition put_cs (p : Z) (c : cspace_t) : M world unit :=
  modify (fun w => World (<[p := c]> (spaces w)) (env w)).
Definition upd (p : Z) (f : cspace_t -> cspace_t) : M world unit := c ← cs p; put_cs p (f c).

(** [bot_lvl_nodes[i]] and what it points to. *)
Definition node_at (c : cspace_t) (i : Z) : M world bot_lvl_node_t :=
  o ← access (bot_lvl_nodes c !! Z.to_nat i); deref o.
Definition upd_node (p i : Z) (f : bot_lvl_node_t -> bot_lvl_node_t) : M world unit :=
  c ← cs p; n ← node_at c i; put_cs p (set_nodes (<[Z.to_nat i := Some (f n)]> (bot_lvl_nodes c)) c).
Definition store_node (p i : Z) (o : option bot_lvl_node_t) : M world unit :=
  c ← cs p; _ ← access (bot_lvl_nodes c !! Z.to_nat i); put_cs p (set_nodes (<[Z.to_nat i := o]> (bot_lvl_nodes c)) c).
Definition upd_cnode (p i j : Z) (f : bot_lvl_t -> bot_lvl_t) : M world unit :=
  c ← cs p; n ← node_at c i; b ← access (cnodes n !! Z.to_nat j);
  upd_node p i (set_cnodes (<[Z.to_nat j := f b]> (cnodes n))).

Definition first_free (words : Z) (bits : list Z) : M world Z :=
  if bool_decide (words ≤ Z.of_nat (length bits)) then access (bf_first_free (take (Z.to_nat words) bits))
  else throw OutOfBounds.

Definition callback (a : option Z) : M world Z :=
  match a with Some cookie => mret cookie | None => throw AssertFail end.
Definition alloc_4k_untyped (a : option Z) : M world (option (Z * Z)) :=
  cookie ← callback a; in_env (cb_alloc_4k_ut cookie).
Definition free_4k_untyped (a : option Z) (untyped : Z) : M world unit :=
  cookie ← callback a; in_env (cb_free_4k_ut cookie untyped).
Definition map_frame (a : option Z) (frame : Z) (free_slots : list Z) (used : Z) : M world (bool * Z) :=
  cookie ← callback a; in_env (cb_map_frame cookie frame free_slots used).

(** The wrappers of [cspace.h]. *)
Definition cspace_copy (d dptr s sptr : Z) (rights : seL4_CapRights) : M world Z :=
  dc ← cs d; sc ← cs s;
  kernel (CNode_Copy (root_cnode dc) dptr seL4_WordBits (root_cnode sc) sptr seL4_WordBits rights).
Definition cspace_delete (p cptr : Z) : M world Z :=
  c ← cs p; kernel (CNode_Delete (root_cnode c) cptr seL4_WordBits).
Definition cspace_mint (d dptr s sptr : Z) (rights : seL4_CapRights) (badge : Z) : M world Z :=
  dc ← cs d; sc ← cs s;
  kernel (CNode_Mint (root_cnode dc) dptr seL4_WordBits (root_cnode sc) sptr seL4_WordBits rights badge).
Definition cspace_move (d dptr s sptr : Z) : M world Z :=
  dc ← cs d; sc ← cs s; kernel (CNode_Move (root_cnode dc) dptr seL4_WordBits (root_cnode sc) sptr seL4_WordBits).
Definition cspace_mutate (d dptr s sptr badge : Z) : M world Z :=
  dc ← cs d; sc ← cs s;
  kernel (CNode_Mutate (root_cnode dc) dptr seL4_WordBits (root_cnode sc) sptr seL4_WordBits badge).
Definition cspace_revoke (p cptr : Z) : M world Z :=
  c ← cs p; kernel (CNode_Revoke (root_cnode c) cptr seL4_WordBits).
Definition cspace_save_reply_cap (p cptr : Z) : M world Z :=
  c ← cs p; kernel (CNode_SaveCaller (root_cnode c) cptr seL4_WordBits).
Definition cspace_irq_control_get (d cptr irq_cap irq level : Z) : M world Z :=
  dc ← cs d; kernel (IRQControl_GetTrigger irq_cap irq level (root_cnode dc) cptr seL4_WordBits).

(** The call that retypes into the slot [target] of a space with the given root. *)
Definition retype_call (root : Z) (two : bool) (ut target : Z) (type : seL4_ObjectType) (size_bits : Z) : kcall :=
  if two then
    let cnode := Z.shiftr target (CNODE_SLOT_BITS CNODE_SIZE_BITS) in
    Untyped_Retype ut type size_bits root cnode
      (seL4_WordBits - CNODE_SLOT_BITS CNODE_SIZE_BITS) (target mod CNODE_SLOTS CNODE_SIZE_BITS) 1
  else Untyped_Retype ut type size_bits root 0 0 target 1.
Definition cspace_untyped_retype (p ut target : Z) (type : seL4_ObjectType) (size_bits : Z) : M world Z :=
  c ← cs p; kernel (retype_call (root_cnode c) (two_level c) ut target type size_bits).

(** The handle of the untyped; [None] is NULL. *)
Definition retype_helper (p : Z) (type : seL4_ObjectType) (cptr : Z) : M world (option Z) :=
  c ← cs p;
  u ← alloc_4k_untyped (alloc c);
  match u with
  | None => mret None
  | Some (untyped, ut_cptr) =>
    let size := if bool_decide (type = seL4_CapTableObject) then CNODE_SLOT_BITS seL4_PageBits else seL4_PageBits in
    err ← cspace_untyped_retype p ut_cptr cptr type size;
    if bool_decide (err ≠ seL4_NoError) then free_4k_untyped (alloc c) untyped;; mret None
    else mret (Some untyped)
  end.

(** [self] is [cspace_alloc_slot]. *)
Definition refill_watermark (self : Z -> M world Z) (p used : Z) : M world unit :=
  iterM (fun i =>
    if Z.testbit used i then
      slot ← self p;
      upd p (fun c => set_watermark (<[Z.to_nat i := slot]> (watermark c)) c)
    else mret tt) (seqZ 0 WATERMARK_SLOTS).

Definition init_bot_lvl_node (p node untyped frame : Z) : M world unit :=
  upd_node p node (fun _ => zero_node);;
  upd p (fun c => set_n_nodes (n_bot_lvl_nodes c + 1) c);;
  upd_node p node (fun n => BotNode 0 untyped frame (cnodes n)).

(** The bookkeeping node of [cptr] is there or can be added; the flag and the
    watermark slots used. *)
Definition ensure_node (p node used : Z) : M world (bool * Z) :=
  c ← cs p;
  if bool_decide (n_bot_lvl_nodes c ≤ node) then
    frame ← access (watermark c !! Z.to_nat MAPPING_SLOTS);
    let used := Z.lor used (BIT MAPPING_SLOTS) in
    u ← retype_helper p seL4_ARM_SmallPageObject frame;
    match u with
    | None => mret (false, used)
    | Some untyped =>
      '(mapped, used) ← map_frame (alloc c) frame (watermark c) used;
      store_node p node (if (mapped : bool) then Some zero_node else None);;
      if (mapped : bool) then init_bot_lvl_node p node untyped frame;; mret (true, used)
      else
        cspace_delete p frame;;
        free_4k_untyped (alloc c) untyped;;
        mret (false, Z.ldiff used (BIT MAPPING_SLOTS))
    end
  else mret (true, used).

(** The second-level cnode of [cptr] is there or can be added. *)
Definition ensure_cnode (p node cptr : Z) : M world bool :=
  c ← cs p;
  o ← access (bot_lvl_nodes c !! Z.to_nat node);
  cassert (bool_decide (is_Some o));;
  n ← node_at c node;
  let cnode := CNODE_INDEX cptr in
  if bool_decide (n_cnodes n ≤ cnode) then
    u ← alloc_4k_untyped (alloc c);
    upd_cnode p node cnode (fun b => BotLvl (bf b) (default 0 (fst <$> u)));;
    match u with
    | None => mret false
    | Some (untyped, ut_cptr) =>
      err ← kernel (Untyped_Retype ut_cptr seL4_CapTableObject (CNODE_SLOT_BITS CNODE_SIZE_BITS)
        (root_cnode c) 0 0 (TOP_LVL_INDEX cptr) 1);
      if bool_decide (err ≠ 0) then free_4k_untyped (alloc c) untyped;; mret false
      else upd_node p node (fun n => set_n_cnodes (n_cnodes n + 1) n);; mret true
    end
  else mret true.

Definition ensure_levels (p cptr used : Z) : M world (bool * Z) :=
  c ← cs p;
  if negb (two_level c) then mret (true, used)
  else
    let node := NODE_INDEX cptr in
    let cspace_size := BIT (CNODE_SLOT_BITS (top_lvl_size_bits c) + CNODE_SLOT_BITS CNODE_SIZE_BITS) in
    if bool_decide (DIV_ROUND_UP cspace_size BOT_LVL_PER_NODE ≤ node) then mret (false, used)
    else
      '(ok, used) ← ensure_node p node used;
      if (ok : bool) then ok ← ensure_cnode p node cptr; mret (ok, used) else mret (false, used).

(** Whether the cnode of [cptr] has to be created. *)
Definition missing_level (c : cspace_t) (cptr : Z) : M world bool :=
  if bool_decide (n_bot_lvl_nodes c ≤ NODE_INDEX cptr) then mret true
  else n ← node_at c (NODE_INDEX cptr); mret (bool_decide (n_cnodes n ≤ CNODE_INDEX cptr)).

(** The bottom-level half: take a bit of the cnode, and mark a full cnode. *)
Definition take_bottom (p top_index cptr : Z) : M world Z :=
  c ← cs p;
  n ← node_at c (NODE_INDEX cptr);
  bot_lvl ← access (cnodes n !! Z.to_nat (CNODE_INDEX cptr));
  bot_index ← first_free (BITFIELD_SIZE CNODE_SIZE_BITS) (bf bot_lvl);
  bits ← access (bf_set_bit (bf bot_lvl) bot_index);
  upd_cnode p (NODE_INDEX cptr) (CNODE_INDEX cptr) (fun b => BotLvl bits (bl_untyped b));;
  next ← first_free (BITFIELD_SIZE CNODE_SIZE_BITS) bits;
  when (bool_decide (CNODE_SLOTS CNODE_SIZE_BITS ≤ next)) (
    top ← access (bf_set_bit (top_bf c) top_index);
    upd p (set_top_bf top));;
  mret (cptr + bot_index).

(** The branch of [cspace_alloc_slot] for two levels. *)
Definition alloc_two_level (self : Z -> M world Z) (p : Z) (c : cspace_t) (top_index : Z) : M world Z :=
  let cptr := Z.shiftl top_index (CNODE_SLOT_BITS CNODE_SIZE_BITS) in
  missing ← missing_level c cptr;
  '(ok, used) ← (if (missing : bool) then ensure_levels p cptr 0 else mret (true, 0));
  if negb ok then mret seL4_CapNull
  else
    slot ← take_bottom p top_index cptr;
    refill_watermark self p used;;
    mret slot.

Definition alloc_slot_body (self : Z -> M world Z) (p : Z) : M world Z :=
  c ← cs p;
  top_index ← first_free (BITFIELD_SIZE (top_lvl_size_bits c)) (top_bf c);
  if (two_level c && bool_decide (CNODE_SLOTS (top_lvl_size_bits c) < top_index)) ||
     bool_decide (CNODE_SLOTS (top_lvl_size_bits c) ≤ top_index)
  then mret seL4_CapNull
  else if two_level c then alloc_two_level self p c top_index
  else
    top ← access (bf_set_bit (top_bf c) top_index);
    upd p (set_top_bf top);;
    mret top_index.

Fixpoint alloc_slot (depth : nat) (p : Z) : M world Z :=
  match depth with
  | O => throw OutOfFuel
  | S depth => alloc_slot_body (alloc_slot depth) p
  end.
Definition cspace_alloc_slot : Z -> M world Z := alloc_slot 2.

Definition cspace_free_slot (p cptr : Z) : M world unit :=
  if bool_decide (cptr = seL4_CapNull) then mret tt
  else
    c ← cs p;
    if negb (two_level c) then
      if bool_decide (CNODE_SLOTS (top_lvl_size_bits c) < cptr) then mret tt
      else top ← access (bf_clr_bit (top_bf c) cptr); upd p (set_top_bf top)
    else
      let limit := CNODE_SLOTS (top_lvl_size_bits c) * CNODE_SLOTS CNODE_SIZE_BITS in
      if bool_decide (limit < cptr) then mret tt
      else
        top ← access (bf_clr_bit (top_bf c) (TOP_LVL_INDEX cptr));
        upd p (set_top_bf top);;
        let node := NODE_INDEX cptr in
        if bool_decide (node < n_bot_lvl_nodes c) then
          n ← node_at c node;
          let cnode := CNODE_INDEX cptr in
          if bool_decide (cnode < n_cnodes n) then
            b ← access (cnodes n !! Z.to_nat cnode);
            bits ← access (bf_clr_bit (bf b) (BOT_LVL_INDEX cptr));
            upd_cnode p node cnode (fun b => BotLvl bits (bl_untyped b))
          else mret tt
        else mret tt.

(** The loops of [cspace_destroy]; they return the last cnode seen. *)
Fixpoint destroy_cnodes (c : cspace_t) (n : bot_lvl_node_t) (i : Z) (l : list Z) (last : Z) : M world Z :=
  match l with
  | [] => mret last
  | j :: l =>
    b ← access (cnodes n !! Z.to_nat j);
    free_4k_untyped (alloc c) (bl_untyped b);;
    destroy_cnodes c n i l (i * BOT_LVL_PER_NODE + j)
  end.
Fixpoint destroy_nodes (p : Z) (c : cspace_t) (l : list Z) (last : Z) : M world Z :=
  match l with
  | [] => mret last
  | i :: l =>
    n ← node_at c i;
    last ← destroy_cnodes c n i (seqZ 0 (n_cnodes n)) last;
    free_4k_untyped (alloc c) (bn_untyped n);;
    cspace_delete p (bn_frame n);;
    destroy_nodes p c l last
  end.

(** [free] leaves nothing behind the pointer. *)
Definition cspace_destroy (p : Z) : M world unit :=
  c ← cs p;
  if bool_decide (bootstrap c = 0) then throw Fatal
  else
    last ← destroy_nodes p c (seqZ 0 (n_bot_lvl_nodes c)) 0;
    (if two_level c then
       iterM (fun i => kernel (CNode_Delete (root_cnode c) i (seL4_WordBits - (CNODE_SIZE_BITS - seL4_SlotBits)));; mret tt)
         (seqZ 0 (last + 1))
     else mret tt);;
    when (bool_decide (root_cnode c ≠ seL4_CapNull)) (
      cspace_delete (bootstrap c) (root_cnode c);;
      cspace_free_slot (bootstrap c) (root_cnode c));;
    when (bool_decide (cs_untyped c ≠ 0)) (
      b ← cs (bootstrap c);
      free_4k_untyped (alloc b) (cs_untyped c));;
    upd p (fun c => set_nodes [] (set_top_bf [] c)).

(** The error exit of [cspace_create]. *)
Definition create_fail (t : Z) : M world Z := cspace_destroy t;; mret CSPACE_ERROR.

(** The last part of [cspace_create]: hand out slot 0, the watermark, and the
    slot of the first bookkeeping frame. *)
Definition create_finish (p t bot_lvl_node : Z) : M world Z :=
  null ← cspace_alloc_slot t;
  cassert (bool_decide (null = seL4_CapNull));;
  tc ← cs t;
  if two_level tc then
    refill_watermark cspace_alloc_slot t (2 ^ WATERMARK_SLOTS - 1);;
    slot ← cspace_alloc_slot t;
    cassert (bool_decide (slot ≠ seL4_CapNull));;
    err ← cspace_move t slot p bot_lvl_node;
    cassert (bool_decide (err = seL4_NoError));;
    upd_node t 0 (set_frame slot);;
    cspace_free_slot p bot_lvl_node;;
    mret CSPACE_NOERROR
  else mret CSPACE_NOERROR.

(** The bookkeeping frame of a two-level space, taken from the space [p]. *)
Definition create_first_node (p t : Z) : M world Z :=
  bot_lvl_node ← cspace_alloc_slot p;
  if bool_decide (bot_lvl_node = seL4_CapNull) then create_fail t
  else
    untyped ← retype_helper p seL4_ARM_SmallPageObject bot_lvl_node;
    when (bool_decide (is_Some untyped)) (
      c ← cs p;
      '(mapped, used) ← map_frame (alloc c) bot_lvl_node (watermark c) 0;
      store_node t 0 (if (mapped : bool) then Some zero_node else None);;
      refill_watermark cspace_alloc_slot p used);;
    tc ← cs t;
    first ← access (bot_lvl_nodes tc !! 0%nat);
    match first, untyped with
    | Some _, Some u =>
      init_bot_lvl_node t 0 u bot_lvl_node;;
      create_finish p t bot_lvl_node
    | _, _ =>
      cspace_destroy t;;
      cspace_delete p bot_lvl_node;;
      cspace_free_slot p bot_lvl_node;;
      mret CSPACE_ERROR
    end.

(** Give the space [t] its root cnode, made from the slots and untypeds of [p]. *)
Definition create_root (p t : Z) : M world Z :=
  tmp ← cspace_alloc_slot p;
  if bool_decide (tmp = seL4_CapNull) then create_fail t
  else
    u ← retype_helper p seL4_CapTableObject tmp;
    upd t (set_untyped (default 0 u));;
    match u with
    | None => create_fail t
    | Some _ =>
      tc ← cs t;
      let depth := seL4_WordBits - CNODE_SLOT_BITS CNODE_SIZE_BITS * (if two_level tc then 2 else 1) in
      root ← cspace_alloc_slot p;
      upd t (set_root_cnode root);;
      c ← cs p;
      if bool_decide (root_cnode c = seL4_CapNull) then
        cspace_free_slot (bootstrap tc) tmp;; create_fail t
      else
        err ← cspace_mint p root p tmp seL4_AllRights (seL4_CNode_CapData_new 0 depth);
        if bool_decide (err ≠ 0) then create_fail t
        else
          cspace_delete p tmp;;
          cspace_free_slot p tmp;;
          if two_level tc then create_first_node p t else create_finish p t 0
    end.

Definition cspace_create (p t : Z) (two_level : bool) (a : option Z) : M world Z :=
  put_cs t (Cspace 0 two_level CNODE_SIZE_BITS [] [] 0 0 p a (replicate 4 0));;
  ok ← in_env calloc;
  if negb ok then mret CSPACE_ERROR
  else
    upd t (set_top_bf (replicate (Z.to_nat (BITFIELD_SIZE CNODE_SIZE_BITS)) 0));;
    if two_level then
      ok ← in_env calloc;
      if negb ok then create_fail t
      else
        upd t (set_nodes (replicate (Z.to_nat (BOT_LVL_NODES CNODE_SIZE_BITS * PAGE_SIZE_4K / 8)) None));;
        create_root p t
    else create_root p t.

Definition cspace_create_two_level (p t cookie : Z) : M world Z := cspace_create p t true (Some cookie).
Definition cspace_create_one_level (p t : Z) : M world Z := cspace_create p t false None.
End ops.
Arguments world E : clear implicits.
