(* ===== verification/CspaceSafety.v ===== *)
(** * Slot allocation is safe

    The invariant of a capability space, the set of its taken slots, and the
    proofs that [cspace_alloc_slot] and [cspace_free_slot] implement a set of
    slots: an allocation returns a slot that nobody holds, growing the space
    where it has to, and the nesting of allocation and watermark refill ends. *)

From S2P Require Import Prelude Arith Bitfield Kernel Cspace.

(** ** Slot numbers *)

(** Slot [j] of the second-level cnode [q]. *)
Definition slot (q j : Z) : Z := q * 128 + j.

Lemma slot_div q j : 0 ≤ j < 128 -> slot q j / 128 = q.
Proof. intros. unfold slot. rewrite Z.div_add_l, Z.div_small; lia. Qed.
Lemma slot_mod q j : 0 ≤ j < 128 -> slot q j mod 128 = j.
Proof. intros. unfold slot. rewrite Z.add_comm, Z.mod_add by lia. by apply Z.mod_small. Qed.
Lemma slot_eta k : slot (k / 128) (k mod 128) = k.
Proof. unfold slot. pose proof (Z.div_mod k 128). lia. Qed.
Lemma slot_inj q j q' j' : 0 ≤ j < 128 -> 0 ≤ j' < 128 -> slot q j = slot q' j' -> q = q' /\ j = j'.
Proof. unfold slot. lia. Qed.

Lemma CNODE_SLOTS_12 : CNODE_SLOTS CNODE_SIZE_BITS = 128.
Proof. done. Qed.
Lemma PER_NODE : BOT_LVL_PER_NODE = 169.
Proof. done. Qed.
Lemma NODE_INDEX_div k : NODE_INDEX k = k / 128 / 169.
Proof. done. Qed.
Lemma CNODE_INDEX_mod k : CNODE_INDEX k = k / 128 mod 169.
Proof. done. Qed.
Lemma TOP_LVL_INDEX_div k : TOP_LVL_INDEX k = k / 128.
Proof. unfold TOP_LVL_INDEX. change (CNODE_SLOT_BITS CNODE_SIZE_BITS) with 7. by rewrite Z.shiftr_div_pow2 by lia. Qed.
Lemma BOT_LVL_INDEX_mod k : BOT_LVL_INDEX k = k mod 128.
Proof.
  unfold BOT_LVL_INDEX. change (BIT (CNODE_SLOT_BITS CNODE_SIZE_BITS) - 1) with (Z.ones 7).
  by rewrite Z.land_ones by lia.
Qed.
Lemma shiftl_slot q : Z.shiftl q (CNODE_SLOT_BITS CNODE_SIZE_BITS) = slot q 0.
Proof. change (CNODE_SLOT_BITS CNODE_SIZE_BITS) with 7. rewrite Z.shiftl_mul_pow2 by lia. unfold slot. lia. Qed.

(** ** The second level as one array of cnodes *)

Definition cnode_at (c : cspace_t) (q : Z) : option bot_lvl_t :=
  match bot_lvl_nodes c !! Z.to_nat (q / 169) with
  | Some (Some n) => cnodes n !! Z.to_nat (q mod 169)
  | _ => None
  end.
(** The number of slots of the top level. *)
Definition top_slots (c : cspace_t) : Z := CNODE_SLOTS (top_lvl_size_bits c).

Definition taken (c : cspace_t) (k : Z) : Prop :=
  if two_level c then exists b, 0 ≤ k /\ cnode_at c (k / 128) = Some b /\ has (bf b) (k mod 128)
  else has (top_bf c) k.
Definition slots (c : cspace_t) : Z := if two_level c then top_slots c * 128 else top_slots c.

(** The top level: a whole number of words. *)
Record top_ok (c : cspace_t) : Prop := TopOk {
  to_bits : 11 ≤ top_lvl_size_bits c ≤ 40;
  to_len : bf_size (top_bf c) = top_slots c;
  to_ok : bf_ok (top_bf c);
}.

(** A bookkeeping node with [m] cnodes. *)
Record node_ok (m : Z) (n : bot_lvl_node_t) : Prop := NodeOk {
  no_n : n_cnodes n = m;
  no_len : length (cnodes n) = 169%nat;
  no_bf : Forall (fun b => length (bf b) = 2%nat /\ bf_ok (bf b)) (cnodes n);
}.

(** A two-level space with [C] cnodes: the nodes are filled in order, the top
    level marks exactly the full cnodes, and what is not yet created is free. *)
Record two_ok (C : Z) (c : cspace_t) : Prop := TwoOk {
  tw_two : two_level c = true;
  tw_top : top_ok c;
  tw_C : 0 ≤ C ≤ top_slots c;
  tw_nb : 0 ≤ n_bot_lvl_nodes c;
  tw_fill : 169 * (n_bot_lvl_nodes c - 1) ≤ C ≤ 169 * n_bot_lvl_nodes c;
  tw_room : top_slots c ≤ 169 * Z.of_nat (length (bot_lvl_nodes c));
  tw_nodes : forall i, 0 ≤ i < n_bot_lvl_nodes c -> exists n,
    bot_lvl_nodes c !! Z.to_nat i = Some (Some n) /\ node_ok (Z.min 169 (C - 169 * i)) n;
  tw_full : forall q, 0 ≤ q < top_slots c -> has (top_bf c) q <-> forall j, 0 ≤ j < 128 -> taken c (slot q j);
  tw_fresh : forall k, taken c k -> k / 128 < C;
  tw_wm : length (watermark c) = 4%nat;
  tw_alloc : is_Some (alloc c);
}.

Definition space_ok (c : cspace_t) : Prop :=
  if two_level c then exists C, two_ok C c else top_ok c.

Lemma two_cnode C c q : two_ok C c -> 0 ≤ q < 169 * n_bot_lvl_nodes c ->
  exists n b, bot_lvl_nodes c !! Z.to_nat (q / 169) = Some (Some n) /\ node_ok (Z.min 169 (C - 169 * (q / 169))) n /\
    cnodes n !! Z.to_nat (q mod 169) = Some b /\ cnode_at c q = Some b /\ length (bf b) = 2%nat /\ bf_ok (bf b).
Proof.
  intros Hok Hq. destruct (tw_nodes C c Hok (q / 169)) as (n & Hn & Hno).
  { split; [apply Z.div_pos; lia|apply Z.div_lt_upper_bound; lia]. }
  pose proof (Z.mod_pos_bound q 169 ltac:(lia)).
  destruct (lookup_lt_is_Some_2 (cnodes n) (Z.to_nat (q mod 169))) as [b Hb]; [rewrite (no_len _ _ Hno); lia|].
  exists n, b. unfold cnode_at. rewrite Hn. destruct (Forall_lookup_1 _ _ _ _ (no_bf _ _ Hno) Hb). done.
Qed.

Lemma two_taken c q j b : two_level c = true -> 0 ≤ q -> 0 ≤ j < 128 -> cnode_at c q = Some b ->
  taken c (slot q j) <-> has (bf b) j.
Proof.
  intros Ht Hq Hj Hb. unfold taken. rewrite Ht, slot_div, slot_mod, Hb by done. unfold slot.
  split; [intros (b' & _ & [= <-] & ?); done|intros; exists b; split; [lia|done]].
Qed.

(** [m] slots of the cnode [q] are taken, from the first. *)
Definition prefix (c : cspace_t) (q m : Z) : Prop :=
  forall j, 0 ≤ j < 128 -> taken c (slot q j) <-> j < m.

(** [c'] differs from [c] in its bits, cnodes and watermark only. *)
Record same_space (c c' : cspace_t) : Prop := SameSpace {
  ss_root : root_cnode c' = root_cnode c;
  ss_two : two_level c' = two_level c;
  ss_size : top_lvl_size_bits c' = top_lvl_size_bits c;
  ss_untyped : cs_untyped c' = cs_untyped c;
  ss_boot : bootstrap c' = bootstrap c;
  ss_alloc : alloc c' = alloc c;
}.
#[export] Instance same_space_refl : Reflexive same_space.
Proof. by intros c. Qed.
#[export] Instance same_space_trans : Transitive same_space.
Proof. intros a b c [] []. split; congruence. Qed.

(** ** Changing one cnode *)

Definition with_cnode (c : cspace_t) (q : Z) (n : bot_lvl_node_t) (b : bot_lvl_t) : cspace_t :=
  set_nodes (<[Z.to_nat (q / 169) := Some (set_cnodes (<[Z.to_nat (q mod 169) := b]> (cnodes n)) n)]> (bot_lvl_nodes c)) c.

Lemma div_mod_169 q x : q / 169 = x / 169 -> q mod 169 = x mod 169 -> q = x.
Proof. intros Hd Hm. rewrite (Z.div_mod q 169), (Z.div_mod x 169) by lia. by rewrite Hd, Hm. Qed.

Lemma cnode_at_with c q n b x :
  bot_lvl_nodes c !! Z.to_nat (q / 169) = Some (Some n) -> (Z.to_nat (q mod 169) < length (cnodes n))%nat ->
  0 ≤ q -> 0 ≤ x -> cnode_at (with_cnode c q n b) x = if decide (x = q) then Some b else cnode_at c x.
Proof.
  intros Hn Hl Hq Hx. unfold cnode_at, with_cnode. cbn [bot_lvl_nodes set_nodes].
  pose proof (Z.mod_pos_bound q 169 ltac:(lia)). pose proof (Z.mod_pos_bound x 169 ltac:(lia)).
  pose proof (Z.div_pos q 169 ltac:(lia) ltac:(lia)). pose proof (Z.div_pos x 169 ltac:(lia) ltac:(lia)).
  pose proof (lookup_lt_Some _ _ _ Hn). destruct (decide (x / 169 = q / 169)) as [Hd|Hd].
  - rewrite Hd, list_lookup_insert_eq, Hn by done. cbn [cnodes set_cnodes]. case_decide as E.
    + subst x. by rewrite list_lookup_insert_eq.
    + rewrite list_lookup_insert_ne; [done|]. intros Em. apply E. apply div_mod_169; lia.
  - rewrite list_lookup_insert_ne by lia. case_decide as E; [by subst|done].
Qed.

Definition update (c : cspace_t) (q : Z) (n : bot_lvl_node_t) (b : bot_lvl_t) (top : list Z) : cspace_t :=
  set_top_bf top (with_cnode c q n b).

Lemma update_cnode_at c q n b top x : cnode_at (update c q n b top) x = cnode_at (with_cnode c q n b) x.
Proof. done. Qed.

(** Changing the bits of a created cnode and the mark of it keeps the space
    well formed when the mark says whether the cnode is full. *)
Lemma two_update C c q n b0 b top :
  two_ok C c -> 0 ≤ q < C ->
  bot_lvl_nodes c !! Z.to_nat (q / 169) = Some (Some n) -> cnodes n !! Z.to_nat (q mod 169) = Some b0 ->
  length (bf b) = 2%nat -> bf_ok (bf b) -> length top = length (top_bf c) -> bf_ok top ->
  (forall x, x ≠ q -> has top x <-> has (top_bf c) x) ->
  (has top q <-> forall j, 0 ≤ j < 128 -> has (bf b) j) ->
  two_ok C (update c q n b top) /\ same_space c (update c q n b top) /\
  forall x j, 0 ≤ x -> 0 ≤ j < 128 ->
    taken (update c q n b top) (slot x j) <-> if decide (x = q) then has (bf b) j else taken c (slot x j).
Proof.
  intros Hok Hq Hn Hb Hlb Hbok Hlt Htok Hother Hthis.
  pose proof Hok as [Htwo [Hbits Hlen _] HC Hnb Hfill Hroom Hnodes Hfull Hfresh Hwm Hal].
  assert (Htk : forall x j, 0 ≤ x -> 0 ≤ j < 128 ->
    taken (update c q n b top) (slot x j) <-> if decide (x = q) then has (bf b) j else taken c (slot x j)).
  { intros x j Hx Hj. unfold taken. cbn [two_level update set_top_bf with_cnode set_nodes]. rewrite Htwo, slot_div, slot_mod by done.
    rewrite update_cnode_at, cnode_at_with by (try done; try lia; by apply lookup_lt_Some in Hb).
    unfold slot. case_decide.
    - split; [intros (b' & _ & [= <-] & ?); done|intros; exists b; split_and!; [lia|done|done]].
    - done. }
  split_and!; [|by split|done].
  split; cbn [bot_lvl_nodes update set_top_bf with_cnode set_nodes two_level top_lvl_size_bits top_bf n_bot_lvl_nodes watermark alloc]; try done.
  - split; [done| |done]. unfold bf_size in *. cbn [update set_top_bf top_bf]. by rewrite Hlt.
  - by rewrite length_insert.
  - intros i Hi. destruct (Hnodes i Hi) as (m & Hm & Hmo). destruct (decide (i = q / 169)) as [->|Hne].
    + rewrite list_lookup_insert_eq by (by apply lookup_lt_Some in Hn). eexists. split; [done|].
      rewrite Hn in Hm. injection Hm as <-. destruct Hmo as [H1 H2 H3]. split; [done|simpl; by rewrite length_insert|].
      apply Forall_insert; [done|by split].
    + rewrite list_lookup_insert_ne; [by exists m|]. pose proof (Z.div_pos q 169). lia.
  - intros x Hx. destruct (decide (x = q)) as [->|Hne].
    + rewrite Hthis. apply forall_proper. intros j. split; intros H Hj; [apply Htk|apply Htk in H]; try done; try lia;
        rewrite ?decide_True in * by done; auto.
    + rewrite Hother, Hfull by done. apply forall_proper. intros j.
      split; intros H Hj; [apply Htk|specialize (H Hj); apply Htk in H]; try done; try lia;
        rewrite ?decide_False in * by done; auto.
  - intros k Hk. assert (0 ≤ k) by (unfold taken in Hk; cbn in Hk; rewrite Htwo in Hk; naive_solver).
    rewrite <- (slot_eta k) in Hk. apply Htk in Hk; [|apply Z.div_pos; lia|apply Z.mod_pos_bound; lia].
    case_decide; [lia|]. apply Hfresh. by rewrite <- (slot_eta k).
Qed.

(** ** The operations *)

(** The callbacks stop only with a fault that [F] allows, and keep an invariant
    [I H e] of the environment in which [H] is the set of untypeds that are out
    of the allocator's hands: an allocation adds a new one to it, a free takes
    one back. *)
Class CspaceLaws (F : fault -> Prop) (E : Type) `{!CspaceEnv E} (I : gset Z -> E -> Prop) : Prop := {
  inv_alloc a H e : I H e -> wpf F (cb_alloc_4k_ut a) (fun o e' =>
    match o with None => I H e' | Some (u, _) => (u ∉ H) /\ I ({[u]} ∪ H) e' end) e;
  inv_free a u H e : u ∉ H -> I ({[u]} ∪ H) e -> wpf F (cb_free_4k_ut a u) (fun _ => I H) e;
  inv_map a f l u H e : length l = 4%nat -> I H e -> wpf F (cb_map_frame a f l u) (fun _ => I H) e;
  inv_calloc H e : I H e -> wpf F calloc (fun _ => I H) e;
  inv_call k H e : I H e -> I H (snd (invoke k e));
  inv_forget u H e : I ({[u]} ∪ H) e -> I H e;
}.

Section safety.
Context (F : fault -> Prop) {E : Type} `{!CspaceEnv E} (I : gset Z -> E -> Prop) `{!CspaceLaws F E I}.
Implicit Types (w : world E) (c : cspace_t) (H : gset Z).

(** The world [w] with the space [p] replaced and the environment changed. *)
Definition put_space w p c (e : E) : world E := World (<[p := c]> (spaces w)) e.

Lemma wpf_cs p c (Q : cspace_t -> world E -> Prop) w : spaces w !! p = Some c -> Q c w -> wpf F (cs p) Q w.
Proof. intros Hc HQ. unfold cs. wp_line. by eapply wpf_deref. Qed.
Lemma wpf_upd p c f (Q : unit -> world E -> Prop) w :
  spaces w !! p = Some c -> Q tt (put_space w p (f c) (env w)) -> wpf F (upd p f) Q w.
Proof. intros Hc HQ. unfold upd, put_cs. wp_line. eapply wpf_cs; [done|]. by wp_line. Qed.
Lemma wpf_node_at c i n (Q : bot_lvl_node_t -> world E -> Prop) w :
  bot_lvl_nodes c !! Z.to_nat i = Some (Some n) -> Q n w -> wpf F (node_at c i) Q w.
Proof. intros Hn HQ. unfold node_at. wp_line. eapply wpf_access; [done|]. by eapply wpf_deref. Qed.
Lemma wpf_in_cspace_env {A} (m : M E A) (P : A -> E -> Prop) (Q : A -> world E -> Prop) w :
  wpf F m P (env w) -> (forall a e, P a e -> Q a (World (spaces w) e)) -> wpf F (in_env m) Q w.
Proof. intros Hm HQ. unfold in_env. wp_line. eapply wpf_mono; [done|]. intros a e. apply HQ. Qed.
Lemma wpf_kernel H k (Q : Z -> world E -> Prop) w :
  I H (env w) -> (forall a e, I H e -> Q a (World (spaces w) e)) -> wpf F (kernel k) Q w.
Proof.
  intros HI HQ. apply (wpf_in_cspace_env _ (fun _ => I H)); [|done]. apply wpf_call. by apply (inv_call (F := F)).
Qed.
(** What an allocation says of the untyped it returns. *)
Definition given H (u : option Z) (e : E) : Prop :=
  match u with None => I H e | Some u => (u ∉ H) /\ I ({[u]} ∪ H) e end.
Lemma wpf_alloc_4k H a (Q : option (Z * Z) -> world E -> Prop) w :
  is_Some a -> I H (env w) -> (forall u e, given H (fst <$> u) e -> Q u (World (spaces w) e)) ->
  wpf F (alloc_4k_untyped a) Q w.
Proof.
  intros [k ->] HI HQ. unfold alloc_4k_untyped. wp_line. eapply wpf_in_cspace_env; [by apply inv_alloc|].
  intros u e Hu. apply HQ. by destruct u as [[u ?]|].
Qed.
Lemma wpf_free_4k H a u (Q : unit -> world E -> Prop) w :
  is_Some a -> given H (Some u) (env w) -> (forall e, I H e -> Q tt (World (spaces w) e)) ->
  wpf F (free_4k_untyped a u) Q w.
Proof.
  intros [k ->] [Hu HI] HQ. unfold free_4k_untyped. wp_line. eapply wpf_in_cspace_env; [by apply (inv_free _ _ H)|].
  intros [] e He. by apply HQ.
Qed.
Lemma wpf_map_frame H a f l u (Q : bool * Z -> world E -> Prop) w :
  is_Some a -> length l = 4%nat -> I H (env w) -> (forall r e, I H e -> Q r (World (spaces w) e)) ->
  wpf F (map_frame a f l u) Q w.
Proof. intros [k ->] Hl HI HQ. unfold map_frame. wp_line. eapply wpf_in_cspace_env; [by apply (inv_map _ _ _ _ H)|done]. Qed.
Lemma given_forget H u e : given H u e -> I H e.
Proof. destruct u; [|done]. intros [_ HI]. by apply (inv_forget (F := F)) in HI. Qed.
Lemma wpf_first_free words bits (Q : Z -> world E -> Prop) w :
  bf_ok bits -> words = Z.of_nat (length bits) ->
  (forall n, 0 ≤ n ≤ bf_size bits -> (forall k, 0 ≤ k < n -> has bits k) -> ~ has bits n -> Q n w) ->
  wpf F (first_free words bits) Q w.
Proof.
  intros Hok -> HQ. unfold first_free. rewrite bool_decide_eq_true_2, Nat2Z.id, take_ge by lia.
  destruct (bf_first_free_spec bits Hok) as (n & Hn & Hr & Hlow & Hclr).
  eapply wpf_access; [exact Hn|by apply HQ].
Qed.
Lemma wpf_retype H p u t ty sz c (Q : Z -> world E -> Prop) w :
  spaces w !! p = Some c -> I H (env w) -> (forall a e, I H e -> Q a (World (spaces w) e)) ->
  wpf F (cspace_untyped_retype p u t ty sz) Q w.
Proof.
  intros Hc HI HQ. unfold cspace_untyped_retype. wp_line. eapply wpf_cs; [done|].
  destruct (two_level c); by apply (wpf_kernel H).
Qed.
Lemma wpf_retype_helper H p ty t c (Q : option Z -> world E -> Prop) w :
  spaces w !! p = Some c -> is_Some (alloc c) -> I H (env w) ->
  (forall a e, given H a e -> Q a (World (spaces w) e)) -> wpf F (retype_helper p ty t) Q w.
Proof.
  intros Hc Ha HI HQ. unfold retype_helper. wp_line. eapply wpf_cs; [done|]. wp_line. apply (wpf_alloc_4k H); [done|done|].
  intros [[u k]|] e Hu; wp_line; [|by apply HQ]. destruct Hu as [Hn Hu].
  eapply (wpf_retype ({[u]} ∪ H)); [done|done|]. intros err e' He'.
  case_bool_decide; wp_line; [|by apply HQ]. apply (wpf_free_4k H); [done|done|]. intros e'' He''. wp_line. by apply HQ.
Qed.
Lemma wpf_delete H p t c (Q : Z -> world E -> Prop) w :
  spaces w !! p = Some c -> I H (env w) -> (forall a e, I H e -> Q a (World (spaces w) e)) -> wpf F (cspace_delete p t) Q w.
Proof. intros Hc HI HQ. unfold cspace_delete. wp_line. eapply wpf_cs; [done|]. by apply (wpf_kernel H). Qed.

Lemma wpf_upd_node p i f c n (Q : unit -> world E -> Prop) w :
  spaces w !! p = Some c -> bot_lvl_nodes c !! Z.to_nat i = Some (Some n) ->
  Q tt (put_space w p (set_nodes (<[Z.to_nat i := Some (f n)]> (bot_lvl_nodes c)) c) (env w)) ->
  wpf F (upd_node p i f) Q w.
Proof.
  intros Hc Hn HQ. unfold upd_node, put_cs. wp_line. eapply wpf_cs; [done|]. wp_line.
  eapply wpf_node_at; [done|]. by wp_line.
Qed.
Lemma wpf_upd_cnode p q f c n b (Q : unit -> world E -> Prop) w :
  spaces w !! p = Some c -> bot_lvl_nodes c !! Z.to_nat (q / 169) = Some (Some n) ->
  cnodes n !! Z.to_nat (q mod 169) = Some b ->
  Q tt (put_space w p (with_cnode c q n (f b)) (env w)) -> wpf F (upd_cnode p (q / 169) (q mod 169) f) Q w.
Proof.
  intros Hc Hn Hb HQ. unfold upd_cnode. wp_line. eapply wpf_cs; [done|]. wp_line. eapply wpf_node_at; [done|].
  wp_line. eapply wpf_access; [done|]. by eapply wpf_upd_node.
Qed.

(** The first free slot [r] of the cnode [q] was taken, and nothing else. *)
Record took (C : Z) (c : cspace_t) (q r : Z) (c' : cspace_t) : Prop := Took {
  tk_ok : two_ok C c';
  tk_same : same_space c c';
  tk_wm : watermark c' = watermark c;
  tk_slot : exists j, 0 ≤ j < 128 /\ r = slot q j /\ forall i, 0 ≤ i < j -> taken c (slot q i);
  tk_new : ~ taken c r;
  tk_taken : forall k, taken c' k <-> k = r \/ taken c k;
}.

Lemma taken_slots c' (P : Z -> Prop) :
  two_level c' = true -> (forall k, P k -> 0 ≤ k) ->
  (forall x j, 0 ≤ x -> 0 ≤ j < 128 -> taken c' (slot x j) <-> P (slot x j)) -> forall k, taken c' k <-> P k.
Proof.
  intros Ht HP H k. destruct (decide (0 ≤ k)) as [Hk|Hk].
  - rewrite <- (slot_eta k). apply H; [apply Z.div_pos; lia|apply Z.mod_pos_bound; lia].
  - split; [|by intros ?%HP]. unfold taken. rewrite Ht. naive_solver.
Qed.
Lemma taken_nonneg c k : taken c k -> 0 ≤ k.
Proof. unfold taken. destruct (two_level c); [naive_solver|]. intros ?%has_lt. lia. Qed.

Lemma took_update C c q n b bits top j u :
  two_ok C c -> 0 ≤ q < C -> ~ has (top_bf c) q ->
  bot_lvl_nodes c !! Z.to_nat (q / 169) = Some (Some n) -> cnodes n !! Z.to_nat (q mod 169) = Some b ->
  length bits = 2%nat -> bf_ok bits -> length top = length (top_bf c) -> bf_ok top ->
  0 ≤ j < 128 -> (forall i, 0 ≤ i < j -> has (bf b) i) -> ~ has (bf b) j ->
  (forall k, has bits k <-> k = j \/ has (bf b) k) ->
  (forall x, has top x <-> x = q /\ (forall i, 0 ≤ i < 128 -> has bits i) \/ has (top_bf c) x) ->
  took C c q (slot q j) (update c q n (BotLvl bits u) top).
Proof.
  intros Hok Hq Hntop Hn Hb Hlb Hbok Hlt Htok Hj Hlow Hclr Hbits Htop.
  assert (Hat : cnode_at c q = Some b) by (unfold cnode_at; by rewrite Hn).
  pose proof (tw_two _ _ Hok) as Htwo.
  destruct (two_update C c q n b (BotLvl bits u) top) as (Hok' & Hsame & Htk); try done.
  { intros x Hx. rewrite Htop. naive_solver. }
  { rewrite Htop. naive_solver. }
  split; [done|done|done| | |].
  - exists j. split_and!; try done; try lia. intros i Hi. apply (two_taken c q i b); try done; try lia. by apply Hlow.
  - by rewrite (two_taken c q j b) by (try done; lia).
  - apply taken_slots; [exact Htwo|intros k [->|?%taken_nonneg]; [unfold slot; lia|done]|].
    intros x i Hx Hi. rewrite Htk by done. case_decide as Exq.
    + subst x. cbn [bf]. rewrite Hbits, (two_taken c q i b) by (try done; lia). unfold slot. split; intros [?|?]; auto; left; lia.
    + split; [by right|]. intros [Hs|?]; [|done]. apply slot_inj in Hs; [|done|done]. tauto.
Qed.

Lemma take_bottom_spec C p q c w :
  spaces w !! p = Some c -> two_ok C c -> 0 ≤ q < C -> ~ has (top_bf c) q ->
  wpf F (take_bottom p q (slot q 0)) (fun r w' => exists c', w' = put_space w p c' (env w) /\ took C c q r c') w.
Proof.
  intros Hc Hok Hq Hntop. pose proof Hok as [Htwo [Htb Htl Hto] HC Hnb Hfill _ _ Hfull _ _ _].
  destruct (two_cnode C c q Hok) as (n & b & Hn & Hno & Hb & Hat & Hlb & Hbok); [lia|].
  unfold take_bottom. rewrite NODE_INDEX_div, CNODE_INDEX_mod, slot_div by lia. wp_line. eapply wpf_cs; [done|].
  wp_line. eapply wpf_node_at; [done|]. wp_line. eapply wpf_access; [done|]. wp_line.
  apply wpf_first_free; [done|by rewrite Hlb|]. unfold bf_size. rewrite Hlb. intros j Hj Hlow Hclr.
  assert (j < 128).
  { destruct (decide (j < 128)); [done|]. destruct Hntop. apply Hfull; [lia|]. intros i Hi.
    apply (two_taken c q i b); [done|lia|lia|done|]. apply Hlow. lia. }
  wp_line. destruct (bf_set_bit_spec (bf b) j Hbok) as (bits & Hbits & Hbok' & Hbl & Hbh); [unfold bf_size; rewrite Hlb; lia|].
  eapply wpf_access; [exact Hbits|]. wp_line. eapply wpf_upd_cnode; [done..|]. wp_line.
  apply wpf_first_free; [done|by rewrite Hbl, Hlb|]. unfold bf_size. rewrite Hbl, Hlb. intros nx Hnx Hnlow Hnclr.
  rewrite CNODE_SLOTS_12. wp_line. apply wpf_when; intros Hnf; bd; wp_line.
  - destruct (bf_set_bit_spec (top_bf c) q Hto) as (top & Htop & Htok & Htopl & Htoph); [lia|].
    eapply wpf_access; [exact Htop|]. eapply wpf_upd; [apply lookup_insert_eq|]. wp_line.
    eexists. split; [by unfold put_space; cbn; rewrite insert_insert_eq|].
    replace (slot q 0 + j) with (slot q j) by (unfold slot; lia).
    apply (took_update C c q n b bits top j); try done; try lia.
    intros x. rewrite Htoph. assert (forall i, 0 ≤ i < 128 -> has bits i) by (intros; apply Hnlow; lia). tauto.
  - eexists. split; [done|]. replace (slot q 0 + j) with (slot q j) by (unfold slot; lia).
    apply (took_update C c q n b bits (top_bf c) j); try done; try lia.
    intros x. split; [by right|]. intros [[_ Hall]|?]; [|done]. destruct Hnclr. apply Hall. lia.
Qed.

(** ** Growing the second level *)

(** [c'] is [c] with more cnodes: the same slots are taken. *)
Record grown (c c' : cspace_t) : Prop := Grown {
  gr_same : same_space c c';
  gr_top : top_bf c' = top_bf c;
  gr_wm : watermark c' = watermark c;
  gr_len : length (bot_lvl_nodes c') = length (bot_lvl_nodes c);
  gr_taken : forall k, taken c' k <-> taken c k;
}.
#[local] Instance grown_refl : Reflexive grown.
Proof. intros c. by split. Qed.
#[local] Instance grown_trans : Transitive grown.
Proof.
  intros a b c [H1 H2 H3 H4 H5] [G1 G2 G3 G4 G5]. split; [by etrans|congruence..|].
  intros k. by rewrite G5.
Qed.

Definition nodes_ok (C : Z) (c : cspace_t) : Prop := forall i, 0 ≤ i < n_bot_lvl_nodes c -> exists n,
  bot_lvl_nodes c !! Z.to_nat i = Some (Some n) /\ node_ok (Z.min 169 (C - 169 * i)) n.

Lemma two_rebuild C C' c c' :
  two_ok C c -> grown c c' -> C ≤ C' ≤ top_slots c -> 0 ≤ n_bot_lvl_nodes c' ->
  169 * (n_bot_lvl_nodes c' - 1) ≤ C' ≤ 169 * n_bot_lvl_nodes c' -> nodes_ok C' c' -> two_ok C' c'.
Proof.
  intros [H1 [H2 H3 H4] H5 H6 H7 H8 H9 H10 H11 H12 H13] [[S1 S2 S3 S4 S5 S6] Ht Hw Hl Htk] HC Hnb Hfill Hn.
  assert (Hts : top_slots c' = top_slots c) by (unfold top_slots; by rewrite S3).
  split; try done; try congruence; try lia.
  - split; [by rewrite S3|by rewrite Ht, Hts|by rewrite Ht].
  - rewrite Hts, Ht. intros q Hq. rewrite H10 by done. apply forall_proper. intros j. by rewrite Htk.
  - intros k Hk. apply Htk, H11 in Hk. lia.
Qed.

(** The space with the node [i] replaced, when no bit changes. *)
Definition with_node (c : cspace_t) (i : Z) (o : option bot_lvl_node_t) : cspace_t :=
  set_nodes (<[Z.to_nat i := o]> (bot_lvl_nodes c)) c.
Definition bits_of (o : option bot_lvl_node_t) (j : Z) : list Z :=
  default [] (n ← o; bf <$> cnodes n !! Z.to_nat j).

Lemma taken_bits c k : two_level c = true -> taken c k <->
  0 ≤ k /\ exists o, bot_lvl_nodes c !! Z.to_nat (k / 128 / 169) = Some o /\ has (bits_of o (k / 128 mod 169)) (k mod 128).
Proof.
  intros Ht. unfold taken, cnode_at, bits_of. rewrite Ht.
  destruct (bot_lvl_nodes c !! _) as [[n|]|]; simpl; [|split; [naive_solver|]..].
  - destruct (cnodes n !! _) as [b|] eqn:Hb; simpl.
    + split; [intros (b' & ? & [= <-] & ?); split; [done|]; eexists; split; [done|]; simpl; by rewrite Hb|].
      intros (? & o & [= <-] & H). simpl in H. rewrite Hb in H. eauto.
    + split; [naive_solver|]. intros (? & o & [= <-] & H). simpl in H. rewrite Hb in H. simpl in H.
      by apply has_lt in H; unfold bf_size in H; simpl in H; lia.
  - intros (? & o & [= <-] & H). simpl in H. apply has_lt in H; unfold bf_size in H; simpl in H; lia.
  - naive_solver.
Qed.

Lemma grown_node c i o0 o nb :
  two_level c = true -> 0 ≤ i -> bot_lvl_nodes c !! Z.to_nat i = Some o0 ->
  (forall k, 0 ≤ k -> k / 128 / 169 = i ->
    has (bits_of o (k / 128 mod 169)) (k mod 128) <-> has (bits_of o0 (k / 128 mod 169)) (k mod 128)) ->
  grown c (set_n_nodes nb (with_node c i o)).
Proof.
  intros Ht Hi Ho Hsame. split; [by split|done|done|apply length_insert|]. intros k.
  rewrite !taken_bits by done. cbn [bot_lvl_nodes set_n_nodes with_node set_nodes].
  destruct (decide (0 ≤ k)) as [Hk|Hk]; [|tauto]. apply and_iff_compat_l.
  assert (Hp : 0 ≤ k / 128 / 169) by (apply Z.div_pos; [apply Z.div_pos|]; lia).
  destruct (decide (k / 128 / 169 = i)) as [E'|Hne].
  - rewrite E', Ho, list_lookup_insert_eq by (by apply lookup_lt_Some in Ho).
    split; intros (o' & [= <-] & H); (eexists; split; [done|]); by apply (Hsame k).
  - by rewrite list_lookup_insert_ne by lia.
Qed.

Lemma zero_bits j k : ~ has (bits_of (Some zero_node) j) k.
Proof.
  unfold bits_of, zero_node. cbn [mbind option_bind cnodes].
  destruct (replicate _ _ !! _) as [b|] eqn:Hb; cbn [fmap option_fmap option_map default].
  - apply lookup_replicate in Hb as [-> _]. cbn [bf]. intros (x & Hx & Ht). unfold word_at in Hx.
    case_bool_decide; [|done]. destruct (Z.to_nat (k / 64)) as [|[|]]; simpl in Hx; simplify_eq; by rewrite Z.bits_0 in Ht.
  - intros H%has_lt. unfold bf_size in H. simpl in H. lia.
Qed.
Lemma fresh_bits C c i o k :
  two_ok C c -> C ≤ 169 * i -> 0 ≤ k -> k / 128 / 169 = i -> bot_lvl_nodes c !! Z.to_nat i = Some o ->
  ~ has (bits_of o (k / 128 mod 169)) (k mod 128).
Proof.
  intros Hok HC Hk Hi Ho H. assert (Ht : taken c k).
  { apply taken_bits; [by apply (tw_two C)|]. split; [done|]. exists o. by rewrite Hi. }
  apply (tw_fresh C c Hok) in Ht. pose proof (Z.mul_div_le (k / 128) 169). lia.
Qed.

Lemma node_ok_zero u f : node_ok 0 (BotNode 0 u f (cnodes zero_node)).
Proof.
  unfold zero_node. split; cbn [n_cnodes cnodes]; [done|apply length_replicate|]. apply Forall_replicate. cbn [bf].
  split; [done|]. unfold bf_ok. repeat constructor; done.
Qed.

(** A new bookkeeping node at the end. *)
Lemma two_add_node C c u f :
  two_ok C c -> C = 169 * n_bot_lvl_nodes c -> C < top_slots c ->
  let c' := set_n_nodes (n_bot_lvl_nodes c + 1) (with_node c (n_bot_lvl_nodes c) (Some (BotNode 0 u f (cnodes zero_node)))) in
  two_ok C c' /\ grown c c'.
Proof.
  intros Hok HC HT c'. pose proof Hok as [H1 H2 H3 H4 H5 H6 H7 _ _ _ _].
  destruct (lookup_lt_is_Some_2 (bot_lvl_nodes c) (Z.to_nat (n_bot_lvl_nodes c))) as [o Ho]; [lia|].
  assert (Hg : grown c c').
  { apply (grown_node c _ o); [done|done|done|]. intros k Hk Hi. split; intros H; exfalso.
    - by apply (zero_bits (k / 128 mod 169) (k mod 128)).
    - eapply (fresh_bits C c); try done. lia. }
  split; [|done]. apply (two_rebuild C C c c'); [done|done|lia|simpl; lia|simpl; lia|]. intros i Hi.
  unfold c' in *. cbn [n_bot_lvl_nodes set_n_nodes with_node set_nodes bot_lvl_nodes] in *.
  destruct (decide (i = n_bot_lvl_nodes c)) as [->|Hne].
  - rewrite list_lookup_insert_eq by (by apply lookup_lt_Some in Ho). eexists. split; [done|].
    replace (169 `min` (C - 169 * n_bot_lvl_nodes c)) with 0 by lia. apply node_ok_zero.
  - rewrite list_lookup_insert_ne by lia. apply H7. lia.
Qed.
(** Storing NULL behind the last node. *)
Lemma two_clear_node C c :
  two_ok C c -> C = 169 * n_bot_lvl_nodes c -> C < top_slots c ->
  let c' := with_node c (n_bot_lvl_nodes c) None in two_ok C c' /\ grown c c'.
Proof.
  intros Hok HC HT c'. pose proof Hok as [H1 H2 H3 H4 H5 H6 H7 _ _ _ _].
  destruct (lookup_lt_is_Some_2 (bot_lvl_nodes c) (Z.to_nat (n_bot_lvl_nodes c))) as [o Ho]; [lia|].
  assert (Hg : grown c c').
  { change c' with (set_n_nodes (n_bot_lvl_nodes c) c').
    apply (grown_node c _ o); [done|done|done|]. intros k Hk Hi. split; intros H; exfalso.
    - apply has_lt in H. unfold bf_size in H. simpl in H. lia.
    - eapply (fresh_bits C c); try done. lia. }
  split; [|done]. apply (two_rebuild C C c c'); [done|done|lia|simpl; lia|simpl; lia|]. intros i Hi.
  unfold c' in *. cbn [n_bot_lvl_nodes set_n_nodes with_node set_nodes bot_lvl_nodes] in *.
  rewrite list_lookup_insert_ne by lia. apply H7. lia.
Qed.

(** Changing a node without its bits; [C'] counts its cnodes. *)
Lemma two_same_bits C C' c i n n' :
  two_ok C c -> C ≤ C' ≤ top_slots c -> C' ≤ 169 * n_bot_lvl_nodes c -> 0 ≤ i < n_bot_lvl_nodes c ->
  bot_lvl_nodes c !! Z.to_nat i = Some (Some n) -> bf <$> cnodes n' = bf <$> cnodes n ->
  n_cnodes n' = Z.min 169 (C' - 169 * i) -> (C' = C \/ C' = C + 1 /\ i = C / 169) ->
  let c' := with_node c i (Some n') in two_ok C' c' /\ grown c c'.
Proof.
  intros Hok HC' Hfill' Hi Hn Hbf Hnc Hcase c'. pose proof Hok as [H1 H2 H3 H4 H5 H6 H7 _ _ _ _].
  assert (Hb : forall j, bits_of (Some n') j = bits_of (Some n) j).
  { intros j. unfold bits_of. cbn [mbind option_bind]. by rewrite <- !list_lookup_fmap, Hbf. }
  assert (Hg : grown c c').
  { change c' with (set_n_nodes (n_bot_lvl_nodes c) c').
    apply (grown_node c _ (Some n)); [done|lia|done|]. intros k Hk _. by rewrite Hb. }
  split; [|done]. apply (two_rebuild C C' c c'); [done|done|lia|simpl; lia|simpl; lia|]. intros x Hx.
  unfold c' in *. cbn [n_bot_lvl_nodes with_node set_nodes bot_lvl_nodes] in *.
  destruct (H7 x Hx) as (m & Hm & Hmo). destruct (decide (x = i)) as [->|Hne].
  - rewrite list_lookup_insert_eq by (by apply lookup_lt_Some in Hn). rewrite Hn in Hm. injection Hm as <-.
    destruct Hmo as [G1 G2 G3]. exists n'. split; [done|]. split; [done| |].
    + by rewrite <- G2, <- (length_fmap bf), Hbf, length_fmap.
    + apply (Forall_fmap bf (fun x => length x = 2%nat /\ bf_ok x)). rewrite Hbf. by apply Forall_fmap.
  - rewrite list_lookup_insert_ne by lia. exists m. split; [done|].
    replace (169 `min` (C' - 169 * x)) with (169 `min` (C - 169 * x)); [done|].
    destruct Hcase as [->|[-> ->]]; [done|]. pose proof (Z.div_mod C 169). pose proof (Z.mod_pos_bound C 169). lia.
Qed.

Lemma init_node_spec p i n u f c (Q : unit -> world E -> Prop) w :
  spaces w !! p = Some c -> bot_lvl_nodes c !! Z.to_nat i = Some (Some n) ->
  Q tt (put_space w p (set_n_nodes (n_bot_lvl_nodes c + 1) (with_node c i (Some (BotNode 0 u f (cnodes zero_node))))) (env w)) ->
  wpf F (init_bot_lvl_node p i u f) Q w.
Proof.
  intros Hc Hn HQ. pose proof (lookup_lt_Some _ _ _ Hn). unfold init_bot_lvl_node. wp_line.
  eapply wpf_upd_node; [done|done|]. wp_line. eapply wpf_upd; [apply lookup_insert_eq|].
  eapply wpf_upd_node; [apply lookup_insert_eq|by apply list_lookup_insert_eq|].
  unfold put_space in *. cbn [spaces env]. rewrite !insert_insert_eq. unfold with_node in HQ.
  cbn [bot_lvl_nodes set_n_nodes set_nodes]. rewrite list_insert_insert_eq. exact HQ.
Qed.

(** What [ensure_node], [ensure_cnode] and [ensure_levels] leave: [C'] cnodes
    and the same slots. *)
Definition ensured H (w : world E) (p : Z) (c : cspace_t) (C' : Z) (P : cspace_t -> Prop) (w' : world E) : Prop :=
  exists c' e, w' = put_space w p c' e /\ I H e /\ two_ok C' c' /\ grown c c' /\ P c'.

Lemma ensure_node_spec H C p used c w :
  spaces w !! p = Some c -> I H (env w) -> two_ok C c -> C < top_slots c ->
  wpf F (ensure_node p (C / 169) used) (fun r => ensured H w p c C (fun c' =>
    fst r = true -> C / 169 < n_bot_lvl_nodes c')) w.
Proof.
  intros Hc HI Hok HT. pose proof Hok as [H1 H2 H3 H4 H5 H6 H7 _ _ H10 H11]. unfold ensure_node.
  assert (Hsame : forall e, World (spaces w) e = put_space w p c e).
  { intros e. unfold put_space. by rewrite insert_id. }
  wp_line. eapply wpf_cs; [done|]. case_bool_decide as Hd; wp_line.
  2:{ exists c, (env w). rewrite <- Hsame. split_and!; [by destruct w|done|done|done|lia]. }
  assert (C = 169 * n_bot_lvl_nodes c) as HC.
  { pose proof (Z.div_mod C 169). pose proof (Z.mod_pos_bound C 169). lia. }
  assert (HCd : C / 169 = n_bot_lvl_nodes c) by (rewrite HC, Z.mul_comm; apply Z.div_mul; lia).
  rewrite HCd in *.
  destruct (lookup_lt_is_Some_2 (watermark c) (Z.to_nat MAPPING_SLOTS)) as [fr Hfr]; [rewrite H10; vm_compute; lia|].
  eapply wpf_access; [done|]. wp_line. eapply (wpf_retype_helper H); [done|done|done|]. intros [u|] e Hu; wp_line.
  2:{ exists c, e. split_and!; [done|done|done|done|done]. }
  destruct Hu as [Hun Hu].
  apply (wpf_map_frame ({[u]} ∪ H)); [done|done|done|]. intros [mapped used'] e' He'. wp_line. unfold store_node, put_cs. wp_line.
  eapply wpf_cs; [done|]. wp_line.
  destruct (lookup_lt_is_Some_2 (bot_lvl_nodes c) (Z.to_nat (n_bot_lvl_nodes c))) as [o Ho]; [lia|].
  eapply wpf_access; [exact Ho|]. wp_line. destruct mapped; wp_line.
  - eapply init_node_spec; [apply lookup_insert_eq|by apply list_lookup_insert_eq; apply lookup_lt_Some in Ho|].
    wp_line. destruct (two_add_node C c u fr Hok HC HT) as [Hok' Hg]. eexists _, _.
    split; [|split; [exact (given_forget H (Some u) _ (conj Hun He'))|split; [exact Hok'|split; [exact Hg|simpl; lia]]]].
    unfold put_space, with_node. cbn [spaces env bot_lvl_nodes set_nodes]. by rewrite insert_insert_eq, list_insert_insert_eq.
  - eapply (wpf_delete ({[u]} ∪ H)); [apply lookup_insert_eq|done|]. intros a e'' He''. wp_line.
    apply (wpf_free_4k H); [done|done|]. intros e3 He3. wp_line. destruct (two_clear_node C c Hok HC HT) as [Hok' Hg].
    eexists _, _. split_and!; [done|exact He3|exact Hok'|exact Hg|done].
Qed.

Lemma ensure_cnode_spec H C p c w :
  spaces w !! p = Some c -> I H (env w) -> two_ok C c -> C < top_slots c -> C / 169 < n_bot_lvl_nodes c ->
  wpf F (ensure_cnode p (C / 169) (slot C 0)) (fun r => ensured H w p c (if (r : bool) then C + 1 else C) (fun _ => True)) w.
Proof.
  intros Hc HI Hok HT Hi. pose proof Hok as [H1 H2 H3 H4 H5 H6 H7 _ _ H10 H11]. unfold ensure_cnode.
  pose proof (Z.div_mod C 169 ltac:(lia)) as Hdm. pose proof (Z.mod_pos_bound C 169 ltac:(lia)) as Hmb.
  pose proof (Z.div_pos C 169 ltac:(lia) ltac:(lia)) as Hdp.
  destruct (two_cnode C c C Hok) as (n & b & Hn & Hno & Hb & _); [lia|]. pose proof Hno as [N1 N2 N3].
  wp_line. eapply wpf_cs; [done|]. wp_line. eapply wpf_access; [exact Hn|]. wp_line.
  apply wpf_assert; [by apply bool_decide_eq_true_2|]. wp_line. eapply wpf_node_at; [done|].
  rewrite CNODE_INDEX_mod, slot_div by lia. rewrite bool_decide_eq_true_2 by lia. wp_line.
  apply (wpf_alloc_4k H); [done|done|]. intros u e Hu. wp_line. eapply wpf_upd_cnode; [done..|]. wp_line.
  destruct (two_same_bits C C c (C / 169) n (set_cnodes (<[Z.to_nat (C mod 169):=BotLvl (bf b) (default 0 (fst <$> u))]> (cnodes n)) n))
    as [Hok1 Hg1]; try done; try lia.
  { cbn [cnodes set_cnodes]. rewrite list_fmap_insert. apply list_insert_id. rewrite list_lookup_fmap, Hb. done. }
  destruct u as [[un ut]|]; wp_line; [|by eexists _, _].
  destruct Hu as [Hun Hu]. apply (wpf_kernel ({[un]} ∪ H)); [done|]. intros err e1 He1. case_bool_decide; wp_line.
  - apply (wpf_free_4k H); [done|done|]. intros e2 He2. wp_line. by eexists _, _.
  - pose proof (lookup_lt_Some _ _ _ Hn) as Hln.
    eapply wpf_upd_node; [apply lookup_insert_eq|by apply list_lookup_insert_eq|]. wp_line.
    set (c1 := with_node _ _ _) in Hok1.
    set (n1 := set_cnodes _ n) in *.
    destruct (two_same_bits C (C + 1) c1 (C / 169) n1 (set_n_cnodes (n_cnodes n1 + 1) n1)) as [Hok2 Hg2]; try done; try lia.
    + change (top_slots c1) with (top_slots c). lia.
    + cbn. lia.
    + by apply list_lookup_insert_eq.
    + cbn [n_cnodes set_n_cnodes]. change (n_cnodes n1) with (n_cnodes n). lia.
    + eexists _, _.
      split; [|split; [exact (given_forget H (Some un) _ (conj Hun He1))|split; [exact Hok2|split; [by transitivity c1|done]]]].
      unfold put_space. cbn [spaces env]. by rewrite insert_insert_eq.
Qed.

Lemma ensure_levels_spec H C p used c w :
  spaces w !! p = Some c -> I H (env w) -> two_ok C c -> C < top_slots c ->
  wpf F (ensure_levels p (slot C 0) used) (fun r => ensured H w p c (if fst r : bool then C + 1 else C) (fun _ => True)) w.
Proof.
  intros Hc HI Hok HT. pose proof Hok as [H1 [Hb _ _] H3 _ _ _ _ _ _ _ _]. unfold ensure_levels.
  wp_line. eapply wpf_cs; [done|]. rewrite H1, NODE_INDEX_div, slot_div by lia. cbn [negb].
  change (CNODE_SLOT_BITS CNODE_SIZE_BITS) with 7. rewrite PER_NODE.
  assert (Hsz : BIT (CNODE_SLOT_BITS (top_lvl_size_bits c) + 7) = top_slots c * 128).
  { unfold top_slots, CNODE_SLOTS, CNODE_SLOT_BITS, seL4_SlotBits. rewrite !BIT_pow, Z.pow_add_r by lia. done. }
  rewrite Hsz, bool_decide_eq_false_2.
  2:{ unfold DIV_ROUND_UP. assert (C / 169 ≤ top_slots c * 128 / 169) by (apply Z.div_le_mono; lia).
      pose proof (Z.div_mod (top_slots c * 128) 169). pose proof (Z.mul_div_le C 169). case_bool_decide; lia. }
  wp_line. eapply wpf_mono; [by apply (ensure_node_spec H)|]. intros [ok used'] w1 (c1 & e1 & -> & He1 & Hok1 & Hg1 & Hn1).
  cbn [fst] in Hn1. destruct ok; wp_line; [|by eexists _, _].
  eapply wpf_mono; [apply (ensure_cnode_spec H C p c1); [apply lookup_insert_eq|done|done| |by apply Hn1]|].
  { unfold top_slots. by rewrite (ss_size _ _ (gr_same _ _ Hg1)). }
  intros r w2 (c2 & e2 & -> & He2 & Hok2 & Hg2 & _). wp_line. exists c2, e2.
  split_and!; [unfold put_space; cbn; by rewrite insert_insert_eq|done|done|by transitivity c1|done].
Qed.

Lemma refill_none self p w : wpf F (refill_watermark self p 0) (fun _ w' => w' = w) w.
Proof.
  unfold refill_watermark. apply (wpf_iter F _ (fun _ w' => w' = w)); [done|].
  intros i r w' ->. by rewrite Z.bits_0.
Qed.

(** The first free cnode: everything below is full. *)
Definition first_cnode (c : cspace_t) (q : Z) : Prop :=
  (forall k, 0 ≤ k < q -> has (top_bf c) k) /\ ~ has (top_bf c) q.

Lemma first_cnode_le C c q : two_ok C c -> first_cnode c q -> 0 ≤ q < top_slots c -> q ≤ C.
Proof.
  intros Hok [Hlow _] Hq. destruct (decide (q ≤ C)); [done|]. exfalso.
  assert (Ht : taken c (slot C 0)) by (apply (tw_full C c Hok C); [|apply Hlow|]; pose proof (tw_C C c Hok); lia).
  apply (tw_fresh C c Hok) in Ht. rewrite slot_div in Ht; lia.
Qed.

Lemma missing_level_spec C c q w :
  two_ok C c -> 0 ≤ q ≤ C ->
  wpf F (missing_level c (slot q 0)) (fun b w' => w' = w /\ b = bool_decide (C ≤ q)) w.
Proof.
  intros Hok Hq. pose proof Hok as [_ _ _ H4 H5 _ _ _ _ _ _]. unfold missing_level.
  rewrite NODE_INDEX_div, CNODE_INDEX_mod, slot_div by lia.
  pose proof (Z.div_mod q 169 ltac:(lia)). pose proof (Z.mod_pos_bound q 169 ltac:(lia)).
  case_bool_decide as Hd; wp_line.
  { split; [done|]. symmetry. apply bool_decide_eq_true_2. lia. }
  destruct (tw_nodes C c Hok (q / 169)) as (n & Hn & [Hno _ _]); [pose proof (Z.div_pos q 169); lia|].
  eapply wpf_node_at; [done|]. wp_line. split; [done|]. rewrite Hno. apply bool_decide_ext. lia.
Qed.

(** The start of a request: the first cnode, or slot, that is not full. *)
Lemma alloc_start self p c (Q : Z -> world E -> Prop) w :
  spaces w !! p = Some c -> top_ok c ->
  (forall q, 0 ≤ q < top_slots c -> first_cnode c q ->
     wpf F (if two_level c then alloc_two_level self p c q
            else top ← access (bf_set_bit (top_bf c) q); upd p (set_top_bf top);; mret q) Q w) ->
  ((forall k, 0 ≤ k < top_slots c -> has (top_bf c) k) -> Q seL4_CapNull w) ->
  wpf F (alloc_slot_body self p) Q w.
Proof.
  intros Hc [Hb Hl Hto] Hfound Hfull. unfold alloc_slot_body. wp_line. eapply wpf_cs; [done|]. wp_line.
  change (CNODE_SLOTS (top_lvl_size_bits c)) with (top_slots c). apply wpf_first_free; [done| |].
  { unfold BITFIELD_SIZE. change (CNODE_SLOTS (top_lvl_size_bits c)) with (top_slots c). rewrite <- Hl.
    unfold bf_size, seL4_WordBits. apply Z.div_mul. lia. }
  rewrite Hl. intros q Hq Hlow Hclr. destruct (decide (q = top_slots c)) as [->|Hne].
  - rewrite (bool_decide_eq_true_2 (_ ≤ _)), orb_true_r by lia. wp_line. by apply Hfull.
  - rewrite !bool_decide_eq_false_2, andb_false_r by lia. cbn [orb]. apply Hfound; [lia|by split].
Qed.

(** A request that finds its cnode present. *)
Lemma alloc_two_present C self p q c w :
  spaces w !! p = Some c -> two_ok C c -> first_cnode c q -> 0 ≤ q < C ->
  wpf F (alloc_two_level self p c q) (fun r w' => exists c', w' = put_space w p c' (env w) /\ took C c q r c') w.
Proof.
  intros Hc Hok Hf Hq. unfold alloc_two_level. rewrite shiftl_slot. wp_line.
  eapply wpf_mono; [by apply (missing_level_spec C); [|lia]|]. intros b w' [-> ->].
  rewrite bool_decide_eq_false_2 by lia. wp_line. cbn [negb]. wp_line.
  eapply wpf_mono; [apply (take_bottom_spec C); [done|done|done|apply Hf]|]. intros r w1 (c' & -> & Ht). wp_line.
  eapply wpf_mono; [apply refill_none|]. intros [] w2 ->. wp_line. eauto.
Qed.
Lemma first_cnode_unique c q q' : first_cnode c q -> first_cnode c q' -> 0 ≤ q -> 0 ≤ q' -> q = q'.
Proof.
  intros [H1 H2] [G1 G2] ? ?. destruct (decide (q < q')); [destruct H2; apply G1; lia|].
  destruct (decide (q' < q)); [destruct G2; apply H1; lia|lia].
Qed.
Lemma alloc_present C self p q c w :
  spaces w !! p = Some c -> two_ok C c -> first_cnode c q -> 0 ≤ q < C ->
  wpf F (alloc_slot_body self p) (fun r w' => exists c', w' = put_space w p c' (env w) /\ took C c q r c') w.
Proof.
  intros Hc Hok Hf Hq. pose proof (tw_C C c Hok). apply (alloc_start self p c); [done|apply Hok| |].
  - intros q' Hq' Hf'. rewrite (tw_two C c Hok). rewrite (first_cnode_unique c q' q) by (try done; lia).
    by apply alloc_two_present.
  - intros Hall. destruct Hf as [_ Hf]. destruct Hf. apply Hall. lia.
Qed.

Definition below_full (c : cspace_t) (q : Z) : Prop :=
  forall k j, 0 ≤ k < q -> 0 ≤ j < 128 -> taken c (slot k j).

Lemma first_cnode_below C c q :
  two_ok C c -> 0 ≤ q < top_slots c -> first_cnode c q -> below_full c q.
Proof. intros Hok Hq [Hlow _] k j Hk Hj. apply (tw_full C c Hok k); [lia| |done]. apply Hlow. lia. Qed.
Lemma first_cnode_prefix C c q m :
  two_ok C c -> 0 ≤ q < top_slots c -> below_full c q -> prefix c q m -> m < 128 -> first_cnode c q.
Proof.
  intros Hok Hq Hb Hp Hm. split.
  - intros k Hk. apply (tw_full C c Hok k); [lia|]. intros j Hj. by apply Hb.
  - rewrite (tw_full C c Hok q) by done. intros H. specialize (H 127 ltac:(lia)). apply Hp in H; lia.
Qed.
Lemma took_prefix C c q m r c' :
  took C c q r c' -> prefix c q m -> 0 ≤ m < 128 -> 0 ≤ q -> r = slot q m /\ prefix c' q (m + 1).
Proof.
  intros [_ _ _ (j & Hj & -> & Hlow) Hnew Htk] Hp Hm Hq.
  assert (j = m) as ->.
  { destruct (decide (j < m)); [destruct Hnew; by apply Hp|]. destruct (decide (m < j)); [|lia].
    specialize (Hlow m ltac:(lia)). apply Hp in Hlow; lia. }
  split; [done|]. intros i Hi. rewrite Htk, (Hp i Hi). split; [|intros; destruct (decide (i = m)); [left; by subst|right; lia]].
  intros [Hs|?]; [apply slot_inj in Hs|]; lia.
Qed.

(** Refilling the watermark from a cnode with room: the watermark gets slots
    that were free, and no other slot is taken. *)
Record refilled (C : Z) (q : Z) (c c' : cspace_t) (x : Z) : Prop := Refilled {
  rf_ok : two_ok C c';
  rf_same : same_space c c';
  rf_below : below_full c' q;
  rf_prefix : exists m, prefix c' q m /\ 1 ≤ m ≤ x + 1;
  rf_mono : forall k, taken c k -> taken c' k;
  rf_new : forall k, taken c' k -> taken c k \/ exists i, (i < Z.to_nat x)%nat /\ watermark c' !! i = Some k;
}.

Lemma refilled_step C q c c1 c2 r x :
  refilled C q c c1 x -> took C c1 q r c2 -> 0 ≤ x < 4 -> 0 ≤ q -> q < top_slots c ->
  refilled C q c (set_watermark (<[Z.to_nat x := r]> (watermark c2)) c2) (x + 1).
Proof.
  intros [R1 R2 R3 (m & Rp & Rm) R5 R6] Ht Hx Hq HqT. pose proof Ht as [T1 T2 T3 T4 T5 T6].
  destruct (took_prefix _ _ _ m _ _ Ht Rp) as [_ Hp']; [lia|done|].
  set (c3 := set_watermark _ c2).
  assert (Htk : forall k, taken c3 k <-> taken c2 k) by done.
  split.
  - destruct T1 as [a1 a2 a3 a4 a5 a6 a7 a8 a9 a10 a11]. split; try done; [by destruct a2; split|simpl; by rewrite length_insert].
  - transitivity c1; [done|]. transitivity c2; [done|by split].
  - intros k j Hk Hj. apply Htk, T6. right. by apply R3.
  - exists (m + 1). split; [exact Hp'|lia].
  - intros k Hk. apply Htk, T6. right. by apply R5.
  - intros k Hk. apply Htk, T6 in Hk. pose proof (tw_wm _ _ T1) as Hwl. cbn [watermark set_watermark c3].
    destruct Hk as [->|Hk].
    + right. exists (Z.to_nat x). split; [lia|]. apply list_lookup_insert_eq. lia.
    + destruct (R6 k Hk) as [?|(i & Hi & Hw)]; [by left|right]. exists i. split; [lia|].
      rewrite list_lookup_insert_ne by lia. by rewrite T3.
Qed.

Lemma refill_spec C q p used c w :
  spaces w !! p = Some c -> two_ok C c -> 0 ≤ q < C -> below_full c q -> prefix c q 1 ->
  wpf F (refill_watermark (alloc_slot 1) p used) (fun _ w' =>
    exists c', w' = put_space w p c' (env w) /\ refilled C q c c' 4) w.
Proof.
  intros Hc Hok Hq Hb Hp. unfold refill_watermark. pose proof (tw_C C c Hok) as HC.
  eapply wpf_mono; [apply (wpf_iter F _ (fun l w' => exists x c', l = seqZ x (4 - x) /\ 0 ≤ x ≤ 4 /\
    w' = put_space w p c' (env w) /\ refilled C q c c' x))|].
  - exists 0, c. split_and!; try done; [unfold put_space; rewrite insert_id by done; by destruct w|].
    split; [done|done|done|exists 1; split; [done|lia]|done|by left].
  - intros i r w' (x & c' & Hl & Hx & -> & Hr).
    assert (x < 4) by (destruct (decide (x < 4)); [done|]; rewrite seqZ_nil in Hl by lia; done).
    rewrite seqZ_cons in Hl by lia. injection Hl as -> ->. pose proof Hr as [R1 R2 R3 (m & Rp & Rm) R5 R6].
    assert (HqT : top_slots c' = top_slots c) by (unfold top_slots; by rewrite (ss_size _ _ R2)).
    destruct (Z.testbit used x).
    + wp_line. cbn [alloc_slot]. eapply wpf_mono; [apply (alloc_present C _ p q c'); [apply lookup_insert_eq|done| |done]|].
      { eapply first_cnode_prefix; try done; lia. }
      intros s w1 (c2 & -> & Ht). eapply wpf_upd; [apply lookup_insert_eq|].
      exists (Z.succ x), (set_watermark (<[Z.to_nat x := s]> (watermark c2)) c2).
      split; [by replace (4 - Z.succ x) with (Z.pred (4 - x)) by lia|]. split; [lia|].
      split; [unfold put_space; cbn; by rewrite !insert_insert_eq|].
      eapply refilled_step; try done; lia.
    + wp_line. exists (Z.succ x), c'. split; [by replace (4 - Z.succ x) with (Z.pred (4 - x)) by lia|].
      split; [lia|]. split; [done|]. split; try done; [exists m; split; [done|lia]|].
      intros k Hk. destruct (R6 k Hk) as [?|(i & Hi & Hw)]; [by left|right]. exists i. split; [lia|done].
  - intros [] w' (x & c' & Hl & Hx & -> & Hr).
    assert (x = 4) as -> by (destruct (decide (x = 4)); [done|]; rewrite seqZ_cons in Hl by lia; done). eauto.
Qed.

(** ** Allocation *)

(** [r] is newly allocated; the other slots that became taken, [R], went to the
    watermark. *)
Record allocated (c : cspace_t) (r : Z) (c' : cspace_t) : Prop := Allocated {
  al_range : 0 ≤ r < slots c;
  al_new : ~ taken c r;
  al_taken : exists R, (forall k, taken c' k <-> k = r \/ taken c k \/ k ∈ R) /\
    (forall k, k ∈ R -> k ≠ r /\ ~ taken c k /\ k ∈ watermark c') /\ (two_level c = false -> R = []);
}.
#[local] Instance taken_dec c k : Decision (taken c k).
Proof.
  destruct (two_level c) eqn:Ht; [|unfold taken; rewrite Ht; apply _].
  destruct (decide (0 ≤ k)); [|right; unfold taken; rewrite Ht; naive_solver].
  destruct (cnode_at c (k / 128)) as [b|] eqn:Hb; [|right; unfold taken; rewrite Ht, Hb; naive_solver].
  destruct (decide (has (bf b) (k mod 128))); [left|right]; unfold taken; rewrite Ht, Hb; naive_solver.
Defined.
Lemma al_here c r c' : allocated c r c' -> taken c' r.
Proof. intros [_ _ (R & H & _)]. apply H. by left. Qed.
Lemma al_mono c r c' : allocated c r c' -> forall k, taken c k -> taken c' k.
Proof. intros [_ _ (R & H & _)] k Hk. apply H. tauto. Qed.
(** All the slots of the cnodes that exist are taken. *)
Definition exhausted (c : cspace_t) : Prop :=
  if two_level c then exists C, two_ok C c /\ below_full c C
  else forall k, 0 ≤ k < slots c -> taken c k.

Definition alloc_post (c : cspace_t) (r : Z) (c' : cspace_t) : Prop :=
  space_ok c' /\ same_space c c' /\
  (allocated c r c' \/ r = seL4_CapNull /\ exhausted c /\ forall k, taken c' k <-> taken c k).

Lemma space_two C c : two_ok C c -> space_ok c.
Proof. intros H. unfold space_ok. rewrite (tw_two C c H). by exists C. Qed.

Lemma took_allocated C c q r c' : two_ok C c -> 0 ≤ q < C -> took C c q r c' -> alloc_post c r c'.
Proof.
  intros Hok Hq [T1 T2 T3 (j & Hj & -> & _) T5 T6]. split; [by eapply space_two|]. split; [done|left]. split; [|done|].
  - unfold slots. rewrite (tw_two _ _ Hok). pose proof (tw_C _ _ Hok). unfold slot. nia.
  - exists []. split_and!; [|by intros ? ?%elem_of_nil|done]. intros k. rewrite T6, elem_of_nil. tauto.
Qed.

Lemma grown_fresh C c c' : two_ok C c -> grown c c' -> prefix c' C 0.
Proof.
  intros Hok Hg j Hj. rewrite (gr_taken _ _ Hg). split; [|lia]. intros H%(tw_fresh C c Hok).
  rewrite slot_div in H; lia.
Qed.

Lemma alloc_grow H C p c w :
  spaces w !! p = Some c -> I H (env w) -> two_ok C c -> first_cnode c C -> C < top_slots c ->
  wpf F (alloc_two_level (alloc_slot 1) p c C) (fun r w' => exists c' e, w' = put_space w p c' e /\ I H e /\ alloc_post c r c') w.
Proof.
  intros Hc HI Hok Hf HT. pose proof (tw_C C c Hok) as HC.
  pose proof (first_cnode_below C c C Hok ltac:(lia) Hf) as Hb.
  unfold alloc_two_level. rewrite shiftl_slot. wp_line.
  eapply wpf_mono; [apply (missing_level_spec C); [done|lia]|]. intros b w0 [-> ->].
  rewrite bool_decide_eq_true_2 by lia. wp_line. eapply wpf_mono; [by apply (ensure_levels_spec H)|]. intros [ok used] w1 (c1 & e1 & -> & He1 & Hok1 & Hg1 & _).
  cbn [fst] in *. destruct ok; cbn [negb]; wp_line.
  2:{ exists c1, e1. split; [done|]. split; [done|]. split; [by eapply space_two|]. split; [apply Hg1|right]. split; [done|].
      split; [|apply Hg1]. unfold exhausted. rewrite (tw_two _ _ Hok). by exists C. }
  eapply wpf_mono; [apply (take_bottom_spec (C + 1) p C c1); [apply lookup_insert_eq|done|lia|]|].
  { rewrite (gr_top _ _ Hg1). apply Hf. }
  intros r w2 (c2 & -> & Ht). wp_line. pose proof Ht as [T1 T2 T3 T4 T5 T6].
  destruct (took_prefix _ _ _ 0 _ _ Ht (grown_fresh C c c1 Hok Hg1)) as [-> Hp]; [lia|lia|].
  eapply wpf_mono; [apply (refill_spec (C + 1) C p used c2); [apply lookup_insert_eq|done|lia| |exact Hp]|].
  { intros k j Hk Hj. apply T6. right. apply (gr_taken _ _ Hg1). by apply Hb. }
  intros [] w3 (c3 & -> & [R1 R2 R3 R4 R5 R6]). wp_line. exists c3, e1.
  split; [unfold put_space; cbn; by rewrite !insert_insert_eq|]. split; [done|]. split; [by eapply space_two|].
  split; [transitivity c1; [apply Hg1|by transitivity c2]|left]. split.
  - unfold slots. rewrite (tw_two _ _ Hok). unfold slot. lia.
  - rewrite <- (gr_taken _ _ Hg1). done.
  - exists (filter (fun k => taken c3 k /\ ~ taken c2 k) (watermark c3)).
    assert (Hc2 : forall k, taken c2 k <-> k = slot C 0 \/ taken c k) by (intros k; by rewrite T6, (gr_taken _ _ Hg1)).
    split_and!; [| |by rewrite (tw_two _ _ Hok)].
    + intros k. rewrite list_elem_of_filter. split.
      * intros Hk. destruct (decide (taken c2 k)) as [Hk2|Hk2]; [apply Hc2 in Hk2; tauto|].
        destruct (R6 k Hk) as [?|(i & _ & Hw)]; [done|]. apply list_elem_of_lookup_2 in Hw. tauto.
      * intros [->|[Hk|[[Hk _] _]]]; [apply R5, Hc2; by left|apply R5, Hc2; by right|done].
    + intros k [[Hk Hn] Hw]%list_elem_of_filter. rewrite Hc2 in Hn. tauto.
Qed.

Lemma alloc_full_two C c :
  two_ok C c -> (forall k, 0 ≤ k < top_slots c -> has (top_bf c) k) -> exhausted c.
Proof.
  intros Hok Hall. pose proof (tw_C C c Hok). unfold exhausted. rewrite (tw_two C c Hok). exists C. split; [done|].
  intros k j Hk Hj. apply (tw_full C c Hok k); [lia|apply Hall; lia|done].
Qed.

Lemma alloc_one_spec H p q c w :
  spaces w !! p = Some c -> I H (env w) -> two_level c = false -> top_ok c -> first_cnode c q -> 0 ≤ q < top_slots c ->
  wpf F (top ← access (bf_set_bit (top_bf c) q); upd p (set_top_bf top);; mret q)
    (fun r w' => exists c' e, w' = put_space w p c' e /\ I H e /\ alloc_post c r c') w.
Proof.
  intros Hc HI H1 [Hb Hl Hto] [_ Hclr] Hq.
  destruct (bf_set_bit_spec (top_bf c) q Hto) as (top & Htop & Htok & Htl & Hth); [lia|]. wp_line.
  eapply wpf_access; [exact Htop|]. wp_line. eapply wpf_upd; [done|]. wp_line. eexists _, _. split; [done|]. split; [exact HI|].
  assert (Htk : forall k, taken (set_top_bf top c) k <-> k = q \/ taken c k).
  { intros k. unfold taken. simpl. by rewrite H1, Hth. }
  split; [|split; [by split|left]].
  - unfold space_ok. simpl. rewrite H1. split; [done| |done]. unfold bf_size in *. simpl. by rewrite Htl.
  - split; [unfold slots; by rewrite H1|unfold taken; by rewrite H1|]. exists [].
    split_and!; [|by intros ? ?%elem_of_nil|done]. intros k. rewrite Htk, elem_of_nil. tauto.
Qed.

Lemma alloc_slot_spec H p c w :
  spaces w !! p = Some c -> I H (env w) -> space_ok c ->
  wpf F (cspace_alloc_slot p) (fun r w' => exists c' e, w' = put_space w p c' e /\ I H e /\ alloc_post c r c') w.
Proof.
  intros Hc HI Hok. assert (Hself : w = put_space w p c (env w)) by (unfold put_space; rewrite insert_id by done; by destruct w).
  unfold cspace_alloc_slot. cbn [alloc_slot]. unfold space_ok in Hok. destruct (two_level c) eqn:H1.
  - destruct Hok as [C Hok]. apply (alloc_start _ p c); [done|apply Hok| |].
    + intros q Hq Hf. rewrite H1. pose proof (first_cnode_le C c q Hok Hf Hq).
      destruct (decide (q = C)) as [->|Hne]; [apply (alloc_grow H); [done..|lia]|].
      eapply wpf_mono; [apply (alloc_two_present C _ p q c); [done..|lia]|].
      intros r w' (c' & -> & Ht). exists c', (env w). split; [done|]. split; [done|]. eapply took_allocated; [done| |done]. lia.
    + intros Hall. exists c, (env w). split; [done|]. split; [done|]. split; [by eapply space_two|]. split; [done|right].
      split; [done|]. split; [by eapply alloc_full_two|done].
  - apply (alloc_start _ p c); [done|done| |].
    + intros q Hq Hf. rewrite H1. by apply (alloc_one_spec H).
    + intros Hall. exists c, (env w). split; [done|]. split; [done|]. split; [unfold space_ok; by rewrite H1|]. split; [done|right].
      split; [done|]. split; [|done]. unfold exhausted, slots, taken. rewrite H1. done.
Qed.

(** ** Freeing *)

Definition free_post (c : cspace_t) (k : Z) (c' : cspace_t) : Prop :=
  space_ok c' /\ same_space c c' /\ watermark c' = watermark c /\ forall x, taken c' x <-> x ≠ k /\ taken c x.

(** Clearing the mark of a cnode that is not there does nothing. *)
Lemma clear_unmarked (c : cspace_t) q top :
  top_ok c -> 0 ≤ q < top_slots c -> bf_clr_bit (top_bf c) q = Some top -> ~ has (top_bf c) q ->
  length top = length (top_bf c) /\ bf_ok top /\ forall x, has top x <-> has (top_bf c) x.
Proof.
  intros [Hb Hl Hto] Hq Htop Hclr.
  destruct (bf_clr_bit_spec (top_bf c) q Hto) as (top' & Htop' & Htok & Htl & Hth); [lia|].
  assert (top' = top) as -> by congruence. split_and!; [done|done|]. intros x. rewrite Hth. split; [tauto|].
  intros Hx. split; [|done]. by intros ->.
Qed.

Lemma free_uncreated C c q j top :
  two_ok C c -> C ≤ q < top_slots c -> 0 ≤ j < 128 -> bf_clr_bit (top_bf c) q = Some top ->
  free_post c (slot q j) (set_top_bf top c).
Proof.
  intros Hok Hq Hj Htop. pose proof Hok as [H1 H2 H3 H4 H5 H6 H7 Hfull Hfresh H10 H11].
  assert (Hun : forall i, 0 ≤ i < 128 -> ~ taken c (slot q i)).
  { intros i Hi Ht%Hfresh. rewrite slot_div in Ht; lia. }
  destruct (clear_unmarked c q top H2) as (Htl & Htok & Hth); [lia|done| |].
  { rewrite Hfull by lia. intros Hall. apply (Hun 0); [lia|]. apply Hall. lia. }
  assert (Htk : forall x, taken (set_top_bf top c) x <-> taken c x).
  { intros x. unfold taken. simpl. by rewrite H1. }
  split; [|split; [by split|split; [done|]]].
  - apply (space_two C). destruct H2 as [T1 T2 T3]. split; try done.
    + split; [done| |done]. unfold bf_size in *. simpl. by rewrite Htl.
    + intros x Hx. cbn [top_bf set_top_bf]. rewrite Hth, Hfull by done.
      apply forall_proper. intros i. by rewrite Htk.
    + intros k Hk. by apply Hfresh, Htk.
  - intros x. rewrite Htk. split; [|tauto]. intros Hx. split; [|done]. intros ->. by apply (Hun j).
Qed.

Lemma free_created C c q j n b top bits u :
  two_ok C c -> 0 ≤ q < C -> 0 ≤ j < 128 -> bf_clr_bit (top_bf c) q = Some top ->
  bot_lvl_nodes c !! Z.to_nat (q / 169) = Some (Some n) -> cnodes n !! Z.to_nat (q mod 169) = Some b ->
  length (bf b) = 2%nat -> bf_ok (bf b) -> bf_clr_bit (bf b) j = Some bits ->
  free_post c (slot q j) (update c q n (BotLvl bits u) top).
Proof.
  intros Hok Hq Hj Htop Hn Hb Hlb Hbok Hbits. pose proof Hok as [H1 [T1 T2 T3] H3 _ _ _ _ _ _ _ _].
  destruct (bf_clr_bit_spec (top_bf c) q T3) as (top' & Htop' & Htok & Htl & Hth); [lia|].
  assert (top' = top) as -> by congruence.
  destruct (bf_clr_bit_spec (bf b) j Hbok) as (bits' & Hb' & Hbok' & Hbl & Hbh); [unfold bf_size; rewrite Hlb; lia|].
  assert (bits' = bits) as -> by congruence.
  assert (Hat : cnode_at c q = Some b) by (unfold cnode_at; by rewrite Hn).
  destruct (two_update C c q n b (BotLvl bits u) top) as (Hok' & Hsame & Htk); try done.
  { cbn [bf]. congruence. }
  { intros x Hx. rewrite Hth. tauto. }
  { rewrite Hth. cbn [bf]. split; [tauto|]. intros Hall. specialize (Hall j Hj). apply Hbh in Hall. tauto. }
  split; [by eapply space_two|]. split; [done|]. split; [done|].
  apply taken_slots; [exact H1|intros k [_ ?%taken_nonneg]; done|].
  intros x i Hx Hi. rewrite Htk by done. case_decide as Hxq.
  - subst x. cbn [bf]. rewrite Hbh, (two_taken c q i b) by (try done; lia). unfold slot. split; intros [? ?]; split; auto; lia.
  - split; [|tauto]. intros Hc. split; [|done]. intros Hs%slot_inj; [tauto|done|done].
Qed.

Lemma free_two_spec C p k c w :
  spaces w !! p = Some c -> two_ok C c -> 0 < k < slots c ->
  wpf F (cspace_free_slot p k) (fun _ w' => exists c', w' = put_space w p c' (env w) /\ free_post c k c') w.
Proof.
  intros Hc Hok Hk. pose proof Hok as [H1 [T1 T2 T3] H3 H4 H5 H6 H7 _ _ _ _].
  unfold slots in Hk. rewrite H1 in Hk. set (q := k / 128). set (j := k mod 128).
  assert (Hj : 0 ≤ j < 128) by (apply Z.mod_pos_bound; lia).
  assert (Hq : 0 ≤ q < top_slots c) by (split; [apply Z.div_pos|apply Z.div_lt_upper_bound]; lia).
  assert (Hkq : k = slot q j) by (symmetry; apply slot_eta).
  unfold cspace_free_slot. rewrite bool_decide_eq_false_2 by (unfold seL4_CapNull; lia). wp_line.
  eapply wpf_cs; [done|]. rewrite H1. cbn [negb]. change (CNODE_SLOTS (top_lvl_size_bits c)) with (top_slots c).
  rewrite CNODE_SLOTS_12, bool_decide_eq_false_2 by lia. rewrite TOP_LVL_INDEX_div. fold q. wp_line.
  destruct (bf_clr_bit_spec (top_bf c) q T3) as (top & Htop & Htok & Htl & Hth); [lia|].
  eapply wpf_access; [exact Htop|]. wp_line. eapply wpf_upd; [done|].
  rewrite NODE_INDEX_div, CNODE_INDEX_mod. fold q.
  pose proof (Z.div_mod q 169 ltac:(lia)). pose proof (Z.mod_pos_bound q 169 ltac:(lia)).
  case_bool_decide as Hnode; wp_line.
  2:{ eexists. split; [done|]. rewrite Hkq. apply (free_uncreated C); try done. lia. }
  destruct (two_cnode C c q Hok) as (n & b & Hn & Hno & Hb & Hat & Hlb & Hbok); [lia|].
  eapply wpf_node_at; [done|]. case_bool_decide as Hcn; wp_line.
  - rewrite (no_n _ _ Hno) in Hcn. eapply wpf_access; [done|]. wp_line. rewrite BOT_LVL_INDEX_mod. fold j.
    destruct (bf_clr_bit_spec (bf b) j Hbok) as (bits & Hbits & Hbok' & Hbl & Hbh); [unfold bf_size; rewrite Hlb; lia|].
    eapply wpf_access; [exact Hbits|].
    eapply (wpf_upd_cnode p q _ (set_top_bf top c)); [apply lookup_insert_eq|done|done|].
    exists (update c q n (BotLvl bits (bl_untyped b)) top).
    split; [unfold put_space; cbn; by rewrite insert_insert_eq|]. rewrite Hkq. eapply (free_created C); try done. lia.
  - rewrite (no_n _ _ Hno) in Hcn. eexists. split; [done|]. rewrite Hkq. apply (free_uncreated C); try done. lia.
Qed.

Lemma free_slot_spec p k c w :
  spaces w !! p = Some c -> space_ok c -> 0 < k < slots c ->
  wpf F (cspace_free_slot p k) (fun _ w' => exists c', w' = put_space w p c' (env w) /\ free_post c k c') w.
Proof.
  intros Hc Hok Hk. unfold space_ok in Hok. destruct (two_level c) eqn:H1; [destruct Hok as [C Hok]; by eapply free_two_spec|].
  destruct Hok as [T1 T2 T3]. unfold slots in Hk. rewrite H1 in Hk.
  unfold cspace_free_slot. rewrite bool_decide_eq_false_2 by (unfold seL4_CapNull; lia). wp_line.
  eapply wpf_cs; [done|]. rewrite H1. cbn [negb]. change (CNODE_SLOTS (top_lvl_size_bits c)) with (top_slots c).
  rewrite bool_decide_eq_false_2 by lia. wp_line.
  destruct (bf_clr_bit_spec (top_bf c) k T3) as (top & Htop & Htok & Htl & Hth); [lia|].
  eapply wpf_access; [exact Htop|]. eapply wpf_upd; [done|]. eexists. split; [done|].
  split; [|split; [by split|split; [done|]]].
  - unfold space_ok. simpl. rewrite H1. split; [done| |done]. unfold bf_size in *. simpl. by rewrite Htl.
  - intros x. unfold taken. simpl. by rewrite H1, Hth.
Qed.

(** ** A client of the space *)

(** The specification: the set of slots the client holds. *)
Inductive client_step (p : Z) : world E * gset Z -> world E * gset Z -> Prop :=
| client_alloc w r w' H :
    cspace_alloc_slot p w = Ok (r, w') -> r ≠ seL4_CapNull -> client_step p (w, H) (w', {[r]} ∪ H)
| client_alloc_fails w w' H :
    cspace_alloc_slot p w = Ok (seL4_CapNull, w') -> client_step p (w, H) (w', H)
| client_free w k w' H :
    k ∈ H -> cspace_free_slot p k w = Ok (tt, w') -> client_step p (w, H) (w', H ∖ {[k]}).

(** What links the space to the specification. *)
Definition holds (p : Z) (w : world E) (H : gset Z) : Prop :=
  I ∅ (env w) /\ exists c, spaces w !! p = Some c /\ space_ok c /\ taken c 0 /\
    forall k, k ∈ H -> 0 < k < slots c /\ taken c k.

Lemma wpf_result {A} (m : M (world E) A) Q w a w' : wpf F m Q w -> m w = Ok (a, w') -> Q a w'.
Proof. unfold wpf. intros H Em. by rewrite Em in H. Qed.

Lemma same_slots c c' : same_space c c' -> slots c' = slots c.
Proof. intros [_ H1 H2 _ _ _]. unfold slots, top_slots. by rewrite H1, H2. Qed.

Lemma alloc_holds p w H r w' :
  holds p w H -> cspace_alloc_slot p w = Ok (r, w') ->
  if bool_decide (r = seL4_CapNull) then holds p w' H else ((r ∉ H) /\ holds p w' ({[r]} ∪ H)).
Proof.
  intros (HI & c & Hc & Hok & H0 & HH) E1.
  destruct (wpf_result _ _ _ _ _ (alloc_slot_spec ∅ p c w Hc HI Hok) E1) as (c' & e & -> & He & Hok' & Hs & Hcase).
  assert (Hsl := same_slots c c' Hs).
  assert (Hkeep : (forall k, taken c k -> taken c' k) -> holds p (put_space w p c' e) H).
  { intros Hm. split; [done|]. exists c'. split; [apply lookup_insert_eq|]. split; [done|]. split; [by apply Hm|].
    intros k Hk. rewrite Hsl. destruct (HH k Hk). split; [done|by apply Hm]. }
  destruct Hcase as [Ha|(-> & _ & Htk)].
  - pose proof Ha as [A1 A2 _]. pose proof (al_here _ _ _ Ha) as A3. pose proof (al_mono _ _ _ Ha) as A4.
    assert (r ≠ seL4_CapNull) as Hr by (by intros ->). rewrite bool_decide_eq_false_2 by done. split.
    + intros Hin. destruct (HH r Hin). done.
    + destruct (Hkeep A4) as (_ & c1 & Hc1 & Hok1 & H01 & HH1). split; [done|]. exists c1. split_and!; try done.
      intros k [->%elem_of_singleton|Hk]%elem_of_union; [|by apply HH1].
      cbn [spaces put_space] in Hc1. rewrite lookup_insert_eq in Hc1. injection Hc1 as <-. rewrite Hsl.
      split; [unfold seL4_CapNull in Hr; lia|done].
  - rewrite bool_decide_eq_true_2 by done. apply Hkeep. intros k. by rewrite Htk.
Qed.

Lemma free_holds p w H k w' :
  holds p w H -> k ∈ H -> cspace_free_slot p k w = Ok (tt, w') -> holds p w' (H ∖ {[k]}).
Proof.
  intros (HI & c & Hc & Hok & H0 & HH) Hk E1. destruct (HH k Hk) as [Hkr _].
  destruct (wpf_result _ _ _ _ _ (free_slot_spec p k c w Hc Hok Hkr) E1) as (c' & -> & Hok' & Hs & _ & Htk).
  split; [done|]. exists c'. split; [apply lookup_insert_eq|]. split; [done|]. split; [apply Htk; split; [lia|done]|].
  intros x [Hx Hne]%elem_of_difference. rewrite (same_slots c c' Hs). destruct (HH x Hx). split; [done|].
  apply Htk. split; [set_solver|done].
Qed.

Lemma client_holds p s s' : rtc (client_step p) s s' -> holds p (fst s) (snd s) -> holds p (fst s') (snd s').
Proof.
  induction 1 as [|s1 s2 s3 Hst _ IH]; [done|]. intros Hh. apply IH. destruct Hst; simpl in *.
  - pose proof (alloc_holds p w H r w' Hh H0) as Ha. rewrite bool_decide_eq_false_2 in Ha by done. apply Ha.
  - by pose proof (alloc_holds p w H _ w' Hh H0).
  - by eapply free_holds.
Qed.

(** ** The properties of slot allocation *)

(** C11: [cspace_alloc_slot] on a well-formed space stops with no fault but one of the
    callbacks', keeps the space well formed, and returns a slot that was free and is now taken,
    everything else that became taken being in the watermark; it fails only when every
    existing cnode is full, and then takes nothing. *)
Theorem cspace_alloc_slot_correct (H : gset Z) (p : Z) (c : cspace_t) (w : world E) :
  spaces w !! p = Some c -> I H (env w) -> space_ok c ->
  wpf F (cspace_alloc_slot p) (fun r w' => exists c' e, w' = put_space w p c' e /\ I H e /\
    space_ok c' /\ same_space c c' /\
    (allocated c r c' \/ r = seL4_CapNull /\ exhausted c /\ forall k, taken c' k <-> taken c k)) w.
Proof. apply alloc_slot_spec. Qed.

(** [cspace_free_slot] of a slot of a well-formed space makes exactly that slot free and
    keeps the space well formed, whether or not the slot was taken. *)
Theorem cspace_free_slot_correct (p k : Z) (c : cspace_t) (w : world E) :
  spaces w !! p = Some c -> space_ok c -> 0 < k < slots c ->
  wpf F (cspace_free_slot p k) (fun _ w' => exists c', w' = put_space w p c' (env w) /\
    space_ok c' /\ same_space c c' /\ watermark c' = watermark c /\ forall x, taken c' x <-> x ≠ k /\ taken c x) w.
Proof. apply free_slot_spec. Qed.

(** C12: the space implements a set of slots: in every run of a client that frees only what
    it holds, an allocation never returns a slot the client holds, and the invariant that
    links the space to the client's set holds throughout. *)
Theorem cspace_refines_slot_set (p : Z) (w : world E) (w' : world E) (H : gset Z) :
  holds p w ∅ -> rtc (client_step p) (w, ∅) (w', H) ->
  holds p w' H /\ forall r w'', cspace_alloc_slot p w' = Ok (r, w'') -> r ∉ H.
Proof.
  intros Hh Hr. pose proof (client_holds p _ _ Hr Hh) as Hh'. simpl in Hh'. split; [done|].
  intros r w'' E1. pose proof (alloc_holds p w' H r w'' Hh' E1) as Ha. case_bool_decide as Hr0; [|apply Ha].
  subst r. destruct Hh' as (_ & c & _ & _ & _ & HH). intros Hin. destruct (HH _ Hin). unfold seL4_CapNull in *. lia.
Qed.

(** the bounds check of [cspace_free_slot] admits one cptr too many: freeing the first
    cptr past a well-formed space accesses the top-level bit field outside its words. *)
Theorem cspace_free_slot_past_end (p : Z) (c : cspace_t) (w : world E) :
  spaces w !! p = Some c -> space_ok c -> cspace_free_slot p (slots c) w = Fault OutOfBounds.
Proof.
  intros Hc Hok. unfold cspace_free_slot, slots, space_ok in *.
  assert (Htop : top_ok c) by (destruct (two_level c); [destruct Hok as [C Hok]; apply Hok|done]).
  destruct Htop as [T1 T2 T3].
  assert (0 < top_slots c) by (unfold top_slots, CNODE_SLOTS; apply BIT_pos; unfold CNODE_SLOT_BITS, seL4_SlotBits; lia).
  assert (Hno : bf_clr_bit (top_bf c) (top_slots c) = None).
  { unfold bf_clr_bit, WORD_INDEX, WORD_BITS. by rewrite word_at_None by lia. }
  rewrite bool_decide_eq_false_2 by (unfold seL4_CapNull; destruct (two_level c); lia).
  unfold cs, get, mbind, M_bind, deref, mret, M_ret. rewrite Hc.
  change (CNODE_SLOTS (top_lvl_size_bits c)) with (top_slots c).
  destruct (two_level c); cbn [negb]; rewrite ?CNODE_SLOTS_12, bool_decide_eq_false_2 by lia.
  - rewrite TOP_LVL_INDEX_div, Z.div_mul, Hno by lia. done.
  - by rewrite Hno.
Qed.
End safety.
