(* ===== verification/CspaceDemo.v ===== *)
(** * Capability spaces, evaluated

    A concrete environment for [Cspace]: a list of free untypeds, a script for
    the kernel's error codes and one for the mapping callback.  Instantiates
    the theorems of [CspaceSafety] and runs the model on the paths that do not
    do what they mean to. *)

From S2P Require Import Prelude Arith Bitfield Kernel Cspace CspaceSafety.

Record demo := Demo { kern : script; uts : list (Z * Z); maps : list bool; heap : list bool }.
Definition set_kern (k : script) (d : demo) : demo := Demo k (uts d) (maps d) (heap d).

#[export] Instance demo_kernel : Kernel demo := {
  invoke c d := let '(e, k) := invoke c (kern d) in (e, set_kern k d);
  seL4_MappingFailedLookupLevel d := level (kern d);
  seL4_CNode_CapData_new guard bits := Z.lor (Z.shiftl guard 6) bits;
}.
(** Mapping uses the first of the slots. *)
#[export] Instance demo_env : CspaceEnv demo := {
  cb_alloc_4k_ut _ := d ← get;
    match uts d with
    | [] => mret None
    | u :: r => put (Demo (kern d) r (maps d) (heap d));; mret (Some u)
    end;
  cb_free_4k_ut _ u := modify (fun d => Demo (kern d) ((u, u) :: uts d) (maps d) (heap d));
  cb_map_frame _ _ _ used := d ← get;
    match maps d with
    | [] => mret (true, Z.lor used 1)
    | b :: r => put (Demo (kern d) (uts d) r (heap d));; mret (b, Z.lor used 1)
    end;
  calloc := d ← get;
    match heap d with
    | [] => mret true
    | b :: r => put (Demo (kern d) (uts d) (maps d) r);; mret b
    end;
}.
(** The free untypeds are distinct, and none of them is out. *)
Definition demo_inv (H : gset Z) (d : demo) : Prop :=
  NoDup (fst <$> uts d) /\ forall u, u ∈ (fst <$> uts d) -> u ∉ H.
#[export] Instance demo_laws F : CspaceLaws F demo demo_inv.
Proof.
  split; intros; cbv [cb_alloc_4k_ut cb_free_4k_ut cb_map_frame calloc demo_env].
  - destruct H0 as [Hnd Hu]. wp_line. destruct (uts e) as [|[x k] r] eqn:Er; wp_line; [by split; rewrite Er|].
    apply NoDup_cons in Hnd as [Hx Hnd]. split; [apply Hu; by left|]. split; [done|]. cbn [uts].
    intros y Hy. rewrite not_elem_of_union, not_elem_of_singleton. split; [by intros ->|]. apply Hu. by right.
  - wp_line. destruct H1 as [Hnd Hu]. split; cbn [uts].
    + apply NoDup_cons. split; [|done]. intros Hin. apply (Hu u Hin). set_solver.
    + intros y [->|Hy]%elem_of_cons; [done|]. specialize (Hu y Hy). set_solver.
  - wp_line. by destruct (maps e); wp_line.
  - wp_line. by destruct (heap e); wp_line.
  - destruct e as [[lg [|cd r] lv] u mp hp]; done.
  - destruct H0 as [Hnd Hu]. split; [done|]. intros y Hy. specialize (Hu y Hy). set_solver.
Qed.

Definition env0 (n : nat) : demo := Demo (Script [] [] 0) ((fun i => (i, i)) <$> seqZ 1000 (Z.of_nat n)) [] [].

(** A one-level space with slots 0 to 2 taken, and a fresh two-level one. *)
Definition one : cspace_t := Cspace 2 false 12 [7; 0] [] 0 0 0 (Some 1) (replicate 4 0).
Definition two0 : cspace_t :=
  Cspace 2 true 12 [0; 0] [Some (BotNode 0 900 901 (cnodes zero_node))] 1 0 0 (Some 1) (replicate 4 0).
Definition world1 (c : cspace_t) (n : nat) : world demo := World {[1 := c]} (env0 n).

Lemma env0_inv n : demo_inv ∅ (env0 n).
Proof.
  split; [|set_solver]. cbn [uts env0]. rewrite <- list_fmap_compose. apply NoDup_fmap_2; [by intros ???|apply NoDup_seqZ].
Qed.

Lemma one_ok : space_ok one.
Proof. unfold space_ok. simpl. split; [done|done|]. repeat constructor; vm_compute; done. Qed.

Lemma zero_words (k : Z) : ~ has [0; 0] k.
Proof.
  intros (x & Hx & Ht). unfold word_at in Hx. case_bool_decide; [|done].
  destruct (Z.to_nat (k / 64)) as [|[|]]; simpl in Hx; simplify_eq; by rewrite Z.bits_0 in Ht.
Qed.
Lemma two0_taken k : ~ taken two0 k.
Proof.
  rewrite taken_bits by done. intros (_ & o & Ho & H). destruct (Z.to_nat (k / 128 / 169)) as [|i].
  - cbn [bot_lvl_nodes two0 lookup list_lookup] in Ho. injection Ho as <-. by eapply (zero_bits (k / 128 mod 169)).
  - by destruct i.
Qed.
Lemma two0_ok : two_ok 0 two0.
Proof.
  split; [done| | |done|done|done| | | |done|by eexists].
  - split; [vm_compute; done|vm_compute; done|]. repeat constructor; vm_compute; done.
  - by vm_compute.
  - intros i Hi. cbn [n_bot_lvl_nodes two0] in Hi. assert (i = 0) as -> by lia. eexists. split; [reflexivity|].
    apply node_ok_zero.
  - intros q Hq. split; [by intros ?%zero_words|]. intros H. destruct (two0_taken (slot q 0)). apply H. lia.
  - intros k Hk. by destruct (two0_taken k).
Qed.
Lemma two0_space : space_ok two0.
Proof. exact (space_two 0 two0 two0_ok). Qed.

(** ** Witnesses *)

Lemma cspace_alloc_slot_correct_witness :
  exists w', cspace_alloc_slot 1 (world1 two0 8) = Ok (0, w') /\
    exists c' e, w' = put_space (world1 two0 8) 1 c' e /\ space_ok c'.
Proof.
  destruct (wpf_value _ _ _ _ 0 (cspace_alloc_slot_correct (fun _ => False) demo_inv ∅ 1 two0 (world1 two0 8) eq_refl (env0_inv 8) two0_space))
    as (w' & Hw & c' & e & Hc & _ & Hok & _); [by vm_compute|].
  exists w'. split; [exact Hw|]. exists c', e. split; [exact Hc|exact Hok].
Defined.

Lemma cspace_free_slot_correct_witness :
  exists w', cspace_free_slot 1 2 (world1 one 0) = Ok (tt, w') /\
    exists c', w' = put_space (world1 one 0) 1 c' (env0 0) /\ ~ taken c' 2.
Proof.
  destruct (wpf_value _ _ _ _ tt (cspace_free_slot_correct (fun _ => False) 1 2 one (world1 one 0) eq_refl one_ok ltac:(by vm_compute)))
    as (w' & Hw & c' & Hc & _ & _ & _ & Ht); [by vm_compute|].
  exists w'. split; [exact Hw|]. exists c'. split; [exact Hc|]. rewrite Ht. tauto.
Defined.

(** A client allocates the slots 3, 4 and 5 and gives 4 back; the next slot it gets is 4, and 3
    and 5 are still its own. *)
Definition then_ {A} (m : M (world demo) A) (w : world demo) : world demo := match m w with Ok (_, w') => w' | Fault _ => w end.
Definition client0 : world demo := world1 one 0.
Definition client1 : world demo := then_ (cspace_alloc_slot 1) client0.
Definition client2 : world demo := then_ (cspace_alloc_slot 1) client1.
Definition client3 : world demo := then_ (cspace_alloc_slot 1) client2.
Definition client4 : world demo := then_ (cspace_free_slot 1 4) client3.
Definition kept : gset Z := ({[5]} ∪ ({[4]} ∪ ({[3]} ∪ ∅))) ∖ {[4]}.
Lemma client_run : rtc (client_step 1) (client0, ∅) (client4, kept).
Proof.
  eapply rtc_l; [apply (client_alloc 1 client0 3 client1); [vm_compute; reflexivity|done]|].
  eapply rtc_l; [apply (client_alloc 1 client1 4 client2); [vm_compute; reflexivity|done]|].
  eapply rtc_l; [apply (client_alloc 1 client2 5 client3); [vm_compute; reflexivity|done]|].
  eapply rtc_l; [apply (client_free 1 client3 4 client4); [set_solver|vm_compute; reflexivity]|]. done.
Qed.
Lemma cspace_refines_slot_set_witness :
  holds demo_inv 1 client4 kept /\ (3 ∈ kept /\ 5 ∈ kept) /\
  exists w, cspace_alloc_slot 1 client4 = Ok (4, w) /\ 4 ∉ kept.
Proof.
  destruct (cspace_refines_slot_set (fun _ => False) demo_inv 1 client0 client4 kept) as [Hh Hn].
  - split; [exact (env0_inv 0)|]. exists one. split; [done|]. split; [exact one_ok|]. split; [|done].
    apply (bool_decide_unpack (has [7; 0] 0)). by vm_compute.
  - exact client_run.
  - split; [exact Hh|]. split; [unfold kept; set_solver|]. exists (then_ (cspace_alloc_slot 1) client4).
    assert (E : cspace_alloc_slot 1 client4 = Ok (4, then_ (cspace_alloc_slot 1) client4)) by (vm_compute; reflexivity).
    split; [exact E|exact (Hn _ _ E)].
Defined.

Lemma cspace_free_slot_past_end_witness : cspace_free_slot 1 128 (world1 one 0) = Fault OutOfBounds.
Proof. exact (cspace_free_slot_past_end 1 one (world1 one 0) eq_refl one_ok). Defined.

(** ** Runs *)

(** A two-level space is created, with slot 0, the four watermark slots and the
    slot of its bookkeeping frame taken, and can be destroyed again: all three
    untypeds come back and the slot of its root is free.  Slot 5 of the first
    space went to its watermark, for the mapping of the frame. *)
Definition created : outcome (Z * world demo) := cspace_create_two_level 1 2 5 (world1 one 8).
Definition watermark_of (o : outcome (Z * world demo)) : option (list Z) :=
  match o with Ok (_, w) => watermark <$> spaces w !! 2 | Fault _ => None end.
Lemma create_two_level_run : value_of created = Some 0 /\ watermark_of created = Some [1; 2; 3; 4].
Proof. by vm_compute. Qed.
Definition destroyed : outcome (unit * world demo) :=
  match created with Ok (_, w) => cspace_destroy 2 w | Fault f => Fault f end.
Lemma destroy_run :
  match destroyed with
  | Ok (_, w) => length (uts (env w)) = 8%nat /\ (top_bf <$> spaces w !! 1) = Some [39; 0]
  | Fault _ => False
  end.
Proof. by vm_compute. Qed.

(** [cspace_create] tests the root of the wrong space: with one slot left, the
    slot for the new root cannot be had, and the call still succeeds, with a
    root cap minted into slot 0. *)
Definition nearly_full : cspace_t := Cspace 2 false 12 [ULONG_MAX; ULONG_MAX - 1] [] 0 0 0 (Some 1) (replicate 4 0).
Lemma create_ignores_full_space :
  match cspace_create_one_level 1 2 (world1 nearly_full 8) with
  | Ok (rc, w) => rc = CSPACE_NOERROR /\ (root_cnode <$> spaces w !! 2) = Some seL4_CapNull
  | Fault _ => False
  end.
Proof. by vm_compute. Qed.

(** Without an untyped for the first second-level cnode, [cspace_create] stops
    at an assertion: the failed allocation is taken for slot 0. *)
Lemma create_asserts_without_untyped : cspace_create_two_level 1 2 5 (world1 one 2) = Fault AssertFail.
Proof. by vm_compute. Qed.

(** A growth that fails after it mapped its bookkeeping frame loses the
    watermark: the slots it used are not refilled, and the next growth, which
    finds the frame, does not refill them either. *)
Definition ungrown : cspace_t := Cspace 2 true 12 [0; 0] [None] 0 0 0 (Some 1) [11; 12; 13; 14].
Definition give (n : nat) (w : world demo) : world demo := World (spaces w) (env0 n).
Lemma failed_growth_loses_watermark :
  match cspace_alloc_slot 1 (world1 ungrown 1) with
  | Ok (r, w) =>
    r = seL4_CapNull /\
    match cspace_alloc_slot 1 (give 8 w) with
    | Ok (r', w') => (n_bot_lvl_nodes <$> spaces w' !! 1) = Some 1 /\ (watermark <$> spaces w' !! 1) = Some [11; 12; 13; 14]
    | Fault _ => False
    end
  | Fault _ => False
  end.
Proof. by vm_compute. Qed.
(** The growth that succeeds at once refills the two slots it used. *)
Lemma growth_refills_watermark :
  match cspace_alloc_slot 1 (world1 ungrown 8) with
  | Ok (r, w) => r = 0 /\ (watermark <$> spaces w !! 1) = Some [1; 12; 13; 2]
  | Fault _ => False
  end.
Proof. by vm_compute. Qed.
