(* ===== verification/TimerDevice.v ===== *)
(** * The timer device

    Models [libclock/src/device.c]: the multiplexer register and the four
    timeout registers, and the free-running 64-bit counter that is read in two
    halves.  The counter moves on between two reads: [gaps] holds the ticks that
    pass before each of the coming reads. *)

From S2P Require Import Prelude Arith.

Inductive timeout_id_t := MESON_TIMER_A | MESON_TIMER_B | MESON_TIMER_C | MESON_TIMER_D.
#[export] Instance timeout_id_eq_dec : EqDecision timeout_id_t.
Proof. solve_decision. Defined.

Inductive timestamp_timebase_t :=
| TIMESTAMP_TIMEBASE_SYSTEM | TIMESTAMP_TIMEBASE_1_US | TIMESTAMP_TIMEBASE_10_US
| TIMESTAMP_TIMEBASE_100_US | TIMESTAMP_TIMEBASE_1_MS.
Definition timestamp_bits (b : timestamp_timebase_t) : Z :=
  match b with
  | TIMESTAMP_TIMEBASE_SYSTEM => 0 | TIMESTAMP_TIMEBASE_1_US => 1 | TIMESTAMP_TIMEBASE_10_US => 2
  | TIMESTAMP_TIMEBASE_100_US => 3 | TIMESTAMP_TIMEBASE_1_MS => 4
  end.
Inductive timeout_timebase_t :=
| TIMEOUT_TIMEBASE_1_US | TIMEOUT_TIMEBASE_10_US | TIMEOUT_TIMEBASE_100_US | TIMEOUT_TIMEBASE_1_MS.
Definition timeout_bits (b : timeout_timebase_t) : Z :=
  match b with
  | TIMEOUT_TIMEBASE_1_US => 0 | TIMEOUT_TIMEBASE_10_US => 1
  | TIMEOUT_TIMEBASE_100_US => 2 | TIMEOUT_TIMEBASE_1_MS => 3
  end.

Record timeout_info_t := Info { irq : Z; input_clk : Z; enable : Z; mode : Z }.
Definition timeouts (t : timeout_id_t) : timeout_info_t :=
  match t with
  | MESON_TIMER_A => Info 42 0 (BIT 16) (BIT 12)
  | MESON_TIMER_B => Info 43 2 (BIT 17) (BIT 13)
  | MESON_TIMER_C => Info 38 4 (BIT 18) (BIT 14)
  | MESON_TIMER_D => Info 61 6 (BIT 19) (BIT 15)
  end.
Definition TIMER_E_INPUT_CLK : Z := 8.
Definition TIMESTAMP_TIMEBASE_MASK : Z := 7.
Definition TIMEOUT_TIMEBASE_MASK : Z := 3.

Record meson_timer_reg_t := Regs {
  mux : Z; timer_a : Z; timer_b : Z; timer_c : Z; timer_d : Z;
  counter : Z; gaps : list Z;
}.
Definition set_mux (v : Z) (r : meson_timer_reg_t) : meson_timer_reg_t :=
  Regs v (timer_a r) (timer_b r) (timer_c r) (timer_d r) (counter r) (gaps r).
Definition timer_reg (t : timeout_id_t) (r : meson_timer_reg_t) : Z :=
  match t with
  | MESON_TIMER_A => timer_a r | MESON_TIMER_B => timer_b r
  | MESON_TIMER_C => timer_c r | MESON_TIMER_D => timer_d r
  end.

(** A read of the counter, after the ticks that passed. *)
Definition tick : M meson_timer_reg_t Z :=
  r ← get;
  let now := w64 (counter r + hd 0 (gaps r)) in
  put (Regs (mux r) (timer_a r) (timer_b r) (timer_c r) (timer_d r) now (tl (gaps r)));;
  mret now.
Definition read_timer_e : M meson_timer_reg_t Z := now ← tick; mret (w32 now).
Definition read_timer_e_hi : M meson_timer_reg_t Z := now ← tick; mret (Z.shiftr now 32).
(** Writing any value resets the counter. *)
Definition reset_timer_e : M meson_timer_reg_t unit :=
  modify (fun r => Regs (mux r) (timer_a r) (timer_b r) (timer_c r) (timer_d r) 0 (gaps r)).

Definition not32 (x : Z) : Z := 2 ^ 32 - 1 - x.

Definition configure_timestamp (timebase : timestamp_timebase_t) : M meson_timer_reg_t unit :=
  m ← gets mux;
  let m := Z.land m (not32 (Z.shiftl TIMESTAMP_TIMEBASE_MASK TIMER_E_INPUT_CLK)) in
  let m := Z.lor m (Z.shiftl (timestamp_bits timebase) TIMER_E_INPUT_CLK) in
  modify (set_mux m).

Definition read_timestamp : M meson_timer_reg_t Z :=
  lo ← read_timer_e;
  hi ← read_timer_e_hi;
  new_lo ← read_timer_e;
  '(lo, hi) ← (if bool_decide (new_lo < lo) then hi ← read_timer_e_hi; mret (new_lo, hi) else mret (lo, hi));
  let time := w64 (Z.shiftl hi 32) in
  mret (Z.lor time (Z.land lo (2 ^ 32 - 1))).

Definition write_timeout (t : timeout_id_t) (value : Z) : M meson_timer_reg_t unit :=
  modify (fun r =>
    match t with
    | MESON_TIMER_A => Regs (mux r) value (timer_b r) (timer_c r) (timer_d r) (counter r) (gaps r)
    | MESON_TIMER_B => Regs (mux r) (timer_a r) value (timer_c r) (timer_d r) (counter r) (gaps r)
    | MESON_TIMER_C => Regs (mux r) (timer_a r) (timer_b r) value (timer_d r) (counter r) (gaps r)
    | MESON_TIMER_D => Regs (mux r) (timer_a r) (timer_b r) (timer_c r) value (counter r) (gaps r)
    end).

Definition read_timeout (t : timeout_id_t) : M meson_timer_reg_t Z :=
  r ← get; mret (w16 (Z.shiftr (timer_reg t r) 16)).

Definition configure_timeout (t : timeout_id_t) (on periodic : bool) (timebase : timeout_timebase_t) (timeout : Z)
    : M meson_timer_reg_t unit :=
  let info := timeouts t in
  m ← gets mux;
  modify (set_mux (Z.land m (not32 (enable info))));;
  if negb on then mret tt
  else
    write_timeout t timeout;;
    m ← gets mux;
    let m := Z.lor m (enable info) in
    let m := if periodic then Z.lor m (mode info) else Z.land m (not32 (mode info)) in
    let m := Z.land m (not32 (Z.shiftl TIMEOUT_TIMEBASE_MASK (input_clk info))) in
    let m := Z.lor m (Z.shiftl (timeout_bits timebase) (input_clk info)) in
    modify (set_mux m).

Definition meson_timeout_irq (t : timeout_id_t) : Z := irq (timeouts t).

(** ** The counter *)

(** The reads happen at the times [t0] to [t3]. *)
Lemma tick_spec F r (Q : Z -> meson_timer_reg_t -> Prop) :
  (let now := w64 (counter r + hd 0 (gaps r)) in
   Q now (Regs (mux r) (timer_a r) (timer_b r) (timer_c r) (timer_d r) now (tl (gaps r)))) ->
  wpf F tick Q r.
Proof. intros H. unfold tick. by wp_line. Qed.

Lemma halves t : 0 ≤ t < 2 ^ 64 -> Z.lor (w64 (Z.shiftl (Z.shiftr t 32) 32)) (Z.land (w32 t) (2 ^ 32 - 1)) = t.
Proof.
  intros Ht. assert (Hhi : 0 ≤ t / 2 ^ 32 < 2 ^ 32) by (split; [apply Z.div_pos|apply Z.div_lt_upper_bound]; lia).
  rewrite Z.shiftl_mul_pow2, Z.shiftr_div_pow2 by lia. rewrite w64_small by lia.
  unfold w32. replace (2 ^ 32 - 1) with (Z.ones 32) by done. rewrite Z.land_ones, Z.mod_mod by lia.
  apply Z.bits_inj'. intros i Hi. rewrite Z.lor_spec.
  destruct (decide (i < 32)).
  - rewrite Z.mul_pow2_bits_low, Z.mod_pow2_bits_low by lia. done.
  - rewrite Z.mod_pow2_bits_high, orb_false_r, Z.mul_pow2_bits, Z.div_pow2_bits by lia. f_equal. lia.
Qed.

Lemma same_half t t' : 0 ≤ t -> t / 2 ^ 32 = t' / 2 ^ 32 -> Z.shiftr t' 32 = Z.shiftr t 32.
Proof. intros. rewrite !Z.shiftr_div_pow2 by lia. congruence. Qed.

(** [read_timestamp] returns a time that the counter had during the call, also when the
    low half wraps between the reads, as long as the call takes fewer than 2^32 ticks. *)
Theorem read_timestamp_in_call (r : meson_timer_reg_t) (d0 d1 d2 d3 : Z) (rest : list Z) :
  gaps r = d0 :: d1 :: d2 :: d3 :: rest -> 0 ≤ counter r -> 0 ≤ d0 -> 0 ≤ d1 -> 0 ≤ d2 -> 0 ≤ d3 ->
  d1 + d2 + d3 < 2 ^ 32 -> counter r + d0 + d1 + d2 + d3 < 2 ^ 64 ->
  wp read_timestamp (fun t r' => counter r + d0 ≤ t ≤ counter r + d0 + d1 + d2 /\ t ≤ counter r') r.
Proof.
  intros Hg Hc H0 H1 H2 H3 Hshort Hfit. unfold read_timestamp, read_timer_e, read_timer_e_hi. wp_line.
  apply tick_spec. rewrite Hg. cbn [hd tl]. rewrite w64_small by lia. wp_line.
  apply tick_spec. cbn [counter gaps hd tl]. rewrite w64_small by lia. wp_line.
  apply tick_spec. cbn [counter gaps hd tl]. rewrite w64_small by lia. wp_line.
  set (t0 := counter r + d0). set (t1 := t0 + d1). set (t2 := t1 + d2). set (t3 := t2 + d3).
  pose proof (Z.div_mod t0 (2 ^ 32) ltac:(lia)). pose proof (Z.mod_pos_bound t0 (2 ^ 32) ltac:(lia)).
  pose proof (Z.div_mod t1 (2 ^ 32) ltac:(lia)). pose proof (Z.mod_pos_bound t1 (2 ^ 32) ltac:(lia)).
  pose proof (Z.div_mod t2 (2 ^ 32) ltac:(lia)). pose proof (Z.mod_pos_bound t2 (2 ^ 32) ltac:(lia)).
  pose proof (Z.div_mod t3 (2 ^ 32) ltac:(lia)). pose proof (Z.mod_pos_bound t3 (2 ^ 32) ltac:(lia)).
  unfold w32 at 1 2. case_bool_decide as Hwrap; wp_line.
  - apply tick_spec. cbn [counter gaps hd tl]. rewrite w64_small by lia. wp_line. fold t0 t1 t2 t3.
    rewrite (same_half t2 t3), halves by (lia || idtac). cbn [counter]. lia.
  - rewrite (same_half t0 t1), halves by lia. cbn [counter]. lia.
Qed.
Lemma read_timestamp_in_call_witness :
  exists r', read_timestamp (Regs 0 0 0 0 0 (2 ^ 32 - 2) [1; 5; 1; 1]) = Ok (2 ^ 32 + 5, r').
Proof.
  destruct (wpf_value _ _ _ _ (2 ^ 32 + 5) (read_timestamp_in_call (Regs 0 0 0 0 0 (2 ^ 32 - 2) [1; 5; 1; 1]) 1 5 1 1 []
    eq_refl ltac:(done) ltac:(done) ltac:(done) ltac:(done) ltac:(done) ltac:(done) ltac:(done))) as (r' & Hr & _); [by vm_compute|].
  by exists r'.
Defined.

(** ** The multiplexer *)

Lemma testbit_w32 x i : 0 ≤ x < 2 ^ 32 -> 32 ≤ i -> Z.testbit x i = false.
Proof.
  intros Hx Hi. destruct (decide (x = 0)) as [->|]; [apply Z.bits_0|]. apply Z.bits_above_log2; [lia|].
  enough (Z.log2 x < 32) by lia. apply Z.log2_lt_pow2; lia.
Qed.
Lemma testbit_clear m x i : 0 ≤ m < 2 ^ 32 -> 0 ≤ x < 2 ^ 32 -> 0 ≤ i ->
  Z.testbit (Z.land m (not32 x)) i = Z.testbit m i && negb (Z.testbit x i).
Proof.
  intros Hm Hx Hi. rewrite Z.land_spec. destruct (decide (i < 32)); [|by rewrite testbit_w32 by lia]. f_equal.
  unfold not32. replace (2 ^ 32 - 1 - x) with (Z.lnot x + 1 * 2 ^ 32) by (unfold Z.lnot; lia).
  rewrite <- (Z.mod_pow2_bits_low _ 32 i), Z.mod_add, Z.mod_pow2_bits_low by lia. by apply Z.lnot_spec.
Qed.
Lemma testbit_bit k i : 0 ≤ k -> 0 ≤ i -> Z.testbit (BIT k) i = bool_decide (i = k).
Proof.
  intros. rewrite BIT_pow, Z.pow2_bits_eqb by done. case_bool_decide; [apply Z.eqb_eq|apply Z.eqb_neq]; lia.
Qed.
Lemma testbit_field v s i : 0 ≤ v < 4 -> 0 ≤ s -> 0 ≤ i ->
  Z.testbit (Z.shiftl v s) i = bool_decide (s ≤ i < s + 2) && Z.testbit v (i - s).
Proof.
  intros Hv Hs Hi. rewrite Z.shiftl_spec by done. case_bool_decide; [done|].
  destruct (decide (i < s)); [apply Z.testbit_neg_r; lia|]. destruct (decide (v = 0)) as [->|]; [apply Z.bits_0|].
  apply Z.bits_above_log2; [lia|]. enough (Z.log2 v < 2) by lia. apply Z.log2_lt_pow2; lia.
Qed.
Lemma land_w32 m x : 0 ≤ m < 2 ^ 32 -> 0 ≤ Z.land m x < 2 ^ 32.
Proof.
  intros Hm. assert (0 ≤ Z.land m x) by (apply Z.land_nonneg; lia). split; [done|].
  destruct (decide (Z.land m x = 0)) as [->|]; [done|]. apply Z.log2_lt_pow2; [lia|].
  destruct (decide (m = 0)) as [->|]; [by rewrite Z.land_0_l in *|].
  assert (Z.log2 m < 32) by (apply Z.log2_lt_pow2; lia).
  destruct (decide (Z.log2 (Z.land m x) < 32)); [done|].
  assert (Hb : Z.testbit (Z.land m x) (Z.log2 (Z.land m x)) = true) by (apply Z.bit_log2; lia).
  rewrite Z.land_spec, testbit_w32 in Hb by lia. done.
Qed.
Lemma lor_w32 m x : 0 ≤ m < 2 ^ 32 -> 0 ≤ x < 2 ^ 32 -> 0 ≤ Z.lor m x < 2 ^ 32.
Proof. by apply lor_below. Qed.

Definition timer_index (t : timeout_id_t) : Z :=
  match t with MESON_TIMER_A => 0 | MESON_TIMER_B => 1 | MESON_TIMER_C => 2 | MESON_TIMER_D => 3 end.
Lemma timeouts_info t : timeouts t = Info (irq (timeouts t)) (2 * timer_index t) (BIT (16 + timer_index t)) (BIT (12 + timer_index t)).
Proof. by destruct t. Qed.
Lemma timer_index_range t : 0 ≤ timer_index t < 4.
Proof. by destruct t. Qed.
Lemma timeout_bits_range b : 0 ≤ timeout_bits b < 4.
Proof. by destruct b. Qed.

(** The multiplexer after enabling the timer [k]. *)
Definition enabled_bit (k : Z) (periodic : bool) (base old : Z) (i : Z) : bool :=
  if bool_decide (i = 16 + k) then true
  else if bool_decide (i = 12 + k) then periodic
  else if bool_decide (2 * k ≤ i < 2 * k + 2) then Z.testbit base (i - 2 * k)
  else Z.testbit old i.
Definition enabled_mux (k : Z) (periodic : bool) (base m : Z) : Z :=
  let m := Z.lor m (BIT (16 + k)) in
  let m := if periodic then Z.lor m (BIT (12 + k)) else Z.land m (not32 (BIT (12 + k))) in
  Z.lor (Z.land m (not32 (Z.shiftl 3 (2 * k)))) (Z.shiftl base (2 * k)).

Lemma BIT_w32 n : 0 ≤ n < 32 -> 0 ≤ BIT n < 2 ^ 32.
Proof. intros. rewrite BIT_pow by lia. split; [pose proof (Z.pow_pos_nonneg 2 n); lia|apply Z.pow_lt_mono_r; lia]. Qed.
Lemma field_w32 v k : 0 ≤ v < 4 -> 0 ≤ k < 4 -> 0 ≤ Z.shiftl v (2 * k) < 2 ^ 32.
Proof.
  intros. rewrite Z.shiftl_mul_pow2 by lia. assert (1 ≤ 2 ^ (2 * k) ≤ 2 ^ 6).
  { split; [pose proof (Z.pow_pos_nonneg 2 (2 * k)); lia|apply Z.pow_le_mono_r; lia]. }
  nia.
Qed.

Lemma enabled_mux_spec k periodic base m i :
  0 ≤ k < 4 -> 0 ≤ base < 4 -> 0 ≤ m < 2 ^ 32 -> 0 ≤ i ->
  Z.testbit (enabled_mux k periodic base (Z.land m (not32 (BIT (16 + k))))) i = enabled_bit k periodic base m i.
Proof.
  intros Hk Hb Hm Hi. pose proof (BIT_w32 (16 + k) ltac:(lia)) as B1. pose proof (BIT_w32 (12 + k) ltac:(lia)) as B2.
  pose proof (field_w32 3 k ltac:(lia) Hk) as B3. pose proof (land_w32 m (not32 (BIT (16 + k))) Hm) as M1.
  pose proof (lor_w32 _ _ M1 B1) as M2. pose proof (lor_w32 _ _ M2 B2) as M3.
  pose proof (land_w32 _ (not32 (BIT (12 + k))) M2) as M4.
  unfold enabled_mux, enabled_bit. rewrite Z.lor_spec, (testbit_field base) by lia.
  assert (H3 : Z.testbit 3 (i - 2 * k) = bool_decide (2 * k ≤ i < 2 * k + 2)).
  { change 3 with (Z.ones 2). case_bool_decide; [apply Z.ones_spec_low; lia|].
    destruct (decide (i < 2 * k)); [apply Z.testbit_neg_r; lia|apply Z.ones_spec_high; lia]. }
  destruct periodic; rewrite testbit_clear, ?testbit_clear, ?Z.lor_spec, ?testbit_clear, ?testbit_bit, testbit_field, H3 by (try done; lia);
    repeat case_bool_decide; try lia; destruct (Z.testbit m i); simpl; rewrite ?orb_false_r; done.
Qed.

Lemma configure_timeout_spec F (t : timeout_id_t) (on periodic : bool) (base : timeout_timebase_t) (count : Z)
    (r : meson_timer_reg_t) :
  0 ≤ mux r < 2 ^ 32 ->
  wpf F (configure_timeout t on periodic base count) (fun _ r' =>
    (forall i, 0 ≤ i -> Z.testbit (mux r') i =
      if on then enabled_bit (timer_index t) periodic (timeout_bits base) (mux r) i
      else Z.testbit (mux r) i && negb (bool_decide (i = 16 + timer_index t))) /\
    (forall t', timer_reg t' r' = if on && bool_decide (t' = t) then count else timer_reg t' r) /\
    counter r' = counter r) r.
Proof.
  intros Hm. pose proof (timer_index_range t) as Hk. unfold configure_timeout. wp_line.
  rewrite (timeouts_info t). cbn [enable mode input_clk]. destruct on; cbn [negb andb]; wp_line.
  - split_and!.
    + intros i Hi. rewrite <- (enabled_mux_spec _ _ _ (mux r) i) by (try done; apply timeout_bits_range). by destruct t.
    + intros t'. by destruct t, t'.
    + by destruct t.
  - split_and!; [|by destruct t|done]. intros i Hi. cbn [mux set_mux].
    rewrite testbit_clear, testbit_bit by (try done; try lia; apply BIT_w32; lia). done.
Qed.

(** [configure_timeout] with [enable] turns the timer on, sets its mode and its two
    timebase bits and writes its count, and leaves every other bit of the multiplexer and
    every other timer as they were; without [enable] it only turns the timer off. *)
Theorem configure_timeout_correct (t : timeout_id_t) (on periodic : bool) (base : timeout_timebase_t) (count : Z)
    (r : meson_timer_reg_t) :
  0 ≤ mux r < 2 ^ 32 ->
  wp (configure_timeout t on periodic base count) (fun _ r' =>
    (forall i, 0 ≤ i -> Z.testbit (mux r') i =
      if on then enabled_bit (timer_index t) periodic (timeout_bits base) (mux r) i
      else Z.testbit (mux r) i && negb (bool_decide (i = 16 + timer_index t))) /\
    (forall t', timer_reg t' r' = if on && bool_decide (t' = t) then count else timer_reg t' r) /\
    counter r' = counter r) r.
Proof. apply configure_timeout_spec. Qed.
Lemma configure_timeout_correct_witness :
  exists r', configure_timeout MESON_TIMER_B true false TIMEOUT_TIMEBASE_1_MS 500 (Regs 0 0 0 0 0 0 []) = Ok (tt, r') /\
    Z.testbit (mux r') 17 = true /\ timer_b r' = 500.
Proof.
  destruct (wpf_value _ _ _ _ tt (configure_timeout_correct MESON_TIMER_B true false TIMEOUT_TIMEBASE_1_MS 500
    (Regs 0 0 0 0 0 0 []) ltac:(done))) as (r' & Hr & Hb & Ht & _); [by vm_compute|].
  exists r'. split; [done|]. split; [by rewrite Hb by lia|]. exact (Ht MESON_TIMER_B).
Defined.

(** ** Ranges *)

Lemma read_timestamp_range F r :
  wpf F read_timestamp (fun t r' => 0 ≤ t < 2 ^ 64 /\ mux r' = mux r /\ forall i, timer_reg i r' = timer_reg i r) r.
Proof.
  assert (Hlow : forall x, 0 ≤ Z.land (w32 x) (2 ^ 32 - 1) < 2 ^ 64).
  { intros x. unfold w32. replace (2 ^ 32 - 1) with (Z.ones 32) by done. rewrite Z.land_ones by lia.
    pose proof (Z.mod_pos_bound (x mod 2 ^ 32) (2 ^ 32)). lia. }
  unfold read_timestamp, read_timer_e, read_timer_e_hi. wp_line. do 3 (apply tick_spec; cbv zeta; wp_line).
  case_bool_decide; wp_line; [apply tick_spec; cbv zeta; wp_line|]; (split; [apply lor_w64; [apply w64_range|apply Hlow]|]);
    (split; [done|]); by intros [].
Qed.
Lemma configure_timeout_range F t on periodic base count r :
  0 ≤ mux r < 2 ^ 32 -> wpf F (configure_timeout t on periodic base count) (fun _ r' => 0 ≤ mux r' < 2 ^ 32) r.
Proof.
  intros Hm. pose proof (timer_index_range t) as Hk. unfold configure_timeout. wp_line.
  rewrite (timeouts_info t). cbn [enable mode input_clk]. destruct on; cbn [negb]; wp_line; [|by apply land_w32].
  cbn [mux set_mux]. apply lor_w32; [apply land_w32|apply field_w32; [apply timeout_bits_range|done]].
  assert (Hen : forall m, 0 ≤ m < 2 ^ 32 -> 0 ≤ Z.lor m (BIT (16 + timer_index t)) < 2 ^ 32)
    by (intros; apply lor_w32; [done|apply BIT_w32; lia]).
  destruct periodic; [apply lor_w32; [|apply BIT_w32; lia]|apply land_w32]; apply Hen; destruct t; by apply land_w32.
Qed.
