(* ===== verification/Timer.v ===== *)
(** * The timer driver

    Models [libclock/src/clock.c] on top of the device of [TimerDevice] and the
    heap of [Pqueue].  A timeout is a handle: its deadline and queue position
    are the node the queue's callbacks read and write, the rest of the struct is
    in [infos]; [free] removes both.  The heap hands out fresh handles, and
    [mallocs] says which of the coming allocations succeed.  What a timeout's
    callback does is a parameter; [calls] records the callbacks called, newest
    first. *)

From Stdlib Require Import Sorted.
From S2P Require Import Prelude Arith TimerDevice Pqueue.

Definition INITIAL_TIMEOUTS : Z := 10.
Definition CLOCK_R_OK : Z := 0.
Definition CLOCK_R_UINT : Z := -1.
Definition CLOCK_R_FAIL : Z := -3.

(** [callback] names the function. *)
Record timeout_t := Timeout { id : Z; callback : Z; data : Z }.

(** [regs] and [queue] are pointers: without them the driver is stopped. *)
Record clock := Clock {
  hw : meson_timer_reg_t;
  regs : bool;
  timeouts_queue : option Pqueue.pqueue_t;
  slots : option (list Z);
  num_timeouts : Z;
  timer_running : bool;
  infos : gmap Z timeout_t;
  fresh : Z;
  mallocs : list bool;
  acks : list Z;
  calls : list timeout_t;
}.

Definition set_hw v c := Clock v (regs c) (timeouts_queue c) (slots c) (num_timeouts c) (timer_running c)
  (infos c) (fresh c) (mallocs c) (acks c) (calls c).
Definition set_regs v c := Clock (hw c) v (timeouts_queue c) (slots c) (num_timeouts c) (timer_running c)
  (infos c) (fresh c) (mallocs c) (acks c) (calls c).
Definition set_queue v c := Clock (hw c) (regs c) v (slots c) (num_timeouts c) (timer_running c)
  (infos c) (fresh c) (mallocs c) (acks c) (calls c).
Definition set_slots v c := Clock (hw c) (regs c) (timeouts_queue c) v (num_timeouts c) (timer_running c)
  (infos c) (fresh c) (mallocs c) (acks c) (calls c).
Definition set_num v c := Clock (hw c) (regs c) (timeouts_queue c) (slots c) v (timer_running c)
  (infos c) (fresh c) (mallocs c) (acks c) (calls c).
Definition set_running v c := Clock (hw c) (regs c) (timeouts_queue c) (slots c) (num_timeouts c) v
  (infos c) (fresh c) (mallocs c) (acks c) (calls c).
Definition set_infos v c := Clock (hw c) (regs c) (timeouts_queue c) (slots c) (num_timeouts c) (timer_running c)
  v (fresh c) (mallocs c) (acks c) (calls c).
Definition set_heap f l c := Clock (hw c) (regs c) (timeouts_queue c) (slots c) (num_timeouts c) (timer_running c)
  (infos c) f l (acks c) (calls c).
Definition set_acks v c := Clock (hw c) (regs c) (timeouts_queue c) (slots c) (num_timeouts c) (timer_running c)
  (infos c) (fresh c) (mallocs c) v (calls c).
Definition set_calls v c := Clock (hw c) (regs c) (timeouts_queue c) (slots c) (num_timeouts c) (timer_running c)
  (infos c) (fresh c) (mallocs c) (acks c) v.

(** [cmp_pri]: the earlier deadline ranks higher. *)
Definition cmp_pri (next curr : Z) : bool := bool_decide (next > curr).

(** An access to the device through [clock.regs]. *)
Definition device {A} (m : M meson_timer_reg_t A) : M clock A :=
  r ← gets regs;
  if (r : bool) then zoom hw set_hw m else throw NullDeref.
(** A call of a queue operation. *)
Definition on_queue {A} (m : M Pqueue.pqueue_t A) : M clock A :=
  o ← gets timeouts_queue;
  q ← deref o;
  match m q with
  | Ok (a, q') => modify (set_queue (Some q'));; mret a
  | Fault f => throw f
  end.
(** [malloc]: whether it succeeds, and a handle. *)
Definition malloc : M clock (option Z) :=
  c ← get;
  put (set_heap (fresh c + 1) (tl (mallocs c)) c);;
  mret (if hd true (mallocs c) then Some (fresh c) else None).
Definition malloc_ok : M clock bool := o ← malloc; mret (bool_decide (is_Some o)).
(** [free] of a timeout. *)
Definition free_timeout (h : Z) : M clock unit :=
  modify (fun c => set_infos (delete h (infos c)) c);;
  on_queue (modify (fun q => Pqueue.set_nodes (delete h (Pqueue.nodes q)) q)).
Definition info_of (h : Z) : M clock timeout_t := c ← get; deref (infos c !! h).

Definition get_time : M clock Z :=
  r ← gets timer_running;
  if negb r then mret 0 else device read_timestamp.

Definition is_timer_running : M clock bool := gets timer_running.

(** [delay_to_16]: a count of at most 16 bits and its unit. *)
Definition delay_to_16 (us : Z) : Z * timeout_timebase_t :=
  if bool_decide (Z.shiftr us 16 = 0) then (w16 us, TIMEOUT_TIMEBASE_1_US)
  else let us := us / 10 in
  if bool_decide (Z.shiftr us 16 = 0) then (w16 us, TIMEOUT_TIMEBASE_10_US)
  else let us := us / 10 in
  if bool_decide (Z.shiftr us 16 = 0) then (w16 us, TIMEOUT_TIMEBASE_100_US)
  else let us := us / 10 in
  if bool_decide (Z.shiftr us 16 = 0) then (w16 us, TIMEOUT_TIMEBASE_1_MS)
  else (2 ^ 16 - 1, TIMEOUT_TIMEBASE_1_MS).

(** Arm timer A for a deadline [us] away. *)
Definition arm (us : Z) : M clock unit :=
  let '(count, base) := delay_to_16 us in
  device (configure_timeout MESON_TIMER_A true false base count).

Definition remove_timer (i : Z) : M clock Z :=
  c ← get;
  match slots c with
  | None => mret CLOCK_R_UINT
  | Some l =>
    if bool_decide (num_timeouts c ≤ i) then mret CLOCK_R_FAIL
    else
      h ← access (l !! Z.to_nat i);
      if bool_decide (h = 0) then mret CLOCK_R_FAIL
      else
        success ← on_queue (Pqueue.pqueue_remove cmp_pri h);
        if bool_decide (success ≠ 0) then mret CLOCK_R_FAIL
        else
          free_timeout h;;
          modify (set_slots (Some (<[Z.to_nat i := 0]> l)));;
          mret CLOCK_R_OK
  end.

(** The loop of [stop_timer]; [true] when a removal failed. *)
Fixpoint stop_loop (ids : list Z) : M clock bool :=
  match ids with
  | [] => mret false
  | i :: ids =>
    o ← gets slots;
    l ← deref o;
    h ← access (l !! Z.to_nat i);
    if bool_decide (h ≠ 0) then
      t ← info_of h;
      success ← remove_timer (id t);
      if bool_decide (success ≠ CLOCK_R_OK) then mret true else stop_loop ids
    else stop_loop ids
  end.

Definition stop_timer : M clock Z :=
  r ← gets timer_running;
  if negb r then mret CLOCK_R_OK
  else
    modify (set_running false);;
    device (configure_timeout MESON_TIMER_A false false TIMEOUT_TIMEBASE_1_MS 0);;
    n ← gets num_timeouts;
    failed ← stop_loop (seqZ 0 n);
    if (failed : bool) then mret CLOCK_R_FAIL
    else
      modify (fun c => set_num 0 (set_regs false (set_queue None (set_slots None c))));;
      mret CLOCK_R_OK.

Definition start_timer : M clock Z :=
  r ← gets timer_running;
  ret ← (if (r : bool) then stop_timer else mret CLOCK_R_OK);
  if bool_decide (ret ≠ CLOCK_R_OK) then mret ret
  else
    modify (set_regs true);;
    device (configure_timestamp TIMESTAMP_TIMEBASE_1_US);;
    device reset_timer_e;;
    m1 ← malloc_ok;
    m2 ← (if (m1 : bool) then malloc_ok else mret true);
    let q := Pqueue.pqueue_init INITIAL_TIMEOUTS Pqueue.Store ∅ m1 m2 in
    modify (set_queue q);;
    if bool_decide (q = None) then stop_timer;; mret CLOCK_R_FAIL
    else
      m ← malloc_ok;
      if negb m then modify (set_slots None);; stop_timer;; mret CLOCK_R_FAIL
      else
        modify (fun c => set_running true (set_num INITIAL_TIMEOUTS
          (set_slots (Some (replicate (Z.to_nat INITIAL_TIMEOUTS) 0)) c)));;
        mret CLOCK_R_OK.

(** The first free slot: the loop of [register_timer]. *)
Fixpoint free_slot (l : list Z) (i : nat) : option nat :=
  match l with
  | [] => None
  | h :: l => if bool_decide (h = 0) then Some i else free_slot l (S i)
  end.

(** The slot for a new timeout; the array grows by one when it is full. *)
Definition find_slot : M clock (option Z) :=
  o ← gets slots;
  l ← deref o;
  n ← gets num_timeouts;
  match free_slot (take (Z.to_nat n) l) 0 with
  | Some i => mret (Some (Z.of_nat i))
  | None =>
    ok ← malloc_ok;
    if negb ok then modify (set_slots None);; mret None
    else
      modify (fun c => set_num (n + 1) (set_slots (Some (l ++ [0])) c));;
      mret (Some n)
  end.

(** The last part of [register_timer]: queue the timeout and arm the timer when
    it is the first to expire. *)
Definition enqueue (new_timeout slot_index cb arg now deadline : Z) : M clock Z :=
  modify (fun c => set_infos (<[new_timeout := Timeout slot_index cb arg]> (infos c)) c);;
  grow ← malloc_ok;
  success ← on_queue (Pqueue.pqueue_insert cmp_pri new_timeout grow);
  if bool_decide (success ≠ 0) then free_timeout new_timeout;; mret (w32 CLOCK_R_UINT)
  else
    l ← gets slots;
    l ← deref l;
    modify (set_slots (Some (<[Z.to_nat slot_index := new_timeout]> l)));;
    earliest ← on_queue Pqueue.pqueue_peek;
    match earliest with
    | None => mret tt
    | Some e =>
      t ← info_of e;
      when (bool_decide (id t = slot_index)) (arm (w64 (deadline - now)))
    end;;
    mret slot_index.

Definition register_timer (delay cb arg : Z) : M clock Z :=
  r ← gets timer_running;
  if negb r then mret (w32 CLOCK_R_UINT)
  else
    current_timestamp ← get_time;
    let timeout_timestamp := w64 (current_timestamp + delay) in
    if bool_decide (timeout_timestamp < current_timestamp) then mret (w32 CLOCK_R_UINT)
    else
      o ← malloc;
      match o with
      | None => mret (w32 CLOCK_R_UINT)
      | Some new_timeout =>
        on_queue (modify (fun q =>
          Pqueue.set_nodes (<[new_timeout := Pqueue.Node timeout_timestamp 0]> (Pqueue.nodes q)) q));;
        s ← find_slot;
        match s with
        | None => mret (w32 CLOCK_R_UINT)
        | Some slot_index => enqueue new_timeout slot_index cb arg current_timestamp timeout_timestamp
        end
      end.

Section irq.
(** What a callback does when called with its id and data. *)
Context (run : Z -> Z -> Z -> M clock unit).

(** The loop of [timer_irq] over the expired timeouts; [None] when a removal
    failed, otherwise the first timeout left. *)
Fixpoint expire (fuel : nat) (now : Z) : M clock (option (option Z)) :=
  match fuel with
  | O => throw OutOfFuel
  | S fuel =>
    earliest ← on_queue Pqueue.pqueue_peek;
    match earliest with
    | None => mret (Some None)
    | Some e =>
      deadline ← on_queue (Pqueue.getpri e);
      if bool_decide (deadline ≤ now) then
        t ← info_of e;
        modify (fun c => set_calls (t :: calls c) c);;
        run (callback t) (id t) (data t);;
        t ← info_of e;
        success ← remove_timer (id t);
        if bool_decide (success ≠ CLOCK_R_OK) then mret None else expire fuel now
      else mret (Some (Some e))
    end
  end.

Definition timer_irq (fuel : nat) (irq_handler : Z) : M clock Z :=
  r ← gets timer_running;
  if negb r then mret CLOCK_R_UINT
  else
    current_timestamp ← get_time;
    e ← expire fuel current_timestamp;
    match e with
    | None => mret CLOCK_R_FAIL
    | Some e =>
      match e with
      | Some e =>
        deadline ← on_queue (Pqueue.getpri e);
        arm (w64 (deadline - current_timestamp))
      | None => device (configure_timeout MESON_TIMER_A false false TIMEOUT_TIMEBASE_1_MS 0)
      end;;
      modify (fun c => set_acks (irq_handler :: acks c) c);;
      mret CLOCK_R_OK
    end.
End irq.

(** ** Delays *)

Definition unit_us (b : timeout_timebase_t) : Z :=
  match b with
  | TIMEOUT_TIMEBASE_1_US => 1 | TIMEOUT_TIMEBASE_10_US => 10
  | TIMEOUT_TIMEBASE_100_US => 100 | TIMEOUT_TIMEBASE_1_MS => 1000
  end.

Lemma shiftr_16 x : 0 ≤ x -> bool_decide (Z.shiftr x 16 = 0) = bool_decide (x < 2 ^ 16).
Proof.
  intros Hx. apply bool_decide_ext. rewrite Z.shiftr_div_pow2 by lia. split; [|intros; apply Z.div_small; lia].
  intros H. apply Z.div_small_iff in H; lia.
Qed.

(** [delay_to_16] gives a 16-bit count whose time is never later than the delay asked
    for, and earlier by less than one unit unless the delay is longer than the timer can
    count, when it is the longest the timer can count. *)
Theorem delay_to_16_bound (us : Z) :
  0 ≤ us < 2 ^ 64 ->
  let '(count, base) := delay_to_16 us in
  0 ≤ count < 2 ^ 16 /\ count * unit_us base ≤ us /\
  (us < count * unit_us base + unit_us base \/
   count = 2 ^ 16 - 1 /\ base = TIMEOUT_TIMEBASE_1_MS /\ 2 ^ 16 * 1000 ≤ us).
Proof.
  intros Hus. unfold delay_to_16.
  assert (D1 : 0 ≤ us / 10) by (apply Z.div_pos; lia). assert (D2 : 0 ≤ us / 10 / 10) by (apply Z.div_pos; lia).
  assert (D3 : 0 ≤ us / 10 / 10 / 10) by (apply Z.div_pos; lia). rewrite !shiftr_16 by lia.
  pose proof (Z.div_mod us 10). pose proof (Z.mod_pos_bound us 10).
  pose proof (Z.div_mod (us / 10) 10). pose proof (Z.mod_pos_bound (us / 10) 10).
  pose proof (Z.div_mod (us / 10 / 10) 10). pose proof (Z.mod_pos_bound (us / 10 / 10) 10).
  repeat case_bool_decide; cbn [unit_us]; rewrite ?w16_small by lia; (split; [lia|split; [lia|]]);
    first [left; lia|right; split_and!; [done|done|lia]].
Qed.
Lemma delay_to_16_bound_witness : delay_to_16 123456 = (12345, TIMEOUT_TIMEBASE_10_US) /\
  12345 * unit_us TIMEOUT_TIMEBASE_10_US ≤ 123456.
Proof. split; [done|]. apply (delay_to_16_bound 123456). lia. Defined.

(** ** The invariant *)

#[export] Instance cmp_pri_strict_weak : Pqueue.StrictWeak cmp_pri.
Proof.
  split; unfold cmp_pri; intros; repeat match goal with
  | H : bool_decide _ = true |- _ => apply bool_decide_eq_true in H
  | H : bool_decide _ = false |- _ => apply bool_decide_eq_false in H
  end; apply bool_decide_eq_false; lia.
Qed.
Abbreviation heap_ok := (Pqueue.pq_ok cmp_pri).

(** A running driver with the queue [q] and the slots [l]: each occupied slot
    holds an element of the queue that knows its slot, and each element is in a
    slot. *)
Record clock_ok (c : clock) (q : Pqueue.pqueue_t) (l : list Z) : Prop := ClockOk {
  ck_run : timer_running c = true;
  ck_regs : regs c = true;
  ck_mux : 0 ≤ mux (hw c) < 2 ^ 32;
  ck_q : timeouts_queue c = Some q;
  ck_pq : heap_ok q;
  ck_store : Pqueue.setpos_cb q = Pqueue.Store;
  ck_slots : slots c = Some l;
  ck_len : num_timeouts c = Z.of_nat (length l);
  ck_slot : forall i h, l !! i = Some h -> h ≠ 0 ->
    Pqueue.elem q h /\ exists t, infos c !! h = Some t /\ id t = Z.of_nat i;
  ck_elem : forall h, Pqueue.elem q h -> h ≠ 0 /\ exists i, l !! i = Some h;
  ck_fresh : 0 < fresh c /\ forall h, is_Some (Pqueue.nodes q !! h) -> h < fresh c;
}.

Section proofs.
Context (F : fault -> Prop).

Lemma wpf_on_queue {A} (m : M Pqueue.pqueue_t A) c q (Q : A -> clock -> Prop) :
  timeouts_queue c = Some q -> wpf F m (fun a q' => Q a (set_queue (Some q') c)) q -> wpf F (on_queue m) Q c.
Proof.
  intros Hq Hm. unfold on_queue. wp_line. eapply wpf_deref; [exact Hq|]. wp_line.
  unfold wpf in Hm. destruct (m q) as [[a q']|f]; [by wp_line|by apply wpf_throw].
Qed.
Lemma wpf_device {A} (m : M meson_timer_reg_t A) c (Q : A -> clock -> Prop) :
  regs c = true -> wpf F m (fun a r => Q a (set_hw r c)) (hw c) -> wpf F (device m) Q c.
Proof. intros Hr Hm. unfold device. wp_line. rewrite Hr. by wp_line. Qed.

(** Forgetting the node of a handle that is not in the queue. *)
Lemma heap_delete q h :
  heap_ok q -> ~ Pqueue.elem q h ->
  let q' := Pqueue.set_nodes (delete h (Pqueue.nodes q)) q in
  heap_ok q' /\ (forall y, Pqueue.elem q' y <-> Pqueue.elem q y) /\
  (forall y, y ≠ h -> Pqueue.prio q' y = Pqueue.prio q y).
Proof.
  intros [[H1 H2 [H3 H4] H5] H6] Hh q'.
  assert (Hne : forall k, 1 ≤ k < Pqueue.qsize q -> Pqueue.arr q k ≠ h).
  { intros k Hk <-. apply Hh. by exists k. }
  assert (Hpr : forall y, y ≠ h -> Pqueue.prio q' y = Pqueue.prio q y).
  { intros y Hy. unfold Pqueue.prio, q'. simpl. by rewrite lookup_delete_ne. }
  split_and!; [|done|done]. split.
  - split; try done.
    + split; [done|]. intros k Hk. unfold q'. simpl. rewrite lookup_delete_ne by (symmetry; by apply Hne). by apply H4.
    + intros Hcb k Hk. unfold Pqueue.posn, q'. simpl. change (Pqueue.arr q' k) with (Pqueue.arr q k).
      rewrite lookup_delete_ne by (symmetry; by apply Hne). by apply H5.
  - intros k Hk. simpl in Hk. unfold Pqueue.below. change (Pqueue.arr q') with (Pqueue.arr q).
    assert (1 ≤ k / 2 < k) by (split; [apply Z.div_le_lower_bound|apply Z.div_lt]; lia).
    rewrite !Hpr by (apply Hne; lia). by apply H6.
Qed.

(** What [remove_timer] leaves. *)
Record removed (c : clock) (q : Pqueue.pqueue_t) (h : Z) (c' : clock) (q' : Pqueue.pqueue_t) : Prop := Removed {
  rm_elem : forall y, Pqueue.elem q' y <-> Pqueue.elem q y /\ y ≠ h;
  rm_prio : forall y, y ≠ h -> Pqueue.prio q' y = Pqueue.prio q y;
  rm_size : Pqueue.qsize q' = Pqueue.qsize q - 1;
  rm_infos : infos c' = delete h (infos c);
  rm_hw : hw c' = hw c;
  rm_acks : acks c' = acks c;
  rm_calls : calls c' = calls c;
}.

Lemma remove_timer_spec c q l i h :
  clock_ok c q l -> l !! Z.to_nat i = Some h -> 0 ≤ i -> h ≠ 0 ->
  wpf F (remove_timer i) (fun r c' => r = CLOCK_R_OK /\ exists q',
    clock_ok c' q' (<[Z.to_nat i := 0]> l) /\ removed c q h c' q') c.
Proof.
  intros Hok Hi Hi0 Hh. pose proof Hok as [C1 C2 C3 C4 C5 C6 C7 C8 C9 C10 [C11 C12]].
  pose proof (lookup_lt_Some _ _ _ Hi) as Hlt. destruct (C9 _ _ Hi Hh) as [Hel (t & Ht & Hid)].
  unfold remove_timer. wp_line. rewrite C7, C8, bool_decide_eq_false_2 by lia.
  wp_line. eapply wpf_access; [exact Hi|]. rewrite bool_decide_eq_false_2 by done. wp_line.
  eapply wpf_on_queue; [exact C4|].
  eapply wpf_mono; [apply (Pqueue.pqueue_remove_spec F cmp_pri Pqueue.sw_asym Pqueue.sw_negtrans); [done|done|done]|].
  intros rc q1 (-> & Hpq1 & Hsz1 & Hel1 & Hpr1 & Hcb1 & Hkn1). cbn [bool_decide]. rewrite bool_decide_eq_false_2 by lia.
  unfold free_timeout. wp_line. eapply wpf_on_queue; [done|]. wp_line. split; [done|].
  destruct (heap_delete q1 h Hpq1) as (Hpq2 & Hel2 & Hpr2); [rewrite Hel1; tauto|].
  exists (Pqueue.set_nodes (delete h (Pqueue.nodes q1)) q1). split; [|split; try done].
  - assert (Huniq : forall j, l !! j = Some h -> j = Z.to_nat i).
    { intros j Hj. destruct (C9 _ _ Hj Hh) as [_ (t' & Ht' & Hid')]. rewrite Ht in Ht'. injection Ht' as <-. lia. }
    split; try done; cbn [timer_running regs hw timeouts_queue slots num_timeouts infos fresh set_queue set_slots set_infos].
    + exact (eq_trans Hcb1 C6).
    + by rewrite length_insert.
    + intros j y Hj Hy. destruct (decide (j = Z.to_nat i)) as [->|Hne].
      { rewrite list_lookup_insert_eq in Hj by done. congruence. }
      rewrite list_lookup_insert_ne in Hj by done. destruct (C9 _ _ Hj Hy) as [Hely (t' & Ht' & Hid')].
      assert (y ≠ h) by (intros ->; apply Hne; by apply Huniq).
      split; [by apply Hel2, Hel1|]. exists t'. by rewrite lookup_delete_ne.
    + intros y Hy. apply Hel2, Hel1 in Hy as [Hy Hne]. destruct (C10 y Hy) as [Hy0 (j & Hj)]. split; [done|].
      exists j. rewrite list_lookup_insert_ne; [done|]. intros <-. rewrite Hi in Hj. congruence.
    + split; [done|]. intros y. simpl. rewrite lookup_delete_is_Some. intros [_ Hy]. by apply C12, Hkn1.
  - intros y Hy. by rewrite Hpr2, Hpr1.
Qed.

(** The first element of a queue has the earliest deadline. *)
Lemma peek_spec q :
  heap_ok q -> wpf F Pqueue.pqueue_peek (fun o q' => q' = q /\
    match o with
    | None => forall y, ~ Pqueue.elem q y
    | Some e => Pqueue.elem q e /\ forall y, Pqueue.elem q y -> Pqueue.prio q e ≤ Pqueue.prio q y
    end) q.
Proof.
  intros Hok. pose proof Hok as [[Hsz _ _ _] Hh]. unfold Pqueue.pqueue_peek. wp_line. case_bool_decide as Hn.
  - wp_line. split; [done|]. by apply (Pqueue.elem_size cmp_pri).
  - wp_line. apply Pqueue.wpf_rd; [lia|]. wp_line. split; [done|]. split; [exists 1; split; [lia|done]|].
    intros y (k & Hk & <-). pose proof (Pqueue.heap_root cmp_pri Pqueue.sw_asym Pqueue.sw_negtrans (Pqueue.prio q)
      (Pqueue.qsize q) (Pqueue.arr q) Hh k ltac:(lia)) as Hb.
    unfold Pqueue.below, cmp_pri in Hb. apply bool_decide_eq_false in Hb. lia.
Qed.
Lemma elem_known q h : heap_ok q -> Pqueue.elem q h -> is_Some (Pqueue.nodes q !! h).
Proof. intros [[_ _ [_ Hkn] _] _] (k & Hk & <-). by apply Hkn. Qed.

Section loop.
Context (run : Z -> Z -> Z -> M clock unit).
(** The callbacks leave the driver alone. *)
Hypothesis run_frame : forall f i d c, wpf F (run f i d) (fun _ c' => c' = c) c.

(** The handles [fired] are exactly those due at [now], by deadline. *)
Record expired (c : clock) (q : Pqueue.pqueue_t) (now : Z) (fired : list Z) (c' : clock) (q' : Pqueue.pqueue_t) : Prop := Expired {
  ex_elem : forall y, Pqueue.elem q' y <-> Pqueue.elem q y /\ now < Pqueue.prio q y;
  ex_prio : forall y, Pqueue.elem q' y -> Pqueue.prio q' y = Pqueue.prio q y;
  ex_nodup : NoDup fired;
  ex_fired : forall h, h ∈ fired <-> Pqueue.elem q h /\ Pqueue.prio q h ≤ now;
  ex_sorted : StronglySorted (fun a b => Pqueue.prio q a ≤ Pqueue.prio q b) fired;
  ex_calls : exists ts, calls c' = rev ts ++ calls c /\ Forall2 (fun h t => infos c !! h = Some t) fired ts;
  ex_acks : acks c' = acks c;
}.

Lemma expired_none c q now :
  (forall y, Pqueue.elem q y -> now < Pqueue.prio q y) -> expired c q now [] c q.
Proof.
  intros Hall. split; try done.
  - intros y. split; [|tauto]. intros Hy. split; [done|by apply Hall].
  - constructor.
  - intros h. split; [by intros ?%elem_of_nil|]. intros [Hh Hp]. specialize (Hall h Hh). lia.
  - constructor.
  - by exists [].
Qed.

Lemma expired_step c q now e t c1 q1 fired c' q' :
  Pqueue.elem q e -> Pqueue.prio q e ≤ now -> infos c !! e = Some t ->
  (forall y, Pqueue.elem q y -> Pqueue.prio q e ≤ Pqueue.prio q y) ->
  (forall y, Pqueue.elem q y -> is_Some (infos c !! y)) ->
  removed (set_calls (t :: calls c) c) q e c1 q1 -> expired c1 q1 now fired c' q' ->
  expired c q now (e :: fired) c' q'.
Proof.
  intros He Hdue Ht Hmin Hinf [R1 R2 _ R4 _ R6 R7] [X1 X2 X3 X4 X5 (ts & X6 & X7) X8].
  cbn [infos set_calls calls acks] in *.
  assert (Hpr : forall y, Pqueue.elem q1 y -> Pqueue.prio q1 y = Pqueue.prio q y).
  { intros y Hy. apply R2. by apply R1 in Hy as [_ ?]. }
  split.
  - intros y. rewrite X1. split.
    + intros [Hy Hp]. rewrite Hpr in Hp by done. apply R1 in Hy as [? _]. done.
    + intros [Hy Hp]. assert (Pqueue.elem q1 y) by (apply R1; split; [done|intros ->; lia]). by rewrite Hpr.
  - intros y Hy. rewrite X2 by done. apply Hpr. by apply X1 in Hy as [? _].
  - constructor; [|done]. intros Hin. apply X4 in Hin as [Hin _]. apply R1 in Hin. tauto.
  - intros h. rewrite elem_of_cons, X4. split.
    + intros [->|[Hh Hp]]; [done|]. rewrite Hpr in Hp by done. apply R1 in Hh as [? _]. done.
    + intros [Hh Hp]. destruct (decide (h = e)) as [->|Hne]; [by left|right].
      assert (Pqueue.elem q1 h) by by apply R1. by rewrite Hpr.
  - assert (Hin : forall h, h ∈ fired -> Pqueue.elem q1 h) by (intros h Hh; by apply X4 in Hh as [? _]).
    constructor.
    + clear -X5 Hin Hpr. induction X5 as [|a r Hr IH Ha]; constructor.
      * apply IH. intros h Hh. apply Hin. by right.
      * rewrite List.Forall_forall in *. intros b Hb. specialize (Ha b Hb).
        rewrite !Hpr in Ha by (apply Hin, list_elem_of_In; simpl; auto). done.
    + apply List.Forall_forall. intros h Hh. apply Hmin. apply (R1 h), Hin. by apply list_elem_of_In.
  - exists (t :: ts). split; [by rewrite X6, R7; simpl; rewrite <- app_assoc|]. constructor; [done|].
    eapply Forall2_impl; [exact X7|]. intros h t'. rewrite R4, lookup_delete_Some. naive_solver.
  - congruence.
Qed.

Lemma clock_info c q l e : clock_ok c q l -> Pqueue.elem q e -> exists i t,
  l !! i = Some e /\ infos c !! e = Some t /\ id t = Z.of_nat i /\ e ≠ 0.
Proof.
  intros Hok He. destruct (ck_elem _ _ _ Hok e He) as [H0 (i & Hi)].
  destruct (ck_slot _ _ _ Hok i e Hi H0) as [_ (t & Ht & Hid)]. by exists i, t.
Qed.
(** Looking at the queue changes nothing. *)
Lemma wpf_read_queue {A} (m : M Pqueue.pqueue_t A) (P : A -> Prop) c q l (Q : A -> clock -> Prop) :
  clock_ok c q l -> wpf F m (fun a q' => q' = q /\ P a) q -> (forall a, P a -> Q a c) -> wpf F (on_queue m) Q c.
Proof.
  intros Hok Hm HQ. pose proof (ck_q _ _ _ Hok) as Hq. eapply wpf_on_queue; [done|]. eapply wpf_mono; [done|].
  intros a q' [-> HP]. replace (set_queue (Some q) c) with c by (destruct c; simpl in *; by rewrite Hq). by apply HQ.
Qed.
Lemma getpri_spec q h : is_Some (Pqueue.nodes q !! h) -> wpf F (Pqueue.getpri h) (fun a q' => q' = q /\ a = Pqueue.prio q h) q.
Proof. intros Hh. by apply Pqueue.wpf_getpri. Qed.

Lemma expire_spec fuel now c q l :
  clock_ok c q l -> (Z.to_nat (Pqueue.qsize q) ≤ fuel)%nat ->
  wpf F (expire run fuel now) (fun r c' => exists fired q' l' o, r = Some o /\ clock_ok c' q' l' /\
    expired c q now fired c' q' /\ match o with None => forall y, ~ Pqueue.elem q' y | Some e => Pqueue.elem q' e end) c.
Proof.
  revert c q l. induction fuel as [|fuel IH]; intros c q l Hok Hf.
  { destruct (ck_pq _ _ _ Hok) as [[? _ _ _] _]. lia. }
  pose proof (ck_pq _ _ _ Hok) as Hpq. cbn [expire]. wp_line.
  eapply wpf_read_queue; [done|by apply peek_spec|]. intros [e|] Hpeek; wp_line.
  2:{ exists [], q, l, None. split_and!; try done. apply expired_none. intros y Hy. by destruct (Hpeek y). }
  destruct Hpeek as [He Hmin]. eapply wpf_read_queue; [done|apply getpri_spec; by apply elem_known|]. intros d ->.
  case_bool_decide as Hdue; wp_line.
  2:{ exists [], q, l, (Some e). split_and!; try done. apply expired_none. intros y Hy. specialize (Hmin y Hy). lia. }
  destruct (clock_info c q l e Hok He) as (i & t & Hi & Ht & Hid & He0).
  unfold info_of. wp_line. eapply wpf_deref; [exact Ht|]. wp_line.
  assert (Hok1 : clock_ok (set_calls (t :: calls c) c) q l) by (destruct Hok; by split).
  eapply wpf_mono; [apply run_frame|]. intros [] c1 ->. wp_line. eapply wpf_deref; [exact Ht|]. wp_line.
  rewrite Hid. eapply wpf_mono; [apply (remove_timer_spec _ q l (Z.of_nat i) e); [done|by rewrite Nat2Z.id|lia|done]|].
  intros rc c2 (-> & q2 & Hok2 & Hrm). rewrite bool_decide_eq_false_2 by (unfold CLOCK_R_OK; lia).
  eapply wpf_mono; [apply (IH c2 q2 _ Hok2); rewrite (rm_size _ _ _ _ _ Hrm); lia|].
  intros r c3 (fired & q3 & l3 & o & -> & Hok3 & Hex & Hp). exists (e :: fired), q3, l3, o. split_and!; try done.
  eapply expired_step; try done. intros y Hy. destruct (clock_info c q l y Hok Hy) as (? & ? & ? & ? & _). by eexists.
Qed.
End loop.

Lemma clock_ok_hw c q l r : clock_ok c q l -> 0 ≤ mux r < 2 ^ 32 -> clock_ok (set_hw r c) q l.
Proof. intros [] Hm. by split. Qed.

Lemma get_time_spec c q l :
  clock_ok c q l -> wpf F get_time (fun t c' => 0 ≤ t < 2 ^ 64 /\
    exists r, read_timestamp (hw c) = Ok (t, r) /\ c' = set_hw r c /\ clock_ok c' q l) c.
Proof.
  intros Hok. unfold get_time. wp_line. rewrite (ck_run _ _ _ Hok). cbn [negb].
  apply wpf_device; [apply Hok|]. destruct (wp_inv _ _ _ (read_timestamp_range (fun _ => False) (hw c))) as (t & r & Hr & Ht & Hm & _).
  unfold wpf. rewrite Hr. split; [done|]. exists r. split; [done|]. split; [done|].
  apply clock_ok_hw; [done|]. rewrite Hm. apply Hok.
Qed.
Lemma device_timeout_spec c q l on base count :
  clock_ok c q l -> wpf F (device (configure_timeout MESON_TIMER_A on false base count)) (fun _ c' =>
    exists r, c' = set_hw r c /\ clock_ok c' q l /\
      (on = true -> timer_a r = count /\ Z.testbit (mux r) 16 = true)) c.
Proof.
  intros Hok. pose proof (ck_mux _ _ _ Hok) as Hm. apply wpf_device; [apply Hok|].
  eapply wpf_mono; [apply wpf_conj; [by apply configure_timeout_range|
    by apply configure_timeout_spec]|].
  intros [] r (Hr & Hb & Ht & _). exists r. split; [done|]. split; [by apply clock_ok_hw|]. intros ->.
  split; [exact (Ht MESON_TIMER_A)|by rewrite Hb].
Qed.
Lemma arm_spec c q l us :
  clock_ok c q l -> wpf F (arm us) (fun _ c' => exists r, c' = set_hw r c /\ clock_ok c' q l /\
    timer_a r = fst (delay_to_16 us) /\ Z.testbit (mux r) 16 = true) c.
Proof.
  intros Hok. unfold arm. destruct (delay_to_16 us) as [count base] eqn:E.
  eapply wpf_mono; [by apply device_timeout_spec|]. intros [] c' (r & -> & Hok' & H). exists r.
  destruct (H eq_refl). done.
Qed.

(** A node for a handle the queue does not know. *)
Lemma heap_add q h nd :
  heap_ok q -> Pqueue.nodes q !! h = None ->
  let q' := Pqueue.set_nodes (<[h := nd]> (Pqueue.nodes q)) q in
  heap_ok q' /\ (forall y, Pqueue.elem q' y <-> Pqueue.elem q y) /\ ~ Pqueue.elem q' h /\
  Pqueue.prio q' h = Pqueue.pri nd /\ (forall y, y ≠ h -> Pqueue.prio q' y = Pqueue.prio q y).
Proof.
  intros Hok Hh q'. pose proof Hok as [[H1 H2 [H3 H4] H5] H6].
  assert (Hne : forall k, 1 ≤ k < Pqueue.qsize q -> Pqueue.arr q k ≠ h).
  { intros k Hk E. destruct (H4 k Hk) as [x Hx]. congruence. }
  assert (Hpr : forall y, y ≠ h -> Pqueue.prio q' y = Pqueue.prio q y).
  { intros y Hy. unfold Pqueue.prio, q'. simpl. by rewrite lookup_insert_ne. }
  split_and!; [|done| | |done].
  - split.
    + split; try done.
      * split; [done|]. intros k Hk. unfold q'. simpl. rewrite lookup_insert_ne by (symmetry; by apply Hne). by apply H4.
      * intros Hcb k Hk. unfold Pqueue.posn, q'. simpl. change (Pqueue.arr q' k) with (Pqueue.arr q k).
        rewrite lookup_insert_ne by (symmetry; by apply Hne). by apply H5.
    + intros k Hk. simpl in Hk. unfold Pqueue.below. change (Pqueue.arr q') with (Pqueue.arr q).
      assert (1 ≤ k / 2 < k) by (split; [apply Z.div_le_lower_bound|apply Z.div_lt]; lia).
      rewrite !Hpr by (apply Hne; lia). by apply H6.
  - intros (k & Hk & E). by apply (Hne k Hk).
  - unfold Pqueue.prio, q'. simpl. by rewrite lookup_insert_eq.
Qed.

Lemma timer_free_slot_spec l i :
  match free_slot l i with
  | Some j => (i ≤ j)%nat /\ l !! (j - i)%nat = Some 0
  | None => True
  end.
Proof.
  revert i. induction l as [|h l IH]; intros i; cbn [free_slot]; [done|]. case_bool_decide as E.
  - subst. split; [lia|]. by rewrite Nat.sub_diag.
  - specialize (IH (S i)). destruct (free_slot l (S i)) as [j|]; [|done]. destruct IH as [Hj Hl]. split; [lia|].
    by replace (j - i)%nat with (S (j - S i)) by lia.
Qed.

(** The slots after [find_slot]: the old ones, perhaps with one more, and a
    free one at [i]. *)
Lemma find_slot_spec c q l :
  clock_ok c q l -> mallocs c = [] ->
  wpf F find_slot (fun o c' => exists i l', o = Some (Z.of_nat i) /\ clock_ok c' q l' /\ l' !! i = Some 0 /\
    mallocs c' = [] /\ infos c' = infos c /\ hw c' = hw c /\ fresh c ≤ fresh c' /\
    forall j h, h ≠ 0 -> l' !! j = Some h <-> l !! j = Some h) c.
Proof.
  intros Hok Hm. pose proof Hok as [C1 C2 C3 C4 C5 C6 C7 C8 C9 C10 [C11 C12]]. unfold find_slot. wp_line.
  eapply wpf_deref; [exact C7|]. wp_line. rewrite C8, Nat2Z.id, take_ge by done.
  pose proof (timer_free_slot_spec l 0) as Hf. destruct (free_slot l 0) as [i|]; wp_line.
  - destruct Hf as [_ Hi]. rewrite Nat.sub_0_r in Hi. by exists i, l.
  - unfold malloc_ok, malloc. wp_line. rewrite Hm. cbn [hd tl]. rewrite bool_decide_eq_true_2 by by eexists. cbn [negb].
    wp_line. assert (Happ : forall j h, h ≠ 0 -> (l ++ [0]) !! j = Some h <-> l !! j = Some h).
    { intros j h Hh. rewrite lookup_app. destruct (l !! j) as [x|] eqn:E; [done|]. split; [|done].
      destruct (j - length l)%nat as [|[|]]; simpl; congruence. }
    exists (length l), (l ++ [0]). split; [done|]. split.
    + split; cbn [timer_running regs hw timeouts_queue slots num_timeouts infos fresh set_num set_slots set_heap]; try done.
      * rewrite length_app. simpl. lia.
      * intros j h Hj Hh. apply C9; [by apply Happ|done].
      * intros h Hh. destruct (C10 h Hh) as [Hh0 (j & Hj)]. split; [done|]. exists j. by apply Happ.
      * split; [lia|]. intros h Hh. specialize (C12 h Hh). lia.
    + split_and!; try done; [by apply list_lookup_middle|simpl; lia].
Qed.

(** The driver after a timeout [h] for [deadline] was queued in slot [i]. *)
Record queued (c : clock) (q : Pqueue.pqueue_t) (i h cb arg deadline : Z) (c' : clock) (q' : Pqueue.pqueue_t) (l' : list Z) : Prop := Queued {
  qd_ok : clock_ok c' q' l';
  qd_slot : 0 ≤ i /\ l' !! Z.to_nat i = Some h;
  qd_info : infos c' !! h = Some (Timeout i cb arg);
  qd_elem : forall y, Pqueue.elem q' y <-> y = h \/ Pqueue.elem q y;
  qd_new : ~ Pqueue.elem q h;
  qd_prio : forall y, Pqueue.prio q' y = if decide (y = h) then deadline else Pqueue.prio q y;
}.

Lemma clock_ok_insert c q q' l (i : nat) h cb arg c' :
  clock_ok c q l -> l !! i = Some 0 -> h ≠ 0 -> ~ Pqueue.elem q h -> infos c' = <[h := Timeout (Z.of_nat i) cb arg]> (infos c) ->
  timer_running c' = true -> regs c' = true -> hw c' = hw c -> timeouts_queue c' = Some q' -> num_timeouts c' = num_timeouts c ->
  slots c' = Some (<[i := h]> l) -> fresh c ≤ fresh c' ->
  heap_ok q' -> (forall y, Pqueue.elem q' y <-> y = h \/ Pqueue.elem q y) -> Pqueue.same_nodes q q' ->
  clock_ok c' q' (<[i := h]> l).
Proof.
  intros [C1 C2 C3 C4 C5 C6 C7 C8 C9 C10 [C11 C12]] Hi Hh Hnew Hinf Hr Hg Hhw Hq Hn Hs Hf Hpq Hel [Hcb Hkn].
  pose proof (lookup_lt_Some _ _ _ Hi) as Hlt. split; try done; try congruence.
  - by rewrite length_insert, Hn.
  - intros j y Hj Hy. destruct (decide (j = i)) as [->|Hne].
    + rewrite list_lookup_insert_eq in Hj by done. injection Hj as <-. split; [apply Hel; by left|].
      exists (Timeout (Z.of_nat i) cb arg). by rewrite Hinf, lookup_insert_eq.
    + rewrite list_lookup_insert_ne in Hj by done. destruct (C9 _ _ Hj Hy) as [Hely (t & Ht & Hid)].
      split; [apply Hel; by right|]. exists t. rewrite Hinf, lookup_insert_ne; [done|]. by intros ->.
  - intros y [->|Hy]%Hel; [split; [done|]; exists i; by apply list_lookup_insert_eq|].
    destruct (C10 y Hy) as [Hy0 (j & Hj)]. split; [done|]. exists j. rewrite list_lookup_insert_ne; [done|].
    intros <-. rewrite Hi in Hj. congruence.
  - split; [lia|]. intros y Hy. apply Hkn, C12 in Hy. lia.
Qed.

Lemma enqueue_spec c q l (i : nat) h cb arg now deadline :
  clock_ok c q l -> mallocs c = [] -> l !! i = Some 0 -> h ≠ 0 -> ~ Pqueue.elem q h -> is_Some (Pqueue.nodes q !! h) ->
  Pqueue.prio q h = deadline ->
  wpf F (enqueue h (Z.of_nat i) cb arg now deadline) (fun r c' => r = Z.of_nat i /\ exists q' l',
    queued c q r h cb arg deadline c' q' l' /\
    ((forall y, Pqueue.elem q y -> deadline < Pqueue.prio q y) ->
     timer_a (hw c') = fst (delay_to_16 (w64 (deadline - now))) /\ Z.testbit (mux (hw c')) 16 = true)) c.
Proof.
  intros Hok Hm Hi Hh Hnew Hkn Hdl. pose proof Hok as [C1 C2 C3 C4 C5 C6 C7 C8 C9 C10 [C11 C12]].
  unfold enqueue, malloc_ok, malloc. wp_line. cbn [mallocs set_infos]. rewrite Hm. cbn [hd tl].
  rewrite bool_decide_eq_true_2 by by eexists. eapply wpf_on_queue; [exact C4|].
  eapply wpf_mono; [apply (Pqueue.pqueue_insert_spec F cmp_pri Pqueue.sw_asym Pqueue.sw_negtrans h true q C5 Hnew Hkn)|].
  intros rc q'. rewrite andb_false_r. intros (-> & Hpq & Hel & Hpr & Hsn). rewrite bool_decide_eq_false_2 by lia. wp_line.
  eapply wpf_deref; [exact C7|]. wp_line. rewrite Nat2Z.id. set (c1 := set_slots _ _).
  assert (Hok1 : clock_ok c1 q' (<[i := h]> l)).
  { eapply (clock_ok_insert c q q' l i h cb arg); try done. unfold c1. simpl. lia. }
  assert (Hqd : forall c2, clock_ok c2 q' (<[i := h]> l) -> infos c2 = infos c1 ->
    queued c q (Z.of_nat i) h cb arg deadline c2 q' (<[i := h]> l)).
  { intros c2 Hok2 Hinf. split; try done.
    - split; [lia|]. rewrite Nat2Z.id. apply list_lookup_insert_eq. by apply lookup_lt_Some in Hi.
    - rewrite Hinf. unfold c1. simpl. by rewrite lookup_insert_eq.
    - intros y. rewrite Hpr. case_decide; [by subst|done]. }
  eapply wpf_read_queue; [exact Hok1|by apply peek_spec|]. intros [e|] Hpeek; wp_line.
  2:{ destruct (Hpeek h). apply Hel. by left. }
  destruct Hpeek as [He Hmin]. destruct (clock_info c1 q' _ e Hok1 He) as (j & t & Hj & Ht & Hid & He0).
  unfold info_of. wp_line. eapply wpf_deref; [exact Ht|]. apply wpf_when; intros Hb; bd; wp_line.
  - eapply wpf_mono; [by apply arm_spec|]. intros [] c2 (r & -> & Hok2 & Ha & Hb2). wp_line. split; [done|].
    exists q', (<[i := h]> l). split; [by apply Hqd|done].
  - split; [done|]. exists q', (<[i := h]> l). split; [by apply Hqd|]. intros Hfirst. exfalso. apply Hb.
    assert (e = h) as ->.
    { apply Hel in He as [->|He]; [done|]. specialize (Hfirst e He). specialize (Hmin h ltac:(apply Hel; by left)).
      rewrite !Hpr in Hmin. lia. }
    unfold c1 in Ht. simpl in Ht. rewrite lookup_insert_eq in Ht. by injection Ht as <-.
Qed.
End proofs.

(** ** The properties of the driver *)

(** With memory available, [register_timer] on a running driver rejects a delay that
    would overflow the clock, changing no timeout, and otherwise returns the number of a
    slot that now holds a new timeout with its deadline, callback and data; the other
    timeouts stay as they are.  When the new one is the first to expire, timer A is armed
    with its delay. *)
Theorem register_timer_correct (delay cb arg : Z) (c : clock) (q : Pqueue.pqueue_t) (l : list Z) :
  clock_ok c q l -> mallocs c = [] -> 0 ≤ delay < 2 ^ 64 ->
  wp (register_timer delay cb arg) (fun r c' => exists now, 0 ≤ now < 2 ^ 64 /\
    if bool_decide (2 ^ 64 ≤ now + delay) then r = 2 ^ 32 - 1 /\ clock_ok c' q l
    else exists h q' l', queued c q r h cb arg (now + delay) c' q' l' /\
      ((forall y, Pqueue.elem q y -> now + delay < Pqueue.prio q y) ->
       timer_a (hw c') = fst (delay_to_16 delay) /\ Z.testbit (mux (hw c')) 16 = true)) c.
Proof.
  intros Hok Hm Hd. unfold register_timer. wp_line. rewrite (ck_run _ _ _ Hok). cbn [negb]. wp_line.
  eapply wpf_mono; [by apply (get_time_spec _ c q l)|]. intros now c1 (Hnow & r & Hread & -> & Hok1).
  assert (Hw : w64 (now + delay) = if bool_decide (2 ^ 64 ≤ now + delay) then now + delay - 2 ^ 64 else now + delay).
  { case_bool_decide; [|by rewrite w64_small by lia]. unfold w64. rewrite <- (Z.mod_add _ (-1)) by lia.
    rewrite Z.mod_small; lia. }
  rewrite Hw. destruct (bool_decide (2 ^ 64 ≤ now + delay)) eqn:Hov; bd.
  { rewrite bool_decide_eq_true_2 by lia. wp_line. exists now. rewrite bool_decide_eq_true_2 by lia. done. }
  rewrite bool_decide_eq_false_2 by lia. unfold malloc. wp_line. cbn [mallocs set_hw fresh]. rewrite Hm. cbn [hd tl].
  wp_line. pose proof Hok as [C1 C2 C3 C4 C5 C6 C7 C8 C9 C10 [C11 C12]]. eapply wpf_on_queue; [exact C4|]. wp_line.
  assert (Hunk : Pqueue.nodes q !! fresh c = None).
  { destruct (Pqueue.nodes q !! fresh c) eqn:E; [|done]. specialize (C12 (fresh c) ltac:(by rewrite E)). lia. }
  destruct (heap_add q (fresh c) (Pqueue.Node (now + delay) 0) C5 Hunk) as (Hpq & Hel & Hnew & Hpr & Hpr').
  set (q1 := Pqueue.set_nodes _ q) in *. set (c2 := set_queue (Some q1) _).
  assert (Hok2 : clock_ok c2 q1 l).
  { split; try done; [exact (ck_mux _ _ _ Hok1)|]. split; [simpl; lia|].
    intros y. unfold q1. simpl. rewrite lookup_insert_is_Some. intros [<-|[_ Hy]]; [lia|]. specialize (C12 y Hy). lia. }
  eapply wpf_mono; [by apply (find_slot_spec _ c2 q1 l)|].
  intros o c3 (i & l' & -> & Hok3 & Hi & Hm3 & Hinf & _ & _ & _). wp_line.
  eapply wpf_mono; [apply (enqueue_spec _ c3 q1 l' i (fresh c)); try done; [lia|unfold q1; simpl; by rewrite lookup_insert_eq]|].
  intros r' c4 (-> & q' & l'' & [Q1 Q2 Q3 Q4 Q5 Q6] & Harm). exists now. split; [done|].
  rewrite bool_decide_eq_false_2 by lia. exists (fresh c), q', l''. split.
  - split; try done. intros y. rewrite Q6. case_decide; [done|by apply Hpr'].
  - intros Hfirst. replace delay with (w64 (now + delay - now)) at 1 by (rewrite w64_small; lia). apply Harm.
    intros y Hy. rewrite Hpr'; [apply Hfirst; by apply Hel|]. intros ->. by apply Hnew.
Qed.

(** C33: when the callbacks do not touch the driver, [timer_irq] terminates.  With the
    timestamp that it reads from the device it calls exactly the callbacks of the
    timeouts whose deadline has come, each once and in the order of their deadlines,
    removes those timeouts and no other, and acknowledges the interrupt. *)
Theorem timer_irq_correct (run : Z -> Z -> Z -> M clock unit) (fuel : nat) (irq_handler : Z)
    (c : clock) (q : Pqueue.pqueue_t) (l : list Z) :
  (forall f i d c, wp (run f i d) (fun _ c' => c' = c) c) ->
  clock_ok c q l -> (Z.to_nat (Pqueue.qsize q) ≤ fuel)%nat ->
  wp (timer_irq run fuel irq_handler) (fun rc c' => rc = CLOCK_R_OK /\ acks c' = irq_handler :: acks c /\
    exists now r fired ts q' l', read_timestamp (hw c) = Ok (now, r) /\ clock_ok c' q' l' /\
      (forall y, Pqueue.elem q' y <-> Pqueue.elem q y /\ now < Pqueue.prio q y) /\
      NoDup fired /\ (forall h, h ∈ fired <-> Pqueue.elem q h /\ Pqueue.prio q h ≤ now) /\
      StronglySorted (fun a b => Pqueue.prio q a ≤ Pqueue.prio q b) fired /\
      Forall2 (fun h t => infos c !! h = Some t) fired ts /\ calls c' = rev ts ++ calls c) c.
Proof.
  intros Hrun Hok Hf. unfold timer_irq. wp_line. rewrite (ck_run _ _ _ Hok). cbn [negb]. wp_line.
  eapply wpf_mono; [by apply (get_time_spec _ c q l)|]. intros now c1 (Hnow & r & Hread & -> & Hok1).
  wp_line. eapply wpf_mono; [by apply (expire_spec _ run Hrun fuel now _ q l)|].
  intros e c2 (fired & q' & l' & o & -> & Hok2 & [X1 X2 X3 X4 X5 (ts & X6 & X7) X8] & Ho). wp_line.
  apply (wpf_mono _ _ (fun _ c3 => exists r', c3 = set_hw r' c2 /\ clock_ok c3 q' l')).
  - destruct o as [e|].
    + wp_line. eapply wpf_read_queue; [exact Hok2|apply getpri_spec; apply elem_known; [apply Hok2|done]|]. intros d _.
      eapply wpf_mono; [by apply arm_spec|]. intros [] c3 (r' & -> & Hok3 & _). eauto.
    + eapply wpf_mono; [by apply device_timeout_spec|]. intros [] c3 (r' & -> & Hok3 & _). eauto.
  - intros [] c3 (r' & -> & Hok3). wp_line. split; [done|]. split; [by simpl; rewrite X8|].
    exists now, r, fired, ts, q', l'. split; [done|]. split; [destruct Hok3; by split|]. done.
Qed.

(** ** Runs *)

(** A driver that was just started, before its first timeout. *)
Definition clock0 : clock := Clock (Regs 0 0 0 0 0 100 []) false None None 0 false ∅ 1 [] [] [].
Definition state_of {A} (o : outcome (A * clock)) : clock := match o with Ok (_, c) => c | Fault _ => clock0 end.
Definition started : clock := state_of (start_timer clock0).
Definition queue0 : Pqueue.pqueue_t := Pqueue.Q 1 11 11 ∅ Pqueue.Store ∅.

Lemma started_ok : clock_ok started queue0 (replicate 10 0).
Proof.
  split; try (vm_compute; done).
  - split; [split|]; try (vm_compute; done); [split|..]; unfold Pqueue.inj_on, Pqueue.heap; intros; simpl in *; lia.
  - intros i h Hi Hh. apply lookup_replicate in Hi as [-> _]. done.
  - intros h (k & Hk & _). simpl in Hk. lia.
  - split; [by vm_compute|]. intros h [x Hx]. cbn in Hx. by rewrite lookup_empty in Hx.
Qed.

Lemma register_timer_correct_witness :
  exists c' now, register_timer 500 7 8 started = Ok (0, c') /\ 0 ≤ now.
Proof.
  destruct (wpf_value _ _ _ _ 0 (register_timer_correct 500 7 8 started queue0 (replicate 10 0) started_ok eq_refl ltac:(done)))
    as (c' & Hc & now & Hnow & _); [by vm_compute|].
  exists c', now. split; [exact Hc|lia].
Defined.

(** Three timeouts fire by deadline, and the fourth is left. *)
Definition later (d : Z) (c : clock) : clock := set_hw (Regs (mux (hw c)) 0 0 0 0 (counter (hw c)) [d]) c.
Definition four : clock := state_of ((register_timer 300 1 0;; register_timer 100 2 0;; register_timer 200 3 0;;
  register_timer 9000 4 0) started).
Lemma irq_run :
  match timer_irq (fun _ _ _ => mret tt) 5 9 (later 1000 four) with
  | Ok (rc, c) => rc = 0 /\ (callback <$> calls c) = [1; 3; 2] /\ (Pqueue.qsize <$> timeouts_queue c) = Some 2
  | Fault _ => False
  end.
Proof. by vm_compute. Qed.

(** The four timeouts are in order, and three of them are due. *)
Lemma register_ok delay cb c q l :
  clock_ok c q l -> mallocs c = [] -> 0 ≤ delay < 2 ^ 64 -> exists q' l', clock_ok (state_of (register_timer delay cb 0 c)) q' l'.
Proof.
  intros Hok Hm Hd. destruct (wp_inv _ _ _ (register_timer_correct delay cb 0 c q l Hok Hm Hd)) as (r & c' & Hr & now & _ & Hc).
  rewrite Hr. simpl. case_bool_decide; [destruct Hc; eauto|]. destruct Hc as (h & q' & l' & [Hc _ _ _ _ _] & _). eauto.
Qed.
Lemma later_ok d c q l : clock_ok c q l -> clock_ok (later d c) q l.
Proof. intros Hok. apply clock_ok_hw; [done|]. apply Hok. Qed.
Lemma four_ok : exists q l, clock_ok (later 1000 four) q l /\ Pqueue.qsize q = 5.
Proof.
  destruct (register_ok 300 1 started queue0 (replicate 10 0) started_ok) as (q1 & l1 & H1); [by vm_compute|lia|].
  destruct (register_ok 100 2 _ q1 l1 H1) as (q2 & l2 & H2); [by vm_compute|lia|].
  destruct (register_ok 200 3 _ q2 l2 H2) as (q3 & l3 & H3); [by vm_compute|lia|].
  destruct (register_ok 9000 4 _ q3 l3 H3) as (q4 & l4 & H4); [by vm_compute|lia|].
  assert (Hf : state_of (register_timer 9000 4 0 (state_of (register_timer 200 3 0 (state_of (register_timer 100 2 0
    (state_of (register_timer 300 1 0 started))))))) = four) by (vm_compute; reflexivity).
  rewrite Hf in H4. exists q4, l4. split.
  - by apply later_ok.
  - pose proof (ck_q _ _ _ H4) as Hq. vm_compute in Hq. by injection Hq as <-.
Qed.
Lemma timer_irq_correct_witness :
  exists c' q fired, timer_irq (fun _ _ _ => mret tt) 5 9 (later 1000 four) = Ok (CLOCK_R_OK, c') /\ acks c' = [9] /\
    timeouts_queue (later 1000 four) = Some q /\ length fired = 3%nat /\
    StronglySorted (fun a b => Pqueue.prio q a ≤ Pqueue.prio q b) fired /\ (forall h, h ∈ fired -> Pqueue.elem q h).
Proof.
  destruct four_ok as (q & l & Hok & Hs).
  destruct (wpf_value _ _ _ _ CLOCK_R_OK (timer_irq_correct (fun _ _ _ => mret tt) 5 9 (later 1000 four) q l
    (fun _ _ _ c => wpf_ret _ tt _ c eq_refl) Hok ltac:(rewrite Hs; simpl; lia)))
    as (c' & Hc & _ & Ha & now & r & fired & ts & q' & l' & _ & _ & _ & _ & Hf & Hsort & Hts & Hcalls); [by vm_compute|].
  exists c', q, fired. split; [exact Hc|]. split; [rewrite Ha; vm_compute; reflexivity|]. split; [exact (ck_q _ _ _ Hok)|].
  split; [|split; [exact Hsort|by intros h [? _]%Hf]]. rewrite (Forall2_length _ _ _ Hts).
  assert (Hl : length (calls c') = 3%nat) by (vm_compute in Hc; by injection Hc as <-).
  rewrite Hcalls, length_app, length_rev in Hl. assert (Hz : length (calls (later 1000 four)) = 0%nat) by (vm_compute; reflexivity). lia.
Defined.

(** The first timeout gets id 0, which the interface reserves for failure; a
    rejected delay returns the largest 32-bit number. *)
Lemma register_ids :
  value_of (register_timer 500 7 8 started) = Some 0 /\
  value_of (register_timer (2 ^ 64 - 1) 7 8 (later 1000 started)) = Some (2 ^ 32 - 1).
Proof. by vm_compute. Qed.

(** A callback that removes its own timeout makes [timer_irq] read it after it
    was freed. *)
Lemma self_removal_faults :
  timer_irq (fun _ i _ => remove_timer i;; mret tt) 5 9 (later 1000 four) = Fault NullDeref.
Proof. by vm_compute. Qed.

(** When the array of timeouts cannot grow, its pointer is overwritten with
    NULL, and the next registration reads through it. *)
Definition ten : clock :=
  state_of ((iterM (fun _ => register_timer 500 1 0;; mret tt) (seqZ 0 10)) started).
Lemma failed_realloc_loses_array :
  match register_timer 500 1 0 (set_heap (fresh ten) [true; false] ten) with
  | Ok (r, c) => r = 2 ^ 32 - 1 /\ register_timer 500 1 0 c = Fault NullDeref
  | Fault _ => False
  end.
Proof. by vm_compute. Qed.

(** Stopping removes every timeout; the driver can be started again. *)
Lemma stop_run :
  match (stop_timer;; start_timer) four with
  | Ok (rc, c) => rc = CLOCK_R_OK /\ infos c = ∅ /\ timer_running c = true
  | Fault _ => False
  end.
Proof. by vm_compute. Qed.
