(* ===== verification/Irq.v ===== *)
(** * Interrupt dispatch

    Models [sos/src/irq.c] over the capability spaces of [Cspace]: a bit of the
    badge per interrupt, its handler and notification capabilities, and the
    dispatch of a badge to the registered callbacks.  A callback is a parameter
    that returns an error code; [called] records the interrupts dispatched. *)

From S2P Require Import Prelude Arith Bitfield Kernel Cspace CspaceSafety CspaceDemo.

Definition EINVAL : Z := 22.
Definition ENOMEM : Z := 12.
Definition VIRTUAL_UART_RECV_IRQ : Z := 0xfff.

(** [callback] is [None] for NULL. *)
Record irq_handler_t := Handler {
  irq : Z; irq_handler : Z; notification : Z; callback : option Z; data : Z;
}.
Definition no_handler : irq_handler_t := Handler 0 0 0 None 0.

Section irq.
Context {E : Type} `{!CspaceEnv E}.

(** [irq_dispatch], [irq_handlers] and the world. *)
Record dispatch := Dispatch {
  irq_control : Z;
  ntfn : Z;
  cspace : Z;
  flag_bits : Z;
  ident_bits : Z;
  allocated_bits : Z;
  irq_handlers : gmap Z irq_handler_t;
  wd : world E;
  called : list Z;
}.
Definition set_wd v d := Dispatch (irq_control d) (ntfn d) (cspace d) (flag_bits d) (ident_bits d) (allocated_bits d)
  (irq_handlers d) v (called d).
Definition set_allocated v d := Dispatch (irq_control d) (ntfn d) (cspace d) (flag_bits d) (ident_bits d) v
  (irq_handlers d) (wd d) (called d).
Definition set_handlers v d := Dispatch (irq_control d) (ntfn d) (cspace d) (flag_bits d) (ident_bits d) (allocated_bits d)
  v (wd d) (called d).
Definition in_world {A} (m : M (world E) A) : M dispatch A := zoom wd set_wd m.

(** [BIT(64)] shifts by the width of the type. *)
Definition bit64 (n : Z) : M dispatch Z := if bool_decide (n < 64) then mret (BIT n) else throw Undefined.

Definition alloc_irq_bit : M dispatch Z :=
  d ← get;
  bit ← access (bf_first_free [allocated_bits d]);
  b ← bit64 bit;
  modify (set_allocated (Z.lor (allocated_bits d) b));;
  mret bit.

Definition free_irq_bit (bit : Z) : M dispatch unit :=
  b ← bit64 bit;
  modify (fun d => set_allocated (Z.land (allocated_bits d) (not64 b)) d).

Definition sos_init_irq_dispatch (cs ctl n flags ident : Z) : M dispatch unit :=
  cassert (bool_decide (Z.land flags ident = 0));;
  modify (fun d => Dispatch ctl n cs flags ident (not64 ident) (irq_handlers d) (wd d) (called d)).

(** The error exits of [sos_register_irq_handler]. *)
Definition free_slot (slot : Z) : M dispatch unit := d ← get; in_world (cspace_free_slot (cspace d) slot).
Definition delete_cap (slot : Z) : M dispatch unit := d ← get; in_world (cspace_delete (cspace d) slot);; mret tt.

(** The calls that make the two capabilities, and their undoing. *)
Definition set_up (i trigger handler_cptr notification_cptr ident_bit : Z) : M dispatch Z :=
  d ← get;
  err ← in_world (cspace_irq_control_get (cspace d) handler_cptr (irq_control d) i trigger);
  if bool_decide (err ≠ 0) then
    free_slot handler_cptr;; free_slot notification_cptr;; free_irq_bit ident_bit;; mret err
  else
    b ← bit64 ident_bit;
    let badge := Z.lor (flag_bits d) b in
    err ← in_world (cspace_mint (cspace d) notification_cptr (cspace d) (ntfn d) seL4_CanWrite badge);
    if bool_decide (err ≠ 0) then
      delete_cap handler_cptr;; free_slot handler_cptr;; free_slot notification_cptr;; free_irq_bit ident_bit;; mret err
    else
      err ← in_world (kernel (IRQHandler_SetNotification handler_cptr notification_cptr));
      if bool_decide (err ≠ 0) then
        delete_cap notification_cptr;; delete_cap handler_cptr;;
        free_slot handler_cptr;; free_slot notification_cptr;; free_irq_bit ident_bit;; mret err
      else mret 0.

(** [out] tells whether the caller passed an [irq_handler] to write to; the
    result is the error and the value written there. *)
Definition sos_register_irq_handler (i : Z) (edge_triggered : bool) (cb : option Z) (arg : Z) (out : bool)
    : M dispatch (Z * option Z) :=
  if bool_decide (i = VIRTUAL_UART_RECV_IRQ) then mret (EINVAL, None)
  else
    ident_bit ← alloc_irq_bit;
    if bool_decide (seL4_BadgeBits ≤ ident_bit) then mret (ENOMEM, None)
    else
      d ← get;
      handler_cptr ← in_world (cspace_alloc_slot (cspace d));
      if bool_decide (handler_cptr = 0) then free_irq_bit ident_bit;; mret (ENOMEM, None)
      else
        notification_cptr ← in_world (cspace_alloc_slot (cspace d));
        if bool_decide (notification_cptr = 0) then
          free_slot handler_cptr;; free_irq_bit ident_bit;; mret (ENOMEM, None)
        else
          err ← set_up i (if edge_triggered then 1 else 0) handler_cptr notification_cptr ident_bit;
          if bool_decide (err ≠ 0) then mret (err, None)
          else
            modify (fun d => set_handlers (<[ident_bit := Handler i handler_cptr notification_cptr cb arg]> (irq_handlers d)) d);;
            mret (0, if out then Some handler_cptr else None).

Section handle.
(** A callback, called with its data, interrupt and handler. *)
Context (run : Z -> Z -> Z -> Z -> M dispatch Z).

Definition dispatch_irq (h : irq_handler_t) : M dispatch Z :=
  modify (fun d => Dispatch (irq_control d) (ntfn d) (cspace d) (flag_bits d) (ident_bits d) (allocated_bits d)
    (irq_handlers d) (wd d) (irq h :: called d));;
  match callback h with
  | Some f => run f (data h) (irq h) (irq_handler h)
  | None => mret (-1)
  end.

(** The loop over the bits; it returns the error and the badge left.  A round
    clears a bit of [unchecked], so 65 tests of the condition are enough. *)
Fixpoint handle_loop (fuel : nat) (badge unchecked : Z) : M dispatch (Z * Z) :=
  match fuel with
  | O => throw OutOfFuel
  | S fuel =>
    if bool_decide (unchecked = 0) then mret (0, badge)
    else
      bit ← access (CTZL unchecked);
      d ← get;
      err ← dispatch_irq (default no_handler (irq_handlers d !! bit));
      if bool_decide (err ≠ 0) then mret (err, badge)
      else
        b ← bit64 bit;
        let badge := Z.land badge (not64 b) in
        handle_loop fuel badge (Z.land unchecked badge)
  end.

(** The error, the badge and [have_reply] left. *)
Definition sos_handle_irq_notification (badge : Z) (have_reply : bool) : M dispatch (Z * Z * bool) :=
  d ← get;
  r ← handle_loop 65 badge (Z.land (Z.land badge (allocated_bits d)) (ident_bits d));
  mret (r, if bool_decide (r.1 ≠ 0) then have_reply else false).
End handle.
End irq.
Arguments dispatch E : clear implicits.

(** ** Bits *)

Lemma word_first_free a :
  is_w64 a -> a ≠ ULONG_MAX -> exists n, bf_first_free [a] = Some n /\ 0 ≤ n < 64 /\ Z.testbit a n = false.
Proof.
  intros Ha Hne. destruct (complement_ctz a Ha Hne) as (n & Hn & Hr & Ht & _). exists n. split; [|done].
  unfold bf_first_free. cbn [full_words]. rewrite bool_decide_eq_false_2 by done. cbn. by rewrite Hn.
Qed.
Lemma not64_BIT_testbit n i : 0 ≤ n -> 0 ≤ i < 64 -> Z.testbit (not64 (BIT n)) i = negb (bool_decide (i = n)).
Proof.
  intros Hn Hi. unfold not64. replace (2 ^ 64 - 1 - BIT n) with (Z.lnot (BIT n) + 1 * 2 ^ 64) by (unfold Z.lnot; lia).
  rewrite <- (Z.mod_pow2_bits_low _ 64 i), Z.mod_add, Z.mod_pow2_bits_low, Z.lnot_spec, BIT_testbit by lia. done.
Qed.
(** Clearing a bit of a word. *)
Lemma clear_bit_testbit a n i : is_w64 a -> 0 ≤ n < 64 -> 0 ≤ i ->
  Z.testbit (Z.land a (not64 (BIT n))) i = Z.testbit a i && negb (bool_decide (i = n)).
Proof.
  intros Ha Hn Hi. rewrite Z.land_spec. destruct (decide (i < 64)); [by rewrite not64_BIT_testbit by lia|].
  apply is_w64_testbit in Ha as [_ Ha]. by rewrite Ha by lia.
Qed.
Lemma land_w64 a b : is_w64 a -> is_w64 (Z.land a b).
Proof.
  rewrite !is_w64_testbit. intros [H0 Ha]. split; [apply Z.land_nonneg; auto|].
  intros i Hi. by rewrite Z.land_spec, Ha.
Qed.
Lemma BIT_w64 n : 0 ≤ n < 64 -> is_w64 (BIT n).
Proof. intros Hn. unfold is_w64. rewrite BIT_pow by lia. pose proof (pow2_le n Hn). lia. Qed.
(** Setting a clear bit and clearing it again. *)
Lemma set_clear_bit a n : is_w64 a -> 0 ≤ n < 64 -> Z.testbit a n = false ->
  Z.land (Z.lor a (BIT n)) (not64 (BIT n)) = a.
Proof.
  intros Ha Hn Ht. apply Z.bits_inj'. intros i Hi.
  rewrite clear_bit_testbit, Z.lor_spec, BIT_testbit by (try apply lor_w64; try apply BIT_w64; lia || done).
  case_bool_decide; [subst; by rewrite Ht|]. by rewrite orb_false_r, andb_true_r.
Qed.

(** ** Registration *)

Section register.
Context (F : fault -> Prop) {E : Type} `{!CspaceEnv E} (I : gset Z -> E -> Prop) `{!CspaceLaws F E I} (H : gset Z).
Implicit Types (d : dispatch E) (c : cspace_t).

(** The space of [d] is [c], and is well formed. *)
Definition has_space d c : Prop := spaces (wd d) !! cspace d = Some c /\ I H (env (wd d)) /\ space_ok c.

Lemma has_space_wd d w' c : spaces w' !! cspace d = Some c -> I H (env w') -> space_ok c -> has_space (set_wd w' d) c.
Proof. done. Qed.

Lemma in_alloc d c :
  has_space d c -> wpf F (in_world (cspace_alloc_slot (cspace d))) (fun r d' => exists w' c',
    d' = set_wd w' d /\ has_space d' c' /\ same_space c c' /\
    (allocated c r c' \/ r = 0 /\ forall k, taken c' k <-> taken c k)) d.
Proof.
  intros (Hc & HI & Hok). unfold in_world. wp_line. eapply wpf_mono; [by apply (alloc_slot_spec F I H)|].
  intros r w' (c' & e & -> & He & Hok' & Hs & Hcase). exists (put_space (wd d) (cspace d) c' e), c'.
  split; [done|]. split; [split; [apply lookup_insert_eq|done]|]. split; [done|]. tauto.
Qed.
Lemma in_free d c k :
  has_space d c -> 0 < k < slots c -> wpf F (free_slot k) (fun _ d' => exists w' c',
    d' = set_wd w' d /\ has_space d' c' /\ same_space c c' /\ forall x, taken c' x <-> x ≠ k /\ taken c x) d.
Proof.
  intros (Hc & HI & Hok) Hk. unfold free_slot, in_world. wp_line. eapply wpf_mono; [by apply free_slot_spec|].
  intros [] w' (c' & -> & Hok' & Hs & _ & Ht). exists (put_space (wd d) (cspace d) c' (env (wd d))), c'.
  split; [done|]. split; [split; [apply lookup_insert_eq|done]|]. done.
Qed.
(** A call of the kernel keeps the space. *)
Lemma in_kernel {A} (m : M (world E) A) d c (Q : A -> dispatch E -> Prop) :
  has_space d c -> (forall (Q' : A -> world E -> Prop),
    (forall a e, I H e -> Q' a (World (spaces (wd d)) e)) -> wpf F m Q' (wd d)) ->
  (forall a w', has_space (set_wd w' d) c -> Q a (set_wd w' d)) -> wpf F (in_world m) Q d.
Proof.
  intros (Hc & HI & Hok) Hm HQ. unfold in_world. wp_line. apply Hm. intros a e He. by apply HQ.
Qed.

(** The state after a failed registration: the bit and both slots are free. *)
Definition undone d c (a h n : Z) (d' : dispatch E) : Prop := exists w' c', d' = set_wd w' (set_allocated a d) /\
  has_space d' c' /\ same_space c c' /\ forall x, taken c' x <-> x ≠ h /\ x ≠ n /\ taken c x.

Lemma free_bit_spec d a b (Q : unit -> dispatch E -> Prop) :
  is_w64 a -> 0 ≤ b < 64 -> Z.testbit a b = false -> allocated_bits d = Z.lor a (BIT b) ->
  Q tt (set_allocated a d) -> wpf F (free_irq_bit b) Q d.
Proof.
  intros Ha Hb Ht Hal HQ. unfold free_irq_bit, bit64. rewrite bool_decide_eq_true_2 by lia. wp_line.
  by rewrite Hal, set_clear_bit.
Qed.

Lemma undo_spec d c a b h n (err : Z) :
  has_space d c -> is_w64 a -> 0 ≤ b < 64 -> Z.testbit a b = false -> allocated_bits d = Z.lor a (BIT b) ->
  0 < h < slots c -> 0 < n < slots c ->
  wpf F (free_slot h;; free_slot n;; free_irq_bit b;; mret err) (fun r d' => r = err /\ undone d c a h n d') d.
Proof.
  intros Hs Ha Hb Ht Hal Hh Hn. wp_line. eapply wpf_mono; [by apply in_free|].
  intros [] d1 (w1 & c1 & -> & Hs1 & Hss1 & Ht1). wp_line.
  eapply wpf_mono; [apply in_free; [done|]|]; [by rewrite (same_slots _ _ Hss1)|].
  intros [] d2 (w2 & c2 & -> & Hs2 & Hss2 & Ht2). wp_line.
  eapply (free_bit_spec _ a); [done..|]. wp_line. split; [done|]. exists w2, c2. split; [done|]. split; [done|].
  split; [by transitivity c1|]. intros x. rewrite Ht2, Ht1. tauto.
Qed.

Lemma delete_spec d c s (Q : unit -> dispatch E -> Prop) :
  has_space d c -> (forall w', has_space (set_wd w' d) c -> Q tt (set_wd w' d)) -> wpf F (delete_cap s) Q d.
Proof.
  intros Hs HQ. unfold delete_cap. wp_line. eapply in_kernel; [done| |].
  - intros Q' HQ'. destruct Hs as (Hc & HI & _). by eapply (wpf_delete F I H).
  - intros x w' Hw. wp_line. by apply HQ.
Qed.
Lemma undone_wd d w c a h n d' : undone (set_wd w d) c a h n d' -> undone d c a h n d'.
Proof. intros (w' & c' & -> & ?). by exists w', c'. Qed.

Lemma set_up_spec d c i tr h n a b :
  has_space d c -> is_w64 a -> 0 ≤ b < 64 -> Z.testbit a b = false -> allocated_bits d = Z.lor a (BIT b) ->
  0 < h < slots c -> 0 < n < slots c ->
  wpf F (set_up i tr h n b) (fun r d' =>
    if bool_decide (r = 0) then exists w', d' = set_wd w' d /\ has_space d' c else undone d c a h n d') d.
Proof.
  intros Hs Ha Hb Ht Hal Hh Hn. pose proof Hs as (Hc & HI & Hok). unfold set_up. wp_line.
  assert (Hundo : forall w (err : Z), has_space (set_wd w d) c -> err ≠ 0 ->
    wpf F (free_slot h;; free_slot n;; free_irq_bit b;; mret err) (fun r d' =>
      if bool_decide (r = 0) then exists w', d' = set_wd w' d /\ has_space d' c else undone d c a h n d') (set_wd w d)).
  { intros w err Hw He. eapply wpf_mono; [by apply undo_spec|]. intros r d' [-> Hu].
    rewrite bool_decide_eq_false_2 by done. by eapply undone_wd. }
  eapply in_kernel; [done| |].
  { intros Q' HQ'. unfold cspace_irq_control_get. wp_line. eapply wpf_cs; [done|]. by apply (wpf_kernel F I H). }
  intros err w1 Hw1. case_bool_decide as He1; [by apply Hundo|]. unfold bit64. rewrite bool_decide_eq_true_2 by lia. wp_line.
  eapply (in_kernel _ (set_wd w1 d)); [done| |].
  { intros Q' HQ'. destruct Hw1 as (Hc1 & HI1 & _). unfold cspace_mint. wp_line. eapply wpf_cs; [done|]. wp_line.
    eapply wpf_cs; [done|]. by apply (wpf_kernel F I H). }
  intros err2 w2 Hw2. change (set_wd w2 (set_wd w1 d)) with (set_wd w2 d) in *. case_bool_decide as He2.
  { wp_line. eapply delete_spec; [done|]. intros w3 Hw3. by apply Hundo. }
  wp_line. eapply (in_kernel _ (set_wd w2 d)); [done| |].
  { intros Q' HQ'. destruct Hw2 as (_ & HI2 & _). by apply (wpf_kernel F I H). }
  intros err3 w3 Hw3. change (set_wd w3 (set_wd w2 d)) with (set_wd w3 d) in *. case_bool_decide as He3; wp_line.
  - eapply delete_spec; [done|]. intros w4 Hw4. wp_line. change (set_wd w4 (set_wd w3 d)) with (set_wd w4 d) in *.
    eapply delete_spec; [done|]. intros w5 Hw5. by apply Hundo.
  - rewrite bool_decide_eq_true_2 by done. by exists w3.
Qed.

(** What an allocation gives the interrupt code: [r] and the reserve [R]. *)
Lemma allocated_cases c r c' :
  allocated c r c' \/ r = 0 /\ (forall k, taken c' k <-> taken c k) -> taken c 0 ->
  if bool_decide (r = 0) then forall k, taken c' k <-> taken c k
  else 0 < r < slots c /\ ~ taken c r /\ exists R, (forall k, taken c' k <-> k = r \/ taken c k \/ k ∈ R) /\
    (forall k, k ∈ R -> ~ taken c k /\ k ≠ r) /\ (two_level c = false -> R = []).
Proof.
  intros [[Hr Hn (R & H1 & H2 & H3)]|[-> Ht]] H0; [|by rewrite bool_decide_eq_true_2].
  assert (r ≠ 0) by (by intros ->). rewrite bool_decide_eq_false_2 by done. split; [lia|]. split; [done|].
  exists R. split_and!; [done| |done]. intros k Hk. destruct (H2 k Hk) as (? & ? & _). done.
Qed.

(** [sos_register_irq_handler], as long as a badge bit is free, either records the
    interrupt under a bit that was free, with two distinct slots that were free, or returns
    an error with the bit, the slots and the table as before; in both cases only the
    space's own reserve [R] may take further slots, and in a one-level space none. *)
Theorem sos_register_irq_handler_correct (d : dispatch E) (c : cspace_t) (i : Z) (edge : bool) (cb : option Z) (arg : Z) (out : bool) :
  has_space d c -> taken c 0 -> is_w64 (allocated_bits d) -> allocated_bits d ≠ ULONG_MAX ->
  wpf F (sos_register_irq_handler i edge cb arg out) (fun r d' => exists w' c' R,
    has_space d' c' /\ (forall k, k ∈ R -> ~ taken c k) /\ (two_level c = false -> R = []) /\
    if bool_decide (r.1 = 0) then exists b h n, r.2 = (if out then Some h else None) /\ 0 ≤ b < 64 /\ Z.testbit (allocated_bits d) b = false /\
      d' = set_wd w' (set_handlers (<[b := Handler i h n cb arg]> (irq_handlers d))
             (set_allocated (Z.lor (allocated_bits d) (BIT b)) d)) /\
      h ≠ n /\ ~ taken c h /\ ~ taken c n /\ (forall k, taken c' k <-> k = h \/ k = n \/ taken c k \/ k ∈ R)
    else d' = set_wd w' d /\ forall k, taken c' k <-> taken c k \/ k ∈ R) d.
Proof.
  intros Hs H0 Ha Hfree. unfold sos_register_irq_handler. case_bool_decide as Hi; wp_line.
  { exists (wd d), c, []. split_and!; [done|by intros ? ?%elem_of_nil|done|]. split; [by destruct d|].
    intros k. rewrite elem_of_nil. tauto. }
  destruct (word_first_free _ Ha Hfree) as (b & Hb & Hbr & Hbt). unfold alloc_irq_bit. wp_line.
  eapply wpf_access; [exact Hb|]. unfold bit64. rewrite bool_decide_eq_true_2 by lia. wp_line.
  rewrite bool_decide_eq_false_2 by (unfold seL4_BadgeBits; lia). wp_line.
  set (a := allocated_bits d) in *. set (d1 := set_allocated (Z.lor a (BIT b)) d).
  assert (Hback : forall w, set_wd w (set_allocated a d1) = set_wd w d) by (intros; by destruct d).
  eapply wpf_mono; [by apply (in_alloc d1 c)|]. intros h d2 (w2 & c2 & -> & Hs2 & Hss2 & Hal).
  pose proof (allocated_cases c h c2 Hal H0) as Hh. destruct (bool_decide (h = 0)) eqn:Hh0; bd; wp_line.
  { eapply (free_bit_spec _ a); [done..|]. wp_line. exists w2, c2, [].
    split_and!; [done|by intros ? ?%elem_of_nil|done|]. split; [by destruct d|]. intros k. rewrite elem_of_nil, Hh. tauto. }
  destruct Hh as (Hhr & Hhn & R1 & HR1 & HR1' & HR1'').
  eapply wpf_mono; [by apply (in_alloc (set_wd w2 d1) c2)|]. intros n d3 (w3 & c3 & -> & Hs3 & Hss3 & Hal2).
  assert (H02 : taken c2 0) by (apply HR1; tauto).
  pose proof (allocated_cases c2 n c3 Hal2 H02) as Hn. rewrite (ss_two _ _ Hss2), (same_slots _ _ Hss2) in Hn.
  destruct (bool_decide (n = 0)) eqn:Hn0; bd; wp_line.
  { eapply wpf_mono; [apply (in_free _ c3); [exact Hs3|by rewrite (same_slots _ _ Hss3), (same_slots _ _ Hss2)]|].
    intros [] d4 (w4 & c4 & -> & Hs4 & _ & Ht4). wp_line. eapply (free_bit_spec _ a); [done..|]. wp_line.
    exists w4, c4, R1. split_and!; [done|intros k Hk; by apply HR1'|done|]. split; [by destruct d|]. intros k.
    rewrite Ht4, Hn, HR1. split; [naive_solver|]. intros [Hk|Hk]; (split; [|tauto]); intros ->; [done|]. by destruct (HR1' h Hk). }
  destruct Hn as (Hnr & Hnn & R2 & HR2 & HR2' & HR2'').
  assert (Hsl : slots c3 = slots c) by (by rewrite (same_slots _ _ Hss3), (same_slots _ _ Hss2)).
  assert (Hhn' : h ≠ n) by (intros ->; apply Hnn, HR1; tauto).
  assert (Hnc : ~ taken c n) by (intros Hc; apply Hnn, HR1; tauto).
  assert (Hc3 : forall k, taken c3 k <-> k = h \/ k = n \/ taken c k \/ k ∈ R1 ++ R2).
  { intros k. rewrite HR2, HR1, elem_of_app. tauto. }
  assert (HR : forall k, k ∈ R1 ++ R2 -> ~ taken c k /\ k ≠ h /\ k ≠ n).
  { intros k [Hk|Hk]%elem_of_app.
    - destruct (HR1' k Hk). split_and!; try done. intros ->. apply Hnn, HR1. tauto.
    - destruct (HR2' k Hk) as [Hk1 Hk2]. rewrite HR1 in Hk1. tauto. }
  eapply wpf_mono; [apply (set_up_spec (set_wd w3 d1) c3 _ _ h n a b); try done; by rewrite Hsl|].
  intros r d4 Hr. cbv beta in Hr. destruct (bool_decide (r = 0)) eqn:Hr0; bd.
  - destruct Hr as (w4 & -> & Hs4). rewrite bool_decide_eq_false_2 by naive_solver. wp_line.
    exists w4, c3, (R1 ++ R2). split; [exact Hs4|]. split; [intros k Hk; by apply HR|].
    split; [intros Ht; by rewrite HR1'', HR2''|]. exists b, h, n. split_and!; try done; lia.
  - destruct Hr as (w4 & c4 & -> & Hs4 & _ & Ht4). rewrite bool_decide_eq_true_2 by done. wp_line.
    exists w4, c4, (R1 ++ R2). split; [exact Hs4|]. split; [intros k Hk; by apply HR|].
    split; [intros Ht; by rewrite HR1'', HR2''|]. rewrite bool_decide_eq_false_2 by done.
    split; [by destruct d|]. intros k. rewrite Ht4, Hc3. split; [tauto|].
    intros [Hk|Hk]; [split; [by intros ->|split; [by intros ->|tauto]]|]. destruct (HR k Hk) as (_ & ? & ?). tauto.
Qed.
End register.

(** ** Dispatch *)

(** The bits set in a word, in ascending order. *)
Definition bits_of (u : Z) : list Z := filter (fun n => Z.testbit u n = true) (seqZ 0 64).

Lemma filter_ext (P Q : Z -> Prop) `{!forall x, Decision (P x), !forall x, Decision (Q x)} m n :
  (forall i, m ≤ i < m + n -> P i <-> Q i) -> filter P (seqZ m n) = filter Q (seqZ m n).
Proof.
  intros Hpq. assert (Hl : forall i, i ∈ seqZ m n -> P i <-> Q i) by (intros i Hi%elem_of_seqZ; auto). clear Hpq.
  induction (seqZ m n) as [|x l IH]; [done|]. rewrite !filter_cons, IH by (intros; apply Hl; by right).
  assert (P x <-> Q x) by (apply Hl; by left). repeat case_decide; tauto || done.
Qed.
Lemma bits_of_ctz u : is_w64 u -> u ≠ 0 -> exists b, CTZL u = Some b /\ 0 ≤ b < 64 /\
  bits_of u = b :: bits_of (Z.land u (not64 (BIT b))).
Proof.
  intros Hu Hne. pose proof Hu as Hu'. apply is_w64_testbit in Hu' as [H0 Hhi].
  destruct (CTZL_spec u ltac:(lia)) as (b & Hb & Hb0 & Ht & Hlow). exists b. split; [done|].
  assert (b < 64) by (destruct (decide (b < 64)); [done|]; by rewrite Hhi in Ht by lia). split; [done|].
  assert (Hsplit : seqZ 0 64 = seqZ 0 b ++ b :: seqZ (b + 1) (63 - b)).
  { replace 64 with (b + (64 - b)) at 1 by lia. rewrite seqZ_app by lia. f_equal. rewrite seqZ_cons by lia. replace (0 + b) with b by lia. f_equal. f_equal; lia. }
  assert (Hnone : forall v, (forall i, 0 ≤ i < b -> Z.testbit v i = false) -> filter (fun n => Z.testbit v n = true) (seqZ 0 b) = []).
  { intros v Hv. apply elem_of_nil_inv. intros i [Hi1 Hi%elem_of_seqZ]%list_elem_of_filter. by rewrite Hv in Hi1 by lia. }
  unfold bits_of. rewrite Hsplit, !filter_app, !filter_cons.
  rewrite decide_True by done. rewrite (decide_False (P := Z.testbit (Z.land _ _) b = true)).
  2:{ rewrite clear_bit_testbit, bool_decide_eq_true_2, andb_false_r by (lia || done). done. }
  rewrite !Hnone; [|intros i Hi; rewrite clear_bit_testbit by (lia || done)..|done]; [|by rewrite Hlow by lia].
  cbn. f_equal. apply filter_ext. intros i Hi. rewrite clear_bit_testbit by (lia || done).
  rewrite bool_decide_eq_false_2, andb_true_r by lia. done.
Qed.

(** What a run of the loop over the bits [l] leaves: the handled bits are a
    prefix of [l] and are cleared from the badge; either all were handled, or
    the next one failed. *)
Definition handled_prefix {E} (d : dispatch E) (badge : Z) (l : list Z) (err badge' : Z) (d' : dispatch E) : Prop :=
  exists done rest, l = done ++ rest /\ is_w64 badge' /\ irq_handlers d' = irq_handlers d /\
    (forall n, 0 ≤ n -> Z.testbit badge' n = Z.testbit badge n && negb (bool_decide (n ∈ done))) /\
    let irq_of b := irq (default no_handler (irq_handlers d !! b)) in
    if bool_decide (err = 0) then rest = [] /\ called d' = rev (irq_of <$> l) ++ called d
    else exists b rest', rest = b :: rest' /\ called d' = irq_of b :: rev (irq_of <$> done) ++ called d.

Section handle_spec.
Context (F : fault -> Prop) {E : Type} (run : Z -> Z -> Z -> Z -> M (dispatch E) Z).
(** A callback returns, without registering a handler. *)
Context (Hrun : forall f a i h d, wpf F (run f a i h) (fun _ d' =>
  irq_handlers d' = irq_handlers d /\ called d' = called d) d).
Implicit Types (d : dispatch E).

Lemma dispatch_spec d h : wpf F (dispatch_irq run h) (fun _ d' =>
  irq_handlers d' = irq_handlers d /\ called d' = irq h :: called d) d.
Proof. unfold dispatch_irq. wp_line. destruct (callback h) as [f|]; [|by wp_line]. exact (Hrun _ _ _ _ _). Qed.

Lemma handle_loop_spec l : forall fuel d badge u,
  bits_of u = l -> (length l < fuel)%nat -> is_w64 u -> is_w64 badge -> Z.land u badge = u ->
  wpf F (handle_loop run fuel badge u) (fun r d' => handled_prefix d badge l r.1 r.2 d') d.
Proof.
  induction l as [|b l IH]; intros [|fuel] d badge u Hl Hf Hu Hb Hsub; try (cbn in Hf; lia); cbn [handle_loop].
  { case_bool_decide as H0; wp_line.
    - exists [], []. split_and!; try done. intros n _. by rewrite bool_decide_eq_false_2, andb_true_r by apply not_elem_of_nil.
    - destruct (bits_of_ctz u Hu H0) as (b & _ & _ & Hc). by rewrite Hl in Hc. }
  case_bool_decide as H0; [by subst u|]. destruct (bits_of_ctz u Hu H0) as (b' & Hc & Hbr & Hbits).
  rewrite Hl in Hbits. injection Hbits as <- Hbits. wp_line. eapply wpf_access; [exact Hc|]. wp_line.
  eapply wpf_mono; [apply dispatch_spec|]. intros err d1 [Hh1 Hc1]. case_bool_decide as He.
  { wp_line. exists [], (b :: l). split_and!; try done.
    - intros n _. by rewrite bool_decide_eq_false_2, andb_true_r by apply not_elem_of_nil.
    - cbv zeta. cbn. rewrite bool_decide_eq_false_2 by done. by exists b, l. }
  unfold bit64. rewrite bool_decide_eq_true_2 by lia. wp_line.
  assert (Hnb : is_w64 (Z.land badge (not64 (BIT b)))) by (by apply land_w64).
  eapply wpf_mono; [apply (IH fuel d1 (Z.land badge (not64 (BIT b))))|].
  - by rewrite Z.land_assoc, Hsub.
  - cbn in Hf. lia.
  - by apply land_w64.
  - done.
  - rewrite <- Z.land_assoc. f_equal. apply Z.land_diag.
  - intros [e bd'] d2 (dn & rest & -> & Hw & Hh & Hbt & Hcase). exists (b :: dn), rest. rewrite Hh1 in *. rewrite Hc1 in *.
    split; [done|]. split; [done|]. split; [done|]. split.
    { intros n Hn. cbn [fst snd] in *. rewrite Hbt, clear_bit_testbit by (lia || done). rewrite <- andb_assoc, <- negb_orb.
      do 2 f_equal. rewrite <- bool_decide_or. apply bool_decide_ext. by rewrite elem_of_cons. }
    cbv zeta in *. cbn [fst snd] in *. destruct (bool_decide (e = 0)).
    + destruct Hcase as [-> ->]. split; [done|]. cbn. by rewrite <- app_assoc.
    + destruct Hcase as (b' & rest' & -> & ->). exists b', rest'. split; [done|]. cbn. by rewrite <- app_assoc.
Qed.

Lemma bits_of_length u : (length (bits_of u) ≤ 64)%nat.
Proof. unfold bits_of. etrans; [apply length_filter|]. by rewrite length_seqZ. Qed.

(** [sos_handle_irq_notification] ends, and dispatches in ascending order the handlers of
    the allocated identifier bits of the badge, clearing each handled bit, up to the first
    handler that fails; only then the reply flag is kept. *)
Theorem sos_handle_irq_notification_correct d (badge : Z) (reply : bool) :
  is_w64 badge ->
  wpf F (sos_handle_irq_notification run badge reply) (fun r d' =>
    let '(err, badge', reply') := r in
    handled_prefix d badge (bits_of (Z.land (Z.land badge (allocated_bits d)) (ident_bits d))) err badge' d' /\
    reply' = (if bool_decide (err = 0) then false else reply)) d.
Proof.
  intros Hb. unfold sos_handle_irq_notification. wp_line. eapply wpf_mono; [apply handle_loop_spec; [done|..]|].
  - apply Nat.lt_succ_r, bits_of_length.
  - by apply land_w64, land_w64.
  - done.
  - apply Z.bits_inj'. intros i _. rewrite !Z.land_spec. by destruct (Z.testbit badge i), (Z.testbit (allocated_bits d) i), (Z.testbit (ident_bits d) i).
  - intros [e b'] d' Hp. wp_line. split; [done|]. cbn. by repeat case_bool_decide.
Qed.
End handle_spec.

(** ** Evaluated *)

(** Bits 0 to 3 identify interrupts; bit 0 is taken. *)
Definition irq0 (bits : Z) (codes : list Z) : dispatch demo :=
  Dispatch 5 6 1 (BIT 8) 15 bits {[0 := Handler 30 40 41 (Some 1) 0]}
    (World {[1 := one]} (Demo (Script [] codes 0) [] [] [])) [].

Lemma irq0_space codes : has_space demo_inv ∅ (irq0 (not64 14) codes) one.
Proof. split; [done|]. split; [|exact one_ok]. split; [constructor|set_solver]. Qed.

Lemma sos_register_irq_handler_correct_witness :
  exists d', sos_register_irq_handler 33 true (Some 2) 7 true (irq0 (not64 14) []) = Ok ((0, Some 3), d') /\
    exists c', has_space demo_inv ∅ d' c' /\ exists b, 0 ≤ b < 64 /\ Z.testbit (not64 14) b = false.
Proof.
  assert (H0 : taken one 0) by (apply (bool_decide_unpack (has [7; 0] 0)); by vm_compute).
  assert (Hw : is_w64 (not64 14)) by (by vm_compute).
  destruct (wpf_value _ _ _ _ (0, Some 3) (sos_register_irq_handler_correct (fun _ => False) demo_inv ∅
    (irq0 (not64 14) []) one 33 true (Some 2) 7 true (irq0_space []) H0 Hw ltac:(by vm_compute)))
    as (d' & Hd & w' & c' & R & Hs & _ & _ & Hb); [by vm_compute|].
  exists d'. split; [exact Hd|]. exists c'. split; [exact Hs|]. destruct Hb as (b & h & n & _ & Hb & Ht & _).
  exists b. split; [exact Hb|exact Ht].
Defined.

Lemma sos_handle_irq_notification_correct_witness :
  exists d', sos_handle_irq_notification (fun _ _ _ _ => mret 0) 259 true (irq0 (not64 14) []) = Ok ((0, 258, false), d') /\
    called d' = [30].
Proof.
  assert (Hrun : forall (f a i h : Z) (d : dispatch demo), wpf (fun _ => False) (mret 0 : M (dispatch demo) Z) (fun _ d' =>
    irq_handlers d' = irq_handlers d /\ called d' = called d) d) by (intros; by apply wpf_ret).
  destruct (wpf_value _ _ _ _ (0, 258, false) (sos_handle_irq_notification_correct (fun _ => False) (fun _ _ _ _ => mret 0)
    Hrun (irq0 (not64 14) []) 259 true ltac:(by vm_compute))) as (d' & Hd & Hp & _); [by vm_compute|].
  exists d'. split; [exact Hd|]. destruct Hp as (? & ? & _ & _ & _ & _ & _ & Hc). exact Hc.
Defined.

(** The last call of registration fails: the bit and both slots are free again. *)
Lemma failed_registration_run :
  match sos_register_irq_handler 33 true (Some 2) 7 true (irq0 (not64 14) [0; 0; 9]) with
  | Ok (r, d') => r = (9, None) /\ allocated_bits d' = not64 14 /\ spaces (wd d') !! 1 = Some one
  | Fault _ => False
  end.
Proof. by vm_compute. Qed.

(** With every bit taken the bit to set is bit 64: the shift is undefined before
    the test for exhaustion is reached. *)
Lemma exhausted_bits_undefined : sos_register_irq_handler 33 true (Some 2) 7 true (irq0 ULONG_MAX []) = Fault Undefined.
Proof. by vm_compute. Qed.
