(* ===== verification/Untyped.v ===== *)
(** * The table of untypeds

    Models the part of [sos/src/ut.c] and [ut.h] that works on the table alone:
    the nodes by address, the free list of every size, the spare structures,
    and the operations on 4K untypeds.  Splitting larger untypeds is in
    [UntypedAlloc]. *)

From S2P Require Import Prelude Arith Kernel.

(** The bit fields of [struct ut] are kept at their width by the writes. *)
Record ut_t := Ut { cap : Z; valid : bool; size_bits : Z; next : Z }.
Definition zero_ut : ut_t := Ut 0 false 0 0.
Definition sizeof_ut : Z := 16.
Record ut_region_t := Region { start : Z; stop : Z }.

Definition N_UNTYPED_LISTS : Z := seL4_PageBits - seL4_EndpointBits + 1.
Definition SIZE_BITS_TO_INDEX (x : Z) : Z := x - seL4_EndpointBits.

(** [ut_mem] is the memory that holds nodes; 0 is NULL. *)
Record ut_table_t := Table {
  ut_mem : gmap Z ut_t;
  first_paddr : Z;
  untypeds : Z;
  free_untypeds : list Z;
  n_4k_untyped : Z;
  free_structures : Z;
}.
Definition set_mem v t := Table v (first_paddr t) (untypeds t) (free_untypeds t) (n_4k_untyped t) (free_structures t).
Definition set_lists v t := Table (ut_mem t) (first_paddr t) (untypeds t) v (n_4k_untyped t) (free_structures t).
Definition set_n_4k v t := Table (ut_mem t) (first_paddr t) (untypeds t) (free_untypeds t) v (free_structures t).
Definition set_structures v t := Table (ut_mem t) (first_paddr t) (untypeds t) (free_untypeds t) (n_4k_untyped t) v.

Definition set_cap v n := Ut (v mod 2 ^ 20) (valid n) (size_bits n) (next n).
Definition set_valid v n := Ut (cap n) v (size_bits n) (next n).
Definition set_size_bits v n := Ut (cap n) (valid n) (v mod 2 ^ 4) (next n).
Definition set_next v n := Ut (cap n) (valid n) (size_bits n) v.

(** Read and update the node behind a pointer. *)
Definition load (p : Z) : M ut_table_t ut_t :=
  if bool_decide (p = 0) then throw NullDeref else t ← get; access (ut_mem t !! p).
Definition store (p : Z) (f : ut_t -> ut_t) : M ut_table_t unit :=
  n ← load p; modify (fun t => set_mem (<[p := f n]> (ut_mem t)) t).

(** [push] and [pop] return the new head; the callers store it. *)
Definition push (head new : Z) : M ut_table_t Z := store new (set_next head);; mret new.
Definition pop (head : Z) : M ut_table_t (Z * Z) := n ← load head; mret (head, next n).

(** The list heads, [&table.free_untypeds[i]]. *)
Definition list_head (i : Z) : M ut_table_t Z :=
  t ← get; access (if bool_decide (0 ≤ i) then free_untypeds t !! Z.to_nat i else None).
Definition set_list_head (i v : Z) : M ut_table_t unit :=
  modify (fun t => set_lists (<[Z.to_nat i := v]> (free_untypeds t)) t).
Definition push_list (i new : Z) : M ut_table_t unit := h ← list_head i; h ← push h new; set_list_head i h.
Definition pop_list (i : Z) : M ut_table_t Z := h ← list_head i; '(u, h) ← pop h; set_list_head i h;; mret u.
Definition push_structure (new : Z) : M ut_table_t unit :=
  t ← get; h ← push (free_structures t) new; modify (set_structures h).
Definition pop_structure : M ut_table_t Z :=
  t ← get; '(u, h) ← pop (free_structures t); modify (set_structures h);; mret u.

Definition ut_to_paddr (t : ut_table_t) (ut : Z) : Z := w64 ((ut - untypeds t) / sizeof_ut * PAGE_SIZE_4K + first_paddr t).
Definition paddr_to_ut (t : ut_table_t) (paddr : Z) : Z :=
  w64 (untypeds t + w64 (paddr - first_paddr t) / PAGE_SIZE_4K * sizeof_ut).

Definition ut_pages_for_region (region : ut_region_t) : Z :=
  BYTES_TO_4K_PAGES (w64 (w64 (stop region - start region) / PAGE_SIZE_4K * sizeof_ut)).

Definition ut_init (memory : Z) (region : ut_region_t) : M ut_table_t unit :=
  modify (fun t => Table (ut_mem t) (start region) memory (replicate (Z.to_nat N_UNTYPED_LISTS) 0)
    (n_4k_untyped t) (free_structures t)).

Definition ut_size : M ut_table_t Z := t ← get; mret (w64 (n_4k_untyped t * PAGE_SIZE_4K)).

Definition page_index : Z := SIZE_BITS_TO_INDEX seL4_PageBits.

Definition add_untyped (paddr cap : Z) (device : bool) (i : Z) : M ut_table_t unit :=
  t ← get;
  let node := paddr_to_ut t (w64 (paddr + i * PAGE_SIZE_4K)) in
  store node (set_cap (w64 (cap + i)));;
  store node (set_valid true);;
  when (negb device) (
    store node (set_size_bits seL4_PageBits);;
    push_list page_index node;;
    modify (fun t => set_n_4k (w64 (n_4k_untyped t + 1)) t)).
Definition ut_add_untyped_range (paddr cap n : Z) (device : bool) : M ut_table_t unit :=
  iterM (add_untyped paddr cap device) (seqZ 0 n).

(** The node and its physical address; [None] is NULL. *)
Definition ut_alloc_4k_untyped : M ut_table_t (option (Z * Z)) :=
  h ← list_head page_index;
  if bool_decide (h = 0) then mret None
  else
    n ← pop_list page_index;
    modify (fun t => set_n_4k (w64 (n_4k_untyped t - 1)) t);;
    t ← get;
    mret (Some (n, ut_to_paddr t n)).

Definition ut_free (node : Z) : M ut_table_t unit :=
  n ← load node;
  push_list (SIZE_BITS_TO_INDEX (size_bits n)) node.

Definition ut_alloc_4k_device (paddr : Z) : M ut_table_t (option Z) :=
  t ← get;
  let ut := paddr_to_ut t paddr in
  n ← load ut;
  if negb (valid n) then mret None else mret (Some ut).

(** ** The invariant

    [chain m h l]: the list that starts at [h] holds the nodes [l]. *)
Fixpoint chain (m : gmap Z ut_t) (h : Z) (l : list Z) : Prop :=
  match l with
  | [] => h = 0
  | x :: l => h = x /\ x ≠ 0 /\ exists n, m !! x = Some n /\ chain m (next n) l
  end.

(** The lists hold the nodes [ls], by size, and the spare structures [st]. *)
Record ut_rep (t : ut_table_t) (ls : list (list Z)) (st : list Z) : Prop := {
  rep_lists : Forall2 (chain (ut_mem t)) (free_untypeds t) ls;
  rep_len : length ls = 9%nat;
  rep_struct : chain (ut_mem t) (free_structures t) st;
  rep_nodup : NoDup (concat ls ++ st);
  rep_size : forall i l u, ls !! i = Some l -> u ∈ l -> exists n, ut_mem t !! u = Some n /\ size_bits n = Z.of_nat i + 4;
}.

(** The nodes [H] are out, and the nodes of [L] have the contents [L] says;
    neither are in a list. *)
Record ut_inv (L : gmap Z ut_t) (H : gset Z) (t : ut_table_t) : Prop := {
  inv_rep : exists ls st, ut_rep t ls st /\ forall u, u ∈ concat ls ++ st -> (u ∉ H) /\ L !! u = None;
  inv_kept : L ⊆ ut_mem t;
  inv_null : L !! 0 = None;
  inv_out : forall u, u ∈ H -> u ≠ 0 /\ L !! u = None /\
    exists n, ut_mem t !! u = Some n /\ 4 ≤ size_bits n ≤ 12;
}.

Lemma chain_insert m h l x n : x ∉ l -> chain (<[x := n]> m) h l <-> chain m h l.
Proof.
  revert h. induction l as [|y l IH]; intros h Hx; [done|]. apply not_elem_of_cons in Hx as [Hxy Hx]. cbn.
  rewrite lookup_insert_ne by done. split; intros (? & ? & k & Hk & Hc); (split; [done|]); (split; [done|]);
    exists k; (split; [done|]); by apply IH.
Qed.
Lemma chain_subseteq m m' h l : m ⊆ m' -> chain m h l -> chain m' h l.
Proof.
  intros Hm. revert h. induction l as [|y l IH]; intros h; [done|]. intros (? & ? & k & Hk & Hc).
  split; [done|]. split; [done|]. exists k. split; [by eapply lookup_weaken|auto].
Qed.
Lemma chain_nil m l : chain m 0 l -> l = [].
Proof. destruct l; [done|]. by intros (<- & ? & _). Qed.
Lemma chain_elem m h l x : chain m h l -> x ∈ l -> x ≠ 0 /\ is_Some (m !! x).
Proof.
  revert h. induction l as [|y l IH]; intros h Hc Hx; [by apply elem_of_nil in Hx|].
  destruct Hc as (? & ? & n & Hn & Hc). apply elem_of_cons in Hx as [->|Hx]; [eauto|by eapply IH].
Qed.
Lemma chain_push m h l x n :
  chain m h l -> x ≠ 0 -> x ∉ l -> chain (<[x := set_next h n]> m) x (x :: l).
Proof.
  intros Hc Hx Hn. split; [done|]. split; [done|]. eexists. split; [apply lookup_insert_eq|].
  by apply chain_insert.
Qed.
Lemma Forall2_chain_insert m hs ls x n :
  x ∉ concat ls -> Forall2 (chain m) hs ls -> Forall2 (chain (<[x := n]> m)) hs ls.
Proof.
  intros Hx. induction 1 as [|h l hs ls Hc _ IH]; [constructor|]. cbn in Hx. apply not_elem_of_app in Hx as [H1 H2].
  constructor; [by apply chain_insert|auto].
Qed.

(** ** Steps of the operations *)

Section steps.
Context (F : fault -> Prop).
Implicit Types (t : ut_table_t).

Lemma wpf_load p n (Q : ut_t -> ut_table_t -> Prop) t :
  p ≠ 0 -> ut_mem t !! p = Some n -> Q n t -> wpf F (load p) Q t.
Proof. intros Hp Hn HQ. unfold load. rewrite bool_decide_eq_false_2 by done. wp_line. by eapply wpf_access. Qed.
Lemma wpf_store p f n (Q : unit -> ut_table_t -> Prop) t :
  p ≠ 0 -> ut_mem t !! p = Some n -> Q tt (set_mem (<[p := f n]> (ut_mem t)) t) -> wpf F (store p f) Q t.
Proof. intros Hp Hn HQ. unfold store. wp_line. eapply wpf_load; [done..|]. by wp_line. Qed.
Lemma wpf_list_head i h (Q : Z -> ut_table_t -> Prop) t :
  free_untypeds t !! i = Some h -> Q h t -> wpf F (list_head (Z.of_nat i)) Q t.
Proof.
  intros Hh HQ. unfold list_head. wp_line. rewrite bool_decide_eq_true_2 by lia. rewrite Nat2Z.id.
  by eapply wpf_access.
Qed.
End steps.

Lemma concat_push {A} (ls : list (list A)) i l x :
  ls !! i = Some l -> concat (<[i := x :: l]> ls) ≡ₚ x :: concat ls.
Proof.
  revert i. induction ls as [|k ls IH]; intros [|i] Hi; try done.
  - injection Hi as ->. done.
  - cbn. rewrite (IH i Hi). symmetry. apply Permutation_middle.
Qed.
Lemma concat_pop {A} (ls : list (list A)) i l x :
  ls !! i = Some (x :: l) -> concat ls ≡ₚ x :: concat (<[i := l]> ls).
Proof.
  intros Hi. rewrite <- (concat_push (<[i := l]> ls) i l x).
  - by rewrite list_insert_insert_eq, list_insert_id.
  - apply list_lookup_insert_eq. by eapply lookup_lt_Some.
Qed.
Lemma concat_elem {A} (ls : list (list A)) i l x : ls !! i = Some l -> x ∈ l -> x ∈ concat ls.
Proof.
  revert i. induction ls as [|k ls IH]; intros [|i] Hi Hx; try done; cbn; apply elem_of_app.
  - injection Hi as ->. by left.
  - right. by eapply IH.
Qed.

(** ** The lists *)

Section lists.
Context (F : fault -> Prop).
Implicit Types (t : ut_table_t) (ls : list (list Z)) (st : list Z).

(** The table after pushing [u] on the list [i]. *)
Definition pushed t (i : nat) (u : Z) (n : ut_t) (h : Z) : ut_table_t :=
  set_lists (<[i := u]> (free_untypeds t)) (set_mem (<[u := set_next h n]> (ut_mem t)) t).

Lemma rep_size_insert t ls st u n (f : ut_t -> ut_t) i l x :
  ut_rep t ls st -> ut_mem t !! u = Some n -> size_bits (f n) = size_bits n -> ls !! i = Some l -> x ∈ l ->
  exists k, <[u := f n]> (ut_mem t) !! x = Some k /\ size_bits k = Z.of_nat i + 4.
Proof.
  intros Hr Hn Hf Hl Hx. destruct (rep_size _ _ _ Hr i l x Hl Hx) as (k & Hk & Hs).
  destruct (decide (u = x)) as [->|Hne]; [|rewrite lookup_insert_ne by done; eauto].
  exists (f n). rewrite lookup_insert_eq. split; [done|]. assert (k = n) as -> by congruence. lia.
Qed.

Lemma rep_push t ls st i l u n :
  ut_rep t ls st -> ls !! i = Some l -> u ∉ concat ls ++ st -> u ≠ 0 -> ut_mem t !! u = Some n ->
  size_bits n = Z.of_nat i + 4 ->
  exists h, wpf F (push_list (Z.of_nat i) u) (fun _ t' => t' = pushed t i u n h) t /\
    ut_rep (pushed t i u n h) (<[i := u :: l]> ls) st.
Proof.
  intros Hr Hl Hu Hu0 Hn Hs. pose proof Hr as [R1 R2 R3 R4 R5].
  destruct (Forall2_lookup_r _ _ _ _ _ R1 Hl) as (h & Hh & Hc).
  pose proof Hu as [Hu1 Hu2]%not_elem_of_app. exists h. split.
  - unfold push_list, push. wp_line. eapply wpf_list_head; [done|]. wp_line. eapply wpf_store; [done..|].
    unfold set_list_head, pushed. wp_line. by rewrite Nat2Z.id.
  - assert (Hul : u ∉ l) by (intros ?; by apply Hu1; eapply concat_elem).
    split; cbn [pushed set_lists set_mem free_untypeds ut_mem free_structures].
    + apply Forall2_insert; [|by apply chain_push]. by apply Forall2_chain_insert.
    + by rewrite length_insert.
    + by apply chain_insert.
    + rewrite (concat_push _ _ _ _ Hl). by apply NoDup_cons.
    + intros j l' x Hl' Hx. destruct (decide (j = i)) as [->|Hne].
      * rewrite list_lookup_insert_eq in Hl' by (by eapply lookup_lt_Some). injection Hl' as <-.
        apply elem_of_cons in Hx as [->|Hx]; [|by eapply rep_size_insert].
        rewrite lookup_insert_eq. by eexists.
      * rewrite list_lookup_insert_ne in Hl' by done. by eapply rep_size_insert.
Qed.

(** The table after popping the list [i]. *)
Lemma rep_pop t ls st i u l :
  ut_rep t ls st -> ls !! i = Some (u :: l) ->
  exists n, ut_mem t !! u = Some n /\ u ≠ 0 /\
    wpf F (pop_list (Z.of_nat i)) (fun r t' => r = u /\ t' = set_lists (<[i := next n]> (free_untypeds t)) t) t /\
    ut_rep (set_lists (<[i := next n]> (free_untypeds t)) t) (<[i := l]> ls) st.
Proof.
  intros Hr Hl. pose proof Hr as [R1 R2 R3 R4 R5].
  destruct (Forall2_lookup_r _ _ _ _ _ R1 Hl) as (? & Hh & -> & Hu0 & n & Hn & Hc). exists n. split; [done|]. split; [done|]. split.
  - unfold pop_list, pop. wp_line. eapply wpf_list_head; [done|]. wp_line. eapply wpf_load; [done..|]. wp_line.
    unfold set_list_head. wp_line. by rewrite Nat2Z.id.
  - split; cbn [set_lists free_untypeds ut_mem free_structures].
    + by apply Forall2_insert.
    + by rewrite length_insert.
    + done.
    + rewrite (concat_pop _ _ _ _ Hl) in R4. by apply NoDup_cons in R4 as [_ ?].
    + intros j l' x Hl' Hx. destruct (decide (j = i)) as [->|Hne].
      * rewrite list_lookup_insert_eq in Hl' by (by eapply lookup_lt_Some). injection Hl' as <-.
        apply (R5 i (u :: l)); [done|by right].
      * rewrite list_lookup_insert_ne in Hl' by done. by eapply R5.
Qed.

Lemma rep_push_structure t ls st u n :
  ut_rep t ls st -> u ∉ concat ls ++ st -> u ≠ 0 -> ut_mem t !! u = Some n ->
  let t' := set_structures u (set_mem (<[u := set_next (free_structures t) n]> (ut_mem t)) t) in
  wpf F (push_structure u) (fun _ t1 => t1 = t') t /\ ut_rep t' ls (u :: st).
Proof.
  intros Hr Hu Hu0 Hn. pose proof Hr as [R1 R2 R3 R4 R5]. pose proof Hu as [Hu1 Hu2]%not_elem_of_app. split.
  - unfold push_structure, push. wp_line. eapply wpf_store; [done..|]. by wp_line.
  - split; cbn [set_structures set_mem free_untypeds ut_mem free_structures].
    + by apply Forall2_chain_insert.
    + done.
    + by apply chain_push.
    + rewrite <- Permutation_middle. by apply NoDup_cons.
    + intros j l' x Hl' Hx. by eapply rep_size_insert.
Qed.

Lemma rep_pop_structure t ls st u :
  ut_rep t ls (u :: st) ->
  exists h, wpf F pop_structure (fun r t' => r = u /\ t' = set_structures h t) t /\ ut_rep (set_structures h t) ls st.
Proof.
  intros [R1 R2 (Hf & Hu0 & n & Hn & Hc) R4 R5]. exists (next n). split.
  - unfold pop_structure, pop. wp_line. rewrite Hf. eapply wpf_load; [done..|]. by wp_line.
  - split; try done. rewrite <- Permutation_middle in R4. by apply NoDup_cons in R4 as [_ ?].
Qed.
End lists.

(** ** The invariant is kept

    The table and what is out of it, as the operations see them. *)
Section inv.
Context (F : fault -> Prop).
Implicit Types (t : ut_table_t) (L : gmap Z ut_t) (H : gset Z).

(** A node is out, or kept with its contents. *)
Lemma inv_keep L H t u n : u ∉ H -> ut_inv L ({[u]} ∪ H) t -> ut_mem t !! u = Some n -> ut_inv (<[u := n]> L) H t.
Proof.
  intros Hu [(ls & st & Hr & Hd) Hk H0 Ho] Hn. destruct (Ho u) as (Hu0 & HLu & _); [set_solver|]. split.
  - exists ls, st. split; [done|]. intros x Hx. destruct (Hd x Hx) as [Hx1 Hx2].
    rewrite lookup_insert_ne by set_solver. split; [set_solver|done].
  - by apply insert_subseteq_l.
  - by rewrite lookup_insert_ne.
  - intros x Hx. destruct (Ho x) as (? & ? & ?); [set_solver|]. rewrite lookup_insert_ne by set_solver. done.
Qed.
Lemma inv_release L H t u n :
  L !! u = None -> ut_inv (<[u := n]> L) H t -> 4 ≤ size_bits n ≤ 12 -> (u ∉ H) /\ ut_inv L ({[u]} ∪ H) t.
Proof.
  intros HL [(ls & st & Hr & Hd) Hk H0 Ho] Hs.
  assert (Hu0 : u ≠ 0) by (intros ->; by rewrite lookup_insert_eq in H0).
  assert (Hn : ut_mem t !! u = Some n) by (eapply lookup_weaken; [apply lookup_insert_eq|done]).
  assert (HuH : u ∉ H) by (intros Hu; destruct (Ho u Hu) as (_ & Hb & _); by rewrite lookup_insert_eq in Hb).
  split; [done|]. split.
  - exists ls, st. split; [done|]. intros x Hx. destruct (Hd x Hx) as [Hx1 Hx2].
    apply lookup_insert_None in Hx2 as [Hx2 Hne]. split; [set_solver|done].
  - etrans; [|exact Hk]. by apply insert_subseteq.
  - by rewrite lookup_insert_ne in H0 by done.
  - intros x [->%elem_of_singleton|Hx]%elem_of_union; [eauto|]. destruct (Ho x Hx) as (? & Hb & ?).
    by apply lookup_insert_None in Hb as [Hb _].
Qed.
Lemma inv_drop L H t u : ut_inv L ({[u]} ∪ H) t -> ut_inv L H t.
Proof.
  intros [(ls & st & Hr & Hd) Hk H0 Ho]. split; [|done|done|].
  - exists ls, st. split; [done|]. intros x Hx. destruct (Hd x Hx). split; [set_solver|done].
  - intros x Hx. apply Ho. set_solver.
Qed.
Lemma inv_unkeep L H t u n : L !! u = None -> ut_inv (<[u := n]> L) H t -> ut_inv L H t.
Proof.
  intros HL [(ls & st & Hr & Hd) Hk H0 Ho]. split.
  - exists ls, st. split; [done|]. intros x Hx. destruct (Hd x Hx) as [? [? _]%lookup_insert_None]. done.
  - etrans; [|exact Hk]. by apply insert_subseteq.
  - by apply lookup_insert_None in H0 as [? _].
  - intros x Hx. destruct (Ho x Hx) as (? & [? _]%lookup_insert_None & ?). done.
Qed.
Lemma inv_lookup L H t u n : ut_inv L H t -> L !! u = Some n -> ut_mem t !! u = Some n /\ u ≠ 0.
Proof. intros Hi Hu. split; [by eapply lookup_weaken; [|apply Hi]|]. intros ->. by rewrite (inv_null _ _ _ Hi) in Hu. Qed.

(** Writing a kept node. *)
Lemma inv_store L H t u n f : ut_inv (<[u := n]> L) H t ->
  wpf F (store u f) (fun _ => ut_inv (<[u := f n]> L) H) t.
Proof.
  intros Hi. destruct (inv_lookup _ _ _ u n Hi (lookup_insert_eq _ _ _)) as [Hn Hu0]. eapply wpf_store; [done..|].
  destruct Hi as [(ls & st & [R1 R2 R3 R4 R5] & Hd) Hk H0 Ho].
  assert (Hu : u ∉ concat ls ++ st) by (intros Hx; destruct (Hd u Hx) as [_ Hb]; by rewrite lookup_insert_eq in Hb).
  pose proof Hu as [Hu1 Hu2]%not_elem_of_app. split.
  - exists ls, st. split.
    + split; cbn; [by apply Forall2_chain_insert|done|by apply chain_insert|done|].
      intros i l x Hl Hx. rewrite lookup_insert_ne; [by eapply R5|]. intros ->. apply Hu1. by eapply concat_elem.
    + intros x Hx. destruct (Hd x Hx) as [? [? Hne]%lookup_insert_None]. split; [done|]. by rewrite lookup_insert_ne.
  - cbn. rewrite <- (insert_insert_eq L u (f n) n). by apply insert_mono.
  - apply lookup_insert_None in H0 as [? ?]. by rewrite lookup_insert_ne.
  - intros x Hx. destruct (Ho x Hx) as (? & [? Hne]%lookup_insert_None & ?). cbn. by rewrite !lookup_insert_ne by done.
Qed.
End inv.

Section ops.
Context (F : fault -> Prop).
Implicit Types (t : ut_table_t) (L : gmap Z ut_t) (H : gset Z).

(** What holding a node of [s] bits means. *)
Definition gave L H (s u : Z) t : Prop :=
  (u ∉ H) /\ L !! u = None /\ ut_inv L ({[u]} ∪ H) t /\ exists n, ut_mem t !! u = Some n /\ size_bits n = s.

(** The counter is not part of the invariant. *)
Lemma inv_n_4k L H t v : ut_inv L H t -> ut_inv L H (set_n_4k v t).
Proof. intros [(ls & st & [R1 R2 R3 R4 R5] & Hd) Hk H0 Ho]. split; [|done..]. by exists ls, st. Qed.

Lemma list_head_cases L H t i (Q : Z -> ut_table_t -> Prop) :
  ut_inv L H t -> 0 ≤ i < 9 ->
  (forall h, free_untypeds t !! Z.to_nat i = Some h -> Q h t) -> wpf F (list_head i) Q t.
Proof.
  intros [(ls & st & Hr & _) _ _ _] Hi HQ.
  destruct (lookup_lt_is_Some_2 (free_untypeds t) (Z.to_nat i)) as [h Hh].
  { rewrite (Forall2_length _ _ _ (rep_lists _ _ _ Hr)), (rep_len _ _ _ Hr). lia. }
  rewrite <- (Z2Nat.id i) by lia. eapply wpf_list_head; [exact Hh|auto].
Qed.

Lemma pop_list_inv L H t i h :
  ut_inv L H t -> 0 ≤ i < 9 -> free_untypeds t !! Z.to_nat i = Some h -> h ≠ 0 ->
  wpf F (pop_list i) (fun u t' => gave L H (i + 4) u t') t.
Proof.
  intros [(ls & st & Hr & Hd) Hk H0 Ho] Hi Hh Hne. pose proof Hr as [R1 R2 R3 R4 R5].
  destruct (Forall2_lookup_l _ _ _ _ _ R1 Hh) as ([|u l] & Hl & Hc); [by cbn in Hc|].
  rewrite <- (Z2Nat.id i) by lia. destruct (rep_pop F t ls st _ u l Hr Hl) as (n & Hn & Hu0 & Hw & Hr').
  destruct (R5 _ _ u Hl (list_elem_of_here _ _)) as (n' & Hn' & Hs). rewrite Hn in Hn'. injection Hn' as <-.
  assert (Hin : u ∈ concat ls ++ st) by (apply elem_of_app; left; by eapply concat_elem; [|by left]).
  destruct (Hd u Hin) as [HuH HuL]. eapply wpf_mono; [exact Hw|]. intros _ t' [-> ->].
  split; [done|]. split; [done|]. split; [|by exists n]. split; [|done|done|].
  - exists (<[Z.to_nat i := l]> ls), st. split; [done|]. intros x Hx.
    rewrite (concat_pop _ _ _ _ Hl) in R4. apply NoDup_cons in R4 as [R4 _].
    assert (x ≠ u) by (by intros ->).
    assert (Hx' : x ∈ concat ls ++ st) by (rewrite (concat_pop _ _ _ _ Hl); by right).
    destruct (Hd x Hx'). split; [set_solver|done].
  - intros x [->%elem_of_singleton|Hx]%elem_of_union; [|by apply Ho]. split; [done|]. split; [done|].
    exists n. split; [done|lia].
Qed.

Lemma push_list_inv L H t i u n :
  u ∉ H -> ut_inv L ({[u]} ∪ H) t -> 0 ≤ i < 9 -> ut_mem t !! u = Some n -> size_bits n = i + 4 ->
  wpf F (push_list i u) (fun _ => ut_inv L H) t.
Proof.
  intros Hu [(ls & st & Hr & Hd) Hk H0 Ho] Hi Hn Hs. destruct (Ho u) as (Hu0 & HLu & _); [set_solver|].
  assert (Hni : u ∉ concat ls ++ st) by (intros Hx; destruct (Hd u Hx); set_solver).
  destruct (lookup_lt_is_Some_2 ls (Z.to_nat i)) as [l Hl]; [rewrite (rep_len _ _ _ Hr); lia|].
  destruct (rep_push F t ls st (Z.to_nat i) l u n) as (h & Hw & Hr'); try done; [lia|].
  rewrite <- (Z2Nat.id i) by lia. eapply wpf_mono; [exact Hw|]. intros [] t' ->. split; [|cbn..].
  - exists (<[Z.to_nat i := u :: l]> ls), st. split; [done|]. intros x Hx. rewrite (concat_push _ _ _ _ Hl) in Hx.
    apply elem_of_cons in Hx as [->|Hx]; [done|]. destruct (Hd x Hx). split; [set_solver|done].
  - apply map_subseteq_spec. intros x k Hx. rewrite lookup_insert_ne by (intros ->; congruence).
    by eapply lookup_weaken.
  - done.
  - intros x Hx. destruct (Ho x) as (? & ? & k & Hk' & ?); [set_solver|]. split; [done|]. split; [done|].
    rewrite lookup_insert_ne by (by intros ->). by exists k.
Qed.

Lemma ut_alloc_4k_inv L H t :
  ut_inv L H t -> wpf F ut_alloc_4k_untyped (fun r t' =>
    match r with None => free_untypeds t !! 8%nat = Some 0 /\ t' = t | Some (u, _) => gave L H 12 u t' end) t.
Proof.
  intros Hi. unfold ut_alloc_4k_untyped. wp_line. apply (list_head_cases L H); [done|done|]. intros h Hh.
  case_bool_decide as H0; wp_line; [by subst|]. eapply wpf_mono; [by eapply (pop_list_inv L H)|].
  intros u t' (H1 & H2 & H3 & H4). wp_line. split; [done|]. split; [done|]. split; [by apply inv_n_4k|done].
Qed.

Lemma ut_free_inv L H t u : u ∉ H -> ut_inv L ({[u]} ∪ H) t -> wpf F (ut_free u) (fun _ => ut_inv L H) t.
Proof.
  intros Hu Hi. destruct (inv_out _ _ _ Hi u) as (Hu0 & _ & n & Hn & Hs); [set_solver|].
  unfold ut_free. wp_line. eapply wpf_load; [done..|]. unfold SIZE_BITS_TO_INDEX, seL4_EndpointBits.
  eapply push_list_inv; [done..| |done|]; lia.
Qed.

Lemma pop_structure_inv L H t :
  ut_inv L H t -> free_structures t ≠ 0 -> wpf F pop_structure (fun u t' =>
    u = free_structures t /\ L !! u = None /\ (u ∉ H) /\
    exists n, ut_mem t !! u = Some n /\ ut_inv (<[u := n]> L) H t' /\ free_structures t' = next n) t.
Proof.
  intros [(ls & st & Hr & Hd) Hk H0 Ho] Hne. pose proof Hr as [R1 R2 R3 R4 R5].
  destruct st as [|u st]; [done|]. unfold pop_structure, pop. wp_line.
  pose proof R3 as (Hf & Hu0 & n & Hn & Hc). rewrite Hf. eapply wpf_load; [done..|]. wp_line.
  destruct (Hd u) as [HuH HuL]; [apply elem_of_app; right; by left|]. split; [done|]. split; [done|]. split; [done|]. exists n.
  split; [done|]. split; [|done]. split; [|cbn..].
  - exists ls, st. split.
    + split; try done. rewrite <- Permutation_middle in R4. by apply NoDup_cons in R4 as [_ ?].
    + rewrite <- Permutation_middle in R4. apply NoDup_cons in R4 as [R4 _]. intros x Hx.
      destruct (Hd x) as [? ?]; [rewrite <- Permutation_middle; by right|].
      rewrite lookup_insert_ne by (by intros ->). done.
  - by apply insert_subseteq_l.
  - by rewrite lookup_insert_ne.
  - intros x Hx. destruct (Ho x Hx) as (? & ? & ?). rewrite lookup_insert_ne by (by intros ->). done.
Qed.
Lemma push_structure_inv L H t u n :
  L !! u = None -> ut_inv (<[u := n]> L) H t -> wpf F (push_structure u) (fun _ t' =>
    ut_inv L H t' /\ free_structures t' = u /\ exists k, ut_mem t' !! u = Some k /\ next k = free_structures t) t.
Proof.
  intros HL Hi. destruct (inv_lookup _ _ _ u n Hi (lookup_insert_eq _ _ _)) as [Hn Hu0].
  pose proof (inv_unkeep _ _ _ _ _ HL Hi) as [_ Hk H0 Ho]. destruct Hi as [(ls & st & Hr & Hd) _ _ Ho'].
  assert (Hu : u ∉ concat ls ++ st) by (intros Hx; destruct (Hd u Hx) as [_ Hb]; by rewrite lookup_insert_eq in Hb).
  destruct (rep_push_structure F t ls st u n) as [Hw Hr']; [done..|]. eapply wpf_mono; [exact Hw|].
  intros [] t' ->. split; [|split; [done|]; eexists; split; [apply lookup_insert_eq|done]]. split; [|cbn..].
  - exists ls, (u :: st). split; [done|]. intros x Hx. rewrite <- Permutation_middle in Hx.
    apply elem_of_cons in Hx as [->|Hx].
    + split; [|done]. intros Hb. destruct (Ho' u Hb) as (_ & Hc & _). by rewrite lookup_insert_eq in Hc.
    + destruct (Hd x Hx) as [? [? _]%lookup_insert_None]. done.
  - apply map_subseteq_spec. intros x k Hx. rewrite lookup_insert_ne by (intros ->; congruence).
    by eapply lookup_weaken.
  - done.
  - intros x Hx. destruct (Ho' x Hx) as (? & [? Hne]%lookup_insert_None & k & ?). split; [done|]. split; [done|].
    rewrite lookup_insert_ne by done. by exists k.
Qed.
End ops.

(** ** Addresses *)

(** The node of the [i]-th page. *)
Definition node_of (t : ut_table_t) (i : Z) : Z := untypeds t + i * sizeof_ut.

(** The table covers [k] pages that have addresses. *)
Definition covers (t : ut_table_t) (k : Z) : Prop :=
  0 ≤ first_paddr t /\ first_paddr t + k * PAGE_SIZE_4K ≤ 2 ^ 64 /\ 0 < untypeds t /\ node_of t k ≤ 2 ^ 64.

Lemma page_size : PAGE_SIZE_4K = 4096.
Proof. done. Qed.

Lemma paddr_to_ut_spec t k i o :
  covers t k -> 0 ≤ i < k -> 0 ≤ o < PAGE_SIZE_4K ->
  paddr_to_ut t (w64 (first_paddr t + i * PAGE_SIZE_4K + o)) = node_of t i.
Proof.
  unfold covers, paddr_to_ut, node_of, sizeof_ut. rewrite page_size. intros (H1 & H2 & H3 & H4) Hi Ho.
  rewrite (w64_small (_ + o)) by lia. rewrite (w64_small (_ - first_paddr t)) by lia.
  replace (first_paddr t + i * 4096 + o - first_paddr t) with (o + i * 4096) by lia.
  rewrite Z.div_add, Z.div_small by lia. apply w64_small. lia.
Qed.
Lemma ut_to_paddr_spec t k i :
  covers t k -> 0 ≤ i < k -> ut_to_paddr t (node_of t i) = first_paddr t + i * PAGE_SIZE_4K.
Proof.
  unfold covers, ut_to_paddr, node_of, sizeof_ut. rewrite page_size. intros (H1 & H2 & H3 & H4) Hi.
  replace (untypeds t + i * 16 - untypeds t) with (i * 16) by lia. rewrite Z.div_mul by lia.
  rewrite w64_small; lia.
Qed.

(** Within the pages the table covers, a node and the physical address of its page
    determine each other, and every address of the page leads to the node. *)
Theorem ut_paddr_roundtrip t k i o :
  covers t k -> 0 ≤ i < k -> 0 ≤ o < PAGE_SIZE_4K ->
  paddr_to_ut t (ut_to_paddr t (node_of t i) + o) = node_of t i /\
  ut_to_paddr t (paddr_to_ut t (first_paddr t + i * PAGE_SIZE_4K)) = first_paddr t + i * PAGE_SIZE_4K.
Proof.
  intros Hc Hi Ho. pose proof Hc as (H1 & H2 & _). rewrite page_size in *.
  rewrite (ut_to_paddr_spec t k i), page_size by done. split.
  - rewrite <- (w64_small (_ + o)) by lia. by apply (paddr_to_ut_spec t k).
  - rewrite <- (w64_small (_ + i * 4096)) at 1 by lia. rewrite <- (Z.add_0_r (_ + i * 4096)) at 1.
    rewrite <- page_size, (paddr_to_ut_spec t k) by (rewrite ?page_size; lia || done). by apply (ut_to_paddr_spec t k).
Qed.
Lemma ut_paddr_roundtrip_witness :
  let t := Table ∅ 0x1000000 0x8000 [] 0 0 in
  paddr_to_ut t (ut_to_paddr t (node_of t 5) + 77) = node_of t 5 /\
  ut_to_paddr t (paddr_to_ut t (0x1000000 + 5 * PAGE_SIZE_4K)) = 0x1000000 + 5 * PAGE_SIZE_4K.
Proof.
  apply (ut_paddr_roundtrip (Table ∅ 0x1000000 0x8000 [] 0 0) 100 5 77); [by vm_compute|lia|by vm_compute].
Defined.

(** ** Adding a range *)

Section range.
Context (F : fault -> Prop).
Implicit Types (t : ut_table_t).

(** The nodes [k .. k+j) of [t] after [ut_add_untyped_range] has set them up. *)
Record added (t : ut_table_t) (k cap0 : Z) (device : bool) (ls : list (list Z)) (st l : list Z) (j : Z) (t' : ut_table_t) : Prop := {
  add_first : first_paddr t' = first_paddr t;
  add_untypeds : untypeds t' = untypeds t;
  add_rep : ut_rep t' (if device then ls else <[8%nat := reverse (node_of t <$> seqZ k j) ++ l]> ls) st;
  add_new : forall i, 0 ≤ i < j -> exists n, ut_mem t' !! node_of t (k + i) = Some n /\
    cap n = (cap0 + i) mod 2 ^ 20 /\ valid n = true /\ (device = false -> size_bits n = 12);
  add_old : forall x, (forall i, 0 ≤ i < j -> x ≠ node_of t (k + i)) -> ut_mem t' !! x = ut_mem t !! x;
  add_count : n_4k_untyped t' = if device then n_4k_untyped t else w64 (n_4k_untyped t + j);
}.

Lemma node_of_inj t i j : node_of t i = node_of t j -> i = j.
Proof. unfold node_of, sizeof_ut. lia. Qed.

(** Writing a node that is in no list. *)
Lemma rep_store t ls st u n :
  ut_rep t ls st -> u ∉ concat ls ++ st -> ut_rep (set_mem (<[u := n]> (ut_mem t)) t) ls st.
Proof.
  intros [R1 R2 R3 R4 R5] Hu. pose proof Hu as [Hu1 Hu2]%not_elem_of_app.
  split; cbn; [by apply Forall2_chain_insert|done|by apply chain_insert|done|].
  intros i l x Hl Hx. rewrite lookup_insert_ne; [by eapply R5|]. intros ->. apply Hu1. by eapply concat_elem.
Qed.
Lemma rep_n_4k t ls st v : ut_rep t ls st -> ut_rep (set_n_4k v t) ls st.
Proof. by intros [R1 R2 R3 R4 R5]. Qed.

Context (t : ut_table_t) (k N cap0 : Z) (device : bool) (ls : list (list Z)) (st l : list Z).
Context (Hcov : covers t (k + N)) (Hk : 0 ≤ k).
Context (Hl : ls !! 8%nat = Some l).
Context (Hfree : forall i, 0 ≤ i < N -> (node_of t (k + i) ∉ concat ls ++ st) /\ is_Some (ut_mem t !! node_of t (k + i))).

Lemma added_unlisted j t1 : added t k cap0 device ls st l j t1 -> 0 ≤ j < N ->
  node_of t (k + j) ∉ concat (if device then ls else <[8%nat := reverse (node_of t <$> seqZ k j) ++ l]> ls) ++ st.
Proof.
  intros Ha Hj. destruct (Hfree j Hj) as [Hni _]. destruct device; [done|].
  intros [Hx|Hx]%elem_of_app; [|by apply Hni, elem_of_app; right]. apply not_elem_of_app in Hni as [Hni _].
  assert (Hp : concat (<[8%nat := reverse (node_of t <$> seqZ k j) ++ l]> ls) ≡ₚ reverse (node_of t <$> seqZ k j) ++ concat ls).
  { clear -Hl. induction (reverse (node_of t <$> seqZ k j)) as [|x r IH]; cbn; [by rewrite list_insert_id|].
    rewrite <- IH, <- (concat_push _ 8 (r ++ l) x), list_insert_insert_eq; [done|].
    apply list_lookup_insert_eq. by eapply lookup_lt_Some. }
  rewrite Hp in Hx. apply elem_of_app in Hx as [Hx|Hx]; [|done].
  apply elem_of_reverse, list_elem_of_fmap in Hx as (i & Hi & Hi'%elem_of_seqZ). apply node_of_inj in Hi. lia.
Qed.
Lemma add_untyped_step j t1 :
  added t k cap0 device ls st l j t1 -> 0 ≤ j < N ->
  wpf F (add_untyped (first_paddr t + k * PAGE_SIZE_4K) cap0 device j) (fun _ => added t k cap0 device ls st l (j + 1)) t1.
Proof.
  intros Ha Hj. pose proof (added_unlisted j t1 Ha Hj) as Hu. destruct Ha as [A1 A2 A3 A4 A5 A6].
  set (u := node_of t (k + j)) in *.
  assert (Hmem : ut_mem t1 !! u = ut_mem t !! u).
  { apply A5. intros i Hi Hc. apply node_of_inj in Hc. lia. }
  destruct (Hfree j Hj) as [_ [n Hn]]. fold u in Hn. rewrite <- Hmem in Hn.
  assert (Hu0 : u ≠ 0) by (destruct Hcov as (_ & _ & ? & _); unfold u, node_of, sizeof_ut; lia).
  assert (Hcov1 : covers t1 (k + N)) by (unfold covers, node_of in *; by rewrite A1, A2).
  unfold add_untyped. wp_line.
  assert (paddr_to_ut t1 (w64 (first_paddr t + k * PAGE_SIZE_4K + j * PAGE_SIZE_4K)) = u) as ->.
  { rewrite <- A1. replace (first_paddr t1 + k * PAGE_SIZE_4K + j * PAGE_SIZE_4K)
      with (first_paddr t1 + (k + j) * PAGE_SIZE_4K + 0) by (rewrite page_size; lia).
    rewrite (paddr_to_ut_spec t1 (k + N)) by (rewrite ?page_size; lia || done). unfold u, node_of. by rewrite A2. }
  eapply wpf_store; [done..|]. wp_line. eapply wpf_store; [done|apply lookup_insert_eq|]. cbn [set_mem ut_mem].
  rewrite insert_insert_eq. set (n1 := set_valid true (set_cap (w64 (cap0 + j)) n)).
  assert (Hcap : cap n1 = (cap0 + j) mod 2 ^ 20).
  { cbn. unfold w64. replace (2 ^ 64) with (2 ^ 20 * 2 ^ 44) by done. apply Z.mod_mod_divide. by exists (2 ^ 44). }
  assert (Hrange : forall i, 0 ≤ i < j + 1 -> i ≠ j -> 0 ≤ i < j) by lia.
  destruct device; cbn [negb when].
  - wp_line. split; cbn [set_mem first_paddr untypeds ut_mem n_4k_untyped]; try done.
    + by apply (rep_store t1).
    + intros i Hi. destruct (decide (i = j)) as [->|Hne]; [exists n1; fold u; rewrite lookup_insert_eq; by split_and!|].
      rewrite lookup_insert_ne by (unfold u; intros Hc%node_of_inj; lia). apply A4. lia.
    + intros x Hx. rewrite lookup_insert_ne by (intros Hc; apply (Hx j); [lia|symmetry; exact Hc]). apply A5. intros i Hi. apply Hx. lia.
  - wp_line. eapply wpf_store; [done|apply lookup_insert_eq|]. cbn [set_mem ut_mem]. rewrite insert_insert_eq. wp_line.
    set (n2 := set_size_bits seL4_PageBits n1).
    set (ls1 := <[8%nat := reverse (node_of t <$> seqZ k j) ++ l]> ls) in *.
    destruct (rep_push F (set_mem (<[u:=n2]> (ut_mem t1)) t1) ls1 st 8 (reverse (node_of t <$> seqZ k j) ++ l) u n2) as (h & Hw & Hr').
    { by apply (rep_store t1). }
    { unfold ls1. apply list_lookup_insert_eq. by eapply lookup_lt_Some. }
    { done. } { done. } { cbn. apply lookup_insert_eq. } { done. }
    eapply wpf_mono; [exact Hw|]. intros [] t2 ->. wp_line.
    split; cbn [set_mem set_lists pushed set_n_4k first_paddr untypeds ut_mem n_4k_untyped]; try done.
    + apply rep_n_4k. unfold ls1 in Hr'. rewrite list_insert_insert_eq in Hr'. rewrite (seqZ_app k j 1), (seqZ_cons (k + j) 1), (seqZ_nil _ (Z.pred 1)) by lia.
      by rewrite fmap_app, reverse_app.
    + intros i Hi. rewrite insert_insert_eq. destruct (decide (i = j)) as [->|Hne].
      * fold u. eexists. rewrite lookup_insert_eq. split; [done|]. by split_and!.
      * rewrite lookup_insert_ne by (unfold u; intros Hc%node_of_inj; lia). apply A4. lia.
    + intros x Hx. rewrite !lookup_insert_ne by (intros Hc; apply (Hx j); [lia|symmetry; exact Hc]). apply A5. intros i Hi. apply Hx. lia.
    + rewrite A6. unfold w64. rewrite Z.add_mod_idemp_l by done. f_equal. lia.
Qed.

(** [ut_add_untyped_range] sets up exactly the nodes of the [N] pages, each with the next
    capability, and puts them on the list of 4K untypeds unless they are device memory. *)
Theorem ut_add_untyped_range_correct :
  ut_rep t ls st -> 0 ≤ N -> is_w64 (n_4k_untyped t) ->
  wpf F (ut_add_untyped_range (first_paddr t + k * PAGE_SIZE_4K) cap0 N device)
    (fun _ => added t k cap0 device ls st l N) t.
Proof.
  intros Hr HN Hc. unfold ut_add_untyped_range.
  eapply wpf_mono; [apply (wpf_iter F _ (fun r t1 => exists j, r = seqZ j (N - j) /\ 0 ≤ j ≤ N /\ added t k cap0 device ls st l j t1))|].
  - exists 0. split; [f_equal; lia|]. split; [lia|]. split; try done.
    + rewrite list_insert_id by done. by destruct device.
    + intros i Hi. lia.
    + rewrite Z.add_0_r. rewrite w64_small by done. by destruct device.
  - intros x r t1 (j & Hx & Hj & Ha).
    assert (j < N) by (destruct (decide (j < N)); [done|]; rewrite seqZ_nil in Hx by lia; done).
    rewrite seqZ_cons in Hx by lia. injection Hx as -> ->. eapply wpf_mono; [apply add_untyped_step; [done|lia]|].
    intros [] t2 Ha2. exists (j + 1). split; [f_equal; lia|]. split; [lia|done].
  - intros [] t1 (j & Hx & Hj & Ha). assert (j = N) as -> by (destruct (decide (j = N)); [done|]; rewrite seqZ_cons in Hx by lia; done).
    done.
Qed.
End range.

(** ** Allocation and freeing *)

(** Allocating a 4K untyped takes the head of its list and reports its physical address;
    freeing it again leaves the table as it was, except that the count of free untypeds is
    one lower, so [ut_size] shrinks with every such cycle. *)
Theorem ut_alloc_free_cycle t ls st u l :
  ut_rep t ls st -> ls !! 8%nat = Some (u :: l) ->
  wp ut_alloc_4k_untyped (fun r t1 => r = Some (u, ut_to_paddr t u) /\
    ut_rep t1 (<[8%nat := l]> ls) st /\
    wp (ut_free u) (fun _ t2 => t2 = set_n_4k (w64 (n_4k_untyped t - 1)) t) t1) t.
Proof.
  intros Hr Hl. pose proof Hr as [R1 R2 R3 R4 R5].
  destruct (Forall2_lookup_r _ _ _ _ _ R1 Hl) as (h & Hh & Hc). pose proof Hc as (-> & _).
  unfold ut_alloc_4k_untyped. wp_line. apply (wpf_list_head _ 8 u); [done|].
  rewrite bool_decide_eq_false_2 by (by destruct Hc as (_ & ? & _)). wp_line.
  destruct (rep_pop (fun _ => False) t ls st 8 u l Hr Hl) as (n & Hn & Hu0 & Hw & Hr'). eapply wpf_mono; [exact Hw|].
  destruct (R5 _ _ u Hl (list_elem_of_here _ _)) as (n' & Hn' & Hs). rewrite Hn in Hn'. injection Hn' as <-.
  intros _ t1 [-> ->]. wp_line. split; [done|]. split; [by apply rep_n_4k|].
  unfold ut_free. wp_line. eapply wpf_load; [done|exact Hn|]. rewrite Hs. unfold push_list, push.
  wp_line. eapply (wpf_list_head _ 8); [apply list_lookup_insert_eq; by eapply lookup_lt_Some|]. wp_line.
  eapply wpf_store; [done|exact Hn|]. unfold set_list_head. wp_line. cbn.
  rewrite list_insert_insert_eq, list_insert_id by done. rewrite insert_id; [by destruct t|].
  by rewrite Hn; destruct n.
Qed.

(** ** Evaluated *)

(** A table of three pages, and what the kernel starts it with. *)
Definition table0 : ut_table_t :=
  Table (list_to_map ((fun i => (0x8000 + i * 16, zero_ut)) <$> seqZ 0 3)) 0x1000000 0x8000 (replicate 9 0) 0 0.
Lemma table0_rep : ut_rep table0 (replicate 9 []) [].
Proof.
  split; try done; [by repeat constructor|constructor|]. intros i l u Hl Hu.
  apply lookup_replicate in Hl as [-> _]. by apply elem_of_nil in Hu.
Qed.
Lemma table0_free i : 0 ≤ i < 2 -> (node_of table0 (1 + i) ∉ concat (replicate 9 []) ++ []) /\
  is_Some (ut_mem table0 !! node_of table0 (1 + i)).
Proof.
  intros Hi. split; [by apply not_elem_of_nil|]. assert (i = 0 \/ i = 1) as [->| ->] by lia; vm_compute; by eexists.
Qed.

Lemma ut_add_untyped_range_correct_witness :
  exists t', ut_add_untyped_range 0x1001000 700 2 false table0 = Ok (tt, t') /\
    ut_rep t' (<[8%nat := [0x8020; 0x8010]]> (replicate 9 [])) [] /\ n_4k_untyped t' = 2.
Proof.
  destruct (wpf_value _ _ _ _ tt (ut_add_untyped_range_correct (fun _ => False) table0 1 2 700 false (replicate 9 []) [] []
    ltac:(by vm_compute) ltac:(lia) eq_refl table0_free table0_rep ltac:(lia) ltac:(by vm_compute)))
    as (t' & Ht & [_ _ Hr _ _ Hn]); [by vm_compute|].
  exists t'. split; [exact Ht|]. split; [exact Hr|exact Hn].
Defined.

(** The page 2 is free. *)
Definition table1 : ut_table_t :=
  Table {[0x8020 := Ut 702 true 12 0]} 0x1000000 0x8000 (<[8%nat := 0x8020]> (replicate 9 0)) 1 0.
Lemma table1_rep : ut_rep table1 (<[8%nat := [0x8020]]> (replicate 9 [])) [].
Proof.
  split; try done.
  - repeat constructor; try done. by eexists.
  - cbn. repeat constructor. set_solver.
  - intros i l u Hl Hu. apply list_lookup_insert_Some in Hl as [(<- & <- & _)|(_ & [-> _]%lookup_replicate)].
    + apply list_elem_of_singleton in Hu as ->. by eexists.
    + by apply elem_of_nil in Hu.
Qed.
Lemma ut_alloc_free_cycle_witness :
  exists t1 : ut_table_t, run ut_alloc_4k_untyped table1 = Ok (Some (0x8020, 0x1002000), t1) /\
    wp (ut_free 0x8020) (fun _ t2 => t2 = set_n_4k 0 table1) t1.
Proof.
  destruct (wpf_value _ _ _ _ (Some (0x8020, 0x1002000)) (ut_alloc_free_cycle table1 _ _ 0x8020 [] table1_rep eq_refl))
    as (t1 & Ht & _ & _ & Hf); [by vm_compute|].
  exists t1. split; [exact Ht|exact Hf].
Defined.

(** Once every free untyped was freed after an allocation, the next cycle makes
    [ut_size] report almost the whole address space. *)
Lemma ut_size_drifts :
  value_of ((ut_alloc_4k_untyped;; ut_free 0x8020;; ut_alloc_4k_untyped;; ut_size) table1) = Some (2 ^ 64 - 4096).
Proof. by vm_compute. Qed.
