(* ===== verification/Mapping.v ===== *)
(** * Mapping frames, and splitting untypeds

    Models [sos/src/mapping.c], the callbacks of [sos/src/bootstrap.c] that the
    initial capability space allocates with, and the part of [sos/src/ut.c]
    that splits untypeds.  The three call each other: splitting allocates
    slots, a slot may make the space grow, growing takes untypeds and maps
    frames.  The services of [sos] instantiate the environment of [Cspace], and
    their laws are what its theorems ask for. *)

From S2P Require Import Prelude Arith Kernel Bitfield Cspace CspaceSafety Untyped.

Definition SOS_DEVICE_START : Z := 0xB0000000.

(** ** Mapping, over either source of slots

    [map_frame_impl] runs with slots handed to it while a space grows, and with
    freshly allocated ones otherwise; it is one function of what differs. *)
Section impl.
Context {S : Type}.
Context (ut_alloc : M S (option Z)) (ut_cap : Z -> M S Z).
Context (invoke_k : kcall -> M S Z) (failed_level : M S Z).
Context (retype : Z -> Z -> seL4_ObjectType -> M S Z).
(** The slot for round [i], and the [used] mask after it. *)
Context (next_slot : Z -> Z -> M S (Z * Z)).

Definition retype_map_pt (vspace vaddr ut empty : Z) : M S Z :=
  err ← retype ut empty seL4_ARM_PageTableObject;
  if bool_decide (err ≠ 0) then mret err
  else invoke_k (PageTable_Map empty vspace vaddr seL4_ARM_Default_VMAttributes).
Definition retype_map_pd (vspace vaddr ut empty : Z) : M S Z :=
  err ← retype ut empty seL4_ARM_PageDirectoryObject;
  if bool_decide (err ≠ 0) then mret err
  else invoke_k (PageDirectory_Map empty vspace vaddr seL4_ARM_Default_VMAttributes).
Definition retype_map_pud (vspace vaddr ut empty : Z) : M S Z :=
  err ← retype ut empty seL4_ARM_PageUpperDirectoryObject;
  if bool_decide (err ≠ 0) then mret err
  else invoke_k (PageUpperDirectory_Map empty vspace vaddr seL4_ARM_Default_VMAttributes).

(** The paging structure that was missing; another level leaves the error. *)
Definition add_level (failed err vspace vaddr ut slot : Z) : M S Z :=
  if bool_decide (failed = SEL4_MAPPING_LOOKUP_NO_PT) then retype_map_pt vspace vaddr ut slot
  else if bool_decide (failed = SEL4_MAPPING_LOOKUP_NO_PD) then retype_map_pd vspace vaddr ut slot
  else if bool_decide (failed = SEL4_MAPPING_LOOKUP_NO_PUD) then retype_map_pud vspace vaddr ut slot
  else mret err.

Fixpoint map_loop (frame vspace vaddr : Z) (rights : seL4_CapRights) (attr : seL4_VMAttributes)
    (l : list Z) (err used : Z) : M S (Z * Z) :=
  match l with
  | [] => mret (err, used)
  | i :: l =>
    if bool_decide (err ≠ seL4_FailedLookup) then mret (err, used)
    else
      failed ← failed_level;
      ut ← ut_alloc;
      match ut with
      | None => mret (-1, used)
      | Some ut =>
        '(slot, used) ← next_slot i used;
        if bool_decide (slot = seL4_CapNull) then mret (-1, used)
        else
          c ← ut_cap ut;
          err ← add_level failed err vspace vaddr c slot;
          err ← (if bool_decide (err ≠ 0) then mret err else invoke_k (Page_Map frame vspace vaddr rights attr));
          map_loop frame vspace vaddr rights attr l err used
      end
  end.
Definition map_frame_impl (frame vspace vaddr : Z) (rights : seL4_CapRights) (attr : seL4_VMAttributes) (used : Z)
    : M S (Z * Z) :=
  err ← invoke_k (Page_Map frame vspace vaddr rights attr);
  map_loop frame vspace vaddr rights attr (seqZ 0 MAPPING_SLOTS) err used.
End impl.

(** ** The state of the system *)

Record bootstrap_cspace_t := BootData { next_free_vaddr : Z; vspace : Z }.

(** [boot_root] and [boot_two] are the fields of the initial space that
    retyping reads; they do not change once its callbacks are in place. *)
Record sos (K : Type) := Sos {
  uts : ut_table_t;
  boot : bootstrap_cspace_t;
  boot_root : Z;
  boot_two : bool;
  device_virt : Z;
  kern : K;
}.
Arguments Sos {K}.
Arguments uts {K}.
Arguments boot {K}.
Arguments boot_root {K}.
Arguments boot_two {K}.
Arguments device_virt {K}.
Arguments kern {K}.

(** The heap of the C library: whether an allocation succeeds. *)
Class Heap (K : Type) := heap_alloc : K -> bool * K.

Section sos.
Context {K : Type} `{!Kernel K, !Heap K}.

Definition set_uts v (s : sos K) := Sos v (boot s) (boot_root s) (boot_two s) (device_virt s) (kern s).
Definition set_boot v (s : sos K) := Sos (uts s) v (boot_root s) (boot_two s) (device_virt s) (kern s).
Definition set_device_virt v (s : sos K) := Sos (uts s) (boot s) (boot_root s) (boot_two s) v (kern s).
Definition set_kern (v : K) (s : sos K) := Sos (uts s) (boot s) (boot_root s) (boot_two s) (device_virt s) v.
Definition in_ut {A} (m : M ut_table_t A) : M (sos K) A := zoom uts set_uts m.

#[export] Instance sos_kernel : Kernel (sos K) := {
  invoke c s := let '(e, k) := invoke c (kern s) in (e, set_kern k s);
  seL4_MappingFailedLookupLevel s := seL4_MappingFailedLookupLevel (kern s);
  seL4_CNode_CapData_new := seL4_CNode_CapData_new (K := K);
}.

Definition get_untyped : M (sos K) (option Z) := u ← in_ut ut_alloc_4k_untyped; mret (fst <$> u).
Definition node_cap (ut : Z) : M (sos K) Z := n ← in_ut (load ut); mret (cap n).
Definition lookup_level : M (sos K) Z := s ← get; mret (seL4_MappingFailedLookupLevel s).

(** The callbacks of the initial space.  [free_slots[i]] beyond the array
    cannot be reached: there are [MAPPING_SLOTS] rounds. *)
Definition map_frame_cspace (frame vsp vaddr : Z) (rights : seL4_CapRights) (attr : seL4_VMAttributes)
    (free_slots : list Z) (used : Z) : M (sos K) (Z * Z) :=
  map_frame_impl get_untyped node_cap call lookup_level
    (fun ut slot type => s ← get; call (retype_call (boot_root s) (boot_two s) ut slot type seL4_PageBits))
    (fun i used => slot ← access (free_slots !! Z.to_nat i); mret (slot, Z.lor used (BIT i)))
    frame vsp vaddr rights attr used.

Definition alloc_vaddr (err : Z) : M (sos K) (option Z) :=
  if bool_decide (err ≠ 0) then mret None
  else
    s ← get;
    put (set_boot (BootData (w64 (next_free_vaddr (boot s) + PAGE_SIZE_4K)) (vspace (boot s))) s);;
    mret (Some (next_free_vaddr (boot s))).

Definition bootstrap_cspace_map_frame (frame : Z) (free_slots : list Z) (used : Z) : M (sos K) (option Z * Z) :=
  s ← get;
  '(err, used) ← map_frame_cspace frame (vspace (boot s)) (next_free_vaddr (boot s))
    seL4_AllRights seL4_ARM_Default_VMAttributes free_slots used;
  r ← alloc_vaddr err;
  mret (r, used).

(** The result of the allocation is read without a test for NULL, which it is when there is
    no 4K untyped. *)
Definition bootstrap_cspace_alloc_4k_ut : M (sos K) (Z * Z) :=
  untyped ← get_untyped;
  match untyped with
  | None => throw NullUntyped
  | Some untyped => n ← in_ut (load untyped); mret (untyped, cap n)
  end.
Definition bootstrap_cspace_free_4k_ut (untyped : Z) : M (sos K) unit := in_ut (ut_free untyped).

#[export] Instance sos_env : CspaceEnv (sos K) := {
  cb_alloc_4k_ut _ := u ← bootstrap_cspace_alloc_4k_ut; mret (Some u);
  cb_free_4k_ut _ u := bootstrap_cspace_free_4k_ut u;
  cb_map_frame _ f l used := '(v, used) ← bootstrap_cspace_map_frame f l used; mret (bool_decide (is_Some v), used);
  calloc := s ← get; let '(ok, k) := heap_alloc (kern s) in put (set_kern k s);; mret ok;
}.

(** ** Over the spaces *)

Implicit Types (p : Z).
Definition map_frame p (frame vsp vaddr : Z) (rights : seL4_CapRights) (attr : seL4_VMAttributes) : M (world (sos K)) Z :=
  r ← map_frame_impl (in_env get_untyped) (fun u => in_env (node_cap u)) kernel (in_env lookup_level)
    (fun ut slot type => cspace_untyped_retype p ut slot type seL4_PageBits)
    (fun i used => slot ← cspace_alloc_slot p; mret (slot, used))
    frame vsp vaddr rights attr 0;
  mret r.1.

Definition bootstrap_map_frame p (frame : Z) : M (world (sos K)) (option Z) :=
  w ← get;
  err ← map_frame p frame (vspace (boot (env w))) (next_free_vaddr (boot (env w))) seL4_AllRights seL4_ARM_Default_VMAttributes;
  in_env (alloc_vaddr err).

(** A fresh page of memory, seen as nodes.  The page is the one just mapped: the
    kernel does not map a second frame over it, so had the space grown and used
    the address meanwhile, the mapping would have failed. *)
Definition fresh_nodes (v : Z) (s : sos K) : sos K :=
  set_uts (set_mem (list_to_map ((fun i => (v + i * sizeof_ut, zero_ut)) <$> seqZ 0 (PAGE_SIZE_4K / sizeof_ut)) ∪ ut_mem (uts s)) (uts s)) s.

Definition ensure_new_structures p : M (world (sos K)) bool :=
  w ← get;
  let head := free_structures (uts (env w)) in
  missing ← (if bool_decide (head = 0) then mret true else n ← in_env (in_ut (load head)); mret (bool_decide (next n = 0)));
  if negb missing then mret true
  else
    frame ← in_env get_untyped;
    match frame with
    | None => mret false
    | Some frame =>
      cptr ← cspace_alloc_slot p;
      if bool_decide (cptr = seL4_CapNull) then mret false
      else
        c ← in_env (node_cap frame);
        err ← cspace_untyped_retype p c cptr seL4_ARM_SmallPageObject seL4_PageBits;
        if bool_decide (err ≠ 0) then mret false
        else
          new_uts ← bootstrap_map_frame p cptr;
          match new_uts with
          | None => mret false
          | Some v =>
            in_env (modify (fresh_nodes v));;
            iterM (fun i => in_env (in_ut (push_structure (v + i * sizeof_ut)))) (seqZ 0 (PAGE_SIZE_4K / sizeof_ut));;
            mret true
          end
    end.

(** Retype [larger] into two halves, described by [new1] and [new2] with the
    slots [c1] and [c2], and put them on the list of their size. *)
Definition retype_halves p (size larger new1 new2 c1 c2 : Z) : M (world (sos K)) bool :=
  lc ← in_env (node_cap larger);
  err ← cspace_untyped_retype p lc c1 seL4_UntypedObject size;
  if bool_decide (err ≠ 0) then
    cspace_free_slot p c1;; cspace_free_slot p c2;;
    in_env (in_ut (push_structure new1));; in_env (in_ut (ut_free larger));; mret false
  else
    err ← cspace_untyped_retype p lc c2 seL4_UntypedObject size;
    if bool_decide (err ≠ 0) then
      cspace_delete p c1;; cspace_free_slot p c1;; cspace_free_slot p c2;;
      in_env (in_ut (push_structure new1));; in_env (in_ut (push_structure new2));;
      in_env (in_ut (ut_free larger));; mret false
    else
      in_env (in_ut (push_list (SIZE_BITS_TO_INDEX size) new1));;
      in_env (in_ut (push_list (SIZE_BITS_TO_INDEX size) new2));;
      mret true.

(** Split [larger] into two untypeds of [size] bits; whether it succeeded. *)
Definition split_untyped p (size larger : Z) : M (world (sos K)) bool :=
  new1 ← in_env (in_ut pop_structure);
  s1 ← cspace_alloc_slot p;
  in_env (in_ut (store new1 (set_cap s1)));;
  c1 ← in_env (node_cap new1);
  if bool_decide (c1 = seL4_CapNull) then in_env (in_ut (ut_free larger));; mret false
  else
    in_env (in_ut (store new1 (set_size_bits size)));;
    new2 ← in_env (in_ut pop_structure);
    s2 ← cspace_alloc_slot p;
    in_env (in_ut (store new2 (set_cap s2)));;
    c2 ← in_env (node_cap new2);
    if bool_decide (c2 = seL4_CapNull) then
      cspace_free_slot p c1;; in_env (in_ut (ut_free larger));; mret false
    else
      in_env (in_ut (store new2 (set_size_bits size)));;
      retype_halves p size larger new1 new2 c1 c2.

(** [fuel] bounds the recursion; the sizes from [seL4_EndpointBits] to
    [seL4_PageBits] need nine. *)
Fixpoint ut_alloc_rec (fuel : nat) (size p : Z) : M (world (sos K)) (option Z) :=
  match fuel with
  | O => throw OutOfFuel
  | S fuel =>
    if bool_decide (seL4_PageBits < size) then mret None
    else if bool_decide (size < seL4_EndpointBits) then mret None
    else if bool_decide (size = seL4_PageBits) then in_env get_untyped
    else
      h ← in_env (in_ut (list_head (SIZE_BITS_TO_INDEX size)));
      ok ← (if bool_decide (h = 0) then
              larger ← ut_alloc_rec fuel (size + 1) p;
              match larger with
              | None => mret false
              | Some larger =>
                enough ← ensure_new_structures p;
                if (enough : bool) then split_untyped p size larger
                else in_env (in_ut (ut_free larger));; mret false
              end
            else mret true);
      if (ok : bool) then u ← in_env (in_ut (pop_list (SIZE_BITS_TO_INDEX size))); mret (Some u)
      else mret None
  end.
Definition ut_alloc (size p : Z) : M (world (sos K)) (option Z) := ut_alloc_rec 9 size p.

(** One page of [sos_map_device]; whether it was mapped. *)
Definition map_device_page p (curr : Z) : M (world (sos K)) bool :=
  ut ← in_env (in_ut (ut_alloc_4k_device curr));
  match ut with
  | None => mret false
  | Some ut =>
    frame ← cspace_alloc_slot p;
    if bool_decide (frame = seL4_CapNull) then mret false
    else
      c ← in_env (node_cap ut);
      err ← cspace_untyped_retype p c frame seL4_ARM_SmallPageObject seL4_PageBits;
      if bool_decide (err ≠ seL4_NoError) then cspace_free_slot p frame;; mret false
      else
        w ← get;
        err ← map_frame p frame seL4_CapInitThreadVSpace (device_virt (env w)) seL4_AllRights seL4_ARM_Uncached;
        if bool_decide (err ≠ seL4_NoError) then cspace_delete p frame;; cspace_free_slot p frame;; mret false
        else
          in_env (modify (fun s => set_device_virt (w64 (device_virt s + PAGE_SIZE_4K)) s));;
          mret true
  end.
Fixpoint map_device_loop (fuel : nat) p (curr last : Z) : M (world (sos K)) bool :=
  match fuel with
  | O => throw OutOfFuel
  | S fuel =>
    if bool_decide (curr < last) then
      ok ← map_device_page p curr;
      if (ok : bool) then map_device_loop fuel p (w64 (curr + PAGE_SIZE_4K)) last else mret false
    else mret true
  end.
(** A page per round and a last test of the condition; [None] is NULL. *)
Definition sos_map_device p (addr size : Z) : M (world (sos K)) (option Z) :=
  cassert (bool_decide (p ≠ 0));;
  w ← get;
  let vstart := device_virt (env w) in
  ok ← map_device_loop (Z.to_nat (size / PAGE_SIZE_4K) + 2) p addr (w64 (addr + size));
  mret (if (ok : bool) then Some vstart else None).
End sos.
