(* ===== verification/MappingSafety.v ===== *)
(** * Untypeds, mappings and spaces together

    The services of [Mapping] keep the invariant of the untyped table while they
    call each other: they discharge the laws [CspaceSafety] asks of its
    environment, and with its theorems give the correctness of [ut_alloc]. *)

From S2P Require Import Prelude Arith Kernel Bitfield Cspace CspaceSafety Untyped Mapping.

(** ** What mapping keeps *)

Section impl.
Context {S : Type} (F : fault -> Prop).
Context (ut_alloc : M S (option Z)) (ut_cap : Z -> M S Z).
Context (invoke_k : kcall -> M S Z) (failed_level : M S Z).
Context (retype : Z -> Z -> seL4_ObjectType -> M S Z) (next_slot : Z -> Z -> M S (Z * Z)).
(** [J] is kept, [JU u] while the untyped [u] is in hand; [G] is what a
    successful mapping of the frame says. *)
Context (J : S -> Prop) (JU : Z -> S -> Prop) (G : Prop).
Context (frame vsp vaddr : Z) (rights : seL4_CapRights) (attr : seL4_VMAttributes).
Context (Halloc : forall s, J s -> wpf F ut_alloc (fun r s' => match r with None => J s' | Some u => JU u s' end) s).
Context (Hcap : forall u s, JU u s -> wpf F (ut_cap u) (fun _ => JU u) s).
Context (Hslot : forall i used u s, 0 ≤ i < MAPPING_SLOTS -> JU u s -> wpf F (next_slot i used) (fun _ => JU u) s).
Context (Hdrop : forall u s, JU u s -> J s).
Context (Hcall : forall c s, J s -> wpf F (invoke_k c) (fun _ => J) s).
Context (Hlevel : forall s, J s -> wpf F failed_level (fun _ => J) s).
Context (Hretype : forall ut slot ty s, J s -> wpf F (retype ut slot ty) (fun _ => J) s).
Context (Hmap : forall s, J s -> wpf F (invoke_k (Page_Map frame vsp vaddr rights attr)) (fun e s' => J s' /\ (e = 0 -> G)) s).

Lemma add_level_inv failed (err : Z) ut slot s :
  J s -> wpf F (add_level invoke_k retype failed err vsp vaddr ut slot) (fun _ => J) s.
Proof.
  intros HJ. unfold add_level, retype_map_pt, retype_map_pd, retype_map_pud.
  repeat (case_bool_decide; [wp_line; eapply wpf_mono; [by apply Hretype|]; intros e s' HJ';
    case_bool_decide; [by wp_line|by apply Hcall]|]). by wp_line.
Qed.

Lemma map_loop_inv l (err used : Z) s :
  (forall i, i ∈ l -> 0 ≤ i < MAPPING_SLOTS) -> J s -> (err = 0 -> G) ->
  wpf F (map_loop ut_alloc ut_cap invoke_k failed_level retype next_slot frame vsp vaddr rights attr l err used)
    (fun r s' => J s' /\ (r.1 = 0 -> G)) s.
Proof.
  revert err used s. induction l as [|i l IH]; intros err used s Hl HJ HG; cbn [map_loop]; [by wp_line|].
  case_bool_decide as He; wp_line; [done|]. eapply wpf_mono; [by apply Hlevel|]. intros failed s1 HJ1. wp_line.
  eapply wpf_mono; [by apply Halloc|]. intros [u|] s2 Hu; [|by wp_line]. wp_line.
  eapply wpf_mono; [apply Hslot; [apply Hl; by left|exact Hu]|]. intros [slot used'] s3 Hu3.
  case_bool_decide; [wp_line; by apply Hdrop in Hu3|]. wp_line.
  eapply wpf_mono; [by apply Hcap|]. intros c s4 Hu4. wp_line. apply Hdrop in Hu4.
  eapply wpf_mono; [by apply add_level_inv|]. intros e s5 HJ5. wp_line. case_bool_decide as He5.
  - wp_line. apply IH; [intros; apply Hl; by right|done|done].
  - eapply wpf_mono; [by apply Hmap|]. intros e6 s6 [HJ6 HG6]. apply IH; [intros; apply Hl; by right|done|done].
Qed.

Lemma map_frame_impl_inv used s :
  J s -> wpf F (map_frame_impl ut_alloc ut_cap invoke_k failed_level retype next_slot frame vsp vaddr rights attr used)
    (fun r s' => J s' /\ (r.1 = 0 -> G)) s.
Proof.
  intros HJ. unfold map_frame_impl. wp_line. eapply wpf_mono; [by apply Hmap|]. intros e s' [HJ' HG].
  apply map_loop_inv; [|done|done]. intros i Hi%elem_of_seqZ. lia.
Qed.
End impl.

(** ** What the operations of the table leave alone

    Only [fresh_nodes] adds memory, and only splitting uses the structures. *)
Definition keeps {A B} (f : ut_table_t -> B) (m : M ut_table_t A) : Prop :=
  forall t, wpf (fun _ => True) m (fun _ t' => f t' = f t) t.
Abbreviation mem_dom := (fun t => dom (ut_mem t)).

Create HintDb keeps.
Section keeps.
Context {C : Type} (f : ut_table_t -> C).
Lemma keeps_bind {A B} (m : M ut_table_t A) (k : A -> M ut_table_t B) :
  keeps f m -> (forall a, keeps f (k a)) -> keeps f (m ≫= k).
Proof.
  intros Hm Hk t. wp_line. eapply wpf_mono; [apply Hm|]. intros a t' Ht'. eapply wpf_mono; [apply Hk|].
  intros b t'' Ht''. congruence.
Qed.
Lemma keeps_ret {A} (a : A) : keeps f (mret a).
Proof. intros t. by wp_line. Qed.
Lemma keeps_get : keeps f get.
Proof. intros t. by wp_line. Qed.
Lemma keeps_throw {A} e : keeps f (throw e : M ut_table_t A).
Proof. done. Qed.
Lemma keeps_access {A} (o : option A) : keeps f (access o).
Proof. by destruct o. Qed.
Lemma keeps_load p : keeps f (load p).
Proof. unfold load. case_bool_decide; [done|]. apply keeps_bind; [apply keeps_get|]. intros t. apply keeps_access. Qed.
Lemma keeps_modify g : (forall t, f (g t) = f t) -> keeps f (modify g).
Proof. intros Hf t. by wp_line. Qed.
End keeps.
Lemma keeps_store_mem p g : keeps mem_dom (store p g).
Proof.
  intros t. unfold store, load. wp_line. case_bool_decide; [done|]. wp_line.
  destruct (ut_mem t !! p) eqn:Hp; [|done]. cbn. wp_line. cbn. apply dom_insert_lookup_L. by eexists.
Qed.
Lemma keeps_store_head p g : keeps free_structures (store p g).
Proof. intros t. unfold store, load. wp_line. case_bool_decide; [done|]. wp_line. by destruct (ut_mem t !! p). Qed.
#[export] Hint Resolve keeps_ret keeps_get keeps_throw keeps_access keeps_load keeps_store_mem keeps_store_head : keeps.
Ltac keeps := first [solve [auto with keeps] | apply keeps_bind; [keeps|intros; keeps] | by apply keeps_modify | case_match; keeps | idtac].

Section table_keeps.
Context {C : Type} (f : ut_table_t -> C) (Hstore : forall p g, keeps f (store p g)).
Context (Hlists : forall v t, f (set_lists v t) = f t) (Hn : forall v t, f (set_n_4k v t) = f t).
Lemma keeps_push_list i u : keeps f (push_list i u).
Proof. unfold push_list, list_head, push, set_list_head. keeps. Qed.
Lemma keeps_pop_list i : keeps f (pop_list i).
Proof. unfold pop_list, list_head, pop, set_list_head. keeps. Qed.
Hint Resolve keeps_push_list keeps_pop_list : keeps.
Lemma keeps_alloc_4k : keeps f ut_alloc_4k_untyped.
Proof. unfold ut_alloc_4k_untyped, list_head. keeps. Qed.
Lemma keeps_free u : keeps f (ut_free u).
Proof. unfold ut_free. keeps. Qed.
End table_keeps.
Lemma keeps_structure u : keeps mem_dom (push_structure u).
Proof. unfold push_structure, push. keeps. Qed.
Lemma keeps_pop_structure : keeps mem_dom pop_structure.
Proof. unfold pop_structure, pop. keeps. Qed.
#[export] Hint Resolve keeps_push_list keeps_pop_list keeps_structure keeps_pop_structure keeps_alloc_4k keeps_free : keeps.

(** ** The invariant of the services *)

(** What the code relies on of the kernel: a page is only mapped below the end
    of the address space of a user. *)
Definition user_top : Z := 2 ^ 48.
Class KernelLaws (K : Type) `{!Kernel K} : Prop :=
  page_map_user f vs v r a (k : K) : fst (invoke (Page_Map f vs v r a) k) = 0 -> v + PAGE_SIZE_4K ≤ user_top.

Section safety.
Context {K : Type} `{!Kernel K, !Heap K, !KernelLaws K}.
Implicit Types (L : gmap Z ut_t) (H : gset Z) (s : sos K) (w : world (sos K)).

(** Nodes are below the next free address, which is at most [B]; the spare
    structures start at [hd], where that is given. *)
Record sos_inv (B : Z) (hd : option Z) L H s : Prop := {
  si_ut : ut_inv L H (uts s);
  si_mem : forall u, is_Some (ut_mem (uts s) !! u) -> u + sizeof_ut ≤ next_free_vaddr (boot s);
  si_head : from_option (fun h => free_structures (uts s) = h) True hd;
  si_next : 0 < next_free_vaddr (boot s) ≤ B;
}.

Lemma in_ut_inv {A} F (m : M ut_table_t A) B hd L H (L' : A -> gmap Z ut_t) (H' : A -> gset Z) (R : A -> ut_table_t -> Prop) s (Q : A -> sos K -> Prop) :
  sos_inv B hd L H s -> keeps mem_dom m -> (hd = None \/ keeps free_structures m) -> wpf F m R (uts s) -> (forall a t, R a t -> ut_inv (L' a) (H' a) t) ->
  (forall a t, R a t -> sos_inv B hd (L' a) (H' a) (set_uts t s) -> Q a (set_uts t s)) -> wpf F (in_ut m) Q s.
Proof.
  intros [S1 S2 S4 S3] Hk Hst Hm HR HQ. unfold in_ut. wp_line.
  assert (Hkeep : wpf (fun _ => True) m (fun _ t => dom (ut_mem t) = dom (ut_mem (uts s)) /\
    from_option (fun h => free_structures t = h) True hd) (uts s)).
  { destruct hd as [h|]; [destruct Hst as [?|Hst]; [done|]|].
    - apply wpf_conj; [apply Hk|]. eapply wpf_mono; [apply Hst|]. intros a t ->. exact S4.
    - eapply wpf_mono; [apply Hk|]. done. }
  eapply wpf_mono; [apply wpf_and; [exact Hm|exact Hkeep]|].
  intros a t [Ha [Hd Hh]]. apply HQ; [done|]. split; cbn; [by apply HR| |done|done]. intros u Hu. apply S2.
  apply elem_of_dom. rewrite <- Hd. by apply elem_of_dom.
Qed.

(** An untyped [u] of [sz] bits is in hand. *)
Definition gave_s (B : Z) (hd : option Z) L H (sz u : Z) s : Prop :=
  (u ∉ H) /\ L !! u = None /\ sos_inv B hd L ({[u]} ∪ H) s /\ exists n, ut_mem (uts s) !! u = Some n /\ size_bits n = sz.

Lemma get_untyped_inv F B hd L H s :
  sos_inv B hd L H s -> wpf F get_untyped (fun r s' => boot s' = boot s /\
    match r with None => free_untypeds (uts s) !! 8%nat = Some 0 /\ s' = s | Some u => gave_s B hd L H 12 u s' end) s.
Proof.
  intros Hs. unfold get_untyped. wp_line.
  eapply (in_ut_inv F _ B hd L H (fun _ => L) (fun r => match r with None => H | Some (u, _) => {[u]} ∪ H end)); [done|auto with keeps|right; auto with keeps| | |].
  - apply (ut_alloc_4k_inv F L H), Hs.
  - intros [[u a]|] t Ht; [by destruct Ht as (_ & _ & ? & _)|]. destruct Ht as [_ ->]. apply Hs.
  - intros [[u a]|] t Ht Hi; wp_line; (split; [done|]).
    + destruct Ht as (? & ? & ? & ?). by split_and!.
    + destruct Ht as [? ->]. split; [done|]. by destruct s.
Qed.
Lemma node_cap_inv F u n s (Q : Z -> sos K -> Prop) :
  ut_mem (uts s) !! u = Some n -> u ≠ 0 -> Q (cap n) s -> wpf F (node_cap u) Q s.
Proof.
  intros Hn Hu HQ. unfold node_cap, in_ut. wp_line. eapply wpf_load; [done..|]. wp_line. by destruct s.
Qed.
Lemma call_boot c s : boot (snd (invoke c s)) = boot s /\ uts (snd (invoke c s)) = uts s.
Proof. cbn. by destruct (invoke c (kern s)). Qed.
Lemma call_inv B hd L H c s : sos_inv B hd L H s -> sos_inv B hd L H (snd (invoke c s)).
Proof. intros [S1 S2 S4 S3]. destruct (call_boot c s) as [Hb Hu]. split; by rewrite ?Hb, ?Hu. Qed.
Lemma page_map_sos f vs v r a s : fst (invoke (Page_Map f vs v r a) s) = 0 -> v + PAGE_SIZE_4K ≤ user_top.
Proof. cbn. destruct (invoke _ (kern s)) as [e k] eqn:He. cbn. intros ->. apply (page_map_user f vs v r a (kern s)). by rewrite He. Qed.

(** The callback that maps a frame keeps the invariant and the address. *)
Lemma map_frame_cspace_inv F B hd L H f vsp v r a l used s :
  (length l = 4)%nat -> sos_inv B hd L H s -> wpf F (map_frame_cspace f vsp v r a l used) (fun x s' =>
    (sos_inv B hd L H s' /\ boot s' = boot s) /\ (x.1 = 0 -> v + PAGE_SIZE_4K ≤ user_top)) s.
Proof.
  intros Hlen Hs. unfold map_frame_cspace.
  apply (map_frame_impl_inv F _ _ _ _ _ _ (fun s' => sos_inv B hd L H s' /\ boot s' = boot s)
    (fun u s' => gave_s B hd L H 12 u s' /\ boot s' = boot s)); try done.
  - intros s1 [Hs1 Hb]. eapply wpf_mono; [by apply get_untyped_inv|]. intros [u|] s2 [Hb2 Hx]; [by rewrite Hb2|].
    destruct Hx as [_ ->]. done.
  - intros u s1 [Hg Hb]. destruct Hg as (? & ? & Hi & n & Hn & ?).
    eapply node_cap_inv; [done| |split; [|done]; by split_and!; [..|exists n]].
    destruct (inv_out _ _ _ (si_ut _ _ _ _ _ Hi) u) as (? & _); [set_solver|done].
  - intros i us u s1 Hi Hg. wp_line. unfold MAPPING_SLOTS in Hi.
    destruct (lookup_lt_is_Some_2 l (Z.to_nat i)) as [x Hx]; [lia|]. eapply wpf_access; [exact Hx|]. by wp_line.
  - intros u s1 [(_ & _ & [Hi1 Hi2 Hi4 Hi3] & _) Hb]. split; [|done]. split; try done. by eapply inv_drop.
  - intros c s1 [Hs1 Hb]. apply wpf_call. split; [by apply call_inv|]. destruct (call_boot c s1) as [-> _]. done.
  - intros ut slot ty s1 [Hs1 Hb]. wp_line. apply wpf_call. split; [by apply call_inv|].
    destruct (call_boot (retype_call (boot_root s1) (boot_two s1) ut slot ty seL4_PageBits) s1) as [-> _]. done.
  - intros s1 [Hs1 Hb]. apply wpf_call. split; [split; [by apply call_inv|]|apply page_map_sos].
    destruct (call_boot (Page_Map f vsp v r a) s1) as [-> _]. done.
Qed.

Lemma alloc_vaddr_inv F B hd L H (err : Z) s :
  sos_inv B hd L H s -> (err = 0 -> next_free_vaddr (boot s) + PAGE_SIZE_4K ≤ B) -> B < 2 ^ 64 ->
  wpf F (alloc_vaddr err) (fun r s' => sos_inv B hd L H s' /\
    (r = if bool_decide (err = 0) then Some (next_free_vaddr (boot s)) else None) /\ 
    (err = 0 -> next_free_vaddr (boot s') = next_free_vaddr (boot s) + PAGE_SIZE_4K) /\ uts s' = uts s) s.
Proof.
  intros [S1 S2 S4 S3] He HB. unfold alloc_vaddr. case_bool_decide as H0; wp_line.
  { rewrite bool_decide_eq_false_2 by done. by split_and!. }
  assert (err = 0) as -> by lia. specialize (He eq_refl). rewrite page_size in *.
  rewrite (bool_decide_eq_true_2 (0 = 0)) by done. rewrite w64_small by lia. split; [|split_and!; try done; intros _; cbn; lia].
  split; cbn; [done| |done|lia]. intros u Hu. specialize (S2 u Hu). lia.
Qed.

(** Running out of untypeds makes the callback of the space read through NULL. *)
(** The one fault of the callbacks: there is no 4K untyped for the space to grow. *)
Abbreviation NF := (fun f => f = NullUntyped).

Lemma out_not_null B hd L H u s : u ∈ H -> sos_inv B hd L H s -> u ≠ 0 /\ exists n, ut_mem (uts s) !! u = Some n.
Proof.
  intros Hu Hs. destruct (inv_out _ _ _ (si_ut _ _ _ _ _ Hs) u Hu) as (? & _ & n & ? & _). eauto.
Qed.
Lemma gave_out B hd L H sz u s : gave_s B hd L H sz u s -> u ≠ 0 /\ exists n, ut_mem (uts s) !! u = Some n.
Proof. intros (_ & _ & Hi & _). eapply out_not_null; [|exact Hi]. set_solver. Qed.
Lemma free_inv F B hd L H u s :
  u ∉ H -> sos_inv B hd L ({[u]} ∪ H) s -> wpf F (in_ut (ut_free u)) (fun _ => sos_inv B hd L H) s.
Proof.
  intros Hu Hs. eapply (in_ut_inv F _ B hd L _ (fun _ => L) (fun _ => H)); [done|auto with keeps|right; auto with keeps| | |].
  - apply (ut_free_inv F L H); [done|apply Hs].
  - done.
  - done.
Qed.
Lemma inv_drop_s B hd L H u s : sos_inv B hd L ({[u]} ∪ H) s -> sos_inv B hd L H s.
Proof. intros [S1 S2 S4 S3]. split; try done. by eapply inv_drop. Qed.

Lemma sos_laws B hd L : user_top ≤ B < 2 ^ 64 -> CspaceLaws NF (sos K) (sos_inv B hd L).
Proof.
  intros HB. split; intros; cbv [cb_alloc_4k_ut cb_free_4k_ut cb_map_frame calloc sos_env].
  - unfold bootstrap_cspace_alloc_4k_ut. wp_line. eapply wpf_mono; [by apply get_untyped_inv|].
    intros [u|] s1 [_ Hx]; wp_line; [|done]. destruct (gave_out _ _ _ _ _ _ _ Hx) as [Hu0 [n Hn]].
    unfold in_ut. wp_line. eapply wpf_load; [done..|]. wp_line. destruct Hx as (? & ? & Hi & _). by destruct s1.
  - by apply free_inv.
  - unfold bootstrap_cspace_map_frame. wp_line. eapply wpf_mono; [by apply map_frame_cspace_inv|].
    intros [err used'] s1 [[Hs1 Hb] HG]. wp_line. eapply wpf_mono; [apply (alloc_vaddr_inv _ B); [done| |lia]|].
    { intros He. rewrite Hb. cbn in HG. specialize (HG He). unfold user_top in *. lia. }
    intros r s2 (Hs2 & _). by wp_line.
  - wp_line. destruct (heap_alloc (kern e)) as [ok k]. wp_line. by destruct H0.
  - by apply call_inv.
  - by eapply inv_drop_s.
Qed.

(** ** Over the spaces *)

(** The space [p] has [n] slots and is well formed. *)
Definition wd_ok (B : Z) (hd : option Z) L H (p n : Z) w : Prop :=
  sos_inv B hd L H (env w) /\ exists c, spaces w !! p = Some c /\ space_ok c /\ slots c = n.

Section world.
Context (B : Z) (HB : user_top ≤ B < 2 ^ 64).

Lemma wd_env {A} F hd L H p n w (m : M (sos K) A) (P : A -> sos K -> Prop) (Q : A -> world (sos K) -> Prop) :
  wd_ok B hd L H p n w -> wpf F m P (env w) -> (forall a s, P a s -> Q a (set_env s w)) -> wpf F (in_env m) Q w.
Proof. intros _ Hm HQ. unfold in_env. wp_line. eapply wpf_mono; [exact Hm|done]. Qed.
(** The space is found again after a change of the services. *)
Lemma wd_set hd L H hd' L' H' p n w s : wd_ok B hd L H p n w -> sos_inv B hd' L' H' s -> wd_ok B hd' L' H' p n (set_env s w).
Proof. intros [_ Hc] Hs. by split. Qed.

Lemma slot_w hd L H p n w :
  wd_ok B hd L H p n w -> wpf NF (cspace_alloc_slot p) (fun r w' => wd_ok B hd L H p n w' /\ (r = 0 \/ 0 < r < n)) w.
Proof.
  intros [Hs (c & Hc & Hok & Hn)]. pose proof (sos_laws B hd L HB). eapply wpf_mono; [by apply (alloc_slot_spec NF (sos_inv B hd L) H)|].
  intros r w' (c' & e & -> & He & Hok' & Hss & Hr). split.
  - split; [done|]. exists c'. split; [apply lookup_insert_eq|]. split; [done|]. by rewrite (same_slots _ _ Hss).
  - destruct Hr as [[Hr _ _]|[-> _]]; [lia|by left].
Qed.
Lemma free_w hd L H p n k w :
  0 < k < n -> wd_ok B hd L H p n w -> wpf NF (cspace_free_slot p k) (fun _ w' => wd_ok B hd L H p n w') w.
Proof.
  intros Hk [Hs (c & Hc & Hok & Hn)]. eapply wpf_mono; [apply (free_slot_spec NF p k c); [done|done|lia]|].
  intros [] w' (c' & -> & Hok' & Hss & _). split; [done|]. exists c'. split; [apply lookup_insert_eq|]. split; [done|].
  by rewrite (same_slots _ _ Hss).
Qed.
Lemma kernel_w hd L H p n k w : wd_ok B hd L H p n w -> wpf NF (kernel k) (fun _ w' => wd_ok B hd L H p n w') w.
Proof.
  intros Hw. pose proof (sos_laws B hd L HB). apply (wpf_kernel NF (sos_inv B hd L) H); [apply Hw|].
  intros a e He. by apply (wd_set hd L H).
Qed.
Lemma retype_w hd L H p n u t ty sz w :
  wd_ok B hd L H p n w -> wpf NF (cspace_untyped_retype p u t ty sz) (fun _ w' => wd_ok B hd L H p n w') w.
Proof.
  intros Hw. pose proof Hw as [_ (c & Hc & _)]. unfold cspace_untyped_retype. wp_line. eapply wpf_cs; [done|]. by apply kernel_w.
Qed.
Lemma delete_w hd L H p n t w : wd_ok B hd L H p n w -> wpf NF (cspace_delete p t) (fun _ w' => wd_ok B hd L H p n w') w.
Proof.
  intros Hw. pose proof Hw as [_ (c & Hc & _)]. unfold cspace_delete. wp_line. eapply wpf_cs; [done|]. by apply kernel_w.
Qed.
(** An untyped is in hand. *)
Definition gave_w hd L H (p n sz u : Z) w : Prop :=
  (u ∉ H) /\ L !! u = None /\ wd_ok B hd L ({[u]} ∪ H) p n w /\ exists k, ut_mem (uts (env w)) !! u = Some k /\ size_bits k = sz.
Lemma untyped_w hd L H p n w :
  wd_ok B hd L H p n w -> wpf NF (in_env get_untyped) (fun r w' =>
    match r with None => wd_ok B hd L H p n w' /\ free_untypeds (uts (env w)) !! 8%nat = Some 0 | Some u => gave_w hd L H p n 12 u w' end) w.
Proof.
  intros Hw. eapply (wd_env NF); [done|apply get_untyped_inv, Hw|]. intros [u|] s [_ Hx].
  - destruct Hx as (? & ? & Hi & ?). split_and!; try done. by apply (wd_set hd L H).
  - destruct Hx as [? ->]. split; [|done]. apply (wd_set hd L H); [done|apply Hw].
Qed.
Lemma cap_w F hd L H p n u (Q : Z -> world (sos K) -> Prop) w :
  u ∈ H -> wd_ok B hd L H p n w -> (forall c, Q c w) -> wpf F (in_env (node_cap u)) Q w.
Proof.
  intros Hu Hw HQ. destruct (out_not_null _ _ _ _ _ _ Hu (proj1 Hw)) as [Hu0 [k Hk]].
  eapply (wd_env F _ _ _ _ _ _ _ (fun _ s => s = env w)); [exact Hw|by eapply node_cap_inv|]. intros c s ->. by destruct w.
Qed.
Lemma ut_free_w F hd L H p n u w :
  u ∉ H -> wd_ok B hd L ({[u]} ∪ H) p n w -> wpf F (in_env (in_ut (ut_free u))) (fun _ => wd_ok B hd L H p n) w.
Proof.
  intros Hu Hw. eapply (wd_env F); [exact Hw|apply free_inv; [done|apply Hw]|]. intros [] s Hs.
  by apply (wd_set hd L ({[u]} ∪ H)).
Qed.

Lemma map_frame_w hd L H p n f vsp v r a w :
  wd_ok B hd L H p n w ->
  wpf NF (map_frame p f vsp v r a) (fun e w' => wd_ok B hd L H p n w' /\ (e = 0 -> v + PAGE_SIZE_4K ≤ user_top)) w.
Proof.
  intros Hw. unfold map_frame. wp_line. eapply wpf_mono.
  { apply (map_frame_impl_inv NF _ _ _ _ _ _ (wd_ok B hd L H p n)
      (fun u w' => (u ∉ H) /\ wd_ok B hd L ({[u]} ∪ H) p n w') (v + PAGE_SIZE_4K ≤ user_top)); try done.
    - intros w1 Hw1. eapply wpf_mono; [by apply untyped_w|]. intros [u|] w2 Hx; [|apply Hx]. by destruct Hx as (? & _ & ? & _).
    - intros u w1 [Hu Hw1]. eapply cap_w; [|done|done]. set_solver.
    - intros i used u w1 _ [Hu Hw1]. wp_line. eapply wpf_mono; [by apply slot_w|]. intros x w2 [Hx _]. by wp_line.
    - intros u w1 [Hu [Hs Hc]]. split; [|done]. by eapply inv_drop_s.
    - intros c w1 Hw1. by apply kernel_w.
    - intros ut slot ty w1 Hw1. by apply retype_w.
    - intros w1 Hw1. apply wpf_and; [by apply kernel_w|]. unfold kernel, in_env. wp_line. apply wpf_call. apply page_map_sos. }
  intros [e us] w' Hx. by wp_line.
Qed.
End world.

(** ** Splitting *)

Section split.
(** The next free address can exceed the last that was mapped by one page. *)
Definition B0 : Z := user_top + PAGE_SIZE_4K.
Lemma B0_range : user_top ≤ B0 < 2 ^ 64.
Proof. by vm_compute. Qed.
Lemma top_range : user_top ≤ user_top < 2 ^ 64.
Proof. by vm_compute. Qed.
Context (p n : Z).

Lemma wd_bound B B' hd L H w :
  wd_ok B hd L H p n w -> next_free_vaddr (boot (env w)) ≤ B' -> wd_ok B' hd L H p n w.
Proof. intros [[S1 S2 S4 S3] Hc] HB. split; [|done]. split; try done. lia. Qed.
Lemma wd_none B hd L H w : wd_ok B hd L H p n w -> wd_ok B None L H p n w.
Proof. by intros [[S1 S2 S4 S3] Hc]. Qed.
Lemma wd_head B L H h w : wd_ok B None L H p n w -> free_structures (uts (env w)) = h -> wd_ok B (Some h) L H p n w.
Proof. by intros [[S1 S2 S4 S3] Hc] Hh. Qed.
Lemma wd_unkeep B hd L H u k w : L !! u = None -> wd_ok B hd (<[u := k]> L) H p n w -> wd_ok B hd L H p n w.
Proof. intros HL [[S1 S2 S4 S3] Hc]. split; [|done]. split; try done. by eapply inv_unkeep. Qed.
Lemma wd_drop B hd L H u w : wd_ok B hd L ({[u]} ∪ H) p n w -> wd_ok B hd L H p n w.
Proof. intros [Hs Hc]. split; [|done]. by eapply inv_drop_s. Qed.

(** An operation of the table. *)
Lemma ut_w {A} F B hd hd' L H (L' : A -> gmap Z ut_t) (H' : A -> gset Z) (m : M ut_table_t A) (R : A -> ut_table_t -> Prop)
    (Q : A -> world (sos K) -> Prop) w :
  wd_ok B hd L H p n w -> keeps mem_dom m -> (hd' = None \/ hd' = hd /\ keeps free_structures m) ->
  wpf F m R (uts (env w)) -> (forall a t, R a t -> ut_inv (L' a) (H' a) t) ->
  (forall a w', R a (uts (env w')) -> wd_ok B hd' (L' a) (H' a) p n w' -> Q a w') -> wpf F (in_env (in_ut m)) Q w.
Proof.
  intros Hw Hk Hst Hm HR HQ. unfold in_env. wp_line.
  assert (Hs : sos_inv B hd' L H (env w)) by (destruct Hst as [->|[-> _]]; [apply (wd_none B hd L H w Hw)|apply Hw]).
  eapply (in_ut_inv F m B hd' L H L' H' R); [done|done| |done|done|].
  - destruct Hst as [->|[-> ?]]; [by left|by right].
  - intros a t Ha Hi. apply HQ; [done|]. by apply (wd_set B hd L H).
Qed.

(** Two spare structures are there. *)
Definition two_free (t : ut_table_t) : Prop :=
  free_structures t ≠ 0 /\ exists k, ut_mem t !! free_structures t = Some k /\ next k ≠ 0.

Lemma bootstrap_map_frame_w hd L H f w :
  wd_ok B0 hd L H p n w -> wpf NF (bootstrap_map_frame p f) (fun r w' => wd_ok B0 hd L H p n w' /\
    match r with None => True | Some v => 0 < v /\ next_free_vaddr (boot (env w')) = v + PAGE_SIZE_4K /\
      forall u, is_Some (ut_mem (uts (env w')) !! u) -> u + sizeof_ut ≤ v end) w.
Proof.
  intros Hw. unfold bootstrap_map_frame. wp_line. destruct (decide (next_free_vaddr (boot (env w)) ≤ user_top)) as [Hle|Hgt].
  - eapply wpf_mono; [apply (map_frame_w _ top_range), (wd_bound B0); done|]. intros err w1 [Hw1 _].
    unfold in_env. wp_line. assert (Hb : sos_inv B0 hd L H (env w1)).
    { apply (wd_bound _ B0 _ _ _ _ Hw1). pose proof (si_next _ _ _ _ _ (proj1 Hw1)). pose proof B0_range. lia. }
    eapply wpf_mono; [apply (alloc_vaddr_inv NF B0 hd L H); [done| |apply B0_range]|].
    { intros _. pose proof (si_next _ _ _ _ _ (proj1 Hw1)). unfold B0. lia. }
    intros r s (Hs & -> & Hnext & Hu). split; [split; [done|apply Hw1]|]. case_bool_decide as He; [|done].
    split; [apply (si_next _ _ _ _ _ Hb)|]. split; [by apply Hnext|]. cbn [env set_env]. rewrite Hu.
    apply (si_mem _ _ _ _ _ Hb).
  - eapply wpf_mono; [apply (map_frame_w _ B0_range); done|]. intros err w1 [Hw1 HG].
    unfold in_env. wp_line. eapply wpf_mono; [apply (alloc_vaddr_inv NF B0 hd L H); [apply Hw1| |apply B0_range]|].
    { intros He. specialize (HG He). rewrite page_size in HG. lia. }
    intros r s (Hs & -> & Hnext & Hu). split; [by apply (wd_set B0 hd L H)|]. rewrite bool_decide_eq_false_2; [done|].
    intros He. specialize (HG He). rewrite page_size in HG. lia.
Qed.

(** The nodes of a page at [v]. *)
Definition page_nodes (v : Z) (l : list Z) : gmap Z ut_t := list_to_map ((fun i => (v + i * sizeof_ut, zero_ut)) <$> l).
Lemma page_nodes_None v l u : (forall i, i ∈ l -> u ≠ v + i * sizeof_ut) -> page_nodes v l !! u = None.
Proof.
  intros Hu. apply not_elem_of_list_to_map_1. rewrite <- list_fmap_compose. intros (i & Hi & Hin)%list_elem_of_fmap.
  by apply (Hu i).
Qed.
Lemma page_nodes_elem v l u k : page_nodes v l !! u = Some k -> exists i, i ∈ l /\ u = v + i * sizeof_ut.
Proof.
  intros Hu. apply elem_of_list_to_map_2 in Hu. apply list_elem_of_fmap in Hu as (i & [= -> _] & Hi). eauto.
Qed.

Lemma fresh_inv L H N t v :
  ut_inv L H t -> (forall u, is_Some (ut_mem t !! u) -> u < v) -> (forall u, is_Some (N !! u) -> v ≤ u) -> 0 < v ->
  ut_inv (N ∪ L) H (set_mem (N ∪ ut_mem t) t).
Proof.
  intros [(ls & st & [R1 R2 R3 R4 R5] & Hd) Hk H0 Ho] Hlt Hge Hv.
  assert (Hdis : N ##ₘ ut_mem t).
  { apply map_disjoint_spec. intros u x y Hx Hy. specialize (Hlt u (ex_intro _ _ Hy)). specialize (Hge u (ex_intro _ _ Hx)). lia. }
  assert (Hsub : ut_mem t ⊆ N ∪ ut_mem t) by (by apply map_union_subseteq_r).
  assert (HN : forall u, is_Some (ut_mem t !! u) -> N !! u = None).
  { intros u Hu. destruct (N !! u) eqn:E; [|done]. specialize (Hlt u Hu). specialize (Hge u ltac:(eauto)). lia. }
  split; cbn.
  - exists ls, st. split.
    + split; cbn; try done.
      * eapply Forall2_impl; [exact R1|]. intros h l. by apply chain_subseteq.
      * by eapply chain_subseteq.
      * intros i l u Hl Hu. destruct (R5 i l u Hl Hu) as (k & Hk' & ?). exists k. split; [by eapply lookup_weaken|done].
    + intros u Hu. destruct (Hd u Hu) as [? HL]. split; [done|]. rewrite lookup_union_None. split; [|done]. apply HN.
      apply elem_of_app in Hu as [Hu|Hu]; [|by eapply chain_elem].
      rewrite list_elem_of_In, in_concat in Hu. destruct Hu as (l & Hl & Hu). rewrite <- list_elem_of_In in Hl. apply list_elem_of_lookup in Hl as [i Hi].
      destruct (R5 i l u Hi) as (k & Hk' & _); [by apply list_elem_of_In|]. eauto.
  - by apply map_union_mono_l.
  - rewrite lookup_union_None. split; [|done]. destruct (N !! 0) eqn:E; [|done]. specialize (Hge 0 ltac:(eauto)). lia.
  - intros u Hu. destruct (Ho u Hu) as (? & ? & k & Hk' & ?). split; [done|]. rewrite lookup_union_None.
    split; [split; [apply HN; eauto|done]|]. exists k. split; [by eapply lookup_weaken|done].
Qed.

Lemma head_node L H t : ut_inv L H t -> free_structures t ≠ 0 -> exists k, ut_mem t !! free_structures t = Some k.
Proof.
  intros [(ls & st & [_ _ R3 _ _] & _) _ _ _] Hne. destruct st as [|u st]; [done|].
  destruct R3 as (-> & _ & k & Hk & _). eauto.
Qed.

(** Pushing the nodes of a fresh page. *)
Lemma push_page_w L H v w :
  (forall i, 0 ≤ i < 256 -> L !! (v + i * sizeof_ut) = None) -> 0 < v ->
  wd_ok B0 None (page_nodes v (seqZ 0 256) ∪ L) H p n w ->
  wpf NF (iterM (fun i => in_env (in_ut (push_structure (v + i * sizeof_ut)))) (seqZ 0 256))
    (fun _ w' => wd_ok B0 None L H p n w' /\ two_free (uts (env w'))) w.
Proof.
  intros HL Hv Hw. eapply wpf_mono; [apply (wpf_iter NF _ (fun r w' => exists j, r = seqZ j (256 - j) /\ 0 ≤ j ≤ 256 /\
    wd_ok B0 None (page_nodes v r ∪ L) H p n w' /\ (1 ≤ j -> free_structures (uts (env w')) ≠ 0) /\
    (2 ≤ j -> two_free (uts (env w')))))|].
  - exists 0. split; [done|]. split; [lia|]. split; [done|]. split; lia.
  - intros x r w1 (j & Hx & Hj & Hw1 & Hone & Htwo).
    assert (j < 256) by (destruct (decide (j < 256)); [done|]; rewrite seqZ_nil in Hx by lia; done).
    rewrite seqZ_cons in Hx by lia. injection Hx as -> ->. set (u := v + j * sizeof_ut).
    assert (Hu : (page_nodes v (seqZ (Z.succ j) (Z.pred (256 - j))) ∪ L) !! u = None).
    { apply lookup_union_None. split; [|apply HL; lia]. apply page_nodes_None. intros i Hi%elem_of_seqZ. unfold u, sizeof_ut. lia. }
    eapply (ut_w NF B0 None None _ H (fun _ => page_nodes v (seqZ (Z.succ j) (Z.pred (256 - j))) ∪ L) (fun _ => H));
      [exact Hw1|auto with keeps|by left|eapply push_structure_inv; [exact Hu|]| |].
    + rewrite insert_union_l. apply Hw1.
    + intros [] t (Hi & _). exact Hi.
    + intros [] w2 (_ & Hf & k & Hk & Hn) Hw2. exists (Z.succ j). split; [f_equal; lia|]. split; [lia|]. split; [exact Hw2|].
      assert (u ≠ 0) by (unfold u, sizeof_ut; lia). split; [by rewrite Hf|]. intros Hj2. split; [by rewrite Hf|].
      rewrite Hf. exists k. split; [done|]. rewrite Hn. apply Hone. lia.
  - intros [] w1 (j & Hx & Hj & Hw1 & _ & Htwo).
    assert (j = 256) as -> by (destruct (decide (j = 256)); [done|]; rewrite seqZ_cons in Hx by lia; done).
    split; [|apply Htwo; lia]. revert Hw1. unfold page_nodes. cbn. by rewrite map_empty_union.
Qed.

(** Whether the structures have to be replenished. *)
Lemma missing_w L H w : wd_ok B0 None L H p n w ->
  wpf NF (if bool_decide (free_structures (uts (env w)) = 0) then mret true
    else k ← in_env (in_ut (load (free_structures (uts (env w))))); mret (bool_decide (next k = 0)))
    (fun b w' => w' = w /\ (b = false -> two_free (uts (env w)))) w.
Proof.
  intros Hw. case_bool_decide as Hz; wp_line; [done|].
  destruct (head_node _ _ _ (si_ut _ _ _ _ _ (proj1 Hw)) Hz) as [k Hk]. unfold in_env, in_ut. wp_line.
  eapply wpf_load; [done|exact Hk|]. wp_line. split; [destruct w as [ss e]; by destruct e|].
  intros Hb%bool_decide_eq_false. split; [done|eauto].
Qed.

Lemma ensure_new_structures_w L H w :
  wd_ok B0 None L H p n w -> wpf NF (ensure_new_structures p) (fun r w' =>
    wd_ok B0 None L H p n w' /\ (r = true -> two_free (uts (env w')))) w.
Proof.
  intros Hw. unfold ensure_new_structures. wp_line. cbv zeta. wp_line. eapply wpf_mono; [by apply (missing_w L H)|].
  intros b w0 [-> Hb]. destruct b; cbn [negb]; [|wp_line; auto]. wp_line.
  eapply wpf_mono; [apply (untyped_w B0); done|]. intros [u|] w1 Hx; [|destruct Hx; by wp_line].
  destruct Hx as (Hu & HLu & Hw1 & _). wp_line. eapply wpf_mono; [apply (slot_w B0 B0_range); done|].
  intros cptr w2 [Hw2 _]. case_bool_decide; wp_line; [split; [by eapply wd_drop|done]|].
  eapply (cap_w B0); [|exact Hw2|]; [set_solver|]. intros c. wp_line.
  eapply wpf_mono; [apply (retype_w B0 B0_range); done|]. intros err w3 Hw3. cbv beta in Hw3. case_bool_decide; wp_line; [split; [by eapply wd_drop|done]|].
  eapply wpf_mono; [by apply bootstrap_map_frame_w|]. intros [v|] w4 [Hw4 Hv]; wp_line; [|split; [by eapply wd_drop|done]].
  apply wd_drop in Hw4. destruct Hv as (Hv & Hnext & Hmem). unfold in_env at 1. wp_line.
  set (w5 := set_env (fresh_nodes v (env w4)) w4).
  assert (Hw5 : wd_ok B0 None (page_nodes v (seqZ 0 256) ∪ L) H p n w5).
  { destruct Hw4 as [[S1 S2 S4 S3] Hc]. split; [|exact Hc]. split; [|cbn..].
    - apply (fresh_inv L H _ _ v); [done| | |done].
      + intros x Hx. specialize (Hmem x Hx). unfold sizeof_ut in Hmem. lia.
      + intros x [k Hk]. apply page_nodes_elem in Hk as (i & Hi%elem_of_seqZ & ->). unfold sizeof_ut. lia.
    - intros x [k Hx]. apply lookup_union_Some_raw in Hx as [Hx|[_ Hx]]; [|apply S2; eauto].
      apply page_nodes_elem in Hx as (i & Hi%elem_of_seqZ & ->).
      change (PAGE_SIZE_4K / sizeof_ut) with 256 in Hi. rewrite Hnext, page_size. unfold sizeof_ut. lia.
    - done.
    - done. }
  change (PAGE_SIZE_4K / sizeof_ut) with 256.
  eapply wpf_mono; [apply (push_page_w L H v w5); [|done|exact Hw5]|].
  - intros i Hi. destruct (L !! (v + i * sizeof_ut)) eqn:E; [|done].
    destruct (inv_lookup _ _ _ _ _ (si_ut _ _ _ _ _ (proj1 Hw4)) E) as [E' _]. specialize (Hmem _ (ex_intro _ _ E')). unfold sizeof_ut in *. lia.
  - intros [] w6 [Hw6 Htwo]. by wp_line.
Qed.

(** Kept nodes, over the spaces. *)
Lemma store_w hd L H u k f w : wd_ok B0 hd (<[u := k]> L) H p n w ->
  wpf NF (in_env (in_ut (store u f))) (fun _ => wd_ok B0 hd (<[u := f k]> L) H p n) w.
Proof.
  intros Hw. eapply (ut_w NF B0 hd hd _ H (fun _ => <[u := f k]> L) (fun _ => H)); [exact Hw|auto with keeps|right; auto with keeps| | |].
  - apply inv_store, Hw.
  - done.
  - done.
Qed.
Lemma push_structure_w hd L H u k w : L !! u = None -> wd_ok B0 hd (<[u := k]> L) H p n w ->
  wpf NF (in_env (in_ut (push_structure u))) (fun _ => wd_ok B0 None L H p n) w.
Proof.
  intros HL Hw. eapply (ut_w NF B0 hd None _ H (fun _ => L) (fun _ => H)); [exact Hw|auto with keeps|by left| | |].
  - eapply push_structure_inv; [exact HL|apply Hw].
  - by intros [] t (? & _).
  - done.
Qed.
Lemma push_list_head i u t : 0 ≤ i -> wpf (fun _ => True) (push_list i u) (fun _ t' => free_untypeds t' !! Z.to_nat i = Some u) t.
Proof.
  intros Hi. unfold push_list, list_head. wp_line. rewrite bool_decide_eq_true_2 by lia.
  destruct (free_untypeds t !! Z.to_nat i) as [h|] eqn:Hh; [|done]. cbn. unfold push, store, load. wp_line.
  case_bool_decide; [done|]. wp_line. destruct (ut_mem t !! u); [|done]. cbn. unfold set_list_head. wp_line. cbn.
  apply list_lookup_insert_eq. by eapply lookup_lt_Some.
Qed.
Lemma push_list_w hd L H i u k w : L !! u = None -> wd_ok B0 hd (<[u := k]> L) H p n w -> size_bits k = i + 4 -> 0 ≤ i < 9 ->
  wpf NF (in_env (in_ut (push_list i u))) (fun _ w' => wd_ok B0 None L H p n w' /\
    exists h, free_untypeds (uts (env w')) !! Z.to_nat i = Some h /\ h ≠ 0) w.
Proof.
  intros HL Hw Hs Hi. destruct (inv_lookup _ _ _ u k (si_ut _ _ _ _ _ (proj1 Hw)) (lookup_insert_eq _ _ _)) as [Hk Hu0].
  destruct (inv_release _ _ _ _ _ HL (si_ut _ _ _ _ _ (proj1 Hw))) as [HuH Hi']; [lia|].
  eapply (ut_w NF B0 hd None _ H (fun _ => L) (fun _ => H)); [exact Hw|auto with keeps|by left| | |].
  - apply wpf_and; [by eapply (push_list_inv NF L H)|apply push_list_head; lia].
  - by intros [] t [? _].
  - intros [] w' [_ Hh] Hw'. split; [done|]. by exists u.
Qed.

(** Take a spare structure and give it a slot. *)
Lemma take_structure_w {A} (kont : Z -> Z -> M (world (sos K)) A) hd L H k0 (Q : A -> world (sos K) -> Prop) w :
  wd_ok B0 hd L H p n w -> n ≤ 2 ^ 20 -> free_structures (uts (env w)) ≠ 0 ->
  ut_mem (uts (env w)) !! free_structures (uts (env w)) = Some k0 ->
  (forall u c k w', L !! u = None -> c = 0 \/ 0 < c < n -> wd_ok B0 (Some (next k0)) (<[u := k]> L) H p n w' ->
    wpf NF (kont u c) Q w') ->
  wpf NF (new ← in_env (in_ut pop_structure); s ← cspace_alloc_slot p; in_env (in_ut (store new (set_cap s)));;
    c ← in_env (node_cap new); kont new c) Q w.
Proof.
  intros Hw Hn Hne Hk0 HQ. wp_line.
  eapply (wpf_mono _ _ (fun u w' => L !! u = None /\ wd_ok B0 (Some (next k0)) (<[u := k0]> L) H p n w')).
  { eapply (ut_w NF B0 hd None _ H (fun u => <[u := k0]> L) (fun _ => H)); [exact Hw|auto with keeps|by left| | |].
    - eapply pop_structure_inv; [apply Hw|done].
    - intros u t (-> & _ & _ & k & Hk & Hi & _). by replace k0 with k by congruence.
    - intros u w' (-> & HL & _ & k & Hk & Hi & Hf) Hw'. split; [done|]. apply wd_head; [done|].
      by replace k0 with k by congruence. }
  intros u w1 [HL Hw1]. wp_line. eapply wpf_mono; [apply (slot_w B0 B0_range); exact Hw1|]. intros s w2 [Hw2 Hs]. wp_line.
  eapply wpf_mono; [by apply store_w|]. intros [] w3 Hw3. wp_line.
  destruct (inv_lookup _ _ _ u _ (si_ut _ _ _ _ _ (proj1 Hw3)) (lookup_insert_eq _ _ _)) as [Hk Hu0].
  eapply (wd_env B0 NF _ _ _ _ _ _ _ (fun c s' => c = s mod 2 ^ 20 /\ s' = env w3)); [exact Hw3|by eapply node_cap_inv|].
  intros c s' [-> ->]. replace (set_env (env w3) w3) with w3 by (by destruct w3).
  eapply HQ; [done| |exact Hw3]. destruct Hs as [->|Hs]; [by left|]. right. rewrite Z.mod_small; lia.
Qed.

(** What splitting leaves: on success the list of the size is not empty. *)
Definition split_post L H (size : Z) (r : bool) w : Prop := wd_ok B0 None L H p n w /\
  (r = true -> exists h, free_untypeds (uts (env w)) !! Z.to_nat (size - 4) = Some h /\ h ≠ 0).

Lemma free_larger_w hd L' L H size larger w :
  larger ∉ H -> wd_ok B0 hd L' ({[larger]} ∪ H) p n w ->
  (forall w', wd_ok B0 hd L' H p n w' -> wd_ok B0 None L H p n w') ->
  wpf NF (in_env (in_ut (ut_free larger));; mret false) (split_post L H size) w.
Proof.
  intros Hl Hw Hout. wp_line. eapply wpf_mono; [by apply ut_free_w|]. intros [] w' Hw'. wp_line. split; [auto|done].
Qed.

Lemma retype_halves_w hd L H size larger u1 u2 k1 k2 c1 c2 w :
  larger ∉ H -> 4 ≤ size < 12 -> L !! u1 = None -> L !! u2 = None -> u1 ≠ u2 ->
  size_bits k1 = size -> size_bits k2 = size -> 0 < c1 < n -> 0 < c2 < n ->
  wd_ok B0 hd (<[u1 := k1]> (<[u2 := k2]> L)) ({[larger]} ∪ H) p n w ->
  wpf NF (retype_halves p size larger u1 u2 c1 c2) (split_post L H size) w.
Proof.
  intros Hl Hsz HL1 HL2 Hne Hs1 Hs2 Hc1 Hc2 Hw. unfold retype_halves.
  assert (HL12 : (<[u2 := k2]> L) !! u1 = None) by (by rewrite lookup_insert_ne).
  wp_line. eapply (cap_w B0); [|exact Hw|]; [set_solver|]. intros lc. wp_line.
  eapply wpf_mono; [apply (retype_w B0 B0_range); exact Hw|]. intros err w1 Hw1. case_bool_decide as He1; wp_line.
  { eapply wpf_mono; [apply (free_w B0); [exact Hc1|exact Hw1]|]. intros [] w2 Hw2. wp_line.
    eapply wpf_mono; [apply (free_w B0); [exact Hc2|exact Hw2]|]. intros [] w3 Hw3. wp_line.
    eapply wpf_mono; [eapply push_structure_w; [exact HL12|exact Hw3]|]. intros [] w4 Hw4.
    eapply free_larger_w; [done|exact Hw4|]. intros w' Hw'. by eapply wd_unkeep. }
  eapply wpf_mono; [apply (retype_w B0 B0_range); exact Hw1|]. intros err2 w2 Hw2. case_bool_decide as He2; wp_line.
  { eapply wpf_mono; [apply (delete_w B0 B0_range); exact Hw2|]. intros x w3 Hw3. wp_line.
    eapply wpf_mono; [apply (free_w B0); [exact Hc1|exact Hw3]|]. intros [] w4 Hw4. wp_line.
    eapply wpf_mono; [apply (free_w B0); [exact Hc2|exact Hw4]|]. intros [] w5 Hw5. wp_line.
    eapply wpf_mono; [eapply push_structure_w; [exact HL12|exact Hw5]|]. intros [] w6 Hw6. wp_line.
    eapply wpf_mono; [eapply push_structure_w; [exact HL2|exact Hw6]|]. intros [] w7 Hw7.
    eapply free_larger_w; [done|exact Hw7|done]. }
  apply wd_drop in Hw2. unfold SIZE_BITS_TO_INDEX, seL4_EndpointBits.
  eapply wpf_mono; [eapply push_list_w; [exact HL12|exact Hw2|lia|lia]|]. intros [] w3 [Hw3 _]. wp_line.
  eapply wpf_mono; [eapply push_list_w; [exact HL2|exact Hw3|lia|lia]|]. intros [] w4 [Hw4 Hh]. by wp_line.
Qed.

Lemma split_untyped_w L H size larger w :
  wd_ok B0 None L ({[larger]} ∪ H) p n w -> larger ∉ H -> n ≤ 2 ^ 20 -> 4 ≤ size < 12 -> two_free (uts (env w)) ->
  wpf NF (split_untyped p size larger) (split_post L H size) w.
Proof.
  intros Hw Hl Hn Hsz [Hne (k0 & Hk0 & Hnext)]. unfold split_untyped.
  assert (Hsize : forall k, size_bits (set_size_bits size k) = size) by (intros; cbn; rewrite Z.mod_small; lia).
  eapply (take_structure_w _ None); [exact Hw|done..|]. intros u1 c1 k1 w1 HL1 Hc1 Hw1. case_bool_decide as Hz1.
  { eapply free_larger_w; [done|exact Hw1|]. intros w' Hw'. by eapply wd_none, wd_unkeep. }
  unfold seL4_CapNull in Hz1. destruct Hc1 as [?|Hc1]; [done|]. wp_line.
  eapply wpf_mono; [by apply store_w|]. intros [] w2 Hw2. cbv beta in Hw2.
  assert (Hf2 : free_structures (uts (env w2)) ≠ 0) by (by rewrite (si_head _ _ _ _ _ (proj1 Hw2))).
  destruct (head_node _ _ _ (si_ut _ _ _ _ _ (proj1 Hw2)) Hf2) as [k02 Hk02].
  eapply (take_structure_w _ (Some (next k0))); [exact Hw2|done..|]. intros u2 c2 k2 w3 HL2 Hc2 Hw3.
  assert (Hne12 : u1 ≠ u2) by (intros ->; by rewrite lookup_insert_eq in HL2).
  rewrite lookup_insert_ne in HL2 by done. case_bool_decide as Hz2; wp_line.
  { eapply wpf_mono; [apply (free_w B0); [exact Hc1|exact Hw3]|]. intros [] w4 Hw4.
    eapply free_larger_w; [done|exact Hw4|]. intros w' Hw'. eapply wd_none, (wd_unkeep _ _ _ _ u1), wd_unkeep; [done| |exact Hw'].
    by rewrite lookup_insert_ne. }
  unfold seL4_CapNull in Hz2. destruct Hc2 as [?|Hc2]; [done|].
  eapply wpf_mono; [apply store_w; exact Hw3|]. intros [] w4 Hw4. cbv beta in Hw4. rewrite insert_insert_ne in Hw4 by done.
  by eapply retype_halves_w.
Qed.

(** ** Allocation *)

(** Nine levels are enough: from [size] up to a page. *)
Lemma ut_alloc_rec_w fuel L H size w :
  wd_ok B0 None L H p n w -> n ≤ 2 ^ 20 -> 4 ≤ size ≤ 12 -> 12 - size < Z.of_nat fuel ->
  wpf NF (ut_alloc_rec fuel size p) (fun r w' =>
    match r with None => wd_ok B0 None L H p n w' /\ free_untypeds (uts (env w)) !! Z.to_nat (size - 4) = Some 0 | Some u => gave_w B0 None L H p n size u w' end) w.
Proof.
  revert size w. induction fuel as [|fuel IH]; intros size w Hw Hn Hsz Hf; [lia|]. cbn [ut_alloc_rec].
  rewrite bool_decide_eq_false_2 by (unfold seL4_PageBits; lia). rewrite bool_decide_eq_false_2 by (unfold seL4_EndpointBits; lia).
  case_bool_decide as Hp; [unfold seL4_PageBits in Hp; subst size; by apply untyped_w|]. unfold seL4_PageBits in Hp. wp_line.
  unfold SIZE_BITS_TO_INDEX, seL4_EndpointBits. unfold in_env at 1, in_ut at 1. wp_line.
  apply (list_head_cases _ L H); [apply Hw|lia|]. intros h Hh.
  replace (set_env (set_uts (uts (env w)) (env w)) w) with w by (destruct w as [ss e]; by destruct e).
  wp_line. eapply (wpf_mono _ _ (fun ok w1 => split_post L H size ok w1 /\ (ok = false -> h = 0))).
  - case_bool_decide as Hz; [|wp_line; split; [split; [done|eauto]|done]].
    eapply (wpf_mono _ _ (split_post L H size)); [|by intros].
    wp_line. eapply wpf_mono; [apply IH; lia || done|].
    intros [larger|] w1 Hx; wp_line; [|destruct Hx; by split]. destruct Hx as (Hl & HLl & Hw1 & _).
    eapply wpf_mono; [by apply ensure_new_structures_w|]. intros [|] w2 [Hw2 Htwo].
    + apply split_untyped_w; [done|done|done|lia|by apply Htwo].
    + eapply free_larger_w; [done|exact Hw2|done].
  - intros ok w1 [[Hw1 Hok] Hz]. destruct ok; wp_line; [|split; [done|by rewrite Hh, Hz]]. destruct (Hok eq_refl) as (h' & Hh' & Hne).
    eapply (ut_w NF B0 None None L H (fun _ => L) (fun u => {[u]} ∪ H)); [exact Hw1|auto with keeps|by left| | |].
    + eapply pop_list_inv; [apply Hw1|lia|exact Hh'|done].
    + by intros u t (_ & _ & ? & _).
    + intros u w2 (Hu1 & Hu2 & _ & Hu4) Hw2. wp_line. split_and!; try done.
      replace (size - 4 + 4) with size in Hu4 by lia. done.
Qed.
End split.

(** C13: [ut_alloc] ends, and returns an untyped of the size asked for that nobody holds, or
    NULL, which it does only if no untyped of that size is free; held untypeds and kept
    nodes are untouched whatever it splits, allocates and maps, and the table, the spare
    structures and the space stay well formed.  A size outside the supported ones is
    refused.  The only fault is the read through NULL in the callback of the space, when the
    space has to grow and no 4K untyped is left; there is no other NULL dereference. *)
Theorem ut_alloc_correct L H (size p n : Z) (w : world (sos K)) :
  wd_ok B0 None L H p n w -> n ≤ 2 ^ 20 ->
  wpf NF (ut_alloc size p) (fun r w' =>
    if bool_decide (4 ≤ size ≤ 12) then
      match r with None => wd_ok B0 None L H p n w' /\ free_untypeds (uts (env w)) !! Z.to_nat (size - 4) = Some 0 | Some u => gave_w B0 None L H p n size u w' end
    else r = None /\ w' = w) w.
Proof.
  intros Hw Hn. case_bool_decide as Hs; [apply ut_alloc_rec_w; lia || done|]. unfold ut_alloc. cbn [ut_alloc_rec].
  case_bool_decide as H1; [by wp_line|]. rewrite bool_decide_eq_true_2; [by wp_line|].
  unfold seL4_PageBits, seL4_EndpointBits in *. lia.
Qed.

(** ** The slots a mapping uses *)

Lemma get_untyped_rep F ls st l (s : sos K) :
  ut_rep (uts s) ls st -> ls !! 8%nat = Some l -> wpf F get_untyped (fun r s' =>
    match r, l with
    | None, [] => s' = s
    | Some u, x :: l' => u = x /\ u ≠ 0 /\ ut_rep (uts s') (<[8%nat := l']> ls) st /\ is_Some (ut_mem (uts s') !! u)
    | _, _ => False
    end) s.
Proof.
  intros Hr Hl. unfold get_untyped, in_ut, ut_alloc_4k_untyped.
  destruct (Forall2_lookup_r _ _ _ _ _ (rep_lists _ _ _ Hr) Hl) as (h & Hh & Hc). wp_line.
  apply (wpf_list_head _ 8 h); [done|]. destruct l as [|x l'].
  - cbn in Hc. subst h. rewrite bool_decide_eq_true_2 by done. wp_line. by destruct s.
  - pose proof Hc as (-> & Hx & _). rewrite bool_decide_eq_false_2 by done. wp_line.
    destruct (rep_pop F _ _ _ 8 x l' Hr Hl) as (k & Hk & _ & Hw & Hr'). eapply wpf_mono; [exact Hw|].
    intros _ t [-> ->]. wp_line. split; [done|]. split; [done|]. split; [by apply rep_n_4k|]. cbn. eauto.
Qed.

Lemma call_rep F c ls st (s : sos K) (Q : Z -> sos K -> Prop) :
  ut_rep (uts s) ls st -> (forall e s', ut_rep (uts s') ls st -> ut_mem (uts s') = ut_mem (uts s) -> Q e s') -> wpf F (call c) Q s.
Proof. intros Hr HQ. apply wpf_call. destruct (call_boot c s) as [_ Hu]. apply HQ; by rewrite Hu. Qed.

Section used.
Context (f vsp v : Z) (r : seL4_CapRights) (a : seL4_VMAttributes) (slots : list Z) (Hslots : length slots = 4%nat).
(** The mask with the bits from [i] on, [m] of them, set. *)
Definition rounds (used i m : Z) : Z := Z.lor used (Z.shiftl (Z.ones m) i).
Definition used_post (used i : Z) ls st (l : list Z) (x : Z * Z) (s : sos K) : Prop := exists m : nat,
  Z.of_nat m ≤ 3 - i /\ (m ≤ length l)%nat /\ x.2 = rounds used i (Z.of_nat m) /\ ut_rep (uts s) (<[8%nat := drop m l]> ls) st.

Lemma rounds_0 used i : rounds used i 0 = used.
Proof. unfold rounds. by rewrite Z.shiftl_0_l, Z.lor_0_r. Qed.
Lemma rounds_S used i m : 0 ≤ i -> rounds (Z.lor used (BIT i)) (i + 1) (Z.of_nat m) = rounds used i (Z.of_nat (S m)).
Proof.
  intros Hi. unfold rounds. rewrite <- Z.lor_assoc. f_equal. apply Z.bits_inj'. intros j Hj.
  rewrite Z.lor_spec, BIT_testbit, !Z.shiftl_spec by lia. destruct (decide (j < i)).
  { rewrite !Z.testbit_neg_r by lia. by rewrite bool_decide_eq_false_2 by lia. }
  destruct (decide (j = i)) as [->|].
  - rewrite bool_decide_eq_true_2 by done. cbn. symmetry. rewrite Z.sub_diag. apply Z.ones_spec_low. lia.
  - rewrite bool_decide_eq_false_2 by done. cbn [orb]. rewrite !Z.testbit_ones by lia. apply eq_true_iff_eq.
    rewrite !andb_true_iff, !Z.leb_le, !Z.ltb_lt. lia.
Qed.

Lemma map_loop_used F k : forall i (err used : Z) l ls st (s : sos K),
  0 ≤ i -> i + Z.of_nat k = 3 -> ut_rep (uts s) ls st -> ls !! 8%nat = Some l ->
  wpf F (map_loop get_untyped node_cap call lookup_level
    (fun ut slot type => s ← get; call (retype_call (boot_root s) (boot_two s) ut slot type seL4_PageBits))
    (fun i used => slot ← access (slots !! Z.to_nat i); mret (slot, Z.lor used (BIT i)))
    f vsp v r a (seqZ i (Z.of_nat k)) err used) (used_post used i ls st l) s.
Proof.
  induction k as [|k IH]; intros i err used l ls st s Hi Hik Hr Hl.
  all: assert (Hstop : forall e s', ut_rep (uts s') ls st -> used_post used i ls st l (e, used) s')
    by (intros e s' Hr'; exists 0%nat; rewrite rounds_0, list_insert_id by done; split_and!; lia || done).
  { cbn. apply Hstop, Hr. }
  rewrite seqZ_cons by lia. replace (Z.pred (Z.of_nat (S k))) with (Z.of_nat k) by lia. cbn [map_loop].
  case_bool_decide as He; wp_line; [by apply Hstop|]. unfold lookup_level. wp_line.
  eapply wpf_mono; [by apply (get_untyped_rep F ls st l)|]. intros [u|] s1 Hu; wp_line.
  2:{ destruct l; [|done]. subst s1. by apply Hstop. }
  destruct l as [|x l]; [done|]. destruct Hu as (-> & Hx0 & Hr1 & [nd Hnd]).
  assert (Hl1 : <[8%nat := l]> ls !! 8%nat = Some l) by (apply list_lookup_insert_eq; by eapply lookup_lt_Some).
  destruct (lookup_lt_is_Some_2 slots (Z.to_nat i)) as [sl Hsl]; [lia|]. eapply wpf_access; [exact Hsl|]. wp_line.
  assert (Hone : forall x0 s', used_post (Z.lor used (BIT i)) (i + 1) (<[8%nat := l]> ls) st l x0 s' -> used_post used i ls st (x :: l) x0 s').
  { intros x0 s' (m & Hm1 & Hm2 & Hm3 & Hm4). exists (S m). rewrite list_insert_insert_eq in Hm4. rewrite <- rounds_S by done.
    split_and!; cbn; lia || done. }
  assert (Hend : forall e s', ut_rep (uts s') (<[8%nat := l]> ls) st -> used_post (Z.lor used (BIT i)) (i + 1) (<[8%nat := l]> ls) st l (e, Z.lor used (BIT i)) s').
  { intros e s' Hr'. exists 0%nat. rewrite rounds_0, drop_0, (list_insert_id _ _ _ Hl1). split_and!; lia || done. }
  case_bool_decide; wp_line; [by apply Hone, Hend|]. eapply node_cap_inv; [done..|]. wp_line.
  eapply (wpf_mono _ _ (fun _ s' => ut_rep (uts s') (<[8%nat := l]> ls) st)).
  - unfold add_level, retype_map_pt, retype_map_pd, retype_map_pud.
    repeat (case_bool_decide; [wp_line; eapply call_rep; [done|]; intros e s2 Hr2 _; case_bool_decide; [by wp_line|by eapply call_rep]|]).
    by wp_line.
  - intros e s2 Hr2. wp_line. eapply (wpf_mono _ _ (fun _ s' => ut_rep (uts s') (<[8%nat := l]> ls) st)).
    { case_bool_decide; [by wp_line|]. by eapply call_rep. }
    intros e3 s3 Hr3. eapply wpf_mono; [apply (IH (Z.succ i)); [lia|lia|done|done]|]. intros x0 s'. by apply Hone.
Qed.

(** Mapping a frame with the slots kept for growth ends, marks as used exactly the slots it
    consumed, which are the first ones, and takes one 4K untyped for each of them. *)
Theorem map_frame_cspace_uses ls st l (used : Z) (s : sos K) :
  ut_rep (uts s) ls st -> ls !! 8%nat = Some l ->
  wp (map_frame_cspace f vsp v r a slots used) (fun x s' => exists m : nat, (m ≤ 3)%nat /\ (m ≤ length l)%nat /\
    x.2 = Z.lor used (Z.ones (Z.of_nat m)) /\ ut_rep (uts s') (<[8%nat := drop m l]> ls) st) s.
Proof.
  intros Hr Hl. unfold map_frame_cspace, map_frame_impl. wp_line. eapply call_rep; [done|]. intros e s1 Hr1 _.
  eapply wpf_mono; [by apply (map_loop_used (fun _ => False) 3 0)|]. intros x s' (m & Hm1 & Hm2 & Hm3 & Hm4).
  exists m. unfold rounds in Hm3. rewrite Z.shiftl_0_r in Hm3. split_and!; lia || done.
Qed.
End used.
End safety.
