(* ===== verification/MappingDemo.v ===== *)
(** * Untypeds and mappings, evaluated

    A kernel that answers from a script but maps no page outside the address
    space of a user, and a small system over it: instances of the theorems of
    [MappingSafety], and runs of the paths that lose resources. *)

From S2P Require Import Prelude Arith Kernel Bitfield Cspace CspaceSafety CspaceDemo Untyped Mapping MappingSafety.

Record ukernel := Ukernel { answers : script; heap_ok : list bool }.
#[export] Instance ukernel_kernel : Kernel ukernel := {
  invoke c k :=
    match c with
    | Page_Map _ _ v _ _ =>
      if bool_decide (v + PAGE_SIZE_4K ≤ user_top)
      then let '(e, s) := invoke c (answers k) in (e, Ukernel s (heap_ok k)) else (1, k)
    | _ => let '(e, s) := invoke c (answers k) in (e, Ukernel s (heap_ok k))
    end;
  seL4_MappingFailedLookupLevel k := level (answers k);
  seL4_CNode_CapData_new guard bits := Z.lor (Z.shiftl guard 6) bits;
}.
#[export] Instance ukernel_heap : Heap ukernel := fun k =>
  match heap_ok k with [] => (true, k) | b :: r => (b, Ukernel (answers k) r) end.
#[export] Instance ukernel_laws : KernelLaws ukernel.
Proof.
  intros f vs v r a k. unfold invoke, ukernel_kernel. case_bool_decide; [done|]. by intros ?.
Qed.

(** Four pages of memory, the last three free. *)
Definition table3 : ut_table_t :=
  Table (list_to_map [(0x8000, zero_ut); (0x8010, Ut 701 true 12 0); (0x8020, Ut 702 true 12 0x8010); (0x8030, Ut 703 true 12 0x8020)])
    0x1000000 0x8000 (<[8%nat := 0x8030]> (replicate 9 0)) 3 0.
Definition sos0 (codes : list Z) : sos ukernel :=
  Sos table3 (BootData 0x9000 3) 2 false SOS_DEVICE_START (Ukernel (Script [] codes SEL4_MAPPING_LOOKUP_NO_PT) []).
Definition world0 (codes : list Z) : world (sos ukernel) := World {[1 := one]} (sos0 codes).

Lemma table3_rep : ut_rep table3 (<[8%nat := [0x8030; 0x8020; 0x8010]]> (replicate 9 [])) [].
Proof.
  split; try done.
  - repeat apply Forall2_cons_2; try apply Forall2_nil_2; try done. repeat (split; [done|]; split; [done|]; eexists; split; [reflexivity|]). done.
  - apply (bool_decide_unpack _). by vm_compute.
  - intros i l u Hl Hu. apply list_lookup_insert_Some in Hl as [(<- & <- & _)|(_ & [-> _]%lookup_replicate)].
    + apply elem_of_cons in Hu as [->|[->|[->|[]%elem_of_nil]%elem_of_cons]%elem_of_cons]; by eexists.
    + by apply elem_of_nil in Hu.
Qed.
Lemma world0_ok codes : wd_ok B0 None ∅ ∅ 1 128 (world0 codes).
Proof.
  split; [split|].
  - split; [|by apply map_empty_subseteq|done|set_solver]. eexists _, _. split; [exact table3_rep|]. intros u _. split; [set_solver|done].
  - intros u [k Hk]. cbn in Hk. repeat (apply lookup_insert_Some in Hk as [[<- _]|[_ Hk]]; [by vm_compute|]).
    by rewrite lookup_empty in Hk.
  - done.
  - by vm_compute.
  - exists one. split; [done|]. split; [exact one_ok|done].
Qed.

Lemma ut_alloc_correct_witness :
  exists w', run (ut_alloc 9 1) (world0 []) = Ok (Some 0x9fa0, w') /\ wd_ok B0 None ∅ {[0x9fa0]} 1 128 w'.
Proof.
  destruct (wpf_value _ _ _ _ (Some 0x9fa0) (ut_alloc_correct ∅ ∅ 9 1 128 (world0 []) (world0_ok []) ltac:(lia)))
    as (w' & Hw & Hp); [by vm_compute|]. exists w'. split; [exact Hw|]. cbn in Hp. destruct Hp as (_ & _ & Hp & _).
  by rewrite union_empty_r_L in Hp.
Defined.

Lemma map_frame_cspace_uses_witness :
  exists s', run (map_frame_cspace 50 3 0x9000 seL4_AllRights seL4_ARM_Default_VMAttributes [10; 11; 12; 13] 0)
    (sos0 [seL4_FailedLookup]) = Ok ((0, 1), s') /\
    exists m, ut_rep (uts s') (<[8%nat := drop m [0x8030; 0x8020; 0x8010]]> (<[8%nat := [0x8030; 0x8020; 0x8010]]> (replicate 9 []))) [] /\
      Z.ones (Z.of_nat m) = 1.
Proof.
  destruct (wpf_value _ _ _ _ (0, 1) (map_frame_cspace_uses 50 3 0x9000 seL4_AllRights seL4_ARM_Default_VMAttributes [10; 11; 12; 13] eq_refl
    _ _ [0x8030; 0x8020; 0x8010] 0 (sos0 [seL4_FailedLookup]) table3_rep eq_refl)) as (s' & Hs & m & _ & _ & Hm & Hr); [by vm_compute|].
  exists s'. split; [exact Hs|]. exists m. split; [exact Hr|exact (eq_sym Hm)].
Defined.

(** ** Runs *)

(** The smallest untyped takes eight splits. *)
Lemma smallest_run : value_of (ut_alloc 4 1 (world0 [])) = Some (Some 0x9f00).
Proof. by vm_compute. Qed.

(** Without a 4K untyped the callback of the space does not return NULL. *)
Lemma alloc_4k_ut_null codes :
  run bootstrap_cspace_alloc_4k_ut (set_uts (Table ∅ 0 0 (replicate 9 0) 0 0) (sos0 codes)) = Fault NullUntyped.
Proof. by vm_compute. Qed.

(** The head of the spare structures and the one after it. *)
Definition spare (w : world (sos ukernel)) : Z * option Z :=
  let t := uts (env w) in (free_structures t, next <$> ut_mem t !! free_structures t).
(** When the first retype of a split fails, the structure of the second half is
    lost: the list continues with the third structure of the page.  When the
    second retype fails, both come back. *)
Lemma split_leaks_structure :
  match ut_alloc 11 1 (world0 [0; 0; 9]), ut_alloc 11 1 (world0 [0; 0; 0; 9]) with
  | Ok (None, w1), Ok (None, w2) => spare w1 = (0x9ff0, Some 0x9fd0) /\ spare w2 = (0x9fe0, Some 0x9ff0)
  | _, _ => False
  end.
Proof. by vm_compute. Qed.

(** A device page is mapped at the next address for devices. *)
Lemma map_device_run :
  match sos_map_device 1 0x1001800 0x1000 (world0 []) with
  | Ok (r, w') => r = Some SOS_DEVICE_START /\ device_virt (env w') = SOS_DEVICE_START + PAGE_SIZE_4K
  | Fault _ => False
  end.
Proof. by vm_compute. Qed.
