(* ===== verification/Dma.v ===== *)
(** * Memory for devices

    Models [sos/src/dma.c]: one large page, handed out front to back and never
    freed.  The region is mapped without a capability space, so a missing
    paging structure makes the mapping read through NULL. *)

From Stdlib Require Import Sorting.Sorted.
From S2P Require Import Prelude Arith Kernel Bitfield Cspace CspaceSafety CspaceDemo Untyped Mapping MappingSafety MappingDemo.

Definition DMA_ALIGN_BITS : Z := 7.
Definition DMA_ALIGN (a : Z) : Z := ROUND_UP a DMA_ALIGN_BITS.

(** The field [cap] of the source is never used. *)
Record dma_t := Dma { vstart : Z; pstart : Z; pnext : Z; pend : Z; dma_vspace : Z }.
Record dma_addr_t := DmaAddr { vaddr : Z; paddr : Z }.

Definition sos_dma_phys_to_virt (dma : dma_t) (phys : Z) : Z := w64 (vstart dma + (phys - pstart dma)).
Definition sos_dma_virt_to_phys (dma : dma_t) (virt : Z) : Z := w64 (pstart dma + (virt - vstart dma)).

Section dma.
Context {K : Type} `{!Kernel K, !Heap K}.
Record system := System { dma : dma_t; rest : world (sos K) }.
Definition set_dma v (s : system) := System v (rest s).
Definition in_rest {A} (m : M (world (sos K)) A) : M system A := zoom rest (fun w s => System (dma s) w) m.

Definition dma_init (cspace vspace ut pstart vstart : Z) : M system Z :=
  if bool_decide (ut = seL4_CapNull) || bool_decide (vspace = seL4_CapNull) || bool_decide (cspace = 0) || bool_decide (pstart = 0)
  then mret (-1)
  else
    modify (set_dma (Dma vstart pstart pstart (w64 (pstart + BIT seL4_LargePageBits)) vspace));;
    s ← get;
    in_rest (map_frame 0 ut (dma_vspace (dma s)) (sos_dma_phys_to_virt (dma s) pstart) seL4_AllRights seL4_ARM_Default_VMAttributes).

Definition sos_dma_cache_invalidate (addr size : Z) : M system Z :=
  s ← get; in_rest (kernel (VSpace_Invalidate_Data (dma_vspace (dma s)) addr (w64 (addr + size)))).
Definition sos_dma_cache_clean (addr size : Z) : M system Z :=
  s ← get; in_rest (kernel (VSpace_Clean_Data (dma_vspace (dma s)) addr (w64 (addr + size)))).
Definition sos_dma_cache_clean_invalidate (addr size : Z) : M system Z :=
  s ← get; in_rest (kernel (VSpace_CleanInvalidate_Data (dma_vspace (dma s)) addr (w64 (addr + size)))).

Definition set_pnext (v : Z) : M system unit :=
  modify (fun s => set_dma (Dma (vstart (dma s)) (pstart (dma s)) v (pend (dma s)) (dma_vspace (dma s))) s).

(** [align] is an [int], widened to a word; rounding to 0 divides by it. *)
Definition sos_dma_malloc (size align : Z) : M system dma_addr_t :=
  s ← get;
  set_pnext (DMA_ALIGN (pnext (dma s)));;
  if bool_decide (align = 0) then throw Undefined
  else
    s ← get;
    set_pnext (ROUND_UP (pnext (dma s)) (w64 align));;
    s ← get;
    if bool_decide (pend (dma s) ≤ w64 (pnext (dma s) + size)) then mret (DmaAddr 0 0)
    else
      let addr := DmaAddr (sos_dma_phys_to_virt (dma s) (pnext (dma s))) (pnext (dma s)) in
      set_pnext (w64 (pnext (dma s) + size));;
      sos_dma_cache_clean_invalidate (vaddr addr) size;;
      mret addr.
End dma.
Arguments system K : clear implicits.

(** ** Addresses *)

Lemma virt_phys_id d v : is_w64 v -> sos_dma_phys_to_virt d (sos_dma_virt_to_phys d v) = v.
Proof.
  intros Hv. unfold sos_dma_phys_to_virt, sos_dma_virt_to_phys, w64.
  rewrite Z.add_sub_assoc, Zminus_mod, Zplus_mod_idemp_r, <- Zminus_mod.
  replace (vstart d + (pstart d + (v - vstart d)) - pstart d) with v by lia. by apply Z.mod_small.
Qed.
Lemma round_up_spec n b : 0 ≤ n -> 0 < b -> n + b ≤ 2 ^ 64 -> n ≤ ROUND_UP n b < n + b /\ ROUND_UP n b mod b = 0.
Proof.
  intros Hn Hb Hs. unfold ROUND_UP. pose proof (Z.mod_pos_bound n b Hb).
  case_bool_decide as Hm; rewrite w64_small by lia; [rewrite Z.add_0_r; lia|]. split; [lia|].
  replace (n + (b - n mod b)) with (b * (n / b + 1)) by (pose proof (Z.div_mod n b); lia).
  rewrite Z.mul_comm. apply Z.mod_mul. lia.
Qed.

(** ** Allocation *)

Section malloc.
Context {K : Type} `{!Kernel K, !Heap K}.
Implicit Types (s : system K).

(** Only [pnext] moves. *)
Definition moved s (v : Z) s' : Prop :=
  dma s' = Dma (vstart (dma s)) (pstart (dma s)) v (pend (dma s)) (dma_vspace (dma s)).

Lemma malloc_spec F size align s :
  0 ≤ pnext (dma s) -> 0 < align < 2 ^ 31 -> 0 ≤ size < 2 ^ 32 -> pnext (dma s) + 2 ^ 33 < 2 ^ 64 -> 0 ≤ pend (dma s) ->
  wpf F (sos_dma_malloc size align) (fun a s' => exists v, pnext (dma s) ≤ v < pnext (dma s) + 2 ^ 32 /\ v mod align = 0 /\
    if bool_decide (pend (dma s) ≤ v + size) then a = DmaAddr 0 0 /\ moved s v s'
    else a = DmaAddr (sos_dma_phys_to_virt (dma s) v) v /\ moved s (v + size) s') s.
Proof.
  intros H0 Ha Hz Hr Hp. unfold sos_dma_malloc, set_pnext. wp_line. rewrite bool_decide_eq_false_2 by lia. wp_line. cbn [dma set_dma pnext pend].
  destruct (round_up_spec (pnext (dma s)) DMA_ALIGN_BITS) as [Hu1 _]; [done|done|unfold DMA_ALIGN_BITS; lia|].
  fold (DMA_ALIGN (pnext (dma s))) in Hu1. unfold DMA_ALIGN_BITS in Hu1.
  rewrite (w64_small align) by lia. destruct (round_up_spec (DMA_ALIGN (pnext (dma s))) align) as [Hu2 Hm]; [lia|lia|lia|].
  set (v := ROUND_UP (DMA_ALIGN (pnext (dma s))) align) in *. rewrite (w64_small (v + size)) by lia.
  case_bool_decide as Hfull; wp_line.
  - exists v. split; [lia|]. split; [done|]. rewrite bool_decide_eq_true_2 by done. done.
  - cbn [dma set_dma pnext vaddr]. unfold sos_dma_cache_clean_invalidate, in_rest. wp_line. cbn [dma set_dma].
    unfold kernel, in_env. wp_line. apply wpf_call. wp_line. exists v. split; [lia|]. split; [done|].
    rewrite bool_decide_eq_false_2 by done. done.
Qed.

(** A client that allocates: the allocations so far, newest first, with their
    sizes and alignments, and the number of calls. *)
Record region := Region { at_ : dma_addr_t; bytes : Z; aligned : Z }.
Inductive dma_run (s0 : system K) : Z -> list region -> system K -> Prop :=
| dma_start : dma_run s0 0 [] s0
| dma_call i R s size align a s' :
    dma_run s0 i R s -> 0 ≤ size < 2 ^ 32 -> 0 < align < 2 ^ 31 ->
    sos_dma_malloc size align s = Ok (a, s') ->
    dma_run s0 (i + 1) (if bool_decide (paddr a = 0) then R else Region a size align :: R) s'.

(** The state right after [dma_init]. *)
Definition dma_fresh s : Prop :=
  0 < pstart (dma s) /\ pnext (dma s) = pstart (dma s) /\ pstart (dma s) ≤ pend (dma s) ≤ 2 ^ 48.

Definition below (x y : region) : Prop := paddr (at_ y) + bytes y ≤ paddr (at_ x).
Definition region_ok (d : dma_t) (x : region) : Prop :=
  pstart d ≤ paddr (at_ x) /\ paddr (at_ x) + bytes x < pend d /\
  paddr (at_ x) mod aligned x = 0 /\ vaddr (at_ x) = sos_dma_phys_to_virt d (paddr (at_ x)).

(** The region, and how far it was handed out. *)
Record handed (d0 : dma_t) (i : Z) (R : list region) s : Prop := {
  ho_same : dma s = Dma (vstart d0) (pstart d0) (pnext (dma s)) (pend d0) (dma_vspace d0);
  ho_next : pstart d0 ≤ pnext (dma s) ≤ pend d0 + i * 2 ^ 32;
  ho_sorted : StronglySorted below R;
  ho_ok : Forall (region_ok d0) R;
  ho_below : Forall (fun x => paddr (at_ x) + bytes x ≤ pnext (dma s)) R;
}.

Lemma handed_step F s0 i R s size align :
  dma_fresh s0 -> handed (dma s0) i R s -> 0 ≤ i < 2 ^ 20 -> 0 ≤ size < 2 ^ 32 -> 0 < align < 2 ^ 31 ->
  wpf F (sos_dma_malloc size align) (fun a s' =>
    handed (dma s0) (i + 1) (if bool_decide (paddr a = 0) then R else Region a size align :: R) s') s.
Proof.
  intros (F1 & F2 & F3) [A1 A2 A3 A4 A5] Hi Hz Ha. assert (Hpe : pend (dma s) = pend (dma s0)) by (by rewrite A1).
  eapply wpf_mono; [apply malloc_spec; lia|]. intros a s' (v & Hv & Hm & Hcase). unfold moved in Hcase.
  assert (Hb : forall z, v ≤ z -> Forall (fun x => paddr (at_ x) + bytes x ≤ z) R).
  { intros z Hz'. eapply Forall_impl; [exact A5|]. intros x Hx. cbn in Hx. lia. }
  rewrite Hpe in Hcase. case_bool_decide as Hfull; destruct Hcase as [-> Hs'].
  - rewrite bool_decide_eq_true_2 by done. split; rewrite ?Hs'; cbn [pnext]; try done; [by rewrite A1|lia|apply Hb; lia].
  - cbn [paddr]. rewrite bool_decide_eq_false_2 by lia. split; rewrite ?Hs'; cbn [pnext].
    + by rewrite A1.
    + lia.
    + constructor; [done|]. eapply Forall_impl; [exact (Hb v ltac:(lia))|]. done.
    + constructor; [|done]. split; cbn; [lia|]. split; [lia|]. split; [done|]. by rewrite A1.
    + constructor; [cbn; lia|apply Hb; lia].
Qed.

Lemma dma_run_handed s0 i R s : dma_fresh s0 -> dma_run s0 i R s -> i ≤ 2 ^ 20 -> 0 ≤ i /\ handed (dma s0) i R s.
Proof.
  intros Hf Hr. induction Hr as [|i R s size align a s' Hr IH Hz Ha Hm]; intros Hi.
  - destruct Hf as (F1 & F2 & F3). split; [done|]. split; [by destruct (dma s0)|lia|constructor|constructor|constructor].
  - destruct IH as [Hi0 IH]; [lia|]. split; [lia|].
    pose proof (handed_step (fun _ => False) s0 i R s size align Hf IH ltac:(lia) Hz Ha) as Hw. unfold wpf in Hw. by rewrite Hm in Hw.
Qed.

(** As long as fewer than a million requests are made, a request never faults, and all the
    memory handed out so far lies in the region, is aligned as asked, has its virtual address
    at the same offset, and does not overlap. *)
Theorem dma_regions_disjoint s0 i R s size align :
  dma_fresh s0 -> dma_run s0 i R s -> i < 2 ^ 20 -> 0 ≤ size < 2 ^ 32 -> 0 < align < 2 ^ 31 ->
  Forall (region_ok (dma s0)) R /\ StronglySorted below R /\ wp (sos_dma_malloc size align) (fun _ _ => True) s.
Proof.
  intros Hf Hr Hi Hz Ha. destruct (dma_run_handed s0 i R s Hf Hr) as [Hi0 [H1 H2 H3 H4 H5]]; [lia|].
  split; [done|]. split; [done|]. eapply wpf_mono; [by apply (handed_step _ s0 i R s)|]. done.
Qed.
End malloc.

(** ** Evaluated *)

Definition dma0 (next size : Z) : system ukernel := System (Dma 0x7000000000 0x20000000 next (0x20000000 + size) 3) (world0 []).

Lemma dma_regions_disjoint_witness :
  exists s a, dma_run (dma0 0x20000000 0x200000) 1 [Region a 100 64] s /\
    Forall (region_ok (dma (dma0 0x20000000 0x200000))) [Region a 100 64].
Proof.
  destruct (sos_dma_malloc 100 64 (dma0 0x20000000 0x200000)) as [[a s']|] eqn:E; [|by vm_compute in E].
  exists s', a. pose proof (dma_call (dma0 0x20000000 0x200000) 0 [] _ 100 64 a s' (dma_start _) ltac:(lia) ltac:(lia) E) as Hr.
  assert (bool_decide (paddr a = 0) = false) as Ha by (vm_compute in E; injection E as <- _; by vm_compute).
  rewrite Ha in Hr. split; [exact Hr|].
  exact (proj1 (dma_regions_disjoint (dma0 0x20000000 0x200000) 1 _ s' 1 1 ltac:(by vm_compute) Hr ltac:(lia) ltac:(lia) ltac:(lia))).
Defined.

(** The alignment of the allocator is to multiples of 7, not of 128. *)
Lemma dma_align_7 : DMA_ALIGN 0x20000001 = 0x20000003 /\ 0x20000003 mod 128 = 3 /\
  match sos_dma_malloc 10 1 (dma0 0x20000001 0x200000) with Ok (a, _) => paddr a = 0x20000003 | Fault _ => False end.
Proof. by vm_compute. Qed.

(** A size close to the word size wraps around and is granted. *)
Lemma dma_huge_size_granted :
  match sos_dma_malloc (2 ^ 64 - 0x10000000) 1 (dma0 0x20000000 0x200000) with Ok (a, _) => paddr a ≠ 0 | Fault _ => False end.
Proof. by vm_compute. Qed.

(** Initialisation passes no capability space to the mapping: a missing page
    table is not created but read through NULL. *)
Lemma dma_init_needs_tables :
  dma_init 1 3 50 0x20000000 0x7000000000 (System (Dma 0 0 0 0 0) (world0 [seL4_FailedLookup])) = Fault NullDeref.
Proof. by vm_compute. Qed.
