(* ===== verification/Bootstrap.v ===== *)
(** * Bootstrapping the system

    Models [sos/src/bootstrap.c]: taking memory from the untypeds the kernel
    lists, building the initial two-level capability space and switching to it,
    mapping the table of untypeds, turning the rest of memory into 4K untypeds,
    and recording the slots used so far in the new space.  The callbacks it
    installs are in [Mapping].  Constants of the kernel's configuration have
    their default values. *)

From S2P Require Import Prelude Arith Bitfield Kernel Cspace CspaceSafety CspaceDemo Untyped Mapping MappingSafety MappingDemo Dma.

Definition INITIAL_TASK_CNODE_SIZE_BITS : Z := 18.
Definition INITIAL_TASK_CSPACE_BITS : Z :=
  CNODE_SLOT_BITS INITIAL_TASK_CNODE_SIZE_BITS + CNODE_SLOT_BITS CNODE_SIZE_BITS.
Definition INITIAL_TASK_CSPACE_SLOTS : Z := BIT INITIAL_TASK_CSPACE_BITS.
Definition PHYSICAL_ADDRESS_LIMIT : Z := 0xdfffffff.
Definition MAX_PHYSICAL_SIZE_BITS : Z := 32.
Definition CONFIG_MAX_NUM_BOOTINFO_UNTYPED_CAPS : nat := 230.
Definition CONFIG_RETYPE_FAN_OUT_LIMIT : Z := 256.
Definition SOS_DMA_SIZE_BITS : Z := seL4_LargePageBits.
Definition SOS_UT_TABLE : Z := 0x8000000000.

Record seL4_UntypedDesc := UntypedDesc { desc_paddr : Z; sizeBits : Z; isDevice : bool }.
Record seL4_BootInfo := BootInfo { empty_start : Z; empty_end : Z; untyped_start : Z; untyped_end : Z; untypedList : list seL4_UntypedDesc }.

Definition untyped_in_range (u : seL4_UntypedDesc) : bool :=
  bool_decide (desc_paddr u ≤ PHYSICAL_ADDRESS_LIMIT) && bool_decide (sizeBits u ≤ MAX_PHYSICAL_SIZE_BITS).

Section boot.
Context {K : Type} `{!Kernel K, !Heap K}.

(** [boot_info_avail_bytes], and the rest of the system. *)
Record booting := Booting { avail_bytes : list Z; sys : system K }.
Definition set_avail v (s : booting) := Booting v (sys s).
Definition in_sys {A} (m : M (system K) A) : M booting A := zoom sys (fun v s => Booting (avail_bytes s) v) m.
Definition in_sos {A} (m : M (sos K) A) : M booting A := in_sys (in_rest (in_env m)).
Definition syscall (c : kcall) : M booting Z := in_sys (in_rest (kernel c)).
(** [ZF_LOGF_IF] and [ZF_LOGF_IFERR]. *)
Definition fatal_if (b : bool) : M booting unit := if b then throw Fatal else mret tt.
Definition must (m : M booting Z) : M booting unit := err ← m; fatal_if (bool_decide (err ≠ 0)).
Definition must_call (c : kcall) : M booting unit := must (syscall c).

Definition n_untypeds (bi : seL4_BootInfo) : Z := w64 (untyped_end bi - untyped_start bi).
Definition desc (bi : seL4_BootInfo) (i : Z) : M booting seL4_UntypedDesc := access (untypedList bi !! Z.to_nat i).
Definition avail (i : Z) : M booting Z := s ← get; access (avail_bytes s !! Z.to_nat i).
Definition put_avail (i v : Z) : M booting unit :=
  s ← get; _ ← access (avail_bytes s !! Z.to_nat i); put (set_avail (<[Z.to_nat i := v]> (avail_bytes s)) s).

(** The loop of [calculate_ut_caps], with the count so far. *)
Fixpoint count_caps (bi : seL4_BootInfo) (size_bits : Z) (l : list Z) (n_caps : Z) : M booting Z :=
  match l with
  | [] => mret n_caps
  | i :: l =>
    u ← desc bi i;
    if negb (untyped_in_range u) then count_caps bi size_bits l n_caps
    else
      put_avail i (if negb (isDevice u) then BIT (sizeBits u) else 0);;
      count_caps bi size_bits l
        (if bool_decide (size_bits ≤ sizeBits u) then w64 (n_caps + BIT (sizeBits u - size_bits)) else n_caps)
  end.
Definition calculate_ut_caps (bi : seL4_BootInfo) (size_bits : Z) : M booting Z :=
  count_caps bi size_bits (seqZ 0 (n_untypeds bi)) 0.

Definition paddr_from_avail_bytes (bi : seL4_BootInfo) (i size_bits : Z) : M booting Z :=
  u ← desc bi i;
  a ← avail i;
  let taken := if negb (isDevice u) then w64 (BIT (sizeBits u) - a) else 0 in
  mret (w64 (desc_paddr u + ROUND_UP taken (BIT size_bits))).

(** The capability, and the physical address of what was stolen. *)
Fixpoint steal_loop (bi : seL4_BootInfo) (size_bits : Z) (l : list Z) : M booting (Z * Z) :=
  match l with
  | [] => mret (seL4_CapNull, 0)
  | i :: l =>
    u ← desc bi i;
    a ← (if untyped_in_range u then avail i else mret 0);
    if untyped_in_range u && bool_decide (BIT size_bits ≤ a) then
      paddr ← paddr_from_avail_bytes bi i size_bits;
      put_avail i (w64 (a - BIT size_bits));;
      mret (w64 (i + untyped_start bi), paddr)
    else steal_loop bi size_bits l
  end.
Definition steal_untyped (bi : seL4_BootInfo) (size_bits : Z) : M booting (Z * Z) :=
  cassert (bool_decide (seL4_PageBits ≤ size_bits));;
  cassert (bool_decide (size_bits ≤ seL4_MaxUntypedBits));;
  steal_loop bi size_bits (seqZ 0 (n_untypeds bi)).

Fixpoint bounds_loop (bi : seL4_BootInfo) (l : list Z) (memory : ut_region_t) : M booting ut_region_t :=
  match l with
  | [] => mret memory
  | i :: l =>
    u ← desc bi i;
    if negb (untyped_in_range u) then bounds_loop bi l memory
    else bounds_loop bi l (Untyped.Region (MIN (start memory) (desc_paddr u))
      (MAX (w64 (desc_paddr u + BIT (sizeBits u))) (stop memory)))
  end.
Definition find_memory_bounds (bi : seL4_BootInfo) : M booting ut_region_t :=
  memory ← bounds_loop bi (seqZ 0 (n_untypeds bi)) (Untyped.Region PHYSICAL_ADDRESS_LIMIT 0);
  cassert (bool_decide (start memory < stop memory));;
  mret memory.

(** What bootstrapping needs: the pages of the table, the cnodes and the bytes
    of memory for all of them. *)
Definition boot_sizes (bi : seL4_BootInfo) : M booting (ut_region_t * Z * Z * Z) :=
  let n_slots := w64 (empty_start bi - 1) in
  memory ← find_memory_bounds bi;
  let ut_pages := ut_pages_for_region memory in
  let n_slots := w64 (n_slots + ut_pages) in
  let size := w64 (ut_pages * PAGE_SIZE_4K) in
  let n_pts := w64 (Z.shiftr ut_pages seL4_PageTableIndexBits + 1) in
  let size := w64 (size + n_pts * BIT seL4_PageTableBits) in
  let n_slots := w64 (n_slots + n_pts) in
  let size := w64 (w64 (size + BIT seL4_PUDBits) + BIT seL4_PageDirBits) in
  let n_slots := w64 (w64 (n_slots + 2) + 1) in
  caps ← calculate_ut_caps bi seL4_PageBits;
  let n_slots := w64 (w64 (n_slots + caps) - BIT (SOS_DMA_SIZE_BITS - seL4_PageBits)) in
  let n_cnodes := w64 (n_slots / CNODE_SLOTS CNODE_SIZE_BITS + 2) in
  let size := w64 (size + (n_cnodes * BIT CNODE_SIZE_BITS + BIT INITIAL_TASK_CNODE_SIZE_BITS)) in
  fatal_if (bool_decide (CNODE_SLOTS INITIAL_TASK_CNODE_SIZE_BITS < n_cnodes));;
  mret (memory, ut_pages, n_cnodes, size).

(** The second-level cnodes, in chunks the kernel accepts; the chunks are not
    empty, so as many rounds as cnodes are enough. *)
Fixpoint make_cnodes (fuel : nat) (ut_cptr level1_cptr n_cnodes total : Z) : M booting unit :=
  match fuel with
  | O => throw OutOfFuel
  | S fuel =>
    if bool_decide (0 < total) then
      let chunk := MIN CONFIG_RETYPE_FAN_OUT_LIMIT total in
      must_call (Untyped_Retype ut_cptr seL4_CapTableObject (CNODE_SLOT_BITS CNODE_SIZE_BITS) level1_cptr 0 0 (n_cnodes - total) chunk);;
      make_cnodes fuel ut_cptr level1_cptr n_cnodes (total - chunk)
    else mret tt
  end.

(** The capabilities of the initial task that stay behind. *)
Definition skipped_caps : list Z := [seL4_CapInitThreadCNode; 7; 8; 12; 13; 15].

(** Build the new space and switch to it; slot 0 holds the old one meanwhile. *)
Definition boot_switch (bi : seL4_BootInfo) (ut_cptr n_cnodes : Z) : M booting unit :=
  let level1_cptr := empty_start bi in
  let boot_cptr := 0 in
  must_call (Untyped_Retype ut_cptr seL4_CapTableObject (CNODE_SLOT_BITS INITIAL_TASK_CNODE_SIZE_BITS)
    seL4_CapInitThreadCNode 0 0 level1_cptr 1);;
  make_cnodes (Z.to_nat n_cnodes + 1) ut_cptr level1_cptr n_cnodes n_cnodes;;
  let depth := CNODE_SLOT_BITS INITIAL_TASK_CNODE_SIZE_BITS + CNODE_SLOT_BITS CNODE_SIZE_BITS in
  must_call (CNode_Copy level1_cptr boot_cptr depth seL4_CapInitThreadCNode seL4_CapInitThreadCNode seL4_WordBits seL4_AllRights);;
  let guard := seL4_CNode_CapData_new (K := K) 0 (seL4_WordBits - depth) in
  must_call (CNode_Mint level1_cptr seL4_CapInitThreadCNode depth seL4_CapInitThreadCNode level1_cptr seL4_WordBits seL4_AllRights guard);;
  must_call (TCB_SetSpace seL4_CapInitThreadTCB 0 level1_cptr guard seL4_CapInitThreadVSpace 0);;
  iterM (fun i =>
    if bool_decide (i ∈ skipped_caps) then mret tt
    else must_call (CNode_Move seL4_CapInitThreadCNode i seL4_WordBits boot_cptr i seL4_WordBits)) (seqZ 1 (empty_start bi - 1));;
  must_call (CNode_Delete seL4_CapInitThreadCNode boot_cptr seL4_WordBits).

Definition retype (p ut slot : Z) (type : seL4_ObjectType) (size_bits : Z) : M booting unit :=
  must (in_sys (in_rest (cspace_untyped_retype p ut slot type size_bits))).
Definition set_boot_data (v : Z) : M booting unit :=
  in_sos (modify (fun s => set_boot (BootData v (vspace (boot s))) s)).

(** The paging structures for the table; the first slot that is still free. *)
Definition boot_tables (p ut_cptr ut_pages first_free_slot : Z) : M booting Z :=
  retype p ut_cptr first_free_slot seL4_ARM_PageUpperDirectoryObject seL4_PageBits;;
  must_call (PageUpperDirectory_Map first_free_slot seL4_CapInitThreadVSpace SOS_UT_TABLE seL4_ARM_Default_VMAttributes);;
  let first_free_slot := first_free_slot + 1 in
  retype p ut_cptr first_free_slot seL4_ARM_PageDirectoryObject seL4_PageBits;;
  must_call (PageDirectory_Map first_free_slot seL4_CapInitThreadVSpace SOS_UT_TABLE seL4_ARM_Default_VMAttributes);;
  let first_free_slot := first_free_slot + 1 in
  let n := w64 (Z.shiftr ut_pages seL4_PageTableIndexBits + 1) in
  iterM (fun i =>
    retype p ut_cptr (first_free_slot + i) seL4_ARM_PageTableObject seL4_PageBits;;
    must_call (PageTable_Map (first_free_slot + i) seL4_CapInitThreadVSpace
      (w64 (SOS_UT_TABLE + i * BIT (seL4_PageTableIndexBits + seL4_PageBits))) seL4_ARM_Default_VMAttributes)) (seqZ 0 n);;
  in_sos (modify (set_boot (BootData SOS_UT_TABLE seL4_CapInitThreadVSpace)));;
  mret (first_free_slot + n).

(** The pages of the table, whose memory then holds zeroed nodes. *)
Definition boot_pages (p ut_cptr ut_pages first_free_slot : Z) : M booting Z :=
  iterM (fun i =>
    retype p ut_cptr (first_free_slot + i) seL4_ARM_SmallPageObject seL4_PageBits;;
    v ← in_sos (gets (fun s => next_free_vaddr (boot s)));
    must_call (Page_Map (first_free_slot + i) seL4_CapInitThreadVSpace v seL4_AllRights seL4_ARM_Default_VMAttributes);;
    in_sos (modify (fresh_nodes v));;
    set_boot_data (w64 (v + PAGE_SIZE_4K))) (seqZ 0 ut_pages);;
  mret (first_free_slot + ut_pages).

(** Retype [n_caps] pages of an untyped into consecutive slots, within one
    cnode and one chunk at a time; a round retypes at least one. *)
Fixpoint retype_pages (fuel : nat) (ut n_caps first_free_slot : Z) : M booting Z :=
  match fuel with
  | O => throw OutOfFuel
  | S fuel =>
    if bool_decide (0 < n_caps) then
      let slots_per_cnode := CNODE_SLOTS CNODE_SIZE_BITS in
      let cnode := first_free_slot / slots_per_cnode in
      let n := MIN CONFIG_RETYPE_FAN_OUT_LIMIT (MIN n_caps (slots_per_cnode - first_free_slot mod slots_per_cnode)) in
      err ← syscall (Untyped_Retype ut seL4_UntypedObject seL4_PageBits seL4_CapInitThreadCNode cnode
        (seL4_WordBits - CNODE_SLOT_BITS CNODE_SIZE_BITS) (first_free_slot mod slots_per_cnode) n);
      fatal_if (bool_decide (err ≠ 0));;
      retype_pages fuel ut (n_caps - n) (first_free_slot + n)
    else mret first_free_slot
  end.

(** All of memory as 4K untypeds. *)
Fixpoint make_untypeds (bi : seL4_BootInfo) (l : list Z) (first_free_slot : Z) : M booting Z :=
  match l with
  | [] => mret first_free_slot
  | i :: l =>
    u ← desc bi i;
    if negb (untyped_in_range u) then make_untypeds bi l first_free_slot
    else
      n_caps ← (if negb (isDevice u) then a ← avail i; mret (a / PAGE_SIZE_4K) else mret (BIT (sizeBits u) / PAGE_SIZE_4K));
      paddr ← paddr_from_avail_bytes bi i seL4_PageBits;
      when (bool_decide (0 < n_caps)) (in_sos (in_ut (ut_add_untyped_range paddr first_free_slot n_caps (isDevice u))));;
      first_free_slot ← retype_pages (Z.to_nat n_caps + 1) (w64 (untyped_start bi + i)) n_caps first_free_slot;
      make_untypeds bi l first_free_slot
  end.

Definition upd_space (p : Z) (f : cspace_t -> cspace_t) : M booting unit := in_sys (in_rest (upd p f)).
Definition get_space (p : Z) : M booting cspace_t := in_sys (in_rest (cs p)).

(** The frames that hold the bookkeeping of the space. *)
Definition boot_nodes (p n_bot_lvl first_free_slot : Z) : M booting Z :=
  iterM (fun i =>
    ut ← in_sos get_untyped;
    c ← in_sos (node_cap (default 0 ut));
    retype p c (first_free_slot + i) seL4_ARM_SmallPageObject seL4_PageBits;;
    v ← in_sos (gets (fun s => next_free_vaddr (boot s)));
    must_call (Page_Map (first_free_slot + i) seL4_CapInitThreadVSpace v seL4_AllRights seL4_ARM_Default_VMAttributes);;
    set_boot_data (w64 (v + PAGE_SIZE_4K));;
    in_sys (in_rest (store_node p i (Some (BotNode 0 (default 0 ut) (first_free_slot + i) (cnodes zero_node)))));;
    upd_space p (fun c => set_n_nodes (n_bot_lvl_nodes c + 1) c)) (seqZ 0 n_bot_lvl);;
  mret (first_free_slot + n_bot_lvl).

(** One full cnode.  The inner loop of the source declares its own [i], so it
    fills the words of the first cnode of the node whatever the outer [i] is. *)
Definition mark_full (p i : Z) : M booting unit :=
  c ← get_space p;
  o ← access (bot_lvl_nodes c !! Z.to_nat (NODE_INDEX i));
  cassert (bool_decide (is_Some o));;
  in_sys (in_rest (upd_node p (NODE_INDEX i) (fun n => set_n_cnodes (n_cnodes n + 1) n)));;
  iterM (fun j => in_sys (in_rest (upd_cnode p (NODE_INDEX i) (CNODE_INDEX j)
    (fun b => BotLvl (<[Z.to_nat j := ULONG_MAX]> (bf b)) (bl_untyped b))))) (seqZ 0 (CNODE_SLOTS CNODE_SIZE_BITS / seL4_WordBits));;
  c ← get_space p;
  top ← access (bf_set_bit (top_bf c) (TOP_LVL_INDEX i));
  upd_space p (set_top_bf top).

(** The full cnodes, which are the first [k]. *)
Definition mark_full_cnodes (p k : Z) : M booting unit :=
  iterM (fun q => mark_full p (q * CNODE_SLOTS CNODE_SIZE_BITS)) (seqZ 0 k).

(** Record the slots below [first_free_slot], and the cnodes made beyond them. *)
Definition mark_used (p first_free_slot total : Z) : M booting unit :=
  let slots_per_cnode := CNODE_SLOTS CNODE_SIZE_BITS in
  let full := ALIGN_DOWN first_free_slot slots_per_cnode in
  mark_full_cnodes p (full / slots_per_cnode);;
  let node := first_free_slot / slots_per_cnode / BOT_LVL_PER_NODE in
  in_sys (in_rest (upd_node p node (fun n => set_n_cnodes (n_cnodes n + 1) n)));;
  iterM (fun i =>
    c ← get_space p;
    n ← in_sys (in_rest (node_at c node));
    b ← access (cnodes n !! Z.to_nat (CNODE_INDEX i));
    bits ← access (bf_set_bit (bf b) (BOT_LVL_INDEX i));
    in_sys (in_rest (upd_cnode p node (CNODE_INDEX i) (fun b => BotLvl bits (bl_untyped b)))))
    (seqZ full (first_free_slot - full));;
  iterM (fun i => in_sys (in_rest (upd_node p (i / BOT_LVL_PER_NODE) (fun n => set_n_cnodes (n_cnodes n + 1) n))))
    (seqZ (first_free_slot / slots_per_cnode + 1) (total - (first_free_slot / slots_per_cnode + 1))).

Definition boot_watermark (p : Z) : M booting unit :=
  iterM (fun i =>
    slot ← in_sys (in_rest (cspace_alloc_slot p));
    upd_space p (fun c => set_watermark (<[Z.to_nat i := slot]> (watermark c)) c);;
    fatal_if (bool_decide (slot = seL4_CapNull))) (seqZ 0 WATERMARK_SLOTS).

(** The fields of the space that the source sets at the end. *)
Definition boot_fields (p : Z) (c : cspace_t) : cspace_t :=
  Cspace (root_cnode c) (two_level c) INITIAL_TASK_CNODE_SIZE_BITS
    (replicate (Z.to_nat (BITFIELD_SIZE INITIAL_TASK_CNODE_SIZE_BITS)) 0)
    (replicate (Z.to_nat (INITIAL_TASK_CSPACE_SLOTS / BOT_LVL_PER_NODE + 1)) None) 0 (cs_untyped c) (bootstrap c) (Some p) (watermark c).

(** The memory that is left, the bookkeeping of the space, and the region for devices. *)
Definition boot_memory (p : Z) (bi : seL4_BootInfo) (memory : ut_region_t) (n_cnodes dma_cptr dma_paddr first_free_slot : Z) : M booting Z :=
  in_sos (in_ut (ut_init SOS_UT_TABLE memory));;
  first_free_slot ← make_untypeds bi (seqZ 0 (n_untypeds bi)) first_free_slot;
  upd_space p (boot_fields p);;
  let n_bot_lvl := MAX (first_free_slot / CNODE_SLOTS CNODE_SIZE_BITS + 1) n_cnodes / BOT_LVL_PER_NODE + 1 in
  first_free_slot ← boot_nodes p n_bot_lvl first_free_slot;
  v ← in_sos (gets (fun s => next_free_vaddr (boot s)));
  let dma_vaddr := ALIGN_UP (w64 (v + PAGE_SIZE_4K)) (BIT seL4_LargePageBits) in
  must (in_sys (dma_init p seL4_CapInitThreadVSpace dma_cptr dma_paddr dma_vaddr));;
  set_boot_data (w64 (dma_vaddr + BIT seL4_LargePageBits + PAGE_SIZE_4K));;
  mret first_free_slot.

Definition sos_bootstrap (p : Z) (bi : seL4_BootInfo) : M booting unit :=
  in_sys (in_rest (put_cs p zero_cspace));;
  in_sos (modify (set_boot (BootData 0 0)));;
  cassert (bool_decide (2 ≤ w64 (empty_end bi - empty_start bi)));;
  '(memory, ut_pages, n_cnodes, size) ← boot_sizes bi;
  bits ← access (BYTES_TO_SIZE_BITS size);
  '(ut_cptr, _) ← steal_untyped bi (bits + 1);
  fatal_if (bool_decide (ut_cptr = seL4_CapNull));;
  upd_space p (set_root_cnode seL4_CapInitThreadCNode);;
  boot_switch bi ut_cptr n_cnodes;;
  upd_space p (fun c => Cspace (root_cnode c) true (top_lvl_size_bits c) (top_bf c) (bot_lvl_nodes c) (n_bot_lvl_nodes c)
    (cs_untyped c) (bootstrap c) (alloc c) (watermark c));;
  in_sos (modify (fun s => Sos (uts s) (boot s) seL4_CapInitThreadCNode true (device_virt s) (kern s)));;
  first_free_slot ← boot_tables p ut_cptr ut_pages (empty_start bi);
  first_free_slot ← boot_pages p ut_cptr ut_pages first_free_slot;
  '(dma_ut, dma_paddr) ← steal_untyped bi SOS_DMA_SIZE_BITS;
  fatal_if (bool_decide (dma_ut = seL4_CapNull));;
  retype p dma_ut first_free_slot seL4_ARM_LargePageObject SOS_DMA_SIZE_BITS;;
  first_free_slot ← boot_memory p bi memory n_cnodes first_free_slot dma_paddr (first_free_slot + 1);
  mark_used p first_free_slot n_cnodes;;
  boot_watermark p.
End boot.
Arguments booting K : clear implicits.

(** ** Retyping memory into pages *)

Section proofs.
Context {K : Type} `{!Kernel K, !Heap K}.
Implicit Types (s : booting K).

(** One call: [k] untypeds from the slot [a] on. *)
Definition page_call (ut : Z) (x : Z * Z) : kcall :=
  Untyped_Retype ut seL4_UntypedObject seL4_PageBits seL4_CapInitThreadCNode (x.1 / 128) 57 (x.1 mod 128) x.2.

(** [retype_pages] ends, and makes a sequence of calls that fill exactly the slots from
    [first] on, each slot once and in order, no call crossing a cnode or exceeding what the
    kernel accepts, until a call fails; then it stops the system. *)
Theorem retype_pages_covers fuel (ut n first : Z) :
  0 ≤ n < Z.of_nat fuel -> 0 ≤ first -> exists chunks : list (Z * Z),
    concat ((fun x => seqZ x.1 x.2) <$> chunks) = seqZ first n /\
    Forall (fun x => 0 < x.2 ≤ CONFIG_RETYPE_FAN_OUT_LIMIT /\ x.1 mod 128 + x.2 ≤ 128) chunks /\
    forall s, retype_pages fuel ut n first s = (iterM (fun x => must_call (page_call ut x)) chunks;; mret (first + n)) s.
Proof.
  revert n first. induction fuel as [|fuel IH]; intros n first Hn Hf; [lia|]. cbn [retype_pages]. case_bool_decide as H0.
  2:{ exists []. assert (n = 0) as -> by lia. split; [done|]. split; [constructor|]. intros s. cbn. by rewrite Z.add_0_r. }
  change (CNODE_SLOTS CNODE_SIZE_BITS) with 128. change (seL4_WordBits - CNODE_SLOT_BITS CNODE_SIZE_BITS) with 57.
  pose proof (Z.mod_pos_bound first 128 ltac:(lia)) as Hm.
  set (k := MIN CONFIG_RETYPE_FAN_OUT_LIMIT (MIN n (128 - first mod 128))).
  assert (Hk : 0 < k ≤ n /\ k ≤ CONFIG_RETYPE_FAN_OUT_LIMIT /\ first mod 128 + k ≤ 128).
  { unfold k, MIN, CONFIG_RETYPE_FAN_OUT_LIMIT. repeat case_bool_decide; lia. }
  destruct (IH (n - k) (first + k)) as (chunks & Hc & Hok & Heq); [lia|lia|]. exists ((first, k) :: chunks). split_and!.
  - cbn [fmap list_fmap concat fst snd]. rewrite Hc. rewrite <- seqZ_app by lia. f_equal. lia.
  - constructor; [|done]. cbn. lia.
  - intros s. cbn [iterM]. unfold must_call, must, syscall, page_call. cbn [fst snd].
    unfold mbind, M_bind. destruct (in_sys _ s) as [[err s1]|]; [|done]. destruct (fatal_if _ s1) as [[[] s2]|]; [|done].
    rewrite Heq. replace (first + k + (n - k)) with (first + n) by lia. done.
Qed.

(** ** Stealing *)

(** The untyped [i] can give [bits] bits. *)
Definition gives (bi : seL4_BootInfo) s (bits i : Z) : Prop := exists u a,
  untypedList bi !! Z.to_nat i = Some u /\ avail_bytes s !! Z.to_nat i = Some a /\ untyped_in_range u = true /\ BIT bits ≤ a.
(** The descriptions and the counts are there and make sense. *)
Definition boot_ok (bi : seL4_BootInfo) s : Prop :=
  0 ≤ untyped_start bi /\ untyped_start bi + Z.of_nat (length (untypedList bi)) < 2 ^ 64 /\
  n_untypeds bi = Z.of_nat (length (untypedList bi)) /\ (length (untypedList bi) ≤ length (avail_bytes s))%nat /\
  forall i u a, untypedList bi !! i = Some u -> avail_bytes s !! i = Some a -> untyped_in_range u = true ->
    0 ≤ desc_paddr u /\ 0 ≤ sizeBits u /\ if isDevice u then a = 0 else 0 ≤ a ≤ BIT (sizeBits u).

(** The bytes taken from an untyped so far. *)
Definition taken_bytes (u : seL4_UntypedDesc) (a : Z) : Z := BIT (sizeBits u) - a.

Lemma avail_at F (Q : Z -> booting K -> Prop) (i a : Z) s :
  avail_bytes s !! Z.to_nat i = Some a -> Q a s -> wpf F (avail i) Q s.
Proof. intros Ha HQ. unfold avail. wp_line. by eapply wpf_access. Qed.

(** What the search over [l] does. *)
Definition stolen bi s (bits : Z) (l : list Z) (r : Z * Z) s' : Prop :=
  (r = (seL4_CapNull, 0) /\ s' = s /\ forall i, i ∈ l -> ~ gives bi s bits i) \/
  (exists i u a, i ∈ l /\ untypedList bi !! Z.to_nat i = Some u /\ avail_bytes s !! Z.to_nat i = Some a /\
    untyped_in_range u = true /\ isDevice u = false /\ BIT bits ≤ a /\
    r = (i + untyped_start bi, desc_paddr u + ROUND_UP (taken_bytes u a) (BIT bits)) /\
    s' = set_avail (<[Z.to_nat i := a - BIT bits]> (avail_bytes s)) s).

Lemma steal_loop_spec F bi bits l s :
  boot_ok bi s -> 12 ≤ bits ≤ 47 -> (forall i, i ∈ l -> 0 ≤ i < Z.of_nat (length (untypedList bi))) ->
  wpf F (steal_loop bi bits l) (stolen bi s bits l) s.
Proof.
  intros (B1 & B2 & B3 & B4 & B5) Hb. assert (Hbp : 0 < BIT bits ≤ 2 ^ 47).
  { rewrite BIT_pow by lia. split; [lia|]. apply Z.pow_le_mono_r; lia. }
  induction l as [|i l IH]; intros Hl; cbn [steal_loop].
  { wp_line. left. split; [done|]. split; [done|]. by intros i ?%elem_of_nil. }
  pose proof (Hl i (list_elem_of_here _ _)) as Hi.
  destruct (lookup_lt_is_Some_2 (untypedList bi) (Z.to_nat i)) as [u Hu]; [lia|].
  destruct (lookup_lt_is_Some_2 (avail_bytes s) (Z.to_nat i)) as [a Ha]; [lia|].
  assert (Hnext : ~ gives bi s bits i -> wpf F (steal_loop bi bits l) (stolen bi s bits (i :: l)) s).
  { intros Hng. eapply wpf_mono; [apply IH; intros; apply Hl; by right|]. intros r s' [(-> & -> & Hn)|(i0 & u0 & a0 & Hin & Hrest)].
    - left. split; [done|]. split; [done|]. intros i0 [->|?]%elem_of_cons; auto.
    - right. exists i0, u0, a0. split; [by right|done]. }
  wp_line. unfold desc. eapply wpf_access; [exact Hu|]. wp_line. destruct (untyped_in_range u) eqn:Hr; cbn [andb].
  2:{ wp_line. apply Hnext. intros (u' & a' & Hu' & _ & Hr' & _). congruence. }
  eapply avail_at; [exact Ha|]. case_bool_decide as Hge.
  2:{ apply Hnext. intros (u' & a' & Hu' & Ha' & _ & Hge'). assert (a' = a) as -> by congruence. lia. }
  destruct (B5 _ _ _ Hu Ha Hr) as (P1 & P2 & P3). destruct (isDevice u) eqn:Hd; [lia|].
  assert (Hbig : desc_paddr u ≤ 0xdfffffff /\ BIT (sizeBits u) ≤ 2 ^ 32).
  { unfold untyped_in_range in Hr. bd. unfold PHYSICAL_ADDRESS_LIMIT, MAX_PHYSICAL_SIZE_BITS in *. split; [done|].
    rewrite BIT_pow by lia. apply Z.pow_le_mono_r; lia. }
  unfold paddr_from_avail_bytes, desc. wp_line. eapply wpf_access; [exact Hu|]. wp_line. eapply avail_at; [exact Ha|]. rewrite Hd. cbn [negb].
  wp_line. unfold put_avail. wp_line. eapply wpf_access; [exact Ha|]. wp_line. right. exists i, u, a.
  split; [by left|]. split_and!; try done.
  - fold (taken_bytes u a). destruct (round_up_spec (taken_bytes u a) (BIT bits)) as [Hru _]; [unfold taken_bytes; lia|lia|unfold taken_bytes; lia|].
    rewrite (w64_small (taken_bytes u a)) by (unfold taken_bytes; lia).
    rewrite (w64_small (i + _)) by lia. rewrite w64_small by (unfold taken_bytes in *; lia). done.
  - rewrite w64_small by lia. done.
Qed.

(** [steal_untyped] finds an untyped with enough bytes left if there is one, takes exactly
    the bytes asked for and no other, and, when what was taken before is a multiple of the
    size, returns the address of the first byte not taken yet, with all of the memory inside
    the untyped. *)
Theorem steal_untyped_correct bi (bits : Z) s :
  boot_ok bi s -> 12 ≤ bits ≤ 47 ->
  wp (steal_untyped bi bits) (fun r s' =>
    (r.1 = seL4_CapNull /\ s' = s /\ forall i, 0 ≤ i < n_untypeds bi -> ~ gives bi s bits i) \/
    (exists i u a, untypedList bi !! i = Some u /\ avail_bytes s !! i = Some a /\ isDevice u = false /\ BIT bits ≤ a /\
      r.1 = Z.of_nat i + untyped_start bi /\ s' = set_avail (<[i := a - BIT bits]> (avail_bytes s)) s /\
      (taken_bytes u a mod BIT bits = 0 ->
        r.2 = desc_paddr u + taken_bytes u a /\ r.2 + BIT bits ≤ desc_paddr u + BIT (sizeBits u)))) s.
Proof.
  intros Hok Hb. pose proof Hok as (B1 & B2 & B3 & B4 & B5). unfold steal_untyped.
  wp_line. apply wpf_assert; [by apply bool_decide_eq_true; unfold seL4_PageBits; lia|]. wp_line.
  apply wpf_assert; [by apply bool_decide_eq_true; unfold seL4_MaxUntypedBits; lia|].
  eapply wpf_mono; [apply steal_loop_spec; [done|done|]|].
  { intros i Hi%elem_of_seqZ. lia. }
  intros r s' [(-> & -> & Hn)|(i & u & a & Hi%elem_of_seqZ & Hu & Ha & Hr & Hd & Hge & -> & ->)].
  - left. split; [done|]. split; [done|]. intros i Hi. apply Hn, elem_of_seqZ. lia.
  - right. exists (Z.to_nat i), u, a. split_and!; try done; [cbn; lia|]. intros Hm. cbn [snd].
    destruct (B5 _ _ _ Hu Ha Hr) as (P1 & P2 & P3). rewrite Hd in P3.
    assert (BIT (sizeBits u) ≤ 2 ^ 32).
    { unfold untyped_in_range in Hr. bd. unfold MAX_PHYSICAL_SIZE_BITS in *. rewrite BIT_pow by lia. apply Z.pow_le_mono_r; lia. }
    unfold ROUND_UP. rewrite bool_decide_eq_true_2 by done. rewrite Z.add_0_r, w64_small by (unfold taken_bytes; lia).
    unfold taken_bytes. split; [done|lia].
Qed.

(** ** Recording the used slots *)

(** [c'] is [c] except in the counts of its nodes and in first cnodes; up to
    the cnode [k] the nodes are there. *)
Record first_only (k : Z) (c c' : cspace_t) : Prop := {
  fo_ok : bf_ok (top_bf c');
  fo_len : length (top_bf c') = length (top_bf c);
  fo_ready : forall q, 0 ≤ q < k -> exists n b, bot_lvl_nodes c' !! Z.to_nat (q / 169) = Some (Some n) /\ cnodes n !! 0%nat = Some b;
  fo_rest : forall x, 0 ≤ x -> x mod 169 ≠ 0 -> cnode_at c' x = cnode_at c x;
}.

Lemma first_only_node k c c' i n n' :
  first_only k c c' -> 0 ≤ i -> bot_lvl_nodes c' !! Z.to_nat i = Some (Some n) ->
  (forall j, (0 < j)%nat -> cnodes n' !! j = cnodes n !! j) -> (is_Some (cnodes n !! 0%nat) -> is_Some (cnodes n' !! 0%nat)) ->
  first_only k c (set_nodes (<[Z.to_nat i := Some n']> (bot_lvl_nodes c')) c').
Proof.
  intros [F1 F2 F3 F4] Hi Hn Hj H0. pose proof (lookup_lt_Some _ _ _ Hn) as Hlt. split; [done|done| |].
  - intros q Hq. destruct (F3 q Hq) as (m & b & Hm & Hb). cbn. pose proof (Z.div_pos q 169 ltac:(lia) ltac:(lia)).
    destruct (decide (q / 169 = i)) as [<-|Hne]; [|rewrite list_lookup_insert_ne by lia; eauto].
    rewrite list_lookup_insert_eq by done. assert (m = n) as -> by congruence. destruct H0 as [b' Hb']; [eauto|]. eauto.
  - intros x Hx Hm. rewrite <- F4 by done. unfold cnode_at. cbn.
    pose proof (Z.div_pos x 169 ltac:(lia) ltac:(lia)). pose proof (Z.mod_pos_bound x 169 ltac:(lia)).
    destruct (decide (x / 169 = i)) as [<-|Hne]; [|by rewrite list_lookup_insert_ne by lia].
    rewrite list_lookup_insert_eq, Hn by done. apply Hj. lia.
Qed.

Lemma in_space {A} F (m : M (world (sos K)) A) (Q : A -> booting K -> Prop) s :
  wpf F m (fun a w => Q a (Booting (avail_bytes s) (System (dma (sys s)) w))) (rest (sys s)) -> wpf F (in_sys (in_rest m)) Q s.
Proof. intros Hm. unfold in_sys, in_rest. wp_line. exact Hm. Qed.

Lemma space_cs F p c (Q : cspace_t -> booting K -> Prop) s :
  spaces (rest (sys s)) !! p = Some c -> Q c s -> wpf F (get_space p) Q s.
Proof.
  intros Hc HQ. unfold get_space. apply in_space. eapply wpf_cs; [exact Hc|].
  by destruct s as [? [? [? ?]]].
Qed.

(** The space, its top level and a node with a first cnode. *)
Definition ready k c (p i : Z) (top : list Z) s : Prop := exists c' n b, spaces (rest (sys s)) !! p = Some c' /\
  first_only k c c' /\ top_bf c' = top /\ bot_lvl_nodes c' !! Z.to_nat i = Some (Some n) /\ cnodes n !! 0%nat = Some b.

Lemma fill_first F k c p i top f s :
  0 ≤ i -> ready k c p i top s -> wpf F (in_sys (in_rest (upd_cnode p i 0 f))) (fun _ => ready k c p i top) s.
Proof.
  intros Hi (c' & n & b & Hc & Hf & Ht & Hn & Hb). pose proof (lookup_lt_Some _ _ _ Hn). pose proof (lookup_lt_Some _ _ _ Hb).
  apply in_space. unfold upd_cnode. wp_line. eapply wpf_cs; [exact Hc|]. wp_line. eapply wpf_node_at; [exact Hn|]. wp_line.
  eapply wpf_access; [exact Hb|]. eapply wpf_upd_node; [exact Hc|exact Hn|]. eexists _, _, (f b).
  split; [apply lookup_insert_eq|]. split; [|split; [exact Ht|split; [by apply list_lookup_insert_eq|by apply list_lookup_insert_eq]]].
  eapply first_only_node; [done|done|exact Hn| |].
  - intros j Hj. cbn. by rewrite list_lookup_insert_ne by lia.
  - intros _. cbn. exists (f b). by apply list_lookup_insert_eq.
Qed.

(** Marking the cnode [q]: a first cnode is filled, [q] is full at the top. *)
Lemma mark_full_step F k c c' p q s :
  spaces (rest (sys s)) !! p = Some c' -> first_only k c c' -> 0 ≤ q < k -> k ≤ bf_size (top_bf c) ->
  wpf F (mark_full p (q * CNODE_SLOTS CNODE_SIZE_BITS)) (fun _ s' => exists c'', spaces (rest (sys s')) !! p = Some c'' /\
    first_only k c c'' /\ forall x, has (top_bf c'') x <-> x = q \/ has (top_bf c') x) s.
Proof.
  intros Hc Hf Hq Hk. unfold mark_full. change (CNODE_SLOTS CNODE_SIZE_BITS) with 128.
  assert (NODE_INDEX (q * 128) = q / 169) as ->.
  { unfold NODE_INDEX. change (CNODE_SLOTS CNODE_SIZE_BITS) with 128. change BOT_LVL_PER_NODE with 169. by rewrite Z.div_mul. }
  assert (TOP_LVL_INDEX (q * 128) = q) as ->.
  { unfold TOP_LVL_INDEX. change (CNODE_SLOT_BITS CNODE_SIZE_BITS) with 7. rewrite Z.shiftr_div_pow2 by lia. by apply Z.div_mul. }
  pose proof (Z.div_pos q 169 ltac:(lia) ltac:(lia)) as Hd.
  destruct (fo_ready _ _ _ Hf q Hq) as (n & b & Hn & Hb).
  wp_line. eapply space_cs; [exact Hc|]. wp_line. eapply wpf_access; [exact Hn|]. wp_line.
  apply wpf_assert; [by apply bool_decide_eq_true|]. wp_line. apply in_space. eapply wpf_upd_node; [exact Hc|exact Hn|].
  set (s1 := Booting _ _). assert (Hs1 : ready k c p (q / 169) (top_bf c') s1).
  { eexists _, _, b. split; [apply lookup_insert_eq|]. split; [by eapply first_only_node|]. split; [done|].
    split; [apply list_lookup_insert_eq; by eapply lookup_lt_Some|done]. }
  change (seqZ 0 (128 / seL4_WordBits)) with [0; 1]. cbn [iterM]. change (CNODE_INDEX 0) with 0. change (CNODE_INDEX 1) with 0.
  wp_line. eapply wpf_mono; [by apply fill_first|]. intros [] s2 Hs2. wp_line.
  eapply wpf_mono; [by apply fill_first|]. intros [] s3 (c3 & n3 & b3 & Hc3 & Hf3 & Ht3 & _). wp_line.
  eapply space_cs; [exact Hc3|]. destruct (bf_set_bit_spec (top_bf c3) q) as (top & Htop & Hok & Hlen & Hhas);
    [apply Hf3|unfold bf_size in *; rewrite (fo_len _ _ _ Hf3); lia|].
  wp_line. eapply wpf_access; [exact Htop|]. unfold upd_space. apply in_space. eapply wpf_upd; [exact Hc3|].
  eexists. split; [apply lookup_insert_eq|]. split.
  - destruct Hf3 as [A1 A2 A3 A4]. split; [done|cbn; by rewrite Hlen|exact A3|exact A4].
  - intros x. cbn. by rewrite Hhas, Ht3.
Qed.

(** Recording the first [k] cnodes as full marks them all at the top level, but leaves the
    bits of every cnode that is not the first of its bookkeeping node as they were: the slots
    in use there stay free at the bottom level. *)
Theorem mark_full_cnodes_misses F k c p s :
  spaces (rest (sys s)) !! p = Some c -> first_only k c c -> 0 ≤ k ≤ bf_size (top_bf c) ->
  wpf F (mark_full_cnodes p k) (fun _ s' => exists c', spaces (rest (sys s')) !! p = Some c' /\
    (forall q, has (top_bf c') q <-> 0 ≤ q < k \/ has (top_bf c) q) /\
    (forall q, 0 ≤ q -> q mod 169 ≠ 0 -> cnode_at c' q = cnode_at c q)) s.
Proof.
  intros Hc Hf Hk. unfold mark_full_cnodes.
  eapply wpf_mono; [apply (wpf_iter F _ (fun l s' => exists j c', l = seqZ j (k - j) /\ 0 ≤ j ≤ k /\
    spaces (rest (sys s')) !! p = Some c' /\ first_only k c c' /\ forall q, has (top_bf c') q <-> 0 ≤ q < j \/ has (top_bf c) q))|].
  - exists 0, c. split; [f_equal; lia|]. split; [lia|]. split; [done|]. split; [done|]. intros q. split; [tauto|]. intros [?|?]; [lia|done].
  - intros x l s1 (j & c1 & Hl & Hj & Hc1 & Hf1 & Ht1).
    assert (j < k) by (destruct (decide (j < k)); [done|]; rewrite seqZ_nil in Hl by lia; done).
    rewrite seqZ_cons in Hl by lia. injection Hl as -> ->. eapply wpf_mono; [apply (mark_full_step F k c c1); [done|done|lia|lia]|].
    intros [] s2 (c2 & Hc2 & Hf2 & Ht2). exists (j + 1), c2. split; [f_equal; lia|]. split; [lia|]. split; [done|]. split; [done|].
    intros q. rewrite Ht2, Ht1. split; [intros [->|[?|?]]; [left; lia|left; lia|by right]|].
    intros [?|?]; [|tauto]. destruct (decide (q = j)); [tauto|]. right; left; lia.
  - intros [] s' (j & c' & Hl & Hj & Hc' & Hf' & Ht').
    assert (j = k) as -> by (destruct (decide (j = k)); [done|]; rewrite seqZ_cons in Hl by lia; done).
    exists c'. split; [done|]. split; [done|apply Hf'].
Qed.
End proofs.

(** ** Evaluated *)

(** Twelve megabytes in two untypeds. *)
Definition bi0 : seL4_BootInfo :=
  BootInfo 40 4096 20 22 [UntypedDesc 0x10000000 23 false; UntypedDesc 0x10800000 22 false].
Definition boot0 (avail : list Z) (codes : list Z) : booting ukernel := Booting avail
  (System (Dma.Dma 0 0 0 0 0) (World ∅ (Sos (Table ∅ 0 0 (replicate 9 0) 0 0) (BootData 0 0) 0 false SOS_DEVICE_START
    (Ukernel (Script [] codes 0) [])))).

Lemma retype_pages_covers_witness : exists chunks : list (Z * Z),
  concat ((fun x => seqZ x.1 x.2) <$> chunks) = seqZ 100 300 /\
  forall s : booting ukernel, retype_pages 301 20 300 100 s = (iterM (fun x => must_call (page_call 20 x)) chunks;; mret 400) s.
Proof.
  destruct (retype_pages_covers (K := ukernel) 301 20 300 100 ltac:(lia) ltac:(lia)) as (chunks & H1 & _ & H3).
  exists chunks. split; [exact H1|exact H3].
Defined.

Lemma bi0_ok : boot_ok bi0 (boot0 [2 ^ 23; 2 ^ 22] []).
Proof.
  do 4 (split; [by vm_compute|]). intros [|[|]] u a Hu Ha _; [| |done]; injection Hu as <-; injection Ha as <-; by vm_compute.
Qed.
Lemma steal_untyped_correct_witness :
  exists s', run (steal_untyped bi0 22) (boot0 [2 ^ 23; 2 ^ 22] []) = Ok ((20, 0x10000000), s') /\
    s' = boot0 [2 ^ 22; 2 ^ 22] [].
Proof.
  destruct (wpf_value _ _ _ _ (20, 0x10000000) (steal_untyped_correct bi0 22 (boot0 [2 ^ 23; 2 ^ 22] []) bi0_ok ltac:(lia)))
    as (s' & Hs & Hp); [by vm_compute|]. exists s'. split; [exact Hs|].
  destruct Hp as [[Hb _]|(i & u & a & Hu & Ha & _ & _ & Hi & -> & _)]; [by cbn in Hb|].
  cbn in Hi. assert (i = 0%nat) as -> by lia. injection Ha as <-. by vm_compute.
Defined.

Lemma two0_first k : 0 ≤ k ≤ 128 -> first_only k two0 two0.
Proof.
  intros Hk. split; [|reflexivity| |intros; reflexivity].
  - repeat constructor; by vm_compute.
  - intros q Hq. rewrite Z.div_small by lia. eexists _, _. split; [reflexivity|]. reflexivity.
Qed.
Definition boot_two0 : booting ukernel := Booting [] (System (Dma.Dma 0 0 0 0 0) (World {[1 := two0]} (sos0 []))).
Lemma mark_full_cnodes_misses_witness :
  exists s', run (mark_full_cnodes 1 3) boot_two0 = Ok (tt, s') /\
    exists c', spaces (rest (sys s')) !! 1 = Some c' /\ cnode_at c' 2 = cnode_at two0 2.
Proof.
  destruct (wpf_value _ _ _ _ tt (mark_full_cnodes_misses (fun _ => False) 3 two0 1 boot_two0 eq_refl (two0_first 3 ltac:(lia)) ltac:(by vm_compute)))
    as (s' & Hs & c' & Hc & _ & Hr); [by vm_compute|].
  exists s'. split; [exact Hs|]. exists c'. split; [exact Hc|]. apply Hr; [lia|done].
Defined.

(** The whole of bootstrapping runs.  Slot 2000 holds the capability of a 4K
    untyped then; once it is freed, the next allocation returns slot 1920, which
    holds another, because the bits of their cnode were never set. *)
Lemma boot_reissues_used_slots :
  value_of ((sos_bootstrap 1 bi0;; in_sys (in_rest (cspace_alloc_slot 1))) (boot0 (replicate 230 0) [])) = Some 2493 /\
  value_of ((sos_bootstrap 1 bi0;; in_sys (in_rest (cspace_free_slot 1 2000));; in_sys (in_rest (cspace_alloc_slot 1)))
    (boot0 (replicate 230 0) [])) = Some 1920.
Proof. by vm_compute. Qed.

(** Stealing a small piece before a large one: the large piece starts at the
    next multiple of its size, but only its size is subtracted, so the pages
    left over start at an address inside of it. *)
Lemma steal_padding_overlaps :
  value_of ((steal_untyped bi0 12;; r ← steal_untyped bi0 21; a ← paddr_from_avail_bytes bi0 0 12; mret (r.2, a))
    (boot0 [2 ^ 23; 2 ^ 22] [])) = Some (0x10200000, 0x10201000).
Proof. by vm_compute. Qed.
