(* ===== verification/Cpio.v ===== *)
(** * Archives of files

    Models [libcpio/src/cpio.c], which finds the programs to start in an archive
    linked into the server.  Memory is the bytes of the archive at its address
    and the buffers of [cpio_ls]; a read outside of them faults.  A string that
    the caller passes is its characters with the terminating zero. *)

From S2P Require Import Prelude Arith.

Definition CPIO_ALIGNMENT : Z := 4.
(** The characters of ["070701"] and ["TRAILER!!!"], the latter with its zero. *)
Definition CPIO_HEADER_MAGIC : list Z := [48; 55; 48; 55; 48; 49; 0].
Definition CPIO_FOOTER_MAGIC : list Z := [84; 82; 65; 73; 76; 69; 82; 33; 33; 33; 0].

(** The sizes and offsets of [struct cpio_header], which is all characters. *)
Definition sizeof_header : Z := 6 + 13 * 8.
Definition off_filesize : Z := 6 + 6 * 8.
Definition off_namesize : Z := 6 + 11 * 8.

Record cpio_header_info := HeaderInfo { filename : Z; filesize : Z; data : Z; next : Z }.
Record cpio_info_t := CpioInfo { file_count : Z; max_path_sz : Z }.

Record memory := Memory { base : Z; bytes : list Z; bufs : list (list Z) }.
Definition char_at (m : memory) (p : Z) : option Z :=
  if bool_decide (base m ≤ p) then bytes m !! Z.to_nat (p - base m) else None.
Definition read (p : Z) : M memory Z := m ← get; access (char_at m p).

Definition align_up (n align : Z) : Z := Z.land (w64 (n + align - 1)) (not64 (align - 1)).

Fixpoint hex_loop (s : Z) (max_len : nat) (r : Z) : M memory Z :=
  match max_len with
  | O => mret r
  | S max_len =>
    let r := w64 (r * 16) in
    c ← read s;
    if bool_decide (48 ≤ c ≤ 57) then hex_loop (s + 1) max_len (w64 (r + (c - 48)))
    else if bool_decide (97 ≤ c ≤ 102) then hex_loop (s + 1) max_len (w64 (r + (c - 97 + 10)))
    else if bool_decide (65 ≤ c ≤ 70) then hex_loop (s + 1) max_len (w64 (r + (c - 65 + 10)))
    else mret r
  end.
Definition parse_hex_str (s : Z) (max_len : nat) : M memory Z := hex_loop s max_len 0.

(** [b] is a string outside of the archive; past its end the read faults. *)
Fixpoint cpio_strncmp (a : Z) (b : list Z) (n : Z) : M memory Z :=
  if bool_decide (n ≤ 0) then mret 0
  else
    match b with
    | [] => throw OutOfBounds
    | y :: b =>
      x ← read a;
      if bool_decide (x ≠ y) then mret (x - y)
      else if bool_decide (x = 0) then mret 0
      else cpio_strncmp (a + 1) b (n - 1)
    end.

(** Characters up to the zero; a string lies in the archive, so its length
    bounds the rounds. *)
Fixpoint string_at (fuel : nat) (p : Z) : M memory (list Z) :=
  match fuel with
  | O => throw OutOfFuel
  | S fuel => c ← read p; if bool_decide (c = 0) then mret [] else r ← string_at fuel (p + 1); mret (c :: r)
  end.
Definition cpio_strlen (str : Z) : M memory Z :=
  m ← get; s ← string_at (length (bytes m) + 1) str; mret (w32 (Z.of_nat (length s))).
(** Copies the characters before the zero, and not the zero. *)
Definition write_char (i j : nat) (c : Z) : M memory unit :=
  m ← get;
  b ← access (bufs m !! i);
  _ ← access (b !! j);
  put (Memory (base m) (bytes m) (<[i := <[j := c]> b]> (bufs m))).
Fixpoint copy_chars (i j : nat) (s : list Z) : M memory unit :=
  match s with [] => mret tt | c :: s => write_char i j c;; copy_chars i (S j) s end.
Definition cpio_strcpy (i : nat) (from : Z) : M memory unit :=
  m ← get; s ← string_at (length (bytes m) + 1) from; copy_chars i 0 s.

Definition cpio_len_next (len prev next : Z) : Z :=
  let diff := w64 (next - prev) in if bool_decide (len < diff) then 0 else len.

Definition cpio_parse_header (archive len : Z) : M memory (Z * option cpio_header_info) :=
  if bool_decide (len < sizeof_header) then mret (-1, None)
  else
    cmp ← cpio_strncmp archive CPIO_HEADER_MAGIC 6;
    if bool_decide (cmp ≠ 0) then mret (-1, None)
    else
      filesize ← parse_hex_str (archive + off_filesize) 8;
      filename_length ← parse_hex_str (archive + off_namesize) 8;
      if bool_decide (len < w64 (sizeof_header + filename_length + filesize)) then mret (-1, None)
      else
        let filename := archive + sizeof_header in
        last ← read (w64 (filename + w64 (filename_length - 1)));
        if bool_decide (last ≠ 0) then mret (-1, None)
        else
          eof ← (if bool_decide (11 ≤ filename_length) then
                   cmp ← cpio_strncmp filename CPIO_FOOTER_MAGIC 11; mret (bool_decide (cmp = 0))
                 else mret false);
          if (eof : bool) then mret (1, None)
          else
            let data := align_up (w64 (archive + sizeof_header + filename_length)) CPIO_ALIGNMENT in
            let next := align_up (w64 (data + filesize)) CPIO_ALIGNMENT in
            mret (0, Some (HeaderInfo filename filesize data next)).

(** [n] entries are skipped; with none left the info is that of the last one
    parsed. *)
Fixpoint entry_loop (n : nat) (header len : Z) (info : option cpio_header_info) : M memory (option cpio_header_info) :=
  match n with
  | O => mret info
  | S n =>
    '(error, info) ← cpio_parse_header header len;
    if bool_decide (error ≠ 0) then mret None
    else
      i ← deref info;
      entry_loop n (next i) (cpio_len_next len header (next i)) (Some i)
  end.
(** For a negative [n] the source reads an info it never wrote. *)
Definition cpio_get_entry (archive len n : Z) : M memory (option cpio_header_info) :=
  if bool_decide (n < 0) then throw Undefined else entry_loop (Z.to_nat (n + 1)) archive len None.

Fixpoint file_loop (fuel : nat) (header len : Z) (name : list Z) : M memory (option cpio_header_info) :=
  match fuel with
  | O => throw OutOfFuel
  | S fuel =>
    '(error, info) ← cpio_parse_header header len;
    if bool_decide (error ≠ 0) then mret None
    else
      i ← deref info;
      cmp ← cpio_strncmp (filename i) name (2 ^ 64 - 1);
      if bool_decide (cmp = 0) then mret (Some i)
      else file_loop fuel (next i) (cpio_len_next len header (next i)) name
  end.
(** An entry is never shorter than its header, so the archive has fewer entries
    than bytes. *)
Definition cpio_get_file (archive len : Z) (name : list Z) : M memory (option cpio_header_info) :=
  m ← get; file_loop (length (bytes m) + 1) archive len name.

Fixpoint info_loop (fuel : nat) (header len : Z) (info : cpio_info_t) : M memory (Z * cpio_info_t) :=
  match fuel with
  | O => throw OutOfFuel
  | S fuel =>
    '(error, hi) ← cpio_parse_header header len;
    if bool_decide (error = -1) then mret (error, info)
    else if bool_decide (error = 1) then mret (0, info)
    else
      i ← deref hi;
      current_path_sz ← cpio_strlen (filename i);
      info_loop fuel (next i) (cpio_len_next len header (next i))
        (CpioInfo (w32 (file_count info + 1)) (if bool_decide (max_path_sz info < current_path_sz) then current_path_sz else max_path_sz info))
  end.
Definition cpio_info (archive len : Z) : M memory (Z * cpio_info_t) :=
  m ← get; info_loop (length (bytes m) + 1) archive len (CpioInfo 0 0).

Fixpoint ls_loop (l : list nat) (header len : Z) : M memory unit :=
  match l with
  | [] => mret tt
  | i :: l =>
    '(error, hi) ← cpio_parse_header header len;
    if bool_decide (error ≠ 0) then mret tt
    else
      h ← deref hi;
      cpio_strcpy i (filename h);;
      ls_loop l (next h) (cpio_len_next len header (next h))
  end.
Definition cpio_ls (archive len : Z) (buf_len : nat) : M memory unit := ls_loop (seq 0 buf_len) archive len.

(** ** The format *)

(** The least significant [k] hexadecimal digits of [v]. *)
Fixpoint digits (k : nat) (v : Z) : list Z :=
  match k with O => [] | S k => digits k (v / 16) ++ [v mod 16] end.
Definition hexdigit (d : Z) : Z := if bool_decide (d < 10) then 48 + d else 97 + (d - 10).
Definition hex8 (v : Z) : list Z := hexdigit <$> digits 8 v.

(** A file, with the attributes of its header as they are. *)
Record file := File { fname : list Z; fdata : list Z; attrs1 : list Z; attrs2 : list Z; attrs3 : list Z }.
Definition pad (n : Z) : list Z := replicate (Z.to_nat ((- n) mod 4)) 0.
Definition size {A} (l : list A) : Z := Z.of_nat (length l).
Definition header (f : file) : list Z :=
  take 6 CPIO_HEADER_MAGIC ++ attrs1 f ++ hex8 (size (fdata f)) ++ attrs2 f ++ hex8 (size (fname f) + 1) ++ attrs3 f.
Definition named (f : file) : list Z := header f ++ fname f ++ [0].
Definition encode_entry (f : file) : list Z := named f ++ pad (size (named f)) ++ fdata f ++ pad (size (fdata f)).
Definition trailer : file := File (take 10 CPIO_FOOTER_MAGIC) [] (replicate 48 48) (replicate 32 48) (replicate 8 48).
Definition encode (fs : list file) : list Z := concat (encode_entry <$> fs) ++ encode_entry trailer.

Definition chars (l : list Z) : Prop := Forall (fun c => 0 < c < 256) l.
Record file_ok (f : file) : Prop := {
  ok_name : chars (fname f);
  ok_nsize : size (fname f) < 2 ^ 31;
  ok_dsize : size (fdata f) < 2 ^ 31;
  ok_a1 : length (attrs1 f) = 48%nat;
  ok_a2 : length (attrs2 f) = 32%nat;
  ok_a3 : length (attrs3 f) = 8%nat;
}.

(** ** Memory *)

(** The bytes [l] are at [p]. *)
Definition stored (m : memory) (p : Z) (l : list Z) : Prop :=
  forall i x, l !! i = Some x -> char_at m (p + Z.of_nat i) = Some x.

Lemma stored_cons m p x l : stored m p (x :: l) <-> char_at m p = Some x /\ stored m (p + 1) l.
Proof.
  split.
  - intros H. split; [rewrite <- (Z.add_0_r p); by apply (H 0%nat)|]. intros i y Hy. rewrite <- (H (S i) y Hy). f_equal. lia.
  - intros [H0 H] [|i] y Hy; [injection Hy as ->; by rewrite Z.add_0_r|]. rewrite <- (H i y Hy). f_equal. lia.
Qed.
Lemma stored_app m p l k : stored m p (l ++ k) <-> stored m p l /\ stored m (p + size l) k.
Proof.
  unfold size. revert p. induction l as [|x l IH]; intros p; cbn [app length].
  - rewrite Z.add_0_r. split; [|tauto]. intros H. split; [by intros i y|done].
  - rewrite !stored_cons, IH. replace (p + Z.of_nat (S (length l))) with (p + 1 + Z.of_nat (length l)) by lia. tauto.
Qed.
Lemma stored_all b l bs : stored (Memory b l bs) b l.
Proof.
  intros i x Hx. unfold char_at. cbn. rewrite bool_decide_eq_true_2 by lia.
  replace (Z.to_nat (b + Z.of_nat i - b)) with i by lia. done.
Qed.

Section parse.
Context (F : fault -> Prop) (m : memory).

Lemma wpf_read p x (Q : Z -> memory -> Prop) : char_at m p = Some x -> Q x m -> wpf F (read p) Q m.
Proof. intros Hx HQ. unfold read. wp_line. by eapply wpf_access. Qed.

(** ** Numbers *)

Lemma digits_range k v : Forall (fun d => 0 ≤ d < 16) (digits k v).
Proof.
  revert v. induction k as [|k IH]; intros v; cbn; [constructor|]. apply Forall_app. split; [apply IH|].
  constructor; [apply Z.mod_pos_bound; lia|constructor].
Qed.
Lemma digits_length k v : length (digits k v) = k.
Proof. revert v. induction k as [|k IH]; intros v; cbn; [done|]. rewrite length_app, IH. cbn. lia. Qed.
Lemma digits_value k v : 0 ≤ v < 16 ^ Z.of_nat k -> foldl (fun r d => r * 16 + d) 0 (digits k v) = v.
Proof.
  revert v. induction k as [|k IH]; intros v Hv; [cbn in *; lia|]. cbn [digits]. rewrite foldl_app. cbn [foldl]. rewrite IH.
  - pose proof (Z.div_mod v 16). lia.
  - rewrite Nat2Z.inj_succ, Z.pow_succ_r in Hv by lia. split; [apply Z.div_pos; lia|apply Z.div_lt_upper_bound; lia].
Qed.

Lemma hex_loop_spec ds : forall r s, Forall (fun d => 0 ≤ d < 16) ds -> 0 ≤ r -> (r + 1) * 16 ^ size ds ≤ 2 ^ 64 ->
  stored m s (hexdigit <$> ds) ->
  wpf F (hex_loop s (length ds) r) (fun v m' => v = foldl (fun r d => r * 16 + d) r ds /\ m' = m) m.
Proof.
  unfold size. induction ds as [|d ds IH]; intros r s Hds Hr Hb Hs; [by wp_line|]. cbn [length hex_loop foldl fmap list_fmap] in *.
  apply Forall_cons in Hds as [Hd Hds]. apply stored_cons in Hs as [Hc Hs].
  rewrite Nat2Z.inj_succ, Z.pow_succ_r in Hb by lia. assert (0 < 16 ^ Z.of_nat (length ds)) by lia.
  assert (r * 16 + 16 ≤ 2 ^ 64) by nia.
  assert (Hgo : forall x, x = d -> wpf F (hex_loop (s + 1) (length ds) (w64 (w64 (r * 16) + x)))
    (fun v m' => v = foldl (fun r d => r * 16 + d) (r * 16 + d) ds /\ m' = m) m).
  { intros x ->. rewrite (w64_small (r * 16)) by lia. rewrite w64_small by lia. apply IH; [done|lia| |done]. nia. }
  assert (Hx : 48 ≤ hexdigit d ≤ 57 /\ hexdigit d - 48 = d \/ 97 ≤ hexdigit d ≤ 102 /\ hexdigit d - 97 + 10 = d).
  { unfold hexdigit. case_bool_decide; lia. }
  wp_line. eapply wpf_read; [exact Hc|]. destruct Hx as [[Hx Hd']|[Hx Hd']].
  - rewrite bool_decide_eq_true_2 by lia. by apply Hgo.
  - rewrite bool_decide_eq_false_2 by lia. rewrite bool_decide_eq_true_2 by lia. by apply Hgo.
Qed.
Lemma parse_hex8 s v : 0 ≤ v < 2 ^ 32 -> stored m s (hex8 v) -> wpf F (parse_hex_str s 8) (fun r m' => r = v /\ m' = m) m.
Proof.
  intros Hv Hs. unfold parse_hex_str. replace 8%nat with (length (digits 8 v)) by apply digits_length.
  eapply wpf_mono; [apply hex_loop_spec; [apply digits_range|lia| |exact Hs]|].
  - unfold size. rewrite digits_length. done.
  - intros r m' [-> ->]. split; [|done]. by apply digits_value.
Qed.

(** ** Strings *)

(** Two strings without zeros compare equal exactly when they are the same. *)
Lemma strncmp_spec a : forall b p n, chars a -> chars b -> size b < n -> stored m p (a ++ [0]) ->
  wpf F (cpio_strncmp p (b ++ [0]) n) (fun r m' => (r = 0 <-> a = b) /\ m' = m) m.
Proof.
  unfold size. induction a as [|x a IH]; intros [|y b] p n Ha Hb Hn Hs; cbn [app cpio_strncmp length] in *;
    rewrite bool_decide_eq_false_2 by lia; apply stored_cons in Hs as [Hc Hs];
    wp_line; (eapply wpf_read; [exact Hc|]).
  - rewrite bool_decide_eq_false_2, bool_decide_eq_true_2 by auto. by wp_line.
  - apply Forall_cons in Hb as [Hy _]. rewrite bool_decide_eq_true_2 by lia. wp_line. split; [|done]. split; [lia|done].
  - apply Forall_cons in Ha as [Hx _]. rewrite bool_decide_eq_true_2 by lia. wp_line. split; [|done]. split; [lia|done].
  - apply Forall_cons in Ha as [Hx Ha]. apply Forall_cons in Hb as [Hy Hb]. case_bool_decide as E.
    + wp_line. split; [|done]. split; [lia|]. intros [=]. lia.
    + assert (x = y) as -> by lia. rewrite bool_decide_eq_false_2 by lia.
      eapply wpf_mono; [apply (IH b (p + 1) (n - 1)); [done|done|lia|done]|]. intros r m' [Hr ->]. split; [|done].
      rewrite Hr. split; [by intros ->|by intros [=]].
Qed.
(** The first characters agree with [b]. *)
Lemma strncmp_prefix l : forall b p, chars l -> stored m p l ->
  wpf F (cpio_strncmp p (l ++ b) (size l)) (fun r m' => r = 0 /\ m' = m) m.
Proof.
  unfold size. induction l as [|x l IH]; intros b p Hl Hs.
  - destruct b; cbn [app cpio_strncmp length]; rewrite bool_decide_eq_true_2 by done; by wp_line.
  - cbn [app cpio_strncmp length]. rewrite bool_decide_eq_false_2 by lia. apply Forall_cons in Hl as [Hx Hl].
    apply stored_cons in Hs as [Hc Hs]. wp_line. eapply wpf_read; [exact Hc|].
    rewrite bool_decide_eq_false_2 by auto. rewrite bool_decide_eq_false_2 by lia.
    replace (Z.of_nat (S (length l)) - 1) with (Z.of_nat (length l)) by lia. by apply IH.
Qed.

(** ** Entries *)

Lemma align_up_4 n : 0 ≤ n -> n + 4 ≤ 2 ^ 64 -> align_up n CPIO_ALIGNMENT = n + (- n) mod 4.
Proof.
  intros Hn Hb. unfold align_up, CPIO_ALIGNMENT. change (4 - 1) with (2 ^ 2 - 1).
  rewrite w64_small by lia. rewrite land_not_mask by lia.
  pose proof (Z.div_mod n 4 ltac:(lia)). pose proof (Z.mod_pos_bound n 4 ltac:(lia)).
  assert ((- n) mod 4 = if bool_decide (n mod 4 = 0) then 0 else 4 - n mod 4) as ->.
  { case_bool_decide; [by apply Z.mod_opp_l_z|by apply Z.mod_opp_l_nz]. }
  change (2 ^ 2) with 4. case_bool_decide as E.
  - replace (n + 4 - 1) with (3 + (n / 4) * 4) by lia. rewrite Z.mod_add by lia. rewrite Z.mod_small by lia. lia.
  - replace (n + 4 - 1) with (n mod 4 - 1 + (n / 4 + 1) * 4) by lia. rewrite Z.mod_add by lia. rewrite (Z.mod_small (n mod 4 - 1)) by lia. lia.
Qed.

Lemma size_app {A} (l k : list A) : size (l ++ k) = size l + size k.
Proof. unfold size. rewrite length_app. lia. Qed.
Lemma size_pos {A} (l : list A) : 0 ≤ size l.
Proof. unfold size. lia. Qed.
Lemma size_hex8 v : size (hex8 v) = 8.
Proof. unfold size, hex8. by rewrite length_fmap, digits_length. Qed.
Lemma size_header f : file_ok f -> size (header f) = 110.
Proof.
  intros Hf. unfold header. rewrite !size_app, !size_hex8. unfold size. rewrite (ok_a1 f Hf), (ok_a2 f Hf), (ok_a3 f Hf). done.
Qed.
Lemma size_named f : file_ok f -> size (named f) = 111 + size (fname f).
Proof. intros Hf. unfold named. rewrite !size_app, size_header by done. change (size [0]) with 1. lia. Qed.
Lemma size_pad n : size (pad n) = (- n) mod 4.
Proof. unfold size, pad. rewrite length_replicate. pose proof (Z.mod_pos_bound (- n) 4). lia. Qed.
Lemma pad_mod n : (n + (- n) mod 4) mod 4 = 0.
Proof. rewrite Z.add_mod_idemp_r by lia. by rewrite Z.add_opp_diag_r. Qed.
(** An entry is a whole number of words long. *)
Lemma size_entry f : size (encode_entry f) = size (named f) + (- size (named f)) mod 4 + (size (fdata f) + (- size (fdata f)) mod 4).
Proof. unfold encode_entry. rewrite !size_app, !size_pad. lia. Qed.
Lemma size_entry_mod f : size (encode_entry f) mod 4 = 0.
Proof. rewrite size_entry, Z.add_mod, !pad_mod by lia. done. Qed.

(** Where the fields of an entry are. *)
Lemma stored_entry p f : file_ok f -> stored m p (encode_entry f) ->
  stored m p (take 6 CPIO_HEADER_MAGIC) /\ stored m (p + off_filesize) (hex8 (size (fdata f))) /\
  stored m (p + off_namesize) (hex8 (size (fname f) + 1)) /\ stored m (p + 110) (fname f ++ [0]) /\
  stored m (p + (size (named f) + (- size (named f)) mod 4)) (fdata f).
Proof.
  intros Hf Hs. unfold encode_entry in Hs. rewrite !stored_app in Hs. destruct Hs as (Hn & _ & Hd & _). rewrite size_pad in Hd. unfold named in Hn.
  rewrite stored_app in Hn. destruct Hn as [Hh Hn]. rewrite size_header in Hn by done. unfold header in Hh. rewrite !stored_app in Hh.
  destruct Hh as (H1 & _ & H3 & _ & H5 & _). rewrite size_hex8 in *. unfold size in H3, H5.
  rewrite (ok_a1 f Hf) in *. rewrite (ok_a2 f Hf) in *. cbn [length take CPIO_HEADER_MAGIC] in *.
  split; [done|]. split; [replace (p + off_filesize) with (p + Z.of_nat 6 + Z.of_nat 48) by (unfold off_filesize; lia); exact H3|].
  split; [replace (p + off_namesize) with (p + Z.of_nat 6 + Z.of_nat 48 + 8 + Z.of_nat 32) by (unfold off_namesize; lia); exact H5|].
  split; [exact Hn|]. rewrite Z.add_assoc. exact Hd.
Qed.

(** The parsed form of the entry of [f] at [p]. *)
Definition info_of (p : Z) (f : file) : cpio_header_info :=
  HeaderInfo (p + 110) (size (fdata f)) (p + (size (named f) + (- size (named f)) mod 4)) (p + size (encode_entry f)).

Lemma entry_data p f : file_ok f -> p mod 4 = 0 -> 0 ≤ p -> p + size (encode_entry f) + 8 ≤ 2 ^ 64 ->
  align_up (w64 (p + 110 + (size (fname f) + 1))) CPIO_ALIGNMENT = p + (size (named f) + (- size (named f)) mod 4).
Proof.
  intros Hf Hp Hp0 Hend. pose proof (size_named f Hf). pose proof (size_entry f). pose proof (size_pos (fname f)). pose proof (size_pos (fdata f)).
  pose proof (Z.mod_pos_bound (- size (named f)) 4 ltac:(lia)). pose proof (Z.mod_pos_bound (- size (fdata f)) 4 ltac:(lia)).
  rewrite w64_small by lia. rewrite align_up_4 by lia. replace (p + 110 + (size (fname f) + 1)) with (p + size (named f)) by lia.
  rewrite Z.opp_add_distr, Z.add_mod, (Z.mod_opp_l_z p), Z.add_0_l, Z.mod_mod by lia. lia.
Qed.
Lemma entry_next p f : file_ok f -> p mod 4 = 0 -> 0 ≤ p -> p + size (encode_entry f) + 8 ≤ 2 ^ 64 ->
  align_up (w64 (p + (size (named f) + (- size (named f)) mod 4) + size (fdata f))) CPIO_ALIGNMENT = p + size (encode_entry f).
Proof.
  intros Hf Hp Hp0 Hend. pose proof (size_named f Hf). pose proof (size_entry f). pose proof (size_pos (fname f)). pose proof (size_pos (fdata f)).
  pose proof (Z.mod_pos_bound (- size (named f)) 4 ltac:(lia)). pose proof (Z.mod_pos_bound (- size (fdata f)) 4 ltac:(lia)).
  pose proof (pad_mod (size (named f))) as Hm. set (A := size (named f) + (- size (named f)) mod 4) in *.
  rewrite w64_small by lia. rewrite align_up_4 by lia.
  assert ((- (p + A + size (fdata f))) mod 4 = (- size (fdata f)) mod 4) as ->; [|lia].
  replace (- (p + A + size (fdata f))) with (- size (fdata f) + - (p + A)) by lia.
  rewrite Z.add_mod, (Z.mod_opp_l_z (p + A)), Z.add_0_r, Z.mod_mod by (try rewrite Z.add_mod, Hp, Hm; lia || done). done.
Qed.

Lemma parse_entry p len f :
  file_ok f -> stored m p (encode_entry f) -> p mod 4 = 0 -> 0 ≤ p -> p + size (encode_entry f) + 8 ≤ 2 ^ 64 ->
  size (named f) + size (fdata f) ≤ len ->
  wpf F (cpio_parse_header p len) (fun r m' => m' = m /\
    r = if bool_decide (fname f = take 10 CPIO_FOOTER_MAGIC) then (1, None) else (0, Some (info_of p f))) m.
Proof.
  intros Hf Hs Hp Hp0 Hend Hlen. destruct (stored_entry p f Hf Hs) as (H1 & H2 & H3 & H4 & _).
  pose proof (size_named f Hf) as Hnm. pose proof (size_entry f) as Hse. pose proof (size_pos (fname f)). pose proof (size_pos (fdata f)).
  pose proof (ok_nsize f Hf). pose proof (ok_dsize f Hf).
  pose proof (Z.mod_pos_bound (- size (named f)) 4 ltac:(lia)). pose proof (Z.mod_pos_bound (- size (fdata f)) 4 ltac:(lia)).
  unfold cpio_parse_header, sizeof_header. change (6 + 13 * 8) with 110. rewrite bool_decide_eq_false_2 by lia. wp_line.
  eapply wpf_mono; [apply (strncmp_prefix (take 6 CPIO_HEADER_MAGIC) [0]); [by repeat constructor|done]|].
  intros r m' [-> ->]. rewrite bool_decide_eq_false_2 by auto. wp_line.
  eapply wpf_mono; [apply (parse_hex8 _ (size (fdata f))); [lia|done]|]. intros r m' [-> ->]. wp_line.
  eapply wpf_mono; [apply (parse_hex8 _ (size (fname f) + 1)); [lia|done]|]. intros r m' [-> ->]. cbv zeta.
  rewrite (w64_small (110 + (size (fname f) + 1) + size (fdata f))) by lia. rewrite bool_decide_eq_false_2 by lia. wp_line.
  eapply wpf_read; [|].
  { rewrite (w64_small (size (fname f) + 1 - 1)), w64_small by lia. apply stored_app in H4 as [_ H4].
    replace (p + 110 + (size (fname f) + 1 - 1)) with (p + 110 + size (fname f)) by lia. apply stored_cons in H4 as [H4 _]. exact H4. }
  rewrite bool_decide_eq_false_2 by auto. wp_line.
  eapply (wpf_mono _ _ (fun b m' => m' = m /\ b = bool_decide (fname f = take 10 CPIO_FOOTER_MAGIC))).
  { case_bool_decide as H11; wp_line.
    - eapply wpf_mono; [apply (strncmp_spec (fname f) (take 10 CPIO_FOOTER_MAGIC)); [apply Hf|by repeat constructor|done|done]|].
      intros r m' [Hr ->]. wp_line. split; [done|]. by apply bool_decide_ext.
    - split; [done|]. rewrite bool_decide_eq_false_2; [done|]. intros E. apply H11. rewrite E. done. }
  intros b m' [-> ->]. case_bool_decide; wp_line; [done|]. split; [done|]. unfold info_of.
  rewrite (entry_data p f), (entry_next p f) by (lia || done). done.
Qed.

(** ** Finding a file *)

(** [r] is the first file with that name among [fs], or there is none. *)
Definition found (fs : list file) (name : list Z) (r : option cpio_header_info) : Prop :=
  match r with
  | None => forall f, f ∈ fs -> fname f ≠ name
  | Some i => exists pre f post, fs = pre ++ f :: post /\ fname f = name /\ (forall g, g ∈ pre -> fname g ≠ name) /\
      filesize i = size (fdata f) /\ stored m (data i) (fdata f)
  end.

Lemma trailer_ok : file_ok trailer.
Proof. split; try done. by repeat constructor. Qed.

Lemma file_loop_spec name fs : chars name -> size name < 2 ^ 63 -> forall p fuel len,
  Forall file_ok fs -> Forall (fun f => fname f ≠ take 10 CPIO_FOOTER_MAGIC) fs -> stored m p (encode fs) ->
  p mod 4 = 0 -> 0 ≤ p -> p + size (encode fs) + 8 ≤ 2 ^ 64 -> size (encode fs) ≤ len -> (length fs < fuel)%nat ->
  wpf F (file_loop fuel p len (name ++ [0])) (fun r m' => m' = m /\ found fs name r) m.
Proof.
  intros Hn Hns. induction fs as [|f fs IH]; intros p [|fuel] len Hok Hnt Hs Hp Hp0 Hend Hlen Hfuel; try (cbn in Hfuel; lia).
  { unfold encode in *. cbn [fmap list_fmap concat app] in *. cbn [file_loop]. wp_line.
    eapply wpf_mono; [apply (parse_entry p len trailer trailer_ok); try done|].
    - pose proof (size_entry trailer). pose proof (Z.mod_pos_bound (- size (named trailer)) 4 ltac:(lia)).
      pose proof (Z.mod_pos_bound (- size (fdata trailer)) 4 ltac:(lia)). lia.
    - intros r m' [-> ->]. rewrite bool_decide_eq_true_2 by done. wp_line. split; [done|]. by intros g ?%elem_of_nil. }
  apply Forall_cons in Hok as [Hf Hok]. apply Forall_cons in Hnt as [Hft Hnt].
  assert (Henc : encode (f :: fs) = encode_entry f ++ encode fs) by (unfold encode; cbn [fmap list_fmap concat]; by rewrite <- app_assoc).
  rewrite Henc in Hs, Hend, Hlen. rewrite size_app in Hend, Hlen. apply stored_app in Hs as [Hs Hrest].
  pose proof (size_entry f). pose proof (Z.mod_pos_bound (- size (named f)) 4 ltac:(lia)).
  pose proof (Z.mod_pos_bound (- size (fdata f)) 4 ltac:(lia)). pose proof (size_pos (encode fs)). pose proof (size_pos (encode_entry f)).
  cbn [file_loop]. wp_line. eapply wpf_mono; [apply (parse_entry p len f Hf Hs); (lia || done)|].
  intros r m' [-> ->]. rewrite bool_decide_eq_false_2 by done. cbv beta iota. rewrite bool_decide_eq_false_2 by auto. wp_line.
  eapply wpf_deref; [done|]. wp_line. destruct (stored_entry p f Hf Hs) as (_ & _ & _ & H4 & H5).
  eapply wpf_mono; [apply (strncmp_spec (fname f) name); [apply Hf|done| |exact H4]; cbn; lia|]. intros r m' [Hr ->].
  case_bool_decide as E.
  - wp_line. split; [done|]. exists [], f, fs. split; [done|]. split; [by apply Hr|]. split; [by intros g ?%elem_of_nil|]. done.
  - cbn [next info_of]. unfold cpio_len_next. rewrite w64_small by lia. rewrite bool_decide_eq_false_2 by lia.
    assert (Hne : fname f ≠ name) by (intros Hx; by apply E, Hr).
    eapply wpf_mono; [apply IH; try done; [by rewrite Z.add_mod, Hp, size_entry_mod|lia|lia|lia|cbn in Hfuel; lia]|].
    intros [i|] m' [-> Hfound]; (split; [done|]).
    + destruct Hfound as (pre & g & post & -> & Hg & Hpre & Hrest'). exists (f :: pre), g, post. split; [done|].
      split; [done|]. split; [|done]. intros h [->|Hh]%elem_of_cons; auto.
    + intros g [->|Hg]%elem_of_cons; auto.
Qed.
End parse.

Lemma encode_length fs : (length fs ≤ length (encode fs))%nat.
Proof.
  unfold encode. rewrite length_app. assert (length fs ≤ length (concat (encode_entry <$> fs)))%nat; [|lia].
  induction fs as [|f fs IH]; [done|]. cbn [fmap list_fmap concat length]. rewrite length_app.
  assert (1 ≤ length (encode_entry f))%nat; [|lia]. unfold encode_entry, named, header. rewrite !length_app. cbn. lia.
Qed.

(** C40: Looking up a name in an archive of the given files ends, stays within the archive, and
    returns the size and the place of the contents of the first file with that name, or NULL
    if there is none. *)
Theorem cpio_get_file_roundtrip fs (b : Z) (bs : list (list Z)) (name : list Z) :
  Forall file_ok fs -> Forall (fun f => fname f ≠ take 10 CPIO_FOOTER_MAGIC) fs -> chars name -> size name < 2 ^ 63 ->
  b mod 4 = 0 -> 0 ≤ b -> b + size (encode fs) + 8 ≤ 2 ^ 64 ->
  let m := Memory b (encode fs) bs in
  wp (cpio_get_file b (size (encode fs)) (name ++ [0])) (fun r m' => m' = m /\ found m fs name r) m.
Proof.
  intros Hok Hnt Hn Hns Hb Hb0 Hend m. unfold cpio_get_file. wp_line.
  apply (file_loop_spec (fun _ => False) m); try done; [apply stored_all|]. cbn. pose proof (encode_length fs). lia.
Qed.

(** ** Evaluated *)

Definition file1 : file := File [97] [1; 2; 3; 4; 5] (replicate 48 48) (replicate 32 48) (replicate 8 48).
Definition file2 : file := File [98; 99] [7] (replicate 48 48) (replicate 32 48) (replicate 8 48).
Lemma file1_ok : file_ok file1.
Proof. split; try done. by repeat constructor. Qed.
Lemma file2_ok : file_ok file2.
Proof. split; try done. by repeat constructor. Qed.

Lemma cpio_get_file_roundtrip_witness :
  let m := Memory 0x400000 (encode [file1; file2]) [] in
  exists i, run (cpio_get_file 0x400000 (size (encode [file1; file2])) [98; 99; 0]) m = Ok (Some i, m) /\ stored m (data i) [7].
Proof.
  intros m. destruct (wp_inv _ _ _ (cpio_get_file_roundtrip [file1; file2] 0x400000 [] [98; 99]
    ltac:(repeat constructor; (apply file1_ok || apply file2_ok)) ltac:(by repeat constructor) ltac:(by repeat constructor)
    ltac:(by vm_compute) ltac:(by vm_compute) ltac:(lia) ltac:(by vm_compute))) as (r & m' & Hr & -> & Hf).
  destruct r as [i|]; [|exfalso; apply (Hf file2); [right; by left|done]].
  exists i. split; [exact Hr|]. destruct Hf as (pre & f & post & Hfs & Hn & _ & _ & Hs).
  destruct pre as [|g [|g2 pre]].
  - injection Hfs as <- _. discriminate Hn.
  - injection Hfs as _ <- _. exact Hs.
  - injection Hfs as _ _ Hx. destruct pre; discriminate Hx.
Defined.

(** An archive without a trailer: the length left is never reduced, so the search
    continues behind the end. *)
Lemma no_trailer_reads_past_end :
  let bytes := encode_entry file1 in
  cpio_get_file 0x400000 (size bytes) [98; 99; 0] (Memory 0x400000 bytes []) = Fault OutOfBounds.
Proof. by vm_compute. Qed.

(** Listing leaves out the terminating zero: a shorter name keeps the rest of
    what the buffer held. *)
Lemma ls_not_terminated :
  match cpio_ls 0x400000 (size (encode [file1])) 1 (Memory 0x400000 (encode [file1]) [[120; 121; 0]]) with
  | Ok (_, m) => bufs m = [[97; 121; 0]]
  | Fault _ => False
  end.
Proof. by vm_compute. Qed.

Lemma cpio_info_run :
  value_of (cpio_info 0x400000 (size (encode [file1; file2])) (Memory 0x400000 (encode [file1; file2]) [])) = Some (0, CpioInfo 2 2).
Proof. by vm_compute. Qed.
