(* ===== verification/Elf.v ===== *)
(** * ELF files

    Models [libelf]: [elf.c], [elf32.c], [elf64.c] and the accessors of [elf32.h]
    and [elf64.h].  A file is its bytes; a pointer into it is an offset, and a
    read outside of the bytes faults.  [elfSize] is what the caller claims to be
    the size.  The theorem is that after [elf_newFile] accepted a file no
    accessor reads outside of it. *)

From S2P Require Import Prelude.

(** ** Layout of the headers, little endian *)

(** A field: its offset in the structure and its size in bytes. *)
Record fld := Fld { fld_off : Z; fld_size : Z }.

Module Layout32.
Definition sizeof_Ehdr : Z := 52.
Definition sizeof_Phdr : Z := 32.
Definition sizeof_Shdr : Z := 40.
Definition e_entry : fld := Fld 24 4.
Definition e_phoff : fld := Fld 28 4.
Definition e_shoff : fld := Fld 32 4.
Definition e_phentsize : fld := Fld 42 2.
Definition e_phnum : fld := Fld 44 2.
Definition e_shentsize : fld := Fld 46 2.
Definition e_shnum : fld := Fld 48 2.
Definition e_shstrndx : fld := Fld 50 2.
Definition p_type : fld := Fld 0 4.
Definition p_offset : fld := Fld 4 4.
Definition p_vaddr : fld := Fld 8 4.
Definition p_paddr : fld := Fld 12 4.
Definition p_filesz : fld := Fld 16 4.
Definition p_memsz : fld := Fld 20 4.
Definition p_flags : fld := Fld 24 4.
Definition p_align : fld := Fld 28 4.
Definition sh_name : fld := Fld 0 4.
Definition sh_type : fld := Fld 4 4.
Definition sh_flags : fld := Fld 8 4.
Definition sh_addr : fld := Fld 12 4.
Definition sh_offset : fld := Fld 16 4.
Definition sh_size : fld := Fld 20 4.
Definition sh_link : fld := Fld 24 4.
Definition sh_info : fld := Fld 28 4.
Definition sh_addralign : fld := Fld 32 4.
Definition sh_entsize : fld := Fld 36 4.
End Layout32.

Module Layout64.
Definition sizeof_Ehdr : Z := 64.
Definition sizeof_Phdr : Z := 56.
Definition sizeof_Shdr : Z := 64.
Definition e_entry : fld := Fld 24 8.
Definition e_phoff : fld := Fld 32 8.
Definition e_shoff : fld := Fld 40 8.
Definition e_phentsize : fld := Fld 54 2.
Definition e_phnum : fld := Fld 56 2.
Definition e_shentsize : fld := Fld 58 2.
Definition e_shnum : fld := Fld 60 2.
Definition e_shstrndx : fld := Fld 62 2.
Definition p_type : fld := Fld 0 4.
Definition p_flags : fld := Fld 4 4.
Definition p_offset : fld := Fld 8 8.
Definition p_vaddr : fld := Fld 16 8.
Definition p_paddr : fld := Fld 24 8.
Definition p_filesz : fld := Fld 32 8.
Definition p_memsz : fld := Fld 40 8.
Definition p_align : fld := Fld 48 8.
Definition sh_name : fld := Fld 0 4.
Definition sh_type : fld := Fld 4 4.
Definition sh_flags : fld := Fld 8 8.
Definition sh_addr : fld := Fld 16 8.
Definition sh_offset : fld := Fld 24 8.
Definition sh_size : fld := Fld 32 8.
Definition sh_link : fld := Fld 40 4.
Definition sh_info : fld := Fld 44 4.
Definition sh_addralign : fld := Fld 48 8.
Definition sh_entsize : fld := Fld 56 8.
End Layout64.

Definition ELFMAG : list Z := [127; 69; 76; 70].
Definition EI_CLASS : Z := 4.
Definition ELFCLASS32 : Z := 1.
Definition ELFCLASS64 : Z := 2.
Definition SHT_STRTAB : Z := 3.
Definition PT_LOAD : Z := 1.

Record elf_t := Elf { elfFile : list Z; elfSize : Z; elfClass : Z }.
#[export] Instance elf_t_eq_dec : EqDecision elf_t.
Proof. solve_decision. Defined.

Inductive elf_addr_type := VIRTUAL | PHYSICAL.

(** The header of either class, as far as it is used. *)
Record Ehdr := MkEhdr {
  e_entry : Z; e_phoff : Z; e_shoff : Z; e_phentsize : Z; e_phnum : Z;
  e_shentsize : Z; e_shnum : Z; e_shstrndx : Z
}.

(** What a name of a section points to: the file, or a literal. *)
Inductive cstring := InFile (off : Z) | Corrupted.

Definition slice (b : list Z) (off n : Z) : option (list Z) :=
  if bool_decide (0 ≤ off ∧ 0 ≤ n ∧ off + n ≤ Z.of_nat (length b))
  then Some (take (Z.to_nat n) (drop (Z.to_nat off) b)) else None.
Fixpoint le (b : list Z) : Z :=
  match b with [] => 0 | x :: r => x + 256 * le r end.
Definition pick (f : fld) (b : list Z) : Z :=
  le (take (Z.to_nat (fld_size f)) (drop (Z.to_nat (fld_off f)) b)).

Section accessors.
Context {S : Type}.
Notation M := (M S).

(** Read a field of the structure at [off]; the structure itself; a byte. *)
Definition field (e : elf_t) (off : Z) (f : fld) : M Z :=
  b ← access (slice (elfFile e) (off + fld_off f) (fld_size f)); mret (le b).
Definition struct (e : elf_t) (off n : Z) : M (list Z) := access (slice (elfFile e) off n).
Definition byte (e : elf_t) (off : Z) : M Z := b ← struct e off 1; mret (le b).

(** [a * b] of two 16-bit values, which C multiplies as [int]. *)
Definition mul_int (a b : Z) : M Z := if bool_decide (a * b < 2 ^ 31) then mret (a * b) else throw Undefined.

Definition elf_check_magic (e : elf_t) : M Z :=
  b ← struct e 0 4; mret (if bool_decide (b = ELFMAG) then 0 else -1).

(** ** 32-bit files *)

Definition elf_isElf32 (e : elf_t) : bool := bool_decide (elfClass e = ELFCLASS32).

Definition elf32_getHeader (e : elf_t) : M Ehdr :=
  b ← struct e 0 Layout32.sizeof_Ehdr;
  mret (MkEhdr (pick Layout32.e_entry b) (pick Layout32.e_phoff b) (pick Layout32.e_shoff b)
    (pick Layout32.e_phentsize b) (pick Layout32.e_phnum b) (pick Layout32.e_shentsize b)
    (pick Layout32.e_shnum b) (pick Layout32.e_shstrndx b)).

(** Returns the status and the file with its class filled in. *)
Definition elf32_checkFile (e : elf_t) : M (Z * elf_t) :=
  if bool_decide (elfSize e < Layout32.sizeof_Ehdr) then mret (-1, e)
  else
    magic ← elf_check_magic e;
    if bool_decide (magic < 0) then mret (-1, e)
    else
      class ← byte e EI_CLASS;
      if bool_decide (class ≠ ELFCLASS32) then mret (-1, e)
      else
        phentsize ← field e 0 Layout32.e_phentsize;
        if bool_decide (phentsize ≠ Layout32.sizeof_Phdr) then mret (-1, e)
        else
          shentsize ← field e 0 Layout32.e_shentsize;
          if bool_decide (shentsize ≠ Layout32.sizeof_Shdr) then mret (-1, e)
          else
            shstrndx ← field e 0 Layout32.e_shstrndx;
            shnum ← field e 0 Layout32.e_shnum;
            if bool_decide (shnum ≤ shstrndx) then mret (-1, e)
            else mret (0, Elf (elfFile e) (elfSize e) class).

Definition elf32_checkProgramHeaderTable (e : elf_t) : M Z :=
  phoff ← field e 0 Layout32.e_phoff;
  phentsize ← field e 0 Layout32.e_phentsize;
  phnum ← field e 0 Layout32.e_phnum;
  n ← mul_int phentsize phnum;
  let ph_end := w32 (phoff + n) in
  mret (if bool_decide (elfSize e < ph_end) || bool_decide (ph_end < phoff) then -1 else 0).

Definition elf32_checkSectionTable (e : elf_t) : M Z :=
  shoff ← field e 0 Layout32.e_shoff;
  shentsize ← field e 0 Layout32.e_shentsize;
  shnum ← field e 0 Layout32.e_shnum;
  n ← mul_int shentsize shnum;
  let sh_end := w32 (shoff + n) in
  mret (if bool_decide (elfSize e < sh_end) || bool_decide (sh_end < shoff) then -1 else 0).

Definition elf32_getEntryPoint (e : elf_t) : M Z := h ← elf32_getHeader e; mret (e_entry h).
Definition elf32_getProgramHeaderTable (e : elf_t) : M Z := h ← elf32_getHeader e; mret (e_phoff h).
Definition elf32_getSectionTable (e : elf_t) : M Z := h ← elf32_getHeader e; mret (e_shoff h).
Definition elf32_getNumProgramHeaders (e : elf_t) : M Z := h ← elf32_getHeader e; mret (e_phnum h).
Definition elf32_getNumSections (e : elf_t) : M Z := h ← elf32_getHeader e; mret (e_shnum h).
Definition elf32_getSectionStringTableIndex (e : elf_t) : M Z := h ← elf32_getHeader e; mret (e_shstrndx h).

Definition elf32_getSectionNameOffset (e : elf_t) (i : Z) : M Z :=
  t ← elf32_getSectionTable e; field e (t + i * Layout32.sizeof_Shdr) Layout32.sh_name.
Definition elf32_getSectionType (e : elf_t) (i : Z) : M Z :=
  t ← elf32_getSectionTable e; field e (t + i * Layout32.sizeof_Shdr) Layout32.sh_type.
Definition elf32_getSectionFlags (e : elf_t) (i : Z) : M Z :=
  t ← elf32_getSectionTable e; field e (t + i * Layout32.sizeof_Shdr) Layout32.sh_flags.
Definition elf32_getSectionAddr (e : elf_t) (i : Z) : M Z :=
  t ← elf32_getSectionTable e; field e (t + i * Layout32.sizeof_Shdr) Layout32.sh_addr.
Definition elf32_getSectionOffset (e : elf_t) (i : Z) : M Z :=
  t ← elf32_getSectionTable e; field e (t + i * Layout32.sizeof_Shdr) Layout32.sh_offset.
Definition elf32_getSectionSize (e : elf_t) (i : Z) : M Z :=
  t ← elf32_getSectionTable e; field e (t + i * Layout32.sizeof_Shdr) Layout32.sh_size.
Definition elf32_getSectionLink (e : elf_t) (i : Z) : M Z :=
  t ← elf32_getSectionTable e; field e (t + i * Layout32.sizeof_Shdr) Layout32.sh_link.
Definition elf32_getSectionInfo (e : elf_t) (i : Z) : M Z :=
  t ← elf32_getSectionTable e; field e (t + i * Layout32.sizeof_Shdr) Layout32.sh_info.
Definition elf32_getSectionAddrAlign (e : elf_t) (i : Z) : M Z :=
  t ← elf32_getSectionTable e; field e (t + i * Layout32.sizeof_Shdr) Layout32.sh_addralign.
Definition elf32_getSectionEntrySize (e : elf_t) (i : Z) : M Z :=
  t ← elf32_getSectionTable e; field e (t + i * Layout32.sizeof_Shdr) Layout32.sh_entsize.

Definition elf32_getProgramHeaderType (e : elf_t) (ph : Z) : M Z :=
  t ← elf32_getProgramHeaderTable e; field e (t + ph * Layout32.sizeof_Phdr) Layout32.p_type.
Definition elf32_getProgramHeaderOffset (e : elf_t) (ph : Z) : M Z :=
  t ← elf32_getProgramHeaderTable e; field e (t + ph * Layout32.sizeof_Phdr) Layout32.p_offset.
Definition elf32_getProgramHeaderVaddr (e : elf_t) (ph : Z) : M Z :=
  t ← elf32_getProgramHeaderTable e; field e (t + ph * Layout32.sizeof_Phdr) Layout32.p_vaddr.
Definition elf32_getProgramHeaderPaddr (e : elf_t) (ph : Z) : M Z :=
  t ← elf32_getProgramHeaderTable e; field e (t + ph * Layout32.sizeof_Phdr) Layout32.p_paddr.
Definition elf32_getProgramHeaderFileSize (e : elf_t) (ph : Z) : M Z :=
  t ← elf32_getProgramHeaderTable e; field e (t + ph * Layout32.sizeof_Phdr) Layout32.p_filesz.
Definition elf32_getProgramHeaderMemorySize (e : elf_t) (ph : Z) : M Z :=
  t ← elf32_getProgramHeaderTable e; field e (t + ph * Layout32.sizeof_Phdr) Layout32.p_memsz.
Definition elf32_getProgramHeaderFlags (e : elf_t) (ph : Z) : M Z :=
  t ← elf32_getProgramHeaderTable e; field e (t + ph * Layout32.sizeof_Phdr) Layout32.p_flags.
Definition elf32_getProgramHeaderAlign (e : elf_t) (ph : Z) : M Z :=
  t ← elf32_getProgramHeaderTable e; field e (t + ph * Layout32.sizeof_Phdr) Layout32.p_align.

(** ** 64-bit files *)

Definition elf_isElf64 (e : elf_t) : bool := bool_decide (elfClass e = ELFCLASS64).

Definition elf64_getHeader (e : elf_t) : M Ehdr :=
  b ← struct e 0 Layout64.sizeof_Ehdr;
  mret (MkEhdr (pick Layout64.e_entry b) (pick Layout64.e_phoff b) (pick Layout64.e_shoff b)
    (pick Layout64.e_phentsize b) (pick Layout64.e_phnum b) (pick Layout64.e_shentsize b)
    (pick Layout64.e_shnum b) (pick Layout64.e_shstrndx b)).

(** Returns the status and the file with its class filled in. *)
Definition elf64_checkFile (e : elf_t) : M (Z * elf_t) :=
  if bool_decide (elfSize e < Layout64.sizeof_Ehdr) then mret (-1, e)
  else
    magic ← elf_check_magic e;
    if bool_decide (magic < 0) then mret (-1, e)
    else
      class ← byte e EI_CLASS;
      if bool_decide (class ≠ ELFCLASS64) then mret (-1, e)
      else
        phentsize ← field e 0 Layout64.e_phentsize;
        if bool_decide (phentsize ≠ Layout64.sizeof_Phdr) then mret (-1, e)
        else
          shentsize ← field e 0 Layout64.e_shentsize;
          if bool_decide (shentsize ≠ Layout64.sizeof_Shdr) then mret (-1, e)
          else
            shstrndx ← field e 0 Layout64.e_shstrndx;
            shnum ← field e 0 Layout64.e_shnum;
            if bool_decide (shnum ≤ shstrndx) then mret (-1, e)
            else mret (0, Elf (elfFile e) (elfSize e) class).

Definition elf64_checkProgramHeaderTable (e : elf_t) : M Z :=
  phoff ← field e 0 Layout64.e_phoff;
  phentsize ← field e 0 Layout64.e_phentsize;
  phnum ← field e 0 Layout64.e_phnum;
  n ← mul_int phentsize phnum;
  let ph_end := w64 (phoff + n) in
  mret (if bool_decide (elfSize e < ph_end) || bool_decide (ph_end < phoff) then -1 else 0).

Definition elf64_checkSectionTable (e : elf_t) : M Z :=
  shoff ← field e 0 Layout64.e_shoff;
  shentsize ← field e 0 Layout64.e_shentsize;
  shnum ← field e 0 Layout64.e_shnum;
  n ← mul_int shentsize shnum;
  let sh_end := w64 (shoff + n) in
  mret (if bool_decide (elfSize e < sh_end) || bool_decide (sh_end < shoff) then -1 else 0).

Definition elf64_getEntryPoint (e : elf_t) : M Z := h ← elf64_getHeader e; mret (e_entry h).
Definition elf64_getProgramHeaderTable (e : elf_t) : M Z := h ← elf64_getHeader e; mret (e_phoff h).
Definition elf64_getSectionTable (e : elf_t) : M Z := h ← elf64_getHeader e; mret (e_shoff h).
Definition elf64_getNumProgramHeaders (e : elf_t) : M Z := h ← elf64_getHeader e; mret (e_phnum h).
Definition elf64_getNumSections (e : elf_t) : M Z := h ← elf64_getHeader e; mret (e_shnum h).
Definition elf64_getSectionStringTableIndex (e : elf_t) : M Z := h ← elf64_getHeader e; mret (e_shstrndx h).

Definition elf64_getSectionNameOffset (e : elf_t) (i : Z) : M Z :=
  t ← elf64_getSectionTable e; field e (t + i * Layout64.sizeof_Shdr) Layout64.sh_name.
Definition elf64_getSectionType (e : elf_t) (i : Z) : M Z :=
  t ← elf64_getSectionTable e; field e (t + i * Layout64.sizeof_Shdr) Layout64.sh_type.
Definition elf64_getSectionFlags (e : elf_t) (i : Z) : M Z :=
  t ← elf64_getSectionTable e; field e (t + i * Layout64.sizeof_Shdr) Layout64.sh_flags.
Definition elf64_getSectionAddr (e : elf_t) (i : Z) : M Z :=
  t ← elf64_getSectionTable e; field e (t + i * Layout64.sizeof_Shdr) Layout64.sh_addr.
Definition elf64_getSectionOffset (e : elf_t) (i : Z) : M Z :=
  t ← elf64_getSectionTable e; field e (t + i * Layout64.sizeof_Shdr) Layout64.sh_offset.
Definition elf64_getSectionSize (e : elf_t) (i : Z) : M Z :=
  t ← elf64_getSectionTable e; field e (t + i * Layout64.sizeof_Shdr) Layout64.sh_size.
Definition elf64_getSectionLink (e : elf_t) (i : Z) : M Z :=
  t ← elf64_getSectionTable e; field e (t + i * Layout64.sizeof_Shdr) Layout64.sh_link.
Definition elf64_getSectionInfo (e : elf_t) (i : Z) : M Z :=
  t ← elf64_getSectionTable e; field e (t + i * Layout64.sizeof_Shdr) Layout64.sh_info.
Definition elf64_getSectionAddrAlign (e : elf_t) (i : Z) : M Z :=
  t ← elf64_getSectionTable e; field e (t + i * Layout64.sizeof_Shdr) Layout64.sh_addralign.
Definition elf64_getSectionEntrySize (e : elf_t) (i : Z) : M Z :=
  t ← elf64_getSectionTable e; field e (t + i * Layout64.sizeof_Shdr) Layout64.sh_entsize.

Definition elf64_getProgramHeaderType (e : elf_t) (ph : Z) : M Z :=
  t ← elf64_getProgramHeaderTable e; field e (t + ph * Layout64.sizeof_Phdr) Layout64.p_type.
Definition elf64_getProgramHeaderOffset (e : elf_t) (ph : Z) : M Z :=
  t ← elf64_getProgramHeaderTable e; field e (t + ph * Layout64.sizeof_Phdr) Layout64.p_offset.
Definition elf64_getProgramHeaderVaddr (e : elf_t) (ph : Z) : M Z :=
  t ← elf64_getProgramHeaderTable e; field e (t + ph * Layout64.sizeof_Phdr) Layout64.p_vaddr.
Definition elf64_getProgramHeaderPaddr (e : elf_t) (ph : Z) : M Z :=
  t ← elf64_getProgramHeaderTable e; field e (t + ph * Layout64.sizeof_Phdr) Layout64.p_paddr.
Definition elf64_getProgramHeaderFileSize (e : elf_t) (ph : Z) : M Z :=
  t ← elf64_getProgramHeaderTable e; field e (t + ph * Layout64.sizeof_Phdr) Layout64.p_filesz.
Definition elf64_getProgramHeaderMemorySize (e : elf_t) (ph : Z) : M Z :=
  t ← elf64_getProgramHeaderTable e; field e (t + ph * Layout64.sizeof_Phdr) Layout64.p_memsz.
Definition elf64_getProgramHeaderFlags (e : elf_t) (ph : Z) : M Z :=
  t ← elf64_getProgramHeaderTable e; field e (t + ph * Layout64.sizeof_Phdr) Layout64.p_flags.
Definition elf64_getProgramHeaderAlign (e : elf_t) (ph : Z) : M Z :=
  t ← elf64_getProgramHeaderTable e; field e (t + ph * Layout64.sizeof_Phdr) Layout64.p_align.

(** ** Files of either class *)

Definition elf_checkFile (e : elf_t) : M (Z * elf_t) :=
  '(res, e) ← elf32_checkFile e;
  if bool_decide (res = 0) then mret (0, e)
  else
    '(res, e) ← elf64_checkFile e;
    if bool_decide (res = 0) then mret (0, e) else mret (-1, e).

Definition elf_checkProgramHeaderTable (e : elf_t) : M Z :=
  if elf_isElf32 e then elf32_checkProgramHeaderTable e else elf64_checkProgramHeaderTable e.
Definition elf_checkSectionTable (e : elf_t) : M Z :=
  if elf_isElf32 e then elf32_checkSectionTable e else elf64_checkSectionTable e.

(** The status and, on success, what is stored through [res].  The class is
    zero until the check fills it in. *)
Definition elf_newFile_maybe_unsafe (file : list Z) (size : Z) (check_pht check_st : bool) : M (Z * option elf_t) :=
  '(status, new_file) ← elf_checkFile (Elf file size 0);
  if bool_decide (status < 0) then mret (status, None)
  else
    status ← (if check_pht then elf_checkProgramHeaderTable new_file else mret status);
    if bool_decide (status < 0) then mret (status, None)
    else
      status ← (if check_st then elf_checkSectionTable new_file else mret status);
      if bool_decide (status < 0) then mret (status, None)
      else mret (status, Some new_file).
Definition elf_newFile (file : list Z) (size : Z) : M (Z * option elf_t) :=
  elf_newFile_maybe_unsafe file size true true.

Definition elf_getEntryPoint (e : elf_t) : M Z :=
  if elf_isElf32 e then elf32_getEntryPoint e else elf64_getEntryPoint e.
Definition elf_getNumProgramHeaders (e : elf_t) : M Z :=
  if elf_isElf32 e then elf32_getNumProgramHeaders e else elf64_getNumProgramHeaders e.
Definition elf_getNumSections (e : elf_t) : M Z :=
  if elf_isElf32 e then elf32_getNumSections e else elf64_getNumSections e.
Definition elf_getSectionStringTableIndex (e : elf_t) : M Z :=
  if elf_isElf32 e then elf32_getSectionStringTableIndex e else elf64_getSectionStringTableIndex e.

Definition elf_getSectionNameOffset (e : elf_t) (i : Z) : M Z :=
  if elf_isElf32 e then elf32_getSectionNameOffset e i else elf64_getSectionNameOffset e i.
Definition elf_getSectionType (e : elf_t) (i : Z) : M Z :=
  if elf_isElf32 e then elf32_getSectionType e i else elf64_getSectionType e i.
Definition elf_getSectionFlags (e : elf_t) (i : Z) : M Z :=
  if elf_isElf32 e then elf32_getSectionFlags e i else elf64_getSectionFlags e i.
Definition elf_getSectionAddr (e : elf_t) (i : Z) : M Z :=
  if elf_isElf32 e then elf32_getSectionAddr e i else elf64_getSectionAddr e i.
Definition elf_getSectionOffset (e : elf_t) (i : Z) : M Z :=
  if elf_isElf32 e then elf32_getSectionOffset e i else elf64_getSectionOffset e i.
Definition elf_getSectionSize (e : elf_t) (i : Z) : M Z :=
  if elf_isElf32 e then elf32_getSectionSize e i else elf64_getSectionSize e i.
Definition elf_getSectionLink (e : elf_t) (i : Z) : M Z :=
  if elf_isElf32 e then elf32_getSectionLink e i else elf64_getSectionLink e i.
Definition elf_getSectionInfo (e : elf_t) (i : Z) : M Z :=
  if elf_isElf32 e then elf32_getSectionInfo e i else elf64_getSectionInfo e i.
Definition elf_getSectionAddrAlign (e : elf_t) (i : Z) : M Z :=
  if elf_isElf32 e then elf32_getSectionAddrAlign e i else elf64_getSectionAddrAlign e i.
Definition elf_getSectionEntrySize (e : elf_t) (i : Z) : M Z :=
  if elf_isElf32 e then elf32_getSectionEntrySize e i else elf64_getSectionEntrySize e i.

Definition elf_getProgramHeaderType (e : elf_t) (ph : Z) : M Z :=
  if elf_isElf32 e then elf32_getProgramHeaderType e ph else elf64_getProgramHeaderType e ph.
Definition elf_getProgramHeaderOffset (e : elf_t) (ph : Z) : M Z :=
  if elf_isElf32 e then elf32_getProgramHeaderOffset e ph else elf64_getProgramHeaderOffset e ph.
Definition elf_getProgramHeaderVaddr (e : elf_t) (ph : Z) : M Z :=
  if elf_isElf32 e then elf32_getProgramHeaderVaddr e ph else elf64_getProgramHeaderVaddr e ph.
Definition elf_getProgramHeaderPaddr (e : elf_t) (ph : Z) : M Z :=
  if elf_isElf32 e then elf32_getProgramHeaderPaddr e ph else elf64_getProgramHeaderPaddr e ph.
Definition elf_getProgramHeaderFileSize (e : elf_t) (ph : Z) : M Z :=
  if elf_isElf32 e then elf32_getProgramHeaderFileSize e ph else elf64_getProgramHeaderFileSize e ph.
Definition elf_getProgramHeaderMemorySize (e : elf_t) (ph : Z) : M Z :=
  if elf_isElf32 e then elf32_getProgramHeaderMemorySize e ph else elf64_getProgramHeaderMemorySize e ph.
Definition elf_getProgramHeaderFlags (e : elf_t) (ph : Z) : M Z :=
  if elf_isElf32 e then elf32_getProgramHeaderFlags e ph else elf64_getProgramHeaderFlags e ph.
Definition elf_getProgramHeaderAlign (e : elf_t) (ph : Z) : M Z :=
  if elf_isElf32 e then elf32_getProgramHeaderAlign e ph else elf64_getProgramHeaderAlign e ph.

(** NULL is [None]. *)
Definition elf_getSection (e : elf_t) (i : Z) : M (option Z) :=
  n ← elf_getNumSections e;
  if bool_decide (i = 0) || bool_decide (n ≤ i) then mret None
  else
    section_offset ← elf_getSectionOffset e i;
    section_size ← elf_getSectionSize e i;
    if bool_decide (section_size = 0) then mret None
    else
      let section_end := w64 (section_offset + section_size) in
      if bool_decide (elfSize e < section_end) || bool_decide (section_end < section_offset) then mret None
      else mret (Some section_offset).

Definition elf_getStringTable (e : elf_t) (string_segment : Z) : M (option Z) :=
  string_table ← elf_getSection e string_segment;
  match string_table with
  | None => mret None
  | Some string_table =>
    type ← elf_getSectionType e string_segment;
    if bool_decide (type ≠ SHT_STRTAB) then mret None
    else
      size ← elf_getSectionSize e string_segment;
      last ← byte e (string_table + w64 (size - 1));
      mret (if bool_decide (last ≠ 0) then None else Some string_table)
  end.
Definition elf_getSectionStringTable (e : elf_t) : M (option Z) :=
  index ← elf_getSectionStringTableIndex e; elf_getStringTable e index.

Definition elf_getSectionName (e : elf_t) (i : Z) : M cstring :=
  str_table_idx ← elf_getSectionStringTableIndex e;
  str_table ← elf_getStringTable e str_table_idx;
  offset ← elf_getSectionNameOffset e i;
  size ← elf_getSectionSize e str_table_idx;
  match str_table with
  | None => mret Corrupted
  | Some str_table => mret (if bool_decide (size < offset) then Corrupted else InFile (str_table + offset))
  end.

(** [strcmp] is zero: the strings agree up to a common zero.  [str] is the
    characters of the caller's string with its zero. *)
Fixpoint streq_file (e : elf_t) (str : list Z) (p : Z) : M bool :=
  match str with
  | [] => throw OutOfBounds
  | c :: r =>
    d ← byte e p;
    if bool_decide (c ≠ d) then mret false
    else if bool_decide (c = 0) then mret true
    else streq_file e r (p + 1)
  end.
Definition corrupted : list Z := [60; 99; 111; 114; 114; 117; 112; 116; 101; 100; 62; 0].
Definition streq (e : elf_t) (str : list Z) (s : cstring) : M bool :=
  match s with
  | InFile p => streq_file e str p
  | Corrupted => mret (bool_decide (str = corrupted))
  end.

(** Returns the section and the index stored through [id]. *)
Fixpoint named_loop (e : elf_t) (str : list Z) (l : list Z) : M (option Z * option Z) :=
  match l with
  | [] => mret (None, None)
  | i :: r =>
    name ← elf_getSectionName e i;
    eq ← streq e str name;
    if (eq : bool) then s ← elf_getSection e i; mret (s, Some i)
    else named_loop e str r
  end.
Definition elf_getSectionNamed (e : elf_t) (str : list Z) : M (option Z * option Z) :=
  numSections ← elf_getNumSections e; named_loop e str (seqZ 0 numSections).

Definition elf_getProgramSegment (e : elf_t) (ph : Z) : M (option Z) :=
  offset ← elf_getProgramHeaderOffset e ph;
  file_size ← elf_getProgramHeaderFileSize e ph;
  let segment_end := w64 (offset + file_size) in
  mret (if bool_decide (elfSize e < segment_end) || bool_decide (segment_end < offset) then None else Some offset).

Definition segment_addr (e : elf_t) (addr_type : elf_addr_type) (i : Z) : M Z :=
  match addr_type with
  | PHYSICAL => elf_getProgramHeaderPaddr e i
  | VIRTUAL => elf_getProgramHeaderVaddr e i
  end.

Fixpoint bounds_loop (e : elf_t) (addr_type : elf_addr_type) (l : list Z) (mem_min mem_max : Z) : M (Z * Z) :=
  match l with
  | [] => mret (mem_min, mem_max)
  | i :: r =>
    size ← elf_getProgramHeaderMemorySize e i;
    if bool_decide (size = 0) then bounds_loop e addr_type r mem_min mem_max
    else
      sect_min ← segment_addr e addr_type i;
      let sect_max := w64 (sect_min + size) in
      bounds_loop e addr_type r (if bool_decide (sect_min < mem_min) then sect_min else mem_min)
        (if bool_decide (mem_max < sect_max) then sect_max else mem_max)
  end.
Definition elf_getMemoryBounds (e : elf_t) (addr_type : elf_addr_type) : M (Z * (Z * Z)) :=
  n ← elf_getNumProgramHeaders e;
  b ← bounds_loop e addr_type (seqZ 0 n) (2 ^ 64 - 1) 0;
  mret (1, b).

Definition elf_vaddrInProgramHeader (e : elf_t) (ph vaddr : Z) : M Z :=
  min ← elf_getProgramHeaderVaddr e ph;
  size ← elf_getProgramHeaderMemorySize e ph;
  let max := w64 (min + size) in
  mret (if bool_decide (min ≤ vaddr) && bool_decide (vaddr < max) then 1 else 0).

Definition elf_vtopProgramHeader (e : elf_t) (ph vaddr : Z) : M Z :=
  ph_phys ← elf_getProgramHeaderPaddr e ph;
  ph_virt ← elf_getProgramHeaderVaddr e ph;
  mret (w64 (vaddr - ph_virt + ph_phys)).
End accessors.

(** ** Loading in place

    The state is the memory: the bytes at the addresses that are mapped. *)
Abbreviation ram := (gmap Z Z).
Fixpoint poke (dest : Z) (l : list Z) : M ram unit :=
  match l with
  | [] => mret tt
  | c :: r => m ← get; _ ← access (m !! dest); put (<[dest := c]> m);; poke (dest + 1) r
  end.
Definition load_one (e : elf_t) (addr_type : elf_addr_type) (i : Z) : M ram unit :=
  dest ← segment_addr e addr_type i;
  len ← elf_getProgramHeaderFileSize e i;
  off ← elf_getProgramHeaderOffset e i;
  src ← struct e off len;
  poke dest src;;
  size ← elf_getProgramHeaderMemorySize e i;
  poke (w64 (dest + len)) (replicate (Z.to_nat (w64 (size - len))) 0).
Definition elf_loadFile (e : elf_t) (addr_type : elf_addr_type) : M ram Z :=
  n ← elf_getNumProgramHeaders e; iterM (load_one e addr_type) (seqZ 0 n);; mret 1.

(** ** Reads in bounds *)

(** [m] returns a value that satisfies [P] and does not change the state. *)
Definition returns {S A} (m : M S A) (P : A -> Prop) : Prop := forall s, exists a, P a /\ m s = Ok (a, s).

Definition is_byte (c : Z) : Prop := 0 ≤ c < 256.
(** The value of a field of the structure at [off]. *)
Definition val (b : list Z) (off : Z) (f : fld) : Z :=
  le (take (Z.to_nat (fld_size f)) (drop (Z.to_nat (off + fld_off f)) b)).
Definition size_of (b : list Z) : Z := Z.of_nat (length b).

Section returns.
Context {S : Type}.

Lemma returns_ret {A} (a : A) (P : A -> Prop) : P a -> returns (mret a : M S A) P.
Proof. intros HP s. by exists a. Qed.
Lemma returns_bind {A B} (m : M S A) (k : A -> M S B) (P : A -> Prop) (Q : B -> Prop) :
  returns m P -> (forall a, P a -> returns (k a) Q) -> returns (m ≫= k) Q.
Proof.
  intros Hm Hk s. destruct (Hm s) as (a & Ha & E). destruct (Hk a Ha s) as (b & Hb & E').
  exists b. split; [done|]. unfold mbind, M_bind. by rewrite E.
Qed.
Lemma returns_mono {A} (m : M S A) (P Q : A -> Prop) : returns m P -> (forall a, P a -> Q a) -> returns m Q.
Proof. intros Hm H s. destruct (Hm s) as (a & Ha & E). eauto. Qed.
Lemma returns_if {A} (b : bool) (m1 m2 : M S A) Q :
  (b = true -> returns m1 Q) -> (b = false -> returns m2 Q) -> returns (if b then m1 else m2) Q.
Proof. destruct b; eauto. Qed.
Lemma returns_access {A} (o : option A) a (Q : A -> Prop) : o = Some a -> Q a -> returns (access o : M S A) Q.
Proof. intros -> HQ s. by exists a. Qed.
End returns.

Lemma slice_Some b off n : 0 ≤ off -> 0 ≤ n -> off + n ≤ size_of b ->
  slice b off n = Some (take (Z.to_nat n) (drop (Z.to_nat off) b)).
Proof. intros. unfold slice, size_of in *. by rewrite bool_decide_true by lia. Qed.

Lemma le_range b : Forall is_byte b -> 0 ≤ le b < 256 ^ size_of b.
Proof.
  unfold size_of. induction 1 as [|c r Hc _ IH]; cbn [le length]; [done|].
  rewrite Nat2Z.inj_succ, Z.pow_succ_r by lia. unfold is_byte in Hc. lia.
Qed.

Lemma val_range b off f : Forall is_byte b -> 0 ≤ fld_size f -> 0 ≤ val b off f < 256 ^ fld_size f.
Proof.
  intros Hb Hf. unfold val.
  assert (Ht : Forall is_byte (take (Z.to_nat (fld_size f)) (drop (Z.to_nat (off + fld_off f)) b))).
  { by apply Forall_take, Forall_drop. }
  destruct (le_range _ Ht) as [H0 H1]. split; [done|].
  eapply Z.lt_le_trans; [exact H1|]. apply Z.pow_le_mono_r; [lia|].
  unfold size_of. rewrite length_take. lia.
Qed.

Lemma returns_field {S} e off f (Q : Z -> Prop) :
  0 ≤ off + fld_off f -> 0 ≤ fld_size f -> off + fld_off f + fld_size f ≤ size_of (elfFile e) ->
  Q (val (elfFile e) off f) -> returns (field e off f : M S Z) Q.
Proof.
  intros H1 H2 H3 HQ. unfold field. eapply (returns_bind _ _ (fun b => le b = val (elfFile e) off f)).
  - eapply returns_access; [by apply slice_Some|done].
  - intros b Hb. apply returns_ret. by rewrite Hb.
Qed.

Lemma pick_take b f n : 0 ≤ fld_off f -> 0 ≤ fld_size f -> fld_off f + fld_size f ≤ n ->
  pick f (take (Z.to_nat n) (drop (Z.to_nat 0) b)) = val b 0 f.
Proof.
  intros H1 H2 H3. unfold pick, val. rewrite drop_0, take_drop_commute, take_take.
  rewrite Z.add_0_l. f_equal. rewrite take_drop_commute. f_equal. f_equal. lia.
Qed.

Definition hdr32 (b : list Z) : Ehdr :=
  MkEhdr (val b 0 Layout32.e_entry) (val b 0 Layout32.e_phoff) (val b 0 Layout32.e_shoff)
    (val b 0 Layout32.e_phentsize) (val b 0 Layout32.e_phnum) (val b 0 Layout32.e_shentsize)
    (val b 0 Layout32.e_shnum) (val b 0 Layout32.e_shstrndx).
Definition hdr64 (b : list Z) : Ehdr :=
  MkEhdr (val b 0 Layout64.e_entry) (val b 0 Layout64.e_phoff) (val b 0 Layout64.e_shoff)
    (val b 0 Layout64.e_phentsize) (val b 0 Layout64.e_phnum) (val b 0 Layout64.e_shentsize)
    (val b 0 Layout64.e_shnum) (val b 0 Layout64.e_shstrndx).
Definition hdr (e : elf_t) : Ehdr := if elf_isElf32 e then hdr32 (elfFile e) else hdr64 (elfFile e).
Definition ehsz (e : elf_t) : Z := if elf_isElf32 e then Layout32.sizeof_Ehdr else Layout64.sizeof_Ehdr.
Definition phsz (e : elf_t) : Z := if elf_isElf32 e then Layout32.sizeof_Phdr else Layout64.sizeof_Phdr.
Definition shsz (e : elf_t) : Z := if elf_isElf32 e then Layout32.sizeof_Shdr else Layout64.sizeof_Shdr.

(** What the check of the header, of the program headers and of the sections
    establish. *)
Definition header_ok (e : elf_t) : Prop :=
  Forall is_byte (elfFile e) /\ (elfClass e = ELFCLASS32 \/ elfClass e = ELFCLASS64) /\
  ehsz e ≤ elfSize e ≤ size_of (elfFile e) /\ elfSize e < 2 ^ 64 /\
  e_phentsize (hdr e) = phsz e /\ e_shentsize (hdr e) = shsz e /\
  0 ≤ e_shstrndx (hdr e) < e_shnum (hdr e).
Definition segments_ok (e : elf_t) : Prop :=
  0 ≤ e_phoff (hdr e) /\ 0 ≤ e_phnum (hdr e) /\ e_phoff (hdr e) + e_phnum (hdr e) * phsz e ≤ elfSize e.
Definition sections_ok (e : elf_t) : Prop :=
  0 ≤ e_shoff (hdr e) /\ 0 ≤ e_shnum (hdr e) /\ e_shoff (hdr e) + e_shnum (hdr e) * shsz e ≤ elfSize e.

Lemma returns_field_val {S} e off f :
  0 ≤ off + fld_off f -> 0 ≤ fld_size f -> off + fld_off f + fld_size f ≤ size_of (elfFile e) ->
  returns (field e off f : M S Z) (eq (val (elfFile e) off f)).
Proof. intros. by apply returns_field. Qed.

Ltac field_bounds := unfold Layout32.sizeof_Ehdr, Layout64.sizeof_Ehdr, Layout32.sizeof_Phdr,
  Layout64.sizeof_Phdr, Layout32.sizeof_Shdr, Layout64.sizeof_Shdr in *; simpl; lia.
(** Read a field and go on with its value. *)
Ltac rd := eapply returns_bind; [apply returns_field_val; field_bounds|intros ? <-].

Section checks.
Context {S : Type}.

Lemma returns_struct e off n (Q : list Z -> Prop) :
  0 ≤ off -> 0 ≤ n -> off + n ≤ size_of (elfFile e) ->
  Q (take (Z.to_nat n) (drop (Z.to_nat off) (elfFile e))) -> returns (struct e off n : M S (list Z)) Q.
Proof. intros. unfold struct. eapply returns_access; [by apply slice_Some|done]. Qed.

Lemma returns_byte e off : 0 ≤ off -> off + 1 ≤ size_of (elfFile e) -> returns (byte e off : M S Z) (fun _ => True).
Proof.
  intros. unfold byte. eapply (returns_bind _ _ (fun _ => True)); [apply returns_struct; done|].
  intros b _. by apply returns_ret.
Qed.

Lemma returns_magic e : 4 ≤ size_of (elfFile e) -> returns (elf_check_magic e : M S Z) (fun _ => True).
Proof.
  intros. unfold elf_check_magic. eapply (returns_bind _ _ (fun _ => True)); [apply returns_struct; done|].
  intros b _. by apply returns_ret.
Qed.

Lemma returns_header32 e : Layout32.sizeof_Ehdr ≤ size_of (elfFile e) ->
  returns (elf32_getHeader e : M S Ehdr) (eq (hdr32 (elfFile e))).
Proof.
  intros H. unfold elf32_getHeader.
  eapply (returns_bind _ _ (eq (take (Z.to_nat Layout32.sizeof_Ehdr) (drop (Z.to_nat 0) (elfFile e))))).
  - by apply returns_struct.
  - intros b <-. apply returns_ret. by rewrite !pick_take by field_bounds.
Qed.
Lemma returns_header64 e : Layout64.sizeof_Ehdr ≤ size_of (elfFile e) ->
  returns (elf64_getHeader e : M S Ehdr) (eq (hdr64 (elfFile e))).
Proof.
  intros H. unfold elf64_getHeader.
  eapply (returns_bind _ _ (eq (take (Z.to_nat Layout64.sizeof_Ehdr) (drop (Z.to_nat 0) (elfFile e))))).
  - by apply returns_struct.
  - intros b <-. apply returns_ret. by rewrite !pick_take by field_bounds.
Qed.

Lemma returns_checkFile32 e : Forall is_byte (elfFile e) -> elfSize e ≤ size_of (elfFile e) -> elfSize e < 2 ^ 64 ->
  returns (elf32_checkFile e : M S (Z * elf_t))
    (fun '(st, e') => st = -1 /\ e' = e \/ st = 0 /\ elfFile e' = elfFile e /\ elfSize e' = elfSize e /\ header_ok e').
Proof.
  intros Hb Hs Hw. unfold elf32_checkFile. apply returns_if; intros H1; bd; [apply returns_ret; auto|].
  eapply returns_bind; [apply returns_magic; field_bounds|]. intros m _.
  apply returns_if; intros H2; bd; [apply returns_ret; auto|].
  eapply returns_bind; [apply returns_byte; unfold EI_CLASS; field_bounds|]. intros c _.
  apply returns_if; intros H3; bd; [apply returns_ret; auto|].
  apply dec_stable in H3. subst c.
  rd. apply returns_if; intros H4; bd; [apply returns_ret; auto|]. apply dec_stable in H4.
  rd. apply returns_if; intros H5; bd; [apply returns_ret; auto|]. apply dec_stable in H5.
  rd. rd. apply returns_if; intros H6; bd; apply returns_ret; [auto|]. right.
  pose proof (val_range (elfFile e) 0 Layout32.e_shstrndx Hb ltac:(done)) as Hr.
  unfold header_ok, ehsz, hdr, phsz, shsz, elf_isElf32. cbn. unfold ELFCLASS32 in *. split_and!; auto; field_bounds.
Qed.
Lemma returns_checkFile64 e : Forall is_byte (elfFile e) -> elfSize e ≤ size_of (elfFile e) -> elfSize e < 2 ^ 64 ->
  returns (elf64_checkFile e : M S (Z * elf_t))
    (fun '(st, e') => st = -1 /\ e' = e \/ st = 0 /\ elfFile e' = elfFile e /\ elfSize e' = elfSize e /\ header_ok e').
Proof.
  intros Hb Hs Hw. unfold elf64_checkFile. apply returns_if; intros H1; bd; [apply returns_ret; auto|].
  eapply returns_bind; [apply returns_magic; field_bounds|]. intros m _.
  apply returns_if; intros H2; bd; [apply returns_ret; auto|].
  eapply returns_bind; [apply returns_byte; unfold EI_CLASS; field_bounds|]. intros c _.
  apply returns_if; intros H3; bd; [apply returns_ret; auto|].
  apply dec_stable in H3. subst c.
  rd. apply returns_if; intros H4; bd; [apply returns_ret; auto|]. apply dec_stable in H4.
  rd. apply returns_if; intros H5; bd; [apply returns_ret; auto|]. apply dec_stable in H5.
  rd. rd. apply returns_if; intros H6; bd; apply returns_ret; [auto|]. right.
  pose proof (val_range (elfFile e) 0 Layout64.e_shstrndx Hb ltac:(done)) as Hr.
  unfold header_ok, ehsz, hdr, phsz, shsz, elf_isElf64. cbn. unfold ELFCLASS64 in *. split_and!; auto; field_bounds.
Qed.

Lemma no_wrap b o n : 0 ≤ o < b -> 0 ≤ n < b -> ¬ (o + n) mod b < o -> (o + n) mod b = o + n.
Proof.
  intros Ho Hn H. destruct (decide (o + n < b)) as [Hlt|Hge]; [by apply Z.mod_small; lia|].
  exfalso. apply H. rewrite <- (Z.mod_add _ (-1)) by lia. rewrite Z.mod_small; lia.
Qed.

Lemma returns_mul_int a b : 0 ≤ a * b < 2 ^ 31 -> returns (mul_int a b : M S Z) (eq (a * b)).
Proof. intros H. unfold mul_int. rewrite bool_decide_true by lia. by apply returns_ret. Qed.

(** The end of a table that passes the test is inside the file. *)
Lemma table_end_ok b o n size : 0 ≤ o < b -> 0 ≤ n < b ->
  returns (mret (if bool_decide (size < (o + n) mod b) || bool_decide ((o + n) mod b < o) then -1 else 0) : M S Z)
    (fun st => st = -1 \/ st = 0 /\ o + n ≤ size).
Proof.
  intros Ho Hn. apply returns_ret. case_bool_decide as H1; [by left|]. simpl. case_bool_decide as H2; [by left|].
  right. pose proof (no_wrap b o n Ho Hn H2). lia.
Qed.

(** The check of a table, from the fields of its offset, entry size and length. *)
Lemma returns_table e fo fe fn b :
  Forall is_byte (elfFile e) -> 256 ^ fld_size fo = b -> 2 ^ 31 < b -> fld_size fn = 2 -> 0 ≤ val (elfFile e) 0 fe ≤ 64 ->
  Forall (fun f => 0 ≤ fld_off f /\ 0 ≤ fld_size f /\ fld_off f + fld_size f ≤ size_of (elfFile e)) [fo; fe; fn] ->
  returns (o ← field e 0 fo; s ← field e 0 fe; n ← field e 0 fn; m ← mul_int s n;
           let end_ := (o + m) mod b in
           mret (if bool_decide (elfSize e < end_) || bool_decide (end_ < o) then -1 else 0) : M S Z)
    (fun st => st = -1 \/ st = 0 /\ 0 ≤ val (elfFile e) 0 fo /\ 0 ≤ val (elfFile e) 0 fn /\
       val (elfFile e) 0 fo + val (elfFile e) 0 fn * val (elfFile e) 0 fe ≤ elfSize e).
Proof.
  intros Hb Hw Hlarge Hn He Hf. rewrite !Forall_cons in Hf. destruct Hf as ((?&?&?) & (?&?&?) & (?&?&?) & _).
  rd. rd. rd.
  pose proof (val_range _ 0 fo Hb ltac:(done)) as Ho. pose proof (val_range _ 0 fn Hb ltac:(done)) as Hc.
  rewrite Hw in Ho. rewrite Hn in Hc. change (256 ^ 2) with 65536 in Hc.
  assert (Hm : 0 ≤ val (elfFile e) 0 fe * val (elfFile e) 0 fn < 2 ^ 31) by nia.
  eapply returns_bind; [by apply returns_mul_int|]. intros ? <-.
  eapply returns_mono; [apply table_end_ok; [done|lia]|]. intros st [->|[-> Hend]]; [by left|right].
  split_and!; try done; lia.
Qed.

Lemma returns_checkProgramHeaderTable e : header_ok e ->
  returns (elf_checkProgramHeaderTable e : M S Z) (fun st => st = -1 \/ st = 0 /\ segments_ok e).
Proof.
  unfold header_ok, segments_ok, elf_checkProgramHeaderTable, ehsz, hdr, phsz.
  intros (Hb & _ & [Hs Hl] & _ & He & _ & _).
  destruct (elf_isElf32 e); cbn [e_phoff e_phnum e_phentsize hdr32 hdr64] in *; rewrite <- He.
  - apply (returns_table e Layout32.e_phoff Layout32.e_phentsize Layout32.e_phnum); try done; [by rewrite He|].
    repeat constructor; field_bounds.
  - apply (returns_table e Layout64.e_phoff Layout64.e_phentsize Layout64.e_phnum); try done; [by rewrite He|].
    repeat constructor; field_bounds.
Qed.

Lemma returns_checkSectionTable e : header_ok e ->
  returns (elf_checkSectionTable e : M S Z) (fun st => st = -1 \/ st = 0 /\ sections_ok e).
Proof.
  unfold header_ok, sections_ok, elf_checkSectionTable, ehsz, hdr, shsz.
  intros (Hb & _ & [Hs Hl] & _ & _ & He & _).
  destruct (elf_isElf32 e); cbn [e_shoff e_shnum e_shentsize hdr32 hdr64] in *; rewrite <- He.
  - apply (returns_table e Layout32.e_shoff Layout32.e_shentsize Layout32.e_shnum); try done; [by rewrite He|].
    repeat constructor; field_bounds.
  - apply (returns_table e Layout64.e_shoff Layout64.e_shentsize Layout64.e_shnum); try done; [by rewrite He|].
    repeat constructor; field_bounds.
Qed.

Lemma returns_newFile file size : Forall is_byte file -> size ≤ size_of file -> size < 2 ^ 64 ->
  returns (elf_newFile file size : M S (Z * option elf_t))
    (fun '(st, r) => st = -1 /\ r = None \/
       st = 0 /\ exists e, r = Some e /\ elfFile e = file /\ elfSize e = size /\ header_ok e /\ segments_ok e /\ sections_ok e).
Proof.
  intros Hb Hs Hw. unfold elf_newFile, elf_newFile_maybe_unsafe.
  eapply (returns_bind _ _ (fun '(st, e) => st = -1 \/ st = 0 /\ elfFile e = file /\ elfSize e = size /\ header_ok e)).
  - unfold elf_checkFile. eapply returns_bind; [by apply returns_checkFile32|]. intros [st e] [[-> ->]|[-> He]]; simpl.
    + eapply returns_bind; [by apply returns_checkFile64|]. intros [st e] [[-> ->]|[-> He]]; apply returns_ret; auto.
    + apply returns_ret. auto.
  - intros [st e] [->|(-> & E1 & E2 & Hh)]; [apply returns_ret; auto|]. simpl.
    eapply returns_bind; [by apply returns_checkProgramHeaderTable|]. intros st [->|[-> Hp]]; [apply returns_ret; auto|].
    simpl. eapply returns_bind; [by apply returns_checkSectionTable|]. intros st [->|[-> Hq]]; apply returns_ret; auto 10.
    right. split; [done|]. exists e. by split_and!.
Qed.
End checks.

(** ** The accessors *)

Section readers.
Context {S : Type}.

Definition segment_readers : list (elf_t -> Z -> M S Z) :=
  [elf_getProgramHeaderType; elf_getProgramHeaderOffset; elf_getProgramHeaderVaddr; elf_getProgramHeaderPaddr;
   elf_getProgramHeaderFileSize; elf_getProgramHeaderMemorySize; elf_getProgramHeaderFlags; elf_getProgramHeaderAlign].
Definition section_readers : list (elf_t -> Z -> M S Z) :=
  [elf_getSectionNameOffset; elf_getSectionType; elf_getSectionFlags; elf_getSectionAddr; elf_getSectionOffset;
   elf_getSectionSize; elf_getSectionLink; elf_getSectionInfo; elf_getSectionAddrAlign; elf_getSectionEntrySize].

(** A field of the entry at [off], by the width of the class. *)
Lemma returns_table_field {A} (t : M S A) (k : A -> Z) e off f :
  returns t (fun a => k a = off) -> Forall is_byte (elfFile e) ->
  0 ≤ off -> 0 ≤ fld_off f -> 0 ≤ fld_size f ≤ 8 -> off + fld_off f + fld_size f ≤ size_of (elfFile e) ->
  returns (a ← t; field e (k a) f) (is_w64).
Proof.
  intros Ht Hb H1 H2 H3 H4. eapply returns_bind; [exact Ht|]. intros a ->.
  apply returns_field; try lia. pose proof (val_range _ off f Hb ltac:(lia)).
  assert (256 ^ fld_size f ≤ 256 ^ 8) by (apply Z.pow_le_mono_r; lia). unfold is_w64. lia.
Qed.

Lemma returns_base32 {A} e (k : Ehdr -> A) : Layout32.sizeof_Ehdr ≤ size_of (elfFile e) ->
  returns (h ← elf32_getHeader e; mret (k h) : M S A) (eq (k (hdr32 (elfFile e)))).
Proof. intros H. eapply returns_bind; [by apply returns_header32|]. intros h <-. by apply returns_ret. Qed.
Lemma returns_base64 {A} e (k : Ehdr -> A) : Layout64.sizeof_Ehdr ≤ size_of (elfFile e) ->
  returns (h ← elf64_getHeader e; mret (k h) : M S A) (eq (k (hdr64 (elfFile e)))).
Proof. intros H. eapply returns_bind; [by apply returns_header64|]. intros h <-. by apply returns_ret. Qed.

(** Both classes of a field of a table entry. *)
Ltac reader_ok i fo :=
  first [eapply (returns_table_field _ (fun t => t + i * Layout32.sizeof_Phdr))
        |eapply (returns_table_field _ (fun t => t + i * Layout64.sizeof_Phdr))
        |eapply (returns_table_field _ (fun t => t + i * Layout32.sizeof_Shdr))
        |eapply (returns_table_field _ (fun t => t + i * Layout64.sizeof_Shdr))];
  [eapply returns_mono; [first [apply returns_base32|apply returns_base64]; field_bounds|intros ? <-; reflexivity]
  |done|cbn [fo hdr32 hdr64] in *; field_bounds..].

Lemma segment_readers_ok e i : header_ok e -> segments_ok e -> 0 ≤ i < e_phnum (hdr e) ->
  Forall (fun r => returns (r e i) is_w64) segment_readers.
Proof.
  unfold header_ok, segments_ok, hdr, phsz, ehsz. intros (Hb & _ & [Hs Hl] & _) (H1 & H2 & H3) Hi.
  unfold segment_readers. rewrite !Forall_cons, Forall_nil.
  unfold elf_getProgramHeaderType, elf_getProgramHeaderOffset, elf_getProgramHeaderVaddr,
    elf_getProgramHeaderPaddr, elf_getProgramHeaderFileSize, elf_getProgramHeaderMemorySize,
    elf_getProgramHeaderFlags, elf_getProgramHeaderAlign.
  destruct (elf_isElf32 e); split_and!; try done; reader_ok i e_phoff.
Qed.

Lemma section_readers_ok e i : header_ok e -> sections_ok e -> 0 ≤ i < e_shnum (hdr e) ->
  Forall (fun r => returns (r e i) is_w64) section_readers.
Proof.
  unfold header_ok, sections_ok, hdr, shsz, ehsz. intros (Hb & _ & [Hs Hl] & _) (H1 & H2 & H3) Hi.
  unfold section_readers. rewrite !Forall_cons, Forall_nil.
  unfold elf_getSectionNameOffset, elf_getSectionType, elf_getSectionFlags, elf_getSectionAddr, elf_getSectionOffset,
    elf_getSectionSize, elf_getSectionLink, elf_getSectionInfo, elf_getSectionAddrAlign, elf_getSectionEntrySize.
  destruct (elf_isElf32 e); split_and!; try done; reader_ok i e_shoff.
Qed.

Lemma returns_numbers e : header_ok e ->
  returns (elf_getNumProgramHeaders e : M S Z) (eq (e_phnum (hdr e))) /\
  returns (elf_getNumSections e : M S Z) (eq (e_shnum (hdr e))) /\
  returns (elf_getSectionStringTableIndex e : M S Z) (eq (e_shstrndx (hdr e))) /\
  returns (elf_getEntryPoint e : M S Z) is_w64.
Proof.
  unfold header_ok, hdr, ehsz. intros (Hb & _ & [Hs Hl] & _).
  unfold elf_getNumProgramHeaders, elf_getNumSections, elf_getSectionStringTableIndex, elf_getEntryPoint.
  destruct (elf_isElf32 e).
  - split_and!; try (apply returns_base32; lia). eapply returns_mono; [apply returns_base32; lia|]. intros ? <-.
    pose proof (val_range _ 0 Layout32.e_entry Hb ltac:(done)) as H. unfold is_w64. simpl in *. lia.
  - split_and!; try (apply returns_base64; lia). eapply returns_mono; [apply returns_base64; lia|]. intros ? <-.
    pose proof (val_range _ 0 Layout64.e_entry Hb ltac:(done)) as H. unfold is_w64. simpl in *. lia.
Qed.

(** The test that a range [o, o + n) does not wrap and is in the file. *)
Lemma range_test_ok o n size : is_w64 o -> is_w64 n ->
  bool_decide (size < w64 (o + n)) || bool_decide (w64 (o + n) < o) = false -> 0 ≤ o /\ o + n ≤ size.
Proof.
  unfold is_w64. intros Ho Hn H. bd. pose proof (no_wrap (2 ^ 64) o n Ho Hn ltac:(done)) as E.
  unfold w64 in *. lia.
Qed.

(** Where a pointer with a length may point. *)
Definition in_file (size : Z) (pn : option Z * Z) : Prop := forall o, pn.1 = Some o -> 0 ≤ o /\ o + pn.2 ≤ size.

Lemma returns_segment e i : header_ok e -> segments_ok e -> 0 ≤ i < e_phnum (hdr e) ->
  returns (p ← elf_getProgramSegment e i; n ← elf_getProgramHeaderFileSize e i; mret (p, n) : M S (option Z * Z))
    (in_file (elfSize e)).
Proof.
  intros He Hp Hi s. pose proof (segment_readers_ok e i He Hp Hi) as H. unfold segment_readers in H.
  rewrite !Forall_cons in H. destruct H as (_ & Ho & _ & _ & Hn & _).
  destruct (Ho s) as (o & Ho' & Eo). destruct (Hn s) as (n & Hn' & En).
  eexists (_, n). unfold elf_getProgramSegment, mbind, M_bind. rewrite Eo, En. simpl. rewrite En. split; [|reflexivity].
  intros o' E. simpl in *. destruct (_ || _) eqn:T in E; [done|]. injection E as <-. by apply range_test_ok.
Qed.

Lemma section_at e i (s : S) : header_ok e -> sections_ok e -> 0 ≤ i < e_shnum (hdr e) ->
  exists p n, elf_getSection e i s = Ok (p, s) /\ elf_getSectionSize e i s = Ok (n, s) /\
    in_file (elfSize e) (p, n) /\ (is_Some p -> 0 < n < 2 ^ 64).
Proof.
  intros He Hp Hi. pose proof (section_readers_ok e i He Hp Hi) as H. unfold section_readers in H.
  rewrite !Forall_cons in H. destruct H as (_ & _ & _ & _ & Ho & Hn & _).
  destruct (Ho s) as (o & Ho' & Eo). destruct (Hn s) as (n & Hn' & En).
  destruct (returns_numbers e He) as (_ & Hs & _). destruct (Hs s) as (? & <- & Es).
  unfold elf_getSection, mbind, M_bind. rewrite Es.
  destruct (_ || _); [|rewrite Eo, En; destruct (bool_decide (n = 0)) eqn:E0; [|destruct (_ || _) eqn:T]];
    (eexists _, n; split; [reflexivity|split; [done|]]); unfold in_file; simpl;
    (split; [try done|]); try (by intros []).
  - intros ? [= <-]. by apply range_test_ok.
  - intros _. bd. unfold is_w64 in Hn'. lia.
Qed.

(** A table of strings lies in the file and ends with a zero that was read. *)
Lemma string_table_at e i (s : S) : header_ok e -> sections_ok e -> 0 ≤ i < e_shnum (hdr e) ->
  exists p n, elf_getStringTable e i s = Ok (p, s) /\ elf_getSectionSize e i s = Ok (n, s) /\ in_file (elfSize e) (p, n).
Proof.
  intros He Hp Hi. destruct (section_at e i s He Hp Hi) as (p & n & E1 & E2 & Hf & Hpos).
  unfold elf_getStringTable, mbind, M_bind. rewrite E1.
  destruct p as [o|]; [|exists None, n; by split_and!].
  pose proof (section_readers_ok e i He Hp Hi) as H. unfold section_readers in H.
  rewrite !Forall_cons in H. destruct H as (_ & Ht & _). destruct (Ht s) as (t & _ & Et). rewrite Et.
  destruct (bool_decide (t ≠ _)); [exists None, n; by split_and!|]. rewrite E2.
  destruct (Hf o eq_refl) as [Ho Hend]. simpl in Hend. specialize (Hpos ltac:(eauto)).
  destruct (returns_byte e (o + w64 (n - 1)) ltac:(pose proof (w64_range (n - 1)); lia)
    ltac:(rewrite w64_small by lia; destruct He as (_ & _ & [_ ?] & _); lia) s) as (c & _ & Ec).
  rewrite Ec. eexists _, n. split; [reflexivity|split; [done|]].
  destruct (bool_decide _); [done|exact Hf].
Qed.

Lemma returns_section_name e i : header_ok e -> sections_ok e -> 0 ≤ i < e_shnum (hdr e) ->
  returns (elf_getSectionName e i : M S cstring) (fun c => forall o, c = InFile o -> 0 ≤ o ≤ elfSize e).
Proof.
  intros He Hp Hi s. destruct (returns_numbers e He) as (_ & _ & Hx & _). destruct (Hx s) as (? & <- & Ex).
  destruct (string_table_at e (e_shstrndx (hdr e)) s He Hp) as (p & n & E1 & E2 & Hf); [apply He|].
  pose proof (section_readers_ok e i He Hp Hi) as H. unfold section_readers in H.
  rewrite !Forall_cons in H. destruct H as (Hn & _). destruct (Hn s) as (o & Ho & En).
  unfold elf_getSectionName, mbind, M_bind. rewrite Ex, E1, En, E2.
  destruct p as [t|]; eexists; (split; [|reflexivity]); [|done].
  destruct (Hf t eq_refl) as [Ht Hend]. simpl in Hend. unfold is_w64 in Ho.
  case_bool_decide; [done|]. intros ? [= <-]. lia.
Qed.
End readers.

(** C39: [elf_newFile] ends without reading outside of the file.  When it
    accepts the file, every accessor of every program header and section header
    reads inside of the file, the segment or section that is returned lies in the
    file with its whole size, and the table of section names can be searched. *)
Theorem elf_newFile_safe {S} (file : list Z) (size : Z) :
  Forall is_byte file -> size ≤ size_of file -> size < 2 ^ 64 ->
  returns (elf_newFile file size : M S (Z * option elf_t)) (fun '(st, r) =>
    st = -1 /\ r = None \/
    st = 0 /\ exists e np ns, r = Some e /\ elfFile e = file /\ elfSize e = size /\
      returns (elf_getNumProgramHeaders e : M S Z) (eq np) /\ returns (elf_getNumSections e : M S Z) (eq ns) /\
      returns (elf_getEntryPoint e : M S Z) is_w64 /\
      (forall i, 0 ≤ i < np ->
         Forall (fun r : elf_t -> Z -> M S Z => returns (r e i) is_w64) segment_readers /\
         returns (p ← elf_getProgramSegment e i; n ← elf_getProgramHeaderFileSize e i; mret (p, n) : M S _) (in_file size)) /\
      (forall i, 0 ≤ i < ns ->
         Forall (fun r : elf_t -> Z -> M S Z => returns (r e i) is_w64) section_readers /\
         returns (p ← elf_getSection e i; n ← elf_getSectionSize e i; mret (p, n) : M S _) (in_file size) /\
         returns (p ← elf_getStringTable e i; n ← elf_getSectionSize e i; mret (p, n) : M S _) (in_file size) /\
         returns (elf_getSectionName e i : M S cstring) (fun c => forall o, c = InFile o -> 0 ≤ o ≤ size))).
Proof.
  intros Hb Hs Hw. eapply returns_mono; [by apply returns_newFile|]. intros [st r] [H|(-> & e & -> & <- & <- & He & Hp & Hq)]; [by left|right].
  split; [done|]. destruct (returns_numbers (S:=S) e He) as (N1 & N2 & _ & N3).
  exists e, (e_phnum (hdr e)), (e_shnum (hdr e)). split_and!; try done.
  - intros i Hi. split; [by apply segment_readers_ok|by apply returns_segment].
  - intros i Hi. split_and!; [by apply section_readers_ok| | |by apply returns_section_name]; intros s.
    + destruct (section_at e i s He Hq Hi) as (p & n & E1 & E2 & Hf & _).
      exists (p, n). split; [done|]. unfold mbind, M_bind. by rewrite E1, E2.
    + destruct (string_table_at e i s He Hq Hi) as (p & n & E1 & E2 & Hf).
      exists (p, n). split; [done|]. unfold mbind, M_bind. by rewrite E1, E2.
Qed.

(** ** A sample file *)

Fixpoint enc (n : nat) (v : Z) : list Z := match n with O => [] | S n => v mod 256 :: enc n (v / 256) end.
(** A 64-bit file with one segment and two sections; the last of them is the
    table of names.  [name] is the offset of its own name. *)
Definition sample (name : Z) : list Z :=
  ELFMAG ++ [2; 1; 1; 0] ++ enc 8 0 ++ enc 2 2 ++ enc 2 183 ++ enc 4 1 ++ enc 8 4096 ++ enc 8 64 ++ enc 8 120 ++
  enc 4 0 ++ enc 2 64 ++ enc 2 56 ++ enc 2 1 ++ enc 2 64 ++ enc 2 2 ++ enc 2 1 ++
  enc 4 1 ++ enc 4 5 ++ enc 8 0 ++ enc 8 4096 ++ enc 8 8192 ++ enc 8 100 ++ enc 8 104 ++ enc 8 4096 ++
  enc 32 0 ++ enc 32 0 ++
  enc 4 name ++ enc 4 3 ++ enc 8 0 ++ enc 8 0 ++ enc 8 248 ++ enc 8 4 ++ enc 4 0 ++ enc 4 0 ++ enc 8 1 ++ enc 8 0 ++
  [0; 115; 116; 0].

Lemma elf_newFile_safe_witness :
  value_of (elf_newFile (sample 1) 252 tt) = Some (0, Some (Elf (sample 1) 252 ELFCLASS64)) /\
  exists v, fst v = 0 /\ elf_newFile (sample 1) 252 tt = Ok (v, tt).
Proof.
  split; [by vm_compute|].
  destruct (elf_newFile_safe (S := unit) (sample 1) 252 ltac:(apply (bool_decide_unpack _); vm_compute; exact I) ltac:(done) ltac:(done) tt)
    as ([st r] & H & E).
  exists (st, r). split; [|exact E]. destruct H as [[-> _]|[-> _]]; [|reflexivity].
  exfalso. vm_compute in E. discriminate E.
Defined.

(** What the accessors give for the sample. *)
Lemma elf_sample_run :
  let e := Elf (sample 1) 252 ELFCLASS64 in
  value_of (elf_getEntryPoint e tt) = Some 4096 /\
  value_of (elf_getSectionNamed e [115; 116; 0] tt) = Some (Some 248, Some 1) /\
  value_of (elf_getSectionNamed e [120; 0] tt) = Some (None, None) /\
  value_of (elf_getProgramSegment e 0 tt) = Some (Some 0) /\
  value_of (elf_getMemoryBounds e VIRTUAL tt) = Some (1, (4096, 4200)) /\
  value_of (elf_vtopProgramHeader e 0 4100 tt) = Some 8196 /\
  value_of (elf_vaddrInProgramHeader e 0 4200 tt) = Some 0.
Proof. by vm_compute. Qed.

(** The test of a name's offset allows the offset just past the table, where
    there is no terminating zero: with the table at the end of a file that was
    accepted, the search by name reads outside of the file. *)
Lemma section_name_past_end :
  let e := Elf (sample 4) 252 ELFCLASS64 in
  value_of (elf_newFile (sample 4) 252 tt) = Some (0, Some e) /\
  value_of (elf_getSectionName e 1 tt) = Some (InFile 252) /\
  elf_getSectionNamed e [115; 116; 0] tt = Fault OutOfBounds.
Proof. by vm_compute. Qed.

(** ** Loading *)

Definition mapped (m : ram) (a n : Z) : Prop := forall x, a ≤ x < a + n -> is_Some (m !! x).
(** [m] with the bytes [l] at [a]. *)
Definition overlay (m : ram) (a : Z) (l : list Z) (x : Z) : option Z :=
  if bool_decide (a ≤ x < a + size_of l) then l !! Z.to_nat (x - a) else m !! x.

Lemma overlay_cons m a c l x : overlay (<[a := c]> m) (a + 1) l x = overlay m a (c :: l) x.
Proof.
  unfold overlay, size_of. cbn [length]. destruct (decide (x = a)) as [->|Hx].
  - rewrite bool_decide_false, bool_decide_true by lia. rewrite lookup_insert, Z.sub_diag. by rewrite decide_True.
  - destruct (decide (a < x < a + 1 + Z.of_nat (length l))) as [Hin|Hout].
    + rewrite !bool_decide_true by lia. replace (Z.to_nat (x - a)) with (S (Z.to_nat (x - (a + 1)))) by lia. done.
    + rewrite !bool_decide_false by lia. by rewrite lookup_insert_ne by done.
Qed.

Lemma poke_spec a l m : mapped m a (size_of l) -> wp (poke a l) (fun _ m' => forall x, m' !! x = overlay m a l x) m.
Proof.
  revert a m. induction l as [|c l IH]; intros a m Hm; cbn [poke].
  - wp_line. intros x. unfold overlay, size_of. simpl. by rewrite bool_decide_false by lia.
  - wp_line. destruct (Hm a) as [d Hd]; [unfold size_of; simpl; lia|].
    eapply wpf_access; [exact Hd|]. wp_line. eapply wpf_mono.
    + apply IH. intros x Hx. destruct (decide (x = a)) as [->|Hne]; [rewrite lookup_insert; rewrite decide_True by done; eauto|].
      rewrite lookup_insert_ne by done. apply Hm. unfold size_of in *. simpl. lia.
    + intros [] m' H x. rewrite H. apply overlay_cons.
Qed.

(** Loading a segment puts its bytes of the file at its address and zeros after
    them up to its size in memory, and changes nothing else. *)
Lemma load_one_correct e ty i dest len off size m :
  segment_addr e ty i m = Ok (dest, m) ->
  (forall m : ram, (elf_getProgramHeaderFileSize e i : M ram Z) m = Ok (len, m)) ->
  elf_getProgramHeaderOffset e i m = Ok (off, m) ->
  (forall m : ram, (elf_getProgramHeaderMemorySize e i : M ram Z) m = Ok (size, m)) ->
  0 ≤ off -> 0 ≤ len ≤ size -> off + len ≤ size_of (elfFile e) -> 0 ≤ dest -> dest + size < 2 ^ 64 -> mapped m dest size ->
  wp (load_one e ty i) (fun _ m' =>
    forall x, m' !! x = overlay m dest (take (Z.to_nat len) (drop (Z.to_nat off) (elfFile e)) ++ replicate (Z.to_nat (size - len)) 0) x) m.
Proof.
  intros E1 E2 E3 E4 Ho Hl Hend Hd Hw Hm. unfold load_one.
  apply wpf_bind. eapply wpf_ok; [exact E1|]. apply wpf_bind. eapply wpf_ok; [apply E2|].
  apply wpf_bind. eapply wpf_ok; [exact E3|]. apply wpf_bind. unfold struct. eapply wpf_access; [by apply slice_Some; lia|].
  set (b := take _ _). assert (Hb : size_of b = len).
  { unfold b, size_of in *. rewrite length_take, length_drop. lia. }
  apply wpf_bind. eapply wpf_mono; [apply poke_spec; rewrite Hb; intros x Hx; apply Hm; lia|]. intros [] m1 H1.
  apply wpf_bind. eapply wpf_ok; [apply E4|]. rewrite !w64_small by lia.
  assert (Hz : size_of (replicate (Z.to_nat (size - len)) 0) = size - len) by (unfold size_of; rewrite length_replicate; lia).
  eapply wpf_mono.
  - apply poke_spec. rewrite Hz. intros x Hx. rewrite H1. unfold overlay. rewrite bool_decide_false by lia. apply Hm. lia.
  - intros [] m2 H2 x. rewrite H2. unfold overlay at 1. rewrite Hz, H1. unfold overlay, size_of in *. rewrite length_app.
    rewrite lookup_app. repeat case_bool_decide; try lia; try done.
    + rewrite (lookup_ge_None_2 b) by lia. f_equal. lia.
    + destruct (lookup_lt_is_Some_2 b (Z.to_nat (x - dest))) as [c ->]; [lia|done].
Qed.
