(* ===== verification/Pagefile.v ===== *)
(** * The pagefile

    Models [sos/src/pagefile.zig]: the slots of the pagefile, with a bitmap that
    is searched from a hint and a table that says what each slot holds, growing
    on demand; opening and closing the file; and reading and writing the page of
    a slot.  The allocator, the file and the network are the class [PagefileEnv].
    A failed [std.debug.assert] and an overflow are faults: a checked build stops
    there, and in the build that [build.zig] configures they are undefined. *)

From S2P Require Import Prelude Arith Bitfield.

Definition INVALID_SLOT : Z := 0.
Definition PAGE_SIZE : Z := 4096.
Definition INITIAL_SLOT_COUNT : Z := 256.
Definition MAX_SLOT_COUNT : Z := 8192.
Definition DEFAULT_CREATE_MODE : Z := 384.

Definition EIO : Z := 5.
Definition EAGAIN : Z := 11.
Definition ENOMEM : Z := 12.
Definition ENODEV : Z := 19.
Definition EINVAL : Z := 22.

(** The error set of [KernelFileHandle.pwrite] and [pread]. *)
Inductive file_error := OutOfMemory | PoolExhausted | NoNFSContext | NFSOperationFailed | OperationFailed.

(** What the pagefile calls: the allocator (whether there is room for so many
    elements), the network file system, and positioned reads and writes, which
    return the number of bytes (and the bytes) transferred. *)
Class PagefileEnv (E : Type) := {
  alloc_array : Z -> E -> bool * E;
  free_array : Z -> E -> E;
  get_nfs_context : E -> bool;
  nfs_open2_async : Z -> E -> Z * E;
  fh_close : Z -> E -> E;
  fh_pwrite : Z -> list Z -> Z -> E -> (file_error + Z) * E;
  fh_pread : Z -> Z -> Z -> E -> (file_error + list Z) * E;
}.

Inductive SlotState := free | allocated (frame pid vaddr : Z).
#[export] Instance SlotState_eq_dec : EqDecision SlotState.
Proof. solve_decision. Defined.

Record PagefileState := Pagefile {
  file_handle : Z;
  slot_table : list SlotState;
  words : list Z;
  next_search_hint : Z;
  slots_used : Z;
  slots_peak : Z;
  total_allocs : Z;
  total_frees : Z
}.

Definition isFree (s : SlotState) : bool := match s with free => true | allocated _ _ _ => false end.
Definition isAllocated (s : SlotState) : bool := negb (isFree s).

(** A value that is not NULL_FRAME is a reference. *)
Definition FrameRef_from (value : Z) : option Z := if bool_decide (value = 0) then None else Some value.

Section pagefile.
Context {E : Type} `{!PagefileEnv E}.
Abbreviation PM := (M (PagefileState * E)).

Definition in_env {A} (f : E -> A * E) : PM A := fun w => let '(a, e) := f w.2 in Ok (a, (w.1, e)).
Definition state : PM PagefileState := gets fst.
Definition update (f : PagefileState -> PagefileState) : PM unit := modify (fun w => (f w.1, w.2)).
(** Arithmetic that is illegal outside of its width. *)
Definition u32 (z : Z) : PM Z := cassert (bool_decide (0 ≤ z < 2 ^ 32));; mret z.
Definition usize (z : Z) : PM Z := cassert (bool_decide (0 ≤ z < 2 ^ 64));; mret z.

(** ** The bitmap *)

Definition Bitmap_init (num_slots : Z) : PM (option (list Z)) :=
  n ← u32 (num_slots + 63);
  let num_words := n / 64 in
  ok ← in_env (alloc_array num_words);
  mret (if (ok : bool) then Some (replicate (Z.to_nat num_words) 0) else None).
Definition Bitmap_deinit (words : list Z) : PM unit :=
  in_env (fun e => (tt, free_array (Z.of_nat (length words)) e)).
Definition isSet (words : list Z) (slot : Z) : PM bool :=
  cassert (bool_decide (0 < slot));;
  let word_idx := slot / 64 in
  let bit_idx := slot mod 64 in
  if bool_decide (Z.of_nat (length words) ≤ word_idx) then mret false
  else w ← access (words !! Z.to_nat word_idx); mret (bool_decide (Z.land w (Z.shiftl 1 bit_idx) ≠ 0)).
Definition set (words : list Z) (slot : Z) : PM (list Z) :=
  cassert (bool_decide (0 < slot));;
  let word_idx := slot / 64 in
  let bit_idx := slot mod 64 in
  cassert (bool_decide (word_idx < Z.of_nat (length words)));;
  w ← access (words !! Z.to_nat word_idx);
  mret (<[Z.to_nat word_idx := Z.lor w (Z.shiftl 1 bit_idx)]> words).
Definition clear (words : list Z) (slot : Z) : PM (list Z) :=
  cassert (bool_decide (0 < slot));;
  let word_idx := slot / 64 in
  let bit_idx := slot mod 64 in
  cassert (bool_decide (word_idx < Z.of_nat (length words)));;
  w ← access (words !! Z.to_nat word_idx);
  mret (<[Z.to_nat word_idx := Z.land w (not64 (Z.shiftl 1 bit_idx))]> words).

(** ** The slots *)

Definition numSlots (st : PagefileState) : Z := Z.of_nat (length (slot_table st)).

(** [PagefileState.init] runs before there is a state: it is a function of the
    environment only. *)
Definition PagefileState_init (fh num_slots : Z) (e : E) : option PagefileState * E :=
  let '(ok, e) := alloc_array num_slots e in
  if ok : bool then
    let num_words := (num_slots + 63) / 64 in
    let '(ok, e) := alloc_array num_words e in
    if ok : bool then
      (Some (Pagefile fh (replicate (Z.to_nat num_slots) free) (replicate (Z.to_nat num_words) 0) 1 0 0 0 0), e)
    else (None, free_array num_slots e)
  else (None, e).
Definition PagefileState_deinit (st : PagefileState) (e : E) : E :=
  free_array (Z.of_nat (length (words st))) (free_array (numSlots st) e).

(** [None] is the error for lack of memory. *)
Definition grow : PM (option bool) :=
  st ← state;
  let current := numSlots st in
  if bool_decide (MAX_SLOT_COUNT ≤ current) then mret (Some false)
  else
    doubled ← u32 (current * 2);
    let target := if bool_decide (MAX_SLOT_COUNT < doubled) then MAX_SLOT_COUNT else doubled in
    ok ← in_env (alloc_array target);
    if (ok : bool) then
      let new_slot_table := slot_table st ++ replicate (Z.to_nat (target - current)) free in
      new_bitmap ← Bitmap_init target;
      match new_bitmap with
      | None => in_env (fun e => (tt, free_array target e));; mret None
      | Some new_words =>
        let copy_words := Nat.min (length (words st)) (length new_words) in
        let new_words := take copy_words (words st) ++ drop copy_words new_words in
        in_env (fun e => (tt, free_array current e));;
        Bitmap_deinit (words st);;
        update (fun st => Pagefile (file_handle st) new_slot_table new_words 1
          (slots_used st) (slots_peak st) (total_allocs st) (total_frees st));;
        mret (Some true)
      end
    else mret None.

(** The rounds left of the search. *)
Fixpoint find_loop (rounds : nat) (n slot : Z) : PM (option Z) :=
  match rounds with
  | O => mret None
  | S rounds =>
    let slot := if bool_decide (slot = 0) then 1 else slot in
    st ← state;
    b ← isSet (words st) slot;
    if (b : bool) then s ← u32 (slot + 1); find_loop rounds n (s mod n)
    else mret (Some slot)
  end.
Definition find : PM (option Z) :=
  st ← state; find_loop (Z.to_nat (numSlots st)) (numSlots st) (next_search_hint st).

Definition transitionToAllocated (slot frame pid vaddr : Z) : PM unit :=
  st ← state;
  cassert (bool_decide (0 < slot) && bool_decide (slot < numSlots st));;
  b ← isSet (words st) slot;
  cassert (negb b);;
  s ← access (slot_table st !! Z.to_nat slot);
  cassert (isFree s);;
  ws ← set (words st) slot;
  used ← usize (slots_used st + 1);
  allocs ← usize (total_allocs st + 1);
  next ← u32 (slot + 1);
  update (fun st => Pagefile (file_handle st)
    (<[Z.to_nat slot := allocated frame pid vaddr]> (slot_table st)) ws (next mod numSlots st) used
    (if bool_decide (slots_peak st < used) then used else slots_peak st) allocs (total_frees st)).

Definition allocSlot (frame_value pid vaddr : Z) : PM (option Z) :=
  match FrameRef_from frame_value with
  | None => mret None
  | Some frame =>
    s ← find;
    match s with
    | Some slot => transitionToAllocated slot frame pid vaddr;; mret (Some slot)
    | None =>
      grew ← grow;
      match grew with
      | None => mret None
      | Some grew =>
        s ← (if grew : bool then find else mret None);
        match s with
        | Some slot2 => transitionToAllocated slot2 frame pid vaddr;; mret (Some slot2)
        | None => mret None
        end
      end
    end
  end.

Definition freeSlot (slot : Z) : PM unit :=
  st ← state;
  cassert (bool_decide (0 < slot) && bool_decide (slot < numSlots st));;
  b ← isSet (words st) slot;
  cassert b;;
  s ← access (slot_table st !! Z.to_nat slot);
  cassert (isAllocated s);;
  ws ← clear (words st) slot;
  used ← usize (slots_used st - 1);
  frees ← usize (total_frees st + 1);
  update (fun st => Pagefile (file_handle st) (<[Z.to_nat slot := free]> (slot_table st)) ws
    (if bool_decide (slot < next_search_hint st) then slot else next_search_hint st) used
    (slots_peak st) (total_allocs st) frees).

Definition isValidSlot (slot : Z) : PM bool :=
  st ← state;
  if bool_decide (slot = INVALID_SLOT) || bool_decide (numSlots st ≤ slot) then mret false
  else
    b ← isSet (words st) slot;
    s ← access (slot_table st !! Z.to_nat slot);
    cassert (bool_decide (b = isAllocated s));;
    mret b.

(** ** The exported functions, over the globals of the file *)

Record globals := Globals { global_state : option PagefileState; init_pending : bool; init_failed : bool; genv : E }.
Abbreviation GM := (M globals).

Definition set_genv (e : E) (g : globals) : globals := Globals (global_state g) (init_pending g) (init_failed g) e.
Definition set_pending (b : bool) (g : globals) : globals := Globals (global_state g) b (init_failed g) (genv g).
Definition set_failed (b : bool) (g : globals) : globals := Globals (global_state g) (init_pending g) b (genv g).
Definition set_global (o : option PagefileState) (g : globals) : globals := Globals o (init_pending g) (init_failed g) (genv g).
Definition call {A} (f : E -> A * E) : GM A := fun g => let '(a, e) := f (genv g) in Ok (a, set_genv e g).
(** Run an operation of the state, which [getState] found. *)
Definition on_state {A} (st : PagefileState) (m : PM A) : GM A :=
  zoom (fun g => (st, genv g)) (fun w g => set_genv w.2 (set_global (Some w.1) g)) m.

Definition pagefileOpenCallback (err : Z) (data : option Z) : GM unit :=
  modify (set_pending false);;
  if bool_decide (err < 0) then modify (set_failed true)
  else
    match data with
    | None => modify (set_failed true)
    | Some fh =>
      st ← call (PagefileState_init fh INITIAL_SLOT_COUNT);
      match st with
      | None => call (fun e => (tt, fh_close fh e));; modify (set_failed true)
      | Some st => modify (set_global (Some st))
      end
    end.

Definition pagefile_init : GM unit :=
  g ← get;
  if bool_decide (is_Some (global_state g)) || init_pending g then mret tt
  else if negb (get_nfs_context (genv g)) then modify (set_failed true)
  else
    modify (set_pending true);;
    rc ← call (nfs_open2_async DEFAULT_CREATE_MODE);
    if bool_decide (rc < 0) then modify (set_pending false);; modify (set_failed true)
    else mret tt.

Definition pagefile_shutdown : GM unit :=
  g ← get;
  match global_state g with
  | None => mret tt
  | Some st =>
    call (fun e => (tt, fh_close (file_handle st) e));;
    call (fun e => (tt, PagefileState_deinit st e));;
    modify (set_global None)
  end.

Definition pagefile_alloc_slot (frame pid vaddr : Z) : GM Z :=
  g ← get;
  match global_state g with
  | None => mret INVALID_SLOT
  | Some st => r ← on_state st (allocSlot frame pid vaddr); mret (default INVALID_SLOT r)
  end.

Definition pagefile_free_slot (slot : Z) : GM unit :=
  g ← get;
  match global_state g with
  | None => mret tt
  | Some st =>
    if bool_decide (slot = INVALID_SLOT) || bool_decide (numSlots st ≤ slot) then mret tt
    else
      b ← on_state st (isSet (words st) slot);
      if (b : bool) then on_state st (freeSlot slot) else mret tt
  end.

Definition pagefile_is_valid_slot (slot : Z) : GM bool :=
  g ← get;
  match global_state g with
  | None => mret false
  | Some st => on_state st (isValidSlot slot)
  end.

Record Stats := MkStats { st_total : Z; st_used : Z; st_peak : Z; st_allocs : Z; st_frees : Z }.
Definition pagefile_get_stats : GM Stats :=
  g ← get;
  mret match global_state g with
       | None => MkStats 0 0 0 0 0
       | Some st => MkStats (numSlots st) (slots_used st) (slots_peak st) (total_allocs st) (total_frees st)
       end.

Definition pagefile_is_ready (g : globals) : bool := bool_decide (is_Some (global_state g)) && negb (init_pending g).
Definition pagefile_init_failed (g : globals) : bool := init_failed g.

Definition errno_of (err : file_error) : Z :=
  match err with
  | OutOfMemory => - ENOMEM
  | PoolExhausted => - EAGAIN
  | NoNFSContext => - ENODEV
  | NFSOperationFailed | OperationFailed => - EIO
  end.

(** [buf] is what the caller's pointer addresses; [len] is the length it
    claims. *)
Definition pagefile_write_slot (slot : Z) (buf : list Z) (len : Z) : GM Z :=
  g ← get;
  match global_state g with
  | None => mret (- ENODEV)
  | Some st =>
    if bool_decide (len ≠ PAGE_SIZE) then mret (- EINVAL)
    else
      valid ← on_state st (isValidSlot slot);
      if negb valid then mret (- EINVAL)
      else
        let offset := slot * PAGE_SIZE in
        r ← call (fh_pwrite (file_handle st) (take (Z.to_nat PAGE_SIZE) buf) offset);
        match r with
        | inl err => mret (errno_of err)
        | inr bytes_written => mret (if bool_decide (bytes_written ≠ PAGE_SIZE) then - EIO else 0)
        end
  end.

(** Returns the status and what was stored in the buffer. *)
Definition pagefile_read_slot (slot len : Z) : GM (Z * list Z) :=
  g ← get;
  match global_state g with
  | None => mret (- ENODEV, [])
  | Some st =>
    if bool_decide (len ≠ PAGE_SIZE) then mret (- EINVAL, [])
    else
      valid ← on_state st (isValidSlot slot);
      if negb valid then mret (- EINVAL, [])
      else
        let offset := slot * PAGE_SIZE in
        r ← call (fh_pread (file_handle st) PAGE_SIZE offset);
        match r with
        | inl err => mret (- EIO, [])
        | inr bytes =>
          mret (if bool_decide (Z.of_nat (length bytes) ≠ PAGE_SIZE) then (- EIO, bytes) else (0, bytes))
        end
  end.
End pagefile.
Arguments globals : clear implicits.

(** ** The invariant *)

(** What a slot holds. *)
Definition holds (st : PagefileState) (s : Z) : option (Z * Z * Z) :=
  if bool_decide (0 ≤ s) then
    match slot_table st !! Z.to_nat s with Some (allocated f p v) => Some (f, p, v) | _ => None end
  else None.
Definition count (l : list SlotState) : Z := Z.of_nat (length (List.filter isAllocated l)).

Record pf_inv (st : PagefileState) : Prop := {
  pfi_slots : 2 ≤ numSlots st ≤ MAX_SLOT_COUNT;
  pfi_words : Z.of_nat (length (words st)) = (numSlots st + 63) / 64;
  pfi_ok : bf_ok (words st);
  pfi_hint : 0 ≤ next_search_hint st < numSlots st;
  pfi_zero : slot_table st !! 0%nat = Some free;
  pfi_bits : forall s, has (words st) s <-> is_Some (holds st s);
  pfi_used : slots_used st = count (slot_table st);
  pfi_peak : slots_used st ≤ slots_peak st;
  pfi_total : total_allocs st = total_frees st + slots_used st;
  pfi_frees : 0 ≤ total_frees st;
}.

Definition weight (s : SlotState) : Z := if isAllocated s then 1 else 0.
Lemma count_insert l i x y : l !! i = Some y -> count (<[i := x]> l) = count l - weight y + weight x.
Proof.
  unfold count, weight. revert i. induction l as [|z l IH]; intros [|i] H; simplify_eq/=; [|specialize (IH i H)];
    destruct (isAllocated x), (isAllocated y) eqn:?; try destruct (isAllocated z); simpl in *; lia.
Qed.
Lemma count_range l : 0 ≤ count l ≤ Z.of_nat (length l).
Proof. unfold count. split; [lia|]. induction l as [|x l IH]; simpl; [lia|]. destruct (isAllocated x); simpl; lia. Qed.
Lemma count_app_free l n : count (l ++ replicate n free) = count l.
Proof. unfold count. rewrite List.filter_app, length_app. induction n; simpl; lia. Qed.

Lemma holds_insert st ws h u p a f s x y :
  0 ≤ s -> slot_table st !! Z.to_nat s = Some y ->
  forall k, holds (Pagefile (file_handle st) (<[Z.to_nat s := x]> (slot_table st)) ws h u p a f) k =
    if decide (k = s) then match x with allocated f p v => Some (f, p, v) | free => None end else holds st k.
Proof.
  intros Hs Hy k. unfold holds. cbn. case_decide as E.
  - subst k. rewrite bool_decide_true by done. by rewrite list_lookup_insert_eq by (by eapply lookup_lt_Some).
  - case_bool_decide; [|done]. by rewrite list_lookup_insert_ne by lia.
Qed.

Lemma holds_range st s : is_Some (holds st s) -> 0 ≤ s < numSlots st.
Proof.
  unfold holds, numSlots. case_bool_decide; [|by intros []]. intros [x Hx].
  destruct (slot_table st !! Z.to_nat s) eqn:E; [|done]. apply lookup_lt_Some in E. lia.
Qed.

Lemma has_app_zeros ws d s : has (ws ++ replicate d 0) s <-> has ws s.
Proof.
  unfold has, word_at. case_bool_decide; [|done]. split; intros (w & Hw & T).
  - apply lookup_app_Some in Hw as [Hw|[_ Hw]]; [eauto|]. apply lookup_replicate in Hw as [-> _]. by rewrite Z.bits_0 in T.
  - exists w. split; [|done]. by apply lookup_app_l_Some.
Qed.

Section proofs.
Context {E : Type} `{!PagefileEnv E}.
Abbreviation PM := (M (PagefileState * E)).

Lemma wp_isSet F ws s (Q : bool -> PagefileState * E -> Prop) w :
  0 < s -> Q (bool_decide (has ws s)) w -> wpf F (isSet ws s : PM bool) Q w.
Proof.
  intros Hs HQ. unfold isSet. rewrite (bool_decide_true (0 < s)) by done. apply wpf_bind, wpf_ret.
  apply wpf_if; intros H; bd.
  - apply wpf_ret. assert (Hn : ¬ has ws s).
    { intros Hh%has_lt. unfold bf_size in Hh. pose proof (Z.mul_div_le s 64). lia. }
    by rewrite (bool_decide_false _ Hn) in HQ.
  - assert (Hb : 0 ≤ s < bf_size ws).
    { unfold bf_size. split; [lia|]. pose proof (Z.mod_pos_bound s 64). rewrite (Z.div_mod s 64) by lia. lia. }
    pose proof (bf_get_bit_spec ws s Hb) as G. destruct (word_at_Some ws s Hb) as [v Hv].
    unfold bf_get_bit, WORD_INDEX, BIT_INDEX, WORD_BITS in G. rewrite Hv in G. simpl in G. injection G as G.
    unfold word_at in Hv. rewrite bool_decide_true in Hv by (apply Z.div_pos; lia).
    apply wpf_bind. eapply wpf_access; [exact Hv|]. apply wpf_ret. unfold BIT in G. by rewrite G.
Qed.

Lemma wp_set F ws s (Q : list Z -> PagefileState * E -> Prop) w :
  bf_ok ws -> 0 < s < bf_size ws ->
  (forall ws', bf_ok ws' -> length ws' = length ws -> (forall k, has ws' k <-> k = s \/ has ws k) -> Q ws' w) ->
  wpf F (set ws s : PM (list Z)) Q w.
Proof.
  intros Hok Hs HQ. unfold set. rewrite (bool_decide_true (0 < s)) by lia. apply wpf_bind, wpf_ret.
  assert (s / 64 < Z.of_nat (length ws)) by (unfold bf_size in Hs; apply Z.div_lt_upper_bound; lia).
  rewrite bool_decide_true by done. apply wpf_bind, wpf_ret.
  destruct (bf_set_bit_spec ws s Hok ltac:(lia)) as (ws' & G & H1 & H2 & H3).
  unfold bf_set_bit, WORD_INDEX, BIT_INDEX, WORD_BITS, word_at in G.
  rewrite bool_decide_true in G by (apply Z.div_pos; lia).
  destruct (ws !! Z.to_nat (s / 64)) as [v|] eqn:Hv; [|done]. simpl in G. injection G as <-.
  apply wpf_bind. eapply wpf_access; [reflexivity|]. apply wpf_ret. by apply HQ.
Qed.

Lemma not64_lxor k : 0 ≤ k < 64 -> not64 (Z.shiftl 1 k) = Z.lxor (BIT k) ULONG_MAX.
Proof.
  intros Hk. unfold not64, ULONG_MAX, BIT. rewrite Z.shiftl_1_l.
  change (2 ^ 64 - 1) with (Z.ones 64). rewrite Z.sub_nocarry_ldiff.
  - apply Z.bits_inj'. intros i Hi. rewrite Z.ldiff_spec, Z.lxor_spec, Z.pow2_bits_eqb by lia.
    destruct (decide (i < 64)); [rewrite Z.ones_spec_low by lia; by destruct (k =? i)|].
    rewrite Z.ones_spec_high by lia. destruct (Z.eqb_spec k i); [lia|done].
  - apply Z.bits_inj'. intros i Hi. rewrite Z.ldiff_spec, Z.pow2_bits_eqb, Z.bits_0 by lia.
    destruct (Z.eqb_spec k i) as [<-|]; [|done]. by rewrite Z.ones_spec_low by lia.
Qed.

Lemma wp_clear F ws s (Q : list Z -> PagefileState * E -> Prop) w :
  bf_ok ws -> 0 < s < bf_size ws ->
  (forall ws', bf_ok ws' -> length ws' = length ws -> (forall k, has ws' k <-> k ≠ s /\ has ws k) -> Q ws' w) ->
  wpf F (clear ws s : PM (list Z)) Q w.
Proof.
  intros Hok Hs HQ. unfold clear. rewrite (bool_decide_true (0 < s)) by lia. apply wpf_bind, wpf_ret.
  assert (s / 64 < Z.of_nat (length ws)) by (unfold bf_size in Hs; apply Z.div_lt_upper_bound; lia).
  rewrite bool_decide_true by done. apply wpf_bind, wpf_ret. rewrite not64_lxor by (apply Z.mod_pos_bound; lia).
  destruct (bf_clr_bit_spec ws s Hok ltac:(lia)) as (ws' & G & H1 & H2 & H3).
  unfold bf_clr_bit, WORD_INDEX, BIT_INDEX, WORD_BITS, word_at in G.
  rewrite bool_decide_true in G by (apply Z.div_pos; lia).
  destruct (ws !! Z.to_nat (s / 64)) as [v|] eqn:Hv; [|done]. simpl in G. injection G as <-.
  apply wpf_bind. eapply wpf_access; [reflexivity|]. apply wpf_ret. by apply HQ.
Qed.

Lemma wp_u32 F z (Q : Z -> PagefileState * E -> Prop) w : 0 ≤ z < 2 ^ 32 -> Q z w -> wpf F (u32 z) Q w.
Proof. intros Hz HQ. unfold u32. rewrite bool_decide_true by done. apply wpf_bind. done. Qed.
Lemma wp_usize F z (Q : Z -> PagefileState * E -> Prop) w : 0 ≤ z < 2 ^ 64 -> Q z w -> wpf F (usize z) Q w.
Proof. intros Hz HQ. unfold usize. rewrite bool_decide_true by done. apply wpf_bind. done. Qed.

(** The search returns a slot whose bit is clear.  When it finds none, all of
    the slots it went past are set: those from the first one up, and, after the
    end of the table, those from 1 up. *)
Lemma find_loop_spec F r n slot (w : PagefileState * E) :
  1 < n < 2 ^ 32 -> 0 ≤ slot < n ->
  let start := if bool_decide (slot = 0) then 1 else slot in
  wpf F (find_loop r n slot) (fun o w' => w' = w /\
    match o with
    | Some s => 0 < s < n /\ ¬ has (words w.1) s
    | None => forall s, 0 < s < n -> (start ≤ s < start + Z.of_nat r \/ s < 1 + (start + Z.of_nat r - n)) -> has (words w.1) s
    end) w.
Proof.
  intros Hn. revert slot. induction r as [|r IH]; intros slot Hs start; cbn [find_loop].
  - apply wpf_ret. split; [done|]. subst start. intros s ? H. exfalso. case_bool_decide; lia.
  - change (if bool_decide (slot = 0) then 1 else slot) with start.
    assert (Hst : 0 < start < n) by (subst start; case_bool_decide; lia).
    unfold state. wp_line. apply wp_isSet; [lia|]. apply wpf_if; intros Hb; bd.
    + wp_line. apply wp_u32; [lia|]. eapply wpf_mono; [apply IH; apply Z.mod_pos_bound; lia|].
      intros o w' [-> Ho]. split; [done|]. destruct o as [s|]; [done|]. intros s Hs' Hin.
      destruct (decide (s = start)) as [->|Hne]; [done|]. apply Ho; [done|].
      destruct (decide (start + 1 < n)) as [Hlt|Hge].
      * rewrite Z.mod_small by lia. rewrite bool_decide_false by lia. lia.
      * replace (start + 1) with n by lia. rewrite Z.mod_same by lia. rewrite bool_decide_true by done. lia.
    + apply wpf_ret. done.
Qed.

Lemma find_spec F (w : PagefileState * E) : pf_inv w.1 ->
  wpf F find (fun o w' => w' = w /\
    match o with
    | Some s => 0 < s < numSlots w.1 /\ holds w.1 s = None
    | None => forall s, 0 < s < numSlots w.1 -> is_Some (holds w.1 s)
    end) w.
Proof.
  intros Hi. destruct Hi as [Hn _ _ Hh _ Hb _ _ _ _]. unfold MAX_SLOT_COUNT in Hn. unfold find, state. wp_line.
  eapply wpf_mono; [apply find_loop_spec; lia|]. intros o w' [-> Ho]. split; [done|]. destruct o as [s|].
  - destruct Ho as [Hs Hc]. split; [done|]. rewrite Hb in Hc. by apply eq_None_not_Some.
  - intros s Hs. apply Hb, Ho; [done|]. case_bool_decide; lia.
Qed.

Lemma bf_size_slots st : pf_inv st -> numSlots st ≤ bf_size (words st).
Proof.
  intros [_ Hw _ _ _ _ _ _ _ _]. unfold bf_size. rewrite Hw.
  pose proof (Z.mod_pos_bound (numSlots st + 63) 64). pose proof (Z.div_mod (numSlots st + 63) 64). lia.
Qed.

Lemma holds_None st s : 0 ≤ s < numSlots st -> holds st s = None -> slot_table st !! Z.to_nat s = Some free.
Proof.
  unfold holds, numSlots. intros Hs. rewrite bool_decide_true by lia.
  destruct (lookup_lt_is_Some_2 (slot_table st) (Z.to_nat s)) as [x Hx]; [lia|]. rewrite Hx. by destruct x.
Qed.
Lemma holds_Some st s x : holds st s = Some x ->
  exists f p v, x = (f, p, v) /\ slot_table st !! Z.to_nat s = Some (allocated f p v).
Proof.
  unfold holds. case_bool_decide; [|done]. destruct (slot_table st !! Z.to_nat s) as [[|f p v]|]; [done| |done].
  intros [= <-]. eauto.
Qed.

(** Taking a free slot keeps the invariant and changes what this slot holds. *)
Lemma transition_spec F slot f p v (w : PagefileState * E) :
  pf_inv w.1 -> 0 < slot < numSlots w.1 -> holds w.1 slot = None -> total_allocs w.1 < 2 ^ 64 - 1 ->
  wpf F (transitionToAllocated slot f p v) (fun _ w' =>
    pf_inv w'.1 /\ w'.2 = w.2 /\ numSlots w'.1 = numSlots w.1 /\ file_handle w'.1 = file_handle w.1 /\
    total_allocs w'.1 = total_allocs w.1 + 1 /\
    forall k, holds w'.1 k = if decide (k = slot) then Some (f, p, v) else holds w.1 k) w.
Proof.
  intros Hi Hs Hf Ha. pose proof (bf_size_slots _ Hi) as Hbf. pose proof Hi as [Hn Hw Hok Hh Hz Hb Hu Hp Ht Hfr].
  pose proof (holds_None w.1 slot ltac:(lia) Hf) as Hx. pose proof (count_range (slot_table w.1)) as Hc. unfold MAX_SLOT_COUNT in Hn.
  unfold transitionToAllocated, state. wp_line. wp_line. apply wpf_assert; [rewrite !bool_decide_true by lia; done|]. wp_line.
  apply wp_isSet; [lia|]. rewrite (bool_decide_false (has _ _)) by (rewrite Hb, Hf; by intros []). wp_line. apply wpf_assert; [done|]. wp_line.
  eapply wpf_access; [exact Hx|]. wp_line. apply wpf_assert; [done|]. wp_line. apply wp_set; [done|lia|]. intros ws Hok' Hl Hb'. wp_line.
  unfold numSlots in *. apply wp_usize; [lia|]. wp_line. apply wp_usize; [lia|]. wp_line. apply wp_u32; [lia|].
  unfold update. wp_line. cbn [fst snd].
  pose proof (count_insert _ _ (allocated f p v) _ Hx) as Hci. unfold weight in Hci. simpl in Hci.
  split; [|split; [done|]; split; [unfold numSlots; cbn; by rewrite length_insert|]; split; [done|]; split; [done|]; intros k; by rewrite (holds_insert w.1 _ _ _ _ _ _ slot _ _ ltac:(lia) Hx)].
  split; unfold numSlots; cbn; rewrite ?length_insert; try done; try lia.
  - apply Z.mod_pos_bound. lia.
  - rewrite list_lookup_insert_ne by lia. done.
  - intros k. rewrite Hb', (holds_insert w.1 _ _ _ _ _ _ slot _ _ ltac:(lia) Hx), Hb. case_decide; [naive_solver|].
    split; [by intros [?|?]|by right].
  - case_bool_decide; lia.
Qed.

Lemma freeSlot_spec F slot x (w : PagefileState * E) :
  pf_inv w.1 -> holds w.1 slot = Some x -> total_allocs w.1 < 2 ^ 64 ->
  wpf F (freeSlot slot) (fun _ w' =>
    pf_inv w'.1 /\ w'.2 = w.2 /\ numSlots w'.1 = numSlots w.1 /\ file_handle w'.1 = file_handle w.1 /\
    total_allocs w'.1 = total_allocs w.1 /\
    forall k, holds w'.1 k = if decide (k = slot) then None else holds w.1 k) w.
Proof.
  intros Hi Hf Ha. pose proof (bf_size_slots _ Hi) as Hbf. pose proof Hi as [Hn Hw Hok Hh Hz Hb Hu Hp Ht Hfr].
  assert (Hr : 0 ≤ slot < numSlots w.1) by (apply holds_range; eauto).
  destruct (holds_Some _ _ _ Hf) as (f & p & v & -> & Hx).
  assert (Hs : 0 < slot).
  { destruct (decide (slot = 0)) as [->|]; [|lia]. change (Z.to_nat 0) with 0%nat in Hx. congruence. }
  pose proof (count_insert _ _ free _ Hx) as Hci. unfold weight in Hci. simpl in Hci.
  pose proof (count_range (<[Z.to_nat slot := free]> (slot_table w.1))) as Hc.
  unfold freeSlot, state. wp_line. wp_line. apply wpf_assert; [rewrite !bool_decide_true by lia; done|]. wp_line.
  apply wp_isSet; [lia|]. rewrite (bool_decide_true (has _ _)) by (rewrite Hb, Hf; eauto). wp_line. apply wpf_assert; [done|]. wp_line.
  eapply wpf_access; [exact Hx|]. wp_line. apply wpf_assert; [done|]. wp_line. apply wp_clear; [done|lia|]. intros ws Hok' Hl Hb'. wp_line.
  apply wp_usize; [lia|]. wp_line. apply wp_usize; [lia|]. unfold update. wp_line. cbn [fst snd].
  split; [|split; [done|]; split; [unfold numSlots; cbn; by rewrite length_insert|]; split; [done|]; split; [done|]; intros k; by rewrite (holds_insert w.1 _ _ _ _ _ _ slot _ _ ltac:(lia) Hx)].
  split; unfold numSlots in *; cbn; rewrite ?length_insert; try done; try lia.
  - case_bool_decide; lia.
  - rewrite list_lookup_insert_ne by lia. done.
  - intros k. rewrite Hb', (holds_insert w.1 _ _ _ _ _ _ slot _ _ ltac:(lia) Hx), Hb. case_decide; [|naive_solver].
    split; [naive_solver|by intros []].
Qed.

(** Growing keeps what the slots hold and at least doubles the table up to its
    maximum; it fails without change when memory is short. *)
Definition grown (n : Z) : Z := Z.min MAX_SLOT_COUNT (n * 2).
Definition copied (st : PagefileState) : PagefileState :=
  Pagefile (file_handle st) (slot_table st ++ replicate (Z.to_nat (grown (numSlots st) - numSlots st)) free)
    (words st ++ replicate (Z.to_nat ((grown (numSlots st) + 63) / 64) - length (words st)) 0) 1
    (slots_used st) (slots_peak st) (total_allocs st) (total_frees st).

Lemma copied_holds st s : holds (copied st) s = holds st s.
Proof.
  unfold holds, copied. cbn. case_bool_decide; [|done]. destruct (slot_table st !! Z.to_nat s) as [x|] eqn:Hx.
  - by rewrite (lookup_app_l_Some _ _ _ _ Hx).
  - rewrite lookup_app_r by (by apply lookup_ge_None). destruct (replicate _ _ !! _) as [x|] eqn:Hr; [|done].
    apply lookup_replicate in Hr as [-> _]. done.
Qed.

Lemma copied_slots st : numSlots st < MAX_SLOT_COUNT -> numSlots (copied st) = grown (numSlots st).
Proof.
  intros H. unfold numSlots at 1, copied. cbn. rewrite length_app, length_replicate. fold (numSlots st).
  unfold grown, numSlots in *. lia.
Qed.

Lemma copied_inv st : pf_inv st -> numSlots st < MAX_SLOT_COUNT -> pf_inv (copied st).
Proof.
  intros Hi Hlt. pose proof (copied_slots st Hlt) as Hcs. pose proof Hi as [Hn Hw Hok Hh Hz Hb Hu Hp Ht Hfr].
  assert (Hg : numSlots st < grown (numSlots st) ≤ MAX_SLOT_COUNT) by (unfold grown, MAX_SLOT_COUNT in *; lia).
  assert ((numSlots st + 63) / 64 ≤ (grown (numSlots st) + 63) / 64) by (apply Z.div_le_mono; lia).
  split; rewrite ?Hcs; try done; try lia.
  - cbn. rewrite length_app, length_replicate. lia.
  - cbn. apply Forall_app. split; [done|]. apply Forall_replicate. done.
  - cbn. lia.
  - cbn. by apply lookup_app_l_Some.
  - intros s. rewrite copied_holds, <- Hb. apply has_app_zeros.
  - cbn. by rewrite count_app_free.
Qed.

Lemma wp_env F {A} (f : E -> A * E) (Q : A -> PagefileState * E -> Prop) st e :
  (forall a e', Q a (st, e')) -> wpf F (in_env f) Q (st, e).
Proof. intros H. unfold wpf, in_env. cbn. destruct (f e). apply H. Qed.

Lemma grow_spec F (w : PagefileState * E) : pf_inv w.1 ->
  wpf F grow (fun r w' =>
    match r with
    | Some true => numSlots w.1 < MAX_SLOT_COUNT /\ w'.1 = copied w.1
    | Some false => numSlots w.1 = MAX_SLOT_COUNT /\ w' = w
    | None => numSlots w.1 < MAX_SLOT_COUNT /\ w'.1 = w.1
    end) w.
Proof.
  intros Hi. pose proof Hi as [Hn Hw _ _ _ _ _ _ _ _]. destruct w as [st e]. cbn [fst snd] in *.
  assert (HM : MAX_SLOT_COUNT = 8192) by done.
  unfold grow, state. wp_line. apply wpf_if; intros Hm; bd; cbn [fst] in *; [apply wpf_ret; split; [lia|done]|].
  wp_line. apply wp_u32; [lia|].
  replace (if bool_decide (MAX_SLOT_COUNT < numSlots st * 2) then MAX_SLOT_COUNT else numSlots st * 2)
    with (grown (numSlots st)) by (unfold grown; case_bool_decide; lia).
  assert (Hg : numSlots st < grown (numSlots st) ≤ 8192) by (unfold grown; lia).
  wp_line. apply wp_env. intros ok e1. destruct ok; [|apply wpf_ret; cbn; split; [lia|done]].
  unfold Bitmap_init. wp_line. apply wp_u32; [lia|]. wp_line. apply wp_env. intros ok e2. wp_line.
  destruct ok; [|wp_line; apply wp_env; intros [] e3; wp_line; cbn; split; [lia|done]].
  unfold Bitmap_deinit, update. wp_line. apply wp_env. intros [] e3. wp_line. apply wp_env. intros [] e4.
  wp_line. cbn [fst snd]. split; [lia|]. unfold copied.
  assert ((numSlots st + 63) / 64 ≤ (grown (numSlots st) + 63) / 64) by (apply Z.div_le_mono; lia).
  rewrite length_replicate, Nat.min_l, take_ge, drop_replicate by lia. done.
Qed.

(** Allocation, on every path. *)
Lemma allocSlot_spec F f p v (w : PagefileState * E) :
  pf_inv w.1 -> total_allocs w.1 < 2 ^ 64 - 1 ->
  wpf F (allocSlot f p v) (fun r w' =>
    pf_inv w'.1 /\ file_handle w'.1 = file_handle w.1 /\ numSlots w.1 ≤ numSlots w'.1 /\
    total_allocs w'.1 ≤ total_allocs w.1 + 1 /\
    match r with
    | Some s => f ≠ 0 /\ 0 < s < numSlots w'.1 /\ holds w.1 s = None /\
        forall k, holds w'.1 k = if decide (k = s) then Some (f, p, v) else holds w.1 k
    | None => w'.1 = w.1 /\ (f = 0 \/ forall s, 0 < s < numSlots w.1 -> is_Some (holds w.1 s))
    end) w.
Proof.
  intros Hi Ha. unfold allocSlot, FrameRef_from. case_bool_decide as Hf; [apply wpf_ret; split_and!; auto; lia|].
  wp_line. eapply wpf_mono; [by apply find_spec|]. intros [s|] w1 [-> Hs].
  - destruct Hs as [Hs Hn]. wp_line. eapply wpf_mono; [by apply transition_spec|].
    intros [] w2 (Hi2 & _ & Hn2 & Hh2 & Ht2 & Hk). wp_line. rewrite Hn2. split_and!; try done; lia.
  - wp_line. eapply wpf_mono; [by apply grow_spec|]. intros [[]|] w1.
    + intros [Hlt E1]. pose proof (copied_inv w.1 Hi Hlt) as Hi1. rewrite <- E1 in Hi1.
      wp_line. eapply wpf_mono; [by apply find_spec|]. intros [s|] w2 [-> Hs1].
      * destruct Hs1 as [Hs1 Hn1]. wp_line. eapply wpf_mono; [apply transition_spec; try done; by rewrite E1|].
        intros [] w2 (Hi2 & _ & Hn2 & Hh2 & Ht2 & Hk). wp_line. rewrite Hn2, Hh2. split; [done|].
        pose proof (pfi_slots _ Hi).
        assert (numSlots w.1 ≤ numSlots w1.1) by (rewrite E1, copied_slots by done; unfold grown; lia).
        assert (total_allocs w2.1 ≤ total_allocs w.1 + 1) by (rewrite Ht2, E1; done).
        rewrite E1 in Hn1. rewrite copied_holds in Hn1. split_and!; try done; try lia; [by rewrite E1|].
        intros k. by rewrite Hk, E1, copied_holds.
      * exfalso. pose proof Hi as [? _ _ _ _ _ _ _ _ _].
        assert (is_Some (holds w1.1 (numSlots w.1))) as HS.
        { apply Hs1. rewrite E1, copied_slots by done. unfold grown. lia. }
        rewrite E1, copied_holds in HS. apply holds_range in HS. lia.
    + intros [_ ->]. wp_line. split_and!; auto; lia.
    + intros [_ E1]. wp_line. rewrite E1. split_and!; auto; lia.
Qed.

Lemma isValidSlot_spec F s (w : PagefileState * E) : pf_inv w.1 -> 0 ≤ s ->
  wpf F (isValidSlot s) (fun b w' => w' = w /\ b = bool_decide (is_Some (holds w.1 s))) w.
Proof.
  intros Hi Hs. pose proof Hi as [Hn Hw Hok Hh Hz Hb Hu Hp Ht Hfr]. unfold isValidSlot, state. wp_line.
  apply wpf_if; intros Ho.
  - apply wpf_ret. split; [done|]. symmetry. apply bool_decide_eq_false. intros Hr. pose proof (holds_range _ _ Hr).
    apply orb_true_iff in Ho as [Ho|Ho]; bd; [|lia]. unfold INVALID_SLOT in Ho. subst s.
    destruct Hr as [x Hx]. apply holds_Some in Hx as (? & ? & ? & _ & Hx). change (Z.to_nat 0) with 0%nat in Hx. congruence.
  - bd. unfold INVALID_SLOT in *. wp_line. apply wp_isSet; [lia|]. wp_line.
    destruct (lookup_lt_is_Some_2 (slot_table w.1) (Z.to_nat s)) as [x Hx]; [unfold numSlots in *; lia|].
    eapply wpf_access; [exact Hx|]. assert (E1 : bool_decide (has (words w.1) s) = isAllocated x).
    { apply eq_true_iff_eq. rewrite bool_decide_eq_true, Hb. unfold holds. rewrite bool_decide_true by lia. rewrite Hx.
      destruct x; simpl; split; intros HH; done. }
    wp_line. apply wpf_assert; [by rewrite E1, bool_decide_true|]. wp_line. split; [done|].
    apply bool_decide_ext, Hb.
Qed.

(** ** The abstract pagefile: a map from slots to what they hold *)

Inductive pf_call := AllocSlot (frame pid vaddr : Z) | FreeSlot (slot : Z) | IsValidSlot (slot : Z).
Abbreviation contents := (gmap Z (Z * Z * Z)).

(** The results that a call may give.  An allocation takes any slot that is not
    in use; it may fail only for a null frame or when the slots that there are
    from the start are all in use. *)
Inductive pf_spec : contents -> pf_call -> Z -> contents -> Prop :=
| spec_alloc m f p v s : f ≠ 0 -> 0 < s -> m !! s = None -> pf_spec m (AllocSlot f p v) s (<[s := (f, p, v)]> m)
| spec_full m f p v : f = 0 \/ (forall s, 0 < s < INITIAL_SLOT_COUNT -> is_Some (m !! s)) ->
    pf_spec m (AllocSlot f p v) INVALID_SLOT m
| spec_free m s r : pf_spec m (FreeSlot s) r (delete s m)
| spec_valid m s : pf_spec m (IsValidSlot s) (if bool_decide (is_Some (m !! s)) then 1 else 0) m.

Definition exec (c : pf_call) : M (globals E) Z :=
  match c with
  | AllocSlot f p v => pagefile_alloc_slot f p v
  | FreeSlot s => pagefile_free_slot s;; mret 0
  | IsValidSlot s => b ← pagefile_is_valid_slot s; mret (if (b : bool) then 1 else 0)
  end.
Fixpoint execs (l : list pf_call) : M (globals E) (list Z) :=
  match l with [] => mret [] | c :: l => r ← exec c; rs ← execs l; mret (r :: rs) end.
Inductive pf_specs : contents -> list pf_call -> list Z -> contents -> Prop :=
| specs_nil m : pf_specs m [] [] m
| specs_cons m c r m1 l rs m2 : pf_spec m c r m1 -> pf_specs m1 l rs m2 -> pf_specs m (c :: l) (r :: rs) m2.

(** The state represents the map, with [budget] allocations to go before a
    counter overflows. *)
Definition represents (fh : Z) (g : globals E) (m : contents) (budget : Z) : Prop :=
  init_pending g = false /\ exists st, global_state g = Some st /\ file_handle st = fh /\ pf_inv st /\ INITIAL_SLOT_COUNT ≤ numSlots st /\
    total_allocs st + budget < 2 ^ 64 /\ forall s, holds st s = m !! s.
(** Slots are unsigned. *)
Definition call_ok (c : pf_call) : Prop :=
  match c with AllocSlot _ _ _ => True | FreeSlot s | IsValidSlot s => 0 ≤ s end.

Lemma holds_zero st : pf_inv st -> holds st 0 = None.
Proof. intros [_ _ _ _ Hz _ _ _ _ _]. unfold holds. rewrite bool_decide_true by done. change (Z.to_nat 0) with 0%nat. by rewrite Hz. Qed.

Lemma alloc_represents F fh g m k f p v : represents fh g m (k + 1) -> 0 ≤ k ->
  wpf F (pagefile_alloc_slot f p v) (fun r g' => exists m', pf_spec m (AllocSlot f p v) r m' /\ represents fh g' m' k) g.
Proof.
  intros (Hpe & st & E1 & Hfh & Hi & Hn & Ht & Hm) Hk. unfold pagefile_alloc_slot. wp_line. rewrite E1. wp_line. unfold on_state.
  apply wpf_zoom. eapply wpf_mono; [apply allocSlot_spec; cbn; [done|lia]|]. cbn.
  intros r [st' e'] (Hi' & Hfh' & Hn' & Ht' & Hr). cbn in *. wp_line. destruct r as [s|]; cbn.
  - destruct Hr as (Hf & Hs & Hf' & Hk'). exists (<[s := (f, p, v)]> m). split; [apply spec_alloc; try done; [lia|by rewrite <- Hm]|].
    split; [done|]. exists st'. split_and!; try done; try lia; try congruence. intros x. rewrite Hk'. case_decide as Ex; [subst x; by rewrite lookup_insert_eq|].
    by rewrite lookup_insert_ne.
  - destruct Hr as (-> & Hr). exists m. split.
    + apply spec_full. destruct Hr as [Hf|Hr]; [by left|right]. intros s Hs. rewrite <- Hm. apply Hr. lia.
    + split; [done|]. exists st. split_and!; try done. lia.
Qed.

Lemma free_represents F fh g m k s : represents fh g m k -> 0 ≤ s -> 0 ≤ k ->
  wpf F (pagefile_free_slot s) (fun _ g' => represents fh g' (delete s m) k) g.
Proof.
  intros (Hpe & st & E1 & Hfh & Hi & Hn & Ht & Hm) Hs Hk. unfold pagefile_free_slot. wp_line. rewrite E1.
  assert (Hsame : holds st s = None -> represents fh g (delete s m) k).
  { intros Hx. split; [done|]. exists st. split_and!; try done. intros x. rewrite Hm in *. destruct (decide (x = s)) as [->|].
    - by rewrite lookup_delete_eq.
    - by rewrite lookup_delete_ne. }
  apply wpf_if; intros Ho.
  - apply wpf_ret, Hsame. apply orb_true_iff in Ho as [Ho|Ho]; bd; [subst s; by apply holds_zero|].
    apply eq_None_not_Some. intros Hr%holds_range. lia.
  - bd. unfold INVALID_SLOT in *. unfold on_state. wp_line. apply wp_isSet; [lia|]. cbn.
    apply wpf_if; intros Hb; bd; destruct Hi as [? ? ? ? ? Hbits ? ? ? ?] eqn:E2; clear E2; rewrite Hbits in Hb.
    + destruct Hb as [x Hx]. apply wpf_zoom. cbn.
      eapply wpf_mono; [apply (freeSlot_spec _ s x); cbn; [done|done|lia]|].
      intros [] [st' e'] (Hi' & _ & Hn' & Hfh' & Ht' & Hk'). cbn in *. split; [done|]. exists st'. split_and!; try done; try lia; try congruence.
      intros y. rewrite Hk', Hm. case_decide as Ey; [subst y; by rewrite lookup_delete_eq|by rewrite lookup_delete_ne].
    + apply wpf_ret. apply eq_None_not_Some in Hb. destruct (Hsame Hb) as (? & st' & ? & Hrest). rewrite E1 in *. simplify_eq.
      split; [done|]. by exists st'.
Qed.

Lemma valid_represents F fh g m k s : represents fh g m k -> 0 ≤ s ->
  wpf F (pagefile_is_valid_slot s) (fun b g' => represents fh g' m k /\ b = bool_decide (is_Some (m !! s))) g.
Proof.
  intros (Hpe & st & E1 & Hfh & Hi & Hn & Ht & Hm) Hs. unfold pagefile_is_valid_slot. wp_line. rewrite E1. unfold on_state.
  apply wpf_zoom. eapply wpf_mono; [by apply isValidSlot_spec|]. intros b [st' e'] [Ew ->]. cbn in *. simplify_eq.
  split; [by split; [done|]; exists st|]. by rewrite Hm.
Qed.

Lemma exec_represents F fh g m k c : represents fh g m (k + 1) -> 0 ≤ k -> call_ok c ->
  wpf F (exec c) (fun r g' => exists m', pf_spec m c r m' /\ represents fh g' m' k) g.
Proof.
  intros HR Hk Hc. assert (HR' : represents fh g m k).
  { destruct HR as (? & st & ? & ? & ? & ? & ? & ?). split; [done|]. exists st. split_and!; try done. lia. }
  destruct c as [f p v|s|s]; cbn [exec].
  - by apply alloc_represents.
  - wp_line. eapply wpf_mono; [by apply free_represents|]. intros [] g' H. wp_line. exists (delete s m). split; [constructor|done].
  - wp_line. eapply wpf_mono; [by apply valid_represents|]. intros b g' [H ->]. wp_line. exists m. split; [constructor|done].
Qed.

Lemma execs_represents F fh l g m k : represents fh g m (k + Z.of_nat (length l)) -> 0 ≤ k -> Forall call_ok l ->
  wpf F (execs l) (fun rs g' => exists m', pf_specs m l rs m' /\ represents fh g' m' k) g.
Proof.
  revert g m. induction l as [|c l IH]; intros g m HR Hk Hl; cbn [execs].
  - wp_line. exists m. split; [constructor|]. cbn in HR. by rewrite Z.add_0_r in HR.
  - apply Forall_cons in Hl as [Hc Hl]. wp_line.
    eapply wpf_mono; [apply (exec_represents _ fh _ m (k + Z.of_nat (length l))); [|lia|done]|].
    { cbn in HR. by replace (k + Z.of_nat (length l) + 1) with (k + Z.of_nat (S (length l))) by lia. }
    intros r g1 (m1 & Hs & HR1). wp_line. eapply wpf_mono; [by apply IH|]. intros rs g2 (m2 & Hs2 & HR2). wp_line.
    exists m2. split; [by econstructor|done].
Qed.

Lemma init_represents fh e st e' k : PagefileState_init fh INITIAL_SLOT_COUNT e = (Some st, e') -> 0 ≤ k < 2 ^ 64 ->
  forall g, global_state g = Some st -> init_pending g = false -> represents fh g ∅ k.
Proof.
  unfold PagefileState_init. destruct (alloc_array _ e) as [[] e1]; [|done]. destruct (alloc_array _ e1) as [[] e2]; [|done].
  intros [= <- <-] Hk g Hg Hp.
  assert (Hx : forall s, holds (Pagefile fh (replicate (Z.to_nat INITIAL_SLOT_COUNT) free)
    (replicate (Z.to_nat ((INITIAL_SLOT_COUNT + 63) / 64)) 0) 1 0 0 0 0) s = None).
  { intros s. unfold holds. cbn [slot_table]. case_bool_decide; [|done]. destruct (replicate _ _ !! _) as [x|] eqn:Hr; [|done].
    apply lookup_replicate in Hr as [-> _]. done. }
  split; [done|]. eexists. split; [exact Hg|]. split; [done|].
  split; [|split; [done|split; [cbn; lia|intros s; by rewrite Hx, lookup_empty]]].
  split; cbn; try done.
  - by apply (Forall_replicate is_w64 4).
  - intros s. rewrite Hx. split; [|by intros []]. intros Hh.
    apply (has_app_zeros [] 4 s) in Hh as (w & Hw & _). unfold word_at in Hw. by case_bool_decide.
Qed.

Lemma exec_none F c g : global_state g = None -> wpf F (exec c) (fun r g' => r = 0 /\ g' = g) g.
Proof.
  intros Hg. destruct c; cbn [exec]; unfold pagefile_alloc_slot, pagefile_free_slot, pagefile_is_valid_slot; wp_line; rewrite Hg; by wp_line.
Qed.
Lemma execs_none F l g : global_state g = None -> wpf F (execs l) (fun rs g' => rs = map (fun _ => 0) l /\ g' = g) g.
Proof.
  intros Hg. induction l as [|c l IH]; cbn [execs]; [by wp_line|]. wp_line.
  eapply wpf_mono; [by apply exec_none|]. intros r g' [-> ->]. wp_line. eapply wpf_mono; [exact IH|].
  intros rs g' [-> ->]. by wp_line.
Qed.

(** C21: After the file was opened, no sequence of calls faults, and their results
    are those of the abstract pagefile: a slot is handed out only when it holds
    nothing, holds what was asked for until it is freed, and an allocation fails
    only when all the initial slots are in use.  Without memory for the tables,
    every call reports that there is no pagefile. *)
Theorem pagefile_refines fh l (g : globals E) :
  global_state g = None -> Z.of_nat (length l) < 2 ^ 64 -> Forall call_ok l ->
  wp (pagefileOpenCallback 0 (Some fh);; execs l) (fun rs g' =>
    init_pending g' = false /\
    ((exists m', pf_specs ∅ l rs m' /\ represents fh g' m' 0) \/
     (pagefile_init_failed g' = true /\ pagefile_is_ready g' = false /\ rs = map (fun _ => 0) l))) g.
Proof.
  intros Hg Hl Hc. unfold pagefileOpenCallback. wp_line. rewrite bool_decide_false by lia. wp_line.
  unfold call, wpf. cbn. destruct (PagefileState_init _ _ _) as [[st|] e1] eqn:HI; cbn.
  - eapply (wpf_mono _ (execs l)); [apply (execs_represents _ fh _ _ ∅ 0); [|done|done]|].
    + by eapply init_represents; [exact HI|lia|..].
    + intros rs g' (m' & Hs & HR). split; [apply HR|]. left. eauto.
  - eapply (wpf_mono _ (execs l)); [by apply execs_none|]. intros rs g' [-> ->]. split; [done|]. right.
    unfold pagefile_is_ready. cbn. rewrite Hg. done.
Qed.
End proofs.

(** ** Pages written are the pages read *)

(** What the file promises: its bytes, which a write changes in its range only,
    completely if it reports all the bytes written, and which a read returns. *)
Class FileLaws (E : Type) `{!PagefileEnv E} := {
  content : E -> Z -> Z -> Z;
  content_alloc n e f o : content (alloc_array n e).2 f o = content e f o;
  content_free n e f o : content (free_array n e) f o = content e f o;
  content_pread f n off e f' o : content (fh_pread f n off e).2 f' o = content e f' o;
  content_pwrite f buf off e f' o : f' ≠ f \/ o < off \/ off + Z.of_nat (length buf) ≤ o ->
    content (fh_pwrite f buf off e).2 f' o = content e f' o;
  written f buf off e (i : nat) b : (fh_pwrite f buf off e).1 = inr (Z.of_nat (length buf)) -> buf !! i = Some b ->
    content (fh_pwrite f buf off e).2 f (off + Z.of_nat i) = b;
  read f n off e bs (i : nat) b : (fh_pread f n off e).1 = inr bs -> bs !! i = Some b ->
    b = content e f (off + Z.of_nat i);
}.

Section io.
Context {E : Type} `{!PagefileEnv E} `{!FileLaws E}.
Abbreviation PM := (M (PagefileState * E)).

(** Operations of the state do not write to the file. *)
Definition calm {A} (m : PM A) : Prop :=
  forall w, wpf (fun _ => True) m (fun _ w' => forall f o, content w'.2 f o = content w.2 f o) w.
Lemma calm_ret {A} (a : A) : calm (mret a).
Proof. intros w. by wp_line. Qed.
Lemma calm_bind {A B} (m : PM A) (k : A -> PM B) : calm m -> (forall a, calm (k a)) -> calm (m ≫= k).
Proof.
  intros Hm Hk w. wp_line. eapply wpf_mono; [apply Hm|]. intros a w1 H1. eapply wpf_mono; [apply Hk|].
  intros b w2 H2 f o. by rewrite H2, H1.
Qed.
Lemma calm_state : calm state.
Proof. intros w. unfold state. by wp_line. Qed.
Lemma calm_update f : calm (update f).
Proof. intros w. unfold update. by wp_line. Qed.
Lemma calm_assert b : calm (cassert b).
Proof. intros w. by destruct b. Qed.
Lemma calm_access {A} (o : option A) : calm (access o).
Proof. intros w. by destruct o. Qed.
Lemma calm_if {A} (b : bool) (m1 m2 : PM A) : calm m1 -> calm m2 -> calm (if b then m1 else m2).
Proof. by destruct b. Qed.
Lemma calm_option {A B} (x : option A) (m1 : A -> PM B) m2 : (forall a, calm (m1 a)) -> calm m2 ->
  calm (match x with Some a => m1 a | None => m2 end).
Proof. by destruct x. Qed.
Lemma calm_alloc n : calm (in_env (alloc_array n)).
Proof. intros [st e]. unfold wpf, in_env. cbn. pose proof (content_alloc n e) as H. destruct (alloc_array n e). exact H. Qed.
Lemma calm_free n : calm (in_env (fun e => (tt, free_array n e))).
Proof. intros [st e]. unfold wpf, in_env. cbn. apply content_free. Qed.
Ltac calm := cbv zeta; repeat first [apply calm_ret | apply calm_state | apply calm_update | apply calm_assert
  | apply calm_access | apply calm_alloc | apply calm_free | apply calm_bind; [|intros ?]
  | apply calm_option; [intros ?|] | apply calm_if | assumption].

Lemma calm_isSet ws s : calm (isSet ws s).
Proof. unfold isSet. calm. Qed.
Lemma calm_find_loop r n s : calm (find_loop r n s).
Proof. revert s. induction r as [|r IH]; intros s; cbn [find_loop]; unfold isSet, u32; calm. apply IH. Qed.
Lemma calm_find : calm find.
Proof. unfold find. calm. apply calm_find_loop. Qed.
Lemma calm_transition s f p v : calm (transitionToAllocated s f p v).
Proof. unfold transitionToAllocated, isSet, set, usize, u32. calm. Qed.
Lemma calm_grow : calm grow.
Proof. unfold grow, Bitmap_init, Bitmap_deinit, u32. calm. Qed.
Lemma calm_allocSlot f p v : calm (allocSlot f p v).
Proof.
  unfold allocSlot. calm; first [apply calm_find_loop|apply calm_transition|apply calm_grow].
Qed.
Lemma calm_freeSlot s : calm (freeSlot s).
Proof. unfold freeSlot, isSet, clear, usize. calm. Qed.
Lemma calm_isValidSlot s : calm (isValidSlot s).
Proof. unfold isValidSlot, isSet. calm. Qed.

Definition same_file (g g' : globals E) : Prop := forall f o, content (genv g') f o = content (genv g) f o.

Lemma calm_on_state {A} st (m : PM A) g : calm m -> wpf (fun _ => True) (on_state st m) (fun _ => same_file g) g.
Proof. intros Hm. unfold on_state. apply wpf_zoom. eapply wpf_mono; [apply Hm|]. done. Qed.

Lemma exec_same_file c g : wpf (fun _ => True) (exec c) (fun _ => same_file g) g.
Proof.
  destruct c as [f p v|s|s]; cbn [exec]; unfold pagefile_alloc_slot, pagefile_free_slot, pagefile_is_valid_slot; wp_line.
  - destruct (global_state g); [|by wp_line]. wp_line. eapply wpf_mono; [apply calm_on_state, calm_allocSlot|]. intros a g' H. by wp_line.
  - destruct (global_state g); [|by wp_line]. apply wpf_if; intros _; [by wp_line|]. wp_line.
    eapply wpf_mono; [apply calm_on_state, calm_isSet|]. intros b g1 H1. cbv beta in H1. destruct b; [|by wp_line].
    eapply wpf_mono; [apply calm_on_state, calm_freeSlot|]. intros [] g2 H2. wp_line. intros f o. by rewrite H2, H1.
  - destruct (global_state g); [|by wp_line]. eapply wpf_mono; [apply calm_on_state, calm_isValidSlot|].
    intros a g' H. by wp_line.
Qed.

(** Calls and writes of whole pages. *)
Inductive pf_io := Call (c : pf_call) | Write (slot : Z) (buf : list Z).
Definition exec_io (i : pf_io) : M (globals E) Z :=
  match i with Call c => exec c | Write s buf => pagefile_write_slot s buf PAGE_SIZE end.
Fixpoint execs_io (l : list pf_io) : M (globals E) unit :=
  match l with [] => mret tt | i :: l => exec_io i;; execs_io l end.
Definition io_ok (i : pf_io) : Prop :=
  match i with Call c => call_ok c | Write s buf => 0 ≤ s /\ Z.of_nat (length buf) = PAGE_SIZE end.
Definition spares (s : Z) (i : pf_io) : Prop := match i with Call _ => True | Write s' _ => s' ≠ s end.

(** The page of slot [s] in the file [fh]. *)
Definition stored (fh s : Z) (buf : list Z) (g : globals E) : Prop :=
  forall (i : nat) b, buf !! i = Some b -> content (genv g) fh (s * PAGE_SIZE + Z.of_nat i) = b.

Lemma isValid_represents F st fh (g : globals E) m k s : represents fh g m k -> global_state g = Some st -> 0 ≤ s ->
  wpf F (on_state st (isValidSlot s)) (fun b g' => g' = g) g.
Proof.
  intros (_ & st' & E1 & _ & Hi & _) Hg Hs. rewrite Hg in E1. injection E1 as <-. unfold on_state. apply wpf_zoom.
  eapply wpf_mono; [by apply isValidSlot_spec|]. intros b w [-> _]. destruct g; cbn in *; by subst.
Qed.

Lemma write_represents F fh (g : globals E) m k s buf :
  represents fh g m k -> 0 ≤ s -> Z.of_nat (length buf) = PAGE_SIZE ->
  wpf F (pagefile_write_slot s buf PAGE_SIZE) (fun rc g' => represents fh g' m k /\
    (rc = 0 -> stored fh s buf g') /\
    forall s' buf', s' ≠ s -> Z.of_nat (length buf') = PAGE_SIZE -> stored fh s' buf' g -> stored fh s' buf' g') g.
Proof.
  intros HR Hs Hb. pose proof HR as (_ & st & E1 & Hfh & _). unfold pagefile_write_slot. wp_line. rewrite E1.
  rewrite bool_decide_false by (by intros []). wp_line. eapply wpf_mono; [by eapply isValid_represents|]. intros v g' ->.
  destruct v; cbn [negb]; [|wp_line; by split_and!]. wp_line. rewrite take_ge by (unfold PAGE_SIZE in *; lia).
  assert (Hc : forall e', represents fh (set_genv e' g) m k) by (intros; exact HR).
  pose proof (content_pwrite (file_handle st) buf (s * PAGE_SIZE) (genv g)) as Hout.
  pose proof (written (file_handle st) buf (s * PAGE_SIZE) (genv g)) as Hin. unfold call, wpf.
  destruct (fh_pwrite _ _ _ _) as [r e']. cbn in Hout, Hin.
  assert (Hkeep : forall s' buf', s' ≠ s -> Z.of_nat (length buf') = PAGE_SIZE -> stored fh s' buf' g -> stored fh s' buf' (set_genv e' g)).
  { intros s' buf' Hne Hl Hst i b Hi. cbn. rewrite Hout; [by apply Hst|]. right.
    apply lookup_lt_Some in Hi. rewrite Hb. unfold PAGE_SIZE in *. nia. }
  destruct r as [err|n].
  - cbn. split_and!; [done| |done]. intros H. by destruct err.
  - cbn. split_and!; [done| |done]. case_bool_decide as Hn; [done|]. intros _ i b Hi. cbn.
    rewrite <- Hfh. apply Hin; [|done]. by rewrite Hn, <- Hb.
Qed.

Lemma io_represents F fh l (g : globals E) m k s buf (C : Prop) :
  represents fh g m (k + Z.of_nat (length l)) -> 0 ≤ k -> Forall io_ok l -> Forall (spares s) l ->
  Z.of_nat (length buf) = PAGE_SIZE -> (C -> stored fh s buf g) ->
  wpf F (execs_io l) (fun _ g' => (C -> stored fh s buf g') /\ exists m', represents fh g' m' k) g.
Proof.
  revert g m. induction l as [|i l IH]; intros g m HR Hk Hl Hs Hb Hst; cbn [execs_io].
  - wp_line. split; [done|]. exists m. cbn in HR. by rewrite Z.add_0_r in HR.
  - apply Forall_cons in Hl as [Hi Hl]. apply Forall_cons in Hs as [Hsi Hs].
    replace (k + Z.of_nat (length (i :: l))) with (k + Z.of_nat (length l) + 1) in HR by (cbn; lia). wp_line.
    destruct i as [c|s' buf']; cbn [exec_io].
    + eapply wpf_mono; [apply wpf_and; [apply (exec_represents _ fh _ m (k + Z.of_nat (length l))); [done|lia|done]|apply exec_same_file]|].
      intros r g1 [(m1 & _ & HR1) Hsame]. apply (IH g1 m1); try done. intros HC j b Hj. rewrite Hsame. by apply Hst.
    + destruct Hi as [Hs0 Hl0]. eapply wpf_mono; [by apply write_represents|]. intros r g1 (HR1 & _ & Hkeep).
      apply (IH g1 m); try done; [|by intros HC; apply Hkeep; auto].
      destruct HR1 as (? & st & ? & ? & ? & ? & ? & ?). split; [done|]. exists st. split_and!; try done. lia.
Qed.

Lemma read_represents F fh (g : globals E) m k s buf (C : Prop) : represents fh g m k -> 0 ≤ s ->
  Z.of_nat (length buf) = PAGE_SIZE -> (C -> stored fh s buf g) ->
  wpf F (pagefile_read_slot s PAGE_SIZE) (fun r g' => C -> r.1 = 0 -> r.2 = buf) g.
Proof.
  intros HR Hs Hb Hst. pose proof HR as (_ & st & E1 & Hfh & _). unfold pagefile_read_slot. wp_line. rewrite E1.
  rewrite bool_decide_false by (by intros []). wp_line. eapply wpf_mono; [by eapply isValid_represents|]. intros v g' ->.
  destruct v; cbn [negb]; [|by wp_line]. wp_line.
  pose proof (read (file_handle st) PAGE_SIZE (s * PAGE_SIZE) (genv g)) as Hr. unfold call, wpf.
  destruct (fh_pread _ _ _ _) as [r e']. cbn in Hr. destruct r as [err|bs]; [done|]. cbn.
  case_bool_decide as Hn; [done|]. intros HC _. assert (length bs = length buf) by lia. apply list_eq_same_length with (length buf); [done|done|].
  intros i x y _ Hx Hy. rewrite (Hr bs i x eq_refl Hx). rewrite Hfh. by apply Hst.
Qed.

(** The page written to a slot is the page read from it, whatever is
    allocated, freed and written to other slots in between; if the slot is no
    longer valid or the transfer fails, the read reports it.  None of it faults. *)
Theorem pagefile_write_read fh (g : globals E) m k s buf l :
  represents fh g m (k + Z.of_nat (length l)) -> 0 ≤ k -> 0 ≤ s -> Z.of_nat (length buf) = PAGE_SIZE ->
  Forall io_ok l -> Forall (spares s) l ->
  wp (rc ← pagefile_write_slot s buf PAGE_SIZE; execs_io l;; r ← pagefile_read_slot s PAGE_SIZE; mret (rc, r))
    (fun '(rc, (status, bytes)) _ => rc = 0 -> status = 0 -> bytes = buf) g.
Proof.
  intros HR Hk Hs Hb Hl Hsp. wp_line. eapply wpf_mono; [by apply write_represents|]. intros rc g1 (HR1 & Hw & _).
  wp_line. eapply wpf_mono; [apply (io_represents _ fh l g1 m k s buf (rc = 0)); auto|]. intros [] g2 (Hst & m2 & HR2). wp_line.
  eapply wpf_mono; [by eapply (read_represents _ fh g2 m2 k s buf (rc = 0))|]. intros [st bs] g3 H. wp_line. exact H.
Qed.
End io.

(** ** A file in memory *)

Definition disk : Type := bool * (Z -> Z -> Z).
Definition put_bytes (f off : Z) (buf : list Z) (d : Z -> Z -> Z) (f' o : Z) : Z :=
  if bool_decide (f' = f) && bool_decide (off ≤ o < off + Z.of_nat (length buf))
  then default 0 (buf !! Z.to_nat (o - off)) else d f' o.
(** The flag says whether the network is up. *)
#[export] Instance disk_env : PagefileEnv disk := {
  alloc_array n e := (true, e);
  free_array n e := e;
  get_nfs_context e := e.1;
  nfs_open2_async mode e := (0, e);
  fh_close f e := e;
  fh_pwrite f buf off e := (inr (Z.of_nat (length buf)), (e.1, put_bytes f off buf e.2));
  fh_pread f n off e := (inr (map (fun i => e.2 f (off + i)) (seqZ 0 n)), e);
}.
#[export] Instance disk_laws : FileLaws disk.
Proof.
  refine {| content e := e.2 |}; try done.
  - intros f buf off e f' o H. cbn. unfold put_bytes. case_bool_decide; [|done]. by rewrite bool_decide_false by lia.
  - intros f buf off e i b _ Hi. cbn. unfold put_bytes. pose proof (lookup_lt_Some _ _ _ Hi).
    rewrite !bool_decide_true by lia. replace (Z.to_nat (off + Z.of_nat i - off)) with i by lia. by rewrite Hi.
  - intros f n off e bs i b [= <-] Hb. apply list_lookup_fmap_Some in Hb as (x & -> & Hx).
    apply lookup_seqZ in Hx as [-> _]. done.
Defined.

Definition disk0 (up : bool) : disk := (up, fun _ _ => 0).
Definition closed (up : bool) : globals disk := Globals None true false (disk0 up).
Definition opened : globals disk :=
  Globals (Some (Pagefile 5 (replicate 256 free) (replicate 4 0) 1 0 0 0 0)) false false (disk0 true).

Lemma pagefile_refines_witness :
  exists m', pf_specs ∅ [AllocSlot 7 0 0; IsValidSlot 1; FreeSlot 1; IsValidSlot 1; AllocSlot 0 0 0] [1; 1; 0; 0; 0] m'.
Proof.
  destruct (wpf_value _ _ _ _ [1; 1; 0; 0; 0]
    (pagefile_refines 5 [AllocSlot 7 0 0; IsValidSlot 1; FreeSlot 1; IsValidSlot 1; AllocSlot 0 0 0] (closed true)
      eq_refl ltac:(done) ltac:(repeat constructor; cbn; lia)) ltac:(vm_compute; reflexivity)) as (g & _ & _ & [H|H]).
  - destruct H as (m' & Hs & _). exact (ex_intro _ m' Hs).
  - destruct H as (_ & _ & H). discriminate H.
Defined.

Lemma opened_represents k : 0 ≤ k < 2 ^ 64 -> represents 5 opened ∅ k.
Proof. intros Hk. by eapply (init_represents 5 (disk0 true)). Qed.
(** The state with slot 1 allocated. *)
Definition one_used : globals disk :=
  Globals (Some (Pagefile 5 (free :: allocated 7 0 0 :: replicate 254 free) [2; 0; 0; 0] 2 1 1 1 0)) false false (disk0 true).
Lemma one_used_represents : exists m, represents 5 one_used m 9.
Proof.
  pose proof (exec_represents (fun _ => False) 5 opened ∅ 9 (AllocSlot 7 0 0) (opened_represents 10 ltac:(lia)) ltac:(lia) I) as H.
  assert (E1 : exec (AllocSlot 7 0 0) opened = Ok (1, one_used)) by (vm_compute; reflexivity).
  unfold wpf in H. rewrite E1 in H. destruct H as (m & _ & H). eauto.
Qed.
Definition page3 : list Z := replicate 4096 3.
Definition between : list pf_io := [Call (AllocSlot 8 0 0); Write 2 (replicate 4096 9); Call (FreeSlot 2)].
Lemma pagefile_write_read_witness :
  exists bs, value_of (run (rc ← pagefile_write_slot 1 page3 PAGE_SIZE; execs_io between;;
    r ← pagefile_read_slot 1 PAGE_SIZE; mret (rc, r)) one_used) = Some (0, (0, bs)) /\ bs = page3.
Proof.
  destruct one_used_represents as [m HR].
  pose proof (pagefile_write_read 5 one_used m 6 1 page3 between HR ltac:(lia) ltac:(lia) eq_refl
    ltac:(repeat constructor; cbn; lia) ltac:(repeat constructor; cbn; lia)) as H.
  exists page3. destruct (wpf_value _ _ _ _ (0, (0, page3)) H ltac:(vm_compute; reflexivity)) as (g' & E1 & Hb).
  split; [unfold run; rewrite E1; reflexivity|exact (Hb eq_refl eq_refl)].
Defined.

(** The table grows when its 255 slots are in use. *)
Lemma pagefile_grows_run :
  value_of (run (rs ← execs (replicate 256 (AllocSlot 7 0 0)); g ← get; mret (last rs, numSlots <$> global_state g)) opened) =
  Some (Some 256, Some 512).
Proof. by vm_compute. Qed.

(** The flag for a failed initialisation is never cleared: after a first attempt
    without the network, a later one that succeeds leaves a pagefile that is both
    ready and failed. *)
Lemma init_failed_sticks :
  value_of (run (pagefile_init;; modify (set_genv (disk0 true));; pagefile_init;; pagefileOpenCallback 0 (Some 5);;
    g ← get; mret (pagefile_is_ready g, pagefile_init_failed g)) (Globals None false false (disk0 false))) =
  Some (true, true).
Proof. by vm_compute. Qed.
