(* ===== verification/RbTree.v ===== *)
(** * Red-black trees

    Models [librbtree/src/rbtree.zig]: intrusive red-black trees with parent
    pointers and one sentinel, [nil], that all trees share.  A node is its
    address; the memory maps addresses to nodes, and the key of a node, which its
    owner keeps, is a function of its address.  Loops over the tree run for at
    most as many rounds as there are nodes in memory. *)

From S2P Require Import Prelude.

Inductive color := black | red.
#[export] Instance color_eq_dec : EqDecision color.
Proof. solve_decision. Defined.

Record RbNode := Rb { left : Z; right : Z; parent : Z; col : color }.
#[export] Instance RbNode_eq_dec : EqDecision RbNode.
Proof. solve_decision. Defined.

(** The address of the sentinel. *)
Definition nil : Z := 0.

(** A tree, with the memory that its nodes are in. *)
Record rbtree := RbTree { root : Z; len : Z; mem : gmap Z RbNode; nil_init : bool }.

Definition set_left (v : Z) (n : RbNode) : RbNode := Rb v (right n) (parent n) (col n).
Definition set_right (v : Z) (n : RbNode) : RbNode := Rb (left n) v (parent n) (col n).
Definition set_parent (v : Z) (n : RbNode) : RbNode := Rb (left n) (right n) v (col n).
Definition set_col (c : color) (n : RbNode) : RbNode := Rb (left n) (right n) (parent n) c.

(** Read a field of the node at [p], and change the node. *)
Definition rd {A} (f : RbNode -> A) (p : Z) : M rbtree A := t ← get; n ← access (mem t !! p); mret (f n).
Definition wr (f : RbNode -> RbNode) (p : Z) : M rbtree unit :=
  t ← get; n ← access (mem t !! p); put (RbTree (root t) (len t) (<[p := f n]> (mem t)) (nil_init t)).
Definition set_root (r : Z) : M rbtree unit := modify (fun t => RbTree r (len t) (mem t) (nil_init t)).
Definition set_len (f : Z -> Z) : M rbtree unit := modify (fun t => RbTree (root t) (f (len t)) (mem t) (nil_init t)).
Definition bound : M rbtree nat := gets (fun t => S (size (mem t))).

(** ** Nodes *)

Fixpoint minChild_loop (fuel : nat) (x : Z) : M rbtree Z :=
  match fuel with
  | O => throw OutOfFuel
  | S fuel => l ← rd left x; if bool_decide (l = nil) then mret x else minChild_loop fuel l
  end.
Definition minChild (x : Z) : M rbtree Z := n ← bound; minChild_loop n x.
Fixpoint maxChild_loop (fuel : nat) (x : Z) : M rbtree Z :=
  match fuel with
  | O => throw OutOfFuel
  | S fuel => r ← rd right x; if bool_decide (r = nil) then mret x else maxChild_loop fuel r
  end.
Definition maxChild (x : Z) : M rbtree Z := n ← bound; maxChild_loop n x.

Fixpoint succ_loop (fuel : nat) (x y : Z) : M rbtree Z :=
  match fuel with
  | O => throw OutOfFuel
  | S fuel =>
    if bool_decide (y = nil) then mret y
    else
      r ← rd right y;
      if bool_decide (x = r) then y' ← rd parent y; succ_loop fuel y y' else mret y
  end.
Definition succ (x : Z) : M rbtree Z :=
  r ← rd right x;
  if bool_decide (r ≠ nil) then minChild r else y ← rd parent x; n ← bound; succ_loop n x y.
Fixpoint pred_loop (fuel : nat) (x y : Z) : M rbtree Z :=
  match fuel with
  | O => throw OutOfFuel
  | S fuel =>
    if bool_decide (y = nil) then mret y
    else
      l ← rd left y;
      if bool_decide (x = l) then y' ← rd parent y; pred_loop fuel y y' else mret y
  end.
Definition pred (x : Z) : M rbtree Z :=
  l ← rd left x;
  if bool_decide (l ≠ nil) then maxChild l else y ← rd parent x; n ← bound; pred_loop n x y.

Definition nilChecked (x : Z) : option Z := if bool_decide (x ≠ nil) then Some x else None.

(** ** Rotations and transplanting *)

Definition leftRotate (x : Z) : M rbtree unit :=
  y ← rd right x;
  yl ← rd left y;
  wr (set_right yl) x;;
  when (bool_decide (yl ≠ nil)) (wr (set_parent x) yl);;
  xp ← rd parent x;
  wr (set_parent xp) y;;
  (if bool_decide (xp = nil) then set_root y
   else
     pl ← rd left xp;
     if bool_decide (x = pl) then wr (set_left y) xp else wr (set_right y) xp);;
  wr (set_left x) y;;
  wr (set_parent y) x.
Definition rightRotate (x : Z) : M rbtree unit :=
  y ← rd left x;
  yr ← rd right y;
  wr (set_left yr) x;;
  when (bool_decide (yr ≠ nil)) (wr (set_parent x) yr);;
  xp ← rd parent x;
  wr (set_parent xp) y;;
  (if bool_decide (xp = nil) then set_root y
   else
     pr ← rd right xp;
     if bool_decide (x = pr) then wr (set_right y) xp else wr (set_left y) xp);;
  wr (set_right x) y;;
  wr (set_parent y) x.

Definition transplant (u v : Z) : M rbtree unit :=
  up ← rd parent u;
  (if bool_decide (up = nil) then set_root v
   else
     pl ← rd left up;
     if bool_decide (u = pl) then wr (set_left v) up else wr (set_right v) up);;
  up ← rd parent u;
  wr (set_parent up) v.

(** ** Repair after an insertion and after a removal *)

Fixpoint insertFixup_loop (fuel : nat) (z : Z) : M rbtree unit :=
  match fuel with
  | O => throw OutOfFuel
  | S fuel =>
    p ← rd parent z;
    pc ← rd col p;
    if bool_decide (pc = red) then
      g ← rd parent p;
      gl ← rd left g;
      if bool_decide (p = gl) then
        u ← rd right g;
        uc ← rd col u;
        if bool_decide (uc = red) then
          wr (set_col black) p;; wr (set_col black) u;; wr (set_col red) g;; insertFixup_loop fuel g
        else
          pr ← rd right p;
          '(z, p, g) ← (if bool_decide (z = pr) then
                          leftRotate p;; p' ← rd parent p; g' ← rd parent p'; mret (p, p', g')
                        else mret (z, p, g));
          wr (set_col black) p;; wr (set_col red) g;; rightRotate g;; insertFixup_loop fuel z
      else
        u ← rd left g;
        uc ← rd col u;
        if bool_decide (uc = red) then
          wr (set_col black) p;; wr (set_col black) u;; wr (set_col red) g;; insertFixup_loop fuel g
        else
          pl ← rd left p;
          '(z, p, g) ← (if bool_decide (z = pl) then
                          rightRotate p;; p' ← rd parent p; g' ← rd parent p'; mret (p, p', g')
                        else mret (z, p, g));
          wr (set_col black) p;; wr (set_col red) g;; leftRotate g;; insertFixup_loop fuel z
    else mret tt
  end.
Definition blacken_root : M rbtree unit := t ← get; wr (set_col black) (root t).
Definition insertFixup (node : Z) : M rbtree unit := n ← bound; insertFixup_loop n node;; blacken_root.

Fixpoint eraseFixup_loop (fuel : nat) (x : Z) : M rbtree unit :=
  match fuel with
  | O => throw OutOfFuel
  | S fuel =>
    t ← get;
    xc ← rd col x;
    if bool_decide (x ≠ root t) && bool_decide (xc = black) then
      xp ← rd parent x;
      pl ← rd left xp;
      if bool_decide (x = pl) then
        w ← rd right xp;
        wc ← rd col w;
        w ← (if bool_decide (wc = red) then
               wr (set_col black) w;; xp ← rd parent x; wr (set_col red) xp;;
               xp ← rd parent x; leftRotate xp;;
               xp ← rd parent x; rd right xp
             else mret w);
        wl ← rd left w; wlc ← rd col wl;
        wr' ← rd right w; wrc ← rd col wr';
        if bool_decide (wlc = black) && bool_decide (wrc = black) then
          wr (set_col red) w;; xp ← rd parent x; eraseFixup_loop fuel xp
        else
          w ← (if bool_decide (wrc = black) then
                 wl ← rd left w; wr (set_col black) wl;; wr (set_col red) w;; rightRotate w;;
                 xp ← rd parent x; rd right xp
               else mret w);
          xp ← rd parent x; pc ← rd col xp;
          wr (set_col pc) w;;
          wr (set_col black) xp;;
          w' ← rd right w; wr (set_col black) w';;
          xp ← rd parent x; leftRotate xp;;
          t ← get; eraseFixup_loop fuel (root t)
      else
        w ← rd left xp;
        wc ← rd col w;
        w ← (if bool_decide (wc = red) then
               wr (set_col black) w;; wp ← rd parent w; wr (set_col red) wp;;
               xp ← rd parent x; rightRotate xp;;
               xp ← rd parent x; rd left xp
             else mret w);
        wr' ← rd right w; wrc ← rd col wr';
        wl ← rd left w; wlc ← rd col wl;
        if bool_decide (wrc = black) && bool_decide (wlc = black) then
          wr (set_col red) w;; xp ← rd parent x; eraseFixup_loop fuel xp
        else
          w ← (if bool_decide (wlc = black) then
                 w' ← rd right w; wr (set_col black) w';; wr (set_col red) w;; leftRotate w;;
                 xp ← rd parent x; rd left xp
               else mret w);
          xp ← rd parent x; pc ← rd col xp;
          wr (set_col pc) w;;
          wr (set_col black) xp;;
          wl ← rd left w; wr (set_col black) wl;;
          xp ← rd parent x; rightRotate xp;;
          t ← get; eraseFixup_loop fuel (root t)
    else mret tt
  end.
(** The root is painted black, and not the node where the loop stopped. *)
Definition eraseFixup (node : Z) : M rbtree unit := n ← bound; eraseFixup_loop n node;; blacken_root.

(** ** Trees *)

(** The first tree initialises the sentinel. *)
Definition init : M rbtree unit :=
  t ← get;
  put (RbTree nil 0 (if nil_init t then mem t else <[nil := Rb nil nil nil black]> (mem t)) true).

Section keys.
Context (key : Z -> Z).

Fixpoint lowerBound_loop (fuel : nat) (k p x : Z) : M rbtree Z :=
  match fuel with
  | O => throw OutOfFuel
  | S fuel =>
    if bool_decide (x = nil) then mret p
    else
      match key x ?= k with
      | Lt => r ← rd right x; lowerBound_loop fuel k p r
      | Eq | Gt => l ← rd left x; lowerBound_loop fuel k x l
      end
  end.
Definition lowerBound (k : Z) : M rbtree (option Z) :=
  n ← bound; t ← get; p ← lowerBound_loop n k nil (root t); mret (nilChecked p).

Fixpoint find_loop (fuel : nat) (k x : Z) : M rbtree (option Z) :=
  match fuel with
  | O => throw OutOfFuel
  | S fuel =>
    if bool_decide (x = nil) then mret None
    else
      match key x ?= k with
      | Lt => r ← rd right x; find_loop fuel k r
      | Eq => mret (Some x)
      | Gt => l ← rd left x; find_loop fuel k l
      end
  end.
Definition find (k : Z) : M rbtree (option Z) := n ← bound; t ← get; find_loop n k (root t).

(** The node that [z] goes below, when equal keys go to the right. *)
Fixpoint add_loop (fuel : nat) (k y x : Z) : M rbtree Z :=
  match fuel with
  | O => throw OutOfFuel
  | S fuel =>
    if bool_decide (x = nil) then mret y
    else
      match key x ?= k with
      | Lt | Eq => r ← rd right x; add_loop fuel k x r
      | Gt => l ← rd left x; add_loop fuel k x l
      end
  end.
Definition link (y z : Z) : M rbtree unit :=
  if bool_decide (y = nil) then set_root z
  else
    match key y ?= key z with
    | Lt | Eq => wr (set_right z) y
    | Gt => wr (set_left z) y
    end.
Definition add (z : Z) : M rbtree unit :=
  n ← bound; t ← get;
  y ← add_loop n (key z) nil (root t);
  wr (set_left nil) z;; wr (set_right nil) z;; wr (set_parent y) z;; wr (set_col red) z;;
  link y z;;
  insertFixup z;;
  set_len (Z.add 1).

(** Either the node with the key, or the node that [z] goes below. *)
Fixpoint findOrAdd_loop (fuel : nat) (k y x : Z) : M rbtree (Z + Z) :=
  match fuel with
  | O => throw OutOfFuel
  | S fuel =>
    if bool_decide (x = nil) then mret (inr y)
    else
      match key x ?= k with
      | Lt => r ← rd right x; findOrAdd_loop fuel k x r
      | Eq => mret (inl x)
      | Gt => l ← rd left x; findOrAdd_loop fuel k x l
      end
  end.
Definition link_new (y z : Z) : M rbtree unit :=
  if bool_decide (y = nil) then set_root z
  else
    match key y ?= key z with
    | Lt => wr (set_right z) y
    | Eq => throw Undefined
    | Gt => wr (set_left z) y
    end.
Definition findOrAdd (z : Z) : M rbtree (option Z) :=
  n ← bound; t ← get;
  r ← findOrAdd_loop n (key z) nil (root t);
  match r with
  | inl x => mret (Some x)
  | inr y =>
    wr (set_left nil) z;; wr (set_right nil) z;; wr (set_parent y) z;; wr (set_col red) z;;
    link_new y z;;
    insertFixup z;;
    set_len (Z.add 1);;
    mret None
  end.
End keys.

(** The branch for a node with two children: its successor takes its place.
    Returns the successor's old color and the child that moved up. *)
Definition replace_by_succ (z : Z) : M rbtree (color * Z) :=
  zr ← rd right z;
  y ← minChild zr;
  yc ← rd col y;
  x ← rd right y;
  yp ← rd parent y;
  (if bool_decide (yp = z) then wr (set_parent y) x
   else
     transplant y x;;
     zr ← rd right z;
     wr (set_right zr) y;;
     wr (set_parent y) zr);;
  transplant z y;;
  zl ← rd left z;
  wr (set_left zl) y;;
  wr (set_parent y) zl;;
  zc ← rd col z;
  wr (set_col zc) y;;
  mret (yc, x).
Definition erase (z : Z) : M rbtree (option Z) :=
  yc ← rd col z;
  next ← succ z;
  zl ← rd left z;
  zr ← rd right z;
  '(yc, x) ← (if bool_decide (zl = nil) then transplant z zr;; mret (yc, zr)
              else if bool_decide (zr = nil) then transplant z zl;; mret (yc, zl)
              else replace_by_succ z);
  when (bool_decide (yc = black)) (eraseFixup x);;
  set_len (fun n => n - 1);;
  mret (nilChecked next).

Definition min : M rbtree (option Z) := t ← get; x ← minChild (root t); mret (nilChecked x).
Definition max : M rbtree (option Z) := t ← get; x ← maxChild (root t); mret (nilChecked x).
(** The iterator holds the node that [next] returns. *)
Definition iter : M rbtree Z := t ← get; minChild (root t).
Definition next (cur : Z) : M rbtree (option Z * Z) := s ← succ cur; mret (nilChecked cur, s).
