(* ===== verification/RbShape.v ===== *)
(** * Red-black trees: the tree in memory

    Relates the memory of [RbTree] to inductive trees: a tree is in memory when
    each of its nodes has the addresses of its children and of its parent.  A
    position in a tree is a context, the path from the node up to the root.
    Everything is stated for both directions at once. *)

From S2P Require Import Prelude RbTree.

Inductive dir := L | R.
#[export] Instance dir_eq_dec : EqDecision dir.
Proof. solve_decision. Defined.
Definition flip (d : dir) : dir := match d with L => R | R => L end.
Definition child (d : dir) : RbNode -> Z := match d with L => left | R => right end.
Definition set_child (d : dir) : Z -> RbNode -> RbNode := match d with L => set_left | R => set_right end.

Inductive tree := Leaf | Node (c : color) (l : tree) (p : Z) (r : tree).
(** The node with the child [a] on side [d]. *)
Definition nodeD (d : dir) (c : color) (a : tree) (x : Z) (b : tree) : tree :=
  match d with L => Node c a x b | R => Node c b x a end.
Definition mkD (d : dir) (a b p : Z) (c : color) : RbNode :=
  match d with L => Rb a b p c | R => Rb b a p c end.

Definition root_of (t : tree) : Z := match t with Leaf => nil | Node _ _ p _ => p end.
(** The nodes in order. *)
Fixpoint inorder (t : tree) : list Z :=
  match t with Leaf => [] | Node _ l p r => inorder l ++ p :: inorder r end.

Fixpoint shape (h : gmap Z RbNode) (t : tree) (par : Z) : Prop :=
  match t with
  | Leaf => True
  | Node c l p r => p ≠ nil /\ h !! p = Some (Rb (root_of l) (root_of r) par c) /\ shape h l p /\ shape h r p
  end.

(** A node on the path to a position: the side that the path takes, the node,
    and the subtree on its other side. *)
Inductive frame := Frame (d : dir) (c : color) (p : Z) (s : tree).
Abbreviation ctx := (list frame).
Fixpoint plug (C : ctx) (t : tree) : tree :=
  match C with [] => t | Frame d c p s :: C => plug C (nodeD d c t p s) end.
Definition top (C : ctx) : Z := match C with [] => nil | Frame _ _ p _ :: _ => p end.
Fixpoint cnodes (C : ctx) : list Z :=
  match C with [] => [] | Frame _ _ p s :: C => p :: inorder s ++ cnodes C end.
(** The context in memory, around a subtree with the root [x]. *)
Fixpoint around (h : gmap Z RbNode) (C : ctx) (x : Z) : Prop :=
  match C with
  | [] => True
  | Frame d c p s :: C => p ≠ nil /\ h !! p = Some (mkD d x (root_of s) (top C) c) /\ shape h s p /\ around h C p
  end.

Record rbt (np : Z) (T : tree) (t : rbtree) : Prop := {
  rbt_root : root t = root_of T;
  rbt_shape : shape (mem t) T nil;
  rbt_nodup : NoDup (inorder T);
  rbt_nil : mem t !! nil = Some (Rb nil nil np black);
}.

(** What an operation on the nodes [A] leaves alone. *)
Record within (A : list Z) (t t' : rbtree) : Prop := {
  within_len : len t' = len t;
  within_init : nil_init t' = nil_init t;
  within_dom : dom (mem t') = dom (mem t);
  within_out : forall p, p ∉ A -> p ≠ nil -> mem t' !! p = mem t !! p;
}.

(** ** Shapes *)

Lemma flip_flip d : flip (flip d) = d.
Proof. by destruct d. Qed.
Lemma nodeD_flip d c a x b : nodeD (flip d) c a x b = nodeD d c b x a.
Proof. by destruct d. Qed.
Lemma mkD_flip d a b p c : mkD (flip d) a b p c = mkD d b a p c.
Proof. by destruct d. Qed.
Lemma root_of_nodeD d c a x b : root_of (nodeD d c a x b) = x.
Proof. by destruct d. Qed.
Lemma inorder_nodeD d c a x b : inorder (nodeD d c a x b) ≡ₚ x :: inorder a ++ inorder b.
Proof. destruct d; simpl; solve_Permutation. Qed.
Lemma shape_nodeD h d c a x b par :
  shape h (nodeD d c a x b) par <->
  x ≠ nil /\ h !! x = Some (mkD d (root_of a) (root_of b) par c) /\ shape h a x /\ shape h b x.
Proof. destruct d; simpl; tauto. Qed.

Lemma shape_ext h h' t par : (forall p, p ∈ inorder t -> h' !! p = h !! p) -> shape h t par -> shape h' t par.
Proof.
  revert par. induction t as [|c l IHl p r IHr]; intros par H; simpl in *; [done|].
  intros (Hp & Hl & H1 & H2). split_and!; [done| | |].
  - rewrite H; [done|set_solver].
  - apply IHl; [|done]. set_solver.
  - apply IHr; [|done]. set_solver.
Qed.
Lemma around_ext h h' C x : (forall p, p ∈ cnodes C -> h' !! p = h !! p) -> around h C x -> around h' C x.
Proof.
  revert x. induction C as [|[d c p s] C IH]; intros x H; simpl in *; [done|].
  intros (Hp & Hl & H1 & H2). split_and!; [done| | |].
  - rewrite H; [done|set_solver].
  - eapply shape_ext; [|done]. set_solver.
  - apply IH; [|done]. set_solver.
Qed.
(** A subtree gets another parent. *)
Lemma shape_reparent h h' t y x :
  shape h t y -> NoDup (inorder t) ->
  (forall p, p ∈ inorder t -> h' !! p = if decide (p = root_of t) then set_parent x <$> h !! p else h !! p) ->
  shape h' t x.
Proof.
  destruct t as [|c l p r]; [done|]. simpl. intros (Hp & Hl & H1 & H2) Hnd H.
  apply NoDup_app in Hnd as (_ & Hd & [Hr _]%NoDup_cons).
  split_and!; [done| | |].
  - rewrite H by set_solver. rewrite decide_True by done. by rewrite Hl.
  - eapply shape_ext; [|done]. intros q Hq. rewrite H by set_solver. rewrite decide_False; [done|]. set_solver.
  - eapply shape_ext; [|done]. intros q Hq. rewrite H by set_solver. rewrite decide_False; [done|]. set_solver.
Qed.

Lemma shape_plug h C t : shape h (plug C t) nil <-> around h C (root_of t) /\ shape h t (top C).
Proof.
  revert t. induction C as [|[d c p s] C IH]; intros t; simpl; [tauto|].
  rewrite IH, root_of_nodeD, shape_nodeD. tauto.
Qed.
Lemma inorder_plug C t : inorder (plug C t) ≡ₚ inorder t ++ cnodes C.
Proof.
  revert t. induction C as [|[d c p s] C IH]; intros t; simpl; [by rewrite app_nil_r|].
  rewrite IH, inorder_nodeD. simpl. solve_Permutation.
Qed.
(** The nodes before and after a position. *)
Fixpoint before (C : ctx) : list Z :=
  match C with
  | [] => []
  | Frame L _ _ _ :: C => before C
  | Frame R _ p s :: C => before C ++ inorder s ++ [p]
  end.
Fixpoint after (C : ctx) : list Z :=
  match C with
  | [] => []
  | Frame L _ p s :: C => p :: inorder s ++ after C
  | Frame R _ _ _ :: C => after C
  end.
Lemma inorder_plug_eq C t : inorder (plug C t) = before C ++ inorder t ++ after C.
Proof.
  revert t. induction C as [|[[] c p s] C IH]; intros t; simpl; [by rewrite app_nil_r|..]; rewrite IH; simpl;
    by rewrite <- ?app_assoc; simpl.
Qed.
Lemma root_of_plug C u v : root_of u = root_of v -> root_of (plug C u) = root_of (plug C v).
Proof.
  revert u v. induction C as [|[d c p s] C IH]; intros u v H; simpl; [done|]. apply IH. by rewrite !root_of_nodeD.
Qed.
(** The root of the whole tree is the subtree's only at the top. *)
Lemma root_of_plug_cons d c p s C u v : root_of (plug (Frame d c p s :: C) u) = root_of (plug (Frame d c p s :: C) v).
Proof. simpl. apply root_of_plug. by rewrite !root_of_nodeD. Qed.
Lemma root_of_shape h t par : shape h t par -> root_of t = nil -> t = Leaf.
Proof. destruct t; simpl; [done|]. tauto. Qed.

(** ** Reads and writes *)

Definition upd (p : Z) (n : RbNode) (t : rbtree) : rbtree := RbTree (root t) (len t) (<[p := n]> (mem t)) (nil_init t).

Section rw.
Context (F : fault -> Prop).
Lemma wp_rd {A} (f : RbNode -> A) p n (Q : A -> rbtree -> Prop) t :
  mem t !! p = Some n -> Q (f n) t -> wpf F (rd f p) Q t.
Proof. intros Hn HQ. unfold rd. wp_line. by eapply wpf_access. Qed.
Lemma wp_wr f p n (Q : unit -> rbtree -> Prop) t :
  mem t !! p = Some n -> Q tt (upd p (f n) t) -> wpf F (wr f p) Q t.
Proof. intros Hn HQ. unfold wr. wp_line. by eapply wpf_access. Qed.
Lemma wp_set_root r (Q : unit -> rbtree -> Prop) t :
  Q tt (RbTree r (len t) (mem t) (nil_init t)) -> wpf F (set_root r) Q t.
Proof. done. Qed.
End rw.

Lemma within_refl A t : within A t t.
Proof. done. Qed.
Lemma within_trans A t1 t2 t3 : within A t1 t2 -> within A t2 t3 -> within A t1 t3.
Proof. intros [? ? ? H12] [? ? ? H23]. split; [congruence..|]. intros p H1 H2. by rewrite H23, H12. Qed.
Lemma within_upd A p n t : p ∈ A -> is_Some (mem t !! p) -> within A t (upd p n t).
Proof.
  intros Hp Hs. split; try done; simpl.
  - rewrite dom_insert_lookup_L by done. done.
  - intros q Hq _. rewrite lookup_insert_ne; [done|]. by intros <-.
Qed.
Lemma within_mono A B t t' : (forall p, p ∈ A -> p ∈ B) -> within A t t' -> within B t t'.
Proof. intros H []. split; auto. Qed.
Lemma within_root A r t t' : within A t t' -> within A t (RbTree r (len t') (mem t') (nil_init t')).
Proof. intros []. by split. Qed.

Lemma root_in t : root_of t = nil \/ root_of t ∈ inorder t.
Proof. destruct t; simpl; [by left|]. right. set_solver. Qed.

(** The parent's pointer to [x] is made to point to [y]. *)
Lemma relink_spec F d C x y (t : rbtree) :
  around (mem t) C x -> x ≠ nil -> NoDup (x :: cnodes C) ->
  wpf F (if bool_decide (top C = nil) then set_root y
         else
           q ← rd (child d) (top C);
           if bool_decide (x = q) then wr (set_child d y) (top C) else wr (set_child (flip d) y) (top C))
    (fun _ t' => around (mem t') C y /\ (forall p, p ≠ top C \/ p ∉ cnodes C -> mem t' !! p = mem t !! p) /\
       within (cnodes C) t t' /\ root t' = (match C with [] => y | _ => root t end)) t.
Proof.
  intros HC Hx Hnd. destruct C as [|[d' c p s] C]; simpl.
  - wp_line. split_and!; try done.
  - simpl in HC. destruct HC as (Hp & Hl & Hsh & HC). rewrite bool_decide_false by done. wp_line.
    eapply wp_rd; [exact Hl|]. apply NoDup_cons in Hnd as [Hx1 [Hp1 Hnd]%NoDup_cons].
    assert (Hrs : root_of s ≠ x) by (destruct (root_in s) as [->|]; set_solver).
    assert (Hdone : wpf F (wr (set_child d' y) p) (fun _ t' =>
      (p ≠ nil /\ mem t' !! p = Some (mkD d' y (root_of s) (top C) c) /\ shape (mem t') s p /\ around (mem t') C p) /\
      (forall q, q ≠ p \/ q ∉ p :: inorder s ++ cnodes C -> mem t' !! q = mem t !! q) /\
      within (p :: inorder s ++ cnodes C) t t' /\ root t' = root t) t).
    { eapply wp_wr; [exact Hl|]. simpl. split_and!; try done.
      - rewrite lookup_insert_eq. by destruct d'.
      - eapply shape_ext; [|done]. intros q Hq. rewrite lookup_insert_ne; set_solver.
      - eapply around_ext; [|done]. intros q Hq. rewrite lookup_insert_ne; set_solver.
      - intros q Hq. rewrite lookup_insert_ne; set_solver.
      - apply within_upd; [set_solver|eauto]. }
    destruct (decide (d' = d)) as [->|Hd].
    + rewrite bool_decide_true; [done|]. by destruct d.
    + assert (d' = flip d) as -> by (by destruct d, d'). rewrite bool_decide_false; [done|]. by destruct d.
Qed.

(** ** Rotations, for both directions at once *)

Definition rotate (d : dir) (x : Z) : M rbtree unit :=
  y ← rd (child (flip d)) x;
  yl ← rd (child d) y;
  wr (set_child (flip d) yl) x;;
  when (bool_decide (yl ≠ nil)) (wr (set_parent x) yl);;
  xp ← rd parent x;
  wr (set_parent xp) y;;
  (if bool_decide (xp = nil) then set_root y
   else
     q ← rd (child d) xp;
     if bool_decide (x = q) then wr (set_child d y) xp else wr (set_child (flip d) y) xp);;
  wr (set_child d x) y;;
  wr (set_parent y) x.
Lemma leftRotate_rotate x : leftRotate x = rotate L x.
Proof. reflexivity. Qed.
Lemma rightRotate_rotate x : rightRotate x = rotate R x.
Proof. reflexivity. Qed.

Lemma child_mkD d a b p c : child d (mkD d a b p c) = a.
Proof. by destruct d. Qed.
Lemma child_flip_mkD d a b p c : child (flip d) (mkD d a b p c) = b.
Proof. by destruct d. Qed.
Lemma set_child_mkD d v a b p c : set_child d v (mkD d a b p c) = mkD d v b p c.
Proof. by destruct d. Qed.
Lemma set_child_flip_mkD d v a b p c : set_child (flip d) v (mkD d a b p c) = mkD d a v p c.
Proof. by destruct d. Qed.
Lemma parent_mkD d a b p c : parent (mkD d a b p c) = p.
Proof. by destruct d. Qed.
Lemma set_parent_mkD d v a b p c : set_parent v (mkD d a b p c) = mkD d a b v c.
Proof. by destruct d. Qed.
Lemma col_mkD d a b p c : col (mkD d a b p c) = c.
Proof. by destruct d. Qed.
Lemma set_col_mkD d v a b p c : set_col v (mkD d a b p c) = mkD d a b p v.
Proof. by destruct d. Qed.
Create Rewrite HintDb mkD.
#[export] Hint Rewrite child_mkD child_flip_mkD set_child_mkD set_child_flip_mkD parent_mkD set_parent_mkD
  col_mkD set_col_mkD root_of_nodeD : mkD.

(** The moved subtree gets its new parent, unless it is the sentinel. *)
Lemma reparent_spec F (b : tree) x y (t : rbtree) :
  shape (mem t) b y -> NoDup (inorder b) ->
  wpf F (when (bool_decide (root_of b ≠ nil)) (wr (set_parent x) (root_of b)))
    (fun _ t' => shape (mem t') b x /\ (forall p, p ∉ inorder b -> mem t' !! p = mem t !! p) /\
       within (inorder b) t t' /\ root t' = root t) t.
Proof.
  intros Hb Hnd. destruct b as [|c l p r]; [by apply wpf_ret|].
  pose proof Hb as (Hp & Hl & _). simpl in Hp. cbn [root_of]. rewrite bool_decide_true by done.
  eapply wp_wr; [exact Hl|]. split_and!; try done; simpl mem.
  - eapply shape_reparent; [exact Hb|done|]. intros q Hq. cbn [root_of]. case_decide as E.
    + subst q. rewrite lookup_insert_eq. by rewrite Hl.
    + by rewrite lookup_insert_ne.
  - intros q Hq. rewrite lookup_insert_ne; [done|]. intros <-. apply Hq. simpl. set_solver.
  - apply within_upd; [simpl; set_solver|eauto].
Qed.

Lemma NoDup_plug C t : NoDup (inorder (plug C t)) <-> NoDup (inorder t ++ cnodes C).
Proof. by rewrite inorder_plug. Qed.

Lemma nil_notin h t par : shape h t par -> nil ∉ inorder t.
Proof. revert par. induction t as [|c l IHl p r IHr]; simpl; [set_solver|]. intros par (? & _ & ?%IHl & ?%IHr). set_solver. Qed.
Lemma nil_notin_ctx h C x : around h C x -> nil ∉ cnodes C.
Proof.
  revert x. induction C as [|[d c p s] C IH]; simpl; [set_solver|]. intros x (? & _ & ?%nil_notin & ?%IH). set_solver.
Qed.

Lemma rotate_spec F np C d c a x e b y f (t : rbtree) :
  rbt np (plug C (nodeD d c a x (nodeD d e b y f))) t ->
  wpf F (rotate d x) (fun _ t' => rbt np (plug C (nodeD d e (nodeD d c a x b) y f)) t' /\
    within (inorder (plug C (nodeD d c a x (nodeD d e b y f)))) t t') t.
Proof.
  intros [Hroot Hsh Hnd Hnil]. apply shape_plug in Hsh as [HC Hx]. rewrite root_of_nodeD in HC.
  apply shape_nodeD in Hx as (Hx & Hlx & Ha & (Hy & Hly & Hb & Hf)%shape_nodeD). rewrite root_of_nodeD in Hlx.
  assert (Hall : inorder (plug C (nodeD d c a x (nodeD d e b y f))) ≡ₚ x :: y :: inorder a ++ inorder b ++ inorder f ++ cnodes C).
  { rewrite inorder_plug, inorder_nodeD, inorder_nodeD. solve_Permutation. }
  assert (Hall' : inorder (plug C (nodeD d e (nodeD d c a x b) y f)) ≡ₚ x :: y :: inorder a ++ inorder b ++ inorder f ++ cnodes C).
  { rewrite inorder_plug, inorder_nodeD, inorder_nodeD. solve_Permutation. }
  pose proof Hnd as Hnd0. rewrite Hall in Hnd. apply NoDup_cons in Hnd as [Hx1 [Hy1 Hnd]%NoDup_cons].
  rewrite !NoDup_app in Hnd. destruct Hnd as (Na & Da & Nb & Db & Nf & Df & Nc).
  assert (Hxy : x ≠ y) by set_solver.
  unfold rotate. wp_line. eapply wp_rd; [exact Hlx|]. autorewrite with mkD.
  wp_line. eapply wp_rd; [exact Hly|]. autorewrite with mkD.
  wp_line. eapply wp_wr; [exact Hlx|]. autorewrite with mkD.
  wp_line. eapply wpf_mono.
  { apply (reparent_spec _ b x y); [|done]. eapply shape_ext; [|exact Hb]. intros p Hp. simpl. rewrite lookup_insert_ne; set_solver. }
  intros [] t2 (Hb2 & Hm2 & Hw2 & Hr2). simpl in Hm2.
  assert (Hx2 : mem t2 !! x = Some (mkD d (root_of a) (root_of b) (top C) c)) by (rewrite Hm2, lookup_insert_eq by set_solver; done).
  assert (Hy2 : mem t2 !! y = Some (mkD d (root_of b) (root_of f) x e)) by (rewrite Hm2, lookup_insert_ne by set_solver; done).
  wp_line. eapply wp_rd; [exact Hx2|]. autorewrite with mkD. wp_line. eapply wp_wr; [exact Hy2|]. autorewrite with mkD.
  assert (Hold : forall p, p ∉ x :: y :: inorder b -> mem (upd y (mkD d (root_of b) (root_of f) (top C) e) t2) !! p = mem t !! p).
  { intros p Hp. simpl. rewrite lookup_insert_ne, Hm2, lookup_insert_ne; set_solver. }
  wp_line. eapply wpf_mono.
  { apply (relink_spec _ d C x y); [|done|apply NoDup_cons; split; [set_solver|done]].
    eapply around_ext; [|exact HC]. intros p Hp. apply Hold. set_solver. }
  intros [] t3 (HC3 & Hm3 & Hw3 & Hr3).
  assert (Hy3 : mem t3 !! y = Some (mkD d (root_of b) (root_of f) (top C) e)).
  { rewrite Hm3 by (right; set_solver). simpl. by rewrite lookup_insert_eq. }
  assert (Hx3 : mem t3 !! x = Some (mkD d (root_of a) (root_of b) (top C) c)).
  { rewrite Hm3 by (right; set_solver). simpl. by rewrite lookup_insert_ne. }
  wp_line. eapply wp_wr; [exact Hy3|]. autorewrite with mkD.
  wp_line. eapply wp_wr; [simpl; rewrite lookup_insert_ne by done; exact Hx3|]. autorewrite with mkD.
  assert (Hnew : forall p, p ∉ x :: y :: inorder b ++ cnodes C -> (<[x:=mkD d (root_of a) (root_of b) y c]> (<[y:=mkD d x (root_of f) (top C) e]> (mem t3))) !! p = mem t !! p).
  { intros p Hp. rewrite !lookup_insert_ne by set_solver. rewrite Hm3 by (right; set_solver). apply Hold. set_solver. }
  split.
  - split.
    + cbn [root upd]. rewrite Hr3. destruct C as [|fr C]; [cbn [plug]; by rewrite root_of_nodeD|].
      cbn [root upd]. rewrite Hr2. cbn [root upd]. rewrite Hroot.
      destruct fr. apply root_of_plug_cons.
    + apply shape_plug. rewrite root_of_nodeD, !shape_nodeD, root_of_nodeD. simpl mem. split; [|split_and!; try done].
      * eapply around_ext; [|exact HC3]. intros p Hp. rewrite !lookup_insert_ne; set_solver.
      * by rewrite lookup_insert_ne, lookup_insert_eq.
      * by rewrite lookup_insert_eq.
      * eapply shape_ext; [|exact Ha]. intros p Hp. apply Hnew. set_solver.
      * eapply shape_ext; [|exact Hb2]. intros p Hp. rewrite !lookup_insert_ne by set_solver.
        rewrite Hm3 by (right; set_solver). simpl. rewrite lookup_insert_ne; set_solver.
      * eapply shape_ext; [|exact Hf]. intros p Hp. apply Hnew. set_solver.
    + by rewrite Hall', <- Hall.
    + simpl. rewrite Hnew; [done|]. pose proof (nil_notin _ _ _ Hb). pose proof (nil_notin_ctx _ _ _ HC). set_solver.
  - eapply (within_mono (x :: y :: inorder a ++ inorder b ++ inorder f ++ cnodes C)); [by intros p; rewrite Hall|].
    eapply within_trans; [|apply within_upd; [set_solver|simpl; rewrite lookup_insert_ne by done; eauto]].
    eapply within_trans; [|apply within_upd; [set_solver|eauto]].
    eapply within_trans; [|eapply within_mono; [|exact Hw3]; set_solver].
    eapply within_trans; [|apply within_upd; [set_solver|eauto]].
    eapply within_trans; [|eapply within_mono; [|exact Hw2]; set_solver].
    apply within_upd; [set_solver|eauto].
Qed.

(** ** A node of the tree, seen from its position *)

Lemma rbt_lookup np C d c a x b t : rbt np (plug C (nodeD d c a x b)) t ->
  x ≠ nil /\ mem t !! x = Some (mkD d (root_of a) (root_of b) (top C) c).
Proof. intros [_ [_ Hx]%shape_plug _ _]. apply shape_nodeD in Hx as (? & ? & _). done. Qed.

Lemma set_col_spec F np C d c c' a x b t : rbt np (plug C (nodeD d c a x b)) t ->
  wpf F (wr (set_col c') x) (fun _ t' => rbt np (plug C (nodeD d c' a x b)) t' /\
    within (inorder (plug C (nodeD d c a x b))) t t') t.
Proof.
  intros H. pose proof (rbt_lookup _ _ _ _ _ _ _ _ H) as [Hx Hl]. destruct H as [Hroot Hsh Hnd Hnil].
  apply shape_plug in Hsh as [HC (_ & _ & Ha & Hb)%shape_nodeD]. rewrite root_of_nodeD in HC.
  assert (Hall : inorder (plug C (nodeD d c a x b)) ≡ₚ x :: inorder a ++ inorder b ++ cnodes C).
  { rewrite inorder_plug, inorder_nodeD. solve_Permutation. }
  assert (Hall' : inorder (plug C (nodeD d c' a x b)) ≡ₚ x :: inorder a ++ inorder b ++ cnodes C).
  { rewrite inorder_plug, inorder_nodeD. solve_Permutation. }
  pose proof Hnd as Hnd0. rewrite Hall in Hnd. apply NoDup_cons in Hnd as [Hx1 _].
  eapply wp_wr; [exact Hl|]. autorewrite with mkD. split; [split|].
  - cbn [root upd]. rewrite Hroot. apply root_of_plug. by rewrite !root_of_nodeD.
  - apply shape_plug. rewrite root_of_nodeD, shape_nodeD. cbn [mem upd]. split_and!; [|done|by rewrite lookup_insert_eq|..].
    + eapply around_ext; [|exact HC]. intros p Hp. rewrite lookup_insert_ne; set_solver.
    + eapply shape_ext; [|exact Ha]. intros p Hp. rewrite lookup_insert_ne; set_solver.
    + eapply shape_ext; [|exact Hb]. intros p Hp. rewrite lookup_insert_ne; set_solver.
  - by rewrite Hall', <- Hall.
  - cbn [mem upd]. by rewrite lookup_insert_ne.
  - apply within_upd; [rewrite Hall; set_solver|eauto].
Qed.

(** The nodes are in memory, so there are at most as many as memory has. *)
Lemma shape_in h t par p : shape h t par -> p ∈ inorder t -> is_Some (h !! p).
Proof.
  revert par. induction t as [|c l IHl q r IHr]; simpl; intros par; [set_solver|]. intros (_ & Hq & H1 & H2).
  rewrite elem_of_app, elem_of_cons. intros [?|[->|?]]; eauto.
Qed.
Lemma rbt_size np T t : rbt np T t -> (length (inorder T) < S (size (mem t)))%nat.
Proof.
  intros [_ Hs Hnd _]. enough (length (inorder T) ≤ size (mem t))%nat by lia.
  rewrite <- (size_list_to_set (C := gset Z) _ Hnd), <- size_dom. apply subseteq_size.
  intros p Hp. apply elem_of_dom. apply elem_of_list_to_set in Hp. by eapply shape_in.
Qed.
Lemma length_cnodes C : (length C ≤ length (cnodes C))%nat.
Proof. induction C as [|[d c p s] C IH]; simpl; [lia|]. rewrite length_app. lia. Qed.
Lemma rbt_depth np C s t : rbt np (plug C s) t -> (length C + length (inorder s) < S (size (mem t)))%nat.
Proof.
  intros H. pose proof (rbt_size _ _ _ H) as Hs. rewrite inorder_plug, length_app in Hs. pose proof (length_cnodes C). lia.
Qed.

(** Two children of one node are different nodes. *)
Lemma sibling_ne np C d c a x b t : rbt np (plug C (nodeD d c a x b)) t -> root_of a ≠ nil -> root_of a ≠ root_of b.
Proof.
  intros [_ _ Hnd _] Ha. rewrite inorder_plug, inorder_nodeD in Hnd. simpl in Hnd. apply NoDup_cons in Hnd as [_ Hnd].
  rewrite !NoDup_app in Hnd. destruct Hnd as ((_ & Hd & _) & _).
  destruct (root_in a) as [?|Hin]; [done|]. destruct (root_in b) as [->|Hb]; [done|]. intros E. apply (Hd _ Hin). by rewrite E.
Qed.
