(* ===== verification/RbSearch.v ===== *)
(** * Red-black trees: searching and walking

    What the operations that do not change the tree return, in terms of the
    sequence of its nodes.  None of it depends on the colors. *)

From Stdlib Require Import Sorting.Sorted.
From S2P Require Import Prelude RbTree RbShape.

Fixpoint height (t : tree) : nat := match t with Leaf => 0 | Node _ l _ r => S (Nat.max (height l) (height r)) end.
Lemma height_inorder t : (height t <= length (inorder t))%nat.
Proof. induction t as [|c l IHl p r IHr]; simpl; [lia|]. rewrite length_app. simpl. lia. Qed.

(** ** Walking *)

Section walk.
Context (F : fault -> Prop) (np : Z).

Lemma minChild_loop_spec fuel C c l p r t : rbt np (plug C (Node c l p r)) t -> (length (inorder l) < fuel)%nat ->
  wpf F (minChild_loop fuel p) (fun x t' => t' = t /\ head (inorder (Node c l p r)) = Some x) t.
Proof.
  revert C c l p r. induction fuel as [|fuel IH]; intros C c l p r Ht Hl; [lia|]. cbn [minChild_loop]. wp_line.
  eapply wp_rd; [apply (rbt_lookup _ C L c l p r t Ht)|]. cbn [mkD left].
  destruct l as [|c' l' p' r']; cbn [root_of].
  - by wp_line.
  - destruct (rbt_lookup _ (Frame L c p r :: C) L c' l' p' r' t Ht) as [Hp _]. rewrite bool_decide_false by done.
    eapply wpf_mono; [apply (IH (Frame L c p r :: C)); [exact Ht|simpl in Hl; rewrite length_app in Hl; simpl in Hl; lia]|].
    intros x t' [-> Hx]. split; [done|]. simpl in *. destruct (inorder l'); simpl in *; done.
Qed.
Lemma maxChild_loop_spec fuel C c l p r t : rbt np (plug C (Node c l p r)) t -> (length (inorder r) < fuel)%nat ->
  wpf F (maxChild_loop fuel p) (fun x t' => t' = t /\ last (inorder (Node c l p r)) = Some x) t.
Proof.
  revert C c l p r. induction fuel as [|fuel IH]; intros C c l p r Ht Hl; [lia|]. cbn [maxChild_loop]. wp_line.
  eapply wp_rd; [apply (rbt_lookup _ C L c l p r t Ht)|]. cbn [mkD right].
  destruct r as [|c' l' p' r']; cbn [root_of].
  - wp_line. split; [done|]. simpl. by rewrite last_snoc.
  - destruct (rbt_lookup _ (Frame R c p l :: C) L c' l' p' r' t Ht) as [Hp _]. rewrite bool_decide_false by done.
    eapply wpf_mono; [apply (IH (Frame R c p l :: C)); [exact Ht|simpl in Hl; rewrite length_app in Hl; simpl in Hl; lia]|].
    intros x t' [-> Hx]. split; [done|]. cbn [inorder]. cbn [inorder] in Hx. rewrite last_app, last_cons, Hx. done.
Qed.

Lemma minChild_spec C s t : rbt np (plug C s) t ->
  wpf F (minChild (root_of s)) (fun x t' => t' = t /\ x = default nil (head (inorder s))) t.
Proof.
  intros Ht. unfold minChild, bound. wp_line. pose proof (rbt_depth _ _ _ _ Ht) as Hd. destruct s as [|c l p r].
  - cbn [minChild_loop]. wp_line. eapply wp_rd; [apply Ht|]. by wp_line.
  - eapply wpf_mono; [eapply minChild_loop_spec; [exact Ht|]|]; [simpl in Hd; rewrite length_app in Hd; simpl in Hd; lia|].
    intros x t' [-> Hx]. cbn [root_of inorder] in Hx |- *. by rewrite Hx.
Qed.
Lemma maxChild_spec C s t : rbt np (plug C s) t ->
  wpf F (maxChild (root_of s)) (fun x t' => t' = t /\ x = default nil (last (inorder s))) t.
Proof.
  intros Ht. unfold maxChild, bound. wp_line. pose proof (rbt_depth _ _ _ _ Ht) as Hd. destruct s as [|c l p r].
  - cbn [maxChild_loop]. wp_line. eapply wp_rd; [apply Ht|]. by wp_line.
  - eapply wpf_mono; [eapply maxChild_loop_spec; [exact Ht|]|]; [simpl in Hd; rewrite length_app in Hd; simpl in Hd; lia|].
    intros x t' [-> Hx]. cbn [root_of inorder] in Hx |- *. by rewrite Hx.
Qed.

Lemma succ_loop_spec fuel C s t : rbt np (plug C s) t -> root_of s ≠ nil -> (length C < fuel)%nat ->
  wpf F (succ_loop fuel (root_of s) (top C)) (fun x t' => t' = t /\ x = default nil (head (after C))) t.
Proof.
  revert C s. induction fuel as [|fuel IH]; intros C s Ht Hs Hl; [lia|]. cbn [succ_loop].
  destruct C as [|[d c p u] C]; [by wp_line|]. cbn [top].
  destruct (rbt_lookup np C d c s p u t Ht) as [Hp Hlp]. rewrite bool_decide_false by done. wp_line.
  eapply wp_rd; [exact Hlp|]. destruct d; cbn [mkD right after].
  - rewrite bool_decide_false by (by eapply (sibling_ne np C L)). by wp_line.
  - rewrite bool_decide_true by done. wp_line. eapply wp_rd; [exact Hlp|]. cbn [mkD parent].
    rewrite <- (root_of_nodeD R c s p u). apply IH; [exact Ht|by rewrite root_of_nodeD|simpl in Hl; lia].
Qed.
Lemma pred_loop_spec fuel C s t : rbt np (plug C s) t -> root_of s ≠ nil -> (length C < fuel)%nat ->
  wpf F (pred_loop fuel (root_of s) (top C)) (fun x t' => t' = t /\ x = default nil (last (before C))) t.
Proof.
  revert C s. induction fuel as [|fuel IH]; intros C s Ht Hs Hl; [lia|]. cbn [pred_loop].
  destruct C as [|[d c p u] C]; [by wp_line|]. cbn [top].
  destruct (rbt_lookup np C d c s p u t Ht) as [Hp Hlp]. rewrite bool_decide_false by done. wp_line.
  eapply wp_rd; [exact Hlp|]. destruct d; cbn [mkD left before].
  - rewrite bool_decide_true by done. wp_line. eapply wp_rd; [exact Hlp|]. cbn [mkD parent].
    rewrite <- (root_of_nodeD L c s p u). apply IH; [exact Ht|by rewrite root_of_nodeD|simpl in Hl; lia].
  - rewrite bool_decide_false by (by eapply (sibling_ne np C R)). wp_line. split; [done|]. by rewrite app_assoc, last_snoc.
Qed.

Lemma succ_spec C c l x r t : rbt np (plug C (Node c l x r)) t ->
  wpf F (succ x) (fun y t' => t' = t /\ y = default nil (head (inorder r ++ after C))) t.
Proof.
  intros Ht. destruct (rbt_lookup np C L c l x r t Ht) as [Hx Hlx]. pose proof (rbt_depth _ _ _ _ Ht) as Hd.
  unfold succ, bound. wp_line. eapply wp_rd; [exact Hlx|]. cbn [mkD right]. destruct r as [|c' l' p' r']; cbn [root_of].
  - rewrite bool_decide_false by (by intros []). wp_line. eapply wp_rd; [exact Hlx|]. cbn [mkD parent]. wp_line.
    apply (succ_loop_spec _ C (Node c l x Leaf)); [done|done|lia].
  - destruct (rbt_lookup np (Frame R c x l :: C) L c' l' p' r' t Ht) as [Hp _]. rewrite bool_decide_true by done.
    eapply wpf_mono; [apply (minChild_spec (Frame R c x l :: C) (Node c' l' p' r') t Ht)|]. intros y t' [-> ->]. split; [done|].
    cbn [inorder]. by destruct (inorder l').
Qed.
Lemma pred_spec C c l x r t : rbt np (plug C (Node c l x r)) t ->
  wpf F (pred x) (fun y t' => t' = t /\ y = default nil (last (before C ++ inorder l))) t.
Proof.
  intros Ht. destruct (rbt_lookup np C L c l x r t Ht) as [Hx Hlx]. pose proof (rbt_depth _ _ _ _ Ht) as Hd.
  unfold pred, bound. wp_line. eapply wp_rd; [exact Hlx|]. cbn [mkD left]. destruct l as [|c' l' p' r']; cbn [root_of].
  - rewrite bool_decide_false by (by intros []). wp_line. eapply wp_rd; [exact Hlx|]. cbn [mkD parent]. wp_line.
    cbn [inorder]. rewrite app_nil_r. apply (pred_loop_spec _ C (Node c Leaf x r)); [done|done|lia].
  - destruct (rbt_lookup np (Frame L c x r :: C) L c' l' p' r' t Ht) as [Hp _]. rewrite bool_decide_true by done.
    eapply wpf_mono; [apply (maxChild_spec (Frame L c x r :: C) (Node c' l' p' r') t Ht)|]. intros y t' [-> ->]. split; [done|].
    rewrite last_app. cbn [inorder]. rewrite last_app, last_cons. by destruct (last (inorder r')).
Qed.
End walk.

Lemma nilChecked_default h T o par : shape h T par -> (forall x, o = Some x -> x ∈ inorder T) -> nilChecked (default nil o) = o.
Proof.
  intros HT Ho. unfold nilChecked. destruct o as [x|]; simpl; [|done]. rewrite bool_decide_true; [done|].
  intros ->. by eapply nil_notin; [|apply Ho].
Qed.

Section ends.
Context (F : fault -> Prop) (np : Z).
Lemma min_spec T t : rbt np T t -> wpf F min (fun o t' => t' = t /\ o = head (inorder T)) t.
Proof.
  intros Ht. unfold min. wp_line. rewrite (rbt_root _ _ _ Ht). wp_line.
  eapply wpf_mono; [apply (minChild_spec _ np [] T t Ht)|]. intros x t' [-> ->]. wp_line. split; [done|].
  eapply nilChecked_default; [apply Ht|]. intros y Hy. by apply head_Some_elem_of.
Qed.
Lemma max_spec T t : rbt np T t -> wpf F max (fun o t' => t' = t /\ o = last (inorder T)) t.
Proof.
  intros Ht. unfold max. wp_line. rewrite (rbt_root _ _ _ Ht). wp_line.
  eapply wpf_mono; [apply (maxChild_spec _ np [] T t Ht)|]. intros x t' [-> ->]. wp_line. split; [done|].
  eapply nilChecked_default; [apply Ht|]. intros y Hy. by apply last_Some_elem_of.
Qed.
End ends.

(** ** Searching *)

Section search.
Context (F : fault -> Prop) (np : Z) (key : Z -> Z).

Definition ordered : list Z -> Prop := StronglySorted (fun x y => key x <= key y).

Lemma ordered_app l x r : ordered (l ++ x :: r) -> (forall y, y ∈ l -> key y <= key x) /\ (forall y, y ∈ r -> key x <= key y).
Proof.
  induction l as [|y l IH]; simpl; intros H; apply StronglySorted_inv in H as [H Hy]; rewrite Forall_forall in Hy.
  - split; [set_solver|]. intros y Hr. by apply Hy.
  - apply IH in H as [H1 H2]. split; [|done]. intros z [->|Hz]%elem_of_cons; [|by apply H1]. apply Hy. set_solver.
Qed.
Lemma ordered_node C c l x r : ordered (inorder (plug C (Node c l x r))) ->
  (forall y, y ∈ inorder l -> key y <= key x) /\ (forall y, y ∈ inorder r -> key x <= key y).
Proof.
  rewrite inorder_plug_eq. cbn [inorder].
  replace (before C ++ (inorder l ++ x :: inorder r) ++ after C) with ((before C ++ inorder l) ++ x :: inorder r ++ after C)
    by (by rewrite <- !app_assoc).
  intros [H1 H2]%ordered_app. split; intros y Hy; [apply H1|apply H2]; set_solver.
Qed.

(** The position of a key: [lo] holds of the keys before it and [hi] of the keys after it. *)
Definition parted (lo hi : Z -> Prop) (C : ctx) : Prop :=
  (forall y, y ∈ before C -> lo (key y)) /\ (forall y, y ∈ after C -> hi (key y)).
Lemma parted_left (lo hi : Z -> Prop) C c l x r :
  ordered (inorder (plug C (Node c l x r))) -> (forall a b, a <= b -> hi a -> hi b) ->
  parted lo hi C -> hi (key x) -> parted lo hi (Frame L c x r :: C).
Proof.
  intros [_ Hr]%ordered_node Hhi [H1 H2] Hx. split; cbn [before after]; [done|].
  intros y [->|[Hy|Hy]%elem_of_app]%elem_of_cons; eauto.
Qed.
Lemma parted_right (lo hi : Z -> Prop) C c l x r :
  ordered (inorder (plug C (Node c l x r))) -> (forall a b, a <= b -> lo b -> lo a) ->
  parted lo hi C -> lo (key x) -> parted lo hi (Frame R c x l :: C).
Proof.
  intros [Hl _]%ordered_node Hlo [H1 H2] Hx. split; cbn [before after]; [|done].
  intros y [Hy|[Hy|Hy%list_elem_of_singleton]%elem_of_app]%elem_of_app; subst; eauto.
Qed.

Lemma lowerBound_loop_spec fuel k C s t :
  rbt np (plug C s) t -> ordered (inorder (plug C s)) -> (length (inorder s) < fuel)%nat ->
  parted (fun a => a < k) (fun a => k <= a) C ->
  wpf F (lowerBound_loop key fuel k (default nil (head (after C))) (root_of s)) (fun p t' => t' = t /\
    exists C', plug C' Leaf = plug C s /\ parted (fun a => a < k) (fun a => k <= a) C' /\ p = default nil (head (after C'))) t.
Proof.
  revert C s. induction fuel as [|fuel IH]; intros C s Ht Hord Hl HC; [lia|]. cbn [lowerBound_loop].
  destruct s as [|c l x r]; cbn [root_of]; [wp_line; split; [done|]; by exists C|].
  destruct (rbt_lookup np C L c l x r t Ht) as [Hx Hlx]. rewrite bool_decide_false by done.
  cbn [inorder] in Hl. rewrite length_app in Hl. cbn [length] in Hl.
  destruct (Z.compare_spec (key x) k) as [E|E|E]; wp_line; (eapply wp_rd; [exact Hlx|]); cbn [mkD left right].
  1,3: apply (IH (Frame L c x r :: C) l Ht Hord); [lia|]; eapply parted_left; [exact Hord|lia|done|lia].
  apply (IH (Frame R c x l :: C) r Ht Hord); [lia|]. eapply parted_right; [exact Hord|lia|done|lia].
Qed.

Lemma lowerBound_spec k T t : rbt np T t -> ordered (inorder T) ->
  wpf F (lowerBound key k) (fun o t' => t' = t /\ exists l1 l2, inorder T = l1 ++ l2 /\
    (forall y, y ∈ l1 -> key y < k) /\ (forall y, y ∈ l2 -> k <= key y) /\ o = head l2) t.
Proof.
  intros Ht Hord. unfold lowerBound, bound. wp_line. rewrite (rbt_root _ _ _ Ht). wp_line.
  eapply wpf_mono; [apply (lowerBound_loop_spec _ k [] T t Ht Hord)|].
  - apply (rbt_depth np [] T t Ht).
  - split; simpl; set_solver.
  - intros p t' (-> & C' & HC & [H1 H2] & ->). wp_line. split; [done|]. exists (before C'), (after C').
    assert (E : inorder T = before C' ++ after C') by (cbn [plug] in HC; rewrite <- HC, inorder_plug_eq; done).
    split_and!; try done. eapply nilChecked_default; [apply Ht|]. intros x Hx. rewrite E.
    apply elem_of_app. right. by apply head_Some_elem_of.
Qed.

Lemma findOrAdd_loop_spec fuel k C s t :
  rbt np (plug C s) t -> ordered (inorder (plug C s)) -> (length (inorder s) < fuel)%nat ->
  parted (fun a => a < k) (fun a => k < a) C ->
  wpf F (findOrAdd_loop key fuel k (top C) (root_of s)) (fun o t' => t' = t /\
    match o with
    | inl x => x ∈ inorder (plug C s) /\ key x = k
    | inr y => exists C', plug C' Leaf = plug C s /\ parted (fun a => a < k) (fun a => k < a) C' /\ y = top C'
    end) t.
Proof.
  revert C s. induction fuel as [|fuel IH]; intros C s Ht Hord Hl HC; [lia|]. cbn [findOrAdd_loop].
  destruct s as [|c l x r]; cbn [root_of]; [wp_line; split; [done|]; by exists C|].
  destruct (rbt_lookup np C L c l x r t Ht) as [Hx Hlx]. rewrite bool_decide_false by done.
  cbn [inorder] in Hl. rewrite length_app in Hl. cbn [length] in Hl.
  destruct (Z.compare_spec (key x) k) as [E|E|E]; wp_line; [split_and!; [done| |done]|..].
  - rewrite inorder_plug. cbn [inorder]. set_solver.
  - eapply wp_rd; [exact Hlx|]; cbn [mkD left right].
    apply (IH (Frame R c x l :: C) r Ht Hord); [lia|]. eapply parted_right; [exact Hord|lia|done|lia].
  - eapply wp_rd; [exact Hlx|]; cbn [mkD left right].
    apply (IH (Frame L c x r :: C) l Ht Hord); [lia|]. eapply parted_left; [exact Hord|lia|done|lia].
Qed.
Lemma add_loop_spec fuel k C s t :
  rbt np (plug C s) t -> ordered (inorder (plug C s)) -> (length (inorder s) < fuel)%nat ->
  parted (fun a => a <= k) (fun a => k < a) C ->
  wpf F (add_loop key fuel k (top C) (root_of s)) (fun y t' => t' = t /\
    exists C', plug C' Leaf = plug C s /\ parted (fun a => a <= k) (fun a => k < a) C' /\ y = top C') t.
Proof.
  revert C s. induction fuel as [|fuel IH]; intros C s Ht Hord Hl HC; [lia|]. cbn [add_loop].
  destruct s as [|c l x r]; cbn [root_of]; [wp_line; split; [done|]; by exists C|].
  destruct (rbt_lookup np C L c l x r t Ht) as [Hx Hlx]. rewrite bool_decide_false by done.
  cbn [inorder] in Hl. rewrite length_app in Hl. cbn [length] in Hl.
  destruct (Z.compare_spec (key x) k) as [E|E|E]; wp_line; (eapply wp_rd; [exact Hlx|]); cbn [mkD left right].
  1,2: apply (IH (Frame R c x l :: C) r Ht Hord); [lia|]; eapply parted_right; [exact Hord|lia|done|lia].
  apply (IH (Frame L c x r :: C) l Ht Hord); [lia|]. eapply parted_left; [exact Hord|lia|done|lia].
Qed.

(** The number of rounds is bounded by the height of the tree. *)
Lemma rb_find_loop_spec fuel k C s t :
  rbt np (plug C s) t -> ordered (inorder (plug C s)) -> (height s < fuel)%nat ->
  wpf F (find_loop key fuel k (root_of s)) (fun o t' => t' = t /\
    match o with
    | Some x => x ∈ inorder s /\ key x = k
    | None => forall x, x ∈ inorder s -> key x ≠ k
    end) t.
Proof.
  revert C s. induction fuel as [|fuel IH]; intros C s Ht Hord Hl; [lia|]. cbn [find_loop].
  destruct s as [|c l x r]; cbn [root_of]; [wp_line; split; [done|]; set_solver|].
  destruct (rbt_lookup np C L c l x r t Ht) as [Hx Hlx]. rewrite bool_decide_false by done.
  cbn [inorder height] in Hl |- *. destruct (ordered_node _ _ _ _ _ Hord) as [H1 H2].
  destruct (Z.compare_spec (key x) k) as [E|E|E]; wp_line.
  - split_and!; [done|set_solver|done].
  - eapply wp_rd; [exact Hlx|]; cbn [mkD left right].
    eapply wpf_mono; [apply (IH (Frame R c x l :: C) r Ht Hord); lia|]. intros [y|] t' [-> Hy]; (split; [done|]); [set_solver|].
    intros y [Hl'%H1|[->|Hr]%elem_of_cons]%elem_of_app; [lia|lia|by apply Hy].
  - eapply wp_rd; [exact Hlx|]; cbn [mkD left right].
    eapply wpf_mono; [apply (IH (Frame L c x r :: C) l Ht Hord); lia|]. intros [y|] t' [-> Hy]; (split; [done|]); [set_solver|].
    intros y [Hl'|[->|Hr%H2]%elem_of_cons]%elem_of_app; [by apply Hy|lia|lia].
Qed.
Lemma rb_find_spec k T t : rbt np T t -> ordered (inorder T) ->
  wpf F (find key k) (fun o t' => t' = t /\
    match o with
    | Some x => x ∈ inorder T /\ key x = k
    | None => forall x, x ∈ inorder T -> key x ≠ k
    end) t.
Proof.
  intros Ht Hord. unfold find, bound. wp_line. rewrite (rbt_root _ _ _ Ht).
  apply (rb_find_loop_spec _ k [] T t Ht Hord).
  pose proof (rbt_depth np [] T t Ht). pose proof (height_inorder T). simpl in *. lia.
Qed.
End search.

(** ** The neighbours of a node in the sequence *)

Lemma position T x : x ∈ inorder T -> exists C c l r, T = plug C (Node c l x r).
Proof.
  assert (H : forall C s, x ∈ inorder s -> exists C' c l r, plug C s = plug C' (Node c l x r)).
  { intros C s. revert C. induction s as [|c l IHl p r IHr]; intros C; cbn [inorder]; [set_solver|].
    intros [Hl|[->|Hr]%elem_of_cons]%elem_of_app.
    - by apply (IHl (Frame L c p r :: C)).
    - eauto.
    - by apply (IHr (Frame R c p l :: C)). }
  apply (H []).
Qed.
Lemma split_unique (x : Z) a b a' b' : NoDup (a ++ x :: b) -> a ++ x :: b = a' ++ x :: b' -> a = a' /\ b = b'.
Proof.
  revert a'. induction a as [|y a IH]; intros [|y' a']; simpl; intros [H Hnd]%NoDup_cons E; injection E; clear E; intros; subst; try done.
  - set_solver.
  - set_solver.
  - by destruct (IH a' Hnd) as [-> ->].
Qed.
Lemma position_split T x l1 l2 : NoDup (inorder T) -> inorder T = l1 ++ x :: l2 ->
  exists C c l r, T = plug C (Node c l x r) /\ l1 = before C ++ inorder l /\ l2 = inorder r ++ after C.
Proof.
  intros Hnd E. destruct (position T x) as (C & c & l & r & ->); [rewrite E; set_solver|]. exists C, c, l, r. split; [done|].
  rewrite inorder_plug_eq in Hnd, E. cbn [inorder] in Hnd, E.
  replace (before C ++ (inorder l ++ x :: inorder r) ++ after C) with ((before C ++ inorder l) ++ x :: inorder r ++ after C)
    in Hnd, E by (by rewrite <- !app_assoc).
  destruct (split_unique _ _ _ _ _ Hnd E) as [-> ->]. done.
Qed.

Section neighbours.
Context (F : fault -> Prop) (np : Z).
Lemma succ_at T l1 x l2 t : rbt np T t -> inorder T = l1 ++ x :: l2 ->
  wpf F (succ x) (fun y t' => t' = t /\ y = default nil (head l2)) t.
Proof.
  intros Ht E. destruct (position_split _ _ _ _ (rbt_nodup _ _ _ Ht) E) as (C & c & l & r & -> & -> & ->). by eapply succ_spec.
Qed.
Lemma pred_at T l1 x l2 t : rbt np T t -> inorder T = l1 ++ x :: l2 ->
  wpf F (pred x) (fun y t' => t' = t /\ y = default nil (last l1)) t.
Proof.
  intros Ht E. destruct (position_split _ _ _ _ (rbt_nodup _ _ _ Ht) E) as (C & c & l & r & -> & -> & ->). by eapply pred_spec.
Qed.

(** A client's loop over the tree, for as long as the iterator returns nodes. *)
Fixpoint drain (fuel : nat) (cur : Z) : M rbtree (list Z) :=
  match fuel with
  | O => throw OutOfFuel
  | S fuel =>
    '(o, cur) ← next cur;
    match o with None => mret [] | Some x => xs ← drain fuel cur; mret (x :: xs) end
  end.
Lemma succ_nil t : mem t !! nil = Some (Rb nil nil nil black) -> wpf F (succ nil) (fun y t' => t' = t /\ y = nil) t.
Proof.
  intros H. unfold succ, bound. wp_line. eapply wp_rd; [exact H|]. cbn [right]. rewrite bool_decide_false by (by intros []).
  wp_line. eapply wp_rd; [exact H|]. wp_line. by cbn [succ_loop parent].
Qed.
Lemma iterate_spec T l1 l2 t : np = nil -> rbt np T t -> inorder T = l1 ++ l2 ->
  wpf F (drain (S (length l2)) (default nil (head l2))) (fun xs t' => t' = t /\ xs = l2) t.
Proof.
  intros Hnp Ht. revert l1. induction l2 as [|x l2 IH]; intros l1 E; cbn [length head default].
  - cbn [drain]. unfold next. wp_line. eapply wpf_mono; [apply succ_nil; pose proof (rbt_nil _ _ _ Ht) as Hn; by rewrite Hnp in Hn|]. intros y t' [-> ->]. by wp_line.
  - set (n := S (length l2)) in *. cbn [drain]. unfold next. wp_line. eapply wpf_mono; [by eapply succ_at|].
    intros y t' [-> ->]. wp_line. unfold nilChecked.
    rewrite bool_decide_true.
    + wp_line. eapply wpf_mono; [apply (IH (l1 ++ [x])); by rewrite <- app_assoc|]. intros xs t' [-> ->]. by wp_line.
    + cbn [id]. intros ->. eapply nil_notin; [apply Ht|]. rewrite E. set_solver.
Qed.
End neighbours.
