(* ===== verification/RbInsert.v ===== *)
(** * Red-black trees: insertion

    The red-black invariant, the repair after an insertion, and that [add] and
    [findOrAdd] insert into the sequence of nodes at the place of the key. *)

From S2P Require Import Prelude RbTree RbShape.

(** ** The invariant *)

(** A subtree with the color of its root and its number of black nodes on every
    path; a red node has black children. *)
Inductive rb : tree -> color -> nat -> Prop :=
| rb_leaf : rb Leaf black 0
| rb_red l p r n : rb l black n -> rb r black n -> rb (Node red l p r) red n
| rb_black l p r cl cr n : rb l cl n -> rb r cr n -> rb (Node black l p r) black (S n).

(** A context that makes a red-black tree of a subtree of height [n] and color
    [c]; the root is black. *)
Fixpoint okctx (C : ctx) (n : nat) (c : color) : Prop :=
  match C with
  | [] => c = black
  | Frame _ red _ s :: C => c = black /\ rb s black n /\ okctx C n red
  | Frame _ black _ s :: C => (exists cs, rb s cs n) /\ okctx C (S n) black
  end.

Definition blacken (t : tree) : tree := match t with Leaf => Leaf | Node _ l p r => Node black l p r end.

Lemma rb_nodeD_red d a x b n : rb a black n -> rb b black n -> rb (nodeD d red a x b) red n.
Proof. destruct d; by constructor. Qed.
Lemma rb_nodeD_black d a x b ca cb n : rb a ca n -> rb b cb n -> rb (nodeD d black a x b) black (S n).
Proof. destruct d; by econstructor. Qed.
Create HintDb rb.
#[export] Hint Resolve rb_nodeD_red rb_nodeD_black rb_leaf : rb.

Lemma okctx_plug C n c t : okctx C n c -> rb t c n -> exists m, rb (plug C t) black m.
Proof.
  revert n c t. induction C as [|[d [] p s] C IH]; intros n c t; simpl.
  - intros ->. eauto.
  - intros [[cs Hs] HC] Ht. eapply IH; eauto with rb.
  - intros (-> & Hs & HC) Ht. eapply IH; eauto with rb.
Qed.
Lemma okctx_black C n c : okctx C n c -> okctx C n black.
Proof. destruct C as [|[d [] p s] C]; simpl; [done|done|]. by intros (_ & ? & ?). Qed.
Lemma rb_blacken t c n : rb t c n -> exists m, rb (blacken t) black m.
Proof. destruct 1; simpl; eauto using rb. Qed.
Lemma blacken_black t n : rb t black n -> blacken t = t.
Proof. by inversion 1. Qed.

(** ** The repair *)

(** One round of the loop, for the side of the grandparent that the parent is
    on. *)
Definition insert_side (d : dir) (loop : Z -> M rbtree unit) (z p g : Z) : M rbtree unit :=
  u ← rd (child (flip d)) g;
  uc ← rd col u;
  if bool_decide (uc = red) then
    wr (set_col black) p;; wr (set_col black) u;; wr (set_col red) g;; loop g
  else
    pr ← rd (child (flip d)) p;
    '(z, p, g) ← (if bool_decide (z = pr) then
                    rotate d p;; p' ← rd parent p; g' ← rd parent p'; mret (p, p', g')
                  else mret (z, p, g));
    wr (set_col black) p;; wr (set_col red) g;; rotate (flip d) g;; loop z.
Lemma insertFixup_loop_S fuel z : insertFixup_loop (S fuel) z =
  (p ← rd parent z;
   pc ← rd col p;
   if bool_decide (pc = red) then
     g ← rd parent p;
     gl ← rd left g;
     if bool_decide (p = gl) then insert_side L (insertFixup_loop fuel) z p g
     else insert_side R (insertFixup_loop fuel) z p g
   else mret tt).
Proof. reflexivity. Qed.

(** What the loop leaves behind: the same nodes in the same order, and a tree
    that is red-black once its root is painted black. *)
Definition repaired (np : Z) (T : tree) (t t' : rbtree) : Prop :=
  exists T', rbt np T' t' /\ inorder T' = inorder T /\ within (inorder T) t t' /\ exists m, rb (blacken T') black m.

Lemma inorder_rotate C d c a x e b y f :
  inorder (plug C (nodeD d e (nodeD d c a x b) y f)) = inorder (plug C (nodeD d c a x (nodeD d e b y f))).
Proof. rewrite !inorder_plug_eq. destruct d; by list_simplifier. Qed.
Lemma inorder_recolor C d c c' a x b : inorder (plug C (nodeD d c a x b)) = inorder (plug C (nodeD d c' a x b)).
Proof. rewrite !inorder_plug_eq. by destruct d. Qed.

(** The same nodes in the same order, by computation. *)
Ltac same_order d := clear - d; cbn [plug]; rewrite ?inorder_plug_eq; destruct d; simpl; by list_simplifier.
Lemma within_same A B t t' : A = B -> within A t t' -> within B t t'.
Proof. by intros ->. Qed.

Section insert.
Context (F : fault -> Prop) (np : Z).

(** The loop stops below a black parent. *)
Lemma insert_done fuel C a z b d p s C' t n :
  C = Frame d black p s :: C' -> rbt np (plug C (Node red a z b)) t -> rb a black n -> rb b black n -> okctx C n black ->
  wpf F (insertFixup_loop (S fuel) z) (fun _ t' => repaired np (plug C (Node red a z b)) t t') t.
Proof.
  intros HC Ht Ha Hb Hok. rewrite insertFixup_loop_S. wp_line.
  eapply wp_rd; [apply (rbt_lookup _ C L red a z b t Ht)|]. rewrite HC in *. cbn [top mkD parent].
  wp_line. eapply wp_rd; [apply (rbt_lookup _ C' d black (Node red a z b) p s t Ht)|]. autorewrite with mkD. wp_line.
  eexists. split_and!; [exact Ht|done|apply within_refl|].
  assert (Hok' : okctx (Frame d black p s :: C') n red) by done.
  destruct (okctx_plug _ _ red (Node red a z b) Hok') as [m Hm]; [by constructor|]. exists m. by rewrite (blacken_black _ m).
Qed.

Lemma repaired_trans T T1 t t1 t' :
  inorder T1 = inorder T -> within (inorder T) t t1 -> repaired np T1 t1 t' -> repaired np T t t'.
Proof.
  intros HT H1 (T' & Ht' & HT' & Hw' & Hm). exists T'. split_and!; [done|congruence| |done].
  rewrite HT in Hw'. by eapply within_trans.
Qed.

(** Parent and child on the same side: the grandparent is rotated. *)
Lemma insert_outer fuel d C a z b p s g u t n :
  rbt np (plug C (nodeD d black (nodeD d red (Node red a z b) p s) g u)) t ->
  rb a black n -> rb b black n -> rb s black n -> rb u black n -> okctx C (S n) black ->
  wpf F (wr (set_col black) p;; wr (set_col red) g;; rotate (flip d) g;; insertFixup_loop (S fuel) z)
    (fun _ t' => repaired np (plug C (nodeD d black (nodeD d red (Node red a z b) p s) g u)) t t') t.
Proof.
  intros Ht Ha Hb Hs Hu HC. wp_line.
  eapply wpf_mono; [apply (set_col_spec _ _ (Frame d black g u :: C) d red black (Node red a z b) p s t Ht)|]. intros [] t1 [H1 W1].
  cbv beta in H1. wp_line. eapply wpf_mono; [apply (set_col_spec _ _ C d black red _ g u t1 H1)|]. intros [] t2 [H2 W2].
  rewrite <- nodeD_flip, <- (nodeD_flip d) in H2. wp_line. eapply wpf_mono; [apply rotate_spec; exact H2|]. intros [] t3 [H3 W3].
  rewrite nodeD_flip in H3.
  eapply wpf_mono.
  { eapply (insert_done fuel (Frame d black p (nodeD (flip d) red u g s) :: C) a z b); [done|exact H3|done|done|].
    simpl. split; [|done]. exists red. auto with rb. }
  intros [] t4 H4. eapply repaired_trans; [|eapply within_trans; [exact W1|eapply within_trans]|exact H4].
  - same_order d.
  - eapply within_same; [|exact W2]. same_order d.
  - eapply within_same; [|exact W3]. same_order d.
Qed.

Definition colr (t : tree) : color := match t with Leaf => black | Node c _ _ _ => c end.
Lemma rb_colr t c n : rb t c n -> colr t = c.
Proof. by destruct 1. Qed.
(** The color of a subtree's root; the sentinel is black. *)
Lemma rd_col C s t (Q : color -> rbtree -> Prop) :
  rbt np (plug C s) t -> Q (colr s) t -> wpf F (rd col (root_of s)) Q t.
Proof.
  intros Ht HQ. destruct s as [|c l p r].
  - eapply wp_rd; [apply Ht|done].
  - eapply wp_rd; [apply (rbt_lookup _ C L c l p r t Ht)|done].
Qed.

Lemma plug_other d c a x b C : plug C (nodeD d c a x b) = plug (Frame (flip d) c x a :: C) b.
Proof. simpl. by rewrite nodeD_flip. Qed.

(** A red uncle: the grandparent becomes red, and the loop goes on from it. *)
Lemma insert_recolor d C X p s dz g ul w ur t (loop : Z -> M rbtree unit) T' (Q : unit -> rbtree -> Prop) :
  rbt np (plug C (nodeD d black (nodeD dz red X p s) g (Node red ul w ur))) t ->
  T' = plug C (nodeD d red (nodeD dz black X p s) g (Node black ul w ur)) ->
  (forall t', rbt np T' t' -> within (inorder T') t t' -> wpf F (loop g) Q t') ->
  wpf F (wr (set_col black) p;; wr (set_col black) w;; wr (set_col red) g;; loop g) Q t.
Proof.
  intros Ht -> HQ. wp_line.
  eapply wpf_mono; [apply (set_col_spec _ _ (Frame d black g (Node red ul w ur) :: C) dz red black X p s t Ht)|]. intros [] t1 [H1 W1].
  cbn [plug] in H1, W1. rewrite plug_other in H1. wp_line.
  eapply wpf_mono; [apply (set_col_spec _ _ _ L red black ul w ur t1 H1)|]. intros [] t2 [H2 W2].
  rewrite <- plug_other in H2. wp_line.
  eapply wpf_mono; [apply (set_col_spec _ _ C d black red _ g _ t2 H2)|]. intros [] t3 [H3 W3]. apply HQ; [done|].
  eapply within_trans; [|eapply within_trans].
  - eapply within_same; [|exact W1]. destruct dz; same_order d.
  - eapply within_same; [|exact W2]. destruct dz; same_order d.
  - eapply within_same; [|exact W3]. destruct dz; same_order d.
Qed.

Lemma insert_side_spec d fuel C a z b dz p s g u t n cu :
  (forall C a z b t n, (length C < S (S fuel))%nat -> rbt np (plug C (Node red a z b)) t -> rb a black n -> rb b black n ->
     okctx C n black -> wpf F (insertFixup_loop (S (S fuel)) z) (fun _ t' => repaired np (plug C (Node red a z b)) t t') t) ->
  (length C < S (S fuel))%nat ->
  rbt np (plug C (nodeD d black (nodeD dz red (Node red a z b) p s) g u)) t ->
  rb a black n -> rb b black n -> rb s black n -> rb u cu n -> okctx C (S n) black ->
  wpf F (insert_side d (insertFixup_loop (S (S fuel))) z p g)
    (fun _ t' => repaired np (plug C (nodeD d black (nodeD dz red (Node red a z b) p s) g u)) t t') t.
Proof.
  intros IH Hfuel Ht Ha Hb Hs Hu HC. unfold insert_side. wp_line.
  eapply wp_rd; [apply (rbt_lookup _ C d _ _ g u t Ht)|]. autorewrite with mkD. wp_line.
  pose proof Ht as Ht'. rewrite plug_other in Ht'. eapply rd_col; [exact Ht'|]. rewrite (rb_colr _ _ _ Hu).
  destruct cu.
  - rewrite bool_decide_false by done. wp_line.
    eapply wp_rd; [apply (rbt_lookup _ (Frame d black g u :: C) dz red _ p s t Ht)|].
    destruct (decide (dz = d)) as [->|Hd].
    + autorewrite with mkD. pose proof (sibling_ne np (Frame d black g u :: C) d red (Node red a z b) p s t Ht) as Hne.
      destruct (rbt_lookup np (Frame d red p s :: Frame d black g u :: C) L red a z b t Ht) as [Hz _].
      rewrite bool_decide_false by (apply Hne; exact Hz). apply wpf_bind, wpf_ret. by eapply insert_outer.
    + assert (dz = flip d) as -> by (by destruct d, dz). rewrite child_mkD. cbn [root_of]. rewrite bool_decide_true by done.
      assert (exists a1 b1, Node red a z b = nodeD d red a1 z b1 /\ rb a1 black n /\ rb b1 black n) as (a1 & b1 & E & Ha1 & Hb1)
        by (destruct d; [exists a, b|exists b, a]; done).
      rewrite E in *. rewrite nodeD_flip in *. wp_line.
      eapply wpf_mono; [apply (rotate_spec _ _ (Frame d black g u :: C) d red s p red a1 z b1 t Ht)|]. intros [] t1 [H1 W1].
      wp_line. eapply wp_rd; [apply (rbt_lookup _ (Frame d red z b1 :: Frame d black g u :: C) d red s p a1 t1 H1)|].
      autorewrite with mkD. cbn [top]. wp_line.
      eapply wp_rd; [apply (rbt_lookup _ (Frame d black g u :: C) d red _ z b1 t1 H1)|]. autorewrite with mkD. cbn [top]. apply wpf_ret.
      assert (exists a2 b2, nodeD d red s p a1 = Node red a2 p b2 /\ rb a2 black n /\ rb b2 black n) as (a2 & b2 & E2 & Ha2 & Hb2)
        by (destruct d; [exists s, a1|exists a1, s]; done).
      cbn [plug] in H1. rewrite E2 in H1.
      eapply wpf_mono; [eapply insert_outer; [exact H1|done..]|]. intros [] t2 H2.
      eapply repaired_trans; [|exact W1|exact H2]. rewrite <- E2. same_order d.
  - inversion Hu as [|ul w ur n' Hul Hur|]; subst. rewrite bool_decide_true by done.
    eapply insert_recolor; [exact Ht|reflexivity|]. intros t' H' W'. cbn [root_of] in H', W'.
    assert (exists a1 b1, nodeD d red (nodeD dz black (Node red a z b) p s) g (Node black ul w ur) = Node red a1 g b1 /\
      rb a1 black (S n) /\ rb b1 black (S n)) as (a1 & b1 & E & Ha1 & Hb1).
    { destruct d; eexists _, _; (split; [reflexivity|]); split; try (by econstructor);
        (eapply rb_nodeD_black; [by constructor|done]). }
    rewrite E in H'. eapply wpf_mono; [by eapply IH|]. intros [] t2 H2.
    eapply repaired_trans; [|eapply within_same; [|exact W']|exact H2].
    + rewrite <- E. destruct dz; same_order d.
    + destruct dz; same_order d.
Qed.

Lemma insertFixup_loop_spec fuel C a z b t n : (length C < fuel)%nat ->
  rbt np (plug C (Node red a z b)) t -> rb a black n -> rb b black n -> okctx C n black ->
  wpf F (insertFixup_loop fuel z) (fun _ t' => repaired np (plug C (Node red a z b)) t t') t.
Proof.
  revert C a z b t n. induction fuel as [fuel IH] using lt_wf_ind. intros C a z b t n Hlen Ht Ha Hb HC.
  destruct fuel as [|fuel]; [lia|]. destruct C as [|[dz [] p s] C].
  - rewrite insertFixup_loop_S. wp_line. eapply wp_rd; [apply (rbt_lookup _ [] L red a z b t Ht)|]. cbn [mkD parent top].
    wp_line. eapply wp_rd; [apply Ht|]. wp_line. exists (Node red a z b). split_and!; [done|done|apply within_refl|].
    eapply rb_blacken. by constructor.
  - by eapply insert_done.
  - simpl in HC. destruct HC as (_ & Hs & HC). destruct C as [|[d [] g u] C]; simpl in HC; [done| |by destruct HC].
    destruct HC as [[cu Hu] HC]. destruct fuel as [|[|fuel]]; [simpl in Hlen; lia..|].
    rewrite insertFixup_loop_S. wp_line. eapply wp_rd; [apply (rbt_lookup _ (Frame dz red p s :: _) L red a z b t Ht)|].
    cbn [mkD parent top]. wp_line. eapply wp_rd; [apply (rbt_lookup _ (Frame d black g u :: C) dz red _ p s t Ht)|].
    autorewrite with mkD. rewrite bool_decide_true by done. wp_line.
    eapply wp_rd; [apply (rbt_lookup _ (Frame d black g u :: C) dz red _ p s t Ht)|]. autorewrite with mkD. cbn [top]. wp_line.
    eapply wp_rd; [apply (rbt_lookup _ C d black _ g u t Ht)|].
    assert (Hside : wpf F (insert_side d (insertFixup_loop (S (S fuel))) z p g)
      (fun _ t' => repaired np (plug C (nodeD d black (nodeD dz red (Node red a z b) p s) g u)) t t') t).
    { eapply insert_side_spec; try done; [|simpl in Hlen; lia]. intros. eapply IH; [lia|done..]. }
    destruct d; cbn [mkD left]; rewrite ?root_of_nodeD; [by rewrite bool_decide_true|].
    rewrite bool_decide_false; [done|]. pose proof (sibling_ne np C R black _ g u t Ht) as Hne. rewrite root_of_nodeD in Hne.
    apply Hne. apply (rbt_lookup _ (Frame R black g u :: C) dz red _ p s t Ht).
Qed.

Lemma blacken_root_spec T t :
  rbt np T t ->
  wpf F blacken_root (fun _ t' => rbt np (blacken T) t' /\ within (inorder T) t t') t.
Proof.
  intros Ht. unfold blacken_root. wp_line. rewrite (rbt_root _ _ _ Ht). destruct T as [|c' l p r].
  - eapply wp_wr; [apply Ht|]. destruct Ht as [Hr Hs Hn Hnil]. split; [split; try done|split; try done]; simpl.
    + by rewrite lookup_insert_eq.
    + rewrite dom_insert_lookup_L; [done|eauto].
    + intros p _ Hp. by rewrite lookup_insert_ne.
  - eapply wpf_mono; [apply (set_col_spec _ _ [] L c' black l p r t Ht)|]. done.
Qed.

(** The repair makes a red-black tree of the same nodes. *)
Lemma insertFixup_spec C a z b t n :
  rbt np (plug C (Node red a z b)) t -> rb a black n -> rb b black n -> okctx C n black ->
  wpf F (insertFixup z) (fun _ t' => exists T' m, rbt np T' t' /\ rb T' black m /\
    inorder T' = inorder (plug C (Node red a z b)) /\ within (inorder T') t t') t.
Proof.
  intros Ht Ha Hb HC. unfold insertFixup, bound. wp_line. pose proof (rbt_depth _ _ _ _ Ht).
  eapply wpf_mono; [eapply insertFixup_loop_spec; [|done..]; lia|]. intros [] t1 (T' & H1 & HT & W1 & m & Hm).
  wp_line. eapply wpf_mono; [by eapply blacken_root_spec|]. intros [] t2 [H2 W2].
  assert (E : inorder (blacken T') = inorder T') by (by destruct T').
  exists (blacken T'), m. split_and!; [done|done|congruence|]. rewrite E. rewrite <- HT in W1. by eapply within_trans.
Qed.
End insert.
