(* ===== verification/RbAdd.v ===== *)
(** * Red-black trees: adding nodes

    A tree as its clients see it: a sequence of nodes in the order of their keys.
    The operations of [RbTree] that search, walk and add keep it and return what
    the sequence says; the trees are balanced, so a search takes a number of
    rounds that is logarithmic in the number of nodes.  The last part runs the
    removal, which does not keep the trees red-black. *)

From Stdlib Require Import Sorting.Sorted.
From S2P Require Import Prelude RbTree RbShape RbSearch RbInsert.

(** ** The abstract tree *)

(** The tree in memory holds the nodes [l]. *)
Definition holds (key : Z -> Z) (l : list Z) (t : rbtree) : Prop :=
  exists T m, rbt nil T t /\ rb T black m /\ inorder T = l /\ ordered key l /\ len t = Z.of_nat (length l) /\ nil_init t = true.

Lemma rb_plug_inv C s m : rb (plug C s) black m -> exists n c, okctx C n c /\ rb s c n.
Proof.
  revert s. induction C as [|[d c p u] C IH]; intros s; simpl; [eauto|].
  intros (n & c' & HC & Hn)%IH. destruct d; inversion Hn; subst; simpl; eauto 10.
Qed.

Lemma ordered_insert key l1 z l2 :
  ordered key (l1 ++ l2) -> (forall y, y ∈ l1 -> key y <= key z) -> (forall y, y ∈ l2 -> key z <= key y) ->
  ordered key (l1 ++ z :: l2).
Proof.
  induction l1 as [|y l1 IH]; simpl; intros H H1 H2.
  - constructor; [done|]. apply Forall_forall. done.
  - apply StronglySorted_inv in H as [H Hy]. constructor.
    + apply IH; [done| |done]. intros x Hx. apply H1. set_solver.
    + rewrite Forall_forall in Hy |- *. intros x [Hx|[->|Hx]%elem_of_cons]%elem_of_app; [apply Hy; set_solver| |apply Hy; set_solver].
      apply H1. set_solver.
Qed.

(** ** Balance *)

Lemma rb_height t c n : rb t c n -> (height t <= 2 * n + (if decide (c = red) then 1 else 0))%nat.
Proof. induction 1; simpl in *; repeat case_decide; simpl in *; try congruence; lia. Qed.
Lemma rb_length t c n : rb t c n -> (2 ^ n <= S (length (inorder t)))%nat.
Proof. induction 1; simpl; rewrite ?length_app; simpl in *; lia. Qed.
Lemma holds_height key l t : holds key l t ->
  exists T, rbt nil T t /\ inorder T = l /\ ordered key l /\ (height T <= 2 * Nat.log2 (S (length l)))%nat.
Proof.
  intros (T & m & Ht & Hm & HT & Hl & _). exists T. split_and!; try done.
  pose proof (rb_height _ _ _ Hm) as Hh. rewrite decide_False in Hh by done. pose proof (rb_length _ _ _ Hm) as Hn. rewrite HT in Hn.
  apply Nat.log2_le_mono in Hn. rewrite Nat.log2_pow2 in Hn; lia.
Qed.

(** ** Linking a new node *)

Section link.
Context (F : fault -> Prop) (np : Z).

(** What [link] and [link_new] do at a position. *)
Definition attach (C : ctx) (z : Z) : M rbtree unit :=
  match C with [] => set_root z | Frame d _ p _ :: _ => wr (set_child d z) p end.
Lemma link_attach key C z h x : around h C x -> parted key (fun a => a <= key z) (fun a => key z < a) C ->
  link key (top C) z = attach C z.
Proof.
  intros HC [H1 H2]. unfold link. destruct C as [|[d c p s] C]; [done|]. destruct HC as (Hp & _). cbn [top attach].
  rewrite bool_decide_false by done. destruct d; cbn [before after] in *.
  - rewrite (proj2 (Z.compare_gt_iff (key p) (key z))); [done|]. apply H2. set_solver.
  - assert (key p <= key z) by (apply H1; set_solver). by destruct (Z.compare_spec (key p) (key z)); try lia.
Qed.
Lemma link_new_attach key C z h x : around h C x -> parted key (fun a => a < key z) (fun a => key z < a) C ->
  link_new key (top C) z = attach C z.
Proof.
  intros HC [H1 H2]. unfold link_new. destruct C as [|[d c p s] C]; [done|]. destruct HC as (Hp & _). cbn [top attach].
  rewrite bool_decide_false by done. destruct d; cbn [before after] in *.
  - rewrite (proj2 (Z.compare_gt_iff (key p) (key z))); [done|]. apply H2. set_solver.
  - rewrite (proj2 (Z.compare_lt_iff (key p) (key z))); [done|]. apply H1. set_solver.
Qed.

Lemma attach_spec C z t :
  rbt np (plug C Leaf) t -> z ∉ inorder (plug C Leaf) -> z ≠ nil -> mem t !! z = Some (Rb nil nil (top C) red) ->
  wpf F (attach C z) (fun _ t' => rbt np (plug C (Node red Leaf z Leaf)) t' /\
    within (z :: inorder (plug C Leaf)) t t') t.
Proof.
  intros [Hroot Hsh Hnd Hnil] Hz Hz0 Hlz. apply shape_plug in Hsh as [HC _].
  assert (Hnd' : NoDup (inorder (plug C (Node red Leaf z Leaf)))).
  { rewrite inorder_plug in Hnd, Hz |- *. simpl in *. by apply NoDup_cons. }
  destruct C as [|[d c p s] C]; cbn [attach].
  - apply wp_set_root. split; [|by apply within_root]. by split.
  - destruct HC as (Hp & Hlp & Hs & HC). eapply wp_wr; [exact Hlp|]. autorewrite with mkD.
    assert (Hp1 : p ∈ inorder (plug (Frame d c p s :: C) Leaf)) by (rewrite inorder_plug; simpl; set_solver).
    split; [|apply within_upd; [set_solver|eauto]]. rewrite inorder_plug in Hnd, Hz. cbn [cnodes inorder] in Hnd, Hz. simpl in Hnd, Hz.
    apply NoDup_cons in Hnd as [Hp2 _]. split; [..|done|].
    + cbn [root upd]. rewrite Hroot. apply root_of_plug_cons.
    + apply shape_plug. cbn [root_of top around shape mem upd]. split_and!; try done.
      * by rewrite lookup_insert_eq.
      * eapply shape_ext; [|exact Hs]. intros q Hq. rewrite lookup_insert_ne; set_solver.
      * eapply around_ext; [|exact HC]. intros q Hq. rewrite lookup_insert_ne; set_solver.
      * rewrite lookup_insert_ne; [done|]. set_solver.
    + cbn [mem upd]. by rewrite lookup_insert_ne.
Qed.

(** The new node is initialised, linked at a position, and the tree repaired. *)
Lemma place_spec C z t m {A} (k : M rbtree A) (Q : A -> rbtree -> Prop) :
  rbt np (plug C Leaf) t -> rb (plug C Leaf) black m -> z ∉ inorder (plug C Leaf) -> z ≠ nil -> is_Some (mem t !! z) ->
  (forall T' m' t', rbt np T' t' -> rb T' black m' -> inorder T' = before C ++ z :: after C ->
     within (inorder T') t t' -> wpf F k Q t') ->
  wpf F (wr (set_left nil) z;; wr (set_right nil) z;; wr (set_parent (top C)) z;; wr (set_col red) z;;
         attach C z;; insertFixup z;; k) Q t.
Proof.
  intros Ht Hm Hz Hz0 [n Hn] Hk. do 4 (wp_line; eapply wp_wr; [simpl; rewrite ?lookup_insert_eq; done|]).
  set (t1 := upd z _ _). assert (Hlz : mem t1 !! z = Some (Rb nil nil (top C) red)) by apply lookup_insert_eq.
  assert (Hne : forall q, q ≠ z -> mem t1 !! q = mem t !! q) by (intros q Hq; simpl; by rewrite !lookup_insert_ne).
  assert (W1 : within [z] t t1) by (repeat (eapply within_trans; [|apply within_upd; [set_solver|simpl; rewrite ?lookup_insert_eq; eauto]]); apply within_refl).
  assert (Hr1 : root t1 = root t) by done.
  clearbody t1. assert (H1 : rbt np (plug C Leaf) t1).
  { destruct Ht as [Hroot Hsh Hnd Hnil]. split; [congruence| |done|by rewrite Hne].
    eapply shape_ext; [|exact Hsh]. intros q Hq. apply Hne. by intros ->. }
  wp_line. eapply wpf_mono; [apply (attach_spec C z t1 H1 Hz Hz0 Hlz)|]. intros [] t2 [H2 W2].
  destruct (rb_plug_inv _ _ _ Hm) as (n0 & c & HC & Hleaf). inversion Hleaf; subst.
  wp_line. eapply wpf_mono; [apply (insertFixup_spec F np C Leaf z Leaf t2 0 H2); [constructor|constructor|done]|].
  intros [] t3 (T' & m' & H3 & Hm' & HT & W3).
  assert (Hin : inorder (plug C (Node red Leaf z Leaf)) ≡ₚ z :: inorder (plug C Leaf)) by (by rewrite !inorder_plug).
  eapply Hk; [done|done| |].
  - by rewrite HT, inorder_plug_eq.
  - eapply within_trans; [eapply within_mono; [|exact W1]|eapply within_trans; [eapply within_mono; [|exact W2]|exact W3]];
      intros p; rewrite HT, Hin; set_solver.
Qed.
End link.

(** ** The operations on the abstract tree *)

Section operations.
Context (key : Z -> Z).

(** A tree that holds [l] becomes one that holds [l'], and no other node changes. *)
Definition becomes (l' : list Z) (t t' : rbtree) : Prop :=
  holds key l' t' /\ dom (mem t') = dom (mem t) /\ (forall p, p ∉ l' -> p ≠ nil -> mem t' !! p = mem t !! p).

Lemma becomes_add C z T' m' t t' : len t = Z.of_nat (length (before C ++ after C)) -> nil_init t = true ->
  rbt nil T' t' -> rb T' black m' -> inorder T' = before C ++ z :: after C -> within (inorder T') t t' ->
  ordered key (before C ++ after C) -> parted key (fun a => a <= key z) (fun a => key z <= a) C ->
  becomes (before C ++ z :: after C) t (RbTree (root t') (1 + len t') (mem t') (nil_init t')).
Proof.
  intros Hlen Hi H' Hm' HT [Wl Wi Wd Wo] Hord [H1 H2]. rewrite HT in Wo. split; [|by split].
  exists T', m'. split_and!; [by destruct H'|done|done|by apply ordered_insert| |cbn [nil_init]; congruence].
  cbn [len]. rewrite Wl, Hlen, !length_app. simpl. lia.
Qed.

Lemma add_spec F l z t : holds key l t -> z ∉ l -> z ≠ nil -> is_Some (mem t !! z) ->
  wpf F (add key z) (fun _ t' => exists l1 l2, l = l1 ++ l2 /\ (forall y, y ∈ l1 -> key y <= key z) /\
    (forall y, y ∈ l2 -> key z < key y) /\ becomes (l1 ++ z :: l2) t t') t.
Proof.
  intros (T & m & Ht & Hm & <- & Hord & Hlen & Hi) Hz Hz0 Hs. unfold add, bound. wp_line. rewrite (rbt_root _ _ _ Ht).
  wp_line. eapply wpf_mono; [apply (add_loop_spec F nil key _ (key z) [] T t Ht Hord)|].
  { apply (rbt_depth nil [] T t Ht). } { split; simpl; set_solver. }
  intros y t' (-> & C & HC & HP & ->). cbn [plug] in HC. subst T.
  pose proof (rbt_shape _ _ _ Ht) as Hsh. apply shape_plug in Hsh as [Har _]. rewrite (link_attach key C z _ _ Har HP).
  apply (place_spec F nil C z t m _ _ Ht Hm Hz Hz0 Hs). intros T' m' t' H' Hm' HT W.
  rewrite inorder_plug_eq in Hord, Hlen |- *. cbn [inorder app] in Hord, Hlen |- *. wp_line.
  exists (before C), (after C). destruct HP as [H1 H2]. split_and!; try done.
  eapply becomes_add; try done. split; [done|]. intros a Ha%H2. lia.
Qed.

Lemma findOrAdd_spec F l z t : holds key l t -> z ∉ l -> z ≠ nil -> is_Some (mem t !! z) ->
  wpf F (findOrAdd key z) (fun o t' =>
    match o with
    | Some x => t' = t /\ x ∈ l /\ key x = key z
    | None => exists l1 l2, l = l1 ++ l2 /\ (forall y, y ∈ l1 -> key y < key z) /\
        (forall y, y ∈ l2 -> key z < key y) /\ becomes (l1 ++ z :: l2) t t'
    end) t.
Proof.
  intros (T & m & Ht & Hm & <- & Hord & Hlen & Hi) Hz Hz0 Hs. unfold findOrAdd, bound. wp_line. rewrite (rbt_root _ _ _ Ht).
  wp_line. eapply wpf_mono; [apply (findOrAdd_loop_spec F nil key _ (key z) [] T t Ht Hord)|].
  { apply (rbt_depth nil [] T t Ht). } { split; simpl; set_solver. }
  intros [x|y] t' (-> & Ho); [by wp_line|]. destruct Ho as (C & HC & HP & ->). cbn [plug] in HC. subst T.
  pose proof (rbt_shape _ _ _ Ht) as Hsh. apply shape_plug in Hsh as [Har _]. rewrite (link_new_attach key C z _ _ Har HP).
  apply (place_spec F nil C z t m _ _ Ht Hm Hz Hz0 Hs). intros T' m' t' H' Hm' HT W.
  rewrite inorder_plug_eq in Hord, Hlen |- *. cbn [inorder app] in Hord, Hlen |- *. wp_line.
  exists (before C), (after C). destruct HP as [H1 H2]. split_and!; try done.
  eapply becomes_add; try done. split; intros a; [intros Ha%H1; lia|intros Ha%H2; lia].
Qed.
End operations.

Lemma holds_ext key key' l t : (forall x, x ∈ l -> key' x = key x) -> holds key l t -> holds key' l t.
Proof.
  intros Hk (T & m & H1 & H2 & H3 & H4 & H5). exists T, m. split_and!; try done; try tauto. clear - Hk H4.
  induction H4 as [|x l H IH Hx]; constructor.
  - apply IH. intros y Hy. apply Hk. set_solver.
  - rewrite Forall_forall in Hx |- *. intros y Hy. rewrite !Hk by set_solver. by apply Hx.
Qed.
(** Memory of a node that is not in the tree. *)
Lemma rbt_fresh np T t p n : p ∉ inorder T -> p ≠ nil -> rbt np T t ->
  rbt np T (RbTree (root t) (len t) (<[p := n]> (mem t)) (nil_init t)).
Proof.
  intros Hp Hp0 [H1 H2 H3 H4]. split; try done; cbn [mem].
  - eapply shape_ext; [|exact H2]. intros q Hq. rewrite lookup_insert_ne; [done|]. by intros ->.
  - by rewrite lookup_insert_ne.
Qed.
Lemma holds_fresh key l t p n : p ∉ l -> p ≠ nil -> holds key l t ->
  holds key l (RbTree (root t) (len t) (<[p := n]> (mem t)) (nil_init t)).
Proof. intros Hp Hp0 (T & m & H1 & H2 & <- & H4). exists T, m. split_and!; try done; try tauto. by apply rbt_fresh. Qed.

(** ** What a client relies on *)

Lemma init_spec F key t : (nil_init t = true -> mem t !! nil = Some (Rb nil nil nil black)) ->
  wpf F init (fun _ t' => holds key [] t' /\ (forall p, is_Some (mem t !! p) -> is_Some (mem t' !! p))) t.
Proof.
  intros Hn. unfold init. wp_line. split.
  - exists Leaf, 0%nat. split_and!; try done; [|constructor|constructor]. split; try done; [constructor|]. cbn [mem].
    destruct (nil_init t); [by apply Hn|]. apply lookup_insert_eq.
  - intros p Hp. cbn [mem]. destruct (nil_init t); [done|]. destruct (decide (p = nil)) as [->|Hne].
    + rewrite lookup_insert_eq. eauto.
    + by rewrite lookup_insert_ne.
Qed.

Lemma add_all_spec F key zs l t :
  holds key l t -> NoDup (l ++ zs) -> nil ∉ zs -> (forall z, z ∈ zs -> is_Some (mem t !! z)) ->
  wpf F (iterM (add key) zs) (fun _ t' => exists l', holds key l' t' /\ l' ≡ₚ l ++ zs) t.
Proof.
  revert l t. induction zs as [|z zs IH]; intros l t Hl Hnd Hnil Hs; cbn [iterM].
  - apply wpf_ret. exists l. by rewrite app_nil_r.
  - wp_line. eapply wpf_mono; [apply (add_spec key F l z t Hl)|].
    { apply NoDup_app in Hnd as (_ & H & _). set_solver. } { set_solver. } { apply Hs. set_solver. }
    intros [] t' (l1 & l2 & -> & _ & _ & Hl' & Hdom & _).
    assert (Hp : (l1 ++ z :: l2) ++ zs ≡ₚ (l1 ++ l2) ++ z :: zs) by solve_Permutation.
    eapply wpf_mono; [apply (IH _ _ Hl')|].
    + by rewrite Hp.
    + set_solver.
    + intros y Hy. apply elem_of_dom. rewrite Hdom. apply elem_of_dom. apply Hs. set_solver.
    + intros [] t'' (l' & H' & Hp'). exists l'. split; [done|]. by rewrite Hp', Hp.
Qed.
Lemma iter_spec F key l t : holds key l t ->
  wpf F (cur ← iter; drain (S (length l)) cur) (fun xs t' => t' = t /\ xs = l) t.
Proof.
  intros (T & m & Ht & _ & <- & _). unfold iter. wp_line. rewrite (rbt_root _ _ _ Ht). wp_line.
  eapply wpf_mono; [apply (minChild_spec F nil [] T t Ht)|]. intros x t' [-> ->]. by apply (iterate_spec F nil T []).
Qed.

(** C14: [findOrAdd] returns a node with the key of [z], with the tree as it was, when there is one; otherwise it
    puts [z] at the place of its key and the result is again a red-black tree in order, with one more node, and no
    other node of memory changes. *)
Theorem findOrAdd_correct key l z t : holds key l t -> z ∉ l -> z ≠ nil -> is_Some (mem t !! z) ->
  wp (findOrAdd key z) (fun o t' =>
    match o with
    | Some x => t' = t /\ x ∈ l /\ key x = key z
    | None => exists l1 l2, l = l1 ++ l2 /\ (forall y, y ∈ l1 -> key y < key z) /\
        (forall y, y ∈ l2 -> key z < key y) /\ becomes key (l1 ++ z :: l2) t t'
    end) t.
Proof. apply findOrAdd_spec. Qed.

(** Adding any distinct nodes to a new tree, with repeated keys or without, and iterating over it gives
    all of them in the order of their keys; no step of it faults or runs out of its bounds. *)
Theorem add_iterate_sorts key zs t :
  (nil_init t = true -> mem t !! nil = Some (Rb nil nil nil black)) ->
  NoDup zs -> nil ∉ zs -> (forall z, z ∈ zs -> is_Some (mem t !! z)) ->
  wp (init;; iterM (add key) zs;; cur ← iter; drain (S (length zs)) cur) (fun xs _ => ordered key xs /\ xs ≡ₚ zs) t.
Proof.
  intros Hn Hnd Hnil Hs. wp_line. eapply wpf_mono; [by apply init_spec|]. intros [] t1 [H1 Hs1].
  wp_line. eapply wpf_mono; [apply (add_all_spec _ key zs [] t1 H1); [done|done|auto]|]. intros [] t2 (l & H2 & Hl).
  simpl in Hl. rewrite <- (Permutation_length Hl). eapply wpf_mono; [by apply (iter_spec _ key)|]. intros xs t' [_ ->].
  destruct H2 as (T & m & _ & _ & _ & Hord & _). done.
Qed.

(** In a tree of [n] nodes [find] takes at most [2 log2 (n + 1) + 1] rounds; it returns a node with the key
    when there is one, and nothing otherwise. *)
Theorem find_logarithmic key l k t : holds key l t ->
  wp (find_loop key (2 * Nat.log2 (S (length l)) + 1) k (root t)) (fun o t' => t' = t /\
    match o with Some x => x ∈ l /\ key x = k | None => forall x, x ∈ l -> key x ≠ k end) t.
Proof.
  intros (T & Ht & <- & Hord & Hh)%holds_height. rewrite (rbt_root _ _ _ Ht).
  apply (rb_find_loop_spec _ nil key _ k [] T t Ht Hord). lia.
Qed.

(** [lowerBound] returns the first node, in order, whose key is not below [k], if any. *)
Theorem lowerBound_correct key l k t : holds key l t ->
  wp (lowerBound key k) (fun o t' => t' = t /\ exists l1 l2, l = l1 ++ l2 /\
    (forall y, y ∈ l1 -> key y < k) /\ (forall y, y ∈ l2 -> k <= key y) /\ o = head l2) t.
Proof. intros (T & m & Ht & _ & <- & Hord & _). by apply (lowerBound_spec _ nil). Qed.

(** ** Concrete trees *)

(** Nodes 1 to 8 as their owners allocated them; the key of a node is its address. *)
Definition fresh : rbtree := RbTree 0 0 (list_to_map ((fun p => (Z.of_nat p, Rb 7 7 7 red)) <$> seq 1 8)) false.
(** Three nodes, of which the middle one is the root. *)
Definition small : rbtree :=
  RbTree 2 3 (<[0 := Rb 0 0 0 black]> $ <[1 := Rb 0 0 2 red]> $ <[2 := Rb 1 3 0 black]> $ <[3 := Rb 0 0 2 red]> (mem fresh)) true.
Lemma small_holds : holds id [1; 2; 3] small.
Proof.
  exists (Node black (Node red Leaf 1 Leaf) 2 (Node red Leaf 3 Leaf)), 1%nat. split_and!; try done.
  - split; [done| | |done].
    + cbn [shape root_of]. by split_and!.
    + by apply (bool_decide_unpack _).
  - repeat econstructor.
  - repeat constructor; simpl; lia.
Qed.

Lemma findOrAdd_correct_witness : exists t', findOrAdd id 4 small = Ok (None, t').
Proof.
  destruct (wp_inv _ _ _ (findOrAdd_correct id [1; 2; 3] 4 small small_holds ltac:(set_solver) ltac:(done) ltac:(eexists; vm_compute; done)))
    as (o & t' & E & _). exists t'. rewrite E. destruct o as [x|]; [|done]. vm_compute in E. done.
Defined.
Lemma add_iterate_sorts_witness : exists xs t',
  (init;; iterM (add (fun p => p mod 3)) [5; 3; 8; 1; 4; 2];; cur ← iter; drain 7 cur) fresh = Ok (xs, t') /\
  xs ≡ₚ [5; 3; 8; 1; 4; 2].
Proof.
  destruct (wp_inv _ _ _ (add_iterate_sorts (fun p => p mod 3) [5; 3; 8; 1; 4; 2] fresh ltac:(done)
    ltac:(by apply (bool_decide_unpack _)) ltac:(set_solver)
    ltac:(intros z Hz; repeat (apply elem_of_cons in Hz as [->|Hz]; [eexists; vm_compute; done|]); set_solver)))
    as (xs & t' & E & _ & Hp). exists xs, t'. split; [exact E|exact Hp].
Defined.
Lemma find_logarithmic_witness : find_loop id 5 3 2 small = Ok (Some 3, small).
Proof.
  destruct (wp_inv _ _ _ (find_logarithmic id [1; 2; 3] 3 small small_holds)) as (o & t' & E & -> & _).
  change (find_loop id 5 3 2 small = Ok (o, small)) in E. rewrite E. vm_compute in E. congruence.
Defined.
Lemma lowerBound_correct_witness : lowerBound id 0 small = Ok (Some 1, small).
Proof.
  destruct (wp_inv _ _ _ (lowerBound_correct id [1; 2; 3] 0 small small_holds)) as (o & t' & E & -> & _).
  rewrite E. vm_compute in E. congruence.
Defined.

(** ** Removing nodes *)

(** Starts with the fresh nodes and a new tree. *)
Definition outcome_of {A} (m : M rbtree A) : outcome A :=
  match (init;; m) fresh with Ok (r, _) => Ok r | Fault f => Fault f end.
(** Removing two of four nodes paints the sentinel, a leaf of every tree, red. *)
Lemma erase_reddens_sentinel :
  outcome_of (iterM (add id) [3; 2; 1; 5];; erase 2;; erase 1;; rd col nil) = Ok red.
Proof. vm_compute. reflexivity. Qed.
(** Seven insertions and five removals.  Two nodes remain in the count, and searching finds neither of them; the
    sentinel has a child, so a tree that is made next, and is empty, has a least node. *)
Definition seven_five : M rbtree unit :=
  iterM (add id) [2; 8; 1; 5];; erase 8;; iterM (add id) [6; 7; 8];; erase 5;; erase 7;; erase 6;; erase 1;; mret tt.
Lemma erase_loses_nodes :
  outcome_of (seven_five;; t ← get; a ← find id 2; b ← find id 8; init;; c ← min; mret (len t, a, b, c))
  = Ok (2, None, None, Some 2).
Proof. vm_compute. reflexivity. Qed.
