(* ===== verification/RbErase.v ===== *)
(** * Red-black trees: removing a node

    A removal from a red-black tree takes exactly the node out of the sequence.
    The colors it leaves may be wrong, because the repair does not paint the node
    where it stops; [RbAdd] shows runs where later removals then lose nodes. *)

From Stdlib Require Import Sorting.Sorted.
From S2P Require Import Prelude RbTree RbShape RbSearch RbInsert RbAdd.

(** ** The repair *)

(** The end of a round, with a black sibling [w], for the side of the parent that the node is on. *)
Definition erase_black (d : dir) (loop : Z -> M rbtree unit) (x w : Z) : M rbtree unit :=
  a ← rd (child d) w; ac ← rd col a;
  b ← rd (child (flip d)) w; bc ← rd col b;
  if bool_decide (ac = black) && bool_decide (bc = black) then
    wr (set_col red) w;; xp ← rd parent x; loop xp
  else
    w ← (if bool_decide (bc = black) then
           a ← rd (child d) w; wr (set_col black) a;; wr (set_col red) w;; rotate (flip d) w;;
           xp ← rd parent x; rd (child (flip d)) xp
         else mret w);
    xp ← rd parent x; pc ← rd col xp;
    wr (set_col pc) w;;
    wr (set_col black) xp;;
    b ← rd (child (flip d)) w; wr (set_col black) b;;
    xp ← rd parent x; rotate d xp;;
    t ← get; loop (root t).
(** A round: a red sibling is first rotated away. *)
Definition erase_side (d : dir) (loop : Z -> M rbtree unit) (x xp : Z) : M rbtree unit :=
  w ← rd (child (flip d)) xp;
  wc ← rd col w;
  w ← (if bool_decide (wc = red) then
         wr (set_col black) w;; q ← rd parent (match d with L => x | R => w end); wr (set_col red) q;;
         xp ← rd parent x; rotate d xp;;
         xp ← rd parent x; rd (child (flip d)) xp
       else mret w);
  erase_black d loop x w.
Lemma eraseFixup_loop_S fuel x : eraseFixup_loop (S fuel) x =
  (t ← get;
   xc ← rd col x;
   if bool_decide (x ≠ root t) && bool_decide (xc = black) then
     xp ← rd parent x;
     pl ← rd left xp;
     if bool_decide (x = pl) then erase_side L (eraseFixup_loop fuel) x xp else erase_side R (eraseFixup_loop fuel) x xp
   else mret tt).
Proof. reflexivity. Qed.

(** The same nodes in the same order. *)
Definition kept (np : Z) (T : tree) (t t' : rbtree) : Prop :=
  exists T', rbt np T' t' /\ inorder T' = inorder T /\ within (inorder T) t t'.

Section fixup.
Context (F : fault -> Prop) (np : Z).

Lemma kept_refl T t : rbt np T t -> kept np T t t.
Proof. intros H. by exists T. Qed.
Lemma kept_trans T T1 t t1 t' : inorder T1 = inorder T -> within (inorder T) t t1 -> kept np T1 t1 t' -> kept np T t t'.
Proof.
  intros HT H1 (T' & Ht' & HT' & Hw'). exists T'. split_and!; [done|congruence|]. rewrite HT in Hw'. by eapply within_trans.
Qed.

(** The parent of a subtree's root; of the sentinel, when it was set. *)
Lemma rd_parent E X t (Q : Z -> rbtree -> Prop) :
  rbt np (plug E X) t -> (X = Leaf -> np = top E) -> Q (top E) t -> wpf F (rd parent (root_of X)) Q t.
Proof.
  intros Ht HX HQ. destruct X as [|c l p r].
  - eapply wp_rd; [apply Ht|]. cbn [parent]. by rewrite HX.
  - eapply wp_rd; [apply (rbt_lookup _ E L c l p r t Ht)|done].
Qed.
Lemma plug_far d c a x d' c' b y f C : plug C (nodeD d c a x (nodeD d' c' b y f)) = plug (Frame (flip d) c x a :: C) (nodeD d' c' b y f).
Proof. apply plug_other. Qed.

(** The rotation at the end: the far child of the sibling is red. *)
Lemma erase_outer d E cp X p A w B (loop : Z -> M rbtree unit) t :
  rbt np (plug E (nodeD d cp X p (nodeD d black A w B))) t -> (X = Leaf -> np = p) -> colr B = red ->
  (forall T t, rbt np T t -> wpf F (loop (root t)) (fun _ t' => kept np T t t') t) ->
  wpf F (xp ← rd parent (root_of X); pc ← rd col xp;
    wr (set_col pc) w;;
    wr (set_col black) xp;;
    b ← rd (child (flip d)) w; wr (set_col black) b;;
    xp ← rd parent (root_of X); rotate d xp;;
    t ← get; loop (root t))
    (fun _ t' => kept np (plug E (nodeD d cp X p (nodeD d black A w B))) t t') t.
Proof.
  intros Ht HX HB Hloop. destruct B as [|cb bl b br]; [done|]. simpl in HB. subst cb.
  wp_line. eapply (rd_parent (Frame d cp p (nodeD d black A w (Node red bl b br)) :: E)); [exact Ht|done|]. cbn [top].
  wp_line. eapply wp_rd; [apply (rbt_lookup _ E d cp X p _ t Ht)|]. autorewrite with mkD.
  pose proof Ht as Ht0. rewrite plug_far in Ht0.
  wp_line. eapply wpf_mono; [apply (set_col_spec _ _ _ d black cp A w _ t Ht0)|]. intros [] t1 [H1 W1]. rewrite <- plug_far in H1.
  wp_line. eapply wpf_mono; [apply (set_col_spec _ _ E d cp black X p _ t1 H1)|]. intros [] t2 [H2 W2].
  pose proof H2 as H2'. rewrite plug_far in H2'.
  wp_line. eapply wp_rd; [apply (rbt_lookup _ _ d cp A w _ t2 H2')|]. autorewrite with mkD.
  rewrite plug_other in H2'. wp_line. eapply wpf_mono; [apply (set_col_spec _ _ _ L red black bl b br t2 H2')|].
  intros [] t3 [H3 W3]. rewrite <- plug_other, <- plug_other in H3. cbn [nodeD] in H3.
  wp_line. eapply (rd_parent (Frame d black p (nodeD d cp A w (Node black bl b br)) :: E)); [exact H3|done|]. cbn [top].
  wp_line. eapply wpf_mono; [apply rotate_spec; exact H3|]. intros [] t4 [H4 W4]. wp_line.
  eapply wpf_mono; [apply (Hloop _ _ H4)|]. intros [] t5 H5.
  eapply kept_trans; [|eapply within_trans; [|eapply within_trans; [|eapply within_trans]]|exact H5].
  - same_order d.
  - eapply within_same; [|exact W1]. same_order d.
  - eapply within_same; [|exact W2]. same_order d.
  - eapply within_same; [|exact W3]. same_order d.
  - eapply within_same; [|exact W4]. same_order d.
Qed.

Lemma erase_black_spec d E cp X p A w B (loop : Z -> M rbtree unit) t :
  rbt np (plug E (nodeD d cp X p (nodeD d black A w B))) t -> (X = Leaf -> np = p) ->
  (forall T t, rbt np T t -> wpf F (loop (root t)) (fun _ t' => kept np T t t') t) ->
  (forall t, colr A = black -> colr B = black -> rbt np (plug E (nodeD d cp X p (nodeD d red A w B))) t ->
     wpf F (loop p) (fun _ t' => kept np (plug E (nodeD d cp X p (nodeD d red A w B))) t t') t) ->
  wpf F (erase_black d loop (root_of X) w)
    (fun _ t' => kept np (plug E (nodeD d cp X p (nodeD d black A w B))) t t') t.
Proof.
  intros Ht HX Hroot Hup. unfold erase_black. pose proof Ht as Ht0. rewrite plug_far in Ht0.
  wp_line. eapply wp_rd; [apply (rbt_lookup _ _ d black A w B t Ht0)|]. autorewrite with mkD.
  wp_line. eapply (rd_col F np (Frame d black w B :: Frame (flip d) cp p X :: E) A); [exact Ht0|].
  wp_line. eapply wp_rd; [apply (rbt_lookup _ _ d black A w B t Ht0)|]. autorewrite with mkD.
  pose proof Ht0 as Ht1. rewrite plug_other in Ht1. wp_line. eapply rd_col; [exact Ht1|].
  destruct (colr B) eqn:HB; [|rewrite (bool_decide_false (red = black)) by done; rewrite andb_false_r].
  - destruct (colr A) eqn:HA; [rewrite !bool_decide_true by done; cbn [andb]|
      rewrite (bool_decide_false (red = black)), (bool_decide_true (black = black)) by done; cbn [andb]].
    + wp_line. eapply wpf_mono; [apply (set_col_spec _ _ _ d black red A w B t Ht0)|]. intros [] t1 [H1 W1].
      rewrite <- plug_far in H1. wp_line. eapply (rd_parent (Frame d cp p _ :: E)); [exact H1|done|]. cbn [top].
      eapply wpf_mono; [apply (Hup t1 eq_refl eq_refl H1)|]. intros [] t2 H2.
      eapply kept_trans; [|eapply within_same; [|exact W1]|exact H2]; same_order d.
    + destruct A as [|ca al a ar]; [done|]. simpl in HA. subst ca. wp_line.
      eapply wp_rd; [apply (rbt_lookup _ _ d black _ w B t Ht0)|]. autorewrite with mkD. cbn [root_of].
      wp_line. eapply wpf_mono; [apply (set_col_spec _ _ (Frame d black w B :: Frame (flip d) cp p X :: E) L red black al a ar t Ht0)|].
      intros [] t1 [H1 W1]. cbn [plug nodeD] in H1, W1.
      wp_line. eapply wpf_mono; [apply (set_col_spec _ _ (Frame (flip d) cp p X :: E) d black red _ w B t1 H1)|]. intros [] t2 [H2 W2].
      assert (exists a1 b1, forall c, Node c al a ar = nodeD (flip d) c a1 a b1) as (a1 & b1 & E1)
        by (destruct d; [exists ar, al|exists al, ar]; done).
      rewrite !E1 in *. rewrite <- (nodeD_flip d) in H2.
      wp_line. eapply wpf_mono; [apply rotate_spec; exact H2|]. intros [] t3 [H3 W3]. rewrite !nodeD_flip in H3. rewrite <- plug_far in H3.
      wp_line. eapply (rd_parent (Frame d cp p _ :: E)); [exact H3|done|]. cbn [top].
      eapply wp_rd; [apply (rbt_lookup _ E d cp X p _ t3 H3)|]. autorewrite with mkD.
      eapply wpf_mono; [apply erase_outer; [exact H3|done|by destruct d|exact Hroot]|]. intros [] t4 H4.
      eapply kept_trans; [|eapply within_trans; [|eapply within_trans]|exact H4].
      * same_order d.
      * eapply within_same; [|exact W1]. same_order d.
      * eapply within_same; [|exact W2]. same_order d.
      * eapply within_same; [|exact W3]. same_order d.
  - apply wpf_bind, wpf_ret. by apply erase_outer.
Qed.

Lemma rb_node_black W n d : rb W black (S n) -> exists A w B ca cb, W = nodeD d black A w B /\ rb A ca n /\ rb B cb n.
Proof. inversion 1; subst. destruct d; eauto 10. Qed.
Lemma rb_node_red W n d : rb W red n -> exists A w B, W = nodeD d red A w B /\ rb A black n /\ rb B black n.
Proof. inversion 1; subst. destruct d; eauto 10. Qed.

Lemma erase_side_spec d E cp X p W cw n (loop : Z -> M rbtree unit) t :
  rbt np (plug E (nodeD d cp X p W)) t -> (X = Leaf -> np = p) -> rb X black n -> rb W cw (S n) -> (cp = red -> cw = black) ->
  (forall T t, rbt np T t -> wpf F (loop (root t)) (fun _ t' => kept np T t t') t) ->
  (forall E X t, rbt np (plug E X) t -> colr X = red -> wpf F (loop (root_of X)) (fun _ t' => kept np (plug E X) t t') t) ->
  (forall X t, cp = black -> rbt np (plug E X) t -> X ≠ Leaf -> rb X black (S n) ->
     wpf F (loop (root_of X)) (fun _ t' => kept np (plug E X) t t') t) ->
  wpf F (erase_side d loop (root_of X) p) (fun _ t' => kept np (plug E (nodeD d cp X p W)) t t') t.
Proof.
  intros Ht HX HrX HrW Hcp Hroot Hred Hup. unfold erase_side. wp_line.
  eapply wp_rd; [apply (rbt_lookup _ E d cp X p W t Ht)|]. autorewrite with mkD.
  pose proof Ht as Ht0. rewrite plug_other in Ht0. wp_line. eapply rd_col; [exact Ht0|]. rewrite (rb_colr _ _ _ HrW). destruct cw.
  - destruct (rb_node_black _ _ d HrW) as (A & w & B & ca & cb & -> & HA & HB). rewrite bool_decide_false, root_of_nodeD by done.
    apply wpf_bind, wpf_ret. apply erase_black_spec; [done..|]. intros t' EA EB Ht'.
    rewrite (rb_colr _ _ _ HA) in EA. rewrite (rb_colr _ _ _ HB) in EB. subst.
    pose proof (Hred E _ t' Ht') as Hr. pose proof (fun H => Hup _ t' H Ht') as Hb. rewrite root_of_nodeD in Hr, Hb. destruct cp.
    + apply Hb; [done|by destruct d|]. eapply rb_nodeD_black; [done|]. by apply rb_nodeD_red.
    + apply Hr. by destruct d.
  - destruct (rb_node_red _ _ d HrW) as (A & w & B & -> & HA & HB). destruct cp; [|by specialize (Hcp eq_refl)].
    rewrite bool_decide_true, root_of_nodeD by done.
    wp_line. eapply wpf_mono; [apply (set_col_spec _ _ _ d red black A w B t Ht0)|]. intros [] t1 [H1 W1]. rewrite <- plug_far in H1.
    assert (Hq : forall Q : Z -> rbtree -> Prop, Q p t1 -> wpf F (rd parent (match d with L => root_of X | R => w end)) Q t1).
    { intros Q HQ. destruct d; [by eapply (rd_parent (Frame L black p _ :: E))|].
      eapply wp_rd; [apply (rbt_lookup np (Frame (flip R) black p X :: E) R black A w B t1); by rewrite <- plug_far|done]. }
    wp_line. apply Hq. wp_line. eapply wpf_mono; [apply (set_col_spec _ _ E d black red X p _ t1 H1)|]. intros [] t2 [H2 W2].
    wp_line. eapply (rd_parent (Frame d red p _ :: E)); [exact H2|done|]. cbn [top].
    wp_line. eapply wpf_mono; [apply rotate_spec; exact H2|]. intros [] t3 [H3 W3].
    wp_line. eapply (rd_parent (Frame d red p _ :: Frame d black w _ :: E)); [exact H3|done|]. cbn [top].
    eapply wp_rd; [apply (rbt_lookup _ (Frame d black w B :: E) d red X p A t3 H3)|]. autorewrite with mkD.
    destruct (rb_node_black _ _ d HA) as (A1 & a & A2 & c1 & c2 & -> & HA1 & HA2). rewrite root_of_nodeD.
    eapply wpf_mono; [apply (erase_black_spec d (Frame d black w B :: E) red X p A1 a A2); [exact H3|done|done|]|].
    { intros t' _ _ Ht'. pose proof (Hred (Frame d black w B :: E) _ t' Ht') as Hr. rewrite root_of_nodeD in Hr. apply Hr. by destruct d. }
    intros [] t4 H4. eapply kept_trans; [|eapply within_trans; [|eapply within_trans]|exact H4].
    + same_order d.
    + eapply within_same; [|exact W1]. same_order d.
    + eapply within_same; [|exact W2]. same_order d.
    + eapply within_same; [|exact W3]. same_order d.
Qed.

(** The loop stops at a red node and at the root. *)
Lemma erase_stop_red fuel E X t : rbt np (plug E X) t -> colr X = red ->
  wpf F (eraseFixup_loop (S fuel) (root_of X)) (fun _ t' => kept np (plug E X) t t') t.
Proof.
  intros Ht HX. rewrite eraseFixup_loop_S. wp_line. eapply rd_col; [exact Ht|]. rewrite HX.
  rewrite (bool_decide_false (red = black)), andb_false_r by done. apply wpf_ret. by apply kept_refl.
Qed.
Lemma erase_stop_root fuel T t : rbt np T t ->
  wpf F (eraseFixup_loop (S fuel) (root t)) (fun _ t' => kept np T t t') t.
Proof.
  intros Ht. rewrite eraseFixup_loop_S. wp_line. rewrite (rbt_root _ _ _ Ht). eapply (rd_col F np []); [exact Ht|].
  rewrite bool_decide_false by auto. cbn [andb]. apply wpf_ret. by apply kept_refl.
Qed.

Lemma root_plug_in d c p s C X : root_of (plug (Frame d c p s :: C) X) ∈ cnodes (Frame d c p s :: C).
Proof.
  revert d c p s X. induction C as [|[d' c' p' s'] C IH]; intros d c p s X; [simpl; rewrite root_of_nodeD; set_solver|].
  change (root_of (plug (Frame d' c' p' s' :: C) (nodeD d c X p s)) ∈ cnodes (Frame d c p s :: Frame d' c' p' s' :: C)).
  specialize (IH d' c' p' s' (nodeD d c X p s)). simpl in *. set_solver.
Qed.
Lemma root_notin_ctx C X t : rbt np (plug C X) t -> root_of X ∉ cnodes C.
Proof.
  intros [_ Hsh Hnd _]. apply shape_plug in Hsh as [HC _]. rewrite inorder_plug in Hnd. apply NoDup_app in Hnd as (_ & Hd & _).
  destruct (root_in X) as [->|Hin]; [by eapply nil_notin_ctx|by apply Hd].
Qed.

(** The subtree [X] is one black node short. *)
Lemma eraseFixup_loop_spec fuel E X n t : (length E < fuel)%nat ->
  rbt np (plug E X) t -> (X = Leaf -> np = top E) -> rb X black n -> okctx E (S n) black ->
  wpf F (eraseFixup_loop fuel (root_of X)) (fun _ t' => kept np (plug E X) t t') t.
Proof.
  revert E X n t. induction fuel as [|fuel IH]; intros E X n t Hf Ht HX HrX HE; [lia|].
  destruct E as [|[d cp p W] E].
  - pose proof (rbt_root _ _ _ Ht) as Hr. cbn [plug] in Hr. rewrite <- Hr. by apply erase_stop_root.
  - assert (exists cw, rb W cw (S n) /\ (cp = red -> cw = black) /\ (cp = black -> okctx E (S (S n)) black)) as (cw & HrW & Hcw & HE').
    { destruct cp; simpl in HE; [destruct HE as [[cw ?] ?]; by exists cw|destruct HE as (_ & ? & _); by exists black]. }
    assert (HW : root_of W ≠ nil /\ root_of W ≠ root_of X).
    { assert (HW0 : root_of W ≠ nil).
      { inversion HrW; subst; [apply (rbt_lookup np (Frame (flip d) cp p X :: E) L red l p0 r t)|
          apply (rbt_lookup np (Frame (flip d) cp p X :: E) L black l p0 r t)]; by rewrite <- plug_other. }
      split; [done|]. cbn [plug] in Ht. rewrite <- nodeD_flip in Ht. by eapply sibling_ne. }
    destruct HW as [HW0 HWX]. destruct (rbt_lookup _ E d cp X p W t Ht) as [Hp Hlp].
    rewrite eraseFixup_loop_S. wp_line. eapply (rd_col F np (Frame d cp p W :: E)); [exact Ht|].
    rewrite (rb_colr _ _ _ HrX), (bool_decide_true (black = black)) by done. rewrite bool_decide_true.
    2: { rewrite (rbt_root _ _ _ Ht). intros Er. pose proof (root_plug_in d cp p W E X) as Hin.
      rewrite <- Er in Hin. by eapply (root_notin_ctx (Frame d cp p W :: E)). }
    cbn [andb]. wp_line. eapply (rd_parent (Frame d cp p W :: E)); [exact Ht|done|]. cbn [top].
    wp_line. eapply wp_rd; [exact Hlp|].
    assert (Hside : wpf F (erase_side d (eraseFixup_loop fuel) (root_of X) p) (fun _ t' => kept np (plug E (nodeD d cp X p W)) t t') t).
    { simpl in Hf. destruct fuel as [|fuel]; [lia|]. eapply erase_side_spec; [done..| | |].
      - intros T' t'. apply erase_stop_root.
      - intros E' X' t'. apply erase_stop_red.
      - intros X' t' Hc Ht' HX' HrX'. eapply IH; [lia|done|done|done|auto]. }
    destruct d; cbn [mkD left]; [by rewrite bool_decide_true|]. by rewrite bool_decide_false.
Qed.

Lemma eraseFixup_spec E X cx n t :
  rbt np (plug E X) t -> (X = Leaf -> np = top E) -> rb X cx n -> okctx E (S n) black ->
  wpf F (eraseFixup (root_of X)) (fun _ t' => kept np (plug E X) t t') t.
Proof.
  intros Ht HX HrX HE. unfold eraseFixup, bound. wp_line.
  assert (Hl : wpf F (eraseFixup_loop (S (size (mem t))) (root_of X)) (fun _ t' => kept np (plug E X) t t') t).
  { pose proof (rbt_depth _ _ _ _ Ht). destruct cx; [eapply eraseFixup_loop_spec; try done; lia|].
    apply erase_stop_red; [done|]. by eapply rb_colr. }
  wp_line. eapply wpf_mono; [exact Hl|]. intros [] t1 (T' & H1 & HT & W1).
  eapply wpf_mono; [by apply (blacken_root_spec F np T')|]. intros [] t2 [H2 W2].
  exists (blacken T'). split_and!; [done|by destruct T'|]. rewrite HT in W2. by eapply within_trans.
Qed.
End fixup.

(** ** Taking the node out *)

(** The parent that a transplanted root gets; the sentinel is one too. *)
Definition par_of (V : tree) (np par : Z) : Z := match V with Leaf => par | Node _ _ _ _ => np end.

Section unlink.
Context (F : fault -> Prop) (np : Z).

Lemma set_parent_spec V pv par t : shape (mem t) V pv -> NoDup (inorder V) -> mem t !! nil = Some (Rb nil nil np black) ->
  wpf F (wr (set_parent par) (root_of V)) (fun _ t' => shape (mem t') V par /\
    mem t' !! nil = Some (Rb nil nil (par_of V np par) black) /\ root t' = root t /\
    (forall p, p ≠ root_of V -> mem t' !! p = mem t !! p) /\ within (inorder V) t t') t.
Proof.
  intros HV Hnd Hnil. assert (exists n, mem t !! root_of V = Some n) as [n Hn].
  { destruct V as [|c l p r]; [eauto|]. destruct HV as (_ & Hp & _). eauto. }
  eapply wp_wr; [exact Hn|]. destruct V as [|c l p r].
  - cbn [root_of] in *. rewrite Hnil in Hn. simplify_eq. split_and!; try done; cbn [mem upd].
    + by rewrite lookup_insert_eq.
    + intros p Hp. by rewrite lookup_insert_ne.
    + split; try done; cbn [mem upd]; [rewrite dom_insert_lookup_L; [done|eauto]|]. intros p _ Hp. by rewrite lookup_insert_ne.
  - pose proof HV as (Hp & _). split_and!; try done; cbn [mem upd root_of].
    + eapply shape_reparent; [exact HV|done|]. intros q Hq. cbn [root_of]. case_decide as Eq.
      * subst q. rewrite lookup_insert_eq. cbn [root_of] in Hn. by rewrite Hn.
      * by rewrite lookup_insert_ne.
    + by rewrite lookup_insert_ne.
    + intros q Hq. by rewrite lookup_insert_ne.
    + apply within_upd; [simpl; set_solver|eauto].
Qed.

Lemma transplant_spec C u nu V pv t :
  around (mem t) C u -> u ≠ nil -> mem t !! u = Some nu -> parent nu = top C -> shape (mem t) V pv ->
  NoDup (u :: inorder V ++ cnodes C) -> mem t !! nil = Some (Rb nil nil np black) ->
  wpf F (transplant u (root_of V)) (fun _ t' => around (mem t') C (root_of V) /\ shape (mem t') V (top C) /\
    mem t' !! nil = Some (Rb nil nil (par_of V np (top C)) black) /\
    (forall p, p ≠ root_of V -> p ∉ cnodes C -> mem t' !! p = mem t !! p) /\
    within (inorder V ++ cnodes C) t t' /\ root t' = match C with [] => root_of V | _ => root t end) t.
Proof.
  intros HC Hu Hlu Hpar HV Hnd Hnil. apply NoDup_cons in Hnd as [Hu1 (HndV & Hd & HndC)%NoDup_app]. unfold transplant.
  wp_line. eapply wp_rd; [exact Hlu|]. rewrite Hpar.
  wp_line. eapply wpf_mono; [apply (relink_spec F L C u (root_of V) t HC Hu); apply NoDup_cons; split; [set_solver|done]|].
  intros [] t1 (HC1 & Hm1 & W1 & Hr1). pose proof (nil_notin_ctx _ _ _ HC) as HnC.
  wp_line. eapply wp_rd; [rewrite Hm1; [exact Hlu|right; set_solver]|]. rewrite Hpar.
  eapply wpf_mono; [apply (set_parent_spec V pv)|].
  - eapply shape_ext; [|exact HV]. intros p Hp. apply Hm1. right. set_solver.
  - done.
  - rewrite Hm1; [done|by right].
  - intros [] t2 (HV2 & Hn2 & Hr2 & Hm2 & W2). assert (HVC : root_of V ∉ cnodes C) by (destruct (root_in V) as [->|]; set_solver).
    split_and!; [|done|done| | |congruence].
    + eapply around_ext; [|exact HC1]. intros p Hp. apply Hm2. by intros ->.
    + intros p Hp HpC. rewrite Hm2, Hm1; auto.
    + eapply within_trans; [eapply within_mono; [|exact W1]|eapply within_mono; [|exact W2]]; set_solver.
Qed.

Lemma root_plug_match C t T V : root t = root_of (plug C T) ->
  match C with [] => root_of V | _ => root t end = root_of (plug C V).
Proof. destruct C as [|[d c p s] C]; [done|]. intros ->. apply root_of_plug_cons. Qed.

(** A node with one child, or none, is replaced by it. *)
Lemma splice_spec C d c V z t : rbt np (plug C (nodeD d c V z Leaf)) t ->
  wpf F (transplant z (root_of V)) (fun _ t' => rbt (par_of V np (top C)) (plug C V) t' /\ mem t' !! z = mem t !! z /\
    within (inorder (plug C (nodeD d c V z Leaf))) t t') t.
Proof.
  intros Ht. destruct (rbt_lookup _ _ _ _ _ _ _ _ Ht) as [Hz Hlz]. destruct Ht as [Hroot Hsh Hnd Hnil].
  apply shape_plug in Hsh as [HC (_ & _ & HV & _)%shape_nodeD]. rewrite root_of_nodeD in HC.
  assert (Hall : inorder (plug C (nodeD d c V z Leaf)) ≡ₚ z :: inorder V ++ cnodes C).
  { rewrite inorder_plug, inorder_nodeD. simpl. solve_Permutation. }
  rewrite Hall in Hnd. eapply wpf_mono; [by eapply (transplant_spec C z _ V z t HC Hz Hlz); [apply parent_mkD|..]|].
  intros [] t' (HC' & HV' & Hn' & Hm' & W' & Hr'). apply NoDup_cons in Hnd as [Hz1 Hnd]. split; [split|split].
  - rewrite Hr'. by eapply root_plug_match.
  - by apply shape_plug.
  - by rewrite inorder_plug.
  - done.
  - apply Hm'; [|set_solver]. destruct (root_in V) as [->|]; set_solver.
  - eapply (within_mono (inorder V ++ cnodes C)); [|done]. intros p. rewrite Hall. set_solver.
Qed.

(** The successor [y] of [z], with the rest [R] of the right subtree below it, is out of the tree. *)
Definition detached (C : ctx) (cz : color) (l : tree) (z : Z) (y : Z) (R : tree) (t : rbtree) : Prop :=
  around (mem t) C z /\ z ≠ nil /\ (exists rz, mem t !! z = Some (Rb (root_of l) rz (top C) cz)) /\ shape (mem t) l z /\
  (exists cy pv, shape (mem t) (Node cy Leaf y R) pv) /\ mem t !! nil = Some (Rb nil nil np black) /\
  NoDup (z :: y :: inorder l ++ inorder R ++ cnodes C) /\ root t = root_of (plug C (Node cz l z R)).

(** It takes the place of [z]. *)
Lemma swap_spec C cz l z y R t {A} (k : M rbtree A) (Q : A -> rbtree -> Prop) :
  detached C cz l z y R t -> l ≠ Leaf ->
  (forall t', rbt np (plug C (Node cz l y R)) t' -> within (y :: inorder l ++ inorder R ++ cnodes C) t t' -> wpf F k Q t') ->
  wpf F (transplant z y;; zl ← rd left z; wr (set_left zl) y;; wr (set_parent y) zl;; zc ← rd col z; wr (set_col zc) y;; k) Q t.
Proof.
  intros (HC & Hz & [rz Hlz] & Hl & (cy & pv & HV) & Hnil & Hnd & Hroot) Hl0 Hk. pose proof Hnd as Hnd0.
  rewrite !NoDup_cons, !NoDup_app in Hnd. destruct Hnd as (Hz1 & Hy1 & Nl & Dl & NR & DR & NC).
  wp_line. eapply wpf_mono; [apply (transplant_spec C z _ (Node cy Leaf y R) pv t HC Hz Hlz); [done|done| |done]|].
  { simpl. rewrite !NoDup_cons, NoDup_app. set_solver. }
  intros [] t1 (HC1 & (Hy & Hly & _ & HR1) & Hn1 & Hm1 & W1 & Hr1). cbn [root_of par_of inorder] in *. simpl in W1.
  assert (Hlz1 : mem t1 !! z = Some (Rb (root_of l) rz (top C) cz)) by (rewrite Hm1 by set_solver; done).
  assert (Hl1 : shape (mem t1) l z) by (eapply shape_ext; [|exact Hl]; intros p Hp; apply Hm1; set_solver).
  wp_line. eapply wp_rd; [exact Hlz1|]. cbn [left]. wp_line. eapply wp_wr; [exact Hly|]. cbn [set_left left right parent col].
  wp_line. eapply wpf_mono; [apply (set_parent_spec l z y); [|done|by cbn [mem upd]; rewrite lookup_insert_ne]|].
  { cbn [mem upd]. eapply shape_ext; [|exact Hl1]. intros p Hp. rewrite lookup_insert_ne; set_solver. }
  intros [] t2 (Hl2 & Hn2 & Hr2 & Hm2 & W2). cbn [mem upd root] in Hm2, Hr2.
  assert (Hrl : root_of l ∈ inorder l) by (destruct l; [done|simpl; set_solver]).
  assert (Hly2 : mem t2 !! y = Some (Rb (root_of l) (root_of R) (top C) cy)) by (rewrite Hm2, lookup_insert_eq by set_solver; done).
  wp_line. eapply wp_rd; [rewrite Hm2, lookup_insert_ne by set_solver; exact Hlz1|]. cbn [col].
  wp_line. eapply wp_wr; [exact Hly2|]. cbn [set_col left right parent].
  assert (Hm : forall p, p ≠ y -> p ∉ inorder l -> (<[y:=Rb (root_of l) (root_of R) (top C) cz]> (mem t2)) !! p = mem t1 !! p).
  { intros p Hp Hpl. rewrite lookup_insert_ne, Hm2, lookup_insert_ne; set_solver. }
  apply Hk; [split|]; cbn [mem upd root].
  - rewrite Hr2, Hr1. apply (root_plug_match C t _ (Node cz l y R) Hroot).
  - apply shape_plug. cbn [root_of shape]. split_and!; [|done|by rewrite lookup_insert_eq| |].
    + eapply around_ext; [|exact HC1]. intros p Hp. apply Hm; set_solver.
    + eapply shape_ext; [|exact Hl2]. intros p Hp. rewrite lookup_insert_ne; set_solver.
    + eapply shape_ext; [|exact HR1]. intros p Hp. apply Hm; set_solver.
  - rewrite inorder_plug. apply NoDup_cons in Hnd0 as [_ Hnd0]. eapply NoDup_Permutation_proper; [|exact Hnd0]. simpl. solve_Permutation.
  - rewrite Hm; [done|done|]. by eapply nil_notin.
  - eapply (within_trans _ _ t1); [eapply within_mono; [|exact W1]; set_solver|].
    eapply (within_trans _ _ (upd y (Rb (root_of l) (root_of R) (top C) cy) t1)); [apply within_upd; [set_solver|eauto]|].
    eapply within_trans; [eapply within_mono; [|exact W2]; set_solver|].
    apply within_upd; [set_solver|eauto].
Qed.
End unlink.

Lemma plug_app D C t : plug (D ++ C) t = plug C (plug D t).
Proof. revert t. induction D as [|[d c p s] D IH]; intros t; simpl; [done|]. apply IH. Qed.

Lemma cnodes_app D C : cnodes (D ++ C) = cnodes D ++ cnodes C.
Proof. induction D as [|[d c p s] D IH]; simpl; [done|]. by rewrite IH, app_assoc. Qed.

Section detach.
Context (F : fault -> Prop).

(** The successor is the right child. *)
Lemma detach_near np C cz l z cy y yr t : rbt np (plug C (Node cz l z (Node cy Leaf y yr))) t ->
  wpf F (wr (set_parent y) (root_of yr)) (fun _ t' => detached (par_of yr np y) C cz l z y yr t' /\
    within (inorder (plug C (Node cz l z (Node cy Leaf y yr)))) t t') t.
Proof.
  intros [Hroot Hsh Hnd Hnil]. apply shape_plug in Hsh as [HC (Hz & Hlz & Hl & Hy & Hly & _ & Hyr)]. cbn [root_of] in *.
  assert (Hall : inorder (plug C (Node cz l z (Node cy Leaf y yr))) ≡ₚ z :: y :: inorder l ++ inorder yr ++ cnodes C).
  { rewrite inorder_plug. simpl. solve_Permutation. }
  rewrite Hall in Hnd. pose proof Hnd as Hnd0. rewrite !NoDup_cons, !NoDup_app in Hnd. destruct Hnd as (Hz1 & Hy1 & Nl & Dl & NR & DR & NC).
  pose proof (nil_notin _ _ _ Hl) as Hnl. pose proof (nil_notin_ctx _ _ _ HC) as HnC.
  eapply wpf_mono; [by apply (set_parent_spec F np yr y y)|]. intros [] t' (Hyr' & Hn' & Hr' & Hm' & W').
  assert (Hm : forall p, p ∉ inorder yr -> p ≠ nil -> mem t' !! p = mem t !! p).
  { intros p Hp Hp0. apply Hm'. destruct (root_in yr) as [->|]; [done|]. by intros ->. }
  split; [|eapply within_mono; [|exact W']; intros p; rewrite Hall; set_solver].
  split_and!; [| done | | | | done | done |].
  - eapply around_ext; [|exact HC]. intros p Hp. apply Hm; set_solver.
  - eexists. rewrite Hm; [exact Hlz|set_solver|done].
  - eapply shape_ext; [|exact Hl]. intros p Hp. apply Hm; set_solver.
  - exists cy, z. cbn [shape root_of]. split_and!; [done| |done|done]. rewrite Hm; [exact Hly|set_solver|done].
  - rewrite Hr', Hroot. by apply root_of_plug.
Qed.

(** The successor is further down. *)
Lemma detach_far np C cz l z d c p s D cy y yr t (G := Frame d c p s :: D) :
  rbt np (plug C (Node cz l z (plug G (Node cy Leaf y yr)))) t ->
  wpf F (transplant y (root_of yr);; zr ← rd right z; wr (set_right zr) y;; wr (set_parent y) zr)
    (fun _ t' => detached (par_of yr np (top G)) C cz l z y (plug G yr) t' /\
      within (inorder (plug C (Node cz l z (plug G (Node cy Leaf y yr))))) t t') t.
Proof.
  intros Ht. change (rbt np (plug C (nodeD R cz (plug G (nodeD R cy yr y Leaf)) z l)) t) in Ht.
  change (Node cz l z (plug G (Node cy Leaf y yr))) with (nodeD R cz (plug G (nodeD R cy yr y Leaf)) z l).
  assert (E : forall X, plug C (nodeD R cz (plug G X) z l) = plug (G ++ Frame R cz z l :: C) X) by (intros X; by rewrite plug_app).
  rewrite E in Ht |- *. destruct (rbt_lookup _ _ _ _ _ _ _ _ Ht) as [Hy Hly].
  wp_line. eapply wpf_mono; [apply (splice_spec F np _ R cy yr y t Ht)|]. intros [] t1 (H1 & Hm1 & W1). rewrite Hly in Hm1. simpl in Hm1.
  rewrite <- E in H1. change (top (G ++ Frame R cz z l :: C)) with (top G) in H1. set (R' := plug G yr) in *.
  assert (HR' : R' ≠ Leaf) by (intros ER; pose proof (root_plug_in d c p s D yr) as Hin; fold G in Hin; fold R' in Hin; rewrite ER in Hin;
    apply (rbt_shape _ _ _) in Ht; apply shape_plug in Ht as [HG _]; apply nil_notin_ctx in HG; rewrite cnodes_app in HG; set_solver).
  assert (Hall : inorder (plug (G ++ Frame R cz z l :: C) (nodeD R cy yr y Leaf)) ≡ₚ z :: y :: inorder l ++ inorder R' ++ cnodes C).
  { unfold R'. rewrite !inorder_plug, cnodes_app. simpl. solve_Permutation. }
  pose proof (rbt_nodup _ _ _ Ht) as Hnd. rewrite Hall in Hnd. clear E Ht. destruct H1 as [Hroot Hsh _ Hnil].
  apply shape_plug in Hsh as [HC (Hz & Hlz & Hl & HsR)]. cbn [root_of] in *. clearbody R' G.
  pose proof Hnd as Hnd0. rewrite !NoDup_cons, !NoDup_app in Hnd. destruct Hnd as (Hz1 & Hy1 & Nl & Dl & NR & DR & NC).
  wp_line. eapply wp_rd; [exact Hlz|]. cbn [right]. wp_line. eapply wp_wr; [exact Hm1|]. cbn [set_right left right parent col].
  pose proof (nil_notin _ _ _ Hl) as Hnl. pose proof (nil_notin_ctx _ _ _ HC) as HnC.
  eapply wpf_mono; [apply (set_parent_spec F (par_of yr np (top G)) R' z y); [|done|by cbn [mem upd]; rewrite lookup_insert_ne]|].
  { eapply shape_ext; [|exact HsR]. intros q Hq. cbn [mem upd]. rewrite lookup_insert_ne; set_solver. }
  intros [] t' (HR2 & Hn' & Hr' & Hm' & W'). cbn [mem upd root] in Hm', Hr'.
  assert (HrR : root_of R' ∈ inorder R') by (destruct R'; [done|simpl; set_solver]).
  assert (Hm : forall p, p ∉ y :: inorder R' -> mem t' !! p = mem t1 !! p).
  { intros q Hq. rewrite Hm', lookup_insert_ne; set_solver. }
  split.
  - split_and!; [| done | | | | | done |].
    + eapply around_ext; [|exact HC]. intros q Hq. apply Hm; set_solver.
    + eexists. rewrite Hm; [exact Hlz|set_solver].
    + eapply shape_ext; [|exact Hl]. intros q Hq. apply Hm; set_solver.
    + eexists cy, _. cbn [shape root_of]. split_and!; [done| |done|done]. rewrite Hm', lookup_insert_eq by set_solver. done.
    + rewrite Hn'. by destruct R'.
    + rewrite Hr', Hroot. done.
  - eapply within_trans; [exact W1|]. eapply (within_mono (y :: inorder R')); [intros q; rewrite Hall; set_solver|].
    eapply (within_trans _ _ _); [|eapply within_mono; [|exact W']; set_solver]. apply within_upd; [set_solver|eauto].
Qed.

Lemma least_position r y rest : NoDup (inorder r) -> inorder r = y :: rest ->
  exists D c yr, r = plug D (Node c Leaf y yr) /\ before D = [].
Proof.
  intros Hnd E. destruct (position_split r y [] rest Hnd E) as (D & c & l & yr & -> & Hl & _).
  symmetry in Hl. apply app_eq_nil in Hl as [HD Hl]. destruct l as [|c' l p r']; [eauto|]. cbn [inorder] in Hl. by destruct (inorder l).
Qed.

Lemma replace_by_succ_spec np C cz l z r t : rbt np (plug C (Node cz l z r)) t -> l ≠ Leaf -> r ≠ Leaf ->
  wpf F (replace_by_succ z) (fun o t' => exists D y yr np', r = plug D (Node (fst o) Leaf y yr) /\ before D = [] /\ snd o = root_of yr /\
    rbt np' (plug (D ++ Frame R cz y l :: C) yr) t' /\ (yr = Leaf -> np' = top (D ++ Frame R cz y l :: C)) /\
    within (inorder (plug C (Node cz l z r))) t t') t.
Proof.
  intros Ht Hl Hr. destruct (rbt_lookup np C L cz l z r t Ht) as [Hz Hlz]. unfold replace_by_succ.
  assert (Hndr : NoDup (inorder r)).
  { pose proof (rbt_nodup _ _ _ Ht) as H. rewrite inorder_plug in H. simpl in H. rewrite !NoDup_app, NoDup_cons in H. tauto. }
  wp_line. eapply wp_rd; [exact Hlz|]. cbn [mkD right].
  wp_line. eapply wpf_mono; [apply (minChild_spec F np (Frame R cz z l :: C) r t Ht)|]. intros y' t' [-> ->].
  destruct (inorder r) as [|y rest] eqn:E; [destruct r as [|? a]; [done|cbn [inorder] in E; by destruct (inorder a)]|]. cbn [head default id].
  rewrite <- E in Hndr. destruct (least_position r y rest Hndr E) as (D & cy & yr & -> & HD). clear E Hr.
  pose proof Ht as Hty. change (rbt np (plug (Frame R cz z l :: C) (plug D (Node cy Leaf y yr))) t) in Hty. rewrite <- plug_app in Hty.
  destruct (rbt_lookup _ _ L cy Leaf y yr t Hty) as [Hy Hly].
  wp_line. eapply wp_rd; [exact Hly|]. cbn [mkD col]. wp_line. eapply wp_rd; [exact Hly|]. cbn [mkD right].
  wp_line. eapply wp_rd; [exact Hly|]. cbn [mkD parent].
  assert (Hfin : forall np' t1 R', R' = plug D yr -> detached np' C cz l z y R' t1 -> (yr = Leaf -> np' = top (D ++ Frame R cz y l :: C)) ->
    within (inorder (plug C (Node cz l z (plug D (Node cy Leaf y yr))))) t t1 ->
    wpf F (transplant z y;; zl ← rd left z; wr (set_left zl) y;; wr (set_parent y) zl;; zc ← rd col z; wr (set_col zc) y;; mret (cy, root_of yr))
     (fun o t' => exists D0 y0 yr0 np', plug D (Node cy Leaf y yr) = plug D0 (Node (fst o) Leaf y0 yr0) /\ before D0 = [] /\ snd o = root_of yr0 /\
       rbt np' (plug (D0 ++ Frame R cz y0 l :: C) yr0) t' /\ (yr0 = Leaf -> np' = top (D0 ++ Frame R cz y0 l :: C)) /\
       within (inorder (plug C (Node cz l z (plug D (Node cy Leaf y yr))))) t t') t1).
  { intros np' t1 R' -> Hdet Hnp W1. eapply swap_spec; [exact Hdet|done|]. intros t2 H2 W2. apply wpf_ret.
    exists D, y, yr, np'. split_and!; [done|done|done|by rewrite plug_app|done|].
    eapply within_trans; [exact W1|]. eapply within_mono; [|exact W2]. intros q. clear. rewrite (inorder_plug C). cbn [inorder].
    rewrite !(inorder_plug D). cbn [inorder app]. set_solver. }
  destruct D as [|[d c p s] D].
  - cbn [app top]. rewrite bool_decide_true by done. apply wpf_bind.
    eapply wpf_mono; [apply (detach_near np C cz l z cy y yr t Ht)|]. intros [] t1 [Hd W1].
    eapply Hfin; [done|exact Hd|by intros ->|done].
  - cbn [app top]. rewrite bool_decide_false.
    + apply wpf_bind. eapply wpf_mono; [apply (detach_far np C cz l z d c p s D cy y yr t Ht)|]. intros [] t1 [Hd W1].
      eapply Hfin; [done|exact Hd|by intros ->|done].
    + intros ->. pose proof (rbt_nodup _ _ _ Hty) as H. rewrite inorder_plug, cnodes_app in H. cbn [cnodes] in H.
      apply NoDup_app in H as (_ & _ & H). apply NoDup_app in H as (_ & H & _). apply (H z); set_solver.
Qed.
End detach.

(** ** Removal *)

(** The tree still has its nodes in order; its colors may be wrong. *)
Definition walkable (key : Z -> Z) (l : list Z) (t : rbtree) : Prop :=
  exists np T, rbt np T t /\ inorder T = l /\ ordered key l /\ len t = Z.of_nat (length l) /\ nil_init t = true.
Lemma holds_walkable key l t : holds key l t -> walkable key l t.
Proof. intros (T & m & H & _ & HT & Ho & Hl). by exists nil, T. Qed.

Lemma ordered_remove key l1 z l2 : ordered key (l1 ++ z :: l2) -> ordered key (l1 ++ l2).
Proof.
  induction l1 as [|y l1 IH]; simpl; intros [H Hy]%StronglySorted_inv; [done|]. constructor; [by apply IH|].
  rewrite Forall_forall in Hy |- *. set_solver.
Qed.
Lemma okctx_rename D d c p p' s C n k : okctx (D ++ Frame d c p s :: C) n k -> okctx (D ++ Frame d c p' s :: C) n k.
Proof. revert n k. induction D as [|[d' [] q u] D IH]; intros n k; simpl; [done| |]; naive_solver. Qed.

(** What the removal of the node, before the repair, leaves: [X] at the position [E], which lacks a black node when the
    color [yc] is black. *)
Definition taken (T : tree) (l : list Z) (t : rbtree) (yc : color) (x : Z) (t' : rbtree) : Prop :=
  exists np E X, rbt np (plug E X) t' /\ (X = Leaf -> np = top E) /\ x = root_of X /\ inorder (plug E X) = l /\
    (yc = black -> exists cx n, rb X cx n /\ okctx E (S n) black) /\ within (inorder T) t t'.

Section erase.
Context (F : fault -> Prop).

Lemma taken_splice C d c V z m t : rbt nil (plug C (nodeD d c V z Leaf)) t -> rb (plug C (nodeD d c V z Leaf)) black m ->
  wpf F (transplant z (root_of V);; mret (c, root_of V))
    (fun o t' => taken (plug C (nodeD d c V z Leaf)) (before C ++ inorder V ++ after C) t (fst o) (snd o) t') t.
Proof.
  intros Ht Hm. wp_line. eapply wpf_mono; [by apply splice_spec|]. intros [] t' (H1 & _ & W1). apply wpf_ret.
  exists (par_of V nil (top C)), C, V. split_and!; [done|by intros ->|done|apply inorder_plug_eq| |done].
  cbn [fst]. intros ->. destruct (rb_plug_inv _ _ _ Hm) as (n & c & HC & Hn). destruct d; inversion Hn; subst; eauto.
Qed.
Lemma taken_succ C cz l z r m t : rbt nil (plug C (Node cz l z r)) t -> rb (plug C (Node cz l z r)) black m -> l ≠ Leaf -> r ≠ Leaf ->
  wpf F (replace_by_succ z)
    (fun o t' => taken (plug C (Node cz l z r)) (before C ++ inorder l ++ inorder r ++ after C) t (fst o) (snd o) t') t.
Proof.
  intros Ht Hm Hl Hr. eapply wpf_mono; [exact (replace_by_succ_spec F nil C cz l z r t Ht Hl Hr)|]. intros [yc x] t' (D & y & yr & np & -> & HD & Hx & H1 & Hnp & W1).
  cbn [fst snd] in *. exists np, (D ++ Frame R cz y l :: C), yr. split_and!; [done|done|done| | |done].
  - rewrite plug_app, inorder_plug_eq. cbn [plug nodeD]. rewrite inorder_plug_eq. cbn [inorder]. rewrite !inorder_plug_eq, HD.
    clear. cbn [inorder app before after]. by rewrite <- !app_assoc.
  - intros ->. change (rb (plug (Frame R cz z l :: C) (plug D (Node black Leaf y yr))) black m) in Hm. rewrite <- plug_app in Hm.
    destruct (rb_plug_inv _ _ _ Hm) as (n & c & HC & Hn). inversion Hn; subst. eapply okctx_rename in HC. eauto.
Qed.

Lemma erase_spec key l1 z l2 t : holds key (l1 ++ z :: l2) t ->
  wpf F (erase z) (fun o t' => o = head l2 /\ walkable key (l1 ++ l2) t' /\ dom (mem t') = dom (mem t) /\
    (forall p, p ∉ l1 ++ z :: l2 -> p ≠ nil -> mem t' !! p = mem t !! p)) t.
Proof.
  intros (T & m & Ht & Hm & HT & Hord & Hlen & Hi).
  destruct (position_split _ _ _ _ (rbt_nodup _ _ _ Ht) HT) as (C & c & l & r & -> & E1 & E2).
  destruct (rbt_lookup _ C L c l z r t Ht) as [Hz Hlz]. unfold erase. wp_line. eapply wp_rd; [exact Hlz|]. cbn [mkD col].
  wp_line. eapply wpf_mono; [apply (succ_at F nil _ _ _ _ t Ht HT)|]. intros nx t' [-> ->].
  wp_line. eapply wp_rd; [exact Hlz|]. cbn [mkD left]. wp_line. eapply wp_rd; [exact Hlz|]. cbn [mkD right]. apply wpf_bind.
  assert (Hmid : wpf F (if bool_decide (root_of l = nil) then transplant z (root_of r);; mret (c, root_of r)
                        else if bool_decide (root_of r = nil) then transplant z (root_of l);; mret (c, root_of l)
                        else replace_by_succ z)
    (fun o t' => taken (plug C (Node c l z r)) (l1 ++ l2) t (fst o) (snd o) t') t).
  { pose proof (rbt_shape _ _ _ Ht) as Hsh. apply shape_plug in Hsh as [_ (_ & _ & Hl & Hr)]. subst l1 l2. rewrite <- app_assoc.
    apply wpf_if; [intros El|intros El; apply wpf_if; intros Er]; bd.
    - apply (root_of_shape _ _ _ Hl) in El as ->. by apply (taken_splice C R c r z m).
    - apply (root_of_shape _ _ _ Hr) in Er as ->. by apply (taken_splice C L c l z m).
    - eapply taken_succ; [done|done|by intros ->|by intros ->]. }
  eapply wpf_mono; [exact Hmid|]. clear Hmid. intros [yc x] t1 (np & E & X & H1 & Hnp & Hx & HX & Hc & W1). cbn [fst snd] in *. subst x.
  assert (Hfix : wpf F (when (bool_decide (yc = black)) (eraseFixup (root_of X))) (fun _ t' => kept np (plug E X) t1 t') t1).
  { unfold when. apply wpf_if; intros Ey; bd; [|by apply wpf_ret, kept_refl]. destruct (Hc Ey) as (cx & n & HrX & HE). by eapply eraseFixup_spec. }
  apply wpf_bind. eapply wpf_mono; [exact Hfix|]. intros [] t2 (T2 & H2 & HT2 & W2). wp_line. rewrite HX in HT2, W2. rewrite HT in W1.
  assert (W : within (l1 ++ z :: l2) t t2) by (eapply within_trans; [exact W1|eapply within_mono; [|exact W2]; set_solver]).
  destruct W as [Wl Wi Wd Wo]. split_and!; [|exists np, T2; split_and!; [by destruct H2|done|by eapply ordered_remove| |cbn [nil_init]; congruence]|done|done].
  - eapply nilChecked_default; [apply Ht|]. intros x Hx%head_Some_elem_of. rewrite HT. set_solver.
  - cbn [len]. rewrite Wl, Hlen, !length_app. simpl. lia.
Qed.
End erase.

(** C15: Removing a node from a red-black tree takes exactly that node out of the sequence and returns its successor,
    without a fault and within the bounds of its loops; no node outside of the tree changes. *)
Theorem erase_correct key l1 z l2 t : holds key (l1 ++ z :: l2) t ->
  wp (erase z) (fun o t' => o = head l2 /\ walkable key (l1 ++ l2) t' /\ dom (mem t') = dom (mem t) /\
    (forall p, p ∉ l1 ++ z :: l2 -> p ≠ nil -> mem t' !! p = mem t !! p)) t.
Proof. apply erase_spec. Qed.
Lemma erase_correct_witness : exists t', erase 2 small = Ok (Some 3, t') /\ walkable id [1; 3] t'.
Proof.
  destruct (wp_inv _ _ _ (erase_correct id [1] 2 [3] small small_holds)) as (o & t' & E & -> & Hw & _).
  exists t'. split; [exact E|exact Hw].
Defined.
