(* ===== verification/VmRegion.v ===== *)
(** * Addresses and regions

    Models [sos/src/vm/address.zig] and [sos/src/vm/region.zig]: rounding of
    addresses to pages, the protection flags and capability rights of a region,
    and the range that a region grows to.  What is illegal in Zig (an overflow, a cast
    that does not fit) is a failed assertion: a checked build stops there, and in
    the build that [build.zig] configures it is undefined. *)

From S2P Require Import Prelude.

(** Arithmetic and casts that are illegal outside of their width. *)
Definition usize {S} (z : Z) : M S Z := cassert (bool_decide (0 ≤ z < 2 ^ 64));; mret z.
Definition to_i32 {S} (z : Z) : M S Z := cassert (bool_decide (- 2 ^ 31 ≤ z < 2 ^ 31));; mret z.

(** ** Addresses *)

Definition isAligned (value alignment : Z) : bool := bool_decide (alignment = 0) || bool_decide (value mod alignment = 0).
Definition alignDown (value alignment : Z) : Z := if bool_decide (alignment = 0) then value else value - value mod alignment.
Definition alignUp {S} (value alignment : Z) : M S Z :=
  if bool_decide (alignment = 0) then mret value
  else
    let remainder := value mod alignment in
    if bool_decide (remainder = 0) then mret value
    else
      let delta := alignment - remainder in
      usize (value + delta).
Definition pageBase (value page_size : Z) : Z := alignDown value page_size.
Definition offsetWithin (value alignment : Z) : Z := if bool_decide (alignment = 0) then 0 else value mod alignment.
Definition add {S} (value delta : Z) : M S Z := usize (value + delta).

(** ** Protection *)

Definition PROT_READ : Z := 1.
Definition PROT_WRITE : Z := 2.
Definition PROT_EXEC : Z := 4.

Definition encodeProtFlags (readable writable executable : bool) : Z :=
  let prot := 0 in
  let prot := if readable then Z.lor prot PROT_READ else prot in
  let prot := if writable then Z.lor prot PROT_WRITE else prot in
  if executable then Z.lor prot PROT_EXEC else prot.

(** The word of a set of capability rights, as the kernel lays it out. *)
Definition seL4_CapRights_new (grant_reply grant read write : Z) : Z :=
  Z.lor (Z.lor (Z.shiftl (Z.land grant_reply 1) 3) (Z.shiftl (Z.land grant 1) 2))
        (Z.lor (Z.shiftl (Z.land read 1) 1) (Z.land write 1)).
Definition rightsFromBooleans (readable writable : bool) : Z :=
  seL4_CapRights_new 0 0 (if readable then 1 else 0) (if writable then 1 else 0).
Definition mergeCapRights (a b : Z) : Z := Z.lor a b.

Definition protToData {S} (prot : Z) : M S Z :=
  p ← usize prot; mret (Z.land p (Z.shiftl 1 60 - 1)).
Definition dataToProt {S} (data : Z) : M S Z := to_i32 data.

(** ** Regions *)

Inductive RegionKind := Normal | Heap | Stack | Mmap.
#[export] Instance RegionKind_eq_dec : EqDecision RegionKind.
Proof. solve_decision. Defined.

(** The open file of a mapping is known by its handle and owner. *)
Inductive Backing := Anonymous | File (fd offset length : Z) (handle_ref handle_owner : option Z).
#[export] Instance Backing_eq_dec : EqDecision Backing.
Proof. solve_decision. Defined.

Record Region := Reg {
  start : Z; end_ : Z; kind : RegionKind; data : Z; perm : Z; used : bool; mapped : bool; backing : Backing }.
#[export] Instance Region_eq_dec : EqDecision Region.
Proof. solve_decision. Defined.
Definition default_region : Region := Reg 0 0 Normal 0 0 false false Anonymous.

Definition has (flags bit : Z) : bool := bool_decide (Z.land flags bit ≠ 0).

Definition configure {S} (start : Z) (kind : RegionKind) (prot_flags : Z) : M S Region :=
  d ← protToData prot_flags;
  mret (Reg start start kind d (rightsFromBooleans (has prot_flags PROT_READ) (has prot_flags PROT_WRITE)) true false Anonymous).
Definition reset (kind : RegionKind) : Region := Reg 0 0 kind 0 0 false false Anonymous.
Definition updateAccess {S} (readable writable executable : bool) (self : Region) : M S Region :=
  let prot_flags := encodeProtFlags readable writable executable in
  if negb (mapped self) then
    d ← protToData prot_flags;
    mret (Reg (start self) (end_ self) (kind self) d (rightsFromBooleans readable writable) (used self) (mapped self) (backing self))
  else
    p ← dataToProt (data self);
    let merged := Z.lor p prot_flags in
    d ← protToData merged;
    mret (Reg (start self) (end_ self) (kind self) d (mergeCapRights (perm self) (rightsFromBooleans readable writable))
            (used self) (mapped self) (backing self)).
Definition recordMapping {S} (addr page_size : Z) (self : Region) : M S Region :=
  let base := addr - addr mod page_size in
  end_addr ← usize (base + page_size);
  if negb (mapped self) then
    mret (Reg base end_addr (kind self) (data self) (perm self) (used self) true (backing self))
  else
    let s := if bool_decide (base < start self) then base else start self in
    let e := if bool_decide (end_ self < end_addr) then end_addr else end_ self in
    mret (Reg s e (kind self) (data self) (perm self) (used self) (mapped self) (backing self)).
Definition contains (self : Region) (addr : Z) : bool :=
  if negb (used self) || negb (mapped self) then false
  else bool_decide (start self ≤ addr) && bool_decide (addr < end_ self).
Definition prot {S} (self : Region) : M S Z := dataToProt (data self).
Definition setFileBacking (fd offset length : Z) (handle_ref owner : option Z) (self : Region) : Region :=
  Reg (start self) (end_ self) (kind self) (data self) (perm self) (used self) (mapped self) (File fd offset length handle_ref owner).

(** ** Properties *)

Section facts.
Context {S : Type} (F : fault -> Prop).

Lemma wp_usz z (Q : Z -> S -> Prop) s : is_w64 z -> Q z s -> wpf F (usize z) Q s.
Proof. intros Hz HQ. unfold usize. wp_line. apply wpf_assert; [by apply bool_decide_eq_true|]. by wp_line. Qed.
Lemma wp_to_i32 z (Q : Z -> S -> Prop) s : - 2 ^ 31 ≤ z < 2 ^ 31 -> Q z s -> wpf F (to_i32 z) Q s.
Proof. intros Hz HQ. unfold to_i32. wp_line. apply wpf_assert; [by apply bool_decide_eq_true|]. by wp_line. Qed.

(** Rounding up gives the least multiple that is not below. *)
Lemma alignUp_spec v a (Q : Z -> S -> Prop) s : 0 ≤ v -> 0 < a -> v + a ≤ 2 ^ 64 ->
  (forall u, v ≤ u < v + a -> u mod a = 0 -> Q u s) -> wpf F (alignUp v a) Q s.
Proof.
  intros Hv Ha Hb HQ. pose proof (Z.mod_pos_bound v a Ha) as Hr. pose proof (Z.div_mod v a ltac:(lia)) as Hd.
  unfold alignUp. rewrite bool_decide_false by lia. apply wpf_if; intros H; bd.
  - apply wpf_ret, HQ; [lia|done].
  - apply wp_usz; [unfold is_w64; lia|]. apply HQ; [lia|]. replace (v + (a - v mod a)) with ((v / a + 1) * a) by lia. apply Z.mod_mul. lia.
Qed.
Lemma alignDown_spec v a : 0 ≤ v -> 0 < a -> alignDown v a ≤ v < alignDown v a + a /\ alignDown v a mod a = 0 /\ 0 ≤ alignDown v a.
Proof.
  intros Hv Ha. pose proof (Z.mod_pos_bound v a Ha) as Hr. pose proof (Z.div_mod v a ltac:(lia)) as Hd.
  unfold alignDown. rewrite bool_decide_false by lia. pose proof (Z.div_pos v a Hv Ha).
  split_and!; [lia|lia| |nia]. replace (v - v mod a) with (v / a * a) by lia. apply Z.mod_mul. lia.
Qed.

(** Flags survive being packed; negative flags are illegal. *)
Lemma protToData_spec p (Q : Z -> S -> Prop) s : 0 ≤ p < 2 ^ 31 -> Q p s -> wpf F (protToData p) Q s.
Proof.
  intros Hp HQ. unfold protToData. wp_line. apply wp_usz; [unfold is_w64; lia|]. wp_line.
  change (Z.shiftl 1 60 - 1) with (Z.ones 60). rewrite Z.land_ones by lia. by rewrite Z.mod_small by lia.
Qed.
Lemma configure_spec st k p (Q : Region -> S -> Prop) s : 0 ≤ p < 2 ^ 31 ->
  Q (Reg st st k p (rightsFromBooleans (has p PROT_READ) (has p PROT_WRITE)) true false Anonymous) s -> wpf F (configure st k p) Q s.
Proof. intros Hp HQ. unfold configure. wp_line. apply protToData_spec; [done|]. by wp_line. Qed.
Lemma prot_roundtrip p (Q : Z -> S -> Prop) s : 0 ≤ p < 2 ^ 31 -> Q p s ->
  wpf F (d ← protToData p; dataToProt d) Q s.
Proof. intros Hp HQ. wp_line. apply protToData_spec; [done|]. by apply wp_to_i32; [lia|]. Qed.
Lemma protToData_negative p (s : S) : p < 0 -> protToData p s = Fault AssertFail.
Proof. intros Hp. unfold protToData, usize. cbn. by rewrite bool_decide_false by lia. Qed.

(** A mapping that was recorded is inside of the region, and so is what was before. *)
Lemma recordMapping_spec addr ps self (Q : Region -> S -> Prop) s :
  0 ≤ addr -> 0 < ps -> addr + ps < 2 ^ 64 ->
  (forall r, used r = used self -> mapped r = true -> start r ≤ addr < end_ r ->
     (mapped self = true -> start r ≤ start self /\ end_ self ≤ end_ r) -> Q r s) ->
  wpf F (recordMapping addr ps self) Q s.
Proof.
  intros Ha Hp Hb HQ. pose proof (Z.mod_pos_bound addr ps Hp). pose proof (Z.mod_le addr ps Ha Hp). unfold recordMapping. wp_line.
  apply wp_usz; [unfold is_w64; lia|]. destruct (mapped self) eqn:Hm; cbn [negb]; apply wpf_ret, HQ; cbn; try done.
  - repeat case_bool_decide; lia.
  - intros _. repeat case_bool_decide; lia.
  - lia.
Qed.
End facts.
