(* ===== verification/RegionMap.v ===== *)
(** * The regions of an address space

    Models [RegionMap] of [sos/src/vm/addr_space.zig]: the regions of a process in
    a red-black tree by their first address.  The tree's nodes and the regions
    are two parts of one allocation, so both are known by the node's address.  The
    theorems say which region an address is in, where there is room for another
    one, and when one can be inserted. *)

From Stdlib Require Import Sorting.Sorted.
From S2P Require Import Prelude RbTree RbShape RbSearch RbInsert RbAdd RbErase VmRegion.

(** The map, and the regions that are allocated. *)
Record region_map := RMap { map : rbtree; map_len : Z; regs : gmap Z Region }.
Definition set_map (t : rbtree) (s : region_map) : region_map := RMap t (map_len s) (regs s).
Definition set_regs (f : gmap Z Region -> gmap Z Region) : M region_map unit := modify (fun s => RMap (map s) (map_len s) (f (regs s))).
Definition set_map_len (n : Z) : M region_map unit := modify (fun s => RMap (map s) n (regs s)).
Definition on_tree {A} (m : M rbtree A) : M region_map A := zoom map set_map m.

Definition reg_start (s : region_map) (p : Z) : Z := from_option start 0 (regs s !! p).
Definition reg_end (s : region_map) (p : Z) : Z := from_option end_ 0 (regs s !! p).
(** The region at [p], and an operation of the tree that compares keys. *)
Definition reg (p : Z) : M region_map Region := s ← get; access (regs s !! p).
Definition keyed {A} (m : (Z -> Z) -> M rbtree A) : M region_map A := s ← get; on_tree (m (reg_start s)).

Definition rightsEqual (a b : Z) : bool := bool_decide (a = b).
Definition init : M region_map unit := on_tree RbTree.init;; set_map_len 0.

(** ** Iterating *)

Definition toOptional (node : Z) : option Z := if bool_decide (node ≠ nil) then Some node else None.
Definition Iterator_next (next_node : option Z) : M region_map (option Z * option Z) :=
  match next_node with
  | None => mret (None, None)
  | Some current => succ ← on_tree (RbTree.succ current); mret (Some current, toOptional succ)
  end.
Definition iter : M region_map (option Z) := on_tree RbTree.min.
Definition iterFrom (addr : Z) : M region_map (option Z) :=
  s ← get;
  if bool_decide (map_len s = 0) then mret None
  else
    lb ← keyed (fun key => lowerBound key addr);
    match lb with
    | Some node =>
      pred ← on_tree (RbTree.pred node);
      if bool_decide (pred ≠ nil) then
        pred_node ← reg pred;
        if bool_decide (addr < end_ pred_node) then mret (Some pred) else mret (Some node)
      else mret (Some node)
    | None =>
      max ← on_tree RbTree.max;
      match max with
      | None => mret None
      | Some max => m ← reg max; if bool_decide (addr < end_ m) then mret (Some max) else mret None
      end
    end.

(** ** Searching *)

Definition find (addr : Z) : M region_map (option Z) :=
  lb ← keyed (fun key => lowerBound key addr);
  match lb with
  | None =>
    max ← on_tree RbTree.max;
    match max with
    | None => mret None
    | Some max => candidate ← reg max; mret (if bool_decide (addr < end_ candidate) then Some max else None)
    end
  | Some lb =>
    n ← reg lb;
    if bool_decide (start n = addr) && bool_decide (addr < end_ n) then mret (Some lb)
    else
      p ← on_tree (RbTree.pred lb);
      if bool_decide (p ≠ nil) then cand ← reg p; mret (if bool_decide (addr < end_ cand) then Some p else None)
      else mret None
  end.

Fixpoint findFree_loop (fuel : nat) (size top cursor_start : Z) (it : option Z) : M region_map (option Z) :=
  match fuel with
  | O => throw OutOfFuel
  | S fuel =>
    '(n, it) ← Iterator_next it;
    let tail := gap ← usize (top - cursor_start); mret (if bool_decide (size ≤ gap) then Some cursor_start else None) in
    match n with
    | None => tail
    | Some n =>
      n ← reg n;
      if bool_decide (top ≤ start n) then tail
      else if bool_decide (cursor_start ≤ start n) && bool_decide (size ≤ start n - cursor_start) then mret (Some cursor_start)
      else
        let cursor_start := if bool_decide (cursor_start < end_ n) then end_ n else cursor_start in
        last ← usize (top - size);
        if bool_decide (last < cursor_start) then mret None else findFree_loop fuel size top cursor_start it
    end
  end.
Definition findFree (size bottom top : Z) : M region_map (option Z) :=
  if bool_decide (size = 0) || bool_decide (top < bottom) || bool_decide (top - bottom < size) then mret None
  else
    it ← iterFrom bottom;
    s ← get;
    findFree_loop (S (S (base.size (mem (map s))))) size top bottom it.

(** ** Inserting and removing *)

Definition removeInternal (node : Z) : M region_map unit := on_tree (RbTree.erase node);; mret tt.
Definition erase (node : Z) : M region_map unit :=
  on_tree (RbTree.erase node);; s ← get; n ← usize (map_len s - 1); set_map_len n.

(** Two regions touch and have the same attributes. *)
Definition mergeable (a b : Region) : bool :=
  bool_decide (end_ a = start b) && bool_decide (kind a = kind b) && bool_decide (data a = data b) && rightsEqual (perm a) (perm b).
Definition set_end (e : Z) (r : Region) : Region :=
  Reg (start r) e (kind r) (data r) (perm r) (used r) (mapped r) (backing r).
Definition set_reg_end (p e : Z) : M region_map unit := r ← reg p; set_regs <[p := set_end e r]>.

Fixpoint mergeForward_loop (fuel : nat) (cur : Z) : M region_map unit :=
  match fuel with
  | O => throw OutOfFuel
  | S fuel =>
    s ← on_tree (RbTree.succ cur);
    if bool_decide (s ≠ nil) then
      nxt ← on_tree (RbTree.succ cur);
      c ← reg cur;
      n ← reg nxt;
      if negb (bool_decide (end_ c = start n)) then mret tt
      else if negb (bool_decide (kind c = kind n) && bool_decide (data c = data n) && rightsEqual (perm c) (perm n)) then mret tt
      else
        set_reg_end cur (end_ n);;
        erase nxt;;
        mergeForward_loop fuel cur
    else mret tt
  end.
Definition mergeForward (base : Z) (coalesce : bool) : M region_map unit :=
  if negb coalesce then mret tt else s ← get; mergeForward_loop (S (base.size (mem (map s)))) base.

Inductive inserted := Inserted | OverlapOrDuplicateStart.

(** The check of the left neighbour: [Some] result ends the insertion. *)
Definition insert_left (node : Z) (coalesce : bool) : M region_map (option inserted) :=
  p ← on_tree (RbTree.pred node);
  if bool_decide (p ≠ nil) then
    left ← on_tree (RbTree.pred node);
    l ← reg left;
    n ← reg node;
    if bool_decide (start n < end_ l) then removeInternal node;; mret (Some OverlapOrDuplicateStart)
    else if coalesce && mergeable l n then
      set_reg_end left (end_ n);;
      removeInternal node;;
      mergeForward left coalesce;;
      mret (Some Inserted)
    else mret None
  else mret None.
Definition insert_right (node : Z) (coalesce : bool) : M region_map (option inserted) :=
  right ← on_tree (RbTree.succ node);
  if bool_decide (right ≠ nil) then
    r ← reg right;
    n ← reg node;
    if bool_decide (start r < end_ n) then removeInternal node;; mret (Some OverlapOrDuplicateStart)
    else if coalesce && mergeable n r then
      set_reg_end node (end_ r);;
      erase right;;
      mergeForward node coalesce;;
      mret None
    else mret None
  else mret None.
Definition insert (node : Z) (coalesce : bool) : M region_map inserted :=
  existing ← keyed (fun key => findOrAdd key node);
  match existing with
  | Some _ => mret OverlapOrDuplicateStart
  | None =>
    l ← insert_left node coalesce;
    match l with
    | Some r => mret r
    | None =>
      r ← insert_right node coalesce;
      match r with
      | Some r => mret r
      | None => s ← get; n ← usize (map_len s + 1); set_map_len n;; mret Inserted
      end
    end
  end.

(** ** Maps of regions that do not overlap *)

(** The first region ends before the second one starts, and starts before it even when it is empty. *)
Definition apart (s : region_map) (x y : Z) : Prop := reg_end s x ≤ reg_start s y /\ reg_start s x < reg_start s y.
Definition sized (s : region_map) (x : Z) : Prop := exists r, regs s !! x = Some r /\ start r ≤ end_ r.
Definition spaced (s : region_map) (l : list Z) : Prop := StronglySorted (apart s) l /\ Forall (sized s) l.

(** The map holds the regions [l], in order and without overlap; [Tree] says what is known of the tree. *)
Record laid_out (Tree : (Z -> Z) -> list Z -> rbtree -> Prop) (l : list Z) (s : region_map) : Prop := {
  laid_tree : Tree (reg_start s) l (map s);
  laid_spaced : spaced s l;
  laid_len : map_len s = Z.of_nat (length l);
}.

Section spaced.
Context (s : region_map).

Lemma sized_le x : sized s x -> reg_start s x ≤ reg_end s x.
Proof. intros (r & Hr & H). unfold reg_start, reg_end. by rewrite Hr. Qed.
Lemma spaced_app l1 l2 : spaced s (l1 ++ l2) ->
  spaced s l1 /\ spaced s l2 /\ (forall x y, x ∈ l1 -> y ∈ l2 -> apart s x y).
Proof.
  intros [H Hs]. apply Forall_app in Hs as [Hs1 Hs2]. induction l1 as [|z l1 IH]; simpl in *.
  - split_and!; [split; [constructor|done]|by split|set_solver].
  - apply StronglySorted_inv in H as [H Hz]. apply Forall_cons in Hs1 as [Hsz Hs1]. destruct (IH H Hs1) as ([S1 _] & S2 & S3).
    rewrite Forall_forall in Hz. split_and!; [split; [constructor; [done|]|by constructor]|done|].
    + apply Forall_forall. intros x Hx. apply Hz. set_solver.
    + intros x y [->|Hx]%elem_of_cons Hy; [apply Hz; set_solver|by apply S3].
Qed.
Lemma spaced_cons x l : spaced s (x :: l) -> sized s x /\ spaced s l /\ (forall y, y ∈ l -> apart s x y).
Proof.
  intros H. pose proof H as [_ [Hx _]%Forall_cons]. destruct (spaced_app [x] l H) as (_ & H2 & H3). split_and!; [done|done|].
  intros y Hy. apply H3; set_solver.
Qed.
Lemma spaced_join l1 l2 : spaced s l1 -> spaced s l2 -> (forall x y, x ∈ l1 -> y ∈ l2 -> apart s x y) -> spaced s (l1 ++ l2).
Proof.
  intros [H1 F1] [H2 F2] H. split; [|by apply Forall_app]. clear F1 F2. induction H1 as [|x l1 H1 IH Hx]; simpl; [done|]. constructor.
  - apply IH. intros y z Hy Hz. apply H; set_solver.
  - apply Forall_app. split; [done|]. apply Forall_forall. intros y Hy. apply H; set_solver.
Qed.
Lemma spaced_sized l x : spaced s l -> x ∈ l -> sized s x.
Proof. intros [_ H]. rewrite Forall_forall in H. apply H. Qed.
Lemma spaced_lookup l x : spaced s l -> x ∈ l ->
  exists r, regs s !! x = Some r /\ start r = reg_start s x /\ end_ r = reg_end s x /\ reg_start s x ≤ reg_end s x.
Proof.
  intros H Hx. destruct (spaced_sized _ _ H Hx) as (r & Hr & Hle). exists r. unfold reg_start, reg_end. by rewrite Hr.
Qed.
(** The regions before the last one end before it does. *)
Lemma spaced_ends l x : spaced s (l ++ [x]) -> forall y, y ∈ l ++ [x] -> reg_end s y ≤ reg_end s x.
Proof.
  intros H y Hy. destruct (spaced_app _ _ H) as (_ & Hx & Ha). apply elem_of_app in Hy as [Hy|Hy%list_elem_of_singleton]; [|by subst].
  pose proof (Ha y x Hy ltac:(set_solver)) as Hyx. destruct (spaced_lookup [x] x Hx ltac:(set_solver)) as (_ & _ & _ & _ & Hle).
  unfold apart in Hyx. lia.
Qed.
End spaced.

(** ** Reading *)

Section read.
Context (F : fault -> Prop).

Lemma wp_reg p r (Q : Region -> region_map -> Prop) s : regs s !! p = Some r -> Q r s -> wpf F (reg p) Q s.
Proof. intros Hr HQ. unfold reg. wp_line. by eapply wpf_access. Qed.
(** A computation of the tree that does not change it. *)
Lemma wp_on_tree {A} (m : M rbtree A) (R : A -> Prop) (Q : A -> region_map -> Prop) s :
  wpf F m (fun a t => t = map s /\ R a) (map s) -> (forall a, R a -> Q a s) -> wpf F (on_tree m) Q s.
Proof.
  unfold on_tree, wpf, zoom. destruct (m (map s)) as [[a t]|f]; [|done]. intros [-> HR] HQ. specialize (HQ a HR). by destruct s.
Qed.

(** What the tree's operations return, when the map holds [l]. *)
Lemma wp_lowerBound l k s (Q : option Z -> region_map -> Prop) : laid_out walkable l s ->
  (forall l1 l2, l = l1 ++ l2 -> (forall y, y ∈ l1 -> reg_start s y < k) -> (forall y, y ∈ l2 -> k ≤ reg_start s y) -> Q (head l2) s) ->
  wpf F (keyed (fun key => lowerBound key k)) Q s.
Proof.
  intros [(np & T & Ht & HT & Hord & _) _ _] HQ. unfold keyed. wp_line. rewrite <- HT in Hord.
  eapply (wp_on_tree _ (fun o => exists l1 l2, l = l1 ++ l2 /\ (forall y, y ∈ l1 -> reg_start s y < k) /\
    (forall y, y ∈ l2 -> k ≤ reg_start s y) /\ o = head l2)).
  - eapply wpf_mono; [by apply (lowerBound_spec F np)|]. intros o t (-> & l1 & l2 & E & H). rewrite HT in E. eauto.
  - intros o (l1 & l2 & E & H1 & H2 & ->). by eapply HQ.
Qed.
Lemma wp_max l s (Q : option Z -> region_map -> Prop) : laid_out walkable l s -> Q (last l) s -> wpf F (on_tree RbTree.max) Q s.
Proof.
  intros [(np & T & Ht & HT & _) _ _] HQ. eapply (wp_on_tree _ (fun o => o = last l)); [|by intros o ->].
  eapply wpf_mono; [by apply (max_spec F np)|]. intros o t [-> ->]. by rewrite HT.
Qed.
Lemma wp_min l s (Q : option Z -> region_map -> Prop) : laid_out walkable l s -> Q (head l) s -> wpf F (on_tree RbTree.min) Q s.
Proof.
  intros [(np & T & Ht & HT & _) _ _] HQ. eapply (wp_on_tree _ (fun o => o = head l)); [|by intros o ->].
  eapply wpf_mono; [by apply (min_spec F np)|]. intros o t [-> ->]. by rewrite HT.
Qed.
Lemma wp_pred key l1 x l2 s (Q : Z -> region_map -> Prop) : walkable key (l1 ++ x :: l2) (map s) ->
  Q (default nil (last l1)) s -> wpf F (on_tree (RbTree.pred x)) Q s.
Proof.
  intros (np & T & Ht & HT & _) HQ. eapply (wp_on_tree _ (fun y => y = default nil (last l1))); [|by intros y ->].
  by apply (pred_at F np T l1 x l2).
Qed.
Lemma wp_succ key l1 x l2 s (Q : Z -> region_map -> Prop) : walkable key (l1 ++ x :: l2) (map s) ->
  Q (default nil (head l2)) s -> wpf F (on_tree (RbTree.succ x)) Q s.
Proof.
  intros (np & T & Ht & HT & _) HQ. eapply (wp_on_tree _ (fun y => y = default nil (head l2))); [|by intros y ->].
  by apply (succ_at F np T l1 x l2).
Qed.
Lemma laid_nil l s : laid_out walkable l s -> nil ∉ l.
Proof. intros [(np & T & Ht & <- & _) _ _]. eapply nil_notin, Ht. Qed.
Lemma laid_nodup l s : laid_out walkable l s -> NoDup l.
Proof. intros [(np & T & Ht & <- & _) _ _]. apply Ht. Qed.
Lemma laid_size l s : laid_out walkable l s -> (length l < S (size (mem (map s))))%nat.
Proof. intros [(np & T & Ht & <- & _) _ _]. by eapply rbt_size. Qed.
End read.

(** ** Which region an address is in *)

Definition within_region (s : region_map) (addr x : Z) : Prop := reg_start s x ≤ addr < reg_end s x.

Section search.
Context (F : fault -> Prop).

Lemma nonnil l s x : laid_out walkable l s -> x ∈ l -> x ≠ nil.
Proof. intros H Hx ->. by eapply laid_nil. Qed.

Lemma region_find_spec l addr s : laid_out walkable l s ->
  wpf F (find addr) (fun o s' => s' = s /\
    match o with Some x => x ∈ l /\ within_region s addr x | None => forall x, x ∈ l -> ~ within_region s addr x end) s.
Proof.
  intros Hl. pose proof (laid_spaced _ _ _ Hl) as Hsp. unfold find. wp_line. apply (wp_lowerBound F l); [done|].
  intros l1 l2 -> H1 H2. destruct (spaced_app _ _ _ Hsp) as (S1 & S2 & S12).
  (* a region of [l1] holds the address only if it is the last one, and no region of [l2] but the first *)
  assert (Hlast : forall p l1', l1 = l1' ++ [p] -> forall x, x ∈ l1 -> within_region s addr x -> addr < reg_end s p).
  { intros p l1' -> x Hx [_ Hin]. pose proof (spaced_ends s _ _ S1 x Hx). lia. }
  destruct l2 as [|lb l2]; cbn [head].
  - rewrite app_nil_r in *. wp_line. eapply (wp_max F l1); [done|].
    destruct (list_snoc_cases l1) as [->|(l1' & p & ->)]; [cbn [last]; wp_line; set_solver|].
    rewrite last_snoc. assert (Hp : p ∈ l1' ++ [p]) by set_solver.
    destruct (spaced_lookup s _ p S1 Hp) as (r & Hr & _ & He & _). wp_line. eapply wp_reg; [exact Hr|]. rewrite He. wp_line.
    split; [done|]. case_bool_decide.
    + split; [done|]. specialize (H1 p Hp). unfold within_region. lia.
    + intros x Hx Hin. by pose proof (Hlast p l1' eq_refl x Hx Hin).
  - destruct (spaced_cons _ _ _ S2) as (_ & S2' & Slb). assert (Hlb : lb ∈ l1 ++ lb :: l2) by set_solver.
    destruct (spaced_lookup s _ lb Hsp Hlb) as (r & Hr & Hs & He & Hle).
    wp_line. eapply wp_reg; [exact Hr|]. rewrite Hs, He. apply wpf_if; intros Hc.
    + bd. wp_line. split_and!; [done|done|]. unfold within_region. lia.
    + assert (Hnlb : ~ within_region s addr lb).
      { intros [? ?]. specialize (H2 lb ltac:(set_solver)). rewrite !bool_decide_true in Hc by lia. done. }
      assert (Hno2 : forall x, x ∈ lb :: l2 -> ~ within_region s addr x).
      { intros x [->|Hx]%elem_of_cons; [done|]. specialize (H2 x ltac:(set_solver)) as Hx2. specialize (H2 lb ltac:(set_solver)).
        specialize (Slb x Hx). unfold apart, within_region in *. lia. }
      clear Hc.
      wp_line. eapply (wp_pred F _ l1); [apply Hl|]. destruct (list_snoc_cases l1) as [->|(l1' & p & ->)].
      * cbn [last default]. rewrite bool_decide_false by auto. by wp_line.
      * rewrite last_snoc. cbn [default id]. assert (Hp : p ∈ l1' ++ [p]) by set_solver.
        rewrite bool_decide_true by (eapply nonnil; [done|set_solver]).
        destruct (spaced_lookup s _ p S1 Hp) as (rp & Hrp & _ & Hep & _). wp_line. eapply wp_reg; [exact Hrp|]. rewrite Hep. wp_line.
        split; [done|]. case_bool_decide.
        -- split; [set_solver|]. specialize (H1 p Hp). unfold within_region. lia.
        -- intros x [Hx|Hx]%elem_of_app Hin; [by pose proof (Hlast p l1' eq_refl x Hx Hin)|by apply (Hno2 x)].
Qed.

(** The iterator starts at the first region that ends after the address. *)
Lemma iterFrom_spec l addr s (Q : option Z -> region_map -> Prop) : laid_out walkable l s ->
  (forall l1 l2, l = l1 ++ l2 -> (forall x, x ∈ l1 -> reg_end s x ≤ addr) -> Q (head l2) s) ->
  wpf F (iterFrom addr) Q s.
Proof.
  intros Hl HQ. pose proof (laid_spaced _ _ _ Hl) as Hsp. unfold iterFrom. wp_line. apply wpf_if; intros H0; bd.
  { rewrite (laid_len _ _ _ Hl) in H0. destruct l; [|simpl in H0; lia]. wp_line. apply (HQ [] []); set_solver. }
  clear H0. wp_line. apply (wp_lowerBound F l); [done|]. intros l1 l2 -> H1 H2. destruct (spaced_app _ _ _ Hsp) as (S1 & S2 & S12).
  (* the last region that starts before the address *)
  assert (Hlast : forall l1' p, l1 = l1' ++ [p] ->
    (addr < reg_end s p -> Q (Some p) s) /\ (reg_end s p ≤ addr -> Q (head l2) s)).
  { intros l1' p ->. split; intros Hp.
    - apply (HQ l1' (p :: l2)); [by rewrite <- app_assoc|]. intros x Hx. destruct (spaced_app _ _ _ S1) as (_ & _ & Ha).
      destruct (Ha x p Hx ltac:(set_solver)) as [Hxp _]. specialize (H1 p ltac:(set_solver)). lia.
    - apply (HQ _ _ eq_refl). intros x Hx. pose proof (spaced_ends s _ _ S1 x Hx). lia. }
  assert (Hread : forall l1' p, l1 = l1' ++ [p] -> exists r, regs s !! p = Some r /\ end_ r = reg_end s p).
  { intros l1' p ->. destruct (spaced_lookup s _ p S1 ltac:(set_solver)) as (r & ? & _ & ? & _). eauto. }
  destruct l2 as [|node l2]; cbn [head] in *.
  - rewrite app_nil_r in *. wp_line. eapply (wp_max F l1); [done|]. destruct (list_snoc_cases l1) as [->|(l1' & p & ->)].
    + wp_line. apply (HQ [] []); set_solver.
    + rewrite last_snoc. destruct (Hread l1' p eq_refl) as (r & Hr & He), (Hlast l1' p eq_refl) as [Hq1 Hq2].
      wp_line. eapply wp_reg; [exact Hr|]. rewrite He. apply wpf_if; intros Hc; bd; apply wpf_ret; [by apply Hq1|apply Hq2; lia].
  - wp_line. eapply (wp_pred F _ l1); [apply Hl|]. destruct (list_snoc_cases l1) as [->|(l1' & p & ->)].
    + cbn [last default]. rewrite bool_decide_false by auto. wp_line. apply (HQ [] (node :: l2)); set_solver.
    + rewrite last_snoc. cbn [default id]. rewrite bool_decide_true by (eapply nonnil; [done|set_solver]).
      destruct (Hread l1' p eq_refl) as (r & Hr & He), (Hlast l1' p eq_refl) as [Hq1 Hq2].
      wp_line. eapply wp_reg; [exact Hr|]. rewrite He. apply wpf_if; intros Hc; bd; apply wpf_ret; [by apply Hq1|apply Hq2; lia].
Qed.

(** The range of [size] bytes at [a] lies below [top] and keeps clear of the regions. *)
Definition free_at (s : region_map) (l : list Z) (size top a : Z) : Prop :=
  a + size ≤ top /\ forall x, x ∈ l -> a + size ≤ reg_start s x \/ reg_end s x ≤ a.
(** The lowest such place from [bottom] up, if there is one. *)
Definition lowest_free (s : region_map) (l : list Z) (size bottom top : Z) (o : option Z) : Prop :=
  match o with
  | Some a => bottom ≤ a /\ free_at s l size top a /\ forall b, bottom ≤ b < a -> ~ free_at s l size top b
  | None => forall a, bottom ≤ a -> ~ free_at s l size top a
  end.

Lemma Iterator_next_spec l1 x l2 s (Q : option Z * option Z -> region_map -> Prop) : laid_out walkable (l1 ++ x :: l2) s ->
  Q (Some x, head l2) s -> wpf F (Iterator_next (Some x)) Q s.
Proof.
  intros Hl HQ. unfold Iterator_next. wp_line. eapply (wp_succ F _ l1 x l2); [apply Hl|]. wp_line.
  enough (toOptional (default nil (head l2)) = head l2) as -> by done. unfold toOptional. destruct l2 as [|y l2]; [done|].
  cbn [head default id]. rewrite bool_decide_true; [done|]. eapply nonnil; [done|set_solver].
Qed.

Lemma findFree_loop_spec fuel l1 l2 size bottom top c s :
  laid_out walkable (l1 ++ l2) s -> (length l2 < fuel)%nat -> 0 < size -> 0 ≤ bottom ≤ c -> c + size ≤ top -> top < 2 ^ 64 ->
  (forall x, x ∈ l1 -> reg_end s x ≤ c) -> (forall b, bottom ≤ b < c -> ~ free_at s (l1 ++ l2) size top b) ->
  wpf F (findFree_loop fuel size top c (head l2)) (fun o s' => s' = s /\ lowest_free s (l1 ++ l2) size bottom top o) s.
Proof.
  revert l1 l2 c. induction fuel as [|fuel IH]; intros l1 l2 c Hl Hf Hs Hc Htop Ht H1 Hb; [lia|]. cbn [findFree_loop].
  pose proof (laid_spaced _ _ _ Hl) as Hsp. destruct (spaced_app _ _ _ Hsp) as (_ & S2 & _).
  assert (Htail : (forall x, x ∈ l2 -> top ≤ reg_start s x \/ c + size ≤ reg_start s x) ->
    wpf F (gap ← usize (top - c); mret (if bool_decide (size ≤ gap) then Some c else None))
      (fun o s' => s' = s /\ lowest_free s (l1 ++ l2) size bottom top o) s /\ lowest_free s (l1 ++ l2) size bottom top (Some c)).
  { intros H2. assert (Hlow : lowest_free s (l1 ++ l2) size bottom top (Some c)).
    { split_and!; [lia|split; [lia|]|done]. intros x [Hx|Hx]%elem_of_app; [right; by apply H1|left; destruct (H2 x Hx); lia]. }
    split; [|done]. wp_line. apply wp_usz; [unfold is_w64; lia|]. wp_line. rewrite bool_decide_true by lia. done. }
  destruct l2 as [|x l2]; cbn [head].
  - apply wpf_bind, wpf_ret. by apply Htail; set_solver.
  - destruct (spaced_cons _ _ _ S2) as (_ & _ & Sx). destruct (spaced_lookup s _ x S2 ltac:(set_solver)) as (r & Hr & Hrs & Hre & Hle).
    wp_line. eapply Iterator_next_spec; [exact Hl|]. wp_line. eapply wp_reg; [exact Hr|]. rewrite Hrs, Hre.
    assert (Hge : forall z, reg_start s x >= z -> forall y, y ∈ x :: l2 -> z ≤ reg_start s y).
    { intros z Hz y [->|Hy]%elem_of_cons; [lia|]. destruct (Sx y Hy). lia. }
    apply wpf_if; intros Hc1; bd; [apply Htail; intros y Hy; left; eapply Hge; [|done]; lia|].
    apply wpf_if; intros Hc2; bd; [apply wpf_ret; split; [done|]; apply Htail; intros y Hy; right; eapply Hge; [|done]; lia|].
    assert (Hblk : reg_start s x < c + size).
    { destruct (Z.lt_ge_cases (reg_start s x) (c + size)); [done|]. rewrite !bool_decide_true in Hc2 by lia. done. }
    wp_line. apply wp_usz; [unfold is_w64; lia|].
    clear Hc2. set (c' := if bool_decide (c < reg_end s x) then reg_end s x else c).
    assert (Hc' : c ≤ c' /\ reg_end s x ≤ c' /\ (c' = c \/ c' = reg_end s x)) by (unfold c'; case_bool_decide; lia).
    assert (Hb' : forall b, bottom ≤ b < c' -> ~ free_at s (l1 ++ x :: l2) size top b).
    { intros b Hbb. destruct (Z.lt_ge_cases b c); [by apply Hb; lia|]. intros [_ Hfree].
      destruct (Hfree x ltac:(set_solver)); lia. }
    clearbody c'. apply wpf_if; intros Hc3; bd.
    + apply wpf_ret. split; [done|]. intros a Ha Hfree. destruct (Z.lt_ge_cases a c'); [by apply (Hb' a); [lia|]|].
      destruct Hfree as [? _]. lia.
    + replace (l1 ++ x :: l2) with ((l1 ++ [x]) ++ l2) in * by (by rewrite <- app_assoc).
      apply IH; [done|simpl in Hf; lia|lia|lia|lia|done| |done].
      intros y [Hy|Hy%list_elem_of_singleton]%elem_of_app; [specialize (H1 y Hy); lia|subst; lia].
Qed.

Lemma findFree_spec l size bottom top s : laid_out walkable l s -> 0 ≤ size -> 0 ≤ bottom -> top < 2 ^ 64 ->
  wpf F (findFree size bottom top) (fun o s' => s' = s /\
    if bool_decide (size = 0) then o = None else lowest_free s l size bottom top o) s.
Proof.
  intros Hl Hs Hbot Htop. unfold findFree. apply wpf_if; intros H.
  - apply wpf_ret. split; [done|]. destruct (decide (size = 0)); [by rewrite bool_decide_true|]. rewrite bool_decide_false by done.
    intros a Ha [Hfit _].
    apply orb_true_iff in H as [[H|H]%orb_true_iff|H]; apply bool_decide_eq_true in H; lia.
  - bd. rewrite bool_decide_false by done. wp_line. eapply iterFrom_spec; [exact Hl|]. intros l1 l2 -> Hends.
    wp_line. pose proof (laid_size _ _ Hl) as Hsz. rewrite length_app in Hsz. apply findFree_loop_spec; try done; try lia.
Qed.
End search.

(** ** Inserting and removing a region *)

Lemma laid_holds_walkable l s : laid_out holds l s -> laid_out walkable l s.
Proof. intros [H1 H2 H3]. split; [by apply holds_walkable|done|done]. Qed.
(** The predicates on regions do not depend on the tree. *)
Lemma spaced_regs s s' l : regs s' = regs s -> spaced s l -> spaced s' l.
Proof. intros E [H1 H2]. split; [|eapply Forall_impl; [done|]]; unfold apart, reg_start, reg_end, sized in *; by rewrite E. Qed.

(** A region outside of the map may be changed. *)
Lemma laid_out_outside l s p r t : p ∉ l -> laid_out holds l s -> holds (reg_start s) l t ->
  laid_out holds l (RMap t (map_len s) (<[p := r]> (regs s))).
Proof.
  intros Hp [H1 [H2 H3] H4] Ht. set (s' := RMap _ _ _).
  assert (Hs : forall x, x ∈ l -> reg_start s' x = reg_start s x) by (intros x Hx; unfold reg_start; cbn; rewrite lookup_insert_ne; [done|set_solver]).
  assert (He : forall x, x ∈ l -> reg_end s' x = reg_end s x) by (intros x Hx; unfold reg_end; cbn; rewrite lookup_insert_ne; [done|set_solver]).
  split; [by eapply holds_ext|split|done].
  - clear H1 H3 H4 Ht. induction H2 as [|x l H2 IH Hx]; constructor.
    + apply IH; [set_solver|intros; apply Hs; set_solver|intros; apply He; set_solver].
    + rewrite Forall_forall in Hx |- *. intros y Hy. unfold apart. rewrite !Hs, He by set_solver. by apply Hx.
  - rewrite Forall_forall in H3 |- *. intros x Hx. destruct (H3 x Hx) as (rx & Hrx & Hle). exists rx. split; [|done]. cbn.
    rewrite lookup_insert_ne; [done|set_solver].
Qed.

(** The last region may be extended. *)
Lemma laid_out_extend l x r r' s : laid_out holds (l ++ [x]) s -> x ∉ l -> regs s !! x = Some r -> start r' = start r -> start r' ≤ end_ r' ->
  laid_out holds (l ++ [x]) (RMap (map s) (map_len s) (<[x := r']> (regs s))).
Proof.
  intros [H1 H2 H3] Hx Hr Hs Hle. set (s' := RMap _ _ _). destruct (spaced_app _ _ _ H2) as (S1 & _ & S12).
  assert (Hst : forall y, reg_start s' y = reg_start s y).
  { intros y. unfold reg_start. cbn. destruct (decide (y = x)) as [->|]; [rewrite lookup_insert_eq, Hr; cbn; done|by rewrite lookup_insert_ne]. }
  assert (He : forall y, y ∈ l -> reg_end s' y = reg_end s y) by (intros y Hy; unfold reg_end; cbn; rewrite lookup_insert_ne; [done|set_solver]).
  assert (Hap : forall y z, y ∈ l -> apart s y z -> apart s' y z) by (intros y z Hy; unfold apart; by rewrite !Hst, He).
  split; [eapply holds_ext; [|exact H1]; intros; apply Hst|apply spaced_join|done].
  - destruct S1 as [S1 F1]. split.
    + clear - S1 Hap. induction S1 as [|y l S1 IH Hy]; constructor; [apply IH; intros; apply Hap; [set_solver|done]|].
      eapply Forall_impl; [exact Hy|]. intros z. apply Hap. set_solver.
    + rewrite Forall_forall in F1 |- *. intros y Hy. destruct (F1 y Hy) as (ry & Hry & ?). exists ry. split; [|done]. cbn.
      rewrite lookup_insert_ne; [done|set_solver].
  - split; [repeat constructor|]. constructor; [|done]. exists r'. split; [apply lookup_insert_eq|done].
  - intros y z Hy Hz. apply Hap; [done|]. by apply S12.
Qed.

Section insert.
Context (F : fault -> Prop).

(** Two regions keep clear of each other, in one order or the other. *)
Definition clear_of (s : region_map) (x y : Z) : Prop := apart s x y \/ apart s y x.

Lemma erase_tree l1 z l2 s (Q : option Z -> region_map -> Prop) :
  holds (reg_start s) (l1 ++ z :: l2) (map s) ->
  (forall t, walkable (reg_start s) (l1 ++ l2) t -> dom (mem t) = dom (mem (map s)) -> Q (head l2) (set_map t s)) ->
  wpf F (on_tree (RbTree.erase z)) Q s.
Proof.
  intros Hh HQ. unfold on_tree. apply wpf_zoom. eapply wpf_mono; [by apply (erase_spec F (reg_start s) l1 z l2)|].
  intros o t (-> & Hw & Hd & _). by apply HQ.
Qed.

(** The map after the node was added to its tree: the neighbours decide. *)
Definition added (l1 : list Z) (node : Z) (l2 : list Z) (s : region_map) : Prop :=
  holds (reg_start s) (l1 ++ node :: l2) (map s) /\ spaced s (l1 ++ l2) /\ sized s node /\ map_len s = Z.of_nat (length (l1 ++ l2)) /\
  (forall y, y ∈ l1 -> reg_start s y < reg_start s node) /\ (forall y, y ∈ l2 -> reg_start s node < reg_start s y).
(** The node overlaps a region, and was taken out again. *)
Definition rejected (l1 : list Z) (node : Z) (l2 : list Z) (s s' : region_map) : Prop :=
  laid_out walkable (l1 ++ l2) s' /\ regs s' = regs s /\ dom (mem (map s')) = dom (mem (map s)) /\
  exists x, x ∈ l1 ++ l2 /\ ~ clear_of s x node.

Lemma reject_spec l1 node l2 s {A} (r : A) (Q : A -> region_map -> Prop) : added l1 node l2 s ->
  (exists x, x ∈ l1 ++ l2 /\ ~ clear_of s x node) -> (forall s', rejected l1 node l2 s s' -> Q r s') ->
  wpf F (removeInternal node;; mret r) Q s.
Proof.
  intros (Hh & Hsp & _ & Hlen & _) Hx HQ. unfold removeInternal. wp_line. eapply erase_tree; [exact Hh|]. intros t Ht Hd. wp_line.
  apply HQ. split_and!; [|done|done|done]. split; [done|by apply (spaced_regs s)|done].
Qed.

Lemma insert_left_spec l1 node l2 s : added l1 node l2 s ->
  wpf F (insert_left node false) (fun o s' =>
    match o with
    | None => s' = s /\ forall x, x ∈ l1 -> apart s x node
    | Some r => r = OverlapOrDuplicateStart /\ rejected l1 node l2 s s'
    end) s.
Proof.
  intros Hadd. pose proof Hadd as (Hh & Hsp & Hnode & Hlen & H1 & H2). apply holds_walkable in Hh. unfold insert_left.
  destruct (spaced_app _ _ _ Hsp) as (S1 & _ & _).
  wp_line. eapply (wp_pred F _ l1); [exact Hh|]. destruct (list_snoc_cases l1) as [->|(l1' & p & ->)].
  { cbn [last default]. rewrite bool_decide_false by auto. wp_line. set_solver. }
  rewrite last_snoc. cbn [default id]. assert (Hp : p ∈ l1' ++ [p]) by set_solver. rewrite bool_decide_true.
  2: { destruct Hh as (np & T & Ht & HT & _). intros ->. eapply nil_notin; [apply Ht|]. rewrite HT. set_solver. }
  wp_line. eapply (wp_pred F _ (l1' ++ [p])); [exact Hh|]. rewrite last_snoc. cbn [default id].
  destruct (spaced_lookup s _ p S1 Hp) as (r & Hr & _ & He & _). wp_line. eapply wp_reg; [exact Hr|].
  destruct Hnode as (n & Hn & Hnle). assert (Hns : start n = reg_start s node) by (unfold reg_start; by rewrite Hn).
  wp_line. eapply wp_reg; [exact Hn|]. rewrite He, Hns. specialize (H1 p Hp) as Hpn. apply wpf_if; intros Hc; bd.
  - eapply reject_spec; [exact Hadd| |by intros s' H']. exists p. split; [set_solver|]. unfold clear_of, apart. lia.
  - cbn [andb]. wp_line. split; [done|]. intros x Hx. split; [|by apply H1]. pose proof (spaced_ends s _ _ S1 x Hx). lia.
Qed.

Lemma insert_right_spec l1 node l2 s : added l1 node l2 s ->
  wpf F (insert_right node false) (fun o s' =>
    match o with
    | None => s' = s /\ forall x, x ∈ l2 -> apart s node x
    | Some r => r = OverlapOrDuplicateStart /\ rejected l1 node l2 s s'
    end) s.
Proof.
  intros Hadd. pose proof Hadd as (Hh & Hsp & Hnode & Hlen & H1 & H2). apply holds_walkable in Hh. unfold insert_right.
  destruct (spaced_app _ _ _ Hsp) as (_ & S2 & _).
  wp_line. eapply (wp_succ F _ l1 node l2); [exact Hh|]. destruct l2 as [|q l2].
  { cbn [head default]. rewrite bool_decide_false by auto. wp_line. set_solver. }
  cbn [head default id]. rewrite bool_decide_true.
  2: { destruct Hh as (np & T & Ht & HT & _). intros ->. eapply nil_notin; [apply Ht|]. rewrite HT. set_solver. }
  destruct (spaced_lookup s _ q S2 ltac:(set_solver)) as (r & Hr & Hs & _ & _). wp_line. eapply wp_reg; [exact Hr|].
  destruct Hnode as (n & Hn & Hnle). assert (Hne : end_ n = reg_end s node) by (unfold reg_end; by rewrite Hn).
  wp_line. eapply wp_reg; [exact Hn|]. rewrite Hs, Hne. specialize (H2 q ltac:(set_solver)) as Hq. apply wpf_if; intros Hc; bd.
  - eapply reject_spec; [exact Hadd| |by intros s' H']. exists q. split; [set_solver|]. unfold clear_of, apart. lia.
  - cbn [andb]. wp_line. split; [done|]. destruct (spaced_cons _ _ _ S2) as (_ & _ & Sq).
    intros x Hx. split; [|by apply H2]. apply elem_of_cons in Hx as [->|Hx]; [lia|]. destruct (Sq x Hx). lia.
Qed.

Lemma insert_spec l node s : laid_out holds l s -> node ∉ l -> node ≠ nil -> is_Some (mem (map s) !! node) -> sized s node ->
  map_len s < 2 ^ 64 - 1 ->
  wpf F (insert node false) (fun o s' => regs s' = regs s /\ dom (mem (map s')) = dom (mem (map s)) /\
    match o with
    | Inserted => exists l1 l2, l = l1 ++ l2 /\ laid_out holds (l1 ++ node :: l2) s'
    | OverlapOrDuplicateStart => laid_out walkable l s' /\ exists x, x ∈ l /\ ~ clear_of s x node
    end) s.
Proof.
  intros [Hh Hsp Hlen] Hnl Hn0 Hmem Hnode Hbound. unfold insert, keyed, on_tree. wp_line.
  eapply wpf_mono; [by apply (findOrAdd_spec (reg_start s) F l node)|]. intros [x|] t.
  { intros (-> & Hx & Ex). destruct s as [t n rg]. wp_line. split_and!; [done|done|split; [by apply holds_walkable|done|done]|].
    exists x. split; [done|]. unfold clear_of, apart. cbn in *. lia. }
  intros (l1 & l2 & -> & H1 & H2 & Hh1 & Hd1 & _). set (s1 := set_map t s).
  assert (Hadd : added l1 node l2 s1) by (split_and!; try done; by apply (spaced_regs s)).
  assert (Hrej : forall s', rejected l1 node l2 s1 s' -> regs s' = regs s /\ dom (mem (map s')) = dom (mem (map s)) /\
    laid_out walkable (l1 ++ l2) s' /\ exists x, x ∈ l1 ++ l2 /\ ~ clear_of s x node).
  { intros s' (Ha & Hb & Hc & Hd). split_and!; [done|by rewrite Hc|done|done]. }
  wp_line. eapply wpf_mono; [by apply (insert_left_spec l1 node l2)|]. intros [r|] s'.
  { intros [-> Hr]. wp_line. by apply Hrej. }
  intros [-> Hl]. wp_line. eapply wpf_mono; [by apply (insert_right_spec l1 node l2)|]. intros [r|] s'.
  { intros [-> Hr]. wp_line. by apply Hrej. }
  intros [-> Hr]. destruct (spaced_app _ _ _ (proj1 (proj2 Hadd))) as (S1 & S2 & S12).
  wp_line. apply wp_usz; [unfold is_w64; cbn [map_len set_map s1]; lia|]. wp_line. split_and!; [done|done|].
  exists l1, l2. split; [done|]. split; [exact Hh1| |].
  - apply (spaced_regs s1); [done|]. apply spaced_join; [done|apply (spaced_join _ [node]); [|done|]|].
    + split; [repeat constructor|]. by constructor.
    + intros x y Hx%list_elem_of_singleton Hy. subst. by apply Hr.
    + intros x y Hx [->|Hy]%elem_of_cons; [by apply Hl|by apply S12].
  - cbn [map_len]. rewrite length_app in *. cbn [map_len set_map s1] in *. simpl. lia.
Qed.

Lemma region_erase_spec l1 z l2 s : laid_out holds (l1 ++ z :: l2) s -> map_len s < 2 ^ 64 ->
  wpf F (erase z) (fun _ s' => laid_out walkable (l1 ++ l2) s' /\ regs s' = regs s) s.
Proof.
  intros [Hh Hsp Hlen] Hb. unfold erase. wp_line. eapply erase_tree; [exact Hh|]. intros t Ht _. rewrite length_app in Hlen. simpl in Hlen.
  wp_line. apply wp_usz; [unfold is_w64; cbn [map_len set_map]; lia|]. wp_line. split; [|done].
  destruct (spaced_app _ _ _ Hsp) as (S1 & S2 & S12). destruct (spaced_cons _ _ _ S2) as (_ & S2' & _).
  split; [exact Ht| |].
  - apply (spaced_regs s); [done|]. apply spaced_join; [done|done|]. intros x y Hx Hy. apply S12; set_solver.
  - cbn [map_len set_map] in *. rewrite length_app. lia.
Qed.
End insert.

(** ** What an address space relies on *)

(** [find] returns the region that an address is in, and nothing when it is in none. *)
Theorem region_find_correct l addr s : laid_out walkable l s ->
  wp (find addr) (fun o s' => s' = s /\
    match o with Some x => x ∈ l /\ within_region s addr x | None => forall x, x ∈ l -> ~ within_region s addr x end) s.
Proof. apply region_find_spec. Qed.

(** C16: [findFree] returns the lowest place in [bottom, top) for a range of the given size that keeps clear of
    all regions; it returns nothing only when there is none. *)
Theorem findFree_lowest l size bottom top s : laid_out walkable l s -> 0 < size -> 0 ≤ bottom -> top < 2 ^ 64 ->
  wp (findFree size bottom top) (fun o s' => s' = s /\ lowest_free s l size bottom top o) s.
Proof.
  intros Hl Hs Hb Ht. eapply wpf_mono; [apply findFree_spec; [exact Hl|lia|done|done]|].
  intros o s' [-> Ho]. by rewrite bool_decide_false in Ho by lia.
Qed.

(** Inserting a region without merging succeeds exactly when it keeps clear of all others; the map is then again
    a red-black tree of regions that do not overlap.  Otherwise the same regions are in the map. *)
Theorem region_insert_correct l node s : laid_out holds l s -> node ∉ l -> node ≠ nil -> is_Some (mem (map s) !! node) ->
  sized s node -> map_len s < 2 ^ 64 - 1 ->
  wp (insert node false) (fun o s' => regs s' = regs s /\ dom (mem (map s')) = dom (mem (map s)) /\
    match o with
    | Inserted => exists l1 l2, l = l1 ++ l2 /\ laid_out holds (l1 ++ node :: l2) s'
    | OverlapOrDuplicateStart => laid_out walkable l s' /\ exists x, x ∈ l /\ ~ clear_of s x node
    end) s.
Proof. apply insert_spec. Qed.

(** ** Concrete maps *)

Definition mk (a b : Z) : Region := Reg a b Mmap 3 3 true true Anonymous.
(** Three regions, at the nodes of [small], and one more that is not in the map. *)
Definition demo : region_map :=
  RMap small 3 (<[1 := mk 0x1000 0x3000]> $ <[2 := mk 0x4000 0x5000]> $ <[3 := mk 0x5000 0x9000]> $ <[4 := mk 0x9000 0xa000]> ∅).
Lemma demo_laid_out : laid_out holds [1; 2; 3] demo.
Proof.
  split; [|split|done].
  - exists (Node black (Node red Leaf 1 Leaf) 2 (Node red Leaf 3 Leaf)), 1%nat. split_and!; try done.
    + split; [done| |by apply (bool_decide_unpack _)|done]. cbn [shape root_of]. by split_and!.
    + repeat econstructor.
    + repeat constructor; by vm_compute.
  - repeat constructor; by vm_compute.
  - repeat constructor; eexists; (split; [by vm_compute|]); by vm_compute.
Qed.
Lemma region_find_correct_witness : find 0x4fff demo = Ok (Some 2, demo).
Proof.
  destruct (wp_inv _ _ _ (region_find_correct [1; 2; 3] 0x4fff demo (laid_holds_walkable _ _ demo_laid_out))) as (o & s' & E & -> & _).
  rewrite E. vm_compute in E. congruence.
Defined.
Lemma findFree_lowest_witness : findFree 0x1000 0x2000 0x10000 demo = Ok (Some 0x3000, demo).
Proof.
  destruct (wp_inv _ _ _ (findFree_lowest [1; 2; 3] 0x1000 0x2000 0x10000 demo (laid_holds_walkable _ _ demo_laid_out)
    ltac:(done) ltac:(done) ltac:(done))) as (o & s' & E & -> & _).
  rewrite E. vm_compute in E. congruence.
Defined.
Lemma region_insert_correct_witness : exists s', insert 4 false demo = Ok (Inserted, s').
Proof.
  destruct (wp_inv _ _ _ (region_insert_correct [1; 2; 3] 4 demo demo_laid_out ltac:(set_solver) ltac:(done)
    ltac:(eexists; by vm_compute) ltac:(eexists; split; [by vm_compute|done]) ltac:(done))) as (o & s' & E & _).
  exists s'. rewrite E. destruct o; [done|]. vm_compute in E. congruence.
Defined.
(** With merging, the new region is taken into the neighbour that it touches. *)
Lemma insert_merges : exists s', insert 4 true demo = Ok (Inserted, s') /\ map_len s' = 3 /\ regs s' !! 3 = Some (mk 0x5000 0xa000).
Proof. eexists. split; [by vm_compute|]. by split. Qed.
