(* ===== verification/VmMmap.v ===== *)
(** * Heap, mappings and segments of a process

    Models the parts of [sos/src/vm/client.zig] and [sos/src/vm/handle.zig] that
    hand out address ranges: the program break, [mmap] with its region records,
    the segments of the loaded program, and which addresses a process may use.
    The allocator of region records and the table of open files are the class
    [VmEnv]; the top of user memory is a parameter. *)

From S2P Require Import Prelude RbTree RbShape RbSearch RbInsert RbAdd RbErase VmRegion RegionMap.

Definition PAGE_SIZE_4K : Z := 0x1000.
Definition HEAP_BASE : Z := 0x40000000.
Definition MMAP_BASE : Z := 0x80000000.
Definition HEAP_LIMIT : Z := MMAP_BASE - PAGE_SIZE_4K.
Definition STACK_MAX_BYTES : Z := 64 * 1024 * 1024.
Definition MAX_MMAP_REGIONS : Z := 64.
Definition MAX_ELF_REGIONS : Z := 8.
Definition MAP_PRIVATE : Z := 0x02.
Definition MAP_ANONYMOUS : Z := 0x20.

Inductive VmError :=
| ClientContext | Bounds | Unsupported | OutOfFrames | OutOfSlots | MapFailed | Capacity | InvalidArgs | AlreadyMapped.
#[export] Instance VmError_eq_dec : EqDecision VmError.
Proof. solve_decision. Defined.

Definition EIO : Z := 5.
Definition ENOMEM : Z := 12.
Definition EEXIST : Z := 17.
Definition EINVAL : Z := 22.
Definition ENOSYS : Z := 38.
Definition vmErrorToErrno (err : VmError) : Z :=
  match err with
  | ClientContext => EINVAL | Bounds => ENOMEM | Unsupported => ENOSYS | OutOfFrames => ENOMEM | OutOfSlots => ENOMEM
  | MapFailed => EIO | Capacity => ENOMEM | InvalidArgs => EINVAL | AlreadyMapped => EEXIST
  end.

(** The allocator of region records, and the open files of the process. *)
Class VmEnv (E : Type) := {
  create : E -> option Z * E;
  destroy : Z -> E -> E;
  retainFileHandle : Z -> E -> option Z * E;
  releaseFileHandle : Z -> E -> E;
  releaseHandleRef : Z -> Z -> E -> E;
  ioState : Z;
}.
(** A record that is created is none of those in use, and using files does not touch them.
    [held] counts the references to each open file. *)
Class VmEnvLaws (E : Type) `{!VmEnv E} := {
  live : E -> gset Z;
  held : E -> Z -> nat;
  create_fresh e p e' : create e = (Some p, e') -> (p ≠ nil) /\ (p ∉ live e) /\ live e' = {[p]} ∪ live e;
  create_none e e' : create e = (None, e') -> live e' = live e;
  destroy_live e p : live e ∖ {[p]} ⊆ live (destroy p e);
  retain_live e fd : live (retainFileHandle fd e).2 = live e;
  release_live e h : live (releaseFileHandle h e) = live e;
  release_ref_live e o h : live (releaseHandleRef o h e) = live e;
  create_held e k : held (create e).2 k = held e k;
  retain_held e fd k : held (retainFileHandle fd e).2 k =
    (held e k + match (retainFileHandle fd e).1 with Some h => if decide (k = h) then 1 else 0 | None => 0 end)%nat;
  release_held e h k : held (releaseFileHandle h e) k = (held e k - if decide (k = h) then 1 else 0)%nat;
}.

Record Client (E : Type) := Cl {
  heap_break : Z; mmap_next : Z; stack_guard : Z; stack_top : Z; active_mmaps : Z;
  elf_regions : list Region; elf_region_count : Z; regions : region_map; env : E }.
Arguments Cl {E}. Arguments heap_break {E}. Arguments mmap_next {E}. Arguments stack_guard {E}. Arguments stack_top {E}.
Arguments active_mmaps {E}. Arguments elf_regions {E}. Arguments elf_region_count {E}. Arguments regions {E}. Arguments env {E}.

Section vm.
Context (seL4_UserTop : Z) {E : Type} `{!VmEnv E}.
Abbreviation VM := (M (Client E)).

Definition STACK_TOP : Z := Z.land seL4_UserTop (Z.lnot (PAGE_SIZE_4K - 1)).
Definition STACK_GUARD_BASE : Z := STACK_TOP - STACK_MAX_BYTES.
Definition MMAP_LIMIT : Z := STACK_GUARD_BASE - PAGE_SIZE_4K.

Definition upd_regions (f : region_map) (c : Client E) : Client E :=
  Cl (heap_break c) (mmap_next c) (stack_guard c) (stack_top c) (active_mmaps c) (elf_regions c) (elf_region_count c) f (env c).
Definition upd_env (e : E) (c : Client E) : Client E :=
  Cl (heap_break c) (mmap_next c) (stack_guard c) (stack_top c) (active_mmaps c) (elf_regions c) (elf_region_count c) (regions c) e.
Definition on_regions {A} (m : M region_map A) : VM A := zoom regions upd_regions m.
Definition in_env {A} (f : E -> A * E) : VM A := fun c => let '(a, e) := f (env c) in Ok (a, upd_env e c).
Definition set_heap_break (z : Z) : VM unit := modify (fun c =>
  Cl z (mmap_next c) (stack_guard c) (stack_top c) (active_mmaps c) (elf_regions c) (elf_region_count c) (regions c) (env c)).
Definition set_mmap_next (z : Z) : VM unit := modify (fun c =>
  Cl (heap_break c) z (stack_guard c) (stack_top c) (active_mmaps c) (elf_regions c) (elf_region_count c) (regions c) (env c)).
Definition set_active_mmaps (z : Z) : VM unit := modify (fun c =>
  Cl (heap_break c) (mmap_next c) (stack_guard c) (stack_top c) z (elf_regions c) (elf_region_count c) (regions c) (env c)).
Definition set_elf_regions (l : list Region) (n : Z) : VM unit := modify (fun c =>
  Cl (heap_break c) (mmap_next c) (stack_guard c) (stack_top c) (active_mmaps c) l n (regions c) (env c)).

(** The fields that [Client.init] sets up; the rest of it is the page tables. *)
Definition client_init (e : E) (rm : region_map) : Client E :=
  Cl HEAP_BASE MMAP_BASE STACK_GUARD_BASE STACK_TOP 0 (replicate (Z.to_nat MAX_ELF_REGIONS) default_region) 0 rm e.

(** ** Region records *)

(** A new record, with undefined links. *)
Definition create_node : VM (option Z) :=
  o ← in_env create;
  match o with
  | None => mret None
  | Some p =>
    on_regions (modify (fun s => RMap (RbTree (root (map s)) (len (map s)) (<[p := Rb nil nil nil black]> (mem (map s))) (nil_init (map s)))
                                      (map_len s) (<[p := default_region]> (regs s))));;
    mret (Some p)
  end.
Definition set_region (p : Z) (r : Region) : VM unit := on_regions (set_regs <[p := r]>).
Definition destroy_node (p : Z) : VM unit := in_env (fun e => (tt, destroy p e)).
Definition set_backing (b : Backing) (r : Region) : Region :=
  Reg (start r) (end_ r) (kind r) (data r) (perm r) (used r) (mapped r) b.

Definition leaseMmapRegion (base prot : Z) (backing : Backing) : VM (VmError + Z) :=
  c ← get;
  if bool_decide (MAX_MMAP_REGIONS ≤ active_mmaps c) then mret (inl Capacity)
  else
    node ← create_node;
    match node with
    | None => mret (inl Capacity)
    | Some node =>
      set_region node (reset Mmap);;
      r ← configure base Mmap prot;
      set_region node (set_backing backing r);;
      exist ← on_regions (find base);
      inside ← match exist with
               | Some x => r ← on_regions (reg x); mret (contains r base)
               | None => mret false
               end;
      if (inside : bool) then destroy_node node;; mret (inl InvalidArgs)
      else
        ok ← on_regions (insert node false);
        match ok with
        | OverlapOrDuplicateStart => destroy_node node;; mret (inl InvalidArgs)
        | Inserted =>
          c ← get;
          n ← usize (active_mmaps c + 1);
          set_active_mmaps n;;
          mret (inr node)
        end
    end.

Definition releaseFileBackingHandle (owner handle : option Z) : VM unit :=
  match owner, handle with
  | Some io_state, Some h => in_env (fun e => (tt, releaseHandleRef io_state h e))
  | _, _ => mret tt
  end.
Definition releaseMmapRegion (node : Z) : VM unit :=
  r ← on_regions (reg node);
  if negb (used r) then mret tt
  else
    match backing r with
    | Anonymous => mret tt
    | File _ _ _ h o => releaseFileBackingHandle o h;; set_region node (set_backing Anonymous r)
    end;;
    on_regions (erase node);;
    destroy_node node;;
    c ← get;
    when (bool_decide (0 < active_mmaps c)) (set_active_mmaps (active_mmaps c - 1)).

Definition findMmapRegion (addr : Z) : VM (option Z) :=
  node ← on_regions (find addr);
  match node with
  | None => mret None
  | Some node =>
    r ← on_regions (reg node);
    mret (if bool_decide (kind r = Mmap) && contains r addr then Some node else None)
  end.

Definition addElfRegion (start end_ prot : Z) : VM (VmError + unit) :=
  c ← get;
  if bool_decide (MAX_ELF_REGIONS ≤ elf_region_count c) then mret (inl Capacity)
  else if bool_decide (end_ ≤ start) then mret (inl InvalidArgs)
  else
    let idx := elf_region_count c in
    cassert (bool_decide (0 ≤ idx < Z.of_nat (length (elf_regions c))));;
    r ← configure start Normal prot;
    n ← usize (elf_region_count c + 1);
    set_elf_regions (<[Z.to_nat idx := Reg start end_ (kind r) (data r) (perm r) (used r) true (backing r)]> (elf_regions c)) n;;
    mret (inr tt).

Definition isLegalUserMapping (addr : Z) : VM bool :=
  c ← get;
  if bool_decide (HEAP_BASE ≤ addr) && bool_decide (addr < heap_break c) then mret true
  else
    min_stack ← usize (stack_guard c + PAGE_SIZE_4K);
    if bool_decide (min_stack ≤ addr) && bool_decide (addr < stack_top c) then mret true
    else
      m ← findMmapRegion addr;
      if bool_decide (m ≠ None) then mret true
      else mret (existsb (fun r => bool_decide (start r ≤ addr) && bool_decide (addr < end_ r))
                         (take (Z.to_nat (elf_region_count c)) (elf_regions c))).

(** ** System calls *)

Definition brk (requested : Z) : VM (VmError + Z) :=
  c ← get;
  if bool_decide (requested = 0) then mret (inr (heap_break c))
  else if bool_decide (requested < HEAP_BASE) || bool_decide (HEAP_LIMIT < requested) then mret (inl Bounds)
  else if bool_decide (requested < heap_break c) then mret (inl Unsupported)
  else set_heap_break requested;; mret (inr requested).

(** What the arguments must be. *)
Definition mmap_check (addr length flags fd offset : Z) : option VmError :=
  if bool_decide (length = 0) then Some InvalidArgs
  else if bool_decide (Z.land flags MAP_PRIVATE = 0) then Some Unsupported
  else
    let want_anonymous := bool_decide (Z.land flags MAP_ANONYMOUS ≠ 0) in
    let unsupported_flags := Z.land flags (Z.lnot (Z.lor MAP_ANONYMOUS MAP_PRIVATE)) in
    if bool_decide (unsupported_flags ≠ 0) then Some Unsupported
    else if bool_decide (addr ≠ 0) then Some Unsupported
    else if want_anonymous then
      if bool_decide (fd ≠ -1) || bool_decide (offset ≠ 0) then Some Unsupported else None
    else if bool_decide (fd < 0) then Some Unsupported
    else if bool_decide (Z.land offset (PAGE_SIZE_4K - 1) ≠ 0) then Some InvalidArgs
    else None.

Definition mmap (addr length prot flags fd offset : Z) : VM (VmError + Z) :=
  match mmap_check addr length flags fd offset with
  | Some e => mret (inl e)
  | None =>
    let want_anonymous := bool_decide (Z.land flags MAP_ANONYMOUS ≠ 0) in
    aligned ← alignUp length PAGE_SIZE_4K;
    if bool_decide (aligned = 0) then mret (inl InvalidArgs)
    else
      c ← get;
      e ← usize (mmap_next c + aligned);
      if bool_decide (MMAP_LIMIT < e) then mret (inl Bounds)
      else
        let base := mmap_next c in
        retained ← (if want_anonymous then mret (Some None)
                    else o ← in_env (retainFileHandle fd); mret (match o with Some h => Some (Some h) | None => None end));
        match retained with
        | None => mret (inl InvalidArgs)
        | Some retained_handle =>
          let backing_info := if want_anonymous then Anonymous
            else File fd offset aligned retained_handle (match retained_handle with Some _ => Some ioState | None => None end) in
          tracker ← leaseMmapRegion base prot backing_info;
          match tracker with
          | inl err =>
            match retained_handle with Some h => in_env (fun e => (tt, releaseFileHandle h e)) | None => mret tt end;;
            mret (inl err)
          | inr node =>
            end_addr ← usize (base + aligned);
            r ← on_regions (reg node);
            set_region node (Reg base end_addr (kind r) (data r) (perm r) (used r) true (backing r));;
            set_mmap_next end_addr;;
            mret (inr base)
          end
        end
  end.

(** ** Mappings do not overlap *)

Context `{!VmEnvLaws E}.

(** A mapping of at least a page, whole pages long. *)
Definition mapping (c : Client E) (x : Z) : Prop :=
  exists r, regs (regions c) !! x = Some r /\ kind r = Mmap /\ used r = true /\ mapped r = true /\
    start r < end_ r /\ start r mod PAGE_SIZE_4K = 0 /\ end_ r mod PAGE_SIZE_4K = 0 /\ MMAP_BASE ≤ start r /\ end_ r ≤ mmap_next c.

(** The mappings [l] of a process. *)
Record vm_ok (l : list Z) (c : Client E) : Prop := {
  ok_regions : laid_out holds l (regions c);
  ok_mappings : forall x, x ∈ l -> mapping c x;
  ok_live : forall x, x ∈ l -> x ∈ live (env c);
  ok_count : active_mmaps c = Z.of_nat (length l);
  ok_next : MMAP_BASE ≤ mmap_next c /\ mmap_next c mod PAGE_SIZE_4K = 0;
  ok_limit : mmap_next c ≤ MMAP_LIMIT;
}.

(** What a failed call leaves as it was: the limits and counts of the process, its
    mappings, and the references to open files. *)
Definition same_limits (c c' : Client E) : Prop :=
  heap_break c' = heap_break c /\ mmap_next c' = mmap_next c /\ stack_guard c' = stack_guard c /\ stack_top c' = stack_top c /\
  elf_regions c' = elf_regions c /\ elf_region_count c' = elf_region_count c.
Definition unchanged (l : list Z) (c c' : Client E) : Prop :=
  same_limits c c' /\ active_mmaps c' = active_mmaps c /\ (forall x, x ∈ l -> regs (regions c') !! x = regs (regions c) !! x) /\
  forall k, held (env c') k = held (env c) k.
Definition unchanged_but_held (l : list Z) (c c' : Client E) : Prop :=
  same_limits c c' /\ active_mmaps c' = active_mmaps c /\ forall x, x ∈ l -> regs (regions c') !! x = regs (regions c) !! x.
Lemma unchanged_held l c c' : unchanged_but_held l c c' -> (forall k, held (env c') k = held (env c) k) -> unchanged l c c'.
Proof. by intros (? & ? & ?). Qed.
Lemma unchanged_but_trans l c c1 c2 : unchanged_but_held l c c1 -> unchanged_but_held l c1 c2 -> unchanged_but_held l c c2.
Proof.
  intros ((? & ? & ? & ? & ? & ?) & ? & Hr1) ((? & ? & ? & ? & ? & ?) & ? & Hr2). split; [split_and!; congruence|].
  split; [congruence|]. intros x Hx. by rewrite Hr2, Hr1.
Qed.
(** The reference that a region has. *)
Definition refs_of (b : Backing) (k : Z) : nat :=
  match b with File _ _ _ (Some h) _ => if decide (k = h) then 1 else 0 | _ => 0 end.

Section lease.
Context (F : fault -> Prop).

Lemma wp_in_env {A} (f : E -> A * E) (Q : A -> Client E -> Prop) c :
  Q (f (env c)).1 (upd_env (f (env c)).2 c) -> wpf F (in_env f) Q c.
Proof. unfold wpf, in_env. by destruct (f (env c)) as [a e]. Qed.

(** A record with an empty region at the next address, in the map as its last one. *)
Definition leased (l : list Z) (node : Z) (r : Region) (c c' : Client E) : Prop :=
  (node ∉ l) /\ laid_out holds (l ++ [node]) (regions c') /\ regs (regions c') !! node = Some r /\
  start r = mmap_next c /\ end_ r = mmap_next c /\ kind r = Mmap /\ used r = true /\
  (forall x, x ∈ l -> regs (regions c') !! x = regs (regions c) !! x) /\
  (forall x, x ∈ l ++ [node] -> x ∈ live (env c')) /\ active_mmaps c' = active_mmaps c + 1 /\ same_limits c c' /\
  forall k, held (env c') k = held (env c) k.

Lemma create_node_spec l c : vm_ok l c ->
  wpf F create_node (fun o c' => unchanged l c c' /\
    match o with
    | None => vm_ok l c'
    | Some p => (p ∉ l) /\ (p ≠ nil) /\ laid_out holds l (regions c') /\ is_Some (mem (map (regions c')) !! p) /\
        (forall x, x ∈ l ++ [p] -> x ∈ live (env c'))
    end) c.
Proof.
  intros [H1 H2 H3 H4 H5 H6]. unfold create_node. wp_line. apply wp_in_env. pose proof (create_held (env c)) as Hheld.
  destruct (create (env c)) as [[p|] e] eqn:Ec; cbn [fst snd] in *.
  - destruct (create_fresh _ _ _ Ec) as (Hp0 & Hp & Hlive). assert (Hpl : p ∉ l) by (intros Hx%H3; done). wp_line.
    split; [split; [done|]; split; [done|]; split; [|done]|split_and!; try done].
    + intros x Hx. cbn. rewrite lookup_insert_ne; [done|set_solver].
    + apply laid_out_outside; [done|done|]. apply holds_fresh; [done|done|apply H1].
    + cbn. rewrite lookup_insert_eq. eauto.
    + intros x Hx. cbn. rewrite Hlive. apply elem_of_app in Hx as [Hx%H3|Hx%list_elem_of_singleton]; set_solver.
  - wp_line. split; [done|]. pose proof (create_none _ _ Ec) as Hlive. split; try done. cbn. by rewrite Hlive.
Qed.

(** The next address is after all mappings. *)
Lemma before_next l c x : vm_ok l c -> x ∈ l -> reg_start (regions c) x < mmap_next c /\ reg_end (regions c) x ≤ mmap_next c.
Proof.
  intros Hok Hx. destruct (ok_mappings _ _ Hok x Hx) as (r & Hr & _ & _ & _ & Hlt & _ & _ & _ & He).
  unfold reg_start, reg_end. rewrite Hr. cbn. lia.
Qed.

(** The record for a new mapping goes to the end of the map. *)
Lemma insert_last l node r c s (Q : inserted -> region_map -> Prop) : vm_ok l c -> laid_out holds l s ->
  (forall x, x ∈ l -> regs s !! x = regs (regions c) !! x) -> (node ∉ l) -> (node ≠ nil) -> is_Some (mem (map s) !! node) ->
  regs s !! node = Some r -> start r = mmap_next c -> end_ r = mmap_next c -> active_mmaps c < MAX_MMAP_REGIONS ->
  (forall s', laid_out holds (l ++ [node]) s' -> regs s' = regs s -> Q Inserted s') ->
  wpf F (insert node false) Q s.
Proof.
  intros Hok Hl Hsame Hn Hn0 Hmem Hr Hs He Hact HQ.
  assert (Hst : forall x, x ∈ l -> reg_start s x < mmap_next c /\ reg_end s x ≤ mmap_next c).
  { intros x Hx. unfold reg_start, reg_end. rewrite Hsame by done. by apply (before_next l c x). }
  assert (Hns : reg_start s node = mmap_next c /\ reg_end s node = mmap_next c) by (unfold reg_start, reg_end; by rewrite Hr).
  eapply wpf_mono; [apply (insert_spec F l node); try done|].
  - exists r. split; [done|lia].
  - rewrite (laid_len _ _ _ Hl), <- (ok_count _ _ Hok). unfold MAX_MMAP_REGIONS in Hact. lia.
  - intros [] s' (Hregs & _ & H').
    + destruct H' as (l1 & l2 & -> & H'). apply HQ; [|done].
      destruct l2 as [|y l2]; [by rewrite app_nil_r|]. exfalso. pose proof (laid_spaced _ _ _ H') as Hsp.
      destruct (spaced_app _ _ _ Hsp) as (_ & [_ [_ Hy]]%spaced_cons & _). specialize (Hy y ltac:(set_solver)).
      destruct Hy as [_ Hy]. unfold reg_start in Hy. rewrite Hregs in Hy. fold (reg_start s node) (reg_start s y) in Hy.
      destruct (Hst y ltac:(set_solver)). lia.
    + destruct H' as (_ & x & Hx & Hc). destruct Hc. left. unfold apart. destruct (Hst x Hx). lia.
Qed.

Lemma leaseMmapRegion_spec l prot b c : vm_ok l c -> 0 ≤ prot < 2 ^ 31 ->
  wpf F (leaseMmapRegion (mmap_next c) prot b) (fun o c' =>
    match o with
    | inl _ => vm_ok l c' /\ unchanged l c c'
    | inr node => exists r, leased l node r c c' /\ backing r = b
    end) c.
Proof.
  intros Hok Hprot. unfold leaseMmapRegion. wp_line. apply wpf_if; intros Hact; bd; [by wp_line|].
  wp_line. eapply wpf_mono; [by apply (create_node_spec l)|]. intros [node|] c1; [|by intros (? & ?); wp_line].
  intros ((Hlims & Hact1 & Hsame & Hheld) & Hn & Hn0 & Hl & Hmem & Hlive). unfold set_region, set_regs, on_regions. wp_line.
  eapply configure_spec; [done|]. wp_line. set (r := set_backing b _). set (s0 := regions c1) in *.
  set (s1 := RMap (map s0) (map_len s0) (<[node := r]> (<[node := reset Mmap]> (regs s0)))).
  assert (Hl1 : laid_out holds l s1).
  { assert (Hl0 : laid_out holds l (RMap (map s0) (map_len s0) (<[node := reset Mmap]> (regs s0))))
      by (apply laid_out_outside; [done|done|apply Hl]).
    exact (laid_out_outside l _ node r (map s0) Hn Hl0 (laid_tree _ _ _ Hl0)). }
  assert (Hsame1 : forall x, x ∈ l -> regs s1 !! x = regs (regions c) !! x).
  { intros x Hx. cbn. rewrite !lookup_insert_ne by set_solver. by apply Hsame. }
  eapply wpf_mono; [apply (region_find_spec F l (mmap_next c) s1); by apply laid_holds_walkable|]. intros o s' [-> Ho].
  destruct o as [x|].
  { destruct Ho as [Hx [_ Hin]]. unfold reg_end in Hin. rewrite Hsame1 in Hin by done. fold (reg_end (regions c) x) in Hin.
    destruct (before_next l c x Hok Hx). lia. }
  wp_line. eapply (insert_last l node r c); [exact Hok|exact Hl1|exact Hsame1|done|done|exact Hmem|by cbn; rewrite lookup_insert_eq|done|done|lia|].
  intros s2 Hl2 Hregs2. wp_line. apply wp_usz; [unfold is_w64, MAX_MMAP_REGIONS in *; cbn; pose proof (ok_count _ _ Hok); lia|].
  wp_line. exists r. split; [|done]. split_and!; try done; cbn.
  - by rewrite Hregs2; cbn; rewrite lookup_insert_eq.
  - intros x Hx. rewrite Hregs2. by apply Hsame1.
  - lia.
Qed.
End lease.

(** ** The system call *)

Section mmap.
Context (F : fault -> Prop) (HUserTop : 0 ≤ seL4_UserTop < 2 ^ 48).

Lemma MMAP_LIMIT_small : MMAP_LIMIT < 2 ^ 48.
Proof.
  unfold MMAP_LIMIT, STACK_GUARD_BASE, STACK_TOP, STACK_MAX_BYTES, PAGE_SIZE_4K. rewrite <- Z.ldiff_land.
  change (4096 - 1) with (Z.ones 12). rewrite Z.ldiff_ones_r, Z.shiftl_mul_pow2, Z.shiftr_div_pow2 by lia.
  pose proof (Z.mul_div_le seL4_UserTop (2 ^ 12) ltac:(lia)). lia.
Qed.
Lemma vm_ok_env l c e : live e = live (env c) -> vm_ok l c -> vm_ok l (upd_env e c).
Proof. intros He [H1 H2 H3 H4 H5 H6]. split; try done. cbn. by rewrite He. Qed.

(** A mapping was added after the others. *)
Definition mapped_at (l : list Z) (base length : Z) (c c' : Client E) : Prop :=
  exists node, base = mmap_next c /\ vm_ok (l ++ [node]) c' /\ reg_start (regions c') node = base /\
    reg_end (regions c') node = mmap_next c' /\ base + length ≤ mmap_next c' < base + length + PAGE_SIZE_4K /\
    (forall x, x ∈ l -> regs (regions c') !! x = regs (regions c) !! x) /\
    exists r, regs (regions c') !! node = Some r /\ forall k, held (env c') k = (held (env c) k + refs_of (backing r) k)%nat.

Lemma track_spec l node r c0 c c' aligned length (Q : VmError + Z -> Client E -> Prop) :
  vm_ok l c -> mmap_next c0 = mmap_next c -> regions c0 = regions c -> leased l node r c c' ->
  (forall k, held (env c) k = (held (env c0) k + refs_of (backing r) k)%nat) ->
  0 < aligned -> aligned mod PAGE_SIZE_4K = 0 -> mmap_next c + aligned ≤ MMAP_LIMIT -> length ≤ aligned < length + PAGE_SIZE_4K ->
  (forall c', mapped_at l (mmap_next c) length c0 c' -> Q (inr (mmap_next c)) c') ->
  wpf F (end_addr ← usize (mmap_next c + aligned);
         r ← on_regions (reg node);
         set_region node (Reg (mmap_next c) end_addr (kind r) (data r) (perm r) (used r) true (backing r));;
         set_mmap_next end_addr;;
         mret (inr (mmap_next c))) Q c'.
Proof.
  intros Hok Hn0 Hr0 (Hn & Hl & Hr & Hs & He & Hk & Hu & Hsame & Hlive & Hact & _ & Hheld) Href Ha0 Ha Hlim Hlen HQ.
  pose proof MMAP_LIMIT_small. destruct (ok_next _ _ Hok) as [Hb1 Hb2]. assert (0 < MMAP_BASE) by done.
  wp_line. apply wp_usz; [unfold is_w64; lia|]. unfold on_regions, set_region, set_regs. wp_line. eapply wp_reg; [exact Hr|]. wp_line.
  set (r' := Reg _ _ _ _ _ _ _ _). apply HQ. exists node. cbn [regions mmap_next env upd_regions].
  assert (Hsame' : forall x, x ∈ l -> <[node:=r']> (regs (regions c')) !! x = regs (regions c) !! x).
  { intros x Hx. rewrite lookup_insert_ne; [by apply Hsame|]. by intros ->. }
  assert (Hlast : mapping (Cl (heap_break c') (mmap_next c + aligned) (stack_guard c') (stack_top c') (active_mmaps c') (elf_regions c')
    (elf_region_count c') (RMap (map (regions c')) (map_len (regions c')) (<[node:=r']> (regs (regions c')))) (env c')) node).
  { exists r'. cbn. rewrite lookup_insert_eq. split_and!; try done; try lia. unfold PAGE_SIZE_4K in *. rewrite Z.add_mod, Hb2, Ha by lia. done. }
  split_and!; [done| | | |lia|lia| |].
  - split; cbn [regions mmap_next env active_mmaps].
    + eapply laid_out_extend; [exact Hl|done|exact Hr|done|cbn; lia].
    + intros x [Hx|Hx%list_elem_of_singleton]%elem_of_app; [|by subst].
      destruct (ok_mappings _ _ Hok x Hx) as (rx & Hrx & K1 & K2 & K3 & K4 & K5 & K6 & K7 & K8). exists rx. cbn.
      rewrite Hsame' by done. split_and!; try done. lia.
    + exact Hlive.
    + cbn. rewrite Hact, (ok_count _ _ Hok), length_app. simpl. lia.
    + cbn. split; [lia|]. unfold PAGE_SIZE_4K in *. by rewrite Z.add_mod, Hb2, Ha by lia.
    + done.
  - unfold reg_start. cbn. by rewrite lookup_insert_eq.
  - unfold reg_end. cbn. by rewrite lookup_insert_eq.
  - intros x Hx. rewrite Hr0. by apply Hsame'.
  - exists r'. cbn. rewrite lookup_insert_eq. split; [done|]. intros k. by rewrite Hheld, Href.
Qed.

Lemma mmap_spec l addr length prot flags fd offset c : vm_ok l c -> 0 ≤ length < 2 ^ 63 -> 0 ≤ prot < 2 ^ 31 ->
  wpf F (mmap addr length prot flags fd offset) (fun o c' =>
    match o with
    | inl _ => vm_ok l c' /\ unchanged l c c'
    | inr base => mapped_at l base length c c'
    end) c.
Proof.
  intros Hok Hlen Hprot. unfold mmap. destruct (mmap_check addr length flags fd offset) as [err|] eqn:Hchk; [by wp_line|].
  assert (Hl0 : 0 < length) by (unfold mmap_check in Hchk; destruct (decide (length = 0)); [rewrite bool_decide_true in Hchk; done|lia]).
  pose proof MMAP_LIMIT_small. destruct (ok_next _ _ Hok) as [Hb1 Hb2]. pose proof (ok_limit _ _ Hok). assert (0 < MMAP_BASE) by done.
  assert (Hps : 0 < PAGE_SIZE_4K ≤ 4096) by done.
  wp_line. apply alignUp_spec; [lia|lia|lia|]. intros aligned Hal Ham. rewrite bool_decide_false by lia. wp_line.
  apply wp_usz; [unfold is_w64; lia|]. apply wpf_if; intros Hlim; bd; [by wp_line|].
  set (anon := bool_decide (Z.land flags MAP_ANONYMOUS ≠ 0)).
  assert (Hlease : forall h b c1, regions c1 = regions c -> same_limits c c1 -> active_mmaps c1 = active_mmaps c -> vm_ok l c1 ->
    (forall k, held (env c1) k = (held (env c) k + refs_of b k)%nat) ->
    (forall k, refs_of b k = match h with Some h => if decide (k = h) then 1 else 0 | None => 0 end%nat) ->
    wpf F (tracker ← leaseMmapRegion (mmap_next c) prot b;
      match tracker with
      | inl err => match h with Some h => in_env (fun e => (tt, releaseFileHandle h e)) | None => mret tt end;; mret (inl err)
      | inr node =>
        end_addr ← usize (mmap_next c + aligned);
        r ← on_regions (reg node);
        set_region node (Reg (mmap_next c) end_addr (kind r) (data r) (perm r) (used r) true (backing r));;
        set_mmap_next end_addr;;
        mret (inr (mmap_next c))
      end)
    (fun o c' => match o with inl _ => vm_ok l c' /\ unchanged l c c' | inr base => mapped_at l base length c c' end) c1).
  { intros h b c1 Hr1 Hl1 Ha1 Hok1 Hh1 Hb. assert (Hn1 : mmap_next c1 = mmap_next c) by apply Hl1. rewrite <- Hn1 at 1. wp_line. eapply wpf_mono; [by apply (leaseMmapRegion_spec F l)|].
    intros [err|node] c2; [intros [Hok2 Hu2]|intros (r & Hlse & Hbr)].
    - assert (Hu : unchanged_but_held l c c2 /\ forall k, held (env c2) k = (held (env c) k + refs_of b k)%nat).
      { split; [|intros k; rewrite <- Hh1; apply Hu2]. apply (unchanged_but_trans l c c1 c2); [|by destruct Hu2 as (? & ? & ? & _)].
        split; [done|]. split; [done|]. intros x _. by rewrite Hr1. }
      destruct Hu as [Hu Hk]. wp_line. destruct h as [h|]; [apply wp_in_env|]; cbn [fst snd]; wp_line.
      + split; [by apply vm_ok_env; [apply release_live|]|]. apply unchanged_held; [exact Hu|]. intros k. cbn.
        rewrite release_held, Hk, Hb. lia.
      + split; [done|]. apply unchanged_held; [exact Hu|]. intros k. rewrite Hk, Hb. lia.
    - rewrite <- Hn1. subst b. eapply (track_spec l node r c c1 c2 aligned length); [done|done|done|done|done|lia|done|lia|lia|by intros c' H']. }
  destruct anon.
  - apply wpf_bind, wpf_ret. by apply (Hlease None _ c).
  - wp_line. apply wp_in_env. pose proof (retain_live (env c) fd) as Hlv. pose proof (retain_held (env c) fd) as Hrh.
    destruct (retainFileHandle fd (env c)) as [[h|] e]; cbn [fst snd] in *; apply wpf_ret.
    + apply (Hlease (Some h) _ (upd_env e c)); try done. by apply vm_ok_env.
    + split; [by apply vm_ok_env|]. apply unchanged_held; [done|]. intros k. cbn. rewrite Hrh. lia.
Qed.
End mmap.

Lemma findMmapRegion_spec F l addr c : vm_ok l c ->
  wpf F (findMmapRegion addr) (fun o c' => c' = c /\
    match o with
    | Some x => x ∈ l /\ within_region (regions c) addr x
    | None => forall x, x ∈ l -> ~ within_region (regions c) addr x
    end) c.
Proof.
  intros Hok. unfold findMmapRegion, on_regions. wp_line.
  eapply wpf_mono; [apply (region_find_spec F l addr); apply laid_holds_walkable, Hok|]. intros o s' [-> Ho].
  replace (upd_regions (regions c) c) with c by (by destruct c). destruct o as [x|]; [|by wp_line].
  destruct Ho as [Hx Hin]. destruct (ok_mappings _ _ Hok x Hx) as (r & Hr & Hk & Hu & Hm & _).
  wp_line. eapply wp_reg; [exact Hr|]. replace (upd_regions (regions c) c) with c by (by destruct c). wp_line. split; [done|].
  unfold within_region, reg_start, reg_end in Hin. rewrite Hr in Hin. cbn in Hin.
  rewrite bool_decide_true by done. unfold contains. rewrite Hu, Hm, !bool_decide_true by lia. cbn [negb orb andb].
  split; [done|]. unfold within_region, reg_start, reg_end. rewrite Hr. done.
Qed.
End vm.

(** C17: For a protection that is not negative and a length below 2^63, nothing illegal
    happens in [mmap], whatever the other arguments are.  A call that succeeds returns
    the next address, at which it records a region of the length asked for, rounded up
    to pages, that overlaps no other mapping and stays below the stack; a mapping of a
    file takes one reference to the file that its region names.  A call that fails
    leaves the records of the mappings, their number, the next address and the other
    limits of the process as they were, and gives back the reference it may have taken. *)
Theorem mmap_correct (top : Z) {E} `{!VmEnv E} `{!VmEnvLaws E} l addr length prot flags fd offset (c : Client E) :
  0 ≤ top < 2 ^ 48 -> vm_ok top l c -> 0 ≤ length < 2 ^ 63 -> 0 ≤ prot < 2 ^ 31 ->
  wp (mmap top addr length prot flags fd offset) (fun o c' =>
    match o with
    | inl _ => vm_ok top l c' /\ unchanged l c c'
    | inr base => mapped_at top l base length c c'
    end) c.
Proof. intros Htop Hok. by apply mmap_spec. Qed.

(** An address is found in a mapping exactly when it is in the range of one. *)
Theorem findMmapRegion_correct (top : Z) {E} `{!VmEnv E} `{!VmEnvLaws E} l addr (c : Client E) : vm_ok top l c ->
  wp (findMmapRegion addr) (fun o c' => c' = c /\
    match o with
    | Some x => x ∈ l /\ within_region (regions c) addr x
    | None => forall x, x ∈ l -> ~ within_region (regions c) addr x
    end) c.
Proof. apply findMmapRegion_spec. Qed.

(** ** A concrete process *)

(** Records are allocated one after the other up to a limit, and any file can be opened. *)
Record count := Count { next_record : positive; limit : Z; refs : list Z }.
Fixpoint refs_to (l : list Z) (k : Z) : nat :=
  match l with [] => 0 | x :: l => (refs_to l k + if decide (k = x) then 1 else 0)%nat end.
Fixpoint drop_ref (h : Z) (l : list Z) : list Z :=
  match l with [] => [] | x :: l => if decide (x = h) then l else x :: drop_ref h l end.
#[export] Instance count_env : VmEnv count := {
  create e := if bool_decide (Z.pos (next_record e) ≤ limit e)
    then (Some (Z.pos (next_record e)), Count (Pos.succ (next_record e)) (limit e) (refs e)) else (None, e);
  destroy _ e := e;
  retainFileHandle fd e := (Some fd, Count (next_record e) (limit e) (fd :: refs e));
  releaseFileHandle h e := Count (next_record e) (limit e) (drop_ref h (refs e));
  releaseHandleRef _ h e := Count (next_record e) (limit e) (drop_ref h (refs e));
  ioState := 7;
}.
Lemma drop_ref_refs h l k : refs_to (drop_ref h l) k = (refs_to l k - if decide (k = h) then 1 else 0)%nat.
Proof.
  assert (H0 : forall l, (h ∉ l) -> refs_to l h = 0%nat).
  { induction l0 as [|x l0 IH]; [done|]. simpl. intros Hh. rewrite IH by set_solver. rewrite decide_False; [done|set_solver]. }
  induction l as [|x l IH]; simpl; [by destruct (decide _)|]. destruct (decide (x = h)) as [->|Hx].
  - destruct (decide (k = h)); lia.
  - simpl. rewrite IH. destruct (decide (k = h)) as [->|]; [|lia]. rewrite (decide_False (P := h = x)) by done. lia.
Qed.
#[export] Program Instance count_laws : VmEnvLaws count := {
  live e := list_to_set (seqZ 1 (Z.pos (next_record e) - 1));
  held e := refs_to (refs e);
}.
Next Obligation.
  intros e p e' Ec. cbn in Ec. case_bool_decide; simplify_eq. cbn [next_record]. split_and!; [done| |].
  - rewrite elem_of_list_to_set, elem_of_seqZ. lia.
  - apply set_eq. intros x. rewrite elem_of_union, elem_of_singleton, !elem_of_list_to_set, !elem_of_seqZ. lia.
Qed.
Next Obligation. intros e e' Ec. cbn in Ec. case_bool_decide; by simplify_eq. Qed.
Next Obligation. cbn. set_solver. Qed.
Next Obligation. done. Qed.
Next Obligation. done. Qed.
Next Obligation. done. Qed.
Next Obligation. intros e k. cbn. by case_bool_decide. Qed.
Next Obligation. done. Qed.
Next Obligation. intros e h k. apply drop_ref_refs. Qed.

Definition user_top : Z := 0xffffffffff.
Definition proc : Client count := client_init user_top (Count 1 1 []) (RMap (RbTree 0 0 {[0 := Rb 0 0 0 black]} true) 0 ∅).
Lemma proc_ok : vm_ok user_top [] proc.
Proof.
  split; try done; try set_solver. split; [|split; constructor|done]. exists Leaf, 0%nat.
  split_and!; try done; [|constructor|constructor]. split; try done. constructor.
Qed.
(** A mapping of a file, and one for which there is no record any more: the reference it
    took is given back. *)
Definition one_mapping : Client count := match mmap user_top 0 0x1801 3 0x02 5 0 proc with Ok (_, c) => c | Fault _ => proc end.
Lemma one_mapping_ok : exists node, vm_ok user_top [node] one_mapping.
Proof.
  pose proof (mmap_spec user_top (fun _ => False) ltac:(done) [] 0 0x1801 3 0x02 5 0 proc proc_ok ltac:(done) ltac:(done)) as H.
  destruct (wp_inv _ _ _ H) as (o & c' & E & Ho). assert (o = inr MMAP_BASE) as -> by (vm_compute in E; by simplify_eq).
  destruct Ho as (node & _ & Hok & _). exists node. unfold one_mapping. by rewrite E.
Qed.
Lemma mmap_correct_witness :
  exists c', mmap user_top 0 0x1000 3 0x02 6 0 one_mapping = Ok (inl Capacity, c') /\ active_mmaps c' = 1 /\
    held (env c') 5 = 1%nat /\ held (env c') 6 = 0%nat.
Proof.
  destruct one_mapping_ok as [node Hok].
  destruct (wp_inv _ _ _ (mmap_correct user_top [node] 0 0x1000 3 0x02 6 0 one_mapping ltac:(done) Hok ltac:(done) ltac:(done)))
    as (o & c' & E & Ho). assert (o = inl Capacity) as -> by (vm_compute in E; by simplify_eq).
  destruct Ho as (_ & _ & Ha & _ & Hh). exists c'. split; [exact E|]. rewrite Ha, !Hh. split_and!; vm_compute; reflexivity.
Defined.
Lemma findMmapRegion_correct_witness : findMmapRegion MMAP_BASE proc = Ok (None, proc).
Proof.
  destruct (wp_inv _ _ _ (findMmapRegion_correct user_top [] MMAP_BASE proc proc_ok)) as ([x|] & c' & E & -> & H); [|done].
  destruct H as [Hx _]. set_solver.
Defined.
(** Flags and lengths are not checked before they are converted: a process makes the server do what is
    illegal with either. *)
Lemma mmap_negative_prot_illegal : mmap user_top 0 0x1000 (-1) 0x22 (-1) 0 proc = Fault AssertFail.
Proof. by vm_compute. Qed.
Lemma mmap_huge_length_illegal : mmap user_top 0 (2 ^ 64 - 1) 3 0x22 (-1) 0 proc = Fault AssertFail.
Proof. by vm_compute. Qed.
