(* ===== verification/WaitQueue.v ===== *)
(** * Queues of waiting continuations and the table of page requests

    Models [WaitQueue] of [sos/src/vm/page.zig], a linked list through nodes that
    the waiting continuations own, and [PagerRequestTable] of
    [sos/src/vm/pager.zig], which keeps one request per page in flight.  The spin
    lock of the table makes each of its operations one step. *)

From S2P Require Import Prelude.

(** ** The queue *)

(** A node, known by its address; continuations are addresses too. *)
Record WNode := WN { cont : option Z; wnext : option Z }.
Record WaitQueue := WQ { qhead : option Z; qtail : option Z; count : Z }.
(** A queue, and the nodes of all queues. *)
Record wqs := Wqs { queue : WaitQueue; nodes : gmap Z WNode }.

Definition set_queue (q : WaitQueue) : M wqs unit := modify (fun s => Wqs q (nodes s)).
Definition node (p : Z) : M wqs WNode := s ← get; access (nodes s !! p).
Definition set_node (p : Z) (n : WNode) : M wqs unit := modify (fun s => Wqs (queue s) (<[p := n]> (nodes s))).

Definition clear (p : Z) : M wqs unit := set_node p (WN None None).
Definition reset : M wqs unit := set_queue (WQ None None 0).
Definition isEmpty : M wqs bool := gets (fun s => bool_decide (count (queue s) = 0)).

Fixpoint contains_loop (fuel : nat) (target : Z) (cursor : option Z) : M wqs bool :=
  match fuel with
  | O => throw OutOfFuel
  | S fuel =>
    match cursor with
    | None => mret false
    | Some p => n ← node p; if bool_decide (cont n = Some target) then mret true else contains_loop fuel target (wnext n)
    end
  end.
Definition contains (target : Z) : M wqs bool := s ← get; contains_loop (S (S (size (nodes s)))) target (qhead (queue s)).

Definition enqueue (p c : Z) : M wqs bool :=
  n ← node p;
  if bool_decide (cont n ≠ None) || bool_decide (wnext n ≠ None) then mret false
  else
    dup ← contains c;
    if (dup : bool) then mret false
    else
      set_node p (WN (Some c) None);;
      s ← get;
      q ← match qtail (queue s) with
          | Some t => tn ← node t; set_node t (WN (cont tn) (Some p));; mret (qhead (queue s))
          | None => mret (Some p)
          end;
      let n := count (queue s) in
      set_queue (WQ q (Some p) (if bool_decide (n < 65535) then n + 1 else n));;
      mret true.

Definition detachAll : M wqs (option Z) := s ← get; set_queue (WQ None None 0);; mret (qhead (queue s)).

Fixpoint remove_loop (fuel : nat) (c : Z) (prev cursor : option Z) : M wqs (option Z) :=
  match fuel with
  | O => throw OutOfFuel
  | S fuel =>
    match cursor with
    | None => mret None
    | Some p =>
      n ← node p;
      let next := wnext n in
      if bool_decide (cont n = Some c) then
        match prev with
        | Some v => vn ← node v; set_node v (WN (cont vn) next)
        | None => s ← get; set_queue (WQ next (qtail (queue s)) (count (queue s)))
        end;;
        s ← get;
        let q := queue s in
        set_queue (WQ (qhead q) (if bool_decide (qtail q = Some p) then prev else qtail q)
                      (if bool_decide (0 < count q) then count q - 1 else count q));;
        clear p;;
        mret (Some p)
      else remove_loop fuel c (Some p) next
    end
  end.
Definition remove (c : Z) : M wqs (option Z) := s ← get; remove_loop (S (S (size (nodes s)))) c None (qhead (queue s)).

(** ** The table of requests *)

Record Key := mkKey { client_id : Z; page_base : Z }.
#[export] Instance Key_eq_dec : EqDecision Key.
Proof. solve_decision. Defined.
Record Entry := mkEntry { used : bool; key : Key }.
Definition no_entry : Entry := mkEntry false (mkKey 0 0).
Inductive ReserveResult := RInserted | Duplicate | TableFull.

Record PagerRequestTable := Table { entries : list Entry; hits : Z; misses : Z }.

Fixpoint findIndex_from (k : Key) (i : nat) (l : list Entry) : option nat :=
  match l with
  | [] => None
  | e :: l =>
    if negb (used e) then findIndex_from k (S i) l
    else if bool_decide (client_id (key e) = client_id k) && bool_decide (page_base (key e) = page_base k) then Some i
    else findIndex_from k (S i) l
  end.
Definition findIndex (t : PagerRequestTable) (k : Key) : option nat := findIndex_from k 0 (entries t).
Fixpoint findFreeSlot_from (i : nat) (l : list Entry) : option nat :=
  match l with [] => None | e :: l => if negb (used e) then Some i else findFreeSlot_from (S i) l end.
Definition findFreeSlot (t : PagerRequestTable) : option nat := findFreeSlot_from 0 (entries t).
Fixpoint activeCount_from (l : list Entry) (n : Z) : Z :=
  match l with [] => n | e :: l => activeCount_from l (if used e then n + 1 else n) end.
Definition activeCount (t : PagerRequestTable) : Z := activeCount_from (entries t) 0.

Definition reserve (k : Key) : M PagerRequestTable ReserveResult :=
  t ← get;
  match findIndex t k with
  | Some _ => put (Table (entries t) (hits t + 1) (misses t));; mret Duplicate
  | None =>
    match findFreeSlot t with
    | None => mret TableFull
    | Some slot => put (Table (<[slot := mkEntry true k]> (entries t)) (hits t) (misses t + 1));; mret RInserted
    end
  end.
Definition release (k : Key) : M PagerRequestTable bool :=
  t ← get;
  match findIndex t k with
  | Some idx => put (Table (<[idx := no_entry]> (entries t)) (hits t) (misses t));; mret true
  | None => mret false
  end.
Definition table_contains (k : Key) : M PagerRequestTable bool := gets (fun t => bool_decide (findIndex t k ≠ None)).
Definition stats : M PagerRequestTable (Z * Z * Z) := gets (fun t => (hits t, misses t, activeCount t)).
Definition table_clear : M PagerRequestTable unit :=
  t ← get; put (Table ((fun _ => no_entry) <$> entries t) 0 0).

(** ** The queue is a sequence *)

(** The nodes of the queue with their continuations, first to last. *)
Abbreviation waiters := (list (Z * Z)).
Fixpoint chain (h : gmap Z WNode) (l : waiters) : Prop :=
  match l with
  | [] => True
  | (p, c) :: l => h !! p = Some (WN (Some c) (fst <$> head l)) /\ chain h l
  end.
Record holds (l : waiters) (s : wqs) : Prop := {
  h_head : qhead (queue s) = fst <$> head l;
  h_tail : qtail (queue s) = fst <$> last l;
  h_count : count (queue s) = Z.of_nat (length l);
  h_chain : chain (nodes s) l;
  h_nodup : NoDup l.*1;
  h_conts : NoDup l.*2;
  (* nodes outside of the queue are in none *)
  h_idle : forall p n, nodes s !! p = Some n -> p ∉ l.*1 -> n = WN None None;
}.

Lemma chain_lookup h l1 p c l2 : chain h (l1 ++ (p, c) :: l2) -> h !! p = Some (WN (Some c) (fst <$> head l2)).
Proof. induction l1 as [|[q d] l1 IH]; simpl; [by intros [? _]|]. intros [_ H]. by apply IH. Qed.
Lemma chain_ext h h' l : (forall p, p ∈ l.*1 -> h' !! p = h !! p) -> chain h l -> chain h' l.
Proof.
  induction l as [|[p c] l IH]; simpl; [done|]. intros H [H1 H2]. split; [rewrite H; [done|set_solver]|]. apply IH; [set_solver|done].
Qed.
Lemma chain_app h l1 l2 : chain h (l1 ++ l2) -> chain h l2.
Proof. induction l1 as [|[p c] l1 IH]; simpl; [done|]. intros [_ H]. by apply IH. Qed.
(** The last node of a chain is made to point elsewhere. *)
Lemma chain_relink h l p c n l2 : NoDup (l ++ [(p, c)]).*1 -> (forall q, q ∈ l.*1 -> q ∉ l2.*1) ->
  chain h (l ++ [(p, c)] ++ n) -> chain h l2 -> (p ∉ l2.*1) -> chain (<[p := WN (Some c) (fst <$> head l2)]> h) (l ++ [(p, c)] ++ l2).
Proof.
  intros Hnd Hd Hc H2 Hp. induction l as [|[q d] l IH]; simpl in *.
  - split; [apply lookup_insert_eq|]. eapply chain_ext; [|exact H2]. intros x Hx. rewrite lookup_insert_ne; [done|]. by intros ->.
  - apply NoDup_cons in Hnd as [Hq Hnd]. destruct Hc as [Hcq Hc]. split.
    + rewrite lookup_insert_ne by (intros ->; rewrite fmap_app in Hq; set_solver). rewrite Hcq. by destruct l as [|[? ?] ?].
    + apply IH; [done|set_solver|done].
Qed.
Lemma chain_size h l : chain h l -> NoDup l.*1 -> (length l < S (size h))%nat.
Proof.
  intros Hc Hnd. enough (length l.*1 ≤ size h)%nat by (rewrite length_fmap in *; lia).
  rewrite <- (size_list_to_set (C := gset Z) _ Hnd), <- size_dom. apply subseteq_size. intros p Hp. apply elem_of_dom.
  apply elem_of_list_to_set, list_elem_of_fmap in Hp as ([q c] & -> & Hin). apply list_elem_of_split in Hin as (l1 & l2 & ->).
  eexists. by eapply chain_lookup.
Qed.

Section queue.
Context (F : fault -> Prop).

Lemma wp_node p n (Q : WNode -> wqs -> Prop) s : nodes s !! p = Some n -> Q n s -> wpf F (node p) Q s.
Proof. intros Hn HQ. unfold node. wp_line. by eapply wpf_access. Qed.

Lemma contains_loop_spec fuel c l s (Q : bool -> wqs -> Prop) : chain (nodes s) l -> (length l < fuel)%nat ->
  Q (bool_decide (c ∈ l.*2)) s -> wpf F (contains_loop fuel c (fst <$> head l)) Q s.
Proof.
  revert l. induction fuel as [|fuel IH]; intros l Hc Hf HQ; [lia|]. cbn [contains_loop]. destruct l as [|[p d] l]; simpl in *.
  - by wp_line.
  - destruct Hc as [Hp Hc]. wp_line. eapply wp_node; [exact Hp|]. cbn [cont wnext]. apply wpf_if; intros Hd; bd.
    + simplify_eq. wp_line. by rewrite bool_decide_true in HQ by set_solver.
    + apply IH; [done|lia|]. replace (bool_decide (c ∈ l.*2)) with (bool_decide (c ∈ d :: l.*2)); [done|].
      apply bool_decide_ext. rewrite elem_of_cons. split; [intros [->|]; [done|done]|by right].
Qed.
Lemma contains_spec c l s (Q : bool -> wqs -> Prop) : holds l s -> Q (bool_decide (c ∈ l.*2)) s -> wpf F (contains c) Q s.
Proof.
  intros Hl HQ. unfold contains. wp_line. rewrite (h_head _ _ Hl). apply contains_loop_spec; [apply Hl| |done].
  pose proof (chain_size _ _ (h_chain _ _ Hl) (h_nodup _ _ Hl)). lia.
Qed.

Lemma h_entry l s p : holds l s -> p ∈ l.*1 -> exists c n, nodes s !! p = Some (WN (Some c) n).
Proof.
  intros Hl ([q c] & -> & Hin)%list_elem_of_fmap. apply list_elem_of_split in Hin as (l1 & l2 & ->). eexists c, _.
  by eapply chain_lookup, Hl.
Qed.

Lemma holds_snoc l p c s h : holds l s -> nodes s !! p = Some (WN None None) -> (p ∉ l.*1) -> (c ∉ l.*2) ->
  chain h (l ++ [(p, c)]) -> (forall q, q ∉ (l ++ [(p, c)]).*1 -> h !! q = nodes s !! q) ->
  holds (l ++ [(p, c)]) (Wqs (WQ (fst <$> head (l ++ [(p, c)])) (Some p) (count (queue s) + 1)) h).
Proof.
  intros [H1 H2 H3 H4 H5 H6 H7] Hn Hp Hc Hch Hout. split; cbn [queue nodes qhead qtail count]; try done.
  - by rewrite last_snoc.
  - rewrite H3, length_app. simpl. lia.
  - rewrite fmap_app. apply NoDup_app. split_and!; [done|set_solver|apply NoDup_singleton].
  - rewrite fmap_app. apply NoDup_app. split_and!; [done|set_solver|apply NoDup_singleton].
  - intros q n Hq Hin. rewrite Hout in Hq by done. apply (H7 q n Hq). rewrite fmap_app in Hin. set_solver.
Qed.

Lemma wq_enqueue_spec p c l s : holds l s -> is_Some (nodes s !! p) -> Z.of_nat (length l) < 65535 ->
  wpf F (enqueue p c) (fun b s' => b = bool_decide ((p ∉ l.*1) /\ c ∉ l.*2) /\ dom (nodes s') = dom (nodes s) /\
    if b then holds (l ++ [(p, c)]) s' else s' = s) s.
Proof.
  intros Hl [n Hn] Hlen. unfold enqueue. wp_line. eapply wp_node; [exact Hn|]. destruct (decide (p ∈ l.*1)) as [Hp|Hp].
  { destruct (h_entry l s p Hl Hp) as (d & nx & Hd). rewrite Hd in Hn. simplify_eq. cbn [cont]. rewrite bool_decide_true by done.
    cbn [orb]. wp_line. rewrite bool_decide_false by tauto. done. }
  pose proof (h_idle _ _ Hl p n Hn Hp) as ->. cbn [cont wnext]. rewrite !bool_decide_false by (by intros []). cbn [orb].
  wp_line. eapply (contains_spec c l); [done|]. case_bool_decide as Hc.
  { wp_line. rewrite bool_decide_false by tauto. done. }
  unfold set_node, set_queue. wp_line. cbn [queue nodes]. rewrite (h_tail _ _ Hl), (h_head _ _ Hl), (h_count _ _ Hl).
  set (h1 := <[p := WN (Some c) None]> (nodes s)). assert (Hnew : bool_decide ((p ∉ l.*1) /\ c ∉ l.*2) = true) by (by apply bool_decide_eq_true).
  assert (Hd1 : dom h1 = dom (nodes s)) by (apply dom_insert_lookup_L; eauto).
  destruct (list_snoc_cases l) as [->|(l' & [t d] & ->)].
  - cbn [last fmap option_fmap option_map]. wp_line. split_and!; [symmetry; exact Hnew|done|].
    rewrite <- (h_count _ _ Hl). rewrite bool_decide_true by (rewrite (h_count _ _ Hl); done).
    apply (holds_snoc [] p c s h1 Hl Hn); [done|done| |].
    + split; [apply lookup_insert_eq|done].
    + intros q Hq. unfold h1. rewrite lookup_insert_ne; [done|]. simpl in Hq. set_solver.
  - rewrite last_snoc. cbn [fmap option_fmap option_map fst]. pose proof (h_nodup _ _ Hl) as Hnd.
    pose proof Hp as Hpt. rewrite fmap_app in Hpt. simpl in Hpt. assert (Htp : t ≠ p) by set_solver.
    assert (Ht : h1 !! t = Some (WN (Some d) None)).
    { unfold h1. rewrite lookup_insert_ne by done. apply (chain_lookup _ l' t d []), Hl. }
    wp_line. eapply wp_node; [exact Ht|]. cbn [cont]. wp_line. split_and!; [symmetry; exact Hnew|cbn [nodes]; rewrite dom_insert_lookup_L; [done|eauto]|].
    rewrite <- (h_count _ _ Hl). rewrite bool_decide_true by (rewrite (h_count _ _ Hl); lia).
    replace (fst <$> head (l' ++ [(t, d)])) with (fst <$> head ((l' ++ [(t, d)]) ++ [(p, c)])) by (by destruct l').
    apply (holds_snoc (l' ++ [(t, d)]) p c s _ Hl Hn); [done|done| |].
    + rewrite <- app_assoc. apply (chain_relink h1 l' t d [] [(p, c)]); [done|set_solver| |split; [apply lookup_insert_eq|done]|set_solver].
      rewrite app_nil_r. eapply chain_ext; [|apply Hl]. intros q Hq. unfold h1. rewrite lookup_insert_ne; [done|]. by intros ->.
    + intros q Hq. rewrite !fmap_app in Hq. simpl in Hq. cbn [nodes]. unfold h1. rewrite !lookup_insert_ne; [done|set_solver|set_solver].
Qed.

(** The entry [(p, c)] is taken out of the queue; the nodes before it already point past it. *)
Lemma holds_remove l1 p c l2 s h q : holds (l1 ++ (p, c) :: l2) s -> chain h (l1 ++ l2) -> dom h = dom (nodes s) ->
  (forall x, x ∉ (l1 ++ l2).*1 -> h !! x = nodes s !! x) -> qhead q = (fst <$> head (l1 ++ l2)) -> qtail q = qtail (queue s) ->
  count q = count (queue s) ->
  holds (l1 ++ l2) (Wqs (WQ (qhead q) (if bool_decide (qtail q = Some p) then fst <$> last l1 else qtail q)
    (if bool_decide (0 < count q) then count q - 1 else count q)) (<[p := WN None None]> h)).
Proof.
  intros [H1 H2 H3 H4 H5 H6 H7] Hch Hdom Hout Eh Et Ec. rewrite fmap_app in H5, H6. simpl in H5, H6.
  apply NoDup_app in H5 as (N1 & D1 & [Hp N2]%NoDup_cons). apply NoDup_app in H6 as (M1 & E1 & [Hc M2]%NoDup_cons).
  assert (Hpl : p ∉ (l1 ++ l2).*1) by (rewrite fmap_app; set_solver).
  split; cbn [queue nodes qhead qtail count].
  - done.
  - rewrite Et, H2, last_app. destruct (list_snoc_cases l2) as [->|(l2' & [t d] & ->)].
    + cbn [last fmap option_fmap option_map fst]. rewrite bool_decide_true by done. by rewrite app_nil_r.
    + rewrite app_comm_cons, last_snoc. cbn [fmap option_fmap option_map fst]. rewrite bool_decide_false.
      * by rewrite app_assoc, last_snoc.
      * intros Etp. simplify_eq. rewrite fmap_app in Hp. set_solver.
  - rewrite Ec, H3, !length_app. simpl. rewrite bool_decide_true by lia. lia.
  - eapply chain_ext; [|exact Hch]. intros x Hx. rewrite lookup_insert_ne; [done|]. by intros ->.
  - rewrite fmap_app. apply NoDup_app. split_and!; [done|set_solver|done].
  - rewrite fmap_app. apply NoDup_app. split_and!; [done|set_solver|done].
  - intros x n Hx Hin. destruct (decide (x = p)) as [->|Hne]; [rewrite lookup_insert_eq in Hx; by simplify_eq|].
    rewrite lookup_insert_ne in Hx by done. rewrite Hout in Hx by done. apply (H7 x n Hx). rewrite fmap_app in Hin |- *. set_solver.
Qed.

Lemma remove_loop_spec fuel c l1 l2 s : holds (l1 ++ l2) s -> (length l2 < fuel)%nat -> (c ∉ l1.*2) ->
  wpf F (remove_loop fuel c (fst <$> last l1) (fst <$> head l2)) (fun o s' => dom (nodes s') = dom (nodes s) /\
    match o with
    | Some p => exists l1' l2', l1 ++ l2 = l1' ++ (p, c) :: l2' /\ holds (l1' ++ l2') s'
    | None => s' = s /\ c ∉ (l1 ++ l2).*2
    end) s.
Proof.
  revert l1 l2. induction fuel as [|fuel IH]; intros l1 l2 Hl Hf Hc; [lia|]. cbn [remove_loop].
  destruct l2 as [|[p d] l2]; cbn [head fmap option_fmap option_map fst].
  { wp_line. by rewrite app_nil_r in *. }
  wp_line. eapply wp_node; [eapply chain_lookup, Hl|]. cbn [cont wnext]. apply wpf_if; intros Hd; bd.
  - simplify_eq. pose proof (h_nodup _ _ Hl) as Hnd. rewrite fmap_app in Hnd. simpl in Hnd.
    apply NoDup_app in Hnd as (N1 & D1 & [Hp N2]%NoDup_cons).
    assert (Hpn : exists n, nodes s !! p = Some n) by (eexists; eapply chain_lookup, Hl). unfold set_node, set_queue, clear, set_node.
    destruct (list_snoc_cases l1) as [->|(l1' & [v e] & ->)].
    + cbn [last fmap option_fmap option_map]. wp_line. cbn [queue nodes qhead qtail count]. split; [apply dom_insert_lookup_L; done|].
      exists [], l2. split; [done|].
      pose proof (holds_remove [] p c l2 s (nodes s) (WQ (fst <$> head l2) (qtail (queue s)) (count (queue s))) Hl) as Hrem.
      apply Hrem; try done. apply (chain_app _ [(p, c)]), Hl.
    + rewrite last_snoc. cbn [fmap option_fmap option_map fst]. rewrite fmap_app in N1, D1. simpl in N1, D1.
      assert (Hv : nodes s !! v = Some (WN (Some e) (Some p))).
      { pose proof (h_chain _ _ Hl) as Hch. rewrite <- app_assoc in Hch. apply (chain_lookup _ l1' v e ((p, c) :: l2) Hch). }
      wp_line. eapply wp_node; [exact Hv|]. cbn [cont]. wp_line. cbn [queue nodes].
      assert (Hdv : dom (<[v:=WN (Some e) (fst <$> head l2)]> (nodes s)) = dom (nodes s)) by (apply dom_insert_lookup_L; eauto).
      split; [rewrite dom_insert_lookup_L; [done|]; rewrite lookup_insert_ne by set_solver; done|].
      exists (l1' ++ [(v, e)]), l2. split; [done|].
      pose proof (holds_remove (l1' ++ [(v, e)]) p c l2 s (<[v:=WN (Some e) (fst <$> head l2)]> (nodes s)) (queue s) Hl) as Hrem.
      rewrite last_snoc in Hrem. apply Hrem; try done.
      * pose proof (h_chain _ _ Hl) as Hch. rewrite <- app_assoc in Hch |- *.
        apply (chain_relink (nodes s) l1' v e ((p, c) :: l2) l2); [by rewrite fmap_app| |exact Hch| |].
        -- intros q Hq Hq2. apply (D1 q); [apply elem_of_app; by left|by right].
        -- apply (chain_app _ (l1' ++ [(v, e); (p, c)])). by rewrite <- app_assoc.
        -- intros Hv2. apply (D1 v); [apply elem_of_app; right; by apply list_elem_of_singleton|by right].
      * intros x Hx. rewrite lookup_insert_ne; [done|]. intros ->. apply Hx. rewrite !fmap_app. simpl. set_solver.
      * rewrite (h_head _ _ Hl). by destruct l1'.
  - replace (Some p) with (fst <$> last (l1 ++ [(p, d)])) by (by rewrite last_snoc).
    replace (l1 ++ (p, d) :: l2) with ((l1 ++ [(p, d)]) ++ l2) in * by (by rewrite <- app_assoc).
    apply IH; [done|simpl in Hf; lia|]. rewrite fmap_app. simpl. set_solver.
Qed.
Lemma remove_spec c l s : holds l s ->
  wpf F (remove c) (fun o s' => dom (nodes s') = dom (nodes s) /\
    match o with
    | Some p => exists l1 l2, l = l1 ++ (p, c) :: l2 /\ holds (l1 ++ l2) s'
    | None => s' = s /\ c ∉ l.*2
    end) s.
Proof.
  intros Hl. unfold remove. wp_line. rewrite (h_head _ _ Hl). apply (remove_loop_spec _ c [] l); [done| |set_solver].
  pose proof (chain_size _ _ (h_chain _ _ Hl) (h_nodup _ _ Hl)). lia.
Qed.
End queue.

(** ** Sequences of calls *)

Inductive call := Enqueue (p c : Z) | Remove (c : Z).
Inductive result := Enqueued (b : bool) | Removed (p : option Z).
Definition exec1 (o : call) : M wqs result :=
  match o with
  | Enqueue p c => b ← enqueue p c; mret (Enqueued b)
  | Remove c => p ← remove c; mret (Removed p)
  end.
Fixpoint exec (os : list call) : M wqs (list result) :=
  match os with [] => mret [] | o :: os => r ← exec1 o; rs ← exec os; mret (r :: rs) end.

(** The abstract queue: a sequence of different nodes and continuations. *)
Fixpoint take_out (c : Z) (l : waiters) : option Z * waiters :=
  match l with
  | [] => (None, [])
  | (p, d) :: l => if decide (d = c) then (Some p, l) else let '(o, l) := take_out c l in (o, (p, d) :: l)
  end.
Definition spec1 (o : call) (l : waiters) : result * waiters :=
  match o with
  | Enqueue p c => if decide ((p ∉ l.*1) /\ c ∉ l.*2) then (Enqueued true, l ++ [(p, c)]) else (Enqueued false, l)
  | Remove c => let '(o, l) := take_out c l in (Removed o, l)
  end.
Fixpoint spec (os : list call) (l : waiters) : list result * waiters :=
  match os with
  | [] => ([], l)
  | o :: os => let '(r, l) := spec1 o l in let '(rs, l) := spec os l in (r :: rs, l)
  end.

Lemma take_out_split c p l1 l2 : c ∉ l1.*2 -> take_out c (l1 ++ (p, c) :: l2) = (Some p, l1 ++ l2).
Proof.
  induction l1 as [|[q d] l1 IH]; simpl; intros Hc; [by rewrite decide_True|].
  rewrite decide_False by set_solver. rewrite IH by set_solver. done.
Qed.
Lemma take_out_none c l : c ∉ l.*2 -> take_out c l = (None, l).
Proof.
  induction l as [|[q d] l IH]; simpl; intros Hc; [done|]. rewrite decide_False by set_solver. by rewrite IH by set_solver.
Qed.
Lemma spec1_length o l : (length (spec1 o l).2 <= S (length l))%nat.
Proof.
  destruct o as [p c|c]; simpl; [case_decide; simpl; rewrite ?length_app; simpl; lia|].
  enough (length (take_out c l).2 <= length l)%nat by (destruct (take_out c l); simpl in *; lia).
  induction l as [|[q d] l IH]; simpl; [lia|]. case_decide; simpl; [lia|]. destruct (take_out c l); simpl in *. lia.
Qed.

(** The nodes that a sequence of calls uses are allocated. *)
Definition allocated (os : list call) (s : wqs) : Prop := forall p c, Enqueue p c ∈ os -> is_Some (nodes s !! p).

Lemma exec1_spec F o l s : holds l s -> allocated [o] s -> Z.of_nat (length l) < 65535 ->
  wpf F (exec1 o) (fun r s' => r = (spec1 o l).1 /\ holds (spec1 o l).2 s' /\ dom (nodes s') = dom (nodes s)) s.
Proof.
  intros Hl Ha Hlen. destruct o as [p c|c]; cbn [exec1 spec1]; wp_line.
  - eapply wpf_mono; [apply (wq_enqueue_spec F p c l s Hl); [apply (Ha p c); set_solver|done]|]. intros b s' (Hb & Hd & Hs'). wp_line.
    destruct (decide ((p ∉ l.*1) /\ c ∉ l.*2)) as [Hc|Hc]; [rewrite (bool_decide_true _ Hc) in Hb|rewrite (bool_decide_false _ Hc) in Hb];
      subst b; split_and!; try done. by subst.
  - eapply wpf_mono; [apply (remove_spec F c l s Hl)|]. intros [p|] s' (Hd & Hs'); wp_line.
    + destruct Hs' as (l1 & l2 & -> & Hs'). rewrite take_out_split; [done|]. pose proof (h_conts _ _ Hl) as Hnd.
      rewrite fmap_app in Hnd. simpl in Hnd. apply NoDup_app in Hnd as (_ & Hnd & _). set_solver.
    + destruct Hs' as [-> Hc]. by rewrite take_out_none.
Qed.

(** C37: A queue of waiting continuations behaves as a sequence: enqueuing appends, and is refused for a node that
    is queued or a continuation that already waits; removing takes out exactly the given continuation.  No call
    faults or runs past the nodes, for up to 65535 waiters. *)
Theorem wait_queue_refines os l s : holds l s -> allocated os s -> Z.of_nat (length l + length os) ≤ 65535 ->
  wp (exec os) (fun rs s' => rs = (spec os l).1 /\ holds (spec os l).2 s') s.
Proof.
  revert l s. induction os as [|o os IH]; intros l s Hl Ha Hlen; cbn [exec spec]; [by wp_line|].
  wp_line. eapply wpf_mono; [apply (exec1_spec _ o l s Hl); [|simpl in Hlen; lia]|].
  { intros p c Hin. apply (Ha p c). set_solver. }
  intros r s' (Hr & Hl' & Hd). pose proof (spec1_length o l) as Hle. destruct (spec1 o l) as [r' l']. simpl in *. subst r'.
  wp_line. eapply wpf_mono; [apply (IH l' s' Hl'); [|lia]|].
  { intros p c Hin. apply elem_of_dom. rewrite Hd. apply elem_of_dom, (Ha p c). set_solver. }
  intros rs s'' [Hrs Hl'']. destruct (spec os l') as [rs' l'']. simpl in *. subst rs'. by wp_line.
Qed.

Definition idle_nodes : wqs := Wqs (WQ None None 0) (list_to_map ((fun p => (Z.of_nat p, WN None None)) <$> seq 1 4)).
Lemma idle_holds : holds [] idle_nodes.
Proof.
  split; try done; [constructor|constructor|]. intros p n Hp _. apply elem_of_list_to_map_2 in Hp.
  apply list_elem_of_fmap in Hp as (k & Hk & _). by simplify_eq.
Qed.
Lemma wait_queue_refines_witness : exists s',
  exec [Enqueue 1 10; Enqueue 2 20; Enqueue 3 10; Remove 10; Enqueue 1 30; Remove 40] idle_nodes =
  Ok ([Enqueued true; Enqueued true; Enqueued false; Removed (Some 1); Enqueued true; Removed None], s') /\ holds [(2, 20); (1, 30)] s'.
Proof.
  destruct (wp_inv _ _ _ (wait_queue_refines [Enqueue 1 10; Enqueue 2 20; Enqueue 3 10; Remove 10; Enqueue 1 30; Remove 40] [] idle_nodes
    idle_holds ltac:(intros p c Hin; repeat (apply elem_of_cons in Hin as [Hin|Hin]; [simplify_eq; eexists; vm_compute; reflexivity|]); set_solver)
    ltac:(done))) as (rs & s' & E & -> & Hs'). exists s'. split; [exact E|exact Hs'].
Defined.

(** ** The table is a set of bounded size *)

#[export] Instance Key_countable : Countable Key.
Proof. by refine (inj_countable' (fun k => (client_id k, page_base k)) (fun '(a, b) => mkKey a b) _); intros []. Qed.

Definition keys (l : list Entry) : list Key := key <$> filter (fun e => used e = true) l.
Lemma keys_app l1 l2 : keys (l1 ++ l2) = keys l1 ++ keys l2.
Proof. unfold keys. by rewrite filter_app, fmap_app. Qed.
Lemma keys_cons e l : keys (e :: l) = (if used e then [key e] else []) ++ keys l.
Proof. unfold keys. rewrite filter_cons. destruct (used e); case_decide; done. Qed.
Lemma keys_length l : (length (keys l) <= length l)%nat.
Proof. unfold keys. rewrite length_fmap. apply length_filter. Qed.
(** The table holds the requests [X]. *)
Definition table_of (X : gset Key) (t : PagerRequestTable) : Prop := NoDup (keys (entries t)) /\ X = list_to_set (keys (entries t)).

Lemma findIndex_spec k i l :
  match findIndex_from k i l with
  | Some j => exists l1 e l2, l = l1 ++ e :: l2 /\ j = (i + length l1)%nat /\ used e = true /\ key e = k
  | None => k ∉ keys l
  end.
Proof.
  revert i. induction l as [|e l IH]; intros i; cbn [findIndex_from]; [set_solver|]. specialize (IH (S i)). rewrite keys_cons.
  assert (Hrec : (used e = true -> key e ≠ k) ->
    match findIndex_from k (S i) l with
    | Some j => exists l1 e' l2, e :: l = l1 ++ e' :: l2 /\ j = (i + length l1)%nat /\ used e' = true /\ key e' = k
    | None => k ∉ (if used e then [key e] else []) ++ keys l
    end).
  { intros Hne. destruct (findIndex_from k (S i) l) as [j|].
    - destruct IH as (l1 & e' & l2 & -> & -> & H). exists (e :: l1), e', l2. split_and!; [done|simpl; lia|tauto|tauto].
    - destruct (used e); set_solver. }
  destruct (used e) eqn:Hu; cbn [negb]; [|by apply Hrec].
  destruct (bool_decide (client_id (key e) = client_id k) && bool_decide (page_base (key e) = page_base k)) eqn:Hk.
  - bd. exists [], e, l. split_and!; [done|simpl; lia|done|]. destruct (key e), k. simpl in *. by subst.
  - apply Hrec. intros _ <-. rewrite !bool_decide_true in Hk by done. done.
Qed.
Lemma findFreeSlot_spec i l :
  match findFreeSlot_from i l with
  | Some j => exists l1 e l2, l = l1 ++ e :: l2 /\ j = (i + length l1)%nat /\ used e = false
  | None => length (keys l) = length l
  end.
Proof.
  revert i. induction l as [|e l IH]; intros i; cbn [findFreeSlot_from]; [done|]. specialize (IH (S i)). rewrite keys_cons.
  destruct (used e) eqn:Hu; cbn [negb].
  - destruct (findFreeSlot_from (S i) l) as [j|]; [|simpl; lia]. destruct IH as (l1 & e' & l2 & -> & -> & H).
    exists (e :: l1), e', l2. split_and!; [done|simpl; lia|done].
  - exists [], e, l. split_and!; [done|simpl; lia|done].
Qed.
Lemma insert_split {A} (l1 : list A) e e' l2 : <[(0 + length l1)%nat := e']> (l1 ++ e :: l2) = l1 ++ e' :: l2.
Proof. simpl. rewrite insert_app_r_alt by lia. by rewrite Nat.sub_diag. Qed.

Inductive tcall := Reserve (k : Key) | Release (k : Key).
Inductive tresult := Reserved (r : ReserveResult) | Released (b : bool).
Definition texec1 (o : tcall) : M PagerRequestTable tresult :=
  match o with Reserve k => r ← reserve k; mret (Reserved r) | Release k => b ← release k; mret (Released b) end.
(** What the calls do to a set of at most [n] requests. *)
Definition tspec1 (n : nat) (o : tcall) (X : gset Key) : tresult * gset Key :=
  match o with
  | Reserve k =>
    if decide (k ∈ X) then (Reserved Duplicate, X)
    else if decide (size X = n) then (Reserved TableFull, X) else (Reserved RInserted, {[k]} ∪ X)
  | Release k => (Released (bool_decide (k ∈ X)), X ∖ {[k]})
  end.

Lemma table_of_replace l1 e e' l2 X h h' m m' : table_of X (Table (l1 ++ e :: l2) h m) -> used e = false ->
  (used e' = true -> key e' ∉ X) ->
  table_of ((if used e' then {[key e']} else ∅) ∪ X) (Table (l1 ++ e' :: l2) h' m').
Proof.
  intros [Hnd ->] He He'. unfold table_of in *. cbn [entries] in *. rewrite !keys_app, !keys_cons, He in *. simpl in *.
  destruct (used e').
  - specialize (He' eq_refl). simpl. split; [rewrite <- Permutation_middle; apply NoDup_cons; split; [|done]; by rewrite elem_of_list_to_set in He'|].
    apply set_eq. intros x. rewrite elem_of_union, elem_of_singleton, !elem_of_list_to_set, !elem_of_app, elem_of_cons. tauto.
  - simpl. split; [done|]. by rewrite (left_id_L ∅ (∪)).
Qed.

(** The table of page requests behaves as a set of at most as many requests as it has entries: reserving inserts,
    and reports a request that is in flight and a full table; releasing removes exactly that request. *)
Theorem request_table_refines o X t : table_of X t ->
  wp (texec1 o) (fun r t' => r = (tspec1 (length (entries t)) o X).1 /\ table_of (tspec1 (length (entries t)) o X).2 t' /\
    length (entries t') = length (entries t)) t.
Proof.
  intros HX. pose proof HX as [Hnd EX]. destruct t as [l h m]. cbn [entries] in *.
  destruct o as [k|k]; cbn [texec1 tspec1]; unfold reserve, release, findIndex, findFreeSlot; wp_line; cbn [entries hits misses].
  - pose proof (findIndex_spec k 0 l) as Hi. destruct (findIndex_from k 0 l) as [j|].
    + destruct Hi as (l1 & e & l2 & -> & _ & Hu & Hk). wp_line. rewrite decide_True; [done|]. subst X. rewrite keys_app, keys_cons, Hu. set_solver.
    + rewrite decide_False by set_solver. pose proof (findFreeSlot_spec 0 l) as Hf. destruct (findFreeSlot_from 0 l) as [j|]; wp_line.
      * destruct Hf as (l1 & e & l2 & -> & -> & Hu). rewrite insert_split, decide_False.
        -- split_and!; [done| |by cbn [entries]; rewrite !length_app]. apply (table_of_replace l1 e (mkEntry true k) l2 X h h m); [done|done|set_solver].
        -- subst X. rewrite (size_list_to_set _ Hnd). rewrite keys_app, keys_cons, Hu, !length_app. simpl.
           pose proof (keys_length l1). pose proof (keys_length l2). lia.
      * rewrite decide_True; [done|]. subst X. by rewrite (size_list_to_set _ Hnd).
  - pose proof (findIndex_spec k 0 l) as Hi. destruct (findIndex_from k 0 l) as [j|]; wp_line.
    + destruct Hi as (l1 & e & l2 & -> & -> & Hu & Hk). rewrite insert_split.
      assert (HkX : k ∈ X) by (subst X; rewrite keys_app, keys_cons, Hu; set_solver). rewrite bool_decide_true by done.
      split_and!; [done| |by cbn [entries]; rewrite !length_app]. unfold table_of. cbn [entries]. subst X. rewrite !keys_app, !keys_cons, Hu, Hk in *. simpl in *. apply NoDup_app in Hnd as (N1 & D1 & [Hk2 N2]%NoDup_cons).
      split; [apply NoDup_app; split_and!; [done|set_solver|done]|].
      assert (Hk1 : k ∉ keys l1) by (intros H; apply (D1 k H); by left).
      apply set_eq. intros x. rewrite elem_of_difference, elem_of_singleton, !elem_of_list_to_set. clear - Hk1 Hk2.
      destruct (decide (x = k)) as [->|]; set_solver.
    + rewrite bool_decide_false by set_solver. split_and!; [done| |done]. split; [done|]. set_solver.
Qed.
Lemma request_table_refines_witness : exists t',
  texec1 (Reserve (mkKey 1 0x1000)) (Table (replicate 2 no_entry) 0 0) = Ok (Reserved RInserted, t') /\ table_of {[mkKey 1 0x1000]} t'.
Proof.
  destruct (wp_inv _ _ _ (request_table_refines (Reserve (mkKey 1 0x1000)) ∅ (Table (replicate 2 no_entry) 0 0)
    ltac:(split; [constructor|done]))) as (r & t' & E & -> & Ht' & _).
  exists t'. split; [exact E|]. replace {[mkKey 1 0x1000]} with ({[mkKey 1 0x1000]} ∪ ∅ : gset Key) by set_solver. exact Ht'.
Defined.
