(* ===== verification/AddrSpace.v ===== *)
(** * Page tables of a process

    Models [sos/src/vm/page_table.zig], the paging half of
    [sos/src/vm/addr_space.zig] and [sos/src/vm/mapping.zig]: the records of the
    page tables that were mapped for a process, how the ones for an address are
    created, how the pages below each are counted and how empty tables are
    removed.  The kernel, the capability space, the untyped memory and the
    allocator of records are the class [PtEnv]. *)

From S2P Require Import Prelude VmRegion.

Inductive Level := L0 | L1 | L2 | L3.
#[export] Instance Level_eq_dec : EqDecision Level.
Proof. solve_decision. Defined.

Definition PAGE_SHIFT : Z := 12.
Definition LVL_BITS : Z := 9.
Definition L3_SHIFT : Z := PAGE_SHIFT.
Definition L2_SHIFT : Z := L3_SHIFT + LVL_BITS.
Definition L1_SHIFT : Z := L2_SHIFT + LVL_BITS.
Definition L0_SHIFT : Z := L1_SHIFT + LVL_BITS.
Definition LVL_MASK : Z := Z.shiftl 1 LVL_BITS - 1.
Definition l0Index (va : Z) : Z := Z.land (Z.shiftr va L0_SHIFT) LVL_MASK.
Definition l1Index (va : Z) : Z := Z.land (Z.shiftr va L1_SHIFT) LVL_MASK.
Definition l2Index (va : Z) : Z := Z.land (Z.shiftr va L2_SHIFT) LVL_MASK.
Definition l3Index (va : Z) : Z := Z.land (Z.shiftr va L3_SHIFT) LVL_MASK.

Definition levelShift (lvl : Level) : Z := match lvl with L0 => L0_SHIFT | L1 => L1_SHIFT | L2 => L2_SHIFT | L3 => L3_SHIFT end.
Definition childLevel (parent : Level) : option Level := match parent with L0 => Some L1 | L1 => Some L2 | L2 => Some L3 | L3 => None end.
Definition level_eqb (a b : Level) : bool := bool_decide (a = b).

(** The record of a page table. *)
Record PTNode := PT {
  level : Level; cap_slot : Z; parent : option Z; ut : option Z; children : gmap Z Z; live_leaves : Z; refcnt : Z }.
Definition set_children (f : gmap Z Z -> gmap Z Z) (n : PTNode) : PTNode :=
  PT (level n) (cap_slot n) (parent n) (ut n) (f (children n)) (live_leaves n) (refcnt n).
Definition set_live (f : Z -> Z) (n : PTNode) : PTNode :=
  PT (level n) (cap_slot n) (parent n) (ut n) (children n) (f (live_leaves n)) (refcnt n).
Definition set_refcnt (f : Z -> Z) (n : PTNode) : PTNode :=
  PT (level n) (cap_slot n) (parent n) (ut n) (children n) (live_leaves n) (f (refcnt n)).
Definition PTNode_init (level : Level) (cap_slot : Z) (parent ut_ptr : option Z) : PTNode := PT level cap_slot parent ut_ptr ∅ 0 0.

(** The errors of the code below; an error of one set is the one of the same name in another. *)
Inductive PtError := OutOfMemory | OutOfSlots | OutOfUntyped | RetypeFailed | BadArgs | BadLevel | MapFailed | Capacity | InvalidArgs | AlreadyMapped.
#[export] Instance PtError_eq_dec : EqDecision PtError.
Proof. solve_decision. Defined.

Definition seL4_NoError : Z := 0.
Definition seL4_FailedLookup : Z := 6.
Definition seL4_DeleteFirst : Z := 8.
Definition seL4_CapNull : Z := 0.

Class PtEnv (E : Type) := {
  cspace_alloc_slot : E -> Z * E;
  cspace_free_slot : Z -> E -> E;
  cspace_delete : Z -> E -> Z * E;
  ut_alloc : Z -> E -> option Z * E;
  ut_free : Z -> E -> E;
  untyped_retype : Z -> Z -> Z -> Z -> E -> Z * E;
  PageTable_Map : Level -> Z -> Z -> Z -> E -> Z * E;
  PageTable_Unmap : Z -> E -> E;
  Page_Map : Z -> Z -> Z -> Z -> Z -> E -> Z * E;
  Page_Unmap : Z -> E -> Z * E;
  MappingFailedLookupLevel : E -> Z;
  (* a new record, and an entry in a table of children *)
  create : E -> option Z * E;
  destroy : Z -> E -> E;
  put_child : E -> bool * E;
  (* the kernel's object for a level *)
  pt_type : Level -> Z;
  pt_bits : Level -> Z;
}.

(** The allocator returns records that are not in use, and only it does. *)
Class PtEnvLaws (E : Type) `{PtEnv E} := {
  records : E -> gset Z;
  cspace_alloc_slot_keeps e : records (snd (cspace_alloc_slot e)) = records e;
  cspace_free_slot_keeps p e : records (cspace_free_slot p e) = records e;
  cspace_delete_keeps p e : records (snd (cspace_delete p e)) = records e;
  ut_alloc_keeps n e : records (snd (ut_alloc n e)) = records e;
  ut_free_keeps p e : records (ut_free p e) = records e;
  untyped_retype_keeps u p t b e : records (snd (untyped_retype u p t b e)) = records e;
  PageTable_Map_keeps l p v a e : records (snd (PageTable_Map l p v a e)) = records e;
  PageTable_Unmap_keeps p e : records (PageTable_Unmap p e) = records e;
  Page_Map_keeps p v a r t e : records (snd (Page_Map p v a r t e)) = records e;
  put_child_keeps e : records (snd (put_child e)) = records e;
  create_records e : match fst (create e) with
    | Some p => (p ∉ records e) /\ records (snd (create e)) = {[p]} ∪ records e
    | None => records (snd (create e)) = records e
    end;
  destroy_records p e : records e ∖ {[p]} ⊆ records (destroy p e);
}.

Record AddrSpace (E : Type) := AS { ptnodes : gmap Z PTNode; root : Z; vspace : Z; env : E }.
Arguments AS {E}. Arguments ptnodes {E}. Arguments root {E}. Arguments vspace {E}. Arguments env {E}.

Section addr_space.
Context {E : Type} `{!PtEnv E}.
Abbreviation AM := (M (AddrSpace E)).

Definition in_env {A} (f : E -> A * E) : AM A := fun s => let '(a, e) := f (env s) in Ok (a, AS (ptnodes s) (root s) (vspace s) e).
Definition do_env (f : E -> E) : AM unit := in_env (fun e => (tt, f e)).
Definition ptnode (p : Z) : AM PTNode := s ← get; access (ptnodes s !! p).
Definition on_node (p : Z) (f : PTNode -> PTNode) : AM unit :=
  n ← ptnode p; modify (fun s => AS (<[p := f n]> (ptnodes s)) (root s) (vspace s) (env s)).

(** ** Kernel objects *)

Definition retypePageTableObject (slot : Z) (level : Level) : AM (PtError + Z) :=
  if level_eqb level L0 then mret (inl BadArgs)
  else
    o ← in_env (ut_alloc (pt_bits level));
    match o with
    | None => mret (inl OutOfUntyped)
    | Some ut_ptr =>
      err ← in_env (untyped_retype ut_ptr slot (pt_type level) (pt_bits level));
      if bool_decide (err ≠ seL4_NoError) then do_env (ut_free ut_ptr);; mret (inl RetypeFailed)
      else mret (inr ut_ptr)
    end.
Definition mapChildToVSpace (vspace_root child_cap : Z) (parent_level : Level) (vaddr : Z) : AM (PtError + unit) :=
  match childLevel parent_level with
  | None => mret (inl BadLevel)
  | Some child =>
    let span := Z.shiftl 1 (levelShift child) * 512 in
    let base := Z.land vaddr (Z.lnot (span - 1)) in
    err ← in_env (PageTable_Map child child_cap vspace_root base);
    if bool_decide (err ≠ seL4_NoError) then mret (inl MapFailed) else mret (inr tt)
  end.
Definition unmapPagingObject (cap : Z) : AM unit := do_env (PageTable_Unmap cap).
(** The numbers of unresolved bits, from the headers of the kernel for aarch64. *)
Definition SEL4_MAPPING_LOOKUP_NO_PT : Z := 21.
Definition SEL4_MAPPING_LOOKUP_NO_PD : Z := 30.
Definition SEL4_MAPPING_LOOKUP_NO_PUD : Z := 39.
Definition missingChildLevel (lvl : Z) : option Level :=
  if bool_decide (lvl = 1) then Some L1 else if bool_decide (lvl = 2) then Some L2 else if bool_decide (lvl = 3) then Some L3
  else if bool_decide (lvl = SEL4_MAPPING_LOOKUP_NO_PUD) then Some L1
  else if bool_decide (lvl = SEL4_MAPPING_LOOKUP_NO_PD) then Some L2
  else if bool_decide (lvl = SEL4_MAPPING_LOOKUP_NO_PT) then Some L3
  else None.
Definition mapAddrSpaceErr (e : PtError) : PtError :=
  match e with
  | OutOfMemory => Capacity | OutOfSlots => OutOfSlots | OutOfUntyped => Capacity | RetypeFailed => MapFailed
  | BadArgs => InvalidArgs | MapFailed => MapFailed | _ => MapFailed
  end.

(** ** Creating tables *)

Definition ensureChild (parent idx : Z) (want_level : Level) (vaddr : Z) : AM (PtError + Z) :=
  p ← ptnode parent;
  match children p !! idx with
  | Some node => mret (inr node)
  | None =>
    slot ← in_env cspace_alloc_slot;
    if bool_decide (slot = seL4_CapNull) then mret (inl OutOfSlots)
    else
      r ← retypePageTableObject slot want_level;
      match r with
      | inl e => mret (inl e)
      | inr ut_ptr =>
        s ← get;
        m ← mapChildToVSpace (vspace s) slot (level p) vaddr;
        match m with
        | inl e =>
          in_env (cspace_delete slot);; do_env (cspace_free_slot slot);; mret (inl (mapAddrSpaceErr e))
        | inr _ =>
          o ← in_env create;
          match o with
          | None => mret (inl OutOfMemory)
          | Some child =>
            modify (fun s => AS (<[child := PTNode_init want_level slot (Some parent) (Some ut_ptr)]> (ptnodes s)) (root s) (vspace s) (env s));;
            ok ← in_env put_child;
            if (ok : bool) then
              on_node parent (set_children <[idx := child]>);;
              on_node parent (set_refcnt (Z.add 1));;
              mret (inr child)
            else
              unmapPagingObject slot;; in_env (cspace_delete slot);; do_env (cspace_free_slot slot);; do_env (ut_free ut_ptr);;
              do_env (destroy child);;
              modify (fun s => AS (delete child (ptnodes s)) (root s) (vspace s) (env s));;
              mret (inl (mapAddrSpaceErr OutOfMemory))
          end
        end
      end
  end.
(** [try] *)
Definition attempt {A B} (m : AM (PtError + A)) (k : A -> AM (PtError + B)) : AM (PtError + B) :=
  r ← m; match r with inl e => mret (inl e) | inr a => k a end.
Definition ensurePath (vaddr : Z) : AM (PtError + Z) :=
  s ← get;
  attempt (ensureChild (root s) (l0Index vaddr) L1 vaddr) (fun n =>
  attempt (ensureChild n (l1Index vaddr) L2 vaddr) (fun n =>
  attempt (ensureChild n (l2Index vaddr) L3 vaddr) (fun n => mret (inr n)))).
Definition ensureLevelPath (upto : Level) (vaddr : Z) : AM (PtError + unit) :=
  s ← get;
  if level_eqb upto L0 then mret (inr tt)
  else attempt (ensureChild (root s) (l0Index vaddr) L1 vaddr) (fun n =>
    if level_eqb upto L1 then mret (inr tt)
    else attempt (ensureChild n (l1Index vaddr) L2 vaddr) (fun n =>
      if level_eqb upto L2 then mret (inr tt)
      else attempt (ensureChild n (l2Index vaddr) L3 vaddr) (fun _ => mret (inr tt)))).

(** ** Counting pages *)

(** The tables for an address, from the root down. *)
Definition walkPath (vaddr : Z) : AM (option (Z * Z * Z * Z)) :=
  s ← get;
  n ← ptnode (root s);
  match children n !! l0Index vaddr with
  | None => mret None
  | Some l1 =>
    n1 ← ptnode l1;
    match children n1 !! l1Index vaddr with
    | None => mret None
    | Some l2 =>
      n2 ← ptnode l2;
      match children n2 !! l2Index vaddr with
      | None => mret None
      | Some l3 => mret (Some (root s, l1, l2, l3))
      end
    end
  end.
Fixpoint bumpLiveLeaves_loop (fuel : nat) (cur : option Z) : AM unit :=
  match cur with
  | None => mret tt
  | Some p =>
    match fuel with
    | O => throw OutOfFuel
    | S fuel => on_node p (set_live (Z.add 1));; n ← ptnode p; bumpLiveLeaves_loop fuel (parent n)
    end
  end.
Definition bumpLiveLeaves (node : Z) : AM unit := s ← get; bumpLiveLeaves_loop (S (size (ptnodes s))) (Some node).
Fixpoint decLiveLeaves_loop (fuel : nat) (cur : option Z) : AM unit :=
  match cur with
  | None => mret tt
  | Some p =>
    match fuel with
    | O => throw OutOfFuel
    | S fuel =>
      on_node p (set_live (fun n => if bool_decide (0 < n) then n - 1 else n));; n ← ptnode p; decLiveLeaves_loop fuel (parent n)
    end
  end.
Definition decLiveLeaves (node : Z) : AM unit := s ← get; decLiveLeaves_loop (S (size (ptnodes s))) (Some node).

(** One step of [pruneEmpty]: the child is removed from its parent when it is empty; otherwise the loop ends. *)
Definition prune_level (child parent idx : Z) (rest : AM unit) : AM unit :=
  n ← ptnode child;
  if bool_decide (live_leaves n ≠ 0) then mret tt
  else if bool_decide (size (children n) ≠ 0%nat) then mret tt
  else
    unmapPagingObject (cap_slot n);;
    in_env (cspace_delete (cap_slot n));;
    do_env (cspace_free_slot (cap_slot n));;
    match ut n with Some u => do_env (ut_free u) | None => mret tt end;;
    on_node parent (set_children (delete idx));;
    do_env (destroy child);;
    modify (fun s => AS (delete child (ptnodes s)) (root s) (vspace s) (env s));;
    rest.
Definition pruneEmpty (vaddr : Z) (path : Z * Z * Z * Z) : AM unit :=
  let '(p0, p1, p2, p3) := path in
  prune_level p3 p2 (l2Index vaddr) (prune_level p2 p1 (l1Index vaddr) (prune_level p1 p0 (l0Index vaddr) (mret tt))).

Definition recordLeafMap (vaddr : Z) : AM unit :=
  path ← walkPath vaddr;
  match path with
  | None => mret tt
  | Some (p0, p1, p2, p3) =>
    on_node p3 (set_live (Z.add 1));; on_node p2 (set_live (Z.add 1));; on_node p1 (set_live (Z.add 1));; on_node p0 (set_live (Z.add 1))
  end.
Definition recordLeafUnmap (vaddr : Z) : AM unit :=
  path ← walkPath vaddr;
  match path with
  | None => mret tt
  | Some (p0, p1, p2, p3) => decLiveLeaves p3;; pruneEmpty vaddr (p0, p1, p2, p3)
  end.

(** ** Mapping *)

Fixpoint mapFrame_loop (tries : nat) (page_cap vaddr rights attrs map_err : Z) : AM (PtError + Z) :=
  match tries with
  | O => mret (inr map_err)
  | S tries =>
    if bool_decide (map_err = seL4_FailedLookup) then
      s ← get;
      match missingChildLevel (MappingFailedLookupLevel (env s)) with
      | None => mret (inr map_err)
      | Some missing =>
        r ← ensureLevelPath missing vaddr;
        match r with
        | inl e => mret (inl (mapAddrSpaceErr e))
        | inr _ =>
          err ← in_env (Page_Map page_cap (vspace s) vaddr rights attrs);
          if bool_decide (err = seL4_NoError) then mret (inr err) else mapFrame_loop tries page_cap vaddr rights attrs err
        end
      end
    else mret (inr map_err)
  end.
Definition mapFrame (page_cap vaddr rights attrs : Z) : AM (PtError + unit) :=
  s ← get;
  err ← in_env (Page_Map page_cap (vspace s) vaddr rights attrs);
  attempt (if bool_decide (err ≠ seL4_NoError) then mapFrame_loop 4 page_cap vaddr rights attrs err else mret (inr err)) (fun map_err =>
    if bool_decide (map_err ≠ seL4_NoError) then mret (inl MapFailed)
    else recordLeafMap vaddr;; mret (inr tt)).

Definition map_owned_frame_err (e : PtError) : PtError :=
  match e with
  | OutOfMemory | OutOfUntyped => Capacity | OutOfSlots => OutOfSlots | RetypeFailed | MapFailed => MapFailed
  | BadArgs => InvalidArgs | _ => MapFailed
  end.
Definition map_owned_frame (page_cap vaddr rights attrs : Z) : AM (PtError + unit) :=
  r ← ensurePath vaddr;
  match r with
  | inl e => mret (inl (map_owned_frame_err e))
  | inr _ =>
    s ← get;
    err ← in_env (Page_Map page_cap (vspace s) vaddr rights attrs);
    if bool_decide (err = seL4_DeleteFirst) then mret (inl AlreadyMapped)
    else if bool_decide (err ≠ seL4_NoError) then mret (inl MapFailed)
    else recordLeafMap vaddr;; mret (inr tt)
  end.
End addr_space.

(** ** The tree of tables *)

(** A table is known by its path: the indices from it up to the root. *)
Abbreviation path := (list Z).
Definition rpath (v : Z) : path := [l2Index v; l1Index v; l0Index v].
(** The page at [v] is below the table at the path. *)
Definition below (π : path) (v : Z) : Prop := π `suffix_of` rpath v.
#[export] Instance below_dec π v : Decision (below π v).
Proof. unfold below. apply _. Defined.
Definition pages_below (L : list Z) (π : path) : Z := Z.of_nat (length (filter (below π) L)).

Definition level_at (n : nat) : Level := match n with 0%nat => L0 | 1%nat => L1 | 2%nat => L2 | _ => L3 end.

(** The records of the tables [T] with the numbers of pages [f]. *)
Record tables {E : Type} (T : gmap path Z) (f : path -> Z) (s : AddrSpace E) : Prop := {
  t_root : T !! [] = Some (root s);
  t_inj : forall π π' a, T !! π = Some a -> T !! π' = Some a -> π = π';
  t_node : forall π a, T !! π = Some a -> exists n, ptnodes s !! a = Some n /\ (length π <= 3)%nat /\ level n = level_at (length π) /\
    parent n = match π with [] => None | _ :: π => T !! π end /\ (forall i, children n !! i = T !! (i :: π)) /\ live_leaves n = f π;
  t_up : forall i π, is_Some (T !! (i :: π)) -> is_Some (T !! π);
}.
(** ... and the pages [L] are mapped, each below its tables. *)
Definition pt_ok {E : Type} `{PtEnvLaws E} (T : gmap path Z) (L : list Z) (s : AddrSpace E) : Prop :=
  tables T (pages_below L) s /\ (forall v, v ∈ L -> is_Some (T !! rpath v)) /\ forall π a, T !! π = Some a -> a ∈ records (env s).

Lemma tables_ext {E : Type} T f f' (s : AddrSpace E) : (forall π, is_Some (T !! π) -> f π = f' π) -> tables T f s -> tables T f' s.
Proof.
  intros Hf [H1 H2 H3 H4]. split; try done. intros π a Hπ. destruct (H3 π a Hπ) as (n & ? & ? & ? & ? & ? & Hl).
  exists n. split_and!; try done. rewrite Hl. apply Hf. eauto.
Qed.

Section tables.
Context {E : Type} `{!PtEnv E} `{!PtEnvLaws E} (F : fault -> Prop).

Lemma wp_ptnode p n (Q : PTNode -> AddrSpace E -> Prop) s : ptnodes s !! p = Some n -> Q n s -> wpf F (ptnode p) Q s.
Proof. intros Hn HQ. unfold ptnode. wp_line. by eapply wpf_access. Qed.
Lemma wp_pt_env {A} (f : E -> A * E) (Q : A -> AddrSpace E -> Prop) s :
  (forall a e, f (env s) = (a, e) -> Q a (AS (ptnodes s) (root s) (vspace s) e)) -> wpf F (in_env f) Q s.
Proof. intros HQ. unfold wpf, in_env. destruct (f (env s)) as [a e] eqn:Ef. by apply HQ. Qed.
Lemma wp_do_env (f : E -> E) (Q : unit -> AddrSpace E -> Prop) s :
  Q tt (AS (ptnodes s) (root s) (vspace s) (f (env s))) -> wpf F (do_env f) Q s.
Proof. intros HQ. apply wp_pt_env. intros [] e Ee. by simplify_eq. Qed.
(** ... by an operation that allocates no records. *)
Lemma wp_keep {A} (f : E -> A * E) (Q : A -> AddrSpace E -> Prop) s : (forall e, records (snd (f e)) = records e) ->
  (forall a e, records e = records (env s) -> Q a (AS (ptnodes s) (root s) (vspace s) e)) -> wpf F (in_env f) Q s.
Proof. intros Hf HQ. apply wp_pt_env. intros a e He. apply HQ. by rewrite <- (Hf (env s)), He. Qed.
Lemma wp_keep_do (f : E -> E) (Q : unit -> AddrSpace E -> Prop) s : (forall e, records (f e) = records e) ->
  (forall e, records e = records (env s) -> Q tt (AS (ptnodes s) (root s) (vspace s) e)) -> wpf F (do_env f) Q s.
Proof. intros Hf HQ. apply wp_do_env. apply HQ. apply Hf. Qed.
(** The tables do not depend on the environment. *)
Lemma tables_env T f (s : AddrSpace E) (e : E) : tables T f s -> tables T f (AS (ptnodes s) (root s) (vspace s) e).
Proof. intros [H1 H2 H3 H4]. by split. Qed.

(** The count of one table changes. *)
Lemma set_live_spec T f g π a s (Q : unit -> AddrSpace E -> Prop) : tables T f s -> T !! π = Some a ->
  (forall s', tables T (fun π' => if decide (π' = π) then g (f π) else f π') s' -> dom (ptnodes s') = dom (ptnodes s) ->
     root s' = root s -> env s' = env s -> Q tt s') ->
  wpf F (on_node a (set_live g)) Q s.
Proof.
  intros [H1 H2 H3 H4] Hπ HQ. destruct (H3 π a Hπ) as (n & Hn & K1 & K2 & K3 & K4 & K5). unfold on_node. wp_line.
  eapply wp_ptnode; [exact Hn|]. wp_line. apply HQ; cbn [ptnodes root env]; [|rewrite dom_insert_lookup_L; [done|eauto]|done|done].
  split; try done. intros π' b Hπ'. cbn [ptnodes]. destruct (decide (π' = π)) as [->|Hne].
  - rewrite Hπ in Hπ'. simplify_eq. rewrite lookup_insert_eq. eexists. split; [done|]. cbn. rewrite K5. done.
  - rewrite lookup_insert_ne; [by apply H3|]. intros ->. apply Hne. by eapply H2.
Qed.

Lemma suffix_rpath π v : below π v <-> π = rpath v \/ π = [l1Index v; l0Index v] \/ π = [l0Index v] \/ π = [].
Proof.
  unfold below, rpath. split.
  - intros [k Hk]. destruct k as [|a [|b [|c [|d k]]]]; simplify_eq/=; auto.
  - intros [->|[->|[->| ->]]]; [done|by exists [l2Index v]|by exists [l2Index v; l1Index v]|apply suffix_nil].
Qed.
Lemma pages_below_cons v L π : pages_below (v :: L) π = pages_below L π + (if decide (below π v) then 1 else 0).
Proof. unfold pages_below. rewrite filter_cons. case_decide; simpl; lia. Qed.

(** The tables from the root to the one for an address. *)
Lemma tables_up T f (s : AddrSpace E) v p3 : tables T f s -> T !! rpath v = Some p3 ->
  exists p2 p1, T !! [l1Index v; l0Index v] = Some p2 /\ T !! [l0Index v] = Some p1 /\ T !! [] = Some (root s).
Proof.
  intros Ht H3. destruct (t_up _ _ _ Ht (l2Index v) [l1Index v; l0Index v]) as [p2 H2]; [eauto|].
  destruct (t_up _ _ _ Ht (l1Index v) [l0Index v]) as [p1 H1]; [eauto|]. exists p2, p1. split_and!; try done. apply Ht.
Qed.
Lemma walkPath_spec T f v s (Q : option (Z * Z * Z * Z) -> AddrSpace E -> Prop) : tables T f s ->
  (T !! rpath v = None -> Q None s) ->
  (forall p1 p2 p3, T !! [l0Index v] = Some p1 -> T !! [l1Index v; l0Index v] = Some p2 -> T !! rpath v = Some p3 -> Q (Some (root s, p1, p2, p3)) s) ->
  wpf F (walkPath v) Q s.
Proof.
  intros Ht HN HS. assert (Hnone : forall i π, T !! π = None -> T !! (i :: π) = None).
  { intros i π H. destruct (T !! (i :: π)) eqn:E1; [|done]. destruct (t_up _ _ _ Ht i π); [eauto|congruence]. }
  unfold walkPath. wp_line. destruct (t_node _ _ _ Ht [] _ (t_root _ _ _ Ht)) as (n & Hn & _ & _ & _ & Hc & _).
  eapply wp_ptnode; [exact Hn|]. rewrite Hc. destruct (T !! [l0Index v]) as [p1|] eqn:H1; [|wp_line; apply HN; by do 2 apply Hnone].
  destruct (t_node _ _ _ Ht _ _ H1) as (n1 & Hn1 & _ & _ & _ & Hc1 & _). wp_line. eapply wp_ptnode; [exact Hn1|]. rewrite Hc1.
  destruct (T !! [l1Index v; l0Index v]) as [p2|] eqn:H2; [|wp_line; apply HN; by apply Hnone].
  destruct (t_node _ _ _ Ht _ _ H2) as (n2 & Hn2 & _ & _ & _ & Hc2 & _). wp_line. eapply wp_ptnode; [exact Hn2|]. rewrite Hc2. fold (rpath v).
  destruct (T !! rpath v) as [p3|] eqn:H3; wp_line; auto.
Qed.

(** ** Recording pages *)

Lemma recordLeafMap_spec T L v s (Q : unit -> AddrSpace E -> Prop) : pt_ok T L s -> is_Some (T !! rpath v) ->
  (forall s', pt_ok T (v :: L) s' -> env s' = env s -> Q tt s') -> wpf F (recordLeafMap v) Q s.
Proof.
  intros (Ht & HL & HR) [p HTp] HQ. unfold recordLeafMap. wp_line. eapply walkPath_spec; [exact Ht|intros H; congruence|].
  intros p1 p2 p3 H1 H2 H3. wp_line. eapply set_live_spec; [exact Ht|exact H3|]. intros s1 Ht1 _ Hr1 He1.
  wp_line. eapply set_live_spec; [exact Ht1|exact H2|]. intros s2 Ht2 _ Hr2 He2.
  wp_line. eapply set_live_spec; [exact Ht2|exact H1|]. intros s3 Ht3 _ Hr3 He3.
  assert (Hroot : T !! [] = Some (root s)) by apply Ht. eapply set_live_spec; [exact Ht3|exact Hroot|]. intros s4 Ht4 _ Hr4 He4.
  apply HQ; [|congruence].
  split_and!; [|intros u [->|Hu]%elem_of_cons; [by exists p|by apply HL]|by rewrite He4, He3, He2, He1].
  eapply tables_ext; [|exact Ht4]. intros π _. cbv beta. rewrite pages_below_cons. pose proof (suffix_rpath π v) as Hs. unfold rpath in *.
  destruct (decide (below π v)) as [Hb|Hb].
  - apply Hs in Hb as [->|[->|[->| ->]]]; repeat (case_decide; try done); lia.
  - rewrite !decide_False by tauto. lia.
Qed.

(** ** Forgetting pages *)

Lemma decLiveLeaves_loop_spec : forall π T f a fuel s (Q : unit -> AddrSpace E -> Prop), tables T f s -> T !! π = Some a ->
  (length π < fuel)%nat ->
  (forall s', tables T (fun π' => if decide (π' `suffix_of` π) then (if bool_decide (0 < f π') then f π' - 1 else f π') else f π') s' ->
     dom (ptnodes s') = dom (ptnodes s) -> root s' = root s -> env s' = env s -> Q tt s') ->
  wpf F (decLiveLeaves_loop fuel (Some a)) Q s.
Proof.
  induction π as [|i π IH]; intros T f a fuel s Q Ht Ha Hl HQ; (destruct fuel as [|fuel]; [simpl in Hl; lia|]); cbn [decLiveLeaves_loop];
    wp_line; (eapply set_live_spec; [exact Ht|exact Ha|]); intros s1 Ht1 Hd1 Hr1 He1;
    destruct (t_node _ _ _ Ht1 _ _ Ha) as (n & Hn & _ & _ & Hp & _); wp_line; (eapply wp_ptnode; [exact Hn|]); rewrite Hp.
  - destruct fuel; wp_line; (apply HQ; [|done..]); (eapply tables_ext; [|exact Ht1]); intros π _; cbv beta;
      (destruct (decide (π = [])) as [->|Hne]; [by rewrite decide_True by done|rewrite decide_False; [done|by intros ?%suffix_nil_inv]]).
  - destruct (t_up _ _ _ Ht1 i π) as [b Hb]; [eauto|]. rewrite Hb. eapply IH; [exact Ht1|exact Hb|simpl in Hl; lia|].
    intros s2 Ht2 Hd2 Hr2 He2. apply HQ; [|congruence..]. eapply tables_ext; [|exact Ht2]. intros π' _. cbv beta.
    destruct (decide (π' = i :: π)) as [->|Hne].
    + rewrite decide_False by (intros Hs; apply suffix_length in Hs; simpl in Hs; lia). by rewrite decide_True by done.
    + destruct (decide (π' `suffix_of` π)) as [Hs|Hs]; [by rewrite decide_True by by apply suffix_cons_r|].
      rewrite decide_False; [done|]. intros [k Hk]. destruct k as [|j k]; simplify_eq/=. apply Hs. by exists k.
Qed.

(** Four tables on the way to an address are four records. *)
Lemma tables_size T f (s : AddrSpace E) v : tables T f s -> is_Some (T !! rpath v) -> (4 <= size (ptnodes s))%nat.
Proof.
  intros Ht [p3 H3]. destruct (tables_up _ _ _ _ _ Ht H3) as (p2 & p1 & H2 & H1 & H0).
  assert (Hnd : NoDup [root s; p1; p2; p3]).
  { repeat constructor; rewrite ?elem_of_cons, ?elem_of_nil; intros Hin; destruct_or?; subst; try done;
      match goal with A : T !! ?x = Some ?a, B : T !! ?y = Some ?a |- _ => assert_fails (unify x y); by pose proof (t_inj _ _ _ Ht _ _ _ A B) end. }
  assert (Hsub : (list_to_set [root s; p1; p2; p3] : gset Z) ⊆ dom (ptnodes s)).
  { intros a Ha. apply elem_of_list_to_set in Ha. apply elem_of_dom.
    assert (Hπ : exists π, T !! π = Some a) by (rewrite !elem_of_cons, elem_of_nil in Ha; destruct_or?; subst; eauto).
    destruct Hπ as [π Hπ]. destruct (t_node _ _ _ Ht _ _ Hπ) as (n & Hn & _). eauto. }
  apply subseteq_size in Hsub. rewrite size_list_to_set in Hsub by done. by rewrite size_dom in Hsub.
Qed.

(** An empty table is taken out. *)
Lemma drop_table T f i π child par (s s' : AddrSpace E) n : tables T f s -> T !! (i :: π) = Some child -> T !! π = Some par ->
  (forall j, T !! (j :: i :: π) = None) -> ptnodes s !! par = Some n ->
  ptnodes s' = delete child (<[par := set_children (delete i) n]> (ptnodes s)) -> root s' = root s ->
  tables (delete (i :: π) T) f s'.
Proof.
  intros Ht Hc Hp Hno Hn Hs' Hr. split.
  - rewrite lookup_delete_ne by done. rewrite Hr. apply Ht.
  - intros π1 π2 a [_ H1]%lookup_delete_Some [_ H2]%lookup_delete_Some. by eapply t_inj.
  - intros π' a [Hne Ha]%lookup_delete_Some. destruct (t_node _ _ _ Ht _ _ Ha) as (m & Hm & Hl & Hlv & Hpa & Hch & Hf).
    assert (Hac : a ≠ child) by (intros ->; apply Hne; by eapply t_inj).
    assert (Hpar : match π' with [] => None | _ :: π0 => delete (i :: π) T !! π0 end = parent m).
    { rewrite Hpa. destruct π' as [|j π']; [done|]. apply lookup_delete_ne. intros <-. by rewrite Hno in Ha. }
    destruct (decide (a = par)) as [->|Hap].
    + assert (π' = π) as -> by by eapply t_inj. simplify_eq. exists (set_children (delete i) n). rewrite Hs', lookup_delete_ne by done.
      rewrite lookup_insert, decide_True by done. split_and!; try done. intros j. simpl. destruct (decide (j = i)) as [->|Hj].
      * by rewrite !lookup_delete_eq.
      * rewrite !lookup_delete_ne by congruence. apply Hch.
    + exists m. rewrite Hs', lookup_delete_ne, lookup_insert_ne by done. split_and!; try done. intros j. rewrite Hch.
      symmetry. apply lookup_delete_ne. intros [= <- <-]. congruence.
  - intros j π' [x Hx]. apply lookup_delete_Some in Hx as [Hne Hx]. destruct (t_up _ _ _ Ht j π') as [b Hb]; [eauto|]. exists b.
    rewrite lookup_delete_ne; [done|]. intros <-. by rewrite Hno in Hx.
Qed.

(** The records in use outside of the tables stay in use, outside of the tables. *)
Definition spares (T : gmap path Z) (s : AddrSpace E) (T' : gmap path Z) (s' : AddrSpace E) : Prop :=
  forall a, a ∈ records (env s) -> (forall π, T !! π ≠ Some a) -> a ∈ records (env s') /\ forall π, T' !! π ≠ Some a.
Lemma spares_refl T (s s' : AddrSpace E) : records (env s) ⊆ records (env s') -> spares T s T s'.
Proof. intros He a Ha HT. split; [by apply He|done]. Qed.
Lemma spares_trans T T1 T2 (s s1 s2 : AddrSpace E) : spares T s T1 s1 -> spares T1 s1 T2 s2 -> spares T s T2 s2.
Proof. intros H1 H2 a Ha HT. destruct (H1 a Ha HT). by apply H2. Qed.

(** The tables a page was taken from are fewer, and all of them are still proper. *)
Definition forgets (T : gmap path Z) (L : list Z) (s s' : AddrSpace E) : Prop := exists T', T' ⊆ T /\ pt_ok T' L s' /\ spares T s T' s'.

Lemma prune_level_spec T L i π child par (rest : M (AddrSpace E) unit) s : pt_ok T L s -> T !! (i :: π) = Some child -> T !! π = Some par ->
  (forall s', pt_ok (delete (i :: π) T) L s' -> wpf F rest (fun _ => forgets (delete (i :: π) T) L s') s') ->
  wpf F (prune_level child par i rest) (fun _ => forgets T L s) s.
Proof.
  intros (Ht & HL & HA) Hc Hp HR. assert (Hstay : forgets T L s s) by (exists T; split_and!; [done|done|by apply spares_refl]).
  destruct (t_node _ _ _ Ht _ _ Hc) as (n & Hn & _ & _ & _ & Hch & Hf). destruct (t_node _ _ _ Ht _ _ Hp) as (m & Hm & _).
  unfold prune_level. wp_line. eapply wp_ptnode; [exact Hn|]. cbv beta. destruct (decide (live_leaves n = 0)) as [H0|H0];
    [rewrite bool_decide_false by tauto|rewrite bool_decide_true by done; by wp_line].
  destruct (decide (size (children n) = 0%nat)) as [Hz|Hz]; [rewrite bool_decide_false by tauto|rewrite bool_decide_true by done; by wp_line].
  apply map_size_empty_inv in Hz. rewrite Hz in Hch. unfold unmapPagingObject. wp_line. apply wp_keep_do; [apply PageTable_Unmap_keeps|]. intros e1 He1.
  wp_line. apply wp_keep; [apply cspace_delete_keeps|]. intros r e2 He2.
  wp_line. apply wp_keep_do; [apply cspace_free_slot_keeps|]. intros e3 He3. cbn [ptnodes root vspace env] in *. wp_line.
  assert (Hut : forall s0 : AddrSpace E, wpf F (match ut n with Some u => do_env (ut_free u) | None => mret tt end)
    (fun _ s1 => ptnodes s1 = ptnodes s0 /\ root s1 = root s0 /\ records (env s1) = records (env s0)) s0).
  { intros s0. destruct (ut n); [|by wp_line]. apply wp_keep_do; [apply ut_free_keeps|]. done. }
  eapply wpf_mono; [apply Hut|]. intros [] s1 (Hs1 & Hr1 & He4). cbn [ptnodes root env] in Hs1, Hr1, He4. wp_line. unfold on_node. wp_line. eapply wp_ptnode; [by rewrite Hs1|]. wp_line. apply wp_do_env. wp_line.
  eapply wpf_mono; [apply HR|].
  2: { intros _ s2 (T' & Hsub & Hok & Hsp). exists T'. split_and!; [etrans; [exact Hsub|apply delete_subseteq]|done|].
    eapply spares_trans; [|exact Hsp]. intros a Ha HT. split; [cbn [env]; apply destroy_records; rewrite He4, He3, He2, He1|].
    - apply elem_of_difference. split; [done|]. intros ->%elem_of_singleton. by eapply HT.
    - intros π' [_ Hd]%lookup_delete_Some. by eapply HT. }
  split_and!; [eapply (drop_table T _ i π child par s _ m); cbn [ptnodes root]; rewrite ?Hs1; eauto; intros j; by rewrite <- Hch| |].
  2: { intros π' a [Hne Ha]%lookup_delete_Some. cbn [env]. apply destroy_records. rewrite He4, He3, He2, He1. apply elem_of_difference.
    split; [by eapply HA|]. intros ->%elem_of_singleton. apply Hne. by eapply t_inj. }
    intros v Hv. destruct (HL v Hv) as [p Hpv]. exists p. rewrite lookup_delete_ne; [done|]. intros Heq. rewrite Hf in H0.
    unfold pages_below in H0. assert (Hz0 : filter (below (i :: π)) L = []) by (apply nil_length_inv; lia).
    assert (Hin : v ∈ filter (below (i :: π)) L) by (apply list_elem_of_filter; split; [unfold below; by rewrite Heq|done]). by rewrite Hz0, elem_of_nil in Hin.
Qed.

Lemma recordLeafUnmap_spec T L v s : pt_ok T (v :: L) s -> wpf F (recordLeafUnmap v) (fun _ => forgets T L s) s.
Proof.
  intros (Ht & HL & HA). destruct (HL v) as [p Hp]; [apply elem_of_cons; by left|]. unfold recordLeafUnmap. wp_line.
  eapply walkPath_spec; [exact Ht|intros H; congruence|]. intros p1 p2 p3 H1 H2 H3. wp_line. unfold decLiveLeaves. wp_line.
  assert (Hsz : (4 <= size (ptnodes s))%nat) by (eapply tables_size; eauto).
  eapply decLiveLeaves_loop_spec; [exact Ht|exact H3|simpl; lia|]. intros s1 Ht1 _ Hr1 He1.
  assert (Hok : pt_ok T L s1).
  { split_and!; [|intros u Hu; apply HL, elem_of_cons; by right|by rewrite He1]. eapply tables_ext; [|exact Ht1]. intros π _. cbv beta. fold (below π v).
    rewrite pages_below_cons. destruct (decide (below π v)); [|lia]. rewrite bool_decide_true; unfold pages_below; lia. }
  assert (H0 : T !! [] = Some (root s)) by apply Ht. cbn [pruneEmpty].
  assert (Hfor : forall s', forgets T L s1 s' -> forgets T L s s').
  { intros s' (T' & Hsub & Hok' & Hsp). exists T'. split_and!; try done. eapply spares_trans; [|exact Hsp]. apply spares_refl. by rewrite He1. }
  eapply (wpf_mono _ _ (fun _ => forgets T L s1)); [|intros [] s'; apply Hfor]. clear Hfor.
  eapply prune_level_spec; [exact Hok|exact H3|exact H2|]. intros s2 Hok2.
  eapply prune_level_spec; [exact Hok2|by rewrite lookup_delete_ne..|]. intros s3 Hok3.
  eapply prune_level_spec; [exact Hok3|by rewrite !lookup_delete_ne..|]. intros s4 Hok4. wp_line. eexists. split_and!; [done|done|by apply spares_refl].
Qed.

(** ** Creating tables *)

Lemma tables_suffix T f (s : AddrSpace E) k π : tables T f s -> is_Some (T !! (k ++ π)) -> is_Some (T !! π).
Proof. intros Ht. induction k as [|i k IH]; [done|]. intros H. by apply IH, (t_up _ _ _ Ht i). Qed.
(** There are no pages below a table that does not exist. *)
Lemma no_pages T L (s : AddrSpace E) π : pt_ok T L s -> T !! π = None -> pages_below L π = 0.
Proof.
  intros (Ht & HL & _) Hπ. unfold pages_below. destruct (filter (below π) L) as [|v l] eqn:El; [done|]. exfalso.
  assert (Hv : v ∈ filter (below π) L) by (rewrite El; apply elem_of_cons; by left).
  apply list_elem_of_filter in Hv as [[k Hk] Hv]. destruct (tables_suffix _ _ _ k π Ht) as [? ?]; [rewrite <- Hk; by apply HL|congruence].
Qed.
(** The records outside the tables do not matter. *)
Lemma tables_frame T f (s s' : AddrSpace E) : tables T f s -> root s' = root s ->
  (forall π a, T !! π = Some a -> ptnodes s' !! a = ptnodes s !! a) -> tables T f s'.
Proof.
  intros [H1 H2 H3 H4] Hr Hs. split; [by rewrite Hr|done| |done]. intros π a Ha. rewrite (Hs _ _ Ha). by apply H3.
Qed.

(** A new table is attached. *)
Lemma put_table T f i π child par slot u (s s' : AddrSpace E) n : tables T f s -> T !! π = Some par -> T !! (i :: π) = None ->
  (length π < 3)%nat -> f (i :: π) = 0 -> (forall π' a, T !! π' = Some a -> a ≠ child) -> ptnodes s !! par = Some n ->
  ptnodes s' = <[par := set_refcnt (Z.add 1) (set_children <[i := child]> n)]>
    (<[child := PTNode_init (level_at (S (length π))) slot (Some par) u]> (ptnodes s)) -> root s' = root s ->
  tables (<[i :: π := child]> T) f s'.
Proof.
  intros Ht Hp Hno Hl Hf0 Hfr Hn Hs' Hr.
  assert (Hbelow : forall j, T !! (j :: i :: π) = None).
  { intros j. destruct (T !! (j :: i :: π)) eqn:Ej; [|done]. destruct (t_up _ _ _ Ht j (i :: π)); [eauto|congruence]. }
  split.
  - rewrite lookup_insert_ne by done. rewrite Hr. apply Ht.
  - intros π1 π2 a [[<- <-]|[_ H1]]%lookup_insert_Some [[<- E2]|[_ H2]]%lookup_insert_Some; try done.
    + by destruct (Hfr _ _ H2).
    + subst a. by destruct (Hfr _ _ H1).
    + by eapply t_inj.
  - intros π' a [[<- <-]|[Hne Ha]]%lookup_insert_Some.
    + eexists. rewrite Hs', lookup_insert_ne by (intros ->; by destruct (Hfr _ _ Hp)). rewrite lookup_insert_eq. split; [done|].
      simpl. split_and!; [lia|done|by rewrite lookup_insert_ne by (intros Hq; apply (f_equal length) in Hq; simpl in Hq; lia)| |done].
      intros j. rewrite lookup_empty, lookup_insert_ne by (intros Hq; apply (f_equal length) in Hq; simpl in Hq; lia). by rewrite Hbelow.
    + destruct (t_node _ _ _ Ht _ _ Ha) as (m & Hm & Hl' & Hlv & Hpa & Hch & Hfm).
      assert (Hpar : match π' with [] => None | _ :: π0 => <[i :: π := child]> T !! π0 end = parent m).
      { rewrite Hpa. destruct π' as [|j π']; [done|]. apply lookup_insert_ne. intros <-. by rewrite Hbelow in Ha. }
      destruct (decide (a = par)) as [->|Hap].
      * assert (π' = π) as -> by by eapply t_inj. simplify_eq. eexists. rewrite Hs', lookup_insert_eq. split; [done|].
        simpl. split_and!; try done. intros j. destruct (decide (j = i)) as [->|Hj]; [by rewrite !lookup_insert_eq|].
        rewrite !lookup_insert_ne by congruence. apply Hch.
      * exists m. rewrite Hs', !lookup_insert_ne by (try done; intros ->; by destruct (Hfr _ _ Ha)). split_and!; try done.
        intros j. rewrite Hch. symmetry. apply lookup_insert_ne. intros [= <- <-]. congruence.
  - intros j π' [x Hx]. apply lookup_insert_Some in Hx as [[[= <- <-] _]|[_ Hx]].
    + rewrite lookup_insert_ne by (intros Hq; apply (f_equal length) in Hq; simpl in Hq; lia). eauto.
    + destruct (t_up _ _ _ Ht j π') as [b Hb]; [eauto|]. destruct (decide (π' = i :: π)) as [->|Hne]; [by rewrite Hbelow in Hx|].
      rewrite lookup_insert_ne by done. eauto.
Qed.

Lemma pt_ok_move T L (s s' : AddrSpace E) : pt_ok T L s -> root s' = root s ->
  (forall π a, T !! π = Some a -> ptnodes s' !! a = ptnodes s !! a) -> records (env s) ⊆ records (env s') -> pt_ok T L s'.
Proof.
  intros (Ht & HL & HA) Hr Hs He. split_and!; [by eapply tables_frame|done|]. intros π a Ha. by eapply He, HA.
Qed.

(** A table object: an error, or the untyped memory it is made of. *)
Lemma retypePageTableObject_spec slot lvl s (Q : PtError + Z -> AddrSpace E -> Prop) :
  (forall r e, records e = records (env s) -> Q r (AS (ptnodes s) (root s) (vspace s) e)) -> wpf F (retypePageTableObject slot lvl) Q s.
Proof.
  intros HQ. unfold retypePageTableObject. destruct (level_eqb lvl L0); [wp_line; destruct s; by apply HQ|].
  wp_line. apply wp_keep; [apply ut_alloc_keeps|]. intros [u|] e1 He1; [|wp_line; by apply HQ].
  wp_line. apply wp_keep; [apply untyped_retype_keeps|]. intros err e2 He2. cbn [ptnodes root vspace env] in *.
  case_bool_decide; wp_line; [|apply HQ; congruence]. apply wp_keep_do; [apply ut_free_keeps|]. intros e3 He3. wp_line. cbn in *. apply HQ. congruence.
Qed.
Lemma mapChildToVSpace_spec vs c lvl va s (Q : PtError + unit -> AddrSpace E -> Prop) :
  (forall r e, records e = records (env s) -> Q r (AS (ptnodes s) (root s) (vspace s) e)) -> wpf F (mapChildToVSpace vs c lvl va) Q s.
Proof.
  intros HQ. unfold mapChildToVSpace. destruct (childLevel lvl); [|wp_line; destruct s; by apply HQ]. wp_line.
  apply wp_keep; [apply PageTable_Map_keeps|]. intros err e1 He1. case_bool_decide; wp_line; by apply HQ.
Qed.

(** The child exists afterwards, or nothing has changed. *)
Definition grows (T : gmap path Z) (L : list Z) (π : path) (s : AddrSpace E) (r : PtError + Z) (s' : AddrSpace E) : Prop :=
  exists T', T ⊆ T' /\ pt_ok T' L s' /\ spares T s T' s' /\ match r with inr child => T' !! π = Some child | inl _ => True end.

Lemma ensureChild_spec T L π par i va s : pt_ok T L s -> T !! π = Some par -> (length π < 3)%nat ->
  wpf F (ensureChild par i (level_at (S (length π))) va) (grows T L (i :: π) s) s.
Proof.
  intros Hok Hp Hl. pose proof Hok as (Ht & HL & HA). destruct (t_node _ _ _ Ht _ _ Hp) as (n & Hn & _ & _ & _ & Hch & _).
  assert (Hstay : forall e r, records e = records (env s) -> grows T L (i :: π) s (inl r) (AS (ptnodes s) (root s) (vspace s) e)).
  { intros e r He. exists T. split_and!; try done; [by eapply pt_ok_move; [exact Hok|..|cbn [env]; rewrite He]|]. apply spares_refl. cbn [env]. by rewrite He. }
  unfold ensureChild. wp_line. eapply wp_ptnode; [exact Hn|]. rewrite Hch. destruct (T !! (i :: π)) as [c|] eqn:Hc; [wp_line; exists T; split_and!; try done; by apply spares_refl|].
  wp_line. apply wp_keep; [apply cspace_alloc_slot_keeps|]. intros slot e1 He1. case_bool_decide; wp_line; [by apply Hstay|].
  apply retypePageTableObject_spec. intros [err|u] e2 He2; cbn [ptnodes root vspace env] in *; wp_line; [apply Hstay; congruence|].
  apply mapChildToVSpace_spec. intros [err|[]] e3 He3; cbn [ptnodes root vspace env] in *; wp_line.
  { apply wp_keep; [apply cspace_delete_keeps|]. intros d e4 He4. wp_line. apply wp_keep_do; [apply cspace_free_slot_keeps|]. intros e5 He5.
    wp_line. cbn in *. apply Hstay. congruence. }
  assert (He : records e3 = records (env s)) by congruence. clear He1 He2 He3.
  apply wp_pt_env. cbn [ptnodes root vspace env]. intros o e4 Ho. pose proof (create_records e3) as Hcr. rewrite Ho in Hcr. cbn [fst snd] in Hcr.
  destruct o as [child|]; wp_line; [|apply Hstay; congruence]. destruct Hcr as [Hfr He4]. rewrite He in *.
  assert (Hne : forall π' a, T !! π' = Some a -> a ≠ child) by (intros π' a Ha ->; by apply Hfr, (HA π')).
  apply wp_keep; [apply put_child_keeps|]. cbn [ptnodes root vspace env]. intros ok e5 He5. rewrite He4 in He5. destruct ok.
  - unfold on_node. wp_line. eapply wp_ptnode; [cbn [ptnodes]; by rewrite lookup_insert_ne by (apply not_eq_sym; by eapply Hne)|]. wp_line.
    eapply wp_ptnode; [cbn [ptnodes]; by rewrite lookup_insert_eq|]. wp_line. exists (<[i :: π := child]> T).
    split_and!; [by apply insert_subseteq|split_and!|..|by rewrite lookup_insert_eq].
    + eapply (put_table T _ i π child par slot (Some u) s _ n); try done; [by eapply no_pages|]. cbn [ptnodes]. by rewrite insert_insert_eq.
    + intros v Hv. destruct (HL v Hv) as [x Hx]. exists x. rewrite lookup_insert_ne; [done|]. intros Heq. congruence.
    + intros π' a [[<- <-]|[_ Ha]]%lookup_insert_Some; cbn [env]; rewrite He5; [set_solver|]. apply elem_of_union_r. by eapply HA.
    + intros a Ha HT. cbn [env]. rewrite He5. split; [set_solver|]. intros π' [[_ <-]|[_ Hx]]%lookup_insert_Some; [done|by eapply HT].
  - unfold unmapPagingObject. wp_line. apply wp_keep_do; [apply PageTable_Unmap_keeps|]. intros e6 He6. wp_line.
    apply wp_keep; [apply cspace_delete_keeps|]. intros d e7 He7. wp_line. apply wp_keep_do; [apply cspace_free_slot_keeps|]. intros e8 He8.
    wp_line. apply wp_keep_do; [apply ut_free_keeps|]. intros e9 He9. wp_line. apply wp_do_env. wp_line. cbn [ptnodes root vspace env] in *.
    assert (Hrec : records (env s) ⊆ records (destroy child e9)).
    { etrans; [|apply destroy_records]. rewrite He9, He8, He7, He6, He5. set_solver. }
    exists T. split_and!; try done; [|by apply spares_refl]. eapply pt_ok_move; [exact Hok|done| |done].
    intros π' a Ha. cbn [ptnodes]. by rewrite lookup_delete_ne, lookup_insert_ne by (apply not_eq_sym; by eapply Hne).
Qed.

Lemma ensurePath_spec T L v s : pt_ok T L s -> wpf F (ensurePath v) (grows T L (rpath v) s) s.
Proof.
  intros Hok. assert (Hroot : T !! [] = Some (root s)) by apply Hok. unfold ensurePath, attempt. wp_line.
  eapply wpf_mono; [eapply (ensureChild_spec T L []); try done; simpl; lia|]. intros [e|p1] s1 (T1 & Hs1 & Hok1 & Hp1 & H1); wp_line; [by exists T1|].
  eapply wpf_mono; [eapply (ensureChild_spec T1 L [l0Index v]); try done; simpl; lia|]. intros [e|p2] s2 (T2 & Hs2 & Hok2 & Hp2 & H2); wp_line;
    [exists T2; split_and!; [by etrans|done|by eapply spares_trans|done]|].
  eapply wpf_mono; [eapply (ensureChild_spec T2 L [l1Index v; l0Index v]); try done; simpl; lia|].
  intros [e|p3] s3 (T3 & Hs3 & Hok3 & Hp3 & H3); wp_line;
    (exists T3; split_and!; [by do 2 (etrans; [eassumption|])|done|by do 2 (eapply spares_trans; [eassumption|])|done]).
Qed.

Lemma map_owned_frame_spec T L cap v rights attrs s : pt_ok T L s ->
  wpf F (map_owned_frame cap v rights attrs)
    (fun r s' => exists T', T ⊆ T' /\ spares T s T' s' /\ match r with inr _ => pt_ok T' (v :: L) s' | inl _ => pt_ok T' L s' end) s.
Proof.
  intros Hok. unfold map_owned_frame. wp_line. eapply wpf_mono; [by apply ensurePath_spec|].
  intros [e|p3] s1 (T1 & Hs1 & Hok1 & Hp1 & H1); wp_line; [by exists T1|]. apply wp_keep; [apply Page_Map_keeps|]. intros err e1 He1.
  assert (Hok2 : pt_ok T1 L (AS (ptnodes s1) (root s1) (vspace s1) e1)) by (by eapply pt_ok_move; [exact Hok1|..|cbn [env]; rewrite He1]).
  assert (Hp2 : forall s2, records (env s2) = records e1 -> spares T s T1 s2).
  { intros s2 He2. eapply spares_trans; [exact Hp1|]. apply spares_refl. by rewrite He2, He1. }
  case_bool_decide; wp_line; [exists T1; auto|]. case_bool_decide; wp_line; [exists T1; auto|].
  eapply recordLeafMap_spec; [exact Hok2|by eexists|]. intros s2 Hok3 He2. wp_line. exists T1. split_and!; [done| |done]. apply Hp2. by rewrite He2.
Qed.

(** The tables of a new address space: the root alone. *)
Lemma pt_ok_init vs rt n e : n = PTNode_init L0 vs None None -> rt ∈ records e ->
  pt_ok {[ [] := rt ]} [] (AS {[ rt := n ]} rt vs e).
Proof.
  intros -> Hrt. split_and!; [split|by intros v ?%elem_of_nil|].
  - by rewrite lookup_singleton_eq.
  - intros π π' a [<- _]%lookup_singleton_Some [<- _]%lookup_singleton_Some. done.
  - intros π a [<- <-]%lookup_singleton_Some. eexists. cbn [ptnodes]. rewrite lookup_singleton_eq. split; [done|]. simpl. split_and!; try done; [lia|].
    intros i. by rewrite lookup_empty, lookup_singleton_ne.
  - intros i π [x Hx]. by apply lookup_singleton_Some in Hx as [? _].
  - intros π a [<- <-]%lookup_singleton_Some. done.
Qed.
End tables.

(** ** Runs *)

(** Requests to a process's page tables. *)
Inductive pt_op := Map (cap v rights attrs : Z) | Unmap (v : Z).
Fixpoint drop_one (v : Z) (L : list Z) : list Z :=
  match L with [] => [] | u :: L => if decide (u = v) then L else u :: drop_one v L end.
Lemma drop_one_perm v L : v ∈ L -> L ≡ₚ v :: drop_one v L.
Proof.
  induction L as [|u L IH]; [by intros ?%elem_of_nil|]. simpl. case_decide as Hu; [by subst|].
  intros [->|Hv]%elem_of_cons; [done|]. rewrite (IH Hv) at 1. by rewrite Permutation_swap.
Qed.
Lemma elements_split v (P : gset Z) : v ∈ P -> elements P ≡ₚ v :: elements (P ∖ {[v]}).
Proof.
  intros Hv. rewrite <- elements_union_singleton by set_solver. by rewrite <- union_difference_L by set_solver.
Qed.
Lemma pt_ok_perm {E : Type} `{PtEnvLaws E} T L L' (s : AddrSpace E) : L ≡ₚ L' -> pt_ok T L s -> pt_ok T L' s.
Proof.
  intros HP (Ht & HL & HA). split_and!; [|intros v; rewrite <- HP; apply HL|done]. eapply tables_ext; [|exact Ht].
  intros π _. unfold pages_below. by rewrite HP.
Qed.

Section runs.
Context {E : Type} `{!PtEnv E}.
(** A request, and the set of the pages that are mapped after it. *)
Definition pt_step (o : pt_op) (P : gset Z) : M (AddrSpace E) (gset Z) :=
  match o with
  | Map cap v rights attrs =>
    r ← map_owned_frame cap v rights attrs; mret (match r with inr _ => {[v]} ∪ P | inl _ => P end)
  | Unmap v => recordLeafUnmap v;; mret (P ∖ {[v]})
  end.
(** The operations do not check this, and the callers must see to it: a page is mapped
    when it is not, and unmapped when it is. *)
Definition fair (o : pt_op) (P : gset Z) : Prop := match o with Map _ v _ _ => v ∉ P | Unmap v => v ∈ P end.
(** Sequences of such requests, with the pages and the tables after each. *)
Inductive pt_run : gset Z * AddrSpace E -> gset Z * AddrSpace E -> Prop :=
| run_nil w : pt_run w w
| run_cons o P s w1 w : fair o P -> pt_step o P s = Ok w1 -> pt_run w1 w -> pt_run (P, s) w.

Lemma pt_step_spec `{!PtEnvLaws E} F o T P s :
  pt_ok T (elements P) s -> fair o P -> wpf F (pt_step o P) (fun P' s' => exists T', pt_ok T' (elements P') s') s.
Proof.
  intros Hok Hf. destruct o as [cap v rights attrs|v]; simpl in Hf; unfold pt_step.
  - wp_line. eapply wpf_mono; [by eapply map_owned_frame_spec|]. intros [e|[]] s1 (T1 & _ & _ & H1); wp_line; exists T1; [done|].
    eapply pt_ok_perm; [|exact H1]. by rewrite elements_union_singleton.
  - wp_line. assert (Hok' : pt_ok T (v :: elements (P ∖ {[v]})) s) by (eapply pt_ok_perm; [by apply elements_split|done]).
    eapply wpf_mono; [by eapply recordLeafUnmap_spec|]. intros [] s1 (T1 & _ & H1 & _). wp_line. by exists T1.
Qed.

(** C18: a process's page tables stay proper through any sequence of requests to map pages that are
    not mapped and to unmap pages that are: the records form the tree of the four levels with
    parents and children that agree, the number of pages kept in each table is the number of mapped
    pages below it, and the tables of every mapped page are there; and the next such request does
    not dereference a missing record. *)
Theorem page_tables_correct `{!PtEnvLaws E} (T : gmap path Z) (P P' : gset Z) (s s' : AddrSpace E) :
  pt_ok T (elements P) s -> pt_run (P, s) (P', s') ->
  (exists T', pt_ok T' (elements P') s') /\ forall o, fair o P' -> wp (pt_step o P') (fun _ _ => True) s'.
Proof.
  intros Hok Hrun. assert (H : exists T', pt_ok T' (elements P') s').
  { remember (P, s) as w eqn:Hw. remember (P', s') as w' eqn:Hw'. revert T P s Hok Hw.
    induction Hrun as [w|o P0 s0 [P1 s1] w Hf Hs _ IH]; intros T P s Hok Hw; [subst; by simplify_eq; eauto|]. injection Hw as -> ->.
    pose proof (pt_step_spec (fun _ => False) o T P s Hok Hf) as Hst. unfold wpf in Hst. rewrite Hs in Hst.
    destruct Hst as [T1 Hok1]. by eapply (IH Hw' T1 P1 s1). }
  split; [exact H|]. destruct H as [T' Hok']. intros o Hf. eapply wpf_mono; [by eapply pt_step_spec|done].
Qed.
End runs.

(** An environment in which every request succeeds: the records are the numbers up to the last one. *)
#[export] Instance pt_count : PtEnv positive := {
  cspace_alloc_slot e := (Zpos e, e);
  cspace_free_slot _ e := e;
  cspace_delete _ e := (0, e);
  ut_alloc _ e := (Some (Zpos e), e);
  ut_free _ e := e;
  untyped_retype _ _ _ _ e := (0, e);
  PageTable_Map _ _ _ _ e := (0, e);
  PageTable_Unmap _ e := e;
  Page_Map _ _ _ _ _ e := (0, e);
  Page_Unmap _ e := (0, e);
  MappingFailedLookupLevel _ := 0;
  create e := (Some (Zpos e), Pos.succ e);
  destroy _ e := e;
  put_child e := (true, e);
  pt_type _ := 0;
  pt_bits _ := 12;
}.
#[export] Program Instance pt_count_laws : PtEnvLaws positive := { records e := list_to_set (seqZ 1 (Zpos e - 1)) }.
Solve Obligations with (try done).
Next Obligation.
  intros e. cbn [create pt_count fst snd]. split; [rewrite elem_of_list_to_set, elem_of_seqZ; lia|].
  apply set_eq. intros x. rewrite elem_of_union, elem_of_singleton, !elem_of_list_to_set, !elem_of_seqZ. lia.
Qed.
Next Obligation. intros p e x. cbn [destroy pt_count]. set_solver. Qed.

(** A new address space: its root is the record 1. *)
Definition new_space : AddrSpace positive := AS {[ 1 := PTNode_init L0 7 None None ]} 1 7 2%positive.
Lemma new_space_ok : pt_ok {[ [] := 1 ]} (elements (∅ : gset Z)) new_space.
Proof. rewrite elements_empty. by apply pt_ok_init. Qed.
(** The pages and tables after some requests. *)
Fixpoint pt_exec (os : list pt_op) (w : gset Z * AddrSpace positive) : option (gset Z * AddrSpace positive) :=
  match os with
  | [] => Some w
  | o :: os => match pt_step o (fst w) (snd w) with Ok w1 => pt_exec os w1 | Fault _ => None end
  end.
Definition two_mapped : list pt_op := [Map 50 4096 3 0; Map 51 8192 3 0].

(** ... each of which is what the callers must see to. *)
Definition fairb (o : pt_op) (P : gset Z) : bool :=
  match o with Map _ v _ _ => negb (bool_decide (v ∈ P)) | Unmap v => bool_decide (v ∈ P) end.
Fixpoint all_fair (os : list pt_op) (w : gset Z * AddrSpace positive) : bool :=
  match os with
  | [] => true
  | o :: os => fairb o (fst w) && match pt_step o (fst w) (snd w) with Ok w1 => all_fair os w1 | Fault _ => false end
  end.
Lemma pt_exec_run os w w' : all_fair os w = true -> pt_exec os w = Some w' -> pt_run w w'.
Proof.
  revert w. induction os as [|o os IH]; intros [P s]; simpl; [intros _ [= <-]; apply run_nil|].
  intros [Hf Ha]%andb_true_iff He. destruct (pt_step o P s) as [w1|] eqn:Hs; [|done].
  eapply run_cons; [|exact Hs|by apply IH]. destruct o as [cap v r t|v]; simpl in Hf |- *.
  - apply negb_true_iff in Hf. by apply bool_decide_eq_false in Hf.
  - by apply bool_decide_eq_true in Hf.
Qed.

Lemma page_tables_correct_witness :
  exists P s', pt_run (∅, new_space) (P, s') /\ (exists T, pt_ok T (elements P) s') /\ elements P = [8192] /\ size (ptnodes s') = 4%nat.
Proof.
  destruct (pt_exec (two_mapped ++ [Unmap 4096]) (∅, new_space)) as [[P s']|] eqn:E; [|vm_compute in E; discriminate].
  assert (Hr : pt_run (∅, new_space) (P, s')) by (apply (pt_exec_run (two_mapped ++ [Unmap 4096])); [vm_compute; reflexivity|exact E]).
  exists P, s'. split; [exact Hr|]. destruct (page_tables_correct {[ [] := 1 ]} ∅ P new_space s' new_space_ok Hr) as [H _].
  split; [exact H|]. vm_compute in E. injection E as <- <-. split; vm_compute; reflexivity.
Defined.

(** Mapping a page again without unmapping it, as a write to a page that was mapped read-only does,
    counts it twice: its tables stay when it is unmapped. *)
Lemma remap_keeps_table :
  match pt_exec [Map 50 4096 2 0; Map 50 4096 3 0; Unmap 4096] (∅, new_space) with
  | Some (_, s) => value_of (walkPath 4096 s) = Some (Some (1, 2, 3, 4)) /\ size (ptnodes s) = 4%nat
  | None => False
  end.
Proof. by vm_compute. Qed.
(** Two pages under one table: unmapping the first twice removes the tables of the second, which is
    still mapped. *)
Lemma double_unmap_drops_table :
  match pt_exec (two_mapped ++ [Unmap 4096; Unmap 4096]) (∅, new_space) with
  | Some (P, s) => bool_decide (8192 ∈ P) = true /\ value_of (walkPath 8192 s) = Some None /\ size (ptnodes s) = 1%nat
  | None => False
  end.
Proof. by vm_compute. Qed.

(** Free slots and untyped memory are counted; no record can be allocated, and tables are mapped or not. *)
Definition pools (maps : bool) : PtEnv (Z * Z) := {|
  cspace_alloc_slot e := (e.1, (e.1 - 1, e.2));
  cspace_free_slot _ e := (e.1 + 1, e.2);
  cspace_delete _ e := (0, e);
  ut_alloc _ e := (Some e.2, (e.1, e.2 - 1));
  ut_free _ e := (e.1, e.2 + 1);
  untyped_retype _ _ _ _ e := (0, e);
  PageTable_Map _ _ _ _ e := (if maps then 0 else 1, e);
  PageTable_Unmap _ e := e;
  Page_Map _ _ _ _ _ e := (0, e);
  Page_Unmap _ e := (0, e);
  MappingFailedLookupLevel _ := 0;
  create e := (None, e);
  destroy _ e := e;
  put_child e := (true, e);
  pt_type _ := 0;
  pt_bits _ := 12;
|}.
(** A table that cannot be recorded keeps its slot and its memory, one that cannot be mapped its memory. *)
Lemma ensureChild_leaks : forall maps : bool,
  match @ensureChild _ (pools maps) 1 0 L1 0 (AS {[ 1 := PTNode_init L0 7 None None ]} 1 7 (10, 10)) with
  | Ok (inl _, s) => env s = if maps then (9, 9) else (10, 9)
  | _ => False
  end.
Proof. by intros []; vm_compute. Qed.
