(* ===== verification/Pages.v ===== *)
(** * Pages of processes and their eviction

    Models the page records of [sos/src/vm/page.zig], the parts of
    [sos/src/vm/client.zig] that map pages and keep their records, and the
    entry points of [sos/src/vm/mod.zig] that the frame table calls to evict a
    page: all processes share the environment, and each has its own page tables
    ([AddrSpace]), regions ([VmMmap]) and page records.

    Whether a transition between page states is checked depends on the build:
    [runtime_safety] is false in the build that [build.zig] configures. *)

From S2P Require Import Prelude WaitQueue VmRegion RegionMap VmMmap AddrSpace.

(** ** Page records *)

Inductive PageState := FREE | RESIDENT | PAGEOUT_PENDING | SWAPPED | PAGEIN_PENDING.
#[export] Instance PageState_eq_dec : EqDecision PageState.
Proof. solve_decision. Defined.

Definition isValidTransition (old new : PageState) : bool :=
  match old with
  | FREE => bool_decide (new = RESIDENT)
  | RESIDENT => bool_decide (new = PAGEOUT_PENDING) || bool_decide (new = FREE)
  | PAGEOUT_PENDING => bool_decide (new = SWAPPED) || bool_decide (new = RESIDENT) || bool_decide (new = FREE)
  | SWAPPED => bool_decide (new = PAGEIN_PENDING) || bool_decide (new = FREE)
  | PAGEIN_PENDING => bool_decide (new = RESIDENT) || bool_decide (new = FREE)
  end.

(** Where the region of a page is: in the client, or in its map of regions. *)
Inductive Tracker := HeapRegion | StackRegion | ElfRegion (n : nat) | MapRegion (p : Z).

Record MappedPage := Page {
  frame_ref : Z; page_cap : Z; cap_owner : option Z; owns_frame : bool; owns_cap : bool; region : option Tracker;
  state : PageState; dirty : bool; referenced : bool; temp_ro : bool; pagefile_slot : Z; waiters : WaitQueue.WaitQueue }.
Definition no_waiters : WaitQueue.WaitQueue := WQ None None 0.
Definition set_state (st : PageState) (p : MappedPage) : MappedPage :=
  Page (frame_ref p) (page_cap p) (cap_owner p) (owns_frame p) (owns_cap p) (region p) st (dirty p) (referenced p) (temp_ro p)
    (pagefile_slot p) (waiters p).
Definition set_region_of (r : option Tracker) (p : MappedPage) : MappedPage :=
  Page (frame_ref p) (page_cap p) (cap_owner p) (owns_frame p) (owns_cap p) r (state p) (dirty p) (referenced p) (temp_ro p)
    (pagefile_slot p) (waiters p).
(** [dirty = false; referenced = false; pagefile_slot = slot] *)
Definition clean (slot : Z) (p : MappedPage) : MappedPage :=
  Page (frame_ref p) (page_cap p) (cap_owner p) (owns_frame p) (owns_cap p) (region p) (state p) false false (temp_ro p) slot (waiters p).
Definition reset_waiters (p : MappedPage) : MappedPage :=
  Page (frame_ref p) (page_cap p) (cap_owner p) (owns_frame p) (owns_cap p) (region p) (state p) (dirty p) (referenced p) (temp_ro p)
    (pagefile_slot p) no_waiters.

Definition ENOENT : Z := 2.
Definition EBUSY : Z := 16.
Definition seL4_ARM_Default_VMAttributes : Z := 0x03.
Definition seL4_ARM_ExecuteNever : Z := 0x04.

(** What the frame table asks of the processes while it evicts frames: the frame and its slot in the page file. *)
Inductive PageoutCall := Prepare (frame slot : Z) | Finalise (frame slot : Z) | Abort (frame slot : Z).

(** The frame table, the capabilities and the growth of the table of page records.  While [alloc_frame]
    looks for a frame it may evict others: [next_call] is the next of its calls to the eviction entry
    points, none when it has a frame or gives up, and [call_done] takes the result of the call. *)
Class PageEnv (E : Type) `{PtEnv E} := {
  next_call : E -> option PageoutCall * E;
  call_done : Z -> E -> E;
  take_frame : E -> Z * E;
  free_frame : Z -> E -> E;
  frame_page : Z -> E -> Z;
  frame_clock_consider : Z -> E -> E;
  frame_bind_slot : Z -> Z -> E -> bool * E;
  frame_unbind_slot : Z -> E -> E;
  cspace_copy : Z -> Z -> E -> Z * E;
  owner_delete : Z -> Z -> E -> Z * E;
  owner_free_slot : Z -> Z -> E -> E;
  put_page : E -> bool * E;
  (* the server's own capability space *)
  cspace : Z;
  (* the order in which the records are visited *)
  page_order : gmap Z MappedPage -> list Z;
}.
Class PageEnvLaws (E : Type) `{PageEnv E} `{!PtEnvLaws E} := {
  next_call_keeps e : records (snd (next_call e)) = records e;
  take_frame_keeps e : records (snd (take_frame e)) = records e;
  free_frame_keeps p e : records (free_frame p e) = records e;
  frame_clock_consider_keeps p e : records (frame_clock_consider p e) = records e;
  frame_bind_slot_keeps p k e : records (snd (frame_bind_slot p k e)) = records e;
  frame_unbind_slot_keeps p e : records (frame_unbind_slot p e) = records e;
  cspace_copy_keeps p k e : records (snd (cspace_copy p k e)) = records e;
  owner_delete_keeps o p e : records (snd (owner_delete o p e)) = records e;
  owner_free_slot_keeps o p e : records (owner_free_slot o p e) = records e;
  Page_Unmap_keeps p e : records (snd (Page_Unmap p e)) = records e;
  put_page_keeps e : records (snd (put_page e)) = records e;
  page_order_all m : page_order m ≡ₚ (map_to_list m).*1;
}.

(** A process, and all of them. *)
Record Process := Proc {
  initialised : bool; tables_of : gmap Z PTNode; table_root : Z; table_cap : Z; pages : gmap Z MappedPage; mapped_count : Z;
  heap_mapped_end : Z; stack_low : Z; heap_region : Region; stack_region : Region; mm : VmMmap.Client unit }.
Record Vm (E : Type) := VmW { vm_states : list Process; venv : E }.
Arguments VmW {E}. Arguments vm_states {E}. Arguments venv {E}.

Definition set_pages (f : gmap Z MappedPage -> gmap Z MappedPage) (c : Process) : Process :=
  Proc (initialised c) (tables_of c) (table_root c) (table_cap c) (f (pages c)) (mapped_count c) (heap_mapped_end c) (stack_low c)
    (heap_region c) (stack_region c) (mm c).
Definition set_tables (t : gmap Z PTNode) (r v : Z) (c : Process) : Process :=
  Proc (initialised c) t r v (pages c) (mapped_count c) (heap_mapped_end c) (stack_low c) (heap_region c) (stack_region c) (mm c).
Definition set_mapped_count (n : Z) (c : Process) : Process :=
  Proc (initialised c) (tables_of c) (table_root c) (table_cap c) (pages c) n (heap_mapped_end c) (stack_low c)
    (heap_region c) (stack_region c) (mm c).
Definition set_ends (h l : Z) (c : Process) : Process :=
  Proc (initialised c) (tables_of c) (table_root c) (table_cap c) (pages c) (mapped_count c) h l (heap_region c) (stack_region c) (mm c).
Definition set_regions (h st : Region) (m : VmMmap.Client unit) (c : Process) : Process :=
  Proc (initialised c) (tables_of c) (table_root c) (table_cap c) (pages c) (mapped_count c) (heap_mapped_end c) (stack_low c) h st m.

(** The region that a page belongs to. *)
Definition region_at (t : Tracker) (c : Process) : option Region :=
  match t with
  | HeapRegion => Some (heap_region c)
  | StackRegion => Some (stack_region c)
  | ElfRegion n => VmMmap.elf_regions (mm c) !! n
  | MapRegion p => regs (VmMmap.regions (mm c)) !! p
  end.
Definition put_region (t : Tracker) (r : Region) (c : Process) : Process :=
  match t with
  | HeapRegion => set_regions r (stack_region c) (mm c) c
  | StackRegion => set_regions (heap_region c) r (mm c) c
  | ElfRegion n => let m := mm c in
    set_regions (heap_region c) (stack_region c)
      (Cl (heap_break m) (mmap_next m) (stack_guard m) (stack_top m) (active_mmaps m) (<[n := r]> (elf_regions m)) (elf_region_count m)
         (VmMmap.regions m) tt) c
  | MapRegion p => let m := mm c in
    set_regions (heap_region c) (stack_region c) (VmMmap.upd_regions (RMap (map (VmMmap.regions m)) (map_len (VmMmap.regions m))
      (<[p := r]> (regs (VmMmap.regions m)))) m) c
  end.

(** An error of the page tables, as one of the whole subsystem. *)
Definition vm_error (e : PtError) : VmMmap.VmError :=
  match e with
  | OutOfSlots => VmMmap.OutOfSlots | Capacity => VmMmap.Capacity | InvalidArgs => VmMmap.InvalidArgs | AlreadyMapped => VmMmap.AlreadyMapped
  | _ => VmMmap.MapFailed
  end.

Section pages.
Context (runtime_safety : bool) {E : Type} `{PageEnv E}.
Abbreviation PM := (M (Vm E)).

Definition in_venv {A} (f : E -> A * E) : PM A := fun w => let '(a, e) := f (venv w) in Ok (a, VmW (vm_states w) e).
Definition do_venv (f : E -> E) : PM unit := in_venv (fun e => (tt, f e)).
Definition process (i : nat) : PM Process := w ← get; access (vm_states w !! i).
Definition on_process (i : nat) (f : Process -> Process) : PM unit :=
  c ← process i; modify (fun w => VmW (<[i := f c]> (vm_states w)) (venv w)).
(** The page tables of a process, in the shared environment. *)
Definition on_space {A} (i : nat) (m : M (AddrSpace E) A) : PM A :=
  c ← process i;
  zoom (fun w => AS (tables_of c) (table_root c) (table_cap c) (venv w))
       (fun s w => VmW (<[i := set_tables (ptnodes s) (root s) (vspace s) c]> (vm_states w)) (env s)) m.
Definition on_mm {A} (i : nat) (m : M (VmMmap.Client unit) A) : PM A :=
  c ← process i;
  zoom (fun _ => mm c) (fun k w => VmW (<[i := set_regions (heap_region c) (stack_region c) k c]> (vm_states w)) (venv w)) m.
Definition page_at (i : nat) (v : Z) : PM MappedPage := c ← process i; access (pages c !! v).
Definition put_page_at (i : nat) (v : Z) (p : MappedPage) : PM unit := on_process i (set_pages <[v := p]>).
Definition region_of (i : nat) (t : Tracker) : PM Region := c ← process i; access (region_at t c).

Definition transitionState (i : nat) (v : Z) (new_state : PageState) : PM unit :=
  p ← page_at i v;
  (if runtime_safety then cassert (isValidTransition (state p) new_state) else mret tt);;
  put_page_at i v (set_state new_state p).

(** [MappedPage.release] *)
Definition release (i : nat) (v : Z) : PM unit :=
  p ← page_at i v;
  (match cap_owner p with
   | Some owner =>
     if bool_decide (page_cap p ≠ seL4_CapNull) && owns_cap p then
       in_venv (Page_Unmap (page_cap p));; in_venv (owner_delete owner (page_cap p));; do_venv (owner_free_slot owner (page_cap p))
     else mret tt
   | None => mret tt
   end);;
  (if owns_frame p && bool_decide (frame_ref p ≠ 0) then do_venv (free_frame (frame_ref p)) else mret tt);;
  put_page_at i v (Page (frame_ref p) (page_cap p) (cap_owner p) (owns_frame p) (owns_cap p) None FREE false false false (-1) no_waiters).

(** ** Records of a process *)

Definition findPage (i : nat) (v : Z) : PM (option MappedPage) := c ← process i; mret (pages c !! v).
Definition num_mapped (c : Process) : Z := Z.of_nat (size (pages c)).
Definition insertPage (i : nat) (v frame cap : Z) (owner : option Z) (own_frame own_cap : bool) : PM (option VmMmap.VmError) :=
  if own_cap && bool_decide (owner = None) then mret (Some VmMmap.InvalidArgs)
  else
    c ← process i;
    match pages c !! v with
    | Some p =>
      put_page_at i v (Page frame cap (match owner with Some _ => owner | None => cap_owner p end) (owns_frame p || own_frame)
        (owns_cap p || own_cap) (region p) (state p) (dirty p) (referenced p) (temp_ro p) (pagefile_slot p) (waiters p));;
      (if bool_decide (frame ≠ 0) then transitionState i v RESIDENT
       else if bool_decide (state p ≠ FREE) then transitionState i v FREE else mret tt);;
      q ← page_at i v;
      put_page_at i v (Page (frame_ref q) (page_cap q) (cap_owner q) (owns_frame q) (owns_cap q) (region q) (state q) false false false
        (-1) (waiters q));;
      mret None
    | None =>
      ok ← in_venv put_page;
      if (ok : bool) then
        put_page_at i v (Page frame cap owner own_frame own_cap None (if bool_decide (frame ≠ 0) then RESIDENT else FREE) false false false (-1)
          no_waiters);;
        on_process i (fun c => set_mapped_count (num_mapped c) c);;
        mret None
      else mret (Some VmMmap.Capacity)
    end.
Definition ensurePageRecord (i : nat) (v : Z) (tracker : option Tracker) : PM (option VmMmap.VmError) :=
  o ← findPage i v;
  match o with
  | Some p =>
    (if bool_decide (tracker ≠ None) && bool_decide (region p = None) then put_page_at i v (set_region_of tracker p) else mret tt);; mret None
  | None =>
    r ← insertPage i v 0 seL4_CapNull None false false;
    match r with
    | Some err => mret (Some err)
    | None =>
      p ← page_at i v;
      put_page_at i v (reset_waiters (clean (-1) (set_region_of tracker p)));; mret None
    end
  end.

(** ** Mapping pages *)

Definition attrs_for (executable : bool) : Z :=
  if executable then seL4_ARM_Default_VMAttributes else Z.lor seL4_ARM_Default_VMAttributes seL4_ARM_ExecuteNever.

(** After the frame is mapped. *)
Definition record_resident (i : nat) (v frame slot : Z) (tracker : Tracker) (readable writable executable : bool) : PM unit :=
  p ← page_at i v;
  put_page_at i v (Page frame slot (Some cspace) true true (region p) (state p) (dirty p) (referenced p) (temp_ro p) (pagefile_slot p) (waiters p));;
  transitionState i v RESIDENT;;
  p ← page_at i v;
  put_page_at i v (Page (frame_ref p) (page_cap p) (cap_owner p) (owns_frame p) (owns_cap p) (region p) (state p) false false false (-1) (waiters p));;
  on_process i (fun c => set_mapped_count (num_mapped c) c);;
  do_venv (frame_clock_consider frame);;
  r ← region_of i tracker;
  r ← updateAccess readable writable executable r;
  r ← recordMapping v PAGE_SIZE_4K r;
  on_process i (put_region tracker r);;
  on_process i (fun c =>
    match kind r with
    | Stack => if bool_decide (start r < stack_low c) then set_ends (heap_mapped_end c) (start r) c else c
    | Heap => if bool_decide (heap_mapped_end c < end_ r) then set_ends (end_ r) (stack_low c) c else c
    | _ => c
    end).
(** What [mapOwnedFrame] undoes when the page cannot be recorded. *)
Definition unmap_owned (i : nat) (v frame cap : Z) (own_frame own_cap : bool) : PM unit :=
  on_space i (recordLeafUnmap v);;
  in_venv (Page_Unmap cap);;
  (if own_cap then in_venv (cspace_delete cap);; do_venv (cspace_free_slot cap) else mret tt);;
  (if own_frame && bool_decide (frame ≠ 0) then do_venv (free_frame frame) else mret tt).
Definition mapOwnedFrame (i : nat) (v frame cap : Z) (readable writable executable own_frame own_cap : bool) : PM (option VmMmap.VmError) :=
  m ← on_space i (map_owned_frame cap v (rightsFromBooleans readable writable) (attrs_for executable));
  match m with
  | inl err => mret (Some (vm_error err))
  | inr _ =>
    r ← insertPage i v frame cap (Some cspace) own_frame own_cap;
    match r with
    | Some err => unmap_owned i v frame cap own_frame own_cap;; mret (Some err)
    | None =>
      p ← page_at i v;
      put_page_at i v (reset_waiters (clean (-1) (set_region_of None p)));;
      on_process i (fun c => set_mapped_count (num_mapped c) c);;
      do_venv (frame_clock_consider frame);;
      mret None
    end
  end.
(** The pages half of [releaseAllPages]. *)
Definition releaseAllPages (i : nat) : PM unit :=
  c ← process i;
  iterM (fun v => on_space i (recordLeafUnmap v);; release i v) (page_order (pages c));;
  on_process i (fun c => set_mapped_count 0 (set_pages (fun _ => ∅) c)).

(** ** Eviction *)

(** What the body of a loop over the pages of all processes does next. *)
Inductive flow := Return (rc : Z) | Next (done : bool) | Break (done : bool).
Fixpoint each_page (body : Z -> PM flow) (vs : list Z) (done : bool) : PM (Z + bool) :=
  match vs with
  | [] => mret (inr done)
  | v :: vs =>
    r ← body v;
    match r with
    | Return rc => mret (inl rc)
    | Next b => each_page body vs (done || b)
    | Break b => mret (inr (done || b))
    end
  end.
Fixpoint each_process (body : nat -> Z -> PM flow) (idx : list nat) (done : bool) : PM (Z + bool) :=
  match idx with
  | [] => mret (inr done)
  | i :: idx =>
    c ← process i;
    if initialised c then
      r ← each_page (body i) (page_order (pages c)) done;
      match r with inl rc => mret (inl rc) | inr done => each_process body idx done end
    else each_process body idx done
  end.
Definition all_pages (body : nat -> Z -> PM flow) : PM (Z + bool) :=
  w ← get; each_process body (seq 0 (length (vm_states w))) false.

(** The capability of a page is unmapped, and deleted when the record owns it: an error, or none. *)
Definition drop_cap (p : MappedPage) : PM bool :=
  err ← (if bool_decide (page_cap p ≠ seL4_CapNull) then in_venv (Page_Unmap (page_cap p)) else mret seL4_NoError);
  if bool_decide (err ≠ seL4_NoError) then mret false
  else
    match cap_owner p with
    | Some owner =>
      if owns_cap p then
        del_err ← in_venv (owner_delete owner (page_cap p));
        if bool_decide (del_err ≠ seL4_NoError) then mret false
        else do_venv (owner_free_slot owner (page_cap p));; mret true
      else mret true
    | None => mret true
    end.
Definition i32_slot (slot : Z) : PM Z := cassert (bool_decide (slot < 2 ^ 31));; mret slot.

Definition prepare_page (frame slot : Z) (i : nat) (v : Z) : PM flow :=
  p ← page_at i v;
  if bool_decide (frame_ref p ≠ frame) || bool_decide (state p ≠ RESIDENT) then mret (Next false)
  else
    transitionState i v PAGEOUT_PENDING;;
    ok ← drop_cap p;
    if negb ok then mret (Return (- EIO))
    else
      on_space i (recordLeafUnmap v);;
      s ← i32_slot slot;
      p ← page_at i v;
      put_page_at i v (Page (frame_ref p) seL4_CapNull None (owns_frame p) false (region p) (state p) false false (temp_ro p) s (waiters p));;
      mret (Next true).
Definition vm_pageout_prepare (frame slot : Z) : PM Z :=
  bound ← in_venv (frame_bind_slot frame slot);
  if negb bound then mret (- EBUSY)
  else
    r ← all_pages (prepare_page frame slot);
    match r with
    | inl rc => mret rc
    | inr false => do_venv (frame_unbind_slot frame);; mret (- ENOENT)
    | inr true => mret 0
    end.

Definition finalise_page (frame slot : Z) (i : nat) (v : Z) : PM flow :=
  p ← page_at i v;
  if bool_decide (frame_ref p ≠ frame) || (bool_decide (state p ≠ RESIDENT) && bool_decide (state p ≠ PAGEOUT_PENDING)) then mret (Next false)
  else
    let was_already_pending := bool_decide (state p = PAGEOUT_PENDING) in
    slot_i32 ← (if was_already_pending then i32_slot slot else mret 0);
    if was_already_pending && bool_decide (pagefile_slot p ≠ slot_i32) then mret (Return (- EINVAL))
    else if negb was_already_pending && bool_decide (0 ≤ pagefile_slot p) then mret (Return (- EBUSY))
    else
      transitionState i v PAGEOUT_PENDING;;
      ok ← drop_cap p;
      if negb ok then mret (Return (- EIO))
      else
        on_space i (recordLeafUnmap v);;
        s ← (if was_already_pending then mret (pagefile_slot p) else i32_slot slot);
        p ← page_at i v;
        put_page_at i v (Page (frame_ref p) seL4_CapNull None (owns_frame p) false (region p) (state p) false false (temp_ro p) s (waiters p));;
        transitionState i v SWAPPED;;
        p ← page_at i v;
        put_page_at i v (Page 0 (page_cap p) (cap_owner p) false (owns_cap p) (region p) (state p) (dirty p) (referenced p) (temp_ro p)
          (pagefile_slot p) (waiters p));;
        mret (Next true).
Definition vm_pageout_finalise (frame slot : Z) : PM Z :=
  r ← all_pages (finalise_page frame slot);
  match r with
  | inl rc => mret rc
  | inr false => mret (- ENOENT)
  | inr true => do_venv (free_frame frame);; do_venv (frame_unbind_slot frame);; mret 0
  end.

Definition abort_page (frame slot : Z) (i : nat) (v : Z) : PM flow :=
  p ← page_at i v;
  if bool_decide (frame_ref p ≠ frame) || bool_decide (state p ≠ PAGEOUT_PENDING) then mret (Next false)
  else
    slot_i32 ← i32_slot slot;
    if bool_decide (0 ≤ pagefile_slot p) && bool_decide (pagefile_slot p ≠ slot_i32) then mret (Next false)
    else
      flags ← match region p with
              | Some t => r ← region_of i t; prot r
              | None => mret (Z.lor PROT_READ PROT_WRITE)
              end;
      let readable := has flags PROT_READ || has flags PROT_EXEC in
      let writable := has flags PROT_WRITE in
      let executable := has flags PROT_EXEC in
      slot_cap ← in_venv cspace_alloc_slot;
      if bool_decide (slot_cap = seL4_CapNull) then do_venv (frame_unbind_slot frame);; mret (Return (- ENOMEM))
      else
        w ← get;
        err ← in_venv (cspace_copy slot_cap (frame_page frame (venv w)));
        if bool_decide (err ≠ seL4_NoError) then
          do_venv (cspace_free_slot slot_cap);; do_venv (frame_unbind_slot frame);; mret (Return (- EIO))
        else
          m ← mapOwnedFrame i v frame slot_cap readable writable executable true true;
          match m with
          | Some e =>
            in_venv (cspace_delete slot_cap);; do_venv (cspace_free_slot slot_cap);; do_venv (frame_unbind_slot frame);;
            mret (Return (- VmMmap.vmErrorToErrno e))
          | None =>
            p ← page_at i v;
            put_page_at i v (clean (-1) p);;
            do_venv (frame_unbind_slot frame);;
            mret (Break true)
          end.
Definition vm_pageout_abort (frame slot : Z) : PM Z :=
  r ← all_pages (abort_page frame slot);
  match r with
  | inl rc => mret rc
  | inr false => do_venv (frame_unbind_slot frame);; mret (- ENOENT)
  | inr true => mret 0
  end.

(** ** Pages on demand *)

Definition pageout_call (c : PageoutCall) : PM Z :=
  match c with
  | Prepare frame slot => vm_pageout_prepare frame slot
  | Finalise frame slot => vm_pageout_finalise frame slot
  | Abort frame slot => vm_pageout_abort frame slot
  end.
(** [alloc_frame] evicts until it has a frame or gives up.  It prepares at most 353 frames below the low
    watermark and twice 8 after that, and each is finalised or aborted once: [max_calls] is enough. *)
Fixpoint evict_frames (fuel : nat) : PM unit :=
  match fuel with
  | O => throw OutOfFuel
  | S fuel =>
    o ← in_venv next_call;
    match o with
    | None => mret tt
    | Some call => rc ← pageout_call call; do_venv (call_done rc);; evict_frames fuel
    end
  end.
Definition max_calls : nat := 2048.
Definition new_frame : PM Z := evict_frames max_calls;; in_venv take_frame.
(** A new frame is allocated and mapped for the page, which has a record. *)
Definition map_new_frame (i : nat) (v : Z) (tracker : Tracker) (readable writable executable : bool) : PM (option VmMmap.VmError) :=
  frame ← new_frame;
  if bool_decide (frame = 0) then mret (Some VmMmap.OutOfFrames)
  else
    slot ← in_venv cspace_alloc_slot;
    if bool_decide (slot = seL4_CapNull) then do_venv (free_frame frame);; mret (Some VmMmap.OutOfSlots)
    else
      w ← get;
      err ← in_venv (cspace_copy slot (frame_page frame (venv w)));
      if bool_decide (err ≠ seL4_NoError) then
        do_venv (cspace_free_slot slot);; do_venv (free_frame frame);; mret (Some VmMmap.MapFailed)
      else
        m ← on_space i (map_owned_frame slot v (rightsFromBooleans readable writable) (attrs_for executable));
        match m with
        | inl err =>
          in_venv (cspace_delete slot);; do_venv (cspace_free_slot slot);; do_venv (free_frame frame);; mret (Some (vm_error err))
        | inr _ => record_resident i v frame slot tracker readable writable executable;; mret None
        end.
(** The handle of the process has been validated. *)
Definition mapAnonymousPage (i : nat) (v : Z) (tracker : Tracker) : PM (option VmMmap.VmError) :=
  t ← region_of i tracker;
  if negb (used t) then mret (Some VmMmap.InvalidArgs)
  else
    legal ← on_mm i (VmMmap.isLegalUserMapping (pageBase v PAGE_SIZE_4K));
    if negb legal then mret (Some VmMmap.Bounds)
    else
      flags ← prot t;
      let readable := has flags PROT_READ in
      let writable := has flags PROT_WRITE in
      let executable := has flags PROT_EXEC in
      o ← findPage i v;
      if match o with Some p => bool_decide (state p = RESIDENT) | None => false end then mret None
      else
        r ← ensurePageRecord i v (Some tracker);
        match r with
        | Some err => mret (Some err)
        | None =>
          p ← page_at i v;
          put_page_at i v (set_region_of (Some tracker) p);;
          map_new_frame i v tracker readable writable executable
        end.
End pages.

(** ** Resident pages have their tables *)

Definition space_of {E : Type} (e : E) (c : Process) : AddrSpace E := AS (tables_of c) (table_root c) (table_cap c) e.
Definition upd {A} (f : nat -> A) (i : nat) (x : A) : nat -> A := fun j => if decide (j = i) then x else f j.

(** The page tables [Ts] and the pages counted in them, [Ls], of all processes. *)
Record vm_inv {E : Type} `{PtEnvLaws E} (Ts : nat -> gmap path Z) (Ls : nat -> list Z) (w : Vm E) : Prop := {
  vi_tables : forall i c, vm_states w !! i = Some c -> initialised c = true -> pt_ok (Ts i) (Ls i) (space_of (venv w) c);
  vi_resident : forall i c v p, vm_states w !! i = Some c -> initialised c = true -> pages c !! v = Some p -> state p = RESIDENT -> v ∈ Ls i;
  vi_apart : forall i j c d π π' a, vm_states w !! i = Some c -> vm_states w !! j = Some d -> initialised c = true -> initialised d = true ->
    Ts i !! π = Some a -> Ts j !! π' = Some a -> i = j;
}.
Definition vm_safe {E : Type} `{PtEnvLaws E} (w : Vm E) : Prop := exists Ts Ls, vm_inv Ts Ls w.

(** What the frame table sees of the processes: their page records. *)
Definition pview {E : Type} (w : Vm E) (j : nat) : option (bool * gmap Z MappedPage) := (fun c => (initialised c, pages c)) <$> vm_states w !! j.
(** A page with the frame that is resident is pending. *)
Definition evicted (frame slot : Z) (p : MappedPage) : MappedPage :=
  if decide (frame_ref p = frame /\ state p = RESIDENT) then
    Page (frame_ref p) seL4_CapNull None (owns_frame p) false (region p) PAGEOUT_PENDING false false (temp_ro p) slot (waiters p)
  else p.
Definition evicted_at (frame slot : Z) (vs : list Z) (m : gmap Z MappedPage) : gmap Z MappedPage :=
  map_imap (fun v p => Some (if decide (v ∈ vs) then evicted frame slot p else p)) m.
Lemma evicted_twice frame slot p : evicted frame slot (evicted frame slot p) = evicted frame slot p.
Proof.
  unfold evicted at 2 3. destruct (decide (frame_ref p = frame /\ state p = RESIDENT)) as [Hc|Hc]; unfold evicted; rewrite decide_False; try done.
  intros [_ Hst]. done.
Qed.
Lemma evicted_at_one frame slot v p m : m !! v = Some p -> evicted_at frame slot [v] m = <[v := evicted frame slot p]> m.
Proof.
  intros Hp. apply map_eq. intros u. unfold evicted_at. rewrite map_lookup_imap. destruct (decide (u = v)) as [->|Hu].
  - rewrite Hp, lookup_insert_eq. simpl. by rewrite decide_True by by apply list_elem_of_singleton.
  - rewrite lookup_insert_ne by done. destruct (m !! u); [|done]. simpl.
    by rewrite decide_False by by rewrite list_elem_of_singleton.
Qed.
Lemma evicted_at_cons frame slot v vs m : evicted_at frame slot vs (evicted_at frame slot [v] m) = evicted_at frame slot (v :: vs) m.
Proof.
  apply map_eq. intros u. unfold evicted_at. rewrite !map_lookup_imap. destruct (m !! u) as [p|]; [|done]. simpl. f_equal.
  destruct (decide (u ∈ [v])), (decide (u ∈ vs)), (decide (u ∈ v :: vs)); try done; try apply evicted_twice; exfalso; set_solver.
Qed.

Section safe.
Context (runtime_safety : bool) {E : Type} `{PageEnv E} `{!PtEnvLaws E} `{!PageEnvLaws E} (F : fault -> Prop).

Lemma wp_process i c (Q : Process -> Vm E -> Prop) w : vm_states w !! i = Some c -> Q c w -> wpf F (process i) Q w.
Proof. intros Hc HQ. unfold process. wp_line. by eapply wpf_access. Qed.
Lemma wp_on_process i f c (Q : unit -> Vm E -> Prop) w : vm_states w !! i = Some c ->
  Q tt (VmW (<[i := f c]> (vm_states w)) (venv w)) -> wpf F (on_process i f) Q w.
Proof. intros Hc HQ. unfold on_process. wp_line. eapply wp_process; [exact Hc|]. by wp_line. Qed.
Lemma wp_page_at i c v p (Q : MappedPage -> Vm E -> Prop) w : vm_states w !! i = Some c -> pages c !! v = Some p -> Q p w -> wpf F (page_at i v) Q w.
Proof. intros Hc Hp HQ. unfold page_at. wp_line. eapply wp_process; [exact Hc|]. by eapply wpf_access. Qed.
Lemma wp_in_venv {A} (f : E -> A * E) (Q : A -> Vm E -> Prop) w : Q (fst (f (venv w))) (VmW (vm_states w) (snd (f (venv w)))) -> wpf F (in_venv f) Q w.
Proof. unfold wpf, in_venv. by destruct (f (venv w)). Qed.
Lemma wp_venv {A} (f : E -> A * E) (Q : A -> Vm E -> Prop) w : (forall e, records (snd (f e)) = records e) ->
  (forall a e, records e = records (venv w) -> Q a (VmW (vm_states w) e)) -> wpf F (in_venv f) Q w.
Proof. intros Hf HQ. unfold wpf, in_venv. destruct (f (venv w)) as [a e] eqn:Ef. apply HQ. by rewrite <- (Hf (venv w)), Ef. Qed.
Lemma wp_venv_do (f : E -> E) (Q : unit -> Vm E -> Prop) w : (forall e, records (f e) = records e) ->
  (forall e, records e = records (venv w) -> Q tt (VmW (vm_states w) e)) -> wpf F (do_venv f) Q w.
Proof. intros Hf HQ. unfold do_venv. apply wp_venv; [done|]. intros []. apply HQ. Qed.

(** The environment may change, as long as the records in use are kept. *)
Lemma vm_inv_env Ts Ls (w : Vm E) e : records e = records (venv w) -> vm_inv Ts Ls w -> vm_inv Ts Ls (VmW (vm_states w) e).
Proof.
  intros He [H1 H2 H3]. split; try done. intros i c Hc Hi. eapply pt_ok_move; [by apply H1|done|done|]. cbn [env venv space_of]. by rewrite He.
Qed.
Lemma vm_safe_env (w : Vm E) e : records e = records (venv w) -> vm_safe w -> vm_safe (VmW (vm_states w) e).
Proof. intros He (Ts & Ls & Hw). exists Ts, Ls. by apply vm_inv_env. Qed.
(** The record of a process may change, when its resident pages are counted. *)
Lemma vm_inv_process Ts Ls (w : Vm E) i c c' : vm_inv Ts Ls w -> vm_states w !! i = Some c -> initialised c' = initialised c ->
  space_of (venv w) c' = space_of (venv w) c ->
  (initialised c = true -> forall v p, pages c' !! v = Some p -> state p = RESIDENT -> v ∈ Ls i) ->
  vm_inv Ts Ls (VmW (<[i := c']> (vm_states w)) (venv w)).
Proof.
  intros [H1 H2 H3] Hc Hi Hs Hres. assert (Hlt : (i < length (vm_states w))%nat) by by eapply lookup_lt_Some.
  split; cbn [vm_states venv].
  - intros j d [(<- & <- & _)|[_ Hd]]%list_lookup_insert_Some Hdi; [|by apply H1]. rewrite Hs. apply H1; [done|]. by rewrite <- Hi.
  - intros j d v p [(<- & <- & _)|[_ Hd]]%list_lookup_insert_Some Hdi Hp Hst; [|by eapply H2]. eapply Hres; try done. by rewrite <- Hi.
  - assert (Hback : forall j d, <[i := c']> (vm_states w) !! j = Some d -> initialised d = true -> exists d', vm_states w !! j = Some d' /\ initialised d' = true).
    { intros j d [(<- & <- & _)|[_ Hd]]%list_lookup_insert_Some Hdi; [exists c; by rewrite <- Hi|by exists d]. }
    intros j k d d' π π' a Hd Hd' Hdi Hdi' Ha Ha'. destruct (Hback _ _ Hd Hdi) as (x & Hx & Hxi). destruct (Hback _ _ Hd' Hdi') as (y & Hy & Hyi).
    by eapply (H3 j k x y).
Qed.
(** The page tables of a process change. *)
Lemma vm_inv_space Ts Ls (w : Vm E) i c T' L' s' : vm_inv Ts Ls w -> vm_states w !! i = Some c -> initialised c = true ->
  pt_ok T' L' s' -> spares (Ts i) (space_of (venv w) c) T' s' ->
  (forall v p, pages c !! v = Some p -> state p = RESIDENT -> v ∈ L') ->
  vm_inv (upd Ts i T') (upd Ls i L') (VmW (<[i := set_tables (ptnodes s') (root s') (vspace s') c]> (vm_states w)) (env s')).
Proof.
  intros [H1 H2 H3] Hc Hi Hok Hsp Hres. unfold upd.
  assert (Hother : forall j d a π, j ≠ i -> vm_states w !! j = Some d -> initialised d = true -> Ts j !! π = Some a ->
    a ∈ records (env s') /\ forall π', T' !! π' ≠ Some a).
  { intros j d a π Hj Hd Hdi Ha. apply Hsp; [by eapply (H1 j d Hd Hdi)|]. intros π' Ha'. apply Hj. by eapply (H3 j i d c). }
  split; cbn [vm_states venv].
  - intros j d [(<- & <- & _)|[Hne Hd]]%list_lookup_insert_Some Hdi; [rewrite !decide_True by done; by destruct s'|].
    rewrite !decide_False by done. destruct (H1 j d Hd Hdi) as (K1 & K2 & K3). split_and!; [by eapply tables_frame|done|].
    intros π a Ha. by eapply Hother.
  - intros j d v p [(<- & <- & _)|[Hne Hd]]%list_lookup_insert_Some Hdi Hp Hst; [rewrite decide_True by done; by eapply Hres|].
    rewrite decide_False by done. by eapply H2.
  - intros j k d d' π π' a [(<- & <- & _)|[Hne Hd]]%list_lookup_insert_Some [(<- & <- & _)|[Hne' Hd']]%list_lookup_insert_Some Hdi Hdi'; try done;
      repeat (case_decide; try done); intros Ha Ha'.
    + by destruct (proj2 (Hother k d' a π' ltac:(done) Hd' Hdi' Ha') π).
    + by destruct (proj2 (Hother j d a π ltac:(done) Hd Hdi Ha) π').
    + by eapply (H3 j k d d').
Qed.

(** ** Eviction *)

Lemma drop_cap_spec p (Q : bool -> Vm E -> Prop) w :
  (forall ok e, records e = records (venv w) -> Q ok (VmW (vm_states w) e)) -> wpf F (drop_cap p) Q w.
Proof.
  intros HQ. unfold drop_cap. wp_line. apply (wpf_mono _ _ (fun _ w1 => vm_states w1 = vm_states w /\ records (venv w1) = records (venv w))).
  { case_bool_decide; [|by wp_line]. apply wp_venv; [apply Page_Unmap_keeps|]. done. }
  intros err [st e1] [Hst He1]. cbn [vm_states venv] in *. subst st. case_bool_decide; [wp_line; by apply HQ|].
  destruct (cap_owner p) as [o|]; [|wp_line; by apply HQ]. destruct (owns_cap p); [|wp_line; by apply HQ]. wp_line.
  apply wp_venv; [intros; apply owner_delete_keeps|]. intros de e2 He2. cbn [vm_states venv] in *. case_bool_decide; wp_line; [apply HQ; congruence|].
  apply wp_venv_do; [intros; apply owner_free_slot_keeps|]. intros e3 He3. wp_line. cbn [vm_states venv] in *. apply HQ. congruence.
Qed.
Lemma transitionState_spec i c v p st (Q : unit -> Vm E -> Prop) w : vm_states w !! i = Some c -> pages c !! v = Some p ->
  (runtime_safety = true -> isValidTransition (state p) st = true) ->
  Q tt (VmW (<[i := set_pages <[v := set_state st p]> c]> (vm_states w)) (venv w)) -> wpf F (transitionState runtime_safety i v st) Q w.
Proof.
  intros Hc Hp Hv HQ. unfold transitionState. wp_line. eapply wp_page_at; [exact Hc|exact Hp|]. wp_line.
  destruct runtime_safety; [apply wpf_assert; [by apply Hv|]|wp_line]; unfold put_page_at; by eapply wp_on_process.
Qed.
(** A page that is not resident any more is taken out of its tables. *)
Lemma unmap_leaf_spec Ts Ls i c v (Q : unit -> Vm E -> Prop) w : vm_inv Ts Ls w -> vm_states w !! i = Some c -> initialised c = true ->
  v ∈ Ls i -> (forall p, pages c !! v = Some p -> state p ≠ RESIDENT) ->
  (forall t r x e, vm_safe (VmW (<[i := set_tables t r x c]> (vm_states w)) e) -> Q tt (VmW (<[i := set_tables t r x c]> (vm_states w)) e)) ->
  wpf F (on_space i (recordLeafUnmap v)) Q w.
Proof.
  intros Hw Hc Hi Hv Hnr HQ. unfold on_space. wp_line. eapply wp_process; [exact Hc|]. apply wpf_zoom. fold (space_of (venv w) c).
  assert (Hok : pt_ok (Ts i) (v :: drop_one v (Ls i)) (space_of (venv w) c)) by (eapply pt_ok_perm; [by apply drop_one_perm|by eapply vi_tables]).
  eapply wpf_mono; [by eapply recordLeafUnmap_spec|]. intros [] s' (T' & _ & Hok' & Hsp). apply HQ. eexists _, _.
  eapply vm_inv_space; [exact Hw|exact Hc|done|exact Hok'|exact Hsp|]. intros u p Hp Hst.
  pose proof (vi_resident _ _ _ Hw _ _ _ _ Hc Hi Hp Hst) as Hu. rewrite (drop_one_perm _ _ Hv) in Hu.
  apply elem_of_cons in Hu as [->|Hu]; [by destruct (Hnr p)|done].
Qed.

(** One page of the loop of [vm_pageout_prepare]. *)
Definition touched (frame slot : Z) (i : nat) (vs : list Z) (w w' : Vm E) : Prop :=
  forall j, pview w' j = if decide (j = i) then (fun x => (fst x, evicted_at frame slot vs (snd x))) <$> pview w j else pview w j.
Definition has_frame (frame : Z) (p : MappedPage) : bool := bool_decide (frame_ref p = frame /\ state p = RESIDENT).

Lemma touched_one frame slot i c c' v p w e : vm_states w !! i = Some c -> pages c !! v = Some p -> initialised c' = initialised c ->
  pages c' = <[v := evicted frame slot p]> (pages c) -> touched frame slot i [v] w (VmW (<[i := c']> (vm_states w)) e).
Proof.
  intros Hc Hp Hi Hps j. unfold pview. cbn [vm_states]. destruct (decide (j = i)) as [->|Hj].
  - rewrite list_lookup_insert_eq by by eapply lookup_lt_Some. rewrite Hc. simpl. rewrite Hi, Hps. by erewrite evicted_at_one.
  - by rewrite list_lookup_insert_ne by done.
Qed.

Lemma prepare_page_spec frame slot i c v p w : vm_safe w -> vm_states w !! i = Some c -> initialised c = true -> pages c !! v = Some p -> slot < 2 ^ 31 ->
  wpf F (prepare_page runtime_safety frame slot i v) (fun r w' => vm_safe w' /\
    match r with Next b => b = has_frame frame p /\ touched frame slot i [v] w w' | Return rc => rc = - EIO | Break _ => False end) w.
Proof.
  intros (Ts & Ls & Hw) Hc Hi Hp Hs. unfold prepare_page. wp_line. eapply wp_page_at; [exact Hc|exact Hp|].
  destruct (decide (frame_ref p = frame /\ state p = RESIDENT)) as [Hyes|Hno].
  2: { assert (bool_decide (frame_ref p ≠ frame) || bool_decide (state p ≠ RESIDENT) = true) as ->.
    { apply orb_true_iff. rewrite !bool_decide_eq_true. destruct (decide (frame_ref p = frame)); [right|left]; tauto. }
    wp_line. split; [by exists Ts, Ls|]. split; [unfold has_frame; by rewrite bool_decide_false|].
    pose proof (touched_one frame slot i c c v p w (venv w) Hc Hp eq_refl) as Ht. rewrite list_insert_id in Ht by done. destruct w. apply Ht.
    unfold evicted. rewrite decide_False by done. symmetry. by apply insert_id. }
  destruct Hyes as [Hf Hst]. rewrite !bool_decide_false by tauto. cbn [orb]. wp_line.
  eapply transitionState_spec; [exact Hc|exact Hp|by rewrite Hst|]. set (c1 := set_pages _ c).
  assert (Hlt : (i < length (vm_states w))%nat) by by eapply lookup_lt_Some.
  assert (Hw1 : vm_inv Ts Ls (VmW (<[i := c1]> (vm_states w)) (venv w))).
  { eapply vm_inv_process; try done. intros _ u q Hq Hres. unfold c1 in Hq. cbn [set_pages pages] in Hq.
    apply lookup_insert_Some in Hq as [[<- <-]|[_ Hq]]; [done|]. by eapply vi_resident. }
  wp_line. apply drop_cap_spec. intros ok e2 He2. cbn [vm_states venv] in *.
  apply (vm_inv_env _ _ _ e2) in Hw1; [|done]. cbn [vm_states] in Hw1. destruct ok; cbn [negb]; [|wp_line; split; [by exists Ts, Ls|done]]. wp_line.
  eapply (unmap_leaf_spec Ts Ls i c1); [exact Hw1|cbn [vm_states]; by rewrite list_lookup_insert_eq|done|by eapply (vi_resident _ _ _ Hw)| |].
  { intros q. unfold c1. simpl. rewrite lookup_insert_eq. by intros [= <-]. }
  intros t r x e3 (Ts3 & Ls3 & Hw3). cbn [vm_states] in *. rewrite list_insert_insert_eq in *. wp_line. unfold i32_slot. wp_line.
  apply wpf_assert; [by apply bool_decide_eq_true|]. wp_line.
  eapply wp_page_at; [cbn [vm_states]; by rewrite list_lookup_insert_eq|unfold c1; simpl; by rewrite lookup_insert_eq|]. wp_line.
  eapply wp_on_process; [cbn [vm_states]; by rewrite list_lookup_insert_eq|]. wp_line. split.
  - exists Ts3, Ls3. eapply (vm_inv_process Ts3 Ls3 _ i (set_tables t r x c1)); try done; [cbn [vm_states]; by rewrite list_lookup_insert_eq|].
    intros _ u q Hq Hres. cbn [set_pages pages] in Hq. apply lookup_insert_Some in Hq as [[<- <-]|[_ Hq]]; [done|].
    eapply vi_resident; [exact Hw3|cbn [vm_states]; by rewrite list_lookup_insert_eq|done|exact Hq|done].
  - split; [unfold has_frame; by rewrite bool_decide_true|]. cbn [vm_states venv]. rewrite list_insert_insert_eq.
    eapply touched_one; [exact Hc|exact Hp|done|]. simpl. rewrite insert_insert_eq. f_equal. unfold evicted. by rewrite decide_True.
Qed.

(** The loops over the pages of a process and over the processes. *)
Definition evict_all (frame slot : Z) (x : bool * gmap Z MappedPage) : bool * gmap Z MappedPage :=
  (fst x, if fst x then evicted frame slot <$> snd x else snd x).
Definition holder (frame : Z) (m : gmap Z MappedPage) (v : Z) : Prop := exists p, m !! v = Some p /\ has_frame frame p = true.

Lemma holder_evicted frame slot v m u : holder frame (evicted_at frame slot [v] m) u <-> u ≠ v /\ holder frame m u.
Proof.
  unfold holder, evicted_at. setoid_rewrite map_lookup_imap. destruct (m !! u) as [p|] eqn:Hm; simpl; [|naive_solver].
  destruct (decide (u ∈ [v])) as [Hu|Hu]; rewrite list_elem_of_singleton in Hu; [|naive_solver].
  split; [|naive_solver]. intros (q & [= <-] & Hq). exfalso. unfold has_frame in Hq. apply bool_decide_eq_true in Hq as [Hf Hst].
  unfold evicted in Hf, Hst. destruct (decide (frame_ref p = frame /\ state p = RESIDENT)); [done|tauto].
Qed.
Lemma each_page_spec frame slot i vs : slot < 2 ^ 31 -> forall m w done, vm_safe w -> pview w i = Some (true, m) ->
  (forall v, v ∈ vs -> is_Some (m !! v)) ->
  wpf F (each_page (prepare_page runtime_safety frame slot i) vs done) (fun r w' => vm_safe w' /\
    match r with
    | inl rc => rc = - EIO
    | inr b => touched frame slot i vs w w' /\ (b = true <-> done = true \/ exists v, v ∈ vs /\ holder frame m v)
    end) w.
Proof.
  intros Hs. induction vs as [|v vs IH]; intros m w done Hw Hm Hin; cbn [each_page].
  { wp_line. split_and!; [done| |set_solver]. intros j. case_decide; [|done]. subst j. rewrite Hm. simpl. do 2 f_equal.
    symmetry. apply map_eq. intros u. unfold evicted_at. rewrite map_lookup_imap. by destruct (m !! u). }
  assert (Hpc : exists c, vm_states w !! i = Some c /\ initialised c = true /\ pages c = m).
  { unfold pview in Hm. destruct (vm_states w !! i) as [c|]; simplify_eq/=. eauto. }
  destruct Hpc as (c & Hc & Hi & Hpg). destruct (Hin v) as [p Hp]; [set_solver|]. wp_line.
  eapply wpf_mono; [eapply prepare_page_spec; [done|exact Hc|done|by rewrite Hpg|done]|].
  intros [rc|b|b] w1 (Hw1 & Hr); [wp_line; done| |done]. destruct Hr as [Hb Ht].
  assert (Hm1 : pview w1 i = Some (true, evicted_at frame slot [v] m)) by (rewrite (Ht i), decide_True, Hm by done; done).
  eapply wpf_mono; [eapply (IH (evicted_at frame slot [v] m)); [done|exact Hm1|]|].
  { intros u Hu. unfold evicted_at. rewrite map_lookup_imap. destruct (Hin u) as [q ->]; [set_solver|]. simpl. eauto. }
  intros [rc|b'] w2 (Hw2 & Hr); [done|]. destruct Hr as [Ht2 Hb']. split_and!; [done| |].
  - intros j. rewrite (Ht2 j), (Ht j). case_decide; [|done]. destruct (pview w j) as [[b0 m0]|]; [|done]. simpl. by rewrite evicted_at_cons.
  - rewrite Hb', orb_true_iff. subst b. setoid_rewrite holder_evicted. setoid_rewrite elem_of_cons.
    assert (Hh : holder frame m v <-> has_frame frame p = true) by (unfold holder; rewrite Hp; naive_solver).
    split; [intros [[?|?]|(u & Hu & _ & ?)]; [by left|right; exists v; by rewrite Hh; auto|right; eauto]|].
    intros [?|(u & Hu & Hhu)]; [auto|]. destruct (decide (u = v)) as [->|Hne]; [left; right; by apply Hh|]. right. exists u.
    destruct Hu as [?|?]; done.
Qed.
Lemma each_process_spec frame slot idx : slot < 2 ^ 31 -> forall w done, vm_safe w -> (forall i, i ∈ idx -> is_Some (vm_states w !! i)) -> NoDup idx ->
  wpf F (each_process (prepare_page runtime_safety frame slot) idx done) (fun r w' => vm_safe w' /\
    match r with
    | inl rc => rc = - EIO
    | inr b => (forall j, pview w' j = if decide (j ∈ idx) then evict_all frame slot <$> pview w j else pview w j) /\
        (b = true <-> done = true \/ exists i m v, i ∈ idx /\ pview w i = Some (true, m) /\ holder frame m v)
    end) w.
Proof.
  intros Hs. induction idx as [|i idx IH]; intros w done Hw Hin Hnd; cbn [each_process].
  { wp_line. split_and!; [done|done|]. set_solver. }
  apply NoDup_cons in Hnd as [Hni Hnd]. destruct (Hin i) as [c Hc]; [set_solver|]. wp_line. eapply wp_process; [exact Hc|].
  assert (Hpi : pview w i = Some (initialised c, pages c)) by (unfold pview; by rewrite Hc).
  destruct (initialised c) eqn:Hi.
  - wp_line. eapply wpf_mono; [eapply each_page_spec; [done|done|exact Hpi|]|].
    { intros v. rewrite page_order_all. intros ([u q] & -> & Hq)%list_elem_of_fmap. apply elem_of_map_to_list in Hq. eauto. }
    intros [rc|b] w1 (Hw1 & Hr); [wp_line; done|]. destruct Hr as [Ht Hb].
    assert (Hsame : forall j, j ∈ idx -> pview w1 j = pview w j).
    { intros j Hj. rewrite (Ht j). by rewrite decide_False by (intros ->; done). }
    eapply wpf_mono; [apply IH; [done| |done]|].
    { intros j Hj. destruct (Hin j) as [d Hd]; [set_solver|]. specialize (Hsame j Hj). unfold pview in Hsame. rewrite Hd in Hsame.
      destruct (vm_states w1 !! j); [eauto|done]. }
    intros [rc|b'] w2 (Hw2 & Hr); [done|]. destruct Hr as [Hv2 Hb']. split_and!; [done| |].
    + intros j. rewrite (Hv2 j), (Ht j). destruct (decide (j = i)) as [->|Hj].
      * rewrite decide_False by done. rewrite decide_True by set_solver. rewrite Hpi. simpl. unfold evict_all. simpl. do 2 f_equal.
        apply map_eq. intros u. unfold evicted_at. rewrite map_lookup_imap, lookup_fmap. destruct (pages c !! u) eqn:Hu; [|done]. simpl.
        rewrite decide_True; [done|]. rewrite page_order_all. apply list_elem_of_fmap. exists (u, m). by rewrite elem_of_map_to_list.
      * destruct (decide (j ∈ idx)); destruct (decide (j ∈ i :: idx)); try done; set_solver.
    + rewrite Hb', Hb. split.
      * intros [[?|(v & _ & Hv)]|(j & m & v & Hj & Hm & Hv)]; [by left|right; exists i, (pages c), v; set_solver|].
        right. exists j, m, v. rewrite <- (Hsame j Hj). set_solver.
      * intros [?|(j & m & v & Hj & Hm & Hv)]; [auto|]. apply elem_of_cons in Hj as [->|Hj].
        -- left. right. rewrite Hpi in Hm. simplify_eq. exists v. split; [|done]. rewrite page_order_all. apply list_elem_of_fmap.
           destruct Hv as (p & Hp & _). exists (v, p). by rewrite elem_of_map_to_list.
        -- right. exists j, m, v. by rewrite (Hsame j Hj).
  - eapply wpf_mono; [apply IH; [done|intros j Hj; apply Hin; set_solver|done]|]. intros [rc|b] w' (Hw' & Hr); [done|]. destruct Hr as [Hv Hb].
    split_and!; [done| |].
    + intros j. rewrite (Hv j). destruct (decide (j = i)) as [->|Hj].
      * rewrite decide_False by done. rewrite decide_True by set_solver. by rewrite Hpi.
      * destruct (decide (j ∈ idx)); destruct (decide (j ∈ i :: idx)); try done; set_solver.
    + rewrite Hb. split; [intros [?|(j & m & v & Hj & ?)]; [by left|right; exists j, m, v; set_solver]|].
      intros [?|(j & m & v & Hj & Hm & ?)]; [by left|right]. apply elem_of_cons in Hj as [->|Hj]; [congruence|by exists j, m, v].
Qed.

(** ** Mapping *)

(** The page is in its tables, or an error has left the tables proper. *)
Lemma map_leaf_spec Ts Ls i c cap v rights attrs (Q : PtError + unit -> Vm E -> Prop) w : vm_inv Ts Ls w -> vm_states w !! i = Some c ->
  initialised c = true ->
  (forall r t rt x e Ts' Ls', vm_inv Ts' Ls' (VmW (<[i := set_tables t rt x c]> (vm_states w)) e) -> (forall u, u ∈ Ls i -> u ∈ Ls' i) ->
     (match r with inr _ => v ∈ Ls' i | inl _ => True end) -> Q r (VmW (<[i := set_tables t rt x c]> (vm_states w)) e)) ->
  wpf F (on_space i (map_owned_frame cap v rights attrs)) Q w.
Proof.
  intros Hw Hc Hi HQ. unfold on_space. wp_line. eapply wp_process; [exact Hc|]. apply wpf_zoom. fold (space_of (venv w) c).
  eapply wpf_mono; [by eapply map_owned_frame_spec, vi_tables|]. intros r s' (T' & _ & Hsp & Hr).
  assert (Hres : forall u p, pages c !! u = Some p -> state p = RESIDENT -> u ∈ Ls i) by (intros; by eapply vi_resident).
  destruct r as [e|[]].
  - eapply HQ; [eapply vm_inv_space; [exact Hw|exact Hc|done|exact Hr|exact Hsp|exact Hres]|unfold upd; by rewrite decide_True by done|done].
  - eapply HQ; [eapply vm_inv_space; [exact Hw|exact Hc|done|exact Hr|exact Hsp|]|..]; unfold upd; rewrite ?decide_True by done; set_solver.
Qed.

(** The record is written, or the table of records could not grow. *)
Lemma insertPage_spec i c v frame cap owner own_frame own_cap (Q : option VmMmap.VmError -> Vm E -> Prop) w : vm_states w !! i = Some c ->
  (own_cap = true -> owner ≠ None) -> frame ≠ 0 ->
  (runtime_safety = true -> forall p, pages c !! v = Some p -> isValidTransition (state p) RESIDENT = true) ->
  (forall e, pages c !! v = None -> records e = records (venv w) -> Q (Some VmMmap.Capacity) (VmW (vm_states w) e)) ->
  (forall p n e, records e = records (venv w) -> state p = RESIDENT -> frame_ref p = frame -> page_cap p = cap -> pagefile_slot p = -1 ->
     Q None (VmW (<[i := set_mapped_count n (set_pages <[v := p]> c)]> (vm_states w)) e)) ->
  wpf F (insertPage runtime_safety i v frame cap owner own_frame own_cap) Q w.
Proof.
  intros Hc Ho Hf Hv HQ1 HQ2. assert (Hlt : (i < length (vm_states w))%nat) by by eapply lookup_lt_Some. unfold insertPage.
  assert (own_cap && bool_decide (owner = None) = false) as ->.
  { destruct own_cap; [|done]. apply bool_decide_false. by apply Ho. }
  wp_line. eapply wp_process; [exact Hc|]. destruct (pages c !! v) as [p|] eqn:Hp.
  - unfold put_page_at. wp_line. eapply wp_on_process; [exact Hc|]. rewrite bool_decide_true by done. wp_line.
    eapply transitionState_spec; [cbn [vm_states]; by rewrite list_lookup_insert_eq|cbn [set_pages pages]; by rewrite lookup_insert_eq|..].
    { intros Hs. cbn [state]. by apply Hv. }
    cbn [vm_states venv]. rewrite list_insert_insert_eq. wp_line.
    eapply wp_page_at; [cbn [vm_states]; by rewrite list_lookup_insert_eq|cbn [set_pages pages]; by rewrite lookup_insert_eq|]. wp_line.
    eapply wp_on_process; [cbn [vm_states]; by rewrite list_lookup_insert_eq|]. cbn [vm_states venv]. rewrite list_insert_insert_eq. wp_line.
    unfold set_pages at 1. cbn. rewrite !insert_insert_eq.
    refine (HQ2 (Page frame cap _ _ _ (region p) RESIDENT false false false (-1) (waiters p)) (mapped_count c) (venv w) _ _ _ _ _); done.
  - wp_line. apply wp_venv; [apply put_page_keeps|]. intros ok e He. destruct ok; [|wp_line; by apply HQ1]. unfold put_page_at. wp_line.
    eapply wp_on_process; [exact Hc|]. wp_line. eapply wp_on_process; [cbn [vm_states]; by rewrite list_lookup_insert_eq|].
    cbn [vm_states venv]. rewrite list_insert_insert_eq. wp_line. apply HQ2; try done. cbn [state]. by rewrite bool_decide_true.
Qed.

Lemma pview_insert i c (w : Vm E) c' (e : E) : vm_states w !! i = Some c ->
  forall j, pview (VmW (<[i := c']> (vm_states w)) e) j = if decide (j = i) then Some (initialised c', pages c') else pview w j.
Proof.
  intros Hc j. unfold pview. cbn [vm_states]. case_decide as Hj; [subst j; by rewrite list_lookup_insert_eq by by eapply lookup_lt_Some|].
  by rewrite list_lookup_insert_ne by done.
Qed.
(** The record of a counted page is written. *)
Lemma vm_inv_resident Ts Ls (w : Vm E) i c v p n : vm_inv Ts Ls w -> vm_states w !! i = Some c -> v ∈ Ls i ->
  vm_inv Ts Ls (VmW (<[i := set_mapped_count n (set_pages <[v := p]> c)]> (vm_states w)) (venv w)).
Proof.
  intros Hw Hc Hv. eapply vm_inv_process; [done|exact Hc|done|done|]. intros Hi u q Hq Hres. cbn [set_mapped_count set_pages pages] in Hq.
  apply lookup_insert_Some in Hq as [[<- _]|[_ Hq]]; [done|by eapply vi_resident].
Qed.

Lemma unmap_owned_spec Ts Ls i c v frame cap own_frame own_cap (Q : unit -> Vm E -> Prop) w : vm_inv Ts Ls w -> vm_states w !! i = Some c ->
  initialised c = true -> v ∈ Ls i -> pages c !! v = None ->
  (forall t r x e, vm_safe (VmW (<[i := set_tables t r x c]> (vm_states w)) e) -> Q tt (VmW (<[i := set_tables t r x c]> (vm_states w)) e)) ->
  wpf F (unmap_owned i v frame cap own_frame own_cap) Q w.
Proof.
  intros Hw Hc Hi Hv Hnone HQ. unfold unmap_owned. wp_line. eapply unmap_leaf_spec; [exact Hw|exact Hc|done|done|intros p Hp; congruence|].
  intros t r x e3 Hw3. wp_line. apply wp_venv; [apply Page_Unmap_keeps|]. intros ue e4 He4. wp_line. cbn [vm_states venv] in *.
  set (st := <[i := set_tables t r x c]> (vm_states w)) in *.
  apply (wpf_mono _ _ (fun _ w5 => vm_states w5 = st /\ records (venv w5) = records e4)).
  { destruct own_cap; [|by wp_line]. wp_line. apply wp_venv; [apply cspace_delete_keeps|]. intros de e5 He5. wp_line.
    apply wp_venv_do; [apply cspace_free_slot_keeps|]. intros e6 He6. cbn in *. split; [done|congruence]. }
  intros [] [st5 e5] [Hst5 He5]. cbn [vm_states venv] in *. subst st5. destruct (own_frame && bool_decide (frame ≠ 0)); wp_line.
  - apply wp_venv_do; [apply free_frame_keeps|]. intros e6 He6. cbn [vm_states venv] in *. apply HQ.
    apply (vm_safe_env (VmW st e3) e6); [cbn [venv]; congruence|done].
  - apply HQ. apply (vm_safe_env (VmW st e3) e5); [cbn [venv]; congruence|done].
Qed.
Lemma mapOwnedFrame_spec i c v frame cap r wr x own_frame own_cap w : vm_safe w -> vm_states w !! i = Some c -> initialised c = true -> frame ≠ 0 ->
  (runtime_safety = true -> forall p, pages c !! v = Some p -> isValidTransition (state p) RESIDENT = true) ->
  wpf F (mapOwnedFrame runtime_safety i v frame cap r wr x own_frame own_cap) (fun res w' => vm_safe w' /\
    match res with
    | None => exists p, state p = RESIDENT /\ frame_ref p = frame /\ page_cap p = cap /\ pagefile_slot p = -1 /\
        forall j, pview w' j = if decide (j = i) then Some (true, <[v := p]> (pages c)) else pview w j
    | Some _ => forall j, pview w' j = pview w j
    end) w.
Proof.
  intros (Ts & Ls & Hw) Hc Hi Hf Hval. assert (Hlt : (i < length (vm_states w))%nat) by by eapply lookup_lt_Some.
  assert (Hpi : pview w i = Some (true, pages c)) by (unfold pview; by rewrite Hc, <- Hi).
  assert (Hself : forall c' (e : E) j, initialised c' = true -> pages c' = pages c -> pview (VmW (<[i := c']> (vm_states w)) e) j = pview w j).
  { intros c' e j Hi' Hp'. rewrite (pview_insert _ _ _ _ _ Hc). case_decide; [|done]. subst. by rewrite Hi', Hp', Hpi. }
  unfold mapOwnedFrame. wp_line. eapply map_leaf_spec; [exact Hw|exact Hc|done|]. intros [err|[]] t rt y e1 Ts1 Ls1 Hw1 Hsub Hv1.
  { wp_line. split; [by exists Ts1, Ls1|]. intros j. by apply Hself. }
  set (c1 := set_tables t rt y c) in *. assert (Hc1 : vm_states (VmW (<[i := c1]> (vm_states w)) e1) !! i = Some c1) by (cbn [vm_states]; by rewrite list_lookup_insert_eq).
  wp_line. eapply insertPage_spec; [exact Hc1|done|done|exact Hval|..].
  - intros e2 Hnone He2. cbn [vm_states venv] in *. apply (vm_inv_env _ _ _ e2) in Hw1; [|done]. cbn [vm_states] in Hw1. wp_line.
    eapply unmap_owned_spec; [exact Hw1|exact Hc1|done|done|done|]. intros t3 r3 x3 e3 Hw3. cbn [vm_states] in *.
    rewrite list_insert_insert_eq in *. wp_line. split; [done|]. intros j. by apply Hself.
  - intros p n e2 He2 Hst Hfr Hcap Hslot. cbn [vm_states venv] in *. rewrite list_insert_insert_eq. wp_line.
    eapply wp_page_at; [cbn [vm_states]; by rewrite list_lookup_insert_eq|cbn; by rewrite lookup_insert_eq|]. unfold put_page_at. wp_line.
    eapply wp_on_process; [cbn [vm_states]; by rewrite list_lookup_insert_eq|]. cbn [vm_states venv]. rewrite list_insert_insert_eq. wp_line.
    eapply wp_on_process; [cbn [vm_states]; by rewrite list_lookup_insert_eq|]. cbn [vm_states venv]. rewrite list_insert_insert_eq. wp_line.
    apply wp_venv_do; [apply frame_clock_consider_keeps|]. intros e3 He3. wp_line. cbn [vm_states venv] in *.
    set (p' := reset_waiters _). set (n' := num_mapped _).
    assert (Hps : pages (set_mapped_count n' (set_pages <[v:=p']> (set_mapped_count n (set_pages <[v:=p]> c1)))) = <[v := p']> (pages c)).
    { cbn. by rewrite insert_insert_eq. }
    split; [|exists p'; split_and!; try done; intros j; rewrite (pview_insert _ _ _ _ _ Hc); case_decide; [by rewrite Hps; cbn; rewrite Hi|done]].
    exists Ts1, Ls1. apply (vm_inv_env _ _ _ e3) in Hw1; [|cbn [venv]; congruence].
    pose proof (vm_inv_resident _ _ _ i c1 v p' n' Hw1 Hc1 Hv1) as Hfin. cbn [vm_states venv] in Hfin. rewrite list_insert_insert_eq in Hfin.
    eapply eq_rect; [exact Hfin|]. do 2 f_equal. unfold set_mapped_count, set_pages. cbn. by rewrite insert_insert_eq.
Qed.

(** ** Pages on demand *)

Lemma updateAccess_total r wr x reg (Q : Region -> Vm E -> Prop) w : 0 ≤ data reg < 2 ^ 31 -> (forall reg', Q reg' w) -> wpf F (updateAccess r wr x reg) Q w.
Proof.
  intros Hd HQ. unfold updateAccess. assert (Hf : 0 ≤ encodeProtFlags r wr x < 8) by (destruct r, wr, x; by vm_compute).
  destruct (mapped reg); cbn [negb]; wp_line; [|apply protToData_spec; [lia|]; by wp_line].
  apply wp_to_i32; [lia|]. wp_line. apply protToData_spec; [apply lor_below; lia|]. by wp_line.
Qed.
Lemma recordMapping_total v ps reg (Q : Region -> Vm E -> Prop) w : 0 ≤ v -> 0 < ps -> v + ps < 2 ^ 64 -> (forall reg', Q reg' w) -> wpf F (recordMapping v ps reg) Q w.
Proof. intros ? ? ? HQ. apply recordMapping_spec; auto. Qed.

(** Two records of a process that differ in neither the tables nor the pages. *)
Definition alike (c c' : Process) : Prop := initialised c' = initialised c /\ pages c' = pages c /\ space_of tt c' = space_of tt c.
Lemma put_region_alike t r c : alike c (put_region t r c).
Proof. by destruct t. Qed.
Lemma vm_inv_alike Ts Ls (w : Vm E) i c c' : vm_inv Ts Ls w -> vm_states w !! i = Some c -> alike c c' ->
  vm_inv Ts Ls (VmW (<[i := c']> (vm_states w)) (venv w)).
Proof.
  intros Hw Hc (Hi & Hp & Hs). eapply vm_inv_process; [done|exact Hc|done|by unfold space_of in *; simplify_eq/=; congruence|].
  intros Hic v p. rewrite Hp. intros. by eapply vi_resident.
Qed.

Lemma record_resident_spec Ts Ls i c v p t frame slot tracker r wr x (Q : unit -> Vm E -> Prop) w : vm_inv Ts Ls w -> vm_states w !! i = Some c ->
  v ∈ Ls i -> pages c !! v = Some p -> (runtime_safety = true -> isValidTransition (state p) RESIDENT = true) ->
  region_at tracker c = Some t -> 0 ≤ data t < 2 ^ 31 -> 0 ≤ v -> v + PAGE_SIZE_4K < 2 ^ 64 ->
  (forall c' p' e, vm_inv Ts Ls (VmW (<[i := c']> (vm_states w)) e) -> initialised c' = initialised c -> pages c' = <[v := p']> (pages c) ->
     state p' = RESIDENT -> Q tt (VmW (<[i := c']> (vm_states w)) e)) ->
  wpf F (record_resident runtime_safety i v frame slot tracker r wr x) Q w.
Proof.
  intros Hw Hc Hv Hp Hval Ht Hd Hv0 Hv1 HQ. assert (Hlt : (i < length (vm_states w))%nat) by by eapply lookup_lt_Some.
  unfold record_resident, put_page_at. wp_line. eapply wp_page_at; [exact Hc|exact Hp|]. wp_line. eapply wp_on_process; [exact Hc|]. wp_line.
  eapply transitionState_spec; [cbn [vm_states]; by rewrite list_lookup_insert_eq|cbn [set_pages pages]; by rewrite lookup_insert_eq|exact Hval|].
  cbn [vm_states venv]. rewrite list_insert_insert_eq. wp_line.
  eapply wp_page_at; [cbn [vm_states]; by rewrite list_lookup_insert_eq|cbn [set_pages pages]; by rewrite lookup_insert_eq|]. wp_line.
  eapply wp_on_process; [cbn [vm_states]; by rewrite list_lookup_insert_eq|]. cbn [vm_states venv]. rewrite list_insert_insert_eq. wp_line.
  eapply wp_on_process; [cbn [vm_states]; by rewrite list_lookup_insert_eq|]. cbn [vm_states venv]. rewrite list_insert_insert_eq. wp_line.
  apply wp_venv_do; [apply frame_clock_consider_keeps|]. intros e1 He1. cbn [vm_states venv] in *. wp_line.
  set (c1 := set_mapped_count _ _). set (p1 := Page _ _ _ _ _ _ _ false false false (-1) _) in c1.
  assert (Hps : pages c1 = <[v := p1]> (pages c)) by (unfold c1; cbn; by rewrite !insert_insert_eq).
  assert (Hr1 : region_at tracker c1 = Some t) by (rewrite <- Ht; by destruct tracker).
  assert (Hw1 : vm_inv Ts Ls (VmW (<[i := c1]> (vm_states w)) e1)).
  { apply (vm_inv_env _ _ (VmW (<[i := c1]> (vm_states w)) (venv w))); [done|]. eapply vm_inv_process; [exact Hw|exact Hc|done|done|].
    intros Hi u q. rewrite Hps. intros [[<- _]|[_ Hq]]%lookup_insert_Some Hres; [done|by eapply vi_resident]. }
  unfold region_of. wp_line. eapply wp_process; [cbn [vm_states]; by rewrite list_lookup_insert_eq|]. eapply wpf_access; [exact Hr1|]. wp_line.
  apply updateAccess_total; [done|]. intros t2. wp_line. apply recordMapping_total; [done|done|done|]. intros t3. wp_line.
  eapply wp_on_process; [cbn [vm_states]; by rewrite list_lookup_insert_eq|]. cbn [vm_states venv]. rewrite list_insert_insert_eq.
  eapply wp_on_process; [cbn [vm_states]; by rewrite list_lookup_insert_eq|]. cbn [vm_states venv]. rewrite list_insert_insert_eq.
  set (c3 := match kind t3 with Stack => _ | _ => _ end).
  assert (Ha : alike c1 c3).
  { destruct (put_region_alike tracker t3 c1) as (A1 & A2 & A3). unfold c3. destruct (kind t3); try case_bool_decide; by split_and!. }
  apply (HQ c3 p1); [|by destruct Ha as (-> & _)|by destruct Ha as (_ & -> & _)|done].
  pose proof (vm_inv_alike _ _ _ i c1 c3 Hw1 ltac:(cbn [vm_states]; by rewrite list_lookup_insert_eq) Ha) as Hfin.
  cbn [vm_states venv] in Hfin. by rewrite list_insert_insert_eq in Hfin.
Qed.

(** The record of a page that is not resident. *)
Lemma ensurePageRecord_spec Ts Ls i c v t (Q : option VmMmap.VmError -> Vm E -> Prop) w : vm_inv Ts Ls w -> vm_states w !! i = Some c ->
  (forall p, pages c !! v = Some p -> state p ≠ RESIDENT) ->
  (forall err e, vm_inv Ts Ls (VmW (vm_states w) e) -> Q (Some err) (VmW (vm_states w) e)) ->
  (forall c' p e, vm_inv Ts Ls (VmW (<[i := c']> (vm_states w)) e) -> initialised c' = initialised c -> pages c' = <[v := p]> (pages c) ->
     (forall tr, region_at tr c' = region_at tr c) -> state p = match pages c !! v with Some q => state q | None => FREE end ->
     e = venv w \/ e = snd (put_page (venv w)) -> Q None (VmW (<[i := c']> (vm_states w)) e)) ->
  wpf F (ensurePageRecord runtime_safety i v (Some t)) Q w.
Proof.
  intros Hw Hc Hnr HQ1 HQ2. assert (Hlt : (i < length (vm_states w))%nat) by by eapply lookup_lt_Some.
  assert (Hput : forall c' p, pages c' = <[v := p]> (pages c) -> space_of (venv w) c' = space_of (venv w) c -> initialised c' = initialised c ->
    state p ≠ RESIDENT -> vm_inv Ts Ls (VmW (<[i := c']> (vm_states w)) (venv w))).
  { intros c' p Hps Hsp Hi Hst. eapply vm_inv_process; [done|exact Hc|done|done|]. intros Hic u q. rewrite Hps.
    intros [[<- <-]|[_ Hq]]%lookup_insert_Some Hres; [done|by eapply vi_resident]. }
  unfold ensurePageRecord, findPage. wp_line. eapply wp_process; [exact Hc|]. wp_line. destruct (pages c !! v) as [p|] eqn:Hp.
  - specialize (Hnr p eq_refl). destruct (decide (region p = None)) as [Hr|Hr].
    + rewrite !bool_decide_true by done. cbn [andb]. unfold put_page_at. wp_line. eapply wp_on_process; [exact Hc|]. wp_line.
      apply (HQ2 _ (set_region_of (Some t) p)); first [done|by intros []|by left|by eapply Hput].
    + rewrite (bool_decide_false (region p = None)) by done. rewrite andb_false_r. wp_line.
      assert (Hid : VmW (<[i := c]> (vm_states w)) (venv w) = w) by (rewrite list_insert_id by done; by destruct w).
      rewrite <- Hid. apply (HQ2 c p); try done; [by rewrite Hid|by rewrite insert_id|by left].
  - unfold insertPage. cbn [andb]. wp_line. eapply wp_process; [exact Hc|]. rewrite Hp. wp_line. apply wp_in_venv.
    pose proof (put_page_keeps (venv w)) as He1. destruct (put_page (venv w)) as [ok e1]. cbn [fst snd] in *. destruct ok; [|wp_line; apply HQ1; by apply vm_inv_env]. unfold put_page_at. wp_line. eapply wp_on_process; [exact Hc|].
    wp_line. eapply wp_on_process; [cbn [vm_states]; by rewrite list_lookup_insert_eq|]. cbn [vm_states venv]. rewrite list_insert_insert_eq. wp_line.
    eapply wp_page_at; [cbn [vm_states]; by rewrite list_lookup_insert_eq|cbn; by rewrite lookup_insert_eq|]. wp_line.
    eapply wp_on_process; [cbn [vm_states]; by rewrite list_lookup_insert_eq|]. cbn [vm_states venv]. rewrite list_insert_insert_eq. wp_line.
    set (p1 := reset_waiters _). set (c1 := set_pages _ _).
    assert (Hps : pages c1 = <[v := p1]> (pages c)) by (unfold c1; cbn; by rewrite insert_insert_eq).
    apply (HQ2 c1 p1); first [done|by intros []|by right|idtac]. apply (vm_inv_env _ _ (VmW (<[i := c1]> (vm_states w)) (venv w))); [done|]. by eapply Hput.
Qed.

(** The frame table has a frame to give, or gives up, without evicting one. *)
Definition no_eviction (e : E) : Prop := fst (next_call e) = None.
Lemma new_frame_spec (Q : Z -> Vm E -> Prop) w : no_eviction (venv w) ->
  (forall a e, records e = records (venv w) -> Q a (VmW (vm_states w) e)) -> wpf F (new_frame runtime_safety) Q w.
Proof.
  intros Hn HQ. unfold new_frame. change max_calls with (S 2047). cbn [evict_frames]. wp_line. apply wp_in_venv. rewrite Hn. wp_line.
  apply wp_venv; [apply take_frame_keeps|]. intros a e He. cbn [vm_states venv] in *. apply HQ. by rewrite He, next_call_keeps.
Qed.
Lemma map_new_frame_spec i c v p t tracker r wr x w : vm_safe w -> no_eviction (venv w) -> vm_states w !! i = Some c -> initialised c = true -> pages c !! v = Some p ->
  (runtime_safety = true -> isValidTransition (state p) RESIDENT = true) ->
  region_at tracker c = Some t -> 0 ≤ data t < 2 ^ 31 -> 0 ≤ v -> v + PAGE_SIZE_4K < 2 ^ 64 ->
  wpf F (map_new_frame runtime_safety i v tracker r wr x) (fun res w' => vm_safe w' /\ exists c', vm_states w' = <[i := c']> (vm_states w) /\
    initialised c' = true /\ match res with None => exists p', pages c' = <[v := p']> (pages c) /\ state p' = RESIDENT | Some _ => pages c' = pages c end) w.
Proof.
  intros Hw Hn Hc Hi Hp Hval Ht Hd Hv0 Hv1. assert (Hlt : (i < length (vm_states w))%nat) by by eapply lookup_lt_Some.
  assert (Hearly : forall e, records e = records (venv w) -> vm_safe (VmW (vm_states w) e) /\
    exists c', vm_states (VmW (vm_states w) e) = <[i := c']> (vm_states w) /\ initialised c' = true /\ pages c' = pages c).
  { intros e He. split; [by apply vm_safe_env|]. exists c. cbn [vm_states]. by rewrite list_insert_id. }
  unfold map_new_frame. wp_line. apply new_frame_spec; [done|]. intros frame e1 He1. case_bool_decide; [wp_line; by apply Hearly|]. wp_line.
  apply wp_venv; [apply cspace_alloc_slot_keeps|]. intros slot e2 He2. cbn [vm_states venv] in *. case_bool_decide.
  { wp_line. apply wp_venv_do; [apply free_frame_keeps|]. intros e3 He3. wp_line. cbn [vm_states venv] in *. apply Hearly. congruence. }
  wp_line. apply wp_venv; [apply cspace_copy_keeps|]. intros err e3 He3. cbn [vm_states venv] in *. case_bool_decide.
  { wp_line. apply wp_venv_do; [apply cspace_free_slot_keeps|]. intros e4 He4. wp_line. apply wp_venv_do; [apply free_frame_keeps|].
    intros e5 He5. wp_line. cbn [vm_states venv] in *. apply Hearly. congruence. }
  wp_line. destruct Hw as (Ts & Ls & Hw). apply (vm_inv_env _ _ _ e3) in Hw; [|congruence].
  eapply map_leaf_spec; [exact Hw|exact Hc|done|]. intros [me|[]] tb rt y e4 Ts4 Ls4 Hw4 Hsub Hv; cbn [vm_states venv] in *; wp_line.
  - apply wp_venv; [apply cspace_delete_keeps|]. intros de e5 He5. wp_line. apply wp_venv_do; [apply cspace_free_slot_keeps|]. intros e6 He6. wp_line.
    apply wp_venv_do; [apply free_frame_keeps|]. intros e7 He7. wp_line. cbn [vm_states venv] in *.
    split; [|by eexists]. exists Ts4, Ls4. apply (vm_inv_env _ _ (VmW _ e4)); [cbn; congruence|done].
  - eapply record_resident_spec; [exact Hw4|cbn [vm_states]; by rewrite list_lookup_insert_eq|done|exact Hp|done| |done|done|done|].
    { rewrite <- Ht. by destruct tracker. }
    intros c' p' e' Hw' Hi' Hp' Hst. cbn [vm_states] in *. rewrite list_insert_insert_eq in *. wp_line. split; [by exists Ts4, Ls4|].
    exists c'. split_and!; [done|by rewrite Hi'|]. exists p'. done.
Qed.
(** What a process is after the page at [v] was asked for. *)
Definition asked (i : nat) (c : Process) (v : Z) (w : Vm E) (res : option VmMmap.VmError) (w' : Vm E) : Prop := vm_safe w' /\
  exists c', vm_states w' = <[i := c']> (vm_states w) /\ initialised c' = true /\ (forall u, u ≠ v -> pages c' !! u = pages c !! u) /\
    match res with
    | None => exists p, pages c' !! v = Some p /\ state p = RESIDENT
    | Some _ => forall p, pages c' !! v = Some p -> state p = RESIDENT -> pages c !! v = Some p
    end.
(** ... when it has a record in [c1]. *)
Lemma fill_page_spec Ts Ls i c c1 v p1 t tracker r wr x e1 w : vm_inv Ts Ls w -> no_eviction e1 -> vm_states w !! i = Some c -> initialised c = true ->
  vm_inv Ts Ls (VmW (<[i := c1]> (vm_states w)) e1) -> initialised c1 = initialised c -> pages c1 = <[v := p1]> (pages c) ->
  state p1 ≠ RESIDENT -> (runtime_safety = true -> state p1 ≠ SWAPPED) ->
  region_at tracker c1 = Some t -> 0 ≤ data t < 2 ^ 31 -> 0 ≤ v -> v + PAGE_SIZE_4K < 2 ^ 64 ->
  wpf F (p ← page_at i v; put_page_at i v (set_region_of (Some tracker) p);; map_new_frame runtime_safety i v tracker r wr x)
    (asked i c v w) (VmW (<[i := c1]> (vm_states w)) e1).
Proof.
  intros Hw Hn Hc Hi Hw1 Hi1 Hp1 Hnr1 Hval Ht Hd Hv0 Hv1. assert (Hlt : (i < length (vm_states w))%nat) by by eapply lookup_lt_Some. wp_line.
  eapply wp_page_at; [cbn [vm_states]; by rewrite list_lookup_insert_eq|by rewrite Hp1, lookup_insert_eq|]. unfold put_page_at. wp_line.
  eapply wp_on_process; [cbn [vm_states]; by rewrite list_lookup_insert_eq|]. cbn [vm_states venv]. rewrite list_insert_insert_eq.
  set (p2 := set_region_of _ _). set (c2 := set_pages _ c1).
  assert (Hp2 : pages c2 = <[v := p2]> (pages c)) by (unfold c2; cbn; by rewrite Hp1, insert_insert_eq).
  assert (Hw2 : vm_inv Ts Ls (VmW (<[i := c2]> (vm_states w)) e1)).
  { pose proof (vm_inv_process Ts Ls _ i c1 c2 Hw1 ltac:(cbn [vm_states]; by rewrite list_lookup_insert_eq) eq_refl eq_refl) as Hx.
    cbn [vm_states venv] in Hx. rewrite list_insert_insert_eq in Hx. apply Hx. intros Hi' u q. rewrite Hp2.
    intros [[<- <-]|[_ Hq]]%lookup_insert_Some Hqr; [done|by eapply (vi_resident _ _ _ Hw)]. }
  eapply wpf_mono; [eapply (map_new_frame_spec i c2 v p2 t); try done|].
  - by exists Ts, Ls.
  - cbn [vm_states]. by rewrite list_lookup_insert_eq.
  - cbn. by rewrite Hi1.
  - by rewrite Hp2, lookup_insert_eq.
  - intros Hs. cbn [p2 set_region_of state]. specialize (Hval Hs). by destruct (state p1).
  - intros res w3 (Hw3 & c3 & Hst3 & Hi3 & Hp3). cbn [vm_states] in Hst3. rewrite list_insert_insert_eq in Hst3. split; [done|]. exists c3.
    split; [done|]. split; [done|]. destruct res as [err|].
    + split; [intros u Hu; by rewrite Hp3, Hp2, lookup_insert_ne|]. intros q. rewrite Hp3, Hp2, lookup_insert_eq. by intros [= <-].
    + destruct Hp3 as (p3 & Hp3 & Hst3'). split; [intros u Hu; by rewrite Hp3, Hp2, !lookup_insert_ne|]. exists p3. by rewrite Hp3, lookup_insert_eq.
Qed.

Lemma mapAnonymousPage_spec i c v tracker t (w : Vm E) :
  vm_safe w -> no_eviction (venv w) -> no_eviction (snd (put_page (venv w))) ->
  vm_states w !! i = Some c -> initialised c = true -> region_at tracker c = Some t -> 0 ≤ data t < 2 ^ 31 ->
  0 ≤ v -> v + PAGE_SIZE_4K < 2 ^ 64 -> wpf F (VmMmap.isLegalUserMapping (pageBase v PAGE_SIZE_4K)) (fun _ k => k = mm c) (mm c) ->
  (runtime_safety = true -> forall p, pages c !! v = Some p -> state p ≠ SWAPPED) ->
  wpf F (mapAnonymousPage runtime_safety i v tracker) (asked i c v w) w.
Proof.
  intros Hw Hn Hn' Hc Hi Ht Hd Hv0 Hv1 Hlegal Hval. assert (Hlt : (i < length (vm_states w))%nat) by by eapply lookup_lt_Some.
  assert (Hid : VmW (<[i := c]> (vm_states w)) (venv w) = w) by (rewrite list_insert_id by done; by destruct w).
  assert (Hst : vm_states w = <[i := c]> (vm_states w)) by by rewrite list_insert_id.
  unfold mapAnonymousPage, region_of. wp_line. eapply wp_process; [exact Hc|]. eapply wpf_access; [exact Ht|].
  destruct (used t); cbn [negb]; [|wp_line; split; [done|by exists c]]. unfold on_mm. wp_line. eapply wp_process; [exact Hc|]. apply wpf_zoom.
  eapply wpf_mono; [exact Hlegal|]. intros legal k ->. assert (set_regions (heap_region c) (stack_region c) (mm c) c = c) as -> by by destruct c.
  rewrite Hid. destruct legal; cbn [negb]; [|wp_line; split; [done|by exists c]]. unfold prot, dataToProt. wp_line. apply wp_to_i32; [lia|].
  unfold findPage. wp_line. eapply wp_process; [exact Hc|]. wp_line.
  destruct (match pages c !! v with Some p => bool_decide (state p = RESIDENT) | None => false end) eqn:Hres.
  { wp_line. split; [done|]. exists c. split_and!; try done. destruct (pages c !! v) as [p|]; [|done]. apply bool_decide_eq_true in Hres. eauto. }
  assert (Hnr : forall p, pages c !! v = Some p -> state p ≠ RESIDENT) by (intros p Hp; rewrite Hp in Hres; by apply bool_decide_eq_false in Hres).
  destruct Hw as (Ts & Ls & Hw). wp_line. eapply ensurePageRecord_spec; [exact Hw|exact Hc|exact Hnr|..].
  { intros err e He. wp_line. split; [by exists Ts, Ls|]. by exists c. }
  intros c1 p1 e1 Hw1 Hi1 Hp1 Hr1 Hst1 He1. eapply fill_page_spec; try done; [| | |by rewrite Hr1].
  - by destruct He1 as [->| ->].
  - rewrite Hst1. destruct (pages c !! v) as [q|] eqn:Hq; [by apply Hnr|done].
  - intros Hs. rewrite Hst1. destruct (pages c !! v) as [q|] eqn:Hq; [by apply Hval|done].
Qed.
End safe.

(** C19: preparing to evict a frame either fails before it has changed a page record, or stops at an
    error of the kernel, or makes every resident page of every process that has the frame pending,
    with the slot in the page file and without its capability, and changes no other page record;
    it reports that there was none exactly when there was none.  In all cases the resident pages
    of all processes keep their page tables. *)
Theorem vm_pageout_prepare_correct (runtime_safety : bool) {E} `{PageEnvLaws E} (frame slot : Z) (w : Vm E) : vm_safe w -> 0 ≤ slot < 2 ^ 31 ->
  wp (vm_pageout_prepare runtime_safety frame slot) (fun rc w' => vm_safe w' /\
    ((rc = - EBUSY /\ forall j, pview w' j = pview w j) \/ rc = - EIO \/
     (forall j, pview w' j = evict_all frame slot <$> pview w j) /\
     (rc = 0 /\ (exists i m v, pview w i = Some (true, m) /\ holder frame m v) \/
      rc = - ENOENT /\ forall i m v, pview w i = Some (true, m) -> ~ holder frame m v))) w.
Proof.
  intros Hw Hs. unfold vm_pageout_prepare. wp_line. apply wp_venv; [intros; apply frame_bind_slot_keeps|]. intros bound e1 He1.
  apply (vm_safe_env _ e1) in Hw; [|done]. destruct bound; cbn [negb]; [|wp_line; split; [done|by left]]. wp_line. unfold all_pages. wp_line.
  eapply wpf_mono; [apply each_process_spec; [apply _|lia|done| |apply NoDup_seq]|].
  { intros i Hi%elem_of_seq. apply lookup_lt_is_Some_2. cbn [vm_states] in *. lia. }
  assert (Hseq : forall (w0 : Vm E) j x, pview w0 j = Some x -> j ∈ seq 0 (length (vm_states w0))).
  { intros w0 j x Hx. apply elem_of_seq. unfold pview in Hx. destruct (vm_states w0 !! j) eqn:Hj; [|done]. apply lookup_lt_Some in Hj. lia. }
  intros [rc|b] w2 (Hw2 & Hr); [wp_line; subst; auto|]. destruct Hr as [Hv Hb].
  assert (Hv' : forall j, pview w2 j = evict_all frame slot <$> pview w j).
  { intros j. rewrite (Hv j). change (pview (VmW (vm_states w) e1) j) with (pview w j). case_decide as Hd; [done|].
    destruct (pview w j) eqn:Hj; [|done]. destruct Hd. by eapply (Hseq (VmW (vm_states w) e1)). }
  change (forall j, pview (VmW (vm_states w) e1) j = pview w j) with (forall j, pview w j = pview w j) in *.
  destruct b.
  - wp_line. split; [done|]. right. right. split; [done|]. left. split; [done|]. destruct (proj1 Hb eq_refl) as [?|(i & m & v & _ & Hm & Hh)]; [done|].
    by exists i, m, v.
  - wp_line. apply wp_venv_do; [intros; apply frame_unbind_slot_keeps|]. intros e3 He3. wp_line. split; [by apply vm_safe_env|]. right. right.
    split; [exact Hv'|]. right. split; [done|]. intros i m v Hm Hh. assert (false = true) by (apply Hb; right; exists i, m, v; split; [by eapply (Hseq (VmW (vm_states w) e1))|done]).
    done.
Qed.

(** C20: mapping a page on demand, when the frame table does not evict a frame to serve it, never goes
    wrong and keeps the page tables of all resident pages: on success the page is resident, on an
    error no page has become resident, and neither the other pages of the process nor the other
    processes change.  (An eviction changes them: [demand_evicts].) *)
Theorem mapAnonymousPage_correct (runtime_safety : bool) {E} `{PageEnvLaws E} i c v tracker t (w : Vm E) :
  vm_safe w -> no_eviction (venv w) -> no_eviction (snd (put_page (venv w))) ->
  vm_states w !! i = Some c -> initialised c = true -> region_at tracker c = Some t -> 0 ≤ data t < 2 ^ 31 ->
  0 ≤ v -> v + PAGE_SIZE_4K < 2 ^ 64 -> wp (VmMmap.isLegalUserMapping (pageBase v PAGE_SIZE_4K)) (fun _ k => k = mm c) (mm c) ->
  (runtime_safety = true -> forall p, pages c !! v = Some p -> state p ≠ SWAPPED) ->
  wp (mapAnonymousPage runtime_safety i v tracker) (asked i c v w) w.
Proof. intros. by eapply mapAnonymousPage_spec. Qed.

(** ** An example environment: every request succeeds *)

#[export] Instance page_count : PageEnv positive := {
  next_call e := (None, e);
  call_done _ e := e;
  take_frame e := (Zpos e, e);
  free_frame _ e := e;
  frame_page f _ := f;
  frame_clock_consider _ e := e;
  frame_bind_slot _ _ e := (true, e);
  frame_unbind_slot _ e := e;
  cspace_copy _ _ e := (0, e);
  owner_delete _ _ e := (0, e);
  owner_free_slot _ _ e := e;
  put_page e := (true, e);
  cspace := 0;
  page_order m := (map_to_list m).*1;
}.
#[export] Instance page_count_laws : PageEnvLaws positive.
Proof. by split. Qed.

(** One process, with its heap. *)
Definition user_mm : VmMmap.Client unit := Cl (HEAP_BASE + 0x4000) MMAP_BASE 0x7ffffbfff000 0x7fffffffe000 0 [] 0
  (RMap (RbTree.RbTree 0 0 ∅ true) 0 ∅) tt.
Definition one_process : Vm positive :=
  VmW [Proc true {[ 1 := PTNode_init L0 7 None None ]} 1 7 ∅ 0 HEAP_BASE 0x7fffffffe000
         (Reg HEAP_BASE (HEAP_BASE + 0x4000) Heap 3 3 true true Anonymous) default_region user_mm] 2%positive.
Definition two_resident : M (Vm positive) unit :=
  mapOwnedFrame false 0 4096 100 50 true true false true true;; mapOwnedFrame false 0 8192 101 51 true true false true true;; mret tt.

Lemma one_process_safe : vm_safe one_process.
Proof.
  exists (fun _ => {[ [] := 1 ]}), (fun _ => []). split.
  - intros [|i] c Hc _; [|by destruct i]. injection Hc as <-. by apply pt_ok_init.
  - intros [|i] c v p Hc _; [|by destruct i]. by injection Hc as <-.
  - intros i j c d π π' a Hi Hj _ _ _ _. apply lookup_lt_Some in Hi, Hj. simpl in *. lia.
Qed.
Lemma two_resident_safe : wp two_resident (fun _ w' => vm_safe w') one_process.
Proof.
  unfold two_resident. apply wpf_bind. eapply wpf_mono; [by eapply mapOwnedFrame_spec; [apply _|apply one_process_safe|..]|]. intros r w1 [Hw1 Hr].
  assert (Hc : exists c, vm_states w1 !! 0%nat = Some c /\ initialised c = true).
  { assert (Hv : exists m, pview w1 0%nat = Some (true, m)) by (destruct r; [rewrite Hr; by eexists|destruct Hr as (p & _ & _ & _ & _ & ->); by eexists]).
    destruct Hv as [m Hv]. unfold pview in Hv. destruct (vm_states w1 !! 0%nat) as [c|]; simplify_eq/=. eauto. }
  destruct Hc as (c & Hc & Hi). apply wpf_bind. eapply wpf_mono; [by eapply mapOwnedFrame_spec; [apply _|apply Hw1|exact Hc|..]|]. intros r2 w2 [Hw2 _]. by apply wpf_ret.
Qed.
Definition two_world : Vm positive := match two_resident one_process with Ok (_, w) => w | Fault _ => one_process end.
Lemma two_world_safe : vm_safe two_world.
Proof.
  pose proof two_resident_safe as H. unfold wpf in H. unfold two_world. destruct (two_resident one_process) as [[a w]|f]; [done|apply one_process_safe].
Qed.

Lemma vm_pageout_prepare_correct_witness : exists w', vm_pageout_prepare false 100 5 two_world = Ok (0, w') /\ vm_safe w'.
Proof.
  assert (Hv : value_of (vm_pageout_prepare false 100 5 two_world) = Some 0) by (vm_compute; reflexivity).
  destruct (wpf_value _ _ _ _ _ (vm_pageout_prepare_correct false 100 5 two_world two_world_safe ltac:(lia)) Hv) as (w' & Hr & Hw & _).
  exists w'. split; [exact Hr|exact Hw].
Defined.

(** The heap of the process is legal. *)
Lemma mapAnonymousPage_correct_witness :
  exists w' c' p, mapAnonymousPage false 0 HEAP_BASE HeapRegion one_process = Ok (None, w') /\ vm_states w' !! 0%nat = Some c' /\
    pages c' !! HEAP_BASE = Some p /\ state p = RESIDENT.
Proof.
  assert (Hl : wp (VmMmap.isLegalUserMapping (pageBase HEAP_BASE PAGE_SIZE_4K)) (fun _ k => k = user_mm) user_mm) by by vm_compute.
  assert (Hv : value_of (mapAnonymousPage false 0 HEAP_BASE HeapRegion one_process) = Some None) by (vm_compute; reflexivity).
  destruct (wpf_value _ _ _ _ _ (mapAnonymousPage_correct false 0 _ HEAP_BASE HeapRegion _ one_process one_process_safe ltac:(by vm_compute) ltac:(by vm_compute) eq_refl eq_refl eq_refl
    ltac:(cbn; lia) ltac:(by vm_compute) ltac:(by vm_compute) Hl ltac:(done)) Hv) as (w' & Hr & _ & c' & Hst & _ & _ & p & Hp & Hres).
  exists w', c', p. split; [exact Hr|]. split; [by rewrite Hst|]. split; [exact Hp|exact Hres].
Defined.

(** A page is evicted with [vm_pageout_prepare] and [vm_pageout_finalise], and each of them takes
    the page from the counts of its tables: the tables of a neighbour that is still resident are removed. *)
Lemma pageout_loses_tables :
  match (two_resident;; rc ← vm_pageout_prepare false 100 5; rc' ← vm_pageout_finalise false 100 5;
         p ← page_at 0 8192; path ← on_space 0 (walkPath 8192); mret (rc, rc', state p, path)) one_process with
  | Ok (r, _) => r = (0, 0, RESIDENT, None)
  | Fault _ => False
  end.
Proof. by vm_compute. Qed.
(** In a checked build the second of the two stops, as does recording a page that is resident again,
    which is how the pages of a new stack are recorded. *)
Lemma pageout_checked_build : (two_resident;; vm_pageout_prepare true 100 5;; vm_pageout_finalise true 100 5) one_process = Fault AssertFail.
Proof. by vm_compute. Qed.
Lemma register_stack_checked_build :
  (mapOwnedFrame true 0 4096 100 50 true true false true true;; insertPage true 0 4096 100 50 None false false) one_process = Fault AssertFail.
Proof. by vm_compute. Qed.

(** The same environment, short of frames: before it gives a frame it evicts frame 100. *)
Definition short_of_frames (now : positive) : PageEnv positive := {|
  next_call e := (if decide (e = now) then Some (Prepare 100 5) else if decide (e = now + 1)%positive then Some (Finalise 100 5) else None, e);
  call_done _ e := (e + 1)%positive;
  take_frame e := (100, e);
  free_frame _ e := e;
  frame_page f _ := f;
  frame_clock_consider _ e := e;
  frame_bind_slot _ _ e := (true, e);
  frame_unbind_slot _ e := e;
  cspace_copy _ _ e := (0, e);
  owner_delete _ _ e := (0, e);
  owner_free_slot _ _ e := e;
  put_page e := (true, e);
  cspace := 0;
  page_order m := (map_to_list m).*1;
|}.
(** Mapping a page of the heap then swaps out the page that had the frame, and its neighbour, which is
    still resident, loses its page tables. *)
Lemma demand_evicts :
  match (r ← mapAnonymousPage (H0 := short_of_frames (venv two_world)) false 0 HEAP_BASE HeapRegion;
         h ← page_at 0 HEAP_BASE; p ← page_at 0 4096; q ← page_at 0 8192; path ← on_space 0 (walkPath 8192);
         mret (r, state h, state p, state q, path)) two_world with
  | Ok (r, _) => r = (None, RESIDENT, SWAPPED, RESIDENT, None)
  | Fault _ => False
  end.
Proof. by vm_compute. Qed.
