(* ===== verification/Errno.v ===== *)
(** * Error numbers and flags of the C library

    The values that the server and its clients exchange, from the headers of the C
    library and of [libsosapi]. *)

From S2P Require Import Prelude.

Abbreviation EPERM := 1.
Abbreviation ENOENT := 2.
Abbreviation EIO := 5.
Abbreviation EBADF := 9.
Abbreviation EAGAIN := 11.
Abbreviation EWOULDBLOCK := 11.
Abbreviation ENOMEM := 12.
Abbreviation EACCES := 13.
Abbreviation EFAULT := 14.
Abbreviation EBUSY := 16.
Abbreviation EEXIST := 17.
Abbreviation ENODEV := 19.
Abbreviation EINVAL := 22.
Abbreviation EMFILE := 24.
Abbreviation ERANGE := 34.
Abbreviation ENAMETOOLONG := 36.
Abbreviation ENOSYS := 38.
Abbreviation EOVERFLOW := 75.
Abbreviation ENETUNREACH := 101.

(** [03|O_PATH] *)
Abbreviation O_ACCMODE := 2097155.
Abbreviation O_RDONLY := 0.
Abbreviation O_WRONLY := 1.
Abbreviation O_RDWR := 2.
Abbreviation O_CREAT := 64.
Abbreviation SEEK_SET := 0.
Abbreviation SEEK_CUR := 1.
Abbreviation SEEK_END := 2.
Abbreviation FM_WRITE := 2.
Abbreviation FM_READ := 4.

(** How the flags of [open] ask for access. *)
Definition want_read (flags : Z) : bool :=
  let a := Z.land flags O_ACCMODE in bool_decide (a = O_RDONLY) || bool_decide (a = O_RDWR).
Definition want_write (flags : Z) : bool :=
  let a := Z.land flags O_ACCMODE in bool_decide (a = O_WRONLY) || bool_decide (a = O_RDWR).
