(* ===== verification/WorkQueue.v ===== *)
(** * The work queues between the server and its worker threads

    Models [WorkQueue], the loop of [Worker] and [workerEnqueue] of
    [sos/src/worker.zig].  The queue is shared by two threads without a lock: the
    main thread calls [enqueue], one worker calls [dequeue].  Each thread is a
    program counter with its local variables, and a step is one access to the
    shared memory, so every interleaving of the two threads is a sequence of steps.
    The atomic operations of the source are taken to be sequentially consistent.
    The notification of the kernel is a flag that a signal sets and that a wait
    consumes. *)

From S2P Require Import Prelude Errno.

Definition MAX_WORK_QUEUE : Z := 16.

(** A [*FileOpState] is an address. *)
Record WorkQueue := Queue { items : list Z; head : Z; tail : Z; notification : bool }.
(** The cells of a new queue are undefined; any sixteen values do. *)
Definition init (junk : list Z) : WorkQueue := Queue junk 0 0 false.

Inductive QueueError := QueueFull.

(** ** One call without interference *)

Definition next_index (i : Z) : Z := (i + 1) mod MAX_WORK_QUEUE.

Definition enqueue (file_op : Z) : M WorkQueue (option QueueError) :=
  q ← get;
  let curr_head := head q in
  let next_head := next_index curr_head in
  let curr_tail := tail q in
  if bool_decide (next_head = curr_tail) then mret (Some QueueFull)
  else
    _ ← access (items q !! Z.to_nat curr_head);
    put (Queue (<[Z.to_nat curr_head := file_op]> (items q)) next_head (tail q) true);;
    mret None.

Definition dequeue : M WorkQueue (option Z) :=
  q ← get;
  let curr_tail := tail q in
  let curr_head := head q in
  if bool_decide (curr_tail = curr_head) then mret None
  else
    item ← access (items q !! Z.to_nat curr_tail);
    put (Queue (items q) (head q) (next_index curr_tail) (notification q));;
    mret (Some item).

(** ** Two threads *)

(** The main thread: outside [enqueue], or before one of its accesses. *)
Inductive Producer :=
| PIdle
| PLoadHead (file_op : Z)
| PLoadTail (file_op curr_head : Z)
| PTest (file_op curr_head curr_tail : Z)
| PWrite (file_op curr_head : Z)
| PStoreHead (file_op curr_head : Z)
| PSignal.

(** The worker: waiting for a signal, inside [dequeue], or processing an item. *)
Inductive Consumer :=
| CWait
| CLoadTail
| CLoadHead (curr_tail : Z)
| CTest (curr_tail curr_head : Z)
| CRead (curr_tail : Z)
| CStoreTail (curr_tail item : Z)
| CProcess (item : Z).

#[export] Instance Consumer_eq_dec : EqDecision Consumer.
Proof. solve_decision. Defined.

(** The threads and the queue.  [accepted] lists the operations whose [enqueue]
    published them, [processed] those the worker has taken to [process]; both are
    for the statements and decide nothing. *)
Record Threads := Thr {
  producer : Producer; consumer : Consumer; queue : WorkQueue;
  accepted : list Z; processed : list Z; refused : nat }.

(** The next step of the main thread inside [enqueue]. *)
Definition enqueue_step (s : Threads) : option Threads :=
  let q := queue s in
  let go p q' := Some (Thr p (consumer s) q' (accepted s) (processed s) (refused s)) in
  match producer s with
  | PIdle => None
  | PLoadHead op => go (PLoadTail op (head q)) q
  | PLoadTail op h => go (PTest op h (tail q)) q
  | PTest op h t =>
    if bool_decide (next_index h = t)
    then Some (Thr PIdle (consumer s) q (accepted s) (processed s) (S (refused s)))
    else go (PWrite op h) q
  | PWrite op h =>
    _ ← items q !! Z.to_nat h;
    go (PStoreHead op h) (Queue (<[Z.to_nat h := op]> (items q)) (head q) (tail q) (notification q))
  | PStoreHead op h =>
    Some (Thr PSignal (consumer s) (Queue (items q) (next_index h) (tail q) (notification q))
              (accepted s ++ [op]) (processed s) (refused s))
  | PSignal => go PIdle (Queue (items q) (head q) (tail q) true)
  end.

(** The next step of the worker: [run] waits, then [drain] takes items until the
    queue is empty. *)
Definition run_step (s : Threads) : option Threads :=
  let q := queue s in
  let go c q' := Some (Thr (producer s) c q' (accepted s) (processed s) (refused s)) in
  match consumer s with
  | CWait => if notification q then go CLoadTail (Queue (items q) (head q) (tail q) false) else None
  | CLoadTail => go (CLoadHead (tail q)) q
  | CLoadHead t => go (CTest t (head q)) q
  | CTest t h => if bool_decide (t = h) then go CWait q else go (CRead t) q
  | CRead t => item ← items q !! Z.to_nat t; go (CStoreTail t item) q
  | CStoreTail t item => go (CProcess item) (Queue (items q) (head q) (next_index t) (notification q))
  | CProcess item =>
    Some (Thr (producer s) CLoadTail q (accepted s) (processed s ++ [item]) (refused s))
  end.

(** The interleavings. *)
Inductive step : Threads -> Threads -> Prop :=
| step_call op s :
    producer s = PIdle ->
    step s (Thr (PLoadHead op) (consumer s) (queue s) (accepted s) (processed s) (refused s))
| step_main s s' : enqueue_step s = Some s' -> step s s'
| step_worker s s' : run_step s = Some s' -> step s s'.

Definition start (junk : list Z) : Threads := Thr PIdle CWait (init junk) [] [] 0.
Definition reachable (s : Threads) : Prop :=
  exists junk, length junk = Z.to_nat MAX_WORK_QUEUE /\ rtc step (start junk) s.

(** ** The pool of workers *)

Record Pool := mkPool { workers : list WorkQueue; enqueue_rr : Z }.

(** The first queue with room, from [base] on, in the order of the loop. *)
Fixpoint workerEnqueue_loop (file_op base total offset : Z) (fuel : nat) : M (list WorkQueue) Z :=
  match fuel with
  | O => mret (- EAGAIN)
  | S fuel =>
    when (bool_decide (2 ^ 64 ≤ base + offset)) (throw Undefined);;
    let idx := (base + offset) mod total in
    ws ← get;
    q ← access (ws !! Z.to_nat idx);
    r ← zoom (fun _ => q) (fun q' ws => <[Z.to_nat idx := q']> ws) (enqueue file_op);
    match r with
    | Some QueueFull => workerEnqueue_loop file_op base total (offset + 1) fuel
    | None => mret 0
    end
  end.

Definition workerEnqueue (worker_initialised : bool) (file_op : Z) : M Pool Z :=
  p ← get;
  let total := Z.of_nat (length (workers p)) in
  if negb worker_initialised || bool_decide (total = 0) then mret (- EINVAL)
  else
    let base := enqueue_rr p in
    put (mkPool (workers p) (w64 (base + 1)));;
    zoom workers (fun ws p => mkPool ws (enqueue_rr p))
      (workerEnqueue_loop file_op base total 0 (length (workers p))).

(** ** The invariant *)

(** The cell of the [n]-th operation. *)
Definition slot (n : nat) : Z := Z.of_nat n mod MAX_WORK_QUEUE.

Lemma slot_range n : 0 ≤ slot n < 16.
Proof. apply Z.mod_pos_bound. done. Qed.
Lemma slot_next n : next_index (slot n) = slot (S n).
Proof. unfold next_index, slot, MAX_WORK_QUEUE. rewrite Zplus_mod_idemp_l. f_equal. lia. Qed.
Lemma ring_slot_inj n m : (n ≤ m < n + 16)%nat -> slot n = slot m -> n = m.
Proof.
  unfold slot, MAX_WORK_QUEUE. intros Hnm He.
  pose proof (Z.div_mod (Z.of_nat n) 16 ltac:(done)). pose proof (Z.div_mod (Z.of_nat m) 16 ltac:(done)). nia.
Qed.

(** What the worker has taken from the queue and not yet processed. *)
Definition in_hand (s : Threads) : list Z := match consumer s with CProcess x => [x] | _ => [] end.
Definition taken (s : Threads) : nat := length (processed s ++ in_hand s).

(** The local variables of the main thread against [n] operations accepted, [k]
    of them taken. *)
Definition producer_ok (n k : nat) (p : Producer) : Prop :=
  match p with
  | PIdle | PLoadHead _ | PSignal => True
  | PLoadTail _ h => h = slot n
  | PTest _ h t => h = slot n /\ exists k0, (k0 ≤ k)%nat /\ t = slot k0 /\ (n ≤ k0 + 15)%nat
  | PWrite _ h | PStoreHead _ h => h = slot n /\ (n < k + 15)%nat
  end.
(** The local variables of the worker; [woken] says that a signal is pending or
    about to be sent. *)
Definition consumer_ok (n k : nat) (q : list Z) (woken : Prop) (c : Consumer) : Prop :=
  match c with
  | CWait => n = k \/ woken
  | CLoadTail | CProcess _ => True
  | CLoadHead t => t = slot k
  | CTest t h => t = slot k /\ exists n0, h = slot n0 /\ (k ≤ n0 ≤ n)%nat /\ (n0 = n \/ woken)
  | CRead t => t = slot k /\ (k < n)%nat
  | CStoreTail t item => t = slot k /\ q !! O = Some item
  end.

(** [rest] is the content of the queue, first operation first. *)
Record queue_inv (rest : list Z) (s : Threads) : Prop := {
  q_len : length (items (queue s)) = 16%nat;
  q_all : accepted s = processed s ++ in_hand s ++ rest;
  q_room : (length rest ≤ 15)%nat;
  q_head : head (queue s) = slot (length (accepted s));
  q_tail : tail (queue s) = slot (taken s);
  q_cells : forall k x, rest !! k = Some x -> items (queue s) !! Z.to_nat (slot (taken s + k)) = Some x;
  q_written : forall op h, producer s = PStoreHead op h -> items (queue s) !! Z.to_nat h = Some op;
  q_producer : producer_ok (length (accepted s)) (taken s) (producer s);
  q_consumer : consumer_ok (length (accepted s)) (taken s) rest
                 (notification (queue s) = true \/ producer s = PSignal) (consumer s) }.

Lemma queue_inv_length rest s : queue_inv rest s -> (length (accepted s) = taken s + length rest)%nat.
Proof. intros H. rewrite (q_all _ _ H), app_assoc, length_app. done. Qed.

Lemma queue_inv_start junk : length junk = Z.to_nat MAX_WORK_QUEUE -> queue_inv [] (start junk).
Proof. intros H. split; simpl; try done; try lia. by left. Qed.

Lemma consumer_ok_mono n k q (w w' : Prop) c : (w -> w') -> consumer_ok n k q w c -> consumer_ok n k q w' c.
Proof. destruct c; simpl; firstorder. Qed.

Lemma producer_ok_mono n k k' p : (k ≤ k')%nat -> producer_ok n k p -> producer_ok n k' p.
Proof.
  destruct p as [| | |? h t| | |]; simpl; try tauto; try (intros; split; [tauto|lia]).
  intros ? (-> & k0 & ? & -> & ?). split; [done|]. exists k0. repeat split; lia.
Qed.

(** The invariant looks at the program counters, the queue and the two logs. *)
Lemma queue_inv_call rest s op :
  queue_inv rest s -> producer s = PIdle ->
  queue_inv rest (Thr (PLoadHead op) (consumer s) (queue s) (accepted s) (processed s) (refused s)).
Proof.
  intros [] Hp. split; unfold taken, in_hand; simpl in *; try done.
  eapply consumer_ok_mono; [|done]. intros [?|?]; [by left|congruence].
Qed.

Ltac stepped H := cbn in H; try (injection H as <-); try done.
Ltac wake := by eapply consumer_ok_mono; [|eassumption]; intros [?|?]; [left|congruence].

Lemma queue_inv_main rest s s' :
  queue_inv rest s -> enqueue_step s = Some s' ->
  exists rest', queue_inv rest' s'.
Proof.
  intros H Hs. pose proof (queue_inv_length _ _ H) as Hlen. destruct H. unfold enqueue_step in Hs.
  destruct s as [p c q acc pr n]; unfold taken, in_hand in *; simpl in *.
  destruct p as [|op|op h|op h t|op h|op h|]; stepped Hs.
  - exists rest. split; unfold taken, in_hand; simpl in *; try done. wake.
  - exists rest. split; unfold taken, in_hand; simpl in *; try done.
    + split; [done|]. eexists. split; [reflexivity|]. split; [done|]. unfold taken, in_hand; simpl. lia.
    + wake.
  - destruct q_producer0 as (-> & k0 & Hk0 & -> & Hn). rewrite slot_next in Hs. case_bool_decide as Hf; stepped Hs.
    + exists rest. split; unfold taken, in_hand; simpl in *; try done. wake.
    + exists rest. split; unfold taken, in_hand; simpl in *; try done.
      * split; [done|]. destruct (decide (length acc = (k0 + 15)%nat)) as [He|]; [|lia].
        destruct Hf. rewrite He. unfold slot, MAX_WORK_QUEUE.
        replace (Z.of_nat (S (k0 + 15))) with (Z.of_nat k0 + 1 * 16) by lia. apply Z.mod_add. done.
      * wake.
  - destruct (items q !! Z.to_nat h) eqn:Hh; stepped Hs. destruct q_producer0 as [-> Hn].
    pose proof (slot_range (length acc)).
    exists rest. split; unfold taken, in_hand; simpl in *; try done.
    + by rewrite length_insert.
    + intros k x Hx. rewrite list_lookup_insert_ne; [by apply q_cells0|].
      pose proof (slot_range (length (pr ++ match c with CProcess x => [x] | _ => [] end) + k)).
      apply lookup_lt_Some in Hx. intros He. apply Z2Nat.inj in He; [|lia..].
      symmetry in He. apply ring_slot_inj in He; lia.
    + intros ? ? [= -> <-]. apply list_lookup_insert_eq. lia.
    + wake.
  - destruct q_producer0 as [-> Hn].
    exists (rest ++ [op]). split; unfold taken, in_hand; simpl in *; try done.
    + by rewrite q_all0, <- !app_assoc.
    + rewrite length_app. simpl. lia.
    + rewrite slot_next, length_app. simpl. f_equal. lia.
    + intros k x Hx. apply lookup_app_Some in Hx as [Hx|[Hk Hx]]; [by apply q_cells0|].
      assert (k = length rest) as -> by (apply lookup_lt_Some in Hx; simpl in Hx; lia).
      rewrite Nat.sub_diag in Hx. injection Hx as <-. unfold in_hand; simpl. rewrite <- Hlen. by apply q_written0.
    + rewrite length_app. simpl. destruct c; simpl in *; try done; [naive_solver lia|naive_solver lia|naive_solver lia|].
      destruct q_consumer0. split; [done|]. by apply lookup_app_l_Some.
  - exists rest. split; unfold taken, in_hand; simpl in *; try done. eapply consumer_ok_mono; [|eassumption]. by left.
Qed.

Lemma queue_inv_worker rest s s' :
  queue_inv rest s -> run_step s = Some s' -> exists rest', queue_inv rest' s'.
Proof.
  intros H Hs. pose proof (queue_inv_length _ _ H) as Hlen. destruct H. unfold run_step in Hs.
  destruct s as [p c q acc pr n]; unfold taken, in_hand in *; simpl in *.
  destruct c as [| |t|t h|t|t x|x]; stepped Hs.
  - destruct (notification q) eqn:Hn; stepped Hs. exists rest. split; unfold taken, in_hand; simpl in *; done.
  - exists rest. split; unfold taken, in_hand; simpl in *; done.
  - exists rest. split; unfold taken, in_hand; simpl in *; try done. split; [done|]. exists (length acc). repeat split; [done|lia..|by left].
  - destruct q_consumer0 as (-> & n0 & -> & Hn0 & Hw). case_bool_decide as He; stepped Hs.
    + exists rest. split; unfold taken, in_hand; simpl in *; try done. apply ring_slot_inj in He; [|lia]. naive_solver lia.
    + exists rest. split; unfold taken, in_hand; simpl in *; try done. split; [done|]. destruct (decide (n0 = length (pr ++ []))); [by subst|lia].
  - destruct q_consumer0 as [-> Hk]. destruct (items q !! Z.to_nat _) as [x|] eqn:Hx; stepped Hs.
    exists rest. split; unfold taken, in_hand; simpl in *; try done. split; [done|].
    destruct rest as [|y rest]; [simpl in *; lia|]. specialize (q_cells0 O y eq_refl).
    rewrite Nat.add_0_r in q_cells0. simpl. congruence.
  - destruct q_consumer0 as [-> Hx]. destruct rest as [|y rest]; simplify_eq/=.
    exists rest. split; unfold taken, in_hand; simpl in *; try done.
    + lia.
    + rewrite slot_next, !length_app. simpl. f_equal. lia.
    + intros k z Hz. specialize (q_cells0 (S k) z Hz). rewrite !length_app in *. simpl in *.
      replace (length pr + 1 + k)%nat with (length pr + 0 + S k)%nat by lia. done.
    + eapply producer_ok_mono; [|done]. rewrite !length_app. simpl. lia.
  - exists rest. split; unfold taken, in_hand; simpl in *; try done; rewrite ?app_nil_r; try done.
    by rewrite q_all0, <- app_assoc.
Qed.

Lemma reachable_inv s : reachable s -> exists rest, queue_inv rest s.
Proof.
  intros (junk & Hj & Hs). apply queue_inv_start in Hj.
  assert (Hi : exists rest, queue_inv rest (start junk)) by eauto. clear Hj.
  induction Hs as [|x y z Hxy _ IH]; [done|]. apply IH. destruct Hi as [rest Hi].
  destruct Hxy as [op s Hp|s s' H|s s' H]; [|by eapply queue_inv_main|by eapply queue_inv_worker].
  exists rest. by apply queue_inv_call.
Qed.

(** ** What every interleaving guarantees *)

(** Accepted and not yet taken. *)
Definition waiting (s : Threads) : list Z := drop (taken s) (accepted s).

Lemma queue_inv_waiting rest s : queue_inv rest s -> rest = waiting s.
Proof. intros H. unfold waiting, taken. by rewrite (q_all _ _ H), app_assoc, drop_app_length. Qed.

(** Neither thread indexes outside the array. *)
Lemma enqueue_step_total rest s : queue_inv rest s -> producer s ≠ PIdle -> is_Some (enqueue_step s).
Proof.
  intros H Hp. unfold enqueue_step. destruct (producer s) as [|op|op h|op h t|op h|op h|] eqn:He; try done.
  - case_bool_decide; done.
  - pose proof (q_producer _ _ H) as Hok. rewrite He in Hok. destruct Hok as [-> _].
    pose proof (slot_range (length (accepted s))).
    destruct (lookup_lt_is_Some_2 (items (queue s)) (Z.to_nat (slot (length (accepted s))))) as [x ->]; [|done].
    rewrite (q_len _ _ H). lia.
Qed.
Lemma run_step_total rest s :
  queue_inv rest s -> consumer s ≠ CWait \/ notification (queue s) = true -> is_Some (run_step s).
Proof.
  intros H Hc. unfold run_step. destruct (consumer s) as [| |t|t h|t|t x|x] eqn:He; try done.
  - by destruct Hc as [?| ->].
  - case_bool_decide; done.
  - pose proof (q_consumer _ _ H) as Hok. rewrite He in Hok. destruct Hok as [-> _]. pose proof (slot_range (taken s)).
    destruct (lookup_lt_is_Some_2 (items (queue s)) (Z.to_nat (slot (taken s)))) as [x ->]; [|done].
    rewrite (q_len _ _ H). lia.
Qed.

(** The cell being written is not the cell being read. *)
Lemma queue_inv_no_race rest s op h t :
  queue_inv rest s -> producer s = PWrite op h -> consumer s = CRead t -> h ≠ t.
Proof.
  intros H Hp Hc. pose proof (q_producer _ _ H) as Hpo. pose proof (q_consumer _ _ H) as Hco.
  rewrite Hp in Hpo. rewrite Hc in Hco. simpl in *. destruct Hpo as [-> ?], Hco as [-> ?].
  intros He. symmetry in He. apply ring_slot_inj in He; lia.
Qed.

(** C6: Through every interleaving of the main thread calling [enqueue] and a
    worker in its loop, the operations that were accepted are, in the order of the
    calls, those processed, the one in the worker's hands and those in the ring: none
    is lost, repeated or reordered.  At most fifteen wait, in the cells from the tail
    on.  A call in progress can always go on, and never writes the cell that the
    worker is reading. *)
Theorem work_queue_fifo s :
  reachable s ->
  accepted s = processed s ++ in_hand s ++ waiting s /\
  (length (waiting s) ≤ 15)%nat /\
  (forall k x, waiting s !! k = Some x -> items (queue s) !! Z.to_nat ((tail (queue s) + Z.of_nat k) mod 16) = Some x) /\
  (producer s ≠ PIdle -> is_Some (enqueue_step s)) /\
  (consumer s ≠ CWait \/ notification (queue s) = true -> is_Some (run_step s)) /\
  (forall op h t, producer s = PWrite op h -> consumer s = CRead t -> h ≠ t).
Proof.
  intros [rest H]%reachable_inv. rewrite <- (queue_inv_waiting _ _ H). split_and!.
  - apply (q_all _ _ H).
  - apply (q_room _ _ H).
  - intros k x Hx. rewrite (q_tail _ _ H). unfold slot, MAX_WORK_QUEUE. rewrite Zplus_mod_idemp_l, <- Nat2Z.inj_add.
    by apply (q_cells _ _ H).
  - by apply (enqueue_step_total rest).
  - by apply (run_step_total rest).
  - intros op h t. by apply (queue_inv_no_race rest).
Qed.

(** ** No wake-up is lost *)

Fixpoint run_alone (fuel : nat) (s : Threads) : Threads :=
  match fuel with
  | O => s
  | S fuel => match run_step s with Some s' => run_alone fuel s' | None => s end
  end.

(** Steps the worker takes before it sleeps, if nothing is added. *)
Definition work_left (s : Threads) : nat :=
  (6 * length (waiting s) + (if notification (queue s) then 4 else 0) +
   match consumer s with CWait => 0 | CLoadTail => 3 | CLoadHead _ => 2 | CTest _ _ => 1 | CRead _ => 0
   | CStoreTail _ _ => 0 | CProcess _ => 4 end - match consumer s with CStoreTail _ _ => 1 | _ => 0 end)%nat.

Lemma run_step_decreases rest s s' :
  queue_inv rest s -> run_step s = Some s' ->
  (work_left s' < work_left s)%nat /\ accepted s' = accepted s /\ producer s' = producer s.
Proof.
  intros H Hs. pose proof (queue_inv_length _ _ H) as Hlen. pose proof (q_consumer _ _ H) as Hc. clear H.
  unfold run_step in Hs. unfold work_left, waiting. rewrite !length_drop. unfold taken, in_hand in *.
  destruct s as [p c q acc pr n]; simpl in *.
  destruct c as [| |t|t h|t|t x|x]; simpl in *.
  - destruct (notification q) eqn:Hn; stepped Hs. simpl. split; [lia|done].
  - stepped Hs. simpl. split; [lia|done].
  - stepped Hs. simpl. split; [lia|done].
  - case_bool_decide; stepped Hs; simpl; (split; [lia|done]).
  - destruct Hc as [_ Hc]. destruct (items q !! Z.to_nat t); stepped Hs. simpl. split; [lia|done].
  - stepped Hs. simpl. split; [|done]. destruct rest; [by destruct Hc|]. simpl in *. rewrite !length_app in *. simpl in *. lia.
  - stepped Hs. simpl. split; [|done]. rewrite !length_app in *. simpl in *. lia.
Qed.

Lemma run_alone_spec fuel s :
  (exists rest, queue_inv rest s) -> (work_left s ≤ fuel)%nat ->
  let s' := run_alone fuel s in
  (exists rest, queue_inv rest s') /\ run_step s' = None /\ accepted s' = accepted s /\ producer s' = producer s.
Proof.
  revert s. induction fuel as [|fuel IH]; intros s [rest H] Hf; simpl.
  - split; [eauto|]. split; [|done]. destruct (run_step s) eqn:Hs; [|done].
    apply (run_step_decreases rest) in Hs as [? _]; [lia|done].
  - destruct (run_step s) as [s1|] eqn:Hs; [|eauto].
    pose proof (run_step_decreases _ _ _ H Hs) as (Hd & Ha & Hp).
    destruct (IH s1) as (Hi & Hn & Ha' & Hp'); [by eapply queue_inv_worker|lia|].
    split; [done|]. split; [done|]. split; congruence.
Qed.

(** C32: No wake-up is lost: from every state that the threads can reach with the
    main thread outside [enqueue], the worker alone comes to rest after finitely many
    steps, waiting, and has then processed every operation that was accepted. *)
Theorem worker_drains s :
  reachable s -> producer s = PIdle ->
  exists n, let s' := run_alone n s in
  run_step s' = None /\ consumer s' = CWait /\ accepted s' = accepted s /\ processed s' = accepted s.
Proof.
  intros Hr%reachable_inv Hp. exists (work_left s).
  destruct (run_alone_spec (work_left s) s Hr) as ([rest H] & Hn & Ha & Hp'); [lia|].
  set (s' := run_alone (work_left s) s) in *. rewrite Hp in Hp'.
  destruct (decide (consumer s' = CWait)) as [Hc|Hc].
  - destruct (notification (queue s')) eqn:Hno.
    { destruct (run_step_total rest s') as [? ?]; [done|by right|congruence]. }
    pose proof (q_consumer _ _ H) as Hco. rewrite Hc in Hco. simpl in Hco.
    destruct Hco as [He|[?|?]]; [|congruence..].
    pose proof (queue_inv_length _ _ H) as Hl. assert (rest = []) as -> by (apply nil_length_inv; lia).
    pose proof (q_all _ _ H) as Hall. unfold in_hand in Hall. rewrite Hc, !app_nil_r in Hall.
    repeat split; congruence.
  - destruct (run_step_total rest s') as [? ?]; [done|by left|congruence].
Qed.

(** ** One call alone *)

Fixpoint call_alone (fuel : nat) (s : Threads) : Threads :=
  match fuel with
  | O => s
  | S fuel => match enqueue_step s with Some s' => call_alone fuel s' | None => s end
  end.


(** ** The queue as a list *)

(** What the ring holds, first operation first. *)
Record holds (l : list Z) (q : WorkQueue) : Prop := {
  hd_len : length (items q) = 16%nat;
  hd_room : (length l ≤ 15)%nat;
  hd_tail : 0 ≤ tail q < 16;
  hd_head : head q = (tail q + Z.of_nat (length l)) mod 16;
  hd_cells : forall k x, l !! k = Some x -> items q !! Z.to_nat ((tail q + Z.of_nat k) mod 16) = Some x }.

Lemma mod16_apart a i j : 0 ≤ i < 16 -> 0 ≤ j < 16 -> (a + i) mod 16 = (a + j) mod 16 -> i = j.
Proof. intros. pose proof (Z.div_mod (a + i) 16 ltac:(done)). pose proof (Z.div_mod (a + j) 16 ltac:(done)). nia. Qed.

Lemma holds_full l q : holds l q -> next_index (head q) = tail q <-> length l = 15%nat.
Proof.
  intros H. destruct H. unfold next_index, MAX_WORK_QUEUE. rewrite hd_head0, Zplus_mod_idemp_l, <- Z.add_assoc.
  rewrite <- (Z.mod_small (tail q) 16) at 2 by done. split; intros He.
  - destruct (decide (length l = 15%nat)); [done|]. rewrite <- (Z.add_0_r (tail q)) in He at 2.
    apply mod16_apart in He; lia.
  - rewrite He. replace (tail q + (Z.of_nat 15 + 1)) with (tail q + 1 * 16) by lia. by rewrite Z.mod_add.
Qed.

Lemma queue_enqueue_spec l q op :
  holds l q ->
  wp (enqueue op) (fun r q' =>
    match r with
    | Some QueueFull => length l = 15%nat /\ q' = q
    | None => holds (l ++ [op]) q' /\ notification q' = true
    end) q.
Proof.
  intros H. unfold enqueue. wp_line. apply wpf_if; intros Hb; bd.
  - wp_line. split; [|done]. by apply (holds_full l q).
  - pose proof (holds_full l q H) as Hfull. destruct H. pose proof (Z.mod_pos_bound (tail q + Z.of_nat (length l)) 16 ltac:(done)).
    apply wpf_bind. destruct (lookup_lt_is_Some_2 (items q) (Z.to_nat (head q))) as [y Hy]; [rewrite hd_head0; lia|].
    eapply wpf_access; [done|]. wp_line. split; [|done]. assert ((length l < 15)%nat) by (destruct (decide (length l = 15%nat)); [tauto|lia]).
    split; simpl; rewrite ?length_insert, ?length_app; simpl; try lia.
    + unfold next_index, MAX_WORK_QUEUE. rewrite hd_head0, Zplus_mod_idemp_l. f_equal. lia.
    + intros k x Hx. apply lookup_app_Some in Hx as [Hx|[Hk Hx]].
      * rewrite list_lookup_insert_ne; [by apply hd_cells0|]. apply lookup_lt_Some in Hx.
        pose proof (Z.mod_pos_bound (tail q + Z.of_nat k) 16 ltac:(done)). rewrite hd_head0.
        intros He%Z2Nat.inj; [|lia..]. apply mod16_apart in He; lia.
      * assert (k = length l) as -> by (apply lookup_lt_Some in Hx; simpl in Hx; lia).
        rewrite Nat.sub_diag in Hx. injection Hx as <-. rewrite hd_head0. apply list_lookup_insert_eq. lia.
Qed.


(** ** Handing work to a worker *)

Definition full_at (ls : list (list Z)) (base o : Z) : Prop :=
  exists l, ls !! Z.to_nat ((base + o) mod Z.of_nat (length ls)) = Some l /\ length l = 15%nat.

Lemma workerEnqueue_loop_spec op base ls ws fuel offset :
  Forall2 holds ls ws -> 0 ≤ base -> 0 ≤ offset -> offset + Z.of_nat fuel = Z.of_nat (length ls) ->
  base + Z.of_nat (length ls) < 2 ^ 64 ->
  (forall o, 0 ≤ o < offset -> full_at ls base o) ->
  wp (workerEnqueue_loop op base (Z.of_nat (length ls)) offset fuel) (fun r ws' =>
    (r = 0 /\ exists o l, let i := Z.to_nat ((base + o) mod Z.of_nat (length ls)) in
      0 ≤ o < Z.of_nat (length ls) /\ ls !! i = Some l /\ (length l < 15)%nat /\
      (forall o', 0 ≤ o' < o -> full_at ls base o') /\ Forall2 holds (<[i := l ++ [op]]> ls) ws') \/
    (r = - EAGAIN /\ ws' = ws /\ (forall o, 0 ≤ o < Z.of_nat (length ls) -> full_at ls base o))) ws.
Proof.
  intros Hws Hb. revert offset. induction fuel as [|fuel IH]; intros offset Ho Hf Hm Hfull; cbn [workerEnqueue_loop].
  { wp_line. right. repeat split; try done. intros o ?. apply Hfull. lia. }
  apply wpf_bind, wpf_when; intros Hu; bd; [lia|]. wp_line.
  set (i := Z.to_nat ((base + offset) mod Z.of_nat (length ls))).
  assert ((i < length ls)%nat).
  { pose proof (Z.mod_pos_bound (base + offset) (Z.of_nat (length ls)) ltac:(lia)). lia. }
  destruct (lookup_lt_is_Some_2 ls i) as [l Hl]; [done|].
  destruct (Forall2_lookup_l _ _ _ _ _ Hws Hl) as (q & Hq & Hh).
  eapply wpf_access; [done|]. wp_line.
  eapply wpf_mono; [by apply (queue_enqueue_spec l)|]. intros [[]|] q'; cbv beta.
  - intros [Hl15 ->]. rewrite list_insert_id by done. apply IH; [lia..|].
    intros o Hoo. destruct (decide (o = offset)) as [->|]; [|apply Hfull; lia]. by exists l.
  - intros [Hh' _]. wp_line. left. split; [done|]. exists offset, l. cbv zeta. fold i.
    split; [lia|]. split; [done|]. split.
    + pose proof (hd_room _ _ Hh'). rewrite length_app in *. simpl in *. lia.
    + split; [done|]. by apply Forall2_insert.
Qed.

(** Every worker is tried. *)
Lemma full_everywhere ls base :
  (forall o, 0 ≤ o < Z.of_nat (length ls) -> full_at ls base o) -> Forall (fun l => length l = 15%nat) ls.
Proof.
  intros H. apply Forall_lookup. intros i l Hl. pose proof (lookup_lt_Some _ _ _ Hl).
  set (n := Z.of_nat (length ls)) in *. destruct (H ((Z.of_nat i - base) mod n)) as (l' & Hl' & Hlen); [apply Z.mod_pos_bound; lia|].
  rewrite Zplus_mod_idemp_r in Hl'. replace (base + (Z.of_nat i - base)) with (Z.of_nat i) in Hl' by lia.
  rewrite Z.mod_small, Nat2Z.id in Hl' by lia. congruence.
Qed.

(** [workerEnqueue] appends the operation to the queue of exactly one worker,
    the first with room in turn, and leaves the others as they are; it refuses only
    when every queue holds fifteen operations, and then changes none. *)
Theorem workerEnqueue_correct ls p op :
  Forall2 holds ls (workers p) -> ls ≠ [] -> 0 ≤ enqueue_rr p -> enqueue_rr p + Z.of_nat (length ls) < 2 ^ 64 ->
  wp (workerEnqueue true op) (fun r p' =>
    enqueue_rr p' = enqueue_rr p + 1 /\
    ((r = 0 /\ exists o l, let i := Z.to_nat ((enqueue_rr p + o) mod Z.of_nat (length ls)) in
      0 ≤ o < Z.of_nat (length ls) /\ ls !! i = Some l /\ (length l < 15)%nat /\
      (forall o', 0 ≤ o' < o -> full_at ls (enqueue_rr p) o') /\ Forall2 holds (<[i := l ++ [op]]> ls) (workers p')) \/
     (r = - EAGAIN /\ workers p' = workers p /\ Forall (fun l => length l = 15%nat) ls))) p.
Proof.
  intros Hws Hne H0 H64. pose proof (Forall2_length _ _ _ Hws) as Hlen.
  assert (length ls ≠ 0%nat) by (destruct ls; simpl; [done|lia]).
  unfold workerEnqueue. wp_line. apply wpf_if; intros Hb; bd; [destruct (orb_prop _ _ Hb); bd; simplify_eq; lia|].
  wp_line. rewrite <- Hlen. eapply wpf_mono.
  { apply (workerEnqueue_loop_spec op (enqueue_rr p) ls); [done|lia..|intros o ?; lia]. }
  intros r ws' Hr. simpl. split; [apply w64_small; lia|].
  destruct Hr as [Hr|(-> & -> & Hf)]; [by left|]. right. repeat split; try done. by apply full_everywhere in Hf.
Qed.

(** ** Runs *)

Fixpoint replay (l : list bool) (s : Threads) : option Threads :=
  match l with
  | [] => Some s
  | b :: l => (if b then enqueue_step s else run_step s) ≫= replay l
  end.
Lemma replay_steps l s s' : replay l s = Some s' -> rtc step s s'.
Proof.
  revert s. induction l as [|b l IH]; intros s Hs; simpl in Hs; [by simplify_eq|].
  apply bind_Some in Hs as (s1 & H1 & H2). eapply rtc_l; [|by apply IH].
  destruct b; [by apply step_main|by apply step_worker].
Qed.

(** Sixteen cells; the main thread has published operation 7 and enters [enqueue]
    with 9 while the worker is about to read. *)
Definition junk16 : list Z := replicate 16 0.
Definition called (op : Z) (s : Threads) : Threads :=
  Thr (PLoadHead op) (consumer s) (queue s) (accepted s) (processed s) (refused s).
Definition run_7_9 : option Threads :=
  s ← replay [true; true; true; true; true; true] (called 7 (start junk16));
  replay [true; true; false; false; false; true; false] (called 9 s).

Lemma run_7_9_reachable s : run_7_9 = Some s -> reachable s.
Proof.
  unfold run_7_9. intros (s1 & H1 & H2)%bind_Some. exists junk16. split; [done|].
  assert (Hidle : producer s1 = PIdle) by (vm_compute in H1; by injection H1 as <-).
  etrans; [|by eapply replay_steps].
  etrans; [|by eapply rtc_once, step_call].
  eapply rtc_l; [|by eapply replay_steps]. by apply (step_call 7).
Qed.

Lemma work_queue_fifo_witness :
  exists s, run_7_9 = Some s /\ producer s = PWrite 9 1 /\ consumer s = CRead 0 /\ waiting s = [7] /\ (1 ≠ 0).
Proof.
  destruct run_7_9 as [s|] eqn:Hs; [|vm_compute in Hs; discriminate].
  assert (Hp : producer s = PWrite 9 1) by (vm_compute in Hs; by injection Hs as <-).
  assert (Hc : consumer s = CRead 0) by (vm_compute in Hs; by injection Hs as <-).
  assert (Hw : waiting s = [7]) by (vm_compute in Hs; by injection Hs as <-).
  exists s. split; [done|]. split; [exact Hp|]. split; [exact Hc|]. split; [exact Hw|].
  destruct (work_queue_fifo s (run_7_9_reachable s Hs)) as (_ & _ & _ & _ & _ & Hr). by apply (Hr 9).
Defined.

(** The worker has taken operation 7 and seen the queue empty, and is about to wait; then
    the main thread publishes operation 9 and signals it. *)
Definition late_9 : option Threads :=
  s ← replay (replicate 6 true ++ replicate 9 false) (called 7 (start junk16));
  replay (replicate 6 true) (called 9 s).
Lemma late_9_reachable s : late_9 = Some s -> reachable s.
Proof.
  unfold late_9. intros (s1 & H1 & H2)%bind_Some. exists junk16. split; [done|].
  assert (Hidle : producer s1 = PIdle) by (vm_compute in H1; by injection H1 as <-).
  etrans; [|by eapply replay_steps]. etrans; [|by eapply rtc_once, step_call].
  eapply rtc_l; [|by eapply replay_steps]. by apply (step_call 7).
Qed.
Lemma worker_drains_witness :
  exists s n, late_9 = Some s /\ consumer s = CTest 1 1 /\ processed s = [7] /\
    let s' := run_alone n s in run_step s' = None /\ processed s' = [7; 9].
Proof.
  destruct late_9 as [s|] eqn:Hs; [|vm_compute in Hs; discriminate].
  assert (Hp : producer s = PIdle) by (vm_compute in Hs; by injection Hs as <-).
  assert (Ha : accepted s = [7; 9]) by (vm_compute in Hs; by injection Hs as <-).
  destruct (worker_drains s (late_9_reachable s Hs) Hp) as (n & H1 & _ & _ & H4). exists s, n. split; [reflexivity|].
  split; [vm_compute in Hs; by injection Hs as <-|]. split; [vm_compute in Hs; by injection Hs as <-|].
  split; [exact H1|]. rewrite <- Ha. exact H4.
Defined.

Lemma workerEnqueue_correct_witness :
  exists p', workerEnqueue true 5 (mkPool [init junk16; init junk16] 1) = Ok (0, p') /\
    Forall2 holds [[]; [5]] (workers p').
Proof.
  assert (Hh : holds [] (init junk16)) by (split; simpl; try reflexivity; try done; lia).
  assert (Hhs : Forall2 holds [[]; []] [init junk16; init junk16]) by (constructor; [exact Hh|constructor; [exact Hh|constructor]]).
  destruct (wpf_value _ _ _ (mkPool [init junk16; init junk16] 1) 0
    (workerEnqueue_correct [[]; []] (mkPool [init junk16; init junk16] 1) 5 Hhs ltac:(done) ltac:(simpl; lia) ltac:(simpl; lia)))
    as (p' & Hr & _ & Hcase).
  - vm_compute. reflexivity.
  - exists p'. split; [exact Hr|]. destruct Hcase as [(_ & o & l & Ho & Hl & _ & Hfirst & HF)|(? & _)]; [|done].
    destruct (decide (o = 0)) as [->|]; [assert (l = []) as -> by (vm_compute in Hl; congruence); exact HF|].
    assert (o = 1) as -> by (simpl in Ho; lia). destruct (Hfirst 0 ltac:(lia)) as (l' & Hl' & Hlen).
    simpl in Hl'. by simplify_eq.
Defined.
