(* ===== verification/Syscall.v ===== *)
(** * The messages of system calls

    Models [libipc/src/syscall.zig] and [libipc/src/syscall_response.zig]: a system
    call is written into the message registers of the caller, travels as the first
    registers of the message, and is read back by the server; the reply takes the
    same way back.  The state is the registers of one thread; a word of the machine
    has 64 bits. *)

From S2P Require Import Prelude.

(** ** Messages *)

(** The parts of a [seL4_MessageInfo_t] that the code uses. *)
Record MessageInfo := MI { label : Z; extraCaps : Z; msg_length : Z }.
Definition MessageInfo_new (l caps extra len : Z) : MessageInfo := MI l extra len.

(** The message registers of a thread. *)
Abbreviation Regs := (list Z).
Definition SetMR (i : nat) (v : Z) : M Regs unit :=
  r ← get; _ ← access (r !! i); put (<[i := v]> r).
Definition GetMR (i : nat) : M Regs Z := r ← get; access (r !! i).

(** ** System calls *)

Inductive SyscallNum :=
| NOpen | NClose | NRead | NWrite | NUsleep | NTimestamp | NMyId | NBrk | NMmap | NStat | NGetDirent
| NPagerStats | NLseek | NUnlink.
Definition intFromEnum (n : SyscallNum) : Z :=
  match n with
  | NOpen => 1 | NClose => 2 | NRead => 3 | NWrite => 4 | NUsleep => 5 | NTimestamp => 6 | NMyId => 7
  | NBrk => 8 | NMmap => 9 | NStat => 10 | NGetDirent => 11 | NPagerStats => 12 | NLseek => 13 | NUnlink => 14
  end.
Definition all_nums : list SyscallNum :=
  [NOpen; NClose; NRead; NWrite; NUsleep; NTimestamp; NMyId; NBrk; NMmap; NStat; NGetDirent; NPagerStats; NLseek; NUnlink].
(** [std.meta.intToEnum]: the tag with the given value, if there is one. *)
Definition intToEnum (w : Z) : option SyscallNum := List.find (fun n => bool_decide (intFromEnum n = w)) all_nums.

Inductive Syscall :=
| Open (arg buf_addr buf_size : Z)
| Close (arg : Z)
| Read (arg buf_addr buf_size : Z)
| Write (arg buf_addr buf_size : Z)
| Usleep (arg : Z)
| Timestamp
| MyId
| Brk (new_break : Z)
| Mmap (addr length prot flags fd offset : Z)
| Stat (path_addr path_len out_addr out_len : Z)
| GetDirent (index buf_addr buf_size : Z)
| PagerStats
| Lseek (fd offset whence : Z)
| Unlink (path_addr path_len : Z).

Definition tag (c : Syscall) : SyscallNum :=
  match c with
  | Open _ _ _ => NOpen | Close _ => NClose | Read _ _ _ => NRead | Write _ _ _ => NWrite | Usleep _ => NUsleep
  | Timestamp => NTimestamp | MyId => NMyId | Brk _ => NBrk | Mmap _ _ _ _ _ _ => NMmap | Stat _ _ _ _ => NStat
  | GetDirent _ _ _ => NGetDirent | PagerStats => NPagerStats | Lseek _ _ _ => NLseek | Unlink _ _ => NUnlink
  end.

Definition serialise (c : Syscall) : M Regs MessageInfo :=
  match c with
  | Open a b d => SetMR 0 (intFromEnum NOpen);; SetMR 1 a;; SetMR 2 b;; SetMR 3 d;; mret (MessageInfo_new 0 0 0 4)
  | Close a => SetMR 0 (intFromEnum NClose);; SetMR 1 a;; SetMR 2 0;; SetMR 3 0;; mret (MessageInfo_new 0 0 0 4)
  | Read a b d => SetMR 0 (intFromEnum NRead);; SetMR 1 a;; SetMR 2 b;; SetMR 3 d;; mret (MessageInfo_new 0 0 0 4)
  | Write a b d => SetMR 0 (intFromEnum NWrite);; SetMR 1 a;; SetMR 2 b;; SetMR 3 d;; mret (MessageInfo_new 0 0 0 4)
  | Stat p pl o ol =>
    SetMR 0 (intFromEnum NStat);; SetMR 1 p;; SetMR 2 pl;; SetMR 3 o;; SetMR 4 ol;; mret (MessageInfo_new 0 0 0 5)
  | GetDirent i b d =>
    SetMR 0 (intFromEnum NGetDirent);; SetMR 1 i;; SetMR 2 b;; SetMR 3 d;; mret (MessageInfo_new 0 0 0 4)
  | Usleep a => SetMR 0 (intFromEnum NUsleep);; SetMR 1 a;; SetMR 2 0;; SetMR 3 0;; mret (MessageInfo_new 0 0 0 4)
  | Timestamp => SetMR 0 (intFromEnum NTimestamp);; SetMR 1 0;; SetMR 2 0;; SetMR 3 0;; mret (MessageInfo_new 0 0 0 4)
  | MyId => SetMR 0 (intFromEnum NMyId);; SetMR 1 0;; SetMR 2 0;; SetMR 3 0;; mret (MessageInfo_new 0 0 0 4)
  | Brk n => SetMR 0 (intFromEnum NBrk);; SetMR 1 n;; SetMR 2 0;; SetMR 3 0;; mret (MessageInfo_new 0 0 0 4)
  | Mmap a l p f fd o =>
    SetMR 0 (intFromEnum NMmap);; SetMR 1 a;; SetMR 2 l;; SetMR 3 p;; SetMR 4 f;; SetMR 5 fd;; SetMR 6 o;;
    mret (MessageInfo_new 0 0 0 7)
  | PagerStats => SetMR 0 (intFromEnum NPagerStats);; SetMR 1 0;; SetMR 2 0;; SetMR 3 0;; mret (MessageInfo_new 0 0 0 4)
  | Lseek fd o w => SetMR 0 (intFromEnum NLseek);; SetMR 1 fd;; SetMR 2 o;; SetMR 3 w;; mret (MessageInfo_new 0 0 0 4)
  | Unlink p pl => SetMR 0 (intFromEnum NUnlink);; SetMR 1 p;; SetMR 2 pl;; SetMR 3 0;; mret (MessageInfo_new 0 0 0 4)
  end.

Inductive SyscallDeserialisationError := NoMessageRegisters | HasExtraCaps | InvalidSyscallNumber.

(** [if (len < n) error.NoMessageRegisters else m] *)
Definition need (len n : Z) (m : M Regs Syscall) : M Regs (SyscallDeserialisationError + Syscall) :=
  if bool_decide (len < n) then mret (inl NoMessageRegisters) else c ← m; mret (inr c).

Definition deserialise (msg : MessageInfo) : M Regs (SyscallDeserialisationError + Syscall) :=
  let len := msg_length msg in
  if bool_decide (len < 1) then mret (inl NoMessageRegisters)
  else if bool_decide (extraCaps msg ≠ 0) then mret (inl HasExtraCaps)
  else
    raw_syscall ← GetMR 0;
    match intToEnum raw_syscall with
    | None => mret (inl InvalidSyscallNumber)
    | Some n =>
      match n with
      | NOpen => need len 4 (a ← GetMR 1; b ← GetMR 2; c ← GetMR 3; mret (Open a b c))
      | NClose => need len 2 (a ← GetMR 1; mret (Close a))
      | NRead => need len 4 (a ← GetMR 1; b ← GetMR 2; c ← GetMR 3; mret (Read a b c))
      | NWrite => need len 4 (a ← GetMR 1; b ← GetMR 2; c ← GetMR 3; mret (Write a b c))
      | NStat => need len 5 (a ← GetMR 1; b ← GetMR 2; c ← GetMR 3; d ← GetMR 4; mret (Stat a b c d))
      | NUsleep => need len 2 (a ← GetMR 1; mret (Usleep a))
      | NTimestamp => mret (inr Timestamp)
      | NMyId => mret (inr MyId)
      | NBrk => need len 2 (a ← GetMR 1; mret (Brk a))
      | NMmap =>
        need len 7 (a ← GetMR 1; b ← GetMR 2; c ← GetMR 3; d ← GetMR 4; e ← GetMR 5; f ← GetMR 6; mret (Mmap a b c d e f))
      | NGetDirent => need len 4 (a ← GetMR 1; b ← GetMR 2; c ← GetMR 3; mret (GetDirent a b c))
      | NPagerStats => mret (inr PagerStats)
      | NLseek => need len 4 (a ← GetMR 1; b ← GetMR 2; c ← GetMR 3; mret (Lseek a b c))
      | NUnlink => need len 3 (a ← GetMR 1; b ← GetMR 2; mret (Unlink a b))
      end
    end.

(** ** Replies *)

Definition i32 (z : Z) : Prop := - 2 ^ 31 ≤ z < 2 ^ 31.
Definition i64 (z : Z) : Prop := - 2 ^ 63 ≤ z < 2 ^ 63.

Definition wordToU64 (word : Z) : Z := word.
(** [@bitCast] of a word to a signed integer, and back. *)
Definition wordToI64 (word : Z) : Z := if bool_decide (word < 2 ^ 63) then word else word - 2 ^ 64.
(** [@intCast] is illegal when the value does not fit. *)
Definition wordToCInt {S} (word : Z) : M S Z :=
  let v := wordToI64 word in
  if bool_decide (- 2 ^ 31 ≤ v) && bool_decide (v < 2 ^ 31) then mret v else throw Undefined.
Definition i64ToWord (value : Z) : Z := value mod 2 ^ 64.
Definition cIntToWord (value : Z) : Z := i64ToWord value.
Definition u64ToWord (value : Z) : Z := value.

Inductive SyscallResponse :=
| ROpen (result : Z)
| RClose (result : Z)
| RRead (result : Z)
| RWrite (result : Z)
| RUsleep (result : Z)
| RTimestamp (timestamp : Z)
| RMyId (pid : Z)
| RBrk (result : Z)
| RMmap (result : Z)
| RStat (result : Z)
| RGetDirent (result : Z)
| RPagerStats (deferred_faults dedup_hits job_submissions job_completions job_failures : Z)
| RLseek (result : Z)
| RUnlink (result : Z).

Inductive SyscallCallError := EmptyReply | ReplyHasExtraCaps.

Definition response_deserialise (t : SyscallNum) (msg : MessageInfo) : M Regs (SyscallCallError + SyscallResponse) :=
  let len := msg_length msg in
  if bool_decide (len < 1) then mret (inl EmptyReply)
  else if bool_decide (extraCaps msg ≠ 0) then mret (inl ReplyHasExtraCaps)
  else
    mr0 ← GetMR 0;
    match t with
    | NOpen => v ← wordToCInt mr0; mret (inr (ROpen v))
    | NClose => v ← wordToCInt mr0; mret (inr (RClose v))
    | NRead => v ← wordToCInt mr0; mret (inr (RRead v))
    | NWrite => v ← wordToCInt mr0; mret (inr (RWrite v))
    | NUsleep => v ← wordToCInt mr0; mret (inr (RUsleep v))
    | NTimestamp => mret (inr (RTimestamp (wordToI64 mr0)))
    | NMyId => v ← wordToCInt mr0; mret (inr (RMyId v))
    | NBrk => mret (inr (RBrk (wordToI64 mr0)))
    | NMmap => mret (inr (RMmap (wordToI64 mr0)))
    | NStat => v ← wordToCInt mr0; mret (inr (RStat v))
    | NGetDirent => v ← wordToCInt mr0; mret (inr (RGetDirent v))
    | NPagerStats =>
      if bool_decide (len < 5) then mret (inl EmptyReply)
      else
        a ← GetMR 0; b ← GetMR 1; c ← GetMR 2; d ← GetMR 3; e ← GetMR 4;
        mret (inr (RPagerStats (wordToU64 a) (wordToU64 b) (wordToU64 c) (wordToU64 d) (wordToU64 e)))
    | NLseek => mret (inr (RLseek (wordToI64 mr0)))
    | NUnlink => v ← wordToCInt mr0; mret (inr (RUnlink v))
    end.

(** The word of a reply of one word. *)
Definition response_word (r : SyscallResponse) : Z :=
  match r with
  | ROpen v | RClose v | RRead v | RWrite v | RUsleep v | RMyId v | RStat v | RGetDirent v | RUnlink v => cIntToWord v
  | RTimestamp v | RBrk v | RMmap v | RLseek v => i64ToWord v
  | RPagerStats _ _ _ _ _ => 0
  end.
Definition response_serialise (r : SyscallResponse) : M Regs MessageInfo :=
  match r with
  | RPagerStats a b c d e =>
    SetMR 0 (u64ToWord a);; SetMR 1 (u64ToWord b);; SetMR 2 (u64ToWord c);; SetMR 3 (u64ToWord d);;
    SetMR 4 (u64ToWord e);; mret (MessageInfo_new 0 0 0 5)
  | _ => SetMR 1 0;; SetMR 2 0;; SetMR 3 0;; SetMR 0 (response_word r);; mret (MessageInfo_new 0 0 0 1)
  end.

(** ** What the server accepts *)

(** The words of a system call: its number and its arguments. *)
Definition words (c : Syscall) : list Z :=
  intFromEnum (tag c) ::
  match c with
  | Open a b d | Read a b d | Write a b d | GetDirent a b d | Lseek a b d => [a; b; d]
  | Close a | Usleep a | Brk a => [a]
  | Timestamp | MyId | PagerStats => []
  | Mmap a b d e f g => [a; b; d; e; f; g]
  | Stat a b d e => [a; b; d; e]
  | Unlink a b => [a; b]
  end.

Lemma intToEnum_Some w n : intToEnum w = Some n <-> intFromEnum n = w.
Proof.
  split.
  - intros H. apply List.find_some in H as [_ H]. by bd.
  - intros <-. by destruct n.
Qed.

Lemma prefix_of_take {A} (l r : list A) n : l `prefix_of` take n r <-> l `prefix_of` r /\ (length l ≤ n)%nat.
Proof.
  split.
  - intros H. split; [by etrans; [|apply prefix_take]|]. apply prefix_length in H. rewrite length_take in H. lia.
  - intros [[k ->] H]. rewrite take_app, take_ge by done. by apply prefix_app_r.
Qed.



Lemma deserialise_spec msg r c :
  (7 ≤ length r)%nat ->
  deserialise msg r = Ok (inr c, r) <->
  extraCaps msg = 0 /\ words c `prefix_of` take (Z.to_nat (msg_length msg)) r.
Proof.
  intros Hlen. destruct msg as [lb x len]. rewrite prefix_of_take.
  destruct r as [|w0 [|w1 [|w2 [|w3 [|w4 [|w5 [|w6 r]]]]]]]; simpl in Hlen; try lia.
  unfold deserialise. simpl.
  destruct (bool_decide (len < 1)) eqn:H1; bd.
  { split; [done|]. intros (_ & _ & H). destruct c; simpl in H; lia. }
  destruct (bool_decide (x ≠ 0)) eqn:Hx; bd; [split; [done|naive_solver]|].
  unfold need, GetMR, mbind, M_bind, get, access, mret, M_ret. simpl.
  split.
  - intros H. split; [lia|]. destruct (intToEnum w0) as [n|] eqn:Hn; [|done].
    apply intToEnum_Some in Hn as <-.
    destruct n; simpl in H; try (case_bool_decide; [done|]); injection H as <-; simpl;
      (split; [by eexists|lia]).
  - intros (_ & Hp & Hl).
    destruct c; simpl in Hp, Hl; destruct Hp as [k Hk]; simplify_eq/=;
      try (rewrite bool_decide_false by lia); done.
Qed.

(** C31: The server reads a message as the system call [c] exactly when the message
    carries no capabilities and its registers, up to the length of the message, begin
    with the words of [c]; no register beyond the message decides what it means, and
    reading changes none. *)
Theorem deserialise_iff msg r c :
  (7 ≤ length r)%nat ->
  deserialise msg r = Ok (inr c, r) <->
  extraCaps msg = 0 /\ words c `prefix_of` take (Z.to_nat (msg_length msg)) r.
Proof. apply deserialise_spec. Qed.
Lemma deserialise_iff_witness :
  deserialise (MI 0 0 2) [2; 5; 77; 77; 77; 77; 77] = Ok (inr (Close 5), [2; 5; 77; 77; 77; 77; 77]).
Proof. apply (deserialise_iff (MI 0 0 2)); [simpl; lia|]. split; [reflexivity|]. exists []. reflexivity. Defined.

(** ** A call and its reply *)

(** What the kernel does with a message: the registers of the message arrive in the
    first registers of the receiver. *)
Definition transfer (msg : MessageInfo) (from to : Regs) : Regs :=
  take (Z.to_nat (msg_length msg)) from ++ drop (Z.to_nat (msg_length msg)) to.

Definition call (seL4_Call : MessageInfo -> M Regs MessageInfo) (c : Syscall) : M Regs (SyscallCallError + SyscallResponse) :=
  request ← serialise c;
  reply ← seL4_Call request;
  response_deserialise (tag c) reply.

(** The kernel, with a server whose registers are [srv] and which answers [f]. *)
Definition rpc (f : Syscall -> SyscallResponse) (srv : Regs) (msg : MessageInfo) : M Regs MessageInfo := fun r =>
  match deserialise msg (transfer msg r srv) with
  | Ok (inr c, srv1) =>
    match response_serialise (f c) srv1 with
    | Ok (reply, srv2) => Ok (reply, transfer reply srv2 r)
    | Fault e => Fault e
    end
  | Ok (inl _, _) => Fault AssertFail
  | Fault e => Fault e
  end.

Definition response_tag (r : SyscallResponse) : SyscallNum :=
  match r with
  | ROpen _ => NOpen | RClose _ => NClose | RRead _ => NRead | RWrite _ => NWrite | RUsleep _ => NUsleep
  | RTimestamp _ => NTimestamp | RMyId _ => NMyId | RBrk _ => NBrk | RMmap _ => NMmap | RStat _ => NStat
  | RGetDirent _ => NGetDirent | RPagerStats _ _ _ _ _ => NPagerStats | RLseek _ => NLseek | RUnlink _ => NUnlink
  end.
(** The fields of a reply are values of their types. *)
Definition response_ok (r : SyscallResponse) : Prop :=
  match r with
  | ROpen v | RClose v | RRead v | RWrite v | RUsleep v | RMyId v | RStat v | RGetDirent v | RUnlink v => i32 v
  | RTimestamp v | RBrk v | RMmap v | RLseek v => i64 v
  | RPagerStats a b c d e => is_w64 a /\ is_w64 b /\ is_w64 c /\ is_w64 d /\ is_w64 e
  end.

Lemma wordToI64_ToWord v : i64 v -> wordToI64 (i64ToWord v) = v.
Proof.
  unfold i64, wordToI64, i64ToWord. intros H.
  destruct (decide (0 ≤ v)).
  - rewrite Z.mod_small by lia. by rewrite bool_decide_true by lia.
  - rewrite <- (Z.mod_unique v (2 ^ 64) (-1) (v + 2 ^ 64)) by lia. rewrite bool_decide_false by lia. lia.
Qed.
Lemma wordToCInt_ToWord {S} v (s : S) : i32 v -> wordToCInt (cIntToWord v) s = Ok (v, s).
Proof.
  unfold i32, wordToCInt, cIntToWord. intros H. rewrite wordToI64_ToWord by (unfold i64; lia).
  by rewrite !bool_decide_true by lia.
Qed.

#[local] Arguments cIntToWord : simpl never.
#[local] Arguments i64ToWord : simpl never.
#[local] Arguments wordToI64 : simpl never.
#[local] Arguments wordToCInt : simpl never.

(** The shape of seven registers or more. *)
Lemma seven_regs (r : Regs) : (7 ≤ length r)%nat -> exists a b c d e f g r', r = a :: b :: c :: d :: e :: f :: g :: r'.
Proof. destruct r as [|? [|? [|? [|? [|? [|? [|? r]]]]]]]; simpl; try lia. intros _. by repeat eexists. Qed.

Lemma serialise_spec c r :
  (7 ≤ length r)%nat ->
  exists msg r', serialise c r = Ok (msg, r') /\ extraCaps msg = 0 /\ length r' = length r /\
    (Z.to_nat (msg_length msg) ≤ 7)%nat /\ words c `prefix_of` take (Z.to_nat (msg_length msg)) r'.
Proof.
  intros (w0 & w1 & w2 & w3 & w4 & w5 & w6 & r' & ->)%seven_regs.
  destruct c; (do 2 eexists; split; [reflexivity|split; [reflexivity|split; [reflexivity|split; [simpl; lia|]]]]); simpl; by eexists.
Qed.

Lemma transfer_prefix l msg from to :
  l `prefix_of` take (Z.to_nat (msg_length msg)) from -> l `prefix_of` take (Z.to_nat (msg_length msg)) (transfer msg from to).
Proof.
  rewrite !prefix_of_take. unfold transfer. intros [[k Hk] Hl]. split; [|done]. subst from.
  rewrite take_app, take_ge, <- app_assoc by done. by eexists.
Qed.
Lemma length_transfer msg from to :
  (Z.to_nat (msg_length msg) ≤ length from)%nat -> (length to ≤ length (transfer msg from to))%nat.
Proof. intros. unfold transfer. rewrite length_app, length_take, length_drop. lia. Qed.

Lemma response_round_trip_spec rsp srv r :
  (7 ≤ length srv)%nat -> (7 ≤ length r)%nat -> response_ok rsp ->
  exists reply srv', response_serialise rsp srv = Ok (reply, srv') /\
    wp (response_deserialise (response_tag rsp) reply) (fun res _ => res = inr rsp) (transfer reply srv' r).
Proof.
  intros (a0 & a1 & a2 & a3 & a4 & a5 & a6 & srv' & ->)%seven_regs (b0 & b1 & b2 & b3 & b4 & b5 & b6 & r' & ->)%seven_regs Hok.
  destruct rsp; (do 2 eexists; split; [reflexivity|]); simpl in Hok;
    unfold response_deserialise, transfer, GetMR; simpl; unfold mbind, M_bind, get, access, mret, M_ret, wpf; simpl;
    rewrite ?(wordToCInt_ToWord (S := Regs)), ?wordToI64_ToWord by done; done.
Qed.

(** C30: A system call returns to the program exactly the reply that the server
    gave to exactly the system call that the program made, for every call, every
    reply whose fields are values of their types, and whatever the registers of both
    held before. *)
Theorem syscall_call_correct f srv r c :
  (7 ≤ length srv)%nat -> (7 ≤ length r)%nat ->
  response_tag (f c) = tag c -> response_ok (f c) ->
  wp (call (rpc f srv) c) (fun res _ => res = inr (f c)) r.
Proof.
  intros Hs Hr Ht Hok. destruct (serialise_spec c r Hr) as (msg & r' & Hser & Hx & Hlen & H7 & Hp).
  unfold call. apply wpf_bind. eapply wpf_ok; [done|]. apply wpf_bind.
  assert (Hl : (Z.to_nat (msg_length msg) ≤ length r')%nat) by lia.
  assert (Hd : deserialise msg (transfer msg r' srv) = Ok (inr c, transfer msg r' srv)).
  { apply deserialise_spec; [pose proof (length_transfer msg r' srv Hl); lia|]. split; [done|]. by apply transfer_prefix. }
  destruct (response_round_trip_spec (f c) (transfer msg r' srv) r') as (reply & srv' & Hrs & Hrd);
    [pose proof (length_transfer msg r' srv Hl); lia|lia|done|].
  eapply wpf_ok; [unfold rpc; by rewrite Hd, Hrs|]. by rewrite Ht in Hrd.
Qed.
Lemma syscall_call_correct_witness :
  exists r', call (rpc (fun _ => RLseek (-29)) [9; 9; 9; 9; 9; 9; 9]) (Lseek 5 7 2) [1; 2; 3; 4; 5; 6; 7]
             = Ok (inr (RLseek (-29)), r').
Proof.
  pose proof (syscall_call_correct (fun _ => RLseek (-29)) [9; 9; 9; 9; 9; 9; 9] [1; 2; 3; 4; 5; 6; 7] (Lseek 5 7 2)
    ltac:(simpl; lia) ltac:(simpl; lia) eq_refl ltac:(simpl; unfold i64; lia)) as H.
  destruct (wp_inv _ _ _ H) as (res & r' & Hr & ->). exists r'. exact Hr.
Defined.
