(* ===== verification/Clients.v ===== *)
(** * Clients and their badges

    Models [libipc/src/ipc.c] with the badges of [libipc/include/ipc.h], and the
    handles of [sos/src/vm/mod.zig] and [sos/src/vm/handle.zig] that go with each
    client.  A client has a slot of a table; its badge names the slot and the
    generation of the slot, so that a badge outlives its client without being taken
    for the next one. *)

From S2P Require Import Prelude.

Definition MAX_CLIENTS : Z := 128.
Definition ID_BITS : Z := 7.
Definition GEN_BITS : Z := 8.
Definition ID_MASK : Z := 127.
Definition GEN_MASK : Z := 255.

(** ** Badges *)

Definition badge_make {S} (id gen flags : Z) : M S Z :=
  let LOW_MASK := Z.shiftl 1 (ID_BITS + GEN_BITS) - 1 in
  cassert (bool_decide (Z.land flags LOW_MASK = 0));;
  mret (Z.lor (Z.lor (Z.land id ID_MASK) (w64 (Z.shiftl (Z.land gen GEN_MASK) ID_BITS))) flags).
Definition badge_id (b : Z) : Z := Z.land b ID_MASK.
Definition badge_gen (b : Z) : Z := Z.land (Z.shiftr b ID_BITS) (Z.shiftl 1 GEN_BITS - 1).

(** ** The table *)

Record client_t := Client { cid : Z; cgen : Z; vspace : Z; vm_state : option Z }.
(** A [VmHandle], known by its index in [vm_handles]. *)
Record VmHandle := Handle { idx : Z; generation : Z; client : option Z }.

(** The clients by address, the four variables of the table, the handles, and the
    slots whose memory was torn down, last first. *)
Record table := Table {
  heap : gmap Z client_t;
  clients : list (option Z); generations : list Z; free_ids : list Z; free_top : Z;
  vm_handles : list VmHandle; vm_handle_active : list bool;
  torn_down : list Z }.

Definition set_heap h (t : table) := Table h (clients t) (generations t) (free_ids t) (free_top t) (vm_handles t) (vm_handle_active t) (torn_down t).
Definition set_clients c (t : table) := Table (heap t) c (generations t) (free_ids t) (free_top t) (vm_handles t) (vm_handle_active t) (torn_down t).
Definition set_generations g (t : table) := Table (heap t) (clients t) g (free_ids t) (free_top t) (vm_handles t) (vm_handle_active t) (torn_down t).
Definition set_free f n (t : table) := Table (heap t) (clients t) (generations t) f n (vm_handles t) (vm_handle_active t) (torn_down t).
Definition set_handle h a (t : table) := Table (heap t) (clients t) (generations t) (free_ids t) (free_top t) h a (torn_down t).
Definition tear_down i (t : table) := Table (heap t) (clients t) (generations t) (free_ids t) (free_top t) (vm_handles t) (vm_handle_active t) (i :: torn_down t).

(** An array cell is written; outside the array it faults. *)
Definition store {A} (l : list A) (i : Z) (v : A) : M table (list A) :=
  _ ← access (if bool_decide (0 ≤ i) then l !! Z.to_nat i else None); mret (<[Z.to_nat i := v]> l).
Definition load {A} (l : list A) (i : Z) : M table A := access (if bool_decide (0 ≤ i) then l !! Z.to_nat i else None).
Definition client_at (a : Z) : M table client_t := t ← get; deref (heap t !! a).

Definition client_table_init : M table unit :=
  modify (fun t => set_generations (replicate 128 0) (set_clients (replicate 128 None) (set_free (seqZ 0 128) MAX_CLIENTS t))).

(** *** Handles *)

Definition vmStateIndex (cl : Z) : M table Z := c ← client_at cl; mret (cid c).

Definition vm_state_acquire (cl : Z) : M table (option Z) :=
  i ← vmStateIndex cl;
  c ← client_at cl;
  t ← get;
  hs ← store (vm_handles t) i (Handle i (cgen c) (Some cl));
  ac ← store (vm_handle_active t) i true;
  modify (set_handle hs ac);;
  mret (Some i).

Definition vm_state_lookup (cl : Z) : M table (option Z) :=
  i ← vmStateIndex cl;
  t ← get;
  active ← load (vm_handle_active t) i;
  if negb active then mret None
  else
    h ← load (vm_handles t) i;
    if bool_decide (client h ≠ Some cl) then mret None
    else
      c ← client_at cl;
      if bool_decide (generation h ≠ cgen c) then mret None else mret (Some i).

Definition vm_state_release (cl : Z) : M table unit :=
  i ← vmStateIndex cl;
  t ← get;
  active ← load (vm_handle_active t) i;
  if negb active then mret tt
  else
    ac ← store (vm_handle_active t) i false;
    hs ← store (vm_handles t) i (Handle i 0 None);
    modify (set_handle hs ac);;
    modify (tear_down i).

(** [VmHandle.validate]; a [@panic] is fatal. *)
Definition validate (h : Z) : M table unit :=
  t ← get;
  hd ← load (vm_handles t) h;
  let i := idx hd in
  if bool_decide (MAX_CLIENTS ≤ i) then throw Fatal
  else
    active ← load (vm_handle_active t) i;
    if negb active then throw Fatal
    else
      match client hd with
      | None => throw Fatal
      | Some cl =>
        c ← client_at cl;
        if bool_decide (cid c ≠ i) then throw Fatal
        else if bool_decide (cgen c ≠ generation hd) then throw Fatal
        else mret tt
      end.
Definition getClient (h : Z) : M table Z := validate h;; t ← get; hd ← load (vm_handles t) h; deref (client hd).

(** *** Clients *)

Section clients.
(** The allocator: an address for a new client, or NULL. *)
Context (calloc : gmap Z client_t -> option Z).

(** Put an identifier back: [free_ids[free_top++] = id]. *)
Definition give_back (id : Z) : M table unit :=
  t ← get; f ← store (free_ids t) (free_top t) id; modify (set_free f (free_top t + 1)).

Definition client_create (vspace_root : Z) : M table (option (Z * Z)) :=
  t ← get;
  if bool_decide (free_top t = 0) then mret None
  else
    let top := free_top t - 1 in
    id ← load (free_ids t) top;
    modify (set_free (free_ids t) top);;
    old ← load (generations t) id;
    let gen := w8 (old + 1) in
    gs ← store (generations t) id gen;
    modify (set_generations gs);;
    match calloc (heap t) with
    | None => give_back id;; mret None
    | Some c =>
      modify (fun t => set_heap (<[c := Client id gen vspace_root None]> (heap t)) t);;
      h ← vm_state_acquire c;
      modify (fun t => set_heap (<[c := Client id gen vspace_root h]> (heap t)) t);;
      match h with
      | None => give_back id;; modify (fun t => set_heap (delete c (heap t)) t);; mret None
      | Some _ =>
        t ← get;
        cs ← store (clients t) id (Some c);
        modify (set_clients cs);;
        badge ← badge_make id gen 0;
        mret (Some (c, badge))
      end
    end.
End clients.

Definition client_lookup (badge : Z) : M table (option Z) :=
  t ← get;
  let id := badge_id badge in
  let gen := badge_gen badge in
  c ← (if bool_decide (id < MAX_CLIENTS) then load (clients t) id else mret None);
  match c with
  | None => mret None
  | Some a => g ← load (generations t) id; if bool_decide (g = gen) then mret (Some a) else mret None
  end.

Definition client_destroy (cl : option Z) : M table unit :=
  match cl with
  | None => mret tt
  | Some a =>
    c ← client_at a;
    let id := cid c in
    t ← get;
    cs ← store (clients t) id None;
    modify (set_clients cs);;
    vm_state_release a;;
    modify (fun t => set_heap (<[a := Client (cid c) (cgen c) (vspace c) None]> (heap t)) t);;
    give_back id;;
    modify (fun t => set_heap (delete a (heap t)) t)
  end.

(** ** Badges are packed without loss *)

Lemma badge_make_spec {S} id gen (s : S) :
  0 ≤ id < 128 -> 0 ≤ gen < 256 ->
  wp (badge_make id gen 0) (fun b s' => s' = s /\ badge_id b = id /\ badge_gen b = gen) s.
Proof.
  intros Hi Hg. unfold badge_make. wp_line. apply wpf_assert; [by apply bool_decide_eq_true|]. wp_line. split; [done|].
  unfold badge_id, badge_gen, ID_MASK, GEN_MASK, ID_BITS, GEN_BITS.
  change 127 with (Z.ones 7). change 255 with (Z.ones 8). change (Z.shiftl 1 8 - 1) with (Z.ones 8).
  rewrite Z.lor_0_r, !Z.land_ones, !Z.shiftl_mul_pow2 by lia. change (2 ^ 7) with 128. change (2 ^ 8) with 256.
  rewrite (Z.mod_small id), (Z.mod_small gen) by lia. rewrite w64_small by lia. split.
  - rewrite <- (Z.land_ones _ 7) by lia. rewrite Z.land_lor_distr_l, !Z.land_ones by lia.
    change (2 ^ 7) with 128. rewrite Z.mod_mul by lia. by rewrite Z.lor_0_r, Z.mod_small by lia.
  - rewrite Z.shiftr_lor, !Z.shiftr_div_pow2 by lia. change (2 ^ 7) with 128. rewrite Z.div_small, Z.div_mul by lia.
    rewrite Z.lor_0_l. by apply Z.mod_small.
Qed.

Lemma badge_id_range b : 0 ≤ badge_id b < 128.
Proof. unfold badge_id, ID_MASK. change 127 with (Z.ones 7). rewrite Z.land_ones by lia. apply Z.mod_pos_bound. lia. Qed.

(** ** The invariant *)

Definition free_list (t : table) : list Z := take (Z.to_nat (free_top t)) (free_ids t).

Record wf (t : table) : Prop := {
  w_clients : length (clients t) = 128%nat;
  w_generations : length (generations t) = 128%nat;
  w_free_ids : length (free_ids t) = 128%nat;
  w_handles : length (vm_handles t) = 128%nat;
  w_actives : length (vm_handle_active t) = 128%nat;
  w_top : 0 ≤ free_top t ≤ 128;
  w_gens : forall i g, generations t !! i = Some g -> 0 ≤ g < 256;
  w_nodup : NoDup (free_list t);
  w_free : forall id, id ∈ free_list t <-> 0 ≤ id /\ clients t !! Z.to_nat id = Some None;
  w_client : forall i a, clients t !! i = Some (Some a) ->
    exists g v, heap t !! a = Some (Client (Z.of_nat i) g v (Some (Z.of_nat i))) /\ generations t !! i = Some g /\
      vm_handles t !! i = Some (Handle (Z.of_nat i) g (Some a)) /\ vm_handle_active t !! i = Some true }.

Section lemmas.
Context (F : fault -> Prop).
Lemma wpf_client_load {A} (l : list A) i x (Q : A -> table -> Prop) s :
  0 ≤ i -> l !! Z.to_nat i = Some x -> Q x s -> wpf F (load l i) Q s.
Proof. intros. unfold load. rewrite bool_decide_true by done. by eapply wpf_access. Qed.
Lemma wpf_client_store {A} (l : list A) i v (Q : list A -> table -> Prop) s :
  0 ≤ i -> (Z.to_nat i < length l)%nat -> Q (<[Z.to_nat i := v]> l) s -> wpf F (store l i v) Q s.
Proof.
  intros ? [x ?]%lookup_lt_is_Some_2 ?. unfold store. apply wpf_bind. rewrite bool_decide_true by done.
  eapply wpf_access; [done|]. wp_line. done.
Qed.
Lemma wpf_client_at a c (Q : client_t -> table -> Prop) (s : table) :
  heap s !! a = Some c -> Q c s -> wpf F (client_at a) Q s.
Proof. intros. unfold client_at. wp_line. by eapply wpf_deref. Qed.
End lemmas.

Lemma free_list_bound t id : wf t -> id ∈ free_list t -> 0 ≤ id < 128.
Proof.
  intros H Hi. apply (w_free _ H) in Hi as [? Hi]. apply lookup_lt_Some in Hi. rewrite (w_clients _ H) in Hi. lia.
Qed.
Lemma length_free_list t : wf t -> length (free_list t) = Z.to_nat (free_top t).
Proof. intros H. unfold free_list. rewrite length_take, (w_free_ids _ H). pose proof (w_top _ H). lia. Qed.

(** An identifier in use leaves room in the array of free ones. *)
Lemma used_leaves_room t i a : wf t -> clients t !! i = Some (Some a) -> free_top t < 128.
Proof.
  intros H Hi. pose proof (w_top _ H).
  assert (Hn : Z.of_nat i ∉ free_list t) by (rewrite (w_free _ H), Nat2Z.id; intros [_ ?]; congruence).
  assert (Hb : Z.of_nat (length (Z.of_nat i :: free_list t)) ≤ Z.max 0 (128 - 0)).
  { apply NoDup_bounded_length; [constructor; [done|apply (w_nodup _ H)]|].
    intros x [->|Hx]%elem_of_cons; [|by apply (free_list_bound t)].
    apply lookup_lt_Some in Hi. rewrite (w_clients _ H) in Hi. lia. }
  simpl in Hb. rewrite (length_free_list _ H) in Hb. lia.
Qed.

(** The identifier that the next creation takes. *)
Definition next_id (t : table) : option Z := if bool_decide (free_top t = 0) then None else free_ids t !! Z.to_nat (free_top t - 1).
Lemma next_id_spec t : wf t -> free_top t ≠ 0 ->
  exists id, next_id t = Some id /\ free_list t = take (Z.to_nat (free_top t - 1)) (free_ids t) ++ [id].
Proof.
  intros H Hne. pose proof (w_top _ H). unfold next_id, free_list. rewrite bool_decide_false by done.
  destruct (lookup_lt_is_Some_2 (free_ids t) (Z.to_nat (free_top t - 1))) as [id Hid]; [rewrite (w_free_ids _ H); lia|].
  exists id. split; [done|]. replace (Z.to_nat (free_top t)) with (S (Z.to_nat (free_top t - 1))) by lia.
  by apply take_S_r.
Qed.

(** ** Creation *)

Lemma wf_bump t i g : wf t -> clients t !! i = Some None -> 0 ≤ g < 256 -> wf (set_generations (<[i := g]> (generations t)) t).
Proof.
  intros H Hi Hg. destruct H. split; simpl; rewrite ?length_insert; try done.
  - intros j g' Hj. apply list_lookup_insert_Some in Hj as [(_ & <- & _)|[_ Hj]]; eauto.
  - intros j a Hj. destruct (w_client0 j a Hj) as (g' & v & H1 & H2 & H3). exists g', v. split; [done|]. split; [|done].
    rewrite list_lookup_insert_ne; [done|]. intros ->. congruence.
Qed.

(** The table with client [a] in the slot [id]. *)
Definition created (id gen v a : Z) (t : table) : table :=
  Table (<[a := Client id gen v (Some id)]> (heap t)) (<[Z.to_nat id := Some a]> (clients t))
    (<[Z.to_nat id := gen]> (generations t)) (free_ids t) (free_top t - 1)
    (<[Z.to_nat id := Handle id gen (Some a)]> (vm_handles t)) (<[Z.to_nat id := true]> (vm_handle_active t)) (torn_down t).

Lemma wf_created t id gen v a :
  wf t -> free_top t ≠ 0 -> next_id t = Some id -> 0 ≤ gen < 256 -> heap t !! a = None -> wf (created id gen v a t).
Proof.
  intros H Hne Hn Hg Ha. destruct (next_id_spec t H Hne) as (id' & Hn' & Hfl).
  assert (id' = id) as -> by congruence. pose proof (w_top _ H).
  assert (Hin : id ∈ free_list t) by (rewrite Hfl; apply elem_of_app; right; by left).
  pose proof (free_list_bound t id H Hin). apply (w_free _ H) in Hin as [_ Hin].
  pose proof (w_nodup _ H) as Hnd. rewrite Hfl in Hnd. apply NoDup_app in Hnd as (Hnd & Hdis & _).
  set (rest := take (Z.to_nat (free_top t - 1)) (free_ids t)) in *.
  assert (Hrest : forall x, x ∈ rest -> x ≠ id) by (intros x Hx ->; apply (Hdis id Hx); by left).
  destruct H. split; unfold free_list; simpl; rewrite ?length_insert; try done; try lia.
  - intros j g' Hj. apply list_lookup_insert_Some in Hj as [(_ & <- & _)|[_ Hj]]; eauto.
  - fold rest. intros x. split.
    + intros Hx. pose proof (Hrest x Hx). assert (Hxf : x ∈ free_list t) by (rewrite Hfl; apply elem_of_app; by left).
      apply w_free0 in Hxf as [? Hxf]. split; [done|]. rewrite list_lookup_insert_ne; [done|lia].
    + intros [? Hx]. apply list_lookup_insert_Some in Hx as [(_ & [=] & _)|[Hx1 Hx2]].
      assert (Hxf : x ∈ free_list t) by (by apply w_free0). rewrite Hfl in Hxf.
      apply elem_of_app in Hxf as [|Hxf%list_elem_of_singleton]; [done|congruence].
  - intros j b Hj. destruct (decide (j = Z.to_nat id)) as [->|Hj'].
    + rewrite list_lookup_insert_eq in Hj by lia. injection Hj as <-. rewrite Z2Nat.id by lia. exists gen, v.
      rewrite lookup_insert_eq, !list_lookup_insert_eq by lia. done.
    + rewrite list_lookup_insert_ne in Hj by done. destruct (w_client0 j b Hj) as (g' & v' & Hw1 & Hw2 & Hw3 & Hw4).
      exists g', v'. rewrite lookup_insert_ne by congruence. rewrite !list_lookup_insert_ne by done. done.
Qed.

Section create.
Context (calloc : gmap Z client_t -> option Z).
Hypothesis calloc_fresh : forall h a, calloc h = Some a -> h !! a = None.

(** What a creation does to the table: a client in a free slot of the next
    generation, or, without memory, the next generation alone. *)
Lemma client_create_spec v t :
  wf t ->
  wp (client_create calloc v) (fun r t' =>
    match next_id t with
    | None => r = None /\ t' = t
    | Some id =>
      clients t !! Z.to_nat id = Some None /\ 0 ≤ id < 128 /\
      exists g, generations t !! Z.to_nat id = Some g /\ 0 ≤ g < 256 /\
      match calloc (heap t) with
      | None => r = None /\ t' = set_generations (<[Z.to_nat id := w8 (g + 1)]> (generations t)) t
      | Some a => exists b, r = Some (a, b) /\ badge_id b = id /\ badge_gen b = w8 (g + 1) /\ t' = created id (w8 (g + 1)) v a t
      end
    end) t.
Proof.
  intros H. unfold client_create. wp_line. apply wpf_if; intros Hb; bd.
  { wp_line. unfold next_id. by rewrite bool_decide_true by done. }
  destruct (next_id_spec t H Hb) as (id & Hn & Hfl). rewrite Hn.
  assert (Hin : id ∈ free_list t) by (rewrite Hfl; apply elem_of_app; right; by left).
  pose proof (free_list_bound t id H Hin) as Hid. apply (w_free _ H) in Hin as [_ Hin]. pose proof (w_top _ H).
  assert (Hfid : free_ids t !! Z.to_nat (free_top t - 1) = Some id).
  { unfold next_id in Hn. by rewrite bool_decide_false in Hn by done. }
  destruct (lookup_lt_is_Some_2 (generations t) (Z.to_nat id)) as [g Hg]; [rewrite (w_generations _ H); lia|].
  pose proof (w_gens _ H _ _ Hg) as Hgr.
  assert (Hw : 0 ≤ w8 (g + 1) < 256) by (apply Z.mod_pos_bound; lia).
  wp_line. eapply wpf_client_load; [lia|done|]. wp_line. eapply wpf_client_load; [lia|done|]. wp_line.
  apply wpf_client_store; [lia|rewrite (w_generations _ H); lia|]. wp_line.
  destruct (calloc (heap t)) as [a|] eqn:Hc.
  - wp_line. unfold vm_state_acquire, vmStateIndex. wp_line.
    eapply wpf_client_at; [apply lookup_insert_eq|]. wp_line. eapply wpf_client_at; [apply lookup_insert_eq|]. wp_line.
    apply wpf_client_store; [simpl; lia|simpl; rewrite (w_handles _ H); lia|]. wp_line.
    apply wpf_client_store; [simpl; lia|simpl; rewrite (w_actives _ H); lia|]. wp_line.
    apply wpf_client_store; [simpl; lia|simpl; rewrite (w_clients _ H); lia|]. wp_line.
    eapply wpf_mono; [by apply badge_make_spec|]. intros b t' (-> & Hbi & Hbg). wp_line.
    split; [done|]. split; [done|]. exists g. split; [done|]. split; [done|]. exists b.
    split; [done|]. split; [done|]. split; [done|]. unfold created; simpl. by rewrite insert_insert_eq.
  - unfold give_back. wp_line. apply wpf_client_store; [simpl; lia|simpl; rewrite (w_free_ids _ H); lia|]. wp_line.
    split; [done|]. split; [done|]. exists g. split; [done|]. split; [done|]. split; [done|].
    unfold set_generations, set_free; simpl. rewrite (list_insert_id (free_ids t)) by done. by replace (free_top t - 1 + 1) with (free_top t) by lia.
Qed.
End create.

(** ** Destruction *)

Definition destroyed (id a : Z) (t : table) : table :=
  Table (delete a (heap t)) (<[Z.to_nat id := None]> (clients t)) (generations t)
    (<[Z.to_nat (free_top t) := id]> (free_ids t)) (free_top t + 1)
    (<[Z.to_nat id := Handle id 0 None]> (vm_handles t)) (<[Z.to_nat id := false]> (vm_handle_active t)) (id :: torn_down t).

Lemma client_destroy_spec t i a :
  wf t -> clients t !! i = Some (Some a) ->
  wp (client_destroy (Some a)) (fun _ t' => t' = destroyed (Z.of_nat i) a t) t.
Proof.
  intros H Hi. destruct (w_client _ H _ _ Hi) as (g & v & Ha & Hg & Hh & Hac).
  pose proof (used_leaves_room t i a H Hi). pose proof (lookup_lt_Some _ _ _ Hi) as Hlt. rewrite (w_clients _ H) in Hlt.
  pose proof (w_top _ H).
  unfold client_destroy. apply wpf_bind. eapply wpf_client_at; [done|]. simpl. wp_line.
  apply wpf_client_store; [lia|rewrite (w_clients _ H); lia|]. wp_line.
  unfold vm_state_release, vmStateIndex. wp_line. eapply wpf_client_at; [done|]. simpl. wp_line.
  eapply wpf_client_load; [lia|by rewrite Nat2Z.id|]. apply wpf_if; [done|intros _]. wp_line.
  apply wpf_client_store; [lia|simpl; rewrite (w_actives _ H); lia|]. wp_line.
  apply wpf_client_store; [lia|simpl; rewrite (w_handles _ H); lia|]. wp_line.
  unfold give_back. wp_line. apply wpf_client_store; [simpl; lia|simpl; rewrite (w_free_ids _ H); lia|]. wp_line.
  unfold destroyed, set_heap; simpl. by rewrite delete_insert_eq.
Qed.

Lemma wf_destroyed t i a : wf t -> clients t !! i = Some (Some a) -> wf (destroyed (Z.of_nat i) a t).
Proof.
  intros H Hi. pose proof (used_leaves_room t i a H Hi). pose proof (lookup_lt_Some _ _ _ Hi) as Hlt.
  pose proof (length_free_list t H) as Hfl. destruct (w_client _ H _ _ Hi) as (g & v & Ha & _).
  assert (Hn : Z.of_nat i ∉ free_list t) by (rewrite (w_free _ H), Nat2Z.id; intros [_ ?]; congruence).
  pose proof (w_top _ H). pose proof (w_free_ids _ H).
  assert (Hfree : free_list (destroyed (Z.of_nat i) a t) = free_list t ++ [Z.of_nat i]).
  { unfold free_list; simpl. replace (Z.to_nat (free_top t + 1)) with (S (Z.to_nat (free_top t))) by lia.
    erewrite take_S_r by (apply list_lookup_insert_eq; lia). by rewrite take_insert_ge by lia. }
  destruct H. split; try rewrite Hfree; simpl; rewrite ?Nat2Z.id, ?length_insert; try done; try lia.
  - apply NoDup_app. split; [done|]. split; [|apply NoDup_singleton].
    intros x Hx ->%list_elem_of_singleton. done.
  - intros x. rewrite elem_of_app, list_elem_of_singleton, w_free0. split.
    + intros [[? Hx]| ->].
      * split; [done|]. destruct (decide (i = Z.to_nat x)) as [->|]; [congruence|by rewrite list_lookup_insert_ne].
      * split; [lia|]. rewrite Nat2Z.id. by apply list_lookup_insert_eq.
    + intros [? Hx]. apply list_lookup_insert_Some in Hx as [(-> & _ & _)|[? Hx]]; [right; lia|by left].
  - intros j b Hj. apply list_lookup_insert_Some in Hj as [(_ & [=] & _)|[Hij Hj]].
    destruct (w_client0 j b Hj) as (g' & v' & Hw1 & Hw2 & Hw3 & Hw4).
    exists g', v'. rewrite !list_lookup_insert_ne by done. rewrite lookup_delete_ne; [done|].
    intros <-. rewrite Ha in Hw1. by simplify_eq.
Qed.

Lemma wf_init t :
  length (vm_handles t) = 128%nat -> length (vm_handle_active t) = 128%nat ->
  wp client_table_init (fun _ t' => wf t') t.
Proof.
  intros Hh Ha. unfold client_table_init. wp_line.
  split; unfold free_list, MAX_CLIENTS; cbn [set_generations set_clients set_free clients generations free_ids free_top vm_handles vm_handle_active];
    rewrite ?length_replicate, ?length_seqZ; try done; try lia.
  - intros i g Hi. apply lookup_replicate in Hi as [-> _]. lia.
  - rewrite take_ge by done. apply NoDup_seqZ.
  - intros id. rewrite take_ge, elem_of_seqZ by done. split.
    + intros ?. split; [lia|]. apply lookup_replicate. split; [done|lia].
    + intros [? Hi]. apply lookup_replicate in Hi as [_ ?]. lia.
  - intros i a Hi. apply lookup_replicate in Hi as [[=] _].
Qed.

(** ** Lookup *)

(** [a] is the client of the slot [id] in its generation [g]. *)
Definition live (t : table) (id g a : Z) : Prop :=
  clients t !! Z.to_nat id = Some (Some a) /\ generations t !! Z.to_nat id = Some g.

Lemma client_lookup_spec t b :
  wf t -> exists r, client_lookup b t = Ok (r, t) /\ forall a, r = Some a <-> live t (badge_id b) (badge_gen b) a.
Proof.
  intros H. pose proof (badge_id_range b). unfold live.
  destruct (lookup_lt_is_Some_2 (clients t) (Z.to_nat (badge_id b))) as [o Ho]; [rewrite (w_clients _ H); lia|].
  destruct (lookup_lt_is_Some_2 (generations t) (Z.to_nat (badge_id b))) as [g Hg]; [rewrite (w_generations _ H); lia|].
  unfold client_lookup, load, access, mbind, M_bind, get. cbv beta iota.
  rewrite (bool_decide_true (badge_id b < MAX_CLIENTS)) by (unfold MAX_CLIENTS; lia).
  rewrite (bool_decide_true (0 ≤ badge_id b)) by lia. rewrite Ho, Hg.
  destruct o as [c|]; simpl; [|by exists None; naive_solver].
  case_bool_decide; [exists (Some c)|exists None]; naive_solver.
Qed.

Lemma client_lookup_Some t b a : wf t -> client_lookup b t = Ok (Some a, t) <-> live t (badge_id b) (badge_gen b) a.
Proof. intros H. destruct (client_lookup_spec t b H) as (r & -> & Hr). rewrite <- Hr. split; [by intros [= ->]|by intros ->]. Qed.
Lemma client_lookup_None t b :
  wf t -> (forall a, ~ live t (badge_id b) (badge_gen b) a) -> client_lookup b t = Ok (None, t).
Proof. intros H Hn. destruct (client_lookup_spec t b H) as (r & -> & Hr). destruct r as [a|]; [|done]. destruct (Hn a). by apply Hr. Qed.

(** The handle of a live client passes the checks. *)
Lemma live_handle t id g a :
  wf t -> 0 ≤ id -> live t id g a -> vm_state_lookup a t = Ok (Some id, t) /\ validate id t = Ok (tt, t).
Proof.
  intros H Hid [Hc Hg]. destruct (w_client _ H _ _ Hc) as (g' & v & Ha & Hg' & Hh & Hac).
  pose proof (lookup_lt_Some _ _ _ Hc) as Hlt. rewrite (w_clients _ H) in Hlt.
  rewrite Z2Nat.id in * by done. assert (g' = g) as -> by congruence.
  unfold vm_state_lookup, validate, vmStateIndex, client_at, load, deref, access, mbind, M_bind, get, mret, M_ret, throw.
  rewrite Ha. simpl. rewrite (bool_decide_true (0 ≤ id)) by done. rewrite Hac, Hh. simpl.
  rewrite (bool_decide_false (MAX_CLIENTS ≤ id)) by (unfold MAX_CLIENTS; lia).
  rewrite (bool_decide_true (0 ≤ id)) by done. rewrite Hac. simpl. rewrite Ha. simpl.
  rewrite ?bool_decide_false by (intros Hx; by apply Hx). rewrite ?Ha. simpl.
  by rewrite ?bool_decide_false by (intros Hx; by apply Hx).
Qed.

(** ** Badges of past clients *)

Section stale.
Context (calloc : gmap Z client_t -> option Z).
Hypothesis calloc_fresh : forall h a, calloc h = Some a -> h !! a = None.

(** Creations and destructions in any order; the number counts the creations that
    took the slot [id]. *)
Inductive steps (id : Z) : nat -> table -> table -> Prop :=
| steps_refl t : steps id 0 t t
| steps_create v t t' t'' r k :
    client_create calloc v t = Ok (r, t') -> steps id k t' t'' ->
    steps id ((if bool_decide (next_id t = Some id) then 1 else 0) + k)%nat t t''
| steps_destroy i a t t' t'' k :
    clients t !! i = Some (Some a) -> client_destroy (Some a) t = Ok (tt, t') -> steps id k t' t'' ->
    steps id k t t''.

(** The table after a creation. *)
Lemma client_create_ok v t r t' :
  wf t -> client_create calloc v t = Ok (r, t') ->
  wf t' /\
  forall id g, 0 ≤ id -> generations t !! Z.to_nat id = Some g ->
    generations t' !! Z.to_nat id = Some (if bool_decide (next_id t = Some id) then w8 (g + 1) else g) /\
    (next_id t ≠ Some id -> clients t' !! Z.to_nat id = clients t !! Z.to_nat id).
Proof using calloc_fresh.
  intros H Hc. pose proof (client_create_spec calloc v t H) as Hs. unfold wpf in Hs. rewrite Hc in Hs. clear Hc.
  destruct (next_id t) as [id|] eqn:Hn; [|destruct Hs as [_ ->]; split; [done|]; intros; by rewrite bool_decide_false by done].
  destruct Hs as (Hf & Hid & g & Hg & Hgr & Hs).
  assert (Hw : 0 ≤ w8 (g + 1) < 256) by (apply Z.mod_pos_bound; lia).
  assert (Hlt : (Z.to_nat id < length (generations t))%nat) by (rewrite (w_generations _ H); lia).
  assert (Hgen : forall j g', 0 ≤ j -> generations t !! Z.to_nat j = Some g' ->
    <[Z.to_nat id := w8 (g + 1)]> (generations t) !! Z.to_nat j = Some (if bool_decide (Some id = Some j) then w8 (g' + 1) else g')).
  { intros j g' Hj Hg'. case_bool_decide as Hb.
    - injection Hb as <-. rewrite list_lookup_insert_eq by done. congruence.
    - rewrite list_lookup_insert_ne; [done|]. intros He. apply Hb. f_equal. lia. }
  destruct (calloc (heap t)) as [a|] eqn:Ha.
  - destruct Hs as (b & _ & _ & _ & ->). split.
    + apply wf_created; try done; [|by apply calloc_fresh]. intros H0. unfold next_id in Hn. by rewrite bool_decide_true in Hn.
    + intros j g' Hj Hg'. split; [by apply Hgen|]. intros Hne. simpl. rewrite list_lookup_insert_ne; [done|].
      intros He. apply Hne. f_equal. lia.
  - destruct Hs as [_ ->]. split; [by apply wf_bump|]. intros j g' Hj Hg'. split; [by apply Hgen|done].
Qed.

(** After [k] creations in a slot that was left in generation [g]. *)
Lemma steps_generation id k t t' g n :
  steps id k t t' -> wf t -> 0 ≤ id -> generations t !! Z.to_nat id = Some ((g + Z.of_nat n) mod 256) ->
  (n = O -> clients t !! Z.to_nat id = Some None) ->
  wf t' /\ generations t' !! Z.to_nat id = Some ((g + Z.of_nat (n + k)) mod 256) /\
  ((n + k = 0)%nat -> clients t' !! Z.to_nat id = Some None).
Proof using calloc_fresh.
  intros Hs. revert n. induction Hs as [t|v t t1 t2 r k Hc Hs IH|i a t t1 t2 k Hi Hd Hs IH]; intros n H Hid Hg Hn.
  - by rewrite Nat.add_0_r.
  - destruct (client_create_ok v t r t1 H Hc) as [H1 Heff]. destruct (Heff id _ Hid Hg) as [Hg1 Hc1].
    case_bool_decide as Hb.
    + destruct (IH (S n)) as (Hw & Hg2 & Hz); [done|done| |done|].
      * rewrite Hg1. f_equal. unfold w8. change (2 ^ 8) with 256. rewrite Zplus_mod_idemp_l. f_equal. lia.
      * replace (n + (1 + k))%nat with (S n + k)%nat by lia. done.
    + destruct (IH n) as (Hw & Hg2 & Hz); [done|done|done| |done]. intros ->. rewrite Hc1 by done. by apply Hn.
  - pose proof (client_destroy_spec t i a H Hi) as Hsp. unfold wpf in Hsp. rewrite Hd in Hsp. subst t1.
    apply IH; [by apply wf_destroyed|done|done|]. intros Hn0. simpl. rewrite Nat2Z.id.
    destruct (decide (i = Z.to_nat id)) as [->|]; [by specialize (Hn Hn0); congruence|]. rewrite list_lookup_insert_ne by done. by apply Hn.
Qed.

(** C24: After a client is destroyed its badge is rejected, through any creations and
    destructions of other clients, as long as fewer than 256 of them take its slot. *)
Theorem stale_badge_rejected b a t t1 t2 k :
  wf t -> client_lookup b t = Ok (Some a, t) -> client_destroy (Some a) t = Ok (tt, t1) ->
  steps (badge_id b) k t1 t2 -> (k < 256)%nat -> client_lookup b t2 = Ok (None, t2).
Proof using calloc_fresh.
  intros H Hl Hd Hs Hk. apply client_lookup_Some in Hl as [Hc Hg]; [|done].
  pose proof (badge_id_range b). pose proof (w_gens _ H _ _ Hg).
  pose proof (client_destroy_spec t _ a H Hc) as Hsp. unfold wpf in Hsp. rewrite Hd in Hsp. subst t1.
  destruct (steps_generation _ _ _ _ (badge_gen b) 0 Hs) as (Hw & Hg2 & Hz).
  - by apply wf_destroyed.
  - lia.
  - simpl. by rewrite Z.add_0_r, Z.mod_small.
  - intros _. simpl. rewrite Nat2Z.id. apply list_lookup_insert_eq. by eapply lookup_lt_Some.
  - apply client_lookup_None; [done|]. intros a' [Hc' Hg']. simpl in *. rewrite Hg2 in Hg'. injection Hg' as Hg'.
    destruct k as [|k]; [specialize (Hz eq_refl); congruence|].
    pose proof (Z.div_mod (badge_gen b + Z.of_nat (S k)) 256 ltac:(done)). lia.
Qed.

(** [client_create] puts a client into a free slot, in the next generation, and
    keeps the table well formed: its badge finds it and no other badge does, all other
    slots answer as before, and its handle passes the checks of [validate].  It fails
    only when no slot is free or there is no memory. *)
Theorem client_create_correct v t :
  wf t ->
  wp (client_create calloc v) (fun r t' =>
    wf t' /\
    match r with
    | Some (a, b) =>
      client_lookup b t' = Ok (Some a, t') /\
      (forall b', client_lookup b' t' = Ok (Some a, t') -> badge_id b' = badge_id b /\ badge_gen b' = badge_gen b) /\
      (forall b' a', badge_id b' ≠ badge_id b -> client_lookup b' t' = Ok (Some a', t') <-> client_lookup b' t = Ok (Some a', t)) /\
      vm_state_lookup a t' = Ok (Some (badge_id b), t') /\ validate (badge_id b) t' = Ok (tt, t')
    | None => (free_top t = 0 \/ calloc (heap t) = None) /\ clients t' = clients t
    end) t.
Proof using calloc_fresh.
  intros H. pose proof (client_create_spec calloc v t H) as Hs.
  destruct (wp_inv _ _ _ Hs) as (r & t' & Hr & Hcase). eapply wpf_ok; [done|].
  destruct (client_create_ok v t r t' H Hr) as [Hw _]. split; [done|].
  destruct (next_id t) as [id|] eqn:Hn.
  2: { destruct Hcase as [-> ->]. split; [|done]. left. destruct (decide (free_top t = 0)) as [|Hne]; [done|].
       destruct (next_id_spec t H Hne) as (? & ? & _). congruence. }
  destruct Hcase as (Hf & Hid & g & Hg & Hgr & Hcase). destruct (calloc (heap t)) as [a|] eqn:Ha.
  2: { destruct Hcase as [-> ->]. split; [by right|done]. }
  destruct Hcase as (b & -> & Hbi & Hbg & ->).
  assert (Hlive : live (created id (w8 (g + 1)) v a t) (badge_id b) (badge_gen b) a).
  { unfold live, created; simpl. rewrite Hbi, Hbg, !list_lookup_insert_eq; [done|rewrite (w_generations _ H)|rewrite (w_clients _ H)]; lia. }
  split; [by apply client_lookup_Some|]. split; [|split; [|apply (live_handle _ _ (badge_gen b)); [done|lia|done]]].
  - intros b' [Hc' Hg']%client_lookup_Some; [|done]. pose proof (badge_id_range b').
    destruct Hlive as [Hlc Hlg]. destruct (w_client _ Hw _ _ Hc') as (g1 & v1 & H1 & _).
    destruct (w_client _ Hw _ _ Hlc) as (g2 & v2 & H2 & _). rewrite H1 in H2. injection H2 as Hn1 _ _ _.
    assert (He : badge_id b' = badge_id b) by lia. rewrite He in Hg'. split; congruence.
  - intros b' a' Hne. rewrite !client_lookup_Some by done. unfold live, created; simpl. pose proof (badge_id_range b').
    by rewrite !list_lookup_insert_ne by lia.
Qed.
End stale.

(** ** Runs *)

Definition table0 : table := Table ∅ [] [] [] 0 (replicate 128 (Handle 0 0 None)) (replicate 128 false) [].
(** An allocator with one address. *)
Definition calloc1 (h : gmap Z client_t) : option Z := match h !! 4096 with None => Some 4096 | Some _ => None end.
Lemma calloc1_fresh h a : calloc1 h = Some a -> h !! a = None.
Proof. unfold calloc1. destruct (h !! 4096) eqn:He; [done|]. by intros [= <-]. Qed.
Definition state_of {A} (o : outcome (A * table)) : table := match o with Ok (_, t) => t | Fault _ => table0 end.
Definition ready : table := state_of (client_table_init table0).
Lemma ready_wf : wf ready.
Proof. destruct (wp_inv _ _ _ (wf_init table0 eq_refl eq_refl)) as (u & t & He & Hw). unfold ready. by rewrite He. Qed.

(** A client with memory 1 in slot 127, then its destruction. *)
Definition one : table := state_of (client_create calloc1 1 ready).
Definition badge1 : Z := 127 + 128.

Lemma client_create_correct_witness :
  exists t', client_create calloc1 1 ready = Ok (Some (4096, badge1), t') /\ client_lookup badge1 t' = Ok (Some 4096, t').
Proof.
  destruct (wpf_value _ _ _ _ (Some (4096, badge1)) (client_create_correct calloc1 calloc1_fresh 1 ready ready_wf)) as (t' & Hr & _ & Hl & _).
  - vm_compute. reflexivity.
  - exists t'. split; [exact Hr|exact Hl].
Defined.

Lemma one_wf : wf one.
Proof.
  pose proof (client_create_spec calloc1 1 ready ready_wf) as Hs. destruct (wp_inv _ _ _ Hs) as (r & t' & Hr & _).
  unfold one. rewrite Hr. by apply (client_create_ok calloc1 calloc1_fresh 1 ready r t' ready_wf).
Qed.

Lemma stale_badge_rejected_witness :
  let t1 := state_of (client_destroy (Some 4096) one) in client_lookup badge1 t1 = Ok (None, t1).
Proof.
  intros t1. apply (stale_badge_rejected calloc1 calloc1_fresh badge1 4096 one t1 t1 0).
  - exact one_wf.
  - apply client_lookup_Some; [exact one_wf|]. split; vm_compute; reflexivity.
  - assert (Hc : clients one !! 127%nat = Some (Some 4096)) by (vm_compute; reflexivity).
    destruct (wp_inv _ _ _ (client_destroy_spec one _ 4096 one_wf Hc)) as ([] & t' & Hr & _). unfold t1. rewrite Hr. reflexivity.
  - apply steps_refl.
  - lia.
Defined.

(** [n] clients, one after the other, in the same slot. *)
Fixpoint churn (n : nat) (v : Z) (t : table) : table :=
  match n with
  | O => t
  | S n => churn n (v + 1) (state_of (client_create calloc1 v (state_of (client_destroy (Some 4096) t))))
  end.
(** After 256 clients the first badge finds the last of them: generations have
    eight bits. *)
Lemma badge_wraps :
  value_of (client_lookup badge1 (churn 255 2 one)) = Some None /\
  value_of (client_lookup badge1 (churn 256 2 one)) = Some (Some 4096) /\
  (vspace <$> heap (churn 256 2 one) !! 4096) = Some 257.
Proof. vm_compute. done. Qed.
