(* ===== verification/UserCopy.v ===== *)
(** * Copies between the server and a process

    Models the copies of [sos/src/vm/handle.zig]: [mapUserSlice], [withUserSlice],
    the copies in both directions, with and without page faults, and the copy of a
    string.  The pages of the process, the handling of a fault and the memory of
    frames are an interface; the laws speak of [mem], the bytes that the process sees,
    now or after their page has come back from the pagefile.

    The copies use the frame of a page record without a look at its state.  A page
    that is being written out still has a frame, and what is copied to that frame
    then is lost ([lost_write]); so the theorems are about processes with no such page. *)

From S2P Require Import Prelude VmRegion VmMmap Pages.

(** [findPage] gives the frame of the page record at a page address; 0 is a page that is
    not in memory.  [pageState] is the state of that record.  [load] and [store] access
    the memory of a frame. *)
Class UserMem (E : Type) := {
  findPage : Z -> E -> option Z;
  pageState : Z -> E -> PageState;
  handleFault : Z -> bool -> M E (VmError + unit);
  load : Z -> Z -> Z -> E -> list Z;
  store : Z -> Z -> list Z -> E -> E;
  markPageAccess : Z -> bool -> E -> E }.

Record UserSlice := Slice { frame : Z; off : Z; len : Z }.
Definition page_off (a : Z) : Z := a - pageBase a PAGE_SIZE_4K.

Section copies.
Context {E : Type} `{UserMem E}.

Definition mapUserSlice (user_addr want_len : Z) (write : bool) : M E (VmError + UserSlice) :=
  if bool_decide (want_len = 0) then mret (inr (Slice 0 0 0))
  else
    let page_base := pageBase user_addr PAGE_SIZE_4K in
    e ← get;
    rec ← (match findPage page_base e with
           | Some f => mret (inr f)
           | None =>
             r ← handleFault page_base write;
             match r with
             | inl err => mret (inl err)
             | inr _ => e' ← get; mret match findPage page_base e' with Some f => inr f | None => inl Bounds end
             end
           end);
    match rec with
    | inl err => mret (inl err)
    | inr f =>
      if bool_decide (f = 0) then mret (inl MapFailed)
      else mret (inr (Slice f (page_off user_addr) (Z.min want_len (PAGE_SIZE_4K - page_off user_addr))))
    end.

(** The operation that [withUserSlice] runs returns how many bytes it moved, or the
    error number of the device. *)
Inductive SliceError := VmErr (e : VmError) | DeviceError (errno : Z).

Fixpoint withUserSlice_loop (fuel : nat) (user_addr len_ done : Z) (write : bool) (op : UserSlice -> M E (Z + Z)) : M E (SliceError + Z) :=
  if bool_decide (len_ ≤ done) then mret (inr done)
  else
    match fuel with
    | O => throw OutOfFuel
    | S fuel =>
      a ← usize (user_addr + done);
      s ← mapUserSlice a (len_ - done) write;
      match s with
      | inl err => mret (inl (VmErr err))
      | inr slice =>
        if bool_decide (len slice = 0) then mret (inr done)
        else
          r ← op slice;
          match r with
          | inl errno => mret (inl (DeviceError errno))
          | inr moved =>
            if bool_decide (moved = 0) then mret (inr done)
            else if bool_decide (moved < len slice) then mret (inr (done + moved))
            else withUserSlice_loop fuel user_addr len_ (done + moved) write op
          end
      end
    end.
Definition withUserSlice (user_addr len_ : Z) (write : bool) (op : UserSlice -> M E (Z + Z)) : M E (SliceError + Z) :=
  withUserSlice_loop (Z.to_nat len_) user_addr len_ 0 write op.

Fixpoint copyTo_loop (fuel : nat) (src : list Z) (client_va copied : Z) : M E (VmError + unit) :=
  if bool_decide (Z.of_nat (length src) ≤ copied) then mret (inr tt)
  else
    match fuel with
    | O => throw OutOfFuel
    | S fuel =>
      a ← usize (client_va + copied);
      s ← mapUserSlice a (Z.of_nat (length src) - copied) true;
      match s with
      | inl err => mret (inl err)
      | inr slice =>
        if bool_decide (len slice = 0) then mret (inl Bounds)
        else
          modify (store (frame slice) (off slice) (take (Z.to_nat (len slice)) (drop (Z.to_nat copied) src)));;
          modify (markPageAccess (pageBase a PAGE_SIZE_4K) true);;
          copyTo_loop fuel src client_va (copied + len slice)
      end
    end.
Definition copyToClient (src : list Z) (client_va : Z) : M E (VmError + unit) := copyTo_loop (length src) src client_va 0.

(** The bytes copied so far are [dest]. *)
Fixpoint copyFrom_loop (fuel : nat) (n client_va : Z) (dest : list Z) : M E (VmError + list Z) :=
  let copied := Z.of_nat (length dest) in
  if bool_decide (n ≤ copied) then mret (inr dest)
  else
    match fuel with
    | O => throw OutOfFuel
    | S fuel =>
      a ← usize (client_va + copied);
      s ← mapUserSlice a (n - copied) false;
      match s with
      | inl err => mret (inl err)
      | inr slice =>
        if bool_decide (len slice = 0) then mret (inr dest)
        else
          e ← get;
          let chunk := load (frame slice) (off slice) (len slice) e in
          modify (markPageAccess (pageBase a PAGE_SIZE_4K) false);;
          copyFrom_loop fuel n client_va (dest ++ chunk)
      end
    end.
Definition copyFromClient (n client_va : Z) : M E (VmError + list Z) :=
  r ← copyFrom_loop (Z.to_nat n) n client_va [];
  mret match r with
  | inl err => inl err
  | inr dest => if bool_decide (Z.of_nat (length dest) = n) then inr dest else inl Bounds
  end.

(** [std.mem.indexOfScalar(u8, l, 0)] *)
Fixpoint index_of_zero (l : list Z) : option Z :=
  match l with
  | [] => None
  | b :: l => if bool_decide (b = 0) then Some 0 else (Z.succ <$> index_of_zero l)
  end.
(** The loop of [copyCStringFromClient]: it looks for a zero in each chunk until it has
    found one, and goes on to the end of the buffer. *)
Fixpoint copyCString_loop (fuel : nat) (client_va cap : Z) (dest : list Z) (first_zero : option Z) : M E (VmError + (list Z * Z)) :=
  let copied := Z.of_nat (length dest) in
  if bool_decide (cap ≤ copied) then mret (inr (dest, default copied first_zero))
  else
    match fuel with
    | O => throw OutOfFuel
    | S fuel =>
      a ← usize (client_va + copied);
      s ← mapUserSlice a (cap - copied) false;
      match s with
      | inl err => mret (inl err)
      | inr slice =>
        if bool_decide (len slice = 0) then mret (inr (dest, default copied first_zero))
        else
          e ← get;
          let chunk := load (frame slice) (off slice) (len slice) e in
          modify (markPageAccess (pageBase a PAGE_SIZE_4K) false);;
          let first_zero :=
            match first_zero with
            | Some z => Some z
            | None => match index_of_zero chunk with Some idx => Some (copied + idx) | None => None end
            end in
          copyCString_loop fuel client_va cap (dest ++ chunk) first_zero
      end
    end.
(** The bytes of the buffer, and the length of the string in it. *)
Definition copyCStringFromClient (client_va cap : Z) : M E (VmError + (list Z * Z)) :=
  if bool_decide (cap = 0) then mret (inr ([], 0)) else copyCString_loop (Z.to_nat cap) client_va cap [] None.

(** Without page faults. *)
Definition getUserPageData (user_vaddr : Z) : M E (option Z) :=
  e ← get;
  mret match findPage (pageBase user_vaddr PAGE_SIZE_4K) e with
  | Some f => if bool_decide (f = 0) then None else Some f
  | None => None
  end.
Fixpoint copyToUser_loop (fuel : nat) (user_vaddr : Z) (src : list Z) (offset : Z) : M E bool :=
  if bool_decide (Z.of_nat (length src) ≤ offset) then mret true
  else
    match fuel with
    | O => throw OutOfFuel
    | S fuel =>
      cur ← usize (user_vaddr + offset);
      let to_copy := Z.min (PAGE_SIZE_4K - page_off cur) (Z.of_nat (length src) - offset) in
      f ← getUserPageData cur;
      match f with
      | None => mret false
      | Some f =>
        modify (store f (page_off cur) (take (Z.to_nat to_copy) (drop (Z.to_nat offset) src)));;
        copyToUser_loop fuel user_vaddr src (offset + to_copy)
      end
    end.
Definition copyToUserBuffer (user_vaddr : Z) (src : list Z) : M E bool := copyToUser_loop (length src) user_vaddr src 0.
Fixpoint copyFromUser_loop (fuel : nat) (user_vaddr length_ : Z) (dst : list Z) : M E (option (list Z)) :=
  let offset := Z.of_nat (length dst) in
  if bool_decide (length_ ≤ offset) then mret (Some dst)
  else
    match fuel with
    | O => throw OutOfFuel
    | S fuel =>
      cur ← usize (user_vaddr + offset);
      let to_copy := Z.min (PAGE_SIZE_4K - page_off cur) (length_ - offset) in
      f ← getUserPageData cur;
      match f with
      | None => mret None
      | Some f => e ← get; copyFromUser_loop fuel user_vaddr length_ (dst ++ load f (page_off cur) to_copy e)
      end
    end.
Definition copyFromUserBuffer (user_vaddr length_ : Z) : M E (option (list Z)) :=
  copyFromUser_loop (Z.to_nat length_) user_vaddr length_ [].
End copies.

(** ** Laws *)

(** The bytes of a process are not lost. *)
Definition keeps (m m' : Z -> option Z) : Prop := forall a v, m a = Some v -> m' a = Some v.

(** The bytes [data] were written at [va], and nothing else is lost; and the bytes
    [data] are those at [va]. *)
Definition written_at (m m' : Z -> option Z) (va : Z) (data : list Z) : Prop :=
  (forall i, (i < length data)%nat -> m' (va + Z.of_nat i) = data !! i) /\
  (forall a v, ~ (va ≤ a < va + Z.of_nat (length data)) -> m a = Some v -> m' a = Some v).
Definition read_at (m : Z -> option Z) (va : Z) (data : list Z) : Prop :=
  forall i, (i < length data)%nat -> m (va + Z.of_nat i) = data !! i.

Lemma keeps_refl m : keeps m m.
Proof. by intros a v. Qed.
Lemma keeps_trans m1 m2 m3 : keeps m1 m2 -> keeps m2 m3 -> keeps m1 m3.
Proof. unfold keeps. eauto. Qed.
Lemma written_at_nil m m' va : keeps m m' -> written_at m m' va [].
Proof. intros Hk. split; [intros i Hi; simpl in Hi; lia|]. intros a v _. apply Hk. Qed.
Lemma written_at_keeps m m1 m2 va data : keeps m m1 -> written_at m1 m2 va data -> written_at m m2 va data.
Proof. intros Hk [H1 H2]. split; [done|]. intros a v Ha Hv. by apply H2; [|apply Hk]. Qed.
Lemma read_at_keeps m m' va data : keeps m m' -> read_at m va data -> read_at m' va data.
Proof.
  intros Hk Hr i Hi. specialize (Hr i Hi). destruct (lookup_lt_is_Some_2 data i Hi) as [v Hv]. rewrite Hv in Hr |- *. by apply Hk.
Qed.
Lemma read_at_app m va d1 d2 : read_at m va d1 -> read_at m (va + Z.of_nat (length d1)) d2 -> read_at m va (d1 ++ d2).
Proof.
  intros H1 H2 i Hi. rewrite length_app in Hi. destruct (decide (i < length d1)%nat).
  - rewrite lookup_app_l by done. by apply H1.
  - rewrite lookup_app_r by lia. rewrite <- H2 by lia. f_equal. lia.
Qed.
Lemma written_at_app m m1 m2 va d1 d2 :
  written_at m m1 va d1 -> written_at m1 m2 (va + Z.of_nat (length d1)) d2 -> written_at m m2 va (d1 ++ d2).
Proof.
  intros [H1 H2] [K1 K2]. split.
  - change (read_at m2 va (d1 ++ d2)). apply read_at_app; [|done]. intros i Hi. specialize (H1 i Hi).
    destruct (lookup_lt_is_Some_2 d1 i Hi) as [v Hv]. rewrite Hv in H1 |- *. apply K2; [lia|done].
  - intros a v Ha Hv. rewrite length_app in Ha. apply K2; [lia|]. apply H2; [lia|done].
Qed.

(** A fault may add pages and write others out, and loses no bytes.  The frame of a page
    that is resident holds its bytes; a store to the frame of any page changes no byte
    of another place.  Programs have no page at the top of the address space, which
    belongs to the kernel. *)
Class UserMemLaws (E : Type) `{UserMem E} := {
  mem : E -> Z -> option Z;
  fault_keeps pb w e : wp (handleFault pb w) (fun _ e' => keeps (mem e) (mem e')) e;
  load_length pb f o n e : findPage pb e = Some f -> f ≠ 0 -> 0 ≤ o -> 0 ≤ n -> o + n ≤ PAGE_SIZE_4K ->
    Z.of_nat (length (load f o n e)) = n;
  load_spec pb f o n e : findPage pb e = Some f -> f ≠ 0 -> pageState pb e = RESIDENT -> 0 ≤ o -> 0 ≤ n -> o + n ≤ PAGE_SIZE_4K ->
    forall i, (i < length (load f o n e))%nat -> load f o n e !! i = mem e (pb + o + Z.of_nat i);
  store_outside pb f o l e a : findPage pb e = Some f -> f ≠ 0 -> 0 ≤ o -> o + Z.of_nat (length l) ≤ PAGE_SIZE_4K ->
    ~ (pb + o ≤ a < pb + o + Z.of_nat (length l)) -> mem (store f o l e) a = mem e a;
  store_spec pb f o l e a : findPage pb e = Some f -> f ≠ 0 -> pageState pb e = RESIDENT -> 0 ≤ o ->
    o + Z.of_nat (length l) ≤ PAGE_SIZE_4K -> pb + o ≤ a < pb + o + Z.of_nat (length l) ->
    mem (store f o l e) a = l !! Z.to_nat (a - (pb + o));
  store_pages f o l e pb : findPage pb (store f o l e) = findPage pb e /\ pageState pb (store f o l e) = pageState pb e;
  mark_keeps pb w e a : mem (markPageAccess pb w e) a = mem e a;
  mark_pages pb0 w e pb : findPage pb (markPageAccess pb0 w e) = findPage pb e /\ pageState pb (markPageAccess pb0 w e) = pageState pb e;
  below_top pb f e : findPage pb e = Some f -> pb + PAGE_SIZE_4K < 2 ^ 64 }.

(** Every page that has a frame is resident: none is on its way out or in.  And a fault
    does not leave a page on its way. *)
Definition settled {E} `{UserMem E} (e : E) : Prop :=
  forall pb f, findPage pb e = Some f -> f ≠ 0 -> pageState pb e = RESIDENT.
Definition fault_settles (E : Type) `{UserMem E} : Prop :=
  forall pb w (e : E), settled e -> wp (handleFault pb w) (fun _ e' => settled e') e.
(** Where nothing is ever paged out. *)
Class AlwaysSettled (E : Type) `{UserMem E} := always_settled : forall e : E, settled e.
Lemma always_settles `{UserMemLaws E} `{!AlwaysSettled E} : fault_settles E.
Proof. intros pb w e _. eapply wpf_mono; [apply fault_keeps|]. intros ? ? _. apply always_settled. Qed.

Section correct.
Context {E : Type} `{UserMemLaws E}.

Lemma page_split a : 0 ≤ a -> pageBase a PAGE_SIZE_4K + page_off a = a /\ 0 ≤ page_off a < PAGE_SIZE_4K.
Proof.
  intros Ha. unfold page_off, pageBase, alignDown, PAGE_SIZE_4K. rewrite bool_decide_false by lia.
  pose proof (Z.mod_pos_bound a 0x1000). lia.
Qed.

(** A slice is the part of the range that lies in one page. *)
Definition slice_at (a n : Z) (s : UserSlice) (e : E) : Prop :=
  findPage (pageBase a PAGE_SIZE_4K) e = Some (frame s) /\ frame s ≠ 0 /\ off s = page_off a /\
  0 < len s ≤ n /\ off s + len s ≤ PAGE_SIZE_4K.
(** [q] tells whether the pages are settled, for what follows only then. *)
Lemma mapUserSlice_spec (q : bool) a n w e :
  0 ≤ a -> 0 < n -> (q = true -> fault_settles E /\ settled e) ->
  wp (mapUserSlice a n w) (fun r e' => keeps (mem e) (mem e') /\ (q = true -> settled e') /\
    match r with inl _ => True | inr s => slice_at a n s e' end) e.
Proof.
  intros Ha Hn Hq. destruct (page_split a Ha) as [_ Hp]. unfold mapUserSlice. rewrite bool_decide_false by lia. wp_line.
  assert (Hs : forall f e', findPage (pageBase a PAGE_SIZE_4K) e' = Some f -> keeps (mem e) (mem e') -> (q = true -> settled e') ->
    wp (if bool_decide (f = 0) then mret (inl MapFailed)
        else mret (inr (Slice f (page_off a) (Z.min n (PAGE_SIZE_4K - page_off a))))) (fun r e' =>
      keeps (mem e) (mem e') /\ (q = true -> settled e') /\ match r with inl _ => True | inr s => slice_at a n s e' end) e').
  { intros f e' Hf Hk Hst. case_bool_decide; wp_line; [done|]. split; [done|]. split; [done|]. unfold slice_at. simpl.
    repeat (split; [done|]). lia. }
  destruct (findPage _ e) as [f|] eqn:Hf; [wp_line; apply Hs; [done|by intros ? ?|by intros [_ ?]%Hq]|].
  assert (Hfault : wp (handleFault (pageBase a PAGE_SIZE_4K) w) (fun _ e' => keeps (mem e) (mem e') /\ (q = true -> settled e')) e).
  { destruct q.
    - destruct (Hq eq_refl) as [Hfs He]. eapply wpf_mono; [apply wpf_conj; [apply fault_keeps|by apply Hfs]|]. by intros ? ? [? ?].
    - eapply wpf_mono; [apply fault_keeps|]. by intros. }
  wp_line. eapply wpf_mono; [exact Hfault|]. intros [err|[]] e' [Hk Hst]; wp_line; [done|].
  destruct (findPage _ e') as [f|] eqn:Hf'; [by apply Hs|]. by wp_line.
Qed.

Lemma settled_same (e e' : E) :
  (forall pb, findPage pb e' = findPage pb e /\ pageState pb e' = pageState pb e) -> settled e -> settled e'.
Proof. intros Hs He pb f. destruct (Hs pb) as [-> ->]. apply He. Qed.
Lemma settled_mark pb w (e : E) : settled e -> settled (markPageAccess pb w e).
Proof. apply settled_same. intros pb'. apply mark_pages. Qed.
Lemma settled_store f o l (e : E) : settled e -> settled (store f o l e).
Proof. apply settled_same. intros pb. apply store_pages. Qed.

(** Outside of the range nothing is lost. *)
Definition kept_outside (e e' : E) (va n : Z) : Prop :=
  forall a v, ~ (va ≤ a < va + n) -> mem e a = Some v -> mem e' a = Some v.

(** One chunk is stored: outside of it nothing changes, and inside are its bytes. *)
Lemma store_chunk (q : bool) a n s chunk (e : E) :
  0 ≤ a -> slice_at a n s e -> Z.of_nat (length chunk) = len s -> (q = true -> settled e) ->
  let e' := markPageAccess (pageBase a PAGE_SIZE_4K) true (store (frame s) (off s) chunk e) in
  (forall x, ~ (a ≤ x < a + len s) -> mem e' x = mem e x) /\ (q = true -> settled e' /\ read_at (mem e') a chunk).
Proof.
  intros Ha (Hp & Hf0 & Ho & Hl & Hpage) Hc Hq e'. destruct (page_split a Ha) as [Hsplit Hoff]. split.
  - intros x Hx. unfold e'. rewrite mark_keeps. eapply store_outside; [exact Hp|done|lia..].
  - intros Hq'. specialize (Hq Hq'). split; [by apply settled_mark, settled_store|]. intros i Hi. unfold e'.
    rewrite mark_keeps, (store_spec _ _ _ _ _ _ Hp Hf0) by (lia || by eapply Hq). f_equal. lia.
Qed.

Lemma copyTo_loop_spec (q : bool) src va : 0 ≤ va -> (q = true -> fault_settles E) -> forall fuel copied e0 e,
  va + copied < 2 ^ 64 -> (length src - Z.to_nat copied ≤ fuel)%nat -> 0 ≤ copied ≤ Z.of_nat (length src) ->
  kept_outside e0 e va copied -> (q = true -> settled e /\ read_at (mem e) va (take (Z.to_nat copied) src)) ->
  wp (copyTo_loop fuel src va copied) (fun r e' =>
    kept_outside e0 e' va (Z.of_nat (length src)) /\
    (q = true -> settled e' /\ match r with inl _ => True | inr _ => read_at (mem e') va src end)) e.
Proof.
  intros Hva Hfs. induction fuel as [|fuel IH]; intros copied e0 e Hend Hf Hc Hout Hin; cbn [copyTo_loop].
  all: assert (Hlen : length (take (Z.to_nat copied) src) = Z.to_nat copied) by (rewrite length_take; lia).
  all: assert (Hko : kept_outside e0 e va (Z.of_nat (length src))) by (intros a v Ha; apply Hout; lia).
  all: case_bool_decide as Hd; [wp_line; split; [done|]; intros Hq; destruct (Hin Hq) as [? Hr]; by rewrite take_ge in Hr by lia|].
  { exfalso. lia. }
  wp_line. apply wp_usz; [unfold is_w64; lia|]. apply wpf_bind.
  eapply wpf_mono; [apply (mapUserSlice_spec q); [lia..|]; intros Hq; split; [by apply Hfs|by apply Hin]|].
  intros [err|s] e1 (Hk & Hst & Hs); wp_line.
  { split; [intros a v Ha Hv; by apply Hk, Hko|]. intros Hq. by split; [apply Hst|]. }
  pose proof Hs as (Hp & Hf0 & Ho & Hl & Hpage). rewrite bool_decide_false by lia. wp_line.
  set (chunk := take (Z.to_nat (len s)) (drop (Z.to_nat copied) src)).
  assert (Hcl : Z.of_nat (length chunk) = len s) by (unfold chunk; rewrite length_take, length_drop; lia).
  destruct (store_chunk q (va + copied) _ s chunk e1 ltac:(lia) Hs Hcl Hst) as [Hco Hci].
  destruct (page_split (va + copied)) as [Hsplit Hoff]; [lia|]. pose proof (below_top _ _ _ Hp) as Htop.
  apply IH; [lia..| |].
  - intros a v Ha Hv. rewrite Hco by lia. apply Hk, Hout; [lia|done].
  - intros Hq. destruct (Hci Hq) as [Hse Hrd]. destruct (Hin Hq) as [_ Hr0]. split; [done|].
    rewrite Z2Nat.inj_add, <- take_take_drop by lia. fold chunk. apply read_at_app; [|rewrite Hlen, Z2Nat.id by lia; done].
    intros i Hi. rewrite Hco by lia. by apply (read_at_keeps _ _ _ _ Hk Hr0).
Qed.
Lemma copyToClient_kept src va e :
  0 ≤ va < 2 ^ 64 -> wp (copyToClient src va) (fun _ e' => kept_outside e e' va (Z.of_nat (length src))) e.
Proof. intros Hva. eapply wpf_mono; [apply (copyTo_loop_spec false); [lia|done|lia..|by intros ?|done]|]. by intros ? ? [? _]. Qed.
Lemma copyToClient_spec src va e :
  0 ≤ va < 2 ^ 64 -> fault_settles E -> settled e ->
  wp (copyToClient src va) (fun r e' =>
    settled e' /\ kept_outside e e' va (Z.of_nat (length src)) /\
    match r with inl _ => True | inr _ => written_at (mem e) (mem e') va src end) e.
Proof.
  intros Hva Hfs He. eapply wpf_mono; [apply (copyTo_loop_spec true); [lia|done|lia..|by intros ?|]|].
  - intros _. split; [done|]. intros i Hi. simpl in Hi. lia.
  - intros r e' [Hk Hq]. destruct (Hq eq_refl) as [Hse Hr]. split; [done|]. split; [done|]. destruct r; [done|]. by split.
Qed.

(** One chunk is read. *)
Lemma load_chunk (q : bool) a n s (e : E) :
  0 ≤ a -> slice_at a n s e -> (q = true -> settled e) ->
  let chunk := load (frame s) (off s) (len s) e in
  Z.of_nat (length chunk) = len s /\ (q = true -> read_at (mem e) a chunk).
Proof.
  intros Ha (Hp & Hf0 & Ho & Hl & Hpage) Hq chunk. destruct (page_split a Ha) as [Hsplit Hoff].
  split; [eapply load_length; [done|done|lia..]|]. intros Hq' i Hi. specialize (Hq Hq').
  unfold chunk. rewrite (load_spec _ _ _ _ _ Hp Hf0) by (lia || done || by eapply Hq). f_equal. lia.
Qed.

Lemma copyFrom_loop_spec (q : bool) n va : 0 ≤ va -> (q = true -> fault_settles E) -> forall fuel dest e0 e,
  va + Z.of_nat (length dest) < 2 ^ 64 ->
  n - Z.of_nat (length dest) ≤ Z.of_nat fuel -> Z.of_nat (length dest) ≤ n -> keeps (mem e0) (mem e) ->
  (q = true -> settled e /\ read_at (mem e) va dest) ->
  wp (copyFrom_loop fuel n va dest) (fun r e' => keeps (mem e0) (mem e') /\ (q = true -> settled e') /\
    match r with inl _ => True | inr d => Z.of_nat (length d) = n /\ (q = true -> read_at (mem e') va d) end) e.
Proof.
  intros Hva Hfs. induction fuel as [|fuel IH]; intros dest e0 e Hend Hf Hl Hk Hd; cbn [copyFrom_loop].
  all: case_bool_decide as Hfull; [wp_line; split; [done|]; split; [by intros [? _]%Hd|]; split; [lia|by intros [_ ?]%Hd]|].
  { exfalso. lia. }
  wp_line. apply wp_usz; [unfold is_w64; lia|]. apply wpf_bind.
  eapply wpf_mono; [apply (mapUserSlice_spec q); [lia..|]; intros Hq; split; [by apply Hfs|by apply Hd]|].
  intros [err|s] e1 (Hk1 & Hst & Hs); wp_line; [split; [by eapply keeps_trans|done]|].
  pose proof Hs as (Hp & Hf0 & Ho & Hsl & Hpage). rewrite bool_decide_false by lia. wp_line.
  destruct (load_chunk q (va + Z.of_nat (length dest)) _ s e1 ltac:(lia) Hs Hst) as [Hll Hld]. destruct (page_split (va + Z.of_nat (length dest))) as [Hsplit Hoff]; [lia|].
  set (chunk := load _ _ _ _) in *. set (e2 := markPageAccess _ _ _).
  assert (Hm : keeps (mem e1) (mem e2)) by (intros a v Hv; by rewrite <- Hv; apply mark_keeps).
  pose proof (below_top _ _ _ Hp) as Htop. apply IH; [rewrite length_app; lia..|by eapply keeps_trans; [|eapply keeps_trans]|].
  intros Hq. destruct (Hd Hq) as [_ Hr]. split; [by apply settled_mark, Hst|].
  apply read_at_app; [apply (read_at_keeps (mem e)); [by eapply keeps_trans|done]|apply (read_at_keeps (mem e1)); [done|by apply Hld]].
Qed.
Lemma copyFromClient_spec n va e :
  0 ≤ va < 2 ^ 64 -> 0 ≤ n -> fault_settles E -> settled e ->
  wp (copyFromClient n va) (fun r e' => keeps (mem e) (mem e') /\ settled e' /\
    match r with inl _ => True | inr d => Z.of_nat (length d) = n /\ read_at (mem e') va d end) e.
Proof.
  intros Hva Hn Hfs He. unfold copyFromClient. apply wpf_bind. eapply wpf_mono.
  { apply (copyFrom_loop_spec true n va (proj1 Hva) ltac:(done) _ [] e e); [simpl; lia..|by intros ? ?|]. intros _. split; [done|].
    intros i Hi. simpl in Hi. lia. }
  intros [err|d] e' (Hk & Hse & Hd); wp_line; [by split_and!; [|apply Hse|]|]. destruct Hd as [Hl Hd]. rewrite bool_decide_true by done.
  split_and!; [done|by apply Hse|done|by apply Hd].
Qed.

(** Where the string of the buffer ends. *)
Definition ends_at (l : list Z) (n : Z) : Prop :=
  0 ≤ n ≤ Z.of_nat (length l) /\ Forall (fun b => b ≠ 0) (take (Z.to_nat n) l) /\
  (n < Z.of_nat (length l) -> l !! Z.to_nat n = Some 0).
Lemma index_of_zero_spec l : ends_at l (default (Z.of_nat (length l)) (index_of_zero l)).
Proof.
  induction l as [|b l IH]; simpl; [split; [lia|]; split; [by rewrite take_nil|intros Hlt; simpl in Hlt; lia]|].
  case_bool_decide as Hb; [subst b; split; [simpl; lia|]; split; [constructor|done]|].
  assert (Hd : default (Z.of_nat (S (length l))) (Z.succ <$> index_of_zero l) = default (Z.of_nat (length l)) (index_of_zero l) + 1).
  { destruct (index_of_zero l); simpl; lia. }
  rewrite Hd. set (n := default _ _) in *. destruct IH as (H1 & H2 & H3). split; [simpl; lia|].
  replace (Z.to_nat (n + 1)) with (S (Z.to_nat n)) by lia. simpl. split; [by constructor|]. intros Hlt. apply H3. lia.
Qed.

(** The zeros of the chunks so far, and of the next one. *)
Lemma index_of_zero_app d c :
  index_of_zero (d ++ c) =
  match index_of_zero d with
  | Some z => Some z
  | None => match index_of_zero c with Some idx => Some (Z.of_nat (length d) + idx) | None => None end
  end.
Proof.
  induction d as [|b d IH]; [simpl; by destruct (index_of_zero c)|]. simpl. case_bool_decide; [done|]. rewrite IH.
  destruct (index_of_zero d); [done|]. destruct (index_of_zero c); [|done]. simpl. f_equal. lia.
Qed.
Lemma copyCString_loop_spec (q : bool) va cap : 0 ≤ va -> (q = true -> fault_settles E) -> forall fuel dest e0 e,
  va + Z.of_nat (length dest) < 2 ^ 64 ->
  cap - Z.of_nat (length dest) ≤ Z.of_nat fuel -> Z.of_nat (length dest) ≤ cap -> keeps (mem e0) (mem e) ->
  (q = true -> settled e /\ read_at (mem e) va dest) ->
  wp (copyCString_loop fuel va cap dest (index_of_zero dest)) (fun r e' => keeps (mem e0) (mem e') /\ (q = true -> settled e') /\
    match r with
    | inl _ => True
    | inr (d, n) => Z.of_nat (length d) = cap /\ (q = true -> read_at (mem e') va d) /\ ends_at d n
    end) e.
Proof.
  intros Hva Hfs. induction fuel as [|fuel IH]; intros dest e0 e Hend Hf Hl Hk Hd; cbn [copyCString_loop].
  all: case_bool_decide as Hfull;
    [wp_line; split; [done|]; split; [by intros [? _]%Hd|]; split; [lia|]; split; [by intros [_ ?]%Hd|apply index_of_zero_spec]|].
  { exfalso. lia. }
  wp_line. apply wp_usz; [unfold is_w64; lia|]. apply wpf_bind.
  eapply wpf_mono; [apply (mapUserSlice_spec q); [lia..|]; intros Hq; split; [by apply Hfs|by apply Hd]|].
  intros [err|s] e1 (Hk1 & Hst & Hs); wp_line; [split; [by eapply keeps_trans|done]|].
  pose proof Hs as (Hp & Hf0 & Ho & Hsl & Hpage). rewrite bool_decide_false by lia. wp_line.
  destruct (load_chunk q (va + Z.of_nat (length dest)) _ s e1 ltac:(lia) Hs Hst) as [Hll Hld]. destruct (page_split (va + Z.of_nat (length dest))) as [Hsplit Hoff]; [lia|].
  set (chunk := load _ _ _ _) in *. set (e2 := markPageAccess _ _ _).
  assert (Hm : keeps (mem e1) (mem e2)) by (intros a v Hv; by rewrite <- Hv; apply mark_keeps).
  pose proof (below_top _ _ _ Hp) as Htop. rewrite <- index_of_zero_app.
  apply IH; [rewrite length_app; lia..|by eapply keeps_trans; [|eapply keeps_trans]|].
  intros Hq. destruct (Hd Hq) as [_ Hr]. split; [by apply settled_mark, Hst|].
  apply read_at_app; [apply (read_at_keeps (mem e)); [by eapply keeps_trans|done]|apply (read_at_keeps (mem e1)); [done|by apply Hld]].
Qed.
Lemma copyCString_spec (q : bool) va cap e :
  0 ≤ va < 2 ^ 64 -> 0 ≤ cap -> (q = true -> fault_settles E /\ settled e) ->
  wp (copyCStringFromClient va cap) (fun r e' => keeps (mem e) (mem e') /\ (q = true -> settled e') /\
    match r with
    | inl _ => True
    | inr (d, n) => Z.of_nat (length d) = cap /\ (q = true -> read_at (mem e') va d) /\ ends_at d n
    end) e.
Proof.
  intros Hva Hn Hq. unfold copyCStringFromClient. case_bool_decide as Hc.
  { wp_line. split; [by intros ? ?|]. split; [by intros [_ ?]%Hq|]. subst cap. split; [done|]. split; [intros _ i Hi; simpl in Hi; lia|].
    split; [simpl; lia|]. split; [constructor|intros Hlt; simpl in Hlt; lia]. }
  apply (copyCString_loop_spec q va cap (proj1 Hva) (fun h => proj1 (Hq h)) _ [] e e); [simpl; lia..|by intros ? ?|].
  intros h. split; [by apply Hq|]. intros i Hi. simpl in Hi. lia.
Qed.

(** *** Transfers *)

(** A slice of the memory. *)
Definition slice_ok (s : UserSlice) (e : E) : Prop :=
  exists pb, findPage pb e = Some (frame s) /\ frame s ≠ 0 /\ 0 ≤ off s /\ 0 < len s /\ off s + len s ≤ PAGE_SIZE_4K.

Lemma mapUserSlice_inv (I : E -> Prop) a n w e :
  (forall pb w e, I e -> wpf (fun _ => True) (handleFault pb w) (fun _ e' => I e') e) -> I e ->
  wpf (fun _ => True) (mapUserSlice a n w) (fun _ e' => I e') e.
Proof.
  intros Hf He. unfold mapUserSlice. case_bool_decide; [by wp_line|]. wp_line.
  assert (Hs : forall f e', I e' -> wpf (fun _ => True) (if bool_decide (f = 0) then mret (inl MapFailed)
    else mret (inr (Slice f (page_off a) (Z.min n (PAGE_SIZE_4K - page_off a))))) (fun _ e' => I e') e') by (intros; case_bool_decide; by wp_line).
  destruct (findPage _ e) as [f|]; [wp_line; by apply Hs|]. wp_line. eapply wpf_mono; [by apply Hf|].
  intros [err|[]] e' He'; wp_line; [done|]. destruct (findPage _ e') as [f|]; [by apply Hs|]. by wp_line.
Qed.

(** An operation on slices that keeps an invariant, and says that it moved no more than
    the slice: the transfer keeps it and moves no more than the buffer. *)
Lemma withUserSlice_loop_spec (I : E -> Prop) addr n write op :
  0 ≤ addr ->
  (forall pb w e, I e -> wpf (fun _ => True) (handleFault pb w) (fun _ e' => I e') e) ->
  (forall s e, I e -> slice_ok s e -> wp (op s) (fun r e' => I e' /\ match r with inl _ => True | inr m => 0 ≤ m ≤ len s end) e) ->
  forall fuel done e, addr + done < 2 ^ 64 -> 0 ≤ done ≤ n -> n - done ≤ Z.of_nat fuel -> I e ->
  wp (withUserSlice_loop fuel addr n done write op) (fun r e' => I e' /\ match r with inl _ => True | inr m => 0 ≤ m ≤ n end) e.
Proof.
  intros Ha Hfault Hop. induction fuel as [|fuel IH]; intros dn e Hend Hd Hf He; cbn [withUserSlice_loop].
  all: case_bool_decide as Hfull; [wp_line; split; [done|lia]|].
  { exfalso. lia. }
  wp_line. apply wp_usz; [unfold is_w64; lia|]. apply wpf_bind.
  eapply wpf_mono; [apply wpf_and; [apply (mapUserSlice_spec false); [lia..|done]|by apply mapUserSlice_inv]|].
  intros [err|sl] e1 [(_ & _ & Hs) He1]; [by wp_line|]. destruct Hs as (Hp & Hf0 & Ho & Hl & Hpage).
  destruct (page_split (addr + dn)) as [Hsp Hoff]; [lia|]. rewrite bool_decide_false by lia. apply wpf_bind.
  eapply wpf_mono; [apply Hop; [done|]|].
  { eexists. split; [exact Hp|]. repeat split; try done; lia. }
  intros [errno|moved] e2 [He2 Hm]; [by wp_line|]. case_bool_decide; [wp_line; split; [done|lia]|].
  case_bool_decide; [wp_line; split; [done|lia]|]. pose proof (below_top _ _ _ Hp) as Htop. apply IH; [lia..|done].
Qed.
Lemma withUserSlice_spec (I : E -> Prop) addr n write op e :
  0 ≤ addr < 2 ^ 64 -> 0 ≤ n ->
  (forall pb w e, I e -> wpf (fun _ => True) (handleFault pb w) (fun _ e' => I e') e) ->
  (forall s e, I e -> slice_ok s e -> wp (op s) (fun r e' => I e' /\ match r with inl _ => True | inr m => 0 ≤ m ≤ len s end) e) ->
  I e -> wp (withUserSlice addr n write op) (fun r e' => I e' /\ match r with inl _ => True | inr m => 0 ≤ m ≤ n end) e.
Proof. intros Ha Hn Hf Hop He. apply withUserSlice_loop_spec; [lia|done|done|lia..|done]. Qed.

(** A copy without page faults ends. *)
Lemma copyToUser_loop_total src va : 0 ≤ va -> forall fuel offset e, va + offset < 2 ^ 64 ->
  Z.of_nat (length src) - offset ≤ Z.of_nat fuel -> 0 ≤ offset ->
  wp (copyToUser_loop fuel va src offset) (fun _ _ => True) e.
Proof.
  intros Hva. induction fuel as [|fuel IH]; intros offset e Hend Hf Ho; cbn [copyToUser_loop].
  all: case_bool_decide as Hd; [by wp_line|].
  { exfalso. lia. }
  wp_line. apply wp_usz; [unfold is_w64; lia|]. unfold getUserPageData. wp_line. destruct (page_split (va + offset)) as [Hs Hp]; [lia|].
  destruct (findPage _ e) as [f|] eqn:Hpg; [case_bool_decide|]; wp_line; [done| |done]. pose proof (below_top _ _ _ Hpg) as Htop. apply IH; lia.
Qed.
Lemma copyToUserBuffer_total src va e : 0 ≤ va < 2 ^ 64 -> wp (copyToUserBuffer va src) (fun _ _ => True) e.
Proof. intros. apply copyToUser_loop_total; lia. Qed.

(** C28: In a process whose pages with a frame are all resident, and stay so when a page is
    faulted in, copying to the process either writes the bytes, all of them and at their
    place, or fails; in both cases no byte of the process outside of the range is lost.
    The copy goes over page boundaries and faults pages in as it needs them. *)
Theorem copyToClient_correct src va e :
  0 ≤ va < 2 ^ 64 -> fault_settles E -> settled e ->
  wp (copyToClient src va) (fun r e' =>
    settled e' /\ kept_outside e e' va (Z.of_nat (length src)) /\
    match r with inl _ => True | inr _ => written_at (mem e) (mem e') va src end) e.
Proof. apply copyToClient_spec. Qed.

(** C29: In a process whose pages with a frame are all resident, and stay so when a page is
    faulted in, copying a string returns the bytes of the buffer as they are in its
    memory, and the length of the string: no byte before it is zero, and unless it fills
    the buffer the byte at it is zero, whichever page the zero is in.  No byte of the
    process is lost. *)
Theorem copyCStringFromClient_correct va cap e :
  0 ≤ va < 2 ^ 64 -> 0 ≤ cap -> fault_settles E -> settled e ->
  wp (copyCStringFromClient va cap) (fun r e' => keeps (mem e) (mem e') /\ settled e' /\
    match r with inl _ => True | inr (d, n) => Z.of_nat (length d) = cap /\ read_at (mem e') va d /\ ends_at d n end) e.
Proof.
  intros Hva Hc Hfs He. eapply wpf_mono; [by apply (copyCString_spec true)|]. intros r e' (Hk & Hse & Hr).
  split; [done|]. split; [by apply Hse|]. destruct r as [|[d n]]; [done|]. destruct Hr as (? & Hr & ?). split_and!; [done|by apply Hr|done].
Qed.
End correct.

(** ** Memory without a pagefile *)

(** The pages of a process, those that a fault adds, and the bytes; the frame of a page is
    its address plus 1.  Every page is resident. *)
Record plain := Plain { pgs : gset Z; lazy : gset Z; bytes : gmap Z Z }.
Definition plain_page (pb : Z) (e : plain) : option Z :=
  if bool_decide (pb mod PAGE_SIZE_4K = 0) && bool_decide (pb + PAGE_SIZE_4K < 2 ^ 64) && bool_decide (pb ∈ pgs e)
  then Some (pb + 1) else None.
Definition plain_fault (pb : Z) : M plain (VmError + unit) :=
  e ← get;
  if bool_decide (pb ∈ lazy e) then put (Plain ({[pb]} ∪ pgs e) (lazy e) (bytes e));; mret (inr tt)
  else mret (inl Unsupported).
Definition bytes_at (m : gmap Z Z) (f o n : Z) : list Z :=
  (fun i => default 0 (m !! (f - 1 + o + Z.of_nat i))) <$> seq 0 (Z.to_nat n).
#[export] Instance plain_mem : UserMem plain := {|
  findPage := plain_page; pageState _ _ := RESIDENT; handleFault pb _ := plain_fault pb;
  load f o n e := bytes_at (bytes e) f o n;
  store f o l e := Plain (pgs e) (lazy e) (store_bytes (bytes e) (f - 1 + o) l);
  markPageAccess _ _ e := e |}.

Lemma plain_frame pb f e :
  plain_page pb e = Some f -> f = pb + 1 /\ pb mod PAGE_SIZE_4K = 0 /\ pb ∈ pgs e /\ pb + PAGE_SIZE_4K < 2 ^ 64.
Proof. unfold plain_page. repeat case_bool_decide; simpl; [|done..]. by intros [= <-]. Qed.
Lemma pageBase_in pb a : pb mod PAGE_SIZE_4K = 0 -> pb ≤ a < pb + PAGE_SIZE_4K -> pageBase a PAGE_SIZE_4K = pb.
Proof.
  unfold pageBase, alignDown, PAGE_SIZE_4K. intros Hpb Ha. rewrite bool_decide_false by lia.
  pose proof (Z.div_mod pb 0x1000). pose proof (Z.div_mod a 0x1000). pose proof (Z.mod_pos_bound a 0x1000).
  assert (a / 0x1000 = pb / 0x1000); lia.
Qed.
Lemma bytes_at_length m f o n : 0 ≤ n -> Z.of_nat (length (bytes_at m f o n)) = n.
Proof. intros Hn. unfold bytes_at. rewrite length_fmap, length_seq. lia. Qed.
Lemma bytes_at_lookup m f o n i : (i < length (bytes_at m f o n))%nat -> bytes_at m f o n !! i = Some (default 0 (m !! (f - 1 + o + Z.of_nat i))).
Proof. unfold bytes_at. rewrite length_fmap, length_seq. intros Hi. by rewrite list_lookup_fmap, lookup_seq_lt. Qed.

#[export, refine] Instance plain_laws : UserMemLaws plain := {|
  mem e a := if bool_decide (pageBase a PAGE_SIZE_4K ∈ pgs e) then Some (default 0 (bytes e !! a)) else None |}.
Proof.
  - intros pb w e. simpl. unfold plain_fault. wp_line. case_bool_decide; wp_line; [|by intros a v]. intros a v. simpl.
    case_bool_decide; [|done]. by rewrite bool_decide_true by set_solver.
  - intros pb f o n e _ _ _ Hn _. by apply bytes_at_length.
  - intros pb f o n e Hf _ _ Ho Hn Hp i Hi. apply plain_frame in Hf as (-> & Hm & Hin & _). pose proof (bytes_at_length (bytes e) (pb + 1) o n Hn).
    simpl in Hi |- *. rewrite bytes_at_lookup by done. rewrite (pageBase_in pb), bool_decide_true by (done || lia). do 3 f_equal. lia.
  - intros pb f o l e a Hf _ Ho Hp Ha. apply plain_frame in Hf as (-> & Hm & Hin & _). simpl.
    rewrite store_bytes_lookup, decide_False by lia. done.
  - intros pb f o l e a Hf _ _ Ho Hp Ha. apply plain_frame in Hf as (-> & Hm & Hin & _). simpl.
    rewrite (pageBase_in pb), bool_decide_true by (done || lia). rewrite store_bytes_lookup, decide_True by lia.
    replace (pb + 1 - 1 + o) with (pb + o) by lia. destruct (lookup_lt_is_Some_2 l (Z.to_nat (a - (pb + o)))) as [v Hv]; [lia|]. by rewrite Hv.
  - done.
  - done.
  - done.
  - intros pb f e Hf. by apply plain_frame in Hf as (_ & _ & _ & Ht).
Defined.
#[export] Instance plain_settled : AlwaysSettled plain.
Proof. by intros e pb f. Qed.

(** A page of memory and one that a fault adds, with a word over the boundary. *)
Definition two_pages : plain := Plain {[0x1000]} {[0x2000]} ∅.

Lemma copyToClient_correct_witness :
  exists e', copyToClient [1; 2; 3; 4] 0x1ffe two_pages = Ok (inr tt, e') /\ mem two_pages 0x2001 = None /\ mem e' 0x2001 = Some 4.
Proof.
  assert (Hv : value_of (copyToClient [1; 2; 3; 4] 0x1ffe two_pages) = Some (inr tt)) by (vm_compute; reflexivity).
  destruct (wpf_value _ _ _ _ _ (copyToClient_correct [1; 2; 3; 4] 0x1ffe two_pages ltac:(lia) always_settles (plain_settled _)) Hv)
    as (e' & Hr & _ & _ & Hw & _).
  exists e'. split; [exact Hr|]. split; [vm_compute; reflexivity|]. apply (Hw 3%nat). simpl. lia.
Defined.

(** The name [abc], with its end in the second page, which a fault may add. *)
Definition with_name (later : gset Z) : plain := Plain {[0x1000]} later (store_bytes ∅ 0x1ffd [97; 98; 99; 0]).

Lemma copyCStringFromClient_correct_witness :
  exists d e', copyCStringFromClient 0x1ffd 256 (with_name {[0x2000]}) = Ok (inr (d, 3), e') /\ ends_at d 3.
Proof.
  pose proof (copyCStringFromClient_correct 0x1ffd 256 (with_name {[0x2000]}) ltac:(lia) ltac:(lia) always_settles (plain_settled _)) as Hc.
  assert (Hv : exists d, value_of (copyCStringFromClient 0x1ffd 256 (with_name {[0x2000]})) = Some (inr (d, 3)))
    by (eexists; vm_compute; reflexivity).
  destruct Hv as [d Hv]. destruct (wpf_value _ _ _ _ _ Hc Hv) as (e' & Hr & _ & _ & _ & _ & He). exists d, e'. split; [exact Hr|exact He].
Defined.

(** The name [ab] that ends with its page, when there is no next page: the copy of the
    string fails, since it goes on past the end of the string. *)
Lemma string_at_the_end :
  value_of (copyCStringFromClient 0x1ffd 256 (Plain {[0x1000]} ∅ (store_bytes ∅ 0x1ffd [97; 98; 0]))) = Some (inl Unsupported).
Proof. vm_compute. reflexivity. Qed.

(** ** Memory with a page on its way out *)

(** The pages [out] are being written to the pagefile: their frames are still there, and
    the process will see the bytes [saved] when it uses them again. *)
Record leaving := Leaving { inner : plain; out : gset Z; saved : gmap Z Z }.
#[export] Instance leaving_mem : UserMem leaving := {|
  findPage pb e := plain_page pb (inner e);
  pageState pb e := if bool_decide (pb ∈ out e) then PAGEOUT_PENDING else RESIDENT;
  handleFault pb _ := zoom inner (fun p e => Leaving p (out e) (saved e)) (plain_fault pb);
  load f o n e := load f o n (inner e);
  store f o l e := Leaving (store f o l (inner e)) (out e) (saved e);
  markPageAccess _ _ e := e |}.
#[export, refine] Instance leaving_laws : UserMemLaws leaving := {|
  mem e a :=
    if bool_decide (pageBase a PAGE_SIZE_4K ∈ pgs (inner e))
    then Some (default 0 ((if bool_decide (pageBase a PAGE_SIZE_4K ∈ out e) then saved e else bytes (inner e)) !! a)) else None |}.
Proof.
  - intros pb w e. simpl. apply wpf_zoom. unfold plain_fault. wp_line. case_bool_decide; wp_line; [|by intros a v]. intros a v. simpl.
    case_bool_decide; [|done]. by rewrite (bool_decide_true (_ ∈ {[pb]} ∪ _)) by set_solver.
  - intros pb f o n e _ _ _ Hn _. by apply bytes_at_length.
  - intros pb f o n e Hf _ Hst Ho Hn Hp i Hi. apply plain_frame in Hf as (-> & Hm & Hin & _).
    pose proof (bytes_at_length (bytes (inner e)) (pb + 1) o n Hn). simpl in Hi, Hst |- *. case_bool_decide as Hout; [done|].
    rewrite bytes_at_lookup by done. rewrite (pageBase_in pb) by (done || lia). rewrite bool_decide_true, bool_decide_false by done.
    do 3 f_equal. lia.
  - intros pb f o l e a Hf _ Ho Hp Ha. apply plain_frame in Hf as (-> & Hm & Hin & _). simpl.
    destruct (bool_decide (_ ∈ out e)); [done|]. by rewrite store_bytes_lookup, decide_False by lia.
  - intros pb f o l e a Hf _ Hst Ho Hp Ha. apply plain_frame in Hf as (-> & Hm & Hin & _). simpl in Hst |- *. case_bool_decide as Hout; [done|].
    rewrite (pageBase_in pb) by (done || lia). rewrite bool_decide_true, bool_decide_false by done.
    rewrite store_bytes_lookup, decide_True by lia. replace (pb + 1 - 1 + o) with (pb + o) by lia.
    destruct (lookup_lt_is_Some_2 l (Z.to_nat (a - (pb + o)))) as [v Hv]; [lia|]. by rewrite Hv.
  - done.
  - done.
  - done.
  - intros pb f e Hf. by apply plain_frame in Hf as (_ & _ & _ & Ht).
Defined.

(** The copy to such a page reports success, and the process does not see the bytes. *)
Lemma lost_write :
  let e := Leaving (Plain {[0x1000]} ∅ ∅) {[0x1000]} ∅ in
  exists e', copyToClient [7] 0x1000 e = Ok (inr tt, e') /\ mem e' 0x1000 = Some 0.
Proof. eexists. split; vm_compute; reflexivity. Qed.
