(* ===== verification/FileTable.v ===== *)
(** * Descriptors and file handles of a client

    Models [HandlePool], [FileTable] and [ClientIoState] of [sos/src/file.zig] and
    the two functions of [sos/src/client.zig] by which the mappings of files share a
    handle.  An open file is a [FileHandleRef] of the pool, counted by the
    descriptors and mappings that refer to it; the table of descriptors holds opaque
    pointers, to such references or, for the console, to other objects. *)

From S2P Require Import Prelude.

Definition SOS_MAX_OPEN_FILES : Z := 32.
Definition HANDLE_POOL_CAPACITY : Z := 96.

(** What an opaque pointer points to: a slot of the pool, a [File] of the array of
    descriptors, or the console. *)
Inductive Opaque := PRef (pool_slot : nat) | PFile (fd : nat) | PConsole.
#[export] Instance Opaque_eq_dec : EqDecision Opaque.
Proof. solve_decision. Defined.

(** ** The pool of handles *)

(** A raw handle is a pointer of the network file system. *)
Record FileHandleRef := Ref { pool_slot : nat; raw_handle : option Z; fd_hint : Z; refcnt : Z }.
Definition no_ref : FileHandleRef := Ref 0 None (-1) 0.
Inductive HandleRelease := Active | Closed (raw : Z).
Inductive HandlePoolError := Exhausted.
Record HandlePool := Pool { slots : list FileHandleRef; used : list bool }.

Definition HandlePool_reset : HandlePool := Pool (replicate (Z.to_nat HANDLE_POOL_CAPACITY) no_ref) (replicate (Z.to_nat HANDLE_POOL_CAPACITY) false).

(** The loop of [alloc]: the first slot that is not used. *)
Fixpoint first_unused (i : nat) (l : list bool) : option nat :=
  match l with [] => None | b :: l => if b then first_unused (S i) l else Some i end.

Definition alloc (raw : Z) : M HandlePool (HandlePoolError + nat) :=
  p ← get;
  match first_unused 0 (used p) with
  | None => mret (inl Exhausted)
  | Some i =>
    _ ← access (slots p !! i);
    put (Pool (<[i := Ref i (Some raw) (-1) 1]> (slots p)) (<[i := true]> (used p)));;
    mret (inr i)
  end.

Definition maxInt_usize : Z := 2 ^ 64 - 1.
(** [@panic] is fatal. *)
Definition retain (slot : nat) : M HandlePool unit :=
  p ← get;
  r ← access (slots p !! slot);
  when (bool_decide (refcnt r = maxInt_usize)) (throw Fatal);;
  put (Pool (<[slot := Ref (pool_slot r) (raw_handle r) (fd_hint r) (refcnt r + 1)]> (slots p)) (used p)).

Definition release (slot : nat) : M HandlePool HandleRelease :=
  p ← get;
  r ← access (slots p !! slot);
  if bool_decide (refcnt r = 0) then mret Active
  else
    let n := refcnt r - 1 in
    if bool_decide (n = 0) then
      put (Pool (<[slot := no_ref]> (slots p))
                (if bool_decide (pool_slot r < length (used p))%nat then <[pool_slot r := false]> (used p) else used p));;
      match raw_handle r with Some h => mret (Closed h) | None => mret Active end
    else
      put (Pool (<[slot := Ref (pool_slot r) (raw_handle r) (fd_hint r) n]> (slots p)) (used p));;
      mret Active.

(** ** The table of descriptors *)

Inductive FileTableError := TableFull | InvalidFd | SlotUnused | MissingHandle.
Record FileTableEntry := Entry { e_used : bool; e_generation : Z; e_handle : option Opaque }.
Definition no_entry : FileTableEntry := Entry false 0 None.
Record FileTable := FTable { entries : list FileTableEntry; next_generation : Z }.

Definition FileTable_init : FileTable :=
  FTable (<[0%nat := Entry true 0 None]> (replicate (Z.to_nat SOS_MAX_OPEN_FILES) no_entry)) 1.

Definition bumpGeneration (g : Z) : Z :=
  let g' := w32 (g + 1) in if bool_decide (g' = 0) then 1 else g'.

Definition allocFd (handle : Opaque) : M FileTable (FileTableError + nat) :=
  t ← get;
  match first_unused 0 (e_used <$> entries t) with
  | None => mret (inl TableFull)
  | Some i =>
    put (FTable (<[i := Entry true (next_generation t) (Some handle)]> (entries t)) (bumpGeneration (next_generation t)));;
    mret (inr i)
  end.

Definition getHandle (fd : Z) : M FileTable (FileTableError + Opaque) :=
  t ← get;
  if bool_decide (Z.of_nat (length (entries t)) ≤ fd) then mret (inl InvalidFd)
  else
    e ← access (entries t !! Z.to_nat fd);
    if negb (e_used e) then mret (inl SlotUnused)
    else match e_handle e with Some h => mret (inr h) | None => mret (inl MissingHandle) end.

Definition freeFd (fd : Z) : M FileTable (FileTableError + unit) :=
  t ← get;
  if bool_decide (Z.of_nat (length (entries t)) ≤ fd) then mret (inl InvalidFd)
  else
    e ← access (entries t !! Z.to_nat fd);
    if negb (e_used e) then mret (inl SlotUnused)
    else put (FTable (<[Z.to_nat fd := no_entry]> (entries t)) (next_generation t));; mret (inr tt).

(** ** The state of a client *)

Inductive FileKind := KNone | KConsole | KRegular.
#[export] Instance FileKind_eq_dec : EqDecision FileKind.
Proof. solve_decision. Defined.
(** The only table of operations in use is that of the console. *)
Inductive FileOps := console_ops.
#[export] Instance FileOps_eq_dec : EqDecision FileOps.
Proof. solve_decision. Defined.

Record File := mkFile {
  f_used : bool; readable : bool; writable : bool; kind : FileKind; obj : option Opaque; ops : option FileOps;
  dev_id : Z; f_refcnt : Z; offset : Z }.
Definition empty_fd : File := mkFile false false false KNone None None 0 0 0.

Record ClientIoState := Io { initialised : bool; fds : list File; file_table : FileTable; handle_pool : HandlePool }.
Definition reset : ClientIoState := Io false (replicate (Z.to_nat SOS_MAX_OPEN_FILES) empty_fd) FileTable_init HandlePool_reset.

(** Run an operation of a part. *)
Definition on_pool {A} (m : M HandlePool A) : M ClientIoState A :=
  zoom handle_pool (fun p s => Io (initialised s) (fds s) (file_table s) p) m.
Definition on_table {A} (m : M FileTable A) : M ClientIoState A :=
  zoom file_table (fun t s => Io (initialised s) (fds s) t (handle_pool s)) m.
Definition set_fd (i : nat) (f : File) : M ClientIoState unit :=
  s ← get; _ ← access (fds s !! i); put (Io (initialised s) (<[i := f]> (fds s)) (file_table s) (handle_pool s)).

Definition allocHandleRef (raw : Z) : M ClientIoState (HandlePoolError + nat) := on_pool (alloc raw).
Definition retainHandleRef (slot : nat) : M ClientIoState unit := on_pool (retain slot).
Definition releaseHandleRef (slot : nat) : M ClientIoState HandleRelease := on_pool (release slot).

(** [handleRefFromOpaque] casts any pointer; using what is not a reference as one
    is undefined. *)
Definition handleRefFromOpaque {S} (p : Opaque) : M S nat :=
  match p with PRef i => mret i | PFile _ | PConsole => throw Undefined end.
Definition rawFileHandle (slot : nat) : M ClientIoState Z :=
  s ← get; r ← access (slots (handle_pool s) !! slot);
  match raw_handle r with Some h => mret h | None => throw Fatal end.
Definition setHandleFdHint (slot : nat) (fd : Z) : M ClientIoState unit :=
  s ← get; r ← access (slots (handle_pool s) !! slot);
  on_pool (modify (fun p => Pool (<[slot := Ref (pool_slot r) (raw_handle r) fd (refcnt r)]> (slots p)) (used p))).

(** *** [client.zig] *)

Inductive FileHandleError := HInvalidFd | HMissingHandle.
Definition retainFileHandleOpaque (fd : Z) : M ClientIoState (FileHandleError + Opaque) :=
  h ← on_table (getHandle fd);
  match h with
  | inl _ => mret (inl HInvalidFd)
  | inr stored => slot ← handleRefFromOpaque stored; retainHandleRef slot;; mret (inr (PRef slot))
  end.

(** ** Counting references *)

Lemma first_unused_Some i0 l i :
  first_unused i0 l = Some i <->
  (i0 ≤ i)%nat /\ l !! (i - i0)%nat = Some false /\ (forall j, (j < i - i0)%nat -> l !! j = Some true).
Proof.
  revert i0. induction l as [|b l IH]; intros i0; simpl.
  - split; [done|]. intros (_ & H & _). done.
  - destruct b.
    + rewrite IH. split.
      * intros (? & H1 & H2). split; [lia|]. replace (i - i0)%nat with (S (i - S i0)) by lia. split; [done|].
        intros [|j] Hj; [done|]. simpl. apply H2. lia.
      * intros (? & H1 & H2). destruct (decide (i = i0)) as [->|]; [rewrite Nat.sub_diag in H1; done|].
        replace (i - i0)%nat with (S (i - S i0)) in * by lia. split; [lia|]. split; [done|].
        intros j Hj. apply (H2 (S j)). lia.
    + split.
      * intros [= <-]. rewrite Nat.sub_diag. split; [done|]. split; [done|]. intros j ?. lia.
      * intros (? & H1 & H2). destruct (decide (i = i0)) as [->|]; [done|]. specialize (H2 O ltac:(lia)). done.
Qed.
Lemma first_unused_None i0 l : first_unused i0 l = None <-> Forall (fun b => b = true) l.
Proof.
  revert i0. induction l as [|[] l IH]; intros i0; simpl.
  - done.
  - rewrite IH, Forall_cons. tauto.
  - rewrite Forall_cons. split; [done|]. by intros [? _].
Qed.

(** Descriptors that refer to a slot of the pool. *)
Definition refers (i : nat) (e : FileTableEntry) : nat := if decide (e_handle e = Some (PRef i)) then 1 else 0.
Fixpoint fd_refs (i : nat) (l : list FileTableEntry) : nat :=
  match l with [] => 0 | e :: l => (refers i e + fd_refs i l)%nat end.

Lemma fd_refs_insert i l fd e e' :
  l !! fd = Some e -> (fd_refs i (<[fd := e']> l) + refers i e = fd_refs i l + refers i e')%nat.
Proof.
  revert fd. induction l as [|x l IH]; intros [|fd] H; simplify_eq/=; [lia|]. specialize (IH _ H). lia.
Qed.
Lemma fd_refs_pos i l fd e : l !! fd = Some e -> e_handle e = Some (PRef i) -> (0 < fd_refs i l)%nat.
Proof.
  revert fd. induction l as [|x l IH]; intros [|fd] H He; simplify_eq/=.
  - unfold refers. rewrite decide_True by done. lia.
  - specialize (IH _ H He). lia.
Qed.

(** The state of a client against the references [ext] that its mappings hold: a
    slot is in use exactly when something refers to it, its count is the number of
    descriptors and mappings that do, and every descriptor of a regular file has a
    reference. *)
Record io_ok (ext : nat -> nat) (s : ClientIoState) : Prop := {
  o_fds : length (fds s) = 32%nat;
  o_entries : length (entries (file_table s)) = 32%nat;
  o_slots : length (slots (handle_pool s)) = 96%nat;
  o_used : length (used (handle_pool s)) = 96%nat;
  o_free : forall (i : nat) e, entries (file_table s) !! i = Some e -> e_used e = false -> e_handle e = None;
  o_slot : forall (i : nat) r (u : bool), slots (handle_pool s) !! i = Some r -> used (handle_pool s) !! i = Some u ->
    refcnt r = Z.of_nat (fd_refs i (entries (file_table s)) + ext i) /\
    if u then pool_slot r = i /\ is_Some (raw_handle r) /\ refcnt r ≠ 0 else r = no_ref;
  o_ref : forall (fd : nat) e i, entries (file_table s) !! fd = Some e -> e_handle e = Some (PRef i) -> (i < 96)%nat;
  o_regular : forall (fd : nat) f, fds s !! fd = Some f ->
    (f_used f = true /\ kind f = KRegular) <->
    exists e i, entries (file_table s) !! fd = Some e /\ e_handle e = Some (PRef i) }.

Lemma io_ok_slot ext s i : io_ok ext s -> (i < 96)%nat ->
  exists r u, slots (handle_pool s) !! i = Some r /\ used (handle_pool s) !! i = Some u.
Proof.
  intros H Hi. destruct (lookup_lt_is_Some_2 (slots (handle_pool s)) i) as [r Hr]; [rewrite (o_slots _ _ H); lia|].
  destruct (lookup_lt_is_Some_2 (used (handle_pool s)) i) as [u Hu]; [rewrite (o_used _ _ H); lia|]. eauto.
Qed.

(** A slot that something refers to is in use. *)
Lemma io_ok_referenced ext s i :
  io_ok ext s -> (i < 96)%nat -> (0 < fd_refs i (entries (file_table s)) + ext i)%nat ->
  exists r h, slots (handle_pool s) !! i = Some r /\ used (handle_pool s) !! i = Some true /\ pool_slot r = i /\
    raw_handle r = Some h /\ refcnt r = Z.of_nat (fd_refs i (entries (file_table s)) + ext i).
Proof.
  intros H Hi Hp. destruct (io_ok_slot _ _ _ H Hi) as (r & u & Hr & Hu).
  destruct (o_slot _ _ H i r u Hr Hu) as [Hc Hcase]. destruct u.
  - destruct Hcase as (? & [h ?] & _). eauto 10.
  - subst r. simpl in Hc. lia.
Qed.

Lemma io_ok_reset : io_ok (fun _ => O) reset.
Proof.
  split; try done.
  - intros i e Hi Hu. unfold reset, FileTable_init in Hi. cbn [file_table entries] in Hi.
    apply list_lookup_insert_Some in Hi as [(_ & <- & _)|[_ Hi]]; [done|]. by apply lookup_replicate in Hi as [-> _].
  - intros i r u Hr Hu. cbn [reset handle_pool HandlePool_reset slots used] in Hr, Hu.
    apply lookup_replicate in Hr as [-> _]. by apply lookup_replicate in Hu as [-> _].
  - intros fd e i He Hh. cbn [reset file_table FileTable_init entries] in He.
    apply list_lookup_insert_Some in He as [(_ & <- & _)|[_ He]]; [done|]. by apply lookup_replicate in He as [-> _].
  - intros fd f Hf. cbn [reset fds] in Hf. apply lookup_replicate in Hf as [-> _]. split; [by intros []|].
    intros (e & i & He & Hh). cbn [reset file_table FileTable_init entries] in He.
    apply list_lookup_insert_Some in He as [(_ & <- & _)|[_ He]]; [done|]. by apply lookup_replicate in He as [-> _].
Qed.

(** *** The three changes of the references *)

(** A new reference [k] in descriptor [fd]. *)
Lemma io_ok_open ext s k fd e g g' h hint f :
  io_ok ext s -> used (handle_pool s) !! k = Some false ->
  entries (file_table s) !! fd = Some e -> e_used e = false -> f_used f = true -> kind f = KRegular ->
  io_ok ext (Io (initialised s) (<[fd := f]> (fds s)) (FTable (<[fd := Entry true g (Some (PRef k))]> (entries (file_table s))) g')
               (Pool (<[k := Ref k (Some h) hint 1]> (slots (handle_pool s))) (<[k := true]> (used (handle_pool s))))).
Proof.
  intros H Hk He Hu Hf Hkind. pose proof (lookup_lt_Some _ _ _ Hk) as Hk96. rewrite (o_used _ _ H) in Hk96.
  pose proof (lookup_lt_Some _ _ _ He) as Hfd. rewrite (o_entries _ _ H) in Hfd.
  destruct (io_ok_slot _ _ _ H Hk96) as (rk & uk & Hrk & Huk). rewrite Hk in Huk. injection Huk as <-.
  destruct (o_slot _ _ H k rk false Hrk Hk) as [Hck ->]. simpl in Hck.
  pose proof (o_free _ _ H _ _ He Hu) as Hnone. destruct H.
  assert (Hrefs : forall i, fd_refs i (<[fd := Entry true g (Some (PRef k))]> (entries (file_table s))) =
                            (fd_refs i (entries (file_table s)) + if decide (i = k) then 1 else 0)%nat).
  { intros i. pose proof (fd_refs_insert i _ _ _ (Entry true g (Some (PRef k))) He) as Hi. unfold refers in Hi. simpl in Hi.
    rewrite Hnone in Hi. destruct (decide (i = k)) as [->|]; repeat case_decide; simplify_eq; lia. }
  split; simpl; rewrite ?length_insert; try done.
  - intros i e' Hi Hu'. apply list_lookup_insert_Some in Hi as [(_ & <- & _)|[_ Hi]]; [done|eauto].
  - intros i r u Hr Hu'. rewrite Hrefs. destruct (decide (i = k)) as [->|Hik].
    + rewrite list_lookup_insert_eq in Hr by lia. rewrite list_lookup_insert_eq in Hu' by lia. simplify_eq/=. split; [lia|]. eauto.
    + rewrite list_lookup_insert_ne in Hr by done. rewrite list_lookup_insert_ne in Hu' by done. rewrite Nat.add_0_r. eauto.
  - intros fd' e' i Hi Hh. apply list_lookup_insert_Some in Hi as [(_ & <- & _)|[_ Hi]]; [by simplify_eq/=|eauto].
  - intros fd' f' Hf'. apply list_lookup_insert_Some in Hf' as [(<- & <- & _)|[Hne Hf']].
    + split; [|done]. intros _. do 2 eexists. split; [by apply list_lookup_insert_eq; lia|done].
    + rewrite o_regular0 by done. by rewrite list_lookup_insert_ne.
Qed.

(** Descriptor [fd] gives up its reference [k], the last one. *)
Lemma io_ok_close_last ext s k fd e r :
  io_ok ext s -> entries (file_table s) !! fd = Some e -> e_handle e = Some (PRef k) ->
  slots (handle_pool s) !! k = Some r -> refcnt r = 1 ->
  io_ok ext (Io (initialised s) (<[fd := empty_fd]> (fds s)) (FTable (<[fd := no_entry]> (entries (file_table s))) (next_generation (file_table s)))
               (Pool (<[k := no_ref]> (slots (handle_pool s))) (<[k := false]> (used (handle_pool s))))).
Proof.
  intros H He Hh Hr H1. pose proof (o_ref _ _ H _ _ _ He Hh) as Hk96. pose proof (fd_refs_pos _ _ _ _ He Hh) as Hpos.
  destruct (io_ok_referenced _ _ k H Hk96 ltac:(lia)) as (r' & h & Hr' & Hu & _ & _ & Hc). simplify_eq.
  pose proof (lookup_lt_Some _ _ _ He) as Hfd. rewrite (o_entries _ _ H) in Hfd. destruct H.
  assert (Hrefs : forall i, (fd_refs i (<[fd := no_entry]> (entries (file_table s))) + (if decide (i = k) then 1 else 0) =
                            fd_refs i (entries (file_table s)))%nat).
  { intros i. pose proof (fd_refs_insert i _ _ _ no_entry He) as Hi. unfold refers in Hi. simpl in Hi. rewrite Hh in Hi.
    destruct (decide (i = k)) as [->|]; repeat case_decide; simplify_eq; lia. }
  split; simpl; rewrite ?length_insert; try done.
  - intros i e' Hi Hu'. apply list_lookup_insert_Some in Hi as [(_ & <- & _)|[_ Hi]]; [done|eauto].
  - intros i r0 u0 Hr0 Hu0. specialize (Hrefs i). destruct (decide (i = k)) as [->|Hik].
    + rewrite list_lookup_insert_eq in Hr0 by lia. rewrite list_lookup_insert_eq in Hu0 by lia. simplify_eq/=. split; [lia|done].
    + rewrite list_lookup_insert_ne in Hr0 by done. rewrite list_lookup_insert_ne in Hu0 by done. rewrite Nat.add_0_r in Hrefs. rewrite Hrefs. eauto.
  - intros fd' e' i Hi Hh'. apply list_lookup_insert_Some in Hi as [(_ & <- & _)|[_ Hi]]; [done|eauto].
  - intros fd' f' Hf'. apply list_lookup_insert_Some in Hf' as [(<- & <- & _)|[Hne Hf']].
    + split; [by intros [? ?]|]. intros (e' & i & Hi & Hh'). rewrite list_lookup_insert_eq in Hi by lia. by simplify_eq.
    + rewrite o_regular0 by done. by rewrite list_lookup_insert_ne.
Qed.

(** Descriptor [fd] gives up its reference [k], which others keep. *)
Lemma io_ok_close_shared ext s k fd e r :
  io_ok ext s -> entries (file_table s) !! fd = Some e -> e_handle e = Some (PRef k) ->
  slots (handle_pool s) !! k = Some r -> 1 < refcnt r ->
  io_ok ext (Io (initialised s) (<[fd := empty_fd]> (fds s)) (FTable (<[fd := no_entry]> (entries (file_table s))) (next_generation (file_table s)))
               (Pool (<[k := Ref (pool_slot r) (raw_handle r) (fd_hint r) (refcnt r - 1)]> (slots (handle_pool s))) (used (handle_pool s)))).
Proof.
  intros H He Hh Hr H1. pose proof (o_ref _ _ H _ _ _ He Hh) as Hk96. pose proof (fd_refs_pos _ _ _ _ He Hh) as Hpos.
  destruct (io_ok_referenced _ _ k H Hk96 ltac:(lia)) as (r' & h & Hr' & Hu & Hps & Hraw & Hc). simplify_eq.
  pose proof (lookup_lt_Some _ _ _ He) as Hfd. rewrite (o_entries _ _ H) in Hfd. destruct H.
  assert (Hrefs : forall i, (fd_refs i (<[fd := no_entry]> (entries (file_table s))) + (if decide (i = pool_slot r) then 1 else 0) =
                            fd_refs i (entries (file_table s)))%nat).
  { intros i. pose proof (fd_refs_insert i _ _ _ no_entry He) as Hi. unfold refers in Hi. simpl in Hi. rewrite Hh in Hi.
    destruct (decide (i = pool_slot r)) as [->|]; repeat case_decide; simplify_eq; lia. }
  split; simpl; rewrite ?length_insert; try done.
  - intros i e' Hi Hu'. apply list_lookup_insert_Some in Hi as [(_ & <- & _)|[_ Hi]]; [done|eauto].
  - intros i r0 u0 Hr0 Hu0. specialize (Hrefs i). destruct (decide (i = pool_slot r)) as [->|Hik].
    + rewrite list_lookup_insert_eq in Hr0 by lia. simplify_eq/=. split; [lia|]. rewrite Hraw. split; [done|]. split; [eauto|lia].
    + rewrite list_lookup_insert_ne in Hr0 by done. rewrite Nat.add_0_r in Hrefs. rewrite Hrefs. eauto.
  - intros fd' e' i Hi Hh'. apply list_lookup_insert_Some in Hi as [(_ & <- & _)|[_ Hi]]; [done|eauto].
  - intros fd' f' Hf'. apply list_lookup_insert_Some in Hf' as [(<- & <- & _)|[Hne Hf']].
    + split; [by intros [? ?]|]. intros (e' & i & Hi & Hh'). rewrite list_lookup_insert_eq in Hi by lia. by simplify_eq.
    + rewrite o_regular0 by done. by rewrite list_lookup_insert_ne.
Qed.

(** A mapping takes or gives up a reference. *)
Definition one_more (k : nat) (ext : nat -> nat) : nat -> nat := fun i => if decide (i = k) then S (ext i) else ext i.

(** ** The operations *)

Lemma alloc_spec raw p :
  length (slots p) = length (used p) ->
  wp (alloc raw) (fun r p' =>
    match r with
    | inl Exhausted => p' = p /\ Forall (fun b => b = true) (used p)
    | inr k => used p !! k = Some false /\ (forall j, (j < k)%nat -> used p !! j = Some true) /\
        p' = Pool (<[k := Ref k (Some raw) (-1) 1]> (slots p)) (<[k := true]> (used p))
    end) p.
Proof.
  intros Hl. unfold alloc. wp_line. destruct (first_unused 0 (used p)) as [k|] eqn:Hk.
  - apply first_unused_Some in Hk as (_ & Hk & Hj). rewrite Nat.sub_0_r in *.
    pose proof (lookup_lt_Some _ _ _ Hk). destruct (lookup_lt_is_Some_2 (slots p) k) as [r Hr]; [lia|].
    apply wpf_bind. eapply wpf_access; [done|]. wp_line. done.
  - apply first_unused_None in Hk. wp_line. done.
Qed.

Lemma release_spec k r h p :
  slots p !! k = Some r -> pool_slot r = k -> (k < length (used p))%nat -> raw_handle r = Some h -> refcnt r ≠ 0 ->
  wp (release k) (fun res p' =>
    if decide (refcnt r = 1) then res = Closed h /\ p' = Pool (<[k := no_ref]> (slots p)) (<[k := false]> (used p))
    else res = Active /\ p' = Pool (<[k := Ref (pool_slot r) (raw_handle r) (fd_hint r) (refcnt r - 1)]> (slots p)) (used p)) p.
Proof.
  intros Hr Hps Hk Hraw Hn. unfold release. wp_line. eapply wpf_access; [done|].
  rewrite bool_decide_false by done. apply wpf_if; intros Hb; bd.
  - wp_line. rewrite Hraw, Hps, bool_decide_true by done. wp_line. by rewrite decide_True by lia.
  - wp_line. by rewrite decide_False by lia.
Qed.

Lemma allocFd_spec h t :
  wp (allocFd h) (fun r t' =>
    match r with
    | inl e => e = TableFull /\ t' = t /\ Forall (fun e => e_used e = true) (entries t)
    | inr fd => (exists e, entries t !! fd = Some e /\ e_used e = false) /\
        (forall (j : nat) e, (j < fd)%nat -> entries t !! j = Some e -> e_used e = true) /\
        exists g g', t' = FTable (<[fd := Entry true g (Some h)]> (entries t)) g'
    end) t.
Proof.
  unfold allocFd. wp_line. destruct (first_unused 0 (e_used <$> entries t)) as [k|] eqn:Hk.
  - apply first_unused_Some in Hk as (_ & Hk & Hj). rewrite Nat.sub_0_r in *. wp_line.
    rewrite list_lookup_fmap in Hk. destruct (entries t !! k) as [e|] eqn:He; [|done]. simpl in Hk. injection Hk as Hk.
    split; [eauto|]. split; [|eauto]. intros j e' Hjk He'. specialize (Hj j Hjk). rewrite list_lookup_fmap, He' in Hj.
    by injection Hj.
  - apply first_unused_None in Hk. wp_line. split; [done|]. split; [done|]. by rewrite Forall_fmap in Hk.
Qed.

Lemma getHandle_spec fd t :
  0 ≤ fd ->
  wp (getHandle fd) (fun r t' =>
    t' = t /\ forall h, r = inr h <-> exists e, entries t !! Z.to_nat fd = Some e /\ e_used e = true /\ e_handle e = Some h) t.
Proof.
  intros Hfd. unfold getHandle. wp_line. apply wpf_if; intros Hb; bd.
  - wp_line. split; [done|]. intros h. split; [done|]. intros (e & He & _). apply lookup_lt_Some in He. lia.
  - destruct (lookup_lt_is_Some_2 (entries t) (Z.to_nat fd)) as [e He]; [lia|].
    apply wpf_bind. eapply wpf_access; [done|]. apply wpf_if; intros Hu; bd.
    + wp_line. split; [done|]. intros h. split; [done|]. naive_solver congruence.
    + destruct (e_handle e) as [h|] eqn:Hh; wp_line; (split; [done|]); intros h'; (split; [intros [= <-]; eauto|]); intros (e' & He' & Hu' & Hh').
      * rewrite He in He'. injection He' as <-. congruence.
      * rewrite He in He'. injection He' as <-. congruence.
Qed.

Lemma freeFd_spec fd e t :
  0 ≤ fd -> entries t !! Z.to_nat fd = Some e -> e_used e = true ->
  wp (freeFd fd) (fun r t' => r = inr tt /\ t' = FTable (<[Z.to_nat fd := no_entry]> (entries t)) (next_generation t)) t.
Proof.
  intros Hfd He Hu. pose proof (lookup_lt_Some _ _ _ He). unfold freeFd. wp_line.
  rewrite bool_decide_false by lia. wp_line. eapply wpf_access; [done|]. rewrite Hu. simpl. wp_line. done.
Qed.
