(* ===== verification/Console.v ===== *)
(** * The console

    Models the console device of [sos/src/file.zig], with the ring buffer between the
    network and the readers, and the access to it: [sos/src/console.zig], and opening
    and closing the console in [sos/src/main.zig].  One client at a time may read;
    writers are counted.

    The network console is outside: whether it is there, and how many bytes it takes
    of what is sent. *)

From S2P Require Import Prelude Errno FileTable.

(** ** The ring *)

Definition ring_capacity : Z := 1024.
Record ConsoleRing := Ring { rbuf : list Z; rhead : Z; rtail : Z }.
Definition ring_init : ConsoleRing := Ring (replicate (Z.to_nat ring_capacity) 0) 0 0.

Definition isEmpty (r : ConsoleRing) : bool := bool_decide (rhead r = rtail r).
Definition ring_next (index : Z) : Z := (index + 1) mod ring_capacity.
Definition ring_push (byte : Z) : M ConsoleRing unit :=
  r ← get;
  let next_head := ring_next (rhead r) in
  if bool_decide (next_head = rtail r) then mret tt
  else
    _ ← access (rbuf r !! Z.to_nat (rhead r));
    put (Ring (<[Z.to_nat (rhead r) := byte]> (rbuf r)) next_head (rtail r)).
(** The loop of [popMany]; [room] is what is left of the destination. *)
Fixpoint popMany (room : nat) (stop_on_nl : bool) : M ConsoleRing (list Z) :=
  match room with
  | O => mret []
  | S room =>
    r ← get;
    if isEmpty r then mret []
    else
      byte ← access (rbuf r !! Z.to_nat (rtail r));
      put (Ring (rbuf r) (rhead r) (ring_next (rtail r)));;
      if stop_on_nl && bool_decide (byte = 10) then mret [byte]
      else rest ← popMany room stop_on_nl; mret (byte :: rest)
  end.

Definition ring_ok (r : ConsoleRing) : Prop :=
  length (rbuf r) = Z.to_nat ring_capacity /\ 0 ≤ rhead r < ring_capacity /\ 0 ≤ rtail r < ring_capacity.
Definition ring_size (r : ConsoleRing) : Z := (rhead r - rtail r) mod ring_capacity.
(** The bytes in the ring, from the oldest. *)
Definition ring_contents (r : ConsoleRing) : list Z :=
  (fun i => default 0 (rbuf r !! Z.to_nat ((rtail r + Z.of_nat i) mod ring_capacity))) <$> seq 0 (Z.to_nat (ring_size r)).

(** What [popMany] takes of a list. *)
Fixpoint pop_list (room : nat) (stop_on_nl : bool) (l : list Z) : list Z :=
  match room, l with
  | O, _ | _, [] => []
  | S room, b :: l => if stop_on_nl && bool_decide (b = 10) then [b] else b :: pop_list room stop_on_nl l
  end.

Lemma ring_size_range r : 0 ≤ ring_size r < ring_capacity.
Proof. unfold ring_size, ring_capacity. apply Z.mod_pos_bound. lia. Qed.
Lemma length_contents r : Z.of_nat (length (ring_contents r)) = ring_size r.
Proof. unfold ring_contents. rewrite length_fmap, length_seq. pose proof (ring_size_range r). lia. Qed.

(** Sizes as differences: the head is [n] places after the tail. *)
Lemma ring_size_eq r n : ring_ok r -> 0 ≤ n < ring_capacity -> ring_size r = n <-> rhead r = (rtail r + n) mod ring_capacity.
Proof.
  unfold ring_ok, ring_size, ring_capacity. intros (_ & Hh & Ht) Hn. split; intros Heq.
  - rewrite <- Heq, Zplus_mod_idemp_r, Z.mod_small; lia.
  - rewrite Heq, Zminus_mod_idemp_l, Z.mod_small; lia.
Qed.
Lemma ring_empty r : ring_ok r -> isEmpty r = true <-> ring_contents r = [].
Proof.
  intros Hr. unfold isEmpty. rewrite bool_decide_eq_true. rewrite <- length_zero_iff_nil. pose proof (length_contents r) as Hl.
  pose proof (ring_size_eq r 0 Hr ltac:(unfold ring_capacity; lia)) as Hs. destruct Hr as (_ & _ & Ht).
  rewrite Z.add_0_r, Z.mod_small in Hs by done. rewrite <- Hs. lia.
Qed.

Lemma ring_push_spec b r :
  ring_ok r ->
  wp (ring_push b) (fun _ r' => ring_ok r' /\
    ring_contents r' = if bool_decide (Z.of_nat (length (ring_contents r)) < ring_capacity - 1) then ring_contents r ++ [b] else ring_contents r) r.
Proof.
  intros Hr. pose proof Hr as (Hl & Hh & Ht). pose proof (ring_size_range r) as Hs. rewrite length_contents.
  assert (Hhead : rhead r = (rtail r + ring_size r) mod ring_capacity) by by apply ring_size_eq.
  assert (Hfull : ring_next (rhead r) = rtail r <-> ring_size r = ring_capacity - 1).
  { rewrite (ring_size_eq r) by (done || (unfold ring_capacity in *; lia)). unfold ring_next, ring_capacity in *. split; intros Heq.
    - rewrite <- Heq, Zplus_mod_idemp_l. replace (rhead r + 1 + (1024 - 1)) with (rhead r + 1 * 1024) by lia. rewrite Z_mod_plus_full, Z.mod_small; lia.
    - rewrite Heq, Zplus_mod_idemp_l. replace (rtail r + (1024 - 1) + 1) with (rtail r + 1 * 1024) by lia. rewrite Z_mod_plus_full, Z.mod_small; lia. }
  unfold ring_push. wp_line. case_bool_decide as Hn.
  { wp_line. rewrite bool_decide_false by (apply Hfull in Hn; lia). done. }
  destruct (lookup_lt_is_Some_2 (rbuf r) (Z.to_nat (rhead r))) as [old Hold]; [unfold ring_capacity in *; lia|].
  wp_line. eapply wpf_access; [done|]. wp_line.
  assert (Hnr : ring_size r < ring_capacity - 1) by (assert (ring_size r ≠ ring_capacity - 1) by tauto; lia).
  rewrite bool_decide_true by done. set (r' := Ring _ _ _).
  assert (Hr' : ring_ok r').
  { split; [simpl; by rewrite length_insert|]. split; [|done]. simpl. unfold ring_next, ring_capacity. apply Z.mod_pos_bound. lia. }
  split; [done|]. assert (Hsz : ring_size r' = ring_size r + 1).
  { apply ring_size_eq; [done|lia|]. simpl. unfold ring_next. rewrite Hhead, Zplus_mod_idemp_l. f_equal. lia. }
  unfold ring_contents. rewrite Hsz, Z2Nat.inj_add, Nat.add_1_r, seq_S, fmap_app by lia. simpl. f_equal.
  - apply list_fmap_ext. intros n i Hi. apply lookup_seq in Hi as [-> Hi]. simpl. rewrite list_lookup_insert_ne; [done|].
    intros Heq. apply Z2Nat.inj in Heq; [|lia|unfold ring_capacity; apply Z.mod_pos_bound; lia]. rewrite Hhead in Heq.
    assert (Hi' : (rhead r - rtail r) mod ring_capacity = Z.of_nat n).
    { apply (ring_size_eq r (Z.of_nat n) Hr); [lia|]. by rewrite Hhead. }
    unfold ring_size in Hi. lia.
  - rewrite Z2Nat.id by lia. rewrite <- Hhead, list_lookup_insert_eq; [done|]. unfold ring_capacity in *. lia.
Qed.

Lemma pop_one r : ring_ok r -> ring_contents r ≠ [] ->
  exists b, rbuf r !! Z.to_nat (rtail r) = Some b /\
    let r' := Ring (rbuf r) (rhead r) (ring_next (rtail r)) in ring_ok r' /\ ring_contents r = b :: ring_contents r'.
Proof.
  intros Hr Hne. pose proof Hr as (Hl & Hh & Ht). pose proof (ring_size_range r) as Hs.
  destruct (lookup_lt_is_Some_2 (rbuf r) (Z.to_nat (rtail r))) as [b Hb]; [unfold ring_capacity in *; lia|]. exists b. split; [done|].
  set (r' := Ring _ _ _). assert (Hr' : ring_ok r').
  { split; [done|]. split; [done|]. simpl. unfold ring_next, ring_capacity. apply Z.mod_pos_bound. lia. }
  split; [done|]. assert (Hpos : 0 < ring_size r).
  { rewrite <- length_contents. destruct (ring_contents r); [done|simpl; lia]. }
  assert (Hsz : ring_size r' = ring_size r - 1).
  { apply ring_size_eq; [done|lia|]. simpl. unfold ring_next. rewrite Zplus_mod_idemp_l.
    replace (rtail r + 1 + (ring_size r - 1)) with (rtail r + ring_size r) by lia. by apply ring_size_eq. }
  unfold ring_contents. rewrite Hsz. replace (Z.to_nat (ring_size r)) with (S (Z.to_nat (ring_size r - 1))) by lia. simpl.
  f_equal; [rewrite Z.add_0_r, Z.mod_small by done; by rewrite Hb|]. rewrite <- fmap_S_seq, <- list_fmap_compose.
  apply list_fmap_ext. intros n i _. simpl. unfold ring_next. rewrite Zplus_mod_idemp_l. do 4 f_equal. lia.
Qed.
Lemma popMany_spec room nl : forall r, ring_ok r ->
  wp (popMany room nl) (fun l r' => ring_ok r' /\ l = pop_list room nl (ring_contents r) /\ ring_contents r = l ++ ring_contents r') r.
Proof.
  induction room as [|room IH]; intros r Hr; cbn [popMany]; [by wp_line|]. wp_line.
  destruct (isEmpty r) eqn:He; [wp_line; apply ring_empty in He as ->; done|].
  assert (Hne : ring_contents r ≠ []) by (intros H; apply ring_empty in H; congruence).
  destruct (pop_one r Hr Hne) as (b & Hb & Hr' & Hc). wp_line. eapply wpf_access; [done|]. wp_line.
  set (r' := Ring _ _ _) in *. rewrite Hc. cbn [pop_list]. destruct (nl && bool_decide (b = 10)); [by wp_line|].
  wp_line. eapply wpf_mono; [by apply IH|]. intros rest r2 (Hr2 & -> & Hrest). wp_line. split; [done|]. split; [done|]. by rewrite Hrest at 1.
Qed.

(** ** The device *)

(** [nc] says that the network console is there; [sent] is what was given to it. *)
Record Console := Con {
  ring : ConsoleRing; input_handler_registered : bool; nc : bool; sent : list (list Z);
  reader_in_use : bool; reader_owner_id : Z; write_refcnt : Z }.
Definition set_ring (r : ConsoleRing) (c : Console) : Console :=
  Con r (input_handler_registered c) (nc c) (sent c) (reader_in_use c) (reader_owner_id c) (write_refcnt c).
Definition set_access (b : bool) (owner n : Z) (c : Console) : Console :=
  Con (ring c) (input_handler_registered c) (nc c) (sent c) b owner n.

Definition ensureInputHandler : M Console unit :=
  c ← get;
  when (negb (input_handler_registered c) && nc c)
    (put (Con (ring c) true (nc c) (sent c) (reader_in_use c) (reader_owner_id c) (write_refcnt c))).
Definition badgeFromMode (mode : Z) : Z := Z.lor (if want_read mode then 1 else 0) (if want_write mode then 2 else 0).

(** The result, and the identifier that is stored; the name is the console's. *)
Definition console_open (mode : Z) : M Console (Z * Z) :=
  ensureInputHandler;;
  c ← get;
  if negb (nc c) then mret (- ENODEV, 0)
  else
    let badge := badgeFromMode mode in
    if bool_decide (badge = 0) then mret (- EINVAL, 0) else mret (0, badge).
(** The bytes for a buffer of [len] bytes, or nothing when the call would block. *)
Definition console_read (len : Z) : M Console (option (list Z)) :=
  if bool_decide (len = 0) then mret (Some [])
  else
    c ← get;
    if isEmpty (ring c) then mret None
    else l ← zoom ring set_ring (popMany (Z.to_nat len) false); mret (Some l).
(** [network_console_send] takes [take_ l] bytes of what it is given. *)
Definition console_write (take_ : list Z -> Z) (data : list Z) : M Console Z :=
  if bool_decide (data = []) then mret 0
  else
    c ← get;
    if negb (nc c) then mret (- ENODEV)
    else
      let usable := take (Z.to_nat (2 ^ 31 - 1)) data in
      put (Con (ring c) (input_handler_registered c) (nc c) (sent c ++ [usable]) (reader_in_use c) (reader_owner_id c) (write_refcnt c));;
      mret (take_ usable).
Definition console_close (id : Z) : M Console Z := mret 0.
(** A character arrives; the readers that wait are resumed by the caller. *)
Definition handleInput (ch : Z) : M Console unit := zoom ring set_ring (ring_push ch).

(** ** Access *)

Inductive ConsoleAccessError := Busy.
Definition acquireConsoleAccess (client_id : Z) (readable writable : bool) : M Console (option ConsoleAccessError) :=
  c ← get;
  if readable && reader_in_use c then mret (Some Busy)
  else
    when readable (modify (fun c => set_access true client_id (write_refcnt c) c));;
    when writable (modify (fun c => set_access (reader_in_use c) (reader_owner_id c) (write_refcnt c + 1) c));;
    mret None.
Definition releaseConsoleAccess (client_id : Z) (r w : bool) : M Console unit :=
  c ← get;
  when (r && reader_in_use c && bool_decide (reader_owner_id c = client_id))
    (modify (fun c => set_access false 0 (write_refcnt c) c));;
  when (w && bool_decide (0 < write_refcnt c)) (modify (fun c => set_access (reader_in_use c) (reader_owner_id c) (write_refcnt c - 1) c)).

Definition console_fd (r w : bool) (id : Z) : File := mkFile true r w KConsole (Some PConsole) (Some console_ops) id 1 0.

(** The console and one client. *)
Abbreviation CW := (Console * ClientIoState)%type.
Definition con {A} (m : M Console A) : M CW A := zoom fst (fun c w => (c, snd w)) m.
Definition cio {A} (m : M ClientIoState A) : M CW A := zoom snd (fun s w => (fst w, s)) m.

Definition setupConsoleFd (i : nat) (r w : bool) (id : Z) : M CW unit := cio (set_fd i (console_fd r w id)).

(** Standard output and standard error are opened in the same way. *)
Definition open_std (client_id : Z) (i : nat) : M CW unit :=
  r ← con (console_open O_WRONLY);
  if bool_decide (fst r < 0) then throw Fatal
  else
    setupConsoleFd i false true (snd r);;
    _ ← con (acquireConsoleAccess client_id false true);
    fd ← cio (on_table (allocFd (PFile i)));
    match fd with inl _ => throw Undefined | inr j => cassert (bool_decide (j = i)) end.
Definition initStdio (client_id : Z) : M CW unit :=
  modify (fun w => (fst w, reset));;
  cio (set_fd 0 (mkFile true false false KNone None None 0 0 0));;
  open_std client_id 1;;
  open_std client_id 2;;
  modify (fun w => (fst w, Io true (fds (snd w)) (file_table (snd w)) (handle_pool (snd w)))).
Definition ensureStdio (client_id : Z) : M CW unit :=
  w ← get; when (negb (initialised (snd w))) (initStdio client_id).

(** Undo an open of the console that failed. *)
Definition undo_open (client_id dev_id : Z) (r w : bool) : M CW unit :=
  _ ← con (console_close dev_id); con (releaseConsoleAccess client_id r w).
Definition handleConsoleOpen (client_id flags : Z) : M CW Z :=
  let want_r := want_read flags in
  let want_w := want_write flags in
  if negb want_r && negb want_w then mret (- EINVAL)
  else
    a ← con (acquireConsoleAccess client_id want_r want_w);
    match a with
    | Some Busy => mret (- EBUSY)
    | None =>
      ret ← con (console_open flags);
      if bool_decide (fst ret < 0) then con (releaseConsoleAccess client_id want_r want_w);; mret (fst ret)
      else
        f ← cio (on_table (allocFd PConsole));
        match f with
        | inl TableFull => undo_open client_id (snd ret) want_r want_w;; mret (- EMFILE)
        | inl _ => undo_open client_id (snd ret) want_r want_w;; mret (- EBADF)
        | inr fd =>
          w ← get;
          match fds (snd w) !! fd with
          | None => _ ← cio (on_table (freeFd (Z.of_nat fd))); undo_open client_id (snd ret) want_r want_w;; mret (- EMFILE)
          | Some f =>
            if f_used f then
              _ ← cio (on_table (freeFd (Z.of_nat fd))); undo_open client_id (snd ret) want_r want_w;; mret (- EBUSY)
            else
              setupConsoleFd fd want_r want_w (snd ret);;
              cio (on_table (modify (fun t =>
                FTable (alter (fun e => Entry (e_used e) (e_generation e) (Some (PFile fd))) fd (entries t)) (next_generation t))));;
              mret (Z.of_nat fd)
          end
        end
    end.

Definition is_console (f : File) : bool := f_used f && bool_decide (kind f = KConsole).
(** The part of [handleClose] for the console; the descriptor is one of the console. *)
Definition close_console (client_id : Z) (fd : nat) : M CW Z :=
  w ← get;
  f ← access (fds (snd w) !! fd);
  if bool_decide (1 < f_refcnt f) then
    cio (set_fd fd (mkFile (f_used f) (readable f) (writable f) (kind f) (obj f) (ops f) (dev_id f) (f_refcnt f - 1) (offset f)));; mret 0
  else
    con (releaseConsoleAccess client_id (readable f) (writable f));;
    (match ops f with Some _ => _ ← con (console_close (dev_id f)); mret tt | None => mret tt end);;
    when (bool_decide (3 ≤ fd)%nat) (_ ← cio (on_table (freeFd (Z.of_nat fd))); mret tt);;
    cio (set_fd fd empty_fd);;
    mret 0.

(** ** Who has the console open *)

Definition reads (f : File) : Z := if is_console f && readable f then 1 else 0.
Definition writes (f : File) : Z := if is_console f && writable f then 1 else 0.
Definition total {A} (n : A -> Z) (l : list A) : Z := foldr (fun x t => n x + t) 0 l.
Definition readers (s : ClientIoState) : Z := total reads (fds s).
Definition writers (s : ClientIoState) : Z := total writes (fds s).

Lemma alter_insert_same {A} (f : A -> A) i x (l : list A) : alter f i (<[i := x]> l) = <[i := f x]> l.
Proof. revert i. induction l as [|y l IH]; intros [|i]; simpl; [done..|]. f_equal. apply IH. Qed.
Lemma total_insert {A} (n : A -> Z) l i x y : l !! i = Some x -> total n (<[i := y]> l) = total n l - n x + n y.
Proof. revert i. induction l as [|z l IH]; intros [|i] H; simplify_eq/=; [lia|]. rewrite (IH _ H). lia. Qed.
Lemma total_zero {A} (n : A -> Z) l : (forall x, x ∈ l -> n x = 0) -> total n l = 0.
Proof. induction l as [|x l IH]; intros H; simpl; [done|]. rewrite H, IH by set_solver. done. Qed.
Lemma total_nonneg {A} (n : A -> Z) l : (forall x, 0 ≤ n x) -> 0 ≤ total n l.
Proof. intros H. induction l as [|x l IH]; simpl; [lia|]. specialize (H x). lia. Qed.
Lemma total_at {A} (n : A -> Z) l i x : (forall x, 0 ≤ n x) -> l !! i = Some x -> n x ≤ total n l.
Proof.
  intros Hn. revert i. induction l as [|z l IH]; intros [|i] H; simplify_eq/=.
  - pose proof (total_nonneg n l Hn). lia.
  - specialize (IH _ H). pose proof (Hn z). lia.
Qed.
Lemma reads_range f : 0 ≤ reads f ≤ 1.
Proof. unfold reads. destruct (_ && _); lia. Qed.
Lemma writes_range f : 0 ≤ writes f ≤ 1.
Proof. unfold writes. destruct (_ && _); lia. Qed.

(** The count of writers is the number of descriptors that can write to the console, at
    most one descriptor can read from it, and its client is the owner. *)
Definition console_ok (c : Console) (cs : list ClientIoState) : Prop :=
  write_refcnt c = total writers cs /\ total readers cs = (if reader_in_use c then 1 else 0) /\
  (forall i s, cs !! i = Some s -> 0 < readers s -> reader_owner_id c = Z.of_nat i).
(** The device itself is not changed by opening and closing it. *)
Definition same_device (c c' : Console) : Prop := nc c' = nc c /\ ring c' = ring c.
Lemma same_device_trans c1 c2 c3 : same_device c1 c2 -> same_device c2 c3 -> same_device c1 c3.
Proof. intros [H1 H2] [H3 H4]. split; congruence. Qed.

(** What a change to the console and to the client [i] must be. *)
Definition balanced (i : nat) (c c' : Console) (s s' : ClientIoState) : Prop :=
  same_device c c' /\
  write_refcnt c' - writers s' = write_refcnt c - writers s /\
  (if reader_in_use c' then 1 else 0) - readers s' = (if reader_in_use c then 1 else 0) - readers s /\
  ((readers s' = readers s /\ reader_owner_id c' = reader_owner_id c) \/
   (0 < readers s' /\ reader_in_use c = false /\ reader_owner_id c' = Z.of_nat i) \/ reader_in_use c' = false).

Lemma readers_nonneg s : 0 ≤ readers s.
Proof. apply total_nonneg. intros f. apply reads_range. Qed.
Lemma console_ok_step i c c' s s' cs : cs !! i = Some s -> console_ok c cs -> balanced i c c' s s' -> console_ok c' (<[i := s']> cs).
Proof.
  intros Hi (H1 & H2 & H3) (_ & B1 & B2 & B3). split; [rewrite (total_insert _ _ _ _ _ Hi); lia|].
  assert (Ht : total readers (<[i := s']> cs) = if reader_in_use c' then 1 else 0) by (rewrite (total_insert _ _ _ _ _ Hi); lia).
  split; [done|]. intros j x Hj Hx.
  assert (Hle : readers x ≤ total readers (<[i := s']> cs)) by (eapply total_at; [apply readers_nonneg|done]).
  apply list_lookup_insert_Some in Hj as [(<- & <- & _)|[Hne Hj]].
  - destruct B3 as [[E1 ->]|[(_ & _ & ->)|E1]]; [|done|rewrite Ht, E1 in Hle; lia]. apply (H3 i s Hi). lia.
  - destruct B3 as [[E1 ->]|[(_ & E1 & _)|E1]]; [by apply (H3 j x)| |rewrite Ht, E1 in Hle; lia].
    assert (readers x ≤ total readers cs) by (eapply total_at; [apply readers_nonneg|done]). rewrite E1 in H2. lia.
Qed.

(** *** The operations *)

Section access.
Context (ext : nat -> nat).

Lemma wp_con {A} (m : M Console A) Q (w : CW) : wp m (fun a c => Q a (c, snd w)) (fst w) -> wp (con m) Q w.
Proof. intros Hm. unfold con. by apply wpf_zoom. Qed.
Lemma wp_cio {A} (m : M ClientIoState A) Q (w : CW) : wp m (fun a s => Q a (fst w, s)) (snd w) -> wp (cio m) Q w.
Proof. intros Hm. unfold cio. by apply wpf_zoom. Qed.
Lemma wp_cio_table {A} (m : M FileTable A) Q (w : CW) :
  wp m (fun a t => Q a (fst w, Io (initialised (snd w)) (fds (snd w)) t (handle_pool (snd w)))) (file_table (snd w)) ->
  wp (cio (on_table m)) Q w.
Proof. intros Hm. apply wp_cio. unfold on_table. by apply wpf_zoom. Qed.

(** The access of a console, as [releaseConsoleAccess] and [acquireConsoleAccess] see it. *)
Definition same_access (c c' : Console) : Prop :=
  same_device c c' /\ reader_in_use c' = reader_in_use c /\ reader_owner_id c' = reader_owner_id c /\ write_refcnt c' = write_refcnt c.
Definition b2z (b : bool) : Z := if b then 1 else 0.

Lemma console_open_spec mode c :
  wp (console_open mode) (fun r c' => same_access c c' /\ (fst r < 0 \/ (fst r = 0 /\ nc c = true))) c.
Proof.
  unfold console_open, ensureInputHandler. apply wpf_bind. wp_line. apply wpf_when; intros Hb; wp_line; simpl.
  all: destruct (nc c) eqn:Hnc; cbn [negb]; [case_bool_decide|]; wp_line; (split; [by rewrite ?Hnc|]); simpl; first [left; lia|right; done].
Qed.
Lemma acquire_access_spec i r w c :
  wp (acquireConsoleAccess i r w) (fun a c' =>
    match a with
    | Some _ => c' = c /\ r = true /\ reader_in_use c = true
    | None => (r = true -> reader_in_use c = false) /\ reader_in_use c' = r || reader_in_use c /\
        reader_owner_id c' = (if r then i else reader_owner_id c) /\ write_refcnt c' = write_refcnt c + b2z w /\ same_device c c'
    end) c.
Proof.
  unfold acquireConsoleAccess. wp_line. destruct (r && reader_in_use c) eqn:Hb; [wp_line; by apply andb_true_iff in Hb|].
  wp_line. destruct r; cbn [when]; wp_line; destruct w; cbn [when]; wp_line; simpl in *; repeat split; try done; lia.
Qed.
Lemma release_access_spec i r w c (Q : unit -> Console -> Prop) :
  (forall c', same_device c c' -> reader_in_use c' = reader_in_use c && negb (r && bool_decide (reader_owner_id c = i)) ->
    (reader_owner_id c' = reader_owner_id c \/ reader_in_use c' = false) ->
    write_refcnt c' = write_refcnt c - b2z (w && bool_decide (0 < write_refcnt c)) -> Q tt c') ->
  wp (releaseConsoleAccess i r w) Q c.
Proof.
  intros HQ. unfold releaseConsoleAccess. wp_line. revert HQ.
  destruct r, w, (reader_in_use c) eqn:Hu, (bool_decide (reader_owner_id c = i)), (bool_decide (0 < write_refcnt c)); intros HQ;
    cbn [when andb]; wp_line; (apply HQ; [done|..]; simpl; auto; lia).
Qed.

(** A descriptor that has no reference to a regular file changes to another such. *)
Lemma io_ok_plain s b fd e e' f' g :
  io_ok ext s -> entries (file_table s) !! fd = Some e -> (forall k, e_handle e ≠ Some (PRef k)) ->
  (forall k, e_handle e' ≠ Some (PRef k)) -> (e_used e' = false -> e_handle e' = None) -> ~ (f_used f' = true /\ kind f' = KRegular) ->
  io_ok ext (Io b (<[fd := f']> (fds s)) (FTable (<[fd := e']> (entries (file_table s))) g) (handle_pool s)).
Proof.
  intros H He Hn Hn' Hu Hf. pose proof (lookup_lt_Some _ _ _ He) as Hfd. destruct H as [H1 H2 H3 H4 H5 H6 H7 Hreg].
  assert (Hrefs : forall i, fd_refs i (<[fd := e']> (entries (file_table s))) = fd_refs i (entries (file_table s))).
  { intros i. pose proof (fd_refs_insert i _ _ _ e' He) as Hi. unfold refers in Hi.
    rewrite !decide_False in Hi by (apply Hn || apply Hn'). lia. }
  split; simpl; rewrite ?length_insert; try done.
  - intros i x Hx Hux. apply list_lookup_insert_Some in Hx as [(_ & <- & _)|[_ Hx]]; [by apply Hu|eauto].
  - intros i r u Hr Hu'. rewrite Hrefs. eauto.
  - intros i x k Hx Hh. apply list_lookup_insert_Some in Hx as [(_ & <- & _)|[_ Hx]]; [by destruct (Hn' k)|eauto].
  - intros i x Hx. apply list_lookup_insert_Some in Hx as [(<- & <- & _)|[Hne Hx]].
    + split; [tauto|]. intros (y & k & Hy & Hh). rewrite list_lookup_insert_eq in Hy by done. injection Hy as <-. by destruct (Hn' k).
    + rewrite Hreg by done. by rewrite list_lookup_insert_ne.
Qed.
Lemma io_ok_table s fd e e' g :
  io_ok ext s -> entries (file_table s) !! fd = Some e -> (forall k, e_handle e ≠ Some (PRef k)) ->
  (forall k, e_handle e' ≠ Some (PRef k)) -> (e_used e' = false -> e_handle e' = None) ->
  io_ok ext (Io (initialised s) (fds s) (FTable (<[fd := e']> (entries (file_table s))) g) (handle_pool s)).
Proof.
  intros H He Hn Hn' Hu. pose proof (lookup_lt_Some _ _ _ He) as Hfd. rewrite (o_entries _ _ H) in Hfd.
  destruct (lookup_lt_is_Some_2 (fds s) fd) as [f Hf]; [by rewrite (o_fds _ _ H)|].
  rewrite <- (list_insert_id (fds s) fd f) by done. eapply io_ok_plain; [done..|]. intros Hreg.
  apply (o_regular _ _ H fd f Hf) in Hreg as (x & k & Hx & Hh). rewrite He in Hx. injection Hx as <-. by destruct (Hn k).
Qed.

Lemma reads_console r w id : reads (console_fd r w id) = b2z r.
Proof. done. Qed.
Lemma writes_console r w id : writes (console_fd r w id) = b2z w.
Proof. done. Qed.

(** The access that was taken is given back. *)
Lemma undo_access i r w c c1 s (Q : unit -> CW -> Prop) s1 :
  same_device c c1 -> 0 ≤ write_refcnt c -> (r = true -> reader_in_use c = false) -> reader_in_use c1 = r || reader_in_use c ->
  reader_owner_id c1 = (if r then Z.of_nat i else reader_owner_id c) -> write_refcnt c1 = write_refcnt c + b2z w ->
  readers s1 = readers s -> writers s1 = writers s ->
  (forall c', balanced i c c' s s1 -> Q tt (c', s1)) ->
  wp (con (releaseConsoleAccess (Z.of_nat i) r w)) Q (c1, s1).
Proof.
  intros Hnc Hpos Hr Hu Ho Hw E1 E2 HQ. apply wp_con. apply release_access_spec. simpl. intros c' Hnc' Hu' Ho' Hw'. apply HQ.
  assert (Hin : reader_in_use c' = reader_in_use c).
  { rewrite Hu', Hu, Ho. destruct r; [|by rewrite andb_true_r]. rewrite Hr, bool_decide_true by done. done. }
  split; [by eapply same_device_trans|]. split; [|split].
  - rewrite Hw', Hw, E2. destruct w; simpl; [rewrite bool_decide_true by lia|]; simpl; lia.
  - rewrite Hin, E1. done.
  - destruct r; [right; right; by rewrite Hin, Hr|]. destruct Ho' as [Ho'|Ho']; [left; by rewrite Ho'|by right; right].
Qed.

(** What an open of the console does to the client. *)
Definition console_opened (i : nat) (c : Console) (s : ClientIoState) (flags r : Z) (w' : CW) : Prop :=
  balanced i c (fst w') s (snd w') /\ io_ok ext (snd w') /\ initialised (snd w') = initialised s /\
  if bool_decide (r < 0) then fds (snd w') = fds s
  else exists f id, fds s !! Z.to_nat r = Some f /\ f_used f = false /\
    fds (snd w') = <[Z.to_nat r := console_fd (want_read flags) (want_write flags) id]> (fds s).

Lemma balanced_refl i c c' s s' :
  same_access c c' -> readers s' = readers s -> writers s' = writers s -> balanced i c c' s s'.
Proof. intros (E0 & E1 & E2 & E3) E4 E5. split; [done|]. split; [lia|]. rewrite E1. split; [lia|]. by left. Qed.

(** From the access to the end of the call: [c1] has the access. *)
Section taken.
Context (i : nat) (c c1 : Console) (s : ClientIoState) (flags : Z).
Let r := want_read flags.
Let w := want_write flags.
Hypothesis Hok : io_ok ext s.
Hypothesis Hpos : 0 ≤ write_refcnt c.
Hypothesis Hnc : same_device c c1.
Hypothesis Hr : r = true -> reader_in_use c = false.
Hypothesis Hu : reader_in_use c1 = r || reader_in_use c.
Hypothesis Ho : reader_owner_id c1 = (if r then Z.of_nat i else reader_owner_id c).
Hypothesis Hw : write_refcnt c1 = write_refcnt c + b2z w.

(** The ways to fail: nothing but the table of descriptors has changed. *)
Lemma failed_open s1 e id : e < 0 -> io_ok ext s1 -> fds s1 = fds s -> initialised s1 = initialised s ->
  wp (undo_open (Z.of_nat i) id r w;; mret e) (console_opened i c s flags) (c1, s1).
Proof.
  intros He Hok1 Hf Hi. unfold undo_open. apply wpf_bind. wp_line.
  apply wp_con. apply wpf_ret. simpl. eapply (undo_access i r w c c1 s); [done..|unfold readers; by rewrite Hf|unfold writers; by rewrite Hf|].
  intros c' Hb. wp_line. split; [done|]. split; [done|]. split; [done|]. by rewrite bool_decide_true.
Qed.

Lemma opened_balanced fd f id s1 :
  fds s !! fd = Some f -> f_used f = false -> fds s1 = <[fd := console_fd r w id]> (fds s) -> balanced i c c1 s s1.
Proof.
  intros Hf Hfu Hs1. assert (Hrd : readers s1 = readers s + b2z r).
  { unfold readers. rewrite Hs1, (total_insert _ _ _ _ _ Hf), reads_console. unfold reads, is_console. rewrite Hfu. simpl. lia. }
  assert (Hwr : writers s1 = writers s + b2z w).
  { unfold writers. rewrite Hs1, (total_insert _ _ _ _ _ Hf), writes_console. unfold writes, is_console. rewrite Hfu. simpl. lia. }
  split; [done|]. split; [lia|]. rewrite Hu, Hrd. split.
  - destruct r; simpl; [rewrite Hr by done; lia|lia].
  - destruct r; simpl in *; [right; left|left; by rewrite Ho, Z.add_0_r in *].
    pose proof (readers_nonneg s). split; [lia|]. split; [by apply Hr|done].
Qed.

Lemma taken_open id :
  wp (f ← cio (on_table (allocFd PConsole));
      match f with
      | inl TableFull => undo_open (Z.of_nat i) id r w;; mret (- EMFILE)
      | inl _ => undo_open (Z.of_nat i) id r w;; mret (- EBADF)
      | inr fd =>
        v ← get;
        match fds (snd v) !! fd with
        | None => _ ← cio (on_table (freeFd (Z.of_nat fd))); undo_open (Z.of_nat i) id r w;; mret (- EMFILE)
        | Some f =>
          if f_used f then
            _ ← cio (on_table (freeFd (Z.of_nat fd))); undo_open (Z.of_nat i) id r w;; mret (- EBUSY)
          else
            setupConsoleFd fd r w id;;
            cio (on_table (modify (fun t =>
              FTable (alter (fun e => Entry (e_used e) (e_generation e) (Some (PFile fd))) fd (entries t)) (next_generation t))));;
            mret (Z.of_nat fd)
        end
      end) (console_opened i c s flags) (c1, s).
Proof.
  apply wpf_bind, wp_cio_table. eapply wpf_mono; [apply allocFd_spec|]. simpl. intros [err|fd] t.
  { intros (-> & -> & _). apply failed_open; [lia| |done|done]. by destruct s. }
  intros ((e & He & Hue) & _ & g & g' & ->). pose proof (lookup_lt_Some _ _ _ He) as Hlt. rewrite (o_entries _ _ Hok) in Hlt.
  assert (Hnone : e_handle e = None) by by eapply o_free. wp_line. simpl.
  destruct (lookup_lt_is_Some_2 (fds s) fd) as [f Hf]; [by rewrite (o_fds _ _ Hok)|]. rewrite Hf. destruct (f_used f) eqn:Hfu.
  - apply wpf_bind, wp_cio_table. eapply wpf_mono.
    { apply (freeFd_spec _ (Entry true g (Some PConsole))); [lia| |done]. simpl. rewrite Nat2Z.id. apply list_lookup_insert_eq.
      by rewrite (o_entries _ _ Hok). }
    simpl. intros x t [-> ->]. simpl. rewrite Nat2Z.id, list_insert_insert_eq. apply failed_open; [lia| |done|done].
    eapply io_ok_table; [done|done|by rewrite Hnone|done|done].
  - unfold setupConsoleFd. apply wpf_bind, wp_cio. unfold set_fd. wp_line. simpl. eapply wpf_access; [done|]. wp_line.
    apply wp_cio_table. apply wpf_modify. simpl. wp_line. rewrite alter_insert_same.
    split; [|split; [|split; [done|]]].
    + by eapply opened_balanced.
    + simpl. eapply io_ok_plain; [done|done|by rewrite Hnone|done|done|]. by intros [_ ?].
    + rewrite bool_decide_false by lia. rewrite Nat2Z.id. simpl. eauto.
Qed.
End taken.

Lemma handleConsoleOpen_spec i c s flags :
  io_ok ext s -> 0 ≤ write_refcnt c ->
  wp (handleConsoleOpen (Z.of_nat i) flags) (fun r w' => console_opened i c s flags r w') (c, s).
Proof.
  intros Hok Hpos.
  assert (Hsame : forall c1 e, e < 0 -> same_access c c1 -> console_opened i c s flags e (c1, s)).
  { intros c1 e He Hs. split; [by apply balanced_refl|]. split; [done|]. split; [done|]. by rewrite bool_decide_true. }
  unfold handleConsoleOpen. destruct (negb (want_read flags) && negb (want_write flags)); [wp_line; by apply Hsame; [lia|]|].
  apply wpf_bind, wp_con. eapply wpf_mono; [apply acquire_access_spec|]. simpl. intros [[]|] c1.
  { intros (-> & _). wp_line. by apply Hsame; [lia|]. }
  intros (Hr & Hu & Ho & Hw & Hnc). apply wpf_bind, wp_con. eapply wpf_mono; [apply console_open_spec|]. simpl.
  intros [rc id] c2 [(E0 & E1 & E2 & E3) Hrc]. simpl in *. apply (same_device_trans _ _ _ Hnc) in E0. clear Hnc. rewrite <- E1 in Hu. rewrite <- E2 in Ho. rewrite <- E3 in Hw.
  case_bool_decide as Hneg.
  - apply wpf_bind. eapply (undo_access i _ _ c c2 s); [done..|]. intros c' Hb. wp_line. split; [done|]. split; [done|]. split; [done|].
    by rewrite bool_decide_true.
  - by apply taken_open.
Qed.

(** *** Closing *)

(** A descriptor of the console has no reference to a regular file. *)
Lemma console_no_ref s fd f : io_ok ext s -> fds s !! fd = Some f -> is_console f = true ->
  exists e, entries (file_table s) !! fd = Some e /\ forall k, e_handle e ≠ Some (PRef k).
Proof.
  intros H Hf Hc. pose proof (lookup_lt_Some _ _ _ Hf) as Hlt. rewrite (o_fds _ _ H) in Hlt.
  destruct (lookup_lt_is_Some_2 (entries (file_table s)) fd) as [e He]; [by rewrite (o_entries _ _ H)|]. exists e. split; [done|].
  intros k Hk. unfold is_console in Hc. apply andb_true_iff in Hc as [_ Hc%bool_decide_eq_true].
  destruct (o_regular _ _ H fd f Hf) as [_ Hreg]. destruct Hreg as [_ Hreg]; [eauto|congruence].
Qed.
(** The access that a descriptor stands for is there to be given up. *)
Lemma console_access i c cs s fd f :
  cs !! i = Some s -> console_ok c cs -> fds s !! fd = Some f -> is_console f = true ->
  (readable f = true -> reader_in_use c = true /\ reader_owner_id c = Z.of_nat i /\ 0 < readers s) /\
  (writable f = true -> 0 < write_refcnt c).
Proof.
  intros Hi (H1 & H2 & H3) Hf Hc. split; intros Hb.
  - assert (Hr : reads f = 1) by (unfold reads; by rewrite Hc, Hb).
    assert (reads f ≤ readers s) by (eapply total_at; [apply reads_range|done]).
    assert (readers s ≤ total readers cs) by (eapply total_at; [apply readers_nonneg|done]).
    split; [destruct (reader_in_use c); [done|lia]|]. split; [|lia]. apply (H3 i s Hi). lia.
  - assert (Hr : writes f = 1) by (unfold writes; by rewrite Hc, Hb).
    assert (writes f ≤ writers s) by (eapply total_at; [apply writes_range|done]).
    assert (writers s ≤ total writers cs).
    { eapply total_at; [|done]. intros x. apply total_nonneg. intros g. apply writes_range. }
    lia.
Qed.

(** What a close does to the client. *)
Definition console_closed (i : nat) (c : Console) (s : ClientIoState) (fd : nat) (f : File) (r : Z) (w' : CW) : Prop :=
  balanced i c (fst w') s (snd w') /\ io_ok ext (snd w') /\ initialised (snd w') = initialised s /\ r = 0 /\
  fds (snd w') = <[fd := if bool_decide (1 < f_refcnt f) then mkFile (f_used f) (readable f) (writable f) (kind f) (obj f) (ops f)
                           (dev_id f) (f_refcnt f - 1) (offset f) else empty_fd]> (fds s).

Lemma closed_balanced i c c' cs s s' fd f :
  cs !! i = Some s -> console_ok c cs -> fds s !! fd = Some f -> is_console f = true ->
  same_device c c' -> reader_in_use c' = reader_in_use c && negb (readable f && bool_decide (reader_owner_id c = Z.of_nat i)) ->
  (reader_owner_id c' = reader_owner_id c \/ reader_in_use c' = false) ->
  write_refcnt c' = write_refcnt c - b2z (writable f && bool_decide (0 < write_refcnt c)) ->
  fds s' = <[fd := empty_fd]> (fds s) -> balanced i c c' s s'.
Proof.
  intros Hi Hok Hf Hc Hnc Hu Ho Hw Hs. destruct (console_access _ _ _ _ _ _ Hi Hok Hf Hc) as [Hr Hwr].
  assert (Hrd : readers s' = readers s - b2z (readable f)).
  { unfold readers. rewrite Hs, (total_insert _ _ _ _ _ Hf). unfold reads at 2. rewrite Hc. unfold reads. simpl. destruct (readable f); simpl; lia. }
  assert (Hwt : writers s' = writers s - b2z (writable f)).
  { unfold writers. rewrite Hs, (total_insert _ _ _ _ _ Hf). unfold writes at 2. rewrite Hc. unfold writes. simpl. destruct (writable f); simpl; lia. }
  split; [done|]. rewrite Hw, Hwt, Hrd. split; [|split].
  - destruct (writable f); simpl; [rewrite bool_decide_true by auto; simpl|]; lia.
  - rewrite Hu. destruct (readable f); simpl; [|rewrite andb_true_r; lia].
    destruct Hr as (-> & Hown & _); [done|]. rewrite bool_decide_true by done. simpl. lia.
  - destruct (readable f); simpl in *.
    + right; right. rewrite Hu. destruct Hr as (-> & Hown & _); [done|]. by rewrite bool_decide_true.
    + destruct Ho as [Ho|Ho]; [left; by rewrite Z.sub_0_r|by right; right].
Qed.

(** The entry of the table, after the close: as it was, or free. *)
Definition plain_entry (s : ClientIoState) (fd : nat) (t : FileTable) : Prop :=
  exists e g, t = FTable (<[fd := e]> (entries (file_table s))) g /\
    (forall k, e_handle e ≠ Some (PRef k)) /\ (e_used e = false -> e_handle e = None).
Lemma plain_entry_refl s fd f : io_ok ext s -> fds s !! fd = Some f -> is_console f = true -> plain_entry s fd (file_table s).
Proof.
  intros Hok Hf Hc. destruct (console_no_ref _ _ _ Hok Hf Hc) as (e & He & Hne). exists e, (next_generation (file_table s)).
  rewrite list_insert_id by done. split; [by destruct (file_table s)|]. split; [done|]. by eapply (o_free _ _ Hok).
Qed.
Lemma plain_entry_ok s fd f f' t : io_ok ext s -> fds s !! fd = Some f -> is_console f = true -> plain_entry s fd t ->
  ~ (f_used f' = true /\ kind f' = KRegular) -> io_ok ext (Io (initialised s) (<[fd := f']> (fds s)) t (handle_pool s)).
Proof.
  intros Hok Hf Hc (e' & g & -> & Hne' & Hu') Hf'. destruct (console_no_ref _ _ _ Hok Hf Hc) as (e & He & Hne).
  by eapply io_ok_plain.
Qed.
Lemma free_console_spec s fd f c :
  io_ok ext s -> fds s !! fd = Some f -> is_console f = true ->
  wp (when (bool_decide (3 ≤ fd)%nat) (_ ← cio (on_table (freeFd (Z.of_nat fd))); mret tt))
     (fun _ w => exists t, w = (c, Io (initialised s) (fds s) t (handle_pool s)) /\ plain_entry s fd t) (c, s).
Proof.
  intros Hok Hf Hc. pose proof (plain_entry_refl _ _ _ Hok Hf Hc) as Hp. destruct (console_no_ref _ _ _ Hok Hf Hc) as (e & He & Hne).
  assert (Hsame : exists t, (c, s) = (c, Io (initialised s) (fds s) t (handle_pool s)) /\ plain_entry s fd t) by (exists (file_table s); by destruct s).
  apply wpf_when; [|by intros _]. intros _. apply wpf_bind, wp_cio_table. unfold freeFd. wp_line. simpl.
  pose proof (lookup_lt_Some _ _ _ He). rewrite bool_decide_false by lia. wp_line. rewrite Nat2Z.id. eapply wpf_access; [done|].
  destruct (e_used e); cbn [negb]; wp_line; [|eauto]. eexists. split; [done|]. by exists no_entry, (next_generation (file_table s)).
Qed.

Lemma close_console_spec i c cs s fd f :
  io_ok ext s -> cs !! i = Some s -> console_ok c cs -> fds s !! fd = Some f -> is_console f = true ->
  wp (close_console (Z.of_nat i) fd) (console_closed i c s fd f) (c, s).
Proof.
  intros Hok Hi Hcon Hf Hc. unfold close_console, console_closed. wp_line. simpl. eapply wpf_access; [done|]. case_bool_decide as Hn.
  - apply wpf_bind, wp_cio. unfold set_fd. wp_line. simpl. eapply wpf_access; [done|]. wp_line. split; [|split; [|done]].
    + apply balanced_refl; [done|..]; unfold readers, writers; simpl; rewrite (total_insert _ _ _ _ _ Hf); unfold reads, writes, is_console; simpl; lia.
    + simpl. eapply plain_entry_ok; [done..|by eapply plain_entry_refl|]. simpl. intros [_ Hk]. unfold is_console in Hc.
      apply andb_true_iff in Hc as [_ Hc%bool_decide_eq_true]. congruence.
  - apply wpf_bind, wp_con, release_access_spec. simpl. intros c' Hnc Hu Ho Hw.
    assert (Hb : forall s', fds s' = <[fd := empty_fd]> (fds s) -> balanced i c c' s s') by (intros; by eapply closed_balanced).
    apply wpf_bind. apply wpf_mono with (fun _ w => w = (c', s)).
    { destruct (ops f); [apply wpf_bind, wp_con|]; wp_line; done. }
    intros _ w ->. apply wpf_bind. eapply wpf_mono; [by eapply free_console_spec|]. intros _ w (t & -> & Ht).
    apply wpf_bind, wp_cio. unfold set_fd. wp_line. simpl. eapply wpf_access; [done|]. wp_line.
    split; [by apply Hb|]. split; [|done]. simpl. eapply plain_entry_ok; [done..|]. by intros [? _].
Qed.

(** *** The standard descriptors *)

Lemma console_open_write c : nc c = true ->
  wp (console_open O_WRONLY) (fun r c' => fst r = 0 /\ same_access c c') c.
Proof.
  intros Hnc. unfold console_open, ensureInputHandler. apply wpf_bind. wp_line.
  apply wpf_when; intros Hb; wp_line; simpl; rewrite Hnc; simpl; wp_line; (split; [done|]); split; simpl; by rewrite ?Hnc.
Qed.
(** The descriptor [k] is the first that is free. *)
Lemma open_std_spec i k c s f e :
  nc c = true -> io_ok ext s -> fds s !! k = Some f -> entries (file_table s) !! k = Some e -> e_used e = false ->
  (forall (j : nat) e, (j < k)%nat -> entries (file_table s) !! j = Some e -> e_used e = true) ->
  wp (open_std i k) (fun _ w =>
    same_device c (fst w) /\ reader_in_use (fst w) = reader_in_use c /\ reader_owner_id (fst w) = reader_owner_id c /\
    write_refcnt (fst w) = write_refcnt c + 1 /\ io_ok ext (snd w) /\
    exists id g g', snd w = Io (initialised s) (<[k := console_fd false true id]> (fds s))
      (FTable (<[k := Entry true g (Some (PFile k))]> (entries (file_table s))) g') (handle_pool s)) (c, s).
Proof.
  intros Hnc Hok Hf He Hu Hmin. unfold open_std. apply wpf_bind, wp_con. eapply wpf_mono; [by apply console_open_write|]. simpl.
  intros [rc id] c1 [Hrc (E0 & E1 & E2 & E3)]. simpl in Hrc. subst rc. cbn [fst snd]. rewrite bool_decide_false by lia.
  unfold setupConsoleFd. apply wpf_bind, wp_cio. unfold set_fd. wp_line. simpl. eapply wpf_access; [done|]. wp_line.
  apply wp_con. eapply wpf_mono; [apply acquire_access_spec|]. simpl. intros [a|] c2; [by intros (_ & ? & _)|].
  intros (_ & F1 & F2 & F3 & F0). apply wpf_bind, wp_cio_table. eapply wpf_mono; [apply allocFd_spec|]. simpl. intros [err|j] t.
  { intros (_ & _ & Hall). rewrite Forall_lookup in Hall. rewrite (Hall _ _ He) in Hu. done. }
  intros ((ej & Hej & Huj) & Hlow & g & g' & ->). assert (j = k) as ->.
  { destruct (lt_eq_lt_dec j k) as [[Hlt|]|Hgt]; [rewrite (Hmin _ _ Hlt Hej) in Huj; done|done|rewrite (Hlow _ _ Hgt He) in Hu; done]. }
  apply wpf_assert; [by rewrite bool_decide_true|]. simpl. split; [by eapply same_device_trans|]. rewrite F1, F2, F3, E1, E2, E3. repeat (split; [done|]). split; [|eauto].
  eapply io_ok_plain; [exact Hok|exact He| |done|done|by intros [_ ?]]. by rewrite (o_free _ _ Hok _ _ He Hu).
Qed.
End access.

(** Of a client that has not called yet nothing is known but that it has not the console. *)
Definition console_fds (s : ClientIoState) : Prop :=
  forall fd f, fds s !! fd = Some f -> is_console f = true -> ops f = Some console_ops.
Definition client_ok (s : ClientIoState) : Prop :=
  console_fds s /\ if initialised s then exists ext, io_ok ext s else readers s = 0 /\ writers s = 0.

Lemma console_fds_insert s s' fd f : console_fds s -> fds s' = <[fd := f]> (fds s) -> (is_console f = true -> ops f = Some console_ops) -> console_fds s'.
Proof. intros Hc Hs Hf k g. rewrite Hs. intros [(_ & <- & _)|[_ Hk]]%list_lookup_insert_Some; [done|by eapply Hc]. Qed.
Lemma opened_client ext i c s flags r w : console_opened ext i c s flags r w -> initialised s = true -> client_ok s -> client_ok (snd w).
Proof.
  intros (_ & Hok & Hi & Hf) Hs [Hc _]. split; [|rewrite Hi, Hs; eauto]. destruct (bool_decide (r < 0)).
  - intros k g. rewrite Hf. apply Hc.
  - destruct Hf as (f & id & _ & _ & Hf). by eapply console_fds_insert.
Qed.
Lemma closed_client ext i c s fd f r w : console_closed ext i c s fd f r w -> fds s !! fd = Some f -> is_console f = true ->
  initialised s = true -> client_ok s -> client_ok (snd w).
Proof.
  intros (_ & Hok & Hi & _ & Hf) Hfd Hcf Hs [Hc _]. split; [|rewrite Hi, Hs; eauto]. eapply console_fds_insert; [exact Hc|exact Hf|].
  case_bool_decide; [|done]. simpl. intros _. by eapply Hc.
Qed.

Lemma initStdio_spec i c s : nc c = true -> readers s = 0 -> writers s = 0 ->
  wp (initStdio (Z.of_nat i)) (fun _ w => balanced i c (fst w) s (snd w) /\ initialised (snd w) = true /\ client_ok (snd w)) (c, s).
Proof.
  intros Hnc Hr Hw. unfold initStdio. wp_line. apply wp_cio. unfold set_fd. wp_line. simpl. wp_line.
  set (s0 := Io false _ _ _). assert (Hok0 : io_ok (fun _ => O) s0).
  { assert (Hp := io_ok_plain (fun _ => O) reset false 0 (Entry true 0 None) (Entry true 0 None)
      (mkFile true false false KNone None None 0 0 0) 1 io_ok_reset).
    apply Hp; [done..|]. by intros [_ ?]. }
  eapply wpf_mono.
  { eapply (open_std_spec (fun _ => O) _ 1 c s0); [done|done|reflexivity|reflexivity|done|].
    intros [|j] e Hj He; [|lia]. injection He as <-. done. }
  intros _ [c1 s1] (N1 & U1 & O1 & W1 & Hok1 & id1 & g1 & g1' & Hs1). simpl in *. subst s1. apply wpf_bind. eapply wpf_mono.
  { eapply (open_std_spec (fun _ => O) _ 2 c1); [by rewrite (proj1 N1)|done|reflexivity|reflexivity|done|].
    intros [|[|j]] e Hj He; [..|lia]; injection He as <-; done. }
  intros _ [c2 s2] (N2 & U2 & O2 & W2 & Hok2 & id2 & g2 & g2' & Hs2). simpl in *. subst s2. wp_line. simpl in *.
  split; [|split; [done|]].
  - set (s2 := Io true _ _ _). assert (Hr2 : readers s2 = 0) by reflexivity. assert (Hw2 : writers s2 = 2) by reflexivity.
    clearbody s2. split; [by eapply same_device_trans|]. simpl. rewrite Hr, Hw, Hr2, Hw2, U2, U1, W2, W1, O2, O1. split; [lia|]. split; [done|]. by left.
  - split; [|exists (fun _ => O); by destruct Hok2]. intros k f Hk. revert Hk. simpl.
    do 32 (destruct k as [|k]; [by intros [= <-]|]). done.
Qed.
Lemma ensureStdio_spec i c s : nc c = true -> client_ok s ->
  wp (ensureStdio (Z.of_nat i)) (fun _ w => balanced i c (fst w) s (snd w) /\ initialised (snd w) = true /\ client_ok (snd w)) (c, s).
Proof.
  intros Hnc Hok. unfold ensureStdio. wp_line. simpl. apply wpf_when; intros Hb.
  - apply initStdio_spec; [done|..]; destruct Hok as [_ Hok]; destruct (initialised s); naive_solver.
  - apply negb_false_iff in Hb. split; [by apply balanced_refl|done].
Qed.

(** ** All the clients *)

Abbreviation World := (Console * list ClientIoState)%type.
Definition world0 (n : nat) : World := (Con ring_init false true [] false 0 0, replicate n reset).

(** The calls that take or give up the console, in any order.  Between them the other
    calls of a client change the descriptors that are not of the console. *)
Inductive call : World -> World -> Prop :=
| call_first i c cs s c' s' : cs !! i = Some s ->
    ensureStdio (Z.of_nat i) (c, s) = Ok (tt, (c', s')) -> call (c, cs) (c', <[i := s']> cs)
| call_open i flags r c cs s c' s' : cs !! i = Some s -> initialised s = true ->
    handleConsoleOpen (Z.of_nat i) flags (c, s) = Ok (r, (c', s')) -> call (c, cs) (c', <[i := s']> cs)
| call_close i fd f r c cs s c' s' : cs !! i = Some s -> initialised s = true -> fds s !! fd = Some f -> is_console f = true ->
    close_console (Z.of_nat i) fd (c, s) = Ok (r, (c', s')) -> call (c, cs) (c', <[i := s']> cs)
| call_other i c cs s s' : cs !! i = Some s -> initialised s = true -> initialised s' = true ->
    (forall ext, io_ok ext s -> exists ext', io_ok ext' s') ->
    filter is_console (fds s') = filter is_console (fds s) -> call (c, cs) (c, <[i := s']> cs).

Definition world_ok (w : World) : Prop :=
  nc (fst w) = true /\ console_ok (fst w) (snd w) /\ forall i s, snd w !! i = Some s -> client_ok s.

Lemma world_ok_step i c c' cs s s' :
  world_ok (c, cs) -> cs !! i = Some s -> balanced i c c' s s' -> client_ok s' -> world_ok (c', <[i := s']> cs).
Proof.
  intros (H1 & H2 & H3) Hi Hb Hs. split; [simpl in *; destruct Hb as [[Hn _] _]; congruence|]. split; [by eapply console_ok_step|]. simpl.
  intros j x [(_ & <- & _)|[_ Hj]]%list_lookup_insert_Some; [done|by eapply H3].
Qed.
Lemma client_ok_open s : client_ok s -> initialised s = true -> exists ext, io_ok ext s.
Proof. intros [_ H] Hs. by rewrite Hs in H. Qed.
Lemma total_filter (p : File -> bool) (n : File -> Z) l : (forall f, p f = false -> n f = 0) -> total n l = total n (filter p l).
Proof.
  intros Hn. induction l as [|f l IH]; [done|]. rewrite filter_cons. simpl. destruct (p f) eqn:Hp; simpl; [lia|]. rewrite Hn by done. lia.
Qed.

Lemma same_counts s s' : filter is_console (fds s') = filter is_console (fds s) -> readers s' = readers s /\ writers s' = writers s.
Proof.
  intros Hf. split; unfold readers, writers; rewrite (total_filter is_console), Hf, <- (total_filter is_console); try done;
    intros g Hg; unfold reads, writes; by rewrite Hg.
Qed.

Lemma write_count c cs : console_ok c cs -> 0 ≤ write_refcnt c.
Proof. intros (-> & _). apply total_nonneg. intros s. apply total_nonneg. intros f. apply writes_range. Qed.

Lemma console_fds_filter s s' : filter is_console (fds s') = filter is_console (fds s) -> console_fds s -> console_fds s'.
Proof.
  intros Hf Hc k g Hk Hg. assert (Hin : g ∈ filter is_console (fds s')) by (apply list_elem_of_filter; split; [by rewrite Hg|by eapply list_elem_of_lookup_2]).
  rewrite Hf in Hin. apply list_elem_of_filter in Hin as [_ [j Hj]%list_elem_of_lookup_1]. by eapply Hc.
Qed.
Lemma call_ok w w' : call w w' -> world_ok w -> world_ok w'.
Proof.
  intros Hcall Hw. pose proof Hw as (Hnc & Hcon & Hcs). pose proof (write_count _ _ Hcon) as Hpos.
  destruct Hcall as [i c cs s c' s' Hi Hrun|i flags r c cs s c' s' Hi Hinit Hrun|i fd f r c cs s c' s' Hi Hinit Hf Hc Hrun
                    |i c cs s s' Hi Hinit Hinit' Hio Hfilter]; simpl in *.
  - destruct (wp_inv _ _ _ (ensureStdio_spec i c s Hnc (Hcs _ _ Hi))) as (a & w & Hrun' & Hb & Hin & Hok). rewrite Hrun in Hrun'.
    injection Hrun' as <- <-. by eapply world_ok_step.
  - destruct (client_ok_open s (Hcs _ _ Hi) Hinit) as [ext Hok].
    destruct (wp_inv _ _ _ (handleConsoleOpen_spec ext i c s flags Hok Hpos)) as (a & w & Hrun' & Hopen). rewrite Hrun in Hrun'.
    injection Hrun' as <- <-. pose proof Hopen as (Hb & _). eapply world_ok_step; [done..|]. by apply (opened_client _ _ _ _ _ _ _ Hopen), (Hcs _ _ Hi).
  - destruct (client_ok_open s (Hcs _ _ Hi) Hinit) as [ext Hok].
    destruct (wp_inv _ _ _ (close_console_spec ext i c cs s fd f Hok Hi Hcon Hf Hc)) as (a & w & Hrun' & Hclose). rewrite Hrun in Hrun'.
    injection Hrun' as <- <-. pose proof Hclose as (Hb & _). eapply world_ok_step; [done..|].
    by apply (closed_client _ _ _ _ _ _ _ _ Hclose Hf Hc Hinit), (Hcs _ _ Hi).
  - destruct (client_ok_open s (Hcs _ _ Hi) Hinit) as [ext Hok]. eapply world_ok_step; [done..| |].
    + destruct (same_counts s s' Hfilter). by apply balanced_refl.
    + split; [|rewrite Hinit'; eauto]. eapply console_fds_filter; [exact Hfilter|]. apply (Hcs _ _ Hi).
Qed.
Lemma console_world0_ok n : world_ok (world0 n).
Proof.
  assert (Hz : forall (g : ClientIoState -> Z), g reset = 0 -> total g (replicate n reset) = 0).
  { intros g Hg. apply total_zero. intros x [-> _]%elem_of_replicate. done. }
  split; [done|]. split.
  - split; [by rewrite Hz|]. split; [by rewrite Hz|]. intros i s [-> _]%lookup_replicate Hr. vm_compute in Hr. done.
  - intros i s [-> _]%lookup_replicate. split; [|done]. intros k f Hk. by apply lookup_replicate in Hk as [-> _].
Qed.

(** *** One reader *)

Lemma total_unique {A} (n : A -> Z) l i j x y : (forall x, 0 ≤ n x) -> total n l ≤ 1 ->
  l !! i = Some x -> l !! j = Some y -> 0 < n x -> 0 < n y -> i = j.
Proof.
  intros Hn. revert i j. induction l as [|z l IH]; intros [|i] [|j] Ht Hx Hy H1 H2; simplify_eq/=; try done.
  - pose proof (total_at n l j y Hn Hy). lia.
  - pose proof (total_at n l i x Hn Hx). lia.
  - f_equal. eapply IH; try done. pose proof (Hn z). lia.
Qed.
Definition reads_at (cs : list ClientIoState) (i fd : nat) : Prop :=
  exists s f, cs !! i = Some s /\ fds s !! fd = Some f /\ is_console f = true /\ readable f = true.
Lemma reads_at_readers cs i fd : reads_at cs i fd -> exists s f, cs !! i = Some s /\ fds s !! fd = Some f /\ reads f = 1 /\ 0 < readers s.
Proof.
  intros (s & f & Hs & Hf & Hc & Hr). assert (H1 : reads f = 1) by (unfold reads; by rewrite Hc, Hr). exists s, f. repeat split; try done.
  assert (reads f ≤ readers s); [|lia]. eapply total_at; [apply reads_range|done].
Qed.
Lemma one_reader c cs i j fd fd' : console_ok c cs -> reads_at cs i fd -> reads_at cs j fd' -> i = j /\ fd = fd' /\ reader_in_use c = true.
Proof.
  intros (_ & H2 & _) (s & f & Hs & Hf & Hrf & Hrs)%reads_at_readers (t & g & Ht & Hg & Hrg & Hrt)%reads_at_readers.
  assert (Hle : total readers cs ≤ 1) by (destruct (reader_in_use c); lia).
  assert (Hst : readers s ≤ total readers cs) by (eapply total_at; [apply readers_nonneg|done]).
  assert (i = j) as <- by (eapply (total_unique readers); [apply readers_nonneg|done..]).
  rewrite Hs in Ht. injection Ht as <-. split; [done|]. split; [|destruct (reader_in_use c); [done|lia]].
  eapply (total_unique reads (fds s)); [apply reads_range|change (readers s ≤ 1); lia|done|done|lia|lia].
Qed.
Lemma total_pos {A} (n : A -> Z) l : 0 < total n l -> exists i x, l !! i = Some x /\ 0 < n x.
Proof.
  induction l as [|z l IH]; simpl; [lia|]. intros H. destruct (decide (0 < n z)); [by exists 0%nat, z|].
  destruct IH as (i & x & Hx & Hn); [lia|]. by exists (S i), x.
Qed.
(** The reader is the one that the console has recorded. *)
Lemma reader_recorded c cs :
  console_ok c cs ->
  (forall i fd, reads_at cs i fd -> reader_owner_id c = Z.of_nat i) /\ (reader_in_use c = true <-> exists i fd, reads_at cs i fd).
Proof.
  intros Hok. pose proof Hok as (_ & H2 & H3). split; [intros i fd (s & f & Hs & _ & _ & Hrs)%reads_at_readers; by eapply H3|].
  split; [|intros (i & fd & Hr); by destruct (one_reader _ _ _ _ _ _ Hok Hr Hr) as (_ & _ & ?)].
  intros Hu. rewrite Hu in H2. destruct (total_pos readers cs) as (i & s & Hs & Hr); [lia|].
  destruct (total_pos reads (fds s) Hr) as (fd & f & Hf & Hrd). exists i, fd, s, f. unfold reads in Hrd.
  by destruct (is_console f), (readable f).
Qed.
Lemma open_busy i flags c s : want_read flags = true -> reader_in_use c = true ->
  handleConsoleOpen i flags (c, s) = Ok (- EBUSY, (c, s)).
Proof.
  intros Hr Hu. unfold handleConsoleOpen. rewrite Hr. simpl.
  unfold con, acquireConsoleAccess, zoom, mbind, M_bind. simpl. rewrite Hu. simpl. done.
Qed.

(** C22: the console is shared safely.  After any sequence of calls of any number of
    clients, at most one descriptor of all the clients can read from the console, the
    console is recorded as in use exactly when there is one, under the client that has
    it, the count of writers is the number of descriptors that can write to it, no
    call of an initialised client faults, a call to open it for reading while somebody
    reads is refused and changes nothing, and a descriptor that an open returns was
    free before. *)
Theorem console_shared n w : rtc call (world0 n) w ->
  (forall i j fd fd', reads_at (snd w) i fd -> reads_at (snd w) j fd' -> i = j /\ fd = fd') /\
  (forall i fd, reads_at (snd w) i fd -> reader_owner_id (fst w) = Z.of_nat i) /\
  (reader_in_use (fst w) = true <-> exists i fd, reads_at (snd w) i fd) /\
  write_refcnt (fst w) = total writers (snd w) /\
  forall i s flags, snd w !! i = Some s -> initialised s = true ->
    exists r v, handleConsoleOpen (Z.of_nat i) flags (fst w, s) = Ok (r, v) /\
      (want_read flags = true -> (exists j fd, reads_at (snd w) j fd) -> r = - EBUSY /\ v = (fst w, s)) /\
      (0 ≤ r -> exists f id, fds s !! Z.to_nat r = Some f /\ f_used f = false /\
         fds (snd v) = <[Z.to_nat r := console_fd (want_read flags) (want_write flags) id]> (fds s)).
Proof.
  intros Hrun. assert (Hw : world_ok w).
  { pose proof (console_world0_ok n) as H0. revert H0. induction Hrun as [|x y z Hxy _ IH]; [done|]. intros Hx. apply IH. by eapply call_ok. }
  destruct w as [c cs]. destruct Hw as (Hnc & Hcon & Hcs). simpl in *. destruct (reader_recorded _ _ Hcon) as [Hown Huse].
  split; [|split; [exact Hown|split; [exact Huse|split; [apply Hcon|]]]].
  { intros i j fd fd' Hi Hj. by destruct (one_reader _ _ _ _ _ _ Hcon Hi Hj) as (? & ? & _). }
  intros i s flags Hi Hinit. destruct (client_ok_open s (Hcs _ _ Hi) Hinit) as [ext Hok].
  destruct (wp_inv _ _ _ (handleConsoleOpen_spec ext i c s flags Hok (write_count _ _ Hcon))) as (r & v & Hr & Hv). exists r, v.
  split; [done|]. split.
  - intros Hwant (j & fd & Hj). destruct (one_reader _ _ _ _ _ _ Hcon Hj Hj) as (_ & _ & Hu).
    rewrite open_busy in Hr by done. by injection Hr as <- <-.
  - intros Hpos. destruct Hv as (_ & _ & _ & Hv). by rewrite bool_decide_false in Hv by lia.
Qed.

(** Two clients; the second may not read while the first does. *)
Definition both_started : World :=
  match ensureStdio 0 (fst (world0 2), reset) with
  | Ok (_, (c, s)) => match ensureStdio 1 (c, reset) with Ok (_, (c', s')) => (c', [s; s']) | Fault _ => world0 2 end
  | Fault _ => world0 2
  end.
Definition first_reads : World :=
  match snd both_started with
  | [s; s'] => match handleConsoleOpen 0 O_RDONLY (fst both_started, s) with Ok (_, (c, s1)) => (c, [s1; s']) | Fault _ => world0 2 end
  | _ => world0 2
  end.
Lemma first_reads_reached : rtc call (world0 2) first_reads.
Proof.
  eapply rtc_l; [eapply (call_first 0); [reflexivity|vm_compute; reflexivity]|].
  eapply rtc_l; [eapply (call_first 1); [reflexivity|vm_compute; reflexivity]|].
  eapply rtc_l; [eapply (call_open 0 O_RDONLY); [reflexivity|reflexivity|vm_compute; reflexivity]|].
  match goal with |- rtc call ?x ?y => assert (x = y) as -> by (vm_compute; reflexivity) end. apply rtc_refl.
Qed.
Definition reads_at_b (cs : list ClientIoState) (i fd : nat) : bool :=
  match cs !! i with
  | Some s => match fds s !! fd with Some f => is_console f && readable f | None => false end
  | None => false
  end.
Lemma reads_at_spec cs i fd : reads_at_b cs i fd = true -> reads_at cs i fd.
Proof.
  unfold reads_at_b, reads_at. destruct (cs !! i) as [s|] eqn:Hs; [|discriminate]. destruct (fds s !! fd) as [f|] eqn:Hf; [|discriminate].
  intros [? ?]%andb_true_iff. exists s, f. auto.
Qed.
Lemma console_shared_witness : exists s, snd first_reads !! 1%nat = Some s /\
  handleConsoleOpen 1 O_RDWR (fst first_reads, s) = Ok (- EBUSY, (fst first_reads, s)).
Proof.
  destruct (console_shared 2 first_reads first_reads_reached) as (_ & _ & _ & _ & Hopen).
  assert (Hsome : match snd first_reads !! 1%nat with Some s => initialised s | None => false end = true) by (vm_compute; reflexivity).
  assert (Hread : reads_at_b (snd first_reads) 0 3 = true) by (vm_compute; reflexivity).
  destruct (snd first_reads !! 1%nat) as [s|] eqn:Hs; [|discriminate Hsome]. exists s. split; [reflexivity|].
  destruct (Hopen 1%nat s O_RDWR Hs Hsome) as (r & v & Hr & Hbusy & _). change (Z.of_nat 1) with 1 in Hr.
  destruct Hbusy as [-> ->]; [reflexivity| |exact Hr]. exists O, 3%nat. apply reads_at_spec. exact Hread.
Defined.

(** ** Input *)

Inductive DeviceEvent := Input (ch : Z) | Read (len : Z).
(** What the reads of a sequence of events return. *)
Fixpoint device_run (evs : list DeviceEvent) : M Console (list (option (list Z))) :=
  match evs with
  | [] => mret []
  | Input ch :: evs => handleInput ch;; device_run evs
  | Read len :: evs => r ← console_read len; rs ← device_run evs; mret (r :: rs)
  end.
(** The same on a queue of at most 1023 characters. *)
Fixpoint queue_run (evs : list DeviceEvent) (q : list Z) : list (option (list Z)) :=
  match evs with
  | [] => []
  | Input ch :: evs => queue_run evs (if bool_decide (Z.of_nat (length q) < 1023) then q ++ [ch] else q)
  | Read len :: evs =>
    if bool_decide (len = 0) then Some [] :: queue_run evs q
    else if bool_decide (q = []) then None :: queue_run evs q
    else Some (take (Z.to_nat len) q) :: queue_run evs (drop (Z.to_nat len) q)
  end.

Lemma pop_list_take n l : pop_list n false l = take n l.
Proof. revert l. induction n as [|n IH]; intros [|b l]; simpl; [done..|]. by rewrite IH. Qed.
Lemma device_run_spec evs c : ring_ok (ring c) -> wp (device_run evs) (fun rs _ => rs = queue_run evs (ring_contents (ring c))) c.
Proof.
  revert c. induction evs as [|[ch|len] evs IH]; intros c Hr; cbn [device_run queue_run]; [by wp_line|..].
  - apply wpf_bind. unfold handleInput. apply wpf_zoom. eapply wpf_mono; [by apply ring_push_spec|]. intros _ r' [Hr' Hc].
    eapply wpf_mono; [by apply IH|]. simpl. intros rs _ ->. by rewrite Hc.
  - apply wpf_bind. unfold console_read. case_bool_decide as Hlen.
    { wp_line. eapply wpf_mono; [by apply IH|]. intros rs ? ->. by wp_line. }
    wp_line. destruct (isEmpty (ring c)) eqn:He.
    + apply ring_empty in He; [|done]. rewrite bool_decide_true by done. wp_line. eapply wpf_mono; [by apply IH|]. intros rs ? ->. by wp_line.
    + rewrite bool_decide_false by (intros H; apply ring_empty in H; [congruence|done]). apply wpf_bind, wpf_zoom.
      eapply wpf_mono; [by apply popMany_spec|]. intros l r' (Hr' & Hl & Hc). rewrite pop_list_take in Hl. wp_line.
      eapply wpf_mono; [by apply IH|]. intros rs ? ->. wp_line. simpl. rewrite <- Hl. do 2 f_equal.
      rewrite <- (take_drop (Z.to_nat len) (ring_contents (ring c))) in Hc at 1. rewrite <- Hl in Hc. by apply app_inv_head in Hc.
Qed.

(** C23: what is read from the console is what was typed.  For every sequence of
    characters that arrive and reads of any size, on a console whose ring is empty, the
    ring of 1024 bytes behaves as a queue: reads return the characters in the order in
    which they arrived, none of them twice, and only those that arrive when 1023 wait
    to be read are dropped; a read blocks exactly when there is nothing to read. *)
Theorem console_reads_in_order evs c : ring c = ring_init ->
  exists c', device_run evs c = Ok (queue_run evs [], c').
Proof.
  intros Hc. assert (Hr : ring_ok (ring c)) by (rewrite Hc; repeat split; done).
  destruct (wp_inv _ _ _ (device_run_spec evs c Hr)) as (rs & c' & Hrun & ->). exists c'. rewrite Hrun. do 2 f_equal.
  rewrite Hc. reflexivity.
Qed.
Lemma console_reads_in_order_witness : exists c', device_run [Input 104; Read 2; Read 1; Input 105; Input 10; Read 9] (fst (world0 1)) =
  Ok ([Some [104]; None; Some [105; 10]], c').
Proof. exact (console_reads_in_order [Input 104; Read 2; Read 1; Input 105; Input 10; Read 9] (fst (world0 1)) eq_refl). Defined.
