(* ===== verification/FileWork.v ===== *)
(** * File operations of the worker threads

    Models the operations on files of [sos/src/worker.zig]: open, read, write, seek,
    close, remove and status, with the errors they report, and the release of a
    file by a mapping of [sos/src/client.zig].  The network file system and the
    copies from and to the memory of the client are an interface. *)

From S2P Require Import Prelude Errno Clients UserCopy FileTable.

(** ** The interface *)

Inductive NfsError :=
| NoNFSContext | PoolExhausted | NotFound | PermissionDenied | NfsOutOfMemory | NetworkUnreachable | NFSOperationFailed
| OperationFailed.
Abbreviation Path := (list Z).
(** The field of [sos_stat_t] that is examined. *)
Record Stat := mkStat { st_fmode : Z }.

Definition mapNfsError (e : NfsError) : Z :=
  match e with
  | NoNFSContext => ENODEV | PoolExhausted => EAGAIN | NotFound => ENOENT | PermissionDenied => EACCES
  | NfsOutOfMemory => ENOMEM | NetworkUnreachable => ENETUNREACH | NFSOperationFailed => EIO | OperationFailed => EIO
  end.
Definition mapFileTableError (e : FileTableError) : Z :=
  match e with TableFull => EMFILE | InvalidFd | SlotUnused | MissingHandle => EBADF end.

(** The functions of [nfs_handler.zig] and the copies of [vm/handle.zig]; a failed
    copy gives the number that [vmErrorToErrno] makes of its error. *)
Class FileEnv (E : Type) := {
  statSync : Path -> M E (NfsError + Stat);
  openSync : Path -> Z -> M E (NfsError + Z);
  closeSync : Z -> M E (NfsError + unit);
  readSync : Z -> Z -> M E (NfsError + list Z);
  writeSync : Z -> list Z -> M E (NfsError + Z);
  lseekSync : Z -> Z -> Z -> M E (NfsError + Z);
  unlinkSync : Path -> M E (NfsError + unit);
  copyToClient : list Z -> Z -> M E (Z + unit);
  copyFromClient : Z -> Z -> M E (Z + list Z) }.

(** ** Requests and results *)

Definition WRITE_BUFFER_CAPACITY : Z := 4096.

Inductive WorkParams :=
| POpen (path : Path) (flags : Z)
| PClose (fd : Z)
| PRead (fd count client_buf : Z)
| PWrite (fd count client_buf : Z)
| PStat (path : Path) (out_len : Z)
| PLseek (fd off whence : Z)
| PUnlink (path : Path).

Inductive FileOpResult := Fd (fd : nat) | Bytes (n : Z) | Errno (errno : Z) | Status (value : Z) | Offset (value : Z).

Section work.
Context {E : Type} `{FileEnv E}.

(** The descriptors of the client and the rest. *)
Abbreviation World := (ClientIoState * E)%type.
Definition io {A} (m : M ClientIoState A) : M World A := zoom fst (fun s w => (s, snd w)) m.
Definition env {A} (m : M E A) : M World A := zoom snd (fun e w => (fst w, e)) m.

(** [nfs_handler.closeSync(raw) catch {}] of a released reference. *)
Definition close_released (r : HandleRelease) : M World unit :=
  match r with
  | Active => mret tt
  | Closed raw => _ ← env (closeSync raw); mret tt
  end.

Definition regular_entry (flags : Z) (slot : nat) : File :=
  mkFile true (want_read flags) (want_write flags) KRegular (Some (PRef slot)) None 0 1 0.

(** From the open file to the descriptor: the second half of [workerOpenFile]. *)
Definition install (handle flags : Z) : M World FileOpResult :=
  r ← io (allocHandleRef handle);
  match r with
  | inl _ => _ ← env (closeSync handle); mret (Errno EMFILE)
  | inr slot =>
    r ← io (on_table (allocFd (PRef slot)));
    match r with
    | inl err =>
      rel ← io (releaseHandleRef slot);
      close_released rel;;
      mret (Errno (mapFileTableError err))
    | inr fd =>
      io (setHandleFdHint slot (Z.of_nat fd));;
      w ← get;
      if bool_decide (length (fds (fst w)) ≤ fd)%nat then
        rel ← io (releaseHandleRef slot);
        close_released rel;;
        _ ← io (on_table (freeFd (Z.of_nat fd)));
        mret (Errno EMFILE)
      else
        io (set_fd fd (regular_entry flags slot));;
        mret (Fd fd)
    end
  end.

Definition workerOpenFile (path : Path) (flags : Z) : M World FileOpResult :=
  st ← env (statSync path);
  match st with
  | inl PermissionDenied => mret (Errno EACCES)
  | inl NotFound =>
    if negb (bool_decide (Z.land flags O_CREAT ≠ 0)) then mret (Errno ENOENT)
    else
      h ← env (openSync path flags);
      match h with inl err => mret (Errno (mapNfsError err)) | inr handle => install handle flags end
  | inl err => mret (Errno (mapNfsError err))
  | inr st =>
    if want_read flags && bool_decide (Z.land (st_fmode st) FM_READ = 0) then mret (Errno EACCES)
    else if want_write flags && bool_decide (Z.land (st_fmode st) FM_WRITE = 0) then mret (Errno EACCES)
    else
      h ← env (openSync path flags);
      match h with inl err => mret (Errno (mapNfsError err)) | inr handle => install handle flags end
  end.

(** The checks of a descriptor that read, write and seek begin with; [ok] is the
    access that is asked for. *)
Definition with_file (fd : Z) (ok : File -> bool) (k : File -> Z -> M World FileOpResult) : M World FileOpResult :=
  w ← get;
  if bool_decide (Z.of_nat (length (fds (fst w))) ≤ fd) then mret (Errno EBADF)
  else
    f ← access (fds (fst w) !! Z.to_nat fd);
    if negb (f_used f) || bool_decide (kind f ≠ KRegular) then mret (Errno EBADF)
    else if negb (ok f) then mret (Errno EBADF)
    else
      h ← io (on_table (getHandle fd));
      match h with
      | inl err => mret (Errno (mapFileTableError err))
      | inr p => slot ← handleRefFromOpaque p; handle ← io (rawFileHandle slot); k f handle
      end.

Definition advance (fd : Z) (n : Z) : M World unit :=
  w ← get;
  f ← access (fds (fst w) !! Z.to_nat fd);
  io (set_fd (Z.to_nat fd) (mkFile (f_used f) (readable f) (writable f) (kind f) (obj f) (ops f) (dev_id f) (f_refcnt f) (offset f + n))).

(** The loop of [workerReadFile]; the result is an error or the number of bytes. *)
Fixpoint read_loop (fuel : nat) (handle remaining total client_buf : Z) : M World (Z + Z) :=
  match fuel with
  | O => throw OutOfFuel
  | S fuel =>
    if negb (bool_decide (0 < remaining)) then mret (inr total)
    else
      let chunk := Z.min remaining WRITE_BUFFER_CAPACITY in
      r ← env (readSync handle chunk);
      match r with
      | inl err => mret (inl (mapNfsError err))
      | inr data =>
        let read_bytes := Z.of_nat (length data) in
        if bool_decide (read_bytes = 0) then mret (inr total)
        else
          c ← env (copyToClient data (client_buf + total));
          match c with
          | inl errno => mret (inl errno)
          | inr _ =>
            if bool_decide (read_bytes < chunk) then mret (inr (total + read_bytes))
            else read_loop fuel handle (remaining - read_bytes) (total + read_bytes) client_buf
          end
      end
  end.

Definition workerReadFile (vm_handle : bool) (fd count client_buf : Z) : M World FileOpResult :=
  with_file fd readable (fun _ handle =>
    if negb vm_handle then mret (Errno EFAULT)
    else
      r ← read_loop (S (Z.to_nat count)) handle count 0 client_buf;
      match r with
      | inl errno => mret (Errno errno)
      | inr total => advance fd total;; mret (Bytes total)
      end).

(** The loop of [workerWriteFile]. *)
Fixpoint write_loop (fuel : nat) (handle remaining total client_buf : Z) : M World (Z + Z) :=
  match fuel with
  | O => throw OutOfFuel
  | S fuel =>
    if negb (bool_decide (0 < remaining)) then mret (inr total)
    else
      let chunk := Z.min remaining WRITE_BUFFER_CAPACITY in
      c ← env (copyFromClient chunk (client_buf + total));
      match c with
      | inl errno => mret (inl errno)
      | inr data =>
        r ← env (writeSync handle data);
        match r with
        | inl err => mret (inl (mapNfsError err))
        | inr written =>
          if bool_decide (written < chunk) then mret (inr (total + written))
          else write_loop fuel handle (remaining - written) (total + written) client_buf
        end
      end
  end.

Definition workerWriteFile (vm_handle : bool) (fd count client_buf : Z) : M World FileOpResult :=
  with_file fd writable (fun _ handle =>
    if negb vm_handle then mret (Errno EFAULT)
    else
      r ← write_loop (S (Z.to_nat count)) handle count 0 client_buf;
      match r with
      | inl errno => mret (Errno errno)
      | inr total => advance fd total;; mret (Bytes total)
      end).

(** The end of [workerCloseFile]: the descriptor is freed. *)
Definition close_fd (fd : Z) : M World FileOpResult :=
  r ← io (on_table (freeFd fd));
  match r with
  | inl err => mret (Errno (mapFileTableError err))
  | inr _ => io (set_fd (Z.to_nat fd) empty_fd);; mret (Status 0)
  end.

Definition workerCloseFile (fd : Z) : M World FileOpResult :=
  w ← get;
  if bool_decide (Z.of_nat (length (fds (fst w))) ≤ fd) then mret (Errno EBADF)
  else
    f ← access (fds (fst w) !! Z.to_nat fd);
    if negb (f_used f) then mret (Errno EBADF)
    else
      h ← io (on_table (getHandle fd));
      match h with
      | inl err => mret (Errno (mapFileTableError err))
      | inr p =>
        slot ← handleRefFromOpaque p;
        rel ← io (releaseHandleRef slot);
        c ← match rel with
            | Active => mret (inr tt)
            | Closed raw => env (closeSync raw)
            end;
        match c with
        | inl err => mret (Errno (mapNfsError err))
        | inr _ => close_fd fd
        end
      end.

Definition workerLseek (fd off whence : Z) : M World FileOpResult :=
  with_file fd (fun _ => true) (fun f handle =>
    if negb (bool_decide (whence = SEEK_SET)) && negb (bool_decide (whence = SEEK_CUR)) && negb (bool_decide (whence = SEEK_END))
    then mret (Errno EINVAL)
    else
      r ← env (lseekSync handle off whence);
      match r with
      | inl err => mret (Errno (mapNfsError err))
      | inr pos =>
        if bool_decide (2 ^ 63 ≤ pos) then mret (Errno EOVERFLOW)
        else
          io (set_fd (Z.to_nat fd) (mkFile (f_used f) (readable f) (writable f) (kind f) (obj f) (ops f) (dev_id f) (f_refcnt f) pos));;
          mret (Offset pos)
      end).

Definition workerUnlink (path : Path) : M World FileOpResult :=
  r ← env (unlinkSync path);
  match r with inl err => mret (Errno (mapNfsError err)) | inr _ => mret (Status 0) end.

Definition stat_size : Z := 32.
Definition workerStatFile (path : Path) (out_len : Z) : M World FileOpResult :=
  if bool_decide (out_len < stat_size) then mret (Errno ENOMEM)
  else
    r ← env (statSync path);
    match r with inl err => mret (Errno (mapNfsError err)) | inr _ => mret (Status 0) end.

(** [clients.get(id) orelse] at the start of every operation that has a client: the state
    above is that of the client [client_id]. *)
Definition with_client (client_id : Z) (m : M World FileOpResult) : M World FileOpResult :=
  if bool_decide (MAX_CLIENTS ≤ client_id) then mret (Errno EINVAL) else m.
(** [WorkItem.process] for the requests of clients. *)
Definition process (client_id : Z) (vm_handle : bool) (p : WorkParams) : M World FileOpResult :=
  match p with
  | POpen path flags => with_client client_id (workerOpenFile path flags)
  | PClose fd => with_client client_id (workerCloseFile fd)
  | PRead fd count buf => with_client client_id (workerReadFile vm_handle fd count buf)
  | PWrite fd count buf => with_client client_id (workerWriteFile vm_handle fd count buf)
  | PStat path out_len => with_client client_id (workerStatFile path out_len)
  | PLseek fd off whence => with_client client_id (workerLseek fd off whence)
  | PUnlink path => workerUnlink path
  end.

(** A mapping gives up its file, from [client.zig]; errors of the close are only
    logged. *)
Definition releaseFileHandleOpaque (p : Opaque) : M World unit :=
  slot ← handleRefFromOpaque p;
  rel ← io (releaseHandleRef slot);
  close_released rel.
End work.

(** ** What the interface promises

    [opened] are the handles in use, [stream] is what remains to be read from a
    handle and [written] what was written to it, [mem] is the memory of the client. *)
Class FileEnvLaws (E : Type) `{FileEnv E} := {
  opened : E -> gset Z;
  stream : E -> Z -> list Z;
  written : E -> Z -> list Z;
  mem : E -> Z -> option Z;
  law_stat path e : wp (statSync path) (fun _ e' => opened e' = opened e) e;
  law_open path flags e : wp (openSync path flags) (fun r e' =>
    match r with
    | inl _ => opened e' = opened e
    | inr h => (h ∉ opened e) /\ opened e' = {[h]} ∪ opened e
    end) e;
  law_close h e : wp (closeSync h) (fun r e' =>
    match r with
    | inl _ => opened e' = opened e \/ opened e' = opened e ∖ {[h]}
    | inr _ => opened e' = opened e ∖ {[h]}
    end) e;
  law_read h n e : 0 ≤ n -> wp (readSync h n) (fun r e' =>
    match r with
    | inl _ => True
    | inr data => Z.of_nat (length data) ≤ n /\ stream e h = data ++ stream e' h /\ keeps (mem e) (mem e')
    end) e;
  law_write h data e : wp (writeSync h data) (fun r e' =>
    match r with
    | inl _ => True
    | inr n => 0 ≤ n ≤ Z.of_nat (length data) /\ written e' h = written e h ++ take (Z.to_nat n) data /\
        keeps (mem e) (mem e')
    end) e;
  law_lseek h off wh e : wp (lseekSync h off wh) (fun _ e' => opened e' = opened e) e;
  law_copy_to data va e : 0 ≤ va < 2 ^ 64 -> wp (copyToClient data va) (fun r e' =>
    match r with
    | inl _ => True
    | inr _ => (forall h, stream e' h = stream e h) /\ written_at (mem e) (mem e') va data
    end) e;
  law_copy_from n va e : 0 ≤ n -> 0 ≤ va < 2 ^ 64 -> wp (copyFromClient n va) (fun r e' =>
    match r with
    | inl _ => True
    | inr data => Z.of_nat (length data) = n /\ read_at (mem e') va data /\ (forall h, written e' h = written e h) /\
        keeps (mem e) (mem e')
    end) e }.

Section correct.
Context {E : Type} `{FileEnvLaws E}.

Lemma wp_io {A} (m : M ClientIoState A) Q (w : ClientIoState * E) :
  wp m (fun a s => Q a (s, snd w)) (fst w) -> wp (io m) Q w.
Proof. intros Hm. unfold io. by apply wpf_zoom. Qed.
Lemma wp_file_env {A} (m : M E A) Q (w : ClientIoState * E) :
  wp m (fun a e => Q a (fst w, e)) (snd w) -> wp (env m) Q w.
Proof. intros Hm. unfold env. by apply wpf_zoom. Qed.
Lemma wp_on_pool {A} (m : M HandlePool A) Q s :
  wp m (fun a p => Q a (Io (initialised s) (fds s) (file_table s) p)) (handle_pool s) -> wp (on_pool m) Q s.
Proof. intros Hm. unfold on_pool. by apply wpf_zoom. Qed.
Lemma wp_on_table {A} (m : M FileTable A) Q s :
  wp m (fun a t => Q a (Io (initialised s) (fds s) t (handle_pool s))) (file_table s) -> wp (on_table m) Q s.
Proof. intros Hm. unfold on_table. by apply wpf_zoom. Qed.

(** The two ends of closing a file, with the call itself. *)
Lemma wp_closeSync h e (Q : NfsError + unit -> E -> Prop) :
  (forall err e', closeSync h e = Ok (inl err, e') -> Q (inl err) e') ->
  (forall e', closeSync h e = Ok (inr tt, e') -> opened e' = opened e ∖ {[h]} -> Q (inr tt) e') ->
  wp (closeSync h) Q e.
Proof.
  intros Hl Hr. pose proof (law_close h e) as Hc. unfold wpf in Hc |- *.
  destruct (closeSync h e) as [[[err|[]] e']|f]; [by apply Hl|by apply Hr|done].
Qed.

(** Descriptor [fd] is a regular file open as [h]. *)
Definition open_as (s : ClientIoState) (fd : nat) (h : Z) : Prop :=
  exists f e k r, fds s !! fd = Some f /\ f_used f = true /\ kind f = KRegular /\
    entries (file_table s) !! fd = Some e /\ e_used e = true /\ e_handle e = Some (PRef k) /\
    slots (handle_pool s) !! k = Some r /\ raw_handle r = Some h.

(** What installing an open handle does. *)
Lemma install_spec ext s e handle flags :
  io_ok ext s -> handle ∈ opened e ->
  wp (install handle flags) (fun r w' =>
    match r with
    | Fd fd =>
      io_ok ext (fst w') /\ snd w' = e /\ open_as (fst w') fd handle /\
      (exists en, entries (file_table s) !! fd = Some en /\ e_used en = false) /\
      (forall (j : nat) en, (j < fd)%nat -> entries (file_table s) !! j = Some en -> e_used en = true) /\
      (forall j, j ≠ fd -> fds (fst w') !! j = fds s !! j /\ entries (file_table (fst w')) !! j = entries (file_table s) !! j)
    | Errno _ => fst w' = s /\
        (opened (snd w') = opened e ∖ {[handle]} \/ exists err, closeSync handle e = Ok (inl err, snd w'))
    | _ => False
    end) (s, e).
Proof.
  intros Hok Hh. unfold install. apply wpf_bind, wp_io. unfold allocHandleRef. apply wp_on_pool.
  eapply wpf_mono; [apply alloc_spec; simpl; by rewrite (o_slots _ _ Hok), (o_used _ _ Hok)|].
  intros [[]|k] p'; cbv beta; simpl.
  { intros [-> _]. apply wpf_bind, wp_file_env. apply wp_closeSync; intros; wp_line; (split; [by destruct s|]); [right; eauto|by left]. }
  intros (Hk & _ & ->). pose proof (lookup_lt_Some _ _ _ Hk) as Hk96. rewrite (o_used _ _ Hok) in Hk96.
  destruct (io_ok_slot _ _ _ Hok Hk96) as (rk & uk & Hrk & Huk). rewrite Hk in Huk. injection Huk as <-.
  destruct (o_slot _ _ Hok k rk false Hrk Hk) as [_ Hrk0]. subst rk.
  pose proof (o_slots _ _ Hok) as Hsl. pose proof (o_used _ _ Hok) as Hul.
  apply wpf_bind, wp_io, wp_on_table. eapply wpf_mono; [apply allocFd_spec|]. intros [err|fd] t'; cbv beta; simpl.
  - intros (-> & -> & _). apply wpf_bind, wp_io. unfold releaseHandleRef. apply wp_on_pool. simpl.
    eapply wpf_mono.
    { apply (release_spec k (Ref k (Some handle) (-1) 1) handle); simpl; [apply list_lookup_insert_eq; lia|done|rewrite length_insert; lia|done|lia]. }
    intros res p' Hres. destruct (decide _) as [_|?] in Hres; [|done]. destruct Hres as [-> ->]. simpl.
    assert (Hs : Io (initialised s) (fds s) (file_table s)
      (Pool (<[k := no_ref]> (<[k := Ref k (Some handle) (-1) 1]> (slots (handle_pool s))))
        (<[k := false]> (<[k := true]> (used (handle_pool s))))) = s).
    { rewrite !list_insert_insert_eq, (list_insert_id (slots (handle_pool s))), (list_insert_id (used (handle_pool s))) by done.
      by destruct s as [? ? [] []]. }
    apply wpf_bind. unfold close_released. apply wpf_bind, wp_file_env. simpl.
    apply wp_closeSync; intros; wp_line; (split; [exact Hs|]); [right; eauto|by left].
  - intros ((en & Hen & Hun) & Hlow & g & g' & ->). pose proof (lookup_lt_Some _ _ _ Hen) as Hfd. rewrite (o_entries _ _ Hok) in Hfd.
    apply wpf_bind, wp_io. unfold setHandleFdHint. wp_line. simpl. eapply wpf_access; [apply list_lookup_insert_eq; lia|].
    apply wp_on_pool. wp_line. simpl. rewrite bool_decide_false by (rewrite (o_fds _ _ Hok); lia). wp_line.
    apply wp_io. unfold set_fd. wp_line. simpl.
    destruct (lookup_lt_is_Some_2 (fds s) fd) as [f Hf]; [rewrite (o_fds _ _ Hok); lia|].
    eapply wpf_access; [done|]. wp_line. simpl. rewrite list_insert_insert_eq. split_and!.
    + by eapply io_ok_open.
    + done.
    + do 4 eexists. simpl. rewrite !list_lookup_insert_eq by (rewrite ?(o_fds _ _ Hok), ?(o_entries _ _ Hok); lia). done.
    + eauto.
    + done.
    + intros j Hj. by rewrite !list_lookup_insert_ne.
Qed.

(** What opening a file does. *)
Definition open_post (ext : nat -> nat) (s : ClientIoState) (e : E) (r : FileOpResult) (w' : ClientIoState * E) : Prop :=
  match r with
  | Fd fd =>
    exists h, (h ∉ opened e) /\ opened (snd w') = {[h]} ∪ opened e /\ io_ok ext (fst w') /\ open_as (fst w') fd h /\
    (exists en, entries (file_table s) !! fd = Some en /\ e_used en = false) /\
    (forall (j : nat) en, (j < fd)%nat -> entries (file_table s) !! j = Some en -> e_used en = true) /\
    (forall j, j ≠ fd -> fds (fst w') !! j = fds s !! j /\ entries (file_table (fst w')) !! j = entries (file_table s) !! j)
  | Errno _ => fst w' = s /\
      (opened (snd w') = opened e \/
       exists h e1 err, (h ∉ opened e) /\ opened e1 = {[h]} ∪ opened e /\ closeSync h e1 = Ok (inl err, snd w'))
  | _ => False
  end.

(** Opening and installing, from any point where nothing was opened yet. *)
Lemma open_install_spec ext s e path flags :
  io_ok ext s ->
  wp (h ← env (openSync path flags);
      match h with inl err => mret (Errno (mapNfsError err)) | inr handle => install handle flags end)
    (open_post ext s e) (s, e).
Proof.
  intros Hok. apply wpf_bind, wp_file_env. eapply wpf_mono; [apply law_open|]. intros [err|h] e'; cbv beta; simpl.
  - intros Ho. wp_line. split; [done|]. by left.
  - intros [Hh Ho]. eapply wpf_mono; [apply (install_spec ext); [done|rewrite Ho; set_solver]|].
    intros [fd| |errno| |] w'; try done.
    + intros (Hok' & Hw & Has & Hen & Hlow & Hother). exists h. by rewrite Hw.
    + intros [Hs Hc]. split; [done|]. destruct Hc as [->|[err Hc]]; [left; rewrite Ho; set_solver|]. right. by exists h, e', err.
Qed.

Lemma open_post_env ext s e e1 r w' : opened e1 = opened e -> open_post ext s e1 r w' -> open_post ext s e r w'.
Proof. unfold open_post. by intros ->. Qed.

Lemma workerOpenFile_spec ext s e path flags :
  io_ok ext s ->
  wp (workerOpenFile path flags) (open_post ext s e) (s, e).
Proof.
  intros Hok. unfold workerOpenFile. apply wpf_bind, wp_file_env. eapply wpf_mono; [apply law_stat|].
  intros st e1 Hst. simpl in Hst |- *.
  assert (Hfail : forall errno, wp (mret (Errno errno)) (open_post ext s e) (s, e1)).
  { intros errno. wp_line. split; [done|]. by left. }
  destruct st as [err|st]; [destruct err; try apply Hfail|].
  - apply wpf_if; intros _; [apply Hfail|]. eapply wpf_mono; [by apply open_install_spec|]. intros r w'. by apply open_post_env.
  - apply wpf_if; intros _; [apply Hfail|]. apply wpf_if; intros _; [apply Hfail|]. eapply wpf_mono; [by apply open_install_spec|]. intros r w'. by apply open_post_env.
Qed.

(** The reference behind a descriptor of a regular file. *)
Lemma open_as_ref ext s fd h :
  io_ok ext s -> open_as s fd h ->
  exists f e k r, fds s !! fd = Some f /\ f_used f = true /\ kind f = KRegular /\
    entries (file_table s) !! fd = Some e /\ e_used e = true /\ e_handle e = Some (PRef k) /\
    slots (handle_pool s) !! k = Some r /\ raw_handle r = Some h /\ pool_slot r = k /\ (k < 96)%nat /\
    refcnt r = Z.of_nat (fd_refs k (entries (file_table s)) + ext k) /\ (0 < fd_refs k (entries (file_table s)))%nat.
Proof.
  intros Hok (f & en & k & r & Hf & Hfu & Hkind & Hen & Heu & Heh & Hr & Hraw).
  pose proof (o_ref _ _ Hok _ _ _ Hen Heh) as Hk. pose proof (fd_refs_pos _ _ _ _ Hen Heh) as Hpos.
  destruct (io_ok_referenced _ _ k Hok Hk ltac:(lia)) as (r' & h' & Hr' & Hu & Hps & Hraw' & Hc). simplify_eq.
  exists f, en, (pool_slot r), r. done.
Qed.

Lemma close_fd_spec s p (e : E) fd f en :
  fds s !! fd = Some f -> entries (file_table s) !! fd = Some en -> e_used en = true ->
  wp (close_fd (Z.of_nat fd)) (fun r w' => r = Status 0 /\ w' = (Io (initialised s) (<[fd := empty_fd]> (fds s))
      (FTable (<[fd := no_entry]> (entries (file_table s))) (next_generation (file_table s))) p, e))
    (Io (initialised s) (fds s) (file_table s) p, e).
Proof.
  intros Hf Hen Hu. unfold close_fd. apply wpf_bind, wp_io, wp_on_table. simpl.
  eapply wpf_mono; [apply (freeFd_spec _ en); [lia|by rewrite Nat2Z.id|done]|]. intros fr t' [-> ->]. simpl.
  apply wpf_bind, wp_io. unfold set_fd. wp_line. simpl. rewrite Nat2Z.id. eapply wpf_access; [done|]. wp_line. done.
Qed.

(** C25: Opening a file gives the lowest free descriptor, bound to a handle that was
    not open before and that is counted once; no other descriptor changes.  When it
    fails, the descriptors and references of the client are exactly as before, and so
    are the open files: the file was not opened, or it was closed again; unless the
    call that should close it again failed, and then the state is the one that this
    call left. *)
Theorem workerOpenFile_correct ext s e path flags :
  io_ok ext s ->
  wp (workerOpenFile path flags) (fun r w' =>
    match r with
    | Fd fd =>
      exists h, (h ∉ opened e) /\ opened (snd w') = {[h]} ∪ opened e /\ io_ok ext (fst w') /\ open_as (fst w') fd h /\
      (exists en, entries (file_table s) !! fd = Some en /\ e_used en = false) /\
      (forall (j : nat) en, (j < fd)%nat -> entries (file_table s) !! j = Some en -> e_used en = true) /\
      (forall j, j ≠ fd -> fds (fst w') !! j = fds s !! j /\ entries (file_table (fst w')) !! j = entries (file_table s) !! j)
    | Errno _ => fst w' = s /\
        (opened (snd w') = opened e \/
         exists h e1 err, (h ∉ opened e) /\ opened e1 = {[h]} ∪ opened e /\ closeSync h e1 = Ok (inl err, snd w'))
    | _ => False
    end) (s, e).
Proof. apply workerOpenFile_spec. Qed.

(** C26: Closing a descriptor of a regular file that another descriptor or a mapping
    also refers to frees the descriptor, gives up its reference and leaves the file
    open.  When it is the last reference the file is closed: if that call succeeds the
    descriptor is freed, and if it fails its error is reported, the reference is gone
    and the descriptor stays in place.  Other descriptors keep what they have, and
    there is no other error. *)
Theorem workerCloseFile_correct ext s e fd h :
  io_ok ext s -> open_as s fd h ->
  exists k, (exists en, entries (file_table s) !! fd = Some en /\ e_handle en = Some (PRef k)) /\
  wp (workerCloseFile (Z.of_nat fd)) (fun r w' =>
    match r with
    | Status 0 =>
      io_ok ext (fst w') /\ fds (fst w') !! fd = Some empty_fd /\ entries (file_table (fst w')) !! fd = Some no_entry /\
      (forall j, j ≠ fd -> fds (fst w') !! j = fds s !! j /\ entries (file_table (fst w')) !! j = entries (file_table s) !! j) /\
      (if decide (fd_refs k (entries (file_table s)) + ext k = 1)%nat
       then closeSync h e = Ok (inr tt, snd w') /\ opened (snd w') = opened e ∖ {[h]} else snd w' = e)
    | Errno errno => (fd_refs k (entries (file_table s)) + ext k = 1)%nat /\
        (exists err, closeSync h e = Ok (inl err, snd w') /\ errno = mapNfsError err) /\
        slots (handle_pool (fst w')) !! k = Some no_ref /\ fds (fst w') = fds s /\ file_table (fst w') = file_table s
    | _ => False
    end) (s, e).
Proof.
  intros Hok Has. destruct (open_as_ref _ _ _ _ Hok Has) as
    (f & en & k & r & Hf & Hfu & Hkind & Hen & Heu & Heh & Hr & Hraw & Hps & Hk & Hc & Hpos).
  pose proof (lookup_lt_Some _ _ _ Hf) as Hfd. rewrite (o_fds _ _ Hok) in Hfd.
  exists k. split; [eauto|]. unfold workerCloseFile. wp_line. simpl. rewrite bool_decide_false by (rewrite (o_fds _ _ Hok); lia).
  wp_line. rewrite Nat2Z.id. eapply wpf_access; [done|]. rewrite Hfu. simpl.
  apply wpf_bind, wp_io, wp_on_table. eapply wpf_mono; [apply getHandle_spec; lia|]. intros hr t' [-> Hh]. simpl in Hh |- *.
  assert (hr = inr (PRef k)) as -> by (apply Hh; rewrite Nat2Z.id; eauto). simpl. wp_line.
  apply wp_io. unfold releaseHandleRef. apply wp_on_pool. simpl.
  eapply wpf_mono; [apply (release_spec k r h); [done|done|rewrite (o_used _ _ Hok); lia|done|lia]|].
  intros rel p' Hrel.
  destruct (decide (refcnt r = 1)) as [H1|H1]; destruct Hrel as [-> ->].
  - apply wpf_bind, wp_file_env. simpl. apply wp_closeSync; [intros err e1 Hcl|intros e1 Hcl Hop].
    + wp_line. simpl. split; [lia|]. split; [eauto|]. split; [|done]. apply list_lookup_insert_eq. rewrite (o_slots _ _ Hok). lia.
    + eapply wpf_mono; [by eapply close_fd_spec|]. intros r0 w' [-> ->]. simpl. split_and!.
      * by eapply io_ok_close_last.
      * apply list_lookup_insert_eq. rewrite (o_fds _ _ Hok). lia.
      * apply list_lookup_insert_eq. rewrite (o_entries _ _ Hok). lia.
      * intros j Hj. by rewrite !list_lookup_insert_ne.
      * rewrite decide_True by lia. done.
  - wp_line. eapply wpf_mono; [by eapply close_fd_spec|]. intros r0 w' [-> ->]. simpl. split_and!.
    + eapply io_ok_close_shared; [done..|lia].
    + apply list_lookup_insert_eq. rewrite (o_fds _ _ Hok). lia.
    + apply list_lookup_insert_eq. rewrite (o_entries _ _ Hok). lia.
    + intros j Hj. by rewrite !list_lookup_insert_ne.
    + by rewrite decide_False by lia.
Qed.

(** *** Reading and writing *)

Lemma read_loop_spec fuel s e h remaining total buf :
  (Z.to_nat remaining < fuel)%nat -> 0 ≤ total -> 0 ≤ remaining -> 0 ≤ buf -> buf + total + remaining ≤ 2 ^ 64 ->
  wp (read_loop fuel h remaining total buf) (fun r w' =>
    fst w' = s /\
    match r with
    | inl _ => True
    | inr n => exists data, n = total + Z.of_nat (length data) /\ Z.of_nat (length data) ≤ remaining /\
        stream e h = data ++ stream (snd w') h /\ written_at (mem e) (mem (snd w')) (buf + total) data
    end) (s, e).
Proof.
  revert e remaining total. induction fuel as [|fuel IH]; intros e remaining total Hf Ht Hr Hbuf Hend; [lia|]. cbn [read_loop].
  apply wpf_if; intros Hb; bd.
  { wp_line. split; [done|]. exists []. simpl. repeat (split; [done || lia|]). apply written_at_nil, keeps_refl. }
  apply wpf_bind, wp_file_env. unfold WRITE_BUFFER_CAPACITY. simpl.
  eapply wpf_mono; [apply law_read; lia|]. intros [err|data] e1 Hrd; simpl in Hrd |- *; [by wp_line|].
  destruct Hrd as (Hlen & Hst & Hm1). apply wpf_if; intros Hz; bd.
  { wp_line. split; [done|]. exists []. simpl. destruct data; simpl in *; [|lia]. rewrite Hst. simpl.
    repeat (split; [done || lia|]). by apply written_at_nil. }
  apply wpf_bind, wp_file_env. simpl. eapply wpf_mono; [apply law_copy_to; lia|].
  intros [errno|[]] e2 Hcp; simpl in Hcp |- *; [by wp_line|]. destruct Hcp as [Hst2 Hm2].
  assert (Hmem2 : written_at (mem e) (mem e2) (buf + total) data) by by eapply written_at_keeps.
  apply wpf_if; intros Hs; bd.
  { wp_line. split; [done|]. exists data. rewrite Hst, Hst2. repeat (split; [done || lia|]). done. }
  eapply wpf_mono; [apply IH; lia|]. intros r w' [Hw Hcase]. split; [done|]. destruct r as [?|n]; [done|].
  destruct Hcase as (d2 & -> & Hl2 & Hst3 & Hm3). exists (data ++ d2). rewrite length_app, Nat2Z.inj_add.
  split; [lia|]. split; [lia|]. split; [rewrite Hst, <- app_assoc, <- Hst3, Hst2; done|].
  eapply written_at_app; [done|]. by rewrite <- Z.add_assoc.
Qed.

Lemma write_loop_spec fuel s e h remaining total buf :
  (Z.to_nat remaining < fuel)%nat -> 0 ≤ total -> 0 ≤ remaining -> 0 ≤ buf -> buf + total + remaining ≤ 2 ^ 64 ->
  wp (write_loop fuel h remaining total buf) (fun r w' =>
    fst w' = s /\
    match r with
    | inl _ => True
    | inr n => exists data, n = total + Z.of_nat (length data) /\ Z.of_nat (length data) ≤ remaining /\
        written (snd w') h = written e h ++ data /\ read_at (mem (snd w')) (buf + total) data /\ keeps (mem e) (mem (snd w'))
    end) (s, e).
Proof.
  revert e remaining total. induction fuel as [|fuel IH]; intros e remaining total Hf Ht Hr Hbuf Hend; [lia|]. cbn [write_loop].
  apply wpf_if; intros Hb; bd.
  { wp_line. split; [done|]. exists []. simpl. rewrite app_nil_r. repeat (split; [done || lia|]).
    split; [intros i Hi; simpl in Hi; lia|apply keeps_refl]. }
  apply wpf_bind, wp_file_env. unfold WRITE_BUFFER_CAPACITY. simpl.
  eapply wpf_mono; [apply law_copy_from; lia|]. intros [errno|data] e1 Hcp; simpl in Hcp |- *; [by wp_line|].
  destruct Hcp as (Hlen & Hdata & Hw1 & Hm1).
  apply wpf_bind, wp_file_env. simpl. eapply wpf_mono; [apply law_write|]. intros [err|n] e2 Hwr; simpl in Hwr |- *; [by wp_line|].
  destruct Hwr as (Hn & Hw2 & Hm2). rewrite Hw1 in Hw2.
  assert (Hltake : Z.of_nat (length (take (Z.to_nat n) data)) = n) by (rewrite length_take; lia).
  assert (Htake : read_at (mem e2) (buf + total) (take (Z.to_nat n) data)).
  { eapply read_at_keeps; [done|]. intros i Hi. rewrite length_take in Hi. rewrite lookup_take_lt by lia. apply Hdata. lia. }
  assert (Hk2 : keeps (mem e) (mem e2)) by by eapply keeps_trans.
  apply wpf_if; intros Hs; bd.
  { wp_line. split; [done|]. exists (take (Z.to_nat n) data). simpl. repeat (split; [done || lia|]). done. }
  eapply wpf_mono; [apply IH; lia|]. intros r w' [Hw Hcase]. split; [done|]. destruct r as [?|m]; [done|].
  destruct Hcase as (d2 & -> & Hl2 & Hw3 & Hd2 & Hk3). exists (take (Z.to_nat n) data ++ d2). rewrite length_app, Nat2Z.inj_add.
  split; [lia|]. split; [lia|]. split; [by rewrite Hw3, Hw2, <- app_assoc|]. split; [|by eapply keeps_trans].
  apply read_at_app; [by eapply read_at_keeps|]. rewrite Hltake. by rewrite <- Z.add_assoc.
Qed.

Lemma with_file_spec ext s (e : E) fd h ok k Q f :
  io_ok ext s -> open_as s fd h -> fds s !! fd = Some f -> ok f = true -> wp (k f h) Q (s, e) ->
  wp (with_file (Z.of_nat fd) ok k) Q (s, e).
Proof.
  intros Hok Has Hf0 Hgood HQ. destruct (open_as_ref _ _ _ _ Hok Has) as
    (f' & en & j & r & Hf & Hfu & Hkind & Hen & Heu & Heh & Hr & Hraw & _). rewrite Hf in Hf0. injection Hf0 as ->.
  pose proof (lookup_lt_Some _ _ _ Hf) as Hfd. rewrite (o_fds _ _ Hok) in Hfd.
  unfold with_file. wp_line. simpl. rewrite bool_decide_false by (rewrite (o_fds _ _ Hok); lia).
  wp_line. rewrite Nat2Z.id. eapply wpf_access; [done|]. rewrite Hfu, Hkind, Hgood. simpl.
  apply wpf_bind, wp_io, wp_on_table. eapply wpf_mono; [apply getHandle_spec; lia|]. intros hr t' [-> Hh]. simpl in Hh |- *.
  assert (hr = inr (PRef j)) as -> by (apply Hh; rewrite Nat2Z.id; eauto). simpl. wp_line.
  apply wp_io. unfold rawFileHandle. wp_line. simpl. eapply wpf_access; [done|]. rewrite Hraw. wp_line. by destruct s.
Qed.

Definition moved_on (f : File) (n : Z) : File :=
  mkFile (f_used f) (readable f) (writable f) (kind f) (obj f) (ops f) (dev_id f) (f_refcnt f) (offset f + n).
Lemma advance_spec s (e : E) fd f n Q :
  fds s !! fd = Some f ->
  Q tt (Io (initialised s) (<[fd := moved_on f n]> (fds s)) (file_table s) (handle_pool s), e) ->
  wp (advance (Z.of_nat fd) n) Q (s, e).
Proof.
  intros Hf HQ. unfold advance. wp_line. simpl. rewrite Nat2Z.id. eapply wpf_access; [done|].
  apply wp_io. unfold set_fd. wp_line. simpl. eapply wpf_access; [done|]. wp_line. done.
Qed.


(** Writing to a descriptor that is open for writing appends to what the file
    received the bytes of the client's buffer from its start, at most as many as the
    client asked for; the count that it returns is their number. *)
Theorem workerWriteFile_correct ext s e fd h f count buf :
  io_ok ext s -> open_as s fd h -> fds s !! fd = Some f -> writable f = true -> 0 ≤ count -> 0 ≤ buf -> buf + count ≤ 2 ^ 64 ->
  wp (workerWriteFile true (Z.of_nat fd) count buf) (fun r w' =>
    match r with
    | Bytes n => exists data, n = Z.of_nat (length data) /\ n ≤ count /\ written (snd w') h = written e h ++ data /\
        read_at (mem (snd w')) buf data /\ keeps (mem e) (mem (snd w')) /\ fds (fst w') = <[fd := moved_on f n]> (fds s)
    | Errno _ => fst w' = s
    | _ => False
    end) (s, e).
Proof.
  intros Hok Has Hf Hgood Hc Hbuf Hend. unfold workerWriteFile. eapply with_file_spec; [done..|]. cbn [negb].
  apply wpf_bind. eapply wpf_mono; [apply (write_loop_spec _ s e); lia|]. intros r [s1 e1] [Hs Hr]. simpl in *. subst s1.
  destruct r as [errno|n]; [by wp_line|]. destruct Hr as (data & -> & Hl & Hst & Hm & Hk). apply wpf_bind.
  eapply advance_spec; [done|]. wp_line. simpl. exists data. rewrite Z.add_0_r in Hm. done.
Qed.
End correct.
