(* ===== verification/FileDemo.v ===== *)
(** * An instance of the file interface, and runs

    The interface of the file operations is made of the calls to the network file
    system and of the copies of [UserCopy]; with a disk in memory it gives the
    witnesses of the theorems on files, and a run of a failed close after which two
    descriptors share a file by accident. *)

From S2P Require Import Prelude Errno VmMmap UserCopy FileTable FileWork.

(** ** The interface from its two sides *)

(** The calls to the network file system. *)
Class NfsCalls (N : Type) := {
  n_stat : Path -> M N (NfsError + Stat);
  n_open : Path -> Z -> M N (NfsError + Z);
  n_close : Z -> M N (NfsError + unit);
  n_read : Z -> Z -> M N (NfsError + list Z);
  n_write : Z -> list Z -> M N (NfsError + Z);
  n_lseek : Z -> Z -> Z -> M N (NfsError + Z);
  n_unlink : Path -> M N (NfsError + unit) }.
Class NfsCallsLaws (N : Type) `{NfsCalls N} := {
  n_opened : N -> gset Z;
  n_stream : N -> Z -> list Z;
  n_written : N -> Z -> list Z;
  n_stat_law path e : wp (n_stat path) (fun _ e' => n_opened e' = n_opened e) e;
  n_open_law path flags e : wp (n_open path flags) (fun r e' =>
    match r with
    | inl _ => n_opened e' = n_opened e
    | inr h => (h ∉ n_opened e) /\ n_opened e' = {[h]} ∪ n_opened e
    end) e;
  n_close_law h e : wp (n_close h) (fun r e' =>
    match r with
    | inl _ => n_opened e' = n_opened e \/ n_opened e' = n_opened e ∖ {[h]}
    | inr _ => n_opened e' = n_opened e ∖ {[h]}
    end) e;
  n_read_law h n e : 0 ≤ n -> wp (n_read h n) (fun r e' =>
    match r with
    | inl _ => True
    | inr data => Z.of_nat (length data) ≤ n /\ n_stream e h = data ++ n_stream e' h
    end) e;
  n_write_law h data e : wp (n_write h data) (fun r e' =>
    match r with
    | inl _ => True
    | inr n => 0 ≤ n ≤ Z.of_nat (length data) /\ n_written e' h = n_written e h ++ take (Z.to_nat n) data
    end) e;
  n_lseek_law h off wh e : wp (n_lseek h off wh) (fun _ e' => n_opened e' = n_opened e) e }.

Section sides.
Context {N U : Type} `{NfsCalls N} `{UserMem U}.
Definition net {A} (m : M N A) : M (N * U) A := zoom fst (fun n w => (n, snd w)) m.
Definition user {A} (m : M U A) : M (N * U) A := zoom snd (fun u w => (fst w, u)) m.
Definition errno_of {A} (r : VmError + A) : Z + A := match r with inl err => inl (vmErrorToErrno err) | inr x => inr x end.

(** The worker reaches the client through the copies of [vm/handle.zig]. *)
#[export] Instance sides_env : FileEnv (N * U) := {|
  statSync path := net (n_stat path); openSync path flags := net (n_open path flags); closeSync h := net (n_close h);
  readSync h n := net (n_read h n); writeSync h data := net (n_write h data); lseekSync h o wh := net (n_lseek h o wh);
  unlinkSync path := net (n_unlink path);
  FileWork.copyToClient data va := r ← user (UserCopy.copyToClient data va); mret (errno_of r);
  FileWork.copyFromClient n va := r ← user (UserCopy.copyFromClient n va); mret (errno_of r) |}.

Lemma wp_net {A} (m : M N A) Q (w : N * U) : wp m (fun a n => Q a (n, snd w)) (fst w) -> wp (net m) Q w.
Proof. intros Hm. unfold net. by apply wpf_zoom. Qed.
Lemma wp_user {A} (m : M U A) Q (w : N * U) : wp m (fun a u => Q a (fst w, u)) (snd w) -> wp (user m) Q w.
Proof. intros Hm. unfold user. by apply wpf_zoom. Qed.

(** It keeps the promises that the file operations rely on, where nothing is paged out. *)
#[export, refine] Instance sides_laws `{!NfsCallsLaws N} `{!UserMemLaws U} `{!AlwaysSettled U} : FileEnvLaws (N * U) := {|
  opened w := n_opened (fst w); stream w := n_stream (fst w); written w := n_written (fst w);
  FileWork.mem w := UserCopy.mem (snd w) |}.
Proof.
  - intros path e. apply wp_net, n_stat_law.
  - intros path flags e. apply wp_net, n_open_law.
  - intros h e. apply wp_net, n_close_law.
  - intros h n e Hn. apply wp_net. eapply wpf_mono; [by apply n_read_law|]. intros [err|data] n'; [done|].
    intros [Hl Hst]. split; [done|]. split; [done|]. apply keeps_refl.
  - intros h data e. apply wp_net. eapply wpf_mono; [apply n_write_law|]. intros [err|n] n'; [done|].
    intros [Hl Hst]. split; [done|]. split; [done|]. apply keeps_refl.
  - intros h off wh e. apply wp_net, n_lseek_law.
  - intros data va e Hva. apply wpf_bind, wp_user. eapply wpf_mono; [by apply copyToClient_spec; [|apply always_settles|apply always_settled]|].
    intros [err|[]] u (_ & _ & Hw); by wp_line.
  - intros n va e Hn Hva. apply wpf_bind, wp_user. eapply wpf_mono; [by apply copyFromClient_spec; [| |apply always_settles|apply always_settled]|].
    intros [err|data] u (Hk & _ & Hw); wp_line; [done|]. simpl. destruct Hw as [Hl Hr]. done.
Defined.
End sides.

(** ** A disk in memory *)

Record disk := Disk {
  d_opened : gset Z; d_next : Z; d_stream : gmap Z (list Z); d_written : gmap Z (list Z); d_close_fails : bool }.

Definition d_open (path : Path) (flags : Z) : M disk (NfsError + Z) :=
  d ← get;
  if decide (d_next d ∈ d_opened d) then mret (inl PoolExhausted)
  else
    put (Disk ({[d_next d]} ∪ d_opened d) (d_next d + 1) (d_stream d) (d_written d) (d_close_fails d));;
    mret (inr (d_next d)).
Definition d_close (h : Z) : M disk (NfsError + unit) :=
  d ← get;
  if d_close_fails d then
    put (Disk (d_opened d) (d_next d) (d_stream d) (d_written d) false);; mret (inl PoolExhausted)
  else put (Disk (d_opened d ∖ {[h]}) (d_next d) (d_stream d) (d_written d) false);; mret (inr tt).
Definition d_rest (d : disk) (h : Z) : list Z := default [] (d_stream d !! h).
Definition d_out (d : disk) (h : Z) : list Z := default [] (d_written d !! h).
Definition d_read (h n : Z) : M disk (NfsError + list Z) :=
  d ← get;
  put (Disk (d_opened d) (d_next d) (<[h := drop (Z.to_nat n) (d_rest d h)]> (d_stream d)) (d_written d) (d_close_fails d));;
  mret (inr (take (Z.to_nat n) (d_rest d h))).
Definition d_write (h : Z) (data : list Z) : M disk (NfsError + Z) :=
  d ← get;
  put (Disk (d_opened d) (d_next d) (d_stream d) (<[h := d_out d h ++ data]> (d_written d)) (d_close_fails d));;
  mret (inr (Z.of_nat (length data))).

#[export] Instance disk_calls : NfsCalls disk := {|
  n_stat _ := mret (inr (mkStat 6)); n_open := d_open; n_close := d_close; n_read := d_read; n_write := d_write;
  n_lseek _ o _ := mret (inr o); n_unlink _ := mret (inl NotFound) |}.
#[export, refine] Instance disk_laws : NfsCallsLaws disk := {| n_opened := d_opened; n_stream := d_rest; n_written := d_out |}.
Proof.
  - done.
  - intros path flags e. unfold n_open; simpl. unfold d_open. wp_line. destruct (decide _); wp_line; done.
  - intros h e. unfold n_close; simpl. unfold d_close. wp_line. destruct (d_close_fails e); wp_line; [by left|done].
  - intros h n e Hn. unfold n_read; simpl. unfold d_read. wp_line. unfold d_rest; simpl. rewrite lookup_insert_eq. simpl.
    split; [rewrite length_take; lia|]. by rewrite take_drop.
  - intros h data e. unfold n_write; simpl. unfold d_write. wp_line. unfold d_out; simpl. rewrite lookup_insert_eq. simpl.
    split; [lia|]. by rewrite take_ge by lia.
  - done.
Defined.

(** ** Witnesses *)

Definition disk0 (fails : bool) : disk * plain :=
  (Disk ∅ 100 {[100 := [10; 11; 12; 13; 14]]} ∅ fails, Plain {[0]} ∅ (store_bytes ∅ 500 [1; 2; 3])).
Abbreviation ext0 := (fun _ : nat => O).
Definition name : Path := [97].

Lemma workerOpenFile_correct_witness :
  exists w', workerOpenFile name O_RDWR (reset, disk0 false) = Ok (Fd 1, w') /\ io_ok ext0 (fst w') /\ open_as (fst w') 1 100.
Proof.
  assert (Hv : value_of (workerOpenFile name O_RDWR (reset, disk0 false)) = Some (Fd 1)) by (vm_compute; reflexivity).
  destruct (wpf_value _ _ _ _ _ (workerOpenFile_correct ext0 reset (disk0 false) name O_RDWR io_ok_reset) Hv)
    as (w' & Hr & h & Hh & Ho & Hok & Has & _).
  exists w'. split; [exact Hr|]. split; [exact Hok|].
  assert (h = 100) as <-; [|exact Has].
  assert (Hop : opened (snd w') = {[100]}) by (assert (He : Ok (Fd 1, w') = workerOpenFile name O_RDWR (reset, disk0 false)) by done; vm_compute in He; injection He as ->; vm_compute; reflexivity).
  rewrite Hop in Ho. set_solver.
Defined.

(** The state after opening one file, which [workerOpenFile_spec] shows well formed. *)
Definition after_open (fails : bool) : ClientIoState * (disk * plain) :=
  match workerOpenFile name O_RDWR (reset, disk0 fails) with Ok (_, w) => w | Fault _ => (reset, disk0 fails) end.
Lemma after_open_ok fails : io_ok ext0 (fst (after_open fails)) /\ open_as (fst (after_open fails)) 1 100.
Proof.
  pose proof (workerOpenFile_spec ext0 reset (disk0 fails) name O_RDWR io_ok_reset) as Hs.
  assert (Hv : value_of (workerOpenFile name O_RDWR (reset, disk0 fails)) = Some (Fd 1)) by (destruct fails; vm_compute; reflexivity).
  destruct (wpf_value _ _ _ _ _ Hs Hv) as (w' & Hr & h & Hh & Ho & Hok & Has & _). unfold after_open. rewrite Hr. simpl.
  split; [exact Hok|]. assert (Hop : opened (snd (after_open fails)) = {[100]}) by (destruct fails; vm_compute; reflexivity).
  unfold after_open in Hop. rewrite Hr in Hop. change (opened (snd w') = {[100]}) in Hop. rewrite Ho in Hop. assert (h = 100) as <- by set_solver. exact Has.
Qed.
Definition file1 : File := default empty_fd (fds (fst (after_open false)) !! 1%nat).

Lemma workerCloseFile_correct_witness :
  exists w', workerCloseFile 1 (after_open false) = Ok (Status 0, w') /\ io_ok ext0 (fst w') /\ opened (snd w') = ∅.
Proof.
  destruct (after_open_ok false) as [Hok Has].
  destruct (workerCloseFile_correct ext0 (fst (after_open false)) (snd (after_open false)) 1 100 Hok Has)
    as (k & (en & Hen & Hk) & Hw).
  assert (Hv : value_of (workerCloseFile 1 (after_open false)) = Some (Status 0)) by (vm_compute; reflexivity).
  rewrite (surjective_pairing (after_open false)) in Hv.
  destruct (wpf_value _ _ _ _ _ Hw Hv) as (w' & Hr & Hok' & _ & _ & _ & Hop).
  assert (k = 0%nat) as -> by (vm_compute in Hen; injection Hen as <-; by injection Hk as <-).
  rewrite decide_True in Hop by (vm_compute; reflexivity). destruct Hop as [_ Hop].
  exists w'. split; [rewrite (surjective_pairing (after_open false)); exact Hr|]. split; [exact Hok'|].
  rewrite Hop. vm_compute. reflexivity.
Defined.
Lemma workerWriteFile_correct_witness :
  exists w', workerWriteFile true 1 3 500 (after_open false) = Ok (Bytes 3, w') /\
    exists data, length data = 3%nat /\ written (snd w') 100 = data /\ data !! 0%nat = Some 1.
Proof.
  destruct (after_open_ok false) as [Hok Has].
  pose proof (workerWriteFile_correct ext0 (fst (after_open false)) (snd (after_open false)) 1 100 file1 3 500 Hok Has
    ltac:(vm_compute; reflexivity) ltac:(vm_compute; reflexivity) ltac:(lia) ltac:(lia) ltac:(lia)) as Hw.
  assert (Hv : value_of (workerWriteFile true 1 3 500 (after_open false)) = Some (Bytes 3)) by (vm_compute; reflexivity).
  rewrite (surjective_pairing (after_open false)) in Hv.
  destruct (wpf_value _ _ _ _ _ Hw Hv) as (w' & Hr & data & Hl & _ & Hst & Hm & Hk & _).
  exists w'. split; [rewrite (surjective_pairing (after_open false)); exact Hr|]. exists data.
  split; [lia|]. split; [rewrite Hst; vm_compute; reflexivity|]. rewrite <- (Hm 0%nat) by lia. apply Hk. vm_compute. reflexivity.
Defined.

(** ** Runs *)

(** The server's close fails once.  The call reports the error with descriptor 1 still in
    use, but its reference went back to the pool: the next open takes that reference, and
    descriptors 1 and 2 now both name handle 101.  Closing descriptor 2 then leaves
    descriptor 1 on a free reference again. *)
Lemma failed_close_aliases :
  exists r1 r2 h1 h2 w1 w2,
    workerCloseFile 1 (after_open true) = Ok (r1, w1) /\ r1 ≠ Status 0 /\
    workerOpenFile name O_RDWR w1 = Ok (r2, w2) /\ r2 = Fd 2 /\
    (e ← entries (file_table (fst w2)) !! 1%nat; e_handle e) = Some h1 /\
    (e ← entries (file_table (fst w2)) !! 2%nat; e_handle e) = Some h2 /\ h1 = h2.
Proof.
  do 6 eexists. split; [vm_compute; reflexivity|]. split; [done|]. split; [vm_compute; reflexivity|].
  split; [done|]. split; [vm_compute; reflexivity|]. split; [vm_compute; reflexivity|]. done.
Qed.
