(* ===== verification/Nfs.v ===== *)
(** * Network file operations

    Models [sos/src/nfs_handler.zig]: the pool of slots that turns the asynchronous
    calls of libnfs into calls that block a thread, the callback that completes a
    slot, and the blocking operations.  Here each call runs on its own; [NfsThreads]
    interleaves the accesses of several threads and of the callback.

    libnfs is outside: a request that it accepted is answered once, later, by a
    call of the callback with an answer that fits the request ([answers]). *)

From S2P Require Import Prelude Errno FileWork.

Definition NFS_POOL_SIZE : nat := 4.
Definition NFS_TIMEOUT_MS : Z := 10000.

(** ** Status of a file *)

Record nfs_stat_64 := NfsStat {
  nfs_mode : Z; nfs_size : Z; nfs_atime : Z; nfs_ctime : Z; nfs_atime_nsec : Z; nfs_ctime_nsec : Z }.
Record sos_stat_t := SosStat { o_type : Z; o_fmode : Z; o_size : Z; o_ctime : Z; o_atime : Z }.

(** [0o444], [0o222] and [0o111] *)
Definition READ_MODE_MASK : Z := 292.
Definition WRITE_MODE_MASK : Z := 146.
Definition EXEC_MODE_MASK : Z := 73.

Definition modeToFmode (mode : Z) : Z :=
  let fmode := if bool_decide (Z.land mode READ_MODE_MASK ≠ 0) then 4 else 0 in
  let fmode := if bool_decide (Z.land mode WRITE_MODE_MASK ≠ 0) then Z.lor fmode 2 else fmode in
  if bool_decide (Z.land mode EXEC_MODE_MASK ≠ 0) then Z.lor fmode 1 else fmode.
Definition convertTimeMs (seconds nanos : Z) : Z := seconds * 1000 + Z.quot nanos 1000000.
(** For the 64 bit signed fields. *)
Definition clampToType (value : Z) : Z := Z.min (Z.max value (- 2 ^ 63)) (2 ^ 63 - 1).
Definition assignStat (src : nfs_stat_64) : sos_stat_t :=
  SosStat 1 (modeToFmode (nfs_mode src)) (if bool_decide (nfs_size src > 2 ^ 32 - 1) then 2 ^ 32 - 1 else nfs_size src)
    (clampToType (convertTimeMs (nfs_ctime src) (nfs_ctime_nsec src)))
    (clampToType (convertTimeMs (nfs_atime src) (nfs_atime_nsec src))).

(** ** The pool *)

Inductive NfsOperation := OpOpen | OpRead | OpWrite | OpPread | OpClose | OpStat | OpOpenDir | OpUnlink | OpLseek.

(** What the [data] pointer of an answer points to. *)
Inductive Data := DNull | DHandle (h : Z) | DBytes (l : list Z) | DStat (st : nfs_stat_64) | DSeek (value : Z).

(** [read_buf] and [stat_out] name the thread whose buffer they point to; [signalled]
    is the state of the notification [ntfn]. *)
Record PoolSlot := Slot {
  used : bool; async_finish : bool; status : Z; result : Data; seek_value : Z; operation : NfsOperation;
  read_buf : option nat; stat_out : option nat; start_time : Z; timeout_ms : Z; ntfn : Z; signalled : bool }.

Definition PoolSlot_init (cap : Z) : PoolSlot :=
  Slot false false 0 DNull 0 OpOpen None None 0 NFS_TIMEOUT_MS cap false.
Definition PoolSlot_reset (s : PoolSlot) : PoolSlot :=
  Slot false false 0 (result s) 0 (operation s) None None (start_time s) (timeout_ms s) (ntfn s) (signalled s).
Definition set_used (b : bool) (s : PoolSlot) : PoolSlot :=
  Slot b (async_finish s) (status s) (result s) (seek_value s) (operation s) (read_buf s) (stat_out s) (start_time s)
    (timeout_ms s) (ntfn s) (signalled s).
Definition set_start (now : Z) (s : PoolSlot) : PoolSlot :=
  Slot (used s) (async_finish s) (status s) (result s) (seek_value s) (operation s) (read_buf s) (stat_out s) now
    (timeout_ms s) (ntfn s) (signalled s).
Definition set_request (op : NfsOperation) (buf out : option nat) (s : PoolSlot) : PoolSlot :=
  Slot (used s) (async_finish s) (status s) (result s) (seek_value s) op buf out (start_time s) (timeout_ms s) (ntfn s)
    (signalled s).
Definition set_status (v : Z) (s : PoolSlot) : PoolSlot :=
  Slot (used s) (async_finish s) v (result s) (seek_value s) (operation s) (read_buf s) (stat_out s) (start_time s)
    (timeout_ms s) (ntfn s) (signalled s).
Definition set_result (v : Data) (s : PoolSlot) : PoolSlot :=
  Slot (used s) (async_finish s) (status s) v (seek_value s) (operation s) (read_buf s) (stat_out s) (start_time s)
    (timeout_ms s) (ntfn s) (signalled s).
Definition set_seek (v : Z) (s : PoolSlot) : PoolSlot :=
  Slot (used s) (async_finish s) (status s) (result s) v (operation s) (read_buf s) (stat_out s) (start_time s)
    (timeout_ms s) (ntfn s) (signalled s).
Definition set_finish (b : bool) (s : PoolSlot) : PoolSlot :=
  Slot (used s) b (status s) (result s) (seek_value s) (operation s) (read_buf s) (stat_out s) (start_time s)
    (timeout_ms s) (ntfn s) (signalled s).
Definition set_signalled (b : bool) (s : PoolSlot) : PoolSlot :=
  Slot (used s) (async_finish s) (status s) (result s) (seek_value s) (operation s) (read_buf s) (stat_out s) (start_time s)
    (timeout_ms s) (ntfn s) b.

(** The pool, and the memory that the operations write to: the buffers and the status
    records of the threads. *)
Record Nfs := mkNfs {
  slots : list PoolSlot; clock_hand : nat; bufs : gmap nat (list Z); outs : gmap nat sos_stat_t; has_context : bool }.

Definition upd (i : nat) (f : PoolSlot -> PoolSlot) : M Nfs unit :=
  w ← get; s ← access (slots w !! i);
  put (mkNfs (<[i := f s]> (slots w)) (clock_hand w) (bufs w) (outs w) (has_context w)).

(** The notifications are allocated one by one, and a failure is fatal. *)
Definition nfs_init (caps : list Z) (bufs : gmap nat (list Z)) (has_context : bool) : M unit Nfs :=
  if negb has_context then throw Fatal
  else if bool_decide (Forall (fun c => c ≠ 0) caps) && bool_decide (length caps = NFS_POOL_SIZE)
  then mret (mkNfs (PoolSlot_init <$> caps) 0 bufs ∅ has_context)
  else throw Fatal.

Fixpoint acquire_loop (attempts : nat) (now : Z) : M Nfs (option nat) :=
  match attempts with
  | O => mret None
  | S attempts =>
    w ← get;
    let idx := clock_hand w in
    put (mkNfs (slots w) ((clock_hand w + 1) mod NFS_POOL_SIZE) (bufs w) (outs w) (has_context w));;
    s ← access (slots w !! idx);
    if used s then acquire_loop attempts now
    else upd idx (set_used true);; upd idx PoolSlot_reset;; upd idx (set_start now);; mret (Some idx)
  end.
Definition acquire (now : Z) : M Nfs (option nat) := acquire_loop NFS_POOL_SIZE now.
Definition release_slot (i : nat) : M Nfs unit := upd i PoolSlot_reset.

Definition checkTimeout (current_time : Z) (s : PoolSlot) : bool :=
  if negb (used s) then false
  else if async_finish s then false
  else bool_decide (current_time - start_time s > timeout_ms s).
(** It stores the status and the flag and does not signal the thread that waits. *)
Definition nfsTimeoutWatchdog (current_time : Z) : M Nfs unit :=
  iterM (fun i =>
    w ← get; s ← access (slots w !! i);
    when (checkTimeout current_time s) (upd i (set_status (- EIO));; upd i (set_finish true))) (seq 0 NFS_POOL_SIZE).

(** ** The callback *)

(** The bytes that a pointer gives access to when it is read as a buffer. *)
Definition bytes_of (data : Data) : list Z := match data with DBytes l => l | _ => [] end.

Definition copy_answer (err : Z) (data : Data) (b i : nat) : M Nfs unit :=
  w ← get;
  let buf := default [] (bufs w !! b) in
  let n := Z.to_nat err in
  if bool_decide (n ≤ length (bytes_of data))%nat && bool_decide (n ≤ length buf)%nat then
    put (mkNfs (slots w) (clock_hand w) (<[b := take n (bytes_of data) ++ drop n buf]> (bufs w)) (outs w) (has_context w));;
    upd i (set_status err)
  else throw Undefined.

(** What the answer means depends on the operation that the slot holds. *)
Definition callback_success (err : Z) (data : Data) (i : nat) (s : PoolSlot) : M Nfs unit :=
  match operation s with
  | OpOpen | OpOpenDir =>
    match data with
    | DNull => upd i (set_status (- EIO))
    | _ => upd i (set_result data);; upd i (set_status 0)
    end
  | OpRead | OpPread =>
    match data, read_buf s with
    | DNull, _ | _, None => upd i (set_status (- EIO))
    | _, Some b => copy_answer err data b i
    end
  | OpWrite => upd i (set_status err)
  | OpClose | OpUnlink => upd i (set_status 0)
  | OpStat =>
    match data, stat_out s with
    | DNull, _ | _, None => upd i (set_status (- EIO))
    | DStat st, Some o =>
      w ← get;
      put (mkNfs (slots w) (clock_hand w) (bufs w) (<[o := assignStat st]> (outs w)) (has_context w));;
      upd i (set_status 0)
    | _, _ => throw Undefined
    end
  | OpLseek =>
    match data with
    | DNull => upd i (set_status (- EIO))
    | DSeek value => upd i (set_seek value);; upd i (set_status 0)
    | _ => throw Undefined
    end
  end.

(** Up to the store of the flag, and the signal after it. *)
Definition callback_store (err : Z) (data : Data) (i : nat) : M Nfs unit :=
  w ← get; s ← access (slots w !! i);
  (if bool_decide (err < 0) then upd i (set_status err) else callback_success err data i s);;
  upd i (set_finish true).
Definition callback_signal (i : nat) : M Nfs unit :=
  w ← get; s ← access (slots w !! i);
  when (bool_decide (ntfn s ≠ 0)) (upd i (set_signalled true)).
Definition nfsGenericCallbackZig (err : Z) (data : Data) (i : nat) : M Nfs unit :=
  callback_store err data i;; callback_signal i.

(** ** The blocking operations *)

(** The buffer of a read and the record of a status call belong to the caller. *)
Inductive Request :=
| QOpen (path : Path) (flags : Z)
| QRead (h count : Z)
| QPread (h offset count : Z)
| QWrite (h : Z) (data : list Z)
| QPwrite (h offset : Z) (data : list Z)
| QLseek (h offset whence : Z)
| QClose (h : Z)
| QUnlink (path : Path)
| QStat (path : Path)
| QOpendir (path : Path).

Definition op_of (r : Request) : NfsOperation :=
  match r with
  | QOpen _ _ => OpOpen | QRead _ _ => OpRead | QPread _ _ _ => OpPread | QWrite _ _ | QPwrite _ _ _ => OpWrite
  | QLseek _ _ _ => OpLseek | QClose _ => OpClose | QUnlink _ => OpUnlink | QStat _ => OpStat | QOpendir _ => OpOpenDir
  end.
Definition buf_of (t : nat) (r : Request) : option nat :=
  match r with QRead _ _ | QPread _ _ _ => Some t | _ => None end.
Definition out_of (t : nat) (r : Request) : option nat := match r with QStat _ => Some t | _ => None end.

Definition errnoToError (errno : Z) : NfsError :=
  if bool_decide (errno = ENOENT) then NotFound
  else if bool_decide (errno = EACCES) then PermissionDenied
  else if bool_decide (errno = ENOMEM) then NfsOutOfMemory
  else if bool_decide (errno = ENETUNREACH) then NetworkUnreachable
  else OperationFailed.

(** The error for a call that libnfs did not accept, and the one for a failed answer. *)
Definition refused (r : Request) (rc : Z) : NfsError :=
  match r with
  | QPread _ _ _ | QWrite _ _ | QPwrite _ _ _ => if bool_decide (rc = - ENOMEM) then NfsOutOfMemory else NFSOperationFailed
  | _ => NFSOperationFailed
  end.
Definition failed (r : Request) (status : Z) : NfsError :=
  match r with
  | QPread _ _ _ | QWrite _ _ | QPwrite _ _ _ => if bool_decide (status = - ENOMEM) then NfsOutOfMemory else OperationFailed
  | QLseek _ _ _ | QUnlink _ | QStat _ => errnoToError (- status)
  | _ => OperationFailed
  end.

(** Up to the wait: take a slot, fill it in, and call libnfs, which returns [rc]. *)
Definition sync_begin (t : nat) (r : Request) (rc now : Z) : M Nfs (NfsError + nat) :=
  w ← get;
  if negb (has_context w) then mret (inl NoNFSContext)
  else
    o ← acquire now;
    match o with
    | None => mret (inl PoolExhausted)
    | Some i =>
      upd i (set_request (op_of r) (buf_of t r) (out_of t r));;
      if bool_decide (rc < 0) then release_slot i;; mret (inl (refused r rc)) else mret (inr i)
    end.

Inductive Value := VHandle (p : Data) | VCount (n : Z) | VOffset (n : Z) | VUnit.

(** After the wait, with the status that it returned. *)
Definition sync_result (r : Request) (s : PoolSlot) (status : Z) : NfsError + Value :=
  if bool_decide (status < 0) then inl (failed r status)
  else match r with
  | QOpen _ _ | QOpendir _ => inr (VHandle (result s))
  | QRead _ _ | QPread _ _ _ | QWrite _ _ | QPwrite _ _ _ => inr (VCount status)
  | QLseek _ _ _ => inr (VOffset (seek_value s))
  | QClose _ | QUnlink _ | QStat _ => inr VUnit
  end.
Definition sync_finish (r : Request) (i : nat) (st : option Z) : M Nfs (NfsError + Value) :=
  w ← get; s ← access (slots w !! i);
  release_slot i;; mret (sync_result r s (default (status s) st)).

(** ** Answers *)

(** An answer that fits a request. *)
Definition answers (r : Request) (err : Z) (data : Data) : Prop :=
  err < 0 \/
  match r with
  | QOpen _ _ | QOpendir _ => exists h, data = DHandle h
  | QRead _ count | QPread _ _ count => exists l, data = DBytes l /\ Z.of_nat (length l) = err /\ err ≤ count
  | QWrite _ l | QPwrite _ _ l => err ≤ Z.of_nat (length l)
  | QLseek _ _ _ => exists v, data = DSeek v
  | QClose _ | QUnlink _ => True
  | QStat _ => exists st, data = DStat st
  end.
(** The caller's buffer is as long as the count that it asks for. *)
Definition fits (w : Nfs) (t : nat) (r : Request) : Prop :=
  match r with
  | QRead _ count | QPread _ _ count => exists b, bufs w !! t = Some b /\ count ≤ Z.of_nat (length b)
  | _ => True
  end.

(** ** What the calls do to the pool *)

Definition with_slot (i : nat) (s : PoolSlot) (w : Nfs) : Nfs :=
  mkNfs (<[i := s]> (slots w)) (clock_hand w) (bufs w) (outs w) (has_context w).

Lemma upd_spec i f w s (Q : unit -> Nfs -> Prop) :
  slots w !! i = Some s -> Q tt (with_slot i (f s) w) -> wp (upd i f) Q w.
Proof. intros Hs HQ. unfold upd. wp_line. eapply wpf_access; [done|]. by wp_line. Qed.
Lemma slots_with_slot i s s0 w : slots w !! i = Some s0 -> slots (with_slot i s w) !! i = Some s.
Proof. intros H. simpl. rewrite list_lookup_insert_eq; [done|]. by eapply lookup_lt_Some. Qed.
Lemma with_slot_twice i s s' w : with_slot i s' (with_slot i s w) = with_slot i s' w.
Proof. unfold with_slot. simpl. by rewrite list_insert_insert_eq. Qed.

(** Two updates of a slot are one. *)
Lemma upd_upd_spec i f g w s (Q : unit -> Nfs -> Prop) :
  slots w !! i = Some s -> Q tt (with_slot i (g (f s)) w) -> wp (upd i f;; upd i g) Q w.
Proof.
  intros Hs HQ. apply wpf_bind. eapply upd_spec; [done|]. eapply upd_spec; [by eapply slots_with_slot|].
  by rewrite with_slot_twice.
Qed.

Definition taken (now : Z) (s : PoolSlot) : PoolSlot := set_start now (PoolSlot_reset (set_used true s)).
Definition advance_hand (w : Nfs) : Nfs :=
  mkNfs (slots w) ((clock_hand w + 1) mod NFS_POOL_SIZE) (bufs w) (outs w) (has_context w).


Lemma acquire_spec now w s (Q : option nat -> Nfs -> Prop) :
  slots w !! clock_hand w = Some s -> used s = false ->
  Q (Some (clock_hand w)) (with_slot (clock_hand w) (taken now s) (advance_hand w)) -> wp (acquire now) Q w.
Proof.
  intros Hs Hu HQ. unfold acquire, NFS_POOL_SIZE. cbn [acquire_loop]. wp_line. eapply wpf_access; [done|]. rewrite Hu.
  change (mkNfs (slots w) _ _ _ _) with (advance_hand w).
  apply wpf_bind. eapply upd_spec; [done|]. apply wpf_bind. eapply upd_spec; [by eapply slots_with_slot|].
  rewrite with_slot_twice. apply wpf_bind. eapply upd_spec; [by eapply slots_with_slot|].
  rewrite with_slot_twice. by wp_line.
Qed.

Lemma sync_begin_spec t r rc now w s (Q : NfsError + nat -> Nfs -> Prop) :
  has_context w = true -> slots w !! clock_hand w = Some s -> used s = false ->
  (let s' := set_request (op_of r) (buf_of t r) (out_of t r) (taken now s) in
   if bool_decide (rc < 0) then Q (inl (refused r rc)) (with_slot (clock_hand w) (PoolSlot_reset s') (advance_hand w))
   else Q (inr (clock_hand w)) (with_slot (clock_hand w) s' (advance_hand w))) ->
  wp (sync_begin t r rc now) Q w.
Proof.
  intros Hc Hs Hu HQ. unfold sync_begin. wp_line. rewrite Hc. cbn [negb]. wp_line.
  eapply acquire_spec; [done..|]. apply wpf_bind. eapply upd_spec; [by eapply slots_with_slot|]. rewrite with_slot_twice.
  destruct (bool_decide (rc < 0)); [|by wp_line]. wp_line. unfold release_slot.
  eapply upd_spec; [by eapply slots_with_slot|]. rewrite with_slot_twice. by wp_line.
Qed.

(** The result a caller should see for an answer, and where the rest of it goes. *)
Definition outcome_of (r : Request) (err : Z) (data : Data) : NfsError + Value :=
  if bool_decide (err < 0) then inl (failed r err)
  else match r, data with
  | (QOpen _ _ | QOpendir _), _ => inr (VHandle data)
  | (QRead _ _ | QPread _ _ _ | QWrite _ _ | QPwrite _ _ _), _ => inr (VCount err)
  | QLseek _ _ _, DSeek v => inr (VOffset v)
  | QLseek _ _ _, _ => inr (VOffset 0)
  | (QClose _ | QUnlink _ | QStat _), _ => inr VUnit
  end.
Definition delivered (r : Request) (t : nat) (err : Z) (data : Data) (w : Nfs) : Prop :=
  0 ≤ err ->
  match r, data with
  | (QRead _ _ | QPread _ _ _), DBytes l => exists b, bufs w !! t = Some b /\ take (length l) b = l
  | QStat _, DStat st => outs w !! t = Some (assignStat st)
  | _, _ => True
  end.

(** Which parts of the memory are not those of thread [t] with slot [i]. *)
Definition frame (i t : nat) (w w' : Nfs) : Prop :=
  length (slots w') = length (slots w) /\ clock_hand w' = clock_hand w /\ has_context w' = has_context w /\
  (forall j, j ≠ i -> slots w' !! j = slots w !! j) /\
  (forall u, u ≠ t -> bufs w' !! u = bufs w !! u /\ outs w' !! u = outs w !! u).

Definition same_use (s' s : PoolSlot) : Prop :=
  used s' = used s /\ ntfn s' = ntfn s /\ operation s' = operation s /\ read_buf s' = read_buf s /\ stat_out s' = stat_out s.

(** The copy of the bytes of an answer into the buffer of thread [t]. *)
Lemma copy_answer_spec err l t i w s b (Q : unit -> Nfs -> Prop) :
  slots w !! i = Some s -> bufs w !! t = Some b -> Z.of_nat (length l) ≤ Z.of_nat (length b) ->
  Z.of_nat (length l) = err -> 0 ≤ err ->
  (forall w', frame i t w w' -> bufs w' !! t = Some (l ++ drop (length l) b) ->
    slots w' !! i = Some (set_status err s) -> Q tt w') ->
  wp (copy_answer err (DBytes l) t i) Q w.
Proof.
  intros Hs Hb Hl <- _ HQ. unfold copy_answer. wp_line. rewrite Hb, Nat2Z.id. simpl. rewrite !bool_decide_true by lia.
  simpl. rewrite take_ge by lia. wp_line. eapply upd_spec; [done|]. apply (HQ _).
  - split; [simpl; apply length_insert|]. repeat (split; [done|]). simpl. split.
    + intros j Hj. by rewrite list_lookup_insert_ne.
    + intros u Hu. by rewrite lookup_insert_ne.
  - simpl. by rewrite lookup_insert_eq.
  - simpl. rewrite list_lookup_insert_eq; [done|]. by eapply lookup_lt_Some.
Qed.

(** The body of the callback stores the answer to the request of the slot. *)
Lemma callback_body_spec r t err data i w s :
  slots w !! i = Some s -> operation s = op_of r -> read_buf s = buf_of t r -> stat_out s = out_of t r ->
  fits w t r -> answers r err data ->
  wp (if bool_decide (err < 0) then upd i (set_status err) else callback_success err data i s) (fun _ w' =>
    frame i t w w' /\ fits w' t r /\ delivered r t err data w' /\
    exists s', slots w' !! i = Some s' /\ same_use s' s /\ signalled s' = signalled s /\
      sync_result r s' (status s') = outcome_of r err data) w.
Proof.
  intros Hs Hop Hb Ho Hfit Ha.
  assert (Hfr : forall s', frame i t w (with_slot i s' w)).
  { intros s'. split; [simpl; apply length_insert|]. repeat (split; [done|]). split; [|done].
    intros j Hj. simpl. by rewrite list_lookup_insert_ne. }
  case_bool_decide as Herr.
  { eapply upd_spec; [done|]. split; [apply Hfr|]. split; [done|]. split; [intros ?; lia|].
    eexists. split; [by eapply slots_with_slot|]. split; [by repeat split|]. split; [done|].
    unfold sync_result, outcome_of. simpl. by rewrite !bool_decide_true by done. }
  destruct Ha as [?|Ha]; [lia|]. unfold callback_success. rewrite Hop, Hb, Ho.
  unfold sync_result, outcome_of. rewrite (bool_decide_false (err < 0)) by lia.
  destruct r as [path flags|h count|h off count|h l|h off l|h off wh|h|path|path|path]; simpl in Ha |- *.
  1: destruct Ha as [hd ->]. 2,3: destruct Ha as (l & -> & Hl & Hc). 6: destruct Ha as [v ->]. 9: destruct Ha as [st ->].
  10: destruct Ha as [hd ->].
  1,6,10: eapply upd_upd_spec; [done|]; split; [apply Hfr|]; split; [done|]; split; [done|];
    eexists; (split; [by eapply slots_with_slot|]); by repeat split.
  3,4: eapply upd_spec; [done|]; split; [apply Hfr|]; split; [done|]; split; [done|];
    eexists; (split; [by eapply slots_with_slot|]); (split; [by repeat split|]); (split; [done|]); simpl;
    by rewrite bool_decide_false by lia.
  3,4: eapply upd_spec; [done|]; split; [apply Hfr|]; split; [done|]; split; [done|];
    eexists; (split; [by eapply slots_with_slot|]); by repeat split.
  3: { wp_line. eapply upd_spec; [done|]. split; [|split; [done|]; split; [by intros ?; simpl; rewrite lookup_insert_eq|]].
       - split; [simpl; apply length_insert|]. repeat (split; [done|]). simpl. split.
         + intros j Hj. by rewrite list_lookup_insert_ne.
         + intros u Hu. by rewrite lookup_insert_ne.
       - eexists. split; [by eapply slots_with_slot|]. by repeat split. }
  all: destruct Hfit as (b & Hbuf & Hlen); eapply copy_answer_spec; [done|done|lia|done|lia|]; intros w' Hw' Hb' Hs';
    split; [done|]; (split; [eexists; split; [done|]; rewrite length_app, length_drop; lia|]); split;
    [intros _; simpl; eexists; split; [done|]; by rewrite take_app_length
    |eexists; split; [done|]; split; [by repeat split|]; split; [done|]; simpl; by rewrite bool_decide_false by lia].
Qed.

Lemma callback_store_spec r t err data i w s :
  slots w !! i = Some s -> operation s = op_of r -> read_buf s = buf_of t r -> stat_out s = out_of t r ->
  fits w t r -> answers r err data ->
  wp (callback_store err data i) (fun _ w' =>
    frame i t w w' /\ fits w' t r /\ delivered r t err data w' /\
    exists s', slots w' !! i = Some s' /\ same_use s' s /\ async_finish s' = true /\
      sync_result r s' (status s') = outcome_of r err data) w.
Proof.
  intros Hs Hop Hb Ho Hfit Ha. unfold callback_store. wp_line. eapply wpf_access; [done|]. apply wpf_bind.
  eapply wpf_mono; [by eapply callback_body_spec|].
  intros [] w1 (Hfr & Hfit1 & Hdel & s1 & Hs1 & Huse & Hsig & Hres). eapply upd_spec; [done|].
  destruct Hfr as (Hl & Hh & Hc & Hsl & Hm).
  split; [|split; [done|]; split; [done|]].
  - split; [simpl; by rewrite length_insert|]. split; [done|]. split; [done|]. split; [|done].
    intros j Hj. simpl. rewrite list_lookup_insert_ne by done. by apply Hsl.
  - eexists. split; [by eapply slots_with_slot|]. split; [exact Huse|]. by repeat split.
Qed.

Lemma sync_finish_spec r i st w s (Q : NfsError + Value -> Nfs -> Prop) :
  slots w !! i = Some s ->
  Q (sync_result r s (default (status s) st)) (with_slot i (PoolSlot_reset s) w) -> wp (sync_finish r i st) Q w.
Proof.
  intros Hs HQ. unfold sync_finish. wp_line. eapply wpf_access; [done|]. apply wpf_bind.
  eapply upd_spec; [done|]. by wp_line.
Qed.

Lemma watchdog_idle now w :
  length (slots w) = NFS_POOL_SIZE -> Forall (fun s => used s = false) (slots w) ->
  nfsTimeoutWatchdog now w = Ok (tt, w).
Proof.
  intros Hl Hu.
  assert (H : wp (nfsTimeoutWatchdog now) (fun _ w' => w' = w) w).
  { unfold nfsTimeoutWatchdog.
    eapply wpf_mono; [apply (wpf_iter _ _ (fun l w' => w' = w /\ Forall (fun i => (i < NFS_POOL_SIZE)%nat) l))|
      by intros [] w' [-> _]]; [|intros i r w' [-> Hi]].
    - split; [done|]. apply Forall_forall. intros i Hi. apply elem_of_seq in Hi. lia.
    - apply Forall_cons in Hi as [Hi Hr]. wp_line. destruct (lookup_lt_is_Some_2 (slots w) i ltac:(lia)) as [s Hs].
      eapply wpf_access; [done|]. unfold checkTimeout.
      rewrite (proj1 (Forall_lookup _ _) Hu _ _ Hs). by cbn [negb when]. }
  apply wp_inv in H as ([] & w' & -> & ->). done.
Qed.

Lemma frame_with_slot i t s w : frame i t w (with_slot i s w).
Proof.
  split; [simpl; apply length_insert|]. repeat (split; [done|]). split; [|done].
  intros j Hj. simpl. by rewrite list_lookup_insert_ne.
Qed.

(** ** Runs *)

Definition caps0 : list Z := [21; 22; 23; 24].
Definition bufs0 : gmap nat (list Z) := {[0%nat := [0; 0; 0; 0]; 1%nat := [0; 0; 0; 0]]}.
Definition nfs0 : Nfs := mkNfs (PoolSlot_init <$> caps0) 0 bufs0 ∅ true.

(** A whole removal by thread 1, answered at once. *)
Definition quick : M Nfs unit :=
  r ← sync_begin 1 (QUnlink [97]) 0 60;
  match r with
  | inl _ => mret tt
  | inr i => nfsGenericCallbackZig 0 DNull i;; _ ← sync_finish (QUnlink [97]) i None; mret tt
  end.

(** Thread 0 waits for a slow read.  After three quick operations of thread 1 the pool
    hands the slot of thread 0 out again, since it was never marked as used.  If the
    next operation is a read, the bytes of thread 0 land in the buffer of thread 1; if
    it is a status call, they are read as a status record. *)
Lemma slot_shared_read :
  value_of ((sync_begin 0 (QRead 7 4) 0 50;; quick;; quick;; quick;; sync_begin 1 (QRead 8 4) 0 70;;
    nfsGenericCallbackZig 3 (DBytes [65; 66; 67]) 0;; w ← get; mret (bufs w !! 0%nat, bufs w !! 1%nat)) nfs0) =
  Some (Some [0; 0; 0; 0], Some [65; 66; 67; 0]).
Proof. vm_compute. reflexivity. Qed.
Lemma slot_shared_stat :
  (sync_begin 0 (QRead 7 4) 0 50;; quick;; quick;; quick;; sync_begin 1 (QStat [97]) 0 70;;
    nfsGenericCallbackZig 3 (DBytes [65; 66; 67]) 0) nfs0 = Fault Undefined.
Proof. vm_compute. reflexivity. Qed.

(** However many operations are under way, the pool never reports that it is full. *)
Lemma never_exhausted t r rc now w :
  has_context w = true -> (clock_hand w < length (slots w))%nat -> Forall (fun s => used s = false) (slots w) ->
  wp (sync_begin t r rc now) (fun a _ => a ≠ inl PoolExhausted) w.
Proof.
  intros Hc Hh Hu. destruct (lookup_lt_is_Some_2 _ _ Hh) as [sl Hs].
  eapply sync_begin_spec; [done..|by apply (proj1 (Forall_lookup _ _) Hu _ _ Hs)|].
  case_bool_decide; [|done]. unfold refused. destruct r; by try case_bool_decide.
Qed.
