(* ===== verification/NfsThreads.v ===== *)
(** * Threads that share the slots of the network file pool

    Several worker threads call the blocking operations of [sos/src/nfs_handler.zig]
    at the same time, with no lock around the pool, while the main thread runs the
    callback.  A thread goes through the code of [Nfs] one access to the shared pool
    at a time ([turn]): it reads the hand, reads it again and stores the next one,
    looks at the slot, makes each store of [acquire], [reset] and the set-up, calls
    libnfs, waits, and makes the stores of [release].  [step] interleaves the turns
    of all threads with the answers of libnfs and the signals that follow them.

    [nfsTimeoutWatchdog] has no part in this: nothing in the repository calls it. *)

From S2P Require Import Prelude Errno FileWork Nfs.

(** ** Stores to a slot *)

Inductive store :=
| SUsed (b : bool) | SFinish (b : bool) | SStatus (v : Z) | SReadBuf (o : option nat) | SStatOut (o : option nat)
| SSeek (v : Z) | SStart (now : Z) | SOperation (op : NfsOperation).

Definition apply_store (f : store) (s : PoolSlot) : PoolSlot :=
  match f with
  | SUsed b => set_used b s
  | SFinish b => set_finish b s
  | SStatus v => set_status v s
  | SReadBuf o => set_request (operation s) o (stat_out s) s
  | SStatOut o => set_request (operation s) (read_buf s) o s
  | SSeek v => set_seek v s
  | SStart now => set_start now s
  | SOperation op => set_request op (read_buf s) (stat_out s) s
  end.
Definition run_stores (l : list store) (s : PoolSlot) : PoolSlot := foldl (fun s f => apply_store f s) s l.

(** In the order of [reset], and of [acquire] with the set-up after it. *)
Definition reset_stores : list store :=
  [SUsed false; SFinish false; SStatus 0; SReadBuf None; SStatOut None; SSeek 0].
Definition set_up_stores (t : nat) (r : Request) (now : Z) : list store :=
  SUsed true :: reset_stores ++ [SStart now; SOperation (op_of r); SReadBuf (buf_of t r); SStatOut (out_of t r)].

(** ** Threads *)

(** Before a thread has a slot: it is about to load the hand, to load it again, or to
    store the hand after the one it loaded, with this many attempts left. *)
Inductive moving :=
| LoadHand (attempts : nat)
| AddHand (attempts idx : nat)
| StoreHand (attempts idx hand : nat).
(** With a slot: about to look whether it is used; with stores to make before libnfs is
    called; in the wait, in the kernel or not; with stores to make before the call
    returns [res].  [ans] is for the proofs: the answer, once the callback ran. *)
Inductive holding :=
| Probing (attempts : nat)
| Storing (l : list store)
| Waiting (blocked : bool) (ans : option (Z * Data))
| Releasing (res : NfsError + Value) (ans : option (Z * Data)) (l : list store).
(** [ser] is for the proofs: how many slots had been handed out before. *)
Inductive thread := Idle | Moving (r : Request) (m : moving) | Holding (a : holding) (r : Request) (i ser : nat).

(** [pending] are the requests libnfs has accepted and not answered, with the slot that
    it was given; [issued] counts the slots handed out; [signals] are the slots whose
    flag the callback has stored, and whose notification it has not signalled yet. *)
Record Sys := mkSys {
  nfs : Nfs; threads : list thread; pending : list (nat * nat * Request); issued : nat; signals : list nat }.

Definition set_thread (t : nat) (th : thread) : M Sys unit :=
  s ← get; put (mkSys (nfs s) (<[t := th]> (threads s)) (pending s) (issued s) (signals s)).
Definition set_slot (i : nat) (sl : PoolSlot) : M Sys unit :=
  s ← get; put (mkSys (with_slot i sl (nfs s)) (threads s) (pending s) (issued s) (signals s)).
Definition accept (i t : nat) (r : Request) : M Sys unit :=
  s ← get; put (mkSys (nfs s) (threads s) ((i, t, r) :: pending s) (issued s) (signals s)).
Definition store_hand (hand : nat) : M Sys unit :=
  s ← get;
  let w := nfs s in
  put (mkSys (mkNfs (slots w) ((hand + 1) mod NFS_POOL_SIZE) (bufs w) (outs w) (has_context w)) (threads s) (pending s)
    (S (issued s)) (signals s)).

Definition turn_moving (t : nat) (r : Request) (m : moving) : M Sys unit :=
  s ← get;
  match m with
  | LoadHand O => set_thread t Idle
  | LoadHand (S attempts) => set_thread t (Moving r (AddHand attempts (clock_hand (nfs s))))
  | AddHand attempts idx => set_thread t (Moving r (StoreHand attempts idx (clock_hand (nfs s))))
  | StoreHand attempts idx hand => store_hand hand;; set_thread t (Holding (Probing attempts) r idx (issued s))
  end.

Definition turn_holding (t : nat) (now rc : Z) (a : holding) (r : Request) (i ser : nat) : M Sys unit :=
  s ← get; sl ← access (slots (nfs s) !! i);
  let next a' := set_thread t (Holding a' r i ser) in
  match a with
  | Probing attempts =>
    if used sl then set_thread t (Moving r (LoadHand attempts)) else next (Storing (set_up_stores t r now))
  | Storing (f :: l) => set_slot i (apply_store f sl);; next (Storing l)
  | Storing [] =>
    if bool_decide (rc < 0) then next (Releasing (inl (refused r rc)) None reset_stores)
    else accept i t r;; next (Waiting false None)
  | Waiting false ans =>
    if bool_decide (ntfn sl = 0) then next (Releasing (sync_result r sl (- EIO)) ans reset_stores)
    else if async_finish sl then next (Releasing (sync_result r sl (status sl)) ans reset_stores)
    else next (Waiting true ans)
  | Waiting true ans =>
    when (signalled sl) (set_slot i (set_signalled false sl);; next (Waiting false ans))
  | Releasing res ans (f :: l) => set_slot i (apply_store f sl);; next (Releasing res ans l)
  | Releasing res ans [] => set_thread t Idle
  end.

(** The next access of thread [t]: [r] is what an idle thread asks for, [now] the time
    when a slot is set up and [rc] what libnfs returns. *)
Definition turn (t : nat) (r : Request) (now rc : Z) : M Sys unit :=
  s ← get; th ← access (threads s !! t);
  match th with
  | Idle => when (has_context (nfs s)) (set_thread t (Moving r (LoadHand NFS_POOL_SIZE)))
  | Moving r m => turn_moving t r m
  | Holding a r i ser => turn_holding t now rc a r i ser
  end.

Definition answered (th : thread) (err : Z) (data : Data) : thread :=
  match th with Holding (Waiting b _) r i ser => Holding (Waiting b (Some (err, data))) r i ser | _ => th end.

Inductive step : Sys -> Sys -> Prop :=
| step_turn s t r now rc s' :
    (threads s !! t = Some Idle -> fits (nfs s) t r) -> turn t r now rc s = Ok (tt, s') -> step s s'
| step_answer w ths p1 p2 n sg i t r err data th w' :
    ths !! t = Some th -> answers r err data -> callback_store err data i w = Ok (tt, w') ->
    step (mkSys w ths (p1 ++ (i, t, r) :: p2) n sg) (mkSys w' (<[t := answered th err data]> ths) (p1 ++ p2) n (i :: sg))
| step_signal w ths p n sg1 sg2 i w' :
    callback_signal i w = Ok (tt, w') -> step (mkSys w ths p n (sg1 ++ i :: sg2)) (mkSys w' ths p n (sg1 ++ sg2)).

(** Every request is over before four more slots are handed out. *)
Definition young (s : Sys) : Prop :=
  forall t a r i ser, threads s !! t = Some (Holding a r i ser) -> (issued s ≤ ser + NFS_POOL_SIZE)%nat.
(** No two threads have loaded the hand and not stored it yet. *)
Definition between (th : thread) : bool :=
  match th with Moving _ (AddHand _ _) | Moving _ (StoreHand _ _ _) => true | _ => false end.
Definition alone (s : Sys) : Prop :=
  forall t1 t2 th1 th2, threads s !! t1 = Some th1 -> threads s !! t2 = Some th2 -> between th1 = true -> between th2 = true ->
  t1 = t2.

(** ** The invariant *)

Definition ready (t : nat) (r : Request) (sl : PoolSlot) : Prop :=
  used sl = false /\ operation sl = op_of r /\ read_buf sl = buf_of t r /\ stat_out sl = out_of t r /\ async_finish sl = false.
Definition hold_ok (w : Nfs) (sg : list nat) (t : nat) (a : holding) (r : Request) (i : nat) (sl : PoolSlot) : Prop :=
  match a with
  | Probing _ => used sl = false
  | Storing l => ready t r (run_stores l sl)
  | Waiting _ None => ready t r sl
  | Waiting b (Some (err, data)) =>
    used sl = false /\ async_finish sl = true /\ (b = true -> signalled sl = true \/ i ∈ sg) /\
    sync_result r sl (status sl) = outcome_of r err data /\ delivered r t err data w
  | Releasing res ans l =>
    used (run_stores l sl) = false /\
    match ans with
    | None => exists rc, rc < 0 /\ res = inl (refused r rc)
    | Some (err, data) => res = outcome_of r err data /\ delivered r t err data w
    end
  end.
Definition thread_ok (w : Nfs) (n : nat) (sg : list nat) (t : nat) (th : thread) : Prop :=
  match th with
  | Idle => True
  | Moving r m =>
    fits w t r /\
    match m with
    | LoadHand _ => True
    | AddHand _ idx => idx = clock_hand w
    | StoreHand _ idx hand => idx = clock_hand w /\ hand = clock_hand w
    end
  | Holding a r i ser =>
    fits w t r /\ i = (ser mod NFS_POOL_SIZE)%nat /\ (ser < n)%nat /\ exists sl, slots w !! i = Some sl /\ hold_ok w sg t a r i sl
  end.

(** A slot that no thread holds is not marked as used. *)
Record sys_inv (s : Sys) : Prop := {
  si_length : length (slots (nfs s)) = NFS_POOL_SIZE;
  si_context : has_context (nfs s) = true;
  si_hand : clock_hand (nfs s) = (issued s mod NFS_POOL_SIZE)%nat;
  si_ntfn : Forall (fun sl => ntfn sl ≠ 0) (slots (nfs s));
  si_free : forall j sl, slots (nfs s) !! j = Some sl ->
    (forall t a r ser, threads s !! t ≠ Some (Holding a r j ser)) -> used sl = false;
  si_threads : forall t th, threads s !! t = Some th -> thread_ok (nfs s) (issued s) (signals s) t th;
  si_distinct : forall t1 t2 a1 a2 r1 r2 i1 i2 ser,
    threads s !! t1 = Some (Holding a1 r1 i1 ser) -> threads s !! t2 = Some (Holding a2 r2 i2 ser) -> t1 = t2;
  si_signals : forall i, i ∈ signals s -> (i < NFS_POOL_SIZE)%nat;
  si_nodup : NoDup (pending s);
  si_pending : forall i t r, (i, t, r) ∈ pending s <-> exists b ser, threads s !! t = Some (Holding (Waiting b None) r i ser) }.

Lemma mod4_ne a b : (a < b)%nat -> (b < a + 4)%nat -> (a mod 4 ≠ b mod 4)%nat.
Proof. intros H1 H2 H. pose proof (Nat.div_mod_eq a 4). pose proof (Nat.div_mod_eq b 4). lia. Qed.
Lemma mod4_succ a : ((a mod 4 + 1) mod 4 = S a mod 4)%nat.
Proof. replace (S a) with (a + 1)%nat by lia. by rewrite Nat.Div0.add_mod_idemp_l. Qed.

Lemma si_holding s t a r i ser :
  sys_inv s -> threads s !! t = Some (Holding a r i ser) ->
  fits (nfs s) t r /\ i = (ser mod NFS_POOL_SIZE)%nat /\ (ser < issued s)%nat /\
  exists sl, slots (nfs s) !! i = Some sl /\ ntfn sl ≠ 0 /\ hold_ok (nfs s) (signals s) t a r i sl.
Proof.
  intros Hi Ht. destruct (si_threads _ Hi _ _ Ht) as (Hf & Hs & Hn & sl & Hsl & Hh). split_and!; [done..|].
  exists sl. split_and!; [done| |done]. by apply (proj1 (Forall_lookup _ _) (si_ntfn _ Hi) _ _ Hsl).
Qed.

(** Threads do not share a slot. *)
Lemma slots_distinct s t1 t2 a1 a2 r1 r2 i1 i2 ser1 ser2 :
  sys_inv s -> young s ->
  threads s !! t1 = Some (Holding a1 r1 i1 ser1) -> threads s !! t2 = Some (Holding a2 r2 i2 ser2) -> t1 ≠ t2 -> i1 ≠ i2.
Proof.
  intros Hi Hy H1 H2 Hne. destruct (si_holding _ _ _ _ _ _ Hi H1) as (_ & -> & Hl1 & _).
  destruct (si_holding _ _ _ _ _ _ Hi H2) as (_ & -> & Hl2 & _).
  pose proof (Hy _ _ _ _ _ H1). pose proof (Hy _ _ _ _ _ H2). unfold NFS_POOL_SIZE in *.
  destruct (decide (ser1 = ser2)) as [->|]; [by destruct Hne; eapply (si_distinct _ Hi)|].
  destruct (decide (ser1 < ser2)%nat); [apply mod4_ne; lia|]. apply not_eq_sym, mod4_ne; lia.
Qed.

(** What other threads rely on is kept. *)
Lemma hold_ok_mono w w' sg sg' t a r i sl :
  bufs w' !! t = bufs w !! t -> outs w' !! t = outs w !! t -> (i ∈ sg -> i ∈ sg') ->
  hold_ok w sg t a r i sl -> hold_ok w' sg' t a r i sl.
Proof.
  intros Hb Ho Hsg. unfold hold_ok, delivered. rewrite Hb, Ho.
  destruct a as [|l|b [[err data]|]|res [[err data]|] l]; try done. intros (H1 & H2 & H3 & H4 & H5). split_and!; [done..| |done|done].
  intros Hb'. destruct (H3 Hb'); auto.
Qed.
Lemma thread_ok_frame i t w w' n sg sg' u th :
  frame i t w w' -> u ≠ t -> (forall a r j ser, th = Holding a r j ser -> j ≠ i) -> (forall j, j ∈ sg -> j ∈ sg') ->
  thread_ok w n sg u th -> thread_ok w' n sg' u th.
Proof.
  intros (_ & Hh & _ & Hs & Hm) Hu Hj Hsg. destruct (Hm u Hu) as [Hb Ho]. destruct th as [|r m|a r j ser]; simpl; [done| |].
  - unfold fits. rewrite Hb, Hh. done.
  - specialize (Hj _ _ _ _ eq_refl). unfold fits. rewrite Hb, (Hs j Hj). intros (Hf & -> & Hn & sl & Hsl & Hok). split_and!; [done..|].
    exists sl. split; [done|]. eapply hold_ok_mono; [done..|apply Hsg|done].
Qed.

Definition not_holding (th : thread) : Prop := match th with Holding _ _ _ _ => False | _ => True end.

(** A thread without a slot goes on, and does not store the hand. *)
Lemma inv_moving s t th th' :
  sys_inv s -> threads s !! t = Some th -> not_holding th -> not_holding th' ->
  thread_ok (nfs s) (issued s) (signals s) t th' ->
  sys_inv (mkSys (nfs s) (<[t := th']> (threads s)) (pending s) (issued s) (signals s)).
Proof.
  intros Hi Ht Hn Hn' Hok. assert (Hlt : (t < length (threads s))%nat) by by eapply lookup_lt_Some.
  assert (Hsame : forall u a r i ser, <[t := th']> (threads s) !! u = Some (Holding a r i ser) <->
    threads s !! u = Some (Holding a r i ser)).
  { intros u a r i ser. destruct (decide (u = t)) as [->|]; [|by rewrite list_lookup_insert_ne].
    rewrite list_lookup_insert_eq, Ht by done. split; intros [= ->]; done. }
  split; simpl; try apply Hi.
  - intros j sl Hsl Hfree. eapply (si_free _ Hi); [done|]. intros u a r ser Hu. by eapply Hfree, Hsame.
  - intros u th1 Hu. apply list_lookup_insert_Some in Hu as [(<- & <- & _)|[Hne Hu]]; [done|]. by apply Hi.
  - intros t1 t2 a1 a2 r1 r2 i1 i2 ser. rewrite !Hsame. apply (si_distinct _ Hi).
  - intros i u r. rewrite (si_pending _ Hi). split; intros (b & ser & H); exists b, ser; by apply Hsame.
Qed.

(** A step of a thread with its slot, or of the callback for it. *)
Lemma inv_holding s w' t a r i ser th' p' sg' :
  sys_inv s -> young s -> threads s !! t = Some (Holding a r i ser) -> frame i t (nfs s) w' ->
  (forall j, j ∈ signals s -> j ∈ sg') -> (forall j, j ∈ sg' -> j ∈ signals s \/ j = i) ->
  (exists sl', slots w' !! i = Some sl' /\ ntfn sl' ≠ 0 /\
    match th' with
    | Holding a' r' i' ser' => (r' = r /\ i' = i /\ ser' = ser) /\ fits w' t r /\ hold_ok w' sg' t a' r i sl'
    | Moving _ _ => False
    | Idle => used sl' = false
    end) ->
  NoDup p' ->
  (forall j u q, (j, u, q) ∈ p' <->
    if decide (u = t) then exists b, th' = Holding (Waiting b None) q j ser else (j, u, q) ∈ pending s) ->
  sys_inv (mkSys w' (<[t := th']> (threads s)) p' (issued s) sg').
Proof.
  intros Hi Hy Ht Hfr Hsg Hsg' (sl' & Hsl' & Hn' & Hth) Hnd Hp. pose proof Hfr as (Hlen & Hh & Hc & Hsl & _).
  assert (Hlt : (t < length (threads s))%nat) by by eapply lookup_lt_Some.
  assert (Hold : forall u a1 r1 i1 ser1, <[t := th']> (threads s) !! u = Some (Holding a1 r1 i1 ser1) ->
    exists a2 r2, threads s !! u = Some (Holding a2 r2 i1 ser1)).
  { intros u a1 r1 i1 ser1 Hu. apply list_lookup_insert_Some in Hu as [(<- & -> & _)|[Hne Hu]]; [|by eauto].
    destruct Hth as ((-> & -> & ->) & _). eauto. }
  split; simpl.
  - rewrite Hlen. apply Hi.
  - rewrite Hc. apply Hi.
  - rewrite Hh. apply Hi.
  - rewrite Forall_lookup. intros j s1 Hj. destruct (decide (j = i)) as [->|Hne]; [congruence|].
    rewrite Hsl in Hj by done. by apply (proj1 (Forall_lookup _ _) (si_ntfn _ Hi) j).
  - intros j s1 Hj Hfree. destruct (decide (j = i)) as [->|Hne].
    + destruct th' as [|r1 m|a1 r1 i1 ser1]; [congruence|done|]. destruct Hth as ((-> & -> & ->) & _).
      by destruct (Hfree t a1 r ser); rewrite list_lookup_insert_eq.
    + rewrite Hsl in Hj by done. eapply (si_free _ Hi); [done|]. intros u a1 r1 ser1 Hu.
      eapply Hfree. rewrite list_lookup_insert_ne; [done|]. intros ->. congruence.
  - intros u th Hu. apply list_lookup_insert_Some in Hu as [(<- & -> & _)|[Hne Hu]].
    + destruct th as [|r1 m|a1 r1 i1 ser1]; [done..|]. destruct Hth as ((-> & -> & ->) & Hf & Hok).
      destruct (si_holding _ _ _ _ _ _ Hi Ht) as (_ & -> & Hser & _). simpl. split_and!; [done..|]. eauto.
    + eapply thread_ok_frame; [done|by apply not_eq_sym| |done|by eapply si_threads].
      intros a1 r1 j ser1 ->. by eapply slots_distinct; [done|done| | |apply not_eq_sym].
  - intros t1 t2 a1 a2 r1 r2 i1 i2 ser1 H1 H2. apply Hold in H1 as (? & ? & H1). apply Hold in H2 as (? & ? & H2).
    by eapply (si_distinct _ Hi).
  - intros j Hj. apply Hsg' in Hj as [Hj|Hj]; [by apply Hi|]. subst j. destruct (si_holding _ _ _ _ _ _ Hi Ht) as (_ & -> & _). by apply Nat.mod_upper_bound.
  - done.
  - intros j u q. rewrite Hp. destruct (decide (u = t)) as [->|Hne].
    + rewrite list_lookup_insert_eq by done. split; [intros [b ->]; eauto|]. intros (b & ser1 & [= ->]).
      destruct Hth as ((_ & _ & ->) & _). eauto.
    + rewrite list_lookup_insert_ne by done. apply (si_pending _ Hi).
Qed.

(** When the pending requests stay as they are. *)
Lemma pending_kept s t a r i ser th' :
  sys_inv s -> threads s !! t = Some (Holding a r i ser) ->
  (forall b, a = Waiting b None -> exists b', th' = Holding (Waiting b' None) r i ser) ->
  (forall b q j, th' = Holding (Waiting b None) q j ser -> (exists b', a = Waiting b' None) /\ q = r /\ j = i) ->
  forall j u q, (j, u, q) ∈ pending s <->
    if decide (u = t) then exists b, th' = Holding (Waiting b None) q j ser else (j, u, q) ∈ pending s.
Proof.
  intros Hi Ht H1 H2 j u q. destruct (decide (u = t)) as [->|]; [|done]. rewrite (si_pending _ Hi). split.
  - intros (b & ser1 & Hb). rewrite Ht in Hb. injection Hb as -> -> -> ->. by eapply H1.
  - intros [b Hb]. destruct (H2 _ _ _ Hb) as ([b' ->] & -> & ->). eauto.
Qed.

(** The hand is stored: the thread has a slot that the other threads do not have. *)
Lemma inv_store_hand s t r attempts :
  sys_inv s -> alone s -> threads s !! t = Some (Moving r (StoreHand attempts (clock_hand (nfs s)) (clock_hand (nfs s)))) ->
  fits (nfs s) t r ->
  let s' := mkSys (advance_hand (nfs s)) (<[t := Holding (Probing attempts) r (clock_hand (nfs s)) (issued s)]> (threads s))
    (pending s) (S (issued s)) (signals s) in
  young s' -> sys_inv s'.
Proof.
  intros Hi Hal Ht Hf s' Hy. assert (Hlt : (t < length (threads s))%nat) by by eapply lookup_lt_Some.
  assert (Hothers : forall u a q j ser, threads s !! u = Some (Holding a q j ser) -> j ≠ clock_hand (nfs s)).
  { intros u a q j ser Hu. destruct (si_holding _ _ _ _ _ _ Hi Hu) as (_ & -> & Hser & _). rewrite (si_hand _ Hi).
    assert (Hyu : (S (issued s) ≤ ser + NFS_POOL_SIZE)%nat).
    { apply (Hy u a q (ser mod NFS_POOL_SIZE)%nat). simpl. rewrite list_lookup_insert_ne; [done|]. congruence. }
    apply mod4_ne; unfold NFS_POOL_SIZE in *; lia. }
  destruct (lookup_lt_is_Some_2 (slots (nfs s)) (clock_hand (nfs s))) as [sl Hsl].
  { rewrite (si_length _ Hi), (si_hand _ Hi). by apply Nat.mod_upper_bound. }
  split; simpl; try apply Hi.
  - rewrite (si_hand _ Hi). apply mod4_succ.
  - intros j s1 Hj Hfree. eapply (si_free _ Hi); [done|]. intros u a q ser Hu. eapply Hfree.
    rewrite list_lookup_insert_ne; [done|]. congruence.
  - intros u th Hu. apply list_lookup_insert_Some in Hu as [(<- & <- & _)|[Hne Hu]]; simpl.
    + split_and!; [done|apply Hi|lia|]. exists sl. split; [done|]. eapply (si_free _ Hi); [done|].
      intros u a q ser Hu. by apply Hothers in Hu.
    + pose proof (si_threads _ Hi _ _ Hu) as Hok. destruct th as [|q [m|m j|m j h]|a q j ser]; [done|done| | |].
      * by destruct Hne; eapply Hal.
      * by destruct Hne; eapply Hal.
      * destruct Hok as (H1 & H2 & H3 & H4). simpl. split_and!; [done|done|lia|done].
  - intros t1 t2 a1 a2 r1 r2 i1 i2 ser H1 H2.
    apply list_lookup_insert_Some in H1 as [(<- & E1 & _)|[Hn1 H1]];
      apply list_lookup_insert_Some in H2 as [(<- & E2 & _)|[Hn2 H2]]; [done| | |by eapply (si_distinct _ Hi)].
    + injection E1 as _ _ _ <-. destruct (si_holding _ _ _ _ _ _ Hi H2) as (_ & _ & ? & _). lia.
    + injection E2 as _ _ _ <-. destruct (si_holding _ _ _ _ _ _ Hi H1) as (_ & _ & ? & _). lia.
  - intros i u q. rewrite (si_pending _ Hi). destruct (decide (u = t)) as [->|]; [|by rewrite list_lookup_insert_ne].
    rewrite list_lookup_insert_eq, Ht by done. split; intros (? & ? & [=]).
Qed.

(** A notification is signalled, whoever has the slot now. *)
Lemma run_stores_signalled l b sl : run_stores l (set_signalled b sl) = set_signalled b (run_stores l sl).
Proof. revert sl. induction l as [|f l IH]; intros sl; [done|]. simpl. rewrite <- IH. by destruct f. Qed.
Lemma hold_ok_signalled w sg sg' t a r i sl :
  hold_ok w sg t a r i sl -> hold_ok w sg' t a r i (set_signalled true sl).
Proof.
  unfold hold_ok, ready. destruct a as [|l|b' [[err data]|]|res ans l]; try done; rewrite ?run_stores_signalled; try done.
  intros (H1 & H2 & H3 & H4 & H5). split_and!; try done. by left.
Qed.
Lemma inv_signal s i sg1 sg2 :
  sys_inv s -> (i < NFS_POOL_SIZE)%nat -> signals s = sg1 ++ i :: sg2 ->
  wp (callback_signal i) (fun _ w' => sys_inv (mkSys w' (threads s) (pending s) (issued s) (sg1 ++ sg2))) (nfs s).
Proof.
  intros Hi Hlt Hsg. destruct (lookup_lt_is_Some_2 (slots (nfs s)) i) as [sl Hsl]; [by rewrite (si_length _ Hi)|].
  pose proof (proj1 (Forall_lookup _ _) (si_ntfn _ Hi) _ _ Hsl) as Hn. simpl in Hn.
  unfold callback_signal. wp_line. eapply wpf_access; [done|]. rewrite bool_decide_true by done. cbn [when].
  eapply upd_spec; [done|]. split; simpl; try apply Hi.
  - rewrite length_insert. apply Hi.
  - apply Forall_insert; [apply Hi|done].
  - intros j s1 Hj Hfree. apply list_lookup_insert_Some in Hj as [(<- & <- & _)|[Hne Hj]]; [|by eapply (si_free _ Hi)].
    by apply (si_free _ Hi i sl).
  - intros t th Ht. pose proof (si_threads _ Hi _ _ Ht) as Hok. destruct th as [|r m|a r j ser]; [done..|].
    destruct Hok as (Hf & Hj & Hser & s1 & Hs1 & Hok). split_and!; [done..|]. simpl. destruct (decide (j = i)) as [->|Hne].
    + exists (set_signalled true sl). split; [rewrite list_lookup_insert_eq; [done|by eapply lookup_lt_Some]|].
      rewrite Hsl in Hs1. injection Hs1 as <-. by eapply hold_ok_signalled.
    + exists s1. split; [by rewrite list_lookup_insert_ne|]. eapply hold_ok_mono; [| | |exact Hok]; [done..|].
      rewrite Hsg. set_solver.
  - intros j Hj. apply (si_signals _ Hi). rewrite Hsg. set_solver.
Qed.

(** ** Steps *)

Lemma set_thread_spec t th s (Q : unit -> Sys -> Prop) :
  Q tt (mkSys (nfs s) (<[t := th]> (threads s)) (pending s) (issued s) (signals s)) -> wp (set_thread t th) Q s.
Proof. intros H. unfold set_thread. by wp_line. Qed.
Lemma set_slot_thread_spec i sl t th s (Q : unit -> Sys -> Prop) :
  Q tt (mkSys (with_slot i sl (nfs s)) (<[t := th]> (threads s)) (pending s) (issued s) (signals s)) ->
  wp (set_slot i sl;; set_thread t th) Q s.
Proof. intros H. unfold set_slot, set_thread. by wp_line. Qed.

Lemma frame_refl i t w : frame i t w w.
Proof. by repeat split. Qed.
Lemma apply_store_ntfn f sl : ntfn (apply_store f sl) = ntfn sl.
Proof. by destruct f. Qed.

Lemma turn_moving_inv s t r m :
  sys_inv s -> alone s -> threads s !! t = Some (Moving r m) ->
  wp (turn_moving t r m) (fun _ s' => young s' -> sys_inv s') s.
Proof.
  intros Hi Hal Ht. destruct (si_threads _ Hi _ _ Ht) as [Hf Hm]. unfold turn_moving. wp_line.
  destruct m as [[|attempts]|attempts idx|attempts idx hand].
  - apply set_thread_spec. intros _. by eapply inv_moving.
  - apply set_thread_spec. intros _. by eapply inv_moving.
  - apply set_thread_spec. intros _. by eapply inv_moving.
  - destruct Hm as [-> ->]. unfold store_hand, set_thread. wp_line. simpl. by apply inv_store_hand.
Qed.

(** Where a thread with a slot goes from the slot that it has. *)
Lemma next_inv s t a r i ser a' sl sl' :
  sys_inv s -> young s -> threads s !! t = Some (Holding a r i ser) -> slots (nfs s) !! i = Some sl ->
  ntfn sl' = ntfn sl -> hold_ok (with_slot i sl' (nfs s)) (signals s) t a' r i sl' ->
  ((exists b, a = Waiting b None) <-> exists b, a' = Waiting b None) ->
  sys_inv (mkSys (with_slot i sl' (nfs s)) (<[t := Holding a' r i ser]> (threads s)) (pending s) (issued s) (signals s)).
Proof.
  intros Hi Hy Ht Hsl Hn Hok Hw. destruct (si_holding _ _ _ _ _ _ Hi Ht) as (Hf & _ & _ & s1 & Hs1 & Hn1 & _).
  eapply inv_holding; [done|done|done|apply frame_with_slot|done|auto| |apply Hi|].
  - exists sl'. split; [by eapply slots_with_slot|]. split; [congruence|]. done.
  - eapply pending_kept; [done..| |].
    + intros b ->. destruct (proj1 Hw) as [b' ->]; eauto.
    + intros b q j [= -> <- <-]. split; [|done]. apply Hw. eauto.
Qed.
Lemma with_slot_same i sl w : slots w !! i = Some sl -> with_slot i sl w = w.
Proof. intros H. destruct w. unfold with_slot. simpl in *. by rewrite list_insert_id. Qed.

Lemma turn_holding_inv s t now rc a r i ser :
  sys_inv s -> young s -> threads s !! t = Some (Holding a r i ser) ->
  wp (turn_holding t now rc a r i ser) (fun _ s' => sys_inv s') s.
Proof.
  intros Hi Hy Ht. destruct (si_holding _ _ _ _ _ _ Hi Ht) as (Hf & Hser & _ & sl & Hsl & Hn & Hok).
  unfold turn_holding. wp_line. eapply wpf_access; [done|]. pose proof (with_slot_same _ _ _ Hsl) as Hid.
  assert (Hstay : forall a', hold_ok (nfs s) (signals s) t a' r i sl ->
    ((exists b, a = Waiting b None) <-> exists b, a' = Waiting b None) ->
    sys_inv (mkSys (nfs s) (<[t := Holding a' r i ser]> (threads s)) (pending s) (issued s) (signals s))).
  { intros a' H1 H2. rewrite <- Hid at 1. eapply next_inv; [done..|by rewrite Hid|done]. }
  destruct a as [attempts|[|f l]|[|] ans|res ans [|f l]]; simpl in Hok.
  - rewrite Hok. apply set_thread_spec, Hstay; [done|split; by intros [? ?]].
  - case_bool_decide.
    + apply set_thread_spec, Hstay; [|split; by intros [? ?]]. split; [done|eauto].
    + unfold accept. wp_line. apply set_thread_spec. simpl.
      eapply inv_holding; [done|done|done|apply frame_refl|done|auto|exists sl; by split_and!| |].
      * apply NoDup_cons. split; [|apply Hi]. intros Hp. apply (si_pending _ Hi) in Hp as (? & ? & ?). congruence.
      * intros j u q. rewrite elem_of_cons. destruct (decide (u = t)) as [->|Hne]; [|split; [by intros [[=]|]|by right]].
        split; [intros [[= -> ->]|Hp]; [eauto|]|intros [b [= <- <- <-]]; by left].
        apply (si_pending _ Hi) in Hp as (? & ? & ?). congruence.
  - apply set_slot_thread_spec. eapply next_inv; [done..|apply apply_store_ntfn|done|split; by intros [? ?]].
  - destruct (signalled sl) eqn:Hsig; cbn [when]; [|done]. apply set_slot_thread_spec.
    eapply next_inv; [done..| |]; [|split; intros [b [= <- ->]]; eauto]. destruct ans as [[err data]|]; [|done].
    destruct Hok as (H1 & H2 & _ & H4 & H5). by split_and!.
  - rewrite bool_decide_false by done. destruct ans as [[err data]|].
    + destruct Hok as (H1 & H2 & H3 & H4 & H5). rewrite H2. apply set_thread_spec, Hstay; [|split; by intros [? ?]]. by split_and!.
    + destruct Hok as (H1 & H2 & H3 & H4 & H5). rewrite H5. apply set_thread_spec, Hstay; [by split_and!|split; eauto].
  - apply set_thread_spec. eapply inv_holding; [done|done|done|apply frame_refl|done|auto| |apply Hi|].
    + exists sl. by split_and!; [| |apply Hok].
    + by eapply pending_kept.
  - apply set_slot_thread_spec. eapply next_inv; [done..|apply apply_store_ntfn| |split; by intros [? ?]].
    destruct Hok as [H1 H2]. split; [done|]. by destruct ans as [[err data]|].
Qed.

Lemma turn_inv s t r now rc :
  sys_inv s -> young s -> alone s -> (t < length (threads s))%nat -> (threads s !! t = Some Idle -> fits (nfs s) t r) ->
  wp (turn t r now rc) (fun _ s' => young s' -> sys_inv s') s.
Proof.
  intros Hi Hy Hal Hlt Hf. destruct (lookup_lt_is_Some_2 _ _ Hlt) as [th Ht]. unfold turn. wp_line. eapply wpf_access; [done|].
  destruct th as [|q m|a q i ser].
  - rewrite (si_context _ Hi). cbn [when]. apply set_thread_spec. intros _. eapply inv_moving; [done..|]. by split; [apply Hf|].
  - by apply turn_moving_inv.
  - eapply wpf_mono; [by apply turn_holding_inv|]. done.
Qed.

Lemma answer_inv w ths p1 p2 n sg i t r err data th :
  let s := mkSys w ths (p1 ++ (i, t, r) :: p2) n sg in
  sys_inv s -> young s -> ths !! t = Some th -> answers r err data ->
  wp (callback_store err data i) (fun _ w' => sys_inv (mkSys w' (<[t := answered th err data]> ths) (p1 ++ p2) n (i :: sg))) w.
Proof.
  intros s Hi Hy Ht Ha. assert (Hin : (i, t, r) ∈ pending s) by (simpl; set_solver).
  apply (si_pending _ Hi) in Hin as (b & ser & Hw). simpl in Hw. rewrite Ht in Hw. injection Hw as ->.
  destruct (si_holding _ _ _ _ _ _ Hi Ht) as (Hf & Hser & _ & sl & Hsl & Hn & Hu & Hop & Hb & Ho & _). simpl in Hsl, Hf.
  eapply wpf_mono; [by apply (callback_store_spec r t err data i w sl)|].
  intros [] w1 (Hfr & Hf1 & Hdel & s1 & Hs1 & (Eu & En & Eop & Eb & Eo) & Hfin & Hres).
  assert (Hnd : ((i, t, r) ∉ p1 ++ p2) /\ NoDup (p1 ++ p2)).
  { pose proof (si_nodup _ Hi) as Hnd. simpl in Hnd. rewrite Permutation_app_comm in Hnd. simpl in Hnd.
    apply NoDup_cons in Hnd. by rewrite (Permutation_app_comm p1 p2). }
  destruct Hnd as [Hnin Hnd]. simpl.
  apply (inv_holding s w1 t (Waiting b None) r i ser); [done..|set_solver|simpl; set_solver| |done|].
  - exists s1. split; [done|]. split; [congruence|]. split; [done|]. split; [done|]. simpl. split_and!; [congruence|done| |done|done].
    intros _. right. set_solver.
  - intros j u q. destruct (decide (u = t)) as [->|Hne]; [|simpl; set_solver]. split; [|by intros [? [=]]]. intros Hin.
    assert (Hin' : (j, t, q) ∈ pending s) by (simpl; set_solver).
    apply (si_pending _ Hi) in Hin' as (b1 & ser1 & Hq). simpl in Hq. rewrite Ht in Hq. injection Hq as <- <- <- <-. done.
Qed.

Lemma step_inv s s' : sys_inv s -> young s -> alone s -> step s s' -> young s' -> sys_inv s'.
Proof.
  intros Hi Hy Hal Hst Hy'.
  destruct Hst as [s t r now rc s' Hf Hc|w ths p1 p2 n sg i t r err data th w' Ht Ha Hc|w ths p n sg1 sg2 i w' Hc].
  - destruct (decide (t < length (threads s))%nat) as [Hlt|Hlt].
    + pose proof (turn_inv s t r now rc Hi Hy Hal Hlt Hf) as H. unfold wpf in H. rewrite Hc in H. by apply H.
    + revert Hc. unfold turn, mbind, M_bind, get, access. simpl. by rewrite lookup_ge_None_2 by lia.
  - pose proof (answer_inv _ _ _ _ _ _ _ _ _ _ _ _ Hi Hy Ht Ha) as H. unfold wpf in H. by rewrite Hc in H.
  - pose proof (inv_signal _ i sg1 sg2 Hi) as H. simpl in H.
    assert (Hlt : (i < NFS_POOL_SIZE)%nat) by (apply (si_signals _ Hi); simpl; set_solver).
    specialize (H Hlt eq_refl). unfold wpf in H. by rewrite Hc in H.
Qed.

(** ** Runs from the start *)

(** The server has initialised the pool, and [k] threads have made no call. *)
Definition started (caps : list Z) (bs : gmap nat (list Z)) (k : nat) (s : Sys) : Prop :=
  exists w, nfs_init caps bs true tt = Ok (w, tt) /\ s = mkSys w (replicate k Idle) [] 0 [].
(** Runs in which every request is over before four more slots are handed out, and in
    which no two threads are between the load and the store of the hand. *)
Definition orderly : Sys -> Sys -> Prop := rtc (fun s s' => step s s' /\ young s' /\ alone s').

Lemma started_inv caps bs k s : started caps bs k s -> sys_inv s /\ young s /\ alone s.
Proof.
  intros (w & Hw & ->). unfold nfs_init in Hw. cbn [negb] in Hw.
  destruct (bool_decide (Forall _ _)) eqn:H1; [|done]. destruct (bool_decide (length caps = _)) eqn:H2; [|done].
  apply bool_decide_eq_true in H1, H2. injection Hw as <-.
  assert (Hid : forall t th, replicate k Idle !! t = Some th -> th = Idle) by (intros t th H; by apply lookup_replicate in H as [-> _]).
  split_and!.
  2: by intros t a r i ser H; apply Hid in H.
  2: by intros t1 t2 th1 th2 H; apply Hid in H as ->.
  split; simpl.
  - by rewrite length_fmap.
  - done.
  - done.
  - apply Forall_fmap. by eapply Forall_impl.
  - intros j sl Hj _. apply list_lookup_fmap_Some in Hj as (c & -> & _). done.
  - intros t th H. by apply Hid in H as ->.
  - by intros t1 t2 a1 a2 r1 r2 i1 i2 ser H; apply Hid in H.
  - by intros i ?%elem_of_nil.
  - constructor.
  - intros i t r. split; [by intros ?%elem_of_nil|]. by intros (b & ser & H); apply Hid in H.
Qed.
Lemma orderly_inv s s' : orderly s s' -> sys_inv s /\ young s /\ alone s -> sys_inv s' /\ young s' /\ alone s'.
Proof.
  induction 1 as [|s s1 s' (Hst & Hy1 & Ha1) _ IH]; [done|]. intros (Hi & Hy & Ha). apply IH. split_and!; [by eapply step_inv|done..].
Qed.

(** What a thread with a slot may rely on. *)
Definition served (s : Sys) (t : nat) (a : holding) (r : Request) (i : nat) : Prop :=
  match a with
  | Probing _ | Storing _ => True
  | Waiting _ None => (i, t, r) ∈ pending s
  | Waiting b (Some (err, data)) =>
    exists sl, slots (nfs s) !! i = Some sl /\ async_finish sl = true /\
      (b = true -> signalled sl = true \/ i ∈ signals s) /\
      sync_result r sl (status sl) = outcome_of r err data /\ delivered r t err data (nfs s)
  | Releasing res None _ => exists rc, rc < 0 /\ res = inl (refused r rc)
  | Releasing res (Some (err, data)) _ => res = outcome_of r err data /\ delivered r t err data (nfs s)
  end.

(** C7: Worker threads run the blocking file operations one access to the shared pool
    at a time, in any order with each other and with the callback.  In runs where no
    two threads are between the load and the store of the clock hand, and every
    request is over before the pool has handed out four more slots: no access and no
    callback goes wrong, for any answer that fits the request; two threads never have
    the same slot; while the answer is out, libnfs holds the request with the slot of
    its thread; when it has come, the flag is set, and a thread that sleeps has been or
    is about to be signalled; and the call returns the outcome of the answer to its
    own request, with the bytes that were read in the buffer of the caller, or the
    status in its record, or the error for a call that libnfs refused. *)
Theorem nfs_sync_correct caps bs k s0 s :
  started caps bs k s0 -> orderly s0 s ->
  (forall t r now rc, (t < length (threads s))%nat -> (threads s !! t = Some Idle -> fits (nfs s) t r) ->
    wp (turn t r now rc) (fun _ _ => True) s) /\
  (forall i t r err data, (i, t, r) ∈ pending s -> answers r err data ->
    wp (nfsGenericCallbackZig err data i) (fun _ _ => True) (nfs s)) /\
  (forall t1 t2 a1 a2 r1 r2 i1 i2 ser1 ser2,
    threads s !! t1 = Some (Holding a1 r1 i1 ser1) -> threads s !! t2 = Some (Holding a2 r2 i2 ser2) -> t1 ≠ t2 -> i1 ≠ i2) /\
  (forall t a r i ser, threads s !! t = Some (Holding a r i ser) -> served s t a r i).
Proof.
  intros Hs Hr. destruct (orderly_inv _ _ Hr (started_inv _ _ _ _ Hs)) as (Hi & Hy & Ha). split_and!.
  - intros t r now rc Hlt Hf. eapply wpf_mono; [by apply turn_inv|done].
  - intros i t r err data Hp Hans. apply (si_pending _ Hi) in Hp as (b & ser & Ht).
    destruct (si_holding _ _ _ _ _ _ Hi Ht) as (Hf & _ & _ & sl & Hsl & Hn & _ & Hop & Hb & Ho & _).
    apply wpf_bind. eapply wpf_mono; [by eapply callback_store_spec|].
    intros [] w1 (_ & _ & _ & s1 & Hs1 & _). unfold callback_signal. wp_line. eapply wpf_access; [done|].
    destruct (bool_decide _); cbn [when]; [by eapply upd_spec|by wp_line].
  - intros *. by apply slots_distinct.
  - intros t a r i ser Ht. destruct (si_holding _ _ _ _ _ _ Hi Ht) as (_ & _ & _ & sl & Hsl & _ & Hok).
    destruct a as [|l|b [[err data]|]|res [[err data]|] l]; simpl in Hok |- *; [done|done| | |apply Hok..].
    + exists sl. split; [done|]. apply Hok.
    + apply (si_pending _ Hi). eauto.
Qed.

(** ** Runs that can be computed *)

Inductive event := ETurn (t : nat) (r : Request) (now rc : Z) | EAnswer (err : Z) (data : Data) | ESignal.

Definition fitsb (w : Nfs) (t : nat) (r : Request) : bool :=
  match r with
  | QRead _ count | QPread _ _ count =>
    match bufs w !! t with Some b => bool_decide (count ≤ Z.of_nat (length b)) | None => false end
  | _ => true
  end.
Lemma fitsb_fits w t r : fitsb w t r = true -> fits w t r.
Proof.
  destruct r; simpl; try done; destruct (bufs w !! t) as [b|]; try done; intros H%bool_decide_eq_true; by exists b.
Qed.
Definition answersb (r : Request) (err : Z) (data : Data) : bool :=
  bool_decide (err < 0) ||
  match r, data with
  | (QOpen _ _ | QOpendir _), DHandle _ | QLseek _ _ _, DSeek _ | QStat _, DStat _ => true
  | (QRead _ count | QPread _ _ count), DBytes l =>
    bool_decide (Z.of_nat (length l) = err) && bool_decide (err ≤ count)
  | (QWrite _ l | QPwrite _ _ l), _ => bool_decide (err ≤ Z.of_nat (length l))
  | (QClose _ | QUnlink _), _ => true
  | _, _ => false
  end.
Lemma answersb_answers r err data : answersb r err data = true -> answers r err data.
Proof.
  unfold answersb, answers. destruct (bool_decide (err < 0)) eqn:He; [left; by apply bool_decide_eq_true in He|]. simpl. intros H. right.
  destruct r, data; try done; eauto;
    try (apply andb_true_iff in H as [H1%bool_decide_eq_true H2%bool_decide_eq_true]; eauto);
    by apply bool_decide_eq_true in H.
Qed.

(** The oldest request is answered first, and the oldest signal sent first. *)
Definition exec (e : event) (s : Sys) : option Sys :=
  match e with
  | ETurn t r now rc =>
    match threads s !! t with
    | Some th =>
      if match th with Idle => fitsb (nfs s) t r | _ => true end
      then match turn t r now rc s with Ok (_, s') => Some s' | Fault _ => None end else None
    | None => None
    end
  | EAnswer err data =>
    match last (pending s) with
    | Some (i, t, r) =>
      match threads s !! t, callback_store err data i (nfs s) with
      | Some th, Ok (_, w') =>
        if answersb r err data
        then Some (mkSys w' (<[t := answered th err data]> (threads s)) (removelast (pending s)) (issued s) (i :: signals s))
        else None
      | _, _ => None
      end
    | None => None
    end
  | ESignal =>
    match last (signals s) with
    | Some i =>
      match callback_signal i (nfs s) with
      | Ok (_, w') => Some (mkSys w' (threads s) (pending s) (issued s) (removelast (signals s)))
      | Fault _ => None
      end
    | None => None
    end
  end.
Lemma last_removelast {A} (l : list A) x : last l = Some x -> l = removelast l ++ [x].
Proof.
  induction l as [|y [|z l] IH]; [done|by intros [= ->]|]. intros H.
  change (removelast (y :: z :: l)) with (y :: removelast (z :: l)). simpl app. f_equal. by apply IH.
Qed.
Lemma exec_step e s s' : exec e s = Some s' -> step s s'.
Proof.
  destruct e as [t r now rc|err data|]; simpl.
  - destruct (threads s !! t) as [th|] eqn:Ht; [|done]. destruct (match th with Idle => _ | _ => _ end) eqn:Hf; [|done].
    destruct (turn t r now rc s) as [[[] s1]|] eqn:Hc; [|done]. intros [= ->]. eapply step_turn; [|done].
    rewrite Ht. intros [= ->]. by apply fitsb_fits.
  - destruct (last (pending s)) as [[[i t] r]|] eqn:Hl; [|done]. destruct (threads s !! t) as [th|] eqn:Ht; [|done].
    destruct (callback_store err data i (nfs s)) as [[[] w']|] eqn:Hc; [|done]. destruct (answersb r err data) eqn:Ha; [|done].
    intros [= <-]. destruct s as [w ths p n sg]. simpl in *. rewrite (last_removelast _ _ Hl) at 1.
    rewrite <- (app_nil_r (removelast p)) at 2. eapply step_answer; [done|by apply answersb_answers|done].
  - destruct (last (signals s)) as [i|] eqn:Hl; [|done]. destruct (callback_signal i (nfs s)) as [[[] w']|] eqn:Hc; [|done].
    intros [= <-]. destruct s as [w ths p n sg]. simpl in *. rewrite (last_removelast _ _ Hl) at 1.
    rewrite <- (app_nil_r (removelast sg)) at 2. by eapply step_signal.
Qed.

Definition youngb (s : Sys) : bool :=
  forallb (fun th => match th with Holding _ _ _ ser => bool_decide (issued s ≤ ser + NFS_POOL_SIZE)%nat | _ => true end) (threads s).
Lemma youngb_young s : youngb s = true -> young s.
Proof.
  unfold youngb. rewrite forallb_forall. intros H t a r i ser Ht.
  specialize (H _ (proj1 (list_elem_of_In _ _) (list_elem_of_lookup_2 _ _ _ Ht))). by apply bool_decide_eq_true in H.
Qed.
Definition aloneb (s : Sys) : bool := bool_decide (length (filter (fun th => between th = true) (threads s)) ≤ 1)%nat.
Lemma filter_two (l : list thread) t1 t2 th1 th2 :
  l !! t1 = Some th1 -> l !! t2 = Some th2 -> between th1 = true -> between th2 = true -> (t1 < t2)%nat ->
  (2 ≤ length (filter (fun th => between th = true) l))%nat.
Proof.
  intros H1 H2 B1 B2 Hlt. rewrite <- (take_drop t2 l), filter_app, length_app.
  assert (G1 : th1 ∈ filter (fun th => between th = true) (take t2 l)).
  { apply list_elem_of_filter. split; [done|]. apply (list_elem_of_lookup_2 _ t1). by rewrite lookup_take_lt. }
  assert (G2 : th2 ∈ filter (fun th => between th = true) (drop t2 l)).
  { apply list_elem_of_filter. split; [done|]. apply (list_elem_of_lookup_2 _ 0). by rewrite lookup_drop, Nat.add_0_r. }
  destruct (filter _ (take t2 l)); [by apply elem_of_nil in G1|]. destruct (filter _ (drop t2 l)); [by apply elem_of_nil in G2|].
  simpl. lia.
Qed.
Lemma aloneb_alone s : aloneb s = true -> alone s.
Proof.
  intros H%bool_decide_eq_true t1 t2 th1 th2 H1 H2 B1 B2. destruct (decide (t1 = t2)) as [|Hne]; [done|].
  destruct (decide (t1 < t2)%nat).
  - pose proof (filter_two _ _ _ _ _ H1 H2 B1 B2 l). lia.
  - pose proof (filter_two _ _ _ _ _ H2 H1 B2 B1 ltac:(lia)). lia.
Qed.

Fixpoint run (ok : Sys -> bool) (l : list event) (s : Sys) : option Sys :=
  match l with
  | [] => Some s
  | e :: l => match exec e s with Some s1 => if ok s1 then run ok l s1 else None | None => None end
  end.
Lemma run_rtc ok (P : Sys -> Prop) l s s' :
  (forall s, ok s = true -> P s) -> run ok l s = Some s' -> rtc (fun s s' => step s s' /\ P s') s s'.
Proof.
  intros HP. revert s. induction l as [|e l IH]; intros s; simpl; [by intros [= ->]|].
  destruct (exec e s) as [s1|] eqn:He; [|done]. destruct (ok s1) eqn:Hok; [|done]. intros Hr.
  eapply rtc_l; [|by apply IH]. split; [by eapply exec_step|by apply HP].
Qed.
Lemma run_orderly l s s' : run (fun s => youngb s && aloneb s) l s = Some s' -> orderly s s'.
Proof.
  apply run_rtc. intros s1 [H1 H2]%andb_true_iff. split; [by apply youngb_young|by apply aloneb_alone].
Qed.

(** Two threads read at the same time: thread 1 starts while thread 0 sets up its slot,
    and its answer comes first. *)
Definition sys0 : Sys := mkSys nfs0 [Idle; Idle] [] 0 [].
Definition turns (k t : nat) (r : Request) (rc : Z) : list event := replicate k (ETurn t r 50 rc).
Definition two_reads : list event :=
  turns 7 0 (QRead 7 4) 0 ++ turns 17 1 (QRead 8 4) 0 ++ turns 11 0 (QRead 7 4) 0 ++ turns 1 1 (QRead 8 4) 0 ++
  [EAnswer 3 (DBytes [68; 69; 70]); EAnswer 2 (DBytes [65; 66])].
Definition both_wait : Sys := default sys0 (run (fun s => youngb s && aloneb s) two_reads sys0).

Lemma nfs_sync_correct_witness :
  threads both_wait = [Holding (Waiting true (Some (2, DBytes [65; 66]))) (QRead 7 4) 0 0;
    Holding (Waiting true (Some (3, DBytes [68; 69; 70]))) (QRead 8 4) 1 1] /\
  delivered (QRead 7 4) 0 2 (DBytes [65; 66]) (nfs both_wait) /\
  delivered (QRead 8 4) 1 3 (DBytes [68; 69; 70]) (nfs both_wait).
Proof.
  assert (Hs : started caps0 bufs0 2 sys0) by (eexists; split; vm_compute; reflexivity).
  assert (Hr : orderly sys0 both_wait) by (apply (run_orderly two_reads); vm_compute; reflexivity).
  destruct (nfs_sync_correct caps0 bufs0 2 sys0 both_wait Hs Hr) as (_ & _ & _ & H).
  split; [vm_compute; reflexivity|]. split.
  - destruct (H 0%nat (Waiting true (Some (2, DBytes [65; 66]))) (QRead 7 4) 0%nat 0%nat ltac:(vm_compute; reflexivity))
      as (sl & _ & _ & _ & _ & Hd). exact Hd.
  - destruct (H 1%nat (Waiting true (Some (3, DBytes [68; 69; 70]))) (QRead 8 4) 1%nat 1%nat ltac:(vm_compute; reflexivity))
      as (sl & _ & _ & _ & _ & Hd). exact Hd.
Defined.

(** The pool has no lock.  When both threads load the hand before either has stored it,
    they get the same slot, and the bytes that thread 0 asked for land in the buffer
    of thread 1, which returns them as its own. *)
Definition overlapping : list event :=
  turns 2 0 (QRead 7 4) 0 ++ turns 2 1 (QRead 8 4) 0 ++ turns 2 0 (QRead 7 4) 0 ++ turns 2 1 (QRead 8 4) 0 ++
  turns 13 0 (QRead 7 4) 0 ++ turns 13 1 (QRead 8 4) 0.
Definition overlapped (l : list event) : Sys := default sys0 (run youngb (overlapping ++ l) sys0).
Lemma overlap_shares_slot :
  rtc (fun s s' => step s s' /\ young s') sys0 (overlapped []) /\
  pending (overlapped []) = [(0%nat, 1%nat, QRead 8 4); (0%nat, 0%nat, QRead 7 4)] /\
  let s := overlapped (EAnswer 3 (DBytes [65; 66; 67]) :: turns 1 1 (QRead 8 4) 0) in
  bufs (nfs s) !! 0%nat = Some [0; 0; 0; 0] /\ bufs (nfs s) !! 1%nat = Some [65; 66; 67; 0] /\
  threads s !! 1%nat = Some (Holding (Releasing (inr (VCount 3)) None reset_stores) (QRead 8 4) 0 1).
Proof.
  split; [|vm_compute; by repeat split]. apply (run_rtc youngb young (overlapping ++ [])); [apply youngb_young|]. vm_compute. reflexivity.
Qed.

(** ** A thread that is not interrupted *)

(** Then its turns do what [sync_begin] does. *)
Fixpoint repeat_turn (k t : nat) (r : Request) (now rc : Z) (s : Sys) : outcome (unit * Sys) :=
  match k with
  | O => Ok (tt, s)
  | S k => match turn t r now rc s with Ok (_, s1) => repeat_turn k t r now rc s1 | Fault f => Fault f end
  end.
Lemma repeat_turn_app k l t r now rc s s1 :
  repeat_turn k t r now rc s = Ok (tt, s1) -> repeat_turn (k + l) t r now rc s = repeat_turn l t r now rc s1.
Proof.
  revert s. induction k as [|k IH]; intros s; simpl; [by intros [= ->]|]. destruct (turn t r now rc s) as [[[] s2]|]; [|done]. apply IH.
Qed.

#[local] Arguments turn : simpl never.
Lemma turn_moving_at t r q m now rc s :
  threads s !! t = Some (Moving q m) -> turn t r now rc s = turn_moving t q m s.
Proof. intros H. unfold turn, mbind, M_bind, get, access. by rewrite H. Qed.
Lemma turn_holding_at t r q a i ser now rc s :
  threads s !! t = Some (Holding a q i ser) -> turn t r now rc s = turn_holding t now rc a q i ser s.
Proof. intros H. unfold turn, mbind, M_bind, get, access. by rewrite H. Qed.

Lemma set_up_run t r now sl :
  run_stores (set_up_stores t r now) sl = set_request (op_of r) (buf_of t r) (out_of t r) (taken now sl).
Proof. reflexivity. Qed.
Lemma reset_run sl : run_stores reset_stores sl = PoolSlot_reset sl.
Proof. reflexivity. Qed.

Lemma turns_storing l t r now rc w ths p n sg i ser sl :
  ths !! t = Some (Holding (Storing l) r i ser) -> slots w !! i = Some sl ->
  repeat_turn (length l) t r now rc (mkSys w ths p n sg) =
  Ok (tt, mkSys (with_slot i (run_stores l sl) w) (<[t := Holding (Storing []) r i ser]> ths) p n sg).
Proof.
  revert w ths sl. induction l as [|f l IH]; intros w ths sl Ht Hs; cbn [length repeat_turn].
  - change (run_stores [] sl) with sl. by rewrite (with_slot_same _ _ _ Hs), list_insert_id.
  - assert (E : turn t r now rc (mkSys w ths p n sg) =
      Ok (tt, mkSys (with_slot i (apply_store f sl) w) (<[t := Holding (Storing l) r i ser]> ths) p n sg)).
    { unfold turn, mbind, M_bind, get, access. cbn [threads]. rewrite Ht. cbn.
      unfold turn_holding, mbind, M_bind, get, access. cbn [nfs]. rewrite Hs. reflexivity. }
    rewrite E, (IH _ _ (apply_store f sl)).
    + by rewrite with_slot_twice, list_insert_insert_eq.
    + rewrite list_lookup_insert_eq; [done|by eapply lookup_lt_Some].
    + by eapply slots_with_slot.
Qed.
Lemma turns_releasing l t r now rc w ths p n sg i ser sl res ans :
  ths !! t = Some (Holding (Releasing res ans l) r i ser) -> slots w !! i = Some sl ->
  repeat_turn (S (length l)) t r now rc (mkSys w ths p n sg) =
  Ok (tt, mkSys (with_slot i (run_stores l sl) w) (<[t := Idle]> ths) p n sg).
Proof.
  revert w ths sl. induction l as [|f l IH]; intros w ths sl Ht Hs; cbn [length].
  - change (run_stores [] sl) with sl. rewrite (with_slot_same _ _ _ Hs). simpl.
    unfold turn, mbind, M_bind, get, access. cbn [threads]. rewrite Ht. cbn.
    unfold turn_holding, mbind, M_bind, get, access. cbn [nfs]. by rewrite Hs.
  - assert (E : turn t r now rc (mkSys w ths p n sg) =
      Ok (tt, mkSys (with_slot i (apply_store f sl) w) (<[t := Holding (Releasing res ans l) r i ser]> ths) p n sg)).
    { unfold turn, mbind, M_bind, get, access. cbn [threads]. rewrite Ht. cbn.
      unfold turn_holding, mbind, M_bind, get, access. cbn [nfs]. rewrite Hs. reflexivity. }
    change (repeat_turn (S (S (length l))) t r now rc) with (fun s => match turn t r now rc s with
      Ok (_, s1) => repeat_turn (S (length l)) t r now rc s1 | Fault f => Fault f end). cbv beta.
    rewrite E, (IH _ _ (apply_store f sl)).
    + by rewrite with_slot_twice, list_insert_insert_eq.
    + rewrite list_lookup_insert_eq; [done|by eapply lookup_lt_Some].
    + by eapply slots_with_slot.
Qed.

Lemma turns_hand attempts t r now rc w ths p n sg :
  ths !! t = Some (Moving r (LoadHand (S attempts))) ->
  repeat_turn 3 t r now rc (mkSys w ths p n sg) =
  Ok (tt, mkSys (advance_hand w) (<[t := Holding (Probing attempts) r (clock_hand w) n]> ths) p (S n) sg).
Proof.
  intros Ht. assert (Hlt : (t < length ths)%nat) by by eapply lookup_lt_Some. cbn [repeat_turn].
  set (th1 := Moving r (AddHand attempts (clock_hand w))).
  set (th2 := Moving r (StoreHand attempts (clock_hand w) (clock_hand w))).
  rewrite (turn_moving_at t r r (LoadHand (S attempts)) now rc (mkSys w ths p n sg) Ht).
  change (turn_moving _ _ _ _) with (Ok (tt, mkSys w (<[t := th1]> ths) p n sg)). cbv beta iota.
  rewrite (turn_moving_at t r r (AddHand attempts (clock_hand w)) now rc (mkSys w (<[t := th1]> ths) p n sg))
    by by apply list_lookup_insert_eq.
  change (turn_moving _ _ _ _) with (Ok (tt, mkSys w (<[t := th2]> (<[t := th1]> ths)) p n sg)). cbv beta iota.
  rewrite list_insert_insert_eq.
  rewrite (turn_moving_at t r r (StoreHand attempts (clock_hand w) (clock_hand w)) now rc (mkSys w (<[t := th2]> ths) p n sg))
    by by apply list_lookup_insert_eq.
  change (turn_moving _ _ _ _) with (Ok (tt, mkSys (advance_hand w)
    (<[t := Holding (Probing attempts) r (clock_hand w) n]> (<[t := th2]> ths)) p (S n) sg)). cbv beta iota.
  by rewrite list_insert_insert_eq.
Qed.

Lemma turn_probe attempts t r now rc s i ser sl :
  threads s !! t = Some (Holding (Probing attempts) r i ser) -> slots (nfs s) !! i = Some sl ->
  turn t r now rc s =
  Ok (tt, mkSys (nfs s) (<[t := if used sl then Moving r (LoadHand attempts)
    else Holding (Storing (set_up_stores t r now)) r i ser]> (threads s)) (pending s) (issued s) (signals s)).
Proof.
  intros Ht Hs. erewrite turn_holding_at by done. unfold turn_holding, mbind, M_bind, get, access. rewrite Hs.
  unfold mret, M_ret. cbv beta iota. by destruct (used sl).
Qed.

(** From the load of the hand to a slot that is set up, past slots that are used. *)
Lemma turns_acquire attempts t r now rc w ths p n sg :
  ths !! t = Some (Moving r (LoadHand attempts)) ->
  match acquire_loop attempts now w with
  | Ok (Some i, w1) =>
    exists k ser sl, slots w1 !! i = Some sl /\
      repeat_turn k t r now rc (mkSys w ths p n sg) =
      Ok (tt, mkSys (with_slot i (set_request (op_of r) (buf_of t r) (out_of t r) sl) w1)
        (<[t := Holding (Storing []) r i ser]> ths) p (S ser) sg)
  | Ok (None, w1) =>
    exists k n', repeat_turn k t r now rc (mkSys w ths p n sg) = Ok (tt, mkSys w1 (<[t := Idle]> ths) p n' sg)
  | Fault _ => True
  end.
Proof.
  revert w ths n. induction attempts as [|attempts IH]; intros w ths n Ht.
  { exists 1%nat, n. simpl. unfold turn, mbind, M_bind, get, access. cbn [threads]. by rewrite Ht. }
  assert (Hlt : (t < length ths)%nat) by by eapply lookup_lt_Some.
  pose proof (turns_hand attempts t r now rc w ths p n sg Ht) as E.
  cbn [acquire_loop]. unfold mbind, M_bind, get, put, access. destruct (slots w !! clock_hand w) as [sl|] eqn:Hs; [|done].
  set (ths1 := <[t := Holding (Probing attempts) r (clock_hand w) n]> ths) in E.
  assert (Ht1 : ths1 !! t = Some (Holding (Probing attempts) r (clock_hand w) n)) by by apply list_lookup_insert_eq.
  pose proof (turn_probe attempts t r now rc (mkSys (advance_hand w) ths1 p (S n) sg) (clock_hand w) n sl Ht1 Hs) as E2. cbn in E2.
  unfold ths1 in E2. rewrite list_insert_insert_eq in E2. fold ths1 in E2.
  unfold mret, M_ret. cbv beta iota. destruct (used sl) eqn:Hu; fold (advance_hand w).
  - specialize (IH (advance_hand w) (<[t := Moving r (LoadHand attempts)]> ths) (S n)).
    rewrite list_lookup_insert_eq in IH by done. specialize (IH eq_refl).
    destruct (acquire_loop attempts now (advance_hand w)) as [[[i|] w1]|]; [| |done].
    + destruct IH as (k & ser & s1 & Hs1 & Hk). exists (3 + S k)%nat, ser, s1. split; [done|].
      rewrite (repeat_turn_app 3 (S k) _ _ _ _ _ _ E). cbn [repeat_turn]. rewrite E2, Hk. by rewrite list_insert_insert_eq.
    + destruct IH as (k & n' & Hk). exists (3 + S k)%nat, n'.
      rewrite (repeat_turn_app 3 (S k) _ _ _ _ _ _ E). cbn [repeat_turn]. rewrite E2, Hk. by rewrite list_insert_insert_eq.
  - unfold upd, mbind, M_bind, get, put, access. cbn [slots advance_hand]. rewrite Hs. cbn [slots].
    unfold mret, M_ret. cbv beta iota. cbn [slots].
    rewrite list_lookup_insert_eq by by eapply lookup_lt_Some. cbn [slots].
    rewrite list_lookup_insert_eq by (rewrite length_insert; by eapply lookup_lt_Some). cbn.
    rewrite !list_insert_insert_eq.
    exists (3 + S (length (set_up_stores t r now)))%nat, n, (taken now sl).
    split; [rewrite list_lookup_insert_eq; [done|by eapply lookup_lt_Some]|].
    rewrite (repeat_turn_app 3 _ _ _ _ _ _ _ E). cbn [repeat_turn]. rewrite E2.
    erewrite turns_storing; [|by rewrite list_lookup_insert_eq|exact Hs]. rewrite set_up_run, list_insert_insert_eq.
    unfold with_slot. cbn. by rewrite list_insert_insert_eq.
Qed.

(** The whole of [sync_begin], with its errors. *)
Lemma turns_sync_begin t r rc now w ths p n sg res w' :
  ths !! t = Some Idle -> sync_begin t r rc now w = Ok (res, w') ->
  exists k n', match res with
  | inr i => exists ser, repeat_turn k t r now rc (mkSys w ths p n sg) =
      Ok (tt, mkSys w' (<[t := Holding (Waiting false None) r i ser]> ths) ((i, t, r) :: p) n' sg)
  | inl _ => repeat_turn k t r now rc (mkSys w ths p n sg) = Ok (tt, mkSys w' (<[t := Idle]> ths) p n' sg)
  end.
Proof.
  intros Ht Hb. assert (Hlt : (t < length ths)%nat) by by eapply lookup_lt_Some.
  revert Hb. unfold sync_begin, mbind, M_bind, get. cbv beta iota. destruct (has_context w) eqn:Hc; cbn [negb].
  2: { intros [= <- <-]. exists 0%nat, n. by rewrite list_insert_id. }
  assert (E : repeat_turn 1 t r now rc (mkSys w ths p n sg) =
    Ok (tt, mkSys w (<[t := Moving r (LoadHand NFS_POOL_SIZE)]> ths) p n sg)).
  { simpl. unfold turn, mbind, M_bind, get, access. cbn [threads]. rewrite Ht. unfold mret, M_ret. cbn. by rewrite Hc. }
  pose proof (turns_acquire NFS_POOL_SIZE t r now rc w (<[t := Moving r (LoadHand NFS_POOL_SIZE)]> ths) p n sg
    (list_lookup_insert_eq _ _ _ Hlt)) as A.
  unfold acquire. destruct (acquire_loop NFS_POOL_SIZE now w) as [[[i|] w1]|]; [| |done].
  - destruct A as (k & ser & sl & Hsl & Hk). rewrite list_insert_insert_eq in Hk.
    unfold upd, mbind, M_bind, get, put, access. rewrite Hsl. unfold mret, M_ret. cbv beta iota. fold (with_slot i
      (set_request (op_of r) (buf_of t r) (out_of t r) sl) w1). set (w2 := with_slot i _ w1) in *.
    set (ths2 := <[t := Holding (Storing []) r i ser]> ths) in Hk.
    assert (Hsl2 : slots w2 !! i = Some (set_request (op_of r) (buf_of t r) (out_of t r) sl)) by by eapply slots_with_slot.
    assert (H2 : turn t r now rc (mkSys w2 ths2 p (S ser) sg) = turn_holding t now rc (Storing []) r i ser (mkSys w2 ths2 p (S ser) sg))
      by by apply turn_holding_at, list_lookup_insert_eq.
    revert H2. unfold turn_holding, mbind, M_bind, get, access. cbn [nfs]. rewrite Hsl2. unfold mret, M_ret. cbv beta iota.
    case_bool_decide as Hrc; intros H2.
    + unfold release_slot, upd, mbind, M_bind, get, put, access. rewrite Hsl2. unfold mret, M_ret. cbv beta iota. intros [= <- <-].
      exists (1 + (k + (1 + S (length reset_stores))))%nat, (S ser).
      rewrite (repeat_turn_app _ _ _ _ _ _ _ _ E), (repeat_turn_app _ _ _ _ _ _ _ _ Hk). cbn [repeat_turn Nat.add]. rewrite H2.
      unfold set_thread, mbind, M_bind, get, put. cbv beta iota. cbn [nfs threads pending issued signals].
      etransitivity; [eapply (turns_releasing reset_stores); [apply list_lookup_insert_eq; unfold ths2; by rewrite length_insert|exact Hsl2]|].
      rewrite reset_run. unfold ths2. rewrite !(list_insert_insert_eq ths). reflexivity.
    + intros [= <- <-]. exists (1 + (k + 1))%nat, (S ser), ser.
      rewrite (repeat_turn_app _ _ _ _ _ _ _ _ E), (repeat_turn_app _ _ _ _ _ _ _ _ Hk). cbn [repeat_turn]. rewrite H2.
      unfold accept, set_thread, mbind, M_bind, get, put. cbv beta iota. cbn [nfs threads pending issued signals]. unfold ths2. by rewrite (list_insert_insert_eq ths).
  - destruct A as (k & n' & Hk). rewrite list_insert_insert_eq in Hk. intros [= <- <-]. exists (1 + k)%nat, n'.
    by rewrite (repeat_turn_app _ _ _ _ _ _ _ _ E), Hk.
Qed.
