(* ===== verification/Continuation.v ===== *)
(** * Suspended system calls

    Models [sos/src/continuation.zig]: the pool of continuations, the queues they
    wait in, their resumption and cancellation, and the reply to a finished file
    operation.  A queue is a chain through the [next] fields of the pool, so a
    continuation can be in one queue only.  What reaches the kernel is a trace: the
    replies that are sent, and the reply objects that are deleted and freed.

    [ext] is the state of the rest of the server, which the resume functions and the
    copies to a client may change; it is a parameter with these functions. *)

From S2P Require Import Prelude Errno FileWork Syscall.

Definition CONT_POOL_SIZE : nat := 64.
Definition MAX_FDS : Z := 32.

(** ** Data *)

Inductive WaitOn := OnIO (fd : Z) | OnTimer (id : Z) | OnIRQ (badge : Z) | OnFileOp | OnPage (client_id page_base : Z).

(** The kinds of operation that a continuation for a file can hold. *)
Inductive WorkType := WOpen | WClose | WRead | WWrite | WStat | WOpenDir | WReadDir | WGetDirent | WPageFill | WPageOut | WLseek
| WUnlink.

(** [FileOpState]; [out_buf] and [out_len] are the parameters of a read, a status
    call or a directory entry that the reply needs.  A handle of the memory of a client is
    a number. *)
Record FileOpState := mkOp {
  op_tag : WorkType; out_buf : Z; out_len : Z; payload : list Z; payload_len : Z; stat_bytes : list Z; vm_handle : option Z;
  result : FileOpResult; completed : bool }.

(** The node of a page fault in the wait queue of its page. *)
Record Node := mkNode { n_next : option nat; n_cont : option nat }.

(** The table of operations of a read is that of the console. *)
Inductive ContinuationState :=
| SRead (fd_index : nat) (handle user_buf_addr requested dev : Z)
| STimer (timer_id : Z)
| SFileOp (op : FileOpState)
| SCustom
| SPageFault (wait_node : Node).

Inductive ContinuationResult := Complete (response : MessageInfo) | Error (errno : Z) | Retry.

(** Everything in a continuation but its link; [resume_fn] names a function. *)
Record Info := mkInfo {
  client : Z; reply : Z; reply_ut : Z; resume_fn : Z; state : ContinuationState; wait_on : WaitOn }.
Record Continuation := Cont { next : option nat; info : Info }.

Inductive Message := Raw (m : MessageInfo) | Failure (errno : Z) | Response (r : SyscallResponse).
(** [Retype] is the creation of a reply object. *)
Inductive Event := Retype (reply ut : Z) | Send (reply : Z) (m : Message) | Delete (reply : Z) | FreeSlot (reply : Z) | UtFree (ut : Z).

Definition set_wait_on (w : WaitOn) (i : Info) : Info :=
  mkInfo (client i) (reply i) (reply_ut i) (resume_fn i) (state i) w.
Definition clear_node (i : Info) : Info :=
  match state i with
  | SPageFault _ => mkInfo (client i) (reply i) (reply_ut i) (resume_fn i) (SPageFault (mkNode None None)) (wait_on i)
  | _ => i
  end.

(** [pageFaultResume] *)
Definition pageFaultResume (errno : Z) : ContinuationResult :=
  if bool_decide (errno ≠ 0) then Error errno else Complete (MessageInfo_new 0 0 0 0).

Section continuations.
Set Default Proof Using "Type".
Context {E : Type}.
(** The resume functions: what they return for a continuation and the number that
    came with the event. *)
Variable resume : Info -> Z -> E -> ContinuationResult * E.
(** The copy of bytes to an address of the client; an error is an error number. *)
Variable copyToClient : Z -> list Z -> Z -> E -> (Z + unit) * E.

(** The lists: the free list, one queue per descriptor, the timers, the file operations. *)
Inductive Q := QFree | QIo (fd : Z) | QTimer | QFiles.
#[export] Instance Q_eq_dec : EqDecision Q.
Proof. solve_decision. Defined.

Record St := mkSt {
  pool : list Continuation; free_list : option nat; in_use : Z; io_queues : list (option nat); timer_list : option nat;
  files : option nat; trace : list Event; ext : E }.

Definition head_of (q : Q) (s : St) : option nat :=
  match q with
  | QFree => free_list s
  | QIo fd => default None (io_queues s !! Z.to_nat fd)
  | QTimer => timer_list s
  | QFiles => files s
  end.
Definition set_head (q : Q) (h : option nat) (s : St) : St :=
  match q with
  | QFree => mkSt (pool s) h (in_use s) (io_queues s) (timer_list s) (files s) (trace s) (ext s)
  | QIo fd => mkSt (pool s) (free_list s) (in_use s) (<[Z.to_nat fd := h]> (io_queues s)) (timer_list s) (files s) (trace s) (ext s)
  | QTimer => mkSt (pool s) (free_list s) (in_use s) (io_queues s) h (files s) (trace s) (ext s)
  | QFiles => mkSt (pool s) (free_list s) (in_use s) (io_queues s) (timer_list s) h (trace s) (ext s)
  end.
Definition set_pool (p : list Continuation) (s : St) : St :=
  mkSt p (free_list s) (in_use s) (io_queues s) (timer_list s) (files s) (trace s) (ext s).
Definition set_in_use (n : Z) (s : St) : St :=
  mkSt (pool s) (free_list s) n (io_queues s) (timer_list s) (files s) (trace s) (ext s).

(** Access to the fields of a continuation. *)
Definition cont_at (i : nat) : M St Continuation := s ← get; access (pool s !! i).
Definition set_next (i : nat) (n : option nat) : M St unit :=
  c ← cont_at i; modify (fun s => set_pool (<[i := Cont n (info c)]> (pool s)) s).
Definition set_info (i : nat) (f : Info -> Info) : M St unit :=
  c ← cont_at i; modify (fun s => set_pool (<[i := Cont (next c) (f (info c))]> (pool s)) s).
Definition emit (e : Event) : M St unit :=
  modify (fun s => mkSt (pool s) (free_list s) (in_use s) (io_queues s) (timer_list s) (files s) (trace s ++ [e]) (ext s)).
Definition outside {A} (f : E -> A * E) : M St A :=
  s ← get;
  let '(a, e) := f (ext s) in
  put (mkSt (pool s) (free_list s) (in_use s) (io_queues s) (timer_list s) (files s) (trace s) e);; mret a.

(** ** The pool *)

Definition bootstrap_step (i : nat) : M St unit :=
  s ← get; set_next i (free_list s);; modify (set_head QFree (Some i)).
Definition bootstrap : M St unit :=
  modify (set_in_use 0);; modify (set_head QFree None);; iterM bootstrap_step (rev (seq 0 CONT_POOL_SIZE)).

Definition alloc : M St (option nat) :=
  s ← get;
  match free_list s with
  | None => mret None
  | Some i =>
    c ← cont_at i;
    modify (set_head QFree (next c));; modify (fun s => set_in_use (in_use s + 1) s);;
    set_next i None;; mret (Some i)
  end.
Definition free (i : nat) : M St unit :=
  s ← get; set_next i (free_list s);; modify (set_head QFree (Some i));; modify (fun s => set_in_use (in_use s - 1) s).

(** ** Replies *)

Definition cleanup (i : nat) : M St unit :=
  c ← cont_at i;
  emit (Delete (reply (info c)));; emit (FreeSlot (reply (info c)));; emit (UtFree (reply_ut (info c)));;
  set_info i clear_node.
Definition sendReply (i : nat) (m : Message) : M St unit := c ← cont_at i; emit (Send (reply (info c)) m);; cleanup i.
Definition sendError (i : nat) (errno : Z) : M St unit := c ← cont_at i; emit (Send (reply (info c)) (Failure errno));; cleanup i.

(** ** Waiting and resumption *)

(** Put a continuation at the head of a queue. *)
Definition push (q : Q) (i : nat) : M St unit :=
  s ← get; set_next i (head_of q s);; modify (set_head q (Some i)).
(** Take [i] out of a queue: [prev] is the continuation before it. *)
Definition unlink (q : Q) (prev next_ : option nat) : M St unit :=
  match prev with Some p => set_next p next_ | None => modify (set_head q next_) end.

Definition waitIO (i : nat) (fd : Z) : M St unit :=
  if bool_decide (fd < 0) then throw Undefined
  else if bool_decide (MAX_FDS ≤ fd) then throw Fatal
  else push (QIo fd) i;; set_info i (set_wait_on (OnIO fd)).
Definition waitTimer (i : nat) (timer_id : Z) : M St unit :=
  push QTimer i;; set_info i (set_wait_on (OnTimer timer_id)).

Definition fail_free (i : nat) (errno : Z) : M St unit := sendError i errno;; free i.

Definition resumeContinuation (i : nat) (event : Z) : M St unit :=
  c ← cont_at i;
  r ← outside (resume (info c) event);
  match r with
  | Complete response => sendReply i (Raw response);; free i
  | Error errno => fail_free i errno
  | Retry =>
    c ← cont_at i;
    match wait_on (info c) with
    | OnIO fd => waitIO i fd
    | OnTimer id => waitTimer i id
    | OnIRQ _ | OnFileOp => fail_free i ENOSYS
    | OnPage _ _ => fail_free i EIO
    end
  end.

Fixpoint resume_loop (fuel : nat) (cursor : option nat) (event : Z) : M St unit :=
  match cursor, fuel with
  | None, _ => mret tt
  | Some _, O => throw OutOfFuel
  | Some i, S fuel => c ← cont_at i; resumeContinuation i event;; resume_loop fuel (next c) event
  end.
Definition resumeIO (fd event : Z) : M St unit :=
  if bool_decide (fd < 0) then throw Undefined
  else if bool_decide (MAX_FDS ≤ fd) then mret tt
  else
    s ← get;
    let head := head_of (QIo fd) s in
    modify (set_head (QIo fd) None);; resume_loop CONT_POOL_SIZE head event.

Definition waits_for_timer (timer_id : Z) (i : Info) : bool :=
  match wait_on i with OnTimer id => bool_decide (id = timer_id) | _ => false end.
Fixpoint resumeTimer_loop (fuel : nat) (prev cursor : option nat) (timer_id event : Z) : M St unit :=
  match cursor, fuel with
  | None, _ => mret tt
  | Some _, O => throw OutOfFuel
  | Some i, S fuel =>
    c ← cont_at i;
    if waits_for_timer timer_id (info c) then unlink QTimer prev (next c);; resumeContinuation i event
    else resumeTimer_loop fuel (Some i) (next c) timer_id event
  end.
Definition resumeTimer (timer_id event : Z) : M St unit :=
  s ← get; resumeTimer_loop CONT_POOL_SIZE None (timer_list s) timer_id event.

(** The loop of the three cancellations. *)
Fixpoint cancel_loop (fuel : nat) (q : Q) (prev cursor : option nat) (who : Z) : M St unit :=
  match cursor, fuel with
  | None, _ => mret tt
  | Some _, O => throw OutOfFuel
  | Some i, S fuel =>
    c ← cont_at i;
    if bool_decide (client (info c) = who) then
      unlink q prev (next c);; (cleanup i;; free i);; cancel_loop fuel q prev (next c) who
    else cancel_loop fuel q (Some i) (next c) who
  end.
Definition cancel_queue (who : Z) (q : Q) : M St unit :=
  s ← get; cancel_loop CONT_POOL_SIZE q None (head_of q s) who.
Definition io_list : list Q := (fun n => QIo (Z.of_nat n)) <$> seq 0 (Z.to_nat MAX_FDS).
(** [WaitQueues.cancelClient], then [FileOpQueue.cancelClient]. *)
Definition continuation_cancel_client (who : Z) : M St unit :=
  iterM (cancel_queue who) io_list;; cancel_queue who QTimer;; cancel_queue who QFiles.

(** ** File operations *)

Definition FileOpQueue_enqueue (i : nat) : M St unit := push QFiles i;; set_info i (set_wait_on OnFileOp).
Fixpoint remove_loop (fuel : nat) (prev cursor : option nat) (i : nat) : M St unit :=
  match cursor, fuel with
  | None, _ => mret tt
  | Some _, O => throw OutOfFuel
  | Some current, S fuel =>
    c ← cont_at current;
    if bool_decide (current = i) then unlink QFiles prev (next c);; set_next current None
    else remove_loop fuel (Some current) (next c) i
  end.
Definition FileOpQueue_remove (i : nat) : M St unit := s ← get; remove_loop CONT_POOL_SIZE None (files s) i.

Definition isCompleted (i : Info) : bool := match state i with SFileOp op => completed op | _ => false end.
Fixpoint poll_loop (fuel : nat) (prev cursor : option nat) : M St (option nat) :=
  match cursor, fuel with
  | None, _ => mret None
  | Some _, O => throw OutOfFuel
  | Some i, S fuel =>
    c ← cont_at i;
    if isCompleted (info c) then (unlink QFiles prev (next c);; set_next i None);; mret (Some i)
    else poll_loop fuel (Some i) (next c)
  end.
Definition pollCompleted : M St (option nat) := s ← get; poll_loop CONT_POOL_SIZE None (files s).

(** [std.math.cast(c_int, n)] of an unsigned value. *)
Definition cast_c_int (n : Z) : option Z := if bool_decide (n ≤ 2 ^ 31 - 1) then Some n else None.

(** The response to a finished operation, or the error that is reported instead. *)
Definition bytes_or_errno (r : FileOpResult) : Z + Z :=
  match r with Bytes n => inr n | Errno e => inl e | Fd _ | Offset _ => inl EIO | Status v => inl v end.
Definition status_or_errno (r : FileOpResult) : Z + Z := match r with Status v => inr v | Errno e => inl e | _ => inl EIO end.
Definition counted (n : Z) (k : Z -> SyscallResponse) : Z + SyscallResponse :=
  match cast_c_int n with Some v => inr (k v) | None => inl EIO end.
Definition copied (h : Z) (l : list Z) (n va : Z) (k : Z + SyscallResponse) : M St (Z + SyscallResponse) :=
  if bool_decide (n ≤ Z.of_nat (length l)) then
    r ← outside (copyToClient h (take (Z.to_nat n) l) va);
    mret (match r with inl e => inl e | inr _ => k end)
  else throw OutOfBounds.

Definition file_op_response (op : FileOpState) : M St (Z + SyscallResponse) :=
  match op_tag op with
  | WOpen =>
    mret match result op with
    | Fd fd => match cast_c_int (Z.of_nat fd) with Some v => inr (ROpen v) | None => inl EMFILE end
    | Errno e => inl e | Bytes _ | Offset _ => inl EIO | Status v => inl v
    end
  | WRead =>
    match bytes_or_errno (result op) with
    | inl e => mret (inl e)
    | inr n =>
      match vm_handle op with
      | None => mret (inl EFAULT)
      | Some h =>
        if bool_decide (0 < n) then
          if bool_decide (payload_len op = n) then copied h (payload op) n (out_buf op) (counted n RRead)
          else if bool_decide (payload_len op = 0) then mret (counted n RRead)
          else mret (inl EIO)
        else mret (counted n RRead)
      end
    end
  | WWrite => mret match bytes_or_errno (result op) with inl e => inl e | inr n => counted n RWrite end
  | WClose => mret match status_or_errno (result op) with inl e => inl e | inr v => inr (RClose v) end
  | WStat =>
    match status_or_errno (result op) with
    | inl e => mret (inl e)
    | inr v =>
      match vm_handle op with
      | None => mret (inl EFAULT)
      | Some h =>
        if bool_decide (out_len op < stat_size) then mret (inl ENOMEM)
        else copied h (stat_bytes op) stat_size (out_buf op) (inr (RStat v))
      end
    end
  | WGetDirent =>
    match vm_handle op with
    | None => mret (inl EFAULT)
    | Some h =>
      let to_copy := Z.min (payload_len op) (out_len op) in
      let k := match result op with Bytes n => counted n RGetDirent | Errno e => inl e | _ => inl EIO end in
      if bool_decide (0 < to_copy) then copied h (payload op) to_copy (out_buf op) k else mret k
    end
  | WLseek => mret match result op with Offset v => inr (RLseek v) | Errno e => inl e | _ => inl EIO end
  | WUnlink => mret match status_or_errno (result op) with inl e => inl e | inr v => inr (RUnlink v) end
  | WOpenDir | WReadDir | WPageFill | WPageOut => mret (inl ENOSYS)
  end.

Definition processFileOpCompletion (i : nat) : M St bool :=
  c ← cont_at i;
  match state (info c) with
  | SFileOp op =>
    r ← file_op_response op;
    (match r with
     | inl errno => fail_free i errno
     | inr response => sendReply i (Response response);; free i
     end);;
    mret true
  | _ => mret false
  end.

(** The loop of [checkCompletedFileOps] in [main.zig]: reply to all the finished operations. *)
Fixpoint drain_file_ops (fuel : nat) : M St unit :=
  match fuel with
  | O => throw OutOfFuel
  | S fuel =>
    o ← pollCompleted;
    match o with
    | None => mret tt
    | Some i => b ← processFileOpCompletion i; when (negb b) (free i);; drain_file_ops fuel
    end
  end.

(** ** Lists in place of links *)

Fixpoint chain (p : list Continuation) (h : option nat) (l : list nat) : Prop :=
  match l with
  | [] => h = None
  | i :: l => h = Some i /\ exists c, p !! i = Some c /\ chain p (next c) l
  end.

Lemma chain_update p h l i c : i ∉ l -> chain p h l -> chain (<[i := c]> p) h l.
Proof.
  revert h. induction l as [|j l IH]; intros h Hi; [done|]. apply not_elem_of_cons in Hi as [Hne Hi]. simpl.
  intros [-> (c' & Hc & Hl)]. split; [done|]. exists c'. rewrite list_lookup_insert_ne by done. eauto.
Qed.
Lemma chain_same_next p h l i c c0 : p !! i = Some c0 -> next c = next c0 -> chain p h l -> chain (<[i := c]> p) h l.
Proof.
  intros Hi Hn. revert h. induction l as [|j l IH]; intros h; [done|]. simpl. intros [-> (c' & Hc & Hl)]. split; [done|].
  destruct (decide (i = j)) as [<-|Hne].
  - rewrite Hi in Hc. injection Hc as <-. exists c. rewrite list_lookup_insert_eq by by eapply lookup_lt_Some.
    rewrite Hn. eauto.
  - exists c'. rewrite list_lookup_insert_ne by done. eauto.
Qed.
Lemma chain_at p h k c r : chain p h (k ++ c :: r) -> exists cc, p !! c = Some cc /\ chain p (next cc) r.
Proof. revert h. induction k as [|j k IH]; intros h; simpl; [intros [_ H]; done|]. intros [_ (c' & _ & H)]. eauto. Qed.
Lemma chain_unlink p h k x c r cx cc :
  NoDup (k ++ x :: c :: r) -> chain p h (k ++ x :: c :: r) -> p !! x = Some cx -> p !! c = Some cc ->
  chain (<[x := Cont (next cc) (info cx)]> p) h (k ++ x :: r).
Proof.
  intros Hnd Hch Hx Hc. revert h Hch. induction k as [|j k IH]; intros h; simpl.
  - intros [-> (c1 & Hc1 & _ & c2 & Hc2 & Hr)]. split; [done|]. simplify_eq.
    eexists. rewrite list_lookup_insert_eq by by eapply lookup_lt_Some. split; [done|]. simpl.
    apply NoDup_cons in Hnd as [Hn _]. apply chain_update; [set_solver|done].
  - intros [-> (c1 & Hc1 & Hr)]. simpl in Hnd. apply NoDup_cons in Hnd as [Hn Hnd]. split; [done|]. exists c1.
    rewrite list_lookup_insert_ne by set_solver. eauto.
Qed.
Lemma chain_head p h l : chain p h l -> h = head l.
Proof. destruct l; [done|by intros [-> _]]. Qed.

Definition valid (q : Q) : Prop := match q with QIo fd => 0 ≤ fd < MAX_FDS | _ => True end.

(** The state with lists for the links. *)
Record Abs := mkAbs { lists : Q -> list nat; infos : list Info; a_trace : list Event; a_ext : E }.
Definition set_list (q : Q) (l : list nat) (a : Abs) : Abs :=
  mkAbs (fun q' => if decide (q' = q) then l else lists a q') (infos a) (a_trace a) (a_ext a).
Definition alter_info (i : nat) (f : Info -> Info) (a : Abs) : Abs := mkAbs (lists a) (alter f i (infos a)) (a_trace a) (a_ext a).
Definition add_events (l : list Event) (a : Abs) : Abs := mkAbs (lists a) (infos a) (a_trace a ++ l) (a_ext a).
Definition set_ext (e : E) (a : Abs) : Abs := mkAbs (lists a) (infos a) (a_trace a) e.

Definition loose (a : Abs) (i : nat) : Prop := (i < CONT_POOL_SIZE)%nat /\ forall q, valid q -> i ∉ lists a q.

Record links (s : St) (a : Abs) : Prop := {
  rp_len : length (pool s) = CONT_POOL_SIZE;
  rp_io : length (io_queues s) = Z.to_nat MAX_FDS;
  rp_infos : infos a = info <$> pool s;
  rp_trace : a_trace a = trace s;
  rp_ext : a_ext a = ext s;
  rp_chain : forall q, valid q -> chain (pool s) (head_of q s) (lists a q);
  rp_nodup : forall q, valid q -> NoDup (lists a q);
  rp_disj : forall q1 q2 i, valid q1 -> valid q2 -> i ∈ lists a q1 -> i ∈ lists a q2 -> q1 = q2;
  rp_wait : forall fd i w, valid (QIo fd) -> i ∈ lists a (QIo fd) -> infos a !! i = Some w -> wait_on w = OnIO fd }.
Definition counted_ok (s : St) (a : Abs) : Prop := in_use s = Z.of_nat CONT_POOL_SIZE - Z.of_nat (length (lists a QFree)).
Definition rep (s : St) (a : Abs) : Prop := links s a /\ counted_ok s a.

Lemma lists_set q l a : lists (set_list q l a) q = l.
Proof. simpl. by rewrite decide_True. Qed.
Lemma lists_set_ne q q' l a : q' ≠ q -> lists (set_list q l a) q' = lists a q'.
Proof. intros. simpl. by rewrite decide_False. Qed.

Lemma head_set q h s : length (io_queues s) = Z.to_nat MAX_FDS -> valid q -> head_of q (set_head q h s) = h.
Proof. intros Hl Hv. destruct q as [|fd| |]; [done| |done|done]. simpl in *. rewrite list_lookup_insert_eq; [done|]. unfold MAX_FDS in *. lia. Qed.
Lemma head_set_ne q q' h s : valid q -> valid q' -> q' ≠ q -> head_of q' (set_head q h s) = head_of q' s.
Proof.
  intros Hv Hv' Hne. destruct q as [|fd| |], q' as [|fd'| |]; try done. simpl in *. rewrite list_lookup_insert_ne; [done|].
  intros Heq. apply Hne. f_equal. lia.
Qed.
Lemma set_head_pool q h s : pool (set_head q h s) = pool s.
Proof. by destruct q. Qed.
Lemma set_head_rest q h s :
  in_use (set_head q h s) = in_use s /\ trace (set_head q h s) = trace s /\ ext (set_head q h s) = ext s /\
  length (io_queues (set_head q h s)) = length (io_queues s).
Proof. destruct q; simpl; rewrite ?length_insert; done. Qed.
Lemma head_of_pool q p s : head_of q (set_pool p s) = head_of q s.
Proof. by destruct q. Qed.
Lemma loose_lookup s a i : links s a -> loose a i -> exists c, pool s !! i = Some c /\ infos a !! i = Some (info c).
Proof.
  intros Hl [Hi _]. destruct (lookup_lt_is_Some_2 (pool s) i) as [c Hc]; [by rewrite (rp_len _ _ Hl)|].
  exists c. split; [done|]. by rewrite (rp_infos _ _ Hl), list_lookup_fmap, Hc.
Qed.

(** *** Steps on the links *)

Lemma wp_cont_at i c (Q : Continuation -> St -> Prop) s : pool s !! i = Some c -> Q c s -> wp (cont_at i) Q s.
Proof. intros Hc HQ. unfold cont_at. wp_line. by eapply wpf_access. Qed.
Lemma wp_set_next i n c (Q : unit -> St -> Prop) s :
  pool s !! i = Some c -> Q tt (set_pool (<[i := Cont n (info c)]> (pool s)) s) -> wp (set_next i n) Q s.
Proof. intros Hc HQ. unfold set_next. apply wpf_bind. eapply wp_cont_at; [done|]. by wp_line. Qed.

(** A continuation that is in no list may change its link. *)
Lemma links_set_next s a i c n : links s a -> loose a i -> pool s !! i = Some c -> links (set_pool (<[i := Cont n (info c)]> (pool s)) s) a.
Proof.
  intros [H1 H2 H3 H4 H5 H6 H7 H8 H9] Hi Hc. split; simpl; [by rewrite length_insert|done| |done|done| |done|done|done].
  - rewrite H3, list_fmap_insert. simpl. rewrite list_insert_id; [done|]. by rewrite list_lookup_fmap, Hc.
  - intros q Hq. rewrite head_of_pool. apply chain_update; [by apply Hi|]. by apply H6.
Qed.
Lemma links_set_info s a i c f :
  links s a -> pool s !! i = Some c -> wait_on (f (info c)) = wait_on (info c) \/ loose a i ->
  links (set_pool (<[i := Cont (next c) (f (info c))]> (pool s)) s) (alter_info i f a).
Proof.
  intros [H1 H2 H3 H4 H5 H6 H7 H8 H9] Hc Hw. split; simpl; [by rewrite length_insert|done| |done|done| |done|done| ].
  - rewrite H3, list_fmap_insert. simpl. apply list_eq. intros j. destruct (decide (i = j)) as [<-|Hne].
    + rewrite list_lookup_alter_eq, list_lookup_insert_eq, list_lookup_fmap, Hc; [done|].
      rewrite length_fmap. by eapply lookup_lt_Some.
    + by rewrite list_lookup_alter_ne, list_lookup_insert_ne by done.
  - intros q Hq. rewrite head_of_pool. eapply chain_same_next; [done..|]. by apply H6.
  - intros fd j w Hq Hj Hlook. destruct (decide (i = j)) as [<-|Hne].
    + destruct Hw as [Hw|Hw]; [|by destruct (proj2 Hw (QIo fd) Hq)]. rewrite list_lookup_alter_eq in Hlook.
      rewrite H3, list_lookup_fmap, Hc in Hlook. injection Hlook as <-. rewrite Hw. eapply H9; [done..|].
      by rewrite H3, list_lookup_fmap, Hc.
    + rewrite list_lookup_alter_ne in Hlook by done. by eapply H9.
Qed.
Lemma wp_set_info s a i f (Q : unit -> St -> Prop) :
  links s a -> loose a i -> (forall s', links s' (alter_info i f a) -> in_use s' = in_use s -> Q tt s') -> wp (set_info i f) Q s.
Proof.
  intros Hl Hi HQ. destruct (loose_lookup _ _ _ Hl Hi) as (c & Hc & _). unfold set_info. apply wpf_bind.
  eapply wp_cont_at; [done|]. wp_line. apply HQ; [|done]. apply links_set_info; [done..|by right].
Qed.

(** A continuation in no list becomes the first of one. *)
Lemma links_push s a q i c :
  links s a -> loose a i -> valid q -> pool s !! i = Some c -> (forall fd, q = QIo fd -> wait_on (info c) = OnIO fd) ->
  links (set_head q (Some i) (set_pool (<[i := Cont (head_of q s) (info c)]> (pool s)) s)) (set_list q (i :: lists a q) a).
Proof.
  intros Hl Hi Hv Hc Hw. pose proof (links_set_next _ _ _ _ (head_of q s) Hl Hi Hc) as [H1 H2 H3 H4 H5 H6 H7 H8 H9].
  set (s1 := set_pool _ s) in *. destruct (set_head_rest q (Some i) s1) as (_ & R2 & R3 & R4). split.
  - by rewrite set_head_pool.
  - by rewrite R4.
  - by rewrite set_head_pool.
  - by rewrite R2.
  - by rewrite R3.
  - intros q' Hq'. rewrite set_head_pool. destruct (decide (q' = q)) as [->|Hne].
    + rewrite head_set, lists_set by done. split; [done|]. eexists. split; [simpl; rewrite list_lookup_insert_eq; [done|by eapply lookup_lt_Some]|].
      simpl. specialize (H6 q Hv). unfold s1 in H6. rewrite head_of_pool in H6. done.
    + rewrite head_set_ne, lists_set_ne by done. by apply H6.
  - intros q' Hq'. destruct (decide (q' = q)) as [->|Hne]; [|rewrite lists_set_ne by done; by apply H7].
    rewrite lists_set. apply NoDup_cons. split; [by apply Hi|by apply H7].
  - assert (Hin : forall q', valid q' -> forall j, j ∈ lists (set_list q (i :: lists a q) a) q' -> j ∈ lists a q' \/ (j = i /\ q' = q)).
    { intros q' Hq' j. destruct (decide (q' = q)) as [->|Hne]; [rewrite lists_set; set_solver|]. rewrite lists_set_ne by done. by left. }
    intros q1 q2 j Hq1 Hq2 Hj1 Hj2.
    apply Hin in Hj1 as [Hj1|[-> ->]]; [|apply Hin in Hj2 as [Hj2|[_ ->]]; [by destruct (proj2 Hi _ Hq2)|done|done]|done].
    apply Hin in Hj2 as [Hj2|[-> ->]]; [by eapply H8|by destruct (proj2 Hi _ Hq1)|done].
  - intros fd j w Hq Hj Hlook. simpl in Hlook. destruct (decide (QIo fd = q)) as [<-|Hne].
    + rewrite lists_set in Hj. apply elem_of_cons in Hj as [->|Hj]; [|by eapply H9].
      rewrite H3 in Hlook. simpl in Hlook. rewrite list_fmap_insert, list_lookup_insert_eq in Hlook.
      * injection Hlook as <-. simpl. by apply Hw.
      * rewrite length_fmap. by eapply lookup_lt_Some.
    + rewrite lists_set_ne in Hj by done. by eapply H9.
Qed.
Lemma wp_push s a q i (Q : unit -> St -> Prop) :
  links s a -> loose a i -> valid q -> (forall fd w, q = QIo fd -> infos a !! i = Some w -> wait_on w = OnIO fd) ->
  (forall s', links s' (set_list q (i :: lists a q) a) -> in_use s' = in_use s -> Q tt s') -> wp (push q i) Q s.
Proof.
  intros Hl Hi Hv Hw HQ. destruct (loose_lookup _ _ _ Hl Hi) as (c & Hc & Hinf). unfold push. wp_line.
  eapply wp_set_next; [done|]. wp_line. apply HQ.
  - apply links_push; [done..|]. intros fd ->. by eapply Hw.
  - by rewrite (proj1 (set_head_rest q _ _)).
Qed.
(** The same when what it waits for is stored afterwards. *)
Lemma wp_wait s a q i f (Q : unit -> St -> Prop) :
  links s a -> loose a i -> valid q -> (forall fd w, q = QIo fd -> wait_on (f w) = OnIO fd) ->
  (forall s', links s' (set_list q (i :: lists a q) (alter_info i f a)) -> in_use s' = in_use s -> Q tt s') ->
  wp (push q i;; set_info i f) Q s.
Proof.
  intros Hl Hi Hv Hw HQ. destruct (loose_lookup _ _ _ Hl Hi) as (c & Hc & _).
  assert (Hlt : (i < length (pool s))%nat) by by eapply lookup_lt_Some.
  unfold push. wp_line. eapply wp_set_next; [done|]. wp_line. unfold set_info. apply wpf_bind.
  eapply (wp_cont_at _ (Cont (head_of q s) (info c))); [rewrite set_head_pool; simpl; by rewrite list_lookup_insert_eq|].
  wp_line. apply HQ; [|destruct q; done].
  pose proof (links_set_info _ _ _ _ f Hl Hc (or_intror Hi)) as Hl1.
  replace (set_pool _ _) with (set_head q (Some i) (set_pool (<[i := Cont (head_of q s) (f (info c))]>
    (pool (set_pool (<[i := Cont (next c) (f (info c))]> (pool s)) s))) (set_pool (<[i := Cont (next c) (f (info c))]> (pool s)) s))).
  - rewrite <- (head_of_pool q (<[i := Cont (next c) (f (info c))]> (pool s)) s).
    apply (links_push _ _ q i (Cont (next c) (f (info c))) Hl1); [done|done|simpl; by rewrite list_lookup_insert_eq|].
    intros fd ->. by apply Hw.
  - destruct q; unfold set_pool; simpl; by rewrite !list_insert_insert_eq.
Qed.

Lemma loose_set_list a q l i : loose a i -> i ∉ l -> loose (set_list q l a) i.
Proof.
  intros [H1 H2] Hi. split; [done|]. intros q' Hq'. destruct (decide (q' = q)) as [->|Hne]; [by rewrite lists_set|].
  rewrite lists_set_ne by done. by apply H2.
Qed.
(** A continuation that leaves its list is in none. *)
Lemma loose_removed s a q k i r : links s a -> valid q -> lists a q = k ++ i :: r -> loose (set_list q (k ++ r) a) i.
Proof.
  intros Hl Hv Heq. pose proof (rp_nodup _ _ Hl _ Hv) as Hnd. rewrite Heq in Hnd.
  pose proof (rp_chain _ _ Hl _ Hv) as Hch. rewrite Heq in Hch. apply chain_at in Hch as (cc & Hc & _). split.
  - rewrite <- (rp_len _ _ Hl). by eapply lookup_lt_Some.
  - intros q' Hq'. destruct (decide (q' = q)) as [->|Hne].
    + rewrite lists_set. rewrite Permutation_app_comm in Hnd. simpl in Hnd. apply NoDup_cons in Hnd as [Hn _]. set_solver.
    + rewrite lists_set_ne by done. intros Hin. apply Hne. eapply (rp_disj _ _ Hl); [done|done|done|]. rewrite Heq. set_solver.
Qed.

Lemma links_smaller s s' a q k i r :
  links s a -> valid q -> lists a q = k ++ i :: r -> length (pool s') = length (pool s) ->
  length (io_queues s') = length (io_queues s) -> info <$> pool s' = info <$> pool s -> trace s' = trace s -> ext s' = ext s ->
  (forall q', valid q' -> q' ≠ q -> chain (pool s') (head_of q' s') (lists a q')) -> chain (pool s') (head_of q s') (k ++ r) ->
  links s' (set_list q (k ++ r) a).
Proof.
  intros [H1 H2 H3 H4 H5 H6 H7 H8 H9] Hv Heq L1 L2 L3 L4 L5 Hch Hq.
  assert (Hsub : forall q' j, j ∈ lists (set_list q (k ++ r) a) q' -> j ∈ lists a q').
  { intros q' j. destruct (decide (q' = q)) as [->|Hne]; [rewrite lists_set, Heq; set_solver|by rewrite lists_set_ne]. }
  split; [congruence|congruence|simpl; congruence|simpl; congruence|simpl; congruence| | | |].
  - intros q' Hq'. destruct (decide (q' = q)) as [->|Hne]; [by rewrite lists_set|]. rewrite lists_set_ne by done. by apply Hch.
  - intros q' Hq'. destruct (decide (q' = q)) as [->|Hne]; [|rewrite lists_set_ne by done; by apply H7].
    rewrite lists_set. specialize (H7 q Hv). rewrite Heq in H7. rewrite Permutation_app_comm in H7. simpl in H7.
    apply NoDup_cons in H7 as [_ H7]. by rewrite Permutation_app_comm.
  - intros q1 q2 j Hq1 Hq2 Hj1 Hj2. apply Hsub in Hj1, Hj2. by eapply H8.
  - intros fd j w Hv' Hj Hlook. apply Hsub in Hj. by eapply H9.
Qed.

Lemma wp_unlink s a q k i r c (Q : unit -> St -> Prop) :
  links s a -> valid q -> lists a q = k ++ i :: r -> pool s !! i = Some c ->
  (forall s', links s' (set_list q (k ++ r) a) -> in_use s' = in_use s -> Q tt s') -> wp (unlink q (last k) (next c)) Q s.
Proof.
  intros Hl Hv Heq Hc HQ. pose proof (rp_chain _ _ Hl _ Hv) as Hch. rewrite Heq in Hch.
  pose proof (rp_nodup _ _ Hl _ Hv) as Hnd. rewrite Heq in Hnd. unfold unlink.
  destruct (last k) as [x|] eqn:Hk.
  - apply last_Some in Hk as [k' ->]. rewrite <- app_assoc in *. simpl in *.
    pose proof Hch as Hch'. apply chain_at in Hch' as (cx & Hx & _).
    eapply wp_set_next; [done|]. apply HQ; [|done].
    replace (k' ++ x :: r) with ((k' ++ [x]) ++ r) by by rewrite <- app_assoc.
    eapply (links_smaller s _ a q (k' ++ [x]) i r); try done.
    + by rewrite <- app_assoc.
    + simpl. apply length_insert.
    + simpl. rewrite list_fmap_insert. simpl. apply list_insert_id. by rewrite list_lookup_fmap, Hx.
    + intros q' Hq' Hne. rewrite head_of_pool. apply chain_update; [|by apply (rp_chain _ _ Hl)].
      intros Hin. apply Hne. eapply (rp_disj _ _ Hl); [done|done|done|]. rewrite Heq. set_solver.
    + rewrite head_of_pool. rewrite <- app_assoc. simpl. by eapply chain_unlink.
  - apply last_None in Hk as ->. simpl in *. apply wpf_modify. destruct (set_head_rest q (next c) s) as (R1 & R2 & R3 & R4).
    apply HQ; [|done]. eapply (links_smaller s _ a q [] i r); rewrite ?set_head_pool; try done.
    + intros q' Hq' Hne. rewrite head_set_ne by done. by apply (rp_chain _ _ Hl).
    + rewrite head_set by (try apply Hl; done). destruct Hch as [_ (cc & Hcc & Hr)]. simplify_eq. done.
Qed.

(** *** Replies and the free list *)

Definition released (w : Info) : list Event := [Delete (reply w); FreeSlot (reply w); UtFree (reply_ut w)].
Definition finished (m : Message) (w : Info) : list Event := Send (reply w) m :: released w.
(** The continuation goes back to the pool after the events [l]. *)
Definition gone (i : nat) (l : list Event) (a : Abs) : Abs :=
  set_list QFree (i :: lists a QFree) (alter_info i clear_node (add_events l a)).

Lemma wp_emit s a e (Q : unit -> St -> Prop) :
  links s a -> (forall s', links s' (add_events [e] a) -> in_use s' = in_use s -> Q tt s') -> wp (emit e) Q s.
Proof.
  intros [H1 H2 H3 H4 H5 H6 H7 H8 H9] HQ. unfold emit. wp_line. apply HQ; [|done].
  split; simpl; try done. by rewrite H4.
Qed.
Lemma wp_outside {A} s a (f : E -> A * E) (Q : A -> St -> Prop) :
  links s a -> (forall s', links s' (set_ext (snd (f (a_ext a))) a) -> in_use s' = in_use s -> Q (fst (f (a_ext a))) s') ->
  wp (outside f) Q s.
Proof.
  intros Hl HQ. pose proof Hl as [H1 H2 H3 H4 H5 H6 H7 H8 H9]. unfold outside. wp_line. rewrite <- H5.
  destruct (f (a_ext a)) as [v e]. simpl in HQ. wp_line. apply HQ; [|done]. by split.
Qed.
Lemma add_events_app l1 l2 a : add_events l2 (add_events l1 a) = add_events (l1 ++ l2) a.
Proof. unfold add_events. simpl. by rewrite app_assoc. Qed.

Lemma wp_cleanup s a i w (Q : unit -> St -> Prop) :
  links s a -> loose a i -> infos a !! i = Some w ->
  (forall s', links s' (alter_info i clear_node (add_events (released w) a)) -> in_use s' = in_use s -> Q tt s') ->
  wp (cleanup i) Q s.
Proof.
  intros Hl Hi Hw HQ. destruct (loose_lookup _ _ _ Hl Hi) as (c & Hc & Hc'). rewrite Hw in Hc'. injection Hc' as ->.
  unfold cleanup. apply wpf_bind. eapply wp_cont_at; [done|].
  apply wpf_bind. eapply wp_emit; [done|]. intros s1 Hl1 U1. apply wpf_bind. eapply wp_emit; [done|]. intros s2 Hl2 U2.
  apply wpf_bind. eapply wp_emit; [done|]. intros s3 Hl3 U3. rewrite !add_events_app in Hl3.
  eapply wp_set_info; [exact Hl3|done|]. intros s4 Hl4 U4. apply HQ; [done|congruence].
Qed.
Lemma wp_free s a i (Q : unit -> St -> Prop) :
  rep s a -> loose a i -> (forall s', rep s' (set_list QFree (i :: lists a QFree) a) -> Q tt s') -> wp (free i) Q s.
Proof.
  intros [Hl Hu] Hi HQ. destruct (loose_lookup _ _ _ Hl Hi) as (c & Hc & _). unfold free. wp_line. eapply wp_set_next; [done|].
  wp_line. apply HQ. split.
  - assert (H : forall fd, QFree = QIo fd -> wait_on (info c) = OnIO fd) by done.
    by destruct (links_push _ _ QFree i c Hl Hi I Hc H).
  - unfold counted_ok in *. rewrite lists_set. simpl. lia.
Qed.

Lemma rep_of_links s s' a a' : rep s a -> links s' a' -> in_use s' = in_use s -> lists a' QFree = lists a QFree -> rep s' a'.
Proof. intros [_ Hu] Hl Hi Heq. split; [done|]. unfold counted_ok in *. congruence. Qed.

Lemma wp_release s a i w (Q : unit -> St -> Prop) :
  rep s a -> loose a i -> infos a !! i = Some w -> (forall s', rep s' (gone i (released w) a) -> Q tt s') ->
  wp (cleanup i;; free i) Q s.
Proof.
  intros Hr Hi Hw HQ. apply wpf_bind. eapply wp_cleanup; [apply Hr|done|done|]. intros s1 Hl1 U1.
  eapply wp_free; [by eapply rep_of_links|done|]. done.
Qed.
Lemma wp_finish s a i w m (Q : unit -> St -> Prop) :
  rep s a -> loose a i -> infos a !! i = Some w -> (forall s', rep s' (gone i (finished m w) a) -> Q tt s') ->
  wp (sendReply i m;; free i) Q s.
Proof.
  intros Hr Hi Hw HQ. destruct (loose_lookup _ _ _ (proj1 Hr) Hi) as (c & Hc & Hc'). rewrite Hw in Hc'. injection Hc' as ->.
  unfold sendReply. apply wpf_bind, wpf_bind. eapply wp_cont_at; [done|]. apply wpf_bind. eapply wp_emit; [apply Hr|]. intros s1 Hl1 U1.
  eapply wp_cleanup; [done|done|done|]. intros s2 Hl2 U2. rewrite add_events_app in Hl2.
  eapply wp_free; [eapply (rep_of_links s s2 a); [done|done|congruence|done]|done|]. done.
Qed.

Lemma wp_alloc s a :
  rep s a ->
  wp alloc (fun r s' =>
    match r, lists a QFree with
    | None, [] => s' = s
    | Some i, j :: l => i = j /\ rep s' (set_list QFree l a) /\ loose (set_list QFree l a) i
    | _, _ => False
    end) s.
Proof.
  intros [Hl Hu]. unfold alloc. wp_line. pose proof (rp_chain _ _ Hl QFree I) as Hch. simpl in Hch.
  destruct (lists a QFree) as [|i l] eqn:Heq; simpl in Hch; [rewrite Hch; by wp_line|].
  destruct Hch as [-> (c & Hc & Hch)]. apply wpf_bind. eapply wp_cont_at; [done|].
  pose proof (loose_removed _ _ QFree [] i l Hl I Heq) as Hlo. simpl in Hlo.
  pose proof (wp_unlink s a QFree [] i l c) as Hun. unfold unlink in Hun. simpl last in Hun. cbv match in Hun.
  apply wpf_bind. apply Hun; [done|done|done|done|]. clear Hun. simpl app. intros s1 Hl1 U1. wp_line.
  destruct (loose_lookup _ _ _ Hl1 Hlo) as (c1 & Hc1 & _).
  assert (Hl2 : links (set_in_use (in_use s1 + 1) s1) (set_list QFree l a)) by (by destruct Hl1).
  eapply wp_set_next; [done|]. wp_line. split; [done|]. split; [|done]. split.
  - by apply (links_set_next _ _ _ _ None Hl2 Hlo).
  - unfold counted_ok in *. rewrite lists_set. rewrite Heq in Hu. simpl in *. lia.
Qed.

(** *** Resumption on lists *)

Definition a_wait (q : Q) (i : nat) (f : Info -> Info) (a : Abs) : Abs := set_list q (i :: lists a q) (alter_info i f a).
Definition a_resume (event : Z) (a : Abs) (i : nat) : Abs :=
  match infos a !! i with
  | None => a
  | Some w =>
    let a1 := set_ext (snd (resume w event (a_ext a))) a in
    match fst (resume w event (a_ext a)) with
    | Complete m => gone i (finished (Raw m) w) a1
    | Error errno => gone i (finished (Failure errno) w) a1
    | Retry =>
      match wait_on w with
      | OnIO fd => a_wait (QIo fd) i (set_wait_on (OnIO fd)) a1
      | OnTimer id => a_wait QTimer i (set_wait_on (OnTimer id)) a1
      | OnIRQ _ | OnFileOp => gone i (finished (Failure ENOSYS) w) a1
      | OnPage _ _ => gone i (finished (Failure EIO) w) a1
      end
    end
  end.

Definition resumable (w : Info) : Prop := forall fd, wait_on w = OnIO fd -> valid (QIo fd).

Lemma resumeContinuation_spec s a i w event :
  rep s a -> loose a i -> infos a !! i = Some w -> resumable w ->
  wp (resumeContinuation i event) (fun _ s' => rep s' (a_resume event a i)) s.
Proof.
  intros Hr Hi Hw Hres. destruct (loose_lookup _ _ _ (proj1 Hr) Hi) as (c & Hc & Hc'). rewrite Hw in Hc'. injection Hc' as ->.
  unfold resumeContinuation, a_resume. rewrite Hw. apply wpf_bind. eapply wp_cont_at; [done|]. apply wpf_bind.
  eapply wp_outside; [apply Hr|]. set (p := resume (info c) event (a_ext a)). intros s1 Hl1 U1.
  assert (Hr1 : rep s1 (set_ext (snd p) a)) by by eapply rep_of_links.
  assert (Hi1 : loose (set_ext (snd p) a) i) by done.
  destruct (fst p) as [m|errno|]; [by eapply wp_finish|by eapply (wp_finish _ _ _ _ (Failure errno))|].
  destruct (loose_lookup _ _ _ Hl1 Hi1) as (c1 & Hc1 & Hc1'). simpl in Hc1'. rewrite Hw in Hc1'. injection Hc1' as Heq.
  apply wpf_bind. eapply wp_cont_at; [done|]. rewrite <- Heq.
  destruct (wait_on (info c)) as [fd|id|badge| |cl pb] eqn:Hwait; try by eapply (wp_finish _ _ _ _ (Failure _)).
  - destruct (Hres fd Hwait) as [Hlo Hhi]. unfold waitIO. rewrite !bool_decide_false by lia.
    eapply wp_wait; [done|done|done| |]; [by intros fd' w' [= <-]|]. intros s2 Hl2 U2. by eapply rep_of_links.
  - eapply wp_wait; [done|done|done|done|]. intros s2 Hl2 U2. by eapply rep_of_links.
Qed.

(** What a step on continuation [i] leaves alone. *)
Definition touches (i : nat) {A} (m : M St A) : Prop :=
  forall s, wpf (fun _ => True) m (fun _ s' => forall j, j ≠ i -> pool s' !! j = pool s !! j) s.
Lemma touches_bind i {A B} (m : M St A) (k : A -> M St B) : touches i m -> (forall x, touches i (k x)) -> touches i (m ≫= k).
Proof.
  intros Hm Hk s. apply wpf_bind. eapply wpf_mono; [apply Hm|]. intros x s1 H1. eapply wpf_mono; [apply Hk|].
  intros y s2 H2 j Hj. by rewrite H2, H1.
Qed.
Lemma touches_same i {A} (m : M St A) : (forall s x s', m s = Ok (x, s') -> pool s' = pool s) -> touches i m.
Proof. intros Hm s. unfold wpf. destruct (m s) as [[x s']|f] eqn:Heq; [|done]. by rewrite (Hm _ _ _ Heq). Qed.
Lemma touches_cont_at i j : touches i (cont_at j).
Proof. apply touches_same. intros s x s'. unfold cont_at, mbind, M_bind, get, access. destruct (pool s !! j); [|done]. by intros [= _ <-]. Qed.
Lemma touches_write i f : touches i (c ← cont_at i; modify (fun s => set_pool (<[i := f c]> (pool s)) s)).
Proof.
  intros s. unfold cont_at, mbind, M_bind, get, access, wpf. simpl. destruct (pool s !! i); [|done]. simpl.
  intros j Hj. by rewrite list_lookup_insert_ne.
Qed.
Lemma touches_emit i e : touches i (emit e).
Proof. apply touches_same. by intros s x s' [= _ <-]. Qed.
Lemma touches_modify i f : (forall s, pool (f s) = pool s) -> touches i (modify f).
Proof. intros Hf. apply touches_same. intros s x s' [= _ <-]. apply Hf. Qed.
Lemma touches_push i q : touches i (push q i).
Proof.
  apply touches_bind; [by apply touches_same; intros s x s' [= _ <-]|]. intros s0. apply touches_bind; [apply (touches_write i (fun c => Cont _ (info c)))|].
  intros _. apply touches_modify. intros s. apply set_head_pool.
Qed.
Lemma touches_cleanup i : touches i (cleanup i).
Proof.
  apply touches_bind; [apply touches_cont_at|]. intros c. do 3 (apply touches_bind; [apply touches_emit|intros _]).
  apply (touches_write i (fun c => Cont (next c) (clear_node (info c)))).
Qed.
Lemma touches_free i : touches i (free i).
Proof.
  apply touches_bind; [by apply touches_same; intros s x s' [= _ <-]|]. intros s0.
  apply touches_bind; [apply (touches_write i (fun c => Cont _ (info c)))|]. intros _.
  apply touches_bind; [apply touches_modify; intros s; apply set_head_pool|]. intros _. by apply touches_modify.
Qed.
Lemma touches_finish i m : touches i (sendReply i m;; free i).
Proof.
  apply touches_bind; [|intros _; apply touches_free]. apply touches_bind; [apply touches_cont_at|]. intros c.
  apply touches_bind; [apply touches_emit|]. intros _. apply touches_cleanup.
Qed.
Lemma touches_wait i q f : touches i (push q i;; set_info i f).
Proof. apply touches_bind; [apply touches_push|]. intros _. apply (touches_write i (fun c => Cont (next c) (f (info c)))). Qed.
Lemma touches_outside i {A} (f : E -> A * E) : touches i (outside f).
Proof.
  apply touches_same. intros s x s'. unfold outside, mbind, M_bind, get, put. destruct (f (ext s)) as [v e]. by intros [= _ <-].
Qed.
Lemma touches_resume i event : touches i (resumeContinuation i event).
Proof.
  apply touches_bind; [apply touches_cont_at|]. intros c. apply touches_bind; [apply touches_outside|].
  intros [m|errno|]; [apply touches_finish|apply (touches_finish i (Failure errno))|].
  apply touches_bind; [apply touches_cont_at|]. intros c1.
  destruct (wait_on (info c1)); try apply (touches_finish i (Failure _)); [|apply touches_wait].
  unfold waitIO. repeat case_bool_decide; [by apply touches_same..|apply touches_wait].
Qed.

Lemma links_ext p p' h l : (forall j, j ∈ l -> p' !! j = p !! j) -> chain p h l -> chain p' h l.
Proof.
  revert h. induction l as [|i l IH]; intros h Hp; [done|]. simpl. intros [-> (c & Hc & Hl)]. split; [done|].
  exists c. rewrite Hp by set_solver. split; [done|]. apply IH; [set_solver|done].
Qed.

Lemma gone_other i l a j : j ≠ i -> loose a j -> loose (gone i l a) j /\ infos (gone i l a) !! j = infos a !! j.
Proof.
  intros Hj Hl. split; [|simpl; by rewrite list_lookup_alter_ne by done].
  apply loose_set_list; [done|]. apply not_elem_of_cons. split; [done|]. by apply (proj2 Hl QFree).
Qed.
Lemma wait_other q i f a j : valid q -> j ≠ i -> loose a j -> loose (a_wait q i f a) j /\ infos (a_wait q i f a) !! j = infos a !! j.
Proof.
  intros Hv Hj Hl. split; [|simpl; by rewrite list_lookup_alter_ne by done].
  apply loose_set_list; [done|]. apply not_elem_of_cons. split; [done|]. by apply (proj2 Hl q).
Qed.
Lemma a_resume_other event a i w j :
  infos a !! i = Some w -> resumable w -> j ≠ i -> loose a j ->
  loose (a_resume event a i) j /\ infos (a_resume event a i) !! j = infos a !! j.
Proof.
  intros Hw Hres Hj Hl. unfold a_resume. rewrite Hw. set (e := snd _). assert (Hl1 : loose (set_ext e a) j) by done.
  destruct (fst _) as [m|errno|]; [by apply (gone_other _ _ (set_ext e a))..|].
  destruct (wait_on w) as [fd|id|b| |cl pb] eqn:Hwait; [|by apply (wait_other _ _ _ (set_ext e a))|by apply (gone_other _ _ (set_ext e a))..].
  apply (wait_other _ _ _ (set_ext e a)); [by apply Hres|done..].
Qed.

Definition can_resume (a : Abs) (i : nat) : Prop := loose a i /\ exists w, infos a !! i = Some w /\ resumable w.

Lemma resume_loop_spec event l : forall s a cursor fuel,
  rep s a -> chain (pool s) cursor l -> NoDup l -> (forall i, i ∈ l -> can_resume a i) -> (length l ≤ fuel)%nat ->
  wp (resume_loop fuel cursor event) (fun _ s' => rep s' (foldl (a_resume event) a l)) s.
Proof.
  clear copyToClient.
  induction l as [|i l IH]; intros s a cursor fuel Hr Hch Hnd Hl Hf.
  - simpl in Hch. subst cursor. by destruct fuel.
  - destruct Hch as [-> (c & Hc & Hch)]. destruct fuel as [|fuel]; [simpl in Hf; lia|]. apply NoDup_cons in Hnd as [Hn Hnd].
    cbn [resume_loop foldl]. apply wpf_bind. eapply wp_cont_at; [done|]. apply wpf_bind.
    destruct (Hl i) as [Hi (w & Hw & Hres)]; [set_solver|].
    eapply wpf_mono; [apply wpf_and; [by eapply resumeContinuation_spec|apply touches_resume]|]. intros [] s1 [Hr1 Ht]. simpl in Ht.
    apply IH; [done| |done| |simpl in Hf; lia].
    + eapply links_ext; [|done]. intros j Hj. apply Ht. intros ->. done.
    + intros j Hj. assert (j ≠ i) by (intros ->; done). destruct (Hl j) as [Hj1 (w' & Hw' & Hres')]; [set_solver|].
      destruct (a_resume_other event a i w j) as [H1 H2]; [done..|]. split; [done|]. rewrite H2. eauto.
Qed.

Lemma list_bound s a q : links s a -> valid q -> (length (lists a q) ≤ CONT_POOL_SIZE)%nat.
Proof.
  intros Hl Hv. rewrite <- (length_seq CONT_POOL_SIZE 0). apply submseteq_length, NoDup_submseteq; [by apply (rp_nodup _ _ Hl)|].
  intros i Hi. apply elem_of_seq. pose proof (rp_chain _ _ Hl q Hv) as Hch. apply list_elem_of_split in Hi as (k & r & Heq).
  rewrite Heq in Hch. apply chain_at in Hch as (c & Hc & _). apply lookup_lt_Some in Hc. rewrite (rp_len _ _ Hl) in Hc. lia.
Qed.

(** The whole queue is taken off at once. *)
Lemma links_cut s a q : links s a -> valid q -> links (set_head q None s) (set_list q [] a).
Proof.
  intros [H1 H2 H3 H4 H5 H6 H7 H8 H9] Hv. destruct (set_head_rest q None s) as (R1 & R2 & R3 & R4).
  assert (Hsub : forall q' j, j ∈ lists (set_list q [] a) q' -> j ∈ lists a q').
  { intros q' j. destruct (decide (q' = q)) as [->|Hne]; [rewrite lists_set; set_solver|by rewrite lists_set_ne]. }
  split; [by rewrite set_head_pool|congruence|by rewrite set_head_pool|simpl; congruence|simpl; congruence| | | |].
  - intros q' Hq'. rewrite set_head_pool. destruct (decide (q' = q)) as [->|Hne]; [by rewrite lists_set, head_set|].
    rewrite lists_set_ne, head_set_ne by done. by apply H6.
  - intros q' Hq'. destruct (decide (q' = q)) as [->|Hne]; [rewrite lists_set; constructor|rewrite lists_set_ne by done; by apply H7].
  - intros q1 q2 j Hq1 Hq2 Hj1 Hj2. apply Hsub in Hj1, Hj2. by eapply H8.
  - intros fd j w Hv' Hj Hlook. apply Hsub in Hj. by eapply H9.
Qed.
Lemma can_resume_cut s a q i :
  links s a -> valid q -> i ∈ lists a q -> (forall w, infos a !! i = Some w -> resumable w) -> can_resume (set_list q [] a) i.
Proof.
  intros Hl Hv Hi Hres. pose proof (rp_chain _ _ Hl q Hv) as Hch. apply list_elem_of_split in Hi as (k & r & Heq).
  pose proof (loose_removed _ _ _ _ _ _ Hl Hv Heq) as [H1 H2].
  assert (Hlo : loose (set_list q [] a) i).
  { split; [done|]. intros q' Hq'. destruct (decide (q' = q)) as [->|Hne]; [rewrite lists_set; set_solver|].
    specialize (H2 q' Hq'). rewrite lists_set_ne in H2 |- * by done. done. }
  split; [done|]. destruct (loose_lookup _ _ _ (links_cut _ _ q Hl Hv) Hlo) as (c & _ & Hc). simpl in Hc. eauto.
Qed.

Lemma resumeIO_spec s a fd event :
  rep s a -> valid (QIo fd) ->
  wp (resumeIO fd event) (fun _ s' => rep s' (foldl (a_resume event) (set_list (QIo fd) [] a) (lists a (QIo fd)))) s.
Proof.
  intros [Hl Hu] Hv. pose proof Hv as [Hlo Hhi]. unfold resumeIO. rewrite !bool_decide_false by lia. wp_line.
  apply resume_loop_spec.
  - split; [by apply links_cut|exact Hu].
  - rewrite set_head_pool. by apply (rp_chain _ _ Hl).
  - by apply (rp_nodup _ _ Hl).
  - intros i Hi. apply (can_resume_cut s); [done..|]. intros w Hw fd' Hfd. rewrite (rp_wait _ _ Hl fd i w) in Hfd by done.
    by injection Hfd as <-.
  - by eapply list_bound.
Qed.

(** *** States with the same lists *)

#[export] Instance abs_equiv : Equiv Abs := fun a b =>
  (forall q, lists a q = lists b q) /\ infos a = infos b /\ a_trace a = a_trace b /\ a_ext a = a_ext b.
#[export] Instance abs_equivalence : Equivalence (≡@{Abs}).
Proof.
  split.
  - by intros a.
  - intros a b (H1 & H2 & H3 & H4). repeat split; by symmetry.
  - intros a b c (H1 & H2 & H3 & H4) (K1 & K2 & K3 & K4). repeat split; [intros q|..]; congruence.
Qed.
#[export] Instance set_list_proper q l : Proper ((≡) ==> (≡)) (set_list q l).
Proof. intros a b (H1 & H2 & H3 & H4). repeat split; [intros q'; simpl; by rewrite H1|done..]. Qed.
#[export] Instance gone_proper i l : Proper ((≡) ==> (≡)) (gone i l).
Proof.
  intros a b (H1 & H2 & H3 & H4). unfold gone. repeat split; simpl; [|congruence..].
  intros q. rewrite H1. by rewrite (H1 q).
Qed.
#[export] Instance rep_proper s : Proper ((≡) ==> iff) (rep s).
Proof.
  assert (Hmp : forall a b, a ≡ b -> rep s a -> rep s b).
  { intros a b (H1 & H2 & H3 & H4) [[L1 L2 L3 L4 L5 L6 L7 L8 L9] Hu]. split; [|unfold counted_ok in *; by rewrite <- H1].
    split; try done; try congruence.
    - intros q Hq. rewrite <- H1. by apply L6.
    - intros q Hq. rewrite <- H1. by apply L7.
    - intros q1 q2 i. rewrite <- !H1. apply L8.
    - intros fd i w. rewrite <- H1, <- H2. apply L9. }
  intros a b Hab. split; apply Hmp; [done|by symmetry].
Qed.
Lemma set_list_twice q l1 l2 a : set_list q l2 (set_list q l1 a) ≡ set_list q l2 a.
Proof. repeat split. intros q'. simpl. by destruct (decide (q' = q)). Qed.
Lemma set_list_same q a : set_list q (lists a q) a ≡ a.
Proof. repeat split. intros q'. simpl. by destruct (decide (q' = q)) as [->|]. Qed.
Lemma set_list_gone q l i evs a : q ≠ QFree -> set_list q l (gone i evs a) ≡ gone i evs (set_list q l a).
Proof.
  intros Hq. repeat split; try done. intros q'. simpl. rewrite (decide_False (P := QFree = q)) by congruence.
  destruct (decide (q' = q)) as [->|]; [by rewrite decide_False|done].
Qed.

(** ** Cancellation *)

Definition mine (a : Abs) (who : Z) (i : nat) : Prop := exists w, infos a !! i = Some w /\ client w = who.
#[export] Instance mine_dec a who i : Decision (mine a who i).
Proof.
  destruct (infos a !! i) as [w|] eqn:Hw; [|right; intros (w & Hw' & _); congruence].
  destruct (decide (client w = who)); [left; by exists w|right; intros (w' & Hw' & Hc); congruence].
Defined.
Definition a_drop (a : Abs) (i : nat) : Abs := match infos a !! i with Some w => gone i (released w) a | None => a end.
Definition a_cancel (who : Z) (a : Abs) (q : Q) : Abs :=
  foldl a_drop (set_list q (filter (fun i => ~ mine a who i) (lists a q)) a) (filter (mine a who) (lists a q)).

#[export] Instance a_drop_proper i : Proper ((≡) ==> (≡)) (fun a => a_drop a i).
Proof. intros a b Hab. unfold a_drop. pose proof Hab as (_ & H2 & _). rewrite H2. destruct (infos b !! i); [by apply gone_proper|done]. Qed.
#[export] Instance foldl_drop_proper l : Proper ((≡) ==> (≡)) (fun a => foldl a_drop a l).
Proof. induction l as [|i l IH]; intros a b Hab; simpl; [done|]. apply IH. by apply a_drop_proper. Qed.

Lemma client_clear w : client (clear_node w) = client w.
Proof. unfold clear_node. by destruct (state w). Qed.
Lemma mine_gone i l a who j : mine (gone i l a) who j <-> mine a who j.
Proof. clear copyToClient.
  unfold mine. simpl. destruct (decide (i = j)) as [<-|Hne]; [|by rewrite list_lookup_alter_ne].
  rewrite list_lookup_alter_eq. destruct (infos a !! i) as [w|]; simpl; [|naive_solver].
  split; intros (w' & [= <-] & Hc); eexists; (split; [done|]); [by rewrite client_clear in Hc|by rewrite client_clear].
Qed.
Lemma filter_mine_gone i l a who (rest : list nat) :
  filter (mine (gone i l a) who) rest = filter (mine a who) rest /\
  filter (fun j => ~ mine (gone i l a) who j) rest = filter (fun j => ~ mine a who j) rest.
Proof.
  split; apply list_filter_iff; intros j; [apply mine_gone|]. by rewrite mine_gone.
Qed.

Lemma cancel_loop_spec who q : valid q -> q ≠ QFree -> forall rest k s a fuel,
  rep s a -> lists a q = k ++ rest -> (length rest ≤ fuel)%nat ->
  wp (cancel_loop fuel q (last k) (head rest) who) (fun _ s' =>
    rep s' (foldl a_drop (set_list q (k ++ filter (fun i => ~ mine a who i) rest) a) (filter (mine a who) rest))) s.
Proof. clear copyToClient.
  intros Hv Hq rest. induction rest as [|i rest IH]; intros k s a fuel Hr Heq Hf.
  - rewrite app_nil_r in Heq.
    destruct fuel; apply wpf_ret; cbn [foldl filter list_filter]; rewrite app_nil_r, <- Heq; by rewrite set_list_same.
  - destruct fuel as [|fuel]; [simpl in Hf; lia|]. cbn [head cancel_loop]. pose proof (proj1 Hr) as Hl.
    pose proof (rp_chain _ _ Hl q Hv) as Hch. rewrite Heq in Hch. apply chain_at in Hch as (c & Hc & Hch).
    assert (Hw : infos a !! i = Some (info c)) by by rewrite (rp_infos _ _ Hl), list_lookup_fmap, Hc.
    apply wpf_bind. eapply wp_cont_at; [done|]. rewrite (chain_head _ _ _ Hch). case_bool_decide as Hcl.
    + assert (Hm : mine a who i) by by exists (info c). rewrite !filter_cons, (decide_True (P := mine a who i)) by done.
      rewrite (decide_False (P := ~ mine a who i)) by tauto. cbn [foldl].
      apply wpf_bind. rewrite <- (chain_head _ _ _ Hch). eapply wp_unlink; [done|done|done|done|]. intros s1 Hl1 U1.
      pose proof (loose_removed _ _ _ _ _ _ Hl Hv Heq) as Hlo.
      assert (Hr1 : rep s1 (set_list q (k ++ rest) a)) by (eapply rep_of_links; [done|done|done|by apply lists_set_ne, not_eq_sym]).
      apply wpf_bind. eapply wp_release; [done|done|done|]. intros s2 Hr2. rewrite (chain_head _ _ _ Hch).
      eapply wpf_mono; [apply (IH k s2 _ fuel Hr2); [|simpl in Hf; lia]|].
      * unfold gone. rewrite lists_set_ne by done. apply lists_set.
      * intros [] s3 Hr3. unfold a_drop at 2. simpl infos. rewrite Hw. simpl in Hr3.
        rewrite (proj1 (filter_mine_gone _ _ _ _ _)), (proj2 (filter_mine_gone _ _ _ _ _)) in Hr3.
        revert Hr3. apply rep_proper, foldl_drop_proper. rewrite set_list_gone by done. apply gone_proper.
        by rewrite set_list_twice.
    + assert (Hm : ~ mine a who i) by (intros (w & Hw' & ?); congruence).
      rewrite !filter_cons, (decide_False (P := mine a who i)) by done. rewrite (decide_True (P := ~ mine a who i)) by done.
      replace (Some i) with (last (k ++ [i])) by apply last_snoc. eapply wpf_mono; [apply (IH (k ++ [i]) s a fuel Hr); [by rewrite <- app_assoc|simpl in Hf; lia]|].
      intros [] s1. by rewrite <- app_assoc.
Qed.

Lemma cancel_queue_spec who q s a :
  rep s a -> valid q -> q ≠ QFree -> wp (cancel_queue who q) (fun _ s' => rep s' (a_cancel who a q)) s.
Proof.
  intros Hr Hv Hq. unfold cancel_queue. wp_line. rewrite (chain_head _ _ _ (rp_chain _ _ (proj1 Hr) q Hv)).
  apply (cancel_loop_spec who q Hv Hq (lists a q) [] s a); [done|done|]. eapply list_bound; [apply Hr|done].
Qed.

(** The queues that a cancellation goes through. *)
Definition waiting : list Q := io_list ++ [QTimer; QFiles].
Lemma waiting_ok : NoDup waiting /\ Forall (fun q => valid q /\ q ≠ QFree) waiting.
Proof.
  split; [apply (bool_decide_unpack _); vm_compute; exact I|]. unfold waiting, io_list. apply Forall_app. split; [|by repeat constructor].
  apply Forall_fmap, Forall_forall. intros n Hn. apply elem_of_seq in Hn. simpl. unfold MAX_FDS in *. split; [lia|done].
Qed.
Lemma waiting_all q : valid q -> q ≠ QFree -> q ∈ waiting.
Proof.
  intros Hv Hq. unfold waiting, io_list. apply elem_of_app. destruct q as [|fd| |]; [done| |right; set_solver..].
  left. apply list_elem_of_fmap. simpl in Hv. exists (Z.to_nat fd). split; [f_equal; lia|]. apply elem_of_seq. lia.
Qed.

Lemma cancel_all_spec who qs : forall s a,
  rep s a -> Forall (fun q => valid q /\ q ≠ QFree) qs ->
  wp (iterM (cancel_queue who) qs) (fun _ s' => rep s' (foldl (a_cancel who) a qs)) s.
Proof.
  induction qs as [|q qs IH]; intros s a Hr Hqs; [done|]. apply Forall_cons in Hqs as [[Hv Hq] Hqs]. cbn [iterM foldl].
  apply wpf_bind. eapply wpf_mono; [by apply cancel_queue_spec|]. intros [] s1 Hr1. by apply IH.
Qed.
Lemma iterM_app2 {S A} (f : A -> M S unit) l x y s : iterM f (l ++ [x; y]) s = (iterM f l;; f x;; f y) s.
Proof.
  revert s. induction l as [|z l IH]; intros s; cbn [app iterM]; unfold mbind, M_bind, mret, M_ret in *; cbv beta iota in *.
  - destruct (f x s) as [[[] s1]|]; [|reflexivity]. cbn. destruct (f y s1) as [[[] s2]|]; reflexivity.
  - destruct (f z s) as [[[] s1]|]; [|reflexivity]. rewrite IH. reflexivity.
Qed.
Lemma cancel_client_runs who (Q : unit -> St -> Prop) s :
  wp (iterM (cancel_queue who) waiting) Q s -> wp (continuation_cancel_client who) Q s.
Proof. unfold wpf, waiting. rewrite (iterM_app2 (cancel_queue who) io_list QTimer QFiles s). done. Qed.

(** The events of the release of a continuation. *)
Definition release_of (a : Abs) (i : nat) : list Event := from_option released [] (infos a !! i).

Lemma released_clear w : released (clear_node w) = released w.
Proof. unfold clear_node. by destruct (state w). Qed.
Lemma release_of_gone i l a j : release_of (gone i l a) j = release_of a j.
Proof.
  unfold release_of. simpl. destruct (decide (i = j)) as [<-|]; [|by rewrite list_lookup_alter_ne].
  rewrite list_lookup_alter_eq. destruct (infos a !! i); simpl; [apply released_clear|done].
Qed.

Lemma drop_facts l : forall a, (forall i, i ∈ l -> is_Some (infos a !! i)) ->
  lists (foldl a_drop a l) QFree = reverse l ++ lists a QFree /\
  (forall q, q ≠ QFree -> lists (foldl a_drop a l) q = lists a q) /\
  a_trace (foldl a_drop a l) = a_trace a ++ concat (release_of a <$> l) /\
  (forall who j, mine (foldl a_drop a l) who j <-> mine a who j) /\
  (forall j, release_of (foldl a_drop a l) j = release_of a j) /\
  (forall j, is_Some (infos (foldl a_drop a l) !! j) <-> is_Some (infos a !! j)).
Proof.
  clear resume copyToClient.
  induction l as [|i l IH]; intros a Hl; [simpl; rewrite app_nil_r; done|].
  destruct (Hl i) as [w Hw]; [set_solver|]. cbn [foldl].
  assert (Hd : a_drop a i = gone i (released w) a) by (unfold a_drop; by rewrite Hw). rewrite Hd.
  assert (Hsome : forall j, is_Some (infos (gone i (released w) a) !! j) <-> is_Some (infos a !! j)).
  { intros j. simpl. destruct (decide (i = j)) as [<-|]; [rewrite list_lookup_alter_eq; by rewrite fmap_is_Some|by rewrite list_lookup_alter_ne]. }
  destruct (IH (gone i (released w) a)) as (H1 & H2 & H3 & H4 & H5 & H6).
  { intros j Hj. apply Hsome, Hl. set_solver. }
  split; [rewrite H1, reverse_cons, <- app_assoc; unfold gone; by rewrite lists_set|].
  split; [intros q Hq; rewrite H2 by done; unfold gone; by rewrite lists_set_ne|].
  split.
  { rewrite H3. simpl. rewrite <- app_assoc. f_equal. f_equal; [unfold release_of; by rewrite Hw|]. f_equal.
    apply list_fmap_ext. intros n j _. apply release_of_gone. }
  split; [intros who j; by rewrite H4, mine_gone|]. split; [intros j; by rewrite H5, release_of_gone|]. intros j. by rewrite H6.
Qed.

Lemma cancel_facts who qs : forall a, NoDup qs -> Forall (fun q => q ≠ QFree) qs ->
  (forall q i, q ∈ qs -> i ∈ lists a q -> is_Some (infos a !! i)) ->
  let victims := concat ((fun q => filter (mine a who) (lists a q)) <$> qs) in
  let a' := foldl (a_cancel who) a qs in
  lists a' QFree = reverse victims ++ lists a QFree /\ a_trace a' = a_trace a ++ concat (release_of a <$> victims) /\
  (forall q, q ≠ QFree -> lists a' q = if decide (q ∈ qs) then filter (fun i => ~ mine a who i) (lists a q) else lists a q).
Proof. clear copyToClient.
  induction qs as [|q qs IH]; intros a Hnd Hne Hin; [simpl; rewrite app_nil_r; done|]. cbn [foldl fmap list_fmap].
  apply NoDup_cons in Hnd as [Hnq Hnd]. apply Forall_cons in Hne as [Hq Hne].
  set (a0 := set_list q (filter (fun i => ~ mine a who i) (lists a q)) a). set (v := filter (mine a who) (lists a q)).
  destruct (drop_facts v a0) as (D1 & D2 & D3 & D4 & D5 & D6).
  { intros i Hi. apply list_elem_of_filter in Hi as [_ Hi]. apply (Hin q); [set_solver|done]. }
  change (a_cancel who a q) with (foldl a_drop a0 v).
  assert (Hls : forall q', q' ∈ qs -> lists (foldl a_drop a0 v) q' = lists a q').
  { intros q' Hq'. rewrite D2 by (eapply Forall_forall in Hne; done). unfold a0. apply lists_set_ne. by intros ->. }
  destruct (IH (foldl a_drop a0 v) Hnd Hne) as (I1 & I2 & I3).
  { intros q' i Hq' Hi. apply D6. rewrite Hls in Hi by done. apply (Hin q'); [set_solver|done]. }
  assert (Hv : concat ((fun q => filter (mine (foldl a_drop a0 v) who) (lists (foldl a_drop a0 v) q)) <$> qs) =
    concat ((fun q => filter (mine a who) (lists a q)) <$> qs)).
  { f_equal. apply list_fmap_ext. intros n q' Hn. apply list_elem_of_lookup_2 in Hn. rewrite Hls by done.
    apply list_filter_iff. intros j. apply D4. }
  rewrite Hv in I1, I2. set (vs := concat _) in *. simpl.
  split; [rewrite I1, D1, reverse_app, <- app_assoc; unfold a0; by rewrite lists_set_ne by by apply not_eq_sym|].
  split.
  { rewrite I2, D3, fmap_app, concat_app, <- app_assoc. f_equal. f_equal. f_equal. apply list_fmap_ext. intros n j _. apply D5. }
  intros q' Hq'. rewrite I3 by done. destruct (decide (q' ∈ qs)) as [Hin'|Hnin].
  - rewrite (decide_True (P := q' ∈ q :: qs)) by set_solver. rewrite Hls by done. apply list_filter_iff. intros j. by rewrite (D4 who j).
  - destruct (decide (q' = q)) as [->|Hqq].
    + rewrite decide_True by set_solver. rewrite D2 by done. unfold a0. apply lists_set.
    + rewrite decide_False by set_solver. rewrite D2 by done. unfold a0. by apply lists_set_ne.
Qed.

(** ** Finished file operations *)

Definition done_at (a : Abs) (i : nat) : Prop := exists w, infos a !! i = Some w /\ isCompleted w = true.
#[export] Instance done_at_dec a i : Decision (done_at a i).
Proof.
  destruct (infos a !! i) as [w|] eqn:Hw; [|right; intros (w & Hw' & _); congruence].
  destruct (isCompleted w) eqn:Hc; [left; by exists w|right; intros (w' & Hw' & Hc'); congruence].
Defined.

(** The continuation that a search is at. *)
Lemma chain_cursor s a q k i rest :
  links s a -> valid q -> lists a q = k ++ i :: rest ->
  exists c, pool s !! i = Some c /\ infos a !! i = Some (info c) /\ next c = head rest.
Proof.
  intros Hl Hv Heq. pose proof (rp_chain _ _ Hl q Hv) as Hch. rewrite Heq in Hch. apply chain_at in Hch as (c & Hc & Hch).
  exists c. split; [done|]. split; [by rewrite (rp_infos _ _ Hl), list_lookup_fmap, Hc|by eapply chain_head].
Qed.
(** Taking [i] out of a list and forgetting its link. *)
Lemma wp_take s a q k i rest c (Q : unit -> St -> Prop) :
  rep s a -> valid q -> q ≠ QFree -> lists a q = k ++ i :: rest -> pool s !! i = Some c ->
  (forall s', rep s' (set_list q (k ++ rest) a) -> loose (set_list q (k ++ rest) a) i -> Q tt s') ->
  wp (unlink q (last k) (next c);; set_next i None) Q s.
Proof.
  intros Hr Hv Hq Heq Hc HQ. pose proof (loose_removed _ _ _ _ _ _ (proj1 Hr) Hv Heq) as Hlo.
  apply wpf_bind. eapply wp_unlink; [apply Hr|done|done|done|]. intros s1 Hl1 U1.
  destruct (loose_lookup _ _ _ Hl1 Hlo) as (c1 & Hc1 & _). eapply wp_set_next; [done|]. apply HQ; [|done].
  eapply rep_of_links; [done|by apply links_set_next|done|]. by apply lists_set_ne, not_eq_sym.
Qed.

Lemma poll_loop_spec rest : forall k s a fuel,
  rep s a -> lists a QFiles = k ++ rest -> Forall (fun i => ~ done_at a i) k -> (length rest ≤ fuel)%nat ->
  wp (poll_loop fuel (last k) (head rest)) (fun r s' =>
    match r with
    | None => rep s' a /\ Forall (fun i => ~ done_at a i) (lists a QFiles)
    | Some i => exists k r, lists a QFiles = k ++ i :: r /\ Forall (fun i => ~ done_at a i) k /\ done_at a i /\
        rep s' (set_list QFiles (k ++ r) a) /\ loose (set_list QFiles (k ++ r) a) i
    end) s.
Proof.
  induction rest as [|i rest IH]; intros k s a fuel Hr Heq Hk Hf.
  - rewrite app_nil_r in Heq. destruct fuel; simpl; apply wpf_ret; by rewrite Heq.
  - destruct fuel as [|fuel]; [simpl in Hf; lia|]. cbn [head poll_loop].
    destruct (chain_cursor _ _ QFiles _ _ _ (proj1 Hr) I Heq) as (c & Hc & Hw & Hn).
    apply wpf_bind. eapply wp_cont_at; [done|]. destruct (isCompleted (info c)) eqn:Hdone.
    + apply wpf_bind. eapply wpf_mono; [apply (wp_take s a QFiles k i rest c (fun _ s' => rep s' (set_list QFiles (k ++ rest) a) /\
        loose (set_list QFiles (k ++ rest) a) i)); done|]. intros [] s1 [Hr1 Hlo]. wp_line.
      exists k, rest. split; [done|]. split; [done|]. split; [by exists (info c)|]. done.
    + replace (Some i) with (last (k ++ [i])) by apply last_snoc. rewrite Hn. apply IH; [done|by rewrite <- app_assoc| |simpl in Hf; lia].
      apply Forall_app. split; [done|]. apply Forall_singleton. intros (w & Hw' & ?). congruence.
Qed.
Lemma pollCompleted_spec s a :
  rep s a ->
  wp pollCompleted (fun r s' =>
    match r with
    | None => rep s' a /\ Forall (fun i => ~ done_at a i) (lists a QFiles)
    | Some i => exists k r, lists a QFiles = k ++ i :: r /\ Forall (fun i => ~ done_at a i) k /\ done_at a i /\
        rep s' (set_list QFiles (k ++ r) a) /\ loose (set_list QFiles (k ++ r) a) i
    end) s.
Proof.
  intros Hr. unfold pollCompleted. wp_line. change (files s) with (head_of QFiles s).
  rewrite (chain_head _ _ _ (rp_chain _ _ (proj1 Hr) QFiles I)).
  apply (poll_loop_spec _ []); [done|done|constructor|]. eapply list_bound; [apply Hr|exact I].
Qed.

Lemma filter_keep {A} (P : A -> Prop) `{!forall x, Decision (P x)} (l : list A) : Forall P l -> filter P l = l.
Proof. induction 1 as [|x l Hx _ IH]; [done|]. by rewrite filter_cons_True, IH. Qed.

(** [remove] takes a continuation out that is in the queue, and does nothing else. *)
Lemma file_op_remove_spec i rest : forall k s a fuel,
  rep s a -> lists a QFiles = k ++ rest -> i ∉ k -> (length rest ≤ fuel)%nat ->
  wp (remove_loop fuel (last k) (head rest) i) (fun _ s' => rep s' (set_list QFiles (filter (fun j => j ≠ i) (lists a QFiles)) a)) s.
Proof.
  induction rest as [|j rest IH]; intros k s a fuel Hr Heq Hk Hf.
  - rewrite app_nil_r in Heq. destruct fuel; apply wpf_ret; rewrite filter_keep by (apply Forall_forall; set_solver).
    all: by rewrite set_list_same.
  - destruct fuel as [|fuel]; [simpl in Hf; lia|]. cbn [head remove_loop].
    destruct (chain_cursor _ _ QFiles _ _ _ (proj1 Hr) I Heq) as (c & Hc & Hw & Hn).
    apply wpf_bind. eapply wp_cont_at; [done|]. case_bool_decide as Hj.
    + subst j. eapply (wp_take s a QFiles k i rest c); [done..|]. intros s1 Hr1 _.
      pose proof (rp_nodup _ _ (proj1 Hr) QFiles I) as Hnd. rewrite Heq in Hnd |- *.
      apply NoDup_app in Hnd as (_ & _ & Hnd). apply NoDup_cons in Hnd as [Hni _].
      rewrite filter_app, filter_cons_False by tauto. rewrite !filter_keep by (apply Forall_forall; set_solver). done.
    + replace (Some j) with (last (k ++ [j])) by apply last_snoc. rewrite Hn.
      apply IH; [done|by rewrite <- app_assoc|set_solver|simpl in Hf; lia].
Qed.

(** The arrays of an operation are as long as its counts say. *)
Definition op_ok (op : FileOpState) : Prop :=
  payload_len op ≤ Z.of_nat (length (payload op)) /\ Z.of_nat (length (stat_bytes op)) = stat_size.

(** The rest of the server after at most one copy to a client. *)
Definition copied_once (e e' : E) : Prop := e' = e \/ exists h data va, e' = snd (copyToClient h data va e).

Lemma copied_spec s a h l n va k :
  rep s a -> n ≤ Z.of_nat (length l) -> wp (copied h l n va k) (fun _ s' => exists e, copied_once (a_ext a) e /\ rep s' (set_ext e a)) s.
Proof.
  intros Hr Hn. unfold copied. rewrite bool_decide_true by done. apply wpf_bind. eapply wp_outside; [apply Hr|].
  intros s1 Hl1 U1. wp_line. eexists. split; [by right; do 3 eexists|]. by eapply rep_of_links.
Qed.
Lemma file_op_response_spec s a op :
  rep s a -> op_ok op -> wp (file_op_response op) (fun _ s' => exists e, copied_once (a_ext a) e /\ rep s' (set_ext e a)) s.
Proof.
  intros Hr [Hp Hst].
  assert (Hret : forall (x : Z + SyscallResponse), wp (mret x) (fun _ s' => exists e, copied_once (a_ext a) e /\ rep s' (set_ext e a)) s).
  { intros x. apply wpf_ret. exists (a_ext a). split; [by left|]. by destruct a. }
  unfold file_op_response. destruct (op_tag op); try apply Hret.
  - destruct (bytes_or_errno (result op)) as [e|n]; [apply Hret|]. destruct (vm_handle op); [|apply Hret].
    repeat case_bool_decide; try apply Hret. apply copied_spec; [done|lia].
  - destruct (status_or_errno (result op)) as [e|n]; [apply Hret|]. destruct (vm_handle op); [|apply Hret].
    case_bool_decide; [apply Hret|]. apply copied_spec; [done|lia].
  - destruct (vm_handle op); [|apply Hret]. case_bool_decide; [|apply Hret]. apply copied_spec; [done|lia].
Qed.
(** A finished operation is answered once, and its continuation is free again. *)
Lemma processFileOpCompletion_spec s a i w op :
  rep s a -> loose a i -> infos a !! i = Some w -> state w = SFileOp op -> op_ok op ->
  wp (processFileOpCompletion i) (fun b s' => b = true /\
    exists m e, copied_once (a_ext a) e /\ rep s' (gone i (finished m w) (set_ext e a))) s.
Proof.
  intros Hr Hi Hw Hst Hop. destruct (loose_lookup _ _ _ (proj1 Hr) Hi) as (c & Hc & Hc'). rewrite Hw in Hc'. injection Hc' as ->.
  unfold processFileOpCompletion. apply wpf_bind. eapply wp_cont_at; [done|]. rewrite Hst. apply wpf_bind.
  eapply wpf_mono; [by apply file_op_response_spec|]. intros r s1 (e & He & Hr1). apply wpf_bind.
  destruct r as [errno|resp].
  - eapply (wp_finish s1 (set_ext e a) i (info c) (Failure errno)); [done..|]. intros s2 Hr2. wp_line. eauto.
  - eapply (wp_finish s1 (set_ext e a) i (info c) (Response resp)); [done..|]. intros s2 Hr2. wp_line. eauto.
Qed.

(** The events for a list of operations and the answers to them. *)
Definition answers_of (a : Abs) (done : list nat) (ms : list Message) : list Event :=
  concat (zip_with (fun i m => from_option (finished m) [] (infos a !! i)) done ms).
Definition all_answered (a a' : Abs) : Prop :=
  let done := filter (done_at a) (lists a QFiles) in
  exists ms, length ms = length done /\ a_trace a' = a_trace a ++ answers_of a done ms /\
    lists a' QFiles = filter (fun i => ~ done_at a i) (lists a QFiles) /\ lists a' QFree = reverse done ++ lists a QFree /\
    (forall q, q ≠ QFree -> q ≠ QFiles -> lists a' q = lists a q).

Lemma filter_in_ext {A} (P R : A -> Prop) `{!forall x, Decision (P x), !forall x, Decision (R x)} (l : list A) :
  (forall x, x ∈ l -> P x <-> R x) -> filter P l = filter R l.
Proof.
  induction l as [|x l IH]; intros Hl; [done|]. rewrite !filter_cons, IH by set_solver.
  destruct (decide (P x)) as [Hp|Hp], (decide (R x)) as [Hr|Hr]; try done; rewrite Hl in Hp by set_solver; done.
Qed.
Lemma filter_none {A} (P : A -> Prop) `{!forall x, Decision (P x)} (l : list A) : Forall (fun x => ~ P x) l -> filter P l = [].
Proof. induction 1 as [|x l Hx _ IH]; [done|]. by rewrite filter_cons_False. Qed.

Lemma answers_of_ext a b l ms : (forall j, j ∈ l -> infos a !! j = infos b !! j) -> answers_of a l ms = answers_of b l ms.
Proof.
  unfold answers_of. revert ms. induction l as [|j l IH]; intros [|m ms] Hl; simpl; try done.
  rewrite (Hl j) by set_solver. f_equal. apply IH. set_solver.
Qed.

(** One operation is answered, then the others. *)
Section one_more.
Context (a : Abs) (i : nat) (k r : list nat) (w : Info) (m : Message) (e : E).
Hypothesis Heq : lists a QFiles = k ++ i :: r.
Hypothesis Hni : i ∉ k ++ r.
Hypothesis Hk : Forall (fun j => ~ done_at a j) k.
Hypothesis Hd : done_at a i.
Let a2 := gone i (finished m w) (set_ext e (set_list QFiles (k ++ r) a)).

Lemma files_after : lists a2 QFiles = k ++ r.
Proof. unfold a2, gone. rewrite lists_set_ne by done. apply lists_set. Qed.
Lemma infos_after j : j ≠ i -> infos a2 !! j = infos a !! j.
Proof. intros Hj. simpl. by rewrite list_lookup_alter_ne. Qed.
Lemma done_after j : j ∈ k ++ r -> done_at a2 j <-> done_at a j.
Proof using Hni. intros Hj. unfold done_at. rewrite infos_after; [done|]. by intros ->. Qed.
Lemma finished_after : filter (done_at a2) (lists a2 QFiles) = filter (done_at a) r.
Proof using Hni Hk. rewrite files_after, (filter_in_ext _ (done_at a)) by apply done_after. rewrite filter_app. by rewrite (filter_none _ k). Qed.
Lemma finished_before : filter (done_at a) (lists a QFiles) = i :: filter (done_at a) r.
Proof using Heq Hk Hd. rewrite Heq, filter_app, filter_cons_True by done. by rewrite (filter_none _ k). Qed.

Lemma all_answered_cons a' : infos a !! i = Some w -> all_answered a2 a' -> all_answered a a'.
Proof using Heq Hni Hk Hd.
  clear resume copyToClient.
  intros Hw (ms & Hms & Htr & Hfi & Hfr & Hq). unfold all_answered. rewrite finished_before. rewrite finished_after in Hms, Htr, Hfr.
  exists (m :: ms). split; [simpl; by rewrite Hms|]. split; [|split; [|split]].
  - rewrite Htr. rewrite (answers_of_ext a2 a).
    + unfold answers_of. simpl. by rewrite Hw, <- app_assoc.
    + intros j Hj. apply list_elem_of_filter in Hj as [_ Hj]. apply infos_after. intros ->. set_solver.
  - rewrite Hfi, files_after, Heq. rewrite (filter_in_ext _ (fun j => ~ done_at a j)) by (intros j Hj; by rewrite done_after).
    rewrite !filter_app, filter_cons_False by tauto. done.
  - rewrite Hfr, reverse_cons, <- app_assoc. unfold a2, gone. by rewrite lists_set.
  - intros q Hq1 Hq2. rewrite Hq by done. unfold a2, gone. rewrite lists_set_ne by done. simpl. by rewrite decide_False.
Qed.
End one_more.

Lemma drain_ops_spec n : forall fuel s a,
  length (filter (done_at a) (lists a QFiles)) = n -> (n < fuel)%nat -> rep s a ->
  (forall i w op, i ∈ lists a QFiles -> infos a !! i = Some w -> state w = SFileOp op -> op_ok op) ->
  wp (drain_file_ops fuel) (fun _ s' => exists a', rep s' a' /\ all_answered a a') s.
Proof.
  clear resume.
  induction n as [n IH] using lt_wf_ind. intros [|fuel] s a Hn Hf Hr Hops; [lia|]. cbn [drain_file_ops].
  apply wpf_bind. eapply wpf_mono; [by apply pollCompleted_spec|]. intros [i|] s1.
  2:{ intros [Hr1 Hno]. wp_line. exists a. split; [done|].
      assert (He : filter (done_at a) (lists a QFiles) = []) by by apply filter_none.
      exists []. unfold answers_of. rewrite He. simpl. rewrite app_nil_r. repeat split; try done. by rewrite filter_keep. }
  intros (k & r & Heq & Hk & (w & Hw & Hd) & Hr1 & Hlo). set (a1 := set_list QFiles (k ++ r) a) in *.
  assert (Hdi : done_at a i) by by exists w.
  unfold isCompleted in Hd. destruct (state w) as [|?|op| |?] eqn:Hst; try done.
  apply wpf_bind. eapply wpf_mono; [eapply (processFileOpCompletion_spec s1 a1 i w op); [done|done|done|done|]|].
  { eapply Hops; [|done|done]. rewrite Heq. set_solver. }
  intros b s2 [-> (m & e & _ & Hr2)]. cbn [negb when]. wp_line. set (a2 := gone i (finished m w) (set_ext e a1)) in *.
  assert (Hni : i ∉ k ++ r) by (pose proof (proj2 Hlo QFiles I) as H; unfold a1 in H; by rewrite lists_set in H).
  assert (Hlt : (length (filter (done_at a2) (lists a2 QFiles)) < n)%nat).
  { rewrite (finished_before a i k r Heq Hk Hdi) in Hn. unfold a2, a1. rewrite finished_after by done. simpl in Hn. lia. }
  eapply wpf_mono; [apply (IH _ Hlt fuel s2 a2); [done|lia|done|]|].
  - intros j w' op' Hj Hw' Hst'. unfold a2, a1 in Hj. rewrite files_after in Hj. unfold a2, a1 in Hw'.
    rewrite infos_after in Hw' by (intros ->; done). eapply Hops; [|done|done]. rewrite Heq. set_solver.
  - intros [] s3 (a' & Hr3 & Hans). exists a'. split; [done|]. by eapply all_answered_cons.
Qed.

(** What every answer keeps, the whole loop keeps. *)
Lemma drain_inv (P : Abs -> Prop) :
  (forall a i w op, P a -> i ∈ lists a QFiles -> infos a !! i = Some w -> state w = SFileOp op -> op_ok op) ->
  (forall a i k r w m e, P a -> lists a QFiles = k ++ i :: r -> infos a !! i = Some w -> loose (set_list QFiles (k ++ r) a) i ->
     copied_once (a_ext a) e -> P (gone i (finished m w) (set_ext e (set_list QFiles (k ++ r) a)))) ->
  forall fuel s a, (length (lists a QFiles) < fuel)%nat -> rep s a -> P a ->
  wp (drain_file_ops fuel) (fun _ s' => exists a', rep s' a' /\ P a') s.
Proof. clear resume.
  intros Hops Hstep. induction fuel as [|fuel IH]; intros s a Hf Hr HP; [lia|]. cbn [drain_file_ops].
  apply wpf_bind. eapply wpf_mono; [by apply pollCompleted_spec|]. intros [i|] s1; [|intros [Hr1 _]; wp_line; eauto].
  intros (k & r & Heq & _ & (w & Hw & Hd) & Hr1 & Hlo). unfold isCompleted in Hd. destruct (state w) as [|?|op| |?] eqn:Hst; try done.
  apply wpf_bind. eapply wpf_mono; [eapply (processFileOpCompletion_spec s1 (set_list QFiles (k ++ r) a) i w op); [done|done|done|done|]|].
  { eapply Hops; [exact HP| |done|done]. rewrite Heq. set_solver. }
  intros b s2 [-> (m & e & He & Hr2)]. cbn [negb when]. wp_line. eapply IH; [|exact Hr2|by eapply Hstep].
  rewrite Heq, length_app in Hf. simpl in *. rewrite length_app. lia.
Qed.

(** ** Timers *)

Definition due (a : Abs) (timer_id : Z) (i : nat) : Prop := exists w, infos a !! i = Some w /\ waits_for_timer timer_id w = true.

Lemma resumeTimer_loop_spec timer_id event rest : forall k s a fuel,
  rep s a -> lists a QTimer = k ++ rest -> Forall (fun i => ~ due a timer_id i) k -> (length rest ≤ fuel)%nat ->
  wp (resumeTimer_loop fuel (last k) (head rest) timer_id event) (fun _ s' =>
    (rep s' a /\ Forall (fun i => ~ due a timer_id i) (lists a QTimer)) \/
    exists k i r, lists a QTimer = k ++ i :: r /\ Forall (fun i => ~ due a timer_id i) k /\ due a timer_id i /\
      rep s' (a_resume event (set_list QTimer (k ++ r) a) i)) s.
Proof.
  induction rest as [|i rest IH]; intros k s a fuel Hr Heq Hk Hf.
  - rewrite app_nil_r in Heq. destruct fuel; apply wpf_ret; left; by rewrite Heq.
  - destruct fuel as [|fuel]; [simpl in Hf; lia|]. cbn [head resumeTimer_loop].
    destruct (chain_cursor _ _ QTimer _ _ _ (proj1 Hr) I Heq) as (c & Hc & Hw & Hn).
    apply wpf_bind. eapply wp_cont_at; [done|]. destruct (waits_for_timer timer_id (info c)) eqn:Hdue.
    + pose proof (loose_removed _ _ QTimer _ _ _ (proj1 Hr) I Heq) as Hlo.
      apply wpf_bind. eapply wp_unlink; [apply Hr|exact I|done|done|]. intros s1 Hl1 U1.
      eapply wpf_mono; [eapply resumeContinuation_spec; [by eapply rep_of_links|done|done|]|].
      * intros fd Hfd. unfold waits_for_timer in Hdue. by rewrite Hfd in Hdue.
      * intros [] s2 Hr2. right. exists k, i, rest. split; [done|]. split; [done|]. split; [by exists (info c)|done].
    + replace (Some i) with (last (k ++ [i])) by apply last_snoc. rewrite Hn. apply IH; [done|by rewrite <- app_assoc| |simpl in Hf; lia].
      apply Forall_app. split; [done|]. apply Forall_singleton. intros (w & Hw' & ?). congruence.
Qed.

(** ** The start *)

Definition idle (s : St) : Prop :=
  length (pool s) = CONT_POOL_SIZE /\ length (io_queues s) = Z.to_nat MAX_FDS /\ Forall (fun h => h = None) (io_queues s) /\
  timer_list s = None /\ files s = None.
Definition abs_start (s : St) : Abs :=
  mkAbs (fun q => if decide (q = QFree) then seq 0 CONT_POOL_SIZE else []) (info <$> pool s) (trace s) (ext s).

Definition boot_inv (s0 : St) (l : list nat) (s : St) : Prop :=
  exists m, (m ≤ CONT_POOL_SIZE)%nat /\ l = rev (seq 0 m) /\ chain (pool s) (free_list s) (seq m (CONT_POOL_SIZE - m)) /\
    length (pool s) = CONT_POOL_SIZE /\ info <$> pool s = info <$> pool s0 /\ in_use s = 0 /\ io_queues s = io_queues s0 /\
    timer_list s = timer_list s0 /\ files s = files s0 /\ trace s = trace s0 /\ ext s = ext s0.

Lemma boot_step s0 i l s : boot_inv s0 (i :: l) s -> wp (bootstrap_step i) (fun _ => boot_inv s0 l) s.
Proof.
  intros (m & Hm & Hl & Hch & Hlen & Hinf & Hu & Hrest). destruct m as [|m]; [done|].
  rewrite seq_S, rev_app_distr in Hl. simpl in Hl. injection Hl as -> ->. unfold bootstrap_step. wp_line.
  destruct (lookup_lt_is_Some_2 (pool s) m ltac:(lia)) as [c Hc]. eapply wp_set_next; [done|]. wp_line.
  exists m. split; [lia|]. split; [done|]. simpl. split; [|split; [by rewrite length_insert|split; [|done]]].
  - replace (CONT_POOL_SIZE - m)%nat with (S (CONT_POOL_SIZE - S m)) by lia. simpl. split; [done|]. eexists.
    split; [rewrite list_lookup_insert_eq; [done|lia]|]. simpl. apply chain_update; [|done]. rewrite elem_of_seq. lia.
  - rewrite list_fmap_insert. simpl. rewrite list_insert_id; [done|]. by rewrite list_lookup_fmap, Hc.
Qed.
Lemma bootstrap_spec s : idle s -> wp bootstrap (fun _ s' => rep s' (abs_start s)) s.
Proof.
  intros (H1 & H2 & H3 & H4 & H5). unfold bootstrap. wp_line.
  eapply wpf_mono; [apply (wpf_iter _ _ (boot_inv s)); [|intros x r s'; apply boot_step]|].
  - exists CONT_POOL_SIZE. split; [lia|]. split; [done|]. by rewrite Nat.sub_diag.
  - intros [] s' (m & Hm & Hl & Hch & Hlen & Hinf & Hu & Hio & Hti & Hfi & Htr & Hex).
    destruct m as [|m]; [|rewrite seq_S, rev_app_distr in Hl; done].
    split; [|unfold counted_ok; simpl; by rewrite Hu]. split; simpl; try congruence.
    + intros q Hq. destruct q as [|fd| |]; simpl; [done| |congruence|congruence]. rewrite Hio.
      destruct (io_queues s !! Z.to_nat fd) as [h|] eqn:Hh; simpl; [|done]. by apply (proj1 (Forall_lookup _ _) H3) in Hh.
    + intros q _. destruct (decide (q = QFree)); [exact (NoDup_seq 0 CONT_POOL_SIZE)|constructor].
    + intros q1 q2 i _ _ Hi1 Hi2. destruct (decide (q1 = QFree)); [|by apply elem_of_nil in Hi1].
      destruct (decide (q2 = QFree)); [congruence|by apply elem_of_nil in Hi2].
    + intros fd i w _ Hi. by apply elem_of_nil in Hi.
Qed.

(** ** Theorems *)

(** C8: Readiness of a descriptor resumes each of the continuations that wait for it
    once, in the order of its queue: those that complete or fail get one reply, their
    reply object is deleted and freed, and they go back to the pool; those that try
    again wait once more, and are not resumed a second time. *)
Theorem resumeIO_correct s a fd event :
  rep s a -> valid (QIo fd) ->
  wp (resumeIO fd event) (fun _ s' => rep s' (foldl (a_resume event) (set_list (QIo fd) [] a) (lists a (QIo fd)))) s.
Proof. apply resumeIO_spec. Qed.

(** C9: When a client goes away, all its continuations leave the queues, without a
    reply; each has its reply object deleted and freed once and goes back to the pool;
    the continuations of the other clients stay in their queues and in order. *)
Theorem cancel_client_correct s a who :
  rep s a ->
  let victims := concat ((fun q => filter (mine a who) (lists a q)) <$> waiting) in
  wp (continuation_cancel_client who) (fun _ s' => exists a', rep s' a' /\
    (forall q, valid q -> q ≠ QFree -> lists a' q = filter (fun i => ~ mine a who i) (lists a q)) /\
    lists a' QFree = reverse victims ++ lists a QFree /\
    a_trace a' = a_trace a ++ concat (release_of a <$> victims)) s.
Proof.
  intros Hr victims. destruct waiting_ok as [Hnd Hok].
  assert (Hrun : wp (iterM (cancel_queue who) waiting) (fun _ s' => rep s' (foldl (a_cancel who) a waiting)) s) by by apply cancel_all_spec.
  destruct (cancel_facts who waiting a Hnd) as (F1 & F2 & F3).
  - eapply Forall_impl; [exact Hok|by intros q []].
  - intros q i Hq Hi. pose proof (proj1 (Forall_forall _ _) Hok q Hq) as [Hv _].
    apply list_elem_of_split in Hi as (k & r & Heq). destruct (chain_cursor _ _ _ _ _ _ (proj1 Hr) Hv Heq) as (c & _ & Hw & _). eauto.
  - eapply wpf_mono; [by apply cancel_client_runs|]. intros [] s' Hr'. exists (foldl (a_cancel who) a waiting). split; [exact Hr'|].
    split; [|exact (conj F1 F2)]. intros q Hv Hq. rewrite (F3 q Hq). apply decide_True. by apply waiting_all.
Qed.

(** C10: The loop that looks for finished file operations answers every one of them:
    each gets one reply, its reply object is deleted and freed, and its continuation
    goes back to the pool; the operations under way stay in their queue and in order. *)
Theorem file_ops_answered s a :
  rep s a ->
  (forall i w op, i ∈ lists a QFiles -> infos a !! i = Some w -> state w = SFileOp op -> op_ok op) ->
  wp (drain_file_ops (S CONT_POOL_SIZE)) (fun _ s' => exists a', rep s' a' /\ all_answered a a') s.
Proof.
  intros Hr Hops. eapply drain_ops_spec; [done| |done|done].
  pose proof (length_filter (done_at a) (lists a QFiles)). pose proof (list_bound _ _ QFiles (proj1 Hr) I). lia.
Qed.

End continuations.
