(* ===== verification/ContDemo.v ===== *)
(** * Runs of the continuations

    A server without other state, with three resume functions: one that completes,
    one that tries again and one that fails; the witnesses of the theorems on
    continuations, and a cancellation that frees an operation under way. *)

From S2P Require Import Prelude Errno FileWork Syscall Continuation.

Definition demo_resume (w : Info) (event : Z) (e : unit) : ContinuationResult * unit :=
  if bool_decide (resume_fn w = 0) then (Complete (MessageInfo_new 0 0 0 1), e)
  else if bool_decide (resume_fn w = 1) then (Retry, e)
  else (pageFaultResume EIO, e).
Definition demo_copy (h : Z) (l : list Z) (va : Z) (e : unit) : (Z + unit) * unit := (inr tt, e).

Abbreviation St := (@St unit).
Definition blank : Info := mkInfo 0 0 0 0 SCustom (OnIRQ 0).
Definition cold : St := mkSt (replicate CONT_POOL_SIZE (Cont None blank)) None 0 (replicate 32 None) None None [] tt.

Lemma cold_idle : idle cold.
Proof. repeat split; try (vm_compute; reflexivity). apply Forall_replicate. done. Qed.

(** Take a continuation from the pool, fill it in and let it wait. *)
Definition suspend (q : Q) (w : Info) : M St unit :=
  o ← alloc;
  match o with
  | None => mret tt
  | Some i => set_info i (fun _ => w);; push q i
  end.
Definition suspended (q : Q) (w : Info) (a : @Abs unit) : @Abs unit :=
  match lists a QFree with
  | [] => a
  | i :: l => let a1 := alter_info i (fun _ => w) (set_list QFree l a) in set_list q (i :: lists a1 q) a1
  end.
Lemma suspend_spec q w s a :
  rep s a -> valid q -> q ≠ QFree -> (forall fd, q = QIo fd -> wait_on w = OnIO fd) ->
  wp (suspend q w) (fun _ s' => rep s' (suspended q w a)) s.
Proof.
  intros Hr Hv Hq Hw. unfold suspend, suspended. apply wpf_bind. eapply wpf_mono; [by apply wp_alloc|].
  intros [i|] s1; destruct (lists a QFree) as [|j l]; try done; [|by intros ->].
  intros (-> & Hr1 & Hlo). apply wpf_bind. eapply wp_set_info; [apply Hr1|done|]. intros s2 Hl2 U2.
  assert (Hr2 : rep s2 (alter_info j (fun _ => w) (set_list QFree l a))) by by eapply rep_of_links.
  eapply (wp_push s2 (alter_info j (fun _ => w) (set_list QFree l a))); [done|done|done| |].
  - intros fd w' -> Hw'. simpl in Hw'. rewrite list_lookup_alter_eq in Hw'.
    destruct (infos a !! j); [|done]. injection Hw' as <-. by apply Hw.
  - intros s3 Hl3 U3. eapply rep_of_links; [exact Hr2|done|done|]. by apply lists_set_ne, not_eq_sym.
Qed.

(** Two clients wait for the console; the first also for a file operation that is
    finished, the second for one that is not. *)
Definition reader (c fn r : Z) : Info := mkInfo c r (r + 1000) fn (SRead 0 c 0 0 0) (OnIO 0).
Definition file_op (c r : Z) (fin : bool) : Info :=
  mkInfo c r (r + 1000) 2 (SFileOp (mkOp WWrite 0 0 [] 0 (replicate 32 0) (Some c) (Bytes 7) fin)) OnFileOp.
Definition scene : M St unit :=
  bootstrap;; suspend (QIo 0) (reader 1 1 51);; suspend (QIo 0) (reader 2 0 52);; suspend QFiles (file_op 1 53 true);;
  suspend QFiles (file_op 2 54 false).
Definition scene_abs : @Abs unit :=
  suspended QFiles (file_op 2 54 false) (suspended QFiles (file_op 1 53 true)
    (suspended (QIo 0) (reader 2 0 52) (suspended (QIo 0) (reader 1 1 51) (abs_start cold)))).

Lemma scene_spec : wp scene (fun _ s => rep s scene_abs) cold.
Proof.
  unfold scene. apply wpf_bind. eapply wpf_mono; [apply bootstrap_spec, cold_idle|]. intros [] s0 H0.
  apply wpf_bind. eapply wpf_mono; [apply (suspend_spec (QIo 0)); [exact H0|done|done|]; by intros fd [= <-]|]. intros [] s1 H1.
  apply wpf_bind. eapply wpf_mono; [apply (suspend_spec (QIo 0)); [exact H1|done|done|]; by intros fd [= <-]|]. intros [] s2 H2.
  apply wpf_bind. eapply wpf_mono; [apply (suspend_spec QFiles); [exact H2|done|done|done]|]. intros [] s3 H3.
  apply (suspend_spec QFiles); [exact H3|done|done|done].
Qed.
Definition scene_state : St := match scene cold with Ok (_, s) => s | Fault _ => cold end.
Lemma scene_rep : rep scene_state scene_abs.
Proof. destruct (wp_inv _ _ _ scene_spec) as ([] & s & Hs & Hr). unfold scene_state. by rewrite Hs. Qed.

Lemma resumeIO_correct_witness :
  wp (resumeIO demo_resume 0 0) (fun _ s' => trace s' =
    [Send 52 (Raw (MessageInfo_new 0 0 0 1)); Delete 52; FreeSlot 52; UtFree 1052]) scene_state.
Proof.
  assert (Hv : valid (QIo 0)) by (split; [lia|reflexivity]).
  eapply wpf_mono; [exact (resumeIO_correct demo_resume scene_state scene_abs 0 0 scene_rep Hv)|].
  intros [] s' [Hl _]. rewrite <- (rp_trace _ _ Hl). vm_compute. reflexivity.
Defined.
Lemma cancel_client_correct_witness :
  wp (continuation_cancel_client 2) (fun _ s' => trace s' =
    [Delete 52; FreeSlot 52; UtFree 1052; Delete 54; FreeSlot 54; UtFree 1054]) scene_state.
Proof.
  pose proof (cancel_client_correct scene_state scene_abs 2 scene_rep) as Hc. cbv zeta in Hc.
  eapply wpf_mono; [exact Hc|].
  intros [] s' (a' & [Hl _] & _ & _ & Htr). rewrite <- (rp_trace _ _ Hl), Htr. vm_compute. reflexivity.
Defined.
Lemma file_ops_answered_witness :
  wp (drain_file_ops demo_copy (S CONT_POOL_SIZE)) (fun _ s' =>
    exists m, trace s' = [Send 53 m; Delete 53; FreeSlot 53; UtFree 1053]) scene_state.
Proof.
  assert (Hops : forall i w op, i ∈ lists scene_abs QFiles -> infos scene_abs !! i = Some w -> state w = SFileOp op -> op_ok op).
  { intros i w op Hi. assert (Hl : lists scene_abs QFiles = [3%nat; 2%nat]) by (vm_compute; reflexivity). rewrite Hl in Hi.
    rewrite !elem_of_cons in Hi. destruct Hi as [->|[->|[]%elem_of_nil]]; vm_compute; intros [= <-] [= <-]; by split. }
  eapply wpf_mono; [exact (file_ops_answered demo_copy scene_state scene_abs scene_rep Hops)|].
  intros [] s' (a' & [Hl _] & ms & Hms & Htr & _). rewrite <- (rp_trace _ _ Hl), Htr.
  assert (Hd : filter (done_at scene_abs) (lists scene_abs QFiles) = [2%nat]) by (vm_compute; reflexivity).
  rewrite Hd in Hms |- *. destruct ms as [|m [|]]; try discriminate. exists m. vm_compute. reflexivity.
Defined.

(** The operation of client 2 is under way: a worker holds its address.  After the
    cancellation its continuation is free, and the next system call that waits gets
    it, while the worker will still store its result there. *)
Lemma cancelled_while_running :
  value_of ((s ← get; continuation_cancel_client 2;; o ← alloc; mret (files s, o)) scene_state) = Some (Some 3%nat, Some 3%nat).
Proof. vm_compute. reflexivity. Qed.
