(* ===== verification/Server.v ===== *)
(** * The system calls of the server

    Models [sos/src/main.zig]: the decoding and dispatch of a system call, its
    fourteen handlers, and the suspension of a call that cannot be answered at once;
    with [ts_usleep] and its callback of [sos/src/sys/time.c].

    The server holds one reply object, on which it received the message.  To suspend
    a call it stores this object in a continuation, or gives it to a timer, and
    creates another for the next message.

    The parts of the server are those of the other files: [Console], the descriptors
    of the clients ([FileTable]), the copies ([UserCopy]), the continuations.  Below
    them are two interfaces: the memory of the clients, and what the server calls of
    the kernel, the allocator, the timer and the workers. *)

From S2P Require Import Prelude VmRegion VmMmap Errno Clients UserCopy FileTable Console FileWork Syscall Continuation.

(** ** Interfaces *)

(** For the client with the given identifier. *)
Class VmEnv (U : Type) := {
  user_mem : Z -> UserMem U;
  vm_state_lookup : Z -> U -> bool;
  vm_brk : Z -> Z -> M U (VmError + Z);
  vm_mmap : Z -> Z -> Z -> Z -> Z -> Z -> Z -> M (ClientIoState * U) (VmError + Z) }.

(** What a worker is asked to do. *)
Inductive Request := ReqFile (p : WorkParams) | ReqDirent (index capacity : Z).

(** [alloc_retype] gives the value that it leaves in the place for the capability, and
    the untyped memory when it succeeds; it knows the objects that were created and
    deleted.  [enqueue_work] has a continuation, the identifier of the client and the request. *)
Class ServerEnv (K : Type) := {
  alloc_retype : list Event -> K -> (Z * option Z) * K;
  enqueue_work : nat -> Z -> Request -> K -> Z * K;
  malloc : K -> bool * K;
  register_timer : Z -> K -> option Z * K;
  get_time : K -> Z;
  pager_stats : K -> Z * Z * Z * Z * Z;
  network_console_send : K -> list Z -> Z }.

(** ** Paths *)

Definition OPEN_PATH_CAPACITY : Z := 256.
Inductive NormalisePathError := NameTooLong | InvalidComponent | EmptyPath.

(** [std.mem.indexOf(u8, l, "..")] *)
Fixpoint has_dots (l : list Z) : bool :=
  match l with
  | a :: ((b :: _) as l') => (bool_decide (a = 46) && bool_decide (b = 46)) || has_dots l'
  | _ => false
  end.
(** The bytes of [out] before the terminating zero. *)
Definition normaliseInto (out_len : Z) (input : list Z) : NormalisePathError + list Z :=
  if bool_decide (out_len = 0) then inl NameTooLong
  else if bool_decide (input = []) then inl EmptyPath
  else if bool_decide (out_len ≤ Z.of_nat (length input)) then inl NameTooLong
  else if bool_decide (47 ∈ input) then inl InvalidComponent
  else if bool_decide (92 ∈ input) then inl InvalidComponent
  else if has_dots input then inl InvalidComponent
  else inr input.
Definition initFromSlice (input : list Z) : NormalisePathError + list Z := normaliseInto OPEN_PATH_CAPACITY input.
Definition copyTo (dest_len : Z) (path : list Z) : NormalisePathError + list Z :=
  if bool_decide (dest_len ≤ Z.of_nat (length path)) then inl NameTooLong else inr path.
Definition path_errno (err : NormalisePathError) : Z :=
  match err with NameTooLong => ENAMETOOLONG | InvalidComponent => EPERM | EmptyPath => EINVAL end.
(** The two steps that every request with a path takes. *)
Definition request_path (input : list Z) : NormalisePathError + list Z :=
  match initFromSlice input with inl err => inl err | inr path => copyTo OPEN_PATH_CAPACITY path end.

(** ["console"] *)
Definition console_name : list Z := [99; 111; 110; 115; 111; 108; 101].

(** ** State *)

Section server.
Context {U K : Type} `{VmEnv U} `{ServerEnv K}.

(** [sleepers] are the contexts of [ts_usleep], by the identifier of their timer. *)
Record Rest := mkRest {
  dev : Console; ios : list ClientIoState; users : U; kern : K; regs : Regs; sleepers : list (Z * (Z * Z)) }.
Record Server := mkServer { conts : @St Rest; sreply : Z; sreply_ut : Z; have_reply : bool }.
(** [vm_found] says that there is a handle of the memory of the caller. *)
Record ServerContext := Ctx { badge : Z; caller : option Z; vm_found : bool }.
Abbreviation Handler := (M Server (option SyscallResponse)).

Definition with_ext (e : Rest) (s : @St Rest) : @St Rest :=
  mkSt (pool s) (free_list s) (in_use s) (io_queues s) (timer_list s) (files s) (trace s) e.
Definition on_conts {A} (m : M (@St Rest) A) : M Server A :=
  zoom conts (fun c s => mkServer c (sreply s) (sreply_ut s) (have_reply s)) m.
Definition on_rest {A} (m : M Rest A) : M Server A := on_conts (zoom ext with_ext m).
Definition set_reply (r ut : Z) : M Server unit := modify (fun s => mkServer (conts s) r ut (have_reply s)).
Definition set_have_reply (b : bool) : M Server unit := modify (fun s => mkServer (conts s) (sreply s) (sreply_ut s) b).

Definition on_dev {A} (m : M Console A) : M Rest A :=
  zoom dev (fun d r => mkRest d (ios r) (users r) (kern r) (regs r) (sleepers r)) m.
Definition on_users {A} (m : M U A) : M Rest A :=
  zoom users (fun u r => mkRest (dev r) (ios r) u (kern r) (regs r) (sleepers r)) m.
Definition on_regs {A} (m : M Regs A) : M Rest A :=
  zoom regs (fun v r => mkRest (dev r) (ios r) (users r) (kern r) v (sleepers r)) m.
Definition in_kern {A} (f : K -> A * K) : M Rest A :=
  r ← get;
  let '(a, k) := f (kern r) in
  put (mkRest (dev r) (ios r) (users r) k (regs r) (sleepers r));; mret a.
(** The console and the descriptors of a client. *)
Definition on_cw {A} (id : nat) (m : M (Console * ClientIoState) A) : M Rest A :=
  r ← get;
  s ← access (ios r !! id);
  zoom (fun _ => (dev r, s)) (fun w r => mkRest (fst w) (<[id := snd w]> (ios r)) (users r) (kern r) (regs r) (sleepers r)) m.
Definition io_state (id : nat) : M Rest ClientIoState := r ← get; access (ios r !! id).

Definition answer (r : SyscallResponse) : Handler := mret (Some r).
(** [@intCast] of a word to [c_int] is illegal when the value does not fit. *)
Definition as_c_int {S} (w : Z) : M S Z := if bool_decide (w < 2 ^ 31) then mret w else throw Undefined.

(** ** Suspension *)

Definition retype : M Server (option Z) :=
  s ← get;
  r ← on_rest (in_kern (alloc_retype (trace (conts s))));
  set_reply (fst r) (sreply_ut s);;
  match snd r with
  | None => mret None
  | Some ut => on_conts (emit (Retype (fst r) ut));; mret (Some ut)
  end.

(** How every call is suspended: a continuation and a reply object are allocated; the
    rest has the continuation, the old reply with its memory, and the new memory. *)
Definition begin_async (enomem : SyscallResponse) (k : nat -> Z -> Z -> Z -> Handler) : Handler :=
  o ← on_conts Continuation.alloc;
  match o with
  | None => answer enomem
  | Some i =>
    s ← get;
    n ← retype;
    match n with
    | None => on_conts (free i);; set_reply (sreply s) (sreply_ut s);; answer enomem
    | Some new_ut => k i (sreply s) (sreply_ut s) new_ut
    end
  end.
(** The functions that a continuation can be resumed with. *)
Definition fileOpResume_fn : Z := 0.
Definition readResumeFn_fn : Z := 1.
Definition fill (i : nat) (who old old_ut fn : Z) (st : ContinuationState) : M Server unit :=
  on_conts (set_info i (fun w => mkInfo who old old_ut fn st (wait_on w))).
Definition abort (i : nat) (old old_ut new_ut : Z) : M Server unit :=
  on_conts (FileOpQueue_remove i);;
  set_reply old old_ut;;
  on_conts (emit (UtFree new_ut));;
  on_conts (cleanup i);;
  on_conts (free i).
Definition submit (i : nat) (old old_ut new_ut client_id : Z) (req : Request) (resp : Z -> SyscallResponse) : Handler :=
  on_conts (FileOpQueue_enqueue i);;
  rc ← on_rest (in_kern (enqueue_work i client_id req));
  if bool_decide (rc < 0) then abort i old old_ut new_ut;; answer (resp rc)
  else
    s ← get;
    set_have_reply false;; set_reply (sreply s) new_ut;; mret None.
(** [FileOpState] after [reset], with the parameters that the reply needs. *)
Definition fresh_op (tag : WorkType) (out_buf out_len : Z) (vm : option Z) : ContinuationState :=
  SFileOp (mkOp tag out_buf out_len (replicate (Z.to_nat WRITE_BUFFER_CAPACITY) 0) 0 (replicate (Z.to_nat stat_size) 0) vm (Errno 0) false).

Definition startAsyncGetDirent (id : nat) (index out_addr out_len : Z) : Handler :=
  begin_async (RGetDirent (- ENOMEM)) (fun i old old_ut new_ut =>
    if bool_decide (out_len ≤ 1) then
      on_conts (free i);; set_reply old old_ut;; answer (RGetDirent (- ENAMETOOLONG))
    else
      let capacity := Z.min (out_len - 1) WRITE_BUFFER_CAPACITY in
      fill i (Z.of_nat id) old old_ut fileOpResume_fn (fresh_op WGetDirent out_addr out_len (Some (Z.of_nat id)));;
      submit i old old_ut new_ut (Z.of_nat id) (ReqDirent index capacity) RGetDirent).

Definition startAsyncOpen (id : nat) (path : list Z) (flags : Z) : Handler :=
  if bool_decide (path = []) then answer (ROpen (- EINVAL))
  else
    begin_async (ROpen (- ENOMEM)) (fun i old old_ut new_ut =>
      fill i (Z.of_nat id) old old_ut fileOpResume_fn (fresh_op WOpen 0 0 None);;
      match request_path path with
      | inl err => abort i old old_ut new_ut;; answer (ROpen (- path_errno err))
      | inr p => submit i old old_ut new_ut (Z.of_nat id) (ReqFile (POpen p flags)) ROpen
      end).

Definition startAsyncUnlink (id : nat) (path : list Z) : Handler :=
  if bool_decide (path = []) then answer (RUnlink (- EINVAL))
  else
    begin_async (RUnlink (- ENOMEM)) (fun i old old_ut new_ut =>
      fill i (Z.of_nat id) old old_ut fileOpResume_fn (fresh_op WUnlink 0 0 None);;
      match request_path path with
      | inl err => abort i old old_ut new_ut;; answer (RUnlink (- path_errno err))
      | inr p => submit i old old_ut new_ut (Z.of_nat id) (ReqFile (PUnlink p)) RUnlink
      end).

(** The checks of a descriptor before a request for a regular file: an error, or nothing. *)
Definition check_fd (id : nat) (fd : Z) (ok : FileTable.File -> bool) : M Rest (option Z) :=
  h ← on_cw id (cio (on_table (getHandle fd)));
  match h with
  | inl err => mret (Some (mapFileTableError err))
  | inr _ =>
    s ← io_state id;
    if bool_decide (Z.of_nat (length (fds s)) ≤ fd) then mret (Some EBADF)
    else
      f ← access (fds s !! Z.to_nat fd);
      if negb (f_used f) || bool_decide (FileTable.kind f ≠ KRegular) then mret (Some EBADF)
      else if negb (ok f) then mret (Some EBADF)
      else mret None
  end.

Definition startAsyncRead (id : nat) (fd user_buf requested : Z) : Handler :=
  e ← on_rest (check_fd id fd readable);
  match e with
  | Some errno => answer (RRead (- errno))
  | None =>
    begin_async (RRead (- ENOMEM)) (fun i old old_ut new_ut =>
      fill i (Z.of_nat id) old old_ut fileOpResume_fn (fresh_op WRead user_buf 0 (Some (Z.of_nat id)));;
      submit i old old_ut new_ut (Z.of_nat id) (ReqFile (PRead fd requested user_buf)) RRead)
  end.

Definition startAsyncWrite (id : nat) (fd user_buf requested : Z) : Handler :=
  e ← on_rest (check_fd id fd writable);
  match e with
  | Some errno => answer (RWrite (- errno))
  | None =>
    begin_async (RWrite (- ENOMEM)) (fun i old old_ut new_ut =>
      fill i (Z.of_nat id) old old_ut fileOpResume_fn (fresh_op WWrite user_buf 0 (Some (Z.of_nat id)));;
      submit i old old_ut new_ut (Z.of_nat id) (ReqFile (PWrite fd requested user_buf)) RWrite)
  end.

Definition startAsyncLseek (id : nat) (fd offset whence : Z) : Handler :=
  e ← on_rest (check_fd id fd (fun _ => true));
  match e with
  | Some errno => answer (RLseek (- errno))
  | None =>
    begin_async (RLseek (- ENOMEM)) (fun i old old_ut new_ut =>
      fill i (Z.of_nat id) old old_ut fileOpResume_fn (fresh_op WLseek 0 0 None);;
      submit i old old_ut new_ut (Z.of_nat id) (ReqFile (PLseek fd offset whence)) RLseek)
  end.

Definition startAsyncStat (id : nat) (path : list Z) (out_addr out_len : Z) : Handler :=
  begin_async (RStat (- ENOMEM)) (fun i old old_ut new_ut =>
    fill i (Z.of_nat id) old old_ut fileOpResume_fn (fresh_op WStat out_addr out_len (Some (Z.of_nat id)));;
    match request_path path with
    | inl err => abort i old old_ut new_ut;; answer (RStat (- path_errno err))
    | inr p => submit i old old_ut new_ut (Z.of_nat id) (ReqFile (PStat p out_len)) RStat
    end).

Definition startAsyncClose (id : nat) (fd : Z) : Handler :=
  h ← on_rest (on_cw id (cio (on_table (getHandle fd))));
  match h with
  | inl err => answer (RClose (- mapFileTableError err))
  | inr _ =>
    begin_async (RClose (- ENOMEM)) (fun i old old_ut new_ut =>
      fill i (Z.of_nat id) old old_ut fileOpResume_fn (fresh_op WClose 0 0 None);;
      submit i old old_ut new_ut (Z.of_nat id) (ReqFile (PClose fd)) RClose)
  end.

(** ** Handlers *)

(** How most of the handlers begin: the caller and its context. *)
Definition with_client (ctx : ServerContext) (resp : Z -> SyscallResponse) (k : nat -> Handler) : Handler :=
  match caller ctx with
  | None => answer (resp (- EINVAL))
  | Some id => if bool_decide (MAX_CLIENTS ≤ id) then answer (resp (- EINVAL)) else k (Z.to_nat id)
  end.
Definition with_vm (ctx : ServerContext) (resp : Z -> SyscallResponse) (k : Handler) : Handler :=
  if vm_found ctx then k else answer (resp (- EINVAL)).
(** The string at an address of the client. *)
Definition with_path (id : nat) (addr : Z) (resp : Z -> SyscallResponse) (k : list Z -> Handler) : Handler :=
  r ← on_rest (on_users (@copyCStringFromClient U (user_mem (Z.of_nat id)) addr OPEN_PATH_CAPACITY));
  match r with
  | inl err => answer (resp (- vmErrorToErrno err))
  | inr (buf, copied) =>
    if bool_decide (copied = 0) then answer (resp (- EINVAL))
    else if bool_decide (OPEN_PATH_CAPACITY ≤ copied) then answer (resp (- ENAMETOOLONG))
    else k (take (Z.to_nat copied) buf)
  end.
Definition first_use (id : nat) : M Server unit := on_rest (on_cw id (ensureStdio (Z.of_nat id))).

Definition handleOpen (ctx : ServerContext) (arg buf_addr buf_size : Z) : Handler :=
  with_client ctx ROpen (fun id =>
    first_use id;;
    flags ← as_c_int arg;
    if bool_decide (buf_size = 0) then answer (ROpen (- EINVAL))
    else if bool_decide (OPEN_PATH_CAPACITY < buf_size) then answer (ROpen (- ENAMETOOLONG))
    else
      with_vm ctx ROpen (with_path id buf_addr ROpen (fun path =>
        if bool_decide (path = console_name) then
          r ← on_rest (on_cw id (handleConsoleOpen (Z.of_nat id) flags)); answer (ROpen r)
        else startAsyncOpen id path flags))).

(** The number of a descriptor in the range, or nothing. *)
Definition fd_in_range (fd : Z) : bool := negb (bool_decide (fd < 0) || bool_decide (SOS_MAX_OPEN_FILES ≤ fd)).
Definition console_entry (s : ClientIoState) (fd : Z) : option FileTable.File :=
  match fds s !! Z.to_nat fd with Some f => if is_console f then Some f else None | None => None end.

Definition handleClose (ctx : ServerContext) (arg : Z) : Handler :=
  with_client ctx RClose (fun id =>
    first_use id;;
    s ← on_rest (io_state id);
    if negb (initialised s) then answer (RClose (- EBADF))
    else
      fd ← as_c_int arg;
      if negb (fd_in_range fd) then answer (RClose (- EBADF))
      else
        match console_entry s fd with
        | Some _ => r ← on_rest (on_cw id (close_console (Z.of_nat id) (Z.to_nat fd))); answer (RClose r)
        | None => startAsyncClose id fd
        end).

(** The state while the console is read into the memory of a client: the flag that the
    read would block, the console, and the memory. *)
Definition beside_mem {X} (m : UserMem U) : UserMem (X * U) := {|
  findPage pb w := @findPage U m pb (snd w); pageState pb w := @pageState U m pb (snd w);
  handleFault pb b := zoom snd (fun u w => (fst w, u)) (@handleFault U m pb b);
  UserCopy.load f o n w := @UserCopy.load U m f o n (snd w);
  UserCopy.store f o l w := (fst w, @UserCopy.store U m f o l (snd w));
  markPageAccess pb b w := (fst w, @markPageAccess U m pb b (snd w)) |}.
(** [ReadCtx.op] *)
Definition read_op (m : UserMem U) (slice : UserSlice) : M ((bool * Console) * U) (Z + Z) :=
  r ← zoom (fun w => snd (fst w)) (fun c w => ((fst (fst w), c), snd w)) (console_read (len slice));
  match r with
  | None => modify (fun w => ((true, snd (fst w)), snd w));; mret (inr 0)
  | Some l =>
    modify (fun w => (fst w, @UserCopy.store U m (frame slice) (off slice) l (snd w)));; mret (inr (Z.of_nat (length l)))
  end.
(** [WriteCtx.op] *)
Definition write_op (send : list Z -> Z) (m : UserMem U) (slice : UserSlice) : M (Console * U) (Z + Z) :=
  w ← get;
  r ← zoom fst (fun c w => (c, snd w)) (console_write send (@UserCopy.load U m (frame slice) (off slice) (len slice) (snd w)));
  if bool_decide (r < 0) then mret (inl (- r)) else mret (inr r).
(** What the two transfers return: the bytes moved and whether the read would block. *)
Definition read_console (id : nat) (buf req : Z) : M Rest ((SliceError + Z) * bool) :=
  r ← get;
  zoom (fun r => ((false, dev r), users r)) (fun w r => mkRest (snd (fst w)) (ios r) (snd w) (kern r) (regs r) (sleepers r))
    (v ← @withUserSlice _ (beside_mem (user_mem (Z.of_nat id))) buf req true (read_op (user_mem (Z.of_nat id)));
     w ← get; mret (v, fst (fst w))).
Definition write_console (id : nat) (buf req : Z) : M Rest (SliceError + Z) :=
  r ← get;
  zoom (fun r => (dev r, users r)) (fun w r => mkRest (fst w) (ios r) (snd w) (kern r) (regs r) (sleepers r))
    (@withUserSlice _ (beside_mem (user_mem (Z.of_nat id))) buf req false
       (write_op (network_console_send (kern r)) (user_mem (Z.of_nat id)))).
Definition slice_errno (e : SliceError) : Z := match e with VmErr err => vmErrorToErrno err | DeviceError errno => errno end.

Definition CONSOLE_STDIN_FD : Z := 0.
(** Wait for input. *)
Definition suspend_read (id : nat) (fd : nat) (buf req dev_id : Z) : Handler :=
  begin_async (RRead (- ENOMEM)) (fun i old old_ut new_ut =>
    fill i (Z.of_nat id) old old_ut readResumeFn_fn (SRead fd (Z.of_nat id) buf req dev_id);;
    on_conts (waitIO i CONSOLE_STDIN_FD);;
    s ← get;
    set_have_reply false;; set_reply (sreply s) new_ut;; mret None).

Definition handleRead (ctx : ServerContext) (arg buf_addr buf_size : Z) : Handler :=
  with_client ctx RRead (fun id =>
    first_use id;;
    s ← on_rest (io_state id);
    if negb (initialised s) then answer (RRead (- EBADF))
    else
      fd ← as_c_int arg;
      if negb (fd_in_range fd) then answer (RRead (- EBADF))
      else if bool_decide (buf_size = 0) then answer (RRead 0)
      else
        with_vm ctx RRead (
          match console_entry s fd with
          | Some entry =>
            if negb (readable entry) then answer (RRead (- EBADF))
            else
              match ops entry with
              | None => answer (RRead (- ENOSYS))
              | Some _ =>
                r ← on_rest (read_console id buf_addr buf_size);
                match fst r with
                | inl err => answer (RRead (- slice_errno err))
                | inr moved =>
                  if bool_decide (moved = 0) && snd r then suspend_read id (Z.to_nat fd) buf_addr buf_size (dev_id entry)
                  else moved ← as_c_int moved; answer (RRead moved)
                end
              end
          | None => startAsyncRead id fd buf_addr buf_size
          end)).

Definition handleWrite (ctx : ServerContext) (arg buf_addr buf_size : Z) : Handler :=
  with_client ctx RWrite (fun id =>
    first_use id;;
    s ← on_rest (io_state id);
    if negb (initialised s) then answer (RWrite (- EBADF))
    else
      fd ← as_c_int arg;
      if negb (fd_in_range fd) then answer (RWrite (- EBADF))
      else if bool_decide (buf_size = 0) then answer (RWrite 0)
      else
        with_vm ctx RWrite (
          match console_entry s fd with
          | Some entry =>
            if negb (writable entry) then answer (RWrite (- EBADF))
            else
              _ ← deref (ops entry);
              r ← on_rest (write_console id buf_addr buf_size);
              match r with
              | inl err => answer (RWrite (- slice_errno err))
              | inr moved => moved ← as_c_int moved; answer (RWrite moved)
              end
          | None => startAsyncWrite id fd buf_addr buf_size
          end)).

Definition handleLseek (ctx : ServerContext) (fd_word offset whence : Z) : Handler :=
  with_client ctx RLseek (fun id =>
    first_use id;;
    s ← on_rest (io_state id);
    if negb (initialised s) then answer (RLseek (- EBADF))
    else
      fd ← wordToCInt fd_word;
      if negb (fd_in_range fd) then answer (RLseek (- EBADF))
      else
        wh ← wordToCInt whence;
        if bool_decide (wh ≠ SEEK_SET) && bool_decide (wh ≠ SEEK_CUR) && bool_decide (wh ≠ SEEK_END) then answer (RLseek (- EINVAL))
        else startAsyncLseek id fd (wordToI64 offset) wh).

(** The bytes of the [sos_stat_t] of the console: [ST_SPECIAL], [FM_READ | FM_WRITE], and
    three fields that are zero; the four bytes of padding are shown as zero too. *)
Definition console_stat : list Z := [2; 0; 0; 0; 6; 0; 0; 0] ++ replicate 24 0.
Definition handleStat (ctx : ServerContext) (path_addr path_len out_addr out_len : Z) : Handler :=
  with_client ctx RStat (fun id =>
    first_use id;;
    if bool_decide (path_len = 0) || bool_decide (OPEN_PATH_CAPACITY < path_len) then answer (RStat (- EINVAL))
    else if bool_decide (out_len < stat_size) then answer (RStat (- ENOMEM))
    else
      with_vm ctx RStat (with_path id path_addr RStat (fun path =>
        if bool_decide (path = console_name) then
          r ← on_rest (on_users (@UserCopy.copyToClient U (user_mem (Z.of_nat id)) console_stat out_addr));
          answer (RStat match r with inl err => - vmErrorToErrno err | inr _ => 0 end)
        else startAsyncStat id path out_addr out_len))).

Definition handleUnlink (ctx : ServerContext) (path_addr path_len : Z) : Handler :=
  with_client ctx RUnlink (fun id =>
    with_vm ctx RUnlink (
      if bool_decide (path_len = 0) || bool_decide (OPEN_PATH_CAPACITY < path_len) then answer (RUnlink (- EINVAL))
      else with_path id path_addr RUnlink (fun path => startAsyncUnlink id path))).

Definition handleGetDirent (ctx : ServerContext) (index buf_addr buf_size : Z) : Handler :=
  with_client ctx RGetDirent (fun id =>
    with_vm ctx RGetDirent (
      if bool_decide (buf_size = 0) then answer (RGetDirent (- EINVAL))
      else if bool_decide (index = 0) then
        let need := Z.of_nat (length console_name) in
        if bool_decide (buf_size < need + 1) then answer (RGetDirent (- ENAMETOOLONG))
        else
          r ← on_rest (on_users (@UserCopy.copyToClient U (user_mem (Z.of_nat id)) console_name buf_addr));
          match r with
          | inl err => answer (RGetDirent (- vmErrorToErrno err))
          | inr _ =>
            a ← usize (buf_addr + need);
            r ← on_rest (on_users (@UserCopy.copyToClient U (user_mem (Z.of_nat id)) [0] a));
            answer (RGetDirent match r with inl err => - vmErrorToErrno err | inr _ => need end)
          end
      else startAsyncGetDirent id (index - 1) buf_addr buf_size)).

(** *** Time *)

(** [ts_usleep] of [sys/time.c]: 0 when the timer has the reply, 1 when there is no need
    to sleep. *)
Definition ts_usleep (duration reply ut : Z) : M Rest Z :=
  if bool_decide (duration < 0) then mret 1
  else
    ok ← in_kern malloc;
    if negb ok then mret (-1)
    else
      id ← in_kern (register_timer duration);
      match id with
      | None => mret (-1)
      | Some id =>
        modify (fun r => mkRest (dev r) (ios r) (users r) (kern r) (regs r) ((id, (reply, ut)) :: sleepers r));; mret 0
      end.
Definition ts_get_timestamp : M Rest Z :=
  r ← get;
  let timestamp := get_time (kern r) mod (2 ^ 63 - 1) in
  mret (if bool_decide (timestamp ≠ 0) then timestamp else 1).

Definition handleUsleep (arg : Z) : Handler :=
  s ← get;
  res ← on_rest (ts_usleep (wordToI64 arg) (sreply s) (sreply_ut s));
  if bool_decide (res < 0) then answer (RUsleep (- EINVAL))
  else if bool_decide (res = 1) then answer (RUsleep 0)
  else
    set_have_reply false;;
    n ← retype;
    match n with
    | None => throw Fatal
    | Some new_ut => s ← get; set_reply (sreply s) new_ut;; mret None
    end.
Definition handleTimestamp : Handler := t ← on_rest ts_get_timestamp; answer (RTimestamp t).
Definition handleMyId (ctx : ServerContext) : Handler := pid ← as_c_int (badge ctx); answer (RMyId pid).
Definition handlePagerStats : Handler :=
  s ← get;
  let '(a, b, c, d, e) := pager_stats (kern (ext (conts s))) in answer (RPagerStats a b c d e).

(** *** Memory *)

(** [@intCast] of an address to a signed word. *)
Definition as_i64 {S} (v : Z) : M S Z := if bool_decide (v < 2 ^ 63) then mret v else throw Undefined.
Definition handleBrk (ctx : ServerContext) (new_break : Z) : Handler :=
  match caller ctx with
  | None => answer (RBrk (- EINVAL))
  | Some id =>
    with_vm ctx RBrk (
      r ← on_rest (on_users (vm_brk id new_break));
      match r with
      | inl err => answer (RBrk (- vmErrorToErrno err))
      | inr v => v ← as_i64 v; answer (RBrk v)
      end)
  end.
(** The memory and the descriptors of a client. *)
Definition on_mm {A} (id : nat) (m : M (ClientIoState * U) A) : M Rest A :=
  r ← get;
  s ← access (ios r !! id);
  zoom (fun r => (s, users r)) (fun w r => mkRest (dev r) (<[id := fst w]> (ios r)) (snd w) (kern r) (regs r) (sleepers r)) m.
Definition handleMmap (ctx : ServerContext) (addr length_ prot flags fd offset : Z) : Handler :=
  with_client ctx RMmap (fun id =>
    with_vm ctx RMmap (
      prot ← wordToCInt prot;
      flags ← wordToCInt flags;
      fd ← wordToCInt fd;
      r ← on_rest (on_mm id (vm_mmap (Z.of_nat id) addr length_ prot flags fd offset));
      match r with
      | inl err => answer (RMmap (- vmErrorToErrno err))
      | inr base => base ← as_i64 base; answer (RMmap base)
      end)).

(** ** Dispatch *)

Definition handleDecodedSyscall (ctx : ServerContext) (c : Syscall) : Handler :=
  match c with
  | Open arg buf_addr buf_size => handleOpen ctx arg buf_addr buf_size
  | Close arg => handleClose ctx arg
  | Read arg buf_addr buf_size => handleRead ctx arg buf_addr buf_size
  | Write arg buf_addr buf_size => handleWrite ctx arg buf_addr buf_size
  | Stat path_addr path_len out_addr out_len => handleStat ctx path_addr path_len out_addr out_len
  | Usleep arg => handleUsleep arg
  | Timestamp => handleTimestamp
  | MyId => handleMyId ctx
  | Brk new_break => handleBrk ctx new_break
  | Mmap addr length_ prot flags fd offset => handleMmap ctx addr length_ prot flags fd offset
  | GetDirent index buf_addr buf_size => handleGetDirent ctx index buf_addr buf_size
  | PagerStats => handlePagerStats
  | Lseek fd offset whence => handleLseek ctx fd offset whence
  | Unlink path_addr path_len => handleUnlink ctx path_addr path_len
  end.

Definition handle_syscall (badge_ : Z) (message : MessageInfo) (caller_ : option Z) : M Server MessageInfo :=
  if bool_decide (msg_length message = 0) then
    on_rest (on_regs (SetMR 0 0));; set_have_reply true;; mret (MessageInfo_new 0 0 0 1)
  else
    c ← on_rest (on_regs (deserialise message));
    match c with
    | inl _ => set_have_reply true;; on_rest (on_regs (SetMR 0 (cIntToWord (- EINVAL))));; mret (MessageInfo_new 0 0 0 1)
    | inr c =>
      s ← get;
      let found := match caller_ with Some id => vm_state_lookup id (users (ext (conts s))) | None => false end in
      set_have_reply true;;
      r ← handleDecodedSyscall (Ctx badge_ caller_ found) c;
      match r with
      | Some resp => on_rest (on_regs (response_serialise resp))
      | None => mret (MessageInfo_new 0 0 0 0)
      end
    end.

(** ** What happens later *)

(** [sleep_callback]: the timer with identifier [id] fires; the context is freed. *)
Definition sleep_callback (id : Z) : M Server unit :=
  s ← get;
  match list_find (fun p => fst p = id) (sleepers (ext (conts s))) with
  | None => throw Undefined
  | Some (n, (_, (r, ut))) =>
    on_rest (on_regs (SetMR 0 0));;
    on_conts (emit (Send r (Raw (MessageInfo_new 0 0 0 1))));;
    on_conts (emit (Delete r));; on_conts (emit (FreeSlot r));; on_conts (emit (UtFree ut));;
    on_rest (modify (fun e => mkRest (dev e) (ios e) (users e) (kern e) (regs e) (delete n (sleepers e))))
  end.

(** [readResumeFn] on a continuation. *)
Definition readResumeFn (w : Info) : M Rest ContinuationResult :=
  match state w with
  | SRead fd h buf requested dev_ =>
    if bool_decide (MAX_CLIENTS ≤ client w) then mret (Error EINVAL)
    else
      s ← io_state (Z.to_nat (client w));
      if negb (initialised s) then mret (Error EBADF)
      else
        entry ← access (fds s !! fd);
        if negb (f_used entry) || negb (readable entry) || bool_decide (ops entry ≠ Some console_ops) then mret (Error EBADF)
        else
          r ← on_dev (console_read (Z.min requested PAGE_SIZE_4K));
          match r with
          | None => mret Retry
          | Some l =>
            ok ← (if bool_decide (0 < Z.of_nat (length l)) then on_users (@copyToUserBuffer U (user_mem h) buf l) else mret true);
            if negb ok then mret (Error EFAULT)
            else m ← on_regs (response_serialise (RRead (Z.of_nat (length l)))); mret (Complete m)
          end
  | _ => throw Undefined
  end.
(** The resume functions and the copies to a client, with the result of a run.  That no
    run is undefined is shown in [readResumeFn_safe] and [copy_out_safe]: the value for
    those runs is never used. *)
Definition ran {A} (d : A) (m : M Rest A) (e : Rest) : A * Rest := match m e with Ok (a, e') => (a, e') | Fault _ => (d, e) end.
Definition resume_fns (w : Info) (event : Z) (e : Rest) : ContinuationResult * Rest :=
  if bool_decide (resume_fn w = readResumeFn_fn) then ran (Error EIO) (readResumeFn w) e else (Error ENOSYS, e).
Definition copy_out (h : Z) (data : list Z) (va : Z) (e : Rest) : (Z + unit) * Rest :=
  ran (inl EIO) (r ← on_users (@UserCopy.copyToClient U (user_mem h) data va);
                 mret match r with inl err => inl (vmErrorToErrno err) | inr _ => inr tt end) e.

(** A character arrives, and the readers that wait are resumed. *)
Definition console_input (ch : Z) : M Server unit :=
  on_rest (on_dev (handleInput ch));; on_conts (resumeIO resume_fns CONSOLE_STDIN_FD 0).
(** The first half of [checkCompletedFileOps]. *)
Definition checkCompletedFileOps : M Server unit := on_conts (drain_file_ops copy_out (S CONT_POOL_SIZE)).

(** A worker is done with the operation of a continuation: it has stored its result. *)
Definition worker_finish (i : nat) (op : FileOpState) : M Server unit :=
  on_conts (
    c ← cont_at i;
    match state (info c) with
    | SFileOp _ => set_info i (fun w => mkInfo (client w) (reply w) (reply_ut w) (resume_fn w) (SFileOp op) (wait_on w))
    | _ => throw Undefined
    end).

(** A turn of [syscall_loop] with a system call: the message is in the registers; the
    answer is sent on the reply object that the server has then.  [who] is what
    [client_lookup] finds. *)
Definition serve (badge_ : Z) (message : MessageInfo) (arrived : Regs) (who : option Z) : M Server unit :=
  on_rest (on_regs (put arrived));;
  match who with
  | None => set_have_reply false
  | Some id =>
    m ← handle_syscall badge_ message (Some id);
    s ← get;
    when (have_reply s) (on_conts (emit (Send (sreply s) (Raw m))))
  end.
End server.
