(* ===== verification/ServerCalls.v ===== *)
(** * What a system call does with its reply

    For every handler of [Server]: the call is answered and the server keeps its reply
    object; or it is suspended, the reply object belongs to one continuation or timer,
    and the server has a new one; or, after the suspension has begun, it is rejected.
    In each case the invariants of the console, of the descriptors of all the clients
    and of the continuations hold again. *)

From S2P Require Import Prelude VmRegion VmMmap Errno Clients UserCopy FileTable Console FileWork Syscall Continuation Server.

(** ** Laws *)

(** The reply objects that exist, by the history. *)
Definition live_step (L : gset Z) (e : Event) : gset Z :=
  match e with Retype r _ => {[r]} ∪ L | Delete r => L ∖ {[r]} | _ => L end.
Definition live (tr : list Event) : gset Z := foldl live_step ∅ tr.

(** What the memory of the clients must do: the laws of the copies; addresses are below
    2^63; [mmap] of anything but the console keeps the descriptors in order.  Nothing is
    promised for the protections and lengths with which [mmap] does what is illegal
    ([VmMmap.mmap_negative_prot_illegal], [VmMmap.mmap_huge_length_illegal]). *)
Class VmEnvLaws (U : Type) `{VmEnv U} := {
  mem_laws id : @UserMemLaws U (user_mem id);
  brk_law id n u : wp (vm_brk id n) (fun r _ => match r with inl _ => True | inr v => v < 2 ^ 63 end) u;
  mmap_law id addr len prot flags fd off s u : 0 ≤ len < 2 ^ 63 -> 0 ≤ prot < 2 ^ 31 ->
    (forall f, fds s !! Z.to_nat fd = Some f -> 0 ≤ fd -> is_console f = false) ->
    wp (vm_mmap id addr len prot flags fd off) (fun r w =>
      initialised (fst w) = initialised s /\ filter is_console (fds (fst w)) = filter is_console (fds s) /\
      (forall x, io_ok x s -> exists x', io_ok x' (fst w)) /\ match r with inl _ => True | inr v => v < 2 ^ 63 end) (s, u) }.

(** A new reply object is not one that exists; the console takes at most what it is given. *)
Class ServerEnvLaws (K : Type) `{ServerEnv K} := {
  retype_fresh tr k : match alloc_retype tr k with ((cap, Some ut), _) => cap ∉ live tr | _ => True end;
  send_bound k l : network_console_send k l ≤ Z.of_nat (length l) }.

(** ** The outcome of a call *)

Section outcome.
Context {U K : Type}.
Abbreviation Rest := (@Rest U K).
Abbreviation Server := (@Server U K).
Abbreviation Abs := (@Abs Rest).

Definition rest_ok (e : Rest) : Prop :=
  world_ok (dev e, ios e) /\ length (ios e) = Z.to_nat MAX_CLIENTS /\ ring_ok (ring (dev e)) /\ (7 ≤ length (regs e))%nat.
(** The rest of the server is in order, and no call sleeps more or less. *)
Definition kept (e0 e : Rest) : Prop := rest_ok e /\ sleepers e = sleepers e0.

(** The continuation [i] was free and waits in [q], with the description [w]. *)
Record parked (a a' : Abs) (q : Q) (i : nat) (w : Info) : Prop := {
  pk_valid : valid q;
  pk_queue : q ≠ QFree;
  pk_was : lists a QFree = i :: lists a' QFree;
  pk_in : lists a' q = i :: lists a q;
  pk_lists : forall q', q' ≠ q -> q' ≠ QFree -> lists a' q' = lists a q';
  pk_info : infos a' !! i = Some w;
  pk_infos : forall j, j ≠ i -> infos a' !! j = infos a !! j }.

(** What is stored with a continuation can be used when it is resumed. *)
Definition info_ok (q : Q) (w : Info) : Prop :=
  match q with
  | QIo fd => fd = CONSOLE_STDIN_FD /\ resume_fn w = readResumeFn_fn /\ wait_on w = OnIO fd /\ 0 ≤ client w < MAX_CLIENTS /\
      exists n h buf req d, state w = SRead n h buf req d /\ (n < 32)%nat /\ 0 ≤ buf /\ 0 ≤ req /\ buf < 2 ^ 64
  | QFiles => wait_on w = OnFileOp /\ exists op, state w = SFileOp op /\ op_ok op
  | QTimer | QFree => False
  end.

Inductive outcome (s : Server) (a : Abs) : option SyscallResponse -> Server -> Prop :=
| o_answered r s' evs e :
    rep (conts s') (add_events evs (set_ext e a)) -> kept (ext (conts s)) e ->
    sreply s' = sreply s -> sreply_ut s' = sreply_ut s -> have_reply s' = true ->
    (evs = [] \/ exists cap ut, (cap ∉ live (a_trace a)) /\ evs = [Retype cap ut]) -> outcome s a (Some r) s'
| o_suspended s' a' q i w ut :
    rep (conts s') a' -> kept (ext (conts s)) (a_ext a') -> parked a a' q i w -> info_ok q w ->
    reply w = sreply s -> reply_ut w = sreply_ut s -> sreply s' ∉ live (a_trace a) -> sreply_ut s' = ut ->
    have_reply s' = false -> a_trace a' = a_trace a ++ [Retype (sreply s') ut] -> outcome s a None s'
| o_sleeps s' e id :
    rep (conts s') (add_events [Retype (sreply s') (sreply_ut s')] (set_ext e a)) ->
    rest_ok e -> sleepers e = (id, (sreply s, sreply_ut s)) :: sleepers (ext (conts s)) ->
    sreply s' ∉ live (a_trace a) -> have_reply s' = false -> outcome s a None s'
| o_rejected r s' a' cap ut :
    rep (conts s') a' -> kept (ext (conts s)) (a_ext a') -> (forall q, lists a' q = lists a q) ->
    (forall j, j ∉ lists a QFree -> infos a' !! j = infos a !! j) ->
    sreply s' = sreply s -> sreply_ut s' = sreply_ut s -> have_reply s' = true -> cap ∉ live (a_trace a) ->
    a_trace a' = a_trace a ++ [Retype cap ut; UtFree ut; Delete (sreply s); FreeSlot (sreply s); UtFree (sreply_ut s)] ->
    outcome s a (Some r) s'.

(** The state in the middle of a call, before anything but the rest of the server changes. *)
Definition at_ (s : Server) (e : Rest) : Server := mkServer (with_ext e (conts s)) (sreply s) (sreply_ut s) (have_reply s).

Lemma rep_ext c (a : Abs) e : rep c a -> rep (with_ext e c) (set_ext e a).
Proof. intros [[H1 H2 H3 H4 H5 H6 H7 H8 H9] Hu]. split; [|done]. split; simpl; try done. Qed.
Lemma outcome_answer s a r e : rep (conts s) a -> have_reply s = true -> kept (ext (conts s)) e -> outcome s a (Some r) (at_ s e).
Proof.
  intros Hr Hh Hk. eapply (o_answered s a r _ [] e); try done; [|by left]. unfold add_events. simpl. rewrite app_nil_r.
  pose proof (rep_ext _ _ e Hr) as Hr'. by destruct a.
Qed.
End outcome.

(** ** Suspension *)

Section suspension.
Context {U K : Type} `{VmEnvLaws U} `{ServerEnvLaws K} (F : fault -> Prop).
Abbreviation Rest := (@Rest U K).
Abbreviation Server := (@Server U K).
Abbreviation Abs := (@Abs Rest).

Lemma wpf_wp {S A} (m : M S A) Q s : wp m Q s -> wpf F m Q s.
Proof. apply wpf_weaken. by intros f. Qed.
Lemma wp_conts {A} (m : M (@St Rest) A) Q (s : Server) :
  wpf F m (fun x c => Q x (mkServer c (sreply s) (sreply_ut s) (have_reply s))) (conts s) -> wpf F (on_conts m) Q s.
Proof. intros Hm. unfold on_conts. by apply wpf_zoom. Qed.
Lemma wp_rest {A} (m : M Rest A) Q (s : Server) : wpf F m (fun x e => Q x (at_ s e)) (ext (conts s)) -> wpf F (on_rest m) Q s.
Proof. intros Hm. unfold on_rest. apply wp_conts. by apply wpf_zoom. Qed.

Lemma wp_rest_at {A} (m : M Rest A) Q (s : Server) e : wpf F m (fun x e' => Q x (at_ s e')) e -> wpf F (on_rest m) Q (at_ s e).
Proof. intros Hm. by apply wp_rest. Qed.
Lemma wp_set_reply r ut (Q : unit -> Server -> Prop) s : Q tt (mkServer (conts s) r ut (have_reply s)) -> wpf F (set_reply r ut) Q s.
Proof. intros HQ. by apply wpf_modify. Qed.
Lemma wp_set_have_reply b (Q : unit -> Server -> Prop) s :
  Q tt (mkServer (conts s) (sreply s) (sreply_ut s) b) -> wpf F (set_have_reply b) Q s.
Proof. intros HQ. by apply wpf_modify. Qed.
Ltac sv_line :=
  repeat (lazymatch goal with
  | |- wpf _ (set_reply _ _) _ _ => apply wp_set_reply
  | |- wpf _ (set_have_reply _) _ _ => apply wp_set_have_reply
  | |- wpf _ (answer _) _ _ => apply wpf_ret
  | |- wpf _ (on_conts _) _ _ => fail
  | |- wpf _ (on_rest _) _ _ => fail
  | |- _ => progress wp_line
  end; cbv beta; simpl).

(** The state of the continuations after the first steps of a suspension. *)
Definition begun (a : Abs) (l : list nat) (e : Rest) (cap ut : Z) : Abs := add_events [Retype cap ut] (set_ext e (set_list QFree l a)).

Definition set_kern (k : K) (e : Rest) : Rest := mkRest (dev e) (ios e) (users e) k (regs e) (sleepers e).
Lemma kept_kern e0 e k : kept e0 e -> kept e0 (set_kern k e).
Proof. by intros [[? ?] ?]. Qed.
Lemma wp_retype (s : Server) a (Q : option Z -> Server -> Prop) :
  rep (conts s) a ->
  (forall k cap, Q None (mkServer (with_ext (set_kern k (a_ext a)) (conts s)) cap (sreply_ut s) (have_reply s))) ->
  (forall k cap ut c, cap ∉ live (a_trace a) -> rep c (add_events [Retype cap ut] (set_ext (set_kern k (a_ext a)) a)) ->
     Q (Some ut) (mkServer c cap (sreply_ut s) (have_reply s))) ->
  wpf F retype Q s.
Proof.
  intros Hr Hnone Hsome. unfold retype. wp_line. apply wp_rest. unfold in_kern. wp_line.
  rewrite <- (rp_trace _ _ (proj1 Hr)), <- (rp_ext _ _ (proj1 Hr)). pose proof (retype_fresh (a_trace a) (kern (a_ext a))) as Hfresh.
  destruct (alloc_retype (a_trace a) (kern (a_ext a))) as [[cap [ut|]] kn]; wp_line; sv_line; [|by apply Hnone].
  pose proof (rep_ext _ _ (set_kern kn (a_ext a)) Hr) as Hr2. apply wp_conts, wpf_wp. simpl. eapply wp_emit; [apply Hr2|].
  intros c Hl Hu. sv_line. apply (Hsome kn); [done|]. by eapply rep_of_links.
Qed.

Lemma begin_async_spec (s : Server) a e enomem k :
  rep (conts s) a -> have_reply s = true -> kept (ext (conts s)) e ->
  (forall i l cap ut e' s', lists a QFree = i :: l -> kept (ext (conts s)) e' -> cap ∉ live (a_trace a) ->
     rep (conts s') (begun a l e' cap ut) -> loose (begun a l e' cap ut) i ->
     sreply s' = cap -> sreply_ut s' = sreply_ut s -> have_reply s' = true ->
     wpf F (k i (sreply s) (sreply_ut s) ut) (outcome s a) s') ->
  wpf F (begin_async enomem k) (outcome s a) (at_ s e).
Proof.
  intros Hr Hh Hk Hcont. pose proof (rep_ext _ _ e Hr) as Hre. unfold begin_async. apply wpf_bind, wp_conts, wpf_wp.
  eapply wpf_mono; [by apply wp_alloc|]. simpl. intros [i|] c1; destruct (lists a QFree) as [|j l] eqn:Hfree; try done.
  2:{ intros ->. apply wpf_ret. by apply outcome_answer. }
  intros (-> & Hr1 & Hlo). wp_line. eapply wp_retype; [exact Hr1|..].
  - intros kn cap. sv_line. apply wp_conts, wpf_wp. simpl. eapply wp_free; [apply rep_ext, Hr1|done|]. intros s2 Hr3. sv_line.
    eapply (o_answered s a _ _ [] (set_kern kn e)); try done; [|by left]. simpl. eapply rep_proper; [|exact Hr3].
    repeat split; simpl; [|by rewrite app_nil_r]. intros q. destruct (decide (q = QFree)) as [->|]; done.
  - intros kn cap ut c Hfresh Hc. eapply (Hcont j l cap ut (set_kern kn e)); try done; by apply kept_kern.
Qed.

(** A suspension under way: the continuation [i], with the description [w], has left the
    pool; it may already be with the file operations. *)
Record started (s : Server) (a : Abs) (i : nat) (w : Info) (ut : Z) (s' : Server) (a' : Abs) : Prop := {
  sd_rep : rep (conts s') a';
  sd_free : lists a QFree = i :: lists a' QFree;
  sd_lists : forall q, q ≠ QFree -> q ≠ QFiles -> lists a' q = lists a q;
  sd_files : lists a' QFiles = lists a QFiles \/ lists a' QFiles = i :: lists a QFiles;
  sd_info : infos a' !! i = Some w;
  sd_infos : forall j, j ≠ i -> infos a' !! j = infos a !! j;
  sd_reply : reply w = sreply s;
  sd_ut : reply_ut w = sreply_ut s;
  sd_fresh : sreply s' ∉ live (a_trace a);
  sd_trace : a_trace a' = a_trace a ++ [Retype (sreply s') ut];
  sd_kept : kept (ext (conts s)) (a_ext a');
  sd_old : sreply_ut s' = sreply_ut s;
  sd_have : have_reply s' = true }.

(** The first of the pool is in no queue. *)
Lemma first_free c (a : Abs) i l : rep c a -> lists a QFree = i :: l -> (i < CONT_POOL_SIZE)%nat /\ (i ∉ l) /\ forall q, valid q -> q ≠ QFree -> i ∉ lists a q.
Proof.
  intros [Hl _] Hi. split; [|split].
  - pose proof (rp_chain _ _ Hl QFree I) as Hch. rewrite Hi in Hch. destruct Hch as [_ (cc & Hcc & _)].
    rewrite <- (rp_len _ _ Hl). by eapply lookup_lt_Some.
  - pose proof (rp_nodup _ _ Hl QFree I) as Hnd. rewrite Hi in Hnd. by apply NoDup_cons in Hnd as [? _].
  - intros q Hv Hq Hin. apply Hq. symmetry. eapply (rp_disj _ _ Hl); [exact I|done| |done]. rewrite Hi. set_solver.
Qed.

Lemma fill_spec (s : Server) a i l cap ut e s' who fn st :
  lists a QFree = i :: l -> kept (ext (conts s)) e -> cap ∉ live (a_trace a) ->
  rep (conts s') (begun a l e cap ut) -> loose (begun a l e cap ut) i ->
  sreply s' = cap -> sreply_ut s' = sreply_ut s -> have_reply s' = true ->
  wpf F (fill i who (sreply s) (sreply_ut s) fn st) (fun _ s2 => exists wt a2,
    started s a i (mkInfo who (sreply s) (sreply_ut s) fn st wt) ut s2 a2 /\ lists a2 QFiles = lists a QFiles /\ loose a2 i) s'.
Proof.
  intros Hfree Hk Hfresh Hr Hlo E1 E2 E3. unfold fill. apply wp_conts, wpf_wp. eapply wp_set_info; [apply Hr|done|]. intros c Hl Hu.
  assert (Hr2 : rep c (alter_info i (fun w => mkInfo who (sreply s) (sreply_ut s) fn st (wait_on w)) (begun a l e cap ut))) by by eapply rep_of_links.
  destruct (loose_lookup _ _ _ (proj1 Hr) Hlo) as (c0 & _ & Hc0). exists (wait_on (info c0)).
  exists (alter_info i (fun w => mkInfo who (sreply s) (sreply_ut s) fn st (wait_on w)) (begun a l e cap ut)). split; [|by split].
  split; [exact Hr2|done| |by left| | |done|done|by rewrite E1|by rewrite E1|done|done|done].
  - intros q Hq _. simpl. by rewrite decide_False.
  - simpl. simpl in Hc0. by rewrite list_lookup_alter_eq, Hc0.
  - intros j Hj. simpl. by rewrite list_lookup_alter_ne.
Qed.

Lemma abort_spec (s : Server) a i w ut s' a' r :
  rep (conts s) a -> started s a i w ut s' a' ->
  wpf F (abort i (sreply s) (sreply_ut s) ut;; answer r) (outcome s a) s'.
Proof.
  intros Hr [D1 D2 D3 D4 D5 D6 D7 D8 D9 D10 D11 D12 D13]. destruct (first_free _ _ _ _ Hr D2) as (Hi & Hil & Hiq).
  assert (Hrm : filter (fun j => j ≠ i) (lists a' QFiles) = lists a QFiles).
  { assert (Hk : filter (fun j => j ≠ i) (lists a QFiles) = lists a QFiles).
    { apply filter_keep, Forall_forall. intros j Hj ->. by apply (Hiq QFiles I). }
    destruct D4 as [->| ->]; [done|]. by rewrite filter_cons_False by tauto. }
  apply wpf_bind. unfold abort. apply wpf_bind, wp_conts, wpf_wp. unfold FileOpQueue_remove. wp_line.
  change (files (conts s')) with (head_of QFiles (conts s')). rewrite (chain_head _ _ _ (rp_chain _ _ (proj1 D1) QFiles I)).
  eapply wpf_mono; [apply (file_op_remove_spec i (lists a' QFiles) [] _ a'); [done|done|set_solver|]|].
  { eapply list_bound; [apply D1|exact I]. }
  rewrite Hrm. set (a2 := set_list QFiles (lists a QFiles) a'). intros [] c2 Hr2.
  assert (Hlo2 : loose a2 i).
  { split; [done|]. intros q Hv. unfold a2. simpl. destruct (decide (q = QFiles)) as [->|Hne]; [by apply (Hiq QFiles I)|].
    destruct (decide (q = QFree)) as [->|Hne']; [done|]. rewrite D3 by done. by apply Hiq. }
  sv_line. apply wp_conts, wpf_wp. simpl. eapply wp_emit; [apply Hr2|]. intros c3 Hl3 U3. sv_line.
  assert (Hr3 : rep c3 (add_events [UtFree ut] a2)) by by eapply rep_of_links.
  apply wp_conts, wpf_wp. simpl. eapply (wp_cleanup _ _ _ w); [apply Hr3|done|done|]. intros c4 Hl4 U4. sv_line.
  apply wp_conts, wpf_wp. simpl. eapply wp_free; [by eapply rep_of_links|done|]. intros c5 Hr5. sv_line.
  eapply o_rejected; [exact Hr5|done| | |done|done|done|exact D9|].
  - intros q. simpl. destruct (decide (q = QFree)) as [->|]; [by rewrite D2|]. destruct (decide (q = QFiles)) as [->|]; [done|]. by apply D3.
  - intros j Hj. simpl. rewrite list_lookup_alter_ne, D6; [done|..]; rewrite D2 in Hj; set_solver.
  - simpl. rewrite D10, <- !app_assoc. unfold released. by rewrite D7, D8.
Qed.

Lemma submit_spec (s : Server) a i w ut s' a' client_id req resp :
  rep (conts s) a -> started s a i w ut s' a' -> lists a' QFiles = lists a QFiles -> loose a' i ->
  (exists op, state w = SFileOp op /\ op_ok op) ->
  wpf F (submit i (sreply s) (sreply_ut s) ut client_id req resp) (outcome s a) s'.
Proof.
  intros Hr Hsd Hfiles Hlo Hop. pose proof Hsd as [D1 D2 D3 D4 D5 D6 D7 D8 D9 D10 D11 D12 D13].
  unfold submit. apply wpf_bind, wp_conts, wpf_wp. unfold FileOpQueue_enqueue. eapply wp_wait; [apply D1|done|exact I|done|].
  intros c1 Hl1 U1. set (a1 := set_list QFiles _ _) in Hl1. assert (Hr1 : rep c1 a1) by by eapply rep_of_links.
  assert (Hw1 : infos a1 !! i = Some (set_wait_on OnFileOp w)) by (simpl; by rewrite list_lookup_alter_eq, D5).
  apply wpf_bind, wp_rest. unfold in_kern. wp_line. simpl.
  assert (Hext : ext c1 = a_ext a') by (symmetry; apply (rp_ext _ _ Hl1)). rewrite Hext.
  destruct (enqueue_work i client_id req (kern (a_ext a'))) as [rc kn]. wp_line. simpl. set (e1 := mkRest _ _ _ kn _ _).
  pose proof (rep_ext _ _ e1 Hr1) as Hr2. assert (Hk1 : kept (ext (conts s)) e1) by by destruct D11 as [[? ?] ?].
  assert (Hin : lists (set_ext e1 a1) QFiles = i :: lists a QFiles) by (simpl; by rewrite Hfiles).
  case_bool_decide.
  - eapply (abort_spec s a i (set_wait_on OnFileOp w) ut _ (set_ext e1 a1)); [done|].
    split; try done; [|by right|]; simpl.
    + intros q Hq1 Hq2. rewrite decide_False by done. by apply D3.
    + intros j Hj. rewrite list_lookup_alter_ne by done. by apply D6.
  - sv_line. eapply (o_suspended s a _ (set_ext e1 a1) QFiles i (set_wait_on OnFileOp w) ut); try done.
    split; try done; simpl.
    + intros q Hq1 Hq2. rewrite decide_False by done. by apply D3.
    + intros j Hj. rewrite list_lookup_alter_ne by done. by apply D6.
Qed.
End suspension.

(** ** The calls that start a request *)

Section calls.
Context {U K : Type} `{VmEnvLaws U} `{ServerEnvLaws K} (F : fault -> Prop).
Abbreviation Rest := (@Rest U K).
Abbreviation Server := (@Server U K).
Abbreviation Abs := (@Abs Rest).
Context (s : Server) (a : Abs).
Hypothesis Hr : rep (conts s) a.
Hypothesis Hh : have_reply s = true.

(** A handler that is right whatever has happened to the rest of the server. *)
Definition right (m : M Server (option SyscallResponse)) : Prop :=
  forall e, kept (ext (conts s)) e -> wpf F m (outcome s a) (at_ s e).

Lemma right_answer r : right (answer r).
Proof. intros e He. apply wpf_ret. by apply outcome_answer. Qed.
Lemma right_rest {A} (m : M Rest A) k :
  (forall e, kept (ext (conts s)) e -> wpf F m (fun x e' => kept (ext (conts s)) e' /\ wpf F (k x) (outcome s a) (at_ s e')) e) ->
  right (on_rest m ≫= k).
Proof.
  intros Hm e He. apply wpf_bind, wp_rest. eapply wpf_mono; [by apply Hm|]. intros x e' [_ Hx]. exact Hx.
Qed.
(** The rest of the handler does not depend on the state. *)
Lemma right_step {A} (m : M Rest A) (P : A -> Prop) k :
  (forall e, kept (ext (conts s)) e -> wpf F m (fun x e' => kept (ext (conts s)) e' /\ P x) e) -> (forall x, P x -> right (k x)) ->
  right (on_rest m ≫= k).
Proof.
  intros Hm Hk. apply right_rest. intros e He. eapply wpf_mono; [by apply Hm|]. intros x e' [He' HP]. split; [done|]. by apply Hk.
Qed.
Lemma right_if (b : bool) m1 m2 : (b = true -> right m1) -> (b = false -> right m2) -> right (if b then m1 else m2).
Proof. destruct b; auto. Qed.

Lemma fresh_op_ok tag ob ol vm : exists op, fresh_op tag ob ol vm = SFileOp op /\ op_ok op.
Proof. eexists. split; [reflexivity|]. split; simpl; [lia|done]. Qed.

Lemma right_async enomem who st client_id req resp :
  (exists op, st = SFileOp op /\ op_ok op) ->
  right (begin_async enomem (fun i old old_ut new_ut =>
    fill i who old old_ut fileOpResume_fn st;; submit i old old_ut new_ut client_id req resp)).
Proof.
  intros Hop e He. apply begin_async_spec; [done..|]. intros i l cap ut e' s' Hfree Hk Hfresh Hr' Hlo E1 E2 E3.
  apply wpf_bind. eapply wpf_mono; [by eapply fill_spec|]. intros _ s2 (wt & a2 & Hsd & Hf & Hlo2). by eapply submit_spec.
Qed.
Lemma right_path enomem who st path client_id req resp :
  (exists op, st = SFileOp op /\ op_ok op) ->
  right (begin_async enomem (fun i old old_ut new_ut =>
    fill i who old old_ut fileOpResume_fn st;;
    match request_path path with
    | inl err => abort i old old_ut new_ut;; answer (resp (- path_errno err))
    | inr p => submit i old old_ut new_ut client_id (req p) resp
    end)).
Proof.
  intros Hop e He. apply begin_async_spec; [done..|]. intros i l cap ut e' s' Hfree Hk Hfresh Hr' Hlo E1 E2 E3.
  apply wpf_bind. eapply wpf_mono; [by eapply fill_spec|]. intros _ s2 (wt & a2 & Hsd & Hf & Hlo2).
  destruct (request_path path); [by eapply abort_spec|by eapply submit_spec].
Qed.
Lemma right_open id path flags : right (startAsyncOpen id path flags).
Proof.
  apply right_if; intros _; [apply right_answer|].
  exact (right_path _ _ _ path _ (fun p => ReqFile (POpen p flags)) ROpen (fresh_op_ok _ _ _ _)).
Qed.
Lemma right_unlink id path : right (startAsyncUnlink id path).
Proof.
  apply right_if; intros _; [apply right_answer|].
  exact (right_path _ _ _ path _ (fun p => ReqFile (PUnlink p)) RUnlink (fresh_op_ok _ _ _ _)).
Qed.
Lemma right_stat id path out_addr out_len : right (startAsyncStat id path out_addr out_len).
Proof. exact (right_path _ _ _ path _ (fun p => ReqFile (PStat p out_len)) RStat (fresh_op_ok _ _ _ _)). Qed.
Lemma right_dirent id index out_addr out_len : right (startAsyncGetDirent id index out_addr out_len).
Proof.
  intros e He. apply begin_async_spec; [done..|]. intros i l cap ut e' s' Hfree Hk Hfresh Hr' Hlo E1 E2 E3. case_bool_decide.
  - apply wpf_bind, wp_conts, wpf_wp. eapply wp_free; [exact Hr'|done|]. intros c Hc. apply wpf_bind, wpf_modify, wpf_ret.
    eapply (o_answered s a _ _ [Retype cap ut] e'); try done; [|right; eauto]. simpl. eapply rep_proper; [|exact Hc].
    repeat split. intros q. simpl. destruct (decide (q = QFree)) as [->|]; [by rewrite Hfree|done].
  - apply wpf_bind. eapply wpf_mono; [by eapply fill_spec|]. intros _ s2 (wt & a2 & Hsd & Hf & Hlo2).
    eapply submit_spec; [done..|]. apply fresh_op_ok.
Qed.

(** *** The descriptors of a client *)

Lemma wp_cw {A} id (m : M (Console * ClientIoState) A) Q (e : Rest) io :
  ios e !! id = Some io ->
  wpf F m (fun x w => Q x (mkRest (fst w) (<[id := snd w]> (ios e)) (users e) (kern e) (regs e) (sleepers e))) (dev e, io) ->
  wpf F (on_cw id m) Q e.
Proof. intros Hio Hm. unfold on_cw. wp_line. eapply wpf_access; [done|]. by apply wpf_zoom. Qed.
Lemma client_io (e : Rest) id : rest_ok e -> (id < Z.to_nat MAX_CLIENTS)%nat -> exists io, ios e !! id = Some io /\ client_ok io.
Proof.
  intros (Hw & Hl & _) Hid. destruct (lookup_lt_is_Some_2 (ios e) id) as [io Hio]; [by rewrite Hl|]. exists io. split; [done|].
  destruct Hw as (_ & _ & Hc). by eapply Hc.
Qed.
(** Reading the table of descriptors changes nothing. *)
Lemma getHandle_same id fd (e : Rest) io : ios e !! id = Some io -> 0 ≤ fd ->
  wpf F (on_cw id (cio (on_table (getHandle fd)))) (fun _ e' => e' = e) e.
Proof.
  intros Hio Hfd. eapply wp_cw; [done|]. assert (Hsame : mkRest (dev e) (<[id := io]> (ios e)) (users e) (kern e) (regs e) (sleepers e) = e).
  { rewrite list_insert_id by done. by destruct e. }
  unfold cio, on_table, getHandle. wp_line. simpl. case_bool_decide as Hlen; wp_line; simpl.
  { destruct io. simpl. by rewrite Hsame. }
  destruct (lookup_lt_is_Some_2 (entries (file_table io)) (Z.to_nat fd)) as [en Hen]; [lia|]. eapply wpf_access; [done|].
  destruct (negb (e_used en)); [|destruct (e_handle en)]; wp_line; simpl; destruct io; simpl; by rewrite Hsame.
Qed.
Lemma check_fd_same id fd ok (e : Rest) io : ios e !! id = Some io -> 0 ≤ fd -> wpf F (check_fd id fd ok) (fun _ e' => e' = e) e.
Proof.
  intros Hio Hfd. unfold check_fd. apply wpf_bind. eapply wpf_mono; [by eapply getHandle_same|]. intros [err|h] e' ->; [by wp_line|].
  unfold io_state. wp_line. eapply wpf_access; [done|]. case_bool_decide as Hlen; [by wp_line|].
  destruct (lookup_lt_is_Some_2 (fds io) (Z.to_nat fd)) as [f Hf]; [lia|]. wp_line. eapply wpf_access; [done|].
  destruct (_ || _); [|destruct (negb _)]; by wp_line.
Qed.
(** A step that changes nothing. *)
Lemma right_same {A} (m : M Rest A) k :
  (forall e, kept (ext (conts s)) e -> wpf F m (fun _ e' => e' = e) e) -> (forall x, right (k x)) -> right (on_rest m ≫= k).
Proof.
  intros Hm Hk. apply right_step with (fun _ => True); [|by intros x _]. intros e He. eapply wpf_mono; [by apply Hm|]. by intros x e' ->.
Qed.

Section client.
Context (id : nat) (Hid : (id < Z.to_nat MAX_CLIENTS)%nat).

Lemma right_check fd ok k : 0 ≤ fd -> (forall x, right (k x)) -> right (on_rest (check_fd id fd ok) ≫= k).
Proof.
  intros Hfd. apply right_same. intros e He. destruct (client_io e id (proj1 He) Hid) as (io & Hio & _). by eapply check_fd_same.
Qed.
Lemma right_close fd : 0 ≤ fd -> right (startAsyncClose id fd).
Proof.
  intros Hfd. apply right_same.
  - intros e He. destruct (client_io e id (proj1 He) Hid) as (io & Hio & _). by eapply getHandle_same.
  - intros [err|h]; [apply right_answer|]. apply right_async, fresh_op_ok.
Qed.
Lemma right_read fd buf req : 0 ≤ fd -> right (startAsyncRead id fd buf req).
Proof. intros Hfd. apply right_check; [done|]. intros [err|]; [apply right_answer|]. apply right_async, fresh_op_ok. Qed.
Lemma right_write fd buf req : 0 ≤ fd -> right (startAsyncWrite id fd buf req).
Proof. intros Hfd. apply right_check; [done|]. intros [err|]; [apply right_answer|]. apply right_async, fresh_op_ok. Qed.
Lemma right_lseek fd off whence : 0 ≤ fd -> right (startAsyncLseek id fd off whence).
Proof. intros Hfd. apply right_check; [done|]. intros [err|]; [apply right_answer|]. apply right_async, fresh_op_ok. Qed.

(** A read of the console that waits for input. *)
Lemma right_suspend_read fd buf req d :
  (fd < 32)%nat -> 0 ≤ buf -> 0 ≤ req -> buf < 2 ^ 64 -> right (suspend_read id fd buf req d).
Proof.
  intros Hfd Hb Hq Hend e He. apply begin_async_spec; [done..|]. intros i l cap ut e' s' Hfree Hk Hfresh Hr' Hlo E1 E2 E3.
  apply wpf_bind. eapply wpf_mono; [by eapply fill_spec|]. intros _ s2 (wt & a2 & Hsd & Hf & Hlo2).
  pose proof Hsd as [D1 D2 D3 D4 D5 D6 D7 D8 D9 D10 D11 D12 D13]. apply wpf_bind, wp_conts, wpf_wp. unfold waitIO, CONSOLE_STDIN_FD.
  rewrite !bool_decide_false by (unfold MAX_FDS; lia).
  assert (Hv : valid (QIo 0)) by (unfold valid, MAX_FDS; lia).
  eapply (wp_wait _ a2 (QIo 0) i); [apply D1|done|done| |]; [by intros fd' w [= <-]|]. intros c1 Hl1 U1.
  set (a3 := set_list (QIo 0) _ _) in Hl1. assert (Hr3 : rep c1 a3) by by eapply rep_of_links.
  wp_line. apply wpf_modify. wp_line. apply wpf_modify. wp_line. simpl.
  set (w := set_wait_on (OnIO 0) (mkInfo (Z.of_nat id) (sreply s) (sreply_ut s) readResumeFn_fn (SRead fd (Z.of_nat id) buf req d) wt)).
  assert (Hw : infos a3 !! i = Some w) by (simpl; by rewrite list_lookup_alter_eq, D5).
  eapply (o_suspended s a _ a3 (QIo 0) i w ut); [exact Hr3|exact D11| | |exact D7|exact D8|exact D9|done|done|exact D10].
  - split; [done|done|exact D2| | |exact Hw|]; simpl.
    + by rewrite D3.
    + intros q Hq1 Hq2. rewrite decide_False by done. destruct (decide (q = QFiles)) as [->|]; [done|by apply D3].
    + intros j Hj. rewrite list_lookup_alter_ne by done. by apply D6.
  - split; [done|]. split; [done|]. split; [done|]. simpl. split; [unfold MAX_CLIENTS in *; lia|]. eauto 10.
Qed.
End client.
End calls.
