(* ===== verification/ServerHandlers.v ===== *)
(** * The handlers of system calls

    Every handler of [Server], on every branch: the outcome is one of those of
    [ServerCalls], whatever the arguments, provided that the numbers fit where the
    code casts them.  Then the reply objects: no two owners have the same, and every
    one that is used exists. *)

From S2P Require Import Prelude VmRegion VmMmap Errno Clients UserCopy FileTable Console FileWork Syscall Continuation Server ServerCalls.

(** ** Memory beside other state *)

Section beside.
Context {X U : Type} (m : UserMem U) (L : @UserMemLaws U m).

#[export, refine] Instance beside_laws : @UserMemLaws (X * U) (beside_mem m) := {| UserCopy.mem w := @UserCopy.mem U m L (snd w) |}.
Proof.
  - intros pb b w. apply wpf_zoom. simpl. eapply wpf_mono; [apply (@fault_keeps U m L)|]. simpl. done.
  - intros pb f o n w. apply (@load_length U m L).
  - intros pb f o n w. apply (@load_spec U m L).
  - intros pb f o l w a. apply (@store_outside U m L).
  - intros pb f o l w a. apply (@store_spec U m L).
  - intros f o l w pb. apply (@store_pages U m L).
  - intros pb b w a. apply (@mark_keeps U m L).
  - intros pb0 b w pb. apply (@mark_pages U m L).
  - intros pb f w. apply (@below_top U m L).
Defined.
(** A fault of the memory leaves the other state alone. *)
Lemma beside_fault pb b (w : X * U) P : P (fst w) ->
  wpf (fun _ => True) (@handleFault _ (beside_mem m) pb b) (fun _ w' => P (fst w')) w.
Proof.
  intros HP. simpl. apply wpf_zoom. simpl. unfold wpf. by destruct (@handleFault U m pb b (snd w)) as [[? ?]|].
Qed.
End beside.

(** ** The console as a device *)

Lemma pop_list_length n b l : (length (pop_list n b l) ≤ n)%nat.
Proof. revert l. induction n as [|n IH]; intros [|x l]; simpl; [lia..|]. destruct (b && _); simpl; [lia|]. specialize (IH l). lia. Qed.
(** Reading and writing do not change who has it open. *)
Definition same_open (c c' : Console) : Prop :=
  nc c' = nc c /\ reader_in_use c' = reader_in_use c /\ reader_owner_id c' = reader_owner_id c /\ write_refcnt c' = write_refcnt c.
Definition device_ok (c0 c : Console) : Prop := same_open c0 c /\ ring_ok (ring c).
Lemma console_read_spec n c0 c : 0 ≤ n -> device_ok c0 c ->
  wp (console_read n) (fun r c' => device_ok c0 c' /\ match r with Some l => Z.of_nat (length l) ≤ n | None => True end) c.
Proof.
  intros Hn [Hs Hr]. unfold console_read. case_bool_decide; [wp_line; split; [done|simpl; lia]|]. wp_line.
  destruct (isEmpty (ring c)); [by wp_line|]. wp_line. eapply wpf_mono; [by apply popMany_spec|]. intros l r' (Hr' & -> & _). wp_line.
  split; [done|]. pose proof (pop_list_length (Z.to_nat n) false (ring_contents (ring c))). lia.
Qed.
Lemma console_write_spec send data c0 c : (forall l, send l ≤ Z.of_nat (length l)) -> device_ok c0 c ->
  wp (console_write send data) (fun r c' => device_ok c0 c' /\ r ≤ Z.of_nat (length data)) c.
Proof.
  intros Hsend [Hs Hr]. unfold console_write. case_bool_decide as Hd; [wp_line; split; [done|lia]|]. wp_line.
  destruct (negb (nc c)); wp_line; [split; [done|lia]|]. split; [done|]. etransitivity; [apply Hsend|]. rewrite length_take. lia.
Qed.
Lemma console_ok_same c c' cs : same_open c c' -> console_ok c cs -> console_ok c' cs.
Proof. intros (_ & E2 & E3 & E4) (H1 & H2 & H3). split; [congruence|]. split; [by rewrite E2|]. by rewrite E3. Qed.

Section handlers.
Context {U K : Type} `{VmEnvLaws U} `{ServerEnvLaws K} (F : fault -> Prop).
Abbreviation Rest := (@Rest U K).
Abbreviation Server := (@Server U K).
Abbreviation Abs := (@Abs Rest).

(** ** Steps on the rest of the server *)

Lemma kept_client (e0 e : Rest) id io w :
  kept e0 e -> ios e !! id = Some io -> balanced id (dev e) (fst w) io (snd w) -> client_ok (snd w) ->
  kept e0 (mkRest (fst w) (<[id := snd w]> (ios e)) (users e) (kern e) (regs e) (sleepers e)).
Proof.
  intros ((Hw & Hl & Hr & Hg) & Hs) Hio Hb Hc. split; [|done]. split; [by eapply world_ok_step|]. simpl. rewrite length_insert.
  split; [done|]. split; [|done]. destruct Hb as [[_ ->] _]. done.
Qed.
Lemma kept_device (e0 e : Rest) c u :
  kept e0 e -> device_ok (dev e) c -> kept e0 (mkRest c (ios e) u (kern e) (regs e) (sleepers e)).
Proof.
  intros ((Hw & Hl & Hr & Hg) & Hs) [Hd Hr']. split; [|done]. split; [|done]. destruct Hw as (W1 & W2 & W3).
  split; [simpl; by rewrite (proj1 Hd)|]. split; [by eapply console_ok_same|done].
Qed.

Context (id : nat) (Hid : (id < Z.to_nat MAX_CLIENTS)%nat).

Lemma first_use_spec e0 (e : Rest) : kept e0 e ->
  wpf F (on_cw id (ensureStdio (Z.of_nat id))) (fun _ e' => kept e0 e' /\
    exists io, ios e' !! id = Some io /\ initialised io = true /\ client_ok io) e.
Proof.
  intros He. destruct (client_io e id (proj1 He) Hid) as (io & Hio & Hc). eapply wp_cw; [done|]. apply wpf_wp.
  eapply wpf_mono; [apply ensureStdio_spec; [apply He|done]|]. simpl. intros _ w (Hb & Hi & Hc'). split; [by eapply kept_client|].
  exists (snd w). simpl. split; [|done]. apply list_lookup_insert_eq. by eapply lookup_lt_Some.
Qed.
Lemma console_open_step e0 (e : Rest) io flags : kept e0 e -> ios e !! id = Some io -> initialised io = true ->
  wpf F (on_cw id (handleConsoleOpen (Z.of_nat id) flags)) (fun _ e' => kept e0 e') e.
Proof.
  intros He Hio Hi. pose proof (proj1 He) as ((_ & Hcon & Hcs) & _). destruct (client_ok_open io (Hcs _ _ Hio) Hi) as [x Hx].
  eapply wp_cw; [done|]. apply wpf_wp. eapply wpf_mono; [apply (handleConsoleOpen_spec x); [done|by eapply write_count]|].
  intros r w Ho. pose proof Ho as (Hb & _). eapply kept_client; [done|done|done|]. by apply (opened_client _ _ _ _ _ _ _ Ho), (Hcs _ _ Hio).
Qed.
Lemma console_close_step e0 (e : Rest) io fd f : kept e0 e -> ios e !! id = Some io -> initialised io = true ->
  fds io !! fd = Some f -> is_console f = true ->
  wpf F (on_cw id (close_console (Z.of_nat id) fd)) (fun _ e' => kept e0 e') e.
Proof.
  intros He Hio Hi Hf Hc. pose proof (proj1 He) as ((_ & Hcon & Hcs) & _). destruct (client_ok_open io (Hcs _ _ Hio) Hi) as [x Hx].
  eapply wp_cw; [done|]. apply wpf_wp. eapply wpf_mono; [by eapply (close_console_spec x)|].
  intros r w Ho. pose proof Ho as (Hb & _). eapply kept_client; [done|done|done|].
  by apply (closed_client _ _ _ _ _ _ _ _ Ho Hf Hc Hi), (Hcs _ _ Hio).
Qed.

Lemma kept_users (e0 e : Rest) u : kept e0 e -> kept e0 (mkRest (dev e) (ios e) u (kern e) (regs e) (sleepers e)).
Proof. by intros [[? ?] ?]. Qed.
Lemma users_step {A} e0 (e : Rest) (m : M U A) P : kept e0 e -> wp m (fun x _ => P x) (users e) ->
  wpf F (on_users m) (fun x e' => kept e0 e' /\ P x) e.
Proof. intros He Hm. unfold on_users. apply wpf_zoom, wpf_wp. eapply wpf_mono; [exact Hm|]. intros x u Hx. split; [by apply kept_users|done]. Qed.

Lemma read_console_step e0 (e : Rest) buf req : kept e0 e -> 0 ≤ buf -> 0 ≤ req -> buf < 2 ^ 64 ->
  wpf F (read_console id buf req) (fun r e' => kept e0 e' /\ match fst r with inl _ => True | inr n => 0 ≤ n ≤ req end) e.
Proof.
  intros He Hb Hq Hend. pose proof (proj1 He) as (_ & _ & Hring & _). unfold read_console. wp_line. apply wpf_wp.
  set (m := user_mem (Z.of_nat id)). set (L := beside_laws m (mem_laws (Z.of_nat id)) (X := bool * Console)).
  eapply wpf_mono.
  { apply (@withUserSlice_spec _ _ L (fun w => device_ok (dev e) (snd (fst w)))); [done..| | |done].
    - intros pb b w Hw. exact (beside_fault m pb b w (fun p => device_ok (dev e) (snd p)) Hw).
    - intros sl w Hw (pb & _ & _ & _ & Hlen & _). unfold read_op. apply wpf_bind, wpf_zoom.
      eapply wpf_mono; [apply console_read_spec; [lia|exact Hw]|]. intros [l|] c [Hc Hl]; wp_line; (split; [done|]); lia. }
  intros r w [Hw Hr]. wp_line. split; [|done]. by apply kept_device.
Qed.
Lemma write_console_step e0 (e : Rest) buf req : kept e0 e -> 0 ≤ buf -> 0 ≤ req -> buf < 2 ^ 64 ->
  wpf F (write_console id buf req) (fun r e' => kept e0 e' /\ match r with inl _ => True | inr n => 0 ≤ n ≤ req end) e.
Proof.
  intros He Hb Hq Hend. pose proof (proj1 He) as (_ & _ & Hring & _). unfold write_console. wp_line. apply wpf_wp.
  set (m := user_mem (Z.of_nat id)). set (L := beside_laws m (mem_laws (Z.of_nat id)) (X := Console)).
  eapply wpf_mono.
  { apply (@withUserSlice_spec _ _ L (fun w => device_ok (dev e) (fst w))); [done..| | |done].
    - intros pb b w Hw. exact (beside_fault m pb b w (fun p => device_ok (dev e) p) Hw).
    - intros sl w Hw (pb & Hp & Hf0 & Ho & Hlen & Hpage). unfold write_op. wp_line.
      pose proof (@load_length U m (mem_laws (Z.of_nat id)) pb (frame sl) (off sl) (len sl) (snd w) Hp Hf0 ltac:(lia) ltac:(lia) ltac:(lia)) as Hll.
      eapply wpf_mono; [apply console_write_spec; [intros l; apply send_bound|exact Hw]|]. intros r c [Hc Hle].
      case_bool_decide; wp_line; (split; [done|]); lia. }
  intros r w [Hw Hr]. split; [|done]. by apply kept_device.
Qed.
End handlers.

(** ** Every handler *)

Section answers.
Context {U K : Type} `{VmEnvLaws U} `{ServerEnvLaws K} (F : fault -> Prop).
Abbreviation Rest := (@Rest U K).
Abbreviation Server := (@Server U K).
Abbreviation Abs := (@Abs Rest).
Context (s : Server) (a : Abs).
Hypothesis Hr : rep (conts s) a.
Hypothesis Hh : have_reply s = true.
Abbreviation right := (right F s a).
Abbreviation Handler := (M Server (option SyscallResponse)).

Lemma right_answer' r : right (answer r).
Proof. by apply right_answer. Qed.
Lemma wpf_c_int {S} w (Q : Z -> S -> Prop) st : w < 2 ^ 31 -> Q w st -> wpf F (as_c_int w) Q st.
Proof. intros Hw HQ. unfold as_c_int. rewrite bool_decide_true by done. by wp_line. Qed.
Lemma wpf_i64 {S} w (Q : Z -> S -> Prop) st : w < 2 ^ 63 -> Q w st -> wpf F (as_i64 w) Q st.
Proof. intros Hw HQ. unfold as_i64. rewrite bool_decide_true by done. by wp_line. Qed.
Lemma wpf_word {S} w (Q : Z -> S -> Prop) st : i32 (wordToI64 w) -> Q (wordToI64 w) st -> wpf F (wordToCInt w) Q st.
Proof. intros [Hw1 Hw2] HQ. unfold wordToCInt. rewrite !bool_decide_true by done. simpl. by wp_line. Qed.
Lemma right_usize v (k : Z -> Handler) : 0 ≤ v < 2 ^ 64 -> right (k v) -> right (usize v ≫= k).
Proof.
  intros Hv Hk e He. apply wpf_bind. unfold usize. apply wpf_bind, wpf_assert; [by apply bool_decide_eq_true|]. wp_line. by apply Hk.
Qed.
(** A handler that ends here. *)
Lemma done_answer r e : kept (ext (conts s)) e -> wpf F (answer r) (outcome s a) (at_ s e).
Proof. apply right_answer'. Qed.

Section caller.
Context (ctx : ServerContext) (Hcaller : forall id, caller ctx = Some id -> 0 ≤ id).

Lemma right_client resp (k : nat -> Handler) : (forall id, (id < Z.to_nat MAX_CLIENTS)%nat -> right (k id)) -> right (with_client ctx resp k).
Proof.
  intros Hk. unfold with_client. destruct (caller ctx) as [id|] eqn:Hc; [|apply right_answer']. apply right_if; intros Hb.
  - apply right_answer'.
  - apply bool_decide_eq_false in Hb. apply Hk. specialize (Hcaller id eq_refl). lia.
Qed.
Lemma right_vm resp (k : Handler) : right k -> right (with_vm ctx resp k).
Proof. intros Hk. unfold with_vm. destruct (vm_found ctx); [done|apply right_answer']. Qed.
Lemma right_with_path id addr resp (k : list Z -> Handler) :
  0 ≤ addr -> addr < 2 ^ 64 -> (forall p, right (k p)) -> right (with_path id addr resp k).
Proof.
  intros Ha Hend Hk. apply right_step with (fun _ => True).
  - intros e He. apply users_step; [done|]. eapply wpf_mono; [|done].
    by apply (@copyCString_spec U _ (mem_laws (Z.of_nat id)) false).
  - intros [err|[buf copied]] _; [apply right_answer'|]. apply right_if; intros _; [apply right_answer'|].
    apply right_if; intros _; [apply right_answer'|done].
Qed.
(** The first use of its descriptors by a client; the rest starts from there. *)
Lemma right_first_use id (k : Handler) : (id < Z.to_nat MAX_CLIENTS)%nat -> right k -> right (first_use id;; k).
Proof.
  intros Hid Hk. apply (right_step F s a _ (fun _ => True)); [|by intros _ _]. intros e He.
  eapply wpf_mono; [by apply first_use_spec|]. by intros _ e' [? _].
Qed.
(** The same for the handlers that look at the descriptors next. *)
Lemma right_first_state id (k : ClientIoState -> Handler) : (id < Z.to_nat MAX_CLIENTS)%nat ->
  (forall e io, kept (ext (conts s)) e -> ios e !! id = Some io -> initialised io = true -> wpf F (k io) (outcome s a) (at_ s e)) ->
  right (first_use id;; io ← on_rest (io_state id); k io).
Proof.
  intros Hid Hk. unfold first_use. apply right_rest. intros e He. eapply wpf_mono; [by apply first_use_spec|].
  intros _ e' (He' & io & Hio & Hi & _). split; [done|]. apply wpf_bind, wp_rest_at. unfold io_state. wp_line. simpl.
  eapply wpf_access; [done|]. by apply Hk.
Qed.

Lemma right_handleOpen arg addr size :
  arg < 2 ^ 31 -> 0 ≤ addr -> addr < 2 ^ 64 -> right (handleOpen ctx arg addr size).
Proof.
  intros Harg Ha Hend. apply right_client. intros id Hid. unfold first_use. apply right_rest. intros e He.
  eapply wpf_mono; [by apply first_use_spec|]. intros _ e' (He' & io & Hio & Hi & _). split; [done|].
  apply wpf_bind, wpf_c_int; [done|]. case_bool_decide; [by apply done_answer|]. case_bool_decide; [by apply done_answer|].
  unfold with_vm. destruct (vm_found ctx); [|by apply done_answer].
  unfold with_path. apply wpf_bind, wp_rest_at. unfold on_users. apply wpf_zoom, wpf_wp.
  eapply wpf_mono; [by apply (@copyCString_spec U _ (mem_laws (Z.of_nat id)) false)|]. intros r u _. cbv beta.
  set (e2 := mkRest _ _ u _ _ _). assert (He2 : kept (ext (conts s)) e2) by by apply kept_users.
  destruct r as [err|[buf copied]]; [by apply done_answer|]. case_bool_decide; [by apply done_answer|].
  case_bool_decide; [by apply done_answer|]. case_bool_decide; [|by apply right_open].
  apply wpf_bind, wp_rest_at. eapply wpf_mono; [by eapply (console_open_step F id _ e2)|]. intros x e3 He3. by apply done_answer.
Qed.

(** The descriptor of the console at a number in the range. *)
Lemma console_entry_Some io fd f : console_entry io fd = Some f -> fds io !! Z.to_nat fd = Some f /\ is_console f = true.
Proof.
  unfold console_entry. destruct (fds io !! Z.to_nat fd) as [g|]; [|done]. destruct (is_console g) eqn:Hg; [|done]. by intros [= <-].
Qed.
Lemma fd_in_range_true fd : fd_in_range fd = true -> 0 ≤ fd < 32.
Proof. unfold fd_in_range, SOS_MAX_OPEN_FILES. intros Hb. apply negb_true_iff, orb_false_iff in Hb as [Hb1%bool_decide_eq_false Hb2%bool_decide_eq_false]. lia. Qed.

Lemma right_handleClose arg : arg < 2 ^ 31 -> right (handleClose ctx arg).
Proof.
  intros Harg. apply right_client. intros id Hid. apply right_first_state; [done|]. intros e io He Hio Hi. rewrite Hi. cbn [negb].
  apply wpf_bind, wpf_c_int; [done|]. destruct (fd_in_range arg) eqn:Hfd; cbn [negb]; [|by apply done_answer].
  apply fd_in_range_true in Hfd. destruct (console_entry io arg) as [f|] eqn:Hf; [|apply right_close; [done..|lia|done]].
  apply console_entry_Some in Hf as [Hf Hc]. apply wpf_bind, wp_rest_at. eapply wpf_mono; [by eapply console_close_step|].
  intros x e2 He2. by apply done_answer.
Qed.
Lemma right_handleRead arg buf size :
  arg < 2 ^ 31 -> 0 ≤ buf -> 0 ≤ size < 2 ^ 31 -> buf < 2 ^ 64 -> right (handleRead ctx arg buf size).
Proof.
  intros Harg Hb Hs Hend. apply right_client. intros id Hid. apply right_first_state; [done|]. intros e io He Hio Hi. rewrite Hi. cbn [negb].
  apply wpf_bind, wpf_c_int; [done|]. destruct (fd_in_range arg) eqn:Hfd; cbn [negb]; [|by apply done_answer].
  apply fd_in_range_true in Hfd. case_bool_decide; [by apply done_answer|].
  unfold with_vm. destruct (vm_found ctx); [|by apply done_answer].
  destruct (console_entry io arg) as [f|] eqn:Hf; [|apply right_read; [done..|lia|done]].
  destruct (readable f); cbn [negb]; [|by apply done_answer]. destruct (ops f); [|by apply done_answer].
  apply wpf_bind, wp_rest_at. eapply wpf_mono; [by eapply read_console_step; [..|lia|]|]. intros [[err|n] blocked] e2 [He2 Hn]; simpl.
  { by apply done_answer. }
  destruct (bool_decide (n = 0) && blocked); [apply right_suspend_read; [done|done|done|lia|done|lia|done|done]|].
  apply wpf_bind, wpf_c_int; [simpl in Hn; lia|]. by apply done_answer.
Qed.
Lemma right_handleWrite arg buf size :
  arg < 2 ^ 31 -> 0 ≤ buf -> 0 ≤ size < 2 ^ 31 -> buf < 2 ^ 64 -> right (handleWrite ctx arg buf size).
Proof.
  intros Harg Hb Hs Hend. apply right_client. intros id Hid. apply right_first_state; [done|]. intros e io He Hio Hi. rewrite Hi. cbn [negb].
  apply wpf_bind, wpf_c_int; [done|]. destruct (fd_in_range arg) eqn:Hfd; cbn [negb]; [|by apply done_answer].
  apply fd_in_range_true in Hfd. case_bool_decide; [by apply done_answer|].
  unfold with_vm. destruct (vm_found ctx); [|by apply done_answer].
  destruct (console_entry io arg) as [f|] eqn:Hf; [|apply right_write; [done..|lia|done]].
  apply console_entry_Some in Hf as [Hf Hc].
  assert (Hops : ops f = Some console_ops) by (pose proof (proj1 He) as ((_ & _ & Hcs) & _); by apply (proj1 (Hcs _ _ Hio) _ _ Hf)).
  destruct (writable f); cbn [negb]; [|by apply done_answer]. rewrite Hops. apply wpf_bind. eapply wpf_deref; [done|].
  apply wpf_bind, wp_rest_at. eapply wpf_mono; [by eapply write_console_step; [..|lia|]|]. intros [err|n] e2 [He2 Hn].
  { by apply done_answer. }
  apply wpf_bind, wpf_c_int; [lia|]. by apply done_answer.
Qed.
Lemma right_handleLseek fd off whence : i32 (wordToI64 fd) -> i32 (wordToI64 whence) -> right (handleLseek ctx fd off whence).
Proof.
  intros Hf Hw. apply right_client. intros id Hid. apply right_first_state; [done|]. intros e io He Hio Hi. rewrite Hi. cbn [negb].
  apply wpf_bind, wpf_word; [done|]. destruct (fd_in_range _) eqn:Hfd; cbn [negb]; [|by apply done_answer].
  apply fd_in_range_true in Hfd. apply wpf_bind, wpf_word; [done|]. destruct (_ && _); [by apply done_answer|].
  apply right_lseek; [done..|lia|done].
Qed.
Lemma right_handleStat addr plen out olen :
  0 ≤ addr -> addr < 2 ^ 64 -> 0 ≤ out -> out < 2 ^ 64 -> right (handleStat ctx addr plen out olen).
Proof.
  intros Ha Hend Ho Hoend. apply right_client. intros id Hid. apply right_first_use; [done|].
  apply right_if; intros _; [apply right_answer'|]. apply right_if; intros _; [apply right_answer'|]. apply right_vm.
  apply right_with_path; [done..|]. intros p. apply right_if; intros _; [|by apply right_stat].
  apply right_step with (fun _ => True); [|intros; apply right_answer']. intros e He. apply users_step; [done|].
  eapply wpf_mono; [by apply (@copyToClient_kept U _ (mem_laws (Z.of_nat id)))|done].
Qed.
Lemma right_handleUnlink addr plen : 0 ≤ addr -> addr < 2 ^ 64 -> right (handleUnlink ctx addr plen).
Proof.
  intros Ha Hend. apply right_client. intros id Hid. apply right_vm. apply right_if; intros _; [apply right_answer'|].
  apply right_with_path; [done..|]. intros p. by apply right_unlink.
Qed.
Lemma right_handleGetDirent idx buf size : 0 ≤ buf -> buf + 8 ≤ 2 ^ 64 -> right (handleGetDirent ctx idx buf size).
Proof.
  intros Hb Hend. apply right_client. intros id Hid. apply right_vm. apply right_if; intros _; [apply right_answer'|].
  apply right_if; intros _; [|by apply right_dirent]. apply right_if; intros _; [apply right_answer'|].
  apply right_step with (fun _ => True).
  - intros e He. apply users_step; [done|].
    eapply wpf_mono; [apply (@copyToClient_kept U _ (mem_laws (Z.of_nat id))); simpl; lia|done].
  - intros [err|[]] _; [apply right_answer'|]. apply right_usize; [simpl; lia|].
    apply right_step with (fun _ => True); [|intros; apply right_answer']. intros e He. apply users_step; [done|].
    eapply wpf_mono; [apply (@copyToClient_kept U _ (mem_laws (Z.of_nat id))); simpl; lia|done].
Qed.

(** *** Time and memory *)

Lemma in_kern_step {A} e0 (e : Rest) (f : K -> A * K) : kept e0 e ->
  wpf F (in_kern f) (fun x e' => x = fst (f (kern e)) /\ e' = set_kern (snd (f (kern e))) e /\ kept e0 e') e.
Proof. intros He. unfold in_kern. wp_line. destruct (f (kern e)) as [x k]. wp_line. split; [done|]. split; [done|]. by apply kept_kern. Qed.

(** The timer has the reply, or nothing has changed but the allocator. *)
Lemma ts_usleep_step e0 (e : Rest) d r ut : kept e0 e ->
  wpf F (ts_usleep d r ut) (fun x e' => ((x = 1 \/ x = -1) /\ kept e0 e') \/
    (x = 0 /\ rest_ok e' /\ exists id, sleepers e' = (id, (r, ut)) :: sleepers e0)) e.
Proof.
  intros He. unfold ts_usleep. case_bool_decide; [wp_line; auto|].
  apply wpf_bind. eapply wpf_mono; [by apply in_kern_step|]. intros ok e1 (_ & _ & He1). destruct ok; cbn [negb]; [|wp_line; auto].
  apply wpf_bind. eapply wpf_mono; [by apply in_kern_step|]. intros [id|] e2 (_ & _ & He2); wp_line; [|auto].
  right. destruct He2 as [Hok2 Hs2]. split; [done|]. split; [exact Hok2|]. exists id. simpl. by rewrite Hs2.
Qed.
Lemma right_handleUsleep arg : F Fatal -> right (handleUsleep arg).
Proof.
  intros HF e He. unfold handleUsleep. wp_line. apply wp_rest_at. eapply wpf_mono; [by apply ts_usleep_step|].
  intros x e1 [[Hx He1]|(-> & Hok & id & Hs)].
  - case_bool_decide; [by apply done_answer|]. case_bool_decide; [by apply done_answer|]. exfalso. lia.
  - rewrite !bool_decide_false by lia. apply wpf_bind, wp_set_have_reply. simpl. apply wpf_bind.
    eapply (wp_retype F _ (set_ext e1 a)); [by apply rep_ext|..].
    + intros k cap. by apply wpf_throw.
    + intros k cap ut c Hfresh Hc. wp_line. apply wp_set_reply. wp_line. simpl. by eapply (o_sleeps s a _ (set_kern k e1) id).
Qed.
Lemma right_handleTimestamp : right handleTimestamp.
Proof.
  apply right_same; [|intros; apply right_answer']. intros e He. unfold ts_get_timestamp. by wp_line.
Qed.
Lemma right_handleMyId : badge ctx < 2 ^ 31 -> right (handleMyId ctx).
Proof. intros Hb e He. apply wpf_bind, wpf_c_int; [done|]. by apply done_answer. Qed.
Lemma right_handlePagerStats : right handlePagerStats.
Proof.
  intros e He. unfold handlePagerStats. wp_line. destruct (pager_stats _) as [[[[? ?] ?] ?] ?]. by apply done_answer.
Qed.
Lemma right_handleBrk b : right (handleBrk ctx b).
Proof.
  unfold handleBrk. destruct (caller ctx) as [id|]; [|apply right_answer']. apply right_vm.
  apply right_step with (fun r => match r with inl _ => True | inr v => v < 2 ^ 63 end).
  - intros e He. apply users_step; [done|]. apply brk_law.
  - intros [err|v] Hv; [apply right_answer'|]. intros e He. apply wpf_bind, wpf_i64; [done|]. by apply done_answer.
Qed.
(** [mmap] of a descriptor of the console is excluded. *)
Lemma kept_mmap e0 (e : Rest) id io w :
  kept e0 e -> ios e !! id = Some io -> initialised (fst w) = initialised io ->
  filter is_console (fds (fst w)) = filter is_console (fds io) -> (forall x, io_ok x io -> exists x', io_ok x' (fst w)) ->
  kept e0 (mkRest (dev e) (<[id := fst w]> (ios e)) (snd w) (kern e) (regs e) (sleepers e)).
Proof.
  intros ((Hw & Hl & Hrest) & Hs) Hio Hi Hf Hx. split; [|done]. simpl. pose proof Hw as (_ & _ & Hcs). simpl in Hcs.
  assert (Hrw : readers (fst w) = readers io /\ writers (fst w) = writers io) by by apply same_counts.
  split; [|simpl; by rewrite length_insert]. eapply world_ok_step; [exact Hw|exact Hio|destruct Hrw; by apply balanced_refl|].
  destruct (Hcs _ _ Hio) as [Hc Hcase]. split; [by eapply console_fds_filter|]. rewrite Hi. destruct (initialised io).
  - destruct Hcase as [x Hok]. by eapply Hx.
  - destruct Hrw as [-> ->]. done.
Qed.
Lemma wp_handleMmap addr len prot flags fd off :
  rest_ok (ext (conts s)) -> 0 ≤ len < 2 ^ 63 -> 0 ≤ wordToI64 prot < 2 ^ 31 -> i32 (wordToI64 flags) -> i32 (wordToI64 fd) ->
  (forall id io f, caller ctx = Some id -> ios (ext (conts s)) !! Z.to_nat id = Some io ->
     fds io !! Z.to_nat (wordToI64 fd) = Some f -> 0 ≤ wordToI64 fd -> is_console f = false) ->
  wpf F (handleMmap ctx addr len prot flags fd off) (outcome s a) (at_ s (ext (conts s))).
Proof.
  intros Hok Hl Hp Hf Hfd Hcon. set (e := ext (conts s)) in *. assert (He : kept e e) by by split.
  unfold handleMmap, with_client. destruct (caller ctx) as [id|] eqn:Hc; [|by apply done_answer].
  case_bool_decide as Hid; [by apply done_answer|]. unfold with_vm. destruct (vm_found ctx); [|by apply done_answer].
  do 3 (apply wpf_bind, wpf_word; [done || (unfold i32; lia)|]). apply wpf_bind, wp_rest_at.
  specialize (Hcaller id eq_refl). destruct (client_io e (Z.to_nat id) Hok) as (io & Hio & _); [lia|].
  unfold on_mm. wp_line. eapply wpf_access; [done|]. apply wpf_zoom, wpf_wp.
  eapply wpf_mono; [apply mmap_law; [done|done|]; intros f Hf1 Hf2; by eapply Hcon|]. intros r w (Hi & Hfil & Hx & Hv). cbv beta.
  assert (He2 : kept e (mkRest (dev e) (<[Z.to_nat id := fst w]> (ios e)) (snd w) (kern e) (regs e) (sleepers e))) by by eapply kept_mmap.
  destruct r as [err|v]; [by apply done_answer|]. apply wpf_bind, wpf_i64; [done|]. by apply done_answer.
Qed.
End caller.
End answers.

(** ** A system call *)

Section syscall.
Context {U K : Type} `{VmEnvLaws U} `{ServerEnvLaws K}.
Abbreviation Rest := (@Rest U K).
Abbreviation Server := (@Server U K).
Abbreviation Abs := (@Abs Rest).

(** What the arguments must be, where the code casts them or adds to them: numbers that
    become [c_int] fit, addresses are words, the eight bytes of an entry of the directory
    do not go beyond the addresses, and [mmap] is not given a descriptor of the console,
    a negative protection or a length of 2^63 and more. *)
Definition call_ok (ctx : ServerContext) (c : Syscall) (e : Rest) : Prop :=
  (forall id, caller ctx = Some id -> 0 ≤ id) /\
  match c with
  | Open arg addr _ => arg < 2 ^ 31 /\ 0 ≤ addr /\ addr < 2 ^ 64
  | Close arg => arg < 2 ^ 31
  | Read arg buf size | Write arg buf size => arg < 2 ^ 31 /\ 0 ≤ buf /\ 0 ≤ size < 2 ^ 31 /\ buf < 2 ^ 64
  | Stat addr _ out _ => 0 ≤ addr /\ addr < 2 ^ 64 /\ 0 ≤ out /\ out < 2 ^ 64
  | Unlink addr _ => 0 ≤ addr /\ addr < 2 ^ 64
  | GetDirent _ buf _ => 0 ≤ buf /\ buf + 8 ≤ 2 ^ 64
  | Lseek fd _ whence => i32 (wordToI64 fd) /\ i32 (wordToI64 whence)
  | Mmap _ len prot flags fd _ => 0 ≤ len < 2 ^ 63 /\ 0 ≤ wordToI64 prot < 2 ^ 31 /\ i32 (wordToI64 flags) /\ i32 (wordToI64 fd) /\
      forall id io f, caller ctx = Some id -> ios e !! Z.to_nat id = Some io ->
        fds io !! Z.to_nat (wordToI64 fd) = Some f -> 0 ≤ wordToI64 fd -> is_console f = false
  | MyId => badge ctx < 2 ^ 31
  | Usleep _ | Timestamp | Brk _ | PagerStats => True
  end.

(** The only fault: the server gives up when there is no memory for a reply object after
    the timer has the old one. *)
Definition gives_up (c : Syscall) (f : fault) : Prop := f = Fatal /\ exists d, c = Usleep d.

Lemma syscall_spec (s : Server) a ctx c :
  rep (conts s) a -> rest_ok (ext (conts s)) -> have_reply s = true -> call_ok ctx c (ext (conts s)) ->
  wpf (gives_up c) (handleDecodedSyscall ctx c) (outcome s a) s.
Proof.
  intros Hr Hok Hh [Hc Hargs]. assert (Hs : at_ s (ext (conts s)) = s) by by destruct s as [[] ? ? ?].
  assert (He : kept (ext (conts s)) (ext (conts s))) by by split.
  rewrite <- Hs at 2. destruct c; simpl in *; decompose [and] Hargs.
  - by apply right_handleOpen.
  - by apply right_handleClose.
  - by apply right_handleRead.
  - by apply right_handleWrite.
  - apply right_handleUsleep; [done..| |done]. split; [done|by eexists].
  - by apply right_handleTimestamp.
  - by apply right_handleMyId.
  - by apply right_handleBrk.
  - by apply wp_handleMmap.
  - by apply right_handleStat.
  - by apply right_handleGetDirent.
  - by apply right_handlePagerStats.
  - by apply right_handleLseek.
  - by apply right_handleUnlink.
Qed.

(** C5: what a system call does, on every branch of every handler, when its arguments are
    in the ranges of [call_ok]: words that become a [c_int] fit, addresses are words,
    an entry of the directory does not reach beyond them, and [mmap] is not given the
    console, a negative protection or a length of 2^63 and more.  It ends without
    undefined behaviour, with the console, the descriptors of all the clients and the
    continuations in order, in one of four ways: it is answered, and the server keeps
    the reply object that it received the message on; it is suspended, the reply object
    is stored in one continuation that left the pool and waits in one queue, and the
    server has a new one; the timer has it; or it is rejected after the suspension
    began, and then the reply object of the server was deleted.  The one exception is
    [usleep], in which the server stops when there is no memory for a new reply object. *)
Theorem syscall_outcome (s : Server) a ctx c :
  rep (conts s) a -> rest_ok (ext (conts s)) -> have_reply s = true -> call_ok ctx c (ext (conts s)) ->
  wpf (gives_up c) (handleDecodedSyscall ctx c) (outcome s a) s.
Proof. apply syscall_spec. Qed.
End syscall.
