(* ===== verification/ServerReplies.v ===== *)
(** * Reply objects

    The server, its continuations and its timers own reply objects.  Over any sequence
    of system calls, timer events, characters from the console, and finished file
    operations, a reply is only sent on an object that exists, an object is deleted
    once, and no two owners have the same one, as long as no call was rejected after
    its suspension began. *)

From S2P Require Import Prelude VmRegion VmMmap Errno Clients UserCopy FileTable Console FileWork Syscall Continuation Server ServerCalls ServerHandlers.

(** ** Histories *)

Definition event_ok (L : gset Z) (e : Event) : Prop :=
  match e with Send r _ | Delete r => r ∈ L | Retype r _ => r ∉ L | FreeSlot _ | UtFree _ => True end.
Fixpoint safe_from (L : gset Z) (tr : list Event) : Prop :=
  match tr with [] => True | e :: tr => event_ok L e /\ safe_from (live_step L e) tr end.
(** Every object that is used exists. *)
Definition safe (tr : list Event) : Prop := safe_from ∅ tr.

Lemma safe_from_app L t1 t2 : safe_from L (t1 ++ t2) <-> safe_from L t1 /\ safe_from (foldl live_step L t1) t2.
Proof. revert L. induction t1 as [|e t1 IH]; intros L; simpl; [tauto|]. rewrite IH. tauto. Qed.
Lemma safe_app tr l : safe (tr ++ l) <-> safe tr /\ safe_from (live tr) l.
Proof. apply safe_from_app. Qed.
Lemma live_app tr l : live (tr ++ l) = foldl live_step (live tr) l.
Proof. apply foldl_app. Qed.

(** ** Owners *)

(** The server has [sr], the timers have [sl], and the continuations that satisfy [W] have
    what [rp] says. *)
Record replies_ok (sr : Z) (sl : list Z) (W : nat -> Prop) (rp : nat -> option Z) (tr : list Event) : Prop := {
  ro_safe : safe tr;
  ro_mine : sr ∈ live tr;
  ro_other : sr ∉ sl;
  ro_nodup : NoDup sl;
  ro_sleep : forall r, r ∈ sl -> r ∈ live tr;
  ro_cont : forall i r, W i -> rp i = Some r -> r ∈ live tr /\ r ≠ sr /\ r ∉ sl;
  ro_inj : forall i j r, W i -> W j -> rp i = Some r -> rp j = Some r -> i = j }.

Section owners.
Context (sr : Z) (sl : list Z) (W : nat -> Prop) (rp : nat -> option Z) (tr : list Event).
Hypothesis Hok : replies_ok sr sl W rp tr.

Lemma replies_mono (W' : nat -> Prop) rp' :
  (forall i, W' i -> W i) -> (forall i, W' i -> rp' i = rp i) -> replies_ok sr sl W' rp' tr.
Proof.
  intros HW Hrp. destruct Hok as [H1 H2 H3 H4 H5 H6 H7]. split; try done.
  - intros i r Hi. rewrite Hrp by done. apply (H6 i r (HW i Hi)).
  - intros i j r Hi Hj. rewrite !Hrp by done. apply (H7 i j r (HW i Hi) (HW j Hj)).
Qed.
(** A reply on [r], which is then deleted; [quiet] events are those that free memory. *)
Lemma replies_finish i r m u (W' : nat -> Prop) rp' :
  W i -> rp i = Some r -> (forall j, W' j -> W j /\ j ≠ i) -> (forall j, W' j -> rp' j = rp j) ->
  replies_ok sr sl W' rp' (tr ++ [Send r m; Delete r; FreeSlot r; UtFree u]).
Proof.
  intros Hi Hr HW Hrp. destruct Hok as [H1 H2 H3 H4 H5 H6 H7]. destruct (H6 i r Hi Hr) as (Hlive & Hne & Hsl).
  split; rewrite ?safe_app, ?live_app; simpl; try done.
  - set_solver.
  - intros x Hx. assert (x ≠ r) by (by intros ->). specialize (H5 x Hx). set_solver.
  - intros j x Hj Hx. destruct (HW j Hj) as [Hwj Hji]. rewrite Hrp in Hx by done. destruct (H6 j x Hwj Hx) as (Hl & ? & ?).
    assert (x ≠ r) by (intros ->; by apply Hji, (H7 _ _ r)). set_solver.
  - intros j k x Hj Hk. rewrite !Hrp by done. apply H7; by apply HW.
Qed.
Lemma replies_suspend i cap u (W' : nat -> Prop) rp' :
  cap ∉ live tr -> (forall j, W' j -> j = i \/ (W j /\ rp' j = rp j)) -> rp' i = Some sr ->
  replies_ok cap sl W' rp' (tr ++ [Retype cap u]).
Proof.
  intros Hcap HW Hi. destruct Hok as [H1 H2 H3 H4 H5 H6 H7]. split; rewrite ?safe_app, ?live_app; simpl; try done.
  - set_solver.
  - intros Hin. by apply Hcap, H5.
  - set_solver.
  - intros j x Hj Hx. destruct (HW j Hj) as [->|[Hwj Hrj]].
    + rewrite Hi in Hx. injection Hx as <-. split; [set_solver|]. split; [by intros ->|done].
    + rewrite Hrj in Hx. destruct (H6 j x Hwj Hx) as (Hl & _ & Hs). split; [set_solver|]. split; [by intros ->|done].
  - intros j k x Hj Hk Hjx Hkx. destruct (HW j Hj) as [->|[Hwj Hrj]], (HW k Hk) as [->|[Hwk Hrk]]; [done|..].
    + rewrite Hi in Hjx. injection Hjx as <-. rewrite Hrk in Hkx. by destruct (H6 k sr Hwk Hkx) as (_ & [] & _).
    + rewrite Hi in Hkx. injection Hkx as <-. rewrite Hrj in Hjx. by destruct (H6 j sr Hwj Hjx) as (_ & [] & _).
    + rewrite Hrj in Hjx. rewrite Hrk in Hkx. by eapply H7.
Qed.
Lemma replies_sleep cap u : cap ∉ live tr -> replies_ok cap (sr :: sl) W rp (tr ++ [Retype cap u]).
Proof.
  intros Hcap. destruct Hok as [H1 H2 H3 H4 H5 H6 H7]. split; rewrite ?safe_app, ?live_app; simpl; try done.
  - set_solver.
  - intros [->|Hin]%elem_of_cons; [done|]. by apply Hcap, H5.
  - by constructor.
  - set_solver.
  - intros j x Hj Hx. destruct (H6 j x Hj Hx) as (Hl & Hne & Hs). split; [set_solver|]. split; [by intros ->|]. set_solver.
Qed.
Lemma replies_leak cap u : cap ∉ live tr -> replies_ok sr sl W rp (tr ++ [Retype cap u]).
Proof.
  intros Hcap. destruct Hok as [H1 H2 H3 H4 H5 H6 H7]. split; rewrite ?safe_app, ?live_app; simpl; try done.
  - set_solver.
  - set_solver.
  - intros j x Hj Hx. destruct (H6 j x Hj Hx) as (Hl & Hne & Hs). split; [set_solver|done].
Qed.
Lemma replies_send m : replies_ok sr sl W rp (tr ++ [Send sr m]).
Proof. destruct Hok as [H1 H2 H3 H4 H5 H6 H7]. split; rewrite ?safe_app, ?live_app; simpl; done. Qed.
Lemma replies_wake l1 r l2 m u :
  sl = l1 ++ r :: l2 -> replies_ok sr (l1 ++ l2) W rp (tr ++ [Send r m; Delete r; FreeSlot r; UtFree u]).
Proof.
  intros ->. destruct Hok as [H1 H2 H3 H4 H5 H6 H7]. assert (Hr : r ∈ live tr) by (apply H5; set_solver).
  rewrite <- (Permutation_middle l1 l2 r) in H4. apply NoDup_cons in H4 as [Hn Hnd].
  split; rewrite ?safe_app, ?live_app; simpl; try done.
  - set_solver.
  - set_solver.
  - intros x Hx. assert (x ≠ r) by (by intros ->). assert (x ∈ live tr) by (apply H5; set_solver). set_solver.
  - intros j x Hj Hx. destruct (H6 j x Hj Hx) as (Hl & Hne & Hs). assert (x ≠ r) by (intros ->; set_solver).
    split; [set_solver|]. split; [done|]. set_solver.
Qed.
End owners.

(** ** The server *)

Section server.
Context {U K : Type} `{VmEnvLaws U} `{ServerEnvLaws K}.
Abbreviation Rest := (@Rest U K).
Abbreviation Server := (@Server U K).
Abbreviation Abs := (@Abs Rest).

Definition sleeping (e : Rest) : list Z := (fun p => fst (snd p)) <$> sleepers e.
Definition waits (a : Abs) (i : nat) : Prop := exists q, valid q /\ q ≠ QFree /\ i ∈ lists a q.
Definition reply_at (a : Abs) (i : nat) : option Z := reply <$> (infos a !! i).
Definition infos_ok (a : Abs) : Prop :=
  forall q i w, valid q -> q ≠ QFree -> i ∈ lists a q -> infos a !! i = Some w -> info_ok q w.
(** The continuations [ex] are in no queue and still own their replies. *)
Record holding (sr : Z) (ex : list nat) (a : Abs) : Prop := {
  h_rest : rest_ok (a_ext a);
  h_infos : infos_ok a;
  h_replies : replies_ok sr (sleeping (a_ext a)) (fun i => waits a i \/ i ∈ ex) (reply_at a) (a_trace a) }.
Definition server_inv (s : Server) (a : Abs) : Prop := rep (conts s) a /\ holding (sreply s) [] a.

(** The events after a call, unless the reply object of the server was deleted. *)
Definition killed (s s' : Server) : Prop := Delete (sreply s) ∈ drop (length (trace (conts s))) (trace (conts s')).

Lemma outcome_inv s a r s' : server_inv s a -> outcome s a r s' ->
  (killed s s' /\ have_reply s' = true /\ rest_ok (ext (conts s'))) \/ exists a', server_inv s' a'.
Proof.
  intros [Hr [Hrest Hinf Hrp]] Ho. pose proof (rp_ext _ _ (proj1 Hr)) as Hext.
  destruct Ho as [r s' evs e Hr' [He Hs] E1 E2 E3 Hev|s' a' q i w ut Hr' [He Hs] Hpk Hiok E1 E2 Hfresh E3 E4 Htr
                 |s' e id Hr' He Hs Hfresh E1|r s' a' cap ut Hr' [He Hs] Hlists Hinfos E1 E2 E3 Hfresh Htr].
  - right. eexists. split; [exact Hr'|]. split; [exact He|done|]. simpl. unfold sleeping in *. rewrite Hs, <- Hext. rewrite E1.
    destruct Hev as [->|(cap & ut & Hfresh & ->)]; [by rewrite app_nil_r|]. by apply replies_leak.
  - right. exists a'. split; [exact Hr'|]. destruct Hpk as [P1 P2 P3 P4 P5 P6 P7].
    destruct (first_free _ _ _ _ Hr P3) as (_ & _ & Hnot).
    assert (Hcase : forall q' j, valid q' -> q' ≠ QFree -> j ∈ lists a' q' -> (j = i /\ q' = q) \/ (j ≠ i /\ j ∈ lists a q')).
    { intros q' j Hv Hq Hj. destruct (decide (q' = q)) as [->|Hne]; [rewrite P4 in Hj; apply elem_of_cons in Hj as [->|Hj]|rewrite P5 in Hj by done].
      - by left.
      - right. split; [|done]. intros ->. by apply (Hnot q Hv Hq).
      - right. split; [|done]. intros ->. by apply (Hnot q' Hv Hq). }
    split; [exact He| |].
    + intros q' j w' Hv Hq Hj Hw'. destruct (Hcase q' j Hv Hq Hj) as [[-> ->]|[Hne Hj']].
      * rewrite P6 in Hw'. by injection Hw' as <-.
      * rewrite P7 in Hw' by done. by eapply Hinf.
    + rewrite Htr. unfold sleeping in *. rewrite Hs, <- Hext. eapply (replies_suspend (sreply s)); [exact Hrp|done| |].
      * intros j [(q' & Hv & Hq & Hj)|Hj]; [|by apply elem_of_nil in Hj]. destruct (Hcase q' j Hv Hq Hj) as [[-> _]|[Hne Hj']]; [by left|].
        right. split; [left; by exists q'|]. unfold reply_at. by rewrite P7.
      * unfold reply_at. rewrite P6. simpl. by rewrite E1.
  - right. eexists. split; [exact Hr'|]. split; [exact He|done|]. simpl. unfold sleeping in *. rewrite Hs, <- Hext. simpl.
    by apply replies_sleep.
  - left. split; [|split; [done|by rewrite <- (rp_ext _ _ (proj1 Hr'))]]. unfold killed. rewrite <- (rp_trace _ _ (proj1 Hr)), <- (rp_trace _ _ (proj1 Hr')), Htr, drop_app_length.
    set_solver.
Qed.

(** A change of the rest of the server that keeps it in order. *)
Lemma holding_ext sr ex a e : holding sr ex a -> kept (a_ext a) e -> holding sr ex (set_ext e a).
Proof. intros [Hrest Hinf Hrp] [He Hs]. split; [done|done|]. simpl. unfold sleeping in *. by rewrite Hs. Qed.
Lemma inv_at s a e : server_inv s a -> kept (ext (conts s)) e -> server_inv (at_ s e) (set_ext e a).
Proof.
  intros [Hr Hh] Hk. split; [by apply rep_ext|]. simpl. apply holding_ext; [done|]. by rewrite (rp_ext _ _ (proj1 Hr)).
Qed.

(** *** Messages *)

Lemma wp_SetMR i v (r : Regs) (Q : unit -> Regs -> Prop) :
  (i < length r)%nat -> (forall r', length r' = length r -> Q tt r') -> wp (SetMR i v) Q r.
Proof.
  intros Hi HQ. destruct (lookup_lt_is_Some_2 r i Hi) as [x Hx]. unfold SetMR. wp_line. eapply wpf_access; [done|]. wp_line.
  apply HQ, length_insert.
Qed.
Lemma response_serialise_spec resp (r : Regs) : (5 ≤ length r)%nat -> wp (response_serialise resp) (fun _ r' => length r' = length r) r.
Proof.
  intros Hl. unfold response_serialise.
  destruct resp; do 4 (apply wpf_bind, wp_SetMR; [lia|]; intros ? ?); try (apply wpf_bind, wp_SetMR; [lia|]; intros ? ?); wp_line; lia.
Qed.
Lemma GetMR_spec i (r : Regs) (Q : Z -> Regs -> Prop) : (i < length r)%nat -> (forall w, Q w r) -> wp (GetMR i) Q r.
Proof. intros Hi HQ. destruct (lookup_lt_is_Some_2 r i Hi) as [x Hx]. unfold GetMR. wp_line. by eapply wpf_access. Qed.
Lemma deserialise_total msg (r : Regs) : (7 ≤ length r)%nat -> wp (deserialise msg) (fun c r' => r' = r) r.
Proof.
  intros Hl. unfold deserialise. case_bool_decide; [by wp_line|]. case_bool_decide; [by wp_line|].
  apply wpf_bind, GetMR_spec; [lia|]. intros w. destruct (intToEnum w) as [n|]; [|by wp_line]. unfold need.
  destruct n; try case_bool_decide; wp_line; try done; repeat (apply GetMR_spec; [lia|]; intros ?; wp_line); done.
Qed.
(** The registers of the server. *)
Lemma regs_step {A} F e0 (e : Rest) (m : M Regs A) (P : A -> Prop) : kept e0 e ->
  wp m (fun x r => P x /\ length r = length (regs e)) (regs e) -> wpf F (on_regs m) (fun x e' => kept e0 e' /\ P x) e.
Proof.
  intros [(Hw & Hl & Hr & Hg) Hs] Hm. unfold on_regs. apply wpf_zoom, wpf_wp. eapply wpf_mono; [exact Hm|]. intros x r [HP Hlen].
  split; [|done]. split; [|done]. split; [done|]. split; [done|]. split; [done|]. simpl. lia.
Qed.

(** *** A system call *)

Definition inv (s : Server) : Prop := exists a, server_inv s a.
Lemma wp_send F s m (Q : unit -> Server -> Prop) :
  inv s -> (forall s', inv s' -> Q tt s') -> wpf F (on_conts (emit (Send (sreply s) m))) Q s.
Proof.
  intros (a & Hr & [Hrest Hinf Hrp]) HQ. apply wp_conts, wpf_wp. eapply wp_emit; [apply Hr|]. intros c Hl Hu. apply HQ.
  exists (add_events [Send (sreply s) m] a). split; [by eapply rep_of_links|]. split; [done|done|]. simpl. by apply replies_send.
Qed.

(** The call that a message carries must have arguments that fit. *)
Definition message_ok (badge_ : Z) (msg : MessageInfo) (arrived : Regs) (id : Z) (s : Server) : Prop :=
  (7 ≤ length arrived)%nat /\ 0 ≤ id /\
  forall c, deserialise msg arrived = Ok (inr c, arrived) ->
    forall found, call_ok (Ctx badge_ (Some id) found) c (ext (conts s)).

Lemma inv_have_reply s b : inv s -> inv (mkServer (conts s) (sreply s) (sreply_ut s) b).
Proof. intros (a & Hr & Hh). by exists a. Qed.
Lemma inv_kept s e : inv s -> kept (ext (conts s)) e -> inv (at_ s e).
Proof. intros (a & Hi) Hk. exists (set_ext e a). by apply inv_at. Qed.
Lemma inv_rest_ok s : inv s -> kept (ext (conts s)) (ext (conts s)).
Proof. intros (a & Hr & [Hrest _ _]). split; [|done]. by rewrite <- (rp_ext _ _ (proj1 Hr)). Qed.
Lemma killed_more s s' s2 l : killed s s' -> trace (conts s2) = trace (conts s') ++ l -> killed s s2.
Proof. unfold killed. intros Hk ->. rewrite drop_app. set_solver. Qed.

(** The end of a turn: the answer is sent. *)
Lemma send_turn F s s2 x : killed s s2 \/ inv s2 -> (have_reply s2 = false -> inv s2) ->
  wpf F (v ← get; when (have_reply v) (on_conts (emit (Send (sreply v) (Raw x))))) (fun _ s3 => killed s s3 \/ inv s3) s2.
Proof.
  intros Hs Hno. wp_line. apply wpf_when; intros Hb; [|right; by apply Hno]. destruct Hs as [Hk|Hi].
  - apply wp_conts. unfold emit. wp_line. left. by eapply killed_more.
  - apply wp_send; [done|]. by right.
Qed.

Definition out_of_replies (f : fault) : Prop := f = Fatal.
Lemma decoded_spec s ctx c : inv s -> have_reply s = true -> call_ok ctx c (ext (conts s)) ->
  wpf out_of_replies (handleDecodedSyscall ctx c) (fun _ s' =>
    (killed s s' /\ have_reply s' = true /\ rest_ok (ext (conts s'))) \/ inv s') s.
Proof.
  intros (a & Hinv) Hh Hc. pose proof Hinv as [Hr [Hrest _ _]]. eapply wpf_weaken with (gives_up c); [by intros f [-> _]|].
  eapply wpf_mono; [apply (syscall_spec s a); [done| |done|done]; by rewrite <- (rp_ext _ _ (proj1 Hr))|].
  intros r s' Ho. by eapply outcome_inv.
Qed.
Lemma serve_spec s badge_ msg arrived who :
  inv s -> (7 ≤ length arrived)%nat ->
  (forall id, who = Some id -> message_ok badge_ msg arrived id s) ->
  wpf out_of_replies (serve badge_ msg arrived who) (fun _ s' => killed s s' \/ inv s') s.
Proof.
  intros Hi Hlen Hok. unfold serve. apply wpf_bind, wp_rest. unfold on_regs at 1. wp_line.
  set (e1 := mkRest _ _ _ _ arrived _). assert (Hk1 : kept (ext (conts s)) e1).
  { destruct (inv_rest_ok _ Hi) as [(Hw & Hl & Hr & _) _]. by split. }
  assert (Hi1 : inv (at_ s e1)) by by apply inv_kept.
  destruct who as [id|]; [|apply wp_set_have_reply; right; by apply inv_have_reply].
  destruct (Hok id eq_refl) as (_ & Hid & Hcall). clear Hok. apply wpf_bind. unfold handle_syscall. case_bool_decide.
  - apply wpf_bind, wp_rest_at. eapply wpf_mono.
    { eapply (regs_step _ (ext (conts s)) e1 _ (fun _ => True) Hk1). apply wp_SetMR; [simpl; lia|]. done. }
    intros _ e2 [Hk2 _]. apply wpf_bind, wp_set_have_reply. wp_line. apply send_turn; [right|done].
    by apply (inv_have_reply (at_ s e2)), inv_kept.
  - apply wpf_bind, wp_rest_at. unfold on_regs. apply wpf_zoom, wpf_wp. simpl.
    destruct (wp_inv _ _ _ (deserialise_total msg arrived Hlen)) as (c & r & Hd & ->). eapply wpf_ok; [exact Hd|]. fold e1.
    set (s2 := mkServer (conts (at_ s e1)) (sreply s) (sreply_ut s) true).
    assert (Hi2 : inv s2) by by apply (inv_have_reply (at_ s e1)). assert (Hk2 : kept e1 e1) by exact (inv_rest_ok _ Hi1).
    destruct c as [err|c].
    + apply wpf_bind, wp_set_have_reply. fold s2. apply wpf_bind, wp_rest. eapply wpf_mono.
      { eapply (regs_step _ e1 e1 _ (fun _ => True) Hk2). apply wp_SetMR; [simpl; lia|]. done. }
      intros _ e2 [He2 _]. wp_line. apply send_turn; [right|done]. by apply inv_kept.
    + wp_line. apply wp_set_have_reply. fold s2. wp_line. eapply wpf_mono; [apply decoded_spec; [done|done|by apply Hcall]|].
      intros [resp|] s3 Hs3.
      2:{ wp_line. apply send_turn; [destruct Hs3 as [[Hkill _]|]; auto|]. intros Hf. destruct Hs3 as [(_ & Ht & _)|]; [congruence|done]. }
      assert (Hk3 : kept (ext (conts s3)) (ext (conts s3))) by (destruct Hs3 as [(_ & _ & ?)|]; [done|by apply inv_rest_ok]).
      apply wp_rest. eapply wpf_mono.
      { eapply (regs_step _ _ _ _ (fun _ => True) Hk3). eapply wpf_mono; [apply response_serialise_spec|done].
        destruct Hk3 as [(_ & _ & _ & ?) _]. lia. }
      intros m e3 [He3 _]. apply send_turn.
      * destruct Hs3 as [(Hkill & _)|Hi3]; [by left|right; by apply inv_kept].
      * intros Hf. destruct Hs3 as [(_ & Ht & _)|Hi3]; [simpl in Hf; congruence|by apply inv_kept].
Qed.

(** *** Timers *)

Lemma sleep_callback_spec s id : inv s -> id ∈ fst <$> sleepers (ext (conts s)) -> wp (sleep_callback id) (fun _ s' => inv s') s.
Proof.
  intros (a & Hr & [Hrest Hinf Hrp]) Hid. pose proof (rp_ext _ _ (proj1 Hr)) as Hext. rewrite Hext in *.
  unfold sleep_callback. wp_line. destruct (list_find _ _) as [[n [id' [r ut]]]|] eqn:Hfind.
  2:{ apply list_find_None in Hfind. apply list_elem_of_fmap in Hid as (p & -> & Hp). rewrite Forall_forall in Hfind. by destruct (Hfind p Hp). }
  apply list_find_Some in Hfind as (Hn & _ & _). apply wpf_bind, wp_rest. eapply wpf_mono.
  { eapply (regs_step _ _ _ _ (fun _ => True)); [by split; [exact Hrest|done]|]. apply wp_SetMR; [destruct Hrest as (_ & _ & _ & ?); lia|done]. }
  intros _ e1 [[He1 Hs1] _]. pose proof (rep_ext _ _ e1 Hr) as Hr1.
  apply wpf_bind, wp_conts. eapply wp_emit; [apply Hr1|]. intros c1 Hl1 U1. apply wpf_bind, wp_conts. simpl. eapply wp_emit; [exact Hl1|].
  intros c2 Hl2 U2. apply wpf_bind, wp_conts. simpl. eapply wp_emit; [exact Hl2|]. intros c3 Hl3 U3.
  apply wpf_bind, wp_conts. simpl. eapply wp_emit; [exact Hl3|]. intros c4 Hl4 U4. rewrite !add_events_app in Hl4. simpl in Hl4.
  assert (Hr4 : rep c4 (add_events [Send r (Raw (MessageInfo_new 0 0 0 1)); Delete r; FreeSlot r; UtFree ut] (set_ext e1 a))).
  { eapply rep_of_links; [exact Hr1|exact Hl4| |done]. by rewrite U4, U3, U2, U1. }
  apply wp_rest. wp_line. simpl. pose proof (rp_ext _ _ Hl4) as Hext4. simpl in Hext4. rewrite <- Hext4.
  eexists. split; [apply rep_ext, Hr4|]. simpl. split; [done|done|]. simpl. unfold sleeping in *. simpl. rewrite Hs1, delete_take_drop, fmap_app.
  rewrite <- (take_drop_middle _ _ _ Hn) in Hrp. rewrite fmap_app in Hrp. simpl in Hrp. by eapply replies_wake.
Qed.

(** *** Workers *)

Lemma worker_finish_spec s i c op0 op :
  inv s -> pool (conts s) !! i = Some c -> state (info c) = SFileOp op0 -> op_ok op -> wp (worker_finish i op) (fun _ s' => inv s') s.
Proof.
  intros (a & Hr & [Hrest Hinf Hrp]) Hc Hst Hop. unfold worker_finish. apply wp_conts. apply wpf_bind. eapply wp_cont_at; [done|]. rewrite Hst.
  unfold set_info. apply wpf_bind. eapply wp_cont_at; [done|]. wp_line.
  set (f := fun w => mkInfo (client w) (reply w) (reply_ut w) (resume_fn w) (SFileOp op) (wait_on w)).
  exists (alter_info i f a). assert (Hw : infos a !! i = Some (info c)) by by rewrite (rp_infos _ _ (proj1 Hr)), list_lookup_fmap, Hc.
  split; [|split; [done| |]].
  - eapply rep_of_links; [exact Hr| |done|done]. apply (links_set_info (conts s) a i c f); [apply Hr|done|by left].
  - intros q j w Hv Hq Hj Hw'. simpl in *. destruct (decide (i = j)) as [<-|Hne].
    + rewrite list_lookup_alter_eq, Hw in Hw'. injection Hw' as <-. pose proof (Hinf q i (info c) Hv Hq Hj Hw) as Hio.
      destruct q as [|fd| |]; simpl in *; try done.
      * destruct Hio as (_ & _ & _ & _ & n & h & buf & req & d & Hsr & _). congruence.
      * split; [apply Hio|]. by exists op.
    + rewrite list_lookup_alter_ne in Hw' by done. by eapply Hinf.
  - simpl. eapply replies_mono; [exact Hrp|done|]. intros j _. unfold reply_at. simpl. destruct (decide (i = j)) as [<-|Hne].
    + by rewrite list_lookup_alter_eq, Hw.
    + by rewrite list_lookup_alter_ne.
Qed.

(** *** Finished operations *)

Lemma ran_kept {A} (d : A) (m : M Rest A) (e : Rest) : rest_ok e -> wpf (fun _ => True) m (fun _ e' => kept e e') e -> kept e (snd (ran d m e)).
Proof. intros He. unfold wpf, ran. by destruct (m e) as [[x e']|f]. Qed.
Lemma server_kept_trans (e1 e2 e3 : Rest) : kept e1 e2 -> kept e2 e3 -> kept e1 e3.
Proof. intros [_ Hs1] [He Hs2]. split; [done|congruence]. Qed.
(** A copy to any address is defined. *)
Lemma copy_out_safe h data va (e : Rest) : 0 ≤ va < 2 ^ 64 ->
  exists r e', on_users (@UserCopy.copyToClient U (user_mem h) data va) e = Ok (r, e') /\
    copy_out h data va e = (match r with inl err => inl (vmErrorToErrno err) | inr _ => inr tt end, e').
Proof.
  intros Hva. assert (Hw : wp (on_users (@UserCopy.copyToClient U (user_mem h) data va)) (fun _ _ => True) e).
  { unfold on_users. apply wpf_zoom. eapply wpf_mono; [by apply (@copyToClient_kept U _ (mem_laws h))|done]. }
  unfold copy_out, ran, mbind, M_bind. unfold wp, wpf in Hw.
  destruct (on_users _ e) as [[r e']|f]; [by exists r, e'|done].
Qed.
(** A copy to a client changes the memory of the clients only. *)
Lemma copy_out_kept h data va (e : Rest) : rest_ok e -> kept e (snd (copy_out h data va e)).
Proof.
  intros He. apply ran_kept; [done|]. apply wpf_bind. unfold on_users. apply wpf_zoom. unfold wpf.
  destruct (@UserCopy.copyToClient _ _ _ _ _) as [[r u]|]; [|done]. apply wpf_ret. by apply kept_users.
Qed.

(** A continuation that is answered is no longer an owner. *)
Lemma holding_gone sr ex i w m (a : Abs) e :
  holding sr (i :: ex) a -> i ∉ ex -> ~ waits a i -> infos a !! i = Some w -> kept (a_ext a) e ->
  holding sr ex (gone i (finished m w) (set_ext e a)).
Proof.
  intros [Hrest Hinf Hrp] Hex Hni Hw [He Hs].
  assert (Hlists : forall q, q ≠ QFree -> lists (gone i (finished m w) (set_ext e a)) q = lists a q) by (intros q Hq; simpl; by rewrite decide_False).
  assert (Hwaits : forall j, waits (gone i (finished m w) (set_ext e a)) j -> waits a j).
  { intros j (q & Hv & Hq & Hj). exists q. rewrite Hlists in Hj by done. done. }
  split; [done| |].
  - intros q j w' Hv Hq Hj Hw'. rewrite Hlists in Hj by done. simpl in Hw'.
    rewrite list_lookup_alter_ne in Hw' by (intros ->; apply Hni; by exists q). by eapply Hinf.
  - simpl. unfold sleeping in *. rewrite Hs. eapply (replies_finish sr _ _ _ _ Hrp i (reply w)).
    + right. set_solver.
    + unfold reply_at. by rewrite Hw.
    + intros j [Hj|Hj]; [|split; [right; set_solver|by intros ->]]. apply Hwaits in Hj. split; [by left|]. by intros ->.
    + intros j Hj. unfold reply_at. simpl. rewrite list_lookup_alter_ne; [done|]. intros ->. destruct Hj as [Hj|Hj]; [by apply Hni, Hwaits|done].
Qed.
(** A continuation that leaves its queue is still an owner. *)
Lemma holding_take sr q k i r (a : Abs) :
  holding sr [] a -> valid q -> q ≠ QFree -> lists a q = k ++ i :: r -> holding sr [i] (set_list q (k ++ r) a).
Proof.
  intros [Hrest Hinf Hrp] Hv Hq Heq.
  assert (Hsub : forall q' j, j ∈ lists (set_list q (k ++ r) a) q' -> j ∈ lists a q').
  { intros q' j. destruct (decide (q' = q)) as [->|Hne]; [rewrite lists_set, Heq; set_solver|by rewrite lists_set_ne]. }
  split; [done| |].
  - intros q' j w Hv' Hq' Hj. apply Hsub in Hj. by eapply Hinf.
  - simpl. eapply replies_mono; [exact Hrp| |done]. intros j [(q' & Hv' & Hq' & Hj)|Hj]; left.
    + exists q'. by apply Hsub in Hj.
    + apply list_elem_of_singleton in Hj as ->. exists q. rewrite Heq. set_solver.
Qed.
Lemma copied_once_kept (e e' : Rest) : rest_ok e -> copied_once copy_out e e' -> kept e e'.
Proof. intros He [->|(h & data & va & ->)]; [done|by apply copy_out_kept]. Qed.
Lemma loose_waits (a : Abs) i : loose a i -> ~ waits a i.
Proof. intros [_ Hl] (q & Hv & _ & Hi). by apply (Hl q Hv). Qed.

Lemma completed_spec s : inv s -> wp checkCompletedFileOps (fun _ s' => inv s') s.
Proof.
  intros (a & Hr & Hh). unfold checkCompletedFileOps. apply wp_conts.
  eapply wpf_mono; [apply (drain_inv copy_out (holding (sreply s) [])) with (a := a)|].
  - intros b i w op Hb Hi Hw Hst. destruct (h_infos _ _ _ Hb QFiles i w I ltac:(done) Hi Hw) as (_ & op' & Hst' & Hop). congruence.
  - intros b i k r w m e Hb Heq Hw Hlo He. apply holding_gone; [by apply holding_take|set_solver|by apply loose_waits|done|].
    apply copied_once_kept; [apply Hb|done].
  - pose proof (list_bound _ _ QFiles (proj1 Hr) I). lia.
  - exact Hr.
  - exact Hh.
  - intros [] c (a' & Hr' & Hh'). by exists a'.
Qed.

(** *** Input *)

Lemma readResumeFn_safe (w : Info) (e : Rest) : rest_ok e -> info_ok (QIo 0) w -> wp (readResumeFn w) (fun _ e' => kept e e') e.
Proof.
  intros He (_ & _ & _ & Hcl & n & h & buf & req & d & Hst & Hn & Hb & Hq & Hend). assert (Hk : kept e e) by done.
  unfold readResumeFn. rewrite Hst, bool_decide_false by lia.
  destruct (client_io e (Z.to_nat (client w)) He) as (io & Hio & Hok); [lia|]. unfold io_state. wp_line. eapply wpf_access; [done|].
  destruct (initialised io) eqn:Hi; cbn [negb]; [|by wp_line]. destruct (client_ok_open _ Hok Hi) as [x Hx].
  destruct (lookup_lt_is_Some_2 (fds io) n) as [f Hf]; [by rewrite (o_fds _ _ Hx)|]. wp_line. eapply wpf_access; [done|].
  destruct (_ || _); [by wp_line|]. unfold on_dev. wp_line.
  eapply wpf_mono; [apply (console_read_spec _ (dev e)); [unfold PAGE_SIZE_4K; lia|by destruct He as (_ & _ & ? & _)]|].
  intros r c [Hc Hl]. set (e1 := mkRest c _ _ _ _ _). assert (Hk1 : kept e e1) by by apply kept_device.
  destruct r as [l|]; [|by wp_line]. apply wpf_bind. apply wpf_mono with (fun _ e2 => kept e e2).
  { case_bool_decide; [|by wp_line]. eapply wpf_mono; [apply (users_step _ e e1 _ (fun _ => True) Hk1)|by intros ? ? [? _]].
    apply (@copyToUserBuffer_total U _ (mem_laws h)); lia. }
  intros ok e2 Hk2. destruct ok; cbn [negb]; [|by wp_line]. apply wpf_bind.
  eapply wpf_mono; [apply (regs_step _ e e2 _ (fun _ => True) Hk2)|intros m e3 [? _]; by wp_line].
  eapply wpf_mono; [apply response_serialise_spec|done]. destruct Hk2 as [(_ & _ & _ & ?) _]. lia.
Qed.
Lemma resume_fns_kept w ev (e : Rest) : rest_ok e -> info_ok (QIo 0) w -> kept e (snd (resume_fns w ev e)).
Proof.
  intros He Hw. unfold resume_fns. case_bool_decide; [|done]. apply ran_kept; [done|]. eapply wpf_weaken; [|by apply readResumeFn_safe]. done.
Qed.
(** A continuation that waits for input again. *)
Lemma holding_wait sr ex i w (a : Abs) e :
  holding sr (i :: ex) a -> i ∉ ex -> ~ waits a i -> infos a !! i = Some w -> info_ok (QIo 0) w -> kept (a_ext a) e ->
  holding sr ex (a_wait (QIo 0) i (set_wait_on (OnIO 0)) (set_ext e a)).
Proof.
  intros [Hrest Hinf Hrp] Hex Hni Hw Hiok [He Hs]. set (a' := a_wait _ _ _ _).
  assert (Hcase : forall q j, q ≠ QFree -> valid q -> j ∈ lists a' q -> (j = i /\ q = QIo 0) \/ (j ≠ i /\ j ∈ lists a q)).
  { intros q j Hq Hv Hj. simpl in Hj. destruct (decide (q = QIo 0)) as [->|Hne]; [apply elem_of_cons in Hj as [->|Hj]; [by left|]|].
    all: right; (split; [|done]); intros ->; apply Hni; eexists; (split; [exact Hv|]); by split. }
  split; [done| |].
  - intros q j w' Hv Hq Hj Hw'. simpl in Hw'. destruct (Hcase q j Hq Hv Hj) as [[-> ->]|[Hne Hj']].
    + rewrite list_lookup_alter_eq, Hw in Hw'. injection Hw' as <-.
      destruct Hiok as (I1 & I2 & I3 & I4 & I5). split; [done|]. split; [done|]. split; [done|]. split; [done|exact I5].
    + rewrite list_lookup_alter_ne in Hw' by done. by eapply Hinf.
  - simpl. unfold sleeping in *. rewrite Hs. eapply replies_mono; [exact Hrp| |].
    + intros j [(q & Hv & Hq & Hj)|Hj]; [|right; set_solver]. destruct (Hcase q j Hq Hv Hj) as [[-> _]|[_ Hj']]; [right; set_solver|left; by exists q].
    + intros j _. unfold reply_at. simpl. destruct (decide (i = j)) as [<-|Hne]; [by rewrite list_lookup_alter_eq, Hw|by rewrite list_lookup_alter_ne].
Qed.

Lemma holding_resume sr event l : forall a, holding sr l a -> NoDup l ->
  (forall i, i ∈ l -> ~ waits a i /\ exists w, infos a !! i = Some w /\ info_ok (QIo 0) w) ->
  holding sr [] (foldl (a_resume resume_fns event) a l).
Proof.
  induction l as [|i l IH]; intros a Hh Hnd Hl; simpl; [done|]. apply NoDup_cons in Hnd as [Hi Hnd].
  destruct (Hl i) as (Hni & w & Hw & Hok); [set_solver|]. pose proof (resume_fns_kept w event (a_ext a) (h_rest _ _ _ Hh) Hok) as Hk.
  assert (Hstep : holding sr l (a_resume resume_fns event a i) /\
    forall j, j ≠ i -> (waits (a_resume resume_fns event a i) j -> waits a j) /\ infos (a_resume resume_fns event a i) !! j = infos a !! j).
  { unfold a_resume. rewrite Hw. set (e := snd _) in *.
    assert (Hgone : forall m, holding sr l (gone i (finished m w) (set_ext e a)) /\
      forall j, j ≠ i -> (waits (gone i (finished m w) (set_ext e a)) j -> waits a j) /\ infos (gone i (finished m w) (set_ext e a)) !! j = infos a !! j).
    { intros m. split; [by apply holding_gone|]. intros j Hj. simpl. rewrite list_lookup_alter_ne by done. split; [|done].
      intros (q & Hv & Hq & Hin). exists q. simpl in Hin. by rewrite decide_False in Hin. }
    destruct (fst _) as [m|errno|]; [apply Hgone..|]. rewrite (proj1 (proj2 (proj2 Hok))). split; [by eapply holding_wait|].
    intros j Hj. simpl. rewrite list_lookup_alter_ne by done. split; [|done]. intros (q & Hv & Hq & Hin). exists q. simpl in Hin.
    destruct (decide (q = QIo 0)) as [->|]; [|done]. split; [done|]. split; [done|]. set_solver. }
  destruct Hstep as [Hh' Hsame]. apply IH; [done|done|]. intros j Hj. assert (Hji : j ≠ i) by (by intros ->).
  destruct (Hsame j Hji) as [Hw' ->]. destruct (Hl j) as [Hnj Hinf]; [set_solver|]. split; [auto|done].
Qed.

Lemma console_input_spec s ch : inv s -> wp (console_input ch) (fun _ s' => inv s') s.
Proof.
  intros Hi. pose proof (inv_rest_ok _ Hi) as Hk. unfold console_input. apply wpf_bind, wp_rest. unfold on_dev. apply wpf_zoom.
  unfold handleInput. apply wpf_zoom. eapply wpf_mono; [apply ring_push_spec; by destruct Hk as [(_ & _ & ? & _) _]|]. intros _ r [Hr _].
  set (e := mkRest _ _ _ _ _ _). assert (Hke : kept (ext (conts s)) e) by by apply kept_device.
  destruct (inv_kept s e Hi Hke) as (a & Hrep & Hh). apply wp_conts.
  assert (Hv : valid (QIo 0)) by (unfold valid, MAX_FDS; lia).
  eapply wpf_mono; [by apply (resumeIO_spec _ _ a)|]. intros [] c Hc. eexists. split; [exact Hc|]. simpl in *.
  pose proof (proj1 Hrep) as Hl. destruct Hh as [Hrest Hinf Hrp]. apply holding_resume.
  - split; [done| |].
    + intros q j w Hq Hqf Hj Hw. destruct (decide (q = QIo 0)) as [->|Hne]; [rewrite lists_set in Hj; by apply elem_of_nil in Hj|].
      rewrite lists_set_ne in Hj by done. by eapply Hinf.
    + eapply replies_mono; [exact Hrp| |done]. intros j [(q & Hq & Hqf & Hj)|Hj]; left; [|by exists (QIo 0)].
      exists q. destruct (decide (q = QIo 0)) as [->|Hne]; [rewrite lists_set in Hj; by apply elem_of_nil in Hj|]. by rewrite lists_set_ne in Hj.
  - by apply (rp_nodup _ _ Hl).
  - intros j Hj. destruct (can_resume_cut _ _ (QIo 0) j Hl Hv Hj) as [Hlo (w & Hw & _)].
    + intros w Hw fd Hfd. rewrite (rp_wait _ _ Hl 0 j w) in Hfd by done. by injection Hfd as <-.
    + split; [by apply loose_waits|]. exists w. split; [done|]. by eapply Hinf.
Qed.

(** ** Every sequence of events *)

Inductive Action :=
| ACall (badge_ : Z) (msg : MessageInfo) (arrived : Regs) (who : option Z)
| ATimer (id : Z)
| AInput (ch : Z)
| AWorker (i : nat) (op : FileOpState)
| ACompleted.
Definition act (x : Action) : M Server unit :=
  match x with
  | ACall badge_ msg arrived who => serve badge_ msg arrived who
  | ATimer id => sleep_callback id
  | AInput ch => console_input ch
  | AWorker i op => worker_finish i op
  | ACompleted => checkCompletedFileOps
  end.
(** What can happen: a message with arguments that fit, a timer that was set, a worker
    with an operation that it was given. *)
Definition act_ok (s : Server) (x : Action) : Prop :=
  match x with
  | ACall badge_ msg arrived who =>
    (7 ≤ length arrived)%nat /\ forall id, who = Some id -> message_ok badge_ msg arrived id s
  | ATimer id => id ∈ fst <$> sleepers (ext (conts s))
  | AWorker i op => op_ok op /\ exists c op0, pool (conts s) !! i = Some c /\ state (info c) = SFileOp op0
  | AInput _ | ACompleted => True
  end.
Lemma act_spec s x : inv s -> act_ok s x -> wpf out_of_replies (act x) (fun _ s' => killed s s' \/ inv s') s.
Proof.
  intros Hi Hx. assert (Hwp : forall m : M Server unit, wp m (fun _ s' => inv s') s -> wpf out_of_replies m (fun _ s' => killed s s' \/ inv s') s).
  { intros m Hm. apply wpf_wp. eapply wpf_mono; [exact Hm|]. by right. }
  destruct x as [b msg arr who|id|ch|i op|]; simpl in *.
  - destruct Hx. by apply serve_spec.
  - by apply Hwp, sleep_callback_spec.
  - by apply Hwp, console_input_spec.
  - destruct Hx as (Hop & c & op0 & Hc & Hst). by eapply Hwp, worker_finish_spec.
  - by apply Hwp, completed_spec.
Qed.

(** A step in which the reply object of the server was not deleted. *)
Definition server_step (s s' : Server) : Prop := exists x, act_ok s x /\ act x s = Ok (tt, s') /\ ~ killed s s'.

(** The server as it enters its loop: it has created one reply object. *)
Definition fresh_server (s : Server) : Prop :=
  rest_ok (ext (conts s)) /\ sleepers (ext (conts s)) = [] /\ (exists ut, trace (conts s) = [Retype (sreply s) ut]) /\
  exists a, rep (conts s) a /\ forall q, q ≠ QFree -> lists a q = [].

Lemma fresh_server_inv s : fresh_server s -> inv s.
Proof.
  intros (Hrest & Hsl & (ut & Htr) & a & Hr & Hl). exists a. split; [done|].
  assert (Hno : forall i, ~ waits a i) by (intros i (q & _ & Hq & Hi); rewrite Hl in Hi by done; by apply elem_of_nil in Hi).
  pose proof (rp_ext _ _ (proj1 Hr)) as Hext. pose proof (rp_trace _ _ (proj1 Hr)) as Htr'. split.
  - by rewrite Hext.
  - intros q i w _ Hq Hi. rewrite Hl in Hi by done. by apply elem_of_nil in Hi.
  - rewrite Htr', Htr. unfold sleeping. rewrite Hext, Hsl. simpl. split.
    + split; [simpl; set_solver|done].
    + unfold live. simpl. set_solver.
    + set_solver.
    + constructor.
    + set_solver.
    + intros i r [Hi|Hi]; [by destruct (Hno i)|by apply elem_of_nil in Hi].
    + intros i j r [Hi|Hi]; [by destruct (Hno i)|by apply elem_of_nil in Hi].
Qed.

End server.
