(* ===== verification/ServerDemo.v ===== *)
(** * Runs of the server

    A server with one page of client memory, workers that take every request, and an
    allocator that numbers reply objects; the witnesses of the theorems on system
    calls, and a name that kills the reply object of the server. *)

From S2P Require Import Prelude VmRegion VmMmap Errno Clients UserCopy FileTable Console FileWork Syscall Continuation Server ServerCalls ServerHandlers ServerReplies.

(** ** The parts outside *)

#[export] Instance demo_vm : VmEnv plain := {|
  user_mem _ := plain_mem; vm_state_lookup _ _ := true; vm_brk _ n := mret (if bool_decide (n < 2 ^ 63) then inr n else inl Bounds);
  vm_mmap _ _ _ _ _ _ _ := mret (inl Unsupported) |}.
#[export, refine] Instance demo_vm_laws : VmEnvLaws plain := {| mem_laws _ := plain_laws |}.
Proof.
  - intros id n u. apply wpf_ret. by case_bool_decide.
  - intros id addr len prot flags fd off s u _ _ _. apply wpf_ret. simpl. eauto.
Defined.

(** The requests that the workers have, and whether they take more. *)
Record workers := mkWorkers { given : list (nat * Request); full : bool; timers : Z }.
Fixpoint max_cap (tr : list Event) : Z :=
  match tr with [] => 0 | Retype r _ :: tr => Z.max r (max_cap tr) | _ :: tr => max_cap tr end.
#[export] Instance demo_env : ServerEnv workers := {|
  alloc_retype tr k := ((max_cap tr + 1, Some (max_cap tr + 1001)), k);
  enqueue_work i _ req k := if full k then (- EAGAIN, k) else (0, mkWorkers ((i, req) :: given k) false (timers k));
  malloc k := (true, k);
  register_timer _ k := (Some (timers k), mkWorkers (given k) (full k) (timers k + 1));
  get_time _ := 5; pager_stats _ := (0, 0, 0, 0, 0); network_console_send _ l := Z.of_nat (length l) |}.

Lemma live_max tr L r : r ∈ foldl live_step L tr -> r ∈ L \/ r ≤ max_cap tr.
Proof.
  revert L. induction tr as [|e tr IH]; intros L Hr; simpl in *; [by left|]. apply IH in Hr as [Hr|Hr].
  - destruct e as [c u|c m|c|c|u]; simpl in Hr; [|auto..|auto|auto].
    + apply elem_of_union in Hr as [->%elem_of_singleton|Hr]; [right; simpl; lia|by left].
    + left. set_solver.
  - right. destruct e; simpl; lia.
Qed.
#[export] Instance demo_env_laws : ServerEnvLaws workers.
Proof.
  split.
  - intros tr k. simpl. intros Hin. apply (live_max tr ∅) in Hin as [Hin|Hin]; [set_solver|lia].
  - done.
Qed.

(** ** A server that has just started *)

Abbreviation Rest := (@Server.Rest plain workers).
Abbreviation Server := (@Server.Server plain workers).
Definition rest0 (name : list Z) (b : bool) : Rest :=
  mkRest (fst (world0 1)) (replicate (Z.to_nat MAX_CLIENTS) reset) (Plain {[0x1000]} ∅ (store_bytes ∅ 0x1000 name)) (mkWorkers [] b 0)
    (replicate 7 0) [].
Definition blank : Info := mkInfo 0 0 0 0 SCustom (OnIRQ 0).
Definition cold (e : Rest) : @St Rest :=
  mkSt (replicate CONT_POOL_SIZE (Cont None blank)) None 0 (replicate 32 None) None None [Retype 1 1001] e.
Definition start (name : list Z) (b : bool) : Server :=
  mkServer (match bootstrap (cold (rest0 name b)) with Ok (_, c) => c | Fault _ => cold (rest0 name b) end) 1 1001 true.

Lemma rest0_ok name b : rest_ok (rest0 name b).
Proof.
  split; [exact (console_world0_ok 128)|]. split; [done|]. split; [done|]. simpl. lia.
Qed.
Lemma start_rep name b : rep (conts (start name b)) (abs_start (cold (rest0 name b))).
Proof.
  assert (Hidle : idle (cold (rest0 name b))).
  { repeat split; try done. apply Forall_replicate. done. }
  destruct (wp_inv _ _ _ (bootstrap_spec _ Hidle)) as (u & c & Hrun & Hr). unfold start. rewrite Hrun. exact Hr.
Qed.
Lemma start_ext name b : ext (conts (start name b)) = rest0 name b.
Proof. pose proof (rp_ext _ _ (proj1 (start_rep name b))) as Hx. by rewrite <- Hx. Qed.
Lemma start_fresh name b : fresh_server (start name b).
Proof.
  split; [rewrite start_ext; apply rest0_ok|]. split; [by rewrite start_ext|]. split.
  - exists 1001. pose proof (rp_trace _ _ (proj1 (start_rep name b))) as Hx. by rewrite <- Hx.
  - exists (abs_start (cold (rest0 name b))). split; [apply start_rep|]. intros q Hq. simpl. by rewrite decide_False.
Qed.

(** ** Opening a file *)

(** The name [f], and the name [a/b]. *)
Definition good_name : list Z := [102; 0].
Definition bad_name : list Z := [97; 47; 98; 0].
Definition open_call (size : Z) : Syscall := Open 0 0x1000 size.
Definition open_regs (size : Z) : Regs := [intFromEnum NOpen; 0; 0x1000; size; 0; 0; 0].

Lemma open_args size e : call_ok (Ctx 5 (Some 0) true) (open_call size) (e : Rest).
Proof. split; [by intros id [= <-]|]. simpl. unfold OPEN_PATH_CAPACITY. lia. Qed.

(** The call is suspended: the server has reply object 2. *)
Lemma syscall_outcome_witness : exists s', handleDecodedSyscall (Ctx 5 (Some 0) true) (open_call 2) (start good_name false) = Ok (None, s') /\
  outcome (start good_name false) (abs_start (cold (rest0 good_name false))) None s'.
Proof.
  assert (Hv : value_of (handleDecodedSyscall (Ctx 5 (Some 0) true) (open_call 2) (start good_name false)) = Some None) by (vm_compute; reflexivity).
  assert (Hok : rest_ok (ext (conts (start good_name false)))) by (rewrite start_ext; exact (rest0_ok _ _)).
  exact (wpf_value _ _ _ _ _ (syscall_outcome (start good_name false) (abs_start (cold (rest0 good_name false))) (Ctx 5 (Some 0) true) (open_call 2)
    (start_rep _ _) Hok eq_refl (open_args 2 _)) Hv).
Defined.

(** The same as a turn of the loop. *)
Definition open_turn (size : Z) : Action := ACall 5 (MI 0 0 4) (open_regs size) (Some 0).
Definition after (x : Action) (s : Server) : Server := match act x s with Ok (_, s') => s' | Fault _ => s end.

Lemma open_turn_ok size (s : Server) : act_ok s (open_turn size).
Proof.
  split; [simpl; lia|]. intros id [= <-]. split; [simpl; lia|]. split; [lia|]. intros c Hc found.
  assert (Hd : deserialise (MI 0 0 4) (open_regs size) = Ok (inr (open_call size), open_regs size)) by reflexivity.
  rewrite Hd in Hc. injection Hc as <-. split; [by intros id [= <-]|]. simpl. unfold OPEN_PATH_CAPACITY. lia.
Qed.
Definition opened : Server := after (open_turn 2) (start good_name false).
Lemma opened_runs : act (open_turn 2) (start good_name false) = Ok (tt, opened).
Proof. vm_compute. reflexivity. Qed.
Lemma opened_trace : trace (conts opened) = [Retype 1 1001; Retype 2 1002] /\ trace (conts (start good_name false)) = [Retype 1 1001] /\
  sreply (start good_name false) = 1.
Proof. vm_compute. auto. Qed.
Lemma opened_reached : rtc server_step (start good_name false) opened.
Proof.
  apply rtc_once. exists (open_turn 2). split; [apply open_turn_ok|]. split; [exact opened_runs|]. unfold killed.
  destruct opened_trace as (-> & -> & ->). simpl. intros Hin. apply list_elem_of_singleton in Hin. discriminate.
Qed.

(** ** A name that is rejected *)

(** A client opens [a/b].  The server deletes its own reply object, frees its memory, and
    then answers on it: the client never gets the answer, and the object that was made
    for the next message is lost. *)
Definition rejected : Server := after (open_turn 4) (start bad_name false).
Lemma rejected_runs : act (open_turn 4) (start bad_name false) = Ok (tt, rejected).
Proof. vm_compute. reflexivity. Qed.
Lemma rejected_trace : exists m, trace (conts rejected) =
  [Retype 1 1001; Retype 2 1002; UtFree 1002; Delete 1; FreeSlot 1; UtFree 1001; Send 1 m] /\ sreply rejected = 1.
Proof. eexists. vm_compute. auto. Qed.
Lemma rejected_open_unsafe : act_ok (start bad_name false) (open_turn 4) /\
  act (open_turn 4) (start bad_name false) = Ok (tt, rejected) /\ ~ safe (trace (conts rejected)) /\ sreply rejected ∉ live (trace (conts rejected)).
Proof.
  split; [apply open_turn_ok|]. split; [exact rejected_runs|]. destruct rejected_trace as (m & -> & ->). split.
  - unfold safe. simpl. intros (_ & _ & _ & _ & _ & _ & Hin & _). set_solver.
  - unfold live. simpl. set_solver.
Qed.
(** The same happens when the workers have too much to do. *)
Lemma busy_open_unsafe : exists m, trace (conts (after (open_turn 2) (start good_name true))) =
  [Retype 1 1001; Retype 2 1002; UtFree 1002; Delete 1; FreeSlot 1; UtFree 1001; Send 1 m].
Proof. eexists. vm_compute. reflexivity. Qed.
