(* ===== verification/PageJobs.v ===== *)
(** * The jobs of the workers on pages

    Models the half of [sos/src/worker.zig] that moves pages: the reservation of
    slots of the pagefile, the table of page-out jobs with [pageout_submit] and
    [pageout_poll_complete], and what a worker does to write a page out
    ([workerPageOut]) and to fill one ([workerPageFill]), over the model of the
    pagefile.

    The spin lock around the reservations makes each of them one step.  The flags
    [pageout_job_done] are written and never read, and are left out. *)

From S2P Require Import Prelude Arith Bitfield Pagefile Errno UserCopy FileTable FileWork.

Definition PAGEOUT_JOB_CAP : nat := 4.
Definition MAX_SLOTS : Z := 8192.

(** ** State *)

(** The [FileOpState] of a page-out job: its parameters, its result, and whether the
    worker is done with it. *)
Record Job := mkJob { job_slot : Z; job_frame : Z; job_result : FileOpResult; job_completed : bool }.
(** [job_meta] has slots and frames; [slot_busy] has a bit per slot. *)
Record Jobs := mkJobs { slot_busy : list Z; job_used : list bool; job_meta : list (Z * Z); job_states : list Job }.

Definition set_busy (b : list Z) (s : Jobs) : Jobs := mkJobs b (job_used s) (job_meta s) (job_states s).
Definition set_job_used (i : nat) (b : bool) (s : Jobs) : Jobs :=
  mkJobs (slot_busy s) (<[i := b]> (job_used s)) (job_meta s) (job_states s).
Definition set_job_meta (i : nat) (m : Z * Z) (s : Jobs) : Jobs :=
  mkJobs (slot_busy s) (job_used s) (<[i := m]> (job_meta s)) (job_states s).
Definition on_job (i : nat) (f : Job -> Job) : M Jobs unit :=
  s ← get;
  j ← access (job_states s !! i);
  put (mkJobs (slot_busy s) (job_used s) (job_meta s) (<[i := f j]> (job_states s))).
Definition job_reset (j : Job) : Job := mkJob (job_slot j) (job_frame j) (Errno 0) false.
Definition finish (r : FileOpResult) (j : Job) : Job := mkJob (job_slot j) (job_frame j) r true.

(** ** Reservations *)

Definition tryReserveSlot (slot : Z) : M Jobs bool :=
  if bool_decide (slot = 0) || bool_decide (MAX_SLOTS ≤ slot) then mret false
  else
    let word := slot / 64 in
    let bit := slot mod 64 in
    s ← get;
    w ← access (slot_busy s !! Z.to_nat word);
    let mask := Z.shiftl 1 bit in
    if bool_decide (Z.land w mask ≠ 0) then mret false
    else modify (set_busy (<[Z.to_nat word := Z.lor w mask]> (slot_busy s)));; mret true.
Definition releaseSlot (slot : Z) : M Jobs unit :=
  if bool_decide (slot = 0) || bool_decide (MAX_SLOTS ≤ slot) then mret tt
  else
    let word := slot / 64 in
    let bit := slot mod 64 in
    s ← get;
    w ← access (slot_busy s !! Z.to_nat word);
    modify (set_busy (<[Z.to_nat word := Z.land w (not64 (Z.shiftl 1 bit))]> (slot_busy s))).

(** ** Page-out jobs *)

Definition acquirePageOutJobSlot : M Jobs (option nat) :=
  s ← get;
  match first_unused 0 (job_used s) with
  | None => mret None
  | Some i => modify (set_job_used i true);; on_job i job_reset;; mret (Some i)
  end.
Definition releasePageOutJobSlot (i : nat) : M Jobs unit :=
  s ← get;
  if bool_decide (length (job_used s) ≤ i)%nat then mret tt
  else modify (set_job_used i false);; modify (set_job_meta i (0, 0)).

(** [enqueue] is what [workerEnqueue] returns for the job. *)
Definition pageout_submit (enqueue : nat -> Z) (slot frame : Z) : M Jobs Z :=
  ok ← tryReserveSlot slot;
  if negb ok then mret (- EAGAIN)
  else
    o ← acquirePageOutJobSlot;
    match o with
    | None => mret (- EAGAIN)
    | Some i =>
      on_job i job_reset;;
      on_job i (fun j => mkJob slot frame (job_result j) (job_completed j));;
      modify (set_job_meta i (slot, frame));;
      let rc := enqueue i in
      if bool_decide (rc < 0) then releasePageOutJobSlot i;; releaseSlot slot;; mret rc
      else mret 0
    end.

(** The status, and the frame and the slot when they are filled in. *)
Fixpoint poll_loop (idx : list nat) : M Jobs (Z * option (Z * Z)) :=
  match idx with
  | [] => mret (- EAGAIN, None)
  | i :: idx =>
    s ← get;
    used ← access (job_used s !! i);
    if negb used then poll_loop idx
    else
      j ← access (job_states s !! i);
      if negb (job_completed j) then poll_loop idx
      else
        meta ← access (job_meta s !! i);
        let errno := match job_result j with Status value => value | Errno e => e | _ => EIO end in
        on_job i job_reset;;
        releasePageOutJobSlot i;;
        releaseSlot (fst meta);;
        mret (errno, Some (snd meta, fst meta))
  end.
Definition pageout_poll_complete : M Jobs (Z * option (Z * Z)) := poll_loop (seq 0 PAGEOUT_JOB_CAP).

(** ** The workers *)

Section workers.
Context {X : Type} `{!PagefileEnv X}.
(** [nfs_handler.preadSync] on an open file: handle, offset and number of bytes. *)
Variable preadSync : Z -> Z -> Z -> X -> (NfsError + list Z) * X.

(** The jobs, the pagefile, and the bytes of the frames. *)
Record WorkerPages := mkWorkerPages { jobs : Jobs; pagefile : globals X; frame_data : Z -> list Z }.
Definition in_jobs {A} (m : M Jobs A) : M WorkerPages A := zoom jobs (fun j w => mkWorkerPages j (pagefile w) (frame_data w)) m.
Definition in_pagefile {A} (m : M (globals X) A) : M WorkerPages A := zoom pagefile (fun g w => mkWorkerPages (jobs w) g (frame_data w)) m.

Definition workerPageOut (i : nat) : M WorkerPages unit :=
  w ← get;
  j ← access (job_states (jobs w) !! i);
  let bounce := take (Z.to_nat PAGE_SIZE) (frame_data w (job_frame j)) in
  rc ← in_pagefile (pagefile_write_slot (job_slot j) bounce PAGE_SIZE);
  in_jobs (on_job i (finish (if bool_decide (rc ≠ 0) then Errno (- rc) else Status 0))).

(** [handle_ref] is what the reference of a mapping points to. *)
Inductive PageFillSource := Anonymous | FileBacked (file_offset : Z) (handle_ref : option FileHandleRef) | SwapSlot (slot : Z).

Definition zeros : list Z := replicate (Z.to_nat PAGE_SIZE) 0.
(** The result, and the payload with its length. *)
Definition workerPageFill (vm_handle : bool) (source : PageFillSource) : M WorkerPages (FileOpResult * list Z) :=
  if negb vm_handle then mret (Errno EFAULT, [])
  else
    match source with
    | Anonymous => mret (Status 0, zeros)
    | FileBacked off handle_ref =>
      match handle_ref with
      | None => mret (Errno EBADF, [])
      | Some ref =>
        raw ← match raw_handle ref with Some h => mret h | None => throw Fatal end;
        r ← in_pagefile (call (preadSync raw off PAGE_SIZE));
        match r with
        | inl err => mret (Errno (mapNfsError err), [])
        | inr data => mret (Status 0, data ++ drop (length data) zeros)
        end
      end
    | SwapSlot slot =>
      ok ← in_jobs (tryReserveSlot slot);
      if negb ok then mret (Errno EAGAIN, [])
      else
        r ← in_pagefile (pagefile_read_slot slot PAGE_SIZE);
        in_jobs (releaseSlot slot);;
        if bool_decide (fst r ≠ 0) then mret (Errno (- fst r), []) else mret (Status 0, snd r)
    end.
End workers.

(** ** Reservations are a set of slots *)

Definition busy_ok (s : Jobs) : Prop := bf_ok (slot_busy s) /\ length (slot_busy s) = 128%nat.
Definition reserved (s : Jobs) (k : Z) : Prop := has (slot_busy s) k.

Lemma busy_word s slot : busy_ok s -> 0 < slot < MAX_SLOTS ->
  0 ≤ slot < bf_size (slot_busy s) /\ exists w, slot_busy s !! Z.to_nat (slot / 64) = Some w /\ word_at (slot_busy s) (slot / 64) = Some w.
Proof.
  intros [_ Hl] Hs. unfold MAX_SLOTS in Hs. assert (Hb : 0 ≤ slot < bf_size (slot_busy s)) by (unfold bf_size; rewrite Hl; lia).
  split; [done|]. destruct (word_at_Some _ _ Hb) as [w Hw]. exists w. split; [|done].
  unfold word_at in Hw. by rewrite bool_decide_true in Hw by (apply Z.div_pos; lia).
Qed.
Lemma slot_out_of_range slot : (bool_decide (slot = 0) || bool_decide (MAX_SLOTS ≤ slot)) = negb (bool_decide (slot ≠ 0 /\ slot < MAX_SLOTS)).
Proof. repeat case_bool_decide; simpl; try done; lia. Qed.

Lemma tryReserveSlot_spec slot s : busy_ok s -> 0 ≤ slot ->
  wp (tryReserveSlot slot) (fun b s' => b = bool_decide ((0 < slot < MAX_SLOTS) /\ ~ reserved s slot) /\
    if b then exists ws, s' = set_busy ws s /\ busy_ok s' /\ forall k, reserved s' k <-> k = slot \/ reserved s k else s' = s) s.
Proof.
  intros Hb H0. unfold tryReserveSlot. rewrite slot_out_of_range. case_bool_decide as Hr; cbn [negb].
  2:{ wp_line. rewrite bool_decide_false by lia. done. }
  destruct (busy_word s slot Hb ltac:(lia)) as (Hsz & w & Hw & Hw'). wp_line. eapply wpf_access; [done|].
  pose proof (bf_get_bit_spec _ _ Hsz) as G. unfold bf_get_bit, WORD_INDEX, BIT_INDEX, WORD_BITS in G. rewrite Hw' in G. simpl in G.
  injection G as G. unfold BIT in G. rewrite G. destruct (decide (has (slot_busy s) slot)) as [Hh|Hh].
  - rewrite (bool_decide_true (has _ _)) by done. wp_line. rewrite bool_decide_false by (unfold reserved; tauto). done.
  - rewrite (bool_decide_false (has _ _)) by done. wp_line. rewrite bool_decide_true by (split; [lia|done]). split; [done|]. eexists. split; [done|].
    destruct (bf_set_bit_spec _ _ (proj1 Hb) Hsz) as (ws & Hset & Hok & Hlen & Hhas).
    unfold bf_set_bit, WORD_INDEX, BIT_INDEX, WORD_BITS in Hset. rewrite Hw' in Hset. simpl in Hset. injection Hset as <-.
    split; [|exact Hhas]. split; [exact Hok|]. simpl. rewrite length_insert. apply Hb.
Qed.
Lemma releaseSlot_spec slot s : busy_ok s -> 0 < slot < MAX_SLOTS ->
  wp (releaseSlot slot) (fun _ s' => exists ws, s' = set_busy ws s /\ busy_ok s' /\ forall k, reserved s' k <-> k ≠ slot /\ reserved s k) s.
Proof.
  intros Hb Hr. unfold releaseSlot. rewrite slot_out_of_range, bool_decide_true by lia. cbn [negb].
  destruct (busy_word s slot Hb Hr) as (Hsz & w & Hw & Hw'). wp_line. eapply wpf_access; [done|]. wp_line. eexists. split; [done|].
  destruct (bf_clr_bit_spec _ _ (proj1 Hb) Hsz) as (ws & Hset & Hok & Hlen & Hhas).
  unfold bf_clr_bit, WORD_INDEX, BIT_INDEX, WORD_BITS in Hset. rewrite Hw' in Hset. simpl in Hset. injection Hset as <-.
  rewrite not64_lxor by (apply Z.mod_pos_bound; lia).
  split; [|exact Hhas]. split; [exact Hok|]. simpl. rewrite length_insert. apply Hb.
Qed.

(** ** Jobs in flight *)

Definition errno_of_job (j : Job) : Z := match job_result j with Status value => value | Errno e => e | _ => EIO end.
(** The slots and frames of the jobs in flight, and those that are complete, with their
    status. *)
Definition flying_at (p : bool * (Z * Z)) : option (Z * Z) := if fst p then Some (snd p) else None.
Definition ready_at (p : bool * Job) : option (Z * Z * Z) :=
  if fst p && job_completed (snd p) then Some (job_slot (snd p), job_frame (snd p), errno_of_job (snd p)) else None.
Definition flying (s : Jobs) : list (Z * Z) := omap flying_at (zip (job_used s) (job_meta s)).
Definition ready (s : Jobs) : list (Z * Z * Z) := omap ready_at (zip (job_used s) (job_states s)).

#[global] Arguments flying : simpl never.
#[global] Arguments ready : simpl never.

Lemma omap_insert_perm {A B} (f : A -> option B) l i x y : l !! i = Some x ->
  option_list (f x) ++ omap f (<[i := y]> l) ≡ₚ option_list (f y) ++ omap f l.
Proof.
  revert i. induction l as [|z l IH]; intros [|i]; simpl; try done.
  - intros [= ->]. destruct (f x), (f y); simpl; try done. constructor.
  - intros Hi. specialize (IH i Hi). destruct (f z); [|done]. by rewrite <- !Permutation_middle, IH.
Qed.

Record jobs_ok (s : Jobs) : Prop := {
  jo_busy : busy_ok s;
  jo_used : length (job_used s) = PAGEOUT_JOB_CAP;
  jo_meta : length (job_meta s) = PAGEOUT_JOB_CAP;
  jo_states : length (job_states s) = PAGEOUT_JOB_CAP;
  jo_same : forall i j, job_used s !! i = Some true -> job_states s !! i = Some j -> job_meta s !! i = Some (job_slot j, job_frame j);
  jo_nodup : NoDup (flying s).*1;
  jo_slots : forall k, k ∈ (flying s).*1 -> (0 < k < MAX_SLOTS) /\ reserved s k }.

(** The three parts of an entry change together. *)
Definition cell (i : nat) (u : bool) (m : Z * Z) (j : Job) (s : Jobs) : Jobs :=
  mkJobs (slot_busy s) (<[i := u]> (job_used s)) (<[i := m]> (job_meta s)) (<[i := j]> (job_states s)).
Lemma cell_flying i u m j s u0 m0 : job_used s !! i = Some u0 -> job_meta s !! i = Some m0 ->
  option_list (flying_at (u0, m0)) ++ flying (cell i u m j s) ≡ₚ option_list (flying_at (u, m)) ++ flying s.
Proof.
  intros Hu Hm. unfold flying. simpl. rewrite <- (insert_zip_with pair). apply omap_insert_perm. by rewrite lookup_zip_with, Hu; simpl; rewrite Hm.
Qed.
Lemma cell_ready i u m j s u0 j0 : job_used s !! i = Some u0 -> job_states s !! i = Some j0 ->
  option_list (ready_at (u0, j0)) ++ ready (cell i u m j s) ≡ₚ option_list (ready_at (u, j)) ++ ready s.
Proof.
  intros Hu Hj. unfold ready. simpl. rewrite <- (insert_zip_with pair). apply omap_insert_perm. by rewrite lookup_zip_with, Hu; simpl; rewrite Hj.
Qed.
Lemma in_flying s i m : job_used s !! i = Some true -> job_meta s !! i = Some m -> m ∈ flying s.
Proof.
  intros Hu Hm. apply list_elem_of_omap. exists (true, m). split; [|done]. apply list_elem_of_lookup. exists i.
  by rewrite lookup_zip_with, Hu; simpl; rewrite Hm.
Qed.
Lemma in_ready s x : x ∈ ready s -> exists i j, job_used s !! i = Some true /\ job_states s !! i = Some j /\ job_completed j = true.
Proof.
  intros ([u j] & Hin & Hx)%list_elem_of_omap. apply list_elem_of_lookup in Hin as [i Hi].
  apply lookup_zip_Some in Hi as [Hu Hj]. unfold ready_at in Hx. simpl in Hx. destruct u, (job_completed j) eqn:Hc; try done. eauto.
Qed.
Lemma jobs_entry s i : jobs_ok s -> (i < PAGEOUT_JOB_CAP)%nat -> exists u m j,
  job_used s !! i = Some u /\ job_meta s !! i = Some m /\ job_states s !! i = Some j.
Proof.
  intros Hs Hi. destruct (lookup_lt_is_Some_2 (job_used s) i) as [u Hu]; [by rewrite (jo_used _ Hs)|].
  destruct (lookup_lt_is_Some_2 (job_meta s) i) as [m Hm]; [by rewrite (jo_meta _ Hs)|].
  destruct (lookup_lt_is_Some_2 (job_states s) i) as [j Hj]; [by rewrite (jo_states _ Hs)|]. eauto 10.
Qed.
Lemma jobs_ok_busy s ws : jobs_ok s -> busy_ok (set_busy ws s) -> (forall k, k ∈ (flying s).*1 -> has ws k) -> jobs_ok (set_busy ws s).
Proof. intros [H1 H2 H3 H4 H5 H6 H7] Hb Hk. split; try done. intros k Hin. split; [by apply H7|]. by apply Hk. Qed.

(** Three changes of the table: a job enters, a job is finished, and a job leaves. *)
Lemma job_enters s i slot frame ws : jobs_ok s -> job_used s !! i = Some false -> 0 < slot < MAX_SLOTS -> ~ reserved s slot ->
  busy_ok (set_busy ws s) -> (forall k, has ws k <-> k = slot \/ reserved s k) ->
  let s' := cell i true (slot, frame) (mkJob slot frame (Errno 0) false) (set_busy ws s) in
  jobs_ok s' /\ flying s' ≡ₚ (slot, frame) :: flying s /\ ready s' ≡ₚ ready s.
Proof.
  intros Hs Hu Hr Hn Hb Hw s'. destruct (jobs_entry s i Hs) as (u & m & j & Hu' & Hm & Hj); [rewrite <- (jo_used _ Hs); by eapply lookup_lt_Some|].
  simplify_eq. pose proof (cell_flying i true (slot, frame) (mkJob slot frame (Errno 0) false) (set_busy ws s) _ _ Hu Hm) as Hf.
  pose proof (cell_ready i true (slot, frame) (mkJob slot frame (Errno 0) false) (set_busy ws s) _ _ Hu Hj) as Hrd.
  fold s' in Hf, Hrd. change (flying (set_busy ws s)) with (flying s) in Hf. change (ready (set_busy ws s)) with (ready s) in Hrd.
  cbn in Hf, Hrd. split; [|done]. destruct Hs as [H1 H2 H3 H4 H5 H6 H7]. split; subst s'; simpl; rewrite ?length_insert; try done.
  - intros k jk. destruct (decide (k = i)) as [->|Hk].
    + intros _ Hl. rewrite list_lookup_insert_eq in Hl by (by eapply lookup_lt_Some). simplify_eq. simpl.
      by rewrite list_lookup_insert_eq by (by eapply lookup_lt_Some).
    + rewrite !list_lookup_insert_ne by done. apply H5.
  - rewrite Hf. simpl. constructor; [|done]. intros Hin. by apply H7 in Hin as [_ ?].
  - intros k. rewrite Hf. simpl. intros [->|Hin]%elem_of_cons; (split; [|apply Hw]); [done|by left|by apply H7|right; by apply H7].
Qed.
Lemma job_finished s i j r : jobs_ok s -> job_used s !! i = Some true -> job_states s !! i = Some j -> job_completed j = false ->
  let s' := mkJobs (slot_busy s) (job_used s) (job_meta s) (<[i := finish r j]> (job_states s)) in
  jobs_ok s' /\ flying s' = flying s /\ ready s' ≡ₚ (job_slot j, job_frame j, errno_of_job (finish r j)) :: ready s.
Proof.
  intros Hs Hu Hj Hc s'. pose proof (jo_same _ Hs _ _ Hu Hj) as Hm.
  pose proof (cell_ready i true (job_slot j, job_frame j) (finish r j) s _ _ Hu Hj) as Hrd.
  unfold cell in Hrd. rewrite !list_insert_id in Hrd by done. fold s' in Hrd. unfold ready_at in Hrd. simpl in Hrd. rewrite Hc in Hrd. simpl in Hrd.
  split; [|done]. destruct Hs as [H1 H2 H3 H4 H5 H6 H7]. split; subst s'; simpl; rewrite ?length_insert; try done.
  intros k jk Hk. destruct (decide (k = i)) as [->|Hne]; [|by rewrite list_lookup_insert_ne by done; apply H5].
  rewrite list_lookup_insert_eq by (by eapply lookup_lt_Some). intros [= <-]. done.
Qed.
Lemma job_leaves s i j j' ws : jobs_ok s -> job_used s !! i = Some true -> job_states s !! i = Some j ->
  busy_ok (set_busy ws s) -> (forall k, has ws k <-> k ≠ job_slot j /\ reserved s k) ->
  let s' := cell i false (0, 0) j' (set_busy ws s) in
  jobs_ok s' /\ flying s ≡ₚ (job_slot j, job_frame j) :: flying s' /\ ready s ≡ₚ option_list (ready_at (true, j)) ++ ready s'.
Proof.
  intros Hs Hu Hj Hb Hw s'. pose proof (jo_same _ Hs _ _ Hu Hj) as Hm.
  pose proof (cell_flying i false (0, 0) j' (set_busy ws s) _ _ Hu Hm) as Hf.
  pose proof (cell_ready i false (0, 0) j' (set_busy ws s) _ _ Hu Hj) as Hrd.
  fold s' in Hf, Hrd. change (flying (set_busy ws s)) with (flying s) in Hf. change (ready (set_busy ws s)) with (ready s) in Hrd.
  split; [|by split; symmetry]. cbn in Hf. destruct Hs as [H1 H2 H3 H4 H5 H6 H7].
  assert (Hnd : NoDup (job_slot j :: (flying s').*1)) by (change (NoDup (((job_slot j, job_frame j) :: flying s').*1)); by rewrite Hf).
  apply NoDup_cons in Hnd as [Hni Hnd]. split; try done; try (subst s'; simpl; by rewrite ?length_insert).
  - intros k jk. subst s'. simpl. destruct (decide (k = i)) as [->|Hne].
    + by rewrite list_lookup_insert_eq by (by eapply lookup_lt_Some).
    + rewrite !list_lookup_insert_ne by done. apply H5.
  - intros k Hk. destruct (H7 k) as [Hr Hres]; [rewrite <- Hf; simpl; by right|]. split; [done|]. apply Hw. split; [|done]. by intros ->.
Qed.

(** ** Submitting and polling *)

Definition all_used (s : Jobs) : Prop := Forall (fun b => b = true) (job_used s).

Lemma wpf_on_job F i f j (Q : unit -> Jobs -> Prop) s : job_states s !! i = Some j ->
  Q tt (mkJobs (slot_busy s) (job_used s) (job_meta s) (<[i := f j]> (job_states s))) -> wpf F (on_job i f) Q s.
Proof. intros Hj HQ. unfold on_job. wp_line. eapply wpf_access; [done|]. by wp_line. Qed.
Lemma release_job_spec {A} i slot (K : M Jobs A) Q s : busy_ok s -> (i < length (job_used s))%nat -> 0 < slot < MAX_SLOTS ->
  (forall ws, busy_ok (set_busy ws s) -> (forall k, has ws k <-> k ≠ slot /\ reserved s k) ->
    wp K Q (set_busy ws (set_job_meta i (0, 0) (set_job_used i false s)))) ->
  wp (releasePageOutJobSlot i;; releaseSlot slot;; K) Q s.
Proof.
  intros Hb Hi Hr HK. unfold releasePageOutJobSlot. wp_line. rewrite bool_decide_false by lia. wp_line.
  eapply wpf_mono; [by apply releaseSlot_spec|]. intros _ s' (ws & -> & Hok & Hws). by apply HK.
Qed.

(** What a submission does: the job enters the table, or nothing changes, or, with no
    free job, the slot is reserved and no job is there to release it. *)
Definition submitted (enqueue : nat -> Z) (slot frame : Z) (s : Jobs) (rc : Z) (s' : Jobs) : Prop :=
  jobs_ok s' /\ ready s' ≡ₚ ready s /\
  if bool_decide (rc = 0) then (0 < slot < MAX_SLOTS) /\ ~ reserved s slot /\ ~ all_used s /\ flying s' ≡ₚ (slot, frame) :: flying s /\ (forall k, reserved s' k <-> k = slot \/ reserved s k)
  else rc < 0 /\ flying s' ≡ₚ flying s /\
    if bool_decide ((0 < slot < MAX_SLOTS) /\ ~ reserved s slot) && bool_decide (all_used s)
    then rc = - EAGAIN /\ (forall k, reserved s' k <-> k = slot \/ reserved s k)
    else forall k, reserved s' k <-> reserved s k.

Lemma pageout_submit_spec enqueue slot frame s : jobs_ok s -> 0 ≤ slot ->
  wp (pageout_submit enqueue slot frame) (submitted enqueue slot frame s) s.
Proof.
  intros Hs H0. unfold pageout_submit. apply wpf_bind. eapply wpf_mono; [apply tryReserveSlot_spec; [apply Hs|done]|].
  intros b s1 [Hb Hs1]. destruct b; cbn [negb]; symmetry in Hb; bd.
  2:{ subst s1. wp_line. split; [done|]. split; [done|]. rewrite !bool_decide_false by done. by repeat split. }
  destruct Hs1 as (ws & -> & Hbok & Hws), Hb as [Hr Hn].
  unfold acquirePageOutJobSlot. wp_line. cbn [job_used set_busy]. destruct (first_unused 0 (job_used s)) as [i|] eqn:Hi.
  2:{ apply first_unused_None in Hi. wp_line. split; [|split; [done|]].
      - apply jobs_ok_busy; [done..|]. intros k Hk. apply Hws. right. by apply Hs.
      - rewrite bool_decide_false by done. split; [done|]. split; [done|]. by rewrite !bool_decide_true by done. }
  apply first_unused_Some in Hi as (_ & Hi & _). rewrite Nat.sub_0_r in Hi.
  destruct (jobs_entry s i Hs) as (u & m & j & Hu & Hm & Hj); [rewrite <- (jo_used _ Hs); by eapply lookup_lt_Some|].
  simplify_eq. destruct (job_enters s i slot frame ws Hs Hi Hr Hn Hbok Hws) as (Hok & Hf & Hrd).
  assert (Hl : (i < length (job_states s))%nat) by (by eapply lookup_lt_Some).
  assert (Ha : ~ all_used s) by (intros Ha; by eapply Forall_lookup_1 in Ha; [|exact Hi]).
  wp_line. eapply wpf_on_job; [done|]. wp_line. do 2 (eapply wpf_on_job; [apply list_lookup_insert_eq; simpl; rewrite ?length_insert; done|]; wp_line).
  set (s1 := set_job_meta _ _ _). assert (Hs1 : s1 = cell i true (slot, frame) (mkJob slot frame (Errno 0) false) (set_busy ws s)).
  { subst s1. unfold cell, set_job_meta. simpl. by rewrite !list_insert_insert_eq. }
  rewrite Hs1. clear s1 Hs1. set (s1 := cell _ _ _ _ _) in *. apply wpf_if; intros Hrc; bd.
  2:{ wp_line. split; [done|]. split; [done|]. by rewrite bool_decide_true by done. }
  apply release_job_spec; [apply Hok| |done|]; [simpl; rewrite length_insert; by eapply lookup_lt_Some|]. intros ws' Hb' Hws'.
  assert (Hi1 : job_used s1 !! i = Some true) by (apply list_lookup_insert_eq; by eapply lookup_lt_Some).
  assert (Hj1 : job_states s1 !! i = Some (mkJob slot frame (Errno 0) false)) by (by apply list_lookup_insert_eq).
  destruct (job_leaves s1 i _ (mkJob slot frame (Errno 0) false) ws' Hok Hi1 Hj1 Hb' Hws') as (Hok2 & Hf2 & Hrd2).
  replace (cell _ _ _ _ (set_busy ws' s1)) with (set_busy ws' (set_job_meta i (0, 0) (set_job_used i false s1))) in Hok2, Hf2, Hrd2
    by (unfold cell, set_job_meta, set_busy; simpl; by rewrite !list_insert_insert_eq).
  wp_line. split; [done|]. split; [by rewrite <- Hrd, Hrd2|]. rewrite bool_decide_false by lia. split; [done|].
  split; [apply (Permutation_cons_inv (a := (slot, frame))); by rewrite <- Hf, Hf2|].
  rewrite (bool_decide_false (all_used s)), andb_false_r by done.
  intros k. unfold reserved at 1. simpl. rewrite Hws'. split; [intros [Hk Hres]; apply Hws in Hres; tauto|].
  intros Hk. split; [by intros ->|]. apply Hws. by right.
Qed.
Definition polled (s : Jobs) (r : Z * option (Z * Z)) (s' : Jobs) : Prop :=
  jobs_ok s' /\
  match snd r with
  | None => fst r = - EAGAIN /\ s' = s
  | Some (frame, slot) => flying s ≡ₚ (slot, frame) :: flying s' /\ ready s ≡ₚ (slot, frame, fst r) :: ready s' /\
      (forall k, reserved s' k <-> k ≠ slot /\ reserved s k)
  end.
Definition is_ready (s : Jobs) (i : nat) : Prop := exists j, job_used s !! i = Some true /\ job_states s !! i = Some j /\ job_completed j = true.

Lemma pageout_poll_loop_spec idx s : jobs_ok s -> Forall (fun i => i < PAGEOUT_JOB_CAP)%nat idx ->
  wp (poll_loop idx) (fun r s' => polled s r s' /\ (snd r = None -> Forall (fun i => ~ is_ready s i) idx)) s.
Proof.
  intros Hs. induction 1 as [|i idx Hi Hidx IH]; cbn [poll_loop]; [by wp_line|].
  assert (Hskip : ~ is_ready s i -> wp (poll_loop idx) (fun r s' => polled s r s' /\ (snd r = None -> Forall (fun i => ~ is_ready s i) (i :: idx))) s).
  { intros Hn. eapply wpf_mono; [exact IH|]. intros r s' [H1 H2]. split; [done|]. intros E. constructor; auto. }
  destruct (jobs_entry s i Hs Hi) as (u & m & j & Hu & Hm & Hj). wp_line. eapply wpf_access; [done|].
  destruct u; cbn [negb]; [|apply Hskip; intros (? & ? & _); congruence].
  wp_line. eapply wpf_access; [done|]. destruct (job_completed j) eqn:Hc; cbn [negb]; [|apply Hskip; intros (? & _ & ? & ?); congruence].
  pose proof (jo_same _ Hs _ _ Hu Hj) as Hm'. simplify_eq. wp_line. eapply wpf_access; [done|]. wp_line. eapply wpf_on_job; [done|].
  assert (Hin : job_slot j ∈ (flying s).*1).
  { apply list_elem_of_fmap. exists (job_slot j, job_frame j). split; [done|]. by eapply in_flying. }
  apply release_job_spec; [apply Hs|by apply lookup_lt_Some in Hu|by apply Hs|]. intros ws Hb Hw. cbn [fst snd].
  destruct (job_leaves s i j (job_reset j) ws Hs Hu Hj Hb Hw) as (Hok & Hf & Hrd).
  wp_line. split; [|done]. split; [exact Hok|]. simpl. split; [exact Hf|]. split; [|exact Hw].
  unfold ready_at in Hrd. simpl in Hrd. rewrite Hc in Hrd. exact Hrd.
Qed.
Lemma pageout_poll_complete_spec s : jobs_ok s ->
  wp pageout_poll_complete (fun r s' => polled s r s' /\ (snd r = None -> ready s = [])) s.
Proof.
  intros Hs. eapply wpf_mono; [apply pageout_poll_loop_spec; [done|]|].
  { apply Forall_forall. intros i Hi%elem_of_seq. lia. }
  intros r s' [Hp Hn]. split; [done|]. intros E. destruct (ready s) as [|x l] eqn:Hr; [done|]. exfalso.
  destruct (in_ready s x) as (i & j & Hu & Hj & Hc); [rewrite Hr; by left|]. specialize (Hn E). rewrite Forall_forall in Hn.
  apply (Hn i); [|by exists j]. apply elem_of_seq. apply lookup_lt_Some in Hu. rewrite (jo_used _ Hs) in Hu. lia.
Qed.

(** ** Sequences of operations *)

(** The server submits and polls; a worker finishes a job, which is a page-out in
    progress. *)
Inductive JobOp := Submit (slot frame : Z) (enqueue : nat -> Z) | Done (i : nat) (r : FileOpResult) | Poll.
(** What an operation did to the jobs. *)
Inductive JobEvent := Refused (rc : Z) | Accepted (slot frame : Z) | Finished (slot frame status : Z) | Reported (slot frame status : Z) | Idle.

Definition job_op (o : JobOp) : M Jobs JobEvent :=
  match o with
  | Submit slot frame enqueue => rc ← pageout_submit enqueue slot frame; mret (if bool_decide (rc = 0) then Accepted slot frame else Refused rc)
  | Done i r =>
    s ← get;
    match job_used s !! i, job_states s !! i with
    | Some true, Some j =>
      if job_completed j then mret Idle
      else on_job i (finish r);; mret (Finished (job_slot j) (job_frame j) (errno_of_job (finish r j)))
    | _, _ => mret Idle
    end
  | Poll =>
    r ← pageout_poll_complete;
    mret (match snd r with Some (frame, slot) => Reported slot frame (fst r) | None => Idle end)
  end.
Fixpoint job_ops (l : list JobOp) : M Jobs (list JobEvent) :=
  match l with
  | [] => mret []
  | o :: l => e ← job_op o; es ← job_ops l; mret (e :: es)
  end.
Definition op_ok (o : JobOp) : Prop := match o with Submit slot _ _ => 0 ≤ slot | _ => True end.

Definition accepted (es : list JobEvent) : list (Z * Z) := omap (fun e => match e with Accepted slot frame => Some (slot, frame) | _ => None end) es.
Definition finished (es : list JobEvent) : list (Z * Z * Z) := omap (fun e => match e with Finished slot frame rc => Some (slot, frame, rc) | _ => None end) es.
Definition reported (es : list JobEvent) : list (Z * Z * Z) := omap (fun e => match e with Reported slot frame rc => Some (slot, frame, rc) | _ => None end) es.
(** What is in flight or accepted is in flight later or reported, and the same of what
    is complete. *)
Definition balanced (s : Jobs) (es : list JobEvent) (s' : Jobs) : Prop :=
  accepted es ++ flying s ≡ₚ (reported es).*1 ++ flying s' /\ finished es ++ ready s ≡ₚ reported es ++ ready s'.

Lemma job_op_spec o s : jobs_ok s -> op_ok o -> wp (job_op o) (fun e s' => jobs_ok s' /\ balanced s [e] s') s.
Proof.
  intros Hs Ho. unfold balanced. destruct o as [slot frame enq|i r|]; cbn [job_op].
  - wp_line. eapply wpf_mono; [by apply pageout_submit_spec|]. intros rc s' (Hok & Hr & H). wp_line. split; [done|].
    case_bool_decide; simpl; [destruct H as (_ & _ & _ & -> & _)|destruct H as (_ & -> & _)]; by rewrite Hr.
  - wp_line. destruct (job_used s !! i) as [[]|] eqn:Hu; try by wp_line.
    destruct (job_states s !! i) as [j|] eqn:Hj; [|by wp_line]. destruct (job_completed j) eqn:Hc; [by wp_line|].
    destruct (job_finished s i j r Hs Hu Hj Hc) as (Hok & Hf & Hr). wp_line. eapply wpf_on_job; [done|]. wp_line.
    split; [exact Hok|]. split; [by rewrite Hf|symmetry; exact Hr].
  - wp_line. eapply wpf_mono; [by apply pageout_poll_complete_spec|]. intros [rc [[frame slot]|]] s' [[Hok Hp] _]; simpl in Hp; wp_line; (split; [done|]).
    + by destruct Hp as (-> & -> & _).
    + by destruct Hp as [_ ->].
Qed.
Lemma perm_chain {A} (a1 a2 r1 r2 f0 f1 f2 : list A) : a1 ++ f0 ≡ₚ r1 ++ f1 -> a2 ++ f1 ≡ₚ r2 ++ f2 -> (a1 ++ a2) ++ f0 ≡ₚ (r1 ++ r2) ++ f2.
Proof. intros H1 H2. by rewrite (Permutation_app_comm a1), <- !app_assoc, H1, Permutation_app_swap_app, H2. Qed.
Lemma job_ops_spec l s : jobs_ok s -> Forall op_ok l -> wp (job_ops l) (fun es s' => jobs_ok s' /\ balanced s es s') s.
Proof.
  intros Hs Hl. revert s Hs. induction Hl as [|o l Ho Hl IH]; intros s Hs; cbn [job_ops]; [by wp_line|].
  wp_line. eapply wpf_mono; [by apply job_op_spec|]. intros e s1 [H1 [Hf1 Hr1]]. wp_line. eapply wpf_mono; [by apply IH|].
  intros es s2 [H2 [Hf2 Hr2]]. wp_line. split; [done|]. split.
  - change (e :: es) with ([e] ++ es). unfold accepted, reported. rewrite !omap_app, fmap_app. by eapply perm_chain.
  - change (e :: es) with ([e] ++ es). unfold finished, reported. rewrite !omap_app. by eapply perm_chain.
Qed.

(** The table at the start. *)
Definition no_jobs : Jobs :=
  mkJobs (replicate 128 0) (replicate PAGEOUT_JOB_CAP false) (replicate PAGEOUT_JOB_CAP (0, 0)) (replicate PAGEOUT_JOB_CAP (mkJob 0 0 (Errno 0) false)).
Lemma no_jobs_ok : jobs_ok no_jobs.
Proof.
  assert (Hf : flying no_jobs = []) by reflexivity. split; [|done|done|done| |rewrite Hf; constructor|rewrite Hf; by intros k ?%not_elem_of_nil].
  - split; [|apply length_replicate]. apply Forall_replicate. unfold is_w64. lia.
  - intros i j Hi. apply lookup_replicate in Hi as [? _]. done.
Qed.
Lemma flying_cap s : jobs_ok s -> (length (flying s) ≤ PAGEOUT_JOB_CAP)%nat.
Proof.
  intros Hs. assert (Hle : forall l : list (bool * (Z * Z)), (length (omap flying_at l) ≤ length l)%nat).
  { induction l as [|[[] m] l IH]; cbn in *; lia. }
  etrans; [apply Hle|]. rewrite length_zip_with, (jo_used _ Hs), (jo_meta _ Hs). lia.
Qed.

(** C36: for every sequence of submissions, completions by the workers and polls, from the
    empty table, none of which goes wrong: every page-out that was accepted is either in
    flight or has been reported, exactly once; every status reported is the one a worker
    finished the job with, and a completion not yet reported is in the table; at most
    four jobs are in flight, on different slots, all of them reserved. *)
Theorem pageout_jobs_correct l : Forall op_ok l ->
  exists es s, job_ops l no_jobs = Ok (es, s) /\
    accepted es ≡ₚ (reported es).*1 ++ flying s /\ finished es ≡ₚ reported es ++ ready s /\
    (length (flying s) ≤ 4)%nat /\ NoDup (flying s).*1 /\ (forall k, k ∈ (flying s).*1 -> reserved s k).
Proof.
  intros Hl. destruct (wp_inv _ _ _ (job_ops_spec l no_jobs no_jobs_ok Hl)) as (es & s & Hrun & Hs & Hf & Hr).
  exists es, s. split; [done|]. rewrite <- Hf, <- Hr. change (flying no_jobs) with (@nil (Z * Z)). change (ready no_jobs) with (@nil (Z * Z * Z)).
  rewrite !app_nil_r. split; [done|]. split; [done|]. split; [by apply flying_cap|]. split; [apply Hs|]. intros k Hk. by apply (jo_slots _ Hs).
Qed.

(** ** A submission that finds no job free *)

Definition stuck (s : Jobs) (slot : Z) : Prop := jobs_ok s /\ reserved s slot /\ slot ∉ (flying s).*1.
Lemma job_op_stuck o s slot : stuck s slot -> op_ok o ->
  wp (job_op o) (fun e s' => stuck s' slot /\ forall frame enq, o = Submit slot frame enq -> e = Refused (- EAGAIN)) s.
Proof.
  intros (Hs & Hres & Hni) Ho. unfold stuck. destruct o as [k frame enq|i r|]; cbn [job_op].
  - destruct (decide (k = slot)) as [->|Hk].
    { unfold pageout_submit. wp_line. eapply wpf_mono; [apply tryReserveSlot_spec; [apply Hs|done]|].
      intros b s' [Hb Hs']. rewrite bool_decide_false in Hb by tauto. subst b. simpl. subst s'. wp_line. by rewrite bool_decide_false by done. }
    wp_line. eapply wpf_mono; [by apply pageout_submit_spec|]. intros rc s' (Hok & Hr & H). wp_line.
    split; [|by intros ? ? [=]]. split; [done|]. case_bool_decide.
    + destruct H as (_ & _ & _ & -> & Hw). simpl. split; [apply Hw; by right|]. by apply not_elem_of_cons.
    + destruct H as (_ & -> & H). split; [|done]. destruct (_ && _); [destruct H as [_ H]|]; apply H; tauto.
  - wp_line. destruct (job_used s !! i) as [[]|] eqn:Hu; try by wp_line.
    destruct (job_states s !! i) as [j|] eqn:Hj; [|by wp_line]. destruct (job_completed j) eqn:Hc; [by wp_line|].
    destruct (job_finished s i j r Hs Hu Hj Hc) as (Hok & Hf & Hr). wp_line. eapply wpf_on_job; [done|]. wp_line.
    split; [|done]. split; [exact Hok|]. by rewrite Hf.
  - wp_line. eapply wpf_mono; [by apply pageout_poll_complete_spec|]. intros [rc [[frame k]|]] s' [[Hok Hp] _]; simpl in Hp; wp_line; (split; [|done]).
    + destruct Hp as (Hf & _ & Hw). rewrite Hf in Hni. simpl in Hni. apply not_elem_of_cons in Hni as [Hk Hni]. split; [done|]. split; [|done]. by apply Hw.
    + by destruct Hp as [_ ->].
Qed.
Lemma job_ops_stuck l s slot : stuck s slot -> Forall op_ok l ->
  wp (job_ops l) (fun es _ => forall i frame enq, l !! i = Some (Submit slot frame enq) -> es !! i = Some (Refused (- EAGAIN))) s.
Proof.
  intros Hs Hl. revert s Hs. induction Hl as [|o l Ho Hl IH]; intros s Hs; cbn [job_ops]; [by wp_line|].
  wp_line. eapply wpf_mono; [by apply job_op_stuck|]. intros e s1 [H1 He]. wp_line. eapply wpf_mono; [by apply IH|].
  intros es s2 Hes. wp_line. intros [|i] frame enq; simpl; [|apply Hes]. intros [= ->]. by rewrite (He frame enq).
Qed.

(** A submission that comes when the four jobs are in use answers [-EAGAIN] and
    leaves its slot reserved: from then on every submission of that slot answers
    [-EAGAIN], whatever the workers finish and the server polls in between, so that the
    caller that tries again until it is accepted does so forever. *)
Theorem pageout_retry_stuck s slot frame enqueue l :
  jobs_ok s -> all_used s -> 0 < slot < MAX_SLOTS -> ~ reserved s slot -> Forall op_ok l ->
  exists s1 es s2, pageout_submit enqueue slot frame s = Ok (- EAGAIN, s1) /\ job_ops l s1 = Ok (es, s2) /\
    forall i frame' enqueue', l !! i = Some (Submit slot frame' enqueue') -> es !! i = Some (Refused (- EAGAIN)).
Proof.
  intros Hs Ha Hr Hn Hl. destruct (wp_inv _ _ _ (pageout_submit_spec enqueue slot frame s Hs ltac:(lia))) as (rc & s1 & Hrun & Hok & _ & H).
  case_bool_decide; [tauto|]. destruct H as (_ & Hf & H). rewrite !bool_decide_true in H by done. simpl in H. destruct H as [-> Hw].
  assert (Hst : stuck s1 slot).
  { split; [done|]. split; [apply Hw; by left|]. rewrite Hf. intros Hin. by apply (jo_slots _ Hs) in Hin as [_ ?]. }
  destruct (wp_inv _ _ _ (job_ops_stuck l s1 slot Hst Hl)) as (es & s2 & Hrun2 & Hes). by exists s1, es, s2.
Qed.
(** ** A page goes out and comes back *)

Section swap.
Context {X : Type} `{!PagefileEnv X, !FileLaws X}.
Variable preadSync : Z -> Z -> Z -> X -> (NfsError + list Z) * X.

(** The worker writes the page of job [i], the server takes the completion, the frame is
    used for something else and the pagefile for other pages, and then a worker fills a
    page from the slot. *)
Definition out_and_in (i : nat) (slot : Z) (reuse : Z -> list Z) (l : list pf_io) : M WorkerPages ((Z * option (Z * Z)) * (FileOpResult * list Z)) :=
  workerPageOut i;;
  p ← in_jobs pageout_poll_complete;
  modify (fun w => mkWorkerPages (jobs w) (pagefile w) reuse);;
  in_pagefile (execs_io l);;
  r ← workerPageFill preadSync true (SwapSlot slot);
  mret (p, r).

(** The first half, on a page of four kilobytes. *)
Lemma page_goes_out {A} i j fh m k (w : WorkerPages (X := X)) (K : _ -> M (WorkerPages (X := X)) A) Q :
  jobs_ok (jobs w) -> job_used (jobs w) !! i = Some true -> job_states (jobs w) !! i = Some j -> job_completed j = false -> ready (jobs w) = [] ->
  represents fh (pagefile w) m k -> let page := take (Z.to_nat PAGE_SIZE) (frame_data w (job_frame j)) in Z.of_nat (length page) = PAGE_SIZE ->
  (forall p w', jobs_ok (jobs w') -> snd p = Some (job_frame j, job_slot j) -> ~ reserved (jobs w') (job_slot j) ->
    represents fh (pagefile w') m k -> (fst p = 0 -> stored fh (job_slot j) page (pagefile w')) -> wp (K p) Q w') ->
  wp (workerPageOut i;; p ← in_jobs pageout_poll_complete; K p) Q w.
Proof.
  intros Hs Hu Hj Hc Hrdy HR page Hlen HQ. unfold workerPageOut. wp_line. eapply wpf_access; [done|].
  assert (Hr : 0 < job_slot j < MAX_SLOTS).
  { apply (jo_slots _ Hs). apply list_elem_of_fmap. exists (job_slot j, job_frame j). split; [done|]. eapply in_flying; [done|]. by apply (jo_same _ Hs). }
  wp_line. apply wpf_zoom. eapply wpf_mono; [apply write_represents; [exact HR|lia|done]|]. intros rc g (HR1 & Hst & _).
  set (res := if bool_decide (rc ≠ 0) then Errno (- rc) else Status 0).
  destruct (job_finished (jobs w) i j res Hs Hu Hj Hc) as (Hok & _ & Hrd).
  apply wpf_zoom. eapply wpf_on_job; [done|]. wp_line. apply wpf_zoom. eapply wpf_mono; [apply (pageout_poll_complete_spec _ Hok)|].
  intros [st o] s' [[Hok' Hp] Hn]. rewrite Hrdy in Hrd. cbn [snd fst] in *. destruct o as [[frame slot]|].
  2:{ rewrite (Hn eq_refl) in Hrd. by apply Permutation_nil_l in Hrd. }
  destruct Hp as (_ & Hp & Hw). rewrite Hp in Hrd. symmetry in Hrd. apply Permutation_singleton_l in Hrd. injection Hrd as <- <- Est Hnil.
  apply HQ; [done|done|rewrite Hw; tauto|done|]. simpl. intros ->. apply Hst. unfold errno_of_job, res in Est. case_bool_decide; simpl in Est; lia.
Qed.

(** C38: a page that is in flight to the pagefile comes back as it was.  The server takes
    the completion of its own job, with the frame and the slot it submitted; if the
    status is 0, then, whatever the frame is used for afterwards and whatever else is
    allocated in, freed in or written to the other slots of the pagefile, a worker that
    fills a page from the slot and reports success has the bytes the frame had when it
    was written; the slot is free to be reserved again, so the fill is not turned away.
    Nothing goes wrong on the way. *)
Theorem swap_roundtrip i j fh m k l reuse (w : WorkerPages (X := X)) :
  jobs_ok (jobs w) -> job_used (jobs w) !! i = Some true -> job_states (jobs w) !! i = Some j -> job_completed j = false -> ready (jobs w) = [] ->
  represents fh (pagefile w) m (k + Z.of_nat (length l)) -> 0 ≤ k -> Forall Pagefile.io_ok l -> Forall (spares (job_slot j)) l ->
  let page := take (Z.to_nat PAGE_SIZE) (frame_data w (job_frame j)) in Z.of_nat (length page) = PAGE_SIZE ->
  wp (out_and_in i (job_slot j) reuse l) (fun '(p, r) w' => snd p = Some (job_frame j, job_slot j) /\
    (fst p = 0 -> fst r = Status 0 -> snd r = page) /\ jobs_ok (jobs w') /\ ~ reserved (jobs w') (job_slot j)) w.
Proof.
  intros Hs Hu Hj Hc Hrdy HR Hk Hl Hsp page Hlen. unfold out_and_in.
  assert (Hr : 0 < job_slot j < MAX_SLOTS).
  { apply (jo_slots _ Hs). apply list_elem_of_fmap. exists (job_slot j, job_frame j). split; [done|]. eapply in_flying; [done|]. by apply (jo_same _ Hs). }
  eapply page_goes_out; [done..|]. intros p w1 Hs1 Hp Hn HR1 Hst. wp_line.
  apply wpf_zoom. eapply wpf_mono; [apply (io_represents _ fh l _ m k (job_slot j) page (fst p = 0)); done|]. intros [] g (Hst2 & m2 & HR2).
  unfold workerPageFill. cbn [negb]. wp_line. apply wpf_zoom. eapply wpf_mono; [apply tryReserveSlot_spec; [apply Hs1|lia]|].
  intros b s1 [Hb Hs2]. rewrite bool_decide_true in Hb by done. subst b. destruct Hs2 as (ws & -> & Hb2 & Hw2). cbn [negb].
  wp_line. apply wpf_zoom. eapply wpf_mono; [apply (read_represents _ fh g m2 k (job_slot j) page (fst p = 0)); [done|lia|done|done]|].
  intros [st bytes] g' Hb. wp_line. apply wpf_zoom. eapply wpf_mono; [by apply releaseSlot_spec|]. intros [] s2 (ws2 & -> & Hb3 & Hw3).
  assert (Hend : jobs_ok (set_busy ws2 (set_busy ws (jobs w1))) /\ ~ reserved (set_busy ws2 (set_busy ws (jobs w1))) (job_slot j)).
  { split; [|rewrite Hw3; tauto]. apply (jobs_ok_busy (jobs w1) ws2); [done..|]. intros k' Hk'. apply Hw3.
    assert (Hk2 : reserved (jobs w1) k') by (by apply (jo_slots _ Hs1)). split; [by intros ->|]. apply Hw2. by right. }
  cbn [fst snd] in *. case_bool_decide; wp_line; simpl; split_and!; try done; try apply Hend. intros Hp0 _. apply Hb; [done|lia].
Qed.
End swap.

(** With four page-outs in flight, the fifth gives up, and tries again after all of them
    were reported. *)
Definition four_jobs : list JobOp := (fun k => Submit (Z.of_nat k) (100 + Z.of_nat k) (fun _ => 0)) <$> seq 1 4.
Lemma pageout_jobs_correct_witness :
  exists es s, job_ops (four_jobs ++ [Done 1 (Status 0); Poll; Poll; Submit 9 200 (fun _ => - EAGAIN); Submit 9 200 (fun _ => 0); Done 0 (Errno EIO); Poll]) no_jobs = Ok (es, s) /\
    accepted es ≡ₚ (reported es).*1 ++ flying s /\ finished es ≡ₚ reported es ++ ready s /\
    (length (flying s) ≤ 4)%nat /\ NoDup (flying s).*1 /\ (forall k, k ∈ (flying s).*1 -> reserved s k).
Proof. apply pageout_jobs_correct. repeat (apply Forall_cons; split; [simpl; lia || done|]). constructor. Defined.
Definition after_four : Jobs := match job_ops four_jobs no_jobs with Ok (_, s) => s | Fault _ => no_jobs end.
Definition later_ops : list JobOp := ((fun k => Done k (Status 0)) <$> seq 0 4) ++ [Poll; Poll; Poll; Poll; Submit 9 200 (fun _ => 0)].
Lemma after_four_ok : jobs_ok after_four.
Proof.
  unfold after_four. destruct (wp_inv _ _ _ (job_ops_spec four_jobs no_jobs no_jobs_ok ltac:(repeat (apply Forall_cons; split; [simpl; lia|]); constructor))) as (es & s & Hrun & Hs & _).
  by rewrite Hrun.
Qed.
Lemma pageout_retry_stuck_witness :
  exists s1 es s2, pageout_submit (fun _ => 0) 9 200 after_four = Ok (- EAGAIN, s1) /\ job_ops later_ops s1 = Ok (es, s2) /\
    forall i frame' enqueue', later_ops !! i = Some (Submit 9 frame' enqueue') -> es !! i = Some (Refused (- EAGAIN)).
Proof.
  apply pageout_retry_stuck; [apply after_four_ok|by vm_compute; repeat constructor|done| |].
  - apply (proj1 (bool_decide_eq_false _)). vm_compute. reflexivity.
  - repeat (apply Forall_cons; split; [simpl; lia || done|]). constructor.
Defined.

(** A page of threes goes out to slot 1 and comes back. *)
Definition no_pread (h off n : Z) (d : disk) : (NfsError + list Z) * disk := (inl NoNFSContext, d).
Definition one_flying : Jobs := match job_ops [Submit 1 7 (fun _ => 0)] no_jobs with Ok (_, s) => s | Fault _ => no_jobs end.
Definition swapping : WorkerPages := mkWorkerPages one_flying one_used (fun _ => page3).
Lemma one_flying_ok : jobs_ok one_flying.
Proof.
  unfold one_flying. destruct (wp_inv _ _ _ (job_ops_spec [Submit 1 7 (fun _ => 0)] no_jobs no_jobs_ok ltac:(repeat constructor; simpl; lia))) as (es & s & Hrun & Hs & _).
  by rewrite Hrun.
Qed.
Lemma swap_roundtrip_witness :
  exists bytes, value_of (out_and_in no_pread 0 1 (fun _ => []) between swapping) = Some ((0, Some (7, 1)), (Status 0, bytes)) /\ bytes = page3.
Proof.
  destruct one_used_represents as [m HR].
  pose proof (swap_roundtrip no_pread 0 (mkJob 1 7 (Errno 0) false) 5 m 6 between (fun _ => []) swapping one_flying_ok eq_refl eq_refl eq_refl eq_refl HR
    ltac:(lia) ltac:(repeat constructor; cbn; lia) ltac:(repeat constructor; cbn; lia) eq_refl) as H.
  exists page3. destruct (wpf_value _ _ _ _ ((0, Some (7, 1)), (Status 0, page3)) H ltac:(vm_compute; reflexivity)) as (g' & E1 & _ & Hb & _).
  split; [exact (f_equal value_of E1)|exact (Hb eq_refl eq_refl)].
Defined.
